(* ===== verification/_CoqProject ===== *)
-Q . S2P
Prelude.v
MamaStatus.v
Linked.v
WList.v
WListOps.v
WListSpec.v
WombatQueue.v
WombatQueueInv.v
WombatQueueOps.v
WombatQueueSpec.v
WombatQueueProps.v
Lookup2.v
WTable.v
WTableSpec.v
DqStrategy.v
DqSpec.v
DqProps.v
DqCache.v
Cstdio.v
Ft.v
FtWire.v
FtGroup.v
FtLife.v
MRSWLock.v
MRSWInv.v
MRSWProps.v
DestroyHandle.v
DateTime.v
DateTimeProps.v
DateTimeText.v
DateTimeTextProps.v
Throttle.v
ThrottleProps.v
EndpointPool.v
EndpointPoolProps.v
Timers.v
TimersProps.v
Listener.v
ListenerProps.v
Subscription.v
SubscriptionInv.v
SubscriptionSteps.v
SubscriptionProps.v
SubscThrottle.v
SubscLocks.v
Dictionary.v
DictionaryProps.v
Text.v
DictionaryText.v
DqPublisher.v
DqPublisherProps.v
DqPublisherManager.v
DqPublisherManagerProps.v
StrUtils.v
StrUtilsProps.v
PropertiesLexer.v
PropertiesText.v
Properties.v
PropertiesProps.v
RefreshTransport.v
RefreshTransportProps.v
FieldCacheVector.v
FieldCacheField.v
FieldCacheFieldProps.v
FieldCache.v
FieldCacheProps.v
MamaRegister.v
Mama.v
MamaInv.v
MamaLoads.v
MamaWf.v
MamaClose.v
MamaProps.v
MamaRun.v
MamaConfig.v
BaseQueue.v
WombatEventQueue.v
MamaQueue.v
MamaQueueSpec.v
MamaQueueProps.v
