(* ===== verification/Prelude.v ===== *)
(** * OpenMAMA: a verification development of the C core

    OpenMAMA is a messaging middleware API.  Its C core is two layers:
    [src/common/c_cpp/src/c] ("common") holds the containers, locks and queues;
    [src/mama/c_cpp/src/c] ("mama") holds the API proper, built over them:
    opening and closing with the bridges that are loaded, configuration,
    subscriptions and their data quality, publishing, dictionaries, the cache of
    fields, fault tolerance, throttled requests, dates.  This library models parts of both layers as executable definitions
    and proves what they promise.

    ** How the code is modelled

    A C function on an object is a computation of the monad [M S] below: explicit
    state of type [S] and an outcome that is a result or a [fault] (an access
    outside the allocated memory, a call of [abort()], a wait that never ends
    within one thread, fuel exhausted).  Machine integers are [Z] with the
    wrap-around of their width written out ([u32], [i32], ...).  Memory that the
    code links by pointers is a finite map from addresses to blocks; dangling
    and NULL pointers fault.  Theorems are total: [wp m s Q] says that the code
    returns and that its result and final state satisfy [Q].  Loops that are not
    structural carry fuel taken from the state (the number of blocks, the length
    of the text, the quota left), and each is proved never to run out.

    ** Files, and the sources they model

    - Prelude: this header, integers, the monad and its weakest preconditions,
      shared lemmas and tactics.  MamaStatus: the status codes of
      mama/status.h.  Cstdio: the parts of printf and scanf the sources use.
    - Linked: doubly linked memory, shared by the list and the queue.
    - WList (common/list.c): the intrusive list with its free list, its
      reference-counted iterators and its lock.  WListOps: every operation on a
      well-formed list.  WListSpec: the abstract list it simulates, traversal,
      iterators and removal.
    - WombatQueue (common/queue.c): the event queue: chunks, free list,
      semaphore and cursor.  WombatQueueInv, WombatQueueOps: its invariant and
      operations.  WombatQueueSpec, WombatQueueProps: the bounded FIFO it
      refines, order, capacity, and dispatchers that interleave.
    - Lookup2 (common/lookup2.c): the string hash.  WTable, WTableSpec
      (common/wtable.c): the hash table, and that it is a finite map.
    - MRSWLock, MRSWInv, MRSWProps (common/MRSWLock.c, linux/wSemaphore.c): the
      multiple-reader single-writer lock as a step relation of any number of
      threads, one step per access to the mutex, the semaphore or a field.
    - DestroyHandle (common/destroyHandle.c): reference-counted handles.
    - DqStrategy (mama/dqstrategy.c, dqstrategyplugin/dqstrategyplugin.c, parts
      of subscription.c, msg.c and msgutils.c): sequence numbers, gaps, recaps
      and the ring of cached messages.  DqSpec, DqProps, DqCache: in-order
      streams, gaps, late messages, takeovers, filling gaps from the ring.
    - Listener, ListenerProps (mama/listenermsgcallback.c, parts of
      subscription.c): the path of a message to the application, composed with
      the data quality layer as its hook.
    - Ft (mama/ft.c, timer.c): fault tolerant groups.  FtWire: heartbeats as
      text.  FtGroup: the election.  FtLife: activation and its failures.
    - DateTime, DateTimeProps (mama/datetime.c, datetimeimpl.h): dates, times
      and the calendar.  DateTimeText, DateTimeTextProps (also mamaStrUtils.c):
      reading and formatting them.
    - Throttle, ThrottleProps (mama/throttle.c): the throttle of outgoing
      requests, a client of the list's model.
    - EndpointPool, EndpointPoolProps (mama/endpointpool.c): topics, identifiers
      and endpoints, a client of the hash table's interface.
    - Timers, TimersProps (common/timers.c): the timer heap and its dispatch
      thread, over an interface of the red-black tree of systree.h.
    - Subscription (mama/subscription.c): the life cycle of subscriptions with all
      they hold on to.  SubscriptionInv, SubscriptionSteps: the invariant and what
      each operation does.  SubscriptionProps: safety, destruction, failures.
      SubscThrottle: the throttle as the queue of their actions.  SubscLocks: the
      locks of a subscription, its throttles and its image requests
      (mama/imagerequest.c) among threads, as programs that interleave.
    - Dictionary, DictionaryProps (mama/dictionary.c, fielddesc.c): the dictionary
      of fields.  Text, DictionaryText: its file.
    - DqPublisher, DqPublisherProps (mama/dqpublisher.c): numbered publishing.
      DqPublisherManager, DqPublisherManagerProps (mama/dqpublishermanager.c): the
      publishers of a source by symbol.
    - StrUtils, StrUtilsProps (common/strutils.c): environment variables, booleans,
      versions.
    - PropertiesLexer, PropertiesText (common/properties.l): the lexer of properties
      files.  Properties, PropertiesProps (common/property.c): tables of properties
      and the ownership of their strings.
    - RefreshTransport, RefreshTransportProps (mama/refreshtransport.c): the lists
      of subscriptions that are refreshed in time.
    - FieldCacheVector, FieldCacheField, FieldCacheFieldProps, FieldCache,
      FieldCacheProps (mama/fieldcache/): the cache of the fields of messages.
    - MamaRegister (mama/registerfunctions.c): the functions and versions of
      bridges.  Mama (mama/mama.c, parts of bridge.c and entitlement.c): the
      registries of bridges, opening and closing.  MamaInv, MamaLoads, MamaWf,
      MamaClose, MamaProps: that they stay sound, what every failure of a loader
      leaves, and what closing releases.  MamaRun: [mama_start] and [mama_stop]
      among threads.  MamaConfig: parameters and lists of properties.
    - BaseQueue (mama/bridge/base/queue.c): the queue of the base bridge, over an
      interface of the event queue it uses.  WombatEventQueue: the event queue of
      the common library meets it.  MamaQueue (mama/queue.c): queues, their objects,
      watermarks, destruction and dispatchers.  MamaQueueSpec, MamaQueueProps: the
      abstract queue with an alarm, and what follows for any such bridge.
    ** How the parts interact

    A component is proved against an interface of the ones it calls, and the
    implementation is an instance of it: linked memory behind the list and the
    event queue ([DNode], [HasMem]), the hash table behind the endpoint pool, the
    publishers and the properties ([StringTable]), the tree behind the timers ([TimeTree]), the
    throttle behind subscriptions ([ActionQueue], met by throttle.c in
    SubscThrottle), the properties behind opening ([PropertyTable]), the event queue
    behind the bridge's queue ([EventQueue], met in WombatEventQueue), payload
    libraries behind the field cache and the dictionary ([Payload], [FieldMsg]).  The throttle works on the memory
    of the list's model; the message path calls the data quality layer; what the
    numbered publisher sends is what that layer reads.

    ** What the theorems show

    Refinements of an abstract machine: the list, the event queue, the hash
    table, destroy handles, the throttle, the endpoint pool, the timer heap, the
    dictionary, the publisher manager, tables of properties, the field cache, the event
    queue API.
    Invariants of concurrent code: the reader-writer lock excludes and loses no
    wake-up; dispatchers of the event queue are safe in every interleaving; the
    timer thread never sleeps past a timer; every start of a bridge that counts is
    made or pending, and starts and stops take turns when no stop overtakes a start;
    a subscription's calls always complete exactly when it has neither a throttle
    nor an initial value to request, and can deadlock else.  Types and ownership: fields of the cache keep values of
    their type, subscriptions hold exactly what their state says, strings of
    properties and everything a bridge registry reaches are freed exactly once.
    Functional behaviour of protocols: an in-order stream passes the data quality
    layer and the whole message path unchanged, as it does with data quality off;
    what is published with numbers is received whole; a gap is announced once and
    mended; every subscription is refreshed in time; a fault tolerant group elects
    its best member.  Round trips: heartbeats, dates by field, dates as text, the
    hash's mixing step, dictionary files, properties files.
    Several theorems state exactly where the code departs from its documentation or
    from what it means to do: an iterator whose destruction does not end, an
    unblock that corrupts the queue, a takeover that silences a stream, dates from
    2038 on, a handle left locked, an array that grows for ever, a failed start
    that is forgotten, a stop that overtakes a start, a destroyed endpoint pool that calls through NULL.

    The conditions a theorem puts on the calls are named in its comment, many of
    them with an example of what happens without; where a header of the repository
    says otherwise than the code, the comment names that too.

    ** Bounds

    Addresses and sizes are below 2^64, counters have the width of their C
    type.  The event queue's theorems are for queues within their maximum size
    and 32-bit chunk counts; the lock's for any number of threads and any
    schedule; the election's for any group that hears all heartbeats; the starts
    of a bridge for fewer than 2^32 of them.  The wait for the
    objects of a queue has as many rounds as events are needed to close them; with a
    time, one for each 10 ms.  The lexer's fuel is the length of its
    input, as every match takes a character; the replacement of environment
    variables stops by the length of its buffer; the growth of the array of the
    field cache has 1025 rounds, as it grows by 64 up to 2^16; loops over lists
    have their length.

    ** Not modelled

    Bridges and payload libraries themselves (Qpid and others), which are behind
    the interfaces above; JNI, C++ and C# bindings, MAMDA, and command line tools.
    The transport and the plain publisher, which are mostly calls into a bridge;
    logging back ends and statistics objects, which are recorded as calls.
    Threads other than those of the lock, the event queue, the timer heap, the
    subscription's locks and [mama_start]: the other components run one call at
    a time, and but for events on a queue the callbacks they make do not call back
    into them.  Of the threads of dispatchers only what they do to the queue.  The macros of
    systree.h, a copy of the BSD tree, are an interface that a sorted list
    meets.  Floating point is modelled only in the throttle (IEEE doubles). *)

From stdpp Require Export base gmap list numbers strings.
From stdpp Require Import fin_maps.

#[export] Set Default Goal Selector "!".
#[global] Open Scope Z_scope.

(** ** C integers

    A C integer of width [w] is a [Z]; the wrap-around of unsigned arithmetic
    and the reinterpretation of a bit pattern as a signed value are written
    out. *)

Definition uwrap (w z : Z) : Z := z `mod` 2 ^ w.

Definition swrap (w z : Z) : Z :=
  let u := uwrap w z in if u <? 2 ^ (w - 1) then u else u - 2 ^ w.

Definition u8 (z : Z) : Z := uwrap 8 z.
Definition u16 (z : Z) : Z := uwrap 16 z.
Definition u32 (z : Z) : Z := uwrap 32 z.
Definition u64 (z : Z) : Z := uwrap 64 z.
Definition i32 (z : Z) : Z := swrap 32 z.
Definition i64 (z : Z) : Z := swrap 64 z.

Definition in_u (w z : Z) : Prop := 0 <= z < 2 ^ w.
Definition in_s (w z : Z) : Prop := - 2 ^ (w - 1) <= z < 2 ^ (w - 1).

(** ** Outcomes

    C code that dereferences an address outside the allocated memory, calls
    [abort()], waits for another thread, or (in a fuelled loop) does not finish
    within the fuel has no result; the four are kept apart. *)

Inductive fault : Type :=
| InvalidDeref
| Aborted
| Blocked
| OutOfFuel.

Inductive res (A : Type) : Type :=
| Ok (a : A)
| Fail (f : fault).
Arguments Ok {A} _.
Arguments Fail {A} _.

(** Stateful code over a state type [S]. *)
Definition M (S A : Type) : Type := S -> res (A * S).

#[export] Instance M_ret {S} : MRet (M S) := fun A a s => Ok (a, s).

#[export] Instance M_bind {S} : MBind (M S) := fun A B k m s =>
  match m s with
  | Ok (a, s') => k a s'
  | Fail f => Fail f
  end.

Definition get {S} : M S S := fun s => Ok (s, s).
Definition gets {S A} (f : S -> A) : M S A := fun s => Ok (f s, s).
Definition modify {S} (f : S -> S) : M S unit := fun s => Ok (tt, f s).
Definition fail {S A} (f : fault) : M S A := fun _ => Fail f.

(** The result of running [m] from [s], with the state dropped. *)
Definition value_of {S A} (r : res (A * S)) : option A :=
  match r with Ok (a, _) => Some a | Fail _ => None end.
Definition state_of {S A} (r : res (A * S)) : option S :=
  match r with Ok (_, s) => Some s | Fail _ => None end.

(** ** Weakest preconditions

    [wp m s Q]: run from [s], [m] returns (it neither faults nor runs out of
    fuel) and its result and final state satisfy [Q]. *)

Definition wp {S A} (m : M S A) (s : S) (Q : A -> S -> Prop) : Prop :=
  match m s with Ok (a, s') => Q a s' | Fail _ => False end.

Arguments wp {S A} m s Q : simpl never.

Section Wp.
  Context {S : Type}.

Lemma wp_elim {A} (m : M S A) s Q :
  wp m s Q <-> exists a s', m s = Ok (a, s') /\ Q a s'.
Proof.
  unfold wp. destruct (m s) as [[a s']|f]; split; [eauto|..|done|]; naive_solver.
Qed.

Lemma wp_ret {A} (a : A) (s : S) Q : Q a s -> wp (mret a : M S A) s Q.
Proof. done. Qed.

Lemma wp_bind {A B} (m : M S A) (k : A -> M S B) s Q :
  wp m s (fun a s' => wp (k a) s' Q) -> wp (m ≫= k) s Q.
Proof. unfold wp, mbind, M_bind. by destruct (m s) as [[a s']|f]. Qed.

Lemma wp_gets {A} (f : S -> A) s Q : Q (f s) s -> wp (gets f) s Q.
Proof. done. Qed.

Lemma wp_modify (f : S -> S) s Q : Q tt (f s) -> wp (modify f) s Q.
Proof. done. Qed.

Lemma wp_mono {A} (m : M S A) s (Q Q' : A -> S -> Prop) :
  wp m s Q -> (forall a s', Q a s' -> Q' a s') -> wp m s Q'.
Proof. unfold wp. destruct (m s) as [[a s']|f]; naive_solver. Qed.

End Wp.

(** ** Partial correctness *)

(** [tr m s Q]: if [m] returns from [s], the result and the state satisfy [Q]. *)
Definition tr {S A} (m : M S A) (s : S) (Q : A -> S -> Prop) : Prop :=
  match m s with Ok (a, s') => Q a s' | Fail _ => True end.

Section Tr.
Context {S : Type}.

Lemma tr_ret {A} (a : A) (s : S) (Q : A -> S -> Prop) : Q a s -> tr (mret a) s Q.
Proof. done. Qed.

Lemma tr_bind {A B} (m : M S A) (k : A -> M S B) s Q : tr m s (fun a s' => tr (k a) s' Q) -> tr (m ≫= k) s Q.
Proof. unfold tr, mbind, M_bind. by destruct (m s) as [[a s']|f]. Qed.

Lemma tr_gets {A} (f : S -> A) s Q : Q (f s) s -> tr (gets f) s Q.
Proof. done. Qed.

Lemma tr_modify (f : S -> S) s Q : Q tt (f s) -> tr (modify f) s Q.
Proof. done. Qed.

Lemma tr_fail {A} f s (Q : A -> S -> Prop) : tr (fail f) s Q.
Proof. done. Qed.

Lemma tr_mono {A} (m : M S A) s (Q Q' : A -> S -> Prop) : tr m s Q -> (forall a s', Q a s' -> Q' a s') -> tr m s Q'.
Proof. unfold tr. destruct (m s) as [[a s']|f]; naive_solver. Qed.

Lemma wp_tr {A} (m : M S A) s Q : wp m s Q -> tr m s Q.
Proof. unfold wp, tr. by destruct (m s) as [[a s']|f]. Qed.

Lemma tr_elim {A} (m : M S A) s Q a s' : tr m s Q -> m s = Ok (a, s') -> Q a s'.
Proof. unfold tr. intros HQ E. by rewrite E in HQ. Qed.

End Tr.

(** ** Generic lemmas on integers and lists *)

Lemma uwrap_range w z : 0 <= w -> in_u w (uwrap w z).
Proof. intros Hw. unfold in_u, uwrap. apply Z.mod_pos_bound. lia. Qed.

Lemma uwrap_small w z : in_u w z -> uwrap w z = z.
Proof. unfold in_u, uwrap. intros H. by apply Z.mod_small. Qed.

Lemma swrap_small w z : 0 < w -> in_s w z -> swrap w z = z.
Proof.
  intros Hw H. unfold in_s, swrap, uwrap in *.
  assert (2 ^ w = 2 * 2 ^ (w - 1)) as E.
  { rewrite <- Z.pow_succ_r by lia. f_equal. lia. }
  destruct (decide (0 <= z)) as [Hz|Hz].
  - rewrite Z.mod_small by lia. destruct (Z.ltb_spec z (2 ^ (w - 1))); lia.
  - replace (z `mod` 2 ^ w) with (z + 2 ^ w).
    + destruct (Z.ltb_spec (z + 2 ^ w) (2 ^ (w - 1))); lia.
    + rewrite <- (Z.mod_small (z + 2 ^ w) (2 ^ w)) by lia.
      rewrite <- Z.add_mod_idemp_r by lia. rewrite Z.mod_same by lia.
      by rewrite Z.add_0_r.
Qed.

(** Wrapping at a width, signed or not, keeps a number modulo 2^w. *)

Lemma mod_shift a b k c : 0 < k -> a = b + k * c -> a `mod` k = b `mod` k.
Proof. intros Hk ->. rewrite Z.mul_comm. apply Z_mod_plus_full. Qed.

Lemma swrap_range w z : 0 < w -> in_s w (swrap w z).
Proof.
  intros Hw. unfold in_s, swrap, uwrap.
  assert (2 ^ w = 2 * 2 ^ (w - 1)) as E by (rewrite <- Z.pow_succ_r by lia; f_equal; lia).
  pose proof (Z.mod_pos_bound z (2 ^ w) ltac:(lia)).
  destruct (Z.ltb_spec (z `mod` 2 ^ w) (2 ^ (w - 1))); lia.
Qed.

Lemma uwrap_swrap w z : 0 < w -> uwrap w (swrap w z) = uwrap w z.
Proof.
  intros Hw. unfold swrap, uwrap. destruct (_ <? _); [by rewrite Z.mod_mod by lia|].
  rewrite (mod_shift (z `mod` 2 ^ w - 2 ^ w) (z `mod` 2 ^ w) (2 ^ w) (-1)) by lia. by rewrite Z.mod_mod by lia.
Qed.

Lemma swrap_mod w a b : uwrap w a = uwrap w b -> swrap w a = swrap w b.
Proof. unfold swrap. by intros ->. Qed.

Lemma uwrap_add w a a' b b' :
  0 < w -> uwrap w a = uwrap w a' -> uwrap w b = uwrap w b' -> uwrap w (a + b) = uwrap w (a' + b').
Proof.
  unfold uwrap. intros Hw Ha Hb. by rewrite (Z.add_mod a b), Ha, Hb, <- Z.add_mod by lia.
Qed.

Lemma uwrap_uwrap w a : 0 < w -> uwrap w (uwrap w a) = uwrap w a.
Proof. unfold uwrap. intros Hw. by rewrite Z.mod_mod by lia. Qed.

(** [i32] and [u32] in any order keep the number modulo 2^32. *)
Lemma i32_u32_add a b : i32 (u32 (i32 a + u32 b)) = i32 (a + b).
Proof.
  apply swrap_mod. unfold u32, i32. rewrite uwrap_uwrap by lia.
  apply uwrap_add; [lia|by apply uwrap_swrap|by apply uwrap_uwrap].
Qed.

Lemma i64_small z : - 2 ^ 63 <= z < 2 ^ 63 -> i64 z = z.
Proof. intros H. apply swrap_small; [lia|]. unfold in_s. cbn in *. lia. Qed.

Lemma i32_small z : - 2 ^ 31 <= z < 2 ^ 31 -> i32 z = z.
Proof. intros H. apply swrap_small; [lia|]. unfold in_s. cbn in *. lia. Qed.

Lemma i32_range z : - 2 ^ 31 <= i32 z < 2 ^ 31.
Proof. exact (swrap_range 32 z ltac:(lia)). Qed.

Lemma i32_diff z : (z - i32 z) `mod` 2 ^ 32 = 0.
Proof.
  pose proof (uwrap_swrap 32 z ltac:(lia)) as E. unfold uwrap in E.
  unfold i32. rewrite Zminus_mod, E, Z.sub_diag. done.
Qed.

Lemma i64_i32 z : i64 (i32 z) = i32 z.
Proof. pose proof (i32_range z). apply i64_small. lia. Qed.

Lemma u32_small z : 0 <= z < 2 ^ 32 -> u32 z = z.
Proof. intros H. by apply uwrap_small. Qed.

Lemma u32_i32 z : in_u 32 z -> u32 (i32 z) = z.
Proof.
  unfold u32, i32, swrap, in_u. intros H. rewrite (uwrap_small 32 z) by done.
  destruct (Z.ltb_spec z (2 ^ (32 - 1))); [by apply uwrap_small|].
  unfold uwrap. rewrite <- (Z.mod_small z (2 ^ 32)) at 2 by done.
  rewrite <- (Z.mod_add (z - 2 ^ 32) 1) by lia. f_equal. lia.
Qed.

Lemma i32_u32 z : in_s 32 z -> i32 (u32 z) = z.
Proof.
  intros H. rewrite <- (swrap_small 32 z) at 2 by (lia || done). unfold i32, u32, swrap, uwrap.
  by rewrite Z.mod_mod by lia.
Qed.

Lemma NoDup_interval_length (l : list Z) (lo hi : Z) :
  NoDup l -> (forall p, p ∈ l -> lo <= p < hi) -> lo <= hi ->
  Z.of_nat (length l) <= hi - lo.
Proof.
  intros Hnd Hin Hle.
  assert (l ⊆+ seqZ lo (hi - lo)) as Hs.
  { apply NoDup_submseteq; [done|]. intros p Hp. apply elem_of_seqZ.
    apply Hin in Hp. lia. }
  apply submseteq_length in Hs. rewrite length_seqZ in Hs. lia.
Qed.

Lemma NoDup_app_comm_3 {A} (l1 l2 l3 : list A) :
  NoDup (l1 ++ l2 ++ l3) <-> NoDup (l2 ++ l1 ++ l3).
Proof. apply NoDup_Permutation_proper. by rewrite !app_assoc, (Permutation_app_comm l1 l2). Qed.

Lemma and_flatten (P Q R : Prop) : (P /\ Q) /\ R -> P /\ Q /\ R.
Proof. tauto. Qed.

Lemma elem_of_concat {A} (x : A) (ls : list (list A)) : x ∈ concat ls <-> exists l, x ∈ l /\ l ∈ ls.
Proof.
  rewrite list_elem_of_In, in_concat. split; intros (l & H1 & H2); exists l;
    rewrite !list_elem_of_In in *; tauto.
Qed.

(** ** Automation *)

Create HintDb mama discriminated.

(** Advance a weakest-precondition goal over the commands that cannot fail. *)
Ltac wp_pure_step :=
  lazymatch goal with
  | |- wp (mret _) _ _ => apply wp_ret
  | |- wp (mbind _ _) _ _ => apply wp_bind
  | |- wp (gets _) _ _ => apply wp_gets
  | |- wp (modify _) _ _ => apply wp_modify
  end.

Ltac wp_pure := repeat (cbn beta iota; wp_pure_step).

(** The same for [tr]. *)
Ltac tr_step :=
  lazymatch goal with
  | |- tr (mret _) _ _ => apply tr_ret
  | |- tr (mbind _ _) _ _ => apply tr_bind
  | |- tr (gets _) _ _ => apply tr_gets
  | |- tr (modify _) _ _ => apply tr_modify
  | |- tr (fail _) _ _ => apply tr_fail
  end.
Ltac tr_pure := repeat (cbn beta iota; tr_step).
