(* ===== verification/MamaStatus.v ===== *)
(** * Status codes: [mama/c_cpp/src/c/mama/status.h]

    The results of the API calls, shared by the components above the common
    library.  The entitlement codes (6001 and up) come from the external
    entitlement library and are not used by the modelled code. *)

From S2P Require Import Prelude.

Inductive mama_status : Type :=
| MAMA_STATUS_OK | MAMA_STATUS_NOMEM | MAMA_STATUS_PLATFORM | MAMA_STATUS_SYSTEM_ERROR
| MAMA_STATUS_INVALID_ARG | MAMA_STATUS_NULL_ARG | MAMA_STATUS_NOT_FOUND | MAMA_STATUS_TIMER_FAILURE
| MAMA_STATUS_IP_NOT_FOUND | MAMA_STATUS_TIMEOUT | MAMA_STATUS_NOT_ENTITLED
| MAMA_STATUS_PROPERTY_TOO_LONG | MAMA_STATUS_MD_NOT_OPENED | MAMA_STATUS_PUB_SUB_NOT_OPENED
| MAMA_STATUS_ENTITLEMENTS_NOT_ENABLED | MAMA_STATUS_BAD_TRANSPORT_TYPE
| MAMA_STATUS_UNSUPPORTED_IO_TYPE | MAMA_STATUS_TOO_MANY_DISPATCHERS | MAMA_STATUS_NOT_IMPLEMENTED
| MAMA_STATUS_WRONG_FIELD_TYPE | MAMA_STATUS_BAD_SYMBOL | MAMA_STATUS_IO_ERROR
| MAMA_STATUS_NOT_INSTALLED | MAMA_STATUS_CONFLATE_ERROR | MAMA_STATUS_QUEUE_FULL
| MAMA_STATUS_QUEUE_END | MAMA_STATUS_NO_BRIDGE_IMPL | MAMA_STATUS_INVALID_QUEUE
| MAMA_STATUS_NOT_MODIFIABLE | MAMA_STATUS_DELETE | MAMA_STATUS_NOT_PERMISSIONED
| MAMA_STATUS_SUBSCRIPTION_INVALID_STATE | MAMA_STATUS_QUEUE_OPEN_OBJECTS
| MAMA_STATUS_SUBSCRIPTION_INVALID_TYPE | MAMA_STATUS_SUBSCRIPTION_GAP | MAMA_STATUS_NOT_INITIALISED
| MAMA_STATUS_NO_SUBSCRIBERS | MAMA_STATUS_EXPIRED | MAMA_STATUS_BANDWIDTH_EXCEEDED.

#[export] Instance mama_status_eq_dec : EqDecision mama_status.
Proof. solve_decision. Defined.

Definition status_ok (st : mama_status) : bool := match st with MAMA_STATUS_OK => true | _ => false end.
