(* ===== verification/Linked.v ===== *)
(** * Linked memory

    The intrusive doubly linked structures of [common/c_cpp/src/c] (the list of
    [list.c] and the queue of [queue.c]) are blocks with a next and a previous
    pointer, reached from two dummy blocks.  This file gives the memory they
    live in: a finite map from addresses to blocks, loads and stores that fault
    outside the map, and the theory of the chains the pointers form.

    [DNode] is the interface a block type offers; [HasMem] says where a
    component's state keeps its blocks.  The two components instantiate both. *)

From S2P Require Import Prelude.

(** ** Blocks with a next and a previous pointer *)

Class DNode (N : Type) := {
  nd_next : N -> Z;
  nd_prev : N -> Z;
  set_nd_next : Z -> N -> N;
  set_nd_prev : Z -> N -> N;
  nd_next_set_next v n : nd_next (set_nd_next v n) = v;
  nd_next_set_prev v n : nd_next (set_nd_prev v n) = nd_next n;
  nd_prev_set_prev v n : nd_prev (set_nd_prev v n) = v;
  nd_prev_set_next v n : nd_prev (set_nd_next v n) = nd_prev n;
}.

(** A state that holds a memory of such blocks. *)
Class HasMem (S N : Type) := {
  get_mem : S -> gmap Z N;
  set_mem : gmap Z N -> S -> S;
  get_set_mem m s : get_mem (set_mem m s) = m;
  set_set_mem m m' s : set_mem m (set_mem m' s) = set_mem m s;
}.

Section Memory.
  Context {N : Type} `{!DNode N}.

Definition nxt (h : gmap Z N) (p : Z) : option Z := nd_next <$> h !! p.
Definition prv (h : gmap Z N) (p : Z) : option Z := nd_prev <$> h !! p.
Definition upd_next (p v : Z) (h : gmap Z N) : gmap Z N := alter (set_nd_next v) p h.
Definition upd_prev (p v : Z) (h : gmap Z N) : gmap Z N := alter (set_nd_prev v) p h.

  Context {S : Type} `{!HasMem S N}.

(** [p->mNext], [p->mPrev] read and written through a pointer. *)
Definition ld_next (p : Z) : M S Z := fun s =>
  match nxt (get_mem s) p with Some v => Ok (v, s) | None => Fail InvalidDeref end.
Definition ld_prev (p : Z) : M S Z := fun s =>
  match prv (get_mem s) p with Some v => Ok (v, s) | None => Fail InvalidDeref end.
Definition st_next (p v : Z) : M S unit := fun s =>
  match get_mem s !! p with
  | Some _ => Ok (tt, set_mem (upd_next p v (get_mem s)) s)
  | None => Fail InvalidDeref
  end.
Definition st_prev (p v : Z) : M S unit := fun s =>
  match get_mem s !! p with
  | Some _ => Ok (tt, set_mem (upd_prev p v (get_mem s)) s)
  | None => Fail InvalidDeref
  end.

(** *** Loads and stores on allocated blocks *)

Lemma wp_ld_next p v s Q : nxt (get_mem s) p = Some v -> Q v s -> wp (ld_next p) s Q.
Proof. intros H HQ. unfold wp, ld_next. by rewrite H. Qed.
Lemma wp_ld_prev p v s Q : prv (get_mem s) p = Some v -> Q v s -> wp (ld_prev p) s Q.
Proof. intros H HQ. unfold wp, ld_prev. by rewrite H. Qed.
Lemma wp_st_next p v s Q :
  is_Some (get_mem s !! p) -> Q tt (set_mem (upd_next p v (get_mem s)) s) -> wp (st_next p v) s Q.
Proof. intros [n H] HQ. unfold wp, st_next. by rewrite H. Qed.
Lemma wp_st_prev p v s Q :
  is_Some (get_mem s !! p) -> Q tt (set_mem (upd_prev p v (get_mem s)) s) -> wp (st_prev p v) s Q.
Proof. intros [n H] HQ. unfold wp, st_prev. by rewrite H. Qed.

(** *** What an update changes *)

Lemma nxt_upd_next h p v q :
  nxt (upd_next p v h) q = if decide (p = q) then (fun _ => v) <$> h !! q else nxt h q.
Proof.
  unfold nxt, upd_next. rewrite lookup_alter. destruct (decide (p = q)) as [->|]; [|done].
  destruct (h !! q) as [n|]; cbn; [|done]. by rewrite nd_next_set_next.
Qed.
Lemma prv_upd_prev h p v q :
  prv (upd_prev p v h) q = if decide (p = q) then (fun _ => v) <$> h !! q else prv h q.
Proof.
  unfold prv, upd_prev. rewrite lookup_alter. destruct (decide (p = q)) as [->|]; [|done].
  destruct (h !! q) as [n|]; cbn; [|done]. by rewrite nd_prev_set_prev.
Qed.
Lemma nxt_upd_prev h p v q : nxt (upd_prev p v h) q = nxt h q.
Proof.
  unfold nxt, upd_prev. rewrite lookup_alter. destruct (decide (p = q)) as [->|]; [|done].
  destruct (h !! q) as [n|]; cbn; [|done]. by rewrite nd_next_set_prev.
Qed.
Lemma prv_upd_next h p v q : prv (upd_next p v h) q = prv h q.
Proof.
  unfold prv, upd_next. rewrite lookup_alter. destruct (decide (p = q)) as [->|]; [|done].
  destruct (h !! q) as [n|]; cbn; [|done]. by rewrite nd_prev_set_next.
Qed.

Lemma nxt_upd_next_eq h p v : is_Some (h !! p) -> nxt (upd_next p v h) p = Some v.
Proof. intros [n H]. rewrite nxt_upd_next, decide_True by done. by rewrite H. Qed.
Lemma nxt_upd_next_ne h p v q : p ≠ q -> nxt (upd_next p v h) q = nxt h q.
Proof. intros H. by rewrite nxt_upd_next, decide_False. Qed.
Lemma prv_upd_prev_eq h p v : is_Some (h !! p) -> prv (upd_prev p v h) p = Some v.
Proof. intros [n H]. rewrite prv_upd_prev, decide_True by done. by rewrite H. Qed.
Lemma prv_upd_prev_ne h p v q : p ≠ q -> prv (upd_prev p v h) q = prv h q.
Proof. intros H. by rewrite prv_upd_prev, decide_False. Qed.

Lemma upd_next_alloc h p v q : is_Some (upd_next p v h !! q) <-> is_Some (h !! q).
Proof. unfold upd_next. by rewrite lookup_alter_is_Some. Qed.
Lemma upd_prev_alloc h p v q : is_Some (upd_prev p v h !! q) <-> is_Some (h !! q).
Proof. unfold upd_prev. by rewrite lookup_alter_is_Some. Qed.

Lemma nxt_alloc h p v : nxt h p = Some v -> is_Some (h !! p).
Proof. unfold nxt. destruct (h !! p); [eauto|done]. Qed.
Lemma prv_alloc h p v : prv h p = Some v -> is_Some (h !! p).
Proof. unfold prv. destruct (h !! p); [eauto|done]. Qed.

End Memory.

Arguments ld_next {N _ S _} _ _ : simpl never.
Arguments ld_prev {N _ S _} _ _ : simpl never.
Arguments st_next {N _ S _} _ _ _ : simpl never.
Arguments st_prev {N _ S _} _ _ _ : simpl never.

#[export] Hint Resolve nxt_alloc prv_alloc : mama.
#[export] Hint Resolve <- upd_next_alloc upd_prev_alloc : mama.
Create Rewrite HintDb linked.
#[export] Hint Rewrite @get_set_mem @set_set_mem @nxt_upd_prev @prv_upd_next : linked.
#[export] Hint Rewrite @nxt_upd_next_eq @prv_upd_prev_eq using (auto with mama) : linked.
#[export] Hint Rewrite @nxt_upd_next_ne @prv_upd_prev_ne using congruence : linked.

(** ** Doubly linked segments

    [linked h l]: consecutive addresses of [l] point at each other. *)

Section Linked.
  Context {N : Type} `{!DNode N}.
  Implicit Types (h : gmap Z N) (l : list Z) (a b x p q : Z).

Fixpoint linked h l : Prop :=
  match l with
  | a :: (b :: _) as r => nxt h a = Some b /\ prv h b = Some a /\ linked h r
  | _ => True
  end.

Lemma linked_cons2 h a b l :
  linked h (a :: b :: l) <-> nxt h a = Some b /\ prv h b = Some a /\ linked h (b :: l).
Proof. done. Qed.

Lemma linked_split h l1 a l2 :
  linked h (l1 ++ a :: l2) <-> linked h (l1 ++ [a]) /\ linked h (a :: l2).
Proof.
  induction l1 as [|b l1 IH]; [cbn; tauto|].
  destruct l1 as [|c l1]; [cbn; tauto|].
  change (linked h (b :: c :: (l1 ++ a :: l2)) <->
          linked h (b :: c :: (l1 ++ [a])) /\ linked h (a :: l2)).
  rewrite !linked_cons2. cbn [app] in IH. rewrite IH. tauto.
Qed.

(** Only the forward links of all but the last block and the backward links
    of all but the first one matter. *)
Lemma linked_frame h h' l :
  linked h l ->
  (forall p, p ∈ l -> nxt h' p = nxt h p) ->
  (forall p, p ∈ l -> prv h' p = prv h p) ->
  linked h' l.
Proof.
  induction l as [|a [|b l] IH]; [done..|].
  rewrite !linked_cons2. intros (Hn & Hp & Hl) Fn Fp.
  rewrite Fn, Fp by set_solver. split_and!; [done..|]. apply IH; set_solver.
Qed.

Lemma linked_frame_next_last h h' l a :
  linked h (l ++ [a]) ->
  (forall p, p ∈ l -> nxt h' p = nxt h p) ->
  (forall p, p ∈ l ++ [a] -> prv h' p = prv h p) ->
  linked h' (l ++ [a]).
Proof.
  induction l as [|b [|c l] IH]; [done|..]; cbn [app]; rewrite !linked_cons2;
    intros (Hn & Hp & Hl) Fn Fp; rewrite Fn, Fp by set_solver;
    split_and!; try done.
  apply IH; set_solver.
Qed.

Lemma linked_frame_prev_first h h' l a :
  linked h (a :: l) ->
  (forall p, p ∈ a :: l -> nxt h' p = nxt h p) ->
  (forall p, p ∈ l -> prv h' p = prv h p) ->
  linked h' (a :: l).
Proof.
  destruct l as [|b l]; [done|]. rewrite !linked_cons2. intros (Hn & Hp & Hl) Fn Fp.
  rewrite Fn, Fp by set_solver. split_and!; [done..|].
  eapply linked_frame; [done|..]; set_solver.
Qed.

(** Linking [x] between [a] and [b], whatever the order of the four stores. *)
Lemma linked_insert h h' l1 a b l2 x :
  linked h (l1 ++ a :: b :: l2) ->
  NoDup (l1 ++ a :: b :: l2) -> x ∉ l1 ++ a :: b :: l2 ->
  nxt h' x = Some b -> prv h' x = Some a ->
  nxt h' a = Some x -> prv h' b = Some x ->
  (forall p, p ≠ x -> p ≠ a -> nxt h' p = nxt h p) ->
  (forall p, p ≠ x -> p ≠ b -> prv h' p = prv h p) ->
  linked h' (l1 ++ a :: x :: b :: l2).
Proof.
  intros HL Hnd Hx Hxn Hxp Han Hbp Fn Fp.
  apply linked_split in HL as [HL1 HL2]. rewrite linked_cons2 in HL2.
  destruct HL2 as (_ & _ & HL2).
  apply NoDup_app in Hnd as (Hnd1 & Hdis & Hnd2).
  apply NoDup_cons in Hnd2 as [Ha Hnd2]. apply NoDup_cons in Hnd2 as [Hb Hnd2].
  apply linked_split. split.
  - eapply linked_frame_next_last; [exact HL1|..]; intros p Hp;
      [apply Fn|apply Fp]; set_solver.
  - rewrite !linked_cons2. split_and!; try done.
    eapply linked_frame_prev_first; [exact HL2|..]; intros p Hp;
      [apply Fn|apply Fp]; set_solver.
Qed.

(** Unlinking [x] from between [a] and [b]. *)
Lemma linked_remove h h' l1 a x b l2 :
  linked h (l1 ++ a :: x :: b :: l2) ->
  NoDup (l1 ++ a :: x :: b :: l2) ->
  nxt h' a = Some b -> prv h' b = Some a ->
  (forall p, p ≠ x -> p ≠ a -> nxt h' p = nxt h p) ->
  (forall p, p ≠ x -> p ≠ b -> prv h' p = prv h p) ->
  linked h' (l1 ++ a :: b :: l2).
Proof.
  intros HL Hnd Han Hbp Fn Fp.
  apply linked_split in HL as [HL1 HL2]. rewrite !linked_cons2 in HL2.
  destruct HL2 as (_ & _ & _ & _ & HL2).
  apply NoDup_app in Hnd as (Hnd1 & Hdis & Hnd2).
  apply NoDup_cons in Hnd2 as [Ha Hnd2]. apply NoDup_cons in Hnd2 as [Hx Hnd2].
  apply NoDup_cons in Hnd2 as [Hb Hnd2].
  apply linked_split. split.
  - eapply linked_frame_next_last; [exact HL1|..]; intros p Hp;
      [apply Fn|apply Fp]; set_solver.
  - rewrite linked_cons2. split_and!; try done.
    eapply linked_frame_prev_first; [exact HL2|..]; intros p Hp;
      [apply Fn|apply Fp]; set_solver.
Qed.

(** The neighbours of a block of a segment. *)
Lemma linked_neighbours h l1 a x b l2 :
  linked h (l1 ++ a :: x :: b :: l2) ->
  nxt h a = Some x /\ prv h x = Some a /\ nxt h x = Some b /\ prv h b = Some x.
Proof.
  intros H. apply linked_split in H as [_ H]. rewrite !linked_cons2 in H. tauto.
Qed.

Lemma linked_adjacent h l1 a b l2 :
  linked h (l1 ++ a :: b :: l2) -> nxt h a = Some b /\ prv h b = Some a.
Proof. intros H. apply linked_split in H as [_ H]. rewrite linked_cons2 in H. tauto. Qed.

#[export] Instance linked_dec h l : Decision (linked h l).
Proof.
  induction l as [|a [|b l] IH]; [left; done|left; done|].
  destruct (decide (nxt h a = Some b /\ prv h b = Some a)) as [H|H].
  - destruct IH as [IH|IH]; [left; rewrite linked_cons2; tauto|right; rewrite linked_cons2; tauto].
  - right. rewrite linked_cons2. tauto.
Defined.

End Linked.

(** ** Singly linked chains ended by NULL

    [chain f p l]: following [f] from [p] visits exactly [l] and ends at 0. *)

Section Chain.
  Implicit Types (f : Z -> option Z) (p : Z) (l : list Z).

Fixpoint chain f p l : Prop :=
  match l with
  | [] => p = 0
  | a :: r => p = a /\ a ≠ 0 /\ exists q, f a = Some q /\ chain f q r
  end.

Lemma chain_frame f g p l :
  chain f p l -> (forall a, a ∈ l -> g a = f a) -> chain g p l.
Proof.
  revert p. induction l as [|a l IH]; intros p; [done|].
  cbn. intros (-> & Ha & q & Hq & Hl) Hfg. split_and!; [done..|].
  exists q. rewrite Hfg by set_solver. split; [done|]. apply IH; [done|set_solver].
Qed.

#[export] Instance chain_dec f p l : Decision (chain f p l).
Proof.
  revert p. induction l as [|a l IH]; intros p; cbn; [apply _|].
  destruct (decide (p = a /\ a ≠ 0)) as [[H1 H2]|H]; [|right; tauto].
  destruct (f a) as [q|]; [|right; intros (_ & _ & q & [=] & _)].
  destruct (IH q) as [Hq|Hq]; [left; eauto|right; intros (_ & _ & q' & [= <-] & ?); done].
Defined.

Lemma chain_nil f p : chain f p [] <-> p = 0.
Proof. done. Qed.

Lemma chain_null f l : chain f 0 l -> l = [].
Proof. destruct l; [done|]. cbn. intros (<- & ? & _). done. Qed.

Lemma chain_mem f p l a : chain f p l -> a ∈ l -> is_Some (f a).
Proof.
  revert p. induction l as [|b l IH]; intros p; [set_solver|].
  cbn. intros (-> & _ & q & Hq & Hl). intros [->|Ha]%elem_of_cons; [by eexists|by eapply IH].
Qed.

Lemma chain_hd f p l : chain f p l -> p = default 0 (head l).
Proof. destruct l; cbn; [done|]. by intros [-> _]. Qed.

End Chain.

(** ** Automation

    [mem_solve] computes a pointer of an updated memory from the pointers of the
    original one, the disequalities in the context deciding which update is
    seen; [wp_mem] runs loads and stores with it. *)

(** Normalises the fields of an updated state; each component extends it with
    its own record. *)
Ltac state_simpl := idtac.

Ltac mem_solve :=
  state_simpl;
  try autorewrite with linked;
  eauto 8 with mama.

Ltac wp_mem_step :=
  lazymatch goal with
  | |- wp (ld_next _) _ _ => eapply wp_ld_next; [solve [mem_solve]|]
  | |- wp (ld_prev _) _ _ => eapply wp_ld_prev; [solve [mem_solve]|]
  | |- wp (st_next _ _) _ _ => eapply wp_st_next; [solve [mem_solve]|state_simpl]
  | |- wp (st_prev _ _) _ _ => eapply wp_st_prev; [solve [mem_solve]|state_simpl]
  end.

Ltac wp_mem := repeat (cbn beta iota; first [wp_pure_step; state_simpl | wp_mem_step]).
