(* ===== verification/WList.v ===== *)
(** * The intrusive list of [common/c_cpp/src/c/list.c]

    [wListImpl] keeps its elements between two dummy blocks inside the list
    structure itself, recycles removed elements through a free list threaded
    through the same next pointers, and moves the cursors of all live iterators
    off an element that is removed.  Addresses are integers laid out as in C:
    an element handed to the user starts [sizeof (header)] bytes after its
    header.  The recursive lock is a depth counter. *)

From S2P Require Import Prelude Linked.

Module WList.

(** ** Layout *)

Definition sizeof_align : Z := 8.
Definition sizeof_header : Z := 16.

(** [&impl->mHead], [&impl->mTail] and the first address after the structure. *)
Definition HEAD : Z := 4096.
Definition TAIL : Z := 4112.
Definition FIRST : Z := 8192.

(** [(header* )-1], the mark of an element on the free list. *)
Definition FREE_MARK : Z := -1.

Section List.
  Context {A : Type}.

Record header := mkHeader { mPrev : Z; mNext : Z; mData : A }.

Record wIteratorImpl := mkIter { currentElement : Z; it_next : Z }.

Record wListImpl := mkList {
  mem : gmap Z header;
  mFreeList : Z;
  mAllocSize : Z;
  lsize : Z;
  iterators : Z;
  its : gmap Z wIteratorImpl;
  lock : Z;
  brk : Z;
  limit : Z
}.

Definition set_mem_ (m : gmap Z header) (s : wListImpl) : wListImpl :=
  mkList m (mFreeList s) (mAllocSize s) (lsize s) (iterators s) (its s) (lock s) (brk s) (limit s).
Definition set_mFreeList (v : Z) (s : wListImpl) : wListImpl :=
  mkList (mem s) v (mAllocSize s) (lsize s) (iterators s) (its s) (lock s) (brk s) (limit s).
Definition set_lsize (v : Z) (s : wListImpl) : wListImpl :=
  mkList (mem s) (mFreeList s) (mAllocSize s) v (iterators s) (its s) (lock s) (brk s) (limit s).
Definition set_iterators (v : Z) (s : wListImpl) : wListImpl :=
  mkList (mem s) (mFreeList s) (mAllocSize s) (lsize s) v (its s) (lock s) (brk s) (limit s).
Definition set_its (v : gmap Z wIteratorImpl) (s : wListImpl) : wListImpl :=
  mkList (mem s) (mFreeList s) (mAllocSize s) (lsize s) (iterators s) v (lock s) (brk s) (limit s).
Definition set_lock (v : Z) (s : wListImpl) : wListImpl :=
  mkList (mem s) (mFreeList s) (mAllocSize s) (lsize s) (iterators s) (its s) v (brk s) (limit s).
Definition set_brk (v : Z) (s : wListImpl) : wListImpl :=
  mkList (mem s) (mFreeList s) (mAllocSize s) (lsize s) (iterators s) (its s) (lock s) v (limit s).

#[export] Instance header_node : DNode header := {
  nd_next := mNext;
  nd_prev := mPrev;
  set_nd_next v n := mkHeader (mPrev n) v (mData n);
  set_nd_prev v n := mkHeader v (mNext n) (mData n);
  nd_next_set_next v n := eq_refl;
  nd_next_set_prev v n := eq_refl;
  nd_prev_set_prev v n := eq_refl;
  nd_prev_set_next v n := eq_refl;
}.

#[export] Instance list_mem : HasMem wListImpl header := {
  get_mem := mem;
  set_mem := set_mem_;
  get_set_mem m s := eq_refl;
  set_set_mem m m' s := eq_refl;
}.

  Abbreviation LM := (M wListImpl).
  Context (zero : A).

(** ** Creation *)

(** The block size [list_create] computes for elements of [elementSize] bytes. *)
Definition alloc_size (elementSize : Z) : Z :=
  u64 (u64 (u64 (elementSize `div` sizeof_align
                 + (if elementSize `mod` sizeof_align =? 0 then 0 else 1))
            * sizeof_align)
       + sizeof_header).

(** [None] is [INVALID_LIST]: [malloc] failed. *)
Definition list_create (elementSize lim : Z) : option wListImpl :=
  if lim <? FIRST then None else
  Some (mkList (<[HEAD := mkHeader 0 TAIL zero]> (<[TAIL := mkHeader HEAD 0 zero]> ∅))
               0 (alloc_size elementSize) 0 0 ∅ 0 FIRST lim).

(** ** Elements *)

Definition hdr_of (element : Z) : Z := element - sizeof_header.
Definition elem_of (ele : Z) : Z := ele + sizeof_header.

Definition wlock_lock : LM unit := modify (fun s => set_lock (lock s + 1) s).
Definition wlock_unlock : LM unit := modify (fun s => set_lock (lock s - 1) s).

(** [memset (p, 0, impl->mAllocSize)] on an allocated block. *)
Definition memset_zero (p : Z) : LM unit := fun s =>
  match mem s !! p with
  | Some _ => Ok (tt, set_mem_ (<[p := mkHeader 0 0 zero]> (mem s)) s)
  | None => Fail InvalidDeref
  end.

(** [calloc (1, impl->mAllocSize)]; 0 when the memory is exhausted. *)
Definition calloc_block : LM Z := fun s =>
  if brk s + mAllocSize s <=? limit s
  then Ok (brk s, set_brk (brk s + mAllocSize s)
                    (set_mem_ (<[brk s := mkHeader 0 0 zero]> (mem s)) s))
  else Ok (0, s).

Definition list_allocate_element : LM Z :=
  wlock_lock ;;
  fl ← gets mFreeList;
  result ← (if fl =? 0 then mret 0 else
              n ← ld_next fl;
              modify (set_mFreeList n) ;;
              memset_zero fl ;;
              mret fl);
  wlock_unlock ;;
  result ← (if result =? 0 then
              r ← calloc_block;
              if r =? 0 then mret 0 else memset_zero r ;; mret r
            else mret result);
  mret (if result =? 0 then 0 else elem_of result).

Definition free_element_ (ele : Z) : LM unit :=
  p ← ld_prev ele;
  n ← ld_next ele;
  if negb (p =? 0) || negb (n =? 0) then mret tt else
  st_prev ele FREE_MARK ;;
  fl ← gets mFreeList;
  st_next ele fl ;;
  modify (set_mFreeList ele).

Definition list_free_element (element : Z) : LM unit :=
  let ele := hdr_of element in
  wlock_lock ;;
  if TAIL =? ele then fail Aborted else
  free_element_ ele ;;
  wlock_unlock.

(** ** Insertion *)

Definition list_push_back (element : Z) : LM unit :=
  let ele := hdr_of element in
  wlock_lock ;;
  st_next ele TAIL ;;
  p ← ld_prev TAIL;
  st_prev ele p ;;
  p ← ld_prev TAIL;
  st_next p ele ;;
  st_prev TAIL ele ;;
  modify (fun s => set_lsize (u64 (lsize s + 1)) s) ;;
  wlock_unlock.

Definition list_push_front (element : Z) : LM unit :=
  let ele := hdr_of element in
  wlock_lock ;;
  st_prev ele HEAD ;;
  n ← ld_next HEAD;
  st_next ele n ;;
  n ← ld_next HEAD;
  st_prev n ele ;;
  st_next HEAD ele ;;
  modify (fun s => set_lsize (u64 (lsize s + 1)) s) ;;
  wlock_unlock.

(** [list] and the result of the allocation are never NULL here: a NULL list
    is the caller passing no list at all. *)
Definition list_add_element : LM Z :=
  element ← list_allocate_element;
  if element =? 0 then mret 0 else
  list_push_back element ;;
  mret element.

Definition insert_before (what where_ : Z) : LM unit :=
  st_next what where_ ;;
  p ← ld_prev where_;
  st_prev what p ;;
  p ← ld_prev where_;
  st_next p what ;;
  st_prev where_ what ;;
  modify (fun s => set_lsize (u64 (lsize s + 1)) s).

Definition list_insert_before (position element : Z) : LM unit :=
  let where_ := hdr_of position in
  let what := hdr_of element in
  wlock_lock ;;
  p ← ld_prev where_;
  (if p =? 0 then wlock_unlock else
     n ← ld_next what;
     if negb (n =? 0) then wlock_unlock else
     insert_before what where_ ;;
     wlock_unlock).

(** ** Reading *)

Definition list_size : LM Z := gets lsize.

Definition list_get_head : LM Z :=
  wlock_lock ;;
  n ← ld_next HEAD;
  wlock_unlock ;;
  mret (if n =? TAIL then 0 else elem_of n).

Definition list_get_tail : LM Z :=
  wlock_lock ;;
  n ← ld_next HEAD;
  p ← ld_prev TAIL;
  wlock_unlock ;;
  mret (if n =? TAIL then 0 else elem_of p).

Definition list_get_next (element : Z) : LM Z :=
  let ele := hdr_of element in
  wlock_lock ;;
  n ← ld_next ele;
  wlock_unlock ;;
  mret (if n =? TAIL then 0 else elem_of n).

Fixpoint list_advance (k : nat) (e : Z) : LM Z :=
  match k with
  | O => mret e
  | S k' => e' ← list_get_next e; list_advance k' e'
  end.

(** [index] and the [count] the size is copied into are [int]s. *)
Definition list_get_element_at_index (index : Z) : LM Z :=
  wlock_lock ;;
  sz ← list_size;
  let count := i32 sz in
  result ← (if (index <? 0) || (count <=? index) then mret 0 else
              h ← list_get_head;
              list_advance (Z.to_nat index) h);
  wlock_unlock ;;
  mret result.

Definition list_is_empty : LM bool :=
  wlock_lock ;;
  n ← ld_next HEAD;
  wlock_unlock ;;
  mret (n =? TAIL).

(** ** Removal *)

(** The loop of [list_adjust_iterators] over the list of iterators. *)
Fixpoint adjust_loop (fuel : nat) (cur ele next : Z) : LM unit :=
  if cur =? 0 then mret tt else
  match fuel with
  | O => fail OutOfFuel
  | S fuel' => fun s =>
      match its s !! cur with
      | None => Fail InvalidDeref
      | Some it =>
          let s' := if currentElement it =? ele
                    then set_its (<[cur := mkIter next (it_next it)]> (its s)) s else s in
          adjust_loop fuel' (it_next it) ele next s'
      end
  end.

Definition list_adjust_iterators (ele : Z) : LM unit :=
  cur ← gets iterators;
  next ← ld_next ele;
  sz ← gets lsize;
  next ← (if (next =? TAIL) && (1 <? sz) then ld_next HEAD else mret next);
  fuel ← gets (fun s => size (its s));
  adjust_loop fuel cur ele next.

Definition list_pop_front : LM Z :=
  wlock_lock ;;
  e ← list_is_empty;
  if (e : bool) then wlock_unlock ;; mret 0 else
  rval ← ld_next HEAD;
  list_adjust_iterators rval ;;
  n ← ld_next rval;
  st_next HEAD n ;;
  n ← ld_next rval;
  st_prev n HEAD ;;
  st_next rval 0 ;;
  st_prev rval 0 ;;
  modify (fun s => set_lsize (u64 (lsize s - 1)) s) ;;
  wlock_unlock ;;
  mret (elem_of rval).

Definition list_remove_element (element : Z) : LM unit :=
  let ele := hdr_of element in
  wlock_lock ;;
  list_adjust_iterators ele ;;
  if ele =? TAIL then fail Aborted else
  p ← ld_prev ele;
  if (p =? 0) || (p =? FREE_MARK) then wlock_unlock else
  p ← ld_prev ele;
  n ← ld_next ele;
  st_next p n ;;
  n ← ld_next ele;
  p ← ld_prev ele;
  st_prev n p ;;
  modify (fun s => set_lsize (u64 (lsize s - 1)) s) ;;
  st_prev ele 0 ;;
  st_next ele 0 ;;
  wlock_unlock.

(** ** Traversal *)

Fixpoint for_each_loop (fuel : nat) (cb : Z -> LM unit) (cur : Z) : LM unit :=
  if (cur =? TAIL) || (cur =? HEAD) then mret tt else
  match fuel with
  | O => fail OutOfFuel
  | S fuel' =>
      next ← ld_next cur;
      cb (elem_of cur) ;;
      for_each_loop fuel' cb next
  end.

Definition list_for_each (cb : Z -> LM unit) : LM unit :=
  wlock_lock ;;
  cur ← ld_next HEAD;
  fuel ← gets (fun s => size (mem s));
  for_each_loop fuel cb cur ;;
  wlock_unlock.

(** ** Iterators *)

Definition ld_iter (it : Z) : LM wIteratorImpl := fun s =>
  match its s !! it with Some i => Ok (i, s) | None => Fail InvalidDeref end.
Definition st_current (it v : Z) : LM unit := fun s =>
  match its s !! it with
  | Some i => Ok (tt, set_its (<[it := mkIter v (it_next i)]> (its s)) s)
  | None => Fail InvalidDeref
  end.

Definition getCurrentNode (it : Z) : LM Z :=
  i ← ld_iter it;
  if (currentElement i =? HEAD) || (currentElement i =? TAIL) then
    sz ← gets lsize;
    if 0 <? sz then
      n ← ld_next HEAD;
      st_current it n ;;
      mret n
    else mret 0
  else mret (currentElement i).

(** The iterator structure is allocated at [p]. *)
Definition list_create_iterator (p : Z) : LM Z :=
  wlock_lock ;;
  h ← gets iterators;
  modify (set_iterators p) ;;
  c ← ld_next HEAD;
  modify (fun s => set_its (<[p := mkIter c h]> (its s)) s) ;;
  wlock_unlock ;;
  mret p.

Definition iterator_current (it : Z) : LM Z :=
  wlock_lock ;;
  rval ← getCurrentNode it;
  wlock_unlock ;;
  mret (if rval =? 0 then 0 else elem_of rval).

Definition iterator_insert_before (it element : Z) : LM unit :=
  let ele := hdr_of element in
  wlock_lock ;;
  c ← getCurrentNode it;
  insert_before ele c ;;
  wlock_unlock.

Definition iterator_next (it : Z) : LM Z :=
  wlock_lock ;;
  i ← ld_iter it;
  rval ← (if currentElement i =? TAIL then mret 0 else
            r ← getCurrentNode it;
            i ← ld_iter it;
            n ← ld_next (currentElement i);
            st_current it n ;;
            mret r);
  wlock_unlock ;;
  mret (if rval =? 0 then 0 else elem_of rval).

Definition iterator_next_circ (it : Z) : LM Z :=
  wlock_lock ;;
  rval ← getCurrentNode it;
  i ← ld_iter it;
  n ← ld_next (currentElement i);
  (if n =? TAIL then
     n ← ld_next HEAD;
     st_current it n
   else
     n ← ld_next (currentElement i);
     st_current it n) ;;
  wlock_unlock ;;
  mret (if rval =? 0 then 0 else elem_of rval).

(** The unlinking loop of [iterator_destroy]: [cur] is not advanced. *)
Fixpoint destroy_loop (fuel : nat) (cur it it_nxt : Z) : LM unit :=
  if cur =? 0 then mret tt else
  match fuel with
  | O => fail OutOfFuel
  | S fuel' =>
      c ← ld_iter cur;
      if it_next c =? it
      then modify (fun s => set_its (<[cur := mkIter (currentElement c) it_nxt]> (its s)) s)
      else destroy_loop fuel' cur it it_nxt
  end.

Definition iterator_destroy (fuel : nat) (it : Z) : LM unit :=
  wlock_lock ;;
  i ← ld_iter it;
  h ← gets iterators;
  (if h =? it then modify (set_iterators (it_next i))
   else destroy_loop fuel h it (it_next i)) ;;
  wlock_unlock ;;
  modify (fun s => set_its (delete it (its s)) s).

Definition iterator_move_element_before (it element : Z) : LM unit :=
  let ele := hdr_of element in
  wlock_lock ;;
  cur ← getCurrentNode it;
  (if ele =? cur then mret tt else
     p ← ld_prev cur;
     if ele =? p then mret tt else
     list_remove_element element ;;
     insert_before ele cur) ;;
  wlock_unlock.

(** ** Destruction

    The result lists the elements passed to the destructor in order, and every
    block freed: elements, iterators, elements of the free list. *)
Fixpoint walk (f : Z -> option Z) (fuel : nat) (stop cur : Z) : res (list Z) :=
  if cur =? stop then Ok [] else
  match fuel with
  | O => Fail OutOfFuel
  | S fuel' =>
      match f cur with
      | None => Fail InvalidDeref
      | Some n => match walk f fuel' stop n with
                  | Ok l => Ok (cur :: l)
                  | Fail e => Fail e
                  end
      end
  end.

Definition list_destroy (s : wListImpl) : res (list Z * (list Z * list Z * list Z)) :=
  match nxt (mem s) HEAD with
  | None => Fail InvalidDeref
  | Some cur =>
      match walk (nxt (mem s)) (size (mem s)) TAIL cur with
      | Fail f => Fail f
      | Ok elems =>
          match walk (fun i => it_next <$> its s !! i) (size (its s)) 0 (iterators s) with
          | Fail f => Fail f
          | Ok iters =>
              match walk (nxt (mem s)) (size (mem s)) 0 (mFreeList s) with
              | Fail f => Fail f
              | Ok freed => Ok (elem_of <$> elems, (elems, iters, freed))
              end
          end
      end
  end.

(** ** Representation invariant

    [repr s ls fl ids]: the list holds the blocks [ls] in this order, the free
    list holds [fl], every other allocated block is detached (both pointers
    NULL), and the live iterators are [ids], each standing on an element of the
    list or on the dummy tail. *)

Record repr (s : wListImpl) (ls fl ids : list Z) : Prop := mkRepr {
  r_linked : linked (mem s) (HEAD :: ls ++ [TAIL]);
  r_nodup : NoDup (HEAD :: TAIL :: ls ++ fl);
  r_free : chain (nxt (mem s)) (mFreeList s) fl;
  r_mark : forall p, p ∈ fl -> prv (mem s) p = Some FREE_MARK;
  r_detached : forall p, is_Some (mem s !! p) -> p ∉ HEAD :: TAIL :: ls ++ fl ->
                 nxt (mem s) p = Some 0 /\ prv (mem s) p = Some 0;
  r_range : forall p, is_Some (mem s !! p) -> 0 < p < brk s;
  r_ends : prv (mem s) HEAD = Some 0 /\ nxt (mem s) TAIL = Some 0;
  r_size : lsize s = Z.of_nat (length ls);
  r_bounds : FIRST <= brk s <= 2 ^ 64 /\ limit s <= 2 ^ 64 /\ sizeof_header <= mAllocSize s;
  r_iters : chain (fun i => it_next <$> its s !! i) (iterators s) ids;
  r_ids : NoDup ids /\ forall i, is_Some (its s !! i) <-> i ∈ ids;
  r_cursor : forall i it, its s !! i = Some it -> currentElement it ∈ ls ++ [TAIL]
}.

(** A block that is allocated but neither in the list nor on the free list. *)
Definition detached (s : wListImpl) (ls fl : list Z) (p : Z) : Prop :=
  is_Some (mem s !! p) /\ p ∉ HEAD :: TAIL :: ls ++ fl.

(** The fields no list operation touches. *)
Definition rest_eq (s s' : wListImpl) : Prop :=
  mFreeList s' = mFreeList s /\ mAllocSize s' = mAllocSize s /\
  iterators s' = iterators s /\ brk s' = brk s /\ limit s' = limit s.

(** The neighbours of the point between [l1] and [l2]. *)
Definition before (l1 : list Z) : Z := default HEAD (last l1).
Definition after (l2 : list Z) : Z := default TAIL (head l2).

Lemma HEAD_TAIL : HEAD ≠ TAIL.
Proof. done. Qed.

Lemma split_ends l1 l2 :
  exists p q, HEAD :: l1 = p ++ [before l1] /\ l2 ++ [TAIL] = after l2 :: q.
Proof.
  unfold before, after. destruct l2 as [|b l2].
  - destruct l1 as [|a l1 _] using rev_ind.
    + by exists [], [].
    + exists (HEAD :: l1), []. by rewrite last_snoc.
  - destruct l1 as [|a l1 _] using rev_ind.
    + by exists [], (l2 ++ [TAIL]).
    + exists (HEAD :: l1), (l2 ++ [TAIL]). by rewrite last_snoc.
Qed.

Lemma split_ring l1 l2 :
  exists p q, HEAD :: (l1 ++ l2) ++ [TAIL] = p ++ before l1 :: after l2 :: q /\
    forall x, HEAD :: (l1 ++ x :: l2) ++ [TAIL] = p ++ before l1 :: x :: after l2 :: q.
Proof.
  destruct (split_ends l1 l2) as (p & q & E1 & E2). exists p, q.
  split; [|intros x]; rewrite <- app_assoc; cbn [app]; rewrite app_comm_cons, E1, E2, <- app_assoc;
    done.
Qed.

Lemma before_in l1 : before l1 ∈ HEAD :: l1.
Proof.
  unfold before. destruct l1 as [|a l1 _] using rev_ind; [set_solver|].
  rewrite last_snoc. set_solver.
Qed.
Lemma after_in l2 : after l2 ∈ l2 ++ [TAIL].
Proof. unfold after. destruct l2; set_solver. Qed.

Lemma repr_alloc s ls fl ids p :
  repr s ls fl ids -> p ∈ HEAD :: TAIL :: ls ++ fl -> is_Some (mem s !! p).
Proof.
  intros R Hp. destruct (r_ends _ _ _ _ R) as [E1 E2].
  rewrite !elem_of_cons, elem_of_app in Hp. destruct Hp as [->|[->|[Hp|Hp]]].
  - eauto with mama.
  - eauto with mama.
  - apply list_elem_of_split in Hp as (l1 & l2 & ->).
    destruct (split_ring l1 l2) as (a & b & _ & E).
    pose proof (r_linked _ _ _ _ R) as L. rewrite E in L.
    apply linked_neighbours in L as (_ & ? & _). eauto with mama.
  - pose proof (r_mark _ _ _ _ R p Hp). eauto with mama.
Qed.

Lemma repr_positive s ls fl ids p :
  repr s ls fl ids -> p ∈ HEAD :: TAIL :: ls ++ fl -> 0 < p < brk s.
Proof. intros R Hp. eapply r_range; [done|]. by eapply repr_alloc. Qed.

(** All blocks are distinct 64-bit addresses, so the element count never wraps. *)
Lemma repr_length s ls fl ids :
  repr s ls fl ids -> Z.of_nat (length ls) + 1 < 2 ^ 64.
Proof.
  intros R.
  pose proof (NoDup_interval_length (HEAD :: TAIL :: ls ++ fl) 1 (brk s) (r_nodup _ _ _ _ R)) as H.
  pose proof (r_bounds _ _ _ _ R) as (B & _).
  cbn in H. rewrite length_app in H. unfold FIRST in B.
  assert (forall p, p ∈ HEAD :: TAIL :: ls ++ fl -> 1 <= p < brk s) as Hin.
  { intros p Hp. pose proof (repr_positive _ _ _ _ p R Hp). lia. }
  specialize (H Hin). lia.
Qed.

(** *** Linking and unlinking preserve the invariant *)

Lemma ring_nodup ls fl : NoDup (HEAD :: TAIL :: ls ++ fl) -> NoDup (HEAD :: ls ++ [TAIL]).
Proof.
  intros H. rewrite !NoDup_cons, NoDup_app in H. rewrite NoDup_cons, NoDup_app.
  destruct H as (H1 & H2 & H3 & H4 & H5). split_and!; try done.
  - set_solver.
  - set_solver.
  - apply NoDup_singleton.
Qed.

Lemma outside_ne l1 l2 fl p :
  p ∉ HEAD :: TAIL :: (l1 ++ l2) ++ fl -> p ≠ before l1 /\ p ≠ after l2.
Proof.
  intros H. pose proof (before_in l1). pose proof (after_in l2).
  rewrite !elem_of_cons, !elem_of_app in *. rewrite list_elem_of_singleton in *.
  split; intros ->; tauto.
Qed.

Lemma freed_ne l1 l2 fl p :
  NoDup (HEAD :: TAIL :: (l1 ++ l2) ++ fl) -> p ∈ fl -> p ≠ before l1 /\ p ≠ after l2.
Proof.
  intros H Hp. apply (outside_ne l1 l2 []). rewrite app_nil_r.
  change (NoDup ((HEAD :: TAIL :: l1 ++ l2) ++ fl)) in H.
  apply NoDup_app in H as (_ & H & _). intros Hin. by apply (H p).
Qed.

Lemma ends_ne l1 l2 fl :
  NoDup (HEAD :: TAIL :: (l1 ++ l2) ++ fl) -> TAIL ≠ before l1 /\ HEAD ≠ after l2.
Proof.
  intros H. pose proof (before_in l1) as Hb. pose proof (after_in l2) as Ha.
  rewrite !NoDup_cons in H. destruct H as (H1 & H2 & _).
  rewrite !elem_of_cons, !elem_of_app in *. rewrite list_elem_of_singleton in *.
  pose proof HEAD_TAIL. split; intros E; rewrite <- E in *; tauto || naive_solver.
Qed.

Lemma repr_insert s s' l1 l2 fl ids x :
  repr s (l1 ++ l2) fl ids -> detached s (l1 ++ l2) fl x ->
  nxt (mem s') x = Some (after l2) -> prv (mem s') x = Some (before l1) ->
  nxt (mem s') (before l1) = Some x -> prv (mem s') (after l2) = Some x ->
  (forall p, p ≠ x -> p ≠ before l1 -> nxt (mem s') p = nxt (mem s) p) ->
  (forall p, p ≠ x -> p ≠ after l2 -> prv (mem s') p = prv (mem s) p) ->
  (forall p, is_Some (mem s' !! p) <-> is_Some (mem s !! p)) ->
  lsize s' = u64 (lsize s + 1) -> its s' = its s -> rest_eq s s' ->
  repr s' (l1 ++ x :: l2) fl ids.
Proof.
  intros R [Hx Hxd] Hxn Hxp Han Hbp Fn Fp Hdom Hsz Hits (E1 & E2 & E3 & E4 & E5).
  pose proof (repr_length _ _ _ _ R) as Hlen.
  destruct R as [L ND FR MK DT RG EN SZ BD IT ID CU].
  assert (forall p, p ∈ HEAD :: TAIL :: (l1 ++ l2) ++ fl -> p ≠ x) as Hne by (intros p Hp ->; done).
  constructor.
  - destruct (split_ring l1 l2) as (p & q & E & E'). rewrite E'. rewrite E in L.
    apply ring_nodup in ND as NDr. rewrite E in NDr.
    eapply linked_insert; [exact L|exact NDr| |done..].
    rewrite <- E. intros Hin. apply (Hne x); [|done].
    rewrite !elem_of_cons, !elem_of_app, list_elem_of_singleton in *. tauto.
  - eapply (NoDup_Permutation_proper (x :: HEAD :: TAIL :: (l1 ++ l2) ++ fl)).
    { rewrite <- !(assoc_L (++)). cbn. by solve_Permutation. }
    by apply NoDup_cons.
  - rewrite E1. eapply chain_frame; [done|]. intros p Hp. apply Fn.
    + apply Hne. set_solver.
    + by apply (freed_ne l1 l2 fl).
  - intros p Hp. destruct (freed_ne l1 l2 fl p ND Hp). rewrite Fp; [by apply MK| |done].
    apply Hne. set_solver.
  - intros p Hp Hn. rewrite Hdom in Hp.
    assert (p ∉ HEAD :: TAIL :: (l1 ++ l2) ++ fl) as Hn' by set_solver.
    destruct (outside_ne _ _ _ _ Hn'). rewrite Fn, Fp by (done || set_solver). by apply DT.
  - intros p Hp. rewrite E4. apply RG. by apply Hdom.
  - destruct EN as [EN1 EN2]. destruct (ends_ne _ _ _ ND).
    rewrite Fn, Fp by (done || apply Hne; set_solver). done.
  - rewrite Hsz, SZ, !length_app in *. cbn [length]. unfold u64. rewrite uwrap_small; [lia|].
    unfold in_u. lia.
  - rewrite E2, E4, E5. done.
  - rewrite E3, Hits. done.
  - by rewrite Hits.
  - intros i it. rewrite Hits. intros Hi. apply CU in Hi. set_solver.
Qed.

(** The cursor adjustment of [list_adjust_iterators], on one iterator. *)
Definition adj (ele next : Z) (it : wIteratorImpl) : wIteratorImpl :=
  if currentElement it =? ele then mkIter next (it_next it) else it.

Lemma adj_next ele next it : it_next (adj ele next it) = it_next it.
Proof. unfold adj. by destruct (currentElement it =? ele). Qed.

Lemma repr_remove s s' l1 l2 fl ids x next :
  repr s (l1 ++ x :: l2) fl ids ->
  nxt (mem s') x = Some 0 -> prv (mem s') x = Some 0 ->
  nxt (mem s') (before l1) = Some (after l2) -> prv (mem s') (after l2) = Some (before l1) ->
  (forall p, p ≠ x -> p ≠ before l1 -> nxt (mem s') p = nxt (mem s) p) ->
  (forall p, p ≠ x -> p ≠ after l2 -> prv (mem s') p = prv (mem s) p) ->
  (forall p, is_Some (mem s' !! p) <-> is_Some (mem s !! p)) ->
  lsize s' = u64 (lsize s - 1) ->
  its s' = adj x next <$> its s -> next ∈ (l1 ++ l2) ++ [TAIL] -> rest_eq s s' ->
  repr s' (l1 ++ l2) fl ids /\ detached s' (l1 ++ l2) fl x.
Proof.
  intros R Hxn Hxp Han Hbp Fn Fp Hdom Hsz Hits Hnext (E1 & E2 & E3 & E4 & E5).
  pose proof (repr_length _ _ _ _ R) as Hlen.
  assert (is_Some (mem s !! x)) as Hxa by (eapply repr_alloc; [done|set_solver]).
  destruct R as [L ND FR MK DT RG EN SZ BD IT ID CU].
  assert (NoDup (x :: HEAD :: TAIL :: (l1 ++ l2) ++ fl)) as ND'.
  { eapply NoDup_Permutation_proper; [|exact ND].
    rewrite <- !(assoc_L (++)). cbn. by solve_Permutation. }
  apply NoDup_cons in ND' as [Hxd ND'].
  assert (forall p, p ∈ HEAD :: TAIL :: (l1 ++ l2) ++ fl -> p ≠ x) as Hne by (intros p Hp ->; done).
  split; [|split; [by apply Hdom|done]]. constructor.
  - destruct (split_ring l1 l2) as (p & q & E & E'). rewrite E. rewrite E' in L.
    apply ring_nodup in ND as NDr. rewrite E' in NDr.
    by eapply linked_remove.
  - done.
  - rewrite E1. eapply chain_frame; [done|]. intros p Hp. apply Fn.
    + apply Hne. set_solver.
    + by apply (freed_ne l1 l2 fl).
  - intros p Hp. destruct (freed_ne l1 l2 fl p ND' Hp). rewrite Fp; [by apply MK| |done].
    apply Hne. set_solver.
  - intros p Hp Hn. rewrite Hdom in Hp. destruct (decide (p = x)) as [->|Hpx]; [done|].
    destruct (outside_ne _ _ _ _ Hn). rewrite Fn, Fp by done. apply DT; [done|]. set_solver.
  - intros p Hp. rewrite E4. apply RG. by apply Hdom.
  - destruct EN as [EN1 EN2]. destruct (ends_ne _ _ _ ND').
    rewrite Fn, Fp by (done || apply Hne; set_solver). done.
  - rewrite Hsz, SZ, !length_app in *. cbn [length] in *. unfold u64. rewrite uwrap_small; [lia|].
    unfold in_u. lia.
  - rewrite E2, E4, E5. done.
  - rewrite E3, Hits. eapply chain_frame; [done|]. intros i _. rewrite lookup_fmap.
    destruct (its s !! i); cbn; [|done]. by rewrite adj_next.
  - destruct ID as [ID1 ID2]. split; [done|]. intros i. by rewrite Hits, lookup_fmap, fmap_is_Some.
  - intros i it. rewrite Hits, lookup_fmap_Some. intros (it' & <- & Hi). apply CU in Hi.
    unfold adj. destruct (Z.eqb_spec (currentElement it') x); cbn; [done|]. set_solver.
Qed.

End List.

Arguments header : clear implicits.
Arguments wListImpl : clear implicits.

End WList.
