(* ===== verification/WListOps.v ===== *)
(** * What the operations of the list do

    Each operation of [WList] run on a well-formed list: it returns, restores the
    lock depth, leaves the elements' contents alone, and moves exactly the blocks
    it should between the list, the free list and the detached blocks. *)

From S2P Require Import Prelude Linked WList.
Import WList.

(** ** Automation for this component *)

Ltac state_simpl ::=
  cbn [get_mem set_mem list_mem];
  unfold set_mem_, set_mFreeList, set_lsize, set_iterators, set_its, set_lock, set_brk;
  cbn [mem mFreeList mAllocSize lsize iterators its lock brk limit].

(** Runs a list operation: the lock commands besides loads and stores. *)
Ltac wp_list :=
  repeat (wp_mem;
          lazymatch goal with
          | |- wp wlock_lock _ _ => unfold wlock_lock
          | |- wp wlock_unlock _ _ => unfold wlock_unlock
          end);
  wp_mem.

Section Keeps.
  Context {A : Type}.


(** What every operation leaves alone: the lock is released as often as it was
    taken, and no element's contents change. *)
Definition keeps (s s' : wListImpl A) : Prop :=
  lock s' = lock s /\ forall p, mData <$> mem s' !! p = mData <$> mem s !! p.

Lemma dat_upd_next (h : gmap Z (header A)) p v q : mData <$> upd_next p v h !! q = mData <$> h !! q.
Proof.
  unfold upd_next. rewrite lookup_alter. destruct (decide (p = q)) as [->|]; [|done].
  by destruct (h !! q).
Qed.
Lemma dat_upd_prev (h : gmap Z (header A)) p v q : mData <$> upd_prev p v h !! q = mData <$> h !! q.
Proof.
  unfold upd_prev. rewrite lookup_alter. destruct (decide (p = q)) as [->|]; [|done].
  by destruct (h !! q).
Qed.

End Keeps.

Ltac keeps_solve :=
  split; [state_simpl; lia
         |intros ?; state_simpl;
          repeat first [rewrite dat_upd_next | rewrite dat_upd_prev]; done].

Ltac upd_solve :=
  solve [ mem_solve
        | intros; state_simpl;
          repeat first [rewrite upd_next_alloc | rewrite upd_prev_alloc]; done
        | done ].

Section Ops.
  Context {A : Type}.
  Implicit Types (s : wListImpl A) (ls fl ids : list Z).
  Abbreviation LM := (M (wListImpl A)).

Lemma ring_facts s l1 l2 fl ids :
  repr s (l1 ++ l2) fl ids ->
  nxt (mem s) (before l1) = Some (after l2) /\ prv (mem s) (after l2) = Some (before l1) /\
  before l1 ≠ after l2.
Proof.
  intros R. destruct (split_ring l1 l2) as (p & q & E & _).
  pose proof (r_linked _ _ _ _ R) as L. rewrite E in L.
  pose proof (ring_nodup _ _ (r_nodup _ _ _ _ R)) as ND. rewrite E in ND.
  apply linked_adjacent in L as [? ?]. split_and!; [done..|].
  apply NoDup_app in ND as (_ & _ & ND). apply NoDup_cons in ND as [ND _]. set_solver.
Qed.

Lemma insert_before_spec s l1 l2 fl ids x :
  repr s (l1 ++ l2) fl ids -> detached s (l1 ++ l2) fl x ->
  wp (insert_before x (after l2)) s (fun _ s' =>
    repr s' (l1 ++ x :: l2) fl ids /\ keeps s s' /\ its s' = its s).
Proof.
  intros R Hx. destruct (ring_facts _ _ _ _ _ R) as (F1 & F2 & F3).
  destruct (outside_ne _ _ _ _ (proj2 Hx)) as [Hxa Hxb]. pose proof (proj1 Hx).
  unfold insert_before. wp_mem. split_and!; [|keeps_solve|done].
  eapply (repr_insert s); [done|done|..]; try upd_solve; [|].
  all: intros; upd_solve.
Qed.

Lemma list_push_back_spec s ls fl ids e :
  repr s ls fl ids -> detached s ls fl (hdr_of e) ->
  wp (list_push_back e) s (fun _ s' =>
    repr s' (ls ++ [hdr_of e]) fl ids /\ keeps s s' /\ its s' = its s).
Proof.
  intros R Hx. rewrite <- (app_nil_r ls) in R, Hx.
  destruct (ring_facts _ _ _ _ _ R) as (F1 & F2 & F3). change (after []) with TAIL in *.
  destruct (outside_ne _ _ _ _ (proj2 Hx)) as [Hxa Hxb]. pose proof (proj1 Hx).
  change (after []) with TAIL in *.
  unfold list_push_back. wp_list. split_and!; [|keeps_solve|done].
  eapply (repr_insert s); [done|done|..]; try upd_solve; [|].
  all: change (after []) with TAIL in *; intros; upd_solve.
Qed.

Lemma list_push_front_spec s ls fl ids e :
  repr s ls fl ids -> detached s ls fl (hdr_of e) ->
  wp (list_push_front e) s (fun _ s' =>
    repr s' (hdr_of e :: ls) fl ids /\ keeps s s' /\ its s' = its s).
Proof.
  intros R Hx. change ls with ([] ++ ls) in R, Hx.
  destruct (ring_facts _ _ _ _ _ R) as (F1 & F2 & F3). change (before []) with HEAD in *.
  destruct (outside_ne _ _ _ _ (proj2 Hx)) as [Hxa Hxb]. pose proof (proj1 Hx).
  change (before []) with HEAD in *.
  unfold list_push_front. wp_list. split_and!; [|keeps_solve|done].
  eapply (repr_insert s _ [] ls); [done|done|..]; try upd_solve; [|].
  all: change (before []) with HEAD in *; intros; upd_solve.
Qed.

Lemma list_insert_before_spec s l1 q l2 fl ids e :
  repr s (l1 ++ q :: l2) fl ids -> detached s (l1 ++ q :: l2) fl (hdr_of e) ->
  wp (list_insert_before (elem_of q) e) s (fun _ s' =>
    repr s' (l1 ++ hdr_of e :: q :: l2) fl ids /\ keeps s s' /\ its s' = its s).
Proof.
  intros R Hx. destruct (ring_facts _ l1 (q :: l2) _ _ R) as (_ & F & _).
  destruct (r_detached _ _ _ _ R _ (proj1 Hx) (proj2 Hx)) as [Hn _].
  assert (hdr_of (elem_of q) = q) as Eq by (unfold hdr_of, elem_of; lia).
  assert (0 < before l1) as Hb.
  { eapply (repr_positive s); [done|]. pose proof (before_in l1). set_solver. }
  unfold list_insert_before. rewrite Eq. change (after (q :: l2)) with q in F. wp_list.
  destruct (Z.eqb_spec (before l1) 0); [lia|]. wp_list. cbn [negb Z.eqb]. wp_list.
  lazymatch goal with |- wp _ ?st _ => set (s1 := st) end.
  assert (repr s1 (l1 ++ q :: l2) fl ids) as R1 by (destruct R; by constructor).
  eapply wp_mono; [by apply (insert_before_spec s1 l1 (q :: l2) fl ids)|].
  intros _ s' (R' & [K1 K2] & K3). wp_list. split_and!; [by destruct R'; constructor| |done].
  split; [state_simpl; rewrite K1; cbn; lia|done].
Qed.

(** Operations refused quietly: the position is not in the list, or the
    element already is. *)
Lemma list_insert_before_refused s ls fl ids q e :
  repr s ls fl ids ->
  (detached s ls fl (hdr_of q) \/ (hdr_of q ∈ ls /\ hdr_of e ∈ ls)) ->
  wp (list_insert_before q e) s (fun _ s' => s' = s).
Proof.
  intros R H. destruct s as [m f a z it i k b li] eqn:Es. rewrite <- Es in *.
  unfold list_insert_before. destruct H as [H|[Hq He]].
  - destruct (r_detached _ _ _ _ R _ (proj1 H) (proj2 H)) as [_ Hp]. wp_list. cbn [Z.eqb].
    wp_list. subst s. state_simpl. f_equal. lia.
  - apply list_elem_of_split in Hq as (l1 & l2 & E). rewrite E in R.
    destruct (split_ring l1 l2) as (p & r & _ & E2).
    pose proof (r_linked _ _ _ _ R) as L. rewrite E2 in L.
    apply linked_neighbours in L as (_ & Hp & _).
    assert (0 < before l1) as Hb.
    { eapply (repr_positive s); [done|]. pose proof (before_in l1). set_solver. }
    rewrite <- E in R.
    apply list_elem_of_split in He as (k1 & k2 & Ek). rewrite Ek in R.
    destruct (split_ring k1 k2) as (p' & r' & _ & Ek2).
    pose proof (r_linked _ _ _ _ R) as L. rewrite Ek2 in L.
    apply linked_neighbours in L as (_ & _ & Hn & _).
    assert (0 < after k2) as Hb'.
    { eapply (repr_positive s); [done|]. pose proof (after_in k2). set_solver. }
    wp_list. destruct (Z.eqb_spec (before l1) 0); [lia|]. wp_list.
    destruct (Z.eqb_spec (after k2) 0); [lia|]. cbn [negb]. wp_list.
    subst s. state_simpl. f_equal. lia.
Qed.

(** *** Removal *)

Lemma set_its_id s : set_its (its s) s = s.
Proof. by destruct s. Qed.

Lemma adjust_loop_spec l : forall fuel cur ele next s,
  chain (fun i => it_next <$> its s !! i) cur l -> NoDup l -> (length l <= fuel)%nat ->
  wp (adjust_loop fuel cur ele next) s (fun _ s' =>
    exists m', s' = set_its m' s /\
      forall i, m' !! i = if decide (i ∈ l) then adj ele next <$> its s !! i else its s !! i).
Proof.
  induction l as [|a l IH]; intros fuel cur ele next s Hc Hnd Hf.
  - cbn in Hc. subst cur.
    replace (adjust_loop fuel 0 ele next) with (mret tt : LM unit) by (by destruct fuel).
    apply wp_ret. exists (its s). split.
    + symmetry; apply set_its_id.
    + intros i. by rewrite decide_False by set_solver.
  - destruct Hc as (-> & Ha & q & Hq & Hc). apply fmap_Some in Hq as (it & Hit & ->).
    apply NoDup_cons in Hnd as [Hal Hnd]. destruct fuel as [|fuel]; [cbn in Hf; lia|].
    cbn [adjust_loop]. destruct (Z.eqb_spec a 0); [done|]. unfold wp. rewrite Hit.
    set (s1 := if _ =? ele then _ else _).
    assert (s1 = set_its (<[a := adj ele next it]> (its s)) s) as E1.
    { unfold s1, adj. destruct (currentElement it =? ele); [done|].
      rewrite insert_id by done. by rewrite set_its_id. }
    clearbody s1. subst s1. eapply (wp_mono (adjust_loop _ _ _ _)); [apply IH; [|done|cbn in Hf; lia]|].
    + eapply chain_frame; [done|]. intros i Hi. state_simpl.
      destruct (decide (i = a)) as [->|]; [done|]. by rewrite lookup_insert_ne.
    + cbn. intros _ s' (m' & -> & Hm). exists m'. split; [done|]. intros i. rewrite Hm.
      destruct (decide (i = a)) as [->|Hia].
      * rewrite decide_False, decide_True by set_solver. by rewrite lookup_insert_eq, Hit.
      * rewrite lookup_insert_ne by done.
        destruct (decide (i ∈ l)); [rewrite decide_True by set_solver|rewrite decide_False by set_solver];
          done.
Qed.

(** On a well-formed list the walk visits every iterator. *)
Lemma adjust_all s ls fl ids ele next :
  repr s ls fl ids ->
  wp (adjust_loop (size (its s)) (iterators s) ele next) s (fun _ s' =>
    s' = set_its (adj ele next <$> its s) s).
Proof.
  intros R. destruct (r_ids _ _ _ _ R) as [Hnd Hdom].
  eapply wp_mono; [apply (adjust_loop_spec ids)|].
  - apply (r_iters _ _ _ _ R).
  - done.
  - assert (ids ⊆+ elements (dom (its s))) as Hs.
    { apply NoDup_submseteq; [done|]. intros i Hi. rewrite elem_of_elements, elem_of_dom.
      by apply Hdom. }
    apply submseteq_length in Hs. by rewrite <- size_dom.
  - cbn. intros _ s' (m' & -> & Hm). f_equal. apply map_eq. intros i. rewrite Hm, lookup_fmap.
    destruct (decide (i ∈ ids)) as [Hi|Hi]; [done|].
    destruct (its s !! i) eqn:E; [|done]. destruct Hi. apply Hdom. eauto.
Qed.

(** The cursor left by removing [x]: the element after it, or the first one
    when the last of several elements goes. *)
Definition next_cursor (l1 l2 : list Z) : Z :=
  match l2 with [] => after (l1 ++ l2) | n :: _ => n end.

Lemma next_cursor_in l1 l2 : next_cursor l1 l2 ∈ (l1 ++ l2) ++ [TAIL].
Proof. unfold next_cursor. destruct l2; [apply after_in|set_solver]. Qed.

Lemma list_adjust_iterators_spec s l1 x l2 fl ids :
  repr s (l1 ++ x :: l2) fl ids ->
  wp (list_adjust_iterators x) s (fun _ s' =>
    s' = set_its (adj x (next_cursor l1 l2) <$> its s) s).
Proof.
  intros R. destruct (split_ring l1 l2) as (p & q & _ & E).
  pose proof (r_linked _ _ _ _ R) as L. rewrite E in L.
  apply linked_neighbours in L as (_ & _ & Hn & _).
  destruct (ring_facts s [] (l1 ++ x :: l2) _ _ R) as (Hh & _ & _).
  change (before []) with HEAD in Hh.
  unfold list_adjust_iterators. wp_list.
  replace (if _ : bool then _ else _) with
    (if (after l2 =? TAIL) && (1 <? lsize s) then ld_next HEAD else mret (after l2) : LM Z) by done.
  eapply (wp_mono _ _ (fun n s' => n = next_cursor l1 l2 /\ s' = s)).
  - rewrite (r_size _ _ _ _ R), length_app. cbn [length]. unfold next_cursor.
    destruct l2 as [|b l2].
    + change (after [] =? TAIL) with true. cbn [andb length].
      destruct (Z.ltb_spec 1 (Z.of_nat (length l1 + 1))) as [Hl|Hl].
      * rewrite app_nil_r. destruct l1 as [|c l1]; [cbn in Hl; lia|].
        change (after ((c :: l1) ++ [x])) with c in Hh. by wp_list.
      * destruct l1; [by apply wp_ret|cbn in Hl; lia].
    + assert (b ≠ TAIL) as Hb.
      { pose proof (r_nodup _ _ _ _ R) as ND. rewrite !NoDup_cons in ND. set_solver. }
      change (after (b :: l2)) with b.
      destruct (Z.eqb_spec b TAIL); [done|]. cbn. by wp_list.
  - intros n s' [-> ->]. wp_list. by eapply adjust_all.
Qed.

Lemma elem_hdr e : elem_of (hdr_of e) = e.
Proof. unfold elem_of, hdr_of. lia. Qed.
Lemma hdr_elem p : hdr_of (elem_of p) = p.
Proof. unfold elem_of, hdr_of. lia. Qed.

(** The middle block of a list and its neighbours. *)
Lemma middle_facts s l1 x l2 fl ids :
  repr s (l1 ++ x :: l2) fl ids ->
  nxt (mem s) (before l1) = Some x /\ prv (mem s) x = Some (before l1) /\
  nxt (mem s) x = Some (after l2) /\ prv (mem s) (after l2) = Some x /\
  before l1 ≠ x /\ after l2 ≠ x /\ before l1 ≠ after l2 /\ x ≠ TAIL /\ x ≠ HEAD /\
  0 < before l1 /\ 0 < x.
Proof.
  intros R. destruct (split_ring l1 l2) as (p & q & _ & E).
  pose proof (r_linked _ _ _ _ R) as L. rewrite E in L.
  pose proof (ring_nodup _ _ (r_nodup _ _ _ _ R)) as ND. rewrite E in ND.
  apply linked_neighbours in L as (? & ? & ? & ?).
  apply NoDup_app in ND as (_ & _ & ND). rewrite !NoDup_cons in ND.
  destruct ND as (N1 & N2 & _). split_and!; try done; try set_solver.
  - pose proof (r_nodup _ _ _ _ R) as ND. rewrite !NoDup_cons in ND. set_solver.
  - pose proof (r_nodup _ _ _ _ R) as ND. rewrite !NoDup_cons in ND. set_solver.
  - eapply (repr_positive s); [done|]. pose proof (before_in l1). set_solver.
  - eapply (repr_positive s); [done|]. set_solver.
Qed.

Lemma relock s :
  mkList (mem s) (mFreeList s) (mAllocSize s) (lsize s) (iterators s) (its s)
         (lock s + 1 - 1) (brk s) (limit s) = s.
Proof. destruct s. state_simpl. f_equal. lia. Qed.

Lemma list_is_empty_spec s ls fl ids :
  repr s ls fl ids ->
  wp list_is_empty s (fun b s' => b = bool_decide (ls = []) /\ s' = s).
Proof.
  intros R. destruct (ring_facts s [] ls _ _ R) as (Hh & _ & _).
  change (before []) with HEAD in Hh. unfold list_is_empty. wp_list. split.
  - destruct ls as [|a ls]; [done|]. change (after (a :: ls)) with a.
    destruct (middle_facts s [] a ls _ _ R) as (_ & _ & _ & _ & _ & _ & _ & ? & _).
    rewrite bool_decide_false by done. by apply Z.eqb_neq.
  - apply relock.
Qed.

Lemma list_pop_front_empty s fl ids :
  repr s [] fl ids -> wp list_pop_front s (fun r s' => r = 0 /\ s' = s).
Proof.
  intros R. unfold list_pop_front. wp_list.
  lazymatch goal with |- wp _ ?st _ => set (s1 := st) end.
  assert (repr s1 [] fl ids) as R1 by (destruct R; by constructor).
  eapply wp_mono; [by eapply list_is_empty_spec|]. intros ? ? [-> ->].
  rewrite bool_decide_true by done. wp_list.
  subst s1. split; [done|]. state_simpl. apply relock.
Qed.

Lemma list_pop_front_spec s x ls fl ids :
  repr s (x :: ls) fl ids ->
  wp list_pop_front s (fun r s' =>
    r = elem_of x /\ repr s' ls fl ids /\ detached s' ls fl x /\ keeps s s').
Proof.
  intros R. unfold list_pop_front. wp_list.
  lazymatch goal with |- wp _ ?st _ => set (s1 := st) end.
  assert (repr s1 ([] ++ x :: ls) fl ids) as R1 by (destruct R; by constructor).
  eapply wp_mono; [by eapply list_is_empty_spec|]. intros ? ? [-> ->].
  rewrite bool_decide_false by done.
  destruct (middle_facts s [] x ls _ _ R) as (F1 & F2 & F3 & F4 & F5 & F6 & F7 & F8 & F9 & _).
  change (before []) with HEAD in *. subst s1. wp_list.
  lazymatch goal with |- wp _ ?st _ => set (s1 := st) end.
  eapply wp_mono; [by eapply (list_adjust_iterators_spec s1 [] x ls)|]. cbn beta.
  intros _ s2 ->. subst s1. wp_list. split; [done|].
  apply and_flatten. split; [|keeps_solve].
  eapply (repr_remove _ _ [] ls fl ids x (next_cursor [] ls)); [exact R1|..]; try upd_solve;
    try apply next_cursor_in; change (before []) with HEAD.
  all: intros; upd_solve.
Qed.

Lemma list_remove_element_spec s l1 e l2 fl ids :
  repr s (l1 ++ hdr_of e :: l2) fl ids ->
  wp (list_remove_element e) s (fun _ s' =>
    repr s' (l1 ++ l2) fl ids /\ detached s' (l1 ++ l2) fl (hdr_of e) /\ keeps s s' /\
    its s' = adj (hdr_of e) (next_cursor l1 l2) <$> its s).
Proof.
  intros R. unfold list_remove_element. wp_list.
  lazymatch goal with |- wp _ ?st _ => set (s1 := st) end.
  assert (repr s1 (l1 ++ hdr_of e :: l2) fl ids) as R1 by (destruct R; by constructor).
  eapply wp_mono; [by eapply (list_adjust_iterators_spec s1 l1)|]. cbn beta. intros _ s2 ->.
  destruct (middle_facts _ _ _ _ _ _ R) as (F1 & F2 & F3 & F4 & F5 & F6 & F7 & F8 & F9 & F10 & _).
  subst s1. state_simpl.
  destruct (Z.eqb_spec (hdr_of e) TAIL); [done|]. wp_list.
  destruct (Z.eqb_spec (before l1) 0); [lia|].
  destruct (Z.eqb_spec (before l1) FREE_MARK); [unfold FREE_MARK in *; lia|]. cbn [orb].
  wp_list. apply and_flatten. split; [|split; [keeps_solve|done]].
  eapply (repr_remove s _ l1 l2 fl ids (hdr_of e)); [exact R|..]; try upd_solve;
    try apply next_cursor_in.
  all: intros; upd_solve.
Qed.

Lemma adj_id s ls fl ids x n :
  repr s ls fl ids -> x ∉ ls ++ [TAIL] -> adj x n <$> its s = its s.
Proof.
  intros R Hx. apply map_eq. intros i. rewrite lookup_fmap.
  destruct (its s !! i) as [it|] eqn:E; [|done]. cbn. f_equal. unfold adj.
  destruct (Z.eqb_spec (currentElement it) x) as [Hc|]; [|done].
  destruct Hx. rewrite <- Hc. by eapply r_cursor.
Qed.

(** Removing an element that is not in the list (already removed, or already on
    the free list) does nothing. *)
Lemma list_remove_element_absent s ls fl ids e :
  repr s ls fl ids -> is_Some (mem s !! hdr_of e) -> hdr_of e ∉ HEAD :: TAIL :: ls ->
  wp (list_remove_element e) s (fun _ s' => s' = s).
Proof.
  intros R Ha Hx.
  assert (exists n p, nxt (mem s) (hdr_of e) = Some n /\ prv (mem s) (hdr_of e) = Some p /\
            (p = 0 \/ p = FREE_MARK)) as (n & p & Hn & Hp & Hpp).
  { destruct (decide (hdr_of e ∈ fl)) as [Hf|Hf].
    - destruct Ha as [h Hh]. exists (mNext h), FREE_MARK.
      split_and!; [by unfold nxt; rewrite Hh|by eapply r_mark|by right].
    - exists 0, 0. destruct (r_detached _ _ _ _ R _ Ha); [set_solver|]. auto. }
  unfold list_remove_element, list_adjust_iterators. wp_list.
  destruct (ring_facts s [] ls _ _ R) as (Hh & _ & _). change (before []) with HEAD in Hh.
  lazymatch goal with |- wp _ ?st _ => set (s1 := st) end.
  assert (repr s1 ls fl ids) as R1 by (destruct R; by constructor).
  eapply (wp_mono _ _ (fun _ s' => s' = s1)).
  { destruct ((n =? TAIL) && (1 <? lsize s)); subst s1; by wp_list. }
  cbn beta. intros nx s2 ->. wp_list. eapply wp_mono; [by apply (adjust_all s1 ls fl ids)|].
  cbn beta. intros _ s2 ->. rewrite (adj_id _ _ _ _ _ _ R1) by set_solver. rewrite set_its_id.
  subst s1. destruct (Z.eqb_spec (hdr_of e) TAIL) as [E|]; [rewrite E in Hx; set_solver|].
  wp_list.
  assert ((p =? 0) || (p =? FREE_MARK) = true) as ->.
  { destruct Hpp as [->| ->]; reflexivity. }
  wp_list. apply relock.
Qed.

(** *** Allocation and release *)

Lemma list_free_element_spec s ls fl ids e :
  repr s ls fl ids -> detached s ls fl (hdr_of e) ->
  wp (list_free_element e) s (fun _ s' =>
    repr s' ls (hdr_of e :: fl) ids /\ keeps s s' /\ its s' = its s).
Proof.
  intros R [Ha Hx]. destruct (r_detached _ _ _ _ R _ Ha Hx) as [Hn Hp].
  unfold list_free_element, free_element_. wp_list.
  destruct (Z.eqb_spec TAIL (hdr_of e)) as [E|]; [rewrite <- E in Hx; set_solver|].
  wp_list. cbn [Z.eqb negb orb]. wp_list. split_and!; [|keeps_solve|done].
  assert (forall p, p ∈ HEAD :: TAIL :: ls ++ fl -> hdr_of e ≠ p) as Hne by (intros p Hp' <-; done).
  assert (0 < hdr_of e) by (by apply (r_range _ _ _ _ R)).
  destruct R as [L ND FR MK DT RG EN SZ BD IT ID CU]. constructor; state_simpl; try done.
  - eapply linked_frame; [done|..]; intros p Hp';
      assert (hdr_of e ≠ p) by (apply Hne; set_solver); by autorewrite with linked.
  - eapply (NoDup_Permutation_proper (hdr_of e :: HEAD :: TAIL :: ls ++ fl)).
    { by solve_Permutation. }
    by apply NoDup_cons.
  - cbn. split_and!; [done|lia|]. exists (mFreeList s). split; [mem_solve|].
    eapply chain_frame; [done|]. intros p Hp'. rewrite nxt_upd_next_ne, nxt_upd_prev by (apply Hne; set_solver).
    done.
  - intros p Hp'. rewrite prv_upd_next. apply elem_of_cons in Hp' as [->|Hp']; [mem_solve|].
    rewrite prv_upd_prev_ne by (apply Hne; set_solver). by apply MK.
  - intros p Hp1 Hp2. rewrite upd_next_alloc, upd_prev_alloc in Hp1.
    assert (hdr_of e ≠ p) by set_solver.
    autorewrite with linked. apply DT; set_solver.
  - intros p Hp1. rewrite upd_next_alloc, upd_prev_alloc in Hp1. by apply RG.
  - rewrite nxt_upd_next_ne, prv_upd_next, prv_upd_prev_ne, nxt_upd_prev by (apply Hne; set_solver).
    done.
Qed.

(** Freeing an element that is still in the list, or freeing one twice, does
    nothing. *)
Lemma list_free_element_refused s ls fl ids e :
  repr s ls fl ids -> hdr_of e ∈ ls ++ fl ->
  wp (list_free_element e) s (fun _ s' => s' = s).
Proof.
  intros R Hx.
  assert (exists n p, nxt (mem s) (hdr_of e) = Some n /\ prv (mem s) (hdr_of e) = Some p /\ p ≠ 0)
    as (n & p & Hn & Hp & Hpp).
  { apply elem_of_app in Hx as [Hx|Hx].
    - apply list_elem_of_split in Hx as (l1 & l2 & ->).
      destruct (middle_facts _ _ _ _ _ _ R) as (_ & ? & ? & _ & _ & _ & _ & _ & _ & ? & _).
      exists (after l2), (before l1). split_and!; [done..|lia].
    - pose proof (r_mark _ _ _ _ R _ Hx) as Hm.
      destruct (prv_alloc _ _ _ Hm) as [h Hh]. exists (mNext h), FREE_MARK.
      split_and!; [by unfold nxt; rewrite Hh|done|done]. }
  unfold list_free_element, free_element_. wp_list.
  destruct (Z.eqb_spec TAIL (hdr_of e)) as [E|].
  { rewrite <- E in Hx. pose proof (r_nodup _ _ _ _ R) as ND. rewrite !NoDup_cons in ND. set_solver. }
  wp_list. destruct (Z.eqb_spec p 0); [done|]. cbn [negb orb]. wp_list. apply relock.
Qed.

(** The pointer handed to the user for an optional element. *)
Definition elem_ptr (o : option Z) : Z := default 0 (elem_of <$> o).

Lemma nxt_insert (m : gmap Z (header A)) p h q :
  nxt (<[p := h]> m) q = if decide (p = q) then Some (mNext h) else nxt m q.
Proof. unfold nxt. rewrite lookup_insert. by case_decide. Qed.
Lemma prv_insert (m : gmap Z (header A)) p h q :
  prv (<[p := h]> m) q = if decide (p = q) then Some (mPrev h) else prv m q.
Proof. unfold prv. rewrite lookup_insert. by case_decide. Qed.

(** Writing a zeroed block outside the list and outside what remains of the
    free list detaches it. *)
Lemma repr_zero_block s s' ls fl fl' ids p zero :
  repr s ls fl ids -> fl = fl' \/ fl = p :: fl' ->
  (mem s !! p = None \/ p ∈ fl) -> p ∉ HEAD :: TAIL :: ls ++ fl' ->
  mem s' = <[p := mkHeader 0 0 zero]> (mem s) ->
  chain (nxt (mem s)) (mFreeList s') fl' ->
  brk s <= brk s' <= 2 ^ 64 -> 0 < p < brk s' ->
  mAllocSize s' = mAllocSize s -> limit s' = limit s ->
  lsize s' = lsize s -> iterators s' = iterators s -> its s' = its s ->
  repr s' ls fl' ids /\ detached s' ls fl' p.
Proof.
  intros R Hfl Hp Hpn Em Ec Hb Hpb Ea El Es Ei Et.
  assert (forall q, q ∈ HEAD :: TAIL :: ls ++ fl' -> p ≠ q) as Hne by (intros q Hq <-; done).
  assert (forall q, q ∈ fl' -> q ∈ fl) as Hsub by (destruct Hfl as [->| ->]; set_solver).
  destruct R as [L ND FR MK DT RG EN SZ BD IT ID CU].
  split; [constructor|split; [rewrite Em, lookup_insert_eq; eauto|done]]; rewrite ?Em, ?Ei, ?Et; try done.
  - eapply linked_frame; [done|..]; intros q Hq; rewrite ?nxt_insert, ?prv_insert, decide_False;
      try done; apply Hne; set_solver.
  - destruct Hfl as [->| ->]; [done|].
    eapply (NoDup_Permutation_proper (p :: HEAD :: TAIL :: ls ++ fl')) in ND.
    + by apply NoDup_cons in ND as [_ ND].
    + by solve_Permutation.
  - eapply chain_frame; [done|]. intros q Hq. rewrite nxt_insert, decide_False by (apply Hne; set_solver).
    done.
  - intros q Hq. rewrite prv_insert, decide_False by (apply Hne; set_solver). apply MK. by apply Hsub.
  - intros q Hq Hqn. rewrite nxt_insert, prv_insert. destruct (decide (p = q)) as [->|Hpq]; [done|].
    rewrite lookup_insert_ne in Hq by done. apply DT; [done|].
    destruct Hfl as [->| ->]; set_solver.
  - intros q Hq. destruct (decide (p = q)) as [->|Hpq]; [done|].
    rewrite lookup_insert_ne in Hq by done. apply RG in Hq. lia.
  - rewrite nxt_insert, prv_insert, !decide_False by (apply Hne; set_solver). done.
  - by rewrite Es.
  - rewrite Ea, El. lia.
Qed.

Lemma wp_memset_zero (zero : A) p s Q :
  is_Some (mem s !! p) -> Q tt (set_mem_ (<[p := mkHeader 0 0 zero]> (mem s)) s) ->
  wp (memset_zero zero p) s Q.
Proof. intros [h Hh] HQ. unfold wp, memset_zero. by rewrite Hh. Qed.

Lemma wp_calloc_block (zero : A) s Q :
  (brk s + mAllocSize s <= limit s ->
   Q (brk s) (set_brk (brk s + mAllocSize s) (set_mem_ (<[brk s := mkHeader 0 0 zero]> (mem s)) s))) ->
  (limit s < brk s + mAllocSize s -> Q 0 s) ->
  wp (calloc_block zero) s Q.
Proof.
  intros H1 H2. unfold wp, calloc_block.
  destruct (Z.leb_spec (brk s + mAllocSize s) (limit s)); auto.
Qed.

Lemma brk_fresh s ls fl ids : repr s ls fl ids -> mem s !! brk s = None.
Proof.
  intros R. destruct (mem s !! brk s) eqn:E; [|done].
  pose proof (r_range _ _ _ _ R (brk s)) as H. rewrite E in H.
  assert (0 < brk s < brk s) by eauto. lia.
Qed.

Lemma list_allocate_element_spec s ls fl ids zero :
  repr s ls fl ids ->
  wp (list_allocate_element zero) s (fun r s' =>
    (r = 0 /\ s' = s /\ fl = [] /\ limit s < brk s + mAllocSize s) \/
    (exists p, r = elem_of p /\ 0 < p /\ (repr s' ls (tail fl) ids /\ detached s' ls (tail fl) p) /\
       lock s' = lock s /\ its s' = its s /\
       mem s' = <[p := mkHeader 0 0 zero]> (mem s) /\
       (fl = [] /\ mem s !! p = None \/ exists f, fl = p :: f))).
Proof.
  intros R. unfold list_allocate_element. wp_list.
  pose proof (r_bounds _ _ _ _ R) as (B1 & B2 & B3). unfold FIRST, sizeof_header in B1, B3.
  destruct fl as [|p fl].
  - pose proof (r_free _ _ _ _ R) as Hc. cbn in Hc. rewrite Hc. cbn [Z.eqb]. wp_list. cbn [Z.eqb].
    wp_list. pose proof (brk_fresh _ _ _ _ R) as Hnone. apply wp_calloc_block; state_simpl; intros Hlim.
    + destruct (Z.eqb_spec (brk s) 0); [lia|]. wp_list. apply wp_memset_zero; state_simpl.
      { rewrite lookup_insert_eq. eauto. }
      wp_list. destruct (Z.eqb_spec (brk s) 0); [lia|].
      right. exists (brk s). rewrite insert_insert_eq.
      split; [done|]. split; [lia|]. split; [|split_and!; [lia|done|done|by left]].
      apply (repr_zero_block s) with (1 := R) (zero := zero); state_simpl; auto; try lia; [|done].
      intros Hin. pose proof (repr_positive _ _ _ _ (brk s) R Hin). lia.
    + cbn [Z.eqb]. wp_list. left. split_and!; [done| |done|lia]. rewrite <- Hc. apply relock.
  - pose proof (r_free _ _ _ _ R) as (Hfl & Hp0 & q & Hq & Hc). rewrite Hfl.
    destruct (Z.eqb_spec p 0); [done|]. wp_list. apply wp_memset_zero; state_simpl; [eauto with mama|].
    wp_list. destruct (Z.eqb_spec p 0); [done|]. wp_list. destruct (Z.eqb_spec p 0); [done|].
    assert (0 < p < brk s) by (apply (repr_positive _ _ _ _ p R); set_solver).
    pose proof (r_nodup _ _ _ _ R) as ND.
    right. exists p. split; [done|]. split; [lia|].
    split; [|split_and!; [lia|done|done|right; eauto]].
    apply (repr_zero_block s) with (1 := R) (zero := zero); state_simpl; auto; try lia;
      [right; set_solver|].
    eapply (NoDup_Permutation_proper (p :: HEAD :: TAIL :: ls ++ fl)) in ND.
    + by apply NoDup_cons in ND as [ND _].
    + by solve_Permutation.
Qed.

End Ops.
