(* ===== verification/WListSpec.v ===== *)
(** * The list as an abstract data type

    An abstract list machine over the blocks of the list (in the list, on the
    free list, or loose in the hands of the user), and the theorem that
    [list.c] implements it: every legal call returns, gives the abstract result
    and releases the lock.  Then traversal with callbacks and the iterators. *)

From S2P Require Import Prelude Linked WList WListOps.
Import WList.

Section Spec.
  Context {A : Type} (zero : A).
  Implicit Types (s : wListImpl A) (ls fl ids : list Z).
  Abbreviation LM := (M (wListImpl A)).

(** ** The abstract machine *)

Record alist := mkAlist { items : list Z; freed : list Z; loose : gset Z }.

Inductive lcmd : Type :=
| Allocate
| AddElement
| PushBack (e : Z)
| PushFront (e : Z)
| InsertBefore (q e : Z)
| PopFront
| Remove (e : Z)
| Free (e : Z)
| GetHead
| GetTail
| GetNext (e : Z)
| Size.

(** A call of the library; calls that return nothing give 0. *)
Definition run_cmd (c : lcmd) : LM Z :=
  match c with
  | Allocate => list_allocate_element zero
  | AddElement => list_add_element zero
  | PushBack e => list_push_back e ;; mret 0
  | PushFront e => list_push_front e ;; mret 0
  | InsertBefore q e => list_insert_before q e ;; mret 0
  | PopFront => list_pop_front
  | Remove e => list_remove_element e ;; mret 0
  | Free e => list_free_element e ;; mret 0
  | GetHead => list_get_head
  | GetTail => list_get_tail
  | GetNext e => list_get_next e
  | Size => list_size
  end.

(** What the caller owes: elements it passes were allocated from this list and
    are where the operation needs them. *)
Definition legal (c : lcmd) (a : alist) : Prop :=
  match c with
  | PushBack e | PushFront e => hdr_of e ∈ loose a
  | InsertBefore q e =>
      (hdr_of q ∈ items a /\ (hdr_of e ∈ loose a \/ hdr_of e ∈ items a)) \/ hdr_of q ∈ loose a
  | Remove e | Free e =>
      hdr_of e ∈ items a \/ hdr_of e ∈ freed a \/ hdr_of e ∈ loose a
  | GetNext e => hdr_of e ∈ items a
  | _ => True
  end.

Inductive astep : lcmd -> alist -> Z -> alist -> Prop :=
| a_recycle i p f l :
    astep Allocate (mkAlist i (p :: f) l) (elem_of p) (mkAlist i f ({[p]} ∪ l))
| a_fresh i l p : p ∉ i -> p ∉ l ->
    astep Allocate (mkAlist i [] l) (elem_of p) (mkAlist i [] ({[p]} ∪ l))
| a_nomem i l : astep Allocate (mkAlist i [] l) 0 (mkAlist i [] l)
| a_add_recycle i p f l : p ∉ l ->
    astep AddElement (mkAlist i (p :: f) l) (elem_of p) (mkAlist (i ++ [p]) f l)
| a_add_fresh i l p : p ∉ i -> p ∉ l ->
    astep AddElement (mkAlist i [] l) (elem_of p) (mkAlist (i ++ [p]) [] l)
| a_add_nomem i l : astep AddElement (mkAlist i [] l) 0 (mkAlist i [] l)
| a_push_back i f l e :
    astep (PushBack e) (mkAlist i f l) 0 (mkAlist (i ++ [hdr_of e]) f (l ∖ {[hdr_of e]}))
| a_push_front i f l e :
    astep (PushFront e) (mkAlist i f l) 0 (mkAlist (hdr_of e :: i) f (l ∖ {[hdr_of e]}))
| a_insert i1 i2 f l q e : hdr_of e ∈ l ->
    astep (InsertBefore q e) (mkAlist (i1 ++ hdr_of q :: i2) f l) 0
          (mkAlist (i1 ++ hdr_of e :: hdr_of q :: i2) f (l ∖ {[hdr_of e]}))
| a_insert_refused i f l q e : hdr_of q ∈ l \/ hdr_of e ∈ i ->
    astep (InsertBefore q e) (mkAlist i f l) 0 (mkAlist i f l)
| a_pop x i f l : astep PopFront (mkAlist (x :: i) f l) (elem_of x) (mkAlist i f ({[x]} ∪ l))
| a_pop_empty f l : astep PopFront (mkAlist [] f l) 0 (mkAlist [] f l)
| a_remove i1 i2 f l e :
    astep (Remove e) (mkAlist (i1 ++ hdr_of e :: i2) f l) 0 (mkAlist (i1 ++ i2) f ({[hdr_of e]} ∪ l))
| a_remove_absent i f l e : hdr_of e ∉ i -> astep (Remove e) (mkAlist i f l) 0 (mkAlist i f l)
| a_free i f l e : hdr_of e ∈ l ->
    astep (Free e) (mkAlist i f l) 0 (mkAlist i (hdr_of e :: f) (l ∖ {[hdr_of e]}))
| a_free_refused i f l e : hdr_of e ∈ i \/ hdr_of e ∈ f ->
    astep (Free e) (mkAlist i f l) 0 (mkAlist i f l)
| a_head a : astep GetHead a (elem_ptr (head (items a))) a
| a_tail a : astep GetTail a (elem_ptr (last (items a))) a
| a_next i1 i2 f l e :
    astep (GetNext e) (mkAlist (i1 ++ hdr_of e :: i2) f l) (elem_ptr (head i2))
          (mkAlist (i1 ++ hdr_of e :: i2) f l)
| a_size a : astep Size a (Z.of_nat (length (items a))) a.

(** The abstraction relation. *)
Definition sim (s : wListImpl A) (ids : list Z) (a : alist) : Prop :=
  repr s (items a) (freed a) ids /\
  forall p, p ∈ loose a <-> detached s (items a) (freed a) p.

(** ** Reads *)

Lemma list_get_head_spec s ls fl ids :
  repr s ls fl ids -> wp list_get_head s (fun r s' => r = elem_ptr (head ls) /\ s' = s).
Proof.
  intros R. destruct (ring_facts s [] ls _ _ R) as (Hh & _ & _).
  change (before []) with HEAD in Hh. unfold list_get_head. wp_list. rewrite relock. split; [|done].
  destruct ls as [|a ls]; [done|]. change (after (a :: ls)) with a.
  destruct (middle_facts s [] a ls _ _ R) as (_ & _ & _ & _ & _ & _ & _ & ? & _).
  by destruct (Z.eqb_spec a TAIL).
Qed.

Lemma list_get_tail_spec s ls fl ids :
  repr s ls fl ids -> wp list_get_tail s (fun r s' => r = elem_ptr (last ls) /\ s' = s).
Proof.
  intros R. destruct (ring_facts s [] ls _ _ R) as (Hh & _ & _).
  pose proof R as R'. rewrite <- (app_nil_r ls) in R'.
  destruct (ring_facts s ls [] _ _ R') as (_ & Ht & _).
  change (before []) with HEAD in Hh. change (after []) with TAIL in Ht.
  unfold list_get_tail. wp_list. rewrite relock. split; [|done].
  destruct ls as [|a ls _] using rev_ind; [done|]. unfold before. rewrite last_snoc.
  assert (after (ls ++ [a]) ≠ TAIL) as Hn.
  { pose proof (r_nodup _ _ _ _ R) as ND. rewrite !NoDup_cons in ND.
    unfold after. destruct ls; cbn; set_solver. }
  by destruct (Z.eqb_spec (after (ls ++ [a])) TAIL).
Qed.

Lemma list_get_next_spec s l1 e l2 fl ids :
  repr s (l1 ++ hdr_of e :: l2) fl ids ->
  wp (list_get_next e) s (fun r s' => r = elem_ptr (head l2) /\ s' = s).
Proof.
  intros R. destruct (middle_facts _ _ _ _ _ _ R) as (_ & _ & Hn & _).
  unfold list_get_next. wp_list. rewrite relock. split; [|done].
  destruct l2 as [|a l2]; [done|]. change (after (a :: l2)) with a.
  replace (l1 ++ hdr_of e :: a :: l2) with ((l1 ++ [hdr_of e]) ++ a :: l2) in R
    by (by rewrite <- app_assoc).
  destruct (middle_facts _ _ _ _ _ _ R) as (_ & _ & _ & _ & _ & _ & _ & ? & _).
  by destruct (Z.eqb_spec a TAIL).
Qed.

(** ** Simulation *)

Lemma keeps_dom s s' p : keeps s s' -> is_Some (mem s' !! p) <-> is_Some (mem s !! p).
Proof.
  intros [_ K]. specialize (K p).
  destruct (mem s' !! p), (mem s !! p); cbn in K; try done; split; eauto; by intros [? ?].
Qed.

(** A block joins, or leaves, the list and the free list. *)
Lemma loose_take s s' ls fl ls' fl' h p :
  (forall q, is_Some (mem s' !! q) <-> is_Some (mem s !! q)) ->
  (forall q, q ∈ ls' ++ fl' <-> q = h \/ q ∈ ls ++ fl) ->
  detached s' ls' fl' p <-> detached s ls fl p /\ p ≠ h.
Proof.
  intros Hd Hl. unfold detached. rewrite Hd, !elem_of_cons, Hl. tauto.
Qed.

Lemma loose_give s s' ls fl ls' fl' h p :
  (forall q, is_Some (mem s' !! q) <-> is_Some (mem s !! q)) ->
  (forall q, q ∈ ls ++ fl <-> q = h \/ q ∈ ls' ++ fl') -> detached s' ls' fl' h ->
  detached s' ls' fl' p <-> p = h \/ detached s ls fl p.
Proof.
  intros Hd Hl Hh. unfold detached in *. rewrite Hd, !elem_of_cons, Hl in *.
  destruct (decide (p = h)) as [->|]; tauto.
Qed.

Ltac sim_take K :=
  intros p; cbn [loose items freed]; rewrite elem_of_difference, elem_of_singleton;
  match goal with L : forall p, p ∈ _ <-> _ |- _ => rewrite L end;
  symmetry; apply loose_take; [intros; by apply keeps_dom|set_solver].

Ltac sim_give K :=
  intros p; cbn [loose items freed]; rewrite elem_of_union, elem_of_singleton;
  match goal with L : forall p, p ∈ _ <-> _ |- _ => rewrite L end;
  symmetry; apply loose_give; [intros; by apply keeps_dom|set_solver|done].

(** What a simulated step establishes. *)
Definition simulates (c : lcmd) (s : wListImpl A) (ids : list Z) (a : alist) : Prop :=
  wp (run_cmd c) s (fun r s' =>
    exists a', astep c a r a' /\ sim s' ids a' /\ lock s' = lock s).

Lemma sim_push_back s ids a e : sim s ids a -> legal (PushBack e) a -> simulates (PushBack e) s ids a.
Proof.
  destruct a as [i f l]. intros [R L] Hl. cbn in *. unfold simulates, run_cmd. wp_list.
  eapply wp_mono; [apply list_push_back_spec; [done|by apply L]|].
  intros _ s' (R' & K & _). apply wp_ret. eexists. split; [constructor|].
  split; [split; [done|sim_take K]|apply K].
Qed.

Lemma sim_push_front s ids a e : sim s ids a -> legal (PushFront e) a -> simulates (PushFront e) s ids a.
Proof.
  destruct a as [i f l]. intros [R L] Hl. cbn in *. unfold simulates, run_cmd. wp_list.
  eapply wp_mono; [apply list_push_front_spec; [done|by apply L]|].
  intros _ s' (R' & K & _). apply wp_ret. eexists. split; [constructor|].
  split; [split; [done|sim_take K]|apply K].
Qed.

Lemma sim_insert s ids a q e :
  sim s ids a -> legal (InsertBefore q e) a -> simulates (InsertBefore q e) s ids a.
Proof.
  destruct a as [i f l]. intros [R L] Hl. cbn in *. unfold simulates, run_cmd. wp_list.
  assert (detached s i f (hdr_of q) \/ (hdr_of q ∈ i /\ hdr_of e ∈ i) \/
          (hdr_of q ∈ i /\ hdr_of e ∈ l)) as [H|[H|[Hq He]]].
  { destruct Hl as [[H1 [H2|H2]]|H]; [tauto..|]. left. by apply L. }
  - eapply wp_mono; [eapply list_insert_before_refused; [done|by left]|]. cbn. intros _ s' ->.
    apply wp_ret. eexists. split; [apply a_insert_refused; left; by apply L|]. done.
  - eapply wp_mono; [eapply list_insert_before_refused; [done|by right]|]. cbn. intros _ s' ->.
    apply wp_ret. eexists. split; [apply a_insert_refused; right; tauto|]. done.
  - apply list_elem_of_split in Hq as (i1 & i2 & ->).
    rewrite <- (elem_hdr q) at 1.
    eapply wp_mono; [eapply list_insert_before_spec; [done|by apply L]|].
    intros _ s' (R' & K & _). apply wp_ret. eexists. split; [by constructor|].
    split; [split; [done|sim_take K]|apply K].
Qed.

Lemma sim_pop s ids a : sim s ids a -> simulates PopFront s ids a.
Proof.
  destruct a as [[|x i] f l]; intros [R L]; cbn in *; unfold simulates, run_cmd.
  - eapply wp_mono; [by eapply list_pop_front_empty|]. cbn. intros r s' [-> ->].
    eexists. split; [constructor|done].
  - eapply wp_mono; [by eapply list_pop_front_spec|]. cbn. intros r s' (-> & R' & D & K).
    eexists. split; [constructor|]. split; [split; [done|sim_give K]|apply K].
Qed.

Lemma freed_outside s ls fl ids p : repr s ls fl ids -> p ∈ fl -> p ∉ HEAD :: TAIL :: ls.
Proof.
  intros R Hp Hin. pose proof (r_nodup _ _ _ _ R) as ND.
  change (NoDup ((HEAD :: TAIL :: ls) ++ fl)) in ND.
  apply NoDup_app in ND as (_ & ND & _). by apply (ND p).
Qed.

Lemma sim_remove s ids a e : sim s ids a -> legal (Remove e) a -> simulates (Remove e) s ids a.
Proof.
  destruct a as [i f l]. intros [R L] Hl. cbn in *. unfold simulates, run_cmd. wp_list.
  destruct (decide (hdr_of e ∈ i)) as [Hi|Hi].
  - apply list_elem_of_split in Hi as (i1 & i2 & ->).
    eapply wp_mono; [by apply list_remove_element_spec|]. intros _ s' (R' & D & K & _).
    apply wp_ret. eexists. split; [constructor|]. split; [split; [done|sim_give K]|apply K].
  - eapply wp_mono; [eapply list_remove_element_absent; [done|..]|].
    + destruct Hl as [?|[Hf|Hl]]; [done|eapply repr_alloc; [done|set_solver]|by apply L in Hl as [? _]].
    + destruct Hl as [?|[Hf|Hl]]; [done|..].
      * by eapply freed_outside.
      * apply L in Hl as [_ Hl]. rewrite !elem_of_cons, elem_of_app in Hl. rewrite !elem_of_cons. tauto.
    + cbn. intros _ s' ->. apply wp_ret. eexists. split; [by constructor|done].
Qed.

Lemma sim_free s ids a e : sim s ids a -> legal (Free e) a -> simulates (Free e) s ids a.
Proof.
  destruct a as [i f l]. intros [R L] Hl. cbn in *. unfold simulates, run_cmd. wp_list.
  destruct (decide (hdr_of e ∈ l)) as [He|He].
  - eapply wp_mono; [apply list_free_element_spec; [done|by apply L]|].
    intros _ s' (R' & K & _). apply wp_ret. eexists. split; [by constructor|].
    split; [split; [done|sim_take K]|apply K].
  - eapply wp_mono; [eapply list_free_element_refused; [done|set_solver]|]. cbn. intros _ s' ->.
    apply wp_ret. eexists. split; [apply a_free_refused; tauto|done].
Qed.

Lemma alloc_loose s s' ls fl (l : gset Z) p (z : header A) :
  (forall q, q ∈ l <-> detached s ls fl q) ->
  mem s' = <[p := z]> (mem s) -> detached s' ls (tail fl) p ->
  fl = [] /\ mem s !! p = None \/ (exists f, fl = p :: f) ->
  (forall q, q ∈ {[p]} ∪ l <-> detached s' ls (tail fl) q) /\ p ∉ l.
Proof.
  intros L Em D C.
  assert (p ∉ l) as Hp.
  { rewrite L. intros [[h Hh] Hn]. destruct C as [[_ C]|[f ->]]; [congruence|set_solver]. }
  split; [|done]. intros q. rewrite elem_of_union, elem_of_singleton, L.
  destruct (decide (q = p)) as [->|Hq]; [tauto|].
  unfold detached. rewrite Em, lookup_insert_ne by done.
  destruct C as [[-> C]|[f ->]]; [naive_solver|]. cbn [tail].
  rewrite !elem_of_cons, !elem_of_app, !elem_of_cons. naive_solver.
Qed.

(** What allocation leaves, in the abstract. *)
Lemma alloc_cases s ids a :
  sim s ids a ->
  wp (list_allocate_element zero) s (fun r s' =>
    lock s' = lock s /\
    ((r = 0 /\ s' = s /\ freed a = []) \/
     (exists p, r = elem_of p /\ (r ≠ 0) /\ (p ∉ loose a) /\ (p ∉ items a) /\
        (freed a = [] \/ head (freed a) = Some p) /\
        sim s' ids (mkAlist (items a) (tail (freed a)) ({[p]} ∪ loose a))))).
Proof.
  destruct a as [i f l]. intros [R L]. cbn in *.
  eapply wp_mono; [by eapply list_allocate_element_spec|].
  intros r s' [(-> & -> & -> & _)|(p & -> & Hp & [R' D] & Hl & _ & Em & Hf)]; (split; [done|]).
  - left. done.
  - right. exists p. destruct (alloc_loose _ _ _ _ _ _ _ L Em D Hf) as [L' Hpl].
    split_and!; try done.
    + unfold elem_of, sizeof_header. lia.
    + destruct D as [_ D]. rewrite !elem_of_cons, elem_of_app in D. tauto.
    + destruct Hf as [[-> _]|[f' ->]]; [by left|by right].
Qed.

Lemma sim_allocate s ids a : sim s ids a -> simulates Allocate s ids a.
Proof.
  intros S. unfold simulates, run_cmd. eapply wp_mono; [by eapply alloc_cases|].
  destruct a as [i f l]. cbn. intros r s' (Hl & [(-> & -> & ->)|(p & -> & _ & Hpl & Hpi & C & S')]).
  - eexists. split; [apply a_nomem|done].
  - eexists. split; [|split; [exact S'|done]].
    destruct f as [|q f]; [by constructor|]. destruct C as [?|[= ->]]; [done|]. constructor.
Qed.

Lemma sim_add s ids a : sim s ids a -> simulates AddElement s ids a.
Proof.
  intros S. unfold simulates, run_cmd, list_add_element. apply wp_bind.
  eapply wp_mono; [by eapply alloc_cases|].
  destruct a as [i f l]. cbn. intros r s1 (Hl & [(-> & -> & ->)|(p & -> & Hr & Hpl & Hpi & C & S')]).
  - cbn [Z.eqb]. apply wp_ret. eexists. split; [apply a_add_nomem|done].
  - destruct (Z.eqb_spec (elem_of p) 0); [done|]. apply wp_bind. destruct S' as [R' L']. cbn in *.
    eapply wp_mono; [eapply list_push_back_spec; [done|]|]; rewrite hdr_elem.
    { apply L'. set_solver. }
    intros _ s' (R2 & K & _). apply wp_ret. exists (mkAlist (i ++ [p]) (tail f) l).
    split; [|split; [split; [done|]|]].
    + destruct f as [|q f]; [by constructor|]. destruct C as [?|[= ->]]; [done|]. by constructor.
    + intros q. cbn. rewrite (loose_take s1 s' i (tail f) _ _ p);
        [|intros; by apply keeps_dom|set_solver].
      rewrite <- L'. set_solver.
    + destruct K as [K _]. lia.
Qed.

(** C1: the list of [list.c] implements the abstract list.  From a state that
    represents abstract list [a], every call the abstract machine allows
    returns (no invalid dereference, no abort, no divergence), its result and
    the new abstract list are related by the abstract machine, the new state
    represents the new abstract list, and the lock is released. *)
Theorem list_simulates_abstract s ids a c :
  sim s ids a -> legal c a ->
  exists r s' a', run_cmd c s = Ok (r, s') /\ astep c a r a' /\ sim s' ids a' /\ lock s' = lock s.
Proof.
  intros S Hl. cut (simulates c s ids a).
  { intros H. apply wp_elim in H as (r & s' & E & a' & ?). exists r, s', a'. tauto. }
  destruct c; [by apply sim_allocate|by apply sim_add|by apply sim_push_back|by apply sim_push_front
              |by apply sim_insert|by apply sim_pop|by apply sim_remove|by apply sim_free|..];
    destruct a as [i f l]; destruct S as [R L]; cbn in *; unfold simulates, run_cmd.
  - eapply wp_mono; [by eapply list_get_head_spec|]. cbn. intros r s' [-> ->].
    eexists. split; [apply (a_head (mkAlist i f l))|done].
  - eapply wp_mono; [by eapply list_get_tail_spec|]. cbn. intros r s' [-> ->].
    eexists. split; [apply (a_tail (mkAlist i f l))|done].
  - apply list_elem_of_split in Hl as (i1 & i2 & ->).
    eapply wp_mono; [by eapply list_get_next_spec|]. cbn. intros r s' [-> ->].
    eexists. split; [apply a_next|done].
  - unfold list_size. apply wp_gets. rewrite (r_size _ _ _ _ R).
    eexists. split; [apply (a_size (mkAlist i f l))|done].
Qed.

(** A new list represents the empty abstract list. *)
Lemma list_create_sim elementSize lim s :
  list_create zero elementSize lim = Some s -> lim <= 2 ^ 64 ->
  sizeof_header <= alloc_size elementSize ->
  sim s [] (mkAlist [] [] ∅).
Proof.
  unfold list_create. destruct (Z.ltb_spec lim FIRST); [done|]. intros [= <-] Hlim Ha.
  assert (forall p, is_Some ((<[HEAD := mkHeader 0 TAIL zero]> (<[TAIL := mkHeader HEAD 0 zero]> ∅)
            : gmap Z (header A)) !! p) -> p = HEAD \/ p = TAIL) as Hdom.
  { intros p. rewrite !lookup_insert_is_Some, lookup_empty. intros [->|[_ [->|[_ [? [=]]]]]]; auto. }
  split; [constructor|]; cbn [items freed]; state_simpl; try done.
  - rewrite !NoDup_cons. split_and!; [set_solver|set_solver|constructor].
  - set_solver.
  - intros p Hp Hn. destruct (Hdom p Hp) as [->| ->]; set_solver.
  - intros p Hp. destruct (Hdom p Hp) as [->| ->]; unfold HEAD, TAIL, FIRST; lia.
  - split; [constructor|]. intros i. rewrite lookup_empty. split; [by intros [? ?]|set_solver].
  - cbn [loose]. intros p. split; [set_solver|]. intros [Hp Hn].
    destruct (Hdom p Hp) as [->| ->]; set_solver.
Qed.

(** ** Traversal with a callback

    [Inv done rest s]: [done] has been visited, [rest] has not.  The callback
    may do anything to the list (remove and free the current element, in
    particular) that re-establishes the invariant; the next pointer is read
    before it runs. *)

Lemma mem_size_bound s ls fl ids : repr s ls fl ids -> (length ls <= size (mem s))%nat.
Proof.
  intros R.
  assert (ls ⊆+ elements (dom (mem s))) as Hs.
  { apply NoDup_submseteq.
    - pose proof (r_nodup _ _ _ _ R) as ND. rewrite !NoDup_cons, NoDup_app in ND. tauto.
    - intros p Hp. rewrite elem_of_elements, elem_of_dom. eapply repr_alloc; [done|].
      rewrite !elem_of_cons, elem_of_app. tauto. }
  apply submseteq_length in Hs. by rewrite <- size_dom.
Qed.

Lemma for_each_loop_spec (cb : Z -> LM unit) (Inv : list Z -> list Z -> wListImpl A -> Prop) :
  (forall done x rest s1, Inv done (x :: rest) s1 ->
     nxt (mem s1) x = Some (after rest) /\
     wp (cb (elem_of x)) s1 (fun _ s2 => Inv (done ++ [x]) rest s2)) ->
  forall rest fuel done s1, (length rest <= fuel)%nat ->
    HEAD ∉ rest -> TAIL ∉ rest -> Inv done rest s1 ->
    wp (for_each_loop fuel cb (after rest)) s1 (fun _ s2 => Inv (done ++ rest) [] s2).
Proof.
  intros Hcb. induction rest as [|x rest IH]; intros fuel done s1 Hf Hh Ht HI.
  - change (after []) with TAIL. rewrite app_nil_r. by destruct fuel; apply wp_ret.
  - change (after (x :: rest)) with x. destruct fuel as [|fuel]; [cbn in Hf; lia|].
    destruct (Hcb _ _ _ _ HI) as [Hn Hw]. cbn [for_each_loop].
    destruct (Z.eqb_spec x TAIL) as [->|]; [set_solver|].
    destruct (Z.eqb_spec x HEAD) as [->|]; [set_solver|]. cbn [orb]. wp_list.
    eapply wp_mono; [exact Hw|]. cbn. intros _ s2 HI2.
    replace (done ++ x :: rest) with ((done ++ [x]) ++ rest) by (by rewrite <- app_assoc).
    apply IH; [cbn in Hf; lia|set_solver|set_solver|done].
Qed.

Lemma list_for_each_spec (cb : Z -> LM unit) (Inv : list Z -> list Z -> wListImpl A -> Prop) s ls fl ids :
  repr s ls fl ids ->
  Inv [] ls (set_lock (lock s + 1) s) ->
  (forall done x rest s1, Inv done (x :: rest) s1 ->
     nxt (mem s1) x = Some (after rest) /\
     wp (cb (elem_of x)) s1 (fun _ s2 => Inv (done ++ [x]) rest s2)) ->
  wp (list_for_each cb) s (fun _ s' => exists s2, Inv ls [] s2 /\ s' = set_lock (lock s2 - 1) s2).
Proof.
  intros R HI Hcb. destruct (ring_facts s [] ls _ _ R) as (Hh & _ & _).
  change (before []) with HEAD in Hh.
  pose proof (r_nodup _ _ _ _ R) as ND. rewrite !NoDup_cons in ND.
  unfold list_for_each. wp_list.
  eapply wp_mono; [eapply (for_each_loop_spec cb Inv Hcb ls _ [])|].
  - by eapply mem_size_bound.
  - rewrite elem_of_cons, elem_of_app in ND. tauto.
  - rewrite elem_of_cons, !elem_of_app in ND. tauto.
  - exact HI.
  - cbn. intros _ s2 HI2. wp_list. eauto.
Qed.

(** ** Iterators *)

(** Moving a cursor to another element or to the tail is harmless. *)
Lemma repr_move_cursor s s' ls fl ids it c n :
  repr s ls fl ids -> its s !! it = Some (mkIter c n) ->
  forall c', c' ∈ ls ++ [TAIL] ->
  s' = set_its (<[it := mkIter c' n]> (its s)) s -> repr s' ls fl ids.
Proof.
  intros R Hi c' Hc' ->. destruct R as [L ND FR MK DT RG EN SZ BD IT ID CU].
  constructor; state_simpl; try done.
  - eapply chain_frame; [done|]. intros i _. destruct (decide (i = it)) as [->|].
    + by rewrite lookup_insert_eq, Hi.
    + by rewrite lookup_insert_ne.
  - destruct ID as [ID1 ID2]. split; [done|]. intros i. rewrite <- ID2, lookup_insert_is_Some.
    destruct (decide (it = i)) as [<-|]; [|tauto]. rewrite Hi. naive_solver.
  - intros i x. destruct (decide (i = it)) as [->|].
    + rewrite lookup_insert_eq. by intros [= <-].
    + rewrite lookup_insert_ne by done. apply CU.
Qed.

Lemma list_create_iterator_spec s ls fl ids p :
  repr s ls fl ids -> p ≠ 0 -> its s !! p = None ->
  wp (list_create_iterator p) s (fun r s' =>
    r = p /\ repr s' ls fl (p :: ids) /\ keeps s s' /\ mem s' = mem s /\
    its s' !! p = Some (mkIter (after ls) (iterators s))).
Proof.
  intros R Hp0 Hpn. destruct (ring_facts s [] ls _ _ R) as (Hh & _ & _).
  change (before []) with HEAD in Hh. unfold list_create_iterator. wp_list.
  rewrite lookup_insert_eq. split_and!; try done; [|keeps_solve].
  destruct R as [L ND FR MK DT RG EN SZ BD IT ID CU]. destruct ID as [ID1 ID2].
  assert (p ∉ ids) as Hpi. { intros H. apply ID2 in H. rewrite Hpn in H. by destruct H. }
  constructor; state_simpl; try done.
  - cbn [chain]. split_and!; [done|done|]. exists (iterators s). rewrite lookup_insert_eq. split; [done|].
    eapply chain_frame; [done|]. intros i Hi. rewrite lookup_insert_ne by (intros ->; done). done.
  - split; [by apply NoDup_cons|]. intros i. rewrite lookup_insert_is_Some, elem_of_cons, ID2.
    destruct (decide (p = i)); naive_solver.
  - intros i x. destruct (decide (i = p)) as [->|].
    + rewrite lookup_insert_eq. intros [= <-]. apply after_in.
    + rewrite lookup_insert_ne by done. apply CU.
Qed.

Lemma wp_ld_iter it i s Q : its s !! it = Some i -> Q i s -> wp (ld_iter it) s Q.
Proof. intros H HQ. unfold wp, ld_iter. by rewrite H. Qed.
Lemma wp_st_current it v i s Q :
  its s !! it = Some i -> Q tt (set_its (<[it := mkIter v (it_next i)]> (its s)) s) ->
  wp (st_current it v) s Q.
Proof. intros H HQ. unfold wp, st_current. by rewrite H. Qed.

Ltac wp_iter :=
  repeat (wp_list;
          lazymatch goal with
          | |- wp (ld_iter _) _ _ => eapply wp_ld_iter; [solve [state_simpl; simplify_map_eq; eauto]|]
          | |- wp (st_current _ _) _ _ =>
              eapply wp_st_current; [solve [state_simpl; simplify_map_eq; eauto]|state_simpl; cbn [it_next]]
          end);
  wp_list.

(** One call of [iterator_next]: the element under the cursor, or NULL at the
    end. *)
Lemma iterator_next_spec s l1 x l2 fl ids it n :
  repr s (l1 ++ x :: l2) fl ids -> its s !! it = Some (mkIter x n) ->
  wp (iterator_next it) s (fun r s' =>
    r = elem_of x /\ s' = set_its (<[it := mkIter (after l2) n]> (its s)) s /\
    repr s' (l1 ++ x :: l2) fl ids).
Proof.
  intros R Hi. destruct (middle_facts _ _ _ _ _ _ R) as (_ & _ & Hn & _ & _ & _ & _ & Ht & Hh & _ & Hx).
  unfold iterator_next, getCurrentNode. wp_iter. cbn [currentElement].
  destruct (Z.eqb_spec x TAIL); [done|]. wp_iter. cbn [currentElement].
  destruct (Z.eqb_spec x HEAD); [done|]. destruct (Z.eqb_spec x TAIL); [done|]. cbn [orb].
  wp_iter. cbn [currentElement]. wp_iter. destruct (Z.eqb_spec x 0); [lia|].
  assert (mkList (mem s) (mFreeList s) (mAllocSize s) (lsize s) (iterators s)
            (<[it := mkIter (after l2) n]> (its s)) (lock s + 1 - 1) (brk s) (limit s)
          = set_its (<[it := mkIter (after l2) n]> (its s)) s) as ->.
  { unfold set_its. f_equal. lia. }
  split_and!; [done|done|]. eapply repr_move_cursor; [done|done| |done].
  pose proof (after_in l2). set_solver.
Qed.

Lemma iterator_next_end s ls fl ids it n :
  repr s ls fl ids -> its s !! it = Some (mkIter TAIL n) ->
  wp (iterator_next it) s (fun r s' => r = 0 /\ s' = s).
Proof.
  intros R Hi. unfold iterator_next. wp_iter. cbn [currentElement].
  rewrite Z.eqb_refl. wp_iter. cbn [Z.eqb]. split; [done|]. apply relock.
Qed.

(** [iterator_next] called [n] times. *)
Fixpoint iterator_collect (n : nat) (it : Z) : LM (list Z) :=
  match n with
  | O => mret []
  | S n' => e ← iterator_next it; l ← iterator_collect n' it; mret (e :: l)
  end.

Lemma iterator_collect_spec it n fl ids l2 : forall s l1,
  repr s (l1 ++ l2) fl ids -> its s !! it = Some (mkIter (after l2) n) ->
  wp (iterator_collect (S (length l2)) it) s (fun r s' =>
    r = (elem_of <$> l2) ++ [0] /\ repr s' (l1 ++ l2) fl ids /\ mem s' = mem s /\ lock s' = lock s).
Proof.
  induction l2 as [|x l2 IH]; intros s l1 R Hi.
  - cbn [iterator_collect length]. wp_pure. eapply wp_mono; [by eapply iterator_next_end|].
    cbn beta. intros r s' [-> ->]. wp_pure. done.
  - cbn [length]. remember (S (length l2)) as k eqn:Ek. cbn [iterator_collect]. wp_pure.
    eapply wp_mono; [by eapply iterator_next_spec|]. cbn beta. intros r s' (-> & -> & R').
    wp_pure. subst k.
    replace (l1 ++ x :: l2) with ((l1 ++ [x]) ++ l2) in * by (by rewrite <- app_assoc).
    eapply wp_mono; [eapply IH; [done|]|].
    + state_simpl. by rewrite lookup_insert_eq.
    + cbn beta. intros r s' (-> & R2 & Em & El). wp_pure. done.
Qed.

(** The representation invariant is decidable on concrete states. *)
Definition repr_test (s : wListImpl A) (ls fl ids : list Z) : bool :=
  bool_decide (linked (mem s) (HEAD :: ls ++ [TAIL])) &&
  bool_decide (NoDup (HEAD :: TAIL :: ls ++ fl)) &&
  bool_decide (chain (nxt (mem s)) (mFreeList s) fl) &&
  bool_decide (Forall (fun p => prv (mem s) p = Some FREE_MARK) fl) &&
  bool_decide (map_Forall (fun p h => p ∈ HEAD :: TAIL :: ls ++ fl \/ (mNext h = 0 /\ mPrev h = 0)) (mem s)) &&
  bool_decide (map_Forall (fun p _ => 0 < p < brk s) (mem s)) &&
  bool_decide (prv (mem s) HEAD = Some 0 /\ nxt (mem s) TAIL = Some 0) &&
  bool_decide (lsize s = Z.of_nat (length ls)) &&
  bool_decide (FIRST <= brk s <= 2 ^ 64 /\ limit s <= 2 ^ 64 /\ sizeof_header <= mAllocSize s) &&
  bool_decide (chain (fun i => it_next <$> its s !! i) (iterators s) ids) &&
  bool_decide (NoDup ids /\ Forall (fun i => is_Some (its s !! i)) ids) &&
  bool_decide (map_Forall (fun i it => i ∈ ids /\ currentElement it ∈ ls ++ [TAIL]) (its s)).

Lemma repr_test_sound s ls fl ids : repr_test s ls fl ids = true -> repr s ls fl ids.
Proof.
  unfold repr_test. rewrite !andb_true_iff, !bool_decide_eq_true.
  intros [[[[[[[[[[[L ND] FR] MK] DT] RG] EN] SZ] BD] IT] [ID1 ID2]] CU].
  rewrite Forall_forall in MK, ID2. constructor; try done.
  - intros p [h Hh] Hn. destruct (DT _ _ Hh) as [?|[? ?]]; [done|].
    unfold nxt, prv. rewrite Hh. cbn. split; f_equal; done.
  - intros p [h Hh]. by apply (RG _ _ Hh).
  - split; [done|]. intros i. split; [|by apply ID2]. intros [it Hi]. by apply (CU _ _ Hi).
  - intros i it Hi. by apply (CU _ _ Hi).
Qed.

End Spec.

(** ** Theorems on traversal and iterators *)

Section IterTheorems.
  Context {A : Type} (zero : A).
  Implicit Types (s : wListImpl A) (ls fl ids : list Z).

(** a fresh iterator visits every element once, in list order, and then
    reports the end; the list is not changed and the lock is free. *)
Theorem iterator_visits_all s ls fl ids p :
  repr s ls fl ids -> p ≠ 0 -> its s !! p = None ->
  exists s', (it ← list_create_iterator p; iterator_collect (S (length ls)) it) s
             = Ok ((elem_of <$> ls) ++ [0], s') /\
    mem s' = mem s /\ lock s' = lock s /\ repr s' ls fl (p :: ids).
Proof.
  intros R Hp Hn.
  assert (wp (it ← list_create_iterator p; iterator_collect (S (length ls)) it) s (fun r s' =>
    r = (elem_of <$> ls) ++ [0] /\ mem s' = mem s /\ lock s' = lock s /\ repr s' ls fl (p :: ids))) as H.
  { apply wp_bind. eapply wp_mono; [by apply list_create_iterator_spec|].
    cbn beta. intros r s1 (-> & R1 & [K _] & Em & Hi).
    eapply wp_mono; [eapply (iterator_collect_spec _ _ _ _ ls s1 [] R1 Hi)|].
    cbn beta. intros r s2 (-> & R2 & Em2 & El2). split_and!; congruence || done. }
  apply wp_elim in H as (r & s' & E & -> & ?). eauto.
Qed.

(** C2: removing an element never leaves an iterator dangling.  Iterators that
    stood on it move to the next element (to the first one if it was the last
    of several, to the end if the list becomes empty); all other iterators stay
    where they are, and all stand on remaining elements or the end. *)
Theorem remove_never_dangles s l1 e l2 fl ids :
  repr s (l1 ++ hdr_of e :: l2) fl ids ->
  exists s', list_remove_element e s = Ok (tt, s') /\ repr s' (l1 ++ l2) fl ids /\
    forall i it, its s !! i = Some it -> exists it', its s' !! i = Some it' /\
      currentElement it' ∈ (l1 ++ l2) ++ [TAIL] /\ it_next it' = it_next it /\
      currentElement it' =
        (if decide (currentElement it = hdr_of e) then next_cursor l1 l2 else currentElement it).
Proof.
  intros R. pose proof (list_remove_element_spec s l1 e l2 fl ids R) as H.
  apply wp_elim in H as ([] & s' & E & R' & _ & _ & Hits). exists s'. split_and!; [done..|].
  intros i it Hi. exists (adj (hdr_of e) (next_cursor l1 l2) it).
  assert (its s' !! i = Some (adj (hdr_of e) (next_cursor l1 l2) it)) as Hi'
    by (by rewrite Hits, lookup_fmap, Hi).
  split_and!; [done|by eapply r_cursor|apply adj_next|].
  unfold adj. destruct (Z.eqb_spec (currentElement it) (hdr_of e)); case_decide; done.
Qed.

(** The unlinking loop makes no progress unless the iterator is the second. *)
Lemma destroy_loop_stuck fuel cur it nx c s :
  cur ≠ 0 -> its s !! cur = Some c -> it_next c ≠ it ->
  destroy_loop (A := A) fuel cur it nx s = Fail OutOfFuel.
Proof.
  intros Hc Hi Hn. induction fuel as [|fuel IH]; cbn [destroy_loop];
    (destruct (Z.eqb_spec cur 0); [done|]); [done|].
  unfold mbind, M_bind, ld_iter. rewrite Hi.
  destruct (Z.eqb_spec (it_next c) it); [done|]. exact IH.
Qed.

(** [iterator_destroy] does not terminate for an iterator that is neither
    the newest nor the second newest of its list: its loop never advances to
    the next iterator, whatever the number of rounds allowed. *)
Theorem iterator_destroy_diverges s ls fl a b ids it :
  repr s ls fl (a :: b :: ids) -> it ∈ ids ->
  forall fuel, iterator_destroy fuel it s = Fail OutOfFuel.
Proof.
  intros R Hit fuel. pose proof (r_iters _ _ _ _ R) as (E1 & Ha & q & Hq & E2 & Hb & _).
  destruct (r_ids _ _ _ _ R) as [ND Hdom]. rewrite !NoDup_cons in ND.
  assert (is_Some (its s !! it)) as [i Hi] by (apply Hdom; set_solver).
  apply fmap_Some in Hq as (c & Hc & ->).
  unfold iterator_destroy, wlock_lock, modify, mbind, M_bind, ld_iter, gets. state_simpl.
  rewrite Hi. state_simpl. destruct (Z.eqb_spec (iterators s) it); [set_solver|].
  rewrite (destroy_loop_stuck fuel _ it _ c); [done| | |].
  - by rewrite E1.
  - state_simpl. by rewrite E1.
  - set_solver.
Qed.

(** stepping a circular iterator of an empty list twice dereferences
    NULL: the first call stores the dummy tail's NULL next pointer in the
    cursor, the second one follows it. *)
Theorem next_circ_empty_faults s fl ids it n :
  repr s [] fl ids -> its s !! it = Some (mkIter TAIL n) ->
  exists s', iterator_next_circ it s = Ok (0, s') /\
    its s' !! it = Some (mkIter 0 n) /\ iterator_next_circ it s' = Fail InvalidDeref.
Proof.
  intros R Hi. destruct (r_ends _ _ _ _ R) as [_ Ht]. pose proof (r_size _ _ _ _ R) as Hs.
  change (lsize s = 0) in Hs.
  assert (wp (iterator_next_circ it) s (fun r s' => r = 0 /\ its s' !! it = Some (mkIter 0 n) /\
            mem s' = mem s)) as H.
  { unfold iterator_next_circ, getCurrentNode. wp_list. eapply wp_ld_iter; [done|].
    cbn [currentElement]. rewrite Z.eqb_refl, orb_true_r. wp_list. rewrite Hs.
    change (0 <? 0) with false. wp_list. eapply wp_ld_iter; [done|]. cbn [currentElement]. wp_list.
    change (0 =? TAIL) with false. cbv beta iota. wp_list. eapply wp_st_current; [done|].
    wp_list. split_and!; try done. by rewrite lookup_insert_eq. }
  apply wp_elim in H as (r & s' & E & -> & Hi' & Em). exists s'. split_and!; [done..|].
  assert (nxt (mem s') 0 = None) as H0.
  { rewrite Em. destruct (nxt (mem s) 0) eqn:E0; [|done]. apply nxt_alloc in E0.
    apply (r_range _ _ _ _ R) in E0. lia. }
  unfold iterator_next_circ, getCurrentNode, wlock_lock, modify, mbind, M_bind, ld_iter. state_simpl.
  rewrite Hi'. cbn [currentElement]. change (0 =? HEAD) with false. change (0 =? TAIL) with false.
  cbn [orb]. unfold mret, M_ret. state_simpl. rewrite Hi'. cbn [currentElement].
  unfold ld_next. state_simpl. by rewrite H0.
Qed.

End IterTheorems.

(** ** Concrete runs *)

Definition after_run {S A} (m : M S A) (s : S) : S :=
  match m s with Ok (_, s') => s' | Fail _ => s end.

(** A new list of 24-byte elements. *)
Definition empty_list : wListImpl Z :=
  default (mkList ∅ 0 0 0 0 ∅ 0 0 0) (list_create 0 24 (2 ^ 20)).

(** The same list with three elements and three iterators. *)
Definition demo_list : wListImpl Z :=
  after_run (list_add_element 0 ;; list_add_element 0 ;; list_add_element 0 ;;
             list_create_iterator 1 ;; list_create_iterator 2 ;; list_create_iterator 3) empty_list.

Lemma empty_list_sim : sim empty_list [] (mkAlist [] [] ∅).
Proof. apply (list_create_sim 0 24 (2 ^ 20)); [reflexivity|lia|vm_compute; discriminate]. Qed.

Lemma demo_list_repr : repr demo_list [8192; 8232; 8272] [] [3; 2; 1].
Proof. apply repr_test_sound. vm_compute. reflexivity. Qed.

Lemma list_simulates_abstract_witness :
  exists r s' a', run_cmd 0 AddElement empty_list = Ok (r, s') /\
    astep AddElement (mkAlist [] [] ∅) r a' /\ sim s' [] a' /\ lock s' = lock empty_list.
Proof. exact (list_simulates_abstract 0 empty_list [] _ AddElement empty_list_sim I). Defined.

Lemma iterator_visits_all_witness :
  exists s', (it ← list_create_iterator 4; iterator_collect 4 it) demo_list
             = Ok ([8208; 8248; 8288; 0], s') /\
    mem s' = mem demo_list /\ lock s' = lock demo_list /\ repr s' [8192; 8232; 8272] [] [4; 3; 2; 1].
Proof.
  apply (iterator_visits_all demo_list _ _ _ 4 demo_list_repr); [discriminate|vm_compute; reflexivity].
Defined.

Lemma remove_never_dangles_witness :
  exists s', list_remove_element 8208 demo_list = Ok (tt, s') /\ repr s' [8232; 8272] [] [3; 2; 1] /\
    forall i it, its demo_list !! i = Some it -> exists it', its s' !! i = Some it' /\
      currentElement it' ∈ [8232; 8272] ++ [TAIL] /\ it_next it' = it_next it /\
      currentElement it' = (if decide (currentElement it = 8192) then 8232 else currentElement it).
Proof. exact (remove_never_dangles demo_list [] 8208 [8232; 8272] [] [3; 2; 1] demo_list_repr). Defined.

Lemma iterator_destroy_diverges_witness :
  iterator_destroy 1000 1 demo_list = Fail OutOfFuel.
Proof.
  apply (iterator_destroy_diverges demo_list _ _ 3 2 [1] 1 demo_list_repr). constructor.
Defined.

Definition empty_with_iterator : wListImpl Z := after_run (list_create_iterator 1) empty_list.

Lemma next_circ_empty_faults_witness :
  exists s', iterator_next_circ 1 empty_with_iterator = Ok (0, s') /\
    its s' !! 1 = Some (mkIter 0 0) /\ iterator_next_circ 1 s' = Fail InvalidDeref.
Proof.
  apply (next_circ_empty_faults empty_with_iterator [] [1] 1 0);
    [apply repr_test_sound; vm_compute; reflexivity|vm_compute; reflexivity].
Defined.
