(* ===== verification/WombatQueue.v ===== *)
(** * The event queue of [common/c_cpp/src/c/queue.c]

    Items live in chunks allocated [mChunkSize] at a time, are linked between
    two dummy items inside the queue structure, and return to a free list when
    they leave the queue.  A counting semaphore holds one token per item (and
    one per pending [wombatQueue_unblock]).  The queue has one built-in cursor,
    [mIterator].

    Callbacks are recorded in [calls] in the order they are invoked. *)

From S2P Require Import Prelude Linked.

Module WombatQueue.

Inductive wombatQueueStatus : Type :=
| WOMBAT_QUEUE_OK
| WOMBAT_QUEUE_FULL
| WOMBAT_QUEUE_NOMEM
| WOMBAT_QUEUE_SEM_ERR
| WOMBAT_QUEUE_MTX_ERR
| WOMBAT_QUEUE_INVALID_ARG
| WOMBAT_QUEUE_WOULD_BLOCK
| WOMBAT_QUEUE_END
| WOMBAT_QUEUE_TIMEOUT.

#[export] Instance wombatQueueStatus_eq_dec : EqDecision wombatQueueStatus.
Proof. solve_decision. Defined.

Definition WOMBAT_QUEUE_MAX_SIZE : Z := 2147483647.
Definition WOMBAT_QUEUE_CHUNK_SIZE : Z := 64.
Definition sizeof_item : Z := 48.

Record wombatQueueItem := mkItem {
  mCb : Z; mData : Z; mClosure : Z; mNext : Z; mPrev : Z; mChunkNext : Z
}.

Record wombatQueueImpl := mkQueue {
  qmem : gmap Z wombatQueueItem;
  mSem : Z;
  mLock : Z;
  mUnblocking : Z;
  mMaxSize : Z;
  mChunkSize : Z;
  mIterator : Z;
  mFirstFree : Z;   (* mFirstFree.mNext *)
  mChunks : Z;
  brk : Z;
  limit : Z;
  calls : list (Z * Z * Z)
}.

(** [&impl->mHead], [&impl->mTail], and the first address after the queue. *)
Definition HEAD : Z := 4096.
Definition TAIL : Z := 4144.
Definition FIRST : Z := 8192.

Definition set_qmem v q := mkQueue v (mSem q) (mLock q) (mUnblocking q) (mMaxSize q) (mChunkSize q)
  (mIterator q) (mFirstFree q) (mChunks q) (brk q) (limit q) (calls q).
Definition set_mSem v q := mkQueue (qmem q) v (mLock q) (mUnblocking q) (mMaxSize q) (mChunkSize q)
  (mIterator q) (mFirstFree q) (mChunks q) (brk q) (limit q) (calls q).
Definition set_mLock v q := mkQueue (qmem q) (mSem q) v (mUnblocking q) (mMaxSize q) (mChunkSize q)
  (mIterator q) (mFirstFree q) (mChunks q) (brk q) (limit q) (calls q).
Definition set_mUnblocking v q := mkQueue (qmem q) (mSem q) (mLock q) v (mMaxSize q) (mChunkSize q)
  (mIterator q) (mFirstFree q) (mChunks q) (brk q) (limit q) (calls q).
Definition set_mMaxSize v q := mkQueue (qmem q) (mSem q) (mLock q) (mUnblocking q) v (mChunkSize q)
  (mIterator q) (mFirstFree q) (mChunks q) (brk q) (limit q) (calls q).
Definition set_mChunkSize v q := mkQueue (qmem q) (mSem q) (mLock q) (mUnblocking q) (mMaxSize q) v
  (mIterator q) (mFirstFree q) (mChunks q) (brk q) (limit q) (calls q).
Definition set_mIterator v q := mkQueue (qmem q) (mSem q) (mLock q) (mUnblocking q) (mMaxSize q)
  (mChunkSize q) v (mFirstFree q) (mChunks q) (brk q) (limit q) (calls q).
Definition set_mFirstFree v q := mkQueue (qmem q) (mSem q) (mLock q) (mUnblocking q) (mMaxSize q)
  (mChunkSize q) (mIterator q) v (mChunks q) (brk q) (limit q) (calls q).
Definition set_mChunks v q := mkQueue (qmem q) (mSem q) (mLock q) (mUnblocking q) (mMaxSize q)
  (mChunkSize q) (mIterator q) (mFirstFree q) v (brk q) (limit q) (calls q).
Definition set_brk v q := mkQueue (qmem q) (mSem q) (mLock q) (mUnblocking q) (mMaxSize q)
  (mChunkSize q) (mIterator q) (mFirstFree q) (mChunks q) v (limit q) (calls q).
Definition set_calls v q := mkQueue (qmem q) (mSem q) (mLock q) (mUnblocking q) (mMaxSize q)
  (mChunkSize q) (mIterator q) (mFirstFree q) (mChunks q) (brk q) (limit q) v.

#[export] Instance item_node : DNode wombatQueueItem := {
  nd_next := mNext;
  nd_prev := mPrev;
  set_nd_next v n := mkItem (mCb n) (mData n) (mClosure n) v (mPrev n) (mChunkNext n);
  set_nd_prev v n := mkItem (mCb n) (mData n) (mClosure n) (mNext n) v (mChunkNext n);
  nd_next_set_next v n := eq_refl;
  nd_next_set_prev v n := eq_refl;
  nd_prev_set_prev v n := eq_refl;
  nd_prev_set_next v n := eq_refl;
}.

#[export] Instance queue_mem : HasMem wombatQueueImpl wombatQueueItem := {
  get_mem := qmem;
  set_mem := set_qmem;
  get_set_mem m s := eq_refl;
  set_set_mem m m' s := eq_refl;
}.

Abbreviation QM := (M wombatQueueImpl).

(** ** Synchronisation *)

Definition mutex_lock : QM unit := modify (fun q => set_mLock (mLock q + 1) q).
Definition mutex_unlock : QM unit := modify (fun q => set_mLock (mLock q - 1) q).
Definition wsem_post : QM unit := modify (fun q => set_mSem (mSem q + 1) q).
(** [true]: a token was taken. *)
Definition wsem_trywait : QM bool := fun q =>
  if 0 <? mSem q then Ok (true, set_mSem (mSem q - 1) q) else Ok (false, q).
(** With no token the caller waits for another thread. *)
Definition wsem_wait : QM unit := fun q =>
  if 0 <? mSem q then Ok (tt, set_mSem (mSem q - 1) q) else Fail Blocked.

(** ** Items *)

Definition ld_item (p : Z) : QM wombatQueueItem := fun q =>
  match qmem q !! p with Some i => Ok (i, q) | None => Fail InvalidDeref end.
(** The three assignments that fill an item. *)
Definition st_content (p cb data closure : Z) : QM unit := fun q =>
  match qmem q !! p with
  | Some i => Ok (tt, set_qmem (<[p := mkItem cb data closure (mNext i) (mPrev i) (mChunkNext i)]> (qmem q)) q)
  | None => Fail InvalidDeref
  end.
Definition st_chunk_next (p v : Z) : QM unit := fun q =>
  match qmem q !! p with
  | Some i => Ok (tt, set_qmem (<[p := mkItem (mCb i) (mData i) (mClosure i) (mNext i) (mPrev i) v]> (qmem q)) q)
  | None => Fail InvalidDeref
  end.

Definition item0 : wombatQueueItem := mkItem 0 0 0 0 0 0.

(** [k] zeroed items from address [p] on. *)
Fixpoint zero_items (k : nat) (p : Z) (m : gmap Z wombatQueueItem) : gmap Z wombatQueueItem :=
  match k with
  | O => m
  | S k' => <[p := item0]> (zero_items k' (p + sizeof_item) m)
  end.

(** [calloc (1, sizeToAlloc)] for [items] items; 0 when memory is exhausted. *)
Definition calloc_items (items : Z) : QM Z := fun q =>
  if brk q + items * sizeof_item <=? limit q
  then Ok (brk q, set_brk (brk q + items * sizeof_item)
                   (set_qmem (zero_items (Z.to_nat items) (brk q) (qmem q)) q))
  else Ok (0, q).

(** The loop that links the items of a new chunk. *)
Fixpoint link_loop (k : nat) (p : Z) : QM unit :=
  match k with
  | O => mret tt
  | S k' =>
      st_next p (p + sizeof_item) ;;
      st_prev (p + sizeof_item) p ;;
      link_loop k' (p + sizeof_item)
  end.

(** [size] is an [int], [items] and [mMaxSize] are unsigned: the sum is
    computed modulo 2^32, and so is [items - 1]. *)
Definition wombatQueueImpl_allocChunk (items : Z) : QM unit :=
  size ← gets mSem;
  max ← gets mMaxSize;
  if max <? u32 (size + items) then mret tt else
  result ← calloc_items items;
  chunks ← gets mChunks;
  st_chunk_next result chunks ;;
  modify (set_mChunks result) ;;
  modify (set_mFirstFree result) ;;
  link_loop (Z.to_nat (u32 (items - 1))) result.

(** [WQ_REMOVE]. *)
Definition WQ_REMOVE (ele : Z) : QM unit :=
  p ← ld_prev ele;
  n ← ld_next ele;
  st_next p n ;;
  n ← ld_next ele;
  p ← ld_prev ele;
  st_prev n p ;;
  f ← gets mFirstFree;
  st_next ele f ;;
  modify (set_mFirstFree ele).

(** ** Life cycle *)

(** [lim] bounds the memory the queue can use. *)
Definition wombatQueue_allocate (lim : Z) : option wombatQueueImpl :=
  if lim <? FIRST then None else
  Some (mkQueue (<[HEAD := mkItem 0 0 0 TAIL HEAD 0]> (<[TAIL := mkItem 0 0 0 TAIL HEAD 0]> ∅))
          0 0 0 WOMBAT_QUEUE_MAX_SIZE WOMBAT_QUEUE_CHUNK_SIZE HEAD 0 0 FIRST lim []).

(** [sem_ok]: the result of [wsem_init]. *)
Definition wombatQueue_create (sem_ok : bool) (maxSize initialSize growBySize : Z)
  : QM wombatQueueStatus :=
  (if maxSize =? 0 then mret tt else modify (set_mMaxSize maxSize)) ;;
  (if growBySize =? 0 then mret tt else modify (set_mChunkSize growBySize)) ;;
  if negb sem_ok then mret WOMBAT_QUEUE_SEM_ERR else
  modify (set_mSem 0) ;;
  wombatQueueImpl_allocChunk (if initialSize =? 0 then WOMBAT_QUEUE_CHUNK_SIZE else initialSize) ;;
  f ← gets mFirstFree;
  mret (if f =? 0 then WOMBAT_QUEUE_NOMEM else WOMBAT_QUEUE_OK).

Definition wombatQueue_setMaxSize (value : Z) : QM wombatQueueStatus :=
  if WOMBAT_QUEUE_MAX_SIZE <? value then mret WOMBAT_QUEUE_INVALID_ARG else
  modify (set_mMaxSize value) ;;
  mret WOMBAT_QUEUE_OK.

Definition wombatQueue_getMaxSize : QM (wombatQueueStatus * Z) :=
  v ← gets mMaxSize; mret (WOMBAT_QUEUE_OK, v).

Definition wombatQueue_getSize : QM (wombatQueueStatus * Z) :=
  v ← gets mSem; mret (WOMBAT_QUEUE_OK, v).

(** ** Adding and taking items *)

(** The block shared by [wombatQueue_enqueue], [wombatQueue_insertAfter] and
    [wombatQueue_insertBefore]: take the first free item, growing the free list
    when it is empty, and fill it; 0 when there is none. *)
Definition take_free (cb data closure : Z) : QM Z :=
  f ← gets mFirstFree;
  (if f =? 0 then c ← gets mChunkSize; wombatQueueImpl_allocChunk c else mret tt) ;;
  item ← gets mFirstFree;
  if item =? 0 then mret 0 else
  n ← ld_next item;
  modify (set_mFirstFree n) ;;
  st_content item cb data closure ;;
  mret item.

Definition wombatQueue_enqueue (cb data closure : Z) : QM wombatQueueStatus :=
  mutex_lock ;;
  item ← take_free cb data closure;
  if item =? 0 then mutex_unlock ;; mret WOMBAT_QUEUE_FULL else
  st_next item TAIL ;;
  p ← ld_prev TAIL;
  st_prev item p ;;
  p ← ld_prev item;
  st_next p item ;;
  st_prev TAIL item ;;
  wsem_post ;;
  mutex_unlock ;;
  mret WOMBAT_QUEUE_OK.

(** A result of a dequeuing call: the status, and what is stored through the
    [data] and [closure] arguments when they are not NULL. *)
Definition qresult : Type := wombatQueueStatus * option (Z * Z).

Definition invoke (cb data closure : Z) : QM unit :=
  if cb =? 0 then mret tt else modify (fun q => set_calls (calls q ++ [(cb, data, closure)]) q).

(** The part of [wombatQueue_dispatchInt] after the semaphore. *)
Definition dispatch_locked : QM qresult :=
  mutex_lock ;;
  u ← gets mUnblocking;
  if negb (u =? 0) then
    modify (set_mUnblocking 0) ;;
    mutex_unlock ;;
    mret (WOMBAT_QUEUE_OK, None)
  else
  head ← ld_next HEAD;
  if head =? TAIL then mutex_unlock ;; mret (WOMBAT_QUEUE_OK, None) else
  WQ_REMOVE head ;;
  i ← ld_item head;
  mutex_unlock ;;
  invoke (mCb i) (mData i) (mClosure i) ;;
  mret (WOMBAT_QUEUE_OK, Some (mData i, mClosure i)).

Definition EINTR : Z := 4.

(** The retry loop around [wsem_wait]: [errs] are the errors of the calls that
    fail before one takes a token; [false] when an error other than [EINTR]
    ends the loop. *)
Fixpoint wait_loop (errs : list Z) : QM bool :=
  match errs with
  | [] => wsem_wait ;; mret true
  | e :: errs' => if e =? EINTR then wait_loop errs' else mret false
  end.

(** A timed wait on an empty semaphore times out. *)
Definition wombatQueue_dispatchInt (isTimed : bool) (errs : list Z) : QM qresult :=
  if isTimed then
    t ← wsem_trywait;
    if negb t then mret (WOMBAT_QUEUE_TIMEOUT, None) else dispatch_locked
  else
    t ← wait_loop errs;
    if negb t then mret (WOMBAT_QUEUE_SEM_ERR, None) else dispatch_locked.

Definition wombatQueue_dispatch (errs : list Z) : QM qresult := wombatQueue_dispatchInt false errs.
Definition wombatQueue_timedDispatch : QM qresult := wombatQueue_dispatchInt true [].

(** The part of [wombatQueue_poll] after the semaphore. *)
Definition poll_locked : QM qresult :=
  mutex_lock ;;
  head ← ld_next HEAD;
  WQ_REMOVE head ;;
  i ← ld_item head;
  mutex_unlock ;;
  invoke (mCb i) (mData i) (mClosure i) ;;
  mret (WOMBAT_QUEUE_OK, Some (mData i, mClosure i)).

Definition wombatQueue_poll : QM qresult :=
  t ← wsem_trywait;
  if negb t then mret (WOMBAT_QUEUE_WOULD_BLOCK, None) else poll_locked.

Definition wombatQueue_unblock : QM wombatQueueStatus :=
  mutex_lock ;;
  modify (set_mUnblocking 1) ;;
  wsem_post ;;
  mutex_unlock ;;
  mret WOMBAT_QUEUE_OK.

(** The result carries the (data, item closure) pairs handed to the callback:
    the body of the [for (;;)] returns in its first round. *)
Definition wombatQueue_flush : QM (wombatQueueStatus * list (Z * Z)) :=
  t ← wsem_trywait;
  if negb t then mret (WOMBAT_QUEUE_OK, []) else
  mutex_lock ;;
  head ← ld_next HEAD;
  WQ_REMOVE head ;;
  i ← ld_item head;
  mutex_unlock ;;
  mret (WOMBAT_QUEUE_OK, [(mData i, mClosure i)]).

(** ** The cursor *)

Definition wombatQueue_next : QM qresult :=
  mutex_lock ;;
  c ← gets mIterator;
  n ← ld_next c;
  modify (set_mIterator n) ;;
  if n =? TAIL then
    p ← ld_prev n;
    modify (set_mIterator p) ;;
    mutex_unlock ;;
    mret (WOMBAT_QUEUE_END, Some (0, 0))
  else
  i ← ld_item n;
  mutex_unlock ;;
  mret (WOMBAT_QUEUE_OK, Some (mData i, mClosure i)).

Definition wombatQueue_prev : QM qresult :=
  mutex_lock ;;
  c ← gets mIterator;
  p ← ld_prev c;
  modify (set_mIterator p) ;;
  if p =? HEAD then
    n ← ld_next p;
    modify (set_mIterator n) ;;
    mutex_unlock ;;
    mret (WOMBAT_QUEUE_END, Some (0, 0))
  else
  i ← ld_item p;
  mutex_unlock ;;
  mret (WOMBAT_QUEUE_OK, Some (mData i, mClosure i)).

Definition wombatQueue_cur : QM qresult :=
  mutex_lock ;;
  c ← gets mIterator;
  if (c =? HEAD) || (c =? TAIL) then mutex_unlock ;; mret (WOMBAT_QUEUE_END, Some (0, 0)) else
  i ← ld_item c;
  mutex_unlock ;;
  mret (WOMBAT_QUEUE_OK, Some (mData i, mClosure i)).

Definition wombatQueue_remove : QM qresult :=
  mutex_lock ;;
  tmp ← gets mIterator;
  if (tmp =? HEAD) || (tmp =? TAIL) then mutex_unlock ;; mret (WOMBAT_QUEUE_END, None) else
  i ← ld_item tmp;
  n ← ld_next tmp;
  modify (set_mIterator n) ;;
  p ← ld_prev tmp;
  n ← ld_next tmp;
  st_next p n ;;
  n ← ld_next tmp;
  p ← ld_prev tmp;
  st_prev n p ;;
  f ← gets mFirstFree;
  st_next tmp f ;;
  modify (set_mFirstFree tmp) ;;
  mutex_unlock ;;
  mret (WOMBAT_QUEUE_OK, Some (mData i, mClosure i)).

Definition wombatQueue_insertAfter (cb data closure : Z) : QM wombatQueueStatus :=
  mutex_lock ;;
  c ← gets mIterator;
  (if c =? TAIL then modify (set_mIterator HEAD) else mret tt) ;;
  item ← take_free cb data closure;
  if item =? 0 then mutex_unlock ;; mret WOMBAT_QUEUE_FULL else
  c ← gets mIterator;
  n ← ld_next c;
  st_next item n ;;
  st_prev item c ;;
  n ← ld_next c;
  st_prev n item ;;
  st_next c item ;;
  wsem_post ;;
  mutex_unlock ;;
  mret WOMBAT_QUEUE_OK.

Definition wombatQueue_insertBefore (cb data closure : Z) : QM wombatQueueStatus :=
  mutex_lock ;;
  c ← gets mIterator;
  (if c =? HEAD then modify (set_mIterator TAIL) else mret tt) ;;
  item ← take_free cb data closure;
  if item =? 0 then mutex_unlock ;; mret WOMBAT_QUEUE_FULL else
  c ← gets mIterator;
  st_next item c ;;
  p ← ld_prev c;
  st_prev item p ;;
  p ← ld_prev c;
  st_next p item ;;
  st_prev c item ;;
  wsem_post ;;
  mutex_unlock ;;
  mret WOMBAT_QUEUE_OK.

(** The [cb] argument of the C function is not used. *)
Definition wombatQueue_replace (data closure : Z) : QM wombatQueueStatus :=
  mutex_lock ;;
  c ← gets mIterator;
  if (c =? HEAD) || (c =? TAIL) then mutex_unlock ;; mret WOMBAT_QUEUE_END else
  i ← ld_item c;
  st_content c (mCb i) data closure ;;
  mutex_unlock ;;
  mret WOMBAT_QUEUE_OK.

Definition wombatQueue_begin : QM wombatQueueStatus :=
  mutex_lock ;;
  modify (set_mIterator HEAD) ;;
  mutex_unlock ;;
  mret WOMBAT_QUEUE_OK.

Definition wombatQueue_end : QM wombatQueueStatus :=
  mutex_lock ;;
  modify (set_mIterator TAIL) ;;
  mutex_unlock ;;
  mret WOMBAT_QUEUE_OK.

(** The chunks [wombatQueue_destroy] frees, following [mChunkNext]. *)
Fixpoint chunk_walk (fuel : nat) (cur : Z) (q : wombatQueueImpl) : res (list Z) :=
  if cur =? 0 then Ok [] else
  match fuel with
  | O => Fail OutOfFuel
  | S fuel' =>
      match qmem q !! cur with
      | None => Fail InvalidDeref
      | Some i => match chunk_walk fuel' (mChunkNext i) q with
                  | Ok l => Ok (cur :: l)
                  | Fail f => Fail f
                  end
      end
  end.

(** [sem_ok]: the result of [wsem_destroy]; [true] in the result says the queue
    structure itself was freed by [wombatQueue_deallocate]. *)
Definition wombatQueue_destroy (sem_ok : bool) (q : wombatQueueImpl)
  : res (wombatQueueStatus * list Z * bool) :=
  match chunk_walk (size (qmem q)) (mChunks q) q with
  | Fail f => Fail f
  | Ok chunks =>
      if sem_ok then Ok (WOMBAT_QUEUE_OK, chunks, true)
      else Ok (WOMBAT_QUEUE_SEM_ERR, chunks, false)
  end.

End WombatQueue.
