(* ===== verification/WombatQueueInv.v ===== *)
(** * The queue's well-formedness and what its building blocks do

    [qrepr q ls fl]: the items in the queue are [ls], front first, linked both
    ways between the two dummies; the free list is [fl].  The dummies point at
    themselves on the outside, which the cursor relies on. *)

From S2P Require Import Prelude Linked WombatQueue.
Import WombatQueue.

Ltac state_simpl ::=
  cbn [get_mem set_mem queue_mem];
  unfold set_qmem, set_mSem, set_mLock, set_mUnblocking, set_mMaxSize, set_mChunkSize,
    set_mIterator, set_mFirstFree, set_mChunks, set_brk, set_calls;
  cbn [qmem mSem mLock mUnblocking mMaxSize mChunkSize mIterator mFirstFree mChunks brk limit calls].

(** ** What an item carries *)

Definition content (h : gmap Z wombatQueueItem) (p : Z) : option (Z * Z * Z) :=
  (fun i => (mCb i, mData i, mClosure i)) <$> h !! p.

Lemma content_upd_next h p v q : content (upd_next p v h) q = content h q.
Proof.
  unfold content, upd_next. rewrite lookup_alter. destruct (decide (p = q)) as [->|]; [|done].
  by destruct (h !! q).
Qed.
Lemma content_upd_prev h p v q : content (upd_prev p v h) q = content h q.
Proof.
  unfold content, upd_prev. rewrite lookup_alter. destruct (decide (p = q)) as [->|]; [|done].
  by destruct (h !! q).
Qed.
#[export] Hint Rewrite content_upd_next content_upd_prev : linked.

Lemma content_frame h h' (l : list Z) :
  (forall p, p ∈ l -> content h' p = content h p) -> content h' <$> l = content h <$> l.
Proof. intros H. apply list_fmap_ext. intros i p Hp. apply H. by eapply list_elem_of_lookup_2. Qed.

(** Storing an item's content. *)
Definition upd_content (p cb data closure : Z) (h : gmap Z wombatQueueItem) :=
  alter (fun i => mkItem cb data closure (mNext i) (mPrev i) (mChunkNext i)) p h.

Lemma nxt_upd_content h p cb d c q : nxt (upd_content p cb d c h) q = nxt h q.
Proof.
  unfold nxt, upd_content. rewrite lookup_alter. destruct (decide (p = q)) as [->|]; [|done].
  by destruct (h !! q).
Qed.
Lemma prv_upd_content h p cb d c q : prv (upd_content p cb d c h) q = prv h q.
Proof.
  unfold prv, upd_content. rewrite lookup_alter. destruct (decide (p = q)) as [->|]; [|done].
  by destruct (h !! q).
Qed.
Lemma upd_content_alloc h p cb d c q : is_Some (upd_content p cb d c h !! q) <-> is_Some (h !! q).
Proof. unfold upd_content. by rewrite lookup_alter_is_Some. Qed.
Lemma content_upd_content_eq h p cb d c :
  is_Some (h !! p) -> content (upd_content p cb d c h) p = Some (cb, d, c).
Proof. intros [i Hi]. unfold content, upd_content. by rewrite lookup_alter_eq, Hi. Qed.
Lemma content_upd_content_ne h p cb d c q :
  p ≠ q -> content (upd_content p cb d c h) q = content h q.
Proof. intros H. unfold content, upd_content. by rewrite lookup_alter_ne. Qed.
#[export] Hint Rewrite nxt_upd_content prv_upd_content : linked.
#[export] Hint Resolve <- upd_content_alloc : mama.

Lemma wp_st_content p cb d c q Q :
  is_Some (qmem q !! p) -> Q tt (set_qmem (upd_content p cb d c (qmem q)) q) ->
  wp (st_content p cb d c) q Q.
Proof.
  intros [i H] HQ. unfold wp, st_content. rewrite H. unfold upd_content in HQ.
  rewrite <- (insert_id _ _ _ H) in HQ at 1. rewrite alter_insert_eq in HQ.
  by rewrite insert_insert_eq in HQ || exact HQ.
Qed.

Lemma wp_ld_item p cb d c q Q :
  content (qmem q) p = Some (cb, d, c) ->
  (forall i, mCb i = cb -> mData i = d -> mClosure i = c -> Q i q) -> wp (ld_item p) q Q.
Proof.
  unfold content, wp, ld_item. destruct (qmem q !! p) as [i|]; [|done].
  cbn. intros [= <- <- <-] HQ. by apply HQ.
Qed.

(** ** The invariant *)

Record qrepr (q : wombatQueueImpl) (ls fl : list Z) : Prop := {
  q_ring : linked (qmem q) (HEAD :: ls ++ [TAIL]);
  q_head : prv (qmem q) HEAD = Some HEAD;
  q_tail : nxt (qmem q) TAIL = Some TAIL;
  q_free : chain (nxt (qmem q)) (mFirstFree q) fl;
  q_nodup : NoDup (HEAD :: TAIL :: ls ++ fl);
  q_range : forall p, p ∈ ls ++ fl -> FIRST <= p < brk q;
  q_brk : FIRST <= brk q;
  q_null : nxt (qmem q) 0 = None;
}.

(** The place between [l1] and [l2], and the blocks on its two sides. *)
Definition place (l1 l2 : list Z) (r1 : list Z) (a b : Z) (r2 : list Z) : Prop :=
  HEAD :: l1 = r1 ++ [a] /\ l2 ++ [TAIL] = b :: r2.

Lemma place_exists l1 l2 : exists r1 a b r2, place l1 l2 r1 a b r2.
Proof.
  destruct (exists_last (l := HEAD :: l1)) as (r1 & a & E); [done|].
  destruct l2 as [|b r2].
  - exists r1, a, TAIL, []. done.
  - exists r1, a, b, (r2 ++ [TAIL]). done.
Qed.

Lemma place_ring l1 l2 r1 a b r2 :
  place l1 l2 r1 a b r2 -> HEAD :: (l1 ++ l2) ++ [TAIL] = r1 ++ a :: b :: r2.
Proof.
  intros [E1 E2]. rewrite <- app_assoc, E2.
  change (HEAD :: l1 ++ b :: r2) with ((HEAD :: l1) ++ b :: r2). by rewrite E1, <- app_assoc.
Qed.
Lemma place_ring_mid l1 l2 r1 a b r2 x :
  place l1 l2 r1 a b r2 -> HEAD :: (l1 ++ x :: l2) ++ [TAIL] = r1 ++ a :: x :: b :: r2.
Proof.
  intros [E1 E2]. rewrite <- app_assoc. cbn [app]. rewrite E2.
  change (HEAD :: l1 ++ x :: b :: r2) with ((HEAD :: l1) ++ x :: b :: r2).
  by rewrite E1, <- app_assoc.
Qed.

(** Membership in the ring and in the pool. *)
Lemma place_left l1 l2 r1 a b r2 : place l1 l2 r1 a b r2 -> a = HEAD \/ a ∈ l1.
Proof.
  intros [E _]. assert (a ∈ HEAD :: l1) as H by (rewrite E; set_solver). set_solver.
Qed.
Lemma place_right l1 l2 r1 a b r2 : place l1 l2 r1 a b r2 -> b = TAIL \/ b ∈ l2.
Proof.
  intros [_ E]. assert (b ∈ l2 ++ [TAIL]) as H by (rewrite E; set_solver). set_solver.
Qed.

Lemma pool_facts ls fl :
  NoDup (HEAD :: TAIL :: ls ++ fl) ->
  HEAD ∉ ls /\ TAIL ∉ ls /\ HEAD ∉ fl /\ TAIL ∉ fl /\ NoDup fl /\ (forall p, p ∈ ls -> p ∉ fl).
Proof.
  intros H. apply NoDup_cons in H as [H1 H]. apply NoDup_cons in H as [H2 H].
  apply NoDup_app in H as (_ & H3 & H4). rewrite elem_of_cons, elem_of_app in H1.
  rewrite elem_of_app in H2. tauto.
Qed.

Section Facts.
  Context {q : wombatQueueImpl} {ls fl : list Z} (R : qrepr q ls fl).

Lemma q_ring_nodup : NoDup (HEAD :: ls ++ [TAIL]).
Proof.
  pose proof (q_nodup _ _ _ R) as H.
  assert (HEAD :: TAIL :: ls ++ fl ≡ₚ (HEAD :: ls ++ [TAIL]) ++ fl) as E.
  { by rewrite (Permutation_app_comm ls [TAIL]). }
  rewrite E in H. apply NoDup_app in H. tauto.
Qed.

Lemma free_alloc p : p ∈ fl -> is_Some (qmem q !! p).
Proof.
  intros Hp. destruct (chain_mem _ _ _ p (q_free _ _ _ R) Hp) as [v Hv]. eauto with mama.
Qed.

Lemma free_nonzero : forall p, p ∈ fl -> p ≠ 0 /\ p ≠ HEAD /\ p ≠ TAIL.
Proof.
  intros p Hp. assert (FIRST <= p < brk q) as H by (apply (q_range _ _ _ R); set_solver).
  unfold FIRST, HEAD, TAIL in *. lia.
Qed.

Lemma item_bounds p : p ∈ ls -> p ≠ 0 /\ p ≠ HEAD /\ p ≠ TAIL.
Proof.
  intros Hp. assert (FIRST <= p < brk q) as H by (apply (q_range _ _ _ R); set_solver).
  unfold FIRST, HEAD, TAIL in *. lia.
Qed.

End Facts.

(** ** Linking and unlinking an item *)

(** [x] enters the queue between [l1] and [l2]. *)
Lemma qrepr_insert q q' l1 l2 fl r1 a b r2 x :
  qrepr q (l1 ++ l2) fl -> place l1 l2 r1 a b r2 ->
  x ∉ HEAD :: TAIL :: (l1 ++ l2) ++ fl -> FIRST <= x < brk q ->
  nxt (qmem q') x = Some b -> prv (qmem q') x = Some a ->
  nxt (qmem q') a = Some x -> prv (qmem q') b = Some x ->
  (forall p, p ≠ x -> p ≠ a -> nxt (qmem q') p = nxt (qmem q) p) ->
  (forall p, p ≠ x -> p ≠ b -> prv (qmem q') p = prv (qmem q) p) ->
  mFirstFree q' = mFirstFree q -> brk q' = brk q ->
  qrepr q' (l1 ++ x :: l2) fl.
Proof.
  intros R P Hx Hxr Hxn Hxp Han Hbp Fn Fp Ef Eb.
  pose proof (q_ring_nodup R) as Hnd. pose proof (q_nodup _ _ _ R) as Hnd'.
  pose proof (q_ring _ _ _ R) as HL.
  destruct (pool_facts _ _ Hnd') as (FH & FT & GH & GT & _ & Hdis).
  assert (a ∉ fl /\ a ≠ TAIL) as [Ha Ha'].
  { destruct (place_left _ _ _ _ _ _ P) as [->|Hin]; [done|].
    split; [apply Hdis|intros ->]; set_solver. }
  assert (b ≠ HEAD) as Hb.
  { destruct (place_right _ _ _ _ _ _ P) as [->|Hin]; [done|]. set_solver. }
  split.
  - rewrite (place_ring_mid _ _ _ _ _ _ x P). rewrite (place_ring _ _ _ _ _ _ P) in HL, Hnd.
    eapply linked_insert; try done. rewrite <- (place_ring _ _ _ _ _ _ P).
    clear -Hx. rewrite !elem_of_cons, !elem_of_app in *. set_solver.
  - rewrite Fp; [apply R|set_solver|done].
  - rewrite Fn; [apply R|set_solver|done].
  - rewrite Ef. eapply chain_frame; [apply (q_free _ _ _ R)|]. intros p Hp. apply Fn; set_solver.
  - assert (HEAD :: TAIL :: (l1 ++ x :: l2) ++ fl ≡ₚ x :: HEAD :: TAIL :: (l1 ++ l2) ++ fl) as E.
    { rewrite <- Permutation_middle. cbn. solve_Permutation. }
    rewrite E. by apply NoDup_cons.
  - intros p Hp. rewrite Eb. rewrite !elem_of_app, elem_of_cons in Hp.
    destruct (decide (p = x)) as [->|Hpx]; [done|]. apply (q_range _ _ _ R).
    rewrite !elem_of_app. tauto.
  - rewrite Eb. apply (q_brk _ _ _ R).
  - rewrite Fn; [apply (q_null _ _ _ R)|unfold FIRST in *; lia|].
    intros <-. destruct (place_left _ _ _ _ _ _ P) as [?|Hin]; [done|].
    destruct (item_bounds R 0) as [? _]; set_solver.
Qed.

(** [x] leaves the queue from between [l1] and [l2] for the free list. *)
Lemma qrepr_remove q q' l1 l2 fl r1 a b r2 x :
  qrepr q (l1 ++ x :: l2) fl -> place l1 l2 r1 a b r2 ->
  nxt (qmem q') x = Some (mFirstFree q) ->
  nxt (qmem q') a = Some b -> prv (qmem q') b = Some a ->
  (forall p, p ≠ x -> p ≠ a -> nxt (qmem q') p = nxt (qmem q) p) ->
  (forall p, p ≠ x -> p ≠ b -> prv (qmem q') p = prv (qmem q) p) ->
  mFirstFree q' = x -> brk q' = brk q ->
  qrepr q' (l1 ++ l2) (x :: fl).
Proof.
  intros R P Hxn Han Hbp Fn Fp Ef Eb.
  pose proof (q_ring_nodup R) as Hnd. pose proof (q_ring _ _ _ R) as HL.
  assert (HEAD :: TAIL :: (l1 ++ x :: l2) ++ fl ≡ₚ HEAD :: TAIL :: (l1 ++ l2) ++ x :: fl) as E.
  { rewrite <- !Permutation_middle. cbn. solve_Permutation. }
  pose proof (q_nodup _ _ _ R) as Hnd'. rewrite E in Hnd'.
  assert (x ≠ 0 /\ x ≠ HEAD /\ x ≠ TAIL) as (Hx0 & HxH & HxT) by (apply (item_bounds R); set_solver).
  destruct (pool_facts _ _ Hnd') as (FH & FT & GH & GT & Hf & Hdis).
  apply NoDup_cons in Hf as [Hxf _].
  assert (a ∉ fl /\ a ≠ TAIL) as [Ha Ha'].
  { destruct (place_left _ _ _ _ _ _ P) as [->|Hin]; [set_solver|].
    assert (a ∉ x :: fl) by (apply Hdis; set_solver). split; [set_solver|intros ->; set_solver]. }
  assert (b ≠ HEAD) as Hb.
  { destruct (place_right _ _ _ _ _ _ P) as [->|Hin]; [done|]. set_solver. }
  split.
  - rewrite (place_ring _ _ _ _ _ _ P). rewrite (place_ring_mid _ _ _ _ _ _ x P) in HL, Hnd.
    by eapply linked_remove.
  - rewrite Fp; [apply R|done..].
  - rewrite Fn; [apply R|done..].
  - rewrite Ef. cbn. split_and!; [done..|]. exists (mFirstFree q). split; [done|].
    eapply chain_frame; [apply (q_free _ _ _ R)|]. intros p Hp. apply Fn; set_solver.
  - done.
  - intros p Hp. rewrite Eb. apply (q_range _ _ _ R). rewrite !elem_of_app, !elem_of_cons in *. tauto.
  - rewrite Eb. apply (q_brk _ _ _ R).
  - rewrite Fn; [apply (q_null _ _ _ R)|done|].
    intros <-. destruct (place_left _ _ _ _ _ _ P) as [?|Hin]; [done|].
    destruct (item_bounds R 0) as [? _]; set_solver.
Qed.

(** ** Growing the free list *)

(** What the queue operations below never touch, or restore. *)
Definition frame_of (q : wombatQueueImpl) : Z * Z * Z * Z * Z :=
  (mUnblocking q, mMaxSize q, mChunkSize q, limit q, mLock q).

Fixpoint addrs (k : nat) (p : Z) : list Z :=
  match k with O => [] | S k' => p :: addrs k' (p + sizeof_item) end.

Lemma length_addrs k p : length (addrs k p) = k.
Proof. revert p. induction k as [|k IH]; intros p; cbn; [done|by rewrite IH]. Qed.

Lemma addrs_bounds k p x : x ∈ addrs k p -> p <= x < p + Z.of_nat k * sizeof_item.
Proof.
  revert p. induction k as [|k IH]; intros p; cbn [addrs]; [set_solver|].
  intros [->|H]%elem_of_cons; [unfold sizeof_item; lia|]. apply IH in H.
  unfold sizeof_item in *. lia.
Qed.

Lemma addrs_nodup k p : NoDup (addrs k p).
Proof.
  revert p. induction k as [|k IH]; intros p; cbn; [constructor|]. constructor; [|done].
  intros H%addrs_bounds. unfold sizeof_item in H. lia.
Qed.

Lemma zero_items_lookup k p h x :
  zero_items k p h !! x = if decide (x ∈ addrs k p) then Some item0 else h !! x.
Proof.
  revert p. induction k as [|k IH]; intros p; cbn [zero_items addrs].
  - by rewrite decide_False by set_solver.
  - destruct (decide (x = p)) as [->|Hx].
    + rewrite lookup_insert_eq, decide_True by set_solver. done.
    + rewrite lookup_insert_ne, IH by done. apply decide_ext. set_solver.
Qed.

Lemma link_loop_spec k p q :
  0 < p -> (forall x, x ∈ addrs (S k) p -> nxt (qmem q) x = Some 0) ->
  wp (link_loop k p) q (fun _ q' =>
    chain (nxt (qmem q')) p (addrs (S k) p) /\
    (forall x, x ∉ addrs (S k) p -> nxt (qmem q') x = nxt (qmem q) x /\ prv (qmem q') x = prv (qmem q) x) /\
    (forall x, content (qmem q') x = content (qmem q) x) /\
    q' = set_qmem (qmem q') q).
Proof.
  revert p q. induction k as [|k IH]; intros p q Hp Hz.
  - cbn. apply wp_ret. split_and!; try done; [lia|..].
    + eexists. split; [apply Hz; set_solver|done].
    + by destruct q.
  - change (addrs (S (S k)) p) with (p :: addrs (S k) (p + sizeof_item)) in *.
    assert (p ∉ addrs (S k) (p + sizeof_item)) as Hnp.
    { intros H%addrs_bounds. unfold sizeof_item in H. lia. }
    assert (p + sizeof_item ∈ addrs (S k) (p + sizeof_item)) as Hn by (cbn; set_solver).
    assert (nxt (qmem q) p = Some 0) as H0 by (apply Hz; set_solver).
    assert (nxt (qmem q) (p + sizeof_item) = Some 0) as H1 by (apply Hz; set_solver).
    cbn [link_loop]. wp_mem.
    eapply wp_mono; [apply IH|].
    + unfold sizeof_item. lia.
    + intros x Hx. assert (p ≠ x) by (intros ->; done). mem_solve. rewrite Hz by set_solver. done.
    + cbn beta. intros _ q' (Hc & Hf & Hk & Hq). split_and!.
      * split; [done|]. split; [lia|]. exists (p + sizeof_item). split; [|done].
        destruct (Hf p Hnp) as [-> _]. mem_solve.
      * intros x Hx. assert (x ∉ addrs (S k) (p + sizeof_item)) as Hx' by set_solver.
        assert (p ≠ x) by set_solver. assert (p + sizeof_item ≠ x) by set_solver.
        destruct (Hf x Hx') as [-> ->]. split; mem_solve.
      * intros x. rewrite Hk. mem_solve.
      * by rewrite Hq at 1.
Qed.

Definition upd_chunk (p v : Z) (h : gmap Z wombatQueueItem) :=
  alter (fun i => mkItem (mCb i) (mData i) (mClosure i) (mNext i) (mPrev i) v) p h.

Lemma upd_chunk_same h p v q :
  nxt (upd_chunk p v h) q = nxt h q /\ prv (upd_chunk p v h) q = prv h q /\
  content (upd_chunk p v h) q = content h q.
Proof.
  unfold nxt, prv, content, upd_chunk. rewrite lookup_alter.
  destruct (decide (p = q)) as [->|]; [|done]. by destruct (h !! q).
Qed.

Lemma wp_st_chunk_next p v q Q :
  is_Some (qmem q !! p) -> Q tt (set_qmem (upd_chunk p v (qmem q)) q) ->
  wp (st_chunk_next p v) q Q.
Proof.
  intros [i H] HQ. unfold wp, st_chunk_next. rewrite H. unfold upd_chunk in HQ.
  rewrite <- (insert_id _ _ _ H) in HQ at 1. rewrite alter_insert_eq in HQ.
  by rewrite insert_insert_eq in HQ || exact HQ.
Qed.

(** The state besides the items and the free list. *)
Definition dyn_of (q : wombatQueueImpl) : Z * Z * list (Z * Z * Z) := (mSem q, mIterator q, calls q).

Lemma allocChunk_full items q Q :
  mMaxSize q < u32 (mSem q + items) -> Q tt q -> wp (wombatQueueImpl_allocChunk items) q Q.
Proof.
  intros H HQ. unfold wombatQueueImpl_allocChunk. wp_pure.
  rewrite (proj2 (Z.ltb_lt _ _) H). by apply wp_ret.
Qed.

(** The blocks of the queue lie below the memory a new chunk comes from. *)
Lemma chunk_fresh q ls items x :
  qrepr q ls [] -> x ∈ HEAD :: ls ++ [TAIL] -> x ∉ addrs items (brk q).
Proof.
  intros R Hx H%addrs_bounds. pose proof (q_brk _ _ _ R) as Hb.
  assert (x < brk q); [|lia]. rewrite elem_of_cons, elem_of_app in Hx.
  destruct Hx as [->|[Hx| ->%list_elem_of_singleton]]; [unfold HEAD, FIRST in *; lia| |unfold TAIL, FIRST in *; lia].
  apply (q_range _ _ _ R). set_solver.
Qed.

Lemma qrepr_grow q q' ls items :
  qrepr q ls [] -> 0 <= items ->
  (forall x, x ∉ addrs (Z.to_nat items) (brk q) ->
     nxt (qmem q') x = nxt (qmem q) x /\ prv (qmem q') x = prv (qmem q) x) ->
  chain (nxt (qmem q')) (mFirstFree q') (addrs (Z.to_nat items) (brk q)) ->
  brk q' = brk q + items * sizeof_item ->
  qrepr q' ls (addrs (Z.to_nat items) (brk q)).
Proof.
  intros R Hi F Hc Eb. set (new := addrs (Z.to_nat items) (brk q)) in *.
  pose proof (fun x => chunk_fresh q ls (Z.to_nat items) x R) as Hfr.
  assert (0 <= items * sizeof_item) as Hsz by (unfold sizeof_item; lia).
  split.
  - eapply linked_frame; [apply (q_ring _ _ _ R)|..]; intros p Hp; apply F, Hfr, Hp.
  - destruct (F HEAD) as [_ ->]; [apply Hfr; set_solver|]. apply (q_head _ _ _ R).
  - destruct (F TAIL) as [-> _]; [apply Hfr; set_solver|]. apply (q_tail _ _ _ R).
  - done.
  - assert (HEAD :: TAIL :: ls ++ new ≡ₚ (HEAD :: ls ++ [TAIL]) ++ new) as ->
      by (by rewrite (Permutation_app_comm ls [TAIL])).
    apply NoDup_app. split_and!; [apply (q_ring_nodup R)|exact Hfr|apply addrs_nodup].
  - intros p [Hp|Hp]%elem_of_app; rewrite Eb.
    + assert (FIRST <= p < brk q) by (apply (q_range _ _ _ R); set_solver). lia.
    + apply addrs_bounds in Hp. pose proof (q_brk _ _ _ R). lia.
  - pose proof (q_brk _ _ _ R). lia.
  - destruct (F 0) as [-> _]; [|apply (q_null _ _ _ R)]. intros H%addrs_bounds.
    pose proof (q_brk _ _ _ R). unfold FIRST in *. lia.
Qed.

Lemma allocChunk_spec items q ls :
  qrepr q ls [] -> 1 <= items < 2 ^ 32 ->
  u32 (mSem q + items) <= mMaxSize q -> brk q + items * sizeof_item <= limit q ->
  wp (wombatQueueImpl_allocChunk items) q (fun _ q' =>
    qrepr q' ls (addrs (Z.to_nat items) (brk q)) /\
    (forall x, x ∈ ls -> content (qmem q') x = content (qmem q) x) /\
    frame_of q' = frame_of q /\ dyn_of q' = dyn_of q /\ brk q' = brk q + items * sizeof_item).
Proof.
  intros R Hi Hm Hl. unfold wombatQueueImpl_allocChunk. wp_pure.
  rewrite (proj2 (Z.ltb_ge _ _) Hm). wp_pure.
  unfold calloc_items at 1, wp at 1. rewrite (proj2 (Z.leb_le _ _) Hl). wp_pure.
  set (new := addrs (Z.to_nat items) (brk q)).
  assert (brk q ∈ new) as Hb.
  { unfold new. destruct (Z.to_nat items) eqn:E; [lia|cbn; set_solver]. }
  pose proof (q_brk _ _ _ R) as Hbr.
  apply wp_st_chunk_next.
  { state_simpl. rewrite zero_items_lookup, decide_True by done. eauto. }
  wp_mem.
  assert (Z.to_nat items = S (Z.to_nat (u32 (items - 1)))) as En.
  { unfold u32. rewrite uwrap_small by (unfold in_u; lia). lia. }
  eapply wp_mono.
  { apply link_loop_spec; [unfold FIRST in Hbr; lia|]. intros x Hx. rewrite <- En in Hx.
    state_simpl. rewrite (proj1 (upd_chunk_same _ _ _ _)). unfold nxt.
    rewrite zero_items_lookup, decide_True by done. done. }
  cbn beta. rewrite <- En. intros _ q' (Hc & F & Hk & Hq).
  assert (forall x, x ∉ new -> nxt (qmem q') x = nxt (qmem q) x /\ prv (qmem q') x = prv (qmem q) x
          /\ content (qmem q') x = content (qmem q) x) as F'.
  { intros x Hx. rewrite Hk. destruct (F x Hx) as [-> ->]. state_simpl.
    destruct (upd_chunk_same (zero_items (Z.to_nat items) (brk q) (qmem q)) (brk q) (mChunks q) x)
      as (-> & -> & ->). unfold nxt, prv, content. by rewrite zero_items_lookup, decide_False. }
  split_and!.
  - apply qrepr_grow; [done|lia|..].
    + intros x Hx. destruct (F' x Hx) as (? & ? & _). done.
    + rewrite Hq. exact Hc.
    + rewrite Hq. done.
  - intros x Hx. apply F'. eapply chunk_fresh; [done|]. set_solver.
  - by rewrite Hq.
  - by rewrite Hq.
  - by rewrite Hq.
Qed.

(** ** Taking a free item *)

(** There is a free item, or the limits and the memory allow a new chunk. *)
Definition can_grow (q : wombatQueueImpl) : Prop :=
  1 <= mChunkSize q < 2 ^ 32 /\ u32 (mSem q + mChunkSize q) <= mMaxSize q /\
  brk q + mChunkSize q * sizeof_item <= limit q.

Definition slots (q : wombatQueueImpl) (fl : list Z) : nat :=
  match fl with [] => Z.to_nat (mChunkSize q) | _ => length fl end.

(** The memory the next insertion takes from the heap. *)
Definition grown (q : wombatQueueImpl) (fl : list Z) : Z :=
  match fl with [] => mChunkSize q * sizeof_item | _ => 0 end.

(** [x] is a filled item outside the queue and the free list. *)
Definition taken (q q' : wombatQueueImpl) (ls fl : list Z) (cb d c x : Z) (fl' : list Z) : Prop :=
  qrepr q' ls fl' /\ x ∉ HEAD :: TAIL :: ls ++ fl' /\ FIRST <= x < brk q' /\
  content (qmem q') x = Some (cb, d, c) /\ S (length fl') = slots q fl /\
  (forall y, y ∈ ls -> content (qmem q') y = content (qmem q) y) /\
  frame_of q' = frame_of q /\ dyn_of q' = dyn_of q /\ brk q' = brk q + grown q fl.

Lemma take_first q ls x fl cb d c :
  qrepr q ls (x :: fl) ->
  wp (n ← ld_next x; modify (set_mFirstFree n) ;; st_content x cb d c ;; mret x) q
    (fun y q' => y = x /\ taken q q' ls (x :: fl) cb d c x fl).
Proof.
  intros R. pose proof (q_free _ _ _ R) as (Ex & Hx0 & n & Hn & Hc).
  wp_mem. apply wp_st_content; [state_simpl; eauto with mama|]. wp_mem. split; [done|].
  assert (HEAD :: TAIL :: ls ++ x :: fl ≡ₚ x :: HEAD :: TAIL :: ls ++ fl) as E.
  { rewrite <- Permutation_middle. solve_Permutation. }
  pose proof (q_nodup _ _ _ R) as Hnd. rewrite E in Hnd. apply NoDup_cons in Hnd as [Hx Hnd].
  unfold taken. state_simpl. split_and!; try done.
  - split; state_simpl.
    + eapply linked_frame; [apply (q_ring _ _ _ R)|..]; intros; mem_solve.
    + rewrite prv_upd_content. apply (q_head _ _ _ R).
    + rewrite nxt_upd_content. apply (q_tail _ _ _ R).
    + eapply chain_frame; [exact Hc|]. intros; mem_solve.
    + done.
    + intros p Hp. apply (q_range _ _ _ R). clear -Hp. set_solver.
    + apply (q_brk _ _ _ R).
    + rewrite nxt_upd_content. apply (q_null _ _ _ R).
  - apply (q_range _ _ _ R). set_solver.
  - apply (q_range _ _ _ R). set_solver.
  - apply content_upd_content_eq. eauto with mama.
  - intros y Hy. apply content_upd_content_ne. intros ->. apply Hx. set_solver.
  - cbn. lia.
Qed.

Lemma take_free_spec q ls fl cb d c :
  qrepr q ls fl -> (fl = [] -> can_grow q) ->
  wp (take_free cb d c) q (fun x q' => x ≠ 0 /\ exists fl', taken q q' ls fl cb d c x fl').
Proof.
  intros R Hg. unfold take_free. wp_pure.
  destruct fl as [|x fl].
  - rewrite (q_free _ _ _ R). destruct (Hg eq_refl) as (Hi & Hm & Hl). wp_pure.
    eapply wp_mono; [by apply allocChunk_spec|]. cbn beta. intros _ q1 (R1 & Hk & Hf & Hd & Hb).
    wp_pure. destruct (Z.to_nat (mChunkSize q)) as [|k] eqn:Ek; [lia|].
    change (addrs (S k) (brk q)) with (brk q :: addrs k (brk q + sizeof_item)) in R1.
    pose proof (q_free _ _ _ R1) as (Ex & Hx0 & _). rewrite Ex.
    rewrite (proj2 (Z.eqb_neq _ _) Hx0).
    eapply wp_mono; [by apply take_first|]. cbn beta.
    intros y q2 (-> & R2 & Hx & Hr & Hc & Hs & Hk2 & Hf2 & Hd2 & Hb2). split; [done|]. eexists.
    refine (conj R2 (conj Hx (conj Hr (conj Hc (conj _ (conj _ (conj _ (conj _ _)))))))); [| |congruence..|cbn in *; lia].
    + cbn [slots]. rewrite Ek. cbn [slots] in Hs. cbn [length] in Hs. rewrite length_addrs in *. lia.
    + intros z Hz. rewrite Hk2, Hk by done. done.
  - pose proof (q_free _ _ _ R) as (Ex & Hx0 & _). rewrite Ex.
    rewrite (proj2 (Z.eqb_neq _ _) Hx0). wp_pure. rewrite Ex, (proj2 (Z.eqb_neq _ _) Hx0).
    eapply wp_mono; [by apply take_first|]. cbn beta. intros y q2 [-> HT]. eauto.
Qed.

Lemma take_free_full q ls cb d c :
  qrepr q ls [] -> mMaxSize q < u32 (mSem q + mChunkSize q) ->
  wp (take_free cb d c) q (fun x q' => x = 0 /\ q' = q).
Proof.
  intros R Hm. unfold take_free. wp_pure. rewrite (q_free _ _ _ R). wp_pure.
  apply allocChunk_full; [done|]. wp_pure. rewrite (q_free _ _ _ R). by apply wp_ret.
Qed.

(** With no memory for a chunk the allocation is not checked, and the store
    into the new chunk faults. *)
Lemma allocChunk_nomem items q ls fl :
  qrepr q ls fl -> u32 (mSem q + items) <= mMaxSize q -> limit q < brk q + items * sizeof_item ->
  wombatQueueImpl_allocChunk items q = Fail InvalidDeref.
Proof.
  intros R Hm Hl. unfold wombatQueueImpl_allocChunk, mbind, M_bind, gets.
  rewrite (proj2 (Z.ltb_ge _ _) Hm). unfold calloc_items.
  rewrite (proj2 (Z.leb_gt _ _) Hl). unfold st_chunk_next.
  pose proof (q_null _ _ _ R) as H. unfold nxt in H. by destruct (qmem q !! 0).
Qed.
