(* ===== verification/WombatQueueOps.v ===== *)
(** * What the operations of the queue do

    Every operation of [WombatQueue] run on a well-formed queue: it returns,
    releases the lock it took, and moves exactly one item, or none, between the
    queue and the free list. *)

From S2P Require Import Prelude Linked WombatQueue WombatQueueInv.
Import WombatQueue.

Lemma qrepr_same q q' ls fl :
  qmem q' = qmem q -> mFirstFree q' = mFirstFree q -> brk q' = brk q ->
  qrepr q ls fl -> qrepr q' ls fl.
Proof.
  intros E1 E2 E3 [H1 H2 H3 H4 H5 H6 H7 H8]. by split; rewrite ?E1, ?E2, ?E3.
Qed.

Ltac q_same R := solve [eapply qrepr_same; [..|exact R]; reflexivity].

Ltac wp_queue :=
  unfold mutex_lock, mutex_unlock, wsem_post; wp_mem;
  repeat (unfold mutex_lock, mutex_unlock, wsem_post; progress wp_mem).

(** ** Insertion *)

(** The memory after [x] is linked between [a] and [b]. *)
Definition linked_in (h h' : gmap Z wombatQueueItem) (a x b : Z) : Prop :=
  nxt h' x = Some b /\ prv h' x = Some a /\ nxt h' a = Some x /\ prv h' b = Some x /\
  (forall p, p ≠ x -> p ≠ a -> nxt h' p = nxt h p) /\
  (forall p, p ≠ x -> p ≠ b -> prv h' p = prv h p) /\
  (forall p, content h' p = content h p).

Ltac linked_in_solve :=
  unfold linked_in; split_and!; intros; mem_solve.

(** The outcome of putting a new item between [l1] and [l2]. *)
Definition inserted (q q' : wombatQueueImpl) (l1 l2 fl : list Z) (v : Z * Z * Z) : Prop :=
  exists x fl', qrepr q' (l1 ++ x :: l2) fl' /\ content (qmem q') x = Some v /\
    (forall y, y ∈ l1 ++ l2 -> content (qmem q') y = content (qmem q) y) /\
    S (length fl') = slots q fl /\ frame_of q' = frame_of q /\
    mSem q' = mSem q + 1 /\ calls q' = calls q /\ brk q' = brk q + grown q fl.

(** The neighbours of a place differ from a block outside the queue. *)
Lemma place_facts q ls fl l1 l2 r1 a b r2 x :
  qrepr q ls fl -> ls = l1 ++ l2 -> place l1 l2 r1 a b r2 -> x ∉ HEAD :: TAIL :: ls ++ fl ->
  nxt (qmem q) a = Some b /\ prv (qmem q) b = Some a /\ x ≠ a /\ x ≠ b /\ a ≠ x /\ b ≠ x.
Proof.
  intros R -> P Hx. pose proof (q_ring _ _ _ R) as HL.
  rewrite (place_ring _ _ _ _ _ _ P) in HL. apply linked_adjacent in HL as [H1 H2].
  assert (x ≠ a) by (destruct (place_left _ _ _ _ _ _ P) as [->|?]; intros ->; set_solver).
  assert (x ≠ b) by (destruct (place_right _ _ _ _ _ _ P) as [->|?]; intros ->; set_solver).
  split_and!; congruence.
Qed.

(** Only the memory, the semaphore, the lock and the cursor differ. *)
Definition posted (q1 q' : wombatQueueImpl) (cur : Z) : Prop :=
  q' = set_mIterator cur (set_mLock (mLock q1 - 1) (set_mSem (mSem q1 + 1) (set_qmem (qmem q') q1))).

(** The three insertions differ in the four stores [K] that link the item. *)
Lemma insert_op_spec (K : Z -> QM wombatQueueStatus) q it cur l1 l2 fl cb d c :
  qrepr q (l1 ++ l2) fl -> (fl = [] -> can_grow q) ->
  (forall x q1 r1 a b r2,
     place l1 l2 r1 a b r2 -> nxt (qmem q1) a = Some b -> prv (qmem q1) b = Some a ->
     x ≠ a -> x ≠ b -> a ≠ x -> b ≠ x -> is_Some (qmem q1 !! x) -> mIterator q1 = it ->
     wp (K x) q1 (fun r q' =>
       r = WOMBAT_QUEUE_OK /\ linked_in (qmem q1) (qmem q') a x b /\ posted q1 q' cur)) ->
  wp (item ← take_free cb d c;
      if item =? 0 then mutex_unlock ;; mret WOMBAT_QUEUE_FULL else K item)
     (set_mIterator it (set_mLock (mLock q + 1) q)) (fun r q' =>
    r = WOMBAT_QUEUE_OK /\ inserted q q' l1 l2 fl (cb, d, c) /\ mIterator q' = cur).
Proof.
  intros R Hg HK. wp_pure.
  eapply wp_mono; [apply (take_free_spec _ (l1 ++ l2) fl); [q_same R|done]|]. cbn beta.
  intros x q1 (Hx0 & fl' & R1 & Hx & Hr & Hc & Hs & Hk & Hf & Hd & Hb).
  rewrite (proj2 (Z.eqb_neq _ _) Hx0).
  destruct (place_exists l1 l2) as (r1 & a & b & r2 & P).
  destruct (place_facts _ _ _ l1 l2 _ _ _ _ x R1 eq_refl P Hx) as (Pn & Pp & N1 & N2 & N3 & N4).
  assert (is_Some (qmem q1 !! x)) as Hxs.
  { unfold content in Hc. destruct (qmem q1 !! x); [eauto|done]. }
  unfold frame_of, dyn_of in Hf, Hd. revert Hf Hd.
  state_simpl. intros [= Eu Em Ec El Elk] [= Es Ei Ecl].
  eapply wp_mono; [by apply (HK x q1 r1 a b r2)|]. cbn beta.
  intros r q' (-> & (L1 & L2 & L3 & L4 & L5 & L6 & L7) & Hp).
  split; [done|]. split; [|by rewrite Hp]. exists x, fl'.
  split_and!.
  - eapply qrepr_insert; [exact R1|exact P|done..| |]; by rewrite Hp.
  - by rewrite L7.
  - intros y Hy. rewrite L7, Hk by done. done.
  - rewrite Hs. done.
  - rewrite Hp. unfold frame_of. state_simpl. rewrite Eu, Em, Ec, El, Elk. repeat f_equal. lia.
  - rewrite Hp. state_simpl. lia.
  - rewrite Hp. by state_simpl.
  - rewrite Hp. exact Hb.
Qed.

Lemma insert_op_full (K : Z -> QM wombatQueueStatus) q it ls cb d c :
  qrepr q ls [] -> mMaxSize q < u32 (mSem q + mChunkSize q) ->
  wp (item ← take_free cb d c;
      if item =? 0 then mutex_unlock ;; mret WOMBAT_QUEUE_FULL else K item)
     (set_mIterator it (set_mLock (mLock q + 1) q)) (fun r q' =>
    r = WOMBAT_QUEUE_FULL /\ q' = set_mIterator it q).
Proof.
  intros R Hm. wp_pure.
  eapply wp_mono; [apply (take_free_full _ ls); [q_same R|done]|]. cbn beta.
  intros x q1 [-> ->]. wp_queue. split; [done|]. destruct q. state_simpl. f_equal. lia.
Qed.

Lemma set_mIterator_id q : set_mIterator (mIterator q) q = q.
Proof. by destruct q. Qed.

(** [wombatQueue_enqueue] puts the item at the back. *)
Lemma enqueue_spec q ls fl cb d c :
  qrepr q ls fl -> (fl = [] -> can_grow q) ->
  wp (wombatQueue_enqueue cb d c) q (fun r q' =>
    r = WOMBAT_QUEUE_OK /\ inserted q q' ls [] fl (cb, d, c) /\ mIterator q' = mIterator q).
Proof.
  intros R Hg. unfold wombatQueue_enqueue, mutex_lock at 1. apply wp_bind, wp_modify.
  rewrite <- (set_mIterator_id (set_mLock _ _)).
  apply insert_op_spec; [by rewrite app_nil_r|done|].
  intros x q1 r1 a b r2 P Pn Pp N1 N2 N3 N4 Hx Hi.
  assert (b = TAIL) as -> by (destruct P as [_ E]; by injection E).
  wp_queue. split_and!; [done|linked_in_solve|]. unfold posted. state_simpl. by rewrite Hi.
Qed.

(** [wombatQueue_insertAfter]: the cursor stays on the item before the new one. *)
Lemma insertAfter_spec q cur l1 l2 fl cb d c :
  qrepr q (l1 ++ l2) fl -> (fl = [] -> can_grow q) ->
  cur = (if mIterator q =? TAIL then HEAD else mIterator q) -> last (HEAD :: l1) = Some cur ->
  wp (wombatQueue_insertAfter cb d c) q (fun r q' =>
    r = WOMBAT_QUEUE_OK /\ inserted q q' l1 l2 fl (cb, d, c) /\ mIterator q' = cur).
Proof.
  intros R Hg Hcur Hl. unfold wombatQueue_insertAfter, mutex_lock at 1.
  apply wp_bind, wp_modify. wp_mem.
  eapply (wp_mono _ _ (fun _ s' => s' = set_mIterator cur (set_mLock (mLock q + 1) q))).
  { subst cur. destruct (mIterator q =? TAIL); [by apply wp_modify|].
    apply wp_ret. by rewrite <- (set_mIterator_id (set_mLock _ _)). }
  intros _ s' ->. apply insert_op_spec; [done..|].
  intros x q1 r1 a b r2 P Pn Pp N1 N2 N3 N4 Hx Hi.
  assert (cur = a) as ->.
  { destruct P as [E _]. rewrite E, last_snoc in Hl. by injection Hl. }
  wp_pure. rewrite Hi.
  wp_queue. split_and!; [done|linked_in_solve|]. unfold posted. state_simpl. by rewrite Hi.
Qed.

(** [wombatQueue_insertBefore]: the cursor stays on the item after the new one. *)
Lemma insertBefore_spec q cur l1 l2 fl cb d c :
  qrepr q (l1 ++ l2) fl -> (fl = [] -> can_grow q) ->
  cur = (if mIterator q =? HEAD then TAIL else mIterator q) -> head (l2 ++ [TAIL]) = Some cur ->
  wp (wombatQueue_insertBefore cb d c) q (fun r q' =>
    r = WOMBAT_QUEUE_OK /\ inserted q q' l1 l2 fl (cb, d, c) /\ mIterator q' = cur).
Proof.
  intros R Hg Hcur Hl. unfold wombatQueue_insertBefore, mutex_lock at 1.
  apply wp_bind, wp_modify. wp_mem.
  eapply (wp_mono _ _ (fun _ s' => s' = set_mIterator cur (set_mLock (mLock q + 1) q))).
  { subst cur. destruct (mIterator q =? HEAD); [by apply wp_modify|].
    apply wp_ret. by rewrite <- (set_mIterator_id (set_mLock _ _)). }
  intros _ s' ->. apply insert_op_spec; [done..|].
  intros x q1 r1 a b r2 P Pn Pp N1 N2 N3 N4 Hx Hi.
  assert (cur = b) as ->.
  { destruct P as [_ E]. rewrite E in Hl. by injection Hl. }
  wp_pure. rewrite Hi.
  wp_queue. split_and!; [done|linked_in_solve|]. unfold posted. state_simpl. by rewrite Hi.
Qed.

(** A full queue refuses, unchanged (a cursor on the wrong dummy has moved). *)
Lemma enqueue_full q ls cb d c :
  qrepr q ls [] -> mMaxSize q < u32 (mSem q + mChunkSize q) ->
  wp (wombatQueue_enqueue cb d c) q (fun r q' => r = WOMBAT_QUEUE_FULL /\ q' = q).
Proof.
  intros R Hm. unfold wombatQueue_enqueue, mutex_lock at 1. apply wp_bind, wp_modify.
  rewrite <- (set_mIterator_id (set_mLock _ _)).
  eapply wp_mono; [by eapply insert_op_full|]. cbn beta. intros r q' [-> ->].
  split; [done|]. state_simpl. apply set_mIterator_id.
Qed.

Lemma insertAfter_full q ls cb d c :
  qrepr q ls [] -> mMaxSize q < u32 (mSem q + mChunkSize q) ->
  wp (wombatQueue_insertAfter cb d c) q (fun r q' => r = WOMBAT_QUEUE_FULL /\
    q' = set_mIterator (if mIterator q =? TAIL then HEAD else mIterator q) q).
Proof.
  intros R Hm. set (cur := if _ =? _ then _ else _).
  unfold wombatQueue_insertAfter, mutex_lock at 1. apply wp_bind, wp_modify. wp_mem.
  eapply (wp_mono _ _ (fun _ s' => s' = set_mIterator cur (set_mLock (mLock q + 1) q))).
  { subst cur. destruct (mIterator q =? TAIL); [by apply wp_modify|].
    apply wp_ret. by rewrite <- (set_mIterator_id (set_mLock _ _)). }
  intros _ s' ->. by eapply insert_op_full.
Qed.

Lemma insertBefore_full q ls cb d c :
  qrepr q ls [] -> mMaxSize q < u32 (mSem q + mChunkSize q) ->
  wp (wombatQueue_insertBefore cb d c) q (fun r q' => r = WOMBAT_QUEUE_FULL /\
    q' = set_mIterator (if mIterator q =? HEAD then TAIL else mIterator q) q).
Proof.
  intros R Hm. set (cur := if _ =? _ then _ else _).
  unfold wombatQueue_insertBefore, mutex_lock at 1. apply wp_bind, wp_modify. wp_mem.
  eapply (wp_mono _ _ (fun _ s' => s' = set_mIterator cur (set_mLock (mLock q + 1) q))).
  { subst cur. destruct (mIterator q =? HEAD); [by apply wp_modify|].
    apply wp_ret. by rewrite <- (set_mIterator_id (set_mLock _ _)). }
  intros _ s' ->. by eapply insert_op_full.
Qed.

Lemma enqueue_nomem q ls cb d c :
  qrepr q ls [] -> u32 (mSem q + mChunkSize q) <= mMaxSize q ->
  limit q < brk q + mChunkSize q * sizeof_item ->
  wombatQueue_enqueue cb d c q = Fail InvalidDeref.
Proof.
  intros R Hm Hl. unfold wombatQueue_enqueue, mutex_lock, modify, take_free, mbind, M_bind, gets.
  state_simpl. rewrite (q_free _ _ _ R). cbn [Z.eqb].
  rewrite (allocChunk_nomem _ _ ls []); [done| |done..].
  eapply qrepr_same; [..|exact R]; [done|symmetry; apply (q_free _ _ _ R)|done].
Qed.

(** ** Removal *)

(** [WQ_REMOVE] on an item of the queue. *)
Lemma WQ_REMOVE_spec q l1 x l2 fl :
  qrepr q (l1 ++ x :: l2) fl ->
  wp (WQ_REMOVE x) q (fun _ q' =>
    qrepr q' (l1 ++ l2) (x :: fl) /\ (forall p, content (qmem q') p = content (qmem q) p) /\
    frame_of q' = frame_of q /\ dyn_of q' = dyn_of q /\ brk q' = brk q).
Proof.
  intros R. destruct (place_exists l1 l2) as (r1 & a & b & r2 & P).
  pose proof (q_ring _ _ _ R) as HL. pose proof (q_ring_nodup R) as Hnd.
  rewrite (place_ring_mid _ _ _ _ _ _ x P) in HL, Hnd.
  destruct (linked_neighbours _ _ _ _ _ _ HL) as (H1 & H2 & H3 & H4).
  assert (a ≠ x /\ b ≠ x) as [N1 N2].
  { apply NoDup_app in Hnd as (_ & _ & Hnd). inv Hnd as [|?? Ha Hnd']. inv Hnd'. set_solver. }
  assert (x ≠ a /\ x ≠ b) as [N3 N4] by (split; congruence).
  unfold WQ_REMOVE. wp_mem. split_and!; [|intros; mem_solve|done..].
  eapply qrepr_remove; [exact R|exact P|..]; try done; intros; mem_solve.
Qed.

(** The outcome of taking the front item [x] with content [v]. *)
Definition popped (q q' : wombatQueueImpl) (x : Z) (ls fl : list Z) : Prop :=
  qrepr q' ls (x :: fl) /\ (forall p, content (qmem q') p = content (qmem q) p) /\
  frame_of q' = frame_of q /\ mSem q' = mSem q /\ mIterator q' = mIterator q /\ brk q' = brk q.

Lemma invoke_spec cb d c q :
  wp (invoke cb d c) q (fun _ q' =>
    q' = set_calls (calls q ++ (if cb =? 0 then [] else [(cb, d, c)])) q).
Proof.
  unfold invoke. destruct (cb =? 0); [apply wp_ret|by apply wp_modify].
  rewrite app_nil_r. by destruct q.
Qed.

(** What [wombatQueue_poll] and the dispatchers do once they hold a token and
    the queue is not empty: the head goes, then its callback runs unlocked. *)
Lemma take_head_spec q x ls fl cb d c :
  qrepr q (x :: ls) fl -> content (qmem q) x = Some (cb, d, c) ->
  wp (WQ_REMOVE x ;; i ← ld_item x; mutex_unlock ;;
      invoke (mCb i) (mData i) (mClosure i) ;;
      mret (WOMBAT_QUEUE_OK, Some (mData i, mClosure i)))
     (set_mLock (mLock q + 1) q) (fun r q' =>
    r = (WOMBAT_QUEUE_OK, Some (d, c)) /\ popped q q' x ls fl /\
    calls q' = calls q ++ (if cb =? 0 then [] else [(cb, d, c)])).
Proof.
  intros R Hc. apply wp_bind. eapply wp_mono; [apply (WQ_REMOVE_spec _ [] x ls fl); q_same R|].
  cbn beta. intros _ q1 (R1 & Hk & Hf & Hd & Hb). unfold frame_of, dyn_of in Hf, Hd. revert Hf Hd.
  state_simpl. intros [= Eu Em Ec El Elk] [= Es Ei Ecl]. apply wp_bind.
  eapply wp_ld_item; [rewrite Hk; exact Hc|]. intros i -> -> ->. wp_queue.
  eapply wp_mono; [apply invoke_spec|]. cbn beta. intros _ q' ->. apply wp_ret.
  split; [done|]. state_simpl. rewrite Ecl. split; [|done]. split_and!; [q_same R1|exact Hk| |done..].
  unfold frame_of. state_simpl. rewrite Eu, Em, Ec, El, Elk. repeat f_equal. lia.
Qed.

Lemma head_of_ring q x ls fl : qrepr q (x :: ls) fl -> nxt (qmem q) HEAD = Some x.
Proof. intros R. pose proof (q_ring _ _ _ R) as H. by destruct H. Qed.

Lemma poll_locked_spec q x ls fl cb d c :
  qrepr q (x :: ls) fl -> content (qmem q) x = Some (cb, d, c) ->
  wp poll_locked q (fun r q' =>
    r = (WOMBAT_QUEUE_OK, Some (d, c)) /\ popped q q' x ls fl /\
    calls q' = calls q ++ (if cb =? 0 then [] else [(cb, d, c)])).
Proof.
  intros R Hc. pose proof (head_of_ring _ _ _ _ R). unfold poll_locked, mutex_lock.
  apply wp_bind, wp_modify, wp_bind. eapply wp_ld_next; [done|]. by apply take_head_spec.
Qed.

Lemma dispatch_locked_spec q x ls fl cb d c :
  qrepr q (x :: ls) fl -> content (qmem q) x = Some (cb, d, c) -> mUnblocking q = 0 ->
  wp dispatch_locked q (fun r q' =>
    r = (WOMBAT_QUEUE_OK, Some (d, c)) /\ popped q q' x ls fl /\
    calls q' = calls q ++ (if cb =? 0 then [] else [(cb, d, c)])).
Proof.
  intros R Hc Hu. pose proof (head_of_ring _ _ _ _ R). unfold dispatch_locked, mutex_lock.
  apply wp_bind, wp_modify, wp_bind, wp_gets. cbn [mUnblocking set_mLock]. rewrite Hu. cbn.
  apply wp_bind. eapply wp_ld_next; [done|].
  destruct (item_bounds R x) as (_ & _ & HT); [set_solver|].
  rewrite (proj2 (Z.eqb_neq _ _) HT). by apply take_head_spec.
Qed.

(** An [unblock] or an empty queue: no item leaves. *)
Lemma dispatch_locked_unblock q :
  mUnblocking q ≠ 0 ->
  wp dispatch_locked q (fun r q' => r = (WOMBAT_QUEUE_OK, None) /\ q' = set_mUnblocking 0 q).
Proof.
  intros Hu. unfold dispatch_locked. wp_queue. rewrite (proj2 (Z.eqb_neq _ _) Hu). cbn [negb].
  wp_queue. split; [done|]. destruct q. state_simpl. f_equal. lia.
Qed.

Lemma dispatch_locked_empty q fl :
  qrepr q [] fl -> mUnblocking q = 0 ->
  wp dispatch_locked q (fun r q' => r = (WOMBAT_QUEUE_OK, None) /\ q' = q).
Proof.
  intros R Hu. pose proof (q_ring _ _ _ R) as [H _]. unfold dispatch_locked. wp_queue.
  rewrite Hu. cbn [negb Z.eqb]. wp_queue. rewrite Z.eqb_refl. wp_queue.
  split; [done|]. destruct q. cbn in Hu. state_simpl. f_equal; lia.
Qed.

(** ** The cursor

    [at_cursor ls c k]: the cursor [c] is on the head dummy, the [i]-th item or
    the tail dummy. *)

Inductive cursor : Type := AtHead | At (i : nat) | AtTail | Lost.

Definition at_cursor (ls : list Z) (c : Z) (k : cursor) : Prop :=
  match k with
  | AtHead => c = HEAD
  | At i => ls !! i = Some c
  | AtTail => c = TAIL
  | Lost => True
  end.

(** The ring as an array: position 0 is the head dummy. *)
Definition ring (ls : list Z) : list Z := HEAD :: ls ++ [TAIL].

Lemma ring_item ls i c : ls !! i = Some c -> ring ls !! S i = Some c.
Proof.
  intros H. change ((ls ++ [TAIL]) !! i = Some c).
  rewrite lookup_app_l; [done|by eapply lookup_lt_Some].
Qed.
Lemma ring_tail ls : ring ls !! S (length ls) = Some TAIL.
Proof. change ((ls ++ [TAIL]) !! length ls = Some TAIL). by rewrite list_lookup_middle. Qed.

Lemma linked_lookup_next (h : gmap Z wombatQueueItem) l n a b :
  linked h l -> l !! n = Some a -> l !! S n = Some b -> nxt h a = Some b /\ prv h b = Some a.
Proof.
  intros HL Ha Hb.
  assert (l = take n l ++ a :: b :: drop (S (S n)) l) as E.
  { rewrite <- (take_drop n l) at 1. f_equal.
    rewrite (drop_S _ _ _ Ha). f_equal. by rewrite (drop_S _ _ _ Hb). }
  rewrite E in HL. by apply linked_adjacent in HL.
Qed.

(** A step of the cursor forwards and backwards; the dummies point at
    themselves. *)
Definition next_cursor (n : nat) (k : cursor) : cursor :=
  match k with
  | AtHead => match n with O => AtTail | _ => At 0 end
  | At i => if decide (S i < n)%nat then At (S i) else AtTail
  | AtTail => AtTail
  | Lost => Lost
  end.

Definition prev_cursor (n : nat) (k : cursor) : cursor :=
  match k with
  | AtHead => AtHead
  | At O => AtHead
  | At (S i) => At i
  | AtTail => match n with O => AtHead | S i => At i end
  | Lost => Lost
  end.

Lemma next_cursor_spec q ls fl c k :
  qrepr q ls fl -> at_cursor ls c k -> k ≠ Lost ->
  exists c', nxt (qmem q) c = Some c' /\ at_cursor ls c' (next_cursor (length ls) k).
Proof.
  intros R Hc Hk. pose proof (q_ring _ _ _ R) as HL.
  destruct k as [|i| |]; cbn in Hc; [subst c|..|done].
  - destruct ls as [|x ls]; cbn; [exists TAIL|exists x]; by destruct HL.
  - pose proof (ring_item _ _ _ Hc) as H1.
    cbn [next_cursor]. case_decide as Hi.
    + destruct (lookup_lt_is_Some_2 ls (S i) Hi) as [c' Hc']. exists c'. split; [|done].
      refine (proj1 (linked_lookup_next _ _ (S i) _ _ HL H1 _)). by apply ring_item.
    + exists TAIL. split; [|done]. refine (proj1 (linked_lookup_next _ _ (S i) _ _ HL H1 _)).
      apply lookup_lt_Some in Hc. assert (S i = length ls) as -> by lia. apply ring_tail.
  - subst c. exists TAIL. split; [apply (q_tail _ _ _ R)|done].
Qed.

Lemma prev_cursor_spec q ls fl c k :
  qrepr q ls fl -> at_cursor ls c k -> k ≠ Lost ->
  exists c', prv (qmem q) c = Some c' /\ at_cursor ls c' (prev_cursor (length ls) k).
Proof.
  intros R Hc Hk. pose proof (q_ring _ _ _ R) as HL.
  destruct k as [|i| |]; cbn in Hc; [subst c|..|done].
  - exists HEAD. split; [apply (q_head _ _ _ R)|done].
  - pose proof (ring_item _ _ _ Hc) as H1.
    destruct i as [|i]; cbn [prev_cursor].
    + exists HEAD. split; [|done]. by apply (linked_lookup_next _ _ 0 _ _ HL).
    + destruct (lookup_lt_is_Some_2 ls i) as [c' Hc']; [apply lookup_lt_Some in Hc; lia|].
      exists c'. split; [|done]. refine (proj2 (linked_lookup_next _ _ (S i) _ _ HL _ H1)). by apply ring_item.
  - subst c. cbn [prev_cursor]. pose proof (ring_tail ls) as H1.
    destruct (length ls) as [|n] eqn:En.
    + exists HEAD. split; [|done]. by apply (linked_lookup_next _ _ 0 _ _ HL).
    + destruct (lookup_lt_is_Some_2 ls n) as [c' Hc']; [lia|].
      exists c'. split; [|done]. refine (proj2 (linked_lookup_next _ _ (S n) _ _ HL _ H1)). by apply ring_item.
Qed.
