(* ===== verification/WombatQueueSpec.v ===== *)
(** * The queue as a bounded FIFO with a cursor

    The abstract queue [aqueue] holds the items as a list, the number of free
    slots, the tokens of the semaphore, the pending [unblock] and the position
    of the cursor; [astep] says what each call replies and does to it.  The
    simulation theorem relates it to the pointers of [WombatQueue]; delivery
    order, capacity and the safety of concurrent dispatchers are then proved on
    the abstract queue and carried over. *)

From S2P Require Import Prelude Linked WombatQueue WombatQueueInv WombatQueueOps.
Import WombatQueue.

(** ** Calls and replies *)

Inductive qcmd : Type :=
| QEnqueue (cb d c : Z) | QDispatch | QTimedDispatch | QPoll | QUnblock | QFlush
| QGetSize | QSetMaxSize (v : Z) | QGetMaxSize
| QBegin | QEnd | QNext | QPrev | QCur | QRemove
| QInsertAfter (cb d c : Z) | QInsertBefore (cb d c : Z) | QReplace (d c : Z).

Inductive reply : Type :=
| RStatus (s : wombatQueueStatus)
| RItem (s : wombatQueueStatus) (v : option (Z * Z))
| RNum (s : wombatQueueStatus) (z : Z)
| RFlush (s : wombatQueueStatus) (l : list (Z * Z)).

#[export] Instance reply_eq_dec : EqDecision reply.
Proof. solve_decision. Defined.

Definition as_status (m : QM wombatQueueStatus) : QM reply := s ← m; mret (RStatus s).
Definition as_item (m : QM qresult) : QM reply := r ← m; mret (RItem r.1 r.2).
Definition as_num (m : QM (wombatQueueStatus * Z)) : QM reply := r ← m; mret (RNum r.1 r.2).

Definition run_qcmd (cmd : qcmd) : QM reply :=
  match cmd with
  | QEnqueue cb d c => as_status (wombatQueue_enqueue cb d c)
  | QDispatch => as_item (wombatQueue_dispatch [])
  | QTimedDispatch => as_item wombatQueue_timedDispatch
  | QPoll => as_item wombatQueue_poll
  | QUnblock => as_status wombatQueue_unblock
  | QFlush => r ← wombatQueue_flush; mret (RFlush r.1 r.2)
  | QGetSize => as_num wombatQueue_getSize
  | QSetMaxSize v => as_status (wombatQueue_setMaxSize v)
  | QGetMaxSize => as_num wombatQueue_getMaxSize
  | QBegin => as_status wombatQueue_begin
  | QEnd => as_status wombatQueue_end
  | QNext => as_item wombatQueue_next
  | QPrev => as_item wombatQueue_prev
  | QCur => as_item wombatQueue_cur
  | QRemove => as_item wombatQueue_remove
  | QInsertAfter cb d c => as_status (wombatQueue_insertAfter cb d c)
  | QInsertBefore cb d c => as_status (wombatQueue_insertBefore cb d c)
  | QReplace d c => as_status (wombatQueue_replace d c)
  end.

(** ** The abstract queue *)

Record aqueue := mkAQ {
  aitems : list (Z * Z * Z);
  afree : nat;
  atokens : Z;
  aunb : bool;
  amax : Z;
  achunk : Z;
  aroom : Z;      (* bytes the heap can still give *)
  acur : cursor;
  acalls : list (Z * Z * Z)
}.

Definition a_insert (a : aqueue) (i : nat) (v : Z * Z * Z) (k : cursor) : aqueue :=
  mkAQ (take i (aitems a) ++ v :: drop i (aitems a))
    (match afree a with O => Z.to_nat (achunk a) - 1 | S n => n end)
    (atokens a + 1) (aunb a) (amax a) (achunk a)
    (match afree a with O => aroom a - achunk a * sizeof_item | S _ => aroom a end)
    k (acalls a).
Definition a_tokens (a : aqueue) (n : Z) : aqueue :=
  mkAQ (aitems a) (afree a) n (aunb a) (amax a) (achunk a) (aroom a) (acur a) (acalls a).
Definition a_unb (a : aqueue) (b : bool) : aqueue :=
  mkAQ (aitems a) (afree a) (atokens a) b (amax a) (achunk a) (aroom a) (acur a) (acalls a).
Definition a_cur (a : aqueue) (k : cursor) : aqueue :=
  mkAQ (aitems a) (afree a) (atokens a) (aunb a) (amax a) (achunk a) (aroom a) k (acalls a).
Definition a_max (a : aqueue) (v : Z) : aqueue :=
  mkAQ (aitems a) (afree a) (atokens a) (aunb a) v (achunk a) (aroom a) (acur a) (acalls a).

(** The front item leaves: a cursor on it is lost. *)
Definition a_pop (a : aqueue) (rest : list (Z * Z * Z)) (called : list (Z * Z * Z)) : aqueue :=
  mkAQ rest (S (afree a)) (atokens a) (aunb a) (amax a) (achunk a) (aroom a)
    (match acur a with At O => Lost | At (S i) => At i | k => k end) (acalls a ++ called).

Definition called_by (v : Z * Z * Z) : list (Z * Z * Z) := if v.1.1 =? 0 then [] else [v].

(** The queue is at its limit: no free slot, and a chunk more would pass it.  So a
    limit that is no multiple of the chunk size is rounded down; wombat/queue.h says
    that it is rounded up. *)
Definition a_full (a : aqueue) : bool :=
  match afree a with O => amax a <? u32 (atokens a + achunk a) | S _ => false end.

Definition a_try_insert (a : aqueue) (i : nat) (v : Z * Z * Z) (k : cursor) (kfull : cursor)
  : reply * aqueue :=
  if a_full a then (RStatus WOMBAT_QUEUE_FULL, a_cur a kfull)
  else (RStatus WOMBAT_QUEUE_OK, a_insert a i v k).

(** A token in hand. *)
Definition a_dispatch (a : aqueue) : reply * aqueue :=
  if aunb a then (RItem WOMBAT_QUEUE_OK None, a_unb a false) else
  match aitems a with
  | [] => (RItem WOMBAT_QUEUE_OK None, a)
  | v :: rest => (RItem WOMBAT_QUEUE_OK (Some (v.1.2, v.2)), a_pop a rest (called_by v))
  end.

Definition a_item (a : aqueue) (k : cursor) : option (Z * Z) :=
  match k with At i => (fun v => (v.1.2, v.2)) <$> aitems a !! i | _ => None end.

Definition a_nth (a : aqueue) (i : nat) : Z * Z * Z := default (0, 0, 0) (aitems a !! i).

(** The cursor moves as in the code: wombat/queue.h says that [QNext] at the end and
    the insertions leave it where it is. *)
Definition astep (a : aqueue) (cmd : qcmd) : reply * aqueue :=
  let n := length (aitems a) in
  match cmd with
  | QEnqueue cb d c => a_try_insert a n (cb, d, c) (acur a) (acur a)
  | QDispatch => a_dispatch (a_tokens a (atokens a - 1))
  | QTimedDispatch =>
      if atokens a <=? 0 then (RItem WOMBAT_QUEUE_TIMEOUT None, a)
      else a_dispatch (a_tokens a (atokens a - 1))
  | QPoll =>
      if atokens a <=? 0 then (RItem WOMBAT_QUEUE_WOULD_BLOCK None, a) else
      match aitems a with
      | [] => (RItem WOMBAT_QUEUE_OK None, a)
      | v :: rest => (RItem WOMBAT_QUEUE_OK (Some (v.1.2, v.2)),
                      a_pop (a_tokens a (atokens a - 1)) rest (called_by v))
      end
  | QUnblock => (RStatus WOMBAT_QUEUE_OK, a_unb (a_tokens a (atokens a + 1)) true)
  | QFlush =>
      if atokens a <=? 0 then (RFlush WOMBAT_QUEUE_OK [], a) else
      match aitems a with
      | [] => (RFlush WOMBAT_QUEUE_OK [], a)
      | v :: rest => (RFlush WOMBAT_QUEUE_OK [(v.1.2, v.2)], a_pop (a_tokens a (atokens a - 1)) rest [])
      end
  | QGetSize => (RNum WOMBAT_QUEUE_OK (atokens a), a)
  | QSetMaxSize v =>
      if WOMBAT_QUEUE_MAX_SIZE <? v then (RStatus WOMBAT_QUEUE_INVALID_ARG, a)
      else (RStatus WOMBAT_QUEUE_OK, a_max a v)
  | QGetMaxSize => (RNum WOMBAT_QUEUE_OK (amax a), a)
  | QBegin => (RStatus WOMBAT_QUEUE_OK, a_cur a AtHead)
  | QEnd => (RStatus WOMBAT_QUEUE_OK, a_cur a AtTail)
  | QNext =>
      match next_cursor n (acur a) with
      | AtTail => (RItem WOMBAT_QUEUE_END (Some (0, 0)), a_cur a (prev_cursor n AtTail))
      | k => (RItem WOMBAT_QUEUE_OK (a_item a k), a_cur a k)
      end
  | QPrev =>
      match prev_cursor n (acur a) with
      | AtHead => (RItem WOMBAT_QUEUE_END (Some (0, 0)), a_cur a (next_cursor n AtHead))
      | k => (RItem WOMBAT_QUEUE_OK (a_item a k), a_cur a k)
      end
  | QCur =>
      match acur a with
      | At i => (RItem WOMBAT_QUEUE_OK (a_item a (At i)), a)
      | _ => (RItem WOMBAT_QUEUE_END (Some (0, 0)), a)
      end
  | QRemove =>
      match acur a with
      | At i => (RItem WOMBAT_QUEUE_OK (a_item a (At i)),
                 mkAQ (delete i (aitems a)) (S (afree a)) (atokens a) (aunb a) (amax a) (achunk a)
                   (aroom a) (if decide (S i < n)%nat then At i else AtTail) (acalls a))
      | _ => (RItem WOMBAT_QUEUE_END None, a)
      end
  | QInsertAfter cb d c =>
      match acur a with
      | At i => a_try_insert a (S i) (cb, d, c) (At i) (At i)
      | _ => a_try_insert a 0 (cb, d, c) AtHead AtHead
      end
  | QInsertBefore cb d c =>
      match acur a with
      | At i => a_try_insert a i (cb, d, c) (At (S i)) (At i)
      | _ => a_try_insert a n (cb, d, c) AtTail AtTail
      end
  | QReplace d c =>
      match acur a with
      | At i => (RStatus WOMBAT_QUEUE_OK,
                 mkAQ (<[i := ((a_nth a i).1.1, d, c)]> (aitems a)) (afree a) (atokens a) (aunb a)
                   (amax a) (achunk a) (aroom a) (acur a) (acalls a))
      | _ => (RStatus WOMBAT_QUEUE_END, a)
      end
  end.

(** When a call is covered: an insertion finds memory when it needs some, a
    dispatch finds a token (else it waits), [poll] and [flush] do not find a
    token without an item, and the cursor is not lost. *)
Definition a_has_room (a : aqueue) : bool :=
  match afree a with O => a_full a || (achunk a * sizeof_item <=? aroom a) | S _ => true end.

Definition is_lost (k : cursor) : bool := match k with Lost => true | _ => false end.
Definition is_nil {A} (l : list A) : bool := match l with [] => true | _ => false end.

Definition alegal (a : aqueue) (cmd : qcmd) : bool :=
  match cmd with
  | QEnqueue _ _ _ => a_has_room a
  | QDispatch => 0 <? atokens a
  | QPoll | QFlush => (atokens a <=? 0) || negb (is_nil (aitems a))
  | QNext | QPrev | QCur | QRemove | QReplace _ _ => negb (is_lost (acur a))
  | QInsertAfter _ _ _ | QInsertBefore _ _ _ => a_has_room a && negb (is_lost (acur a))
  | QSetMaxSize v => 0 <=? v
  | QTimedDispatch | QUnblock | QGetSize | QGetMaxSize | QBegin | QEnd => true
  end.

(** ** The relation *)

Record qsim_at (q : wombatQueueImpl) (a : aqueue) (ls fl : list Z) : Prop := {
  s_repr : qrepr q ls fl;
  s_items : content (qmem q) <$> ls = Some <$> aitems a;
  s_free : length fl = afree a;
  s_tokens : mSem q = atokens a;
  s_unb : mUnblocking q = if aunb a then 1 else 0;
  s_max : mMaxSize q = amax a;
  s_chunk : mChunkSize q = achunk a;
  s_room : limit q - brk q = aroom a;
  s_cur : at_cursor ls (mIterator q) (acur a);
  s_calls : calls q = acalls a;
  s_lock : mLock q = 0;
  s_chunk_pos : 1 <= achunk a < 2 ^ 32;
}.

Definition qsim (q : wombatQueueImpl) (a : aqueue) : Prop := exists ls fl, qsim_at q a ls fl.

Section Sim.
  Context {q : wombatQueueImpl} {a : aqueue} {ls fl : list Z} (S : qsim_at q a ls fl).

Lemma sim_length : length ls = length (aitems a).
Proof. rewrite <- (length_fmap (content (qmem q)) ls), (s_items _ _ _ _ S). apply length_fmap. Qed.

Lemma sim_content i x :
  ls !! i = Some x -> exists v, aitems a !! i = Some v /\ content (qmem q) x = Some v.
Proof.
  intros H. assert ((content (qmem q) <$> ls) !! i = Some (content (qmem q) x)) as E
    by (rewrite list_lookup_fmap, H; done).
  rewrite (s_items _ _ _ _ S), list_lookup_fmap in E.
  destruct (aitems a !! i) as [v|]; [|done]. injection E as E. eauto.
Qed.

Lemma sim_split l1 l2 :
  ls = l1 ++ l2 ->
  content (qmem q) <$> l1 = Some <$> take (length l1) (aitems a) /\
  content (qmem q) <$> l2 = Some <$> drop (length l1) (aitems a).
Proof.
  intros ->. pose proof (s_items _ _ _ _ S) as E. rewrite fmap_app in E.
  rewrite fmap_take, fmap_drop, <- E.
  split; [rewrite take_app_length' by (by rewrite length_fmap); done
         |rewrite drop_app_length' by (by rewrite length_fmap); done].
Qed.

Lemma sim_cur_le i : acur a = At i -> (i < length (aitems a))%nat.
Proof.
  intros E. pose proof (s_cur _ _ _ _ S) as H. rewrite E in H. cbn in H.
  rewrite <- sim_length. by eapply lookup_lt_Some.
Qed.

Lemma qsim_insert q' l1 l2 v k :
  ls = l1 ++ l2 -> inserted q q' l1 l2 fl v ->
  (forall x, at_cursor (l1 ++ x :: l2) (mIterator q') k) ->
  qsim q' (a_insert a (length l1) v k).
Proof.
  intros E (x & fl' & R' & Hx & Hk & Hl & Hf & Hs & Hc & Hb) Hcur. destruct S as [R Hi Hfr Ht Hu Hm Hch Hr _ Hca Hlk Hp].
  destruct (sim_split l1 l2 E) as [E1 E2]. unfold frame_of in Hf. injection Hf as Fu Fm Fc Fl Flk.
  exists (l1 ++ x :: l2), fl'. split; cbn; try congruence; [| | |apply Hcur].
  - rewrite fmap_app, fmap_cons, Hx, fmap_app, fmap_cons. f_equal; [|f_equal].
    + rewrite <- E1. apply content_frame. intros p Hp'. apply Hk. set_solver.
    + rewrite <- E2. apply content_frame. intros p Hp'. apply Hk. set_solver.
  - rewrite <- Hfr. destruct fl; cbn in Hl |- *; lia.
  - rewrite Fl, Hb, <- Hfr. destruct fl; cbn; lia.
Qed.

Lemma sim_full : a_full a = true -> fl = [] /\ mMaxSize q < u32 (mSem q + mChunkSize q).
Proof.
  unfold a_full. destruct S as [R Hi Hfr Ht Hu Hm Hch Hr _ Hca Hlk Hp]. rewrite <- Hfr, Ht, Hch, Hm.
  destruct fl; [|done]. cbn. intros H%Z.ltb_lt. done.
Qed.

Lemma sim_can_grow : a_full a = false -> a_has_room a = true -> fl = [] -> can_grow q.
Proof.
  unfold a_full, a_has_room, can_grow, a_full. destruct S as [R Hi Hfr Ht Hu Hm Hch Hr _ Hca Hlk Hp].
  rewrite <- Hfr, Ht, Hch, Hm. intros H1 H2 ->. cbn in *. rewrite H1 in H2. cbn in H2.
  apply Z.ltb_ge in H1. apply Z.leb_le in H2. lia.
Qed.

(** The queue with the semaphore or the cursor changed. *)
Lemma sim_tokens n : qsim_at (set_mSem n q) (a_tokens a n) ls fl.
Proof.
  destruct S as [R Hi Hfr Ht Hu Hm Hch Hr Hk Hca Hlk Hp].
  by split; try done; eapply qrepr_same; [..|exact R].
Qed.

Lemma sim_set_cur c k : at_cursor ls c k -> qsim_at (set_mIterator c q) (a_cur a k) ls fl.
Proof.
  intros Hc. destruct S as [R Hi Hfr Ht Hu Hm Hch Hr Hk Hca Hlk Hp].
  by split; try done; eapply qrepr_same; [..|exact R].
Qed.

Lemma sim_unb b : qsim_at (set_mUnblocking (if b : bool then 1 else 0) q) (a_unb a b) ls fl.
Proof.
  destruct S as [R Hi Hfr Ht Hu Hm Hch Hr Hk Hca Hlk Hp].
  by split; try done; eapply qrepr_same; [..|exact R].
Qed.

Lemma sim_max v : qsim_at (set_mMaxSize v q) (a_max a v) ls fl.
Proof.
  destruct S as [R Hi Hfr Ht Hu Hm Hch Hr Hk Hca Hlk Hp].
  by split; try done; eapply qrepr_same; [..|exact R].
Qed.

Lemma qsim_pop q' x ls' v rest called :
  ls = x :: ls' -> aitems a = v :: rest -> popped q q' x ls' fl -> calls q' = calls q ++ called ->
  qsim q' (a_pop a rest called).
Proof.
  intros -> Ev (R' & Hk & Hf & Hs & Hit & Hb) Hcl.
  destruct S as [R Hi Hfr Ht Hu Hm Hch Hr Hcur Hca Hlk Hp].
  unfold frame_of in Hf. injection Hf as Fu Fm Fc Fl Flk. rewrite Ev, !fmap_cons in Hi. apply (f_equal tail) in Hi. cbn [tail] in Hi.
  exists ls', (x :: fl). split; cbn; try congruence.
  - rewrite <- Hi. by apply content_frame.
  - rewrite Hit. destruct (acur a) as [|[|i]| |]; done.
Qed.

End Sim.

(** ** The simulation, operation by operation *)

Lemma is_nil_false {A} (l : list A) : negb (is_nil l) = true -> exists x r, l = x :: r.
Proof. destruct l; [done|eauto]. Qed.

Definition simulates (m : QM reply) (q : wombatQueueImpl) (p : reply * aqueue) : Prop :=
  wp m q (fun r q' => r = p.1 /\ qsim q' p.2).

Lemma sim_enqueue q a cb d c :
  qsim q a -> alegal a (QEnqueue cb d c) = true ->
  simulates (run_qcmd (QEnqueue cb d c)) q (astep a (QEnqueue cb d c)).
Proof.
  intros (ls & fl & S) Hl. unfold simulates. cbn [run_qcmd astep alegal] in *.
  unfold as_status, a_try_insert. apply wp_bind. destruct (a_full a) eqn:Ef.
  - destruct (sim_full S Ef) as [-> Hm].
    eapply wp_mono; [eapply enqueue_full; [apply (s_repr _ _ _ _ S)|done]|]. cbn beta.
    intros r q' [-> ->]. apply wp_ret. split; [done|]. exists ls, []. cbn [snd]. destruct a. exact S.
  - eapply wp_mono; [eapply enqueue_spec; [apply (s_repr _ _ _ _ S)|by apply (sim_can_grow S)]|].
    cbn beta. intros r q' (-> & Hi & Hc). apply wp_ret. split; [done|]. cbn [snd].
    rewrite <- (sim_length S). eapply (qsim_insert S); [by rewrite app_nil_r|exact Hi|].
    intros x. rewrite Hc. pose proof (s_cur _ _ _ _ S) as H.
    destruct (acur a) as [|i| |]; try done. cbn in *. rewrite lookup_app_l; [done|by eapply lookup_lt_Some].
Qed.

Lemma sim_dispatch_locked q a :
  qsim q a ->
  wp dispatch_locked q (fun r q' => RItem r.1 r.2 = (a_dispatch a).1 /\ qsim q' (a_dispatch a).2).
Proof.
  intros (ls & fl & S). unfold a_dispatch.
  pose proof (s_unb _ _ _ _ S) as Hu. destruct (aunb a) eqn:Eu.
  - eapply wp_mono; [apply dispatch_locked_unblock; lia|]. cbn beta. intros r q' [-> ->].
    split; [done|]. exists ls, fl. apply (sim_unb S false).
  - pose proof (sim_length S) as Hlen. destruct (aitems a) as [|v rest] eqn:Ei.
    + destruct ls; [|done].
      eapply wp_mono; [eapply dispatch_locked_empty; [apply (s_repr _ _ _ _ S)|done]|]. cbn beta.
      intros r q' [-> ->]. split; [done|]. by exists [], fl.
    + destruct ls as [|x ls]; [done|].
      destruct (sim_content S 0 x eq_refl) as ([[cb d] c] & Hv & Hc). rewrite Ei in Hv. injection Hv as ->.
      eapply wp_mono; [eapply dispatch_locked_spec; [apply (s_repr _ _ _ _ S)|exact Hc|done]|]. cbn beta.
      intros r q' (-> & Hp & Hcl). split; [done|]. by eapply (qsim_pop S).
Qed.

Lemma wp_trywait q Q :
  (if 0 <? mSem q then Q true (set_mSem (mSem q - 1) q) else Q false q) -> wp wsem_trywait q Q.
Proof. unfold wp, wsem_trywait. by destruct (0 <? mSem q). Qed.

(** A queue with the lock taken and given back is the same queue. *)
Lemma sim_relock {q a ls fl} : qsim_at q a ls fl -> qsim_at (set_mLock (mLock q + 1 - 1) q) a ls fl.
Proof. intros S. replace (set_mLock _ q) with q; [done|]. destruct q. state_simpl. f_equal. lia. Qed.

Lemma sim_dispatch q a :
  qsim q a -> alegal a QDispatch = true -> simulates (run_qcmd QDispatch) q (astep a QDispatch).
Proof.
  intros (ls & fl & S) Hl. cbn [alegal] in Hl. apply Z.ltb_lt in Hl.
  pose proof (s_tokens _ _ _ _ S) as Ht. unfold simulates. cbn [run_qcmd astep].
  unfold as_item at 1, wombatQueue_dispatch, wombatQueue_dispatchInt, wait_loop.
  do 3 apply wp_bind. unfold wsem_wait at 1, wp at 1. rewrite (proj2 (Z.ltb_lt 0 (mSem q))) by lia.
  apply wp_ret. cbn [negb]. rewrite Ht.
  assert (qsim (set_mSem (atokens a - 1) q) (a_tokens a (atokens a - 1))) as S'
    by (exists ls, fl; apply (sim_tokens S)).
  eapply wp_mono; [exact (sim_dispatch_locked _ _ S')|]. intros r q' HQ. by apply wp_ret.
Qed.

Lemma sim_timedDispatch q a :
  qsim q a -> simulates (run_qcmd QTimedDispatch) q (astep a QTimedDispatch).
Proof.
  intros (ls & fl & S). pose proof (s_tokens _ _ _ _ S) as Ht. unfold simulates. cbn [run_qcmd astep].
  unfold as_item at 1, wombatQueue_timedDispatch, wombatQueue_dispatchInt.
  apply wp_bind, wp_bind, wp_trywait. rewrite Ht.
  destruct (Z.ltb_spec 0 (atokens a)), (Z.leb_spec (atokens a) 0); try lia; cbn [negb].
  - assert (qsim (set_mSem (atokens a - 1) q) (a_tokens a (atokens a - 1))) as S'
      by (exists ls, fl; apply (sim_tokens S)).
    eapply wp_mono; [exact (sim_dispatch_locked _ _ S')|]. intros r q' HQ. by apply wp_ret.
  - wp_pure. split; [done|]. by exists ls, fl.
Qed.

Lemma sim_poll q a :
  qsim q a -> alegal a QPoll = true -> simulates (run_qcmd QPoll) q (astep a QPoll).
Proof.
  intros (ls & fl & S) Hl. pose proof (s_tokens _ _ _ _ S) as Ht. unfold simulates.
  cbn [run_qcmd astep alegal] in *. unfold as_item, wombatQueue_poll.
  apply wp_bind, wp_bind, wp_trywait. rewrite Ht.
  destruct (Z.ltb_spec 0 (atokens a)), (Z.leb_spec (atokens a) 0); try lia; cbn [negb].
  - destruct (is_nil_false _ Hl) as (v & rest & Ei). rewrite Ei. pose proof (sim_length S) as Hlen.
    rewrite Ei in Hlen. destruct ls as [|x ls]; [done|].
    destruct (sim_content S 0 x eq_refl) as ([[cb d] c] & Hv & Hc). rewrite Ei in Hv. injection Hv as ->.
    pose proof (sim_tokens S (atokens a - 1)) as S'.
    eapply wp_mono; [eapply poll_locked_spec; [apply (s_repr _ _ _ _ S')|exact Hc]|]. cbn beta.
    intros r q' (-> & Hp & Hcl). apply wp_ret. split; [done|]. by eapply (qsim_pop S').
  - wp_pure. split; [done|]. by exists ls, fl.
Qed.

Lemma sim_flush q a :
  qsim q a -> alegal a QFlush = true -> simulates (run_qcmd QFlush) q (astep a QFlush).
Proof.
  intros (ls & fl & S) Hl. pose proof (s_tokens _ _ _ _ S) as Ht. unfold simulates.
  cbn [run_qcmd astep alegal] in *. unfold wombatQueue_flush.
  apply wp_bind, wp_bind, wp_trywait. rewrite Ht.
  destruct (Z.ltb_spec 0 (atokens a)), (Z.leb_spec (atokens a) 0); try lia; cbn [negb].
  - destruct (is_nil_false _ Hl) as (v & rest & Ei). rewrite Ei. pose proof (sim_length S) as Hlen.
    rewrite Ei in Hlen. destruct ls as [|x ls]; [done|].
    destruct (sim_content S 0 x eq_refl) as ([[cb d] c] & Hv & Hc). rewrite Ei in Hv. injection Hv as ->.
    pose proof (sim_tokens S (atokens a - 1)) as S'. pose proof (head_of_ring _ _ _ _ (s_repr _ _ _ _ S')).
    unfold mutex_lock at 1. apply wp_bind, wp_modify, wp_bind. eapply wp_ld_next; [done|]. apply wp_bind.
    eapply wp_mono; [apply (WQ_REMOVE_spec _ [] x ls fl); q_same (s_repr _ _ _ _ S')|]. cbn beta.
    intros _ q1 (R1 & Hk & Hf & Hd & Hb). apply wp_bind.
    eapply wp_ld_item; [rewrite Hk; exact Hc|]. intros i _ -> ->. wp_queue. split; [done|].
    unfold frame_of, dyn_of in Hf, Hd. revert Hf Hd. state_simpl.
    intros [= Eu Em Ec El Elk] [= Es Ei' Ecl].
    eapply (qsim_pop S'); [done|exact Ei| |state_simpl; by rewrite app_nil_r, Ecl].
    split_and!; state_simpl; [q_same R1|exact Hk| |done..].
    unfold frame_of. state_simpl. rewrite Eu, Em, Ec, El, Elk. repeat f_equal. lia.
  - wp_pure. split; [done|]. by exists ls, fl.
Qed.

(** The calls that only set a field. *)
Lemma sim_fields q a cmd :
  qsim q a -> alegal a cmd = true ->
  match cmd with
  | QUnblock | QGetSize | QSetMaxSize _ | QGetMaxSize | QBegin | QEnd => True | _ => False
  end -> simulates (run_qcmd cmd) q (astep a cmd).
Proof.
  intros (ls & fl & S) Hl Hc. pose proof (s_tokens _ _ _ _ S) as Ht. pose proof (s_max _ _ _ _ S) as Hm.
  pose proof (s_lock _ _ _ _ S) as Hlk.
  unfold simulates. destruct cmd; try done; cbn [run_qcmd astep] in *; unfold as_status, as_num.
  - unfold wombatQueue_unblock. wp_queue. split; [done|]. exists ls, fl. rewrite Hlk, Ht.
    pose proof (sim_unb (sim_tokens S (atokens a + 1)) true) as S'. revert S'. state_simpl. by rewrite Hlk.
  - unfold wombatQueue_getSize. wp_pure. rewrite Ht. split; [done|]. by exists ls, fl.
  - unfold wombatQueue_setMaxSize. apply wp_bind. destruct (WOMBAT_QUEUE_MAX_SIZE <? v); wp_pure;
      (split; [done|]); exists ls, fl; [done|apply (sim_max S)].
  - unfold wombatQueue_getMaxSize. wp_pure. rewrite Hm. split; [done|]. by exists ls, fl.
  - unfold wombatQueue_begin. wp_queue. split; [done|]. exists ls, fl.
    pose proof (sim_set_cur S HEAD AtHead eq_refl) as S'. revert S'. state_simpl. by rewrite Hlk.
  - unfold wombatQueue_end. wp_queue. split; [done|]. exists ls, fl.
    pose proof (sim_set_cur S TAIL AtTail eq_refl) as S'. revert S'. state_simpl. by rewrite Hlk.
Qed.

(** A cursor address tells the dummies and the items apart. *)
Lemma cursor_cases q ls fl c k :
  qrepr q ls fl -> at_cursor ls c k ->
  match k with
  | AtHead => (c =? HEAD) = true /\ (c =? TAIL) = false
  | At _ => (c =? HEAD) = false /\ (c =? TAIL) = false
  | AtTail => (c =? HEAD) = false /\ (c =? TAIL) = true
  | Lost => True
  end.
Proof.
  intros R Hc. destruct k as [|i| |]; cbn in Hc; [by subst..| |by subst|done].
  destruct (item_bounds R c) as (_ & H1 & H2); [by eapply list_elem_of_lookup_2|].
  split; by apply Z.eqb_neq.
Qed.

Lemma sim_a_item q a ls fl c i :
  qsim_at q a ls fl -> ls !! i = Some c ->
  exists cb d cl, content (qmem q) c = Some (cb, d, cl) /\ a_item a (At i) = Some (d, cl).
Proof.
  intros S Hc. destruct (sim_content S i c Hc) as ([[cb d] cl] & Hv & Hcon).
  exists cb, d, cl. split; [done|]. cbn. by rewrite Hv.
Qed.

Lemma sim_next q a :
  qsim q a -> alegal a QNext = true -> simulates (run_qcmd QNext) q (astep a QNext).
Proof.
  intros (ls & fl & S) Hl. cbn [alegal] in Hl. pose proof (s_repr _ _ _ _ S) as R.
  assert (acur a ≠ Lost) as Hk by (by destruct (acur a)).
  destruct (next_cursor_spec _ _ _ _ _ R (s_cur _ _ _ _ S) Hk) as (c' & Hn & Hc').
  pose proof (cursor_cases _ _ _ _ _ R Hc') as Hcases. pose proof (s_lock _ _ _ _ S) as Hlk.
  unfold simulates. cbn [run_qcmd astep]. unfold as_item, wombatQueue_next.
  rewrite (sim_length S) in *. wp_queue.
  destruct (next_cursor (length (aitems a)) (acur a)) as [|i| |] eqn:En.
  - destruct (acur a) as [|j| |]; cbn in En; try done; repeat case_match; try done.
  - destruct Hcases as [_ ->]. destruct (sim_a_item _ _ _ _ _ _ S Hc') as (cb & d & cl & Hcon & Ei).
    apply wp_bind. eapply wp_ld_item; [exact Hcon|]. intros it _ -> ->. wp_queue.
    rewrite Ei. split; [done|]. exists ls, fl.
    pose proof (sim_set_cur S c' (At i) Hc') as S'. revert S'. state_simpl. by rewrite Hlk.
  - destruct Hcases as [_ Hb]. rewrite Hb. apply Z.eqb_eq in Hb as ->.
    destruct (prev_cursor_spec _ _ _ _ AtTail R eq_refl) as (c2 & Hp & Hc2); [done|].
    wp_queue. split; [done|]. exists ls, fl. rewrite (sim_length S) in Hc2.
    pose proof (sim_set_cur S c2 _ Hc2) as S'. revert S'. state_simpl. by rewrite Hlk.
  - destruct (acur a) as [|j| |]; cbn in En; try done; repeat case_match; try done.
Qed.

Lemma sim_prev q a :
  qsim q a -> alegal a QPrev = true -> simulates (run_qcmd QPrev) q (astep a QPrev).
Proof.
  intros (ls & fl & S) Hl. cbn [alegal] in Hl. pose proof (s_repr _ _ _ _ S) as R.
  assert (acur a ≠ Lost) as Hk by (by destruct (acur a)).
  destruct (prev_cursor_spec _ _ _ _ _ R (s_cur _ _ _ _ S) Hk) as (c' & Hn & Hc').
  pose proof (cursor_cases _ _ _ _ _ R Hc') as Hcases. pose proof (s_lock _ _ _ _ S) as Hlk.
  unfold simulates. cbn [run_qcmd astep]. unfold as_item, wombatQueue_prev.
  rewrite (sim_length S) in *. wp_queue.
  destruct (prev_cursor (length (aitems a)) (acur a)) as [|i| |] eqn:En.
  - destruct Hcases as [Hb _]. rewrite Hb. apply Z.eqb_eq in Hb as ->.
    destruct (next_cursor_spec _ _ _ _ AtHead R eq_refl) as (c2 & Hp & Hc2); [done|].
    wp_queue. split; [done|]. exists ls, fl. rewrite (sim_length S) in Hc2.
    pose proof (sim_set_cur S c2 _ Hc2) as S'. revert S'. state_simpl. by rewrite Hlk.
  - destruct Hcases as [-> _]. destruct (sim_a_item _ _ _ _ _ _ S Hc') as (cb & d & cl & Hcon & Ei).
    apply wp_bind. eapply wp_ld_item; [exact Hcon|]. intros it _ -> ->. wp_queue.
    rewrite Ei. split; [done|]. exists ls, fl.
    pose proof (sim_set_cur S c' (At i) Hc') as S'. revert S'. state_simpl. by rewrite Hlk.
  - destruct (acur a) as [|j| |]; cbn in En; try done; repeat case_match; try done.
  - destruct (acur a) as [|j| |]; cbn in En; try done; repeat case_match; try done.
Qed.

Lemma sim_cur_read q a :
  qsim q a -> alegal a QCur = true -> simulates (run_qcmd QCur) q (astep a QCur).
Proof.
  intros (ls & fl & S) Hl. cbn [alegal] in Hl. pose proof (s_repr _ _ _ _ S) as R.
  pose proof (s_cur _ _ _ _ S) as Hc. pose proof (cursor_cases _ _ _ _ _ R Hc) as Hcases.
  unfold simulates. cbn [run_qcmd astep]. unfold as_item, wombatQueue_cur. wp_queue.
  destruct (acur a) as [|i| |] eqn:Ek; [| | |done]; destruct Hcases as [-> ->]; cbn [orb].
  - wp_queue. split; [done|]. exists ls, fl. apply (sim_relock S).
  - destruct (sim_a_item _ _ _ _ _ _ S Hc) as (cb & d & cl & Hcon & Ei).
    apply wp_bind. eapply wp_ld_item; [exact Hcon|]. intros it _ -> ->. wp_queue.
    rewrite Ei. split; [done|]. exists ls, fl. apply (sim_relock S).
  - wp_queue. split; [done|]. exists ls, fl. apply (sim_relock S).
Qed.

Lemma sim_replace q a d c :
  qsim q a -> alegal a (QReplace d c) = true -> simulates (run_qcmd (QReplace d c)) q (astep a (QReplace d c)).
Proof.
  intros (ls & fl & S) Hl. cbn [alegal] in Hl. pose proof (s_repr _ _ _ _ S) as R.
  pose proof (s_cur _ _ _ _ S) as Hc. pose proof (cursor_cases _ _ _ _ _ R Hc) as Hcases.
  unfold simulates. cbn [run_qcmd astep]. unfold as_status, wombatQueue_replace. wp_queue.
  destruct (acur a) as [|i| |] eqn:Ek; [| | |done]; destruct Hcases as [-> ->]; cbn [orb].
  - wp_queue. split; [done|]. exists ls, fl. apply (sim_relock S).
  - destruct (sim_content S i _ Hc) as ([[cb d0] cl] & Hv & Hcon).
    apply wp_bind. eapply wp_ld_item; [exact Hcon|]. intros it -> _ _. apply wp_bind.
    apply wp_st_content; [unfold content in Hcon; state_simpl; destruct (qmem q !! mIterator q); [eauto|done]|].
    wp_queue. split; [done|]. exists ls, fl.
    destruct S as [_ Hi Hfr Ht Hu Hm Hch Hr Hcur Hca Hlk Hp].
    split; state_simpl; cbn [snd fst aitems afree atokens aunb amax achunk aroom acur acalls];
      try done; [| |lia].
    + destruct R as [H1 H2 H3 H4 H5 H6 H7 H8]. split; state_simpl; try done; rewrite ?nxt_upd_content, ?prv_upd_content; try done.
      * eapply linked_frame; [exact H1|..]; intros; mem_solve.
      * eapply chain_frame; [exact H4|]. intros; mem_solve.
    + unfold a_nth. rewrite Hv. cbn [default fst]. rewrite list_fmap_insert, <- Hi.
      apply list_eq. intros j. rewrite list_lookup_fmap.
      destruct (decide (i = j)) as [<-|Hij].
      * rewrite list_lookup_insert_eq by (rewrite length_fmap; by eapply lookup_lt_Some).
        rewrite Hc. cbn. f_equal. apply content_upd_content_eq.
        unfold content in Hcon. destruct (qmem q !! mIterator q); [eauto|done].
      * rewrite list_lookup_insert_ne, list_lookup_fmap by done.
        destruct (ls !! j) as [y|] eqn:Ey; [|done]. cbn. f_equal. apply content_upd_content_ne.
        intros E. apply Hij. rewrite E in Hc.
        pose proof (q_ring_nodup R) as Hnd. apply NoDup_cons in Hnd as [_ Hnd].
        apply NoDup_app in Hnd as [Hnd _]. by eapply NoDup_lookup.
  - wp_queue. split; [done|]. exists ls, fl. apply (sim_relock S).
Qed.

Lemma lookup_split {A} (l : list A) i x : l !! i = Some x -> l = take i l ++ x :: drop (S i) l.
Proof. intros H. by rewrite take_drop_middle. Qed.

(** The loads and stores of [wombatQueue_remove], [WQ_REMOVE] written out with
    the cursor moved first. *)
Lemma q_remove_spec q l1 x l2 fl cb d c :
  qrepr q (l1 ++ x :: l2) fl -> mIterator q = x -> content (qmem q) x = Some (cb, d, c) ->
  wp wombatQueue_remove q (fun r q' =>
    r = (WOMBAT_QUEUE_OK, Some (d, c)) /\ qrepr q' (l1 ++ l2) (x :: fl) /\
    (forall p, content (qmem q') p = content (qmem q) p) /\ frame_of q' = frame_of q /\
    mSem q' = mSem q /\ calls q' = calls q /\ brk q' = brk q /\
    Some (mIterator q') = head (l2 ++ [TAIL])).
Proof.
  intros R Hx Hc. destruct (place_exists l1 l2) as (r1 & a & b & r2 & P).
  pose proof (q_ring _ _ _ R) as HL. pose proof (q_ring_nodup R) as Hnd.
  rewrite (place_ring_mid _ _ _ _ _ _ x P) in HL, Hnd.
  destruct (linked_neighbours _ _ _ _ _ _ HL) as (H1 & H2 & H3 & H4).
  assert (a ≠ x /\ b ≠ x) as [N1 N2].
  { apply NoDup_app in Hnd as (_ & _ & Hnd). inv Hnd as [|?? Ha Hnd']. inv Hnd'. set_solver. }
  assert (x ≠ a /\ x ≠ b) as [N3 N4] by (split; congruence).
  destruct (item_bounds R x) as (_ & NH & NT); [set_solver|].
  unfold wombatQueue_remove. wp_queue. rewrite Hx.
  rewrite (proj2 (Z.eqb_neq _ _) NH), (proj2 (Z.eqb_neq _ _) NT). cbn [orb].
  apply wp_bind. eapply wp_ld_item; [exact Hc|]. intros i _ -> ->. wp_queue.
  split; [done|]. state_simpl. split_and!; [|intros; mem_solve| |done..|].
  - eapply qrepr_remove; [exact R|exact P|..]; try done; intros; mem_solve.
  - unfold frame_of. state_simpl. repeat f_equal. lia.
  - destruct P as [_ ->]. done.
Qed.

Lemma qsim_remove q a :
  qsim q a -> alegal a QRemove = true -> simulates (run_qcmd QRemove) q (astep a QRemove).
Proof.
  intros (ls & fl & S) Hl. cbn [alegal] in Hl. pose proof (s_repr _ _ _ _ S) as R.
  pose proof (s_cur _ _ _ _ S) as Hc. pose proof (cursor_cases _ _ _ _ _ R Hc) as Hcases.
  unfold simulates. cbn [run_qcmd astep]. unfold as_item. apply wp_bind.
  destruct (acur a) as [|i| |] eqn:Ek; [| | |done].
  - unfold wombatQueue_remove. wp_queue. destruct Hcases as [-> ->]. cbn [orb]. wp_queue.
    split; [done|]. exists ls, fl. apply (sim_relock S).
  - clear Hcases. destruct (sim_content S i _ Hc) as ([[cb d] cl] & Hv & Hcon).
    pose proof (lookup_split _ _ _ Hc) as E. rewrite E in R.
    eapply wp_mono; [eapply q_remove_spec; [exact R|done|exact Hcon]|]. cbn beta.
    intros r q' (-> & R' & Hk & Hf & Hs & Hcl & Hb & Hit). apply wp_ret. cbn [fst snd a_item].
    rewrite Hv. split; [done|]. unfold frame_of in Hf. injection Hf as Fu Fm Fc Fl Flk.
    rewrite <- (sim_length S). destruct S as [_ Hi Hfr Ht Hu Hm Hch Hr Hcur Hca Hlk Hp].
    exists (take i ls ++ drop (Datatypes.S i) ls), (mIterator q :: fl). split;
      cbn [aitems afree atokens aunb amax achunk aroom acur acalls]; try congruence.
    + rewrite (content_frame (qmem q)) by done. rewrite fmap_app, fmap_take, fmap_drop, Hi.
      by rewrite <- fmap_take, <- fmap_drop, <- fmap_app, delete_take_drop.
    + cbn. by rewrite Hfr.
    + case_decide as Hlt; cbn.
      * rewrite lookup_app_r by (rewrite length_take; lia). rewrite length_take, Nat.min_l by lia.
        rewrite Nat.sub_diag. destruct (lookup_lt_is_Some_2 ls (Datatypes.S i) Hlt) as [y Hy].
        rewrite (drop_S _ _ _ Hy) in *. cbn in Hit. by injection Hit as ->.
      * rewrite drop_ge in Hit by lia. by injection Hit.
  - unfold wombatQueue_remove. wp_queue. destruct Hcases as [-> ->]. cbn [orb]. wp_queue.
    split; [done|]. exists ls, fl. apply (sim_relock S).
Qed.

(** Both insertions at the cursor: [ops] gives the call, [cur] where it puts the
    cursor first, [k] that position. *)
Lemma sim_insert_at q a ls fl m cur l1 l2 v k kfull :
  qsim_at q a ls fl -> a_has_room a = true -> ls = l1 ++ l2 ->
  (qrepr q ls fl -> (fl = [] -> can_grow q) -> wp m q (fun r q' =>
     r = WOMBAT_QUEUE_OK /\ inserted q q' l1 l2 fl v /\ mIterator q' = cur)) ->
  (qrepr q ls [] -> mMaxSize q < u32 (mSem q + mChunkSize q) -> wp m q (fun r q' =>
     r = WOMBAT_QUEUE_FULL /\ q' = set_mIterator cur q)) ->
  (forall x, at_cursor (l1 ++ x :: l2) cur k) -> at_cursor ls cur kfull ->
  simulates (as_status m) q (a_try_insert a (length l1) v k kfull).
Proof.
  intros S Hr E Hok Hfull Hk Hkf. unfold simulates, as_status, a_try_insert. apply wp_bind.
  pose proof (s_repr _ _ _ _ S) as R. destruct (a_full a) eqn:Ef.
  - destruct (sim_full S Ef) as [-> Hm]. eapply wp_mono; [by apply Hfull|]. cbn beta.
    intros r q' [-> ->]. apply wp_ret. split; [done|]. exists ls, []. by apply (sim_set_cur S).
  - eapply wp_mono; [apply Hok; [done|by apply (sim_can_grow S)]|]. cbn beta.
    intros r q' (-> & Hi & Hc). apply wp_ret. split; [done|]. eapply (qsim_insert S); [done..|].
    intros x. rewrite Hc. apply Hk.
Qed.

Lemma sim_insertAfter q a cb d c :
  qsim q a -> alegal a (QInsertAfter cb d c) = true ->
  simulates (run_qcmd (QInsertAfter cb d c)) q (astep a (QInsertAfter cb d c)).
Proof.
  intros (ls & fl & Sm) Hl. cbn [alegal] in Hl. apply andb_true_iff in Hl as [Hr Hl].
  pose proof (s_cur _ _ _ _ Sm) as Hc. pose proof (cursor_cases _ _ _ _ _ (s_repr _ _ _ _ Sm) Hc) as Hcases.
  cbn [run_qcmd astep]. set (cur := if mIterator q =? TAIL then HEAD else mIterator q).
  destruct (acur a) as [|i| |] eqn:Ek; [| | |done]; cbn in Hc.
  2: { assert (length (take (S i) ls) = S i) as Hlen
         by (apply lookup_lt_Some in Hc; rewrite length_take; lia).
       assert (cur = mIterator q) as Ecur by (unfold cur; by destruct Hcases as [_ ->]).
       rewrite <- Hlen. eapply (sim_insert_at _ _ _ _ _ cur _ (drop (S i) ls)); [exact Sm|done|by rewrite take_drop|..].
       - intros R Hg. apply insertAfter_spec; [by rewrite take_drop|done|done|].
         rewrite Ecur, (take_S_r _ _ _ Hc), app_comm_cons. apply last_snoc.
       - intros R Hm. by eapply insertAfter_full.
       - intros x. rewrite Ecur. cbn. rewrite lookup_app_l by lia. rewrite lookup_take_lt by lia. done.
       - by rewrite Ecur. }
  all: assert (cur = HEAD) as Ecur by (unfold cur; destruct Hcases as [_ ->]; done).
  all: eapply (sim_insert_at _ _ _ _ _ cur [] ls); [exact Sm|done|done|..|done|done].
  all: try (intros R Hm; by eapply insertAfter_full).
  all: intros R Hg; apply insertAfter_spec; [done|done|done|by rewrite Ecur].
Qed.

Lemma sim_insertBefore q a cb d c :
  qsim q a -> alegal a (QInsertBefore cb d c) = true ->
  simulates (run_qcmd (QInsertBefore cb d c)) q (astep a (QInsertBefore cb d c)).
Proof.
  intros (ls & fl & Sm) Hl. cbn [alegal] in Hl. apply andb_true_iff in Hl as [Hr Hl].
  pose proof (s_cur _ _ _ _ Sm) as Hc. pose proof (cursor_cases _ _ _ _ _ (s_repr _ _ _ _ Sm) Hc) as Hcases.
  cbn [run_qcmd astep]. set (cur := if mIterator q =? HEAD then TAIL else mIterator q).
  destruct (acur a) as [|i| |] eqn:Ek; [| | |done]; cbn in Hc.
  2: { assert (length (take i ls) = i) as Hlen
         by (apply lookup_lt_Some in Hc; rewrite length_take; lia).
       assert (cur = mIterator q) as Ecur by (unfold cur; by destruct Hcases as [-> _]).
       rewrite <- Hlen at 1. eapply (sim_insert_at _ _ _ _ _ cur _ (drop i ls)); [exact Sm|done|by rewrite take_drop|..].
       - intros R Hg. apply insertBefore_spec; [by rewrite take_drop|done|done|].
         by rewrite Ecur, (drop_S _ _ _ Hc).
       - intros R Hm. by eapply insertBefore_full.
       - intros x. rewrite Ecur. cbn. rewrite lookup_app_r by lia. rewrite Hlen.
         replace (S i - i)%nat with 1%nat by lia. by rewrite (drop_S _ _ _ Hc).
       - by rewrite Ecur. }
  all: assert (cur = TAIL) as Ecur by (unfold cur; destruct Hcases as [-> _]; done).
  all: rewrite <- (sim_length Sm).
  all: eapply (sim_insert_at _ _ _ _ _ cur ls []); [exact Sm|done|by rewrite app_nil_r|..|done|done].
  all: try (intros R Hm; by eapply insertBefore_full).
  all: intros R Hg; apply insertBefore_spec; [by rewrite app_nil_r|done|done|by rewrite Ecur].
Qed.
