(* ===== verification/WombatQueueProps.v ===== *)
(** * What the event queue promises

    The simulation over whole runs, delivery order, capacity, dispatchers that
    run concurrently, and the calls that break the queue. *)

From S2P Require Import Prelude Linked WombatQueue WombatQueueInv WombatQueueOps WombatQueueSpec.
Import WombatQueue.

(** ** Runs *)

Fixpoint run_qcmds (cmds : list qcmd) : QM (list reply) :=
  match cmds with
  | [] => mret []
  | cmd :: cmds' => r ← run_qcmd cmd; rs ← run_qcmds cmds'; mret (r :: rs)
  end.

Fixpoint arun (a : aqueue) (cmds : list qcmd) : list reply * aqueue :=
  match cmds with
  | [] => ([], a)
  | cmd :: cmds' => ((astep a cmd).1 :: (arun (astep a cmd).2 cmds').1, (arun (astep a cmd).2 cmds').2)
  end.

Fixpoint alegal_run (a : aqueue) (cmds : list qcmd) : bool :=
  match cmds with
  | [] => true
  | cmd :: cmds' => alegal a cmd && alegal_run (astep a cmd).2 cmds'
  end.

Lemma sim_step q a cmd :
  qsim q a -> alegal a cmd = true -> simulates (run_qcmd cmd) q (astep a cmd).
Proof.
  intros S Hl. destruct cmd; eauto using sim_enqueue, sim_dispatch, sim_timedDispatch, sim_poll,
    sim_flush, sim_next, sim_prev, sim_cur_read, qsim_remove, sim_insertAfter, sim_insertBefore, sim_replace;
    by apply sim_fields.
Qed.

Lemma sim_run q a cmds :
  qsim q a -> alegal_run a cmds = true ->
  wp (run_qcmds cmds) q (fun rs q' => rs = (arun a cmds).1 /\ qsim q' (arun a cmds).2).
Proof.
  revert q a. induction cmds as [|cmd cmds IH]; intros q a S Hl; cbn in *; [by apply wp_ret|].
  apply andb_true_iff in Hl as [Hl1 Hl2]. apply wp_bind.
  eapply wp_mono; [by apply sim_step|]. cbn beta. intros r q1 [-> S1]. apply wp_bind.
  eapply wp_mono; [by apply IH|]. cbn beta. intros rs q2 [-> S2]. by apply wp_ret.
Qed.

(** ** Creation *)

Definition or_default (v dflt : Z) : Z := if v =? 0 then dflt else v.

(** The queue [wombatQueue_create] makes from its four arguments. *)
Definition created (lim maxSize initialSize growBySize : Z) : aqueue :=
  let n := or_default initialSize WOMBAT_QUEUE_CHUNK_SIZE in
  mkAQ [] (Z.to_nat n) 0 false (or_default maxSize WOMBAT_QUEUE_MAX_SIZE)
    (or_default growBySize WOMBAT_QUEUE_CHUNK_SIZE) (lim - FIRST - n * sizeof_item) AtHead [].

(** The arguments are 32-bit, the first chunk is within the maximum and memory
    holds it. *)
Definition good_args (lim maxSize initialSize growBySize : Z) : Prop :=
  0 <= maxSize < 2 ^ 32 /\ 0 <= initialSize < 2 ^ 32 /\ 0 <= growBySize < 2 ^ 32 /\
  or_default initialSize WOMBAT_QUEUE_CHUNK_SIZE <= or_default maxSize WOMBAT_QUEUE_MAX_SIZE /\
  FIRST + or_default initialSize WOMBAT_QUEUE_CHUNK_SIZE * sizeof_item <= lim.

#[export] Instance good_args_dec lim m i g : Decision (good_args lim m i g).
Proof. unfold good_args. apply _. Defined.

Lemma allocate_repr lim q : wombatQueue_allocate lim = Some q -> qrepr q [] [].
Proof.
  unfold wombatQueue_allocate. destruct (lim <? FIRST); [done|]. intros [= <-].
  split; cbn; try done.
  - repeat constructor; unfold HEAD, TAIL; set_solver.
  - set_solver.
Qed.

Lemma create_sim lim m i g q :
  wombatQueue_allocate lim = Some q -> good_args lim m i g ->
  wp (wombatQueue_create true m i g) q (fun r q' =>
    r = WOMBAT_QUEUE_OK /\ qsim q' (created lim m i g)).
Proof.
  intros Ha (Hm & Hi & Hg & Hle & Hlim). pose proof (allocate_repr _ _ Ha) as R.
  unfold wombatQueue_allocate in Ha. destruct (lim <? FIRST) eqn:El; [done|]. injection Ha as Ha.
  assert (exists q1, wp ((if m =? 0 then mret tt else modify (set_mMaxSize m)) ;;
     (if g =? 0 then mret tt else modify (set_mChunkSize g))) q (fun _ q' => q' = q1) /\
     q1 = mkQueue (qmem q) 0 0 0 (or_default m WOMBAT_QUEUE_MAX_SIZE) (or_default g WOMBAT_QUEUE_CHUNK_SIZE)
            HEAD 0 0 FIRST lim []) as (q1 & Hw & Eq1).
  { eexists. split; [|reflexivity]. subst q. unfold or_default.
    destruct (m =? 0), (g =? 0); wp_pure; done. }
  unfold wombatQueue_create. unfold or_default in Hle, Hlim.
  apply wp_elim in Hw as ([] & q1' & Hw & ->).
  assert (forall B (k : QM B) Q, wp k q1 Q -> wp ((if m =? 0 then mret tt else modify (set_mMaxSize m)) ;;
     (if g =? 0 then mret tt else modify (set_mChunkSize g)) ;; k) q Q) as Hseq.
  { intros B k Q H. unfold wp, mbind, M_bind in *.
    destruct ((if m =? 0 then mret () else modify (set_mMaxSize m)) q) as [[[] q2]|f]; [|done].
    cbn in Hw |- *. rewrite Hw. done. }
  apply Hseq. cbn [negb]. wp_pure.
  set (n := if i =? 0 then WOMBAT_QUEUE_CHUNK_SIZE else i) in *.
  assert (1 <= n < 2 ^ 32) as Hn.
  { unfold n, WOMBAT_QUEUE_CHUNK_SIZE. destruct (Z.eqb_spec i 0); lia. }
  assert (qrepr q1 [] []) as R1.
  { rewrite Eq1. rewrite <- Ha in R. eapply qrepr_same; [..|exact R]; by rewrite <- Ha. }
  eapply wp_mono; [apply (allocChunk_spec n _ []); [q_same R1|done|..]|].
  - state_simpl. rewrite Eq1. cbn. unfold u32. rewrite uwrap_small by (unfold in_u; lia). exact Hle.
  - rewrite Eq1. cbn. lia.
  - cbn beta. intros _ q2 (R2 & _ & Hf & Hd & Hb). wp_pure.
    revert R2 Hf Hd Hb. rewrite Eq1. unfold frame_of, dyn_of. state_simpl.
    intros R2 [= F1 F2 F3 F4 F5] [= D1 D2 D3] Hb.
    assert (mFirstFree q2 ≠ 0) as Hff.
    { pose proof (q_free _ _ _ R2) as Hc. destruct (Z.to_nat n) eqn:En; [lia|]. cbn in Hc. lia. }
    rewrite (proj2 (Z.eqb_neq _ _) Hff). split; [done|].
    eexists [], _. split; [exact R2|..]; cbn [created aitems afree atokens aunb amax achunk aroom acur acalls at_cursor];
      try done; [apply length_addrs| |].
    + unfold or_default. fold n. lia.
    + unfold or_default, WOMBAT_QUEUE_CHUNK_SIZE. destruct (Z.eqb_spec g 0); lia.
Qed.

(** ** Theorems *)


Definition demo_queue : wombatQueueImpl :=
  mkQueue (<[HEAD := mkItem 0 0 0 TAIL HEAD 0]> (<[TAIL := mkItem 0 0 0 TAIL HEAD 0]> ∅))
    0 0 0 WOMBAT_QUEUE_MAX_SIZE WOMBAT_QUEUE_CHUNK_SIZE HEAD 0 0 FIRST 20000 [].



(** *** Order of delivery *)

Definition is_fifo_cmd (cmd : qcmd) : bool :=
  match cmd with
  | QEnqueue _ _ _ | QDispatch | QTimedDispatch | QPoll | QUnblock | QGetSize | QGetMaxSize => true
  | _ => false
  end.

(** The items whose enqueue was accepted. *)
Fixpoint accepted (cmds : list qcmd) (rs : list reply) : list (Z * Z * Z) :=
  match cmds, rs with
  | QEnqueue cb d c :: cmds', RStatus WOMBAT_QUEUE_OK :: rs' => (cb, d, c) :: accepted cmds' rs'
  | _ :: cmds', _ :: rs' => accepted cmds' rs'
  | _, _ => []
  end.

(** The items some dequeuing call handed out, as (data, closure). *)
Fixpoint handed_out (rs : list reply) : list (Z * Z) :=
  match rs with
  | RItem WOMBAT_QUEUE_OK (Some v) :: rs' => v :: handed_out rs'
  | _ :: rs' => handed_out rs'
  | [] => []
  end.

Definition payload (v : Z * Z * Z) : Z * Z := (v.1.2, v.2).

Lemma astep_fifo a cmd :
  is_fifo_cmd cmd = true ->
  (payload <$> aitems a) ++ (payload <$> accepted [cmd] [(astep a cmd).1]) =
    handed_out [(astep a cmd).1] ++ (payload <$> aitems (astep a cmd).2) /\
  acalls a ++ concat (called_by <$> aitems a) ++ concat (called_by <$> accepted [cmd] [(astep a cmd).1]) =
    acalls (astep a cmd).2 ++ concat (called_by <$> aitems (astep a cmd).2).
Proof.
  intros Hc. destruct cmd; try done; cbn [astep].
  - unfold a_try_insert. destruct (a_full a); cbn; rewrite ?app_nil_r; [done|].
    rewrite take_ge, drop_ge, !fmap_app, concat_app by lia. cbn. by rewrite !app_nil_r.
  - unfold a_dispatch. cbn [a_tokens aunb aitems]. destruct (aunb a); cbn; rewrite ?app_nil_r; [done|].
    destruct (aitems a) as [|[[cb d] c] rest] eqn:E; cbn; rewrite ?E, ?app_nil_r; [done|]. split; [done|].
    by rewrite app_assoc.
  - destruct (atokens a <=? 0); cbn; rewrite ?app_nil_r; [done|].
    unfold a_dispatch. cbn [a_tokens aunb aitems]. destruct (aunb a); cbn; rewrite ?app_nil_r; [done|].
    destruct (aitems a) as [|[[cb d] c] rest] eqn:E; cbn; rewrite ?E, ?app_nil_r; [done|]. split; [done|].
    by rewrite app_assoc.
  - destruct (atokens a <=? 0); cbn; rewrite ?app_nil_r; [done|].
    destruct (aitems a) as [|[[cb d] c] rest] eqn:E; cbn; rewrite ?E, ?app_nil_r; [done|]. split; [done|].
    by rewrite app_assoc.
  - cbn. by rewrite !app_nil_r.
  - cbn. by rewrite !app_nil_r.
  - cbn. by rewrite !app_nil_r.
Qed.

Lemma accepted_cons cmd cmds r rs :
  accepted (cmd :: cmds) (r :: rs) = accepted [cmd] [r] ++ accepted cmds rs.
Proof. destruct cmd; try done. destruct r as [[]| | |]; done. Qed.
Lemma handed_out_cons r rs : handed_out (r :: rs) = handed_out [r] ++ handed_out rs.
Proof. destruct r as [| [] []| |]; done. Qed.

Lemma arun_fifo a cmds :
  forallb is_fifo_cmd cmds = true ->
  (payload <$> aitems a) ++ (payload <$> accepted cmds (arun a cmds).1) =
    handed_out (arun a cmds).1 ++ (payload <$> aitems (arun a cmds).2) /\
  acalls a ++ concat (called_by <$> aitems a) ++ concat (called_by <$> accepted cmds (arun a cmds).1) =
    acalls (arun a cmds).2 ++ concat (called_by <$> aitems (arun a cmds).2).
Proof.
  revert a. induction cmds as [|cmd cmds IH]; intros a Hc; cbn [arun fst snd].
  - cbn. by rewrite !app_nil_r.
  - cbn in Hc. apply andb_true_iff in Hc as [Hc1 Hc2].
    destruct (astep_fifo a cmd Hc1) as [E1 E2]. destruct (IH (astep a cmd).2 Hc2) as [E3 E4].
    rewrite accepted_cons, handed_out_cons, !fmap_app, concat_app. split.
    + rewrite app_assoc, E1, <- !app_assoc, E3. done.
    + rewrite <- E4. rewrite (app_assoc (concat _) (concat _) (concat _)), (app_assoc (acalls a)), E2.
      by rewrite <- app_assoc.
Qed.

(** C4: first in, first out, unless a poll takes the token of an unblock.  In
    every run of a new queue (its first chunk within the maximum and in memory) made
    of enqueues, dispatches, timed dispatches, polls and unblocks in which enqueues find memory, dispatches find a token (they would
    wait) and no poll takes a token while the queue is empty (the token of an
    unblock; [poll_after_unblock_loses_item] shows how an item is lost then), the
    items handed out are a prefix of the accepted ones, in order, each exactly
    once; what is left is in the queue; and the callbacks that ran are those of the
    items handed out, in that order. *)
Theorem queue_delivers_in_order lim m i g q cmds :
  wombatQueue_allocate lim = Some q -> good_args lim m i g ->
  alegal_run (created lim m i g) cmds = true -> forallb is_fifo_cmd cmds = true ->
  wp (wombatQueue_create true m i g ;; run_qcmds cmds) q (fun rs q' =>
    exists ls fl rest, qrepr q' ls fl /\ content (qmem q') <$> ls = Some <$> rest /\
      payload <$> accepted cmds rs = handed_out rs ++ (payload <$> rest) /\
      concat (called_by <$> accepted cmds rs) = calls q' ++ concat (called_by <$> rest)).
Proof.
  intros Ha Hg Hl Hf. apply wp_bind. eapply wp_mono; [by eapply create_sim|]. cbn beta.
  intros r q1 [_ S]. eapply wp_mono; [by apply sim_run|]. cbn beta.
  intros rs q2 (-> & ls & fl & S2). destruct (arun_fifo (created lim m i g) cmds Hf) as [E1 E2].
  exists ls, fl, (aitems (arun (created lim m i g) cmds).2).
  rewrite (s_calls _ _ _ _ S2). split_and!; [apply S2|apply S2|exact E1|exact E2].
Qed.

(** *** Where the code is not what wombat/queue.h says *)

Definition replies (cmds : list qcmd) (m : Z) : option (list reply) :=
  value_of ((wombatQueue_create true m 2 2 ;; run_qcmds cmds) demo_queue).

(** A maximum of 5 with chunks of 2 holds 4 items, where 6 are documented. *)
Example max_size_rounds_down :
  replies [QEnqueue 1 1 1; QEnqueue 1 2 2; QEnqueue 1 3 3; QEnqueue 1 4 4; QEnqueue 1 5 5; QGetMaxSize] 5 =
  Some [RStatus WOMBAT_QUEUE_OK; RStatus WOMBAT_QUEUE_OK; RStatus WOMBAT_QUEUE_OK; RStatus WOMBAT_QUEUE_OK; RStatus WOMBAT_QUEUE_FULL;
        RNum WOMBAT_QUEUE_OK 5].
Proof. vm_compute. reflexivity. Qed.

(** At the end, next moves the iterator to the last item, so that the previous one
    is the item before it. *)
Example next_at_end_moves :
  replies [QEnqueue 1 1 1; QEnqueue 1 2 2; QEnd; QPrev; QEnd; QNext; QPrev] 4 =
  Some [RStatus WOMBAT_QUEUE_OK; RStatus WOMBAT_QUEUE_OK; RStatus WOMBAT_QUEUE_OK; RItem WOMBAT_QUEUE_OK (Some (2, 2));
        RStatus WOMBAT_QUEUE_OK; RItem WOMBAT_QUEUE_END (Some (0, 0)); RItem WOMBAT_QUEUE_OK (Some (1, 1))].
Proof. vm_compute. reflexivity. Qed.

(** With the iterator at the end, an insertion after it goes to the front, and the
    iterator with it. *)
Example insert_after_at_end :
  replies [QEnqueue 1 1 1; QEnd; QInsertAfter 1 9 9; QNext; QNext] 4 =
  Some [RStatus WOMBAT_QUEUE_OK; RStatus WOMBAT_QUEUE_OK; RStatus WOMBAT_QUEUE_OK; RItem WOMBAT_QUEUE_OK (Some (9, 9));
        RItem WOMBAT_QUEUE_OK (Some (1, 1))].
Proof. vm_compute. reflexivity. Qed.

Definition fifo_cmds : list qcmd :=
  [QEnqueue 1 10 100; QEnqueue 2 20 200; QPoll; QEnqueue 3 30 300; QUnblock; QDispatch; QDispatch].

Lemma queue_delivers_in_order_witness :
  wp (wombatQueue_create true 4 2 2 ;; run_qcmds fifo_cmds) demo_queue (fun rs q' =>
    exists ls fl rest, qrepr q' ls fl /\ content (qmem q') <$> ls = Some <$> rest /\
      payload <$> accepted fifo_cmds rs = handed_out rs ++ (payload <$> rest) /\
      concat (called_by <$> accepted fifo_cmds rs) = calls q' ++ concat (called_by <$> rest)).
Proof.
  apply (queue_delivers_in_order 20000);
    [reflexivity|apply (bool_decide_unpack _); vm_compute; exact I|reflexivity..].
Defined.

(** *** Capacity *)

Definition is_plain_cmd (cmd : qcmd) : bool :=
  match cmd with
  | QEnqueue _ _ _ | QDispatch | QTimedDispatch | QPoll | QFlush | QGetSize | QGetMaxSize => true
  | _ => false
  end.

(** One token per item, and no more slots than the maximum. *)
Definition plain_inv (mx ch : Z) (a : aqueue) : Prop :=
  atokens a = Z.of_nat (length (aitems a)) /\ aunb a = false /\ amax a = mx /\ achunk a = ch /\
  Z.of_nat (length (aitems a)) + Z.of_nat (afree a) <= mx /\ 1 <= ch /\ mx + ch < 2 ^ 32.

Lemma plain_inv_pop mx ch a v rest called :
  plain_inv mx ch a -> aitems a = v :: rest ->
  plain_inv mx ch (a_pop (a_tokens a (atokens a - 1)) rest called).
Proof.
  unfold plain_inv. intros (H1 & H2 & H3 & H4 & H5 & H6 & H7) E. rewrite E in *.
  cbn [a_pop a_tokens aitems afree atokens aunb amax achunk length] in *. split_and!; (done || lia).
Qed.

Lemma plain_inv_step mx ch a cmd :
  is_plain_cmd cmd = true -> plain_inv mx ch a -> alegal a cmd = true -> plain_inv mx ch (astep a cmd).2.
Proof.
  intros Hc Hinv Hl. pose proof Hinv as (H1 & H2 & H3 & H4 & H5 & H6 & H7).
  assert (forall f, 0 < atokens a ->
    plain_inv mx ch (match aitems a with [] => a | v :: rest => a_pop (a_tokens a (atokens a - 1)) rest (f v) end)) as Hpop.
  { intros f Ht. destruct (aitems a) as [|v rest] eqn:E; [done|]. by eapply plain_inv_pop. }
  destruct cmd; try done; cbn [astep alegal] in *.
  - unfold a_try_insert, a_full. destruct (afree a) as [|n] eqn:Ef; cbn.
    + destruct (Z.ltb_spec (amax a) (u32 (atokens a + achunk a))) as [Hlt|Hlt]; cbn.
      * unfold plain_inv. cbn. rewrite Ef in *. done.
      * unfold u32 in Hlt. rewrite uwrap_small in Hlt by (unfold in_u; lia).
        unfold plain_inv. cbn. rewrite Ef, length_app, length_take, length_cons, length_drop. split_and!; (done || lia).
    + unfold plain_inv. cbn. rewrite Ef, length_app, length_take, length_cons, length_drop. split_and!; (done || lia).
  - apply Z.ltb_lt in Hl. unfold a_dispatch. cbn [a_tokens aunb aitems]. rewrite H2.
    destruct (aitems a) as [|v rest] eqn:E; [cbn in H1; lia|]. by eapply plain_inv_pop.
  - destruct (Z.leb_spec (atokens a) 0); [done|]. unfold a_dispatch. cbn [a_tokens aunb aitems]. rewrite H2.
    destruct (aitems a) as [|v rest] eqn:E; [cbn in H1; lia|]. by eapply plain_inv_pop.
  - destruct (Z.leb_spec (atokens a) 0); [done|]. destruct (aitems a) as [|v rest] eqn:E; [done|].
    by eapply plain_inv_pop.
  - destruct (Z.leb_spec (atokens a) 0); [done|]. destruct (aitems a) as [|v rest] eqn:E; [done|].
    by eapply plain_inv_pop.
Qed.

Lemma plain_inv_run mx ch a cmds :
  forallb is_plain_cmd cmds = true -> plain_inv mx ch a -> alegal_run a cmds = true ->
  plain_inv mx ch (arun a cmds).2.
Proof.
  revert a. induction cmds as [|cmd cmds IH]; intros a Hc Hi Hl; cbn in *; [done|].
  apply andb_true_iff in Hc as [Hc1 Hc2]. apply andb_true_iff in Hl as [Hl1 Hl2].
  apply IH; [done| |done]. by apply plain_inv_step.
Qed.

(** Whether the next enqueue is refused. *)
Lemma enqueue_full_iff q a ls fl cb d c :
  qsim_at q a ls fl ->
  value_of (wombatQueue_enqueue cb d c q) = Some WOMBAT_QUEUE_FULL <->
  fl = [] /\ mMaxSize q < u32 (mSem q + mChunkSize q).
Proof.
  intros S. split.
  - intros H. destruct (a_full a) eqn:Ef; [by apply (sim_full S)|]. exfalso.
    destruct (a_has_room a) eqn:Er.
    + pose proof (enqueue_spec _ _ _ cb d c (s_repr _ _ _ _ S) (sim_can_grow S Ef Er)) as Hw.
      apply wp_elim in Hw as (r & q' & E & -> & _). rewrite E in H. done.
    + unfold a_has_room, a_full in *. destruct S as [R Hi Hfr Ht Hu Hm Hch Hr _ Hca Hlk Hp].
      rewrite <- Hfr in *. destruct fl; [|done]. cbn in *. rewrite Ef in Er. cbn in Er.
      apply Z.ltb_ge in Ef. apply Z.leb_gt in Er.
      rewrite (enqueue_nomem q ls) in H; [done|done|..]; rewrite ?Ht, ?Hch, ?Hm; lia.
  - intros [-> Hm]. pose proof (enqueue_full _ _ cb d c (s_repr _ _ _ _ S) Hm) as Hw.
    apply wp_elim in Hw as (r & q' & E & -> & _). by rewrite E.
Qed.

(** capacity.  Whatever sequence of enqueues, dispatches, timed dispatches,
    polls and flushes ran on a queue created with maximum [mx] and growth [ch]
    (with [mx + ch] in 32 bits), the items in the queue and on the free list
    together never exceed [mx], [wombatQueue_getSize] is exactly the number of
    items, and the next enqueue answers [WOMBAT_QUEUE_FULL] exactly when no slot
    is free and a chunk more would exceed [mx]. *)
Theorem queue_capacity lim m i g q cmds :
  let mx := or_default m WOMBAT_QUEUE_MAX_SIZE in
  let ch := or_default g WOMBAT_QUEUE_CHUNK_SIZE in
  wombatQueue_allocate lim = Some q -> good_args lim m i g -> mx + ch < 2 ^ 32 ->
  alegal_run (created lim m i g) cmds = true -> forallb is_plain_cmd cmds = true ->
  wp (wombatQueue_create true m i g ;; run_qcmds cmds) q (fun rs q' =>
    exists ls fl, qrepr q' ls fl /\
      Z.of_nat (length ls) + Z.of_nat (length fl) <= mx /\
      value_of (wombatQueue_getSize q') = Some (WOMBAT_QUEUE_OK, Z.of_nat (length ls)) /\
      (forall cb d c, value_of (wombatQueue_enqueue cb d c q') = Some WOMBAT_QUEUE_FULL <->
                      fl = [] /\ mx < Z.of_nat (length ls) + ch)).
Proof.
  intros mx ch Ha Hg Hw Hl Hp. apply wp_bind. eapply wp_mono; [by eapply create_sim|]. cbn beta.
  intros r q1 [_ S]. eapply wp_mono; [by apply sim_run|]. cbn beta.
  intros rs q2 (-> & ls & fl & S2).
  assert (plain_inv mx ch (created lim m i g)) as Hinv.
  { destruct Hg as (G1 & G2 & G3 & G4 & G5). unfold plain_inv, created. cbn. fold mx ch.
    unfold mx, ch, or_default, WOMBAT_QUEUE_CHUNK_SIZE, WOMBAT_QUEUE_MAX_SIZE in *.
    destruct (Z.eqb_spec m 0), (Z.eqb_spec i 0), (Z.eqb_spec g 0); split_and!; lia || done. }
  pose proof (plain_inv_run _ _ _ _ Hp Hinv Hl) as (H1 & H2 & H3 & H4 & H5 & H6 & H7).
  pose proof (sim_length S2) as Hlen. exists ls, fl.
  split_and!; [apply S2|rewrite Hlen, (s_free _ _ _ _ S2); done|..].
  - change (Some (WOMBAT_QUEUE_OK, mSem q2) = Some (WOMBAT_QUEUE_OK, Z.of_nat (length ls))).
    by rewrite (s_tokens _ _ _ _ S2), H1, Hlen.
  - intros cb d c. rewrite (enqueue_full_iff _ _ _ _ cb d c S2).
    rewrite (s_max _ _ _ _ S2), (s_tokens _ _ _ _ S2), (s_chunk _ _ _ _ S2), H1, H3, H4, <- Hlen.
    unfold u32. rewrite uwrap_small by (unfold in_u; lia). done.
Qed.

Lemma queue_capacity_witness :
  wp (wombatQueue_create true 4 2 2 ;; run_qcmds [QEnqueue 1 10 100; QEnqueue 2 20 200; QEnqueue 3 30 300; QPoll; QFlush])
    demo_queue (fun rs q' =>
    exists ls fl, qrepr q' ls fl /\
      Z.of_nat (length ls) + Z.of_nat (length fl) <= 4 /\
      value_of (wombatQueue_getSize q') = Some (WOMBAT_QUEUE_OK, Z.of_nat (length ls)) /\
      (forall cb d c, value_of (wombatQueue_enqueue cb d c q') = Some WOMBAT_QUEUE_FULL <->
                      fl = [] /\ 4 < Z.of_nat (length ls) + 2)).
Proof.
  apply (queue_capacity 20000 4 2 2);
    [reflexivity|apply (bool_decide_unpack _); vm_compute; exact I|reflexivity..].
Defined.

(** *** Concurrent dispatchers

    A dequeuing thread takes its token before it takes the lock.  Between the
    two, other threads run.  The state is the queue with the number of
    dispatchers and of pollers that hold a token and wait for the lock; each
    rule is one thread's passage through the lock or the semaphore. *)

Definition cstate : Type := wombatQueueImpl * nat * nat.

Inductive cstep : cstate -> cstate -> Prop :=
| c_enqueue q q' nd np cb d c r :
    wombatQueue_enqueue cb d c q = Ok (r, q') -> cstep (q, nd, np) (q', nd, np)
| c_dispatch_wait q q' nd np :
    wsem_trywait q = Ok (true, q') -> cstep (q, nd, np) (q', S nd, np)
| c_dispatch q q' nd np r :
    dispatch_locked q = Ok (r, q') -> cstep (q, S nd, np) (q', nd, np)
| c_poll_wait q q' nd np :
    wsem_trywait q = Ok (true, q') -> cstep (q, nd, np) (q', nd, S np)
| c_poll q q' nd np r :
    poll_locked q = Ok (r, q') -> cstep (q, nd, S np) (q', nd, np).

(** The tokens in the semaphore and in the threads' hands are the items. *)
Definition tokens_balance (c : cstate) : Prop :=
  exists a ls fl, qsim_at c.1.1 a ls fl /\ aunb a = false /\ 0 <= mSem c.1.1 /\
    mSem c.1.1 + Z.of_nat c.1.2 + Z.of_nat c.2 = Z.of_nat (length ls).

Lemma balance_enqueue q a ls fl cb d c r q' :
  qsim_at q a ls fl -> aunb a = false -> wombatQueue_enqueue cb d c q = Ok (r, q') ->
  exists a' ls' fl', qsim_at q' a' ls' fl' /\ aunb a' = false /\
    mSem q' - Z.of_nat (length ls') = mSem q - Z.of_nat (length ls) /\ mSem q <= mSem q'.
Proof.
  intros S Hu E. destruct (a_has_room a) eqn:Er.
  - pose proof (sim_enqueue q a cb d c) as Hs. unfold simulates in Hs. apply wp_elim in Hs; [|by exists ls, fl|done].
    destruct Hs as (r' & q1 & E1 & -> & S1). cbn [run_qcmd] in E1.
    unfold as_status, mbind, M_bind in E1. rewrite E in E1. injection E1 as Hr Hq. subst q1.
    destruct S1 as (ls' & fl' & S1). cbn [astep] in S1. unfold a_try_insert in S1.
    pose proof (sim_length S) as L0. pose proof (sim_length S1) as L1.
    pose proof (s_tokens _ _ _ _ S) as T0. pose proof (s_tokens _ _ _ _ S1) as T1.
    eexists _, ls', fl'. split; [exact S1|]. rewrite L0, L1, T0, T1.
    destruct (a_full a); cbn; [split_and!; (done || lia)|].
    rewrite length_app, length_take, length_cons, length_drop. split_and!; (done || lia).
  - exfalso. unfold a_has_room, a_full in *. destruct S as [R Hi Hfr Ht _ Hm Hch Hr _ Hca Hlk Hp].
    rewrite <- Hfr in *. destruct fl; [|done]. cbn in *. apply orb_false_iff in Er as [E1 E2].
    apply Z.ltb_ge in E1. apply Z.leb_gt in E2.
    rewrite (enqueue_nomem q ls) in E; [done|done|..]; rewrite ?Ht, ?Hch, ?Hm; lia.
Qed.

(** With a token in hand the queue is not empty, and both dequeuing paths take
    its front item. *)
Lemma balance_pop q a ls fl (m : QM qresult) :
  qsim_at q a ls fl -> aunb a = false -> 0 < Z.of_nat (length ls) - mSem q ->
  0 <= mSem q -> m = dispatch_locked \/ m = poll_locked ->
  exists q' v a' ls' fl', m q = Ok ((WOMBAT_QUEUE_OK, Some (payload v)), q') /\
    head (aitems a) = Some v /\ qsim_at q' a' ls' fl' /\ aunb a' = false /\
    mSem q' = mSem q /\ S (length ls') = length ls.
Proof.
  intros Sm Hu Hlt H0 Hm. pose proof (sim_length Sm) as Hlen. destruct ls as [|x ls]; [cbn in Hlt; lia|].
  destruct (aitems a) as [|v rest] eqn:Ei; [done|].
  destruct (sim_content Sm 0 x eq_refl) as ([[cb d] c] & Hv & Hc). rewrite Ei in Hv. injection Hv as ->.
  assert (wp m q (fun r q' => r = (WOMBAT_QUEUE_OK, Some (d, c)) /\ popped q q' x ls fl /\
    calls q' = calls q ++ (if cb =? 0 then [] else [(cb, d, c)]))) as Hw.
  { pose proof (s_unb _ _ _ _ Sm) as U. rewrite Hu in U. destruct Hm as [-> | ->];
      [eapply dispatch_locked_spec|eapply poll_locked_spec]; (apply Sm || exact Hc || done). }
  apply wp_elim in Hw as (r & q' & E & -> & Hp & Hcl).
  destruct (qsim_pop Sm _ _ _ _ _ _ eq_refl Ei Hp Hcl) as (ls' & fl' & S').
  exists q', (cb, d, c). eexists _, ls', fl'. split_and!; [exact E|done|exact S'|done|by destruct Hp as (_ & _ & _ & ? & _)|].
  pose proof (sim_length S') as L. cbn in L. cbn in Hlen |- *. lia.
Qed.

Lemma trywait_taken q q' :
  wsem_trywait q = Ok (true, q') -> 0 < mSem q /\ q' = set_mSem (mSem q - 1) q.
Proof.
  unfold wsem_trywait. destruct (Z.ltb_spec 0 (mSem q)); [|done]. intros [= <-]. done.
Qed.

Lemma balance_step c c' : tokens_balance c -> cstep c c' -> tokens_balance c'.
Proof.
  intros (a & ls & fl & Sm & Hu & H0 & Hb) Hs.
  inv Hs as [q q' nd np cb d cl r E|q q' nd np E|q q' nd np r E|q q' nd np E|q q' nd np r E]; cbn in *.
  - destruct (balance_enqueue _ _ _ _ _ _ _ _ _ Sm Hu E) as (a' & ls' & fl' & S' & Hu' & Hl & Hge).
    exists a', ls', fl'. cbn. split_and!; [done|done|lia|lia].
  - apply trywait_taken in E as [Hp ->]. eexists _, ls, fl.
    split_and!; [apply (sim_tokens Sm)|done|cbn; lia|cbn; lia].
  - destruct (balance_pop q a ls fl dispatch_locked Sm Hu) as (q1 & v & a' & ls' & fl' & E1 & _ & S' & Hu' & Es & El);
      [lia|done|by left|].
    rewrite E1 in E. injection E as _ <-. exists a', ls', fl'. cbn. split_and!; [done|done|lia|lia].
  - apply trywait_taken in E as [Hp ->]. eexists _, ls, fl.
    split_and!; [apply (sim_tokens Sm)|done|cbn; lia|cbn; lia].
  - destruct (balance_pop q a ls fl poll_locked Sm Hu) as (q1 & v & a' & ls' & fl' & E1 & _ & S' & Hu' & Es & El);
      [lia|done|by right|].
    rewrite E1 in E. injection E as _ <-. exists a', ls', fl'. cbn. split_and!; [done|done|lia|lia].
Qed.

(** C5: concurrent dispatchers and pollers are safe.  Start from a new queue and
    interleave enqueues with any number of threads that dispatch and poll, each
    taking its token and the lock in two separate steps.  At every reachable
    point the queue is well formed; a thread that holds a token finds an item,
    so its locked section returns it and never unlinks a dummy; and with no
    token in a thread's hand [wombatQueue_getSize] counts the items. *)
Theorem concurrent_dequeue_safe lim m i g q q1 r c :
  wombatQueue_allocate lim = Some q -> good_args lim m i g ->
  wombatQueue_create true m i g q = Ok (r, q1) ->
  rtc cstep (q1, O, O) c ->
  exists ls fl, qrepr c.1.1 ls fl /\
    mSem c.1.1 + Z.of_nat c.1.2 + Z.of_nat c.2 = Z.of_nat (length ls) /\
    ((0 < c.1.2)%nat -> exists v q', dispatch_locked c.1.1 = Ok ((WOMBAT_QUEUE_OK, Some v), q')) /\
    ((0 < c.2)%nat -> exists v q', poll_locked c.1.1 = Ok ((WOMBAT_QUEUE_OK, Some v), q')).
Proof.
  intros Ha Hg Hc Hr.
  assert (tokens_balance (q1, O, O)) as H0.
  { pose proof (create_sim _ _ _ _ _ Ha Hg) as Hw. apply wp_elim in Hw as (r' & q1' & E & -> & S).
    rewrite E in Hc. injection Hc as _ <-. destruct S as (ls & fl & S). exists (created lim m i g), ls, fl.
    pose proof (sim_length S) as Hl. pose proof (s_tokens _ _ _ _ S) as Ht. cbn in Hl, Ht |- *.
    rewrite Hl, Ht. done. }
  assert (tokens_balance c) as (a & ls & fl & Sm & Hu & Hge & Hb).
  { clear -H0 Hr. induction Hr as [|x y z Hxy Hyz IH]; [done|]. apply IH. by eapply balance_step. }
  exists ls, fl. split_and!; [apply Sm|done|..]; intros Hn.
  - destruct (balance_pop _ _ _ _ dispatch_locked Sm Hu) as (q' & v & ? & ? & ? & E & _); [lia|done|by left|eauto].
  - destruct (balance_pop _ _ _ _ poll_locked Sm Hu) as (q' & v & ? & ? & ? & E & _); [lia|done|by right|eauto].
Qed.

(** A run of the step relation by two threads, for the witness. *)
Definition after (m : QM qresult) (q : wombatQueueImpl) : wombatQueueImpl := default q (state_of (m q)).
Definition after_create : wombatQueueImpl :=
  default demo_queue (state_of (wombatQueue_create true 4 2 2 demo_queue)).
Definition after_enqueue (d : Z) (q : wombatQueueImpl) : wombatQueueImpl :=
  default q (state_of (wombatQueue_enqueue 7 d 9 q)).

Lemma concurrent_dequeue_safe_witness :
  let q2 := after_enqueue 11 (after_enqueue 10 after_create) in
  let q4 := set_mSem 0 (set_mSem 1 q2) in
  let c : cstate := (q4, 1%nat, 1%nat) in
  exists ls fl, qrepr c.1.1 ls fl /\
    mSem c.1.1 + Z.of_nat c.1.2 + Z.of_nat c.2 = Z.of_nat (length ls) /\
    ((0 < c.1.2)%nat -> exists v q', dispatch_locked c.1.1 = Ok ((WOMBAT_QUEUE_OK, Some v), q')) /\
    ((0 < c.2)%nat -> exists v q', poll_locked c.1.1 = Ok ((WOMBAT_QUEUE_OK, Some v), q')).
Proof.
  intros q2 q4 c.
  apply (concurrent_dequeue_safe 20000 4 2 2 demo_queue after_create WOMBAT_QUEUE_OK);
    [reflexivity|apply (bool_decide_unpack _); vm_compute; exact I|vm_compute; reflexivity|].
  eapply rtc_l; [apply (c_enqueue _ (after_enqueue 10 after_create) _ _ 7 10 9 WOMBAT_QUEUE_OK); vm_compute; reflexivity|].
  eapply rtc_l; [apply (c_enqueue _ q2 _ _ 7 11 9 WOMBAT_QUEUE_OK); vm_compute; reflexivity|].
  eapply rtc_l; [apply (c_dispatch_wait _ (set_mSem 1 q2)); vm_compute; reflexivity|].
  eapply rtc_l; [apply (c_poll_wait _ q4); vm_compute; reflexivity|]. apply rtc_refl.
Defined.

(** *** Calls that break the queue *)

(** The front dummy's successor on an empty queue. *)
Lemma empty_ring q fl : qrepr q [] fl ->
  nxt (qmem q) HEAD = Some TAIL /\ prv (qmem q) TAIL = Some HEAD /\
  is_Some (qmem q !! HEAD) /\ is_Some (qmem q !! TAIL).
Proof.
  intros R. destruct (q_ring _ _ _ R) as (H1 & H2 & _). split_and!; eauto with mama.
Qed.

(** [wombatQueue_poll] with a token but no item: the tail dummy goes on the
    free list. *)
Lemma poll_locked_empty q fl :
  qrepr q [] fl ->
  wp poll_locked q (fun r q' => r.1 = WOMBAT_QUEUE_OK /\ mFirstFree q' = TAIL /\
    nxt (qmem q') HEAD = Some TAIL /\ prv (qmem q') TAIL = Some HEAD /\
    nxt (qmem q') TAIL = Some (mFirstFree q) /\ mUnblocking q' = mUnblocking q /\ mSem q' = mSem q).
Proof.
  intros R. destruct (empty_ring _ _ R) as (H1 & H2 & [ih Hh] & [it Ht]).
  pose proof (q_tail _ _ _ R) as H3. assert (HEAD ≠ TAIL) by done. assert (TAIL ≠ HEAD) by done.
  unfold poll_locked, WQ_REMOVE. wp_queue. try apply wp_bind.
  destruct (content (qmem q) TAIL) as [[[cb d] c]|] eqn:Ec; [|unfold content in Ec; by rewrite Ht in Ec].
  eapply wp_ld_item; [state_simpl; autorewrite with linked; exact Ec|]. intros i _ _ _. wp_queue.
  eapply wp_mono; [apply invoke_spec|]. cbn beta. intros _ q' ->. wp_queue. state_simpl.
  split_and!; mem_solve.
Qed.

(** An enqueue after that reuses the tail dummy as the item. *)
Lemma enqueue_on_tail q f cb d c :
  mFirstFree q = TAIL -> nxt (qmem q) HEAD = Some TAIL -> prv (qmem q) TAIL = Some HEAD ->
  nxt (qmem q) TAIL = Some f ->
  wp (wombatQueue_enqueue cb d c) q (fun r q' => r = WOMBAT_QUEUE_OK /\
    nxt (qmem q') HEAD = Some TAIL /\ nxt (qmem q') TAIL = Some TAIL /\ prv (qmem q') TAIL = Some TAIL).
Proof.
  intros Hf H1 H2 H3. assert (HEAD ≠ TAIL) by done. assert (TAIL ≠ HEAD) by done.
  assert (is_Some (qmem q !! TAIL)) by eauto with mama.
  unfold wombatQueue_enqueue, take_free. wp_queue. rewrite Hf. change (TAIL =? 0) with false.
  cbn iota. wp_queue. change (TAIL =? 0) with false. cbn iota. wp_queue.
  apply wp_st_content; [state_simpl; eauto with mama|]. wp_queue. change (TAIL =? 0) with false. cbn iota.
  wp_queue. split_and!; mem_solve.
Qed.

(** a poll that consumes the token of an unblock corrupts the queue.
    [wombatQueue_poll] does not look at [mUnblocking] or at the end of the
    queue; on an empty queue with a pending [wombatQueue_unblock] it unlinks the
    tail dummy and puts it on the free list.  The next enqueue answers OK but
    stores its item in the tail dummy itself: the queue then looks empty, and no
    dispatcher ever finds the item. *)
Theorem poll_after_unblock_loses_item q fl cb d c :
  qrepr q [] fl -> 0 <= mSem q ->
  wp (wombatQueue_unblock ;; p ← wombatQueue_poll; r ← wombatQueue_enqueue cb d c; mret (p.1, r)) q
    (fun x q' => x = (WOMBAT_QUEUE_OK, WOMBAT_QUEUE_OK) /\ nxt (qmem q') HEAD = Some TAIL /\
      prv (qmem q') TAIL = Some TAIL /\
      value_of (dispatch_locked (set_mUnblocking 0 q')) = Some (WOMBAT_QUEUE_OK, None)).
Proof.
  intros R H0. unfold wombatQueue_unblock. wp_queue. unfold wombatQueue_poll. wp_pure.
  apply wp_trywait. cbn [mSem]. rewrite (proj2 (Z.ltb_lt 0 (mSem q + 1))) by lia. cbn [negb].
  eapply wp_mono; [apply (poll_locked_empty _ fl); q_same R|]. cbn beta.
  intros p q1 (Hp & Hf & H1 & H2 & H3 & _). apply wp_bind.
  eapply wp_mono; [by eapply enqueue_on_tail|]. cbn beta. intros r q2 (-> & Q1 & Q2 & Q3).
  apply wp_ret. rewrite Hp. split_and!; [done..|].
  assert (wp dispatch_locked (set_mUnblocking 0 q2) (fun r _ => r = (WOMBAT_QUEUE_OK, None))) as Hw.
  { unfold dispatch_locked. wp_queue. cbn [negb Z.eqb]. wp_queue. rewrite Z.eqb_refl. by wp_queue. }
  apply wp_elim in Hw as (r & q3 & E & ->).
  change (value_of (dispatch_locked (set_mUnblocking 0 q2)) = Some (WOMBAT_QUEUE_OK, None)). by rewrite E.
Qed.

Lemma poll_after_unblock_loses_item_witness :
  wp (wombatQueue_unblock ;; p ← wombatQueue_poll; r ← wombatQueue_enqueue 1 2 3; mret (p.1, r)) after_create
    (fun x q' => x = (WOMBAT_QUEUE_OK, WOMBAT_QUEUE_OK) /\ nxt (qmem q') HEAD = Some TAIL /\
      prv (qmem q') TAIL = Some TAIL /\
      value_of (dispatch_locked (set_mUnblocking 0 q')) = Some (WOMBAT_QUEUE_OK, None)).
Proof.
  destruct (wp_elim (wombatQueue_create true 4 2 2) demo_queue
    (fun r q' => r = WOMBAT_QUEUE_OK /\ qsim q' (created 20000 4 2 2))) as [Hw _].
  destruct Hw as (r & q' & E & _ & ls & fl & Sm).
  { apply create_sim; [reflexivity|apply (bool_decide_unpack _); vm_compute; exact I]. }
  unfold after_create. rewrite E. cbn [state_of default]. pose proof (sim_length Sm) as Hl.
  destruct ls; [|done]. apply (poll_after_unblock_loses_item _ fl); [apply Sm|].
  pose proof (s_tokens _ _ _ _ Sm) as Ht. cbn in Ht |- *. lia.
Defined.

(** [wombatQueue_remove] takes the item the cursor is on out of the queue
    but leaves its token in the semaphore, so [wombatQueue_getSize] counts one
    item too many from then on. *)
Theorem remove_leaves_token q a ls fl i :
  qsim_at q a ls fl -> acur a = At i ->
  wp wombatQueue_remove q (fun r q' => r.1 = WOMBAT_QUEUE_OK /\ exists ls' fl', qrepr q' ls' fl' /\
    S (length ls') = length ls /\
    value_of (wombatQueue_getSize q') = value_of (wombatQueue_getSize q)).
Proof.
  intros Sm Hk. pose proof (s_cur _ _ _ _ Sm) as Hc. rewrite Hk in Hc. cbn in Hc.
  destruct (sim_content Sm i _ Hc) as ([[cb d] cl] & Hv & Hcon).
  pose proof (lookup_split _ _ _ Hc) as E. pose proof (s_repr _ _ _ _ Sm) as R. rewrite E in R.
  eapply wp_mono; [eapply q_remove_spec; [exact R|done|exact Hcon]|]. cbn beta.
  intros r q' (-> & R' & _ & _ & Hs & _). split; [done|]. eexists _, _. split; [exact R'|]. split.
  - apply lookup_lt_Some in Hc. rewrite length_app, length_take, length_drop. lia.
  - change (Some (WOMBAT_QUEUE_OK, mSem q') = Some (WOMBAT_QUEUE_OK, mSem q)). by rewrite Hs.
Qed.

Lemma remove_leaves_token_witness :
  exists q ls, wp wombatQueue_remove q (fun r q' => r.1 = WOMBAT_QUEUE_OK /\ exists ls' fl', qrepr q' ls' fl' /\
    S (length ls') = length (ls : list Z) /\
    value_of (wombatQueue_getSize q') = value_of (wombatQueue_getSize q)).
Proof.
  destruct (wp_elim (wombatQueue_create true 4 2 2 ;; run_qcmds [QEnqueue 1 2 3; QNext]) demo_queue
    (fun _ q' => qsim q' (arun (created 20000 4 2 2) [QEnqueue 1 2 3; QNext]).2)) as [Hw _].
  destruct Hw as (r & q' & E & ls & fl & Sm).
  { apply wp_bind. eapply wp_mono; [apply (create_sim 20000 4 2 2); [reflexivity|apply (bool_decide_unpack _); vm_compute; exact I]|].
    cbn beta. intros r q1 [_ S]. eapply wp_mono; [apply sim_run; [exact S|reflexivity]|]. by intros ? ? [_ ?]. }
  exists q', ls. apply (remove_leaves_token _ _ _ _ 0%nat Sm). reflexivity.
Defined.

(** [wombatQueue_flush] removes one item, not each item: on a queue with
    [v :: rest] it hands out [v] alone and leaves [rest] queued. *)
Theorem flush_takes_one q a v rest :
  qsim q a -> 0 < atokens a -> aitems a = v :: rest ->
  wp wombatQueue_flush q (fun r q' => r = (WOMBAT_QUEUE_OK, [payload v]) /\
    exists a', qsim q' a' /\ aitems a' = rest).
Proof.
  intros Sm Ht Ei. pose proof (sim_flush q a Sm) as H. cbn [alegal] in H. rewrite Ei in H.
  assert (simulates (run_qcmd QFlush) q (astep a QFlush)) as Hs by (apply H; by rewrite orb_true_r).
  unfold simulates in Hs. cbn [run_qcmd astep] in Hs. rewrite (proj2 (Z.leb_gt _ _) Ht), Ei in Hs.
  apply wp_elim in Hs as (r & q' & E & -> & Sm'). unfold mbind, M_bind in E. unfold wp.
  destruct (wombatQueue_flush q) as [[[st l] q2]|f]; [|done]. injection E as -> -> ->.
  split; [done|]. eexists. split; [exact Sm'|done].
Qed.

Lemma flush_takes_one_witness :
  exists q, wp wombatQueue_flush q (fun r q' => r = (WOMBAT_QUEUE_OK, [payload (1, 2, 3)]) /\
    exists a', qsim q' a' /\ aitems a' = [(4, 5, 6)]).
Proof.
  destruct (wp_elim (wombatQueue_create true 4 2 2 ;; run_qcmds [QEnqueue 1 2 3; QEnqueue 4 5 6]) demo_queue
    (fun _ q' => qsim q' (arun (created 20000 4 2 2) [QEnqueue 1 2 3; QEnqueue 4 5 6]).2)) as [Hw _].
  destruct Hw as (r & q' & E & Sm).
  { apply wp_bind. eapply wp_mono; [apply (create_sim 20000 4 2 2); [reflexivity|apply (bool_decide_unpack _); vm_compute; exact I]|].
    cbn beta. intros r q1 [_ S]. eapply wp_mono; [apply sim_run; [exact S|reflexivity]|]. by intros ? ? [_ ?]. }
  exists q'. eapply (flush_takes_one _ _ _ _ Sm); reflexivity.
Defined.
