(* ===== verification/Lookup2.v ===== *)
(** * The string hash of [common/c_cpp/src/c/lookup2.c]

    [ub4] is [unsigned long], 64 bits wide on LP64 systems; the arithmetic of
    the hash is modulo 2^64 there. *)

From S2P Require Import Prelude.

Module Lookup2.

(** One line of [mix]: [x -= y; x -= z; x ^= s]. *)
Definition mix_line (x y z s : Z) : Z := Z.lxor (u64 (u64 (x - y) - z)) s.

Definition shr (x n : Z) : Z := Z.shiftr x n.
Definition shl (x n : Z) : Z := u64 (Z.shiftl x n).

(** Three lines; [mix] is nine lines that differ in the shifts. *)
Definition mix_round (p q r : Z) (s : Z * Z * Z) : Z * Z * Z :=
  let '(a, b, c) := s in
  let a := mix_line a b c (shr c p) in
  let b := mix_line b c a (shl a q) in
  let c := mix_line c a b (shr b r) in
  (a, b, c).

Definition mix (s : Z * Z * Z) : Z * Z * Z :=
  mix_round 3 10 15 (mix_round 12 16 5 (mix_round 13 8 13 s)).

(** Four bytes, little end first. *)
Definition word (k0 k1 k2 k3 : Z) : Z :=
  u64 (k0 + Z.shiftl k1 8 + Z.shiftl k2 16 + Z.shiftl k3 24).

(** [case i + 1: x += k[i] << n] of the [switch] on the number of bytes left:
    every case falls through to the next, so it runs when [i] is below it. *)
Definition case_byte (k : list Z) (i : nat) (n x : Z) : Z :=
  match k !! i with Some v => u64 (x + Z.shiftl v n) | None => x end.

Definition whash_tail (k : list Z) (length : Z) (s : Z * Z * Z) : Z :=
  let '(a, b, c) := s in
  (mix (case_byte k 0 0 (case_byte k 1 8 (case_byte k 2 16 (case_byte k 3 24 a))),
        case_byte k 4 0 (case_byte k 5 8 (case_byte k 6 16 (case_byte k 7 24 b))),
        case_byte k 8 8 (case_byte k 9 16 (case_byte k 10 24 (u64 (c + length)))))).2.

(** The [while (len >= 12)] loop and what follows it. *)
Fixpoint whash_loop (k : list Z) (length : Z) (s : Z * Z * Z) : Z :=
  match k with
  | k0 :: k1 :: k2 :: k3 :: k4 :: k5 :: k6 :: k7 :: k8 :: k9 :: k10 :: k11 :: rest =>
      let '(a, b, c) := s in
      whash_loop rest length
        (mix (u64 (a + word k0 k1 k2 k3), u64 (b + word k4 k5 k6 k7), u64 (c + word k8 k9 k10 k11)))
  | _ => whash_tail k length s
  end.

Definition golden : Z := 0x9e3779b9.

Definition whash (k : list Z) (initval : Z) : Z :=
  whash_loop k (Z.of_nat (length k)) (golden, golden, initval).

Definition hashsize (n : Z) : Z := u64 (Z.shiftl 1 n).
Definition hashmask (n : Z) : Z := u64 (hashsize n - 1).

(** The bytes of a C string. *)
Fixpoint bytes_of (s : string) : list Z :=
  match s with
  | EmptyString => []
  | String c s' => Z.of_N (Ascii.N_of_ascii c) :: bytes_of s'
  end.

(** ** [mix] is reversible *)

Definition unmix_line (x' y z s : Z) : Z := u64 (Z.lxor x' s + z + y).

(** [mix] read backwards. *)
Definition unmix_round (p q r : Z) (s : Z * Z * Z) : Z * Z * Z :=
  let '(a, b, c) := s in
  let c := unmix_line c a b (shr b r) in
  let b := unmix_line b c a (shl a q) in
  let a := unmix_line a b c (shr c p) in
  (a, b, c).

Definition unmix (s : Z * Z * Z) : Z * Z * Z :=
  unmix_round 13 8 13 (unmix_round 12 16 5 (unmix_round 3 10 15 s)).

Lemma unmix_mix_line x y z s : in_u 64 x -> unmix_line (mix_line x y z s) y z s = x.
Proof.
  intros Hx. unfold unmix_line, mix_line. rewrite Z.lxor_assoc, Z.lxor_nilpotent, Z.lxor_0_r.
  unfold u64, uwrap. rewrite <- Z.add_assoc, Z.add_mod_idemp_l by lia.
  replace ((x - y) `mod` 2 ^ 64 - z + (z + y)) with ((x - y) `mod` 2 ^ 64 + y) by lia.
  rewrite Z.add_mod_idemp_l by lia. replace (x - y + y) with x by lia. by apply Z.mod_small.
Qed.

Lemma lxor_range x y : in_u 64 x -> in_u 64 y -> in_u 64 (Z.lxor x y).
Proof.
  unfold in_u. intros [Hx1 Hx2] [Hy1 Hy2]. split; [by apply Z.lxor_nonneg|].
  destruct (decide (Z.lxor x y = 0)) as [->|Hn]; [lia|].
  apply Z.log2_lt_pow2; [assert (0 <= Z.lxor x y) by (by apply Z.lxor_nonneg); lia|].
  eapply Z.le_lt_trans; [by apply Z.log2_lxor|].
  apply Z.max_lub_lt.
  - destruct (decide (x = 0)) as [->|]; [done|]. apply Z.log2_lt_pow2; lia.
  - destruct (decide (y = 0)) as [->|]; [done|]. apply Z.log2_lt_pow2; lia.
Qed.

Lemma u64_range z : in_u 64 (u64 z).
Proof. by apply uwrap_range. Qed.

Lemma shr_range x n : 0 <= n -> in_u 64 x -> in_u 64 (shr x n).
Proof.
  unfold in_u, shr. intros Hn [H1 H2]. rewrite Z.shiftr_div_pow2 by done.
  assert (0 < 2 ^ n) by lia. split; [by apply Z.div_pos|].
  apply Z.le_lt_trans with x; [|done]. apply Z.div_le_upper_bound; [lia|]. nia.
Qed.

Lemma mix_line_range x y z s : in_u 64 s -> in_u 64 (mix_line x y z s).
Proof. intros H. apply lxor_range; [apply u64_range|done]. Qed.

Definition triple_in (s : Z * Z * Z) : Prop := in_u 64 s.1.1 /\ in_u 64 s.1.2 /\ in_u 64 s.2.

Lemma mix_round_range p q r s : 0 <= p -> 0 <= r -> triple_in s -> triple_in (mix_round p q r s).
Proof.
  destruct s as [[a b] c]. intros Hp Hr (Ha & Hb & Hc). cbn [fst snd] in *. unfold mix_round.
  assert (in_u 64 (mix_line a b c (shr c p))) as Ha' by (apply mix_line_range; by apply shr_range).
  generalize dependent (mix_line a b c (shr c p)). intros a' Ha'.
  assert (in_u 64 (mix_line b c a' (shl a' q))) as Hb' by (apply mix_line_range, u64_range).
  generalize dependent (mix_line b c a' (shl a' q)). intros b' Hb'.
  split_and!; [done..|]. apply mix_line_range. by apply shr_range.
Qed.

Lemma mix_range s : triple_in s -> triple_in (mix s).
Proof. intros H. unfold mix. do 3 (apply mix_round_range; [lia..|]). done. Qed.

Lemma unmix_mix_round p q r s : triple_in s -> unmix_round p q r (mix_round p q r s) = s.
Proof.
  destruct s as [[a b] c]. intros (Ha & Hb & Hc). cbn [fst snd] in *. unfold mix_round, unmix_round.
  by rewrite !unmix_mix_line.
Qed.

Lemma case_byte_range k i n x : in_u 64 x -> in_u 64 (case_byte k i n x).
Proof. intros H. unfold case_byte. destruct (k !! i); [apply u64_range|done]. Qed.

Lemma whash_tail_range k n s : triple_in s -> in_u 64 (whash_tail k n s).
Proof.
  destruct s as [[a b] c]. intros (Ha & Hb & Hc). apply mix_range.
  split_and!; cbn [fst snd] in *; auto 20 using case_byte_range, u64_range.
Qed.

Lemma whash_loop_range k n s : triple_in s -> in_u 64 (whash_loop k n s).
Proof.
  remember (length k) as len eqn:E. revert k s E.
  induction len as [len IH] using lt_wf_ind. intros k s E Hs.
  do 12 (destruct k as [|? k]; [by apply whash_tail_range|]).
  cbn [whash_loop]. destruct s as [[a b] c]. eapply IH; [|done|]; [cbn in E; lia|].
  apply mix_range. split_and!; apply u64_range.
Qed.

Lemma whash_range k : in_u 64 (whash k 1).
Proof. apply whash_loop_range. split_and!; done. Qed.

(** [mix] is reversible, as its comment says: on machine words [unmix]
    undoes it, so no two states of the hash are merged by a round. *)
Theorem mix_reversible s : triple_in s -> unmix (mix s) = s.
Proof.
  intros H. unfold mix, unmix. rewrite !unmix_mix_round; [done|done|..];
    repeat (apply mix_round_range; [lia..|]); done.
Qed.

Lemma mix_reversible_witness : unmix (mix (golden, golden, 1)) = (golden, golden, 1).
Proof. apply mix_reversible. unfold triple_in, in_u, golden. cbn. lia. Defined.

(** the hash is not a 32-bit value where [unsigned long] has 64 bits:
    the comment on the function promises one, the hash of a one-letter key
    exceeds it. *)
Theorem whash_exceeds_32_bits : exists key, 2 ^ 32 <= whash (bytes_of key) 1 < 2 ^ 64.
Proof. exists "a"%string. vm_compute. done. Qed.

End Lookup2.
