(* ===== verification/WTable.v ===== *)
(** * The hash table of [common/c_cpp/src/c/wtable.c]

    A table of [2^size] chains.  A chain is owned by its table and reached
    through it alone, so it is modelled as the list of its buckets.  Data are
    pointers (0 is NULL); a table or a key that may be NULL is an [option].
    Reading a chain outside the array is a fault. *)

From S2P Require Import Prelude Lookup2.
Import Lookup2.

Module WTable.

Definition HASH_INITVAL : Z := 1.

Record bucket_t := mkBucket { key : string; data : Z }.

Record wtable := mkTable {
  name : string;
  buckets : list (list bucket_t);
  wsize : Z;
  count : Z
}.

(** The bucket array index of a key. *)
Definition bucket_index (t : wtable) (k : string) : Z :=
  Z.land (whash (bytes_of k) HASH_INITVAL) (hashmask (wsize t)).

Definition chain_at (t : wtable) (h : Z) : res (list bucket_t) :=
  match buckets t !! Z.to_nat h with Some b => Ok b | None => Fail InvalidDeref end.

Definition set_chain (h : Z) (b : list bucket_t) (t : wtable) : wtable :=
  mkTable (name t) (<[Z.to_nat h := b]> (buckets t)) (wsize t) (count t).
Definition set_count (c : Z) (t : wtable) : wtable :=
  mkTable (name t) (buckets t) (wsize t) c.

(** The loop that picks the table size: [fuel] bounds the rounds. *)
Fixpoint size_loop (fuel : nat) (sz size : Z) : option Z :=
  match fuel with
  | O => None
  | S fuel' => if hashsize sz <? size then size_loop fuel' (u16 (sz + 1)) size else Some sz
  end.

(** [mem1], [mem2]: whether the two allocations succeed.  [None] when the size
    loop does not end; [Some None] is the NULL result. *)
Definition wtable_create (mem1 mem2 : bool) (nm : option string) (size : Z) : option (option wtable) :=
  if negb mem1 then Some None else
  let size := u64 (size * 10) in
  sz ← size_loop 64 1 size;
  if negb mem2 then Some None else
  Some (Some (mkTable (default EmptyString nm) (replicate (Z.to_nat (hashsize sz)) []) sz 0)).

(** The search loop: the data of the bucket with the key. *)
Fixpoint chain_find (k : string) (b : list bucket_t) : option Z :=
  match b with
  | [] => None
  | e :: b' => if decide (k = key e) then Some (data e) else chain_find k b'
  end.

(** The update loop of [wtable_insert]; [None] when the key is not there. *)
Fixpoint chain_update (k : string) (d : Z) (b : list bucket_t) : option (list bucket_t) :=
  match b with
  | [] => None
  | e :: b' => if decide (k = key e) then Some (mkBucket (key e) d :: b')
               else cons e <$> chain_update k d b'
  end.

(** The loop of [wtable_remove]: the removed data and the chain without it. *)
Fixpoint chain_remove (k : string) (b : list bucket_t) : option (Z * list bucket_t) :=
  match b with
  | [] => None
  | e :: b' => if decide (k = key e) then Some (data e, b')
               else '(d, r) ← chain_remove k b'; Some (d, e :: r)
  end.

(** [mem]: whether the allocation of a new bucket succeeds. *)
Definition wtable_insert (mem : bool) (table : option wtable) (k : option string) (d : Z)
  : res (Z * option wtable) :=
  match table with
  | None => Ok (0, None)
  | Some t =>
      match k with
      | None => Ok (-1, Some t)
      | Some k =>
          let h := bucket_index t k in
          match chain_at t h with
          | Fail f => Fail f
          | Ok b =>
              match chain_update k d b with
              | Some b' => Ok (0, Some (set_chain h b' t))
              | None =>
                  if negb mem then Ok (-1, Some t)
                  else Ok (1, Some (set_count (u32 (count t + 1)) (set_chain h (mkBucket k d :: b) t)))
              end
          end
      end
  end.

Definition wtable_lookup (table : option wtable) (k : option string) : res Z :=
  match table, k with
  | Some t, Some k =>
      match chain_at t (bucket_index t k) with
      | Ok b => Ok (default 0 (chain_find k b))
      | Fail f => Fail f
      end
  | _, _ => Ok 0
  end.

Definition wtable_remove (table : option wtable) (k : option string) : res (Z * option wtable) :=
  match table, k with
  | Some t, Some k =>
      let h := bucket_index t k in
      match chain_at t h with
      | Fail f => Fail f
      | Ok b =>
          match chain_remove k b with
          | Some (d, b') => Ok (d, Some (set_count (u32 (count t - 1)) (set_chain h b' t)))
          | None => Ok (0, Some t)
          end
      end
  | _, _ => Ok (0, table)
  end.

(** [long size = 1 << wtable->size]: the shift is of an [int]. *)
Definition loop_size (t : wtable) : Z := i32 (Z.shiftl 1 (wsize t)).

(** The [for] loops over the chains [i .. i + n - 1]: [step] is the inner loop's
    effect on the closure, [clear] says whether the chains are emptied. *)
Fixpoint chains_loop {C} (n : nat) (i : Z) (clear : bool) (step : bucket_t -> C -> C)
  (s : C * wtable) : res (C * wtable) :=
  match n with
  | O => Ok s
  | S n' =>
      match chain_at s.2 i with
      | Fail f => Fail f
      | Ok b =>
          let c := foldl (fun c e => step e c) s.1 b in
          let t := if clear
                   then set_chain i [] (set_count (u32 (count s.2 - Z.of_nat (length b))) s.2)
                   else s.2 in
          chains_loop n' (i + 1) clear step (c, t)
      end
  end.

(** [cb data key closure]: the callbacks do not change the table. *)
Definition wtable_for_each {C} (table : option wtable) (cb : Z -> string -> C -> C) (closure : C)
  : res (C * option wtable) :=
  match table with
  | None => Ok (closure, None)
  | Some t =>
      match chains_loop (Z.to_nat (loop_size t)) 0 false (fun e => cb (data e) (key e)) (closure, t) with
      | Ok (c, t') => Ok (c, Some t')
      | Fail f => Fail f
      end
  end.

Definition wtable_clear_for_each {C} (table : option wtable) (cb : Z -> string -> C -> C) (closure : C)
  : res (C * option wtable) :=
  match table with
  | None => Ok (closure, None)
  | Some t =>
      match chains_loop (Z.to_nat (loop_size t)) 0 true (fun e => cb (data e) (key e)) (closure, t) with
      | Ok (c, t') => Ok (c, Some t')
      | Fail f => Fail f
      end
  end.

Definition wtable_clear (table : option wtable) : res (option wtable) :=
  match table with
  | None => Ok None
  | Some t =>
      match chains_loop (Z.to_nat (loop_size t)) 0 true (fun _ c => c) (tt, t) with
      | Ok (_, t') => Ok (Some t')
      | Fail f => Fail f
      end
  end.

(** The first component lists the data pointers passed to [free]; the table is
    dereferenced without a test. *)
Definition wtable_free_all (table : option wtable) : res (list Z * wtable) :=
  match table with
  | None => Fail InvalidDeref
  | Some t => chains_loop (Z.to_nat (loop_size t)) 0 true (fun e c => c ++ [data e]) ([], t)
  end.

Definition wtable_free_all_xdata (table : option wtable) : res (list Z * wtable) :=
  match table with
  | None => Fail InvalidDeref
  | Some t => chains_loop (Z.to_nat (loop_size t)) 0 true (fun _ c => c) ([], t)
  end.

Definition wtable_get_count (table : option wtable) : Z :=
  match table with Some t => count t | None => 0 end.

End WTable.
