(* ===== verification/WTableSpec.v ===== *)
(** * The hash table is a finite map

    [wt_ok] is the table's invariant, [to_map] the map it stands for.  The class
    [StringTable] is what the table promises to its clients; the table is an
    instance. *)

From S2P Require Import Prelude Lookup2 WTable.
From stdpp Require Import fin_maps.
Import Lookup2 WTable.
#[local] Open Scope Z_scope.

(** ** The interface *)

(** A table from strings to pointers.  [None] from [st_create] is NULL;
    [st_clear] empties a table and leaves the data alone; the first component of
    the other results is the C return value, the flag of [st_insert] says
    whether there is memory for a new bucket. *)
Class StringTable (T : Type) := {
  st_ok : T -> Prop;
  st_map : T -> gmap string Z;
  st_create : string -> Z -> option T;
  st_clear : T -> res T;
  st_insert : bool -> string -> Z -> T -> res (Z * T);
  st_lookup : string -> T -> res Z;
  st_remove : string -> T -> res (Z * T);
  st_for_each : forall {C}, (Z -> string -> C -> C) -> C -> T -> res C;
  st_create_spec nm n : 0 <= n -> n * 10 <= 2 ^ 30 ->
    exists t, st_create nm n = Some t /\ st_ok t /\ st_map t = ∅;
  st_clear_spec t : st_ok t -> exists t', st_clear t = Ok t' /\ st_ok t' /\ st_map t' = ∅;
  st_insert_spec t k d : st_ok t -> exists t',
    st_insert true k d t = Ok (if decide (is_Some (st_map t !! k)) then 0 else 1, t') /\
    st_ok t' /\ st_map t' = <[k := d]> (st_map t);
  st_insert_nomem t k d : st_ok t -> st_map t !! k = None -> st_insert false k d t = Ok (-1, t);
  st_insert_replace t k d mem : st_ok t -> is_Some (st_map t !! k) ->
    st_insert mem k d t = st_insert true k d t;
  st_lookup_spec t k : st_ok t -> st_lookup k t = Ok (default 0 (st_map t !! k));
  st_remove_spec t k : st_ok t -> exists t',
    st_remove k t = Ok (default 0 (st_map t !! k), t') /\ st_ok t' /\ st_map t' = delete k (st_map t);
  st_for_each_spec {C} t (cb : Z -> string -> C -> C) c : st_ok t ->
    exists l, l ≡ₚ map_to_list (st_map t) /\
      st_for_each cb c t = Ok (foldl (fun c p => cb p.2 p.1 c) c l);
}.

(** ** The invariant *)

Definition elements (t : wtable) : list bucket_t := concat (buckets t).
Definition pair_of (e : bucket_t) : string * Z := (key e, data e).
Definition to_map (t : wtable) : gmap string Z := list_to_map (pair_of <$> elements t).

(** Chain [i] holds distinct keys that hash to [i]; [30] keeps the [int] shift
    of the loops in range. *)
Record wt_ok (t : wtable) : Prop := {
  wt_size : 1 <= wsize t <= 30;
  wt_len : Z.of_nat (length (buckets t)) = 2 ^ wsize t;
  wt_chain : forall i b, buckets t !! i = Some b ->
    NoDup (key <$> b) /\ (forall e, e ∈ b -> bucket_index t (key e) = Z.of_nat i);
  wt_count : count t = u32 (Z.of_nat (length (elements t)));
}.

Lemma hashsize_small n : 0 <= n < 64 -> hashsize n = 2 ^ n.
Proof.
  intros Hn. unfold hashsize, u64. rewrite Z.shiftl_1_l. apply uwrap_small.
  split; [lia|]. apply Z.pow_lt_mono_r; lia.
Qed.

Lemma bucket_index_range t k : 0 <= wsize t < 64 -> 0 <= bucket_index t k < 2 ^ wsize t.
Proof.
  intros Hs. unfold bucket_index, hashmask, HASH_INITVAL. rewrite hashsize_small by done.
  assert (1 <= 2 ^ wsize t < 2 ^ 64) as Hp.
  { split; [assert (0 < 2 ^ wsize t) by lia; lia|]. apply Z.pow_lt_mono_r; lia. }
  unfold u64. rewrite uwrap_small by (unfold in_u; lia).
  replace (2 ^ wsize t - 1) with (Z.ones (wsize t)) by (rewrite Z.ones_equiv; lia).
  rewrite Z.land_ones by lia. apply Z.mod_pos_bound. lia.
Qed.

Lemma concat_keys_nodup (f : string -> Z) (bs : list (list bucket_t)) (off : Z) :
  (forall i b, bs !! i = Some b ->
     NoDup (key <$> b) /\ (forall e, e ∈ b -> f (key e) = off + Z.of_nat i)) ->
  NoDup (key <$> concat bs) /\ (forall e, e ∈ concat bs -> off <= f (key e)).
Proof.
  revert off. induction bs as [|b bs IH]; intros off H; cbn [concat].
  - split; [constructor|set_solver].
  - destruct (H 0%nat b eq_refl) as [Hb1 Hb2]. destruct (IH (off + 1)) as [IH1 IH2].
    { intros i b' Hb'. destruct (H (S i) b' Hb') as [H1 H2]. split; [done|].
      intros e He. rewrite (H2 e He). lia. }
    split.
    + rewrite fmap_app. apply NoDup_app. split_and!; [done| |done].
      intros k Hk1 Hk2. apply list_elem_of_fmap in Hk1 as (e1 & -> & He1).
      apply list_elem_of_fmap in Hk2 as (e2 & E & He2).
      specialize (Hb2 _ He1). specialize (IH2 _ He2). rewrite E in Hb2. lia.
    + intros e [He|He]%elem_of_app; [rewrite (Hb2 _ He); lia|]. specialize (IH2 _ He). lia.
Qed.

Lemma elements_nodup t : wt_ok t -> NoDup (key <$> elements t).
Proof.
  intros H. refine (proj1 (concat_keys_nodup (bucket_index t) (buckets t) 0 _)).
  intros i b Hb. destruct (wt_chain _ H i b Hb) as [H1 H2]. split; [done|].
  intros e He. rewrite (H2 e He). lia.
Qed.

Lemma pairs_nodup t : wt_ok t -> NoDup (pair_of <$> elements t).*1.
Proof.
  intros H. rewrite <- list_fmap_compose. exact (elements_nodup t H).
Qed.

(** The chain a key belongs to. *)
Lemma chain_at_ok t k : wt_ok t -> exists b,
  chain_at t (bucket_index t k) = Ok b /\ buckets t !! Z.to_nat (bucket_index t k) = Some b.
Proof.
  intros H. pose proof (wt_size _ H) as Hs. pose proof (bucket_index_range t k ltac:(lia)) as Hi.
  destruct (lookup_lt_is_Some_2 (buckets t) (Z.to_nat (bucket_index t k))) as [b Hb].
  { pose proof (wt_len _ H). lia. }
  exists b. unfold chain_at. by rewrite Hb.
Qed.

Lemma chain_find_elem k b d :
  NoDup (key <$> b) -> chain_find k b = Some d <-> (k, d) ∈ pair_of <$> b.
Proof.
  induction b as [|e b IH]; intros Hnd; cbn [chain_find].
  - split; [done|]. cbn. set_solver.
  - rewrite fmap_cons in Hnd. apply NoDup_cons in Hnd as [He Hnd]. rewrite fmap_cons, elem_of_cons.
    case_decide as Hk.
    + subst k. split; [by intros [= <-]; left|]. intros [[= <-]|H]; [done|].
      exfalso. apply He. apply list_elem_of_fmap in H as (e' & E & He'). injection E as E _.
      rewrite E. by apply list_elem_of_fmap_2.
    + rewrite IH by done. split; [by right|]. intros [[= ? ?]|H]; [done|done].
Qed.

Lemma to_map_lookup t k b :
  wt_ok t -> buckets t !! Z.to_nat (bucket_index t k) = Some b -> to_map t !! k = chain_find k b.
Proof.
  intros H Hb. apply option_eq. intros d.
  destruct (wt_chain _ H _ _ Hb) as [Hnd _]. rewrite chain_find_elem by done.
  unfold to_map. rewrite <- elem_of_list_to_map by (by apply pairs_nodup).
  rewrite !list_elem_of_fmap. unfold elements. split; intros (e & E & He); exists e; (split; [done|]).
  - apply elem_of_concat in He as (b' & He & Hb').
    apply list_elem_of_lookup in Hb' as [i Hi]. destruct (wt_chain _ H _ _ Hi) as [_ Hc].
    specialize (Hc _ He). injection E as -> ->. rewrite Hc, Nat2Z.id in Hb. congruence.
  - apply elem_of_concat. exists b. split; [done|]. by eapply list_elem_of_lookup_2.
Qed.

(** Replacing one chain. *)
Lemma elements_set_chain t h b b' :
  buckets t !! Z.to_nat h = Some b ->
  (length (elements (set_chain h b' t)) + length b = length (elements t) + length b')%nat.
Proof.
  unfold elements. cbn. intros Hb. rewrite <- (take_drop_middle _ _ _ Hb) at 2.
  rewrite insert_take_drop by (by eapply lookup_lt_Some).
  rewrite !concat_app, !length_app. cbn. rewrite !length_app. lia.
Qed.

Lemma wt_ok_set_chain t k b b' c :
  wt_ok t -> buckets t !! Z.to_nat (bucket_index t k) = Some b ->
  NoDup (key <$> b') -> (forall e, e ∈ b' -> e ∈ b \/ key e = k \/ exists e', e' ∈ b /\ key e = key e') ->
  c = u32 (Z.of_nat (length (elements t)) - Z.of_nat (length b) + Z.of_nat (length b')) ->
  wt_ok (set_count c (set_chain (bucket_index t k) b' t)).
Proof.
  intros H Hb Hnd Hsub Hc. pose proof (wt_size _ H) as Hs.
  pose proof (bucket_index_range t k ltac:(lia)) as Hr. split.
  - done.
  - cbn. rewrite length_insert. apply (wt_len _ H).
  - intros i b0. cbn [buckets set_count set_chain].
    destruct (decide (i = Z.to_nat (bucket_index t k))) as [->|Hne].
    + rewrite list_lookup_insert_eq by (by eapply lookup_lt_Some). intros [= <-]. split; [done|].
      intros e He. change (bucket_index t (key e) = Z.of_nat (Z.to_nat (bucket_index t k))).
      destruct (wt_chain _ H _ _ Hb) as [_ Hin].
      destruct (Hsub e He) as [He'|[->|(e' & He' & ->)]]; [by apply Hin|lia|by apply Hin].
    + rewrite list_lookup_insert_ne by done. intros Hi. apply (wt_chain _ H _ _ Hi).
  - cbn [count set_count]. rewrite Hc. f_equal.
    pose proof (elements_set_chain t _ b b' Hb) as E.
    unfold elements in *. cbn [buckets set_count set_chain] in *. lia.
Qed.

(** ** The operations *)

Lemma chain_find_update k d b b' k' :
  chain_update k d b = Some b' ->
  chain_find k' b' = if decide (k = k') then Some d else chain_find k' b.
Proof.
  revert b'. induction b as [|e b IH]; intros b'; cbn [chain_update]; [done|].
  destruct (decide (k = key e)) as [Hk|Hk].
  - intros E. injection E as E. subst b'. cbn. rewrite <- Hk. repeat case_decide; congruence.
  - destruct (chain_update k d b) as [r|]; [|done]. intros E. injection E as E. subst b'. cbn.
    rewrite (IH r eq_refl). repeat case_decide; congruence.
Qed.

Lemma chain_update_keys k d b b' : chain_update k d b = Some b' -> key <$> b' = key <$> b.
Proof.
  revert b'. induction b as [|e b IH]; intros b'; cbn [chain_update]; [done|]. case_decide.
  - by intros [= <-].
  - destruct (chain_update k d b) as [r|]; [|done]. intros [= <-]. rewrite !fmap_cons. by rewrite (IH r).
Qed.

Lemma chain_update_none k d b : chain_update k d b = None <-> chain_find k b = None.
Proof.
  induction b as [|e b IH]; cbn; [done|]. case_decide; [done|].
  destruct (chain_update k d b); cbn; rewrite <- IH; done.
Qed.

Lemma chain_find_none k b : chain_find k b = None <-> k ∉ key <$> b.
Proof.
  induction b as [|e b IH]; cbn [chain_find]; [cbn; set_solver|].
  rewrite fmap_cons, elem_of_cons. case_decide; [subst; naive_solver|]. rewrite IH. tauto.
Qed.

Lemma chain_remove_spec k b :
  NoDup (key <$> b) ->
  match chain_remove k b with
  | Some (d, b') => chain_find k b = Some d /\ b' = filter (fun e => key e ≠ k) b /\ length b = S (length b')
  | None => chain_find k b = None
  end.
Proof.
  induction b as [|e b IH]; intros Hnd; [done|].
  rewrite fmap_cons in Hnd. apply NoDup_cons in Hnd as [He Hnd]. cbn [chain_remove chain_find].
  destruct (decide (k = key e)) as [->|Hk].
  - split; [done|]. split; [|done]. rewrite filter_cons_False by naive_solver.
    symmetry. clear -He. induction b as [|e' b IH]; [done|]. rewrite fmap_cons, elem_of_cons in He.
    rewrite filter_cons_True by (intros E; naive_solver). f_equal. apply IH. tauto.
  - specialize (IH Hnd). destruct (chain_remove k b) as [[d r]|]; cbn [mbind option_bind].
    + destruct IH as (H1 & -> & H2). split_and!; [done| |cbn; lia].
      by rewrite filter_cons_True by congruence.
    + done.
Qed.

Lemma chain_find_filter k b k' :
  chain_find k' (filter (fun e => key e ≠ k) b) = if decide (k = k') then None else chain_find k' b.
Proof.
  induction b as [|e b IH]; [cbn; by case_decide|]. rewrite filter_cons.
  repeat case_decide; cbn; rewrite ?IH; repeat case_decide; try congruence; by destruct H.
Qed.

(** What changing the chain of [k] does to the map. *)
Lemma to_map_set_chain t t' k b b' k' :
  wt_ok t -> wt_ok t' -> wsize t' = wsize t ->
  buckets t' = <[Z.to_nat (bucket_index t k) := b']> (buckets t) ->
  buckets t !! Z.to_nat (bucket_index t k) = Some b ->
  (k ≠ k' -> chain_find k' b' = chain_find k' b) ->
  to_map t' !! k' = if decide (k = k') then chain_find k b' else to_map t !! k'.
Proof.
  intros H H' Es Eb Hb Hf. assert (forall x, bucket_index t' x = bucket_index t x) as Ei.
  { intros x. unfold bucket_index. by rewrite Es. }
  destruct (chain_at_ok t k' H) as (c & _ & Hc).
  assert (forall c', buckets t' !! Z.to_nat (bucket_index t k') = Some c' -> to_map t' !! k' = chain_find k' c') as Ht'.
  { intros c' Hc'. apply to_map_lookup; [done|]. by rewrite Ei. }
  destruct (decide (Z.to_nat (bucket_index t k) = Z.to_nat (bucket_index t k'))) as [E|E].
  - rewrite <- E in *. rewrite (Ht' b') by (rewrite Eb; apply list_lookup_insert_eq; by eapply lookup_lt_Some).
    case_decide as Hk; [by subst|]. rewrite Hf by done. symmetry. apply to_map_lookup; [done|]. by rewrite <- E.
  - rewrite (Ht' c) by (rewrite Eb, list_lookup_insert_ne by done; done).
    rewrite decide_False by (intros ->; done). symmetry. by apply to_map_lookup.
Qed.

Lemma insert_spec t k d :
  wt_ok t -> exists t',
    wtable_insert true (Some t) (Some k) d = Ok (if decide (is_Some (to_map t !! k)) then 0 else 1, Some t') /\
    wt_ok t' /\ to_map t' = <[k := d]> (to_map t).
Proof.
  intros H. destruct (chain_at_ok t k H) as (b & Hc & Hb). pose proof (wt_chain _ H _ _ Hb) as [Hnd Hin].
  unfold wtable_insert. rewrite Hc. rewrite (to_map_lookup t k b) by done.
  destruct (chain_update k d b) as [b'|] eqn:Eu.
  - pose proof (chain_update_keys _ _ _ _ Eu) as Ek. pose proof (fun x => chain_find_update k d b b' x Eu) as Ef.
    rewrite decide_True by (apply not_eq_None_Some; rewrite <- (chain_update_none k d); congruence).
    assert (length b' = length b) as El by (rewrite <- (length_fmap key), Ek; apply length_fmap).
    assert (wt_ok (set_chain (bucket_index t k) b' t)) as H'.
    { pose proof (wt_ok_set_chain t k b b' (count t) H Hb) as Hok. rewrite Ek in Hok.
      specialize (Hok Hnd). destruct t. apply Hok.
      - intros e He. right. right. assert (key e ∈ key <$> b) as Hk by (rewrite <- Ek; by apply list_elem_of_fmap_2).
        apply list_elem_of_fmap in Hk as (e' & E & He'). eauto.
      - rewrite (wt_count _ H). f_equal. lia. }
    eexists. split; [done|]. split; [done|]. apply map_eq. intros k'.
    rewrite (to_map_set_chain t _ k b b' k' H H' eq_refl eq_refl Hb).
    + rewrite lookup_insert. case_decide; [|done]. subst. by rewrite Ef, decide_True.
    + intros Hne. by rewrite Ef, decide_False.
  - apply chain_update_none in Eu. rewrite decide_False by (rewrite Eu; apply is_Some_None). cbn [negb].
    assert (wt_ok (set_count (u32 (count t + 1)) (set_chain (bucket_index t k) (mkBucket k d :: b) t))) as H'.
    { apply (wt_ok_set_chain t k b); [done|done|..].
      - rewrite fmap_cons. apply NoDup_cons. split; [by apply chain_find_none|done].
      - intros e [->|He]%elem_of_cons; [right; by left|by left].
      - rewrite (wt_count _ H). unfold u32, uwrap. rewrite Z.add_mod_idemp_l by lia. f_equal. cbn. lia. }
    eexists. split; [done|]. split; [exact H'|]. apply map_eq. intros k'.
    rewrite (to_map_set_chain t _ k b (mkBucket k d :: b) k' H H' eq_refl eq_refl Hb).
    + rewrite lookup_insert. case_decide; [|done]. subst. cbn. by rewrite decide_True.
    + intros Hne. cbn. by rewrite decide_False.
Qed.

Lemma lookup_spec t k : wt_ok t -> wtable_lookup (Some t) (Some k) = Ok (default 0 (to_map t !! k)).
Proof.
  intros H. destruct (chain_at_ok t k H) as (b & Hc & Hb). cbn. rewrite Hc. by rewrite (to_map_lookup t k b).
Qed.

Lemma remove_spec t k :
  wt_ok t -> exists t', wtable_remove (Some t) (Some k) = Ok (default 0 (to_map t !! k), Some t') /\
    wt_ok t' /\ to_map t' = delete k (to_map t).
Proof.
  intros H. destruct (chain_at_ok t k H) as (b & Hc & Hb). pose proof (wt_chain _ H _ _ Hb) as [Hnd Hin].
  unfold wtable_remove. rewrite Hc. rewrite (to_map_lookup t k b) by done.
  pose proof (chain_remove_spec k b Hnd) as Hr. destruct (chain_remove k b) as [[d b']|].
  - destruct Hr as (Hf & Eb' & El). rewrite Hf.
    assert (wt_ok (set_count (u32 (count t - 1)) (set_chain (bucket_index t k) b' t))) as H'.
    { apply (wt_ok_set_chain t k b); [done|done|..].
      - rewrite Eb'. eapply sublist_NoDup; [exact Hnd|]. apply fmap_sublist, sublist_filter.
      - intros e He. left. rewrite Eb' in He. apply list_elem_of_filter in He. tauto.
      - rewrite (wt_count _ H). unfold u32, uwrap. rewrite Zminus_mod_idemp_l. f_equal. rewrite El. lia. }
    eexists. split; [done|]. split; [exact H'|]. apply map_eq. intros k'.
    rewrite (to_map_set_chain t _ k b b' k' H H' eq_refl eq_refl Hb).
    + rewrite lookup_delete. case_decide; [|done]. rewrite Eb', chain_find_filter. by rewrite decide_True.
    + intros Hne. by rewrite Eb', chain_find_filter, decide_False.
  - exists t. rewrite Hr. split_and!; [done|done|]. symmetry. apply delete_id. by rewrite (to_map_lookup t k b).
Qed.

(** ** The loops over all chains *)

Lemma loop_size_ok t : wt_ok t -> Z.to_nat (loop_size t) = length (buckets t).
Proof.
  intros H. pose proof (wt_size _ H) as Hs. pose proof (wt_len _ H) as Hl. unfold loop_size, i32.
  rewrite Z.shiftl_1_l. rewrite swrap_small; [lia|lia|]. unfold in_s. split; [lia|].
  apply Z.pow_lt_mono_r; lia.
Qed.

Lemma chains_loop_read {C} (step : bucket_t -> C -> C) n i c t :
  (i + n <= length (buckets t))%nat ->
  chains_loop n (Z.of_nat i) false step (c, t) =
  Ok (foldl (fun c e => step e c) c (concat (take n (drop i (buckets t)))), t).
Proof.
  revert i c. induction n as [|n IH]; intros i c Hn; cbn [chains_loop fst snd]; [done|].
  destruct (lookup_lt_is_Some_2 (buckets t) i) as [b Hb]; [lia|].
  unfold chain_at. rewrite Nat2Z.id, Hb. replace (Z.of_nat i + 1) with (Z.of_nat (S i)) by lia.
  rewrite IH by lia. rewrite (drop_S _ _ _ Hb). cbn [take concat]. by rewrite foldl_app.
Qed.

Lemma chains_loop_clear {C} (step : bucket_t -> C -> C) rest : forall i c nm sz cnt,
  chains_loop (length rest) (Z.of_nat i) true step
    (c, mkTable nm (replicate i [] ++ rest) sz cnt) =
  Ok (foldl (fun c e => step e c) c (concat rest),
      mkTable nm (replicate (i + length rest) []) sz
        (if decide (rest = []) then cnt else u32 (cnt - Z.of_nat (length (concat rest))))).
Proof.
  induction rest as [|b rest IH]; intros i c nm sz cnt; cbn [length chains_loop fst snd concat].
  - by rewrite app_nil_r, Nat.add_0_r.
  - unfold chain_at. cbn [buckets]. rewrite Nat2Z.id.
    rewrite list_lookup_middle by (by rewrite length_replicate).
    unfold set_chain, set_count. cbn [name buckets wsize count].
    replace (Z.of_nat i + 1) with (Z.of_nat (S i)) by lia.
    rewrite Nat2Z.id, insert_app_r_alt by (by rewrite length_replicate).
    rewrite length_replicate, Nat.sub_diag. cbn [insert list_insert].
    replace (replicate i [] ++ [] :: rest) with (replicate (S i) [] ++ rest).
    2:{ cbn [replicate]. rewrite replicate_cons_app, <- app_assoc. done. }
    rewrite IH. rewrite foldl_app, length_app. cbn [length].
    replace (S i + length rest)%nat with (i + S (length rest))%nat by lia.
    rewrite (decide_False (P := b :: rest = [])) by done. do 2 f_equal. f_equal.
    case_decide as Hr; [subst; cbn; f_equal; lia|].
    unfold u32, uwrap. rewrite Zminus_mod_idemp_l. f_equal. lia.
Qed.

Lemma for_each_spec {C} t (cb : Z -> string -> C -> C) c :
  wt_ok t -> wtable_for_each (Some t) cb c =
    Ok (foldl (fun c e => cb (data e) (key e) c) c (elements t), Some t).
Proof.
  intros H. unfold wtable_for_each. rewrite loop_size_ok by done.
  change 0 with (Z.of_nat 0). rewrite chains_loop_read by lia. by rewrite drop_0, firstn_all.
Qed.

Lemma foldl_pairs {C} (cb : Z -> string -> C -> C) l c :
  foldl (fun c e => cb (data e) (key e) c) c l = foldl (fun c p => cb p.2 p.1 c) c (pair_of <$> l).
Proof. revert c. by induction l as [|e l IH]; intros c; cbn. Qed.

Lemma to_map_list t : wt_ok t -> map_to_list (to_map t) ≡ₚ pair_of <$> elements t.
Proof. intros H. apply map_to_list_to_map. by apply pairs_nodup. Qed.

Lemma empty_ok nm sz : 1 <= sz <= 30 ->
  wt_ok (mkTable nm (replicate (Z.to_nat (2 ^ sz)) []) sz 0) /\
  to_map (mkTable nm (replicate (Z.to_nat (2 ^ sz)) []) sz 0) = ∅.
Proof.
  intros Hs. assert (concat (replicate (Z.to_nat (2 ^ sz)) []) = ([] : list bucket_t)) as E.
  { generalize (Z.to_nat (2 ^ sz)). intros n. by induction n. }
  split; [|unfold to_map, elements; cbn [buckets]; by rewrite E].
  split; cbn [wsize buckets count]; [done|rewrite length_replicate; lia| |unfold elements; cbn [buckets]; by rewrite E].
  intros i b Hb. apply lookup_replicate in Hb as [-> _]. split; [constructor|set_solver].
Qed.

Lemma clear_spec {C} t (step : bucket_t -> C -> C) c :
  wt_ok t -> exists t', chains_loop (Z.to_nat (loop_size t)) 0 true step (c, t) =
    Ok (foldl (fun c e => step e c) c (elements t), t') /\ wt_ok t' /\ to_map t' = ∅.
Proof.
  intros H. rewrite loop_size_ok by done. destruct t as [nm bs sz cnt]. cbn [buckets].
  pose proof (chains_loop_clear step bs 0 c nm sz cnt) as E. cbn [replicate app] in E.
  change (Z.of_nat 0) with 0 in E. rewrite E. eexists. split; [done|]. cbn [Nat.add].
  pose proof (wt_len _ H) as Hl. cbn [buckets wsize] in Hl. pose proof (wt_size _ H) as Hs. cbn [wsize] in Hs.
  replace (length bs) with (Z.to_nat (2 ^ sz)) by lia.
  replace (if decide (bs = []) then cnt else _) with 0; [by apply empty_ok|].
  case_decide as Hb; [subst bs; cbn in Hl; lia|].
  pose proof (wt_count _ H) as Hc. cbn in Hc. rewrite Hc. unfold elements. cbn [buckets].
  unfold u32, uwrap. rewrite Zminus_mod_idemp_l, Z.sub_diag. done.
Qed.

(** ** Creation *)

Lemma size_loop_spec fuel sz size :
  1 <= sz <= 63 -> 63 - sz < Z.of_nat fuel -> size <= 2 ^ 63 ->
  (sz = 1 \/ 2 ^ (sz - 1) < size) ->
  exists s, size_loop fuel sz size = Some s /\ sz <= s <= 63 /\ size <= 2 ^ s /\ (s = 1 \/ 2 ^ (s - 1) < size).
Proof.
  revert sz. induction fuel as [|fuel IH]; intros sz Hs Hf Hsz Hm; [lia|]. cbn [size_loop].
  rewrite hashsize_small by lia. destruct (Z.ltb_spec (2 ^ sz) size) as [Hlt|Hge].
  - assert (sz ≠ 63) by (intros ->; lia). unfold u16. rewrite uwrap_small by (unfold in_u; lia).
    destruct (IH (sz + 1)) as (s & E & H1 & H2 & H3); [lia..|right; by replace (sz + 1 - 1) with sz by lia|].
    exists s. split_and!; (done || lia).
  - exists sz. split_and!; (done || lia).
Qed.

(** [wtable_create] makes an empty table whose number of chains is the
    smallest power of two, at least two, that holds ten times the requested
    size; the loop that finds it ends (sizes up to 2^30 chains, beyond which the
    loops over the table overflow an [int]). *)
Theorem wtable_create_smallest nm n :
  0 <= n -> n * 10 <= 2 ^ 30 ->
  exists t, wtable_create true true nm n = Some (Some t) /\ wt_ok t /\ to_map t = ∅ /\
    n * 10 <= 2 ^ wsize t /\ (forall s, 1 <= s -> n * 10 <= 2 ^ s -> wsize t <= s).
Proof.
  intros Hn Hs. unfold wtable_create. cbn [negb]. unfold u64.
  rewrite uwrap_small by (unfold in_u; lia).
  destruct (size_loop_spec 64 1 (n * 10)) as (s & E & H1 & H2 & H3); [lia..|by left|]. rewrite E.
  cbn [mbind option_bind]. rewrite hashsize_small by lia.
  assert (forall s', 1 <= s' -> n * 10 <= 2 ^ s' -> s <= s') as Hmin.
  { intros s' Hs' Hle. destruct H3 as [->|H3]; [done|]. destruct (Z.le_gt_cases s s') as [|Hgt]; [done|].
    assert (2 ^ s' <= 2 ^ (s - 1)) by (apply Z.pow_le_mono_r; lia). lia. }
  assert (s <= 30) by (apply Hmin; lia). destruct (empty_ok (default EmptyString nm) s) as [Hok Hm]; [lia|].
  eexists. split; [done|]. split_and!; [exact Hok|exact Hm|done|done].
Qed.

Lemma wtable_create_smallest_witness :
  exists t, wtable_create true true (Some "fields"%string) 10 = Some (Some t) /\ wt_ok t /\ to_map t = ∅ /\
    10 * 10 <= 2 ^ wsize t /\ (forall s, 1 <= s -> 10 * 10 <= 2 ^ s -> wsize t <= s).
Proof. apply wtable_create_smallest; lia. Defined.

Lemma create_spec nm n :
  0 <= n -> n * 10 <= 2 ^ 30 ->
  exists t, wtable_create true true nm n = Some (Some t) /\ wt_ok t /\ to_map t = ∅.
Proof.
  intros Hn Hs. unfold wtable_create. cbn [negb]. unfold u64. rewrite uwrap_small by (unfold in_u; lia).
  destruct (size_loop_spec 64 1 (n * 10)) as (s & Es & H1 & H2 & H3); [lia..|by left|]. rewrite Es.
  cbn [mbind option_bind]. rewrite hashsize_small by lia. eexists. split; [done|]. apply empty_ok.
  split; [lia|]. destruct H3 as [->|H3]; [lia|].
  destruct (Z.le_gt_cases s 30) as [|Hgt]; [done|].
  assert (2 ^ 30 <= 2 ^ (s - 1)) by (apply Z.pow_le_mono_r; lia). lia.
Qed.

(** ** The table refines a map *)

Inductive tcmd : Type :=
| TInsert (k : string) (d : Z) | TLookup (k : string) | TRemove (k : string) | TCount | TClear.

Definition run_tcmd (t : option wtable) (cmd : tcmd) : res (Z * option wtable) :=
  match cmd with
  | TInsert k d => wtable_insert true t (Some k) d
  | TLookup k => match wtable_lookup t (Some k) with Ok v => Ok (v, t) | Fail f => Fail f end
  | TRemove k => wtable_remove t (Some k)
  | TCount => Ok (wtable_get_count t, t)
  | TClear => match wtable_clear t with Ok t' => Ok (0, t') | Fail f => Fail f end
  end.

Fixpoint run_tcmds (t : option wtable) (cmds : list tcmd) : res (list Z * option wtable) :=
  match cmds with
  | [] => Ok ([], t)
  | cmd :: cmds' =>
      match run_tcmd t cmd with
      | Ok (v, t') => match run_tcmds t' cmds' with
                      | Ok (vs, t'') => Ok (v :: vs, t'')
                      | Fail f => Fail f
                      end
      | Fail f => Fail f
      end
  end.

(** The same calls on a finite map. *)
Definition map_cmd (m : gmap string Z) (cmd : tcmd) : Z * gmap string Z :=
  match cmd with
  | TInsert k d => (if decide (is_Some (m !! k)) then 0 else 1, <[k := d]> m)
  | TLookup k => (default 0 (m !! k), m)
  | TRemove k => (default 0 (m !! k), delete k m)
  | TCount => (u32 (Z.of_nat (size m)), m)
  | TClear => (0, ∅)
  end.

Fixpoint map_cmds (m : gmap string Z) (cmds : list tcmd) : list Z * gmap string Z :=
  match cmds with
  | [] => ([], m)
  | cmd :: cmds' => ((map_cmd m cmd).1 :: (map_cmds (map_cmd m cmd).2 cmds').1, (map_cmds (map_cmd m cmd).2 cmds').2)
  end.

Lemma count_spec t : wt_ok t -> count t = u32 (Z.of_nat (size (to_map t))).
Proof.
  intros H. rewrite (wt_count _ H). do 2 f_equal. rewrite <- length_map_to_list, to_map_list by done.
  by rewrite length_fmap.
Qed.

Lemma run_tcmd_spec t cmd :
  wt_ok t -> exists t', run_tcmd (Some t) cmd = Ok ((map_cmd (to_map t) cmd).1, Some t') /\
    wt_ok t' /\ to_map t' = (map_cmd (to_map t) cmd).2.
Proof.
  intros H. destruct cmd as [k d|k|k| |]; cbn [run_tcmd map_cmd fst snd].
  - by apply insert_spec.
  - rewrite lookup_spec by done. eauto.
  - by apply remove_spec.
  - cbn. rewrite count_spec by done. eauto.
  - unfold wtable_clear. destruct (clear_spec t (fun _ c => c) tt H) as (t' & -> & H1 & H2). eauto.
Qed.

(** C6: the hash table refines a finite map.  Every sequence of insertions,
    lookups, removals, counts and clears on a new table gives the replies of the
    same sequence on a map from strings to pointers: insertion reports 1 for a
    new key and 0 for a replaced one, lookup and removal the stored pointer or
    NULL, the count the number of keys; no chain outside the array is read. *)
Theorem wtable_refines_map nm n cmds :
  0 <= n -> n * 10 <= 2 ^ 30 ->
  exists t t', wtable_create true true nm n = Some (Some t) /\
    run_tcmds (Some t) cmds = Ok ((map_cmds ∅ cmds).1, Some t') /\ wt_ok t' /\
    to_map t' = (map_cmds ∅ cmds).2.
Proof.
  intros Hn Hs.
  destruct (create_spec nm n Hn Hs) as (t & E & H & Hm).
  exists t. enough (exists t', run_tcmds (Some t) cmds = Ok ((map_cmds ∅ cmds).1, Some t') /\ wt_ok t' /\
    to_map t' = (map_cmds ∅ cmds).2) as (t' & ? & ? & ?) by eauto 10.
  rewrite <- Hm. clear -H. revert t H. induction cmds as [|cmd cmds IH]; intros t H; cbn [run_tcmds map_cmds fst snd].
  - eauto.
  - destruct (run_tcmd_spec t cmd H) as (t1 & -> & H1 & <-). destruct (IH t1 H1) as (t2 & -> & H2 & E2). eauto.
Qed.

Lemma wtable_refines_map_witness :
  let cmds := [TInsert "wIssueSymbol" 7; TInsert "wBidPrice" 8; TInsert "wBidPrice" 9; TCount;
               TLookup "wBidPrice"; TRemove "wIssueSymbol"; TLookup "wIssueSymbol"; TCount; TClear; TCount]%string in
  exists t t', wtable_create true true None 2 = Some (Some t) /\
    run_tcmds (Some t) cmds = Ok ([1; 1; 0; 2; 9; 7; 0; 1; 0; 0], Some t') /\ wt_ok t' /\
    to_map t' = (map_cmds ∅ cmds).2.
Proof.
  intros cmds. destruct (wtable_refines_map None 2 cmds) as (t & t' & H1 & H2 & H3 & H4); [lia|lia|].
  exists t, t'. split; [exact H1|]. split; [exact H2|]. by split.
Defined.

(** [wtable_for_each] calls back once for every binding, whatever the
    callback accumulates, and leaves the table alone; [wtable_free_all] frees
    every data pointer of the table exactly once and leaves it empty. *)
Theorem wtable_iterates_all {C} t (cb : Z -> string -> C -> C) c :
  wt_ok t ->
  (exists l, l ≡ₚ map_to_list (to_map t) /\
     wtable_for_each (Some t) cb c = Ok (foldl (fun c p => cb p.2 p.1 c) c l, Some t)) /\
  (exists fr t', wtable_free_all (Some t) = Ok (fr, t') /\ fr ≡ₚ (map_to_list (to_map t)).*2 /\
     wt_ok t' /\ to_map t' = ∅).
Proof.
  intros H. pose proof (to_map_list t H) as Hl. split.
  - exists (pair_of <$> elements t). split; [done|]. rewrite for_each_spec by done. do 2 f_equal.
    apply foldl_pairs.
  - unfold wtable_free_all. destruct (clear_spec t (fun e c => c ++ [data e]) [] H) as (t' & -> & H1 & H2).
    eexists _, t'. split; [done|]. split; [|done]. rewrite Hl.
    assert (forall l acc, foldl (fun c e => c ++ [data e]) acc l = acc ++ (data <$> l)) as E.
    { clear. intros l. induction l as [|e l IH]; intros acc; cbn; [by rewrite app_nil_r|].
      rewrite IH, <- app_assoc. done. }
    rewrite E. cbn [app]. rewrite <- list_fmap_compose. done.
Qed.

Definition demo_table : wtable :=
  mkTable "demo" [[]; []; [mkBucket "k" 5]; []] 2 1.

Lemma demo_table_ok : wt_ok demo_table.
Proof.
  split; cbn [wsize buckets demo_table]; [lia|done| |done].
  intros i b Hb. destruct i as [|[|[|[|i]]]]; [injection Hb as <-..|done];
    (split; [repeat constructor; set_solver|]); intros e He; try (by apply not_elem_of_nil in He).
  apply list_elem_of_singleton in He as ->. vm_compute. done.
Qed.

Lemma wtable_iterates_all_witness :
  (exists l, l ≡ₚ map_to_list (to_map demo_table) /\
     wtable_for_each (Some demo_table) (fun d k n => n + d) 0 =
     Ok (foldl (fun n p => n + p.2) 0 l, Some demo_table)) /\
  (exists fr t', wtable_free_all (Some demo_table) = Ok (fr, t') /\ fr ≡ₚ (map_to_list (to_map demo_table)).*2 /\
     wt_ok t' /\ to_map t' = ∅).
Proof. apply (wtable_iterates_all demo_table (fun d k n => n + d) 0). exact demo_table_ok. Defined.

(** ** The interface, discharged *)

(** A call on an existing table. *)
Definition on_table (t : wtable) (r : res (Z * option wtable)) : res (Z * wtable) :=
  match r with Ok (v, t') => Ok (v, default t t') | Fail f => Fail f end.

Lemma insert_on_table t k d : wt_ok t -> exists t',
  on_table t (wtable_insert true (Some t) (Some k) d) =
    Ok (if decide (is_Some (to_map t !! k)) then 0 else 1, t') /\ wt_ok t' /\ to_map t' = <[k := d]> (to_map t).
Proof. intros H. destruct (insert_spec t k d H) as (t' & -> & H1 & H2). eauto. Qed.

Lemma insert_nomem t k d : wt_ok t -> to_map t !! k = None ->
  on_table t (wtable_insert false (Some t) (Some k) d) = Ok (-1, t).
Proof.
  intros H Hk. destruct (chain_at_ok t k H) as (b & Hc & Hb). cbn. rewrite Hc.
  rewrite (to_map_lookup t k b) in Hk by done. by rewrite (proj2 (chain_update_none k d b)).
Qed.

Lemma insert_replace t k d mem : wt_ok t -> is_Some (to_map t !! k) ->
  on_table t (wtable_insert mem (Some t) (Some k) d) = on_table t (wtable_insert true (Some t) (Some k) d).
Proof.
  intros H Hk. destruct (chain_at_ok t k H) as (b & Hc & Hb). cbn. rewrite Hc.
  rewrite (to_map_lookup t k b) in Hk by done. destruct (chain_update k d b) eqn:E; [done|].
  apply chain_update_none in E. rewrite E in Hk. by destruct Hk.
Qed.

Lemma remove_on_table t k : wt_ok t -> exists t',
  on_table t (wtable_remove (Some t) (Some k)) = Ok (default 0 (to_map t !! k), t') /\
  wt_ok t' /\ to_map t' = delete k (to_map t).
Proof. intros H. destruct (remove_spec t k H) as (t' & -> & H1 & H2). eauto. Qed.

Definition drop_table {C} (r : res (C * option wtable)) : res C :=
  match r with Ok (c, _) => Ok c | Fail f => Fail f end.

Lemma for_each_on_table {C} t (cb : Z -> string -> C -> C) c : wt_ok t ->
  exists l, l ≡ₚ map_to_list (to_map t) /\
    drop_table (wtable_for_each (Some t) cb c) = Ok (foldl (fun c p => cb p.2 p.1 c) c l).
Proof.
  intros H. exists (pair_of <$> elements t). split; [by rewrite to_map_list|].
  rewrite for_each_spec by done. cbn. f_equal. apply foldl_pairs.
Qed.

Lemma create_on_table nm n : 0 <= n -> n * 10 <= 2 ^ 30 ->
  exists t, mjoin (wtable_create true true (Some nm) n) = Some t /\ wt_ok t /\ to_map t = ∅.
Proof. intros Hn Hs. destruct (create_spec (Some nm) n Hn Hs) as (t & -> & H). by exists t. Qed.

Definition keep_table {C} (r : res (C * wtable)) : res wtable :=
  match r with Ok (_, t) => Ok t | Fail f => Fail f end.

Lemma clear_on_table t : wt_ok t -> exists t',
  keep_table (wtable_free_all_xdata (Some t)) = Ok t' /\ wt_ok t' /\ to_map t' = ∅.
Proof.
  intros H. unfold wtable_free_all_xdata.
  destruct (clear_spec t (fun _ c => c) ([] : list Z) H) as (t' & -> & H1 & H2). by exists t'.
Qed.

#[export] Instance wtable_string_table : StringTable wtable := {
  st_ok := wt_ok;
  st_map := to_map;
  st_create nm n := mjoin (wtable_create true true (Some nm) n);
  st_clear t := keep_table (wtable_free_all_xdata (Some t));
  st_insert mem k d t := on_table t (wtable_insert mem (Some t) (Some k) d);
  st_lookup k t := wtable_lookup (Some t) (Some k);
  st_remove k t := on_table t (wtable_remove (Some t) (Some k));
  st_for_each C cb c t := drop_table (wtable_for_each (Some t) cb c);
  st_create_spec := create_on_table;
  st_clear_spec := clear_on_table;
  st_insert_spec := insert_on_table;
  st_insert_nomem := insert_nomem;
  st_insert_replace := insert_replace;
  st_lookup_spec := lookup_spec;
  st_remove_spec := remove_on_table;
  st_for_each_spec := @for_each_on_table;
}.
