(* ===== verification/DqStrategy.v ===== *)
(** * Data quality: [mama/c_cpp/src/c/dqstrategy.c] and
    [mama/c_cpp/src/c/dqstrategyplugin/dqstrategyplugin.c]

    Each subscription tracks the sequence numbers of its messages in a data
    quality context.  A gap makes the data stale and requests a recap; messages
    that arrive before an initial or a recap are kept in a ring and may fill the
    gap.

    The state is the subscription: its own subject context, the contexts of the
    symbols of a group subscription, the strategy object, the transport settings
    it reads, and the trace of what it did to the outside (callbacks invoked,
    recap requests sent).  A [ctxref] stands for a [mamaDqContext*]. *)

From S2P Require Import Prelude MamaStatus.

Module DqStrategy.

(** ** Data *)

Inductive mamaMsgType : Type :=
| MAMA_MSG_TYPE_UPDATE | MAMA_MSG_TYPE_INITIAL | MAMA_MSG_TYPE_CANCEL | MAMA_MSG_TYPE_ERROR
| MAMA_MSG_TYPE_CORRECTION | MAMA_MSG_TYPE_CLOSING | MAMA_MSG_TYPE_RECAP | MAMA_MSG_TYPE_DELETE
| MAMA_MSG_TYPE_EXPIRE | MAMA_MSG_TYPE_SNAPSHOT | MAMA_MSG_TYPE_PREOPENING | MAMA_MSG_TYPE_QUOTE
| MAMA_MSG_TYPE_TRADE | MAMA_MSG_TYPE_ORDER | MAMA_MSG_TYPE_BOOK_INITIAL | MAMA_MSG_TYPE_BOOK_UPDATE
| MAMA_MSG_TYPE_BOOK_CLEAR | MAMA_MSG_TYPE_BOOK_RECAP | MAMA_MSG_TYPE_BOOK_SNAPSHOT
| MAMA_MSG_TYPE_NOT_PERMISSIONED | MAMA_MSG_TYPE_NOT_FOUND | MAMA_MSG_TYPE_END_OF_INITIALS
| MAMA_MSG_TYPE_WOMBAT_REQUEST | MAMA_MSG_TYPE_WOMBAT_CALC | MAMA_MSG_TYPE_SEC_STATUS
| MAMA_MSG_TYPE_DDICT_SNAPSHOT | MAMA_MSG_TYPE_MISC | MAMA_MSG_TYPE_TIBRV | MAMA_MSG_TYPE_FEATURE_SET
| MAMA_MSG_TYPE_SYNC_REQUEST | MAMA_MSG_TYPE_REFRESH | MAMA_MSG_TYPE_WORLD_VIEW
| MAMA_MSG_TYPE_NEWS_QUERY | MAMA_MSG_TYPE_NULL | MAMA_MSG_TYPE_ENTITLEMENTS_REFRESH
| MAMA_MSG_TYPE_UNKNOWN.

Inductive mamaMsgStatus : Type :=
| MAMA_MSG_STATUS_OK | MAMA_MSG_STATUS_LINE_DOWN | MAMA_MSG_STATUS_NO_SUBSCRIBERS
| MAMA_MSG_STATUS_BAD_SYMBOL | MAMA_MSG_STATUS_EXPIRED | MAMA_MSG_STATUS_TIMEOUT
| MAMA_MSG_STATUS_MISC | MAMA_MSG_STATUS_STALE | MAMA_MSG_STATUS_PLATFORM_STATUS
| MAMA_MSG_STATUS_NOT_ENTITLED | MAMA_MSG_STATUS_NOT_FOUND | MAMA_MSG_STATUS_POSSIBLY_STALE
| MAMA_MSG_STATUS_NOT_PERMISSIONED | MAMA_MSG_STATUS_TOPIC_CHANGE
| MAMA_MSG_STATUS_BANDWIDTH_EXCEEDED | MAMA_MSG_STATUS_DUPLICATE | MAMA_MSG_STATUS_UNKNOWN.

#[export] Instance mamaMsgStatus_eq_dec : EqDecision mamaMsgStatus.
Proof. solve_decision. Defined.

Inductive mamaQuality : Type := MAMA_QUALITY_OK | MAMA_QUALITY_STALE | MAMA_QUALITY_DUPLICATE.

Inductive dqState : Type :=
| DQ_STATE_OK | DQ_STATE_NOT_ESTABLISHED | DQ_STATE_WAITING_FOR_RECAP | DQ_STATE_POSSIBLY_STALE
| DQ_STATE_DUPLICATE | DQ_STATE_STALE_NO_RECAP | DQ_STATE_WAITING_FOR_RECAP_AFTER_FT.

#[export] Instance dqState_eq_dec : EqDecision dqState.
Proof. solve_decision. Defined.

(** The fields of a message the strategy reads; [None] is an absent field. *)
Record mamaMsg := mkMsg {
  m_id : Z;
  m_seqNum : option Z;
  m_senderId : option Z;
  m_conflateCount : option Z;
  m_status : mamaMsgStatus;
  m_total : option Z;
  m_num : option Z;
  m_issueSymbol : option string
}.

Definition set_status (st : mamaMsgStatus) (m : mamaMsg) : mamaMsg :=
  mkMsg (m_id m) (m_seqNum m) (m_senderId m) (m_conflateCount m) st (m_total m) (m_num m) (m_issueSymbol m).

(** [mamaMsg_getSeqNum]: a 64-bit field cast to 32 bits, 0 when absent. *)
Definition mamaMsg_getSeqNum (m : mamaMsg) : Z := u32 (default 0 (m_seqNum m)).

(** [msgUtils_msgTotal] and [msgUtils_msgNum]: 32-bit fields cast to [short]. *)
Definition msgUtils_msgTotal (m : mamaMsg) : Z := swrap 16 (default 0 (m_total m)).
Definition msgUtils_msgNum (m : mamaMsg) : Z := swrap 16 (default 0 (m_num m)).

Record mamaDqContext := mkCtx {
  mSeqNum : Z;
  mDQState : dqState;
  mCache : option (list (option mamaMsg));
  mCurCacheIdx : Z;
  mCacheSize : Z;
  mRecapRequest : bool;
  mSenderId : Z;
  mDoNotForward : bool;
  mSetCacheMsgStale : bool
}.

Definition set_mSeqNum v c := mkCtx v (mDQState c) (mCache c) (mCurCacheIdx c) (mCacheSize c)
  (mRecapRequest c) (mSenderId c) (mDoNotForward c) (mSetCacheMsgStale c).
Definition set_mDQState v c := mkCtx (mSeqNum c) v (mCache c) (mCurCacheIdx c) (mCacheSize c)
  (mRecapRequest c) (mSenderId c) (mDoNotForward c) (mSetCacheMsgStale c).
Definition set_mCache v c := mkCtx (mSeqNum c) (mDQState c) v (mCurCacheIdx c) (mCacheSize c)
  (mRecapRequest c) (mSenderId c) (mDoNotForward c) (mSetCacheMsgStale c).
Definition set_mCurCacheIdx v c := mkCtx (mSeqNum c) (mDQState c) (mCache c) v (mCacheSize c)
  (mRecapRequest c) (mSenderId c) (mDoNotForward c) (mSetCacheMsgStale c).
Definition set_mRecapRequest v c := mkCtx (mSeqNum c) (mDQState c) (mCache c) (mCurCacheIdx c) (mCacheSize c)
  v (mSenderId c) (mDoNotForward c) (mSetCacheMsgStale c).
Definition set_mSenderId v c := mkCtx (mSeqNum c) (mDQState c) (mCache c) (mCurCacheIdx c) (mCacheSize c)
  (mRecapRequest c) v (mDoNotForward c) (mSetCacheMsgStale c).
Definition set_mDoNotForward v c := mkCtx (mSeqNum c) (mDQState c) (mCache c) (mCurCacheIdx c) (mCacheSize c)
  (mRecapRequest c) (mSenderId c) v (mSetCacheMsgStale c).
Definition set_mSetCacheMsgStale v c := mkCtx (mSeqNum c) (mDQState c) (mCache c) (mCurCacheIdx c) (mCacheSize c)
  (mRecapRequest c) (mSenderId c) (mDoNotForward c) v.

Record SubjectContext := mkSubject {
  mDqContext : mamaDqContext;
  mImageCount : Z;
  mInitialArrived : bool;
  mSymbol : string
}.

Inductive preInitialScheme := PRE_INITIAL_SCHEME_ON_GAP | PRE_INITIAL_SCHEME_ON_INITIAL.
Inductive dqStrategyScheme := DQ_SCHEME_DELIVER_ALL | DQ_SCHEME_INGORE_DUPS.
Inductive dqftStrategyScheme := DQ_FT_DO_NOT_WAIT_FOR_RECAP | DQ_FT_WAIT_FOR_RECAP.

(** The transport settings, and the callbacks the application installed. *)
Record settings := mkSettings {
  t_preInitial : preInitialScheme;
  t_scheme : dqStrategyScheme;
  t_ft : dqftStrategyScheme;
  t_preRecapCache : bool;
  t_handleEvent : bool;      (* the transport uses this plugin *)
  cb_onQuality : bool;
  cb_onGap : bool;
  cb_onRecapRequest : bool
}.

Record dqStrategyImpl := mkStrategy { mTryToFillGap : bool; mRecoverGaps : bool }.

(** What the outside sees, in order. *)
Inductive event : Type :=
| OnMsg (m : mamaMsg)
| OnQuality (q : mamaQuality)
| OnGap
| OnRecapRequest
| SendRecap (symbol : option string)
| UnsetAllPossiblyStale
| StopWaitForResponse
| Deactivate.

Record subscription := mkSub {
  own : SubjectContext;
  subjects : option (gmap string SubjectContext);
  mDqStrategy : option dqStrategyImpl;
  isGroup : bool;
  subscSymbol : string;
  mExpectingInitial : bool;
  mAcceptMultipleInitials : bool;
  expectingUpdates : bool;
  mInitialCount : Z;
  mPreInitialCacheSize : Z;
  cfg : settings;
  trace : list event
}.

Definition set_own v s := mkSub v (subjects s) (mDqStrategy s) (isGroup s) (subscSymbol s) (mExpectingInitial s)
  (mAcceptMultipleInitials s) (expectingUpdates s) (mInitialCount s) (mPreInitialCacheSize s) (cfg s) (trace s).
Definition set_subjects v s := mkSub (own s) v (mDqStrategy s) (isGroup s) (subscSymbol s) (mExpectingInitial s)
  (mAcceptMultipleInitials s) (expectingUpdates s) (mInitialCount s) (mPreInitialCacheSize s) (cfg s) (trace s).
Definition set_mDqStrategy v s := mkSub (own s) (subjects s) v (isGroup s) (subscSymbol s) (mExpectingInitial s)
  (mAcceptMultipleInitials s) (expectingUpdates s) (mInitialCount s) (mPreInitialCacheSize s) (cfg s) (trace s).
Definition set_mInitialCount v s := mkSub (own s) (subjects s) (mDqStrategy s) (isGroup s) (subscSymbol s)
  (mExpectingInitial s) (mAcceptMultipleInitials s) (expectingUpdates s) v (mPreInitialCacheSize s) (cfg s) (trace s).
Definition set_trace v s := mkSub (own s) (subjects s) (mDqStrategy s) (isGroup s) (subscSymbol s)
  (mExpectingInitial s) (mAcceptMultipleInitials s) (expectingUpdates s) (mInitialCount s)
  (mPreInitialCacheSize s) (cfg s) v.

Abbreviation DM := (M subscription).

Definition emit (e : event) : DM unit := modify (fun s => set_trace (trace s ++ [e]) s).

(** A subject context is the subscription's own or one of a group's. *)
Inductive ctxref : Type := Own | Subject (symbol : string).

Definition get_subject (r : ctxref) : DM SubjectContext := fun s =>
  match r with
  | Own => Ok (own s, s)
  | Subject x => match subjects s with
                 | Some m => match m !! x with Some c => Ok (c, s) | None => Fail InvalidDeref end
                 | None => Fail InvalidDeref
                 end
  end.
Definition put_subject (r : ctxref) (c : SubjectContext) : DM unit := fun s =>
  match r with
  | Own => Ok (tt, set_own c s)
  | Subject x => match subjects s with
                 | Some m => Ok (tt, set_subjects (Some (<[x := c]> m)) s)
                 | None => Fail InvalidDeref
                 end
  end.

Definition get_ctx (r : ctxref) : DM mamaDqContext := c ← get_subject r; mret (mDqContext c).
Definition upd_ctx (r : ctxref) (f : mamaDqContext -> mamaDqContext) : DM unit :=
  c ← get_subject r;
  put_subject r (mkSubject (f (mDqContext c)) (mImageCount c) (mInitialArrived c) (mSymbol c)).

(** ** [dqstrategy.c] *)

Definition dqStrategy_create (mem : bool) : mama_status * option dqStrategyImpl :=
  if negb mem then (MAMA_STATUS_NOMEM, None)
  else (MAMA_STATUS_OK, Some (mkStrategy false true)).

Definition dqStrategy_setRecoverGaps (st : option dqStrategyImpl) (v : bool)
  : mama_status * option dqStrategyImpl :=
  match st with
  | Some x => (MAMA_STATUS_OK, Some (mkStrategy (mTryToFillGap x) v))
  | None => (MAMA_STATUS_NULL_ARG, None)
  end.

Definition dqStrategy_getRecoverGaps (st : option dqStrategyImpl) : mama_status * option bool :=
  match st with
  | Some x => (MAMA_STATUS_OK, Some (mRecoverGaps x))
  | None => (MAMA_STATUS_NULL_ARG, None)
  end.

Definition dqStrategy_setPossiblyStale (r : ctxref) : DM mama_status :=
  upd_ctx r (set_mDQState DQ_STATE_POSSIBLY_STALE) ;; mret MAMA_STATUS_OK.

Definition dqStrategy_getDqState (r : ctxref) : DM dqState :=
  c ← get_ctx r; mret (mDQState c).

Definition dqStrategy_sendRecapRequest (srcMsg : option mamaMsg) (r : ctxref) : DM mama_status :=
  upd_ctx r (set_mDQState DQ_STATE_WAITING_FOR_RECAP) ;;
  g ← gets isGroup;
  sym ← gets subscSymbol;
  emit (SendRecap (if g : bool then m ← srcMsg; m_issueSymbol m else Some sym)) ;;
  c ← gets cfg;
  (if cb_onRecapRequest c then emit OnRecapRequest else mret tt) ;;
  mret MAMA_STATUS_OK.

(** The loop empties the first [mCacheSize] slots of the array. *)
Definition dqContext_clearCache (r : ctxref) (freeArray : bool) : DM mama_status :=
  c ← get_ctx r;
  match mCache c with
  | None => mret MAMA_STATUS_OK
  | Some slots =>
      if Z.of_nat (length slots) <? mCacheSize c then fail InvalidDeref else
      let n := Z.to_nat (mCacheSize c) in
      upd_ctx r (fun c => set_mCurCacheIdx 0 (set_mCache (Some (replicate n None ++ drop n slots)) c)) ;;
      (if freeArray then upd_ctx r (set_mCache None) else mret tt) ;;
      mret MAMA_STATUS_OK
  end.

Definition dqContext_initializeContext (cacheSize : Z) (recap : bool) (c : mamaDqContext) : mamaDqContext :=
  let c := mkCtx 0 DQ_STATE_NOT_ESTABLISHED (mCache c) 0 (mCacheSize c) recap 0 (mDoNotForward c) false in
  if 0 <? cacheSize then
    match mCache c with
    | None => mkCtx (mSeqNum c) (mDQState c) (Some (replicate (Z.to_nat cacheSize) None)) (mCurCacheIdx c)
                cacheSize (mRecapRequest c) (mSenderId c) (mDoNotForward c) (mSetCacheMsgStale c)
    | Some _ => c
    end
  else set_mCache None c.

Definition dqContext_cleanup (r : ctxref) : DM mama_status :=
  dqContext_clearCache r true ;;
  upd_ctx r (set_mRecapRequest false) ;;
  mret MAMA_STATUS_OK.

(** The scan of [dqStrategyImpl_detachMsg]: the first [n] slots. *)
Fixpoint detach_slots (n : nat) (seqNum : Z) (slots : list (option mamaMsg)) : list (option mamaMsg) :=
  match n, slots with
  | S n', Some m :: slots' =>
      if mamaMsg_getSeqNum m =? seqNum then None :: slots' else Some m :: detach_slots n' seqNum slots'
  | S n', None :: slots' => None :: detach_slots n' seqNum slots'
  | _, _ => slots
  end.

Definition dqStrategyImpl_detachMsg (r : ctxref) (msg : mamaMsg) : DM mama_status :=
  upd_ctx r (fun c => set_mCache (detach_slots (Z.to_nat (mCacheSize c)) (mamaMsg_getSeqNum msg) <$> mCache c) c) ;;
  mret MAMA_STATUS_OK.

(** Writing the slot [mCurCacheIdx] of the ring. *)
Definition dqContext_cacheMsg (r : ctxref) (msg : mamaMsg) : DM mama_status :=
  c ← get_ctx r;
  match mCache c with
  | None => mret MAMA_STATUS_OK
  | Some slots =>
      if (mCurCacheIdx c <? 0) || (Z.of_nat (length slots) <=? mCurCacheIdx c) then fail InvalidDeref else
      let idx := mCurCacheIdx c + 1 in
      upd_ctx r (fun c => set_mCurCacheIdx (if idx =? mCacheSize c then 0 else idx)
                   (set_mCache (Some (<[Z.to_nat (mCurCacheIdx c) := Some msg]> slots)) c)) ;;
      mret MAMA_STATUS_OK
  end.

(** ** [dqstrategyplugin.c] *)

Definition resetDqContext (r : ctxref) (seqNum senderId : Z) : DM unit :=
  upd_ctx r (set_mSeqNum seqNum) ;; upd_ctx r (set_mSenderId senderId).

Definition resetDqState (r : ctxref) : DM unit :=
  c ← get_ctx r;
  (if negb (bool_decide (mDQState c = DQ_STATE_OK)) && negb (bool_decide (mDQState c = DQ_STATE_NOT_ESTABLISHED))
   then k ← gets cfg; if cb_onQuality k then emit (OnQuality MAMA_QUALITY_OK) else mret tt
   else mret tt) ;;
  upd_ctx r (set_mDQState DQ_STATE_OK).

(** The message comes back with its new status. *)
Definition handleStaleData (msg : mamaMsg) (r : ctxref) : DM mamaMsg :=
  let msg := set_status MAMA_MSG_STATUS_STALE msg in
  c ← get_ctx r;
  (if negb (bool_decide (mDQState c = DQ_STATE_WAITING_FOR_RECAP)) &&
      negb (bool_decide (mDQState c = DQ_STATE_POSSIBLY_STALE))
   then
     dqStrategy_sendRecapRequest (Some msg) r ;;
     k ← gets cfg;
     if cb_onQuality k then emit (OnQuality MAMA_QUALITY_STALE) else mret tt
   else if bool_decide (mDQState c = DQ_STATE_POSSIBLY_STALE) &&
           negb (bool_decide (mDQState c = DQ_STATE_WAITING_FOR_RECAP))
   then dqStrategy_sendRecapRequest (Some msg) r ;; mret tt
   else mret tt) ;;
  mret msg.

Definition mamaSubscription_forwardMsg (msg : mamaMsg) : DM unit := emit (OnMsg msg).

(** The loop of [applyPreInitialCache]: slots [i .. mCurCacheIdx - 1], [n] of
    them left. *)
Fixpoint pre_initial_loop (n : nat) (i : Z) (expected : Z) (r : ctxref) : DM mama_status :=
  match n with
  | O => mret MAMA_STATUS_OK
  | S n' =>
      c ← get_ctx r;
      match mCache c with
      | None => fail InvalidDeref
      | Some slots =>
          match slots !! Z.to_nat i with
          | None => fail InvalidDeref
          | Some None => mret MAMA_STATUS_OK
          | Some (Some m) =>
              let seq := mamaMsg_getSeqNum m in
              if expected =? seq then
                mamaSubscription_forwardMsg m ;;
                upd_ctx r (set_mSeqNum seq) ;;
                pre_initial_loop n' (i + 1) (u32 (seq + 1)) r
              else if expected <? seq then mret MAMA_STATUS_OK
              else pre_initial_loop n' (i + 1) expected r
          end
      end
  end.

Definition applyPreInitialCache (r : ctxref) : DM mama_status :=
  c ← get_ctx r;
  match mCache c with
  | None => mret MAMA_STATUS_OK
  | Some _ => pre_initial_loop (Z.to_nat (mCurCacheIdx c)) 0 (u32 (mSeqNum c + 1)) r
  end.

Definition handleFTTakeover (r : ctxref) (seqNum senderId : Z) (recoverOnRecap : bool) : DM mama_status :=
  (if recoverOnRecap then
     upd_ctx r (set_mSeqNum seqNum) ;;
     upd_ctx r (set_mDQState DQ_STATE_WAITING_FOR_RECAP_AFTER_FT)
   else
     resetDqState r ;;
     resetDqContext r seqNum senderId) ;;
  mret MAMA_STATUS_OK.

(** The [do ... while] of [fillGap]; the fuel is the number of slots. *)
Fixpoint fill_loop (fuel : nat) (cur next end_ : Z) (r : ctxref) : DM bool :=
  match fuel with
  | O => fail OutOfFuel
  | S fuel' =>
      c ← get_ctx r;
      match mCache c with
      | None => fail InvalidDeref
      | Some slots =>
          match slots !! Z.to_nat cur with
          | None => fail InvalidDeref
          | Some None => mret false
          | Some (Some m) =>
              let again next :=
                let cur := if cur + 1 =? mCacheSize c then 0 else cur + 1 in
                if cur =? mCurCacheIdx c then mret false else fill_loop fuel' cur next end_ r in
              if mamaMsg_getSeqNum m =? next then
                let m := if mSetCacheMsgStale c then set_status MAMA_MSG_STATUS_STALE m else m in
                upd_ctx r (set_mCache (Some (<[Z.to_nat cur := Some m]> slots))) ;;
                mamaSubscription_forwardMsg m ;;
                if u32 (next + 1) =? end_ then mret true else again (u32 (next + 1))
              else again next
          end
      end
  end.

Definition fillGap (r : ctxref) (end_ : Z) : DM bool :=
  c ← get_ctx r;
  filled ← match mCache c with
           | None => mret false
           | Some slots =>
               match slots !! Z.to_nat (mCurCacheIdx c) with
               | None => fail InvalidDeref
               | Some x =>
                   fill_loop (length slots) (match x with None => 0 | Some _ => mCurCacheIdx c end)
                     (u32 (mSeqNum c + 1)) end_ r
               end
           end;
  if filled : bool then mret true
  else upd_ctx r (set_mSetCacheMsgStale false) ;; mret false.

Definition set_try (v : bool) : DM unit :=
  modify (fun s => set_mDqStrategy ((fun x => mkStrategy v (mRecoverGaps x)) <$> mDqStrategy s) s).

(** Lines 733 to 850 of [checkSeqNum]: updates of every kind.  [ctxSeqNum] and
    [ctxDqState] are the context's values when the message arrived. *)
Definition check_update (r : ctxref) (msg : mamaMsg) (seqNum ctxSeqNum conflateCnt : Z) (ctxDqState : dqState)
  : DM mamaMsg :=
  k ← gets cfg;
  st ← gets mDqStrategy;
  let try_fill := match st with Some x => mTryToFillGap x | None => false end in
  let in_order := (bool_decide (ctxDqState = DQ_STATE_NOT_ESTABLISHED) || (seqNum =? 0) ||
                   (seqNum =? u32 (ctxSeqNum + conflateCnt))) &&
                  (negb (bool_decide (ctxDqState = DQ_STATE_WAITING_FOR_RECAP)) ||
                   negb (bool_decide (ctxDqState = DQ_STATE_WAITING_FOR_RECAP_AFTER_FT))) in
  (if in_order then
     (if try_fill then set_try false ;; dqContext_clearCache r false ;; mret tt else mret tt) ;;
     emit UnsetAllPossiblyStale
   else mret tt) ;;
  if in_order && bool_decide (m_status msg = MAMA_MSG_STATUS_OK) then
    resetDqState r ;;
    upd_ctx r (set_mSeqNum seqNum) ;;
    mret msg
  else
  c ← get_ctx r;
  let waiting := bool_decide (mDQState c = DQ_STATE_WAITING_FOR_RECAP) ||
                 bool_decide (mDQState c = DQ_STATE_WAITING_FOR_RECAP_AFTER_FT) in
  let ignore := match t_scheme k with DQ_SCHEME_INGORE_DUPS => (seqNum <=? ctxSeqNum) && negb waiting | _ => false end in
  if ignore then upd_ctx r (set_mDoNotForward true) ;; mret msg
  else if (seqNum =? ctxSeqNum) && negb (bool_decide (ctxDqState = DQ_STATE_WAITING_FOR_RECAP_AFTER_FT)) then
    upd_ctx r (set_mDQState DQ_STATE_DUPLICATE) ;;
    (if cb_onQuality k then emit (OnQuality MAMA_QUALITY_DUPLICATE) else mret tt) ;;
    mret (set_status MAMA_MSG_STATUS_DUPLICATE msg)
  else if bool_decide (ctxDqState = DQ_STATE_WAITING_FOR_RECAP_AFTER_FT) then
    upd_ctx r (set_mDoNotForward true) ;; mret msg
  else
  st ← gets mDqStrategy;
  let try_fill := match st with Some x => mTryToFillGap x | None => false end in
  let attempt := match t_preInitial k with PRE_INITIAL_SCHEME_ON_GAP => try_fill | _ => false end in
  filled ← (if attempt then
              set_try false ;;
              f ← fillGap r seqNum;
              dqContext_clearCache r false ;;
              (if f : bool then upd_ctx r (set_mSeqNum seqNum) else mret tt) ;;
              mret f
            else mret false);
  if filled : bool then mret msg else
  (if cb_onGap k then emit OnGap else mret tt) ;;
  handleStaleData msg r.

(** Lines 867 to 920: an initial or a recap resets the context. *)
Definition check_recap (r : ctxref) (msgType : mamaMsgType) (seqNum ctxSeqNum senderId : Z) : DM unit :=
  k ← gets cfg;
  c ← get_ctx r;
  let waiting := bool_decide (mDQState c = DQ_STATE_WAITING_FOR_RECAP) ||
                 bool_decide (mDQState c = DQ_STATE_WAITING_FOR_RECAP_AFTER_FT) in
  let ignore :=
    match t_scheme k, msgType with
    | DQ_SCHEME_INGORE_DUPS, MAMA_MSG_TYPE_RECAP => (seqNum <=? ctxSeqNum) && negb waiting
    | DQ_SCHEME_INGORE_DUPS, MAMA_MSG_TYPE_BOOK_RECAP =>
        if (seqNum =? 0) && (0 <? ctxSeqNum)
        then negb (bool_decide (mDQState c = DQ_STATE_WAITING_FOR_RECAP_AFTER_FT))
        else (seqNum <=? ctxSeqNum) && negb waiting
    | _, _ => false
    end in
  if ignore then upd_ctx r (set_mDoNotForward true) else
  (if t_preRecapCache k then set_try true else mret tt) ;;
  emit UnsetAllPossiblyStale ;;
  resetDqState r ;;
  resetDqContext r seqNum senderId ;;
  upd_ctx r (set_mDoNotForward false).

(** The strategy's subscription is read before the strategy is tested for NULL. *)
Definition checkSeqNum (r : ctxref) (msg : mamaMsg) (msgType : mamaMsgType) : DM (mama_status * mamaMsg) :=
  st ← gets mDqStrategy;
  match st with
  | None => fail InvalidDeref
  | Some st =>
      if negb (mRecoverGaps st) then mret (MAMA_STATUS_INVALID_ARG, msg) else
      c ← get_ctx r;
      k ← gets cfg;
      let seqNum := mamaMsg_getSeqNum msg in
      let senderId := default 0 (m_senderId msg) in
      upd_ctx r (set_mDoNotForward false) ;;
      let takeover := negb (mSenderId c =? 0) && negb (senderId =? 0) && negb (mSenderId c =? senderId) in
      let wait := match t_ft k with DQ_FT_WAIT_FOR_RECAP => true | _ => false end in
      if takeover && negb wait then
        s ← handleFTTakeover r seqNum senderId false; mret (s, msg)
      else
      (if takeover then
         upd_ctx r (set_mDoNotForward true) ;;
         handleFTTakeover r seqNum senderId true ;; mret tt
       else mret tt) ;;
      match msgType with
      | MAMA_MSG_TYPE_SEC_STATUS | MAMA_MSG_TYPE_BOOK_UPDATE =>
          m ← check_update r msg seqNum (mSeqNum c) 1 (mDQState c); mret (MAMA_STATUS_OK, m)
      | MAMA_MSG_TYPE_INITIAL | MAMA_MSG_TYPE_BOOK_INITIAL =>
          set_try true ;;
          if bool_decide (m_status msg = MAMA_MSG_STATUS_POSSIBLY_STALE) ||
             bool_decide (m_status msg = MAMA_MSG_STATUS_STALE)
          then
            upd_ctx r (set_mDQState DQ_STATE_STALE_NO_RECAP) ;;
            resetDqContext r seqNum senderId ;;
            mret (MAMA_STATUS_OK, msg)
          else check_recap r msgType seqNum (mSeqNum c) senderId ;; mret (MAMA_STATUS_OK, msg)
      | MAMA_MSG_TYPE_RECAP | MAMA_MSG_TYPE_BOOK_RECAP =>
          check_recap r msgType seqNum (mSeqNum c) senderId ;; mret (MAMA_STATUS_OK, msg)
      | MAMA_MSG_TYPE_DDICT_SNAPSHOT => mret (MAMA_STATUS_OK, msg)
      | _ =>
          m ← check_update r msg seqNum (mSeqNum c) (default 1 (m_conflateCount msg)) (mDQState c);
          mret (MAMA_STATUS_OK, m)
      end
  end.

Definition isInitialMessageOrRecap (msgType : mamaMsgType) : bool :=
  match msgType with
  | MAMA_MSG_TYPE_INITIAL | MAMA_MSG_TYPE_SNAPSHOT | MAMA_MSG_TYPE_DDICT_SNAPSHOT | MAMA_MSG_TYPE_RECAP
  | MAMA_MSG_TYPE_BOOK_INITIAL | MAMA_MSG_TYPE_BOOK_SNAPSHOT | MAMA_MSG_TYPE_BOOK_RECAP => true
  | _ => false
  end.

(** [mamaSubscription_getSubjectContext] of [subscription.c]: a group
    subscription finds or makes the context of the message's symbol; NULL when
    the message has none. *)
Definition empty_ctx : mamaDqContext := mkCtx 0 DQ_STATE_OK None 0 0 false 0 false false.

Definition mamaSubscription_getSubjectContext (msg : mamaMsg) : DM (option ctxref) := fun s =>
  match subjects s with
  | None => Ok (Some Own, s)
  | Some tbl =>
      match m_issueSymbol msg with
      | None => Ok (None, s)
      | Some sym =>
          match tbl !! sym with
          | Some _ => Ok (Some (Subject sym), s)
          | None =>
              let c := mkSubject (dqContext_initializeContext (mPreInitialCacheSize s) true empty_ctx) 0 false sym in
              Ok (Some (Subject sym), set_subjects (Some (<[sym := c]> tbl)) s)
          end
      end
  end.

(** [mamaSubscription_getDqContext] returns the subscription's own context,
    whatever the message. *)
Definition mamaSubscription_getDqContext : ctxref := Own.

(** Lines 170 to 195: the last message of an answer is an image. *)
Definition note_image (msg : mamaMsg) (ctx : ctxref) : DM unit :=
  if (msgUtils_msgTotal msg =? 0) || (msgUtils_msgNum msg =? msgUtils_msgTotal msg) then
    modify (fun s => set_mInitialCount (mInitialCount s + 1) s) ;;
    sc ← get_subject ctx;
    put_subject ctx (mkSubject (mDqContext sc) (mImageCount sc + 1) true (mSymbol sc)) ;;
    a ← gets mAcceptMultipleInitials;
    if a : bool then mret tt else emit StopWaitForResponse
  else mret tt.

(** Lines 201 to 219. *)
Definition forward_checked (msg : mamaMsg) (ctx : ctxref) : DM unit :=
  u ← gets expectingUpdates;
  a ← gets mAcceptMultipleInitials;
  (if negb u && negb a then emit Deactivate else mret tt) ;;
  c ← get_ctx ctx;
  if mDoNotForward c then mret tt else mamaSubscription_forwardMsg msg.

(** Lines 225 to 238. *)
Definition apply_cache (msgType : mamaMsgType) (ctx : ctxref) : DM unit :=
  k ← gets cfg;
  let applies := match t_preInitial k, msgType with
                 | PRE_INITIAL_SCHEME_ON_INITIAL, (MAMA_MSG_TYPE_INITIAL | MAMA_MSG_TYPE_BOOK_INITIAL) => true
                 | PRE_INITIAL_SCHEME_ON_INITIAL, (MAMA_MSG_TYPE_RECAP | MAMA_MSG_TYPE_BOOK_RECAP) => t_preRecapCache k
                 | _, _ => false
                 end in
  if applies : bool then applyPreInitialCache ctx ;; dqContext_clearCache ctx false ;; mret tt else mret tt.

Definition processPointToPointMessage (msg : mamaMsg) (msgType : mamaMsgType) (ctx : ctxref) : DM unit :=
  note_image msg ctx ;;
  p ← checkSeqNum mamaSubscription_getDqContext msg msgType;
  forward_checked p.2 ctx ;;
  apply_cache msgType ctx.

Definition dqstrategyMamaPlugin_subscriptionPreMsgHook (msgType : mamaMsgType) (msg : mamaMsg) : DM mama_status :=
  subject ← mamaSubscription_getSubjectContext msg;
  k ← gets cfg;
  if negb (t_handleEvent k) then mret MAMA_STATUS_OK else
  match subject with
  | None => fail InvalidDeref
  | Some subject =>
      if isInitialMessageOrRecap msgType then
        processPointToPointMessage msg msgType subject ;; mret MAMA_STATUS_OK
      else
      expecting ← gets mExpectingInitial;
      state ← dqStrategy_getDqState subject;
      sc ← get_subject subject;
      let waiting := bool_decide (state = DQ_STATE_WAITING_FOR_RECAP) && t_preRecapCache k in
      let cacheable := match msgType with
                       | MAMA_MSG_TYPE_DELETE | MAMA_MSG_TYPE_EXPIRE | MAMA_MSG_TYPE_UNKNOWN => false
                       | _ => true
                       end in
      if (expecting && negb (mInitialArrived sc)) || (waiting && cacheable) then
        (if waiting then upd_ctx subject (set_mSetCacheMsgStale true) else mret tt) ;;
        dqContext_cacheMsg mamaSubscription_getDqContext msg ;;
        mret MAMA_STATUS_OK
      else
      match msgType with
      | MAMA_MSG_TYPE_REFRESH | MAMA_MSG_TYPE_DELETE | MAMA_MSG_TYPE_EXPIRE
      | MAMA_MSG_TYPE_NOT_PERMISSIONED | MAMA_MSG_TYPE_NOT_FOUND | MAMA_MSG_TYPE_UNKNOWN => mret MAMA_STATUS_OK
      | _ =>
          p ← checkSeqNum mamaSubscription_getDqContext msg msgType;
          c ← get_ctx subject;
          (if mDoNotForward c then mret tt else mamaSubscription_forwardMsg p.2) ;;
          mret MAMA_STATUS_OK
      end
  end.

(** A subscription with a fresh strategy, as
    [dqstrategyMamaPlugin_subscriptionPostCreateHook] leaves it. *)
Definition dqstrategyMamaPlugin_subscriptionPostCreateHook (mem : bool) : DM mama_status :=
  k ← gets cfg;
  if negb (t_handleEvent k) then mret MAMA_STATUS_OK else
  match dqStrategy_create mem with
  | (_, None) => mret MAMA_STATUS_NOMEM
  | (_, st) => modify (set_mDqStrategy st) ;; mret MAMA_STATUS_OK
  end.

End DqStrategy.
