(* ===== verification/DqSpec.v ===== *)
(** * What the data quality strategy guarantees

    Rules for running the strategy on a subscription to a single symbol (its
    subject context is the subscription's own), then the properties. *)

From S2P Require Import Prelude MamaStatus DqStrategy.
Import DqStrategy.

Definition dq (s : subscription) : mamaDqContext := mDqContext (own s).
Definition set_dq (c : mamaDqContext) (s : subscription) : subscription :=
  set_own (mkSubject c (mImageCount (own s)) (mInitialArrived (own s)) (mSymbol (own s))) s.

(** ** Rules *)

Lemma wp_get_ctx s Q : Q (dq s) s -> wp (get_ctx Own) s Q.
Proof. done. Qed.
Lemma wp_get_subject s Q : Q (own s) s -> wp (get_subject Own) s Q.
Proof. done. Qed.
Lemma wp_upd_ctx f s Q : Q tt (set_dq (f (dq s)) s) -> wp (upd_ctx Own f) s Q.
Proof. done. Qed.
Lemma wp_emit e s Q : Q tt (set_trace (trace s ++ [e]) s) -> wp (emit e) s Q.
Proof. done. Qed.
Lemma wp_if {S A} (b : bool) (m1 m2 : M S A) s Q :
  (b = true -> wp m1 s Q) -> (b = false -> wp m2 s Q) -> wp (if b then m1 else m2) s Q.
Proof. destruct b; auto. Qed.

Arguments get_ctx : simpl never.
Arguments upd_ctx : simpl never.
Arguments get_subject : simpl never.

Ltac dq_simpl :=
  unfold dq, set_dq, set_own, set_subjects, set_mDqStrategy, set_mInitialCount, set_trace in *;
  cbn [own subjects mDqStrategy isGroup subscSymbol mExpectingInitial mAcceptMultipleInitials expectingUpdates
       mInitialCount mPreInitialCacheSize cfg trace mDqContext mImageCount mInitialArrived mSymbol
       mSeqNum mDQState mCache mCurCacheIdx mCacheSize mRecapRequest mSenderId mDoNotForward mSetCacheMsgStale
       set_mSeqNum set_mDQState set_mCache set_mCurCacheIdx set_mRecapRequest set_mSenderId set_mDoNotForward
       set_mSetCacheMsgStale mTryToFillGap mRecoverGaps] in *.

Ltac wp_dq_step :=
  first [ wp_pure_step
        | lazymatch goal with
          | |- wp (get_ctx Own) _ _ => apply wp_get_ctx
          | |- wp (get_subject Own) _ _ => apply wp_get_subject
          | |- wp (upd_ctx Own _) _ _ => apply wp_upd_ctx
          | |- wp (emit _) _ _ => apply wp_emit
          end ].
Ltac wp_dq := repeat (cbn beta iota; wp_dq_step).

(** ** A live subscription *)

(** A subscription to one symbol that got its initial: the strategy is there and
    recovers gaps, and the ring has the size it was allocated with. *)
Record live (s : subscription) : Prop := {
  l_single : subjects s = None;
  l_group : isGroup s = false;
  l_plugin : t_handleEvent (cfg s) = true;
  l_strategy : exists st, mDqStrategy s = Some st /\ mRecoverGaps st = true;
  l_initial : mExpectingInitial s = true -> mInitialArrived (own s) = true;
  l_cache : forall slots, mCache (dq s) = Some slots ->
    Z.of_nat (length slots) = mCacheSize (dq s) /\ 0 <= mCurCacheIdx (dq s) < mCacheSize (dq s);
}.

(** The conflation count an update type carries; [None] for the types whose
    sequence number is not checked, and for initials and recaps. *)
Definition update_conflate (t : mamaMsgType) (m : mamaMsg) : option Z :=
  match t with
  | MAMA_MSG_TYPE_SEC_STATUS | MAMA_MSG_TYPE_BOOK_UPDATE => Some 1
  | MAMA_MSG_TYPE_INITIAL | MAMA_MSG_TYPE_SNAPSHOT | MAMA_MSG_TYPE_DDICT_SNAPSHOT | MAMA_MSG_TYPE_RECAP
  | MAMA_MSG_TYPE_BOOK_INITIAL | MAMA_MSG_TYPE_BOOK_SNAPSHOT | MAMA_MSG_TYPE_BOOK_RECAP
  | MAMA_MSG_TYPE_REFRESH | MAMA_MSG_TYPE_DELETE | MAMA_MSG_TYPE_EXPIRE
  | MAMA_MSG_TYPE_NOT_PERMISSIONED | MAMA_MSG_TYPE_NOT_FOUND | MAMA_MSG_TYPE_UNKNOWN => None
  | _ => Some (default 1 (m_conflateCount m))
  end.

(** The message is from the sender the context knows, as far as they say. *)
Definition same_sender (s : subscription) (m : mamaMsg) : Prop :=
  mSenderId (dq s) = 0 \/ default 0 (m_senderId m) = 0 \/ mSenderId (dq s) = default 0 (m_senderId m).

Lemma no_takeover s m : same_sender s m ->
  negb (mSenderId (dq s) =? 0) && negb (default 0 (m_senderId m) =? 0) &&
  negb (mSenderId (dq s) =? default 0 (m_senderId m)) = false.
Proof.
  unfold same_sender. intros H.
  destruct (Z.eqb_spec (mSenderId (dq s)) 0), (Z.eqb_spec (default 0 (m_senderId m)) 0),
    (Z.eqb_spec (mSenderId (dq s)) (default 0 (m_senderId m))); cbn; (done || lia).
Qed.

(** The context as [checkSeqNum] finds it after clearing [mDoNotForward]. *)
Definition cleared (s : subscription) : subscription := set_dq (set_mDoNotForward false (dq s)) s.

Lemma checkSeqNum_update s t m cc Q :
  live s -> update_conflate t m = Some cc -> same_sender s m ->
  wp (check_update Own m (mamaMsg_getSeqNum m) (mSeqNum (dq s)) cc (mDQState (dq s))) (cleared s)
     (fun m' s' => Q (MAMA_STATUS_OK, m') s') ->
  wp (checkSeqNum Own m t) s Q.
Proof.
  intros L Hc Hs HQ. destruct (l_strategy _ L) as (st & Est & Erg). unfold checkSeqNum. wp_dq.
  rewrite Est, Erg. cbn [negb]. wp_dq. rewrite (no_takeover s m Hs). cbn [andb]. wp_dq.
  destruct t; try done; injection Hc as <-; apply wp_bind; eapply wp_mono; try exact HQ;
    cbn beta; intros; by apply wp_ret.
Qed.

(** Not kept back before a recap. *)
Definition not_held (s : subscription) : Prop :=
  t_preRecapCache (cfg s) = false \/ mDQState (dq s) ≠ DQ_STATE_WAITING_FOR_RECAP.

(** An update on a live subscription: check it, then forward it unless the
    check said not to. *)
Lemma hook_check s t m cc Q :
  live s -> not_held s -> update_conflate t m = Some cc ->
  wp (checkSeqNum Own m t) s
     (fun p s' => Q MAMA_STATUS_OK (if mDoNotForward (dq s') then s' else set_trace (trace s' ++ [OnMsg p.2]) s')) ->
  wp (dqstrategyMamaPlugin_subscriptionPreMsgHook t m) s Q.
Proof.
  intros L Hnh Hc HQ. unfold dqstrategyMamaPlugin_subscriptionPreMsgHook.
  apply wp_bind. unfold mamaSubscription_getSubjectContext, wp at 1. rewrite (l_single _ L). wp_dq.
  rewrite (l_plugin _ L). cbn [negb].
  assert (isInitialMessageOrRecap t = false) as -> by (by destruct t). wp_dq.
  unfold dqStrategy_getDqState. wp_dq.
  assert (mExpectingInitial s && negb (mInitialArrived (own s)) = false) as ->.
  { pose proof (l_initial _ L). destruct (mExpectingInitial s); [|done]. by rewrite H. }
  assert (bool_decide (mDQState (dq s) = DQ_STATE_WAITING_FOR_RECAP) && t_preRecapCache (cfg s) = false) as ->.
  { destruct Hnh as [-> | Hn]; [by rewrite andb_false_r|]. by rewrite bool_decide_false. }
  cbn [orb andb].
  assert (wp (p ← checkSeqNum Own m t; c ← get_ctx Own;
              (if mDoNotForward c then mret tt else mamaSubscription_forwardMsg p.2) ;; mret MAMA_STATUS_OK) s Q) as HW.
  { apply wp_bind. eapply wp_mono; [exact HQ|]. cbn beta. intros p s' HQ'. wp_dq.
    destruct (mDoNotForward (dq s')); unfold mamaSubscription_forwardMsg; wp_dq; exact HQ'. }
  destruct t; try done; exact HW.
Qed.

Lemma hook_update s t m cc Q :
  live s -> not_held s -> update_conflate t m = Some cc -> same_sender s m ->
  wp (check_update Own m (mamaMsg_getSeqNum m) (mSeqNum (dq s)) cc (mDQState (dq s))) (cleared s)
     (fun m' s' => Q MAMA_STATUS_OK (if mDoNotForward (dq s') then s' else set_trace (trace s' ++ [OnMsg m']) s')) ->
  wp (dqstrategyMamaPlugin_subscriptionPreMsgHook t m) s Q.
Proof.
  intros L Hnh Hc Hs HQ. eapply hook_check; [done..|]. by apply (checkSeqNum_update _ _ _ cc).
Qed.

(** ** The steps of the check *)

(** The strategy will try the ring at the next gap. *)
Definition try_fill (s : subscription) : bool :=
  match mDqStrategy s with Some x => mTryToFillGap x | None => false end.

(** Two states that differ in the context's numbers and the trace only. *)
Definition same_env (s s' : subscription) : Prop :=
  live s' /\ cfg s' = cfg s /\ subscSymbol s' = subscSymbol s /\ mSenderId (dq s') = mSenderId (dq s) /\
  mDoNotForward (dq s') = mDoNotForward (dq s).

Lemma same_env_refl s : live s -> same_env s s.
Proof. done. Qed.
Lemma same_env_trans s1 s2 s3 : same_env s1 s2 -> same_env s2 s3 -> same_env s1 s3.
Proof. unfold same_env. intros (?&?&?&?&?) (?&?&?&?&?). split_and!; congruence. Qed.

Lemma live_set_dq c s :
  live s -> mCache c = mCache (dq s) -> mCurCacheIdx c = mCurCacheIdx (dq s) ->
  mCacheSize c = mCacheSize (dq s) -> live (set_dq c s).
Proof.
  intros [H1 H2 H3 H4 H5 H6] E1 E2 E3. split; try done.
  change (dq (set_dq c s)) with c. by rewrite E1, E2, E3.
Qed.
Lemma live_set_trace t s : live s -> live (set_trace t s).
Proof. intros [H1 H2 H3 H4 H5 H6]. by split. Qed.

(** Splits the postconditions, showing the state live. *)
Ltac env_solve :=
  unfold same_env; split_and!; try done; repeat first [apply live_set_trace | apply live_set_dq]; try done.

Lemma live_cleared s : live s -> live (cleared s).
Proof. intros L. by apply live_set_dq. Qed.

Lemma clearCache_spec s :
  live s ->
  wp (dqContext_clearCache Own false) s (fun _ s' =>
    same_env s s' /\ mDQState (dq s') = mDQState (dq s) /\ mSeqNum (dq s') = mSeqNum (dq s) /\
    trace s' = trace s /\ mDqStrategy s' = mDqStrategy s).
Proof.
  intros L. unfold dqContext_clearCache. wp_dq. pose proof (l_cache _ L) as Hc.
  destruct (mCache (dq s)) as [slots|] eqn:E; [|wp_dq; by split_and!].
  destruct (Hc slots eq_refl) as [Hl Hi]. rewrite (proj2 (Z.ltb_ge _ _)) by lia. wp_dq.
  split_and!; try done. destruct L as [H1 H2 H3 H4 H5 H6]. split_and!; try done.
  split; try done. dq_simpl. intros sl [= <-]. rewrite length_app, length_replicate, length_drop. lia.
Qed.

Lemma set_try_spec v s :
  live s -> wp (set_try v) s (fun _ s' => same_env s s' /\ mDQState (dq s') = mDQState (dq s) /\
    mSeqNum (dq s') = mSeqNum (dq s) /\ dq s' = dq s /\ trace s' = trace s /\ try_fill s' = v).
Proof.
  intros [H1 H2 H3 (st & E & Er) H5 H6]. unfold set_try. apply wp_modify. rewrite E. cbn.
  split_and!; try done. split_and!; try done. split; try done. eauto.
Qed.

(** What [resetDqState] tells the application. *)
Definition quality_ok_event (s : subscription) : list event :=
  if bool_decide (mDQState (dq s) = DQ_STATE_OK) || bool_decide (mDQState (dq s) = DQ_STATE_NOT_ESTABLISHED)
     || negb (cb_onQuality (cfg s))
  then [] else [OnQuality MAMA_QUALITY_OK].

Lemma resetDqState_spec s :
  live s -> wp (resetDqState Own) s (fun _ s' => same_env s s' /\ mDQState (dq s') = DQ_STATE_OK /\
    mSeqNum (dq s') = mSeqNum (dq s) /\ trace s' = trace s ++ quality_ok_event s /\ try_fill s' = try_fill s).
Proof.
  intros L. unfold resetDqState, quality_ok_event. wp_dq.
  assert (forall s1 tr, same_env s s1 -> mSeqNum (dq s1) = mSeqNum (dq s) -> trace s1 = tr -> try_fill s1 = try_fill s ->
    let s' := set_dq (set_mDQState DQ_STATE_OK (dq s1)) s1 in
    same_env s s' /\ mDQState (dq s') = DQ_STATE_OK /\ mSeqNum (dq s') = mSeqNum (dq s) /\ trace s' = tr /\ try_fill s' = try_fill s) as Hend.
  { intros s1 tr (L1 & E1 & E2 & E3 & E4) E5 E6 E7. split_and!; try done. split_and!; try done.
    destruct L1 as [H1 H2 H3 H4 H5 H6]. by split. }
  destruct (bool_decide (mDQState (dq s) = DQ_STATE_OK)); cbn [negb andb orb];
    [|destruct (bool_decide (mDQState (dq s) = DQ_STATE_NOT_ESTABLISHED)); cbn [negb andb orb];
      [|wp_dq; destruct (cb_onQuality (cfg s)); cbn [negb]]]; wp_dq;
    rewrite ?app_nil_r; apply Hend; try done.
  destruct L as [H1 H2 H3 H4 H5 H6]. split_and!; try done; by split.
Qed.

(** The second half of the condition for a message in order is always true. *)
Lemma waiting_test_true (st : dqState) :
  negb (bool_decide (st = DQ_STATE_WAITING_FOR_RECAP)) ||
  negb (bool_decide (st = DQ_STATE_WAITING_FOR_RECAP_AFTER_FT)) = true.
Proof. by destruct st. Qed.

Definition in_order (st : dqState) (seqNum ctxSeqNum cc : Z) : bool :=
  bool_decide (st = DQ_STATE_NOT_ESTABLISHED) || (seqNum =? 0) || (seqNum =? u32 (ctxSeqNum + cc)).

(** A message in order with status OK. *)
Lemma check_update_in_order s m seqNum ctxSeqNum cc st0 :
  live s -> in_order st0 seqNum ctxSeqNum cc = true -> m_status m = MAMA_MSG_STATUS_OK ->
  wp (check_update Own m seqNum ctxSeqNum cc st0) s (fun m' s' =>
    m' = m /\ same_env s s' /\ mDQState (dq s') = DQ_STATE_OK /\ mSeqNum (dq s') = seqNum /\
    trace s' = trace s ++ [UnsetAllPossiblyStale] ++ quality_ok_event s /\ try_fill s' = false).
Proof.
  intros L Hio Hst. unfold check_update. fold (in_order st0 seqNum ctxSeqNum cc). rewrite Hio, waiting_test_true.
  cbn [andb]. wp_dq. rewrite (bool_decide_true (m_status m = MAMA_MSG_STATUS_OK)) by done.
  assert (forall s1, same_env s s1 -> mDQState (dq s1) = mDQState (dq s) -> trace s1 = trace s -> try_fill s1 = false ->
    wp (resetDqState Own) (set_trace (trace s1 ++ [UnsetAllPossiblyStale]) s1) (fun _ s' =>
      wp (upd_ctx Own (set_mSeqNum seqNum) ;; mret m) s' (fun m' s' =>
        m' = m /\ same_env s s' /\ mDQState (dq s') = DQ_STATE_OK /\ mSeqNum (dq s') = seqNum /\
        trace s' = trace s ++ [UnsetAllPossiblyStale] ++ quality_ok_event s /\ try_fill s' = false))) as Hend.
  { intros s1 E1 E2 E3 E3'.
    assert (live (set_trace (trace s1 ++ [UnsetAllPossiblyStale]) s1)) as L2.
    { destruct E1 as ([H1 H2 H3 H4 H5 H6] & _). by split. }
    eapply wp_mono; [by apply resetDqState_spec|]. cbn beta. intros _ s2 (E4 & E5 & _ & E6 & E6'). wp_dq.
    assert (same_env s s2) as E7. { eapply same_env_trans; [exact E1|]. exact E4. }
    split_and!; try done.
    - destruct E7 as (L3 & ? & ? & ? & ?). split_and!; try done. by apply live_set_dq.
    - unfold set_dq, set_own. cbn [trace]. rewrite E6. cbn [trace set_trace]. rewrite E3, <- app_assoc. f_equal. f_equal.
      unfold quality_ok_event. change (dq (set_trace _ s1)) with (dq s1). rewrite E2.
      change (cfg (set_trace _ s1)) with (cfg s1). destruct E1 as (_ & -> & _). done.
    - change (try_fill s2 = false). by rewrite E6'. }
  fold (try_fill s). destruct (try_fill s) eqn:Et.
  - wp_dq. eapply wp_mono; [by apply set_try_spec|]. cbn beta. intros _ s1 (E1 & E2 & _ & _ & E3 & E3').
    apply wp_bind. eapply wp_mono; [apply clearCache_spec, E1|]. cbn beta. intros _ s2 (E4 & E5 & _ & E6 & E6').
    wp_dq. apply Hend; [by eapply same_env_trans|congruence|congruence|].
    unfold try_fill in *. by rewrite E6'.
  - wp_dq. apply Hend; [by apply same_env_refl|done|done|done].
Qed.

(** What stale data make the application and the publisher see. *)
Definition stale_events (s : subscription) : list event :=
  if bool_decide (mDQState (dq s) = DQ_STATE_WAITING_FOR_RECAP) then [] else
    [SendRecap (Some (subscSymbol s))] ++ (if cb_onRecapRequest (cfg s) then [OnRecapRequest] else []) ++
    (if bool_decide (mDQState (dq s) = DQ_STATE_POSSIBLY_STALE) || negb (cb_onQuality (cfg s)) then []
     else [OnQuality MAMA_QUALITY_STALE]).

Definition gap_events (s : subscription) : list event :=
  (if cb_onGap (cfg s) then [OnGap] else []) ++ stale_events s.

Lemma sendRecap_spec s msg :
  live s -> wp (dqStrategy_sendRecapRequest (Some msg) Own) s (fun _ s' =>
    same_env s s' /\ mDQState (dq s') = DQ_STATE_WAITING_FOR_RECAP /\ mSeqNum (dq s') = mSeqNum (dq s) /\
    trace s' = trace s ++ [SendRecap (Some (subscSymbol s))] ++ (if cb_onRecapRequest (cfg s) then [OnRecapRequest] else []) /\
    try_fill s' = try_fill s).
Proof.
  intros L. unfold dqStrategy_sendRecapRequest. wp_dq. change (cfg (set_trace _ _)) with (cfg s).
  change (isGroup (set_dq _ s)) with (isGroup s). rewrite (l_group _ L).
  destruct (cb_onRecapRequest (cfg s)); wp_dq.
  - env_solve. cbn. by rewrite <- app_assoc.
  - env_solve.
Qed.

Lemma handleStaleData_spec s msg :
  live s -> wp (handleStaleData msg Own) s (fun m' s' =>
    m' = set_status MAMA_MSG_STATUS_STALE msg /\ same_env s s' /\
    mDQState (dq s') = DQ_STATE_WAITING_FOR_RECAP /\ mSeqNum (dq s') = mSeqNum (dq s) /\
    trace s' = trace s ++ stale_events s /\ try_fill s' = try_fill s).
Proof.
  intros L. unfold handleStaleData, stale_events. wp_dq.
  destruct (bool_decide_reflect (mDQState (dq s) = DQ_STATE_WAITING_FOR_RECAP)) as [Ew|Ew]; cbn [negb andb].
  - rewrite (bool_decide_false (mDQState (dq s) = DQ_STATE_POSSIBLY_STALE)) by congruence. cbn [andb]. wp_dq.
    rewrite !app_nil_r. split_and!; done.
  - destruct (bool_decide_reflect (mDQState (dq s) = DQ_STATE_POSSIBLY_STALE)) as [Ep|Ep]; cbn [negb andb orb].
    + wp_dq. eapply wp_mono; [by apply sendRecap_spec|]. cbn beta. intros _ s1 (E1 & E2 & E3 & E4 & Et). wp_dq.
      rewrite E4, !app_nil_r. split_and!; done.
    + wp_dq. eapply wp_mono; [by apply sendRecap_spec|]. cbn beta. intros _ s1 (E1 & E2 & E3 & E4 & Et). wp_dq.
      pose proof E1 as (L1 & Ec & E5 & E6 & E7). rewrite Ec. destruct (cb_onQuality (cfg s)); cbn [negb]; wp_dq.
      * env_solve.
        cbn [trace set_trace]. by rewrite E4, <- !app_assoc.
      * rewrite E4, !app_nil_r. split_and!; done.
Qed.

(** A message beyond the expected one, with nothing to fill the gap from. *)
Lemma check_update_gap s m seqNum cc :
  live s -> let st0 := mDQState (dq s) in let ctxSeqNum := mSeqNum (dq s) in
  in_order st0 seqNum ctxSeqNum cc = false -> seqNum ≠ ctxSeqNum ->
  t_scheme (cfg s) = DQ_SCHEME_DELIVER_ALL \/ ctxSeqNum < seqNum \/ st0 = DQ_STATE_WAITING_FOR_RECAP ->
  st0 ≠ DQ_STATE_WAITING_FOR_RECAP_AFTER_FT -> try_fill s = false ->
  wp (check_update Own m seqNum ctxSeqNum cc st0) s (fun m' s' =>
    m' = set_status MAMA_MSG_STATUS_STALE m /\ same_env s s' /\
    mDQState (dq s') = DQ_STATE_WAITING_FOR_RECAP /\ mSeqNum (dq s') = mSeqNum (dq s) /\
    trace s' = trace s ++ gap_events s /\ try_fill s' = try_fill s).
Proof.
  intros L st0 ctxSeqNum Hio Hne Hsch Hft Htry. unfold check_update.
  fold (in_order st0 seqNum ctxSeqNum cc). rewrite Hio, waiting_test_true. cbn [andb]. wp_dq.
  rewrite (proj2 (Z.eqb_neq _ _) Hne). cbn [andb]. fold st0.
  rewrite (bool_decide_false (st0 = DQ_STATE_WAITING_FOR_RECAP_AFTER_FT)) by done. rewrite orb_false_r.
  assert (match t_scheme (cfg s) with
          | DQ_SCHEME_INGORE_DUPS => (seqNum <=? ctxSeqNum) && negb (bool_decide (st0 = DQ_STATE_WAITING_FOR_RECAP))
          | DQ_SCHEME_DELIVER_ALL => false end = false) as ->.
  { destruct (t_scheme (cfg s)); [done|]. destruct Hsch as [?|[Hlt|Hw]]; [done|..].
    - rewrite (proj2 (Z.leb_gt _ _)) by lia. done.
    - rewrite bool_decide_true by done. by rewrite andb_false_r. }
  wp_dq. unfold try_fill in Htry. rewrite Htry.
  assert (match t_preInitial (cfg s) with PRE_INITIAL_SCHEME_ON_GAP => false | _ => false end = false) as -> by (by destruct (t_preInitial (cfg s))).
  wp_dq. unfold gap_events. destruct (cb_onGap (cfg s)); wp_dq.
  - assert (live (set_trace (trace s ++ [OnGap]) s)) as L1 by (by apply live_set_trace).
    eapply wp_mono; [by apply handleStaleData_spec|]. cbn beta.
    intros m' s' (-> & E1 & E2 & E3 & E4 & Et). split_and!; try done.
    rewrite E4. cbn [trace set_trace]. by rewrite <- app_assoc.
  - eapply wp_mono; [by apply handleStaleData_spec|]. done.
Qed.

(** ** Recaps *)

Lemma check_recap_spec s t seqNum senderId :
  live s -> t_scheme (cfg s) = DQ_SCHEME_DELIVER_ALL \/ mSeqNum (dq s) < seqNum \/
            mDQState (dq s) = DQ_STATE_WAITING_FOR_RECAP ->
  t = MAMA_MSG_TYPE_RECAP -> t_preRecapCache (cfg s) = false ->
  wp (check_recap Own t seqNum (mSeqNum (dq s)) senderId) s (fun _ s' =>
    live s' /\ cfg s' = cfg s /\ subscSymbol s' = subscSymbol s /\ mDQState (dq s') = DQ_STATE_OK /\
    mSeqNum (dq s') = seqNum /\ mSenderId (dq s') = senderId /\ mDoNotForward (dq s') = false /\
    try_fill s' = try_fill s /\ trace s' = trace s ++ [UnsetAllPossiblyStale] ++ quality_ok_event s).
Proof.
  intros L Hs -> Hp. unfold check_recap. wp_dq.
  assert (match t_scheme (cfg s) with
          | DQ_SCHEME_DELIVER_ALL => false
          | DQ_SCHEME_INGORE_DUPS => (seqNum <=? mSeqNum (dq s)) &&
              negb (bool_decide (mDQState (dq s) = DQ_STATE_WAITING_FOR_RECAP) ||
                    bool_decide (mDQState (dq s) = DQ_STATE_WAITING_FOR_RECAP_AFTER_FT)) end = false) as E.
  { destruct (t_scheme (cfg s)); [done|]. destruct Hs as [?|[Hlt|Hw]]; [done|..].
    - by rewrite (proj2 (Z.leb_gt _ _)).
    - rewrite bool_decide_true by done. cbn. by rewrite andb_false_r. }
  replace (match t_scheme (cfg s) with DQ_SCHEME_DELIVER_ALL => _ | DQ_SCHEME_INGORE_DUPS => _ end) with false
    by (symmetry; destruct (t_scheme (cfg s)); done).
  wp_dq. rewrite Hp. wp_dq.
  assert (live (set_trace (trace s ++ [UnsetAllPossiblyStale]) s)) as L1 by (by apply live_set_trace).
  eapply wp_mono; [by apply resetDqState_spec|]. cbn beta. intros _ s1 ((L2 & E1 & E2 & E3 & E4) & E5 & E6 & E7 & E8).
  unfold resetDqContext. wp_dq. env_solve.
  cbn. rewrite E7. cbn [trace set_trace]. by rewrite <- app_assoc.
Qed.

(** The subscription stops waiting for an answer, or for anything. *)
Definition stop_events (s : subscription) (m : mamaMsg) : list event :=
  if ((msgUtils_msgTotal m =? 0) || (msgUtils_msgNum m =? msgUtils_msgTotal m)) && negb (mAcceptMultipleInitials s)
  then [StopWaitForResponse] else [].
Definition deactivate_events (s : subscription) : list event :=
  if negb (expectingUpdates s) && negb (mAcceptMultipleInitials s) then [Deactivate] else [].

Lemma checkSeqNum_recap s m Q :
  live s -> same_sender s m ->
  wp (check_recap Own MAMA_MSG_TYPE_RECAP (mamaMsg_getSeqNum m) (mSeqNum (dq s)) (default 0 (m_senderId m))) (cleared s)
     (fun _ s' => Q (MAMA_STATUS_OK, m) s') ->
  wp (checkSeqNum Own m MAMA_MSG_TYPE_RECAP) s Q.
Proof.
  intros L Hs HQ. destruct (l_strategy _ L) as (st & Est & Erg). unfold checkSeqNum. wp_dq.
  rewrite Est, Erg. cbn [negb]. wp_dq. rewrite (no_takeover s m Hs). cbn [andb]. wp_dq. exact HQ.
Qed.

(** What the messages of an answer leave alone. *)
Definition same_dq (s s' : subscription) : Prop :=
  live s' /\ cfg s' = cfg s /\ subscSymbol s' = subscSymbol s /\ dq s' = dq s /\ try_fill s' = try_fill s /\
  mAcceptMultipleInitials s' = mAcceptMultipleInitials s /\ expectingUpdates s' = expectingUpdates s.

Lemma note_image_spec s m :
  live s -> wp (note_image m Own) s (fun _ s' => same_dq s s' /\ trace s' = trace s ++ stop_events s m).
Proof.
  intros L. unfold note_image, stop_events.
  destruct ((msgUtils_msgTotal m =? 0) || (msgUtils_msgNum m =? msgUtils_msgTotal m)); cbn [andb].
  - wp_dq. unfold put_subject, wp at 1. wp_dq. destruct L as [H1 H2 H3 H4 H5 H6].
    change (mAcceptMultipleInitials (set_own _ _)) with (mAcceptMultipleInitials s).
    destruct (mAcceptMultipleInitials s) eqn:E; cbn [negb]; wp_dq; rewrite ?app_nil_r;
      unfold same_dq; (split_and!; try done; by split).
  - wp_dq. rewrite app_nil_r. done.
Qed.

Lemma forward_checked_spec s m :
  live s -> mDoNotForward (dq s) = false ->
  wp (forward_checked m Own) s (fun _ s' => same_dq s s' /\ trace s' = trace s ++ deactivate_events s ++ [OnMsg m]).
Proof.
  intros L Hd. unfold forward_checked, deactivate_events, mamaSubscription_forwardMsg. wp_dq.
  destruct (negb (expectingUpdates s) && negb (mAcceptMultipleInitials s)); wp_dq;
    change (dq (set_trace (trace s ++ [Deactivate]) s)) with (dq s); rewrite Hd; wp_dq;
    (split; [unfold same_dq; split_and!; try done; by repeat apply live_set_trace|]);
    cbn [trace set_trace]; by rewrite <- ?app_assoc.
Qed.

Lemma apply_cache_recap s :
  t_preRecapCache (cfg s) = false -> wp (apply_cache MAMA_MSG_TYPE_RECAP Own) s (fun _ s' => s' = s).
Proof. intros H. unfold apply_cache. wp_dq. rewrite H. by destruct (t_preInitial (cfg s)); wp_dq. Qed.

(** A recap on a live subscription puts it right again. *)
Lemma hook_recap s m :
  live s -> same_sender s m -> t_preRecapCache (cfg s) = false ->
  t_scheme (cfg s) = DQ_SCHEME_DELIVER_ALL \/ mSeqNum (dq s) < mamaMsg_getSeqNum m \/
    mDQState (dq s) = DQ_STATE_WAITING_FOR_RECAP ->
  wp (dqstrategyMamaPlugin_subscriptionPreMsgHook MAMA_MSG_TYPE_RECAP m) s (fun _ s' =>
    live s' /\ cfg s' = cfg s /\ subscSymbol s' = subscSymbol s /\ mDQState (dq s') = DQ_STATE_OK /\
    mSeqNum (dq s') = mamaMsg_getSeqNum m /\ mSenderId (dq s') = default 0 (m_senderId m) /\
    try_fill s' = try_fill s /\
    exists d, trace s' = trace s ++ stop_events s m ++ [UnsetAllPossiblyStale] ++ quality_ok_event s ++ d ++ [OnMsg m] /\
      (d = [] \/ d = [Deactivate])).
Proof.
  intros L Hss Hpc Hsch. unfold dqstrategyMamaPlugin_subscriptionPreMsgHook.
  apply wp_bind. unfold mamaSubscription_getSubjectContext, wp at 1. rewrite (l_single _ L). wp_dq.
  rewrite (l_plugin _ L). cbn [negb isInitialMessageOrRecap]. wp_dq. unfold processPointToPointMessage. wp_pure.
  eapply wp_mono; [by apply note_image_spec|]. cbn beta.
  intros _ s1 ((L1 & Ec & Esy & Ed & Et & Ea & Eu) & Etr). wp_pure.
  apply checkSeqNum_recap; [done|by unfold same_sender; rewrite Ed|].
  eapply wp_mono; [apply (check_recap_spec (cleared s1)); [by apply live_cleared| |done|]|].
  - unfold cleared. cbn. fold (dq s1). by rewrite Ec, Ed.
  - unfold cleared. cbn. by rewrite Ec.
  - cbn beta. intros _ s2 (L2 & F1 & F2 & F3 & F4 & F5 & F6 & F7 & F8). wp_pure.
    eapply wp_mono; [by apply forward_checked_spec|]. cbn beta.
    intros _ s3 ((L3 & G1 & G2 & G3 & G4 & _) & G5). wp_pure.
    eapply wp_mono; [apply apply_cache_recap; rewrite G1, F1; change (cfg (cleared s1)) with (cfg s1); by rewrite Ec|].
    cbn beta. intros _ s4 ->. wp_pure. rewrite G3. split_and!; try done.
    + rewrite G1, F1. exact Ec.
    + rewrite G2, F2. exact Esy.
    + rewrite G4, F7. exact Et.
    + exists (deactivate_events s2). split.
      * rewrite G5, F8. change (trace (cleared s1)) with (trace s1). rewrite Etr, <- !app_assoc.
        unfold quality_ok_event at 1. cbn. fold (dq s1). rewrite Ec, Ed. done.
      * unfold deactivate_events. case_match; auto.
Qed.
