(* ===== verification/DqProps.v ===== *)
(** * Data quality: the properties *)

From S2P Require Import Prelude MamaStatus DqStrategy DqSpec.
Import DqStrategy.

(** The messages of a subscription, processed in order. *)
Fixpoint run_msgs (l : list (mamaMsgType * mamaMsg)) : DM unit :=
  match l with
  | [] => mret tt
  | (t, m) :: l' => dqstrategyMamaPlugin_subscriptionPreMsgHook t m ;; run_msgs l'
  end.

Lemma run_msgs_app l1 l2 s Q :
  wp (run_msgs l1 ;; run_msgs l2) s Q -> wp (run_msgs (l1 ++ l2)) s Q.
Proof.
  unfold wp, mbind, M_bind. revert s. induction l1 as [|[t m] l1 IH]; intros s; cbn [app run_msgs]; [done|].
  unfold mbind, M_bind. destruct (dqstrategyMamaPlugin_subscriptionPreMsgHook t m s) as [[st s1]|f]; [|done].
  apply IH.
Qed.

(** What is visible in a trace. *)
Definition forwarded (tr : list event) : list mamaMsg :=
  omap (fun e => match e with OnMsg m => Some m | _ => None end) tr.
Definition recaps (tr : list event) : list (option string) :=
  omap (fun e => match e with SendRecap x => Some x | _ => None end) tr.
Definition qualities (tr : list event) : list mamaQuality :=
  omap (fun e => match e with OnQuality q => Some q | _ => None end) tr.

Lemma forwarded_app t1 t2 : forwarded (t1 ++ t2) = forwarded t1 ++ forwarded t2.
Proof. apply omap_app. Qed.
Lemma recaps_app t1 t2 : recaps (t1 ++ t2) = recaps t1 ++ recaps t2.
Proof. apply omap_app. Qed.
Lemma qualities_app t1 t2 : qualities (t1 ++ t2) = qualities t1 ++ qualities t2.
Proof. apply omap_app. Qed.

(** ** A stream in order *)

(** Each update carries the sequence number after the one before it, counting
    the updates conflated into it, and says it is OK. *)
Fixpoint consecutive (seq : Z) (l : list (mamaMsgType * mamaMsg)) : Prop :=
  match l with
  | [] => True
  | (t, m) :: l' =>
      (exists cc, update_conflate t m = Some cc /\ mamaMsg_getSeqNum m = u32 (seq + cc)) /\
      m_status m = MAMA_MSG_STATUS_OK /\ consecutive (mamaMsg_getSeqNum m) l'
  end.

(** All messages of [l] are from a sender the context accepts. *)
Definition senders_ok (id : Z) (l : list (mamaMsgType * mamaMsg)) : Prop :=
  forall p, p ∈ l -> id = 0 \/ default 0 (m_senderId p.2) = 0 \/ id = default 0 (m_senderId p.2).

Lemma in_order_next st seq cc : in_order st (u32 (seq + cc)) seq cc = true.
Proof. unfold in_order. by rewrite Z.eqb_refl, orb_true_r. Qed.

Lemma quality_ok_none s : mDQState (dq s) = DQ_STATE_OK -> quality_ok_event s = [].
Proof. intros H. unfold quality_ok_event. by rewrite bool_decide_true. Qed.

(** One update in order, from any state that is not waiting for a cached recap. *)
Lemma hook_in_order s t m cc :
  live s -> not_held s -> update_conflate t m = Some cc -> same_sender s m ->
  in_order (mDQState (dq s)) (mamaMsg_getSeqNum m) (mSeqNum (dq s)) cc = true ->
  m_status m = MAMA_MSG_STATUS_OK ->
  wp (dqstrategyMamaPlugin_subscriptionPreMsgHook t m) s (fun _ s' =>
    live s' /\ cfg s' = cfg s /\ mSenderId (dq s') = mSenderId (dq s) /\
    mDQState (dq s') = DQ_STATE_OK /\ mSeqNum (dq s') = mamaMsg_getSeqNum m /\ try_fill s' = false /\
    trace s' = trace s ++ [UnsetAllPossiblyStale] ++ quality_ok_event s ++ [OnMsg m]).
Proof.
  intros L Hnh Hc Hs Hio Hst. eapply hook_update; [done..|].
  eapply wp_mono; [apply check_update_in_order; [by apply live_cleared|done|done]|]. cbn beta.
  intros m' s' (-> & (L' & E1 & E2 & E3 & E4) & E5 & E6 & E7 & E8). rewrite E4.
  change (mDoNotForward (dq (cleared s))) with false. cbn iota. split_and!; try done.
  - by apply live_set_trace.
  - cbn [trace set_trace]. rewrite E7. change (trace (cleared s)) with (trace s).
    change (quality_ok_event (cleared s)) with (quality_ok_event s). by rewrite <- !app_assoc.
Qed.

(** a stream in order is passed through.  On a live subscription whose data
    are OK, updates of any type that follow one another (modulo 2^32, counting
    conflated updates) are all forwarded, in order and unchanged; no quality
    callback runs, no recap is requested, and the context ends OK at the last
    sequence number. *)
Theorem dq_in_order_stream s l :
  live s -> mDQState (dq s) = DQ_STATE_OK -> consecutive (mSeqNum (dq s)) l ->
  senders_ok (mSenderId (dq s)) l ->
  wp (run_msgs l) s (fun _ s' => live s' /\ mDQState (dq s') = DQ_STATE_OK /\
    mSeqNum (dq s') = default (mSeqNum (dq s)) (mamaMsg_getSeqNum <$> last l.*2) /\
    exists tr, trace s' = trace s ++ tr /\ forwarded tr = l.*2 /\ recaps tr = [] /\ qualities tr = []).
Proof.
  revert s. induction l as [|[t m] l IH]; intros s L Hok Hc Hs; cbn [run_msgs].
  - apply wp_ret. split_and!; try done. exists []. by rewrite app_nil_r.
  - destruct Hc as ((cc & Hcc & Hseq) & Hst & Hc). apply wp_bind.
    eapply wp_mono; [eapply hook_in_order; [done| |exact Hcc| | |done]|].
    + right. by rewrite Hok.
    + apply (Hs (t, m)). set_solver.
    + rewrite Hseq. apply in_order_next.
    + cbn beta. intros _ s1 (L1 & E1 & E2 & E3 & E4 & _ & E5).
      rewrite (quality_ok_none s Hok) in E5. eapply wp_mono; [apply IH; [done|done|by rewrite E4|]|].
      * intros p Hp. rewrite E2. apply Hs. set_solver.
      * cbn beta. intros _ s2 (L2 & F1 & F2 & tr & F3 & F4 & F5 & F6). split_and!; try done.
        -- rewrite F2, E4, fmap_cons. cbn [snd]. rewrite last_cons. by destruct (last l.*2).
        -- exists ([UnsetAllPossiblyStale; OnMsg m] ++ tr).
           rewrite F3, E5, <- app_assoc, forwarded_app, recaps_app, qualities_app, F4, F5, F6. done.
Qed.

Definition demo_cfg : settings :=
  mkSettings PRE_INITIAL_SCHEME_ON_GAP DQ_SCHEME_DELIVER_ALL DQ_FT_DO_NOT_WAIT_FOR_RECAP false true true true true.
Definition demo_sub (st : dqState) (seq sender : Z) : subscription :=
  mkSub (mkSubject (mkCtx seq st (Some [None; None; None]) 0 3 true sender false false) 1 true "IBM") None
    (Some (mkStrategy false true)) false "IBM" false false true 1 3 demo_cfg [].
Definition upd (id seq : Z) : mamaMsg := mkMsg id (Some seq) None None MAMA_MSG_STATUS_OK None None None.

Lemma demo_live st seq sender : live (demo_sub st seq sender).
Proof.
  split; try done; [by eexists|]. intros slots [= <-]. cbn. lia.
Qed.

Lemma dq_in_order_stream_witness :
  let l := [(MAMA_MSG_TYPE_UPDATE, upd 1 4294967295); (MAMA_MSG_TYPE_TRADE, upd 2 0); (MAMA_MSG_TYPE_QUOTE, upd 3 1)] in
  wp (run_msgs l) (demo_sub DQ_STATE_OK 4294967294 0) (fun _ s' => live s' /\ mDQState (dq s') = DQ_STATE_OK /\
    mSeqNum (dq s') = 1 /\
    exists tr, trace s' = [] ++ tr /\ forwarded tr = l.*2 /\ recaps tr = [] /\ qualities tr = []).
Proof.
  intros l. apply (dq_in_order_stream (demo_sub DQ_STATE_OK 4294967294 0) l).
  - apply demo_live.
  - reflexivity.
  - cbn. split_and!; try done; exists 1; vm_compute; done.
  - intros p _. by left.
Defined.

(** ** A gap *)

(** [m] cannot be the next message after [base]: it leaves a gap. *)
Definition leaves_gap (k : settings) (base : Z) (p : mamaMsgType * mamaMsg) : Prop :=
  (exists cc, update_conflate p.1 p.2 = Some cc /\ mamaMsg_getSeqNum p.2 ≠ u32 (base + cc)) /\
  mamaMsg_getSeqNum p.2 ≠ 0 /\ mamaMsg_getSeqNum p.2 ≠ base /\
  (t_scheme k = DQ_SCHEME_DELIVER_ALL \/ base < mamaMsg_getSeqNum p.2).

Lemma hook_gap s t m :
  live s -> t_preRecapCache (cfg s) = false -> same_sender s m -> leaves_gap (cfg s) (mSeqNum (dq s)) (t, m) ->
  mDQState (dq s) ≠ DQ_STATE_NOT_ESTABLISHED -> mDQState (dq s) ≠ DQ_STATE_WAITING_FOR_RECAP_AFTER_FT ->
  try_fill s = false ->
  wp (dqstrategyMamaPlugin_subscriptionPreMsgHook t m) s (fun _ s' =>
    live s' /\ cfg s' = cfg s /\ subscSymbol s' = subscSymbol s /\ mSenderId (dq s') = mSenderId (dq s) /\
    mDQState (dq s') = DQ_STATE_WAITING_FOR_RECAP /\ mSeqNum (dq s') = mSeqNum (dq s) /\ try_fill s' = false /\
    trace s' = trace s ++ gap_events s ++ [OnMsg (set_status MAMA_MSG_STATUS_STALE m)]).
Proof.
  intros L Hp Hs ((cc & Hcc & Hseq) & Hz & Hd & Hsch) Hne Hft Htry. cbn [fst snd] in *.
  eapply hook_update; [done|by left|done|done|].
  eapply wp_mono; [apply (check_update_gap (cleared s)); [by apply live_cleared|..]|].
  - unfold in_order. cbn. fold (dq s). rewrite bool_decide_false by done.
    rewrite (proj2 (Z.eqb_neq _ _) Hz), (proj2 (Z.eqb_neq _ _) Hseq). done.
  - exact Hd.
  - tauto.
  - exact Hft.
  - exact Htry.
  - cbn beta. intros m' s' (-> & (L' & E1 & E2 & E3 & E4) & E5 & E6 & E7 & E8). rewrite E4.
    change (mDoNotForward (dq (cleared s))) with false. cbn iota. split_and!; try done.
    + by apply live_set_trace.
    + change (try_fill s' = false). by rewrite E8.
    + cbn [trace set_trace]. rewrite E7. change (trace (cleared s)) with (trace s).
      change (gap_events (cleared s)) with (gap_events s). by rewrite <- app_assoc.
Qed.

Lemma gap_events_waiting s : mDQState (dq s) = DQ_STATE_WAITING_FOR_RECAP ->
  forwarded (gap_events s) = [] /\ recaps (gap_events s) = [] /\ qualities (gap_events s) = [].
Proof.
  intros H. unfold gap_events, stale_events. rewrite bool_decide_true by done. by destruct (cb_onGap (cfg s)).
Qed.

Lemma gap_events_ok s : mDQState (dq s) = DQ_STATE_OK -> cb_onQuality (cfg s) = true ->
  forwarded (gap_events s) = [] /\ recaps (gap_events s) = [Some (subscSymbol s)] /\
  qualities (gap_events s) = [MAMA_QUALITY_STALE].
Proof.
  intros H Hq. unfold gap_events, stale_events. rewrite !bool_decide_false by congruence. rewrite Hq.
  by destruct (cb_onGap (cfg s)), (cb_onRecapRequest (cfg s)).
Qed.

(** While waiting, every further message is stale and asks for nothing. *)
Lemma waiting_run s l :
  live s -> t_preRecapCache (cfg s) = false -> mDQState (dq s) = DQ_STATE_WAITING_FOR_RECAP ->
  try_fill s = false -> senders_ok (mSenderId (dq s)) l -> Forall (leaves_gap (cfg s) (mSeqNum (dq s))) l ->
  wp (run_msgs l) s (fun _ s' => live s' /\ cfg s' = cfg s /\ mSenderId (dq s') = mSenderId (dq s) /\
    mDQState (dq s') = DQ_STATE_WAITING_FOR_RECAP /\ try_fill s' = false /\
    exists tr, trace s' = trace s ++ tr /\ forwarded tr = set_status MAMA_MSG_STATUS_STALE <$> l.*2 /\
      recaps tr = [] /\ qualities tr = []).
Proof.
  revert s. induction l as [|[t m] l IH]; intros s L Hp Hw Ht Hs Hf; cbn [run_msgs].
  - apply wp_ret. split_and!; try done. exists []. by rewrite app_nil_r.
  - apply Forall_cons in Hf as [Hm Hf]. apply wp_bind.
    eapply wp_mono; [apply hook_gap; try done; [apply (Hs (t, m)); set_solver|by rewrite Hw..]|].
    cbn beta. intros _ s1 (L1 & E1 & E2 & E3 & E4 & E5 & E6 & E7).
    eapply wp_mono; [apply IH; try done|].
    + by rewrite E1.
    + intros p Hin. rewrite E3. apply Hs. set_solver.
    + by rewrite E1, E5.
    + cbn beta. intros _ s2 (L2 & F1 & F2 & F3 & F4 & tr & F5 & F6 & F7 & F8). split_and!; try done; [congruence..|].
      destruct (gap_events_waiting s Hw) as (G1 & G2 & G3).
      eexists. split; [by rewrite F5, E7, <- app_assoc|].
      rewrite !forwarded_app, !recaps_app, !qualities_app, F6, F7, F8, G1, G2, G3. done.
Qed.

(** C7: a gap is announced once and mended by the recap.  On a live, OK
    subscription with nothing cached, an update that skips sequence numbers, and
    any number of updates after it that do not close the gap, are forwarded
    marked stale; exactly one recap is requested and one STALE quality is
    announced.  The recap that then arrives is forwarded unchanged, announces
    OK once, and leaves the context OK at the recap's sequence number. *)
Theorem dq_gap_one_recap s p l r :
  live s -> mDQState (dq s) = DQ_STATE_OK -> try_fill s = false ->
  t_preRecapCache (cfg s) = false -> cb_onQuality (cfg s) = true ->
  Forall (leaves_gap (cfg s) (mSeqNum (dq s))) (p :: l) ->
  senders_ok (mSenderId (dq s)) (p :: l ++ [(MAMA_MSG_TYPE_RECAP, r)]) ->
  wp (run_msgs ((p :: l) ++ [(MAMA_MSG_TYPE_RECAP, r)])) s (fun _ s' =>
    live s' /\ mDQState (dq s') = DQ_STATE_OK /\ mSeqNum (dq s') = mamaMsg_getSeqNum r /\
    exists tr, trace s' = trace s ++ tr /\
      forwarded tr = (set_status MAMA_MSG_STATUS_STALE <$> (p :: l).*2) ++ [r] /\
      recaps tr = [Some (subscSymbol s)] /\ qualities tr = [MAMA_QUALITY_STALE; MAMA_QUALITY_OK]).
Proof.
  destruct p as [t m]. intros L Hok Ht Hp Hq Hf Hs. apply Forall_cons in Hf as [Hm Hf]. cbn [app run_msgs].
  apply wp_bind. eapply wp_mono; [apply hook_gap; try done; [apply (Hs (t, m)); set_solver|by rewrite Hok..]|].
  cbn beta. intros _ s1 (L1 & E1 & E2 & E3 & E4 & E5 & E6 & E7).
  pose proof (waiting_run s1 l L1) as HW. rewrite E1, E3, E5 in HW.
  specialize (HW Hp E4 E6 (fun x Hx => Hs x ltac:(set_solver)) Hf).
  assert (wp (run_msgs l ;; run_msgs [(MAMA_MSG_TYPE_RECAP, r)]) s1 (fun _ s' =>
    live s' /\ mDQState (dq s') = DQ_STATE_OK /\ mSeqNum (dq s') = mamaMsg_getSeqNum r /\
    exists tr, trace s' = trace s1 ++ tr /\ forwarded tr = (set_status MAMA_MSG_STATUS_STALE <$> l.*2) ++ [r] /\
      recaps tr = [] /\ qualities tr = [MAMA_QUALITY_OK])) as HR.
  { apply wp_bind. eapply wp_mono; [exact HW|]. cbn beta.
    intros _ s2 (L2 & F1 & F2 & F3 & F4 & tr & F5 & F6 & F7 & F8). cbn [run_msgs]. apply wp_bind.
    eapply wp_mono; [apply hook_recap; [done| |by rewrite F1|by right; right]|].
    - unfold same_sender. rewrite F2. apply (Hs (MAMA_MSG_TYPE_RECAP, r)). set_solver.
    - cbn beta. intros _ s3 (L3 & _ & _ & G1 & G2 & _ & _ & d & G3 & Hd). apply wp_ret.
      split_and!; try done. eexists. split; [by rewrite G3, F5, <- app_assoc|].
      rewrite !forwarded_app, !recaps_app, !qualities_app, F6, F7, F8.
      unfold quality_ok_event, stop_events. rewrite F1, Hq, F3. cbn [bool_decide].
      split_and!; (repeat case_match; destruct Hd as [-> | ->]; done). }
  apply run_msgs_app. eapply wp_mono; [exact HR|]. cbn beta.
  intros _ s' (L' & G1 & G2 & tr & G3 & G4 & G5 & G6). split_and!; try done.
  destruct (gap_events_ok s Hok Hq) as (K1 & K2 & K3).
  eexists. split; [by rewrite G3, E7, <- app_assoc|].
  rewrite !forwarded_app, !recaps_app, !qualities_app, G4, G5, G6, K1, K2, K3. done.
Qed.

Lemma dq_gap_one_recap_witness :
  let g := [(MAMA_MSG_TYPE_UPDATE, upd 1 8); (MAMA_MSG_TYPE_TRADE, upd 2 9)] in
  wp (run_msgs (g ++ [(MAMA_MSG_TYPE_RECAP, upd 3 9)])) (demo_sub DQ_STATE_OK 5 0) (fun _ s' =>
    live s' /\ mDQState (dq s') = DQ_STATE_OK /\ mSeqNum (dq s') = 9 /\
    exists tr, trace s' = [] ++ tr /\
      forwarded tr = (set_status MAMA_MSG_STATUS_STALE <$> g.*2) ++ [upd 3 9] /\
      recaps tr = [Some "IBM"%string] /\ qualities tr = [MAMA_QUALITY_STALE; MAMA_QUALITY_OK]).
Proof.
  apply (dq_gap_one_recap (demo_sub DQ_STATE_OK 5 0) (MAMA_MSG_TYPE_UPDATE, upd 1 8)
           [(MAMA_MSG_TYPE_TRADE, upd 2 9)] (upd 3 9)); try reflexivity; [apply demo_live| |].
  - repeat constructor; try (exists 1; vm_compute; done); vm_compute; intuition congruence.
  - intros p _. by left.
Defined.

(** a late message ends the wait for a recap.  The test that should keep a
    waiting context waiting ([!= WAITING_FOR_RECAP || != ..._AFTER_FT]) is true
    of every state, so an update that continues from before the gap (or carries
    sequence number 0) is taken as in order: the context becomes OK, OK quality
    is announced and the message forwarded, though the messages of the gap were
    lost and the recap has not come. *)
Theorem dq_late_message_ends_wait s t m cc :
  live s -> mDQState (dq s) = DQ_STATE_WAITING_FOR_RECAP -> t_preRecapCache (cfg s) = false ->
  cb_onQuality (cfg s) = true -> update_conflate t m = Some cc -> same_sender s m ->
  mamaMsg_getSeqNum m = 0 \/ mamaMsg_getSeqNum m = u32 (mSeqNum (dq s) + cc) ->
  m_status m = MAMA_MSG_STATUS_OK ->
  wp (dqstrategyMamaPlugin_subscriptionPreMsgHook t m) s (fun _ s' =>
    mDQState (dq s') = DQ_STATE_OK /\ mSeqNum (dq s') = mamaMsg_getSeqNum m /\
    trace s' = trace s ++ [UnsetAllPossiblyStale; OnQuality MAMA_QUALITY_OK; OnMsg m]).
Proof.
  intros L Hw Hp Hq Hc Hs Hseq Hst. eapply wp_mono; [eapply hook_in_order; [done|by left|done|done| |done]|].
  - unfold in_order. destruct Hseq as [-> | ->]; rewrite Z.eqb_refl; by rewrite !orb_true_r.
  - cbn beta. intros _ s' (_ & _ & _ & E1 & E2 & _ & E3). split_and!; try done. rewrite E3.
    unfold quality_ok_event. rewrite Hw, Hq. done.
Qed.

Lemma dq_late_message_ends_wait_witness :
  wp (dqstrategyMamaPlugin_subscriptionPreMsgHook MAMA_MSG_TYPE_UPDATE (upd 1 6))
    (demo_sub DQ_STATE_WAITING_FOR_RECAP 5 0) (fun _ s' =>
    mDQState (dq s') = DQ_STATE_OK /\ mSeqNum (dq s') = 6 /\
    trace s' = [] ++ [UnsetAllPossiblyStale; OnQuality MAMA_QUALITY_OK; OnMsg (upd 1 6)]).
Proof.
  apply (dq_late_message_ends_wait (demo_sub DQ_STATE_WAITING_FOR_RECAP 5 0) MAMA_MSG_TYPE_UPDATE (upd 1 6) 1);
    try reflexivity; [apply demo_live|by left|right; reflexivity].
Defined.

(** ** Senders *)

(** The message says it is from another sender than the context's. *)
Definition takeover (s : subscription) (m : mamaMsg) : Prop :=
  mSenderId (dq s) ≠ 0 /\ default 0 (m_senderId m) ≠ 0 /\ mSenderId (dq s) ≠ default 0 (m_senderId m).

Lemma takeover_test s m : takeover s m ->
  negb (mSenderId (dq s) =? 0) && negb (default 0 (m_senderId m) =? 0) &&
  negb (mSenderId (dq s) =? default 0 (m_senderId m)) = true.
Proof.
  intros (H1 & H2 & H3). rewrite (proj2 (Z.eqb_neq _ _) H1), (proj2 (Z.eqb_neq _ _) H2), (proj2 (Z.eqb_neq _ _) H3). done.
Qed.

(** a takeover is accepted when the transport does not wait for recaps.  An
    update from another sender, whatever its sequence number, makes the context
    OK at that number under the new sender and is forwarded; no gap is
    announced and no recap requested. *)
Theorem dq_takeover_accepted s t m cc :
  live s -> not_held s -> takeover s m -> t_ft (cfg s) = DQ_FT_DO_NOT_WAIT_FOR_RECAP ->
  update_conflate t m = Some cc ->
  wp (dqstrategyMamaPlugin_subscriptionPreMsgHook t m) s (fun _ s' =>
    live s' /\ mDQState (dq s') = DQ_STATE_OK /\ mSeqNum (dq s') = mamaMsg_getSeqNum m /\
    mSenderId (dq s') = default 0 (m_senderId m) /\ trace s' = trace s ++ quality_ok_event s ++ [OnMsg m]).
Proof.
  intros L Hnh Hto Hft Hc. eapply hook_check; [done..|].
  destruct (l_strategy _ L) as (st & Est & Erg). unfold checkSeqNum. wp_dq.
  rewrite Est, Erg. cbn [negb]. wp_dq. rewrite (takeover_test s m Hto), Hft. cbn [andb negb].
  unfold handleFTTakeover. wp_pure.
  eapply wp_mono; [apply resetDqState_spec, live_cleared, L|]. cbn beta.
  intros _ s1 ((L1 & E1 & E2 & E3 & E4) & E5 & E6 & E7 & E8). unfold resetDqContext. wp_dq.
  change (mDoNotForward (dq (set_dq _ _))) with (mDoNotForward (dq s1)). rewrite E4.
  change (mDoNotForward (dq (cleared s))) with false. cbn iota. split_and!; try done.
  - apply live_set_trace. repeat (apply live_set_dq; try done).
  - cbn [trace set_trace set_dq set_own]. rewrite E7, <- app_assoc. done.
Qed.

Definition upd_from (id seq sender : Z) : mamaMsg := mkMsg id (Some seq) (Some sender) None MAMA_MSG_STATUS_OK None None None.

Lemma dq_takeover_accepted_witness :
  wp (dqstrategyMamaPlugin_subscriptionPreMsgHook MAMA_MSG_TYPE_QUOTE (upd_from 1 77 9))
    (demo_sub DQ_STATE_WAITING_FOR_RECAP 5 8) (fun _ s' =>
    live s' /\ mDQState (dq s') = DQ_STATE_OK /\ mSeqNum (dq s') = 77 /\ mSenderId (dq s') = 9 /\
    trace s' = [] ++ [OnQuality MAMA_QUALITY_OK] ++ [OnMsg (upd_from 1 77 9)]).
Proof.
  apply (dq_takeover_accepted (demo_sub DQ_STATE_WAITING_FOR_RECAP 5 8) MAMA_MSG_TYPE_QUOTE (upd_from 1 77 9) 1);
    try reflexivity; [apply demo_live|by left|by split_and!].
Defined.

(** A takeover message in order on a transport that waits for recaps. *)
Lemma hook_takeover_wait s t m cc :
  live s -> mDQState (dq s) = DQ_STATE_OK -> takeover s m -> t_ft (cfg s) = DQ_FT_WAIT_FOR_RECAP ->
  update_conflate t m = Some cc -> mamaMsg_getSeqNum m = u32 (mSeqNum (dq s) + cc) ->
  m_status m = MAMA_MSG_STATUS_OK ->
  wp (dqstrategyMamaPlugin_subscriptionPreMsgHook t m) s (fun _ s' =>
    live s' /\ cfg s' = cfg s /\ mSenderId (dq s') = mSenderId (dq s) /\ mDQState (dq s') = DQ_STATE_OK /\
    mSeqNum (dq s') = mamaMsg_getSeqNum m /\
    trace s' = trace s ++ [UnsetAllPossiblyStale] ++ (if cb_onQuality (cfg s) then [OnQuality MAMA_QUALITY_OK] else [])).
Proof.
  intros L Hok Hto Hft Hc Hseq Hst. eapply hook_check; [done|right; by rewrite Hok|done|].
  destruct (l_strategy _ L) as (st & Est & Erg). unfold checkSeqNum. wp_dq.
  rewrite Est, Erg. cbn [negb]. wp_dq. rewrite (takeover_test s m Hto), Hft. cbn [andb negb].
  unfold handleFTTakeover. wp_dq.
  set (s1 := set_dq _ (set_dq _ (set_dq _ (set_dq _ s)))).
  assert (live s1) as L1 by (unfold s1; repeat (apply live_set_dq; try done)).
  assert (wp (m' ← check_update Own m (mamaMsg_getSeqNum m) (mSeqNum (dq s)) cc (mDQState (dq s)); mret (MAMA_STATUS_OK, m')) s1
    (fun p s' => let sf := if mDoNotForward (dq s') then s' else set_trace (trace s' ++ [OnMsg p.2]) s' in
      live sf /\ cfg sf = cfg s /\ mSenderId (dq sf) = mSenderId (dq s) /\ mDQState (dq sf) = DQ_STATE_OK /\
      mSeqNum (dq sf) = mamaMsg_getSeqNum m /\
      trace sf = trace s ++ [UnsetAllPossiblyStale] ++ (if cb_onQuality (cfg s) then [OnQuality MAMA_QUALITY_OK] else []))) as HW.
  { apply wp_bind. eapply wp_mono; [apply check_update_in_order; [done|rewrite Hseq; apply in_order_next|done]|].
    cbn beta. intros m' s' (-> & (L' & E1 & E2 & E3 & E4) & E5 & E6 & E7 & _). apply wp_ret. cbn zeta.
    rewrite E4. change (mDoNotForward (dq s1)) with true. cbn iota. split_and!; try done.
    rewrite E7. change (trace s1) with (trace s). do 2 f_equal. unfold quality_ok_event.
    change (mDQState (dq s1)) with DQ_STATE_WAITING_FOR_RECAP_AFTER_FT. change (cfg s1) with (cfg s).
    by destruct (cb_onQuality (cfg s)). }
  destruct t; try done; injection Hc as <-; exact HW.
Qed.

(** waiting for a recap after a takeover drops the stream in silence.  With
    [DQ_FT_WAIT_FOR_RECAP], when the new sender continues the sequence without a
    gap, none of its messages is forwarded, however many come: the context does
    not learn the new sender, so each message is a takeover again.  Yet the
    context is OK throughout, OK quality is announced, and no recap is
    requested. *)
Theorem dq_takeover_wait_drops s l :
  live s -> mDQState (dq s) = DQ_STATE_OK -> t_ft (cfg s) = DQ_FT_WAIT_FOR_RECAP ->
  consecutive (mSeqNum (dq s)) l -> (forall p, p ∈ l -> takeover s p.2) ->
  wp (run_msgs l) s (fun _ s' => live s' /\ mDQState (dq s') = DQ_STATE_OK /\
    mSenderId (dq s') = mSenderId (dq s) /\
    exists tr, trace s' = trace s ++ tr /\ forwarded tr = [] /\ recaps tr = [] /\
      qualities tr = (if cb_onQuality (cfg s) then replicate (length l) MAMA_QUALITY_OK else [])).
Proof.
  revert s. induction l as [|[t m] l IH]; intros s L Hok Hft Hc Hto; cbn [run_msgs].
  - apply wp_ret. split_and!; try done. exists []. rewrite app_nil_r. by destruct (cb_onQuality (cfg s)).
  - destruct Hc as ((cc & Hcc & Hseq) & Hst & Hc). apply wp_bind.
    eapply wp_mono; [eapply hook_takeover_wait; try done; apply (Hto (t, m)); set_solver|]. cbn beta.
    intros _ s1 (L1 & E1 & E2 & E3 & E4 & E5).
    eapply wp_mono; [apply IH; [done|done|by rewrite E1|by rewrite E4|]|].
    + intros p Hp. unfold takeover. rewrite E2. apply (Hto p). set_solver.
    + cbn beta. rewrite E1, E2. intros _ s2 (L2 & F1 & F2 & tr & F3 & F4 & F5 & F6). split_and!; try done.
      eexists. split; [by rewrite F3, E5, <- app_assoc|].
      rewrite !forwarded_app, !recaps_app, !qualities_app, F4, F5, F6. by destruct (cb_onQuality (cfg s)).
Qed.

Definition wait_cfg : settings :=
  mkSettings PRE_INITIAL_SCHEME_ON_GAP DQ_SCHEME_DELIVER_ALL DQ_FT_WAIT_FOR_RECAP false true true true true.
Definition wait_sub : subscription :=
  mkSub (own (demo_sub DQ_STATE_OK 5 8)) None (Some (mkStrategy false true)) false "IBM" false false true 1 3 wait_cfg [].

Lemma dq_takeover_wait_drops_witness :
  wp (run_msgs [(MAMA_MSG_TYPE_UPDATE, upd_from 1 6 9); (MAMA_MSG_TYPE_UPDATE, upd_from 2 7 9)]) wait_sub (fun _ s' =>
    live s' /\ mDQState (dq s') = DQ_STATE_OK /\ mSenderId (dq s') = 8 /\
    exists tr, trace s' = [] ++ tr /\ forwarded tr = [] /\ recaps tr = [] /\
      qualities tr = [MAMA_QUALITY_OK; MAMA_QUALITY_OK]).
Proof.
  apply (dq_takeover_wait_drops wait_sub [(MAMA_MSG_TYPE_UPDATE, upd_from 1 6 9); (MAMA_MSG_TYPE_UPDATE, upd_from 2 7 9)]);
    try reflexivity.
  - split; try done; [by eexists|]. intros slots [= <-]. cbn. lia.
  - cbn. split_and!; try done; exists 1; vm_compute; done.
  - intros p Hp. rewrite !elem_of_cons in Hp. destruct Hp as [-> |[-> |Hp]]; [by split_and!..|].
    by apply not_elem_of_nil in Hp.
Defined.
