(* ===== verification/DqCache.v ===== *)
(** * The ring of cached messages

    Messages kept before an initial or a recap live in a ring of [mCacheSize]
    slots.  [ring c arr]: the ring of context [c] holds the messages [arr],
    oldest first. *)

From S2P Require Import Prelude MamaStatus DqStrategy DqSpec DqProps.
Import DqStrategy.

(** The slots from the oldest position on. *)
Definition rotated (slots : list (option mamaMsg)) (idx : Z) : list (option mamaMsg) :=
  drop (Z.to_nat idx) slots ++ take (Z.to_nat idx) slots.

(** Either the ring is full, or the messages fill its first [idx] slots. *)
Definition ring (c : mamaDqContext) (arr : list mamaMsg) : Prop :=
  exists slots k, mCache c = Some slots /\ Z.of_nat (length slots) = mCacheSize c /\
    0 <= mCurCacheIdx c < mCacheSize c /\
    rotated slots (mCurCacheIdx c) = replicate k None ++ (Some <$> arr) /\
    (k = O \/ Z.of_nat (length arr) = mCurCacheIdx c).

(** The last [n] elements. *)
Definition lastn {A} (n : nat) (l : list A) : list A := drop (length l - n) l.

Lemma rotated_push slots idx n m :
  Z.of_nat (length slots) = n -> 0 <= idx < n ->
  rotated (<[Z.to_nat idx := Some m]> slots) (if idx + 1 =? n then 0 else idx + 1) =
  tail (rotated slots idx) ++ [Some m].
Proof.
  intros Hn Hi. set (i := Z.to_nat idx). assert (i < length slots)%nat as Hlt by lia.
  destruct (lookup_lt_is_Some_2 slots i Hlt) as [x Hx]. unfold rotated. fold i.
  rewrite insert_take_drop by done. rewrite (drop_S _ _ _ Hx). cbn [app tail].
  assert (length (take i slots) = i) as El by (rewrite length_take; lia).
  destruct (Z.eqb_spec (idx + 1) n) as [E|E].
  - cbn [Z.to_nat drop take]. rewrite (drop_ge slots (S i)) by lia. by rewrite app_nil_r.
  - replace (Z.to_nat (idx + 1)) with (S i) by lia.
    rewrite drop_app_ge by lia. rewrite El. replace (S i - i)%nat with 1%nat by lia. cbn [drop].
    rewrite take_app_ge by lia. rewrite El. replace (S i - i)%nat with 1%nat by lia. cbn [take].
    by rewrite take_0, <- app_assoc.
Qed.

(** Adding a message to the ring forgets the oldest one when it is full. *)
Lemma ring_push s arr m :
  ring (dq s) arr ->
  wp (dqContext_cacheMsg Own m) s (fun _ s' => exists c, s' = set_dq c s /\
    ring c (lastn (Z.to_nat (mCacheSize (dq s))) (arr ++ [m])) /\ mCacheSize c = mCacheSize (dq s)).
Proof.
  intros (slots & k & Hc & Hl & Hi & Hr & Hk). unfold dqContext_cacheMsg. wp_dq. rewrite Hc.
  rewrite (proj2 (Z.ltb_ge _ _)), (proj2 (Z.leb_gt _ _)) by lia. cbn [orb]. wp_dq.
  eexists. split; [done|]. split; [|done].
  pose proof (rotated_push slots _ _ m Hl Hi) as Hp. rewrite Hr in Hp.
  assert (k + length arr = length slots)%nat as Hlen.
  { apply (f_equal length) in Hr. unfold rotated in Hr.
    rewrite !length_app, length_drop, length_take, length_replicate, length_fmap in Hr. lia. }
  exists (<[Z.to_nat (mCurCacheIdx (dq s)) := Some m]> slots), (pred k).
  cbn [mCache mCacheSize mCurCacheIdx set_mCache set_mCurCacheIdx]. rewrite length_insert.
  split_and!; [done|done|destruct (Z.eqb_spec (mCurCacheIdx (dq s) + 1) (mCacheSize (dq s))); lia..| |].
  - rewrite Hp. unfold lastn. rewrite length_app. cbn [length]. destruct k as [|k]; cbn [replicate app pred].
    + replace (length arr + 1 - Z.to_nat (mCacheSize (dq s)))%nat with 1%nat by lia.
      destruct arr as [|a arr]; [cbn in Hlen; lia|]. rewrite fmap_cons. cbn [tail app drop].
      by rewrite drop_0, fmap_app.
    + replace (length arr + 1 - Z.to_nat (mCacheSize (dq s)))%nat with 0%nat by lia.
      cbn [tail]. by rewrite drop_0, fmap_app, <- app_assoc.
  - unfold lastn. rewrite length_drop, length_app. cbn [length].
    destruct Hk as [->|Hk]; [by left|]. destruct k as [|[|k]]; [by left..|]. right.
    destruct (Z.eqb_spec (mCurCacheIdx (dq s) + 1) (mCacheSize (dq s))); lia.
Qed.

(** ** Held back before the initial *)

(** A subscription to one symbol that waits for its initial. *)
Record awaiting_initial (s : subscription) : Prop := {
  w_single : subjects s = None;
  w_plugin : t_handleEvent (cfg s) = true;
  w_expect : mExpectingInitial s = true;
  w_initial : mInitialArrived (own s) = false;
}.

Lemma hook_awaiting s t m arr :
  awaiting_initial s -> isInitialMessageOrRecap t = false -> ring (dq s) arr ->
  wp (dqstrategyMamaPlugin_subscriptionPreMsgHook t m) s (fun _ s' =>
    awaiting_initial s' /\ trace s' = trace s /\ mCacheSize (dq s') = mCacheSize (dq s) /\
    ring (dq s') (lastn (Z.to_nat (mCacheSize (dq s))) (arr ++ [m]))).
Proof.
  intros W Ht Hr. unfold dqstrategyMamaPlugin_subscriptionPreMsgHook.
  apply wp_bind. unfold mamaSubscription_getSubjectContext, wp at 1. rewrite (w_single _ W). wp_dq.
  rewrite (w_plugin _ W), Ht. cbn [negb]. wp_dq. unfold dqStrategy_getDqState. wp_dq.
  rewrite (w_expect _ W), (w_initial _ W). cbn [negb andb orb]. wp_pure.
  assert (forall s1, awaiting_initial s1 -> ring (dq s1) arr -> trace s1 = trace s -> mCacheSize (dq s1) = mCacheSize (dq s) ->
    wp (dqContext_cacheMsg mamaSubscription_getDqContext m) s1 (fun _ s' => wp (mret MAMA_STATUS_OK) s' (fun _ s' =>
    awaiting_initial s' /\ trace s' = trace s /\ mCacheSize (dq s') = mCacheSize (dq s) /\
    ring (dq s') (lastn (Z.to_nat (mCacheSize (dq s))) (arr ++ [m]))))) as H.
  { intros s1 [H1 H2 H3 H4] Hr1 Et Es. eapply wp_mono; [by apply ring_push|]. cbn beta.
    intros _ s' (c & -> & Hr' & Hs'). apply wp_ret. rewrite Es in *. split_and!; try done; by split. }
  destruct (bool_decide (mDQState (dq s) = DQ_STATE_WAITING_FOR_RECAP) && t_preRecapCache (cfg s)); wp_dq.
  - apply H; try done. destruct W as [H1 H2 H3 H4]. by split.
  - by apply H.
Qed.

Lemma lastn_app_lastn {A} n (l1 l2 : list A) : lastn n (lastn n l1 ++ l2) = lastn n (l1 ++ l2).
Proof.
  unfold lastn. rewrite !length_app, length_drop.
  destruct (decide (length l1 <= n)%nat) as [H|H].
  - replace (length l1 - n)%nat with 0%nat by lia. cbn [drop]. do 2 f_equal. lia.
  - replace (length l1 - (length l1 - n))%nat with n by lia.
    replace (l1 ++ l2) with (take (length l1 - n) l1 ++ (drop (length l1 - n) l1 ++ l2))
      by (by rewrite app_assoc, take_drop).
    rewrite (drop_app_ge (take _ _)) by (rewrite length_take; lia). rewrite length_take. f_equal. lia.
Qed.

(** before the initial nothing is forwarded and the newest messages are
    kept.  While a subscription waits for its initial value, updates of every
    type are held back; the ring then holds, in order of arrival, the last
    [mCacheSize] messages received. *)
Theorem dq_pre_initial_ring s l :
  awaiting_initial s -> ring (dq s) [] -> (forall p, p ∈ l -> isInitialMessageOrRecap p.1 = false) ->
  wp (run_msgs l) s (fun _ s' => awaiting_initial s' /\ trace s' = trace s /\
    ring (dq s') (lastn (Z.to_nat (mCacheSize (dq s))) l.*2)).
Proof.
  intros W Hr Ht. enough (forall arr s0, awaiting_initial s0 -> mCacheSize (dq s0) = mCacheSize (dq s) ->
    ring (dq s0) (lastn (Z.to_nat (mCacheSize (dq s))) arr) -> trace s0 = trace s ->
    wp (run_msgs l) s0 (fun _ s' => awaiting_initial s' /\ trace s' = trace s /\
      ring (dq s') (lastn (Z.to_nat (mCacheSize (dq s))) (arr ++ l.*2)))) as H by (by apply (H [])).
  clear W Hr. induction l as [|[t m] l IH]; intros arr s0 W Es Hr Et; cbn [run_msgs].
  - apply wp_ret. by rewrite app_nil_r.
  - apply wp_bind. eapply wp_mono; [apply hook_awaiting; [done|by apply (Ht (t, m)), elem_of_cons; left|exact Hr]|].
    cbn beta. intros _ s1 (W1 & E1 & E2 & R1). rewrite Es, lastn_app_lastn in R1. rewrite fmap_cons. cbn [snd].
    eapply wp_mono; [apply (IH (fun p Hp => Ht p (proj2 (elem_of_cons _ _ _) (or_intror Hp))) (arr ++ [m]) s1 W1);
      [congruence|done|congruence]|].
    cbn beta. intros _ s2 H. by rewrite <- app_assoc in H.
Qed.

Definition waiting_sub : subscription :=
  mkSub (mkSubject (mkCtx 0 DQ_STATE_NOT_ESTABLISHED (Some [None; None]) 0 2 true 0 false false) 0 false "IBM") None
    (Some (mkStrategy false true)) false "IBM" true false true 0 2 demo_cfg [].

Lemma dq_pre_initial_ring_witness :
  let l := [(MAMA_MSG_TYPE_UPDATE, upd 1 6); (MAMA_MSG_TYPE_QUOTE, upd 2 7); (MAMA_MSG_TYPE_TRADE, upd 3 8)] in
  wp (run_msgs l) waiting_sub (fun _ s' => awaiting_initial s' /\ trace s' = [] /\ ring (dq s') [upd 2 7; upd 3 8]).
Proof.
  intros l. apply (dq_pre_initial_ring waiting_sub l).
  - by split.
  - exists [None; None], 2%nat. cbn. split_and!; try done; lia || (by right).
  - intros p Hp. unfold l in Hp. rewrite !elem_of_cons in Hp. destruct Hp as [-> |[-> |[-> |Hp]]]; try done. by apply not_elem_of_nil in Hp.
Defined.

(** ** Filling a gap from the ring *)

Definition mark (stale : bool) (m : mamaMsg) : mamaMsg :=
  if stale then set_status MAMA_MSG_STATUS_STALE m else m.

(** The messages the scan forwards, and whether it reached the end of the gap. *)
Fixpoint scan (stale : bool) (l : list mamaMsg) (next end_ : Z) : list mamaMsg * bool :=
  match l with
  | [] => ([], false)
  | m :: l' =>
      if mamaMsg_getSeqNum m =? next then
        if u32 (next + 1) =? end_ then ([mark stale m], true)
        else (mark stale m :: (scan stale l' (u32 (next + 1)) end_).1, (scan stale l' (u32 (next + 1)) end_).2)
      else scan stale l' next end_
  end.

(** The slots from [cur] on, going round, hold [l] and end at [idx]. *)
Definition ahead (slots : list (option mamaMsg)) (n cur idx : Z) (l : list mamaMsg) : Prop :=
  Z.of_nat (length slots) = n /\ 0 <= cur < n /\ Z.of_nat (length l) <= n /\
  (forall i m, l !! i = Some m -> slots !! Z.to_nat ((cur + Z.of_nat i) `mod` n) = Some (Some m)) /\
  idx = (cur + Z.of_nat (length l)) `mod` n.

Lemma mod_once a n : 0 <= a < 2 * n -> a `mod` n = if a <? n then a else a - n.
Proof.
  intros H. destruct (Z.ltb_spec a n); [apply Z.mod_small; lia|].
  symmetry. apply Z.mod_unique_pos with 1; lia.
Qed.

Definition step_ring (cur n : Z) : Z := if cur + 1 =? n then 0 else cur + 1.

Lemma ahead_cons slots n cur idx m l x :
  ahead slots n cur idx (m :: l) ->
  slots !! Z.to_nat cur = Some (Some m) /\
  ahead (<[Z.to_nat cur := x]> slots) n (step_ring cur n) idx l /\
  (step_ring cur n =? idx) = match l with [] => true | _ => false end.
Proof.
  intros (Hl & Hc & Hn & Hs & Hi). cbn [length] in *.
  assert (step_ring cur n = (cur + 1) `mod` n) as E.
  { unfold step_ring. rewrite mod_once by lia.
    destruct (Z.eqb_spec (cur + 1) n), (Z.ltb_spec (cur + 1) n); lia. }
  assert (idx = (step_ring cur n + Z.of_nat (length l)) `mod` n) as Hi'.
  { rewrite Hi, E, Zplus_mod_idemp_l. f_equal. lia. }
  assert (0 <= step_ring cur n < n) as Hr by (rewrite E; apply Z.mod_pos_bound; lia).
  split_and!.
  - rewrite <- (Hs 0%nat m eq_refl). cbn. rewrite Z.add_0_r, Z.mod_small by lia. done.
  - unfold ahead. rewrite length_insert. split_and!; [done|lia..| |done].
    intros i m' Hm'. rewrite E, Zplus_mod_idemp_l. rewrite list_lookup_insert_ne.
    + rewrite <- (Hs (S i) m' Hm'). do 3 f_equal. lia.
    + apply lookup_lt_Some in Hm'. rewrite mod_once by lia.
      destruct (Z.ltb_spec (cur + 1 + Z.of_nat i) n); lia.
  - rewrite Hi'. rewrite mod_once by lia. destruct l as [|m' l]; cbn [length] in *.
    + rewrite Z.add_0_r. destruct (Z.ltb_spec (step_ring cur n) n); [apply Z.eqb_refl|lia].
    + apply Z.eqb_neq. destruct (Z.ltb_spec (step_ring cur n + Z.of_nat (S (length l))) n); lia.
Qed.

Lemma fill_loop_spec l : forall fuel s cur next end_ slots,
  l ≠ [] -> (length l <= fuel)%nat -> mCache (dq s) = Some slots ->
  ahead slots (mCacheSize (dq s)) cur (mCurCacheIdx (dq s)) l ->
  wp (fill_loop fuel cur next end_ Own) s (fun b s' =>
    let r := scan (mSetCacheMsgStale (dq s)) l next end_ in
    b = r.2 /\ exists slots', length slots' = length slots /\
      s' = set_trace (trace s ++ (OnMsg <$> r.1)) (set_dq (set_mCache (Some slots') (dq s)) s)).
Proof.
  induction l as [|m l IH]; intros fuel s cur next end_ slots Hne Hf Hc Ha; [done|].
  destruct fuel as [|fuel]; [cbn in Hf; lia|]. cbn [fill_loop]. wp_dq. rewrite Hc.
  pose proof (ahead_cons _ _ _ _ _ _ (Some (mark (mSetCacheMsgStale (dq s)) m)) Ha) as (Hm & Ha' & He).
  pose proof (ahead_cons _ _ _ _ _ _ (Some m) Ha) as (_ & Ha'' & _). rewrite (list_insert_id _ _ _ Hm) in Ha''.
  rewrite Hm. fold (step_ring cur (mCacheSize (dq s))). cbn [scan].
  assert (exists slots', length slots' = length slots /\ s = set_trace (trace s ++ []) (set_dq (set_mCache (Some slots') (dq s)) s)) as Hid.
  { exists slots. split; [done|]. rewrite app_nil_r, <- Hc. by destruct s as [[[]]]. }
  destruct (mamaMsg_getSeqNum m =? next).
  - wp_dq. unfold mamaSubscription_forwardMsg. wp_dq. fold (mark (mSetCacheMsgStale (dq s)) m).
    set (slots1 := <[Z.to_nat cur := _]> slots) in *.
    set (s1 := set_trace _ (set_dq _ s)).
    assert (length slots1 = length slots) as El by apply length_insert.
    destruct (u32 (next + 1) =? end_).
    + wp_dq. split; [done|]. exists slots1. done.
    + rewrite He. destruct l as [|m' l].
      * wp_dq. split; [done|]. exists slots1. done.
      * eapply wp_mono; [apply (IH fuel s1 (step_ring cur (mCacheSize (dq s))) (u32 (next + 1)) end_ slots1);
          [done|cbn in Hf |- *; lia|done|exact Ha']|].
        cbn beta. intros b s' (-> & sl & Esl & ->). split; [done|]. exists sl. split; [congruence|].
        cbn [fst snd]. rewrite fmap_cons. unfold s1. cbn [trace set_trace]. rewrite <- app_assoc. done.
  - rewrite He. destruct l as [|m' l].
    + wp_dq. split; [done|]. exact Hid.
    + eapply wp_mono; [apply (IH fuel s (step_ring cur (mCacheSize (dq s))) next end_ slots);
        [done|cbn in Hf |- *; lia|done|exact Ha'']|]. done.
Qed.

Lemma rotated_lookup slots idx n i :
  Z.of_nat (length slots) = n -> 0 <= idx < n -> (Z.of_nat i < n) ->
  rotated slots idx !! i = slots !! Z.to_nat ((idx + Z.of_nat i) `mod` n).
Proof.
  intros Hl Hi Hn. unfold rotated. rewrite mod_once by lia.
  destruct (Z.ltb_spec (idx + Z.of_nat i) n).
  - rewrite lookup_app_l by (rewrite length_drop; lia). rewrite lookup_drop. f_equal. lia.
  - rewrite lookup_app_r by (rewrite length_drop; lia). rewrite length_drop.
    rewrite lookup_take_lt by lia. f_equal. lia.
Qed.

(** Where the scan of a ring starts, and what it then sees. *)
Lemma ring_start c arr slots x :
  ring c arr -> mCache c = Some slots -> slots !! Z.to_nat (mCurCacheIdx c) = Some x ->
  let cur := match x with None => 0 | Some _ => mCurCacheIdx c end in
  (arr = [] /\ slots !! Z.to_nat cur = Some None) \/
  (arr ≠ [] /\ ahead slots (mCacheSize c) cur (mCurCacheIdx c) arr).
Proof.
  intros (sl & k & Hc & Hl & Hi & Hr & Hk) Hc' Hx. rewrite Hc in Hc'. injection Hc' as ->.
  assert (k + length arr = length slots)%nat as Hlen.
  { apply (f_equal length) in Hr. unfold rotated in Hr.
    rewrite !length_app, length_drop, length_take, length_replicate, length_fmap in Hr. lia. }
  assert (rotated slots (mCurCacheIdx c) !! 0%nat = Some x) as H0.
  { rewrite (rotated_lookup _ _ (mCacheSize c)) by lia. replace (mCurCacheIdx c + Z.of_nat 0) with (mCurCacheIdx c) by lia. rewrite Z.mod_small by lia. done. }
  rewrite Hr in H0. destruct k as [|k].
  - destruct arr as [|a arr]; [cbn in Hlen; lia|]. cbn in H0. injection H0 as <-. right. split; [done|].
    cbn [Nat.add] in Hlen. unfold ahead. split_and!; [lia..| |].
    + intros i m Hm. rewrite <- (rotated_lookup _ _ _ i Hl Hi) by (apply lookup_lt_Some in Hm; lia).
      rewrite Hr. cbn [replicate app]. rewrite list_lookup_fmap. by rewrite Hm.
    + rewrite mod_once by lia. destruct (Z.ltb_spec (mCurCacheIdx c + Z.of_nat (length (a :: arr))) (mCacheSize c)); lia.
  - destruct Hk as [Hk|Hk]; [done|]. cbn in H0. injection H0 as <-. cbn iota.
    destruct arr as [|a arr]; [left; split; [done|]; cbn in Hk; rewrite <- Hk in Hx; exact Hx|]. right. split; [done|].
    unfold ahead. split_and!; [lia..| |].
    + intros i m Hm. assert (i < length (a :: arr))%nat as Hlt by (by eapply lookup_lt_Some).
      rewrite Z.mod_small by lia. replace (Z.to_nat (0 + Z.of_nat i)) with i by lia.
      assert (rotated slots (mCurCacheIdx c) !! (S k + i)%nat = Some (Some m)) as E.
      { rewrite Hr. rewrite lookup_app_r by (rewrite length_replicate; lia).
        rewrite length_replicate, list_lookup_fmap. replace (S k + i - S k)%nat with i by lia. by rewrite Hm. }
      rewrite (rotated_lookup _ _ (mCacheSize c)) in E by lia. rewrite mod_once in E by lia.
      destruct (Z.ltb_spec (mCurCacheIdx c + Z.of_nat (S k + i)) (mCacheSize c)); [lia|].
      rewrite <- E. f_equal. lia.
    + rewrite Z.mod_small by lia. lia.
Qed.

Lemma fillGap_spec s arr end_ :
  ring (dq s) arr ->
  wp (fillGap Own end_) s (fun b s' =>
    let r := scan (mSetCacheMsgStale (dq s)) arr (u32 (mSeqNum (dq s) + 1)) end_ in
    b = r.2 /\ trace s' = trace s ++ (OnMsg <$> r.1) /\ mSeqNum (dq s') = mSeqNum (dq s) /\
    mDQState (dq s') = mDQState (dq s)).
Proof.
  intros Hr. pose proof Hr as (slots & k & Hc & Hl & Hi & _). unfold fillGap. wp_dq. rewrite Hc.
  destruct (lookup_lt_is_Some_2 slots (Z.to_nat (mCurCacheIdx (dq s)))) as [x Hx]; [lia|]. rewrite Hx.
  assert (forall b s1, mSeqNum (dq s1) = mSeqNum (dq s) -> mDQState (dq s1) = mDQState (dq s) ->
    wp (if b : bool then mret true else upd_ctx Own (set_mSetCacheMsgStale false) ;; mret false) s1 (fun b' s' =>
      b' = b /\ trace s' = trace s1 /\ mSeqNum (dq s') = mSeqNum (dq s) /\ mDQState (dq s') = mDQState (dq s))) as Hend.
  { intros [] s1 E1 E2; wp_dq; done. }
  destruct (ring_start _ _ _ _ Hr Hc Hx) as [[-> Hn]|[Hne Ha]].
  - assert (wp (fill_loop (length slots) (match x with None => 0 | Some _ => mCurCacheIdx (dq s) end)
              (u32 (mSeqNum (dq s) + 1)) end_ Own) s (fun b s' => b = false /\ s' = s)) as HF.
    { destruct (length slots) as [|n] eqn:E; [lia|]. cbn [fill_loop]. wp_dq. rewrite Hc, Hn. by wp_dq. }
    eapply wp_mono; [exact HF|]. cbn beta. intros b s1 [-> ->].
    eapply wp_mono; [exact (Hend false s eq_refl eq_refl)|]. cbn beta. intros b' s' (-> & E1 & E2 & E3).
    cbn. by rewrite app_nil_r.
  - eapply wp_mono; [eapply fill_loop_spec; [done| |done|exact Ha]|].
    + destruct Ha as (_ & _ & Ha & _). lia.
    + cbn beta. intros b s1 (-> & sl & _ & ->).
      eapply wp_mono; [eapply Hend; done|]. cbn beta. intros b' s' (-> & E1 & E2 & E3). by rewrite E1.
Qed.

(** The sequence numbers of a gap of [d] messages from [next] on. *)
Fixpoint gap_list (d : nat) (next : Z) : list Z :=
  match d with O => [] | S d' => next :: gap_list d' (u32 (next + 1)) end.

Lemma u32_add_inj next a b : 0 <= a < 2 ^ 32 -> 0 <= b < 2 ^ 32 -> u32 (next + a) = u32 (next + b) -> a = b.
Proof.
  unfold u32, uwrap. intros Ha Hb E.
  assert ((a - b) `mod` 2 ^ 32 = 0) as H0.
  { replace (a - b) with (next + a - (next + b)) by lia. rewrite Zminus_mod, E, Z.sub_diag. done. }
  apply Z.mod_divide in H0 as [z Hz]; [|lia]. nia.
Qed.

Lemma u32_succ next d : u32 (u32 (next + 1) + d) = u32 (next + (1 + d)).
Proof. unfold u32, uwrap. rewrite Zplus_mod_idemp_l. f_equal. lia. Qed.

(** The scan fills the gap exactly when the ring has its messages in order. *)
Lemma scan_exact stale l : forall d next end_,
  (0 < d)%nat -> Z.of_nat d < 2 ^ 32 -> end_ = u32 (next + Z.of_nat d) ->
  ((scan stale l next end_).2 = true <-> gap_list d next `sublist_of` (mamaMsg_getSeqNum <$> l)) /\
  ((scan stale l next end_).2 = true -> mamaMsg_getSeqNum <$> (scan stale l next end_).1 = gap_list d next).
Proof.
  induction l as [|m l IH]; intros d next end_ Hd Hlt He; cbn [scan].
  - destruct d as [|d]; [lia|]. cbn. split; [|done]. split; [done|]. intros H%sublist_nil_r. done.
  - rewrite fmap_cons. destruct d as [|d]; [lia|]. cbn [gap_list].
    assert (forall x, mamaMsg_getSeqNum (mark stale x) = mamaMsg_getSeqNum x) as Em by (by destruct stale).
    destruct (Z.eqb_spec (mamaMsg_getSeqNum m) next) as [Eq|Hne].
    + assert (forall g, next :: g `sublist_of` next :: (mamaMsg_getSeqNum <$> l) <-> g `sublist_of` (mamaMsg_getSeqNum <$> l)) as Hsub.
      { intros g. split; [|by apply sublist_skip]. intros H. inv H as [|??? H'|??? H']; [done|].
        etrans; [|exact H']. by apply sublist_cons. }
      rewrite Eq, Hsub. destruct (Z.eqb_spec (u32 (next + 1)) end_) as [E|E].
      * assert (d = O) as ->.
        { rewrite He in E. apply u32_add_inj in E; lia. }
        cbn. rewrite Em, Eq. split; [|done]. split; [|done]. intros _. apply sublist_nil_l.
      * destruct d as [|d]; [rewrite He in E; cbn in E; done|].
        destruct (IH (S d) (u32 (next + 1)) end_) as [IH1 IH2]; [lia..|rewrite He, u32_succ; f_equal; lia|].
        cbn [fst snd]. split; [exact IH1|]. intros H. rewrite fmap_cons, Em, Eq, IH2 by done. done.
    + destruct (IH (S d) next end_ Hd Hlt He) as [IH1 IH2]. cbn [gap_list] in *. split; [|exact IH2].
      rewrite IH1. split; [by apply sublist_cons|]. intros H. by inv H.
Qed.

(** a gap is filled exactly.  Called for a gap from the context's next
    sequence number up to [end_] (modulo 2^32, at least one number), [fillGap]
    scans the ring in order of arrival, going round it, always returns, and
    succeeds exactly when the ring contains messages with the missing numbers
    in order; it has then forwarded one message for each missing number, in
    order, and none other. *)
Theorem dq_fill_gap_exact s arr d end_ :
  ring (dq s) arr -> (0 < d)%nat -> Z.of_nat d < 2 ^ 32 ->
  let next := u32 (mSeqNum (dq s) + 1) in end_ = u32 (next + Z.of_nat d) ->
  wp (fillGap Own end_) s (fun b s' => exists ms,
    trace s' = trace s ++ (OnMsg <$> ms) /\
    (b = true <-> gap_list d next `sublist_of` (mamaMsg_getSeqNum <$> arr)) /\
    (b = true -> mamaMsg_getSeqNum <$> ms = gap_list d next) /\ mSeqNum (dq s') = mSeqNum (dq s)).
Proof.
  intros Hr Hd Hlt next He. eapply wp_mono; [by apply fillGap_spec|]. cbn beta zeta.
  intros b s' (-> & E1 & E2 & _). fold next in E1 |- *.
  destruct (scan_exact (mSetCacheMsgStale (dq s)) arr d next end_ Hd Hlt He) as [H1 H2].
  eexists. split; [exact E1|]. by split_and!.
Qed.

Definition ring_sub : subscription :=
  mkSub (mkSubject (mkCtx 5 DQ_STATE_OK (Some [Some (upd 3 8); Some (upd 1 6); Some (upd 2 7)]) 1 3 true 0 false false) 1 true "IBM")
    None (Some (mkStrategy true true)) false "IBM" false false true 1 3 demo_cfg [].

Lemma dq_fill_gap_exact_witness :
  wp (fillGap Own 8) ring_sub (fun b s' => exists ms,
    trace s' = [] ++ (OnMsg <$> ms) /\
    (b = true <-> gap_list 2 6 `sublist_of` (mamaMsg_getSeqNum <$> [upd 1 6; upd 2 7; upd 3 8])) /\
    (b = true -> mamaMsg_getSeqNum <$> ms = gap_list 2 6) /\ mSeqNum (dq s') = 5).
Proof.
  apply (dq_fill_gap_exact ring_sub [upd 1 6; upd 2 7; upd 3 8] 2 8); [|lia|lia|reflexivity].
  exists [Some (upd 3 8); Some (upd 1 6); Some (upd 2 7)], 0%nat. cbn. split_and!; try done; lia || (by left).
Defined.
