(* ===== verification/Cstdio.v ===== *)
(** * Numbers as text: the parts of [printf] and [scanf] the sources use

    Printing puts the digits of a number in front of a tail; scanning returns
    what it read and the rest of the input, as [scanf] goes on from there.  The
    round trips at the end are what a sender and a receiver of text rely on. *)

From S2P Require Import Prelude.
From Stdlib Require Import Ascii String.
From stdpp Require Import strings.
#[local] Open Scope Z_scope.

Module Cstdio.

Definition chr (n : Z) : ascii := ascii_of_nat (Z.to_nat n).
Definition code (c : ascii) : Z := Z.of_nat (nat_of_ascii c).

Definition TAB : ascii := chr 9.
Definition NUL : ascii := chr 0.

(** [isspace]. *)
Definition is_space (c : ascii) : bool := let n := code c in (n =? 32) || ((9 <=? n) && (n <=? 13)).

(** The value of a digit, whatever the base: letters count from ten. *)
Definition digit_value (c : ascii) : option Z :=
  let n := code c in
  if (48 <=? n) && (n <=? 57) then Some (n - 48)
  else if (97 <=? n) && (n <=? 122) then Some (n - 87)
  else if (65 <=? n) && (n <=? 90) then Some (n - 55)
  else None.

Definition digit_in (b : Z) (c : ascii) : option Z :=
  v ← digit_value c; if v <? b then Some v else None.

Definition digit_char (v : Z) : ascii := if v <? 10 then chr (48 + v) else chr (87 + v).

(** ** Printing *)

(** The digits of [n] in base [b] in front of [acc]; 64 digits are enough for
    64-bit numbers in every base from 2 on. *)
Fixpoint put_digits (fuel : nat) (b n : Z) (acc : string) : string :=
  match fuel with
  | O => acc
  | S fuel' =>
      let acc := String (digit_char (n `mod` b)) acc in
      if n / b =? 0 then acc else put_digits fuel' b (n / b) acc
  end.

(** [%x], [%u] and [%d] in front of [tail]. *)
Definition put_x (n : Z) (tail : string) : string := put_digits 64 16 n tail.
Definition put_u (n : Z) (tail : string) : string := put_digits 64 10 n tail.
Definition put_d (n : Z) (tail : string) : string :=
  if n <? 0 then String (chr 45) (put_u (- n) tail) else put_u n tail.

(** ** Scanning *)

Fixpoint skip_space (s : string) : string :=
  match s with
  | String c s' => if is_space c then skip_space s' else s
  | EmptyString => s
  end.

(** The longest run of digits: the value and the rest. *)
Fixpoint get_digits (b acc : Z) (s : string) : Z * string :=
  match s with
  | String c s' => match digit_in b c with
                   | Some v => get_digits b (acc * b + v) s'
                   | None => (acc, s)
                   end
  | EmptyString => (acc, s)
  end.

Definition get_number (b : Z) (s : string) : option (Z * string) :=
  match s with
  | String c _ => match digit_in b c with Some _ => Some (get_digits b 0 s) | None => None end
  | EmptyString => None
  end.

(** An optional sign. *)
Definition get_sign (s : string) : bool * string :=
  match s with
  | String c s' => if code c =? 45 then (true, s') else if code c =? 43 then (false, s') else (false, s)
  | EmptyString => (false, s)
  end.

(** The [0x] a hexadecimal number may start with. *)
Definition skip_0x (b : Z) (s : string) : string :=
  match s with
  | String z (String x s') =>
      if (b =? 16) && (code z =? 48) && ((code x =? 120) || (code x =? 88)) then s' else s
  | _ => s
  end.

(** [%x] and [%u] into an [unsigned int]: blanks, sign and digits are read as by
    [strtoul], which stays at [ULONG_MAX], and the low 32 bits are kept. *)
Definition scan_uint (b : Z) (s : string) : option (Z * string) :=
  let '(neg, s) := get_sign (skip_space s) in
  '(v, rest) ← get_number b (skip_0x b s);
  let v := if 2 ^ 64 <=? v then 2 ^ 64 - 1 else if neg : bool then u64 (- v) else v in
  Some (u32 v, rest).

(** [%s]: a run of characters that are not blank, at least one. *)
Fixpoint get_word (s : string) : string * string :=
  match s with
  | String c s' => if is_space c then (EmptyString, s) else let '(w, rest) := get_word s' in (String c w, rest)
  | EmptyString => (EmptyString, s)
  end.

Definition scan_word (s : string) : option (string * string) :=
  match get_word (skip_space s) with
  | (EmptyString, _) => None
  | r => Some r
  end.

(** [strtol] in base 10 with its saturation: no digits give 0. *)
Definition strtol (s : string) : Z :=
  let '(neg, s) := get_sign (skip_space s) in
  match get_number 10 s with
  | None => 0
  | Some (v, _) => let v := if neg : bool then - v else v in Z.max (- 2 ^ 63) (Z.min (2 ^ 63 - 1) v)
  end.

(** A C string: the characters before the first NUL, if there is one. *)
Fixpoint c_string (s : string) : option string :=
  match s with
  | String c s' => if code c =? 0 then Some EmptyString else String c <$> c_string s'
  | EmptyString => None
  end.

(** ** Round trips *)

(** A tail that does not continue a number of base [b]. *)
Definition stops (b : Z) (s : string) : Prop :=
  match s with String c _ => digit_in b c = None | EmptyString => True end.

Lemma string_app_cons c s t : (String c s ++ t)%string = String c (s ++ t).
Proof. done. Qed.

Lemma code_chr n : 0 <= n < 256 -> code (chr n) = n.
Proof. intros H. unfold code, chr. rewrite nat_ascii_embedding; lia. Qed.

Lemma digit_in_char b v : 2 <= b <= 16 -> 0 <= v < b -> digit_in b (digit_char v) = Some v.
Proof.
  intros Hb Hv. unfold digit_in, digit_value, digit_char.
  destruct (Z.ltb_spec v 10); rewrite code_chr by lia; cbn zeta;
    repeat case_match; simpl in *; repeat case_match; simplify_eq/=; lia || (f_equal; lia).
Qed.

Lemma get_digits_stops b acc s : stops b s -> get_digits b acc s = (acc, s).
Proof. destruct s as [|c s]; [done|]. cbn. by intros ->. Qed.

(** Scanning back the digits that were put in front of [tail]. *)
Lemma get_put_digits b : 2 <= b <= 16 -> forall fuel n tail, 0 <= n < b ^ Z.of_nat fuel -> (0 < fuel)%nat ->
  exists k, 0 < k /\ forall acc,
    get_digits b acc (put_digits fuel b n tail) = get_digits b (acc * b ^ k + n) tail.
Proof.
  intros Hb. induction fuel as [|fuel IH]; intros n tail Hn Hf; [lia|]. cbn [put_digits].
  assert (0 <= n `mod` b < b) as Hm by (apply Z.mod_pos_bound; lia).
  pose proof (Z.div_mod n b) as Hdm.
  destruct (Z.eqb_spec (n / b) 0) as [E|E].
  - exists 1. split; [lia|]. intros acc. cbn [get_digits]. rewrite digit_in_char by done. f_equal. lia.
  - assert (0 <= n / b) by (apply Z.div_pos; lia).
    destruct fuel as [|fuel]; [change (b ^ Z.of_nat 1) with (b ^ 1) in Hn; rewrite Z.pow_1_r in Hn;
      rewrite Z.div_small in E; lia|].
    assert (0 <= n / b < b ^ Z.of_nat (S fuel)) as Hlt.
    { split; [done|]. apply Z.div_lt_upper_bound; [lia|]. rewrite (Nat2Z.inj_succ (S fuel)), Z.pow_succ_r in Hn; lia. }
    destruct (IH (n / b) (String (digit_char (n `mod` b)) tail) Hlt) as (k & Hk & IHk); [lia|].
    exists (k + 1). split; [lia|]. intros acc. rewrite IHk. cbn [get_digits]. rewrite digit_in_char by done.
    f_equal. rewrite Z.pow_add_r, Z.pow_1_r by lia. lia.
Qed.

(** What a printed number starts with: a digit, then digits or the tail. *)
Definition starts (b : Z) (tail s : string) : Prop :=
  exists v s', 0 <= v < b /\ s = String (digit_char v) s' /\
    (s' = tail \/ exists v' s'', 0 <= v' < b /\ s' = String (digit_char v') s'').

Lemma put_digits_head b : 2 <= b <= 16 -> forall fuel n tail, (0 < fuel)%nat ->
  starts b tail (put_digits fuel b n tail).
Proof.
  intros Hb. assert (forall fuel n v tail0 tail, 0 <= v < b ->
    tail = tail0 \/ (exists v' s'', 0 <= v' < b /\ tail = String (digit_char v') s'') ->
    starts b tail0 (put_digits fuel b n (String (digit_char v) tail))) as HG.
  { induction fuel as [|fuel IH]; intros n v tail0 tail Hv Ht; [by exists v, tail|]. cbn [put_digits].
    pose proof (Z.mod_pos_bound n b ltac:(lia)).
    assert (String (digit_char v) tail = tail0 \/
      (exists v' s'', 0 <= v' < b /\ String (digit_char v) tail = String (digit_char v') s'')) by (right; eauto).
    destruct (n / b =? 0); [by eexists _, _|by apply IH]. }
  intros [|fuel] n tail Hf; [lia|]. cbn [put_digits]. pose proof (Z.mod_pos_bound n b ltac:(lia)).
  destruct (n / b =? 0); [eexists _, _; eauto|apply HG; auto].
Qed.

Lemma get_number_put b fuel n tail : 2 <= b <= 16 -> (0 < fuel)%nat -> 0 <= n < b ^ Z.of_nat fuel -> stops b tail ->
  get_number b (put_digits fuel b n tail) = Some (n, tail).
Proof.
  intros Hb Hf Hn Hs. destruct (put_digits_head b Hb fuel n tail Hf) as (v & s & Hv & E & _).
  destruct (get_put_digits b Hb fuel n tail Hn Hf) as (k & Hk & Eg).
  unfold get_number. rewrite E at 1. cbn. rewrite digit_in_char by done.
  rewrite Eg, Z.mul_0_l, Z.add_0_l, get_digits_stops by done. done.
Qed.

Lemma code_digit v : 0 <= v < 16 -> (48 <= code (digit_char v) <= 57) \/ (97 <= code (digit_char v) <= 102).
Proof. intros Hv. unfold digit_char. destruct (Z.ltb_spec v 10); rewrite code_chr by lia; lia. Qed.

Lemma plain_digit v s : 0 <= v < 16 ->
  skip_space (String (digit_char v) s) = String (digit_char v) s /\
  get_sign (String (digit_char v) s) = (false, String (digit_char v) s).
Proof.
  intros Hv. pose proof (code_digit v Hv). cbn. unfold is_space.
  destruct (Z.eqb_spec (code (digit_char v)) 32); [lia|].
  destruct (Z.leb_spec 9 (code (digit_char v))), (Z.leb_spec (code (digit_char v)) 13); try lia.
  cbn. destruct (Z.eqb_spec (code (digit_char v)) 45); [lia|].
  destruct (Z.eqb_spec (code (digit_char v)) 43); [lia|]. done.
Qed.

Lemma skip_0x_starts b tail s : 2 <= b <= 16 -> starts b (String TAB tail) s -> skip_0x b s = s.
Proof.
  intros Hb (v & s' & _ & -> & Hs). unfold skip_0x.
  assert (exists c s'', s' = String c s'' /\ code c ≠ 120 /\ code c ≠ 88) as (c & s'' & -> & H1 & H2).
  { destruct Hs as [->|(v' & s'' & Hv & ->)]; [by exists TAB, tail|].
    exists (digit_char v'), s''. pose proof (code_digit v' ltac:(lia)). split_and!; [done|lia|lia]. }
  apply Z.eqb_neq in H1, H2. by rewrite H1, H2, andb_false_r.
Qed.

Lemma pow_64 b : 2 <= b -> 2 ^ 64 <= b ^ Z.of_nat 64.
Proof. intros Hb. apply Z.pow_le_mono_l. lia. Qed.

Lemma scan_uint_put b n tail : 2 <= b <= 16 -> in_u 32 n -> stops b (String TAB tail) ->
  scan_uint b (put_digits 64 b n (String TAB tail)) = Some (n, String TAB tail).
Proof.
  intros Hb Hn Hs. unfold in_u in Hn.
  pose proof (put_digits_head b Hb 64 n (String TAB tail) ltac:(lia)) as Hst.
  pose proof Hst as (v & s & Hv & E & _). destruct (plain_digit v s ltac:(lia)) as [E1 E2].
  unfold scan_uint. rewrite E, E1, E2, <- E, (skip_0x_starts b tail) by done.
  rewrite get_number_put; [|done|lia| |done]; [|pose proof (pow_64 b ltac:(lia)); lia].
  cbn. destruct (Z.leb_spec (2 ^ 64) n); [lia|]. f_equal. f_equal. by apply uwrap_small.
Qed.

(** A number printed with [%d] and read with [%u] keeps its 32 bits, also when
    it is negative. *)
Lemma scan_uint_put_d n tail : - 2 ^ 32 < n < 2 ^ 32 ->
  scan_uint 10 (put_d n (String TAB tail)) = Some (u32 n, String TAB tail).
Proof.
  intros Hn. unfold put_d, put_u. destruct (Z.ltb_spec n 0) as [Hneg|Hpos].
  - pose proof (put_digits_head 10 ltac:(lia) 64 (- n) (String TAB tail) ltac:(lia)) as Hst.
    unfold scan_uint. change (skip_space (String (chr 45) ?x)) with (String (chr 45) x).
    change (get_sign (String (chr 45) ?x)) with (true, x). cbv beta iota.
    rewrite (skip_0x_starts 10 tail) by done.
    rewrite get_number_put; [|lia|lia| |done]; [|pose proof (pow_64 10 ltac:(lia)); lia].
    cbn [mbind option_bind]. destruct (Z.leb_spec (2 ^ 64) (- n)); [lia|]. do 2 f_equal. unfold u32, u64, uwrap.
    rewrite Z.opp_involutive. rewrite <- (Znumtheory.Zmod_div_mod (2 ^ 32) (2 ^ 64)); [done|lia|lia|].
    exists (2 ^ 32). lia.
  - rewrite scan_uint_put; [|lia| |done]; unfold in_u; [|lia]. f_equal. f_equal. symmetry. apply uwrap_small. unfold in_u; lia.
Qed.

(** Words without blanks come back whole. *)
Fixpoint no_space (s : string) : bool :=
  match s with String c s' => negb (is_space c) && no_space s' | EmptyString => true end.

Lemma get_word_no_space s : no_space s = true -> get_word s = (s, EmptyString).
Proof.
  induction s as [|c s IH]; [done|]. cbn. intros [H1 H2]%andb_prop. apply negb_true_iff in H1.
  by rewrite H1, IH.
Qed.

Lemma scan_word_no_space s : no_space s = true -> s ≠ EmptyString -> scan_word s = Some (s, EmptyString).
Proof.
  intros H1 H2. unfold scan_word. destruct s as [|c s]; [done|].
  assert (skip_space (String c s) = String c s) as ->.
  { cbn in H1 |- *. apply andb_prop in H1 as [H1 _]. apply negb_true_iff in H1. by rewrite H1. }
  by rewrite get_word_no_space.
Qed.

Lemma length_put_digits fuel b n tail :
  (String.length (put_digits fuel b n tail) <= fuel + String.length tail)%nat.
Proof.
  revert n tail. induction fuel as [|fuel IH]; intros n tail; [done|]. cbn [put_digits].
  destruct (n / b =? 0); [cbn; lia|]. etrans; [apply IH|]. cbn. lia.
Qed.

Lemma length_put_d n tail : (String.length (put_d n tail) <= 65 + String.length tail)%nat.
Proof.
  unfold put_d, put_u. destruct (n <? 0); cbn [String.length];
    (etrans; [|reflexivity]); pose proof (length_put_digits 64 10 n tail);
    pose proof (length_put_digits 64 10 (- n) tail); lia.
Qed.

(** ** Text in front of text *)

Lemma put_app fuel b n s t : (put_digits fuel b n s ++ t)%string = put_digits fuel b n (s ++ t).
Proof.
  revert n s. induction fuel as [|fuel IH]; intros n s; [done|]. cbn [put_digits].
  destruct (n / b =? 0); [done|]. by rewrite IH.
Qed.

Lemma put_d_app n s t : (put_d n s ++ t)%string = put_d n (s ++ t).
Proof. unfold put_d, put_u. destruct (n <? 0); rewrite ?string_app_cons; by rewrite put_app. Qed.

Lemma string_app_nil s : (s ++ EmptyString)%string = s.
Proof. induction s as [|c s IH]; [done|]. by rewrite string_app_cons, IH. Qed.

Lemma string_app_assoc (s t u : string) : ((s ++ t) ++ u = s ++ (t ++ u))%string.
Proof. induction s as [|c s IH]; [done|]. rewrite !string_app_cons. by rewrite IH. Qed.

End Cstdio.
