(* ===== verification/Ft.v ===== *)
(** * Fault tolerance: [mama/c_cpp/src/c/ft.c] and the timers of [timer.c]

    The members of a fault tolerant group elect one active member.  Every member
    sends heartbeats with its weight, incarnation, address and process id; a
    member that hears better credentials than its own stands by, and one that
    hears nothing until its timeout timer fires becomes active.

    The state ([world]) is one process: its member, the statics of the file, the
    datagrams waiting at its socket, the results the operating system and the
    middleware will give to the calls made to them ([outcomes], OK when the list
    is used up), and the trace of what it sent and announced.  The callbacks run
    on one queue, one at a time; the application's state callback is an event of
    the trace. *)

From S2P Require Import Prelude MamaStatus Cstdio.
From Stdlib Require Import Ascii String.
From stdpp Require Import strings.
#[local] Open Scope Z_scope.

Module Ft.
Import Cstdio.

(** ** Data *)

Inductive mamaFtState : Type := MAMA_FT_STATE_STANDBY | MAMA_FT_STATE_ACTIVE | MAMA_FT_STATE_UNKNOWN.
Inductive mamaFtType : Type := MAMA_FT_TYPE_MULTICAST | MAMA_FT_TYPE_BRIDGE | MAMA_FT_TYPE_MAX.

#[export] Instance mamaFtState_eq_dec : EqDecision mamaFtState.
Proof. solve_decision. Defined.

Definition state_eqb (a b : mamaFtState) : bool :=
  match a, b with
  | MAMA_FT_STATE_STANDBY, MAMA_FT_STATE_STANDBY | MAMA_FT_STATE_ACTIVE, MAMA_FT_STATE_ACTIVE
  | MAMA_FT_STATE_UNKNOWN, MAMA_FT_STATE_UNKNOWN => true
  | _, _ => false
  end.

(** The numbers of the states, as a heartbeat carries them. *)
Definition state_code (st : mamaFtState) : Z :=
  match st with MAMA_FT_STATE_STANDBY => 0 | MAMA_FT_STATE_ACTIVE => 1 | MAMA_FT_STATE_UNKNOWN => 99 end.

(** A timer pointer: NULL, allocated but not started, running, or left behind by
    a start that failed and freed the timer. *)
Inductive mamaTimer : Type := TimerNull | TimerAllocated | TimerStarted | TimerFreed.

Definition is_null (t : mamaTimer) : bool := match t with TimerNull => true | _ => false end.

Definition FT_SYMBOL_PREFIX : string := "MAMA_FT".
Definition FT_MAX_PACKET_SIZE : Z := 1500.
Definition FT_MAX_PROPERTY_NAME_LENGTH : Z := 1024.
Definition FT_NETWORK : string := "239.1.1.1".
Definition FT_SERVICE : Z := 7702.
Definition FT_TTL : Z := 1.
(** The buffer [multicastFt_receiveHeartbeat] scans the group name into. *)
Definition HB_GROUP_NAME_SIZE : Z := 100.

(** A heartbeat message of the bridge; [None] is an absent field. *)
Record heartbeatMsg := mkHeartbeat {
  hb_ip : option Z; hb_pid : option Z; hb_weight : option Z; hb_incarnation : option Z;
  hb_primary : option Z; hb_group : option string
}.

Inductive ftEvent : Type :=
| HeartbeatSent (packet : string)
| HeartbeatPublished (msg : heartbeatMsg)
| HeartbeatTimerReset
| TimeoutTimerReset
| StateChange (st : mamaFtState).

(** [ftType] stands for the function pointers the setup installs. *)
Record mamaFtMemberImpl := mkMember {
  myGroupName : option string;
  myWeight : Z;
  myIncarnation : Z;
  myNextIncarnation : Z;
  myIsActive : bool;
  mySubscription : bool;
  myHeartbeatTimer : mamaTimer;
  myTimeoutTimer : mamaTimer;
  myHeartbeatTick : Z;
  myInstanceId : option string;
  mySymbol : option string;
  myState : mamaFtState;
  myRecvSocket : Z;
  mySendSocket : Z;
  myIP : Z;
  myPid : Z;
  myRecvWindow : Z;
  ftType : option mamaFtType
}.

Definition set_myGroupName v m := mkMember v (myWeight m) (myIncarnation m) (myNextIncarnation m) (myIsActive
  m) (mySubscription m) (myHeartbeatTimer m) (myTimeoutTimer m) (myHeartbeatTick m) (myInstanceId m) (mySymbol
  m) (myState m) (myRecvSocket m) (mySendSocket m) (myIP m) (myPid m) (myRecvWindow m) (ftType m).
Definition set_myWeight v m := mkMember (myGroupName m) v (myIncarnation m) (myNextIncarnation m) (myIsActive
  m) (mySubscription m) (myHeartbeatTimer m) (myTimeoutTimer m) (myHeartbeatTick m) (myInstanceId m) (mySymbol
  m) (myState m) (myRecvSocket m) (mySendSocket m) (myIP m) (myPid m) (myRecvWindow m) (ftType m).
Definition set_myIncarnation v m := mkMember (myGroupName m) (myWeight m) v (myNextIncarnation m) (myIsActive
  m) (mySubscription m) (myHeartbeatTimer m) (myTimeoutTimer m) (myHeartbeatTick m) (myInstanceId m) (mySymbol
  m) (myState m) (myRecvSocket m) (mySendSocket m) (myIP m) (myPid m) (myRecvWindow m) (ftType m).
Definition set_myNextIncarnation v m := mkMember (myGroupName m) (myWeight m) (myIncarnation m) v (myIsActive
  m) (mySubscription m) (myHeartbeatTimer m) (myTimeoutTimer m) (myHeartbeatTick m) (myInstanceId m) (mySymbol
  m) (myState m) (myRecvSocket m) (mySendSocket m) (myIP m) (myPid m) (myRecvWindow m) (ftType m).
Definition set_myIsActive v m := mkMember (myGroupName m) (myWeight m) (myIncarnation m) (myNextIncarnation m)
  v (mySubscription m) (myHeartbeatTimer m) (myTimeoutTimer m) (myHeartbeatTick m) (myInstanceId m) (mySymbol
  m) (myState m) (myRecvSocket m) (mySendSocket m) (myIP m) (myPid m) (myRecvWindow m) (ftType m).
Definition set_mySubscription v m := mkMember (myGroupName m) (myWeight m) (myIncarnation m)
  (myNextIncarnation m) (myIsActive m) v (myHeartbeatTimer m) (myTimeoutTimer m) (myHeartbeatTick m)
  (myInstanceId m) (mySymbol m) (myState m) (myRecvSocket m) (mySendSocket m) (myIP m) (myPid m) (myRecvWindow
  m) (ftType m).
Definition set_myHeartbeatTimer v m := mkMember (myGroupName m) (myWeight m) (myIncarnation m)
  (myNextIncarnation m) (myIsActive m) (mySubscription m) v (myTimeoutTimer m) (myHeartbeatTick m)
  (myInstanceId m) (mySymbol m) (myState m) (myRecvSocket m) (mySendSocket m) (myIP m) (myPid m) (myRecvWindow
  m) (ftType m).
Definition set_myTimeoutTimer v m := mkMember (myGroupName m) (myWeight m) (myIncarnation m)
  (myNextIncarnation m) (myIsActive m) (mySubscription m) (myHeartbeatTimer m) v (myHeartbeatTick m)
  (myInstanceId m) (mySymbol m) (myState m) (myRecvSocket m) (mySendSocket m) (myIP m) (myPid m) (myRecvWindow
  m) (ftType m).
Definition set_myHeartbeatTick v m := mkMember (myGroupName m) (myWeight m) (myIncarnation m)
  (myNextIncarnation m) (myIsActive m) (mySubscription m) (myHeartbeatTimer m) (myTimeoutTimer m) v
  (myInstanceId m) (mySymbol m) (myState m) (myRecvSocket m) (mySendSocket m) (myIP m) (myPid m) (myRecvWindow
  m) (ftType m).
Definition set_myInstanceId v m := mkMember (myGroupName m) (myWeight m) (myIncarnation m) (myNextIncarnation
  m) (myIsActive m) (mySubscription m) (myHeartbeatTimer m) (myTimeoutTimer m) (myHeartbeatTick m) v (mySymbol
  m) (myState m) (myRecvSocket m) (mySendSocket m) (myIP m) (myPid m) (myRecvWindow m) (ftType m).
Definition set_mySymbol v m := mkMember (myGroupName m) (myWeight m) (myIncarnation m) (myNextIncarnation m)
  (myIsActive m) (mySubscription m) (myHeartbeatTimer m) (myTimeoutTimer m) (myHeartbeatTick m) (myInstanceId
  m) v (myState m) (myRecvSocket m) (mySendSocket m) (myIP m) (myPid m) (myRecvWindow m) (ftType m).
Definition set_myState v m := mkMember (myGroupName m) (myWeight m) (myIncarnation m) (myNextIncarnation m)
  (myIsActive m) (mySubscription m) (myHeartbeatTimer m) (myTimeoutTimer m) (myHeartbeatTick m) (myInstanceId
  m) (mySymbol m) v (myRecvSocket m) (mySendSocket m) (myIP m) (myPid m) (myRecvWindow m) (ftType m).
Definition set_myRecvSocket v m := mkMember (myGroupName m) (myWeight m) (myIncarnation m) (myNextIncarnation
  m) (myIsActive m) (mySubscription m) (myHeartbeatTimer m) (myTimeoutTimer m) (myHeartbeatTick m)
  (myInstanceId m) (mySymbol m) (myState m) v (mySendSocket m) (myIP m) (myPid m) (myRecvWindow m) (ftType m).
Definition set_mySendSocket v m := mkMember (myGroupName m) (myWeight m) (myIncarnation m) (myNextIncarnation
  m) (myIsActive m) (mySubscription m) (myHeartbeatTimer m) (myTimeoutTimer m) (myHeartbeatTick m)
  (myInstanceId m) (mySymbol m) (myState m) (myRecvSocket m) v (myIP m) (myPid m) (myRecvWindow m) (ftType m).
Definition set_myIP v m := mkMember (myGroupName m) (myWeight m) (myIncarnation m) (myNextIncarnation m)
  (myIsActive m) (mySubscription m) (myHeartbeatTimer m) (myTimeoutTimer m) (myHeartbeatTick m) (myInstanceId
  m) (mySymbol m) (myState m) (myRecvSocket m) (mySendSocket m) v (myPid m) (myRecvWindow m) (ftType m).
Definition set_myPid v m := mkMember (myGroupName m) (myWeight m) (myIncarnation m) (myNextIncarnation m)
  (myIsActive m) (mySubscription m) (myHeartbeatTimer m) (myTimeoutTimer m) (myHeartbeatTick m) (myInstanceId
  m) (mySymbol m) (myState m) (myRecvSocket m) (mySendSocket m) (myIP m) v (myRecvWindow m) (ftType m).
Definition set_myRecvWindow v m := mkMember (myGroupName m) (myWeight m) (myIncarnation m) (myNextIncarnation
  m) (myIsActive m) (mySubscription m) (myHeartbeatTimer m) (myTimeoutTimer m) (myHeartbeatTick m)
  (myInstanceId m) (mySymbol m) (myState m) (myRecvSocket m) (mySendSocket m) (myIP m) (myPid m) v (ftType m).
Definition set_ftType v m := mkMember (myGroupName m) (myWeight m) (myIncarnation m) (myNextIncarnation m)
  (myIsActive m) (mySubscription m) (myHeartbeatTimer m) (myTimeoutTimer m) (myHeartbeatTick m) (myInstanceId
  m) (mySymbol m) (myState m) (myRecvSocket m) (mySendSocket m) (myIP m) (myPid m) (myRecvWindow m) v.

Record world := mkWorld {
  member : option mamaFtMemberImpl;
  foundheartbeat : Z;
  gReadHandler : bool;
  ioHandlers : Z;
  openFds : list Z;
  nextFd : Z;
  inbound : list string;
  outcomes : list mama_status;
  ftTrace : list ftEvent
}.

Definition set_member v w := mkWorld v (foundheartbeat w) (gReadHandler w) (ioHandlers w) (openFds w) (nextFd
  w) (inbound w) (outcomes w) (ftTrace w).
Definition set_foundheartbeat v w := mkWorld (member w) v (gReadHandler w) (ioHandlers w) (openFds w) (nextFd
  w) (inbound w) (outcomes w) (ftTrace w).
Definition set_gReadHandler v w := mkWorld (member w) (foundheartbeat w) v (ioHandlers w) (openFds w) (nextFd
  w) (inbound w) (outcomes w) (ftTrace w).
Definition set_ioHandlers v w := mkWorld (member w) (foundheartbeat w) (gReadHandler w) v (openFds w) (nextFd
  w) (inbound w) (outcomes w) (ftTrace w).
Definition set_openFds v w := mkWorld (member w) (foundheartbeat w) (gReadHandler w) (ioHandlers w) v (nextFd
  w) (inbound w) (outcomes w) (ftTrace w).
Definition set_nextFd v w := mkWorld (member w) (foundheartbeat w) (gReadHandler w) (ioHandlers w) (openFds w)
  v (inbound w) (outcomes w) (ftTrace w).
Definition set_inbound v w := mkWorld (member w) (foundheartbeat w) (gReadHandler w) (ioHandlers w) (openFds
  w) (nextFd w) v (outcomes w) (ftTrace w).
Definition set_outcomes v w := mkWorld (member w) (foundheartbeat w) (gReadHandler w) (ioHandlers w) (openFds
  w) (nextFd w) (inbound w) v (ftTrace w).
Definition set_ftTrace v w := mkWorld (member w) (foundheartbeat w) (gReadHandler w) (ioHandlers w) (openFds
  w) (nextFd w) (inbound w) (outcomes w) v.

Abbreviation FM := (M world).

Definition the_member : FM mamaFtMemberImpl := fun w =>
  match member w with Some m => Ok (m, w) | None => Fail InvalidDeref end.
Definition on_member (f : mamaFtMemberImpl -> mamaFtMemberImpl) : FM unit := fun w =>
  match member w with Some m => Ok (tt, set_member (Some (f m)) w) | None => Fail InvalidDeref end.

Definition ft_emit (e : ftEvent) : FM unit := modify (fun w => set_ftTrace (ftTrace w ++ [e]) w).

(** The result of the next call to the system or the middleware. *)
Definition outcome : FM mama_status := fun w =>
  match outcomes w with
  | [] => Ok (MAMA_STATUS_OK, w)
  | st :: l => Ok (st, set_outcomes l w)
  end.

(** ** Timers ([timer.c]) *)

Definition mamaTimer_allocate2 : FM (mama_status * mamaTimer) :=
  st ← outcome;
  mret (st, if status_ok st then TimerAllocated else TimerNull).

(** The bridge refusing to start the timer frees it, and leaves the pointer. *)
Definition mamaTimer_start (timer : mamaTimer) : FM (mama_status * mamaTimer) :=
  match timer with
  | TimerNull => mret (MAMA_STATUS_NULL_ARG, timer)
  | TimerStarted => mret (MAMA_STATUS_NULL_ARG, timer)
  | TimerFreed => fail InvalidDeref
  | TimerAllocated =>
      st ← outcome;
      mret (st, if status_ok st then TimerStarted else TimerFreed)
  end.

Definition mamaTimer_create2 : FM (mama_status * mamaTimer) :=
  p ← mamaTimer_allocate2;
  if status_ok p.1 then mamaTimer_start p.2 else mret p.

Definition mamaTimer_destroy (timer : mamaTimer) : FM mama_status :=
  match timer with
  | TimerNull => mret MAMA_STATUS_NULL_ARG
  | TimerFreed => fail InvalidDeref
  | TimerAllocated => mret MAMA_STATUS_INVALID_ARG
  | TimerStarted => outcome
  end.

Definition mamaTimer_reset (timer : mamaTimer) : FM mama_status :=
  match timer with
  | TimerNull => mret MAMA_STATUS_NULL_ARG
  | TimerFreed => fail InvalidDeref
  | TimerAllocated => mret MAMA_STATUS_INVALID_ARG
  | TimerStarted => outcome
  end.

Definition resetTimeoutTimer : FM mama_status :=
  m ← the_member;
  ft_emit TimeoutTimerReset ;;
  mamaTimer_reset (myTimeoutTimer m).

Definition startTimeoutTimer : FM mama_status :=
  m ← the_member;
  if negb (is_null (myTimeoutTimer m)) then resetTimeoutTimer
  else p ← mamaTimer_create2; on_member (set_myTimeoutTimer p.2) ;; mret p.1.

(** The status is not initialised when there is no timer; no caller reads it. *)
Definition stopTimeoutTimer : FM unit :=
  m ← the_member;
  if negb (is_null (myTimeoutTimer m)) then
    mamaTimer_destroy (myTimeoutTimer m) ;; on_member (set_myTimeoutTimer TimerNull)
  else mret tt.

(** ** Sending a heartbeat *)

(** [htonl] and [ntohl] of a little-endian machine. *)
Definition byte_swap (x : Z) : Z :=
  (x `mod` 256) * 2 ^ 24 + ((x / 2 ^ 8) `mod` 256) * 2 ^ 16 + ((x / 2 ^ 16) `mod` 256) * 2 ^ 8 +
  ((x / 2 ^ 24) `mod` 256).

(** The text of lines 1139 to 1141, in front of [tail]. *)
Definition heartbeat_text (m : mamaFtMemberImpl) (group tail : string) : string :=
  put_x (byte_swap (u32 (myIP m))) (String TAB (put_d (myPid m) (String TAB (put_d (i32 (myWeight m)) (String TAB
    (put_d (i32 (myIncarnation m)) (String TAB (put_d (state_code (myState m)) (String TAB (group ++ tail)))))))))).

(** [sendto] sends the characters [snprintf] counted and one more: past the end
    of the buffer when the text does not fit in it. *)
Definition multicastFt_sendHeartbeat : FM unit :=
  m ← the_member;
  match myGroupName m with
  | None => fail InvalidDeref
  | Some group =>
      let text := heartbeat_text m group "" in
      if FT_MAX_PACKET_SIZE <? Z.of_nat (String.length text) + 1 then fail InvalidDeref
      else ft_emit (HeartbeatSent (heartbeat_text m group (String NUL EmptyString)))
  end.

(** The primary field carries the incarnation, not the state. *)
Definition bridgeFt_sendHeartbeat : FM unit :=
  m ← the_member;
  ft_emit (HeartbeatPublished (mkHeartbeat (Some (u32 (myIP m))) (Some (u32 (myPid m))) (Some (myWeight m))
    (Some (myIncarnation m)) (Some (myIncarnation m)) (myGroupName m))).

Definition ftSendHeartbeat : FM unit :=
  m ← the_member;
  match ftType m with
  | Some MAMA_FT_TYPE_MULTICAST => multicastFt_sendHeartbeat
  | Some MAMA_FT_TYPE_BRIDGE => bridgeFt_sendHeartbeat
  | _ => fail InvalidDeref
  end.

(** ** State changes *)

Definition invokeStateChange (state : mamaFtState) : FM unit :=
  m ← the_member;
  if state_eqb (myState m) state then mret tt else
  match state with
  | MAMA_FT_STATE_ACTIVE =>
      on_member (set_myIncarnation (myNextIncarnation m)) ;;
      ftSendHeartbeat ;;
      ft_emit HeartbeatTimerReset ;;
      mamaTimer_reset (myHeartbeatTimer m) ;;
      stopTimeoutTimer
  | MAMA_FT_STATE_STANDBY | MAMA_FT_STATE_UNKNOWN => startTimeoutTimer ;; mret tt
  end ;;
  on_member (set_myState state) ;;
  ft_emit (StateChange state).

(** The cases of the nested switches: a change only if the state is not the
    current one. *)
Definition checkState (state : mamaFtState) : FM unit :=
  m ← the_member;
  match state, myState m with
  | MAMA_FT_STATE_STANDBY, (MAMA_FT_STATE_UNKNOWN | MAMA_FT_STATE_ACTIVE) => invokeStateChange MAMA_FT_STATE_STANDBY
  | MAMA_FT_STATE_STANDBY, MAMA_FT_STATE_STANDBY => mret tt
  | MAMA_FT_STATE_ACTIVE, (MAMA_FT_STATE_UNKNOWN | MAMA_FT_STATE_STANDBY) => invokeStateChange MAMA_FT_STATE_ACTIVE
  | MAMA_FT_STATE_ACTIVE, MAMA_FT_STATE_ACTIVE => mret tt
  | MAMA_FT_STATE_UNKNOWN, (MAMA_FT_STATE_ACTIVE | MAMA_FT_STATE_STANDBY) => invokeStateChange MAMA_FT_STATE_UNKNOWN
  | MAMA_FT_STATE_UNKNOWN, MAMA_FT_STATE_UNKNOWN => mret tt
  end.

(** ** Receiving heartbeats *)

(** 0 when the other has the better credentials, -1 when the member has. *)
Definition mamaBetterCredentials (m : mamaFtMemberImpl) (weight incarnation ipAddr pid : Z) : Z :=
  if myWeight m <? weight then 0
  else if (weight =? myWeight m) && (myIncarnation m <? incarnation) then 0
  else if (weight =? myWeight m) && (incarnation =? myIncarnation m) && (myIP m <? i32 ipAddr) then 0
  else if (weight =? myWeight m) && (incarnation =? myIncarnation m) && (ipAddr =? u32 (myIP m)) &&
          (myPid m <? pid) then 0
  else -1.

Definition mamaCheckHeartbeat (hbWeight hbIncarnation hbPid hbIpAddr : Z) (hbGroupName : string) : FM unit :=
  m ← the_member;
  match myGroupName m with
  | None => fail InvalidDeref
  | Some group =>
      if negb (String.eqb hbGroupName group) then mret tt else
      if (hbPid =? myPid m) && (hbIpAddr =? myIP m) then mret tt else
      if mamaBetterCredentials m hbWeight hbIncarnation (u32 hbIpAddr) hbPid =? 0 then
        (if myNextIncarnation m <=? hbIncarnation
         then on_member (set_myNextIncarnation (u32 (hbIncarnation + 1))) else mret tt) ;;
        checkState MAMA_FT_STATE_STANDBY ;;
        resetTimeoutTimer ;;
        modify (fun w => set_foundheartbeat (foundheartbeat w + 1) w)
      else mret tt
  end.

(** The six conversions of the [sscanf] of line 1188. *)
Definition scan_heartbeat (s : string) : option (Z * Z * Z * Z * Z * string) :=
  '(hbIpAddr, s) ← scan_uint 16 s;
  '(hbPid, s) ← scan_uint 10 (skip_space s);
  '(hbWeight, s) ← scan_uint 10 (skip_space s);
  '(hbIncarnation, s) ← scan_uint 10 (skip_space s);
  '(hbPrimary, s) ← scan_uint 10 (skip_space s);
  '(hbGroupName, s) ← scan_word (skip_space s);
  Some (hbIpAddr, hbPid, hbWeight, hbIncarnation, hbPrimary, hbGroupName).

(** A datagram without a NUL makes [sscanf] read what the buffer held before;
    a group name that does not fit is written past the end of its buffer. *)
Definition multicastFt_receiveHeartbeat : FM Z :=
  w ← Prelude.get;
  match inbound w with
  | [] => mret (-1)
  | packet :: rest =>
      modify (set_inbound rest) ;;
      let msg := String.substring 0 (Z.to_nat FT_MAX_PACKET_SIZE) packet in
      match msg with
      | EmptyString => mret 0
      | _ =>
          match c_string msg with
          | None => fail InvalidDeref
          | Some s =>
              match scan_heartbeat s with
              | None => mret 0
              | Some (hbIpAddr, hbPid, hbWeight, hbIncarnation, hbPrimary, hbGroupName) =>
                  if HB_GROUP_NAME_SIZE <=? Z.of_nat (String.length hbGroupName) then fail InvalidDeref else
                  mamaCheckHeartbeat hbWeight hbIncarnation (i32 hbPid) (i32 (byte_swap hbIpAddr)) hbGroupName ;;
                  mret 0
              end
          end
      end
  end.

Definition bridgeFt_receiveHeartbeat : FM Z := mret (-1).

Definition ftRecvHearbeat : FM Z :=
  m ← the_member;
  match ftType m with
  | Some MAMA_FT_TYPE_MULTICAST => multicastFt_receiveHeartbeat
  | Some MAMA_FT_TYPE_BRIDGE => bridgeFt_receiveHeartbeat
  | _ => fail InvalidDeref
  end.

(** The loop of [ioCallback]: at most [n] datagrams. *)
Fixpoint recv_loop (n : nat) : FM unit :=
  match n with
  | O => mret tt
  | S n' => r ← multicastFt_receiveHeartbeat; if r =? 0 then recv_loop n' else mret tt
  end.

Definition ioCallback : FM unit := m ← the_member; recv_loop (Z.to_nat (myRecvWindow m)).

Definition ftSubMsgCb (msg : heartbeatMsg) : FM unit :=
  match hb_group msg, hb_pid msg, hb_weight msg, hb_incarnation msg, hb_primary msg, hb_ip msg with
  | Some hbGroupName, Some hbPid, Some hbWeight, Some hbIncarnation, Some _, Some hbIpAddr =>
      mamaCheckHeartbeat hbWeight hbIncarnation (i32 hbPid) (i32 hbIpAddr) hbGroupName
  | _, _, _, _, _, _ => mret tt
  end.

(** ** Timer callbacks *)

Definition ftHeartbeatTimerCb : FM unit :=
  on_member (fun m => set_myHeartbeatTick (u32 (myHeartbeatTick m + 1)) m) ;;
  ftSendHeartbeat.

(** [while (recv () == 0);] *)
Fixpoint drain_loop (fuel : nat) : FM unit :=
  match fuel with
  | O => fail OutOfFuel
  | S fuel' => r ← ftRecvHearbeat; if r =? 0 then drain_loop fuel' else mret tt
  end.

Definition ftTimeoutTimerCb (fuel : nat) : FM unit :=
  modify (set_foundheartbeat 0) ;;
  drain_loop fuel ;;
  w ← Prelude.get;
  if foundheartbeat w =? 0 then checkState MAMA_FT_STATE_ACTIVE else mret tt.

(** ** The API *)

(** The [bool] argument of an API function: the member pointer is not NULL. *)
Definition mamaFtMember_create (mem : bool) (pid : Z) : FM mama_status :=
  if negb mem then modify (set_member None) ;; mret MAMA_STATUS_NOMEM else
  modify (set_member (Some (mkMember None 0 0 0 false false TimerNull TimerNull 0 None None
    MAMA_FT_STATE_STANDBY 0 0 0 pid 20 None))) ;;
  mret MAMA_STATUS_OK.

(** [snprintf] into a buffer of [size] characters. *)
Definition snprintf (size : Z) (s : string) : string := String.substring 0 (Z.to_nat (size - 1)) s.

Definition genInstanceId (mem : bool) (groupName : string) (ipAddr pid : Z) : option string :=
  let len := Z.of_nat (String.length groupName) + 8 + 4 + 3 in
  if negb mem then None else
  Some (snprintf len (groupName ++ "." ++ put_x ipAddr ("." ++ put_x (u16 pid) ""))).

Definition genSymbol (mem : bool) (groupName : string) : option string :=
  let len := Z.of_nat (String.length groupName) + Z.of_nat (String.length FT_SYMBOL_PREFIX) + 2 in
  if negb mem then None else Some (snprintf len (FT_SYMBOL_PREFIX ++ "." ++ groupName)).

(** What the setup finds outside: the name of the transport ([None] for no
    transport), the properties, the host's address, and memory. *)
Record surroundings := mkSurroundings {
  e_transport : option (mama_status * option string);
  mama_getProperty : string -> option string;
  e_hostaddr : Z;
  e_memory : bool
}.

(** The property name of lines 779 to 792: [prefix], the transport, [suffix]. *)
Definition multicastFt_getProperty (e : surroundings) (prefix suffix transportName : string) : option string :=
  let name := (prefix ++ transportName ++ suffix)%string in
  if FT_MAX_PROPERTY_NAME_LENGTH - 1 <? Z.of_nat (String.length name) then None
  else mama_getProperty e (snprintf (FT_MAX_PROPERTY_NAME_LENGTH - 1) name).

Definition ft_property (e : surroundings) (suffix transportName : string) : option string :=
  match multicastFt_getProperty e "mama.multicast.transport." suffix transportName with
  | Some v => Some v
  | None => multicastFt_getProperty e "mama.native.transport." suffix transportName
  end.

(** Lines 921 to 932, which both kinds of member share. *)
Definition common_setup (e : surroundings) (groupName : string) (weight : Z) : FM bool :=
  m ← the_member;
  let id := genInstanceId (e_memory e) groupName (e_hostaddr e) (myPid m) in
  let sym := genSymbol (e_memory e) groupName in
  let group := if e_memory e then Some groupName else None in
  on_member (fun m => set_myState MAMA_FT_STATE_UNKNOWN (set_mySymbol sym (set_myInstanceId id
    (set_myGroupName group (set_myWeight weight m))))) ;;
  mret (e_memory e).

Definition new_fd : FM Z := fun w =>
  let fd := nextFd w in Ok (fd, set_nextFd (fd + 1) (set_openFds (fd :: openFds w) w)).
Definition close_fd (fd : Z) : FM unit := modify (fun w => set_openFds (filter (fun x => x ≠ fd) (openFds w)) w).

(** Run a system call; on failure, clean up and give up. *)
Definition sys_call (cleanup : FM unit) (k : FM mama_status) : FM mama_status :=
  st ← outcome;
  if status_ok st then k else cleanup ;; mret MAMA_STATUS_SYSTEM_ERROR.

(** Lines 951 to 1036: the receiving socket, bound and joined to the network. *)
Definition open_receiver (k : FM mama_status) : FM mama_status :=
  sys_call (mret tt) (sock ← new_fd;
  sys_call (mret tt)                       (* wsetnonblock: the socket stays open *)
  (sys_call (close_fd sock)                (* SO_REUSEADDR *)
  (sys_call (close_fd sock)                (* SO_RCVBUF *)
  (sys_call (close_fd sock)                (* bind *)
  (on_member (set_myRecvSocket sock) ;;
  sys_call (close_fd sock)                 (* IP_ADD_MEMBERSHIP *)
  k))))).

(** Lines 1038 to 1082; the result of the second [socket] call is not tested. *)
Definition open_sender (ttl : Z) : FM mama_status :=
  st ← outcome;
  (if status_ok st then sock ← new_fd; on_member (set_mySendSocket sock) else on_member (set_mySendSocket (-1))) ;;
  sys_call (mret tt)                       (* IP_MULTICAST_IF *)
  (if ttl =? 1 then mret MAMA_STATUS_OK
   else sys_call (mret tt) (mret MAMA_STATUS_OK)).

Definition multicastFt_setup (nonnull : bool) (e : surroundings) (groupName : option string) (weight : Z)
  : FM mama_status :=
  match nonnull, groupName with
  | true, Some groupName =>
      let name := match e_transport e with
                  | None => Some "ft"%string
                  | Some (st, Some (String c s)) => if status_ok st then Some (String c s) else None
                  | Some _ => None
                  end in
      match name with
      | None => mret MAMA_STATUS_INVALID_ARG
      | Some transportName =>
          let ttl := match ft_property e ".ttl" transportName with Some v => u8 (strtol v) | None => FT_TTL end in
          let iorecv := match ft_property e ".iowindow" transportName with Some v => i32 (strtol v) | None => 20 end in
          on_member (set_mySendSocket (-1)) ;;
          mem ← common_setup e groupName weight;
          on_member (set_myRecvWindow iorecv) ;;
          if negb mem then mret MAMA_STATUS_NOMEM else open_receiver (open_sender ttl)
      end
  | _, _ => mret MAMA_STATUS_INVALID_ARG
  end.

Definition bridgeFt_setup (nonnull : bool) (e : surroundings) (groupName : option string) (weight : Z)
  : FM mama_status :=
  match nonnull, groupName, e_transport e with
  | true, Some groupName, Some _ =>
      mem ← common_setup e groupName weight;
      if negb mem then mret MAMA_STATUS_NOMEM else
      st ← outcome;                                    (* mamaSubscription_allocate *)
      if negb (status_ok st) then mret st else
      st ← outcome;                                    (* mamaSubscription_createBasic *)
      if negb (status_ok st) then mret st else
      on_member (set_mySubscription true) ;;
      st ← outcome;                                    (* mamaPublisher_create *)
      if negb (status_ok st) then mret st else
      outcome                                          (* mamaMsg_create *)
  | _, _, _ => mret MAMA_STATUS_INVALID_ARG
  end.

(** An unknown type leaves the function pointers as they were. *)
Definition mamaFtMember_setup (nonnull : bool) (fttype : mamaFtType) (e : surroundings) (groupName : option string)
  (weight : Z) : FM mama_status :=
  if negb nonnull then fail InvalidDeref else
  match fttype with
  | MAMA_FT_TYPE_MAX => mret tt
  | t => on_member (set_ftType (Some t))
  end ;;
  m ← the_member;
  match ftType m with
  | Some MAMA_FT_TYPE_MULTICAST => multicastFt_setup nonnull e groupName weight
  | Some MAMA_FT_TYPE_BRIDGE => bridgeFt_setup nonnull e groupName weight
  | _ => fail InvalidDeref
  end.

Definition multicastFt_deactivate : FM mama_status :=
  m ← the_member;
  (if myIsActive m then
     w ← Prelude.get;
     if gReadHandler w then modify (fun w => set_gReadHandler false (set_ioHandlers (ioHandlers w - 1) w)) else mret tt
   else mret tt) ;;
  mret MAMA_STATUS_OK.

Definition bridgeFt_deactivate : FM mama_status :=
  m ← the_member;
  (if myIsActive m then on_member (set_mySubscription false) else mret tt) ;;
  mret MAMA_STATUS_OK.

Definition ftDeactivate : FM mama_status :=
  m ← the_member;
  match ftType m with
  | Some MAMA_FT_TYPE_MULTICAST => multicastFt_deactivate
  | Some MAMA_FT_TYPE_BRIDGE => bridgeFt_deactivate
  | _ => fail InvalidDeref
  end.

Definition mamaFtMember_deactivate (nonnull : bool) : FM mama_status :=
  if negb nonnull then fail InvalidDeref else
  ret ← ftDeactivate;
  if negb (status_ok ret) then mret ret else
  m ← the_member;
  (if negb (is_null (myHeartbeatTimer m))
   then mamaTimer_destroy (myHeartbeatTimer m) ;; on_member (set_myHeartbeatTimer TimerNull) else mret tt) ;;
  stopTimeoutTimer ;;
  on_member (fun m => set_myNextIncarnation 0 (set_myIncarnation 0 (set_myIsActive false m))) ;;
  mret ret.

(** A member that is running is deactivated first. *)
Definition deactivate_running : FM mama_status :=
  m ← the_member;
  if myIsActive m then mamaFtMember_deactivate true else mret MAMA_STATUS_OK.

Definition multicastFt_activate : FM mama_status :=
  st ← deactivate_running;
  if negb (status_ok st) then mret st else
  st ← outcome;                                        (* mamaIo_create *)
  if status_ok st
  then modify (fun w => set_gReadHandler true (set_ioHandlers (ioHandlers w + 1) w)) ;; mret MAMA_STATUS_OK
  else modify (set_gReadHandler false) ;; mret st.

Definition bridgeFt_activate : FM mama_status :=
  st ← deactivate_running;
  if negb (status_ok st) then mret st else mret MAMA_STATUS_OK.

Definition ftActivate : FM mama_status :=
  m ← the_member;
  match ftType m with
  | Some MAMA_FT_TYPE_MULTICAST => multicastFt_activate
  | Some MAMA_FT_TYPE_BRIDGE => bridgeFt_activate
  | _ => fail InvalidDeref
  end.

(** [ip]: the address of [mama_getIpAddress] as [inet_addr] reads it. *)
Definition mamaFtMember_activate (nonnull : bool) (ip : Z) : FM mama_status :=
  if negb nonnull then fail InvalidDeref else
  st ← ftActivate;
  if negb (status_ok st) then mret st else
  p ← mamaTimer_create2;
  on_member (set_myHeartbeatTimer p.2) ;;
  if negb (status_ok p.1) then mret p.1 else
  on_member (fun m => set_myHeartbeatTick 0 (set_myNextIncarnation 1 (set_myIP (i32 ip) m))) ;;
  st ← startTimeoutTimer;
  if negb (status_ok st) then mret st else
  on_member (set_myIsActive true) ;;
  mret st.

Definition mamaFtMember_destroy (nonnull : bool) : FM mama_status :=
  if negb nonnull then mret MAMA_STATUS_INVALID_ARG else
  mamaFtMember_deactivate true ;;
  modify (set_member None) ;;
  mret MAMA_STATUS_OK.

(** The getters write through [result] unless a pointer is NULL. *)
Definition ft_getter {A} (f : mamaFtMemberImpl -> A) (nonnull result : bool) : FM (mama_status * option A) :=
  if negb nonnull || negb result then mret (MAMA_STATUS_INVALID_ARG, None) else
  m ← the_member; mret (MAMA_STATUS_OK, Some (f m)).

Definition mamaFtMember_isActive := ft_getter myIsActive.
Definition mamaFtMember_getGroupName := ft_getter myGroupName.
Definition mamaFtMember_getWeight := ft_getter myWeight.
Definition mamaFtMember_getHeartbeatTick := ft_getter myHeartbeatTick.

Definition mamaFtMember_setWeight (nonnull : bool) (value : Z) : FM mama_status :=
  if negb nonnull then mret MAMA_STATUS_INVALID_ARG else
  on_member (set_myWeight value) ;; mret MAMA_STATUS_OK.

Definition mamaFtMember_setInstanceId (nonnull mem : bool) (hostaddr : Z) (id : option string) : FM mama_status :=
  if negb nonnull then mret MAMA_STATUS_INVALID_ARG else
  m ← the_member;
  new ← match id with
        | Some (String c s) => mret (if mem then Some (String c s) else None)
        | _ => match myGroupName m with
               | None => fail InvalidDeref
               | Some g => mret (genInstanceId mem g hostaddr (myPid m))
               end
        end;
  on_member (set_myInstanceId new) ;;
  mret (if new : option string then MAMA_STATUS_OK else MAMA_STATUS_NOMEM).

End Ft.

(** Run the state changes of a member that is written out. *)
Ltac ft_run :=
  cbn; unfold Ft.checkState, Ft.invokeStateChange, Ft.startTimeoutTimer, Ft.stopTimeoutTimer, Ft.resetTimeoutTimer,
    Ft.ftSendHeartbeat, Ft.bridgeFt_sendHeartbeat, Ft.ftRecvHearbeat, Ft.bridgeFt_receiveHeartbeat,
    Prelude.get, Ft.the_member, Ft.on_member, Ft.ft_emit, modify,
    Ft.mamaTimer_create2, Ft.mamaTimer_allocate2, Ft.mamaTimer_start, Ft.mamaTimer_reset, Ft.mamaTimer_destroy,
    Ft.outcome, mret, M_ret, mbind, M_bind; cbn.
