(* ===== verification/FtWire.v ===== *)
(** * Heartbeats on the wire

    What a multicast member prints is what another one scans, for group names
    without blanks of fewer than 100 characters; what happens for the others. *)

From S2P Require Import Prelude MamaStatus Cstdio Ft.
From Stdlib Require Import Ascii String.
From stdpp Require Import strings.
Import Cstdio Ft.
#[local] Open Scope Z_scope.

(** ** Integers *)

Lemma byte_swap_bytes a b c d :
  0 <= a < 256 -> 0 <= b < 256 -> 0 <= c < 256 -> 0 <= d < 256 ->
  byte_swap (a + b * 2 ^ 8 + c * 2 ^ 16 + d * 2 ^ 24) = d + c * 2 ^ 8 + b * 2 ^ 16 + a * 2 ^ 24.
Proof.
  intros Ha Hb Hc Hd. unfold byte_swap. set (x := a + b * 2 ^ 8 + c * 2 ^ 16 + d * 2 ^ 24).
  rewrite <- (Z.mod_unique x 256 (b + c * 2 ^ 8 + d * 2 ^ 16) a) by (unfold x; lia).
  rewrite <- (Z.div_unique x (2 ^ 8) (b + c * 2 ^ 8 + d * 2 ^ 16) a) by (unfold x; lia).
  rewrite <- (Z.div_unique x (2 ^ 16) (c + d * 2 ^ 8) (a + b * 2 ^ 8)) by (unfold x; lia).
  rewrite <- (Z.div_unique x (2 ^ 24) d (a + b * 2 ^ 8 + c * 2 ^ 16)) by (unfold x; lia).
  rewrite <- (Z.mod_unique (b + c * 2 ^ 8 + d * 2 ^ 16) 256 (c + d * 2 ^ 8) b) by lia.
  rewrite <- (Z.mod_unique (c + d * 2 ^ 8) 256 d c) by lia.
  rewrite (Z.mod_small d) by lia. lia.
Qed.

Lemma byte_split x : in_u 32 x -> exists a b c d,
  0 <= a < 256 /\ 0 <= b < 256 /\ 0 <= c < 256 /\ 0 <= d < 256 /\
  x = a + b * 2 ^ 8 + c * 2 ^ 16 + d * 2 ^ 24.
Proof.
  unfold in_u. intros H.
  exists (x `mod` 256), ((x / 256) `mod` 256), ((x / 256 / 256) `mod` 256), (x / 256 / 256 / 256).
  pose proof (Z.div_mod x 256 ltac:(lia)). pose proof (Z.mod_pos_bound x 256 ltac:(lia)).
  pose proof (Z.div_mod (x / 256) 256 ltac:(lia)). pose proof (Z.mod_pos_bound (x / 256) 256 ltac:(lia)).
  pose proof (Z.div_mod (x / 256 / 256) 256 ltac:(lia)). pose proof (Z.mod_pos_bound (x / 256 / 256) 256 ltac:(lia)).
  lia.
Qed.

Lemma byte_swap_range x : in_u 32 x -> in_u 32 (byte_swap x).
Proof.
  intros (a & b & c & d & Ha & Hb & Hc & Hd & ->)%byte_split. rewrite byte_swap_bytes by done.
  unfold in_u. lia.
Qed.

Lemma byte_swap_involutive x : in_u 32 x -> byte_swap (byte_swap x) = x.
Proof.
  intros (a & b & c & d & Ha & Hb & Hc & Hd & ->)%byte_split.
  rewrite (byte_swap_bytes a b c d), (byte_swap_bytes d c b a) by done. done.
Qed.

(** ** Text *)

Lemma skip_space_idem s : skip_space (skip_space s) = skip_space s.
Proof.
  induction s as [|c s IH]; [done|]. cbn. destruct (is_space c) eqn:E; [done|]. cbn. by rewrite E.
Qed.

Lemma scan_uint_skip b s : scan_uint b (skip_space (String TAB s)) = scan_uint b s.
Proof. unfold scan_uint. rewrite skip_space_idem. done. Qed.

Fixpoint no_nul (s : string) : bool :=
  match s with String c s' => negb (code c =? 0) && no_nul s' | EmptyString => true end.

Lemma c_string_terminated s : no_nul s = true -> c_string (s ++ String NUL EmptyString) = Some s.
Proof.
  induction s as [|c s IH]; [done|]. rewrite string_app_cons. cbn [no_nul c_string].
  intros [H1 H2]%andb_prop. apply negb_true_iff in H1. by rewrite H1, IH.
Qed.

Lemma no_nul_digit v s : 0 <= v < 16 -> no_nul (String (digit_char v) s) = no_nul s.
Proof.
  intros Hv. pose proof (code_digit v Hv). cbn [no_nul].
  destruct (Z.eqb_spec (code (digit_char v)) 0); [lia|done].
Qed.

Lemma no_nul_put_digits fuel b n s : 2 <= b <= 16 -> no_nul (put_digits fuel b n s) = no_nul s.
Proof.
  intros Hb. revert n s. induction fuel as [|fuel IH]; intros n s; [done|]. cbn [put_digits].
  pose proof (Z.mod_pos_bound n b ltac:(lia)).
  destruct (n / b =? 0); [|rewrite IH]; apply no_nul_digit; lia.
Qed.

Lemma no_nul_put_d n s : no_nul (put_d n s) = no_nul s.
Proof. unfold put_d, put_u. destruct (n <? 0); [cbn [no_nul]|]; by rewrite no_nul_put_digits by lia. Qed.

(** ** Heartbeats *)

(** Credentials that fit the C types. *)
Record valid (m : mamaFtMemberImpl) (g : string) : Prop := {
  v_group : myGroupName m = Some g;
  v_type : ftType m = Some MAMA_FT_TYPE_MULTICAST;
  v_weight : in_u 32 (myWeight m);
  v_incarnation : in_u 32 (myIncarnation m);
  v_ip : in_s 32 (myIP m);
  v_pid : in_s 32 (myPid m)
}.

Lemma heartbeat_text_tail m g t : heartbeat_text m g t = (heartbeat_text m g "" ++ t)%string.
Proof.
  unfold heartbeat_text, put_x. rewrite put_app, string_app_cons.
  repeat rewrite put_d_app, string_app_cons. by rewrite string_app_nil.
Qed.

Lemma heartbeat_text_no_nul m g : no_nul g = true -> no_nul (heartbeat_text m g "") = true.
Proof.
  intros Hg. unfold heartbeat_text, put_x. rewrite no_nul_put_digits by lia. cbn [no_nul].
  repeat (rewrite no_nul_put_d; cbn [no_nul]). by rewrite string_app_nil.
Qed.

Lemma heartbeat_text_length m g :
  (String.length (heartbeat_text m g "") <= 64 + 4 * 65 + 5 + String.length g)%nat.
Proof.
  assert (forall n t k, (String.length t <= k)%nat -> (String.length (put_d n (String TAB t)) <= 66 + k)%nat) as HT.
  { intros n t k Hk. etrans; [apply length_put_d|]. cbn [String.length]. lia. }
  unfold heartbeat_text, put_x. rewrite string_app_nil. etrans; [apply length_put_digits|]. cbn [String.length].
  assert (forall a b c d, (String.length (put_d a (String TAB (put_d b (String TAB (put_d c (String TAB
    (put_d d (String TAB g)))))))) <= 66 + (66 + (66 + (66 + String.length g))))%nat) as H4.
  { intros. do 4 apply HT. done. }
  etrans; [apply Nat.add_le_mono_l, le_n_S, H4|]. lia.
Qed.

(** What [sscanf] reads before it comes to the group name. *)
Lemma scan_heartbeat_text m g : valid m g ->
  scan_heartbeat (heartbeat_text m g "") =
    ('(w, _) ← scan_word (skip_space (String TAB g));
     Some (byte_swap (u32 (myIP m)), u32 (myPid m), myWeight m, myIncarnation m, state_code (myState m), w)).
Proof.
  intros V. pose proof (v_ip _ _ V) as Hip. pose proof (v_pid _ _ V) as Hpid. unfold in_s in *.
  pose proof (i32_range (myWeight m)) as Hw. pose proof (i32_range (myIncarnation m)) as Hi. unfold in_s in *.
  unfold scan_heartbeat, heartbeat_text, put_x.
  rewrite scan_uint_put; [|lia|apply byte_swap_range, uwrap_range; lia|done]. cbn [mbind option_bind].
  rewrite scan_uint_skip, scan_uint_put_d by lia. cbn [mbind option_bind].
  rewrite scan_uint_skip, scan_uint_put_d by lia. cbn [mbind option_bind].
  rewrite scan_uint_skip, scan_uint_put_d by lia. cbn [mbind option_bind].
  rewrite scan_uint_skip, scan_uint_put_d by (destruct (myState m); cbn; lia). cbn [mbind option_bind].
  rewrite !u32_i32 by apply V. rewrite string_app_nil.
  destruct (scan_word _) as [[w r]|]; [|done]. cbn. by destruct (myState m).
Qed.

(** ** Sending and receiving *)

Lemma substring_all s n : (String.length s <= n)%nat -> String.substring 0 n s = s.
Proof.
  revert n. induction s as [|c s IH]; intros [|n] Hn; cbn in *; try done; [lia|]. by rewrite IH by lia.
Qed.

Lemma length_string_app s t : String.length (s ++ t) = (String.length s + String.length t)%nat.
Proof. induction s as [|c s IH]; [done|]. rewrite string_app_cons. cbn. by rewrite IH. Qed.

Definition packet_of (m : mamaFtMemberImpl) (g : string) : string := heartbeat_text m g (String NUL EmptyString).

Lemma send_spec w m g : member w = Some m -> myGroupName m = Some g -> (String.length g < 1000)%nat ->
  multicastFt_sendHeartbeat w = Ok (tt, set_ftTrace (ftTrace w ++ [HeartbeatSent (packet_of m g)]) w).
Proof.
  intros Hm Hg Hl. unfold multicastFt_sendHeartbeat, the_member, mbind, M_bind. rewrite Hm, Hg.
  pose proof (heartbeat_text_length m g). unfold FT_MAX_PACKET_SIZE.
  destruct (Z.ltb_spec 1500 (Z.of_nat (String.length (heartbeat_text m g "")) + 1)); [lia|done].
Qed.

(** What the receiver does with a packet, in terms of the group name it scans. *)
Lemma receive_packet w m g rest : valid m g -> no_nul g = true -> (String.length g < 1000)%nat ->
  inbound w = packet_of m g :: rest ->
  multicastFt_receiveHeartbeat w =
    match scan_word (skip_space (String TAB g)) with
    | None => Ok (0, set_inbound rest w)
    | Some (g', _) =>
        if HB_GROUP_NAME_SIZE <=? Z.of_nat (String.length g') then Fail InvalidDeref
        else (mamaCheckHeartbeat (myWeight m) (myIncarnation m) (myPid m) (myIP m) g' ;; mret 0) (set_inbound rest w)
    end.
Proof.
  intros V Hn Hl Hi. unfold multicastFt_receiveHeartbeat, Prelude.get, modify, mbind, M_bind. rewrite Hi.
  assert (packet_of m g = heartbeat_text m g "" ++ String NUL EmptyString)%string as Ep by apply heartbeat_text_tail.
  rewrite substring_all.
  2: { rewrite Ep, length_string_app. pose proof (heartbeat_text_length m g). cbn [String.length].
       unfold FT_MAX_PACKET_SIZE. lia. }
  rewrite Ep, c_string_terminated by (by apply heartbeat_text_no_nul).
  destruct (heartbeat_text m g "" ++ String NUL EmptyString)%string as [|c s] eqn:E.
  { apply (f_equal String.length) in E. rewrite length_string_app in E. cbn in E. lia. }
  rewrite scan_heartbeat_text by done. destruct (scan_word _) as [[g' r]|]; cbn; [|done].
  rewrite byte_swap_involutive by (apply uwrap_range; lia). rewrite !i32_u32 by apply V.
  by destruct (_ <=? _).
Qed.

Definition good_name (g : string) : Prop :=
  no_space g = true /\ no_nul g = true /\ g ≠ EmptyString /\ (String.length g < 100)%nat.

Lemma scan_good g : no_space g = true -> g ≠ EmptyString ->
  scan_word (skip_space (String TAB g)) = Some (g, EmptyString).
Proof.
  intros Hs Hne. rewrite <- (scan_word_no_space g) by done. unfold scan_word. by rewrite skip_space_idem.
Qed.

(** C8: heartbeats survive the wire.  The packet a multicast member sends makes
    a receiver check exactly the sender's weight, incarnation, process id and
    address, under the sender's group name, for every value of the C types and
    every group name of fewer than 100 characters without blanks. *)
Theorem heartbeat_round_trip w m g :
  member w = Some m -> valid m g -> good_name g ->
  exists p, multicastFt_sendHeartbeat w = Ok (tt, set_ftTrace (ftTrace w ++ [HeartbeatSent p]) w) /\
    forall w' rest, inbound w' = p :: rest ->
      multicastFt_receiveHeartbeat w' =
        (mamaCheckHeartbeat (myWeight m) (myIncarnation m) (myPid m) (myIP m) g ;; mret 0) (set_inbound rest w').
Proof.
  intros Hm V (Hs & Hn & Hne & Hl). exists (packet_of m g). split; [apply send_spec; [done|apply V|lia]|].
  intros w' rest Hi. rewrite (receive_packet w' m g rest) by (done || lia). rewrite scan_good by done.
  unfold HB_GROUP_NAME_SIZE. destruct (Z.leb_spec 100 (Z.of_nat (String.length g))); [lia|done].
Qed.

Definition demo_member (g : string) (ip pid : Z) (st : mamaFtState) (inc next : Z) : mamaFtMemberImpl :=
  mkMember (Some g) 100 inc next true false TimerStarted
    (match st with MAMA_FT_STATE_ACTIVE => TimerNull | _ => TimerStarted end)
    0 None None st 3 4 ip pid 20 (Some MAMA_FT_TYPE_MULTICAST).

Definition demo_world (m : mamaFtMemberImpl) : world := mkWorld (Some m) 0 true 1 [3; 4] 5 [] [] [].

Lemma demo_valid g ip pid st inc next :
  in_s 32 ip -> in_s 32 pid -> in_u 32 inc -> valid (demo_member g ip pid st inc next) g.
Proof. intros. by split. Qed.

Lemma heartbeat_round_trip_witness :
  let m := demo_member "feed1" (-1062731519) 4711 MAMA_FT_STATE_STANDBY 4294967295 0 in
  exists p, multicastFt_sendHeartbeat (demo_world m) = Ok (tt, set_ftTrace [HeartbeatSent p] (demo_world m)) /\
    forall w' rest, inbound w' = p :: rest ->
      multicastFt_receiveHeartbeat w' =
        (mamaCheckHeartbeat 100 4294967295 4711 (-1062731519) "feed1" ;; mret 0) (set_inbound rest w').
Proof.
  intros m. apply (heartbeat_round_trip (demo_world m) m "feed1").
  - reflexivity.
  - apply demo_valid; unfold in_s, in_u; lia.
  - repeat split; cbn; lia || done.
Defined.

(** ** Names the wire does not carry *)

Lemma get_word_no_space_word s : no_space (get_word s).1 = true.
Proof.
  induction s as [|c s IH]; [done|]. cbn. destruct (is_space c) eqn:E; [done|].
  destruct (get_word s) as [w r]. cbn in *. by rewrite E, IH.
Qed.

Lemma get_word_length s : (String.length (get_word s).1 <= String.length s)%nat.
Proof.
  induction s as [|c s IH]; [done|]. cbn. destruct (is_space c); cbn; [lia|].
  destruct (get_word s) as [w r]. cbn in *. lia.
Qed.

Lemma skip_space_length s : (String.length (skip_space s) <= String.length s)%nat.
Proof. induction s as [|c s IH]; [done|]. cbn. destruct (is_space c); cbn; lia. Qed.

Lemma check_other_group w m g g' a b c d : member w = Some m -> myGroupName m = Some g -> g' ≠ g ->
  mamaCheckHeartbeat a b c d g' w = Ok (tt, w).
Proof.
  intros Hm Hg Hne. unfold mamaCheckHeartbeat, the_member, mbind, M_bind. rewrite Hm, Hg.
  destruct (String.eqb_spec g' g); [done|]. done.
Qed.

(** a blank in the group name splits the group.  [sscanf] stops at the
    blank, so a multicast member takes every heartbeat of its own group for one
    of another group: whatever the credentials, receiving it changes nothing
    but the socket, and no member of such a group ever stands by for another. *)
Theorem blank_in_group_name_splits m g w m' rest :
  valid m g -> no_space g = false -> no_nul g = true -> (String.length g < 100)%nat ->
  member w = Some m' -> myGroupName m' = Some g -> inbound w = packet_of m g :: rest ->
  multicastFt_receiveHeartbeat w = Ok (0, set_inbound rest w).
Proof.
  intros V Hsp Hn Hl Hm Hg Hi. rewrite (receive_packet w m g rest) by (done || lia).
  destruct (scan_word _) as [[g' r]|] eqn:E; [|done].
  assert (no_space g' = true /\ (String.length g' <= String.length g)%nat) as [H1 H2].
  { unfold scan_word in E. rewrite skip_space_idem in E. cbn [skip_space] in E.
    change (is_space TAB) with true in E. cbv iota in E.
    pose proof (get_word_no_space_word (skip_space g)). pose proof (get_word_length (skip_space g)).
    pose proof (skip_space_length g).
    destruct (get_word (skip_space g)) as [[|c x] y]; [done|]. injection E as <- _. cbn [fst] in *. split; [done|lia]. }
  unfold HB_GROUP_NAME_SIZE. destruct (Z.leb_spec 100 (Z.of_nat (String.length g'))); [lia|].
  unfold mbind, M_bind. rewrite (check_other_group _ m' g); [done|done|done|]. intros ->. congruence.
Qed.

Lemma blank_in_group_name_splits_witness :
  let m := demo_member "feed 1" 9 8 MAMA_FT_STATE_ACTIVE 7 7 in
  let w := set_inbound [packet_of m "feed 1"] (demo_world (demo_member "feed 1" 1 1 MAMA_FT_STATE_ACTIVE 1 1)) in
  multicastFt_receiveHeartbeat w = Ok (0, set_inbound [] w).
Proof.
  intros m w. apply (blank_in_group_name_splits m "feed 1" w (demo_member "feed 1" 1 1 MAMA_FT_STATE_ACTIVE 1 1) []);
    try reflexivity; [apply demo_valid; unfold in_s, in_u; lia|cbn; lia].
Defined.

(** a group name of 100 characters or more overflows the receiver's buffer:
    every heartbeat of such a member makes every receiver, of whatever group,
    write past the end of [hbGroupName]. *)
Theorem long_group_name_overflows m g w rest :
  valid m g -> no_space g = true -> no_nul g = true -> (100 <= String.length g < 1000)%nat ->
  inbound w = packet_of m g :: rest -> multicastFt_receiveHeartbeat w = Fail InvalidDeref.
Proof.
  intros V Hs Hn Hl Hi. rewrite (receive_packet w m g rest) by (done || lia).
  rewrite scan_good; [|done|by intros ->; cbn in Hl; lia].
  unfold HB_GROUP_NAME_SIZE. destruct (Z.leb_spec 100 (Z.of_nat (String.length g))); [done|lia].
Qed.

Fixpoint repeat_char (n : nat) (c : ascii) : string :=
  match n with O => EmptyString | S n' => String c (repeat_char n' c) end.

Lemma long_group_name_overflows_witness :
  let g := repeat_char 100 (chr 97) in
  let m := demo_member g 9 8 MAMA_FT_STATE_ACTIVE 7 7 in
  multicastFt_receiveHeartbeat (set_inbound [packet_of m g] (demo_world (demo_member "x" 1 1 MAMA_FT_STATE_ACTIVE 1 1)))
    = Fail InvalidDeref.
Proof.
  intros g m. apply (long_group_name_overflows m g _ []); try reflexivity;
    [apply demo_valid; unfold in_s, in_u; lia|unfold g; cbn; lia].
Defined.
