(* ===== verification/FtGroup.v ===== *)
(** * The election of the active member

    The order of credentials, what one heartbeat and one timeout do to a member,
    and the behaviour of a whole group: any interleaving of heartbeats elects
    the member with the best credentials. *)

From S2P Require Import Prelude MamaStatus Cstdio Ft FtWire.
From Stdlib Require Import Ascii String.
From stdpp Require Import strings.
Import Cstdio Ft.
#[local] Open Scope Z_scope.

(** ** The order of credentials *)

(** [m] stands by when it hears a heartbeat of [m']. *)
Definition yields (m m' : mamaFtMemberImpl) : bool :=
  mamaBetterCredentials m (myWeight m') (myIncarnation m') (u32 (myIP m')) (myPid m') =? 0.

(** Weight first, then incarnation, then address, then process id. *)
Definition lower (m m' : mamaFtMemberImpl) : Prop :=
  myWeight m < myWeight m' \/ (myWeight m = myWeight m' /\
  (myIncarnation m < myIncarnation m' \/ (myIncarnation m = myIncarnation m' /\
  (myIP m < myIP m' \/ (myIP m = myIP m' /\ myPid m < myPid m'))))).

Lemma u32_inj_s a b : in_s 32 a -> in_s 32 b -> u32 a = u32 b -> a = b.
Proof. intros Ha Hb E. rewrite <- (i32_u32 a), <- (i32_u32 b) by done. by rewrite E. Qed.

Lemma yields_lower m m' : in_s 32 (myIP m) -> in_s 32 (myIP m') -> yields m m' = true <-> lower m m'.
Proof.
  intros H1 H2. unfold yields, mamaBetterCredentials, lower. rewrite i32_u32 by done.
  assert (u32 (myIP m') = u32 (myIP m) <-> myIP m' = myIP m) as E32.
  { split; [by apply u32_inj_s|by intros ->]. }
  destruct (Z.ltb_spec (myWeight m) (myWeight m')); [split; [lia|done]|].
  destruct (Z.eqb_spec (myWeight m') (myWeight m)) as [Ew|]; [|cbn; split; [done|lia]].
  destruct (Z.ltb_spec (myIncarnation m) (myIncarnation m')); [cbn; split; [lia|done]|].
  destruct (Z.eqb_spec (myIncarnation m') (myIncarnation m)) as [Ei|]; [|cbn; split; [done|lia]].
  destruct (Z.ltb_spec (myIP m) (myIP m')); [cbn; split; [lia|done]|].
  destruct (Z.eqb_spec (u32 (myIP m')) (u32 (myIP m))) as [Ep|Ep];
    [apply E32 in Ep|rewrite E32 in Ep; cbn; split; [done|lia]].
  destruct (Z.ltb_spec (myPid m) (myPid m')); cbn; split; (done || lia).
Qed.

(** A member is known by its address and process id. *)
Definition same_id (m m' : mamaFtMemberImpl) : Prop := myIP m = myIP m' /\ myPid m = myPid m'.

Lemma yields_asym m1 m2 g : valid m1 g -> valid m2 g -> ~ same_id m1 m2 -> yields m1 m2 = negb (yields m2 m1).
Proof.
  intros V1 V2 Hid. pose proof (yields_lower m1 m2 ltac:(apply V1) ltac:(apply V2)) as E1.
  pose proof (yields_lower m2 m1 ltac:(apply V2) ltac:(apply V1)) as E2. unfold lower, same_id in *.
  destruct (yields m1 m2), (yields m2 m1); try done; exfalso; lia.
Qed.

(** of two members exactly one yields.  On members whose fields fit the C
    types, yielding is a strict order, and it is total on members with different
    addresses or process ids: of two members that hear each other exactly one
    stands by, also when addresses compare as negative numbers. *)
Theorem credentials_total_order :
  (forall m1 m2 g, valid m1 g -> valid m2 g -> ~ same_id m1 m2 -> yields m1 m2 = negb (yields m2 m1)) /\
  (forall m g, valid m g -> yields m m = false) /\
  (forall m1 m2 m3 g, valid m1 g -> valid m2 g -> valid m3 g ->
    yields m1 m2 = true -> yields m2 m3 = true -> yields m1 m3 = true).
Proof.
  split_and!.
  - apply yields_asym.
  - intros m g V. apply not_true_iff_false. rewrite yields_lower by apply V. unfold lower. lia.
  - intros m1 m2 m3 g V1 V2 V3. rewrite !yields_lower by (apply V1 || apply V2 || apply V3). unfold lower. lia.
Qed.

Lemma credentials_total_order_witness :
  let m1 := demo_member "g" (-5) 7 MAMA_FT_STATE_STANDBY 3 4 in
  let m2 := demo_member "g" 6 2 MAMA_FT_STATE_STANDBY 3 4 in
  yields m1 m2 = negb (yields m2 m1) /\ yields m1 m1 = false.
Proof.
  intros m1 m2. destruct credentials_total_order as (H1 & H2 & _). split.
  - apply (H1 m1 m2 "g"%string); [apply demo_valid; unfold in_s, in_u; lia..|]. intros [H _]. cbn in H. lia.
  - apply (H2 m1 "g"%string). apply demo_valid; unfold in_s, in_u; lia.
Defined.

(** ** One heartbeat *)

(** A running multicast member: its timeout timer runs unless it is active. *)
Record running (w : world) (m : mamaFtMemberImpl) (g : string) : Prop := {
  rn_member : member w = Some m;
  rn_valid : valid m g;
  rn_name : good_name g;
  rn_next : in_u 32 (myNextIncarnation m);
  rn_calls : outcomes w = [];
  rn_heartbeat : myHeartbeatTimer m = TimerStarted;
  rn_timeout : myTimeoutTimer m = match myState m with MAMA_FT_STATE_ACTIVE => TimerNull | _ => TimerStarted end
}.

(** The member after a better heartbeat, and what it announced. *)
Definition heard (m : mamaFtMemberImpl) (inc : Z) : mamaFtMemberImpl :=
  set_myState MAMA_FT_STATE_STANDBY (set_myTimeoutTimer TimerStarted
    (if myNextIncarnation m <=? inc then set_myNextIncarnation (u32 (inc + 1)) m else m)).

Definition heard_events (st : mamaFtState) : list ftEvent :=
  match st with
  | MAMA_FT_STATE_ACTIVE => [StateChange MAMA_FT_STATE_STANDBY; TimeoutTimerReset]
  | MAMA_FT_STATE_UNKNOWN => [TimeoutTimerReset; StateChange MAMA_FT_STATE_STANDBY; TimeoutTimerReset]
  | MAMA_FT_STATE_STANDBY => [TimeoutTimerReset]
  end.

Definition after_heard (w : world) (m : mamaFtMemberImpl) (inc : Z) : world :=
  set_foundheartbeat (foundheartbeat w + 1) (set_ftTrace (ftTrace w ++ heard_events (myState m))
    (set_member (Some (heard m inc)) w)).

Lemma check_heartbeat_spec w m g m' : running w m g -> valid m' g -> ~ same_id m m' ->
  mamaCheckHeartbeat (myWeight m') (myIncarnation m') (myPid m') (myIP m') g w =
    Ok (tt, if yields m m' then after_heard w m (myIncarnation m') else w).
Proof.
  intros R V Hid. destruct R as [Hm V' Hgn Hnx Hc Hh Ht].
  destruct w as [mem fh gr ih fds nfd inb outc tr]. cbn in Hm, Hc. subst mem outc.
  unfold mamaCheckHeartbeat, the_member, mbind, M_bind. cbn [member]. rewrite (v_group _ _ V'), String.eqb_refl. cbn [negb].
  assert ((myPid m' =? myPid m) && (myIP m' =? myIP m) = false) as ->.
  { apply andb_false_iff. unfold same_id in Hid. rewrite !Z.eqb_neq. lia. }
  fold (yields m m'). destruct (yields m m'); [|done].
  unfold after_heard, heard. cbn.
  destruct m as [gn wt inc nx act sub ht tt' tick iid sym st rs ss ip pid rwin ty]. cbn in *. subst ht.
  destruct st; subst tt'; destruct (nx <=? myIncarnation m');
    ft_run; rewrite <- ?app_assoc; done.
Qed.

Lemma heard_cred m inc m' : yields (heard m inc) m' = yields m m' /\ yields m' (heard m inc) = yields m' m.
Proof. unfold heard. destruct (_ <=? _); done. Qed.

Lemma heard_valid m inc g : valid m g -> valid (heard m inc) g.
Proof. intros []. unfold heard. destruct (_ <=? _); by split. Qed.

Lemma heard_id m inc m' : same_id (heard m inc) m' <-> same_id m m'.
Proof. unfold heard. by destruct (_ <=? _). Qed.

Lemma heard_running w m g inc : running w m g -> running (after_heard w m inc) (heard m inc) g.
Proof.
  intros [Hm V Hn Hx Hc Hh Ht]. split; try done.
  - by apply heard_valid.
  - unfold heard. destruct (_ <=? _); cbn; [apply uwrap_range; lia|done].
  - unfold heard. by destruct (_ <=? _).
Qed.

Lemma running_frame w w' m g : running w m g -> member w' = member w -> outcomes w' = outcomes w -> running w' m g.
Proof. intros [Hm V Hn Hx Hc Hh Ht] E1 E2. split; try done; congruence. Qed.

(** A heartbeat that arrives on the socket. *)
Lemma receive_spec w m g m' rest : running w m g -> valid m' g -> ~ same_id m m' ->
  inbound w = packet_of m' g :: rest ->
  multicastFt_receiveHeartbeat w =
    Ok (0, if yields m m' then after_heard (set_inbound rest w) m (myIncarnation m') else set_inbound rest w).
Proof.
  intros R V Hid Hi. destruct (rn_name _ _ _ R) as (Hs & Hn & Hne & Hl).
  rewrite (receive_packet w m' g rest) by (done || lia). rewrite scan_good by done.
  unfold HB_GROUP_NAME_SIZE. destruct (Z.leb_spec 100 (Z.of_nat (String.length g))); [lia|].
  unfold mbind, M_bind. rewrite (check_heartbeat_spec _ m g m'); [done| |done|done].
  by eapply running_frame.
Qed.

(** ** A timeout *)

Definition other (g : string) (m m' : mamaFtMemberImpl) : Prop := valid m' g /\ ~ same_id m m'.

(** The member after the heartbeats [ms], and how many of them were better. *)
Definition hear_all (m : mamaFtMemberImpl) (ms : list mamaFtMemberImpl) : mamaFtMemberImpl :=
  foldl (fun m m' => if yields m m' then heard m (myIncarnation m') else m) m ms.

Lemma hear_all_state m ms :
  myIncarnation (hear_all m ms) = myIncarnation m /\
  (existsb (yields m) ms = true -> myState (hear_all m ms) = MAMA_FT_STATE_STANDBY) /\
  (existsb (yields m) ms = false -> hear_all m ms = m).
Proof.
  assert (forall ms m, myState m = MAMA_FT_STATE_STANDBY -> myState (hear_all m ms) = MAMA_FT_STATE_STANDBY) as HS.
  { induction ms0 as [|m1 ms0 IH]; intros m0 H0; [done|]. cbn. apply IH. by destruct (yields m0 m1). }
  revert m. induction ms as [|m1 ms IH]; intros m; [done|]. cbn [hear_all foldl existsb].
  destruct (yields m m1) eqn:E; cbn [orb]; [|apply IH].
  destruct (IH (heard m (myIncarnation m1))) as (H1 & _). split_and!; [|intros _; by apply HS|done].
  unfold hear_all in H1. rewrite H1. unfold heard. by destruct (_ <=? _).
Qed.

Lemma drain_step w m g n w' r : running w m g -> multicastFt_receiveHeartbeat w = Ok (r, w') ->
  drain_loop (S n) w = if r =? 0 then drain_loop n w' else Ok (tt, w').
Proof.
  intros R E. cbn [drain_loop]. unfold mbind, M_bind, ftRecvHearbeat, the_member, mbind, M_bind.
  rewrite (rn_member _ _ _ R), (v_type _ _ (rn_valid _ _ _ R)), E. by destruct (r =? 0).
Qed.

Lemma drain_spec g : forall ms w m, running w m g -> Forall (other g m) ms ->
  inbound w = (fun m' => packet_of m' g) <$> ms ->
  wp (drain_loop (S (length ms))) w (fun _ w' =>
    running w' (hear_all m ms) g /\ inbound w' = [] /\
    foundheartbeat w' = foundheartbeat w + Z.of_nat (length (filter (fun m' => yields m m' = true) ms))).
Proof.
  induction ms as [|m1 ms IH]; intros w m R Hms Hi; unfold wp.
  - assert (multicastFt_receiveHeartbeat w = Ok (-1, w)) as E.
    { unfold multicastFt_receiveHeartbeat, mbind, M_bind, Prelude.get. by rewrite Hi. }
    rewrite (drain_step w m g _ _ _ R E). cbn. split_and!; [done..|lia].
  - apply Forall_cons in Hms as [[V1 Hid] Hms]. rewrite fmap_cons in Hi.
    rewrite (drain_step w m g _ _ _ R (receive_spec w m g m1 _ R V1 Hid Hi)).
    cbn [Z.eqb]. rewrite filter_cons. unfold hear_all. cbn [foldl]. fold (hear_all (if yields m m1 then heard m (myIncarnation m1) else m) ms).
    destruct (yields m m1) eqn:E; [rewrite decide_True by done|rewrite decide_False by done].
    + assert (Forall (other g (heard m (myIncarnation m1))) ms) as Hms'.
      { eapply Forall_impl; [exact Hms|]. intros m2 [V2 Hid2]. split; [done|]. by rewrite heard_id. }
      eapply wp_mono; [apply (IH (after_heard _ _ _) (heard m (myIncarnation m1)));
        [apply heard_running; by eapply running_frame|done|done]|].
      cbn beta. intros _ w' (R' & Hi' & Hf). split_and!; [done..|]. rewrite Hf.
      rewrite (list_filter_iff _ (fun m' => yields m m' = true)); [cbn; lia|].
      intros m2. by rewrite (proj1 (heard_cred m _ m2)).
    + apply (IH (set_inbound _ w) m); [by eapply running_frame|done|done].
Qed.

(** Becoming active: what [checkState] does to a member that is not. *)
Definition active (m : mamaFtMemberImpl) : mamaFtMemberImpl :=
  set_myState MAMA_FT_STATE_ACTIVE (set_myTimeoutTimer TimerNull (set_myIncarnation (myNextIncarnation m) m)).

Lemma go_active_spec w m g : running w m g -> myState m ≠ MAMA_FT_STATE_ACTIVE ->
  wp (checkState MAMA_FT_STATE_ACTIVE) w (fun _ w' => running w' (active m) g /\ inbound w' = inbound w /\
    ftTrace w' = ftTrace w ++ [HeartbeatSent (packet_of (set_myIncarnation (myNextIncarnation m) m) g);
      HeartbeatTimerReset; StateChange MAMA_FT_STATE_ACTIVE]).
Proof.
  intros R Hst. pose proof R as [Hm V Hgn Hnx Hc Hh Ht]. pose proof Hgn as (_ & _ & _ & Hl).
  set (m1 := set_myIncarnation (myNextIncarnation m) m).
  assert (valid m1 g) as V1 by (destruct V; by split).
  assert (wp (invokeStateChange MAMA_FT_STATE_ACTIVE) w (fun _ w' => running w' (active m) g /\ inbound w' = inbound w /\
    ftTrace w' = ftTrace w ++ [HeartbeatSent (packet_of m1 g); HeartbeatTimerReset; StateChange MAMA_FT_STATE_ACTIVE])) as HI.
  { unfold wp, invokeStateChange, mbind, M_bind, the_member. rewrite Hm.
    assert (state_eqb (myState m) MAMA_FT_STATE_ACTIVE = false) as -> by (by destruct (myState m)).
    cbv beta iota. unfold on_member at 1. rewrite Hm. cbv beta iota. unfold ftSendHeartbeat, mbind, M_bind, the_member.
    cbn [member set_member]. change (ftType (set_myIncarnation (myNextIncarnation m) m)) with (ftType m).
    rewrite (v_type _ _ V). rewrite (send_spec _ m1 g); [|done|apply V1|lia]. generalize (packet_of m1 g) as p. intros p.
    destruct w as [mem fh gr ih fds nfd inb outc tr]. cbn in Hm, Hc. subst mem outc.
    destruct m as [gn wt inc nx act sub ht tt' tick iid sym st rs ss ip pid rwin ty]. cbn in *. subst ht.
    destruct V1; cbn in *.
    destruct st; [|done|]; subst tt'; cbn; rewrite <- !app_assoc; cbn; (split; [split; cbn; try done; by split|split; [done|cbn; by rewrite <- ?app_assoc]]). }
  unfold wp, checkState, mbind, M_bind, the_member. rewrite Hm. unfold wp in HI.
  destruct (myState m); [exact HI|done|exact HI].
Qed.

(** a timeout drains the socket before it decides.  When the timeout timer
    of a running member fires while heartbeats of its group wait at the socket,
    the callback returns; it reads them all, and then the member is standing by
    with its incarnation unchanged if one of them had better credentials, and
    otherwise active under its next incarnation, with its timeout timer gone. *)
Theorem timeout_drains_first w m g ms :
  running w m g -> myState m ≠ MAMA_FT_STATE_ACTIVE -> Forall (other g m) ms ->
  inbound w = (fun m' => packet_of m' g) <$> ms ->
  wp (ftTimeoutTimerCb (S (length ms))) w (fun _ w' => inbound w' = [] /\ exists m', running w' m' g /\
    if existsb (yields m) ms
    then myState m' = MAMA_FT_STATE_STANDBY /\ myIncarnation m' = myIncarnation m
    else myState m' = MAMA_FT_STATE_ACTIVE /\ myIncarnation m' = myNextIncarnation m).
Proof.
  intros R Hst Hms Hi. unfold ftTimeoutTimerCb. apply wp_bind, wp_modify. apply wp_bind.
  eapply wp_mono; [apply (drain_spec g ms _ m); [by eapply running_frame|done|done]|].
  cbn beta. intros _ w' (R' & Hi' & Hf). apply wp_bind. unfold wp at 1, Prelude.get. cbn [foundheartbeat set_foundheartbeat] in Hf.
  destruct (hear_all_state m ms) as (H1 & H2 & H3). rewrite Hf. destruct (existsb (yields m) ms) eqn:E.
  - assert (0 < length (filter (fun m' => yields m m' = true) ms))%nat as Hpos.
    { apply existsb_exists in E as (x & Hx & Ex).
      destruct (filter (fun m' => yields m m' = true) ms) eqn:Ef; [|cbn; lia].
      assert (x ∈ filter (fun m' => yields m m' = true) ms) as Hin
        by (apply list_elem_of_filter; split; [done|by apply list_elem_of_In]).
      rewrite Ef in Hin. by apply not_elem_of_nil in Hin. }
    destruct (Z.eqb_spec (0 + Z.of_nat (length (filter (fun m' => yields m m' = true) ms))) 0); [lia|].
    apply wp_ret. split; [done|]. exists (hear_all m ms). auto.
  - assert (filter (fun m' => yields m m' = true) ms = []) as ->.
    { clear -E. induction ms as [|x ms IH]; [done|]. cbn in E. apply orb_false_iff in E as [E1 E2].
      rewrite filter_cons_False by congruence. auto. }
    cbn. rewrite (H3 eq_refl) in R'. eapply wp_mono; [by apply (go_active_spec w' m g)|].
    cbn beta. intros _ w'' (R'' & Hi'' & _). split; [congruence|]. by exists (active m).
Qed.

Lemma demo_running g ip pid st inc next : in_s 32 ip -> in_s 32 pid -> in_u 32 inc -> in_u 32 next -> good_name g ->
  running (demo_world (demo_member g ip pid st inc next)) (demo_member g ip pid st inc next) g.
Proof. intros. by split. Qed.

Lemma timeout_drains_first_witness :
  let m := demo_member "g" 5 7 MAMA_FT_STATE_UNKNOWN 0 1 in
  let m' := demo_member "g" 6 2 MAMA_FT_STATE_STANDBY 0 1 in
  wp (ftTimeoutTimerCb 2) (set_inbound [packet_of m' "g"] (demo_world m)) (fun _ w' =>
    inbound w' = [] /\ exists m1, running w' m1 "g" /\
      if existsb (yields m) [m']
      then myState m1 = MAMA_FT_STATE_STANDBY /\ myIncarnation m1 = 0
      else myState m1 = MAMA_FT_STATE_ACTIVE /\ myIncarnation m1 = 1).
Proof.
  intros m m'.
  apply (timeout_drains_first (set_inbound [packet_of m' "g"] (demo_world m)) m "g" [m']); [|done| |reflexivity].
  - eapply running_frame; [apply demo_running|reflexivity|reflexivity]; unfold in_s, in_u; try lia.
    repeat split; cbn; lia || done.
  - constructor; [|constructor]. split; [apply demo_valid; unfold in_s, in_u; lia|]. intros [H _]. cbn in H. lia.
Defined.

(** ** The group

    One world per process.  In a [Beat i j] the heartbeat timer of process [i]
    fires and the packet it sends arrives at process [j]; in a [Timeout i] the
    timeout timer of process [i] fires, if it runs. *)

Inductive group_event : Type := Beat (i j : nat) | Timeout (i : nat).

Definition last_sent (w : world) : option string :=
  match last (ftTrace w) with Some (HeartbeatSent p) => Some p | _ => None end.

Definition group_step (e : group_event) (ws : list world) : res (list world) :=
  match e with
  | Beat i j =>
      if (i =? j)%nat then Ok ws else
      match ws !! i, ws !! j with
      | Some wi, Some wj =>
          match ftHeartbeatTimerCb wi with
          | Ok (_, wi') =>
              match last_sent wi' with
              | Some p =>
                  match ioCallback (set_inbound (inbound wj ++ [p]) wj) with
                  | Ok (_, wj') => Ok (<[j := wj']> (<[i := wi']> ws))
                  | Fail f => Fail f
                  end
              | None => Ok (<[i := wi']> ws)
              end
          | Fail f => Fail f
          end
      | _, _ => Ok ws
      end
  | Timeout i =>
      match ws !! i with
      | Some wi =>
          match myTimeoutTimer <$> member wi with
          | Some TimerStarted =>
              match ftTimeoutTimerCb (S (length (inbound wi))) wi with
              | Ok (_, wi') => Ok (<[i := wi']> ws)
              | Fail f => Fail f
              end
          | _ => Ok ws
          end
      | None => Ok ws
      end
  end.

Fixpoint group_run (es : list group_event) (ws : list world) : res (list world) :=
  match es with
  | [] => Ok ws
  | e :: es => match group_step e ws with Ok ws' => group_run es ws' | Fail f => Fail f end
  end.

(** Process [i] runs member [m], with nothing waiting at its socket. *)
Definition is_at (g : string) (ws : list world) (i : nat) (m : mamaFtMemberImpl) : Prop :=
  exists w, ws !! i = Some w /\ running w m g /\ inbound w = [] /\ 0 < myRecvWindow m.

(** A group of [n] members, all different, in which [k] has the best credentials. *)
Record group_ok (g : string) (n k : nat) (ws : list world) (mk : mamaFtMemberImpl) : Prop := {
  go_length : length ws = n;
  go_running : forall i, (i < n)%nat -> exists m, is_at g ws i m;
  go_ids : forall i j m m', is_at g ws i m -> is_at g ws j m' -> same_id m m' -> i = j;
  go_best : is_at g ws k mk;
  go_yield : forall i m, is_at g ws i m -> i ≠ k -> yields m mk = true;
  go_next : myIncarnation mk <= myNextIncarnation mk
}.

Lemma is_at_inj g ws i m m' : is_at g ws i m -> is_at g ws i m' -> m = m'.
Proof.
  intros (w & Hw & R & _) (w' & Hw' & R' & _). rewrite Hw in Hw'. injection Hw' as <-.
  pose proof (rn_member _ _ _ R). pose proof (rn_member _ _ _ R'). congruence.
Qed.

Lemma is_at_insert g ws i j w m : (i < length ws)%nat -> running w m g -> inbound w = [] -> 0 < myRecvWindow m ->
  forall m', is_at g (<[i := w]> ws) j m' <-> if decide (j = i) then m' = m else is_at g ws j m'.
Proof.
  intros Hi R Hin Hw m'. case_decide as E.
  - subst j. split.
    + intros H. eapply is_at_inj; [exact H|]. exists w. by rewrite list_lookup_insert_eq.
    + intros ->. exists w. by rewrite list_lookup_insert_eq.
  - unfold is_at. by rewrite list_lookup_insert_ne by done.
Qed.

(** Replacing a member that is not the best by one with the same credentials. *)
Definition same_cred (m m' : mamaFtMemberImpl) : Prop :=
  myWeight m = myWeight m' /\ myIncarnation m = myIncarnation m' /\ same_id m m'.

Lemma yields_same_cred a a' b b' : same_cred a a' -> same_cred b b' -> yields a b = yields a' b'.
Proof.
  intros (H1 & H2 & H3 & H4) (H5 & H6 & H7 & H8). unfold yields, mamaBetterCredentials.
  by rewrite H1, H2, H3, H4, H5, H6, H7, H8.
Qed.

(** ** Steps of one process *)

Definition ticked (m : mamaFtMemberImpl) : mamaFtMemberImpl := set_myHeartbeatTick (u32 (myHeartbeatTick m + 1)) m.

Lemma beat_sent w m g : running w m g ->
  exists w', ftHeartbeatTimerCb w = Ok (tt, w') /\ running w' (ticked m) g /\ inbound w' = inbound w /\
    last_sent w' = Some (packet_of (ticked m) g).
Proof.
  intros R. pose proof R as [Hm V Hgn Hnx Hc Hh Ht]. pose proof Hgn as (_ & _ & _ & Hl).
  unfold ftHeartbeatTimerCb, mbind, M_bind, on_member, ftSendHeartbeat, the_member, mbind, M_bind. rewrite Hm.
  cbn [member set_member]. fold (ticked m). change (ftType (ticked m)) with (ftType m). rewrite (v_type _ _ V).
  rewrite (send_spec _ (ticked m) g); [|done|apply V|lia]. eexists. split; [done|]. split_and!.
  - split; try done. destruct V. by split.
  - done.
  - unfold last_sent. cbn [ftTrace set_ftTrace]. by rewrite last_snoc.
Qed.

Lemma beat_received w m g m' : running w m g -> valid m' g -> ~ same_id m m' -> inbound w = [] -> 0 < myRecvWindow m ->
  exists w', ioCallback (set_inbound (inbound w ++ [packet_of m' g]) w) = Ok (tt, w') /\ inbound w' = [] /\
    running w' (if yields m m' then heard m (myIncarnation m') else m) g.
Proof.
  intros R V Hid Hi Hw. rewrite Hi. cbn [app]. set (w1 := set_inbound _ w).
  assert (running w1 m g) as R1 by (by eapply running_frame).
  pose proof (receive_spec w1 m g m' [] R1 V Hid eq_refl) as E1.
  set (w2 := if yields m m' then _ else _) in E1. exists w2.
  assert (inbound w2 = [] /\ running w2 (if yields m m' then heard m (myIncarnation m') else m) g) as [Hi2 R2].
  { unfold w2. destruct (yields m m'); (split; [done|]); [apply heard_running|]; by eapply running_frame. }
  split; [|done]. unfold ioCallback, mbind, M_bind, the_member. rewrite (rn_member _ _ _ R1).
  destruct (Z.to_nat (myRecvWindow m)) as [|n] eqn:E; [lia|]. cbn [recv_loop]. unfold mbind, M_bind. rewrite E1.
  cbn [Z.eqb]. destruct n as [|n]; [done|]. cbn [recv_loop]. unfold mbind, M_bind.
  unfold multicastFt_receiveHeartbeat, mbind, M_bind, Prelude.get. by rewrite Hi2.
Qed.

(** ** Steps of the group *)

Definition state_at (g : string) (ws : list world) (i : nat) (st : mamaFtState) : Prop :=
  exists m, is_at g ws i m /\ myState m = st.

(** One process changes: its identity stays, and so do its credentials unless it
    is the best member, which may only improve. *)
Lemma group_replace g n k ws mk i w m m' :
  group_ok g n k ws mk -> is_at g ws i m -> running w m' g -> inbound w = [] -> 0 < myRecvWindow m' -> same_id m m' ->
  (i ≠ k -> same_cred m m') ->
  (i = k -> myIncarnation m' <= myNextIncarnation m' /\ forall x, valid x g -> yields x m = true -> yields x m' = true) ->
  group_ok g n k (<[i := w]> ws) (if decide (i = k) then m' else mk).
Proof.
  intros [Hlen Hrun Hids Hbest Hy Hnx] Hat R Hin Hwin Hid Hsame Hbetter.
  assert (i < length ws)%nat as Hi.
  { destruct Hat as (w0 & H0 & _). by apply lookup_lt_Some in H0. }
  pose proof (fun j m0 => is_at_insert g ws i j w m' Hi R Hin Hwin m0) as Hins.
  split.
  - by rewrite length_insert.
  - intros j Hj. destruct (decide (j = i)) as [->|Hne].
    + exists m'. apply Hins. by rewrite decide_True.
    + destruct (Hrun j Hj) as [m0 H0]. exists m0. apply Hins. by rewrite decide_False.
  - intros a b ma mb Ha%Hins Hb%Hins Hab.
    assert (forall c mc, (if decide (c = i) then mc = m' else is_at g ws c mc) ->
      exists mc', is_at g ws c mc' /\ (same_id mc mc')) as Hold.
    { intros c mc Hc. destruct (decide (c = i)) as [->|]; [|by exists mc].
      subst mc. exists m. split; [done|]. destruct Hid. by split. }
    destruct (Hold _ _ Ha) as (ma' & Ha' & [Ea1 Ea2]). destruct (Hold _ _ Hb) as (mb' & Hb' & [Eb1 Eb2]).
    eapply Hids; [exact Ha'|exact Hb'|]. destruct Hab. split; congruence.
  - apply Hins. destruct (decide (i = k)) as [->|Hne]; [by rewrite decide_True|by rewrite decide_False].
  - intros j mj Hj%Hins Hjk. destruct (decide (j = i)) as [->|Hji].
    + rewrite decide_False by done. subst mj. rewrite <- (yields_same_cred m m' mk mk); [by apply (Hy i)|by apply Hsame|done].
    + destruct (decide (i = k)) as [->|]; [|by apply (Hy j)].
      rewrite (is_at_inj _ _ _ _ _ Hbest Hat) in Hy. destruct (Hbetter eq_refl) as [_ HB]. apply HB; [|by apply (Hy j)].
      destruct Hj as (w0 & _ & R0 & _). apply (rn_valid _ _ _ R0).
  - destruct (decide (i = k)) as [->|]; [by apply Hbetter|done].
Qed.

Lemma state_replace g ws i j w m st :
  (i < length ws)%nat -> running w m g -> inbound w = [] -> 0 < myRecvWindow m ->
  state_at g (<[i := w]> ws) j st <-> if decide (j = i) then myState m = st else state_at g ws j st.
Proof.
  intros Hi R Hin Hw. unfold state_at. setoid_rewrite (is_at_insert g ws i j w m Hi R Hin Hw).
  case_decide; [|done]. split; [by intros (m' & -> & E)|]. intros E. by exists m.
Qed.

(** What a step keeps and what it adds. *)
Definition step_effect (g : string) (k : nat) (e : group_event) (ws ws' : list world) : Prop :=
  (state_at g ws k MAMA_FT_STATE_ACTIVE \/ e = Timeout k -> state_at g ws' k MAMA_FT_STATE_ACTIVE) /\
  (forall j, j ≠ k -> (j < length ws)%nat ->
    state_at g ws j MAMA_FT_STATE_STANDBY \/ e = Beat k j -> state_at g ws' j MAMA_FT_STATE_STANDBY).

Lemma heard_same_cred m inc : same_cred m (heard m inc).
Proof. unfold heard. by destruct (_ <=? _). Qed.

Lemma heard_window m inc : myRecvWindow (heard m inc) = myRecvWindow m.
Proof. unfold heard. by destruct (_ <=? _). Qed.

Lemma out_of_range g ws j st : state_at g ws j st -> (j < length ws)%nat.
Proof. intros (m & (w & Hw & _) & _). by apply lookup_lt_Some in Hw. Qed.

Lemma is_at_running g ws i m : is_at g ws i m -> valid m g.
Proof. intros (w & _ & R & _). apply (rn_valid _ _ _ R). Qed.

Lemma keep_effect g k e ws : (forall j, j ≠ k -> (j < length ws)%nat -> e ≠ Beat k j) -> e ≠ Timeout k ->
  step_effect g k e ws ws.
Proof. intros H1 H2. split; [by intros [H|H]|]. intros j Hj Hl [H|H]; [done|]. by apply H1 in H. Qed.

Lemma beat_step g n k ws mk i j : group_ok g n k ws mk ->
  exists ws' mk', group_step (Beat i j) ws = Ok ws' /\ group_ok g n k ws' mk' /\ step_effect g k (Beat i j) ws ws'.
Proof.
  intros G. pose proof (go_length _ _ _ _ _ G) as Hlen. cbn [group_step].
  destruct (Nat.eqb_spec i j) as [->|Hij].
  { exists ws, mk. split_and!; [done..|]. apply keep_effect; [|done]. intros j' Hj _ [= -> ->]. done. }
  destruct (decide (i < n)%nat) as [Hi|Hi].
  2: { rewrite (lookup_ge_None_2 ws i) by lia. exists ws, mk. split_and!; [done..|]. apply keep_effect; [|done].
       intros j' _ _ [= -> ->]. destruct (go_best _ _ _ _ _ G) as (w & Hw & _). apply lookup_lt_Some in Hw. lia. }
  destruct (decide (j < n)%nat) as [Hj|Hj].
  2: { rewrite (lookup_ge_None_2 ws j) by lia. exists ws, mk. destruct (ws !! i); (split_and!; [done..|]);
       (apply keep_effect; [|done]); intros j' _ Hl [= -> ->]; lia. }
  destruct (go_running _ _ _ _ _ G i Hi) as (mi & Ai). destruct (go_running _ _ _ _ _ G j Hj) as (mj & Aj).
  pose proof Ai as (wi & Wi & Ri & Ii & Ri'). pose proof Aj as (wj & Wj & Rj & Ij & Rj').
  rewrite Wi, Wj. destruct (beat_sent wi mi g Ri) as (wi' & Ei & Rti & Iti & Ls). rewrite Ei, Ls.
  rewrite Ii in Iti. assert (valid (ticked mi) g) as Vi by apply (rn_valid _ _ _ Rti).
  assert (group_ok g n k (<[i := wi']> ws) (if decide (i = k) then ticked mi else mk)) as G1.
  { eapply group_replace; [exact G|exact Ai|done..|]. intros ->. split; [|done].
    rewrite (is_at_inj _ _ _ _ _ Ai (go_best _ _ _ _ _ G)). apply (go_next _ _ _ _ _ G). }
  assert (~ same_id mj (ticked mi)) as Hid.
  { intros H. apply Hij. symmetry. eapply (go_ids _ _ _ _ _ G); [exact Aj|exact Ai|exact H]. }
  destruct (beat_received wj mj g (ticked mi) Rj Vi Hid Ij Rj') as (wj' & Ej & Ij' & Rj2). rewrite Ej.
  set (mj' := if yields mj (ticked mi) then _ else mj) in Rj2.
  assert (is_at g (<[i := wi']> ws) j mj) as Aj1.
  { apply (is_at_insert g ws i j wi' (ticked mi)); [lia|done..|]. rewrite decide_False by done. exact Aj. }
  assert (is_at g (<[i := wi']> ws) i (ticked mi)) as Ai1.
  { apply (is_at_insert g ws i i wi' (ticked mi)); [lia|done..|]. by rewrite decide_True. }
  assert (same_cred mj mj' /\ 0 < myRecvWindow mj') as [Hsc Hwj].
  { unfold mj'. destruct (yields mj (ticked mi)); [|by repeat split]. split; [apply heard_same_cred|by rewrite heard_window]. }
  assert (j = k -> yields mj (ticked mi) = false) as Hbest.
  { intros ->. rewrite (yields_asym mj (ticked mi) g) by (done || by eapply is_at_running). apply negb_false_iff.
    pose proof (go_yield _ _ _ _ _ G1 i _ Ai1 Hij) as H. rewrite decide_False in H by done.
    by rewrite (is_at_inj _ _ _ _ _ Aj (go_best _ _ _ _ _ G)). }
  eexists _, _. split; [done|]. split.
  { eapply group_replace; [exact G1|exact Aj1|exact Rj2|done|done|apply Hsc|done|]. intros ->. split; [|by intros x _; unfold mj'; rewrite Hbest].
    unfold mj'. rewrite Hbest by done. rewrite (is_at_inj _ _ _ _ _ Aj (go_best _ _ _ _ _ G)). apply (go_next _ _ _ _ _ G). }
  assert (forall a st, state_at g (<[j := wj']> (<[i := wi']> ws)) a st <->
    if decide (a = j) then myState mj' = st else if decide (a = i) then myState mi = st else state_at g ws a st) as HS.
  { intros a st. rewrite (state_replace g _ j a wj' mj' st); [|by rewrite length_insert, Hlen|done..].
    destruct (decide (a = j)); [done|]. rewrite (state_replace g ws i a wi' (ticked mi) st); [done|lia|done..]. }
  assert (forall a m st, is_at g ws a m -> state_at g ws a st -> myState m = st) as Hst.
  { intros a m st Ha (m' & Ha' & E). by rewrite (is_at_inj _ _ _ _ _ Ha Ha'). }
  split.
  - intros [H|[=]]. apply HS. destruct (decide (k = j)) as [E1|].
    { unfold mj'. rewrite Hbest by done. rewrite E1 in H. by eapply Hst. }
    destruct (decide (k = i)) as [E2|]; [|done]. rewrite E2 in H. by eapply Hst.
  - intros a Ha Hl H. apply HS. destruct (decide (a = j)) as [E1|E1].
    + subst a. unfold mj'. destruct (yields mj (ticked mi)) eqn:Ey; [done|]. destruct H as [H|[= ->]]; [by eapply Hst|].
      pose proof (go_yield _ _ _ _ _ G1 j _ Aj1 Ha) as H. rewrite decide_True in H by done. congruence.
    + destruct H as [H|[= -> ->]]; [|done]. destruct (decide (a = i)) as [E2|]; [|done]. rewrite E2 in H. by eapply Hst.
Qed.

Lemma timeout_step g n k ws mk : group_ok g n k ws mk ->
  exists ws' mk', group_step (Timeout k) ws = Ok ws' /\ group_ok g n k ws' mk' /\ step_effect g k (Timeout k) ws ws'.
Proof.
  intros G. pose proof (go_best _ _ _ _ _ G) as A. pose proof A as (w & W & R & I & Hw).
  pose proof (lookup_lt_Some _ _ _ W) as Hk. cbn [group_step]. rewrite W, (rn_member _ _ _ R), I. cbn [fmap option_fmap option_map].
  pose proof (rn_timeout _ _ _ R) as Ht. destruct (decide (myState mk = MAMA_FT_STATE_ACTIVE)) as [Ea|Ea].
  { rewrite Ea in Ht. rewrite Ht. exists ws, mk. split_and!; [done..|]. split; [intros _; by exists mk|].
    intros j Hj Hl [H|[=]]. done. }
  assert (myTimeoutTimer mk = TimerStarted) as -> by (by destruct (myState mk)).
  assert (wp (ftTimeoutTimerCb 1) w (fun _ w' => inbound w' = [] /\ running w' (active mk) g)) as HT.
  { unfold ftTimeoutTimerCb. apply wp_bind, wp_modify. apply wp_bind.
    eapply wp_mono; [apply (drain_spec g [] _ mk); [by eapply running_frame|constructor|done]|].
    cbn beta. intros _ w' (R' & I' & Hf). apply wp_bind. unfold wp at 1, Prelude.get. rewrite Hf. cbn.
    eapply wp_mono; [by apply (go_active_spec w' mk g)|]. cbn beta. intros _ w'' (R'' & I'' & _). split; [congruence|done]. }
  apply wp_elim in HT as ([] & w' & E & I' & R'). cbn [length]. rewrite E. exists (<[k := w']> ws), (active mk).
  split; [done|]. pose proof (go_next _ _ _ _ _ G) as Hnx. split.
  - pose proof (group_replace g n k ws mk k w' mk (active mk) G A R' I' Hw) as H. rewrite decide_True in H by done.
    apply H; [done|done|]. intros _. split; [cbn; lia|]. intros x Vx.
    pose proof (is_at_running _ _ _ _ A) as Vk.
    rewrite !yields_lower by (apply Vx || apply Vk). unfold lower. cbn. lia.
  - pose proof (fun j st => state_replace g ws k j w' (active mk) st Hk R' I' Hw) as HS. split.
    + intros _. apply HS. by rewrite decide_True.
    + intros j Hj Hl [H|[=]]. apply HS. by rewrite decide_False.
Qed.

(** C9: the group elects the member with the best credentials.  Take any group
    of running members with different identities, in any states, in which member
    [k] has the best credentials, and any interleaving of heartbeats from any
    member to any other in which only [k]'s timeout timer fires.  No step faults;
    and once every other member has heard [k], and [k] was active or has timed
    out, [k] is active and every other member stands by. *)
Theorem group_elects_best g n k ws mk es :
  group_ok g n k ws mk -> (forall i, Timeout i ∈ es -> i = k) ->
  (forall j, (j < n)%nat -> j ≠ k -> Beat k j ∈ es) ->
  (myState mk = MAMA_FT_STATE_ACTIVE \/ Timeout k ∈ es) ->
  exists ws', group_run es ws = Ok ws' /\
    forall j, (j < n)%nat -> state_at g ws' j (if decide (j = k) then MAMA_FT_STATE_ACTIVE else MAMA_FT_STATE_STANDBY).
Proof.
  intros G Ht Hb Ha.
  assert (forall es ws mk, group_ok g n k ws mk -> (forall i, Timeout i ∈ es -> i = k) ->
    exists ws' mk', group_run es ws = Ok ws' /\ group_ok g n k ws' mk' /\
      (state_at g ws k MAMA_FT_STATE_ACTIVE \/ Timeout k ∈ es -> state_at g ws' k MAMA_FT_STATE_ACTIVE) /\
      (forall j, j ≠ k -> (j < n)%nat -> state_at g ws j MAMA_FT_STATE_STANDBY \/ Beat k j ∈ es ->
        state_at g ws' j MAMA_FT_STATE_STANDBY)) as HR.
  { clear. induction es as [|e es IH]; intros ws mk G Ht.
    - exists ws, mk. split_and!; [done..| |]; [intros [H|H]|intros j _ _ [H|H]]; try done; by apply not_elem_of_nil in H.
    - assert (exists ws' mk', group_step e ws = Ok ws' /\ group_ok g n k ws' mk' /\ step_effect g k e ws ws')
        as (ws1 & mk1 & E1 & G1 & F1 & F2).
      { destruct e as [i j|i]; [by eapply beat_step|]. rewrite (Ht i) by (by left). by eapply timeout_step. }
      destruct (IH ws1 mk1 G1) as (ws' & mk' & E & G' & P1 & P2); [intros i Hi; apply Ht; by right|].
      exists ws', mk'. cbn [group_run]. rewrite E1. split_and!; [done..| |].
      + intros [H|H]; apply P1; [left; auto|]. apply elem_of_cons in H as [<-|H]; [left; auto|by right].
      + rewrite (go_length _ _ _ _ _ G) in F2. intros j Hj Hl [H|H]; apply P2; auto.
        apply elem_of_cons in H as [<-|H]; [left; auto|by right]. }
  destruct (HR es ws mk G Ht) as (ws' & mk' & E & _ & P1 & P2). exists ws'. split; [done|].
  intros j Hj. case_decide as Ejk; [subst j|by apply P2; auto]. apply P1. destruct Ha as [Ha|Ha]; [left|by right].
  exists mk. split; [apply (go_best _ _ _ _ _ G)|done].
Qed.

Definition duo (ip1 ip2 : Z) : list world :=
  [demo_world (demo_member "g" ip1 7 MAMA_FT_STATE_ACTIVE 1 1);
   demo_world (demo_member "g" ip2 7 MAMA_FT_STATE_UNKNOWN 1 1)].

Lemma duo_ok : group_ok "g" 2 1 (duo 5 6) (demo_member "g" 6 7 MAMA_FT_STATE_UNKNOWN 1 1).
Proof.
  assert (good_name "g") as Hn by (repeat split; cbn; lia || done).
  assert (forall i m, is_at "g" (duo 5 6) i m <->
    (i = 0%nat /\ m = demo_member "g" 5 7 MAMA_FT_STATE_ACTIVE 1 1) \/
    (i = 1%nat /\ m = demo_member "g" 6 7 MAMA_FT_STATE_UNKNOWN 1 1)) as HA.
  { intros i m. split.
    - intros (w & Hw & R & _). pose proof (rn_member _ _ _ R) as Hm.
      destruct i as [|[|i]]; [left|right|done]; (split; [done|]); injection Hw as <-; by injection Hm as <-.
    - intros [[-> ->]|[-> ->]]; (eexists; split; [reflexivity|]);
        (split; [apply demo_running; unfold in_s, in_u; try lia; done|by split]). }
  split; [done| | | | |done].
  - intros [|[|i]] Hi; [eexists; apply HA; by left|eexists; apply HA; by right|lia].
  - intros i j m m' [[-> ->]|[-> ->]]%HA [[-> ->]|[-> ->]]%HA [E _]; cbn in E; lia.
  - apply HA. by right.
  - intros i m [[-> ->]|[-> ->]]%HA H; [reflexivity|done].
Qed.

Lemma group_elects_best_witness :
  exists ws', group_run [Beat 0 1; Timeout 1; Beat 1 0] (duo 5 6) = Ok ws' /\
    forall j, (j < 2)%nat -> state_at "g" ws' j (if decide (j = 1%nat) then MAMA_FT_STATE_ACTIVE else MAMA_FT_STATE_STANDBY).
Proof.
  apply (group_elects_best "g" 2 1 (duo 5 6) (demo_member "g" 6 7 MAMA_FT_STATE_UNKNOWN 1 1)).
  - exact duo_ok.
  - intros i Hi. rewrite !elem_of_cons in Hi.
    destruct Hi as [Hi|[Hi|[Hi|Hi]]]; [done|congruence|done|by apply not_elem_of_nil in Hi].
  - intros [|[|j]] Hj Hne; [do 2 right; by left|done|lia].
  - right. right. by left.
Defined.
