(* ===== verification/FtLife.v ===== *)
(** * The life cycle of a fault tolerant member

    What happens around the activation: before it, after a second one, and when
    it fails half way. *)

From S2P Require Import Prelude MamaStatus Cstdio Ft FtWire FtGroup.
From Stdlib Require Import Ascii String.
From stdpp Require Import strings.
Import Cstdio Ft.
#[local] Open Scope Z_scope.

#[local] Arguments put_digits : simpl never.
#[local] Arguments genInstanceId : simpl never.
#[local] Arguments genSymbol : simpl never.


(** A bridge member that was set up and not activated. *)
Definition bridge_ready (g : string) (weight pid next : Z) (id sym : option string) (timer : mamaTimer)
  (st : mamaFtState) : mamaFtMemberImpl :=
  mkMember (Some g) weight 0 next false true TimerNull timer 0 id sym st 0 0 0 pid 20 (Some MAMA_FT_TYPE_BRIDGE).

Lemma bridge_setup_spec w pid e g weight t :
  outcomes w = [] -> e_memory e = true -> e_transport e = Some t -> exists id sym,
  (mamaFtMember_create true pid ;; mamaFtMember_setup true MAMA_FT_TYPE_BRIDGE e (Some g) weight) w =
    Ok (MAMA_STATUS_OK, set_member (Some (bridge_ready g weight pid 0 id sym TimerNull MAMA_FT_STATE_UNKNOWN)) w).
Proof.
  intros Hc Hmem Ht. destruct w as [mem fh gr ih fds nfd inb outc tr]. cbn in Hc. subst outc.
  exists (genInstanceId true g (e_hostaddr e) pid), (genSymbol true g).
  unfold mamaFtMember_setup, bridgeFt_setup, common_setup, mbind, M_bind, the_member, on_member. cbn.
  rewrite Ht, Hmem. cbn. unfold the_member, on_member, mbind, M_bind, outcome. cbn. reflexivity.
Qed.

Lemma bridge_hears w g weight pid id sym w' pid' :
  member w = Some (bridge_ready g weight pid 0 id sym TimerNull MAMA_FT_STATE_UNKNOWN) -> outcomes w = [] ->
  weight < w' -> i32 pid' ≠ pid ->
  ftSubMsgCb (mkHeartbeat (Some 1) (Some pid') (Some w') (Some 0) (Some 0) (Some g)) w =
    Ok (tt, set_foundheartbeat (foundheartbeat w + 1) (set_ftTrace (ftTrace w ++
      [StateChange MAMA_FT_STATE_STANDBY; TimeoutTimerReset])
      (set_member (Some (bridge_ready g weight pid 1 id sym TimerStarted MAMA_FT_STATE_STANDBY)) w))).
Proof.
  intros Hm Hc Hw Hp. destruct w as [mem fh gr ih fds nfd inb outc tr]. cbn in Hm, Hc. subst mem outc.
  unfold ftSubMsgCb, mamaCheckHeartbeat, mbind, M_bind, the_member. cbn. rewrite String.eqb_refl. cbn.
  apply Z.eqb_neq in Hp. rewrite Hp. cbn. unfold mamaBetterCredentials. cbn.
  destruct (Z.ltb_spec weight w'); [|lia]. ft_run. by rewrite <- app_assoc.
Qed.

Lemma bridge_times_out w g weight pid id sym :
  member w = Some (bridge_ready g weight pid 1 id sym TimerStarted MAMA_FT_STATE_STANDBY) -> outcomes w = [] ->
  exists p m, ftTimeoutTimerCb 1 w = Ok (tt, set_ftTrace (ftTrace w ++
      [HeartbeatPublished p; HeartbeatTimerReset; StateChange MAMA_FT_STATE_ACTIVE])
      (set_foundheartbeat 0 (set_member (Some m) w))) /\
    myState m = MAMA_FT_STATE_ACTIVE /\ myIsActive m = false /\ myHeartbeatTimer m = TimerNull.
Proof.
  intros Hm Hc. destruct w as [mem fh gr ih fds nfd inb outc tr]. cbn in Hm, Hc. subst mem outc.
  exists (mkHeartbeat (Some 0) (Some (u32 pid)) (Some weight) (Some 1) (Some 1) (Some g)),
    (mkMember (Some g) weight 1 1 false true TimerNull TimerNull 0 id sym MAMA_FT_STATE_ACTIVE 0 0 0 pid 20
      (Some MAMA_FT_TYPE_BRIDGE)).
  split; [|done]. unfold ftTimeoutTimerCb, mbind, M_bind. ft_run. by rewrite <- !app_assoc.
Qed.

(** a bridge member takes part in the election before it is activated.  The
    setup already subscribes to the heartbeats.  After [mamaFtMember_create] and
    [mamaFtMember_setup] alone, a heartbeat of a heavier member of the group
    makes the member stand by and starts its timeout timer; when it fires the
    member announces that it is active, though [mamaFtMember_activate] was never
    called. *)
Theorem bridge_elects_before_activation w pid e g weight hb w' :
  outcomes w = [] -> e_memory e = true -> e_transport e = Some (MAMA_STATUS_OK, Some "t"%string) ->
  weight < w' -> hb = mkHeartbeat (Some 1) (Some (u32 (pid + 1))) (Some w') (Some 0) (Some 0) (Some g) ->
  in_s 32 pid ->
  wp ((mamaFtMember_create true pid ;; mamaFtMember_setup true MAMA_FT_TYPE_BRIDGE e (Some g) weight) ;;
      ftSubMsgCb hb ;; ftTimeoutTimerCb 1) w (fun _ w1 => exists m,
    member w1 = Some m /\ myState m = MAMA_FT_STATE_ACTIVE /\ myIsActive m = false /\ myHeartbeatTimer m = TimerNull /\
    exists p, ftTrace w1 = ftTrace w ++ [StateChange MAMA_FT_STATE_STANDBY; TimeoutTimerReset;
      HeartbeatPublished p; HeartbeatTimerReset; StateChange MAMA_FT_STATE_ACTIVE]).
Proof.
  intros Hc Hmem Ht Hw -> Hpid.
  destruct (bridge_setup_spec w pid e g weight _ Hc Hmem Ht) as (id & sym & E1).
  assert (i32 (u32 (pid + 1)) ≠ pid) as Hp.
  { unfold in_s in Hpid. intros E. assert (u32 (pid + 1) = u32 pid) as E2.
    { rewrite <- (u32_i32 (u32 (pid + 1))) by (apply uwrap_range; lia). by rewrite E. }
    unfold u32, uwrap in E2. Z.div_mod_to_equations. lia. }
  apply wp_bind. unfold wp at 1. rewrite E1. apply wp_bind. unfold wp at 1.
  rewrite (bridge_hears _ g weight pid id sym w' (u32 (pid + 1))) by done.
  unfold wp. match goal with |- match ftTimeoutTimerCb 1 ?x with _ => _ end =>
    destruct (bridge_times_out x g weight pid id sym eq_refl Hc) as (p & m & -> & H1 & H2 & H3) end.
  exists m. split_and!; [done..|]. exists p. cbn. by rewrite <- app_assoc.
Qed.

Definition outside : surroundings :=
  mkSurroundings (Some (MAMA_STATUS_OK, Some "t"%string)) (fun _ => None) 0 true.

Definition blank_world (l : list mama_status) : world := mkWorld None 0 false 0 [] 3 [] l [].

Lemma bridge_elects_before_activation_witness :
  wp ((mamaFtMember_create true 7 ;; mamaFtMember_setup true MAMA_FT_TYPE_BRIDGE outside (Some "g"%string) 10) ;;
      ftSubMsgCb (mkHeartbeat (Some 1) (Some 8) (Some 11) (Some 0) (Some 0) (Some "g"%string)) ;; ftTimeoutTimerCb 1)
    (blank_world []) (fun _ w1 => exists m,
    member w1 = Some m /\ myState m = MAMA_FT_STATE_ACTIVE /\ myIsActive m = false /\ myHeartbeatTimer m = TimerNull /\
    exists p, ftTrace w1 = [] ++ [StateChange MAMA_FT_STATE_STANDBY; TimeoutTimerReset;
      HeartbeatPublished p; HeartbeatTimerReset; StateChange MAMA_FT_STATE_ACTIVE]).
Proof.
  apply (bridge_elects_before_activation (blank_world []) 7 outside "g" 10 _ 11); try reflexivity; unfold in_s; lia.
Defined.

(** ** Activating again *)

(** An update of a record that is written out is written out. *)
#[local] Arguments set_myGroupName v !m /.
#[local] Arguments set_myWeight v !m /.
#[local] Arguments set_myIncarnation v !m /.
#[local] Arguments set_myNextIncarnation v !m /.
#[local] Arguments set_myIsActive v !m /.
#[local] Arguments set_mySubscription v !m /.
#[local] Arguments set_myHeartbeatTimer v !m /.
#[local] Arguments set_myTimeoutTimer v !m /.
#[local] Arguments set_myHeartbeatTick v !m /.
#[local] Arguments set_myInstanceId v !m /.
#[local] Arguments set_mySymbol v !m /.
#[local] Arguments set_myState v !m /.
#[local] Arguments set_myRecvSocket v !m /.
#[local] Arguments set_mySendSocket v !m /.
#[local] Arguments set_myIP v !m /.
#[local] Arguments set_myPid v !m /.
#[local] Arguments set_myRecvWindow v !m /.
#[local] Arguments set_ftType v !m /.
#[local] Arguments set_member v !w /.
#[local] Arguments set_foundheartbeat v !w /.
#[local] Arguments set_gReadHandler v !w /.
#[local] Arguments set_ioHandlers v !w /.
#[local] Arguments set_openFds v !w /.
#[local] Arguments set_nextFd v !w /.
#[local] Arguments set_inbound v !w /.
#[local] Arguments set_outcomes v !w /.
#[local] Arguments set_ftTrace v !w /.

(** A multicast member between a deactivation and a timeout: what the calls leave. *)
Definition stopped (m : mamaFtMemberImpl) : mamaFtMemberImpl :=
  mkMember (myGroupName m) (myWeight m) 0 0 false (mySubscription m) TimerNull TimerNull (myHeartbeatTick m)
    (myInstanceId m) (mySymbol m) (myState m) (myRecvSocket m) (mySendSocket m) (myIP m) (myPid m) (myRecvWindow m)
    (ftType m).
Definition restarted (m : mamaFtMemberImpl) (ip : Z) : mamaFtMemberImpl :=
  mkMember (myGroupName m) (myWeight m) 0 1 true (mySubscription m) TimerStarted TimerStarted 0
    (myInstanceId m) (mySymbol m) (myState m) (myRecvSocket m) (mySendSocket m) (i32 ip) (myPid m) (myRecvWindow m)
    (ftType m).

Lemma deactivate_multicast w m : member w = Some m -> ftType m = Some MAMA_FT_TYPE_MULTICAST -> outcomes w = [] ->
  myIsActive m = true -> gReadHandler w = true -> myHeartbeatTimer m = TimerStarted ->
  myTimeoutTimer m = TimerNull \/ myTimeoutTimer m = TimerStarted ->
  mamaFtMember_deactivate true w = Ok (MAMA_STATUS_OK,
    set_gReadHandler false (set_ioHandlers (ioHandlers w - 1) (set_member (Some (stopped m)) w))).
Proof.
  intros Hm Hty Hc Hact Hgr Hh Ht.
  destruct w as [mem fh gr ih fds nfd inb outc tr]. cbn in Hm, Hc, Hgr. subst mem outc gr.
  destruct m as [gn wt inc nx act sub ht tt' tick iid sym st rs ss ip' pid rwin ty]. cbn in *. subst act ht ty.
  unfold mamaFtMember_deactivate, ftDeactivate, multicastFt_deactivate, mbind, M_bind.
  destruct Ht as [->| ->]; ft_run; done.
Qed.

Lemma activate_multicast w m ip : member w = Some (stopped m) -> ftType m = Some MAMA_FT_TYPE_MULTICAST ->
  outcomes w = [] ->
  mamaFtMember_activate true ip w = Ok (MAMA_STATUS_OK,
    set_gReadHandler true (set_ioHandlers (ioHandlers w + 1) (set_member (Some (restarted m ip)) w))).
Proof.
  intros Hm Hty Hc. destruct w as [mem fh gr ih fds nfd inb outc tr]. cbn in Hm, Hc. subst mem outc.
  destruct m as [gn wt inc nx act sub ht tt' tick iid sym st rs ss ip' pid rwin ty]. cbn in *. subst ty.
  unfold stopped, restarted. cbn.
  unfold mamaFtMember_activate, ftActivate, multicastFt_activate, deactivate_running, mbind, M_bind. ft_run. done.
Qed.

Lemma timeout_of_active w m : member w = Some m -> ftType m = Some MAMA_FT_TYPE_MULTICAST -> inbound w = [] ->
  myState m = MAMA_FT_STATE_ACTIVE -> ftTimeoutTimerCb 1 w = Ok (tt, set_foundheartbeat 0 w).
Proof.
  intros Hm Hty Hi Hst. destruct w as [mem fh gr ih fds nfd inb outc tr]. cbn in Hm, Hi. subst mem inb.
  unfold ftTimeoutTimerCb, drain_loop, mbind, M_bind, ftRecvHearbeat, mbind, M_bind. cbn. rewrite Hty.
  unfold multicastFt_receiveHeartbeat, mbind, M_bind. ft_run. rewrite Hst. done.
Qed.

(** an active member that is deactivated and activated again takes part in
    no election.  The deactivation clears the incarnation but not the state: the
    member stays active in name, under incarnation 0, and its timeouts neither
    announce anything nor send a heartbeat nor stop the timer. *)
Theorem reactivation_without_election w m g ip :
  running w m g -> myState m = MAMA_FT_STATE_ACTIVE -> myIsActive m = true -> gReadHandler w = true -> inbound w = [] ->
  wp (mamaFtMember_deactivate true ;; mamaFtMember_activate true ip ;; ftTimeoutTimerCb 1) w (fun _ w' => exists m',
    member w' = Some m' /\ myState m' = MAMA_FT_STATE_ACTIVE /\ myIsActive m' = true /\ myIncarnation m' = 0 /\
    myTimeoutTimer m' = TimerStarted /\ ftTrace w' = ftTrace w).
Proof.
  intros [Hm V Hgn Hnx Hc Hh Ht] Hst Hact Hgr Hin. rewrite Hst in Ht. pose proof (v_type _ _ V) as Hty.
  apply wp_bind. unfold wp at 1. rewrite (deactivate_multicast w m) by (done || by left).
  apply wp_bind. unfold wp at 1. rewrite (activate_multicast _ m ip) by done.
  unfold wp. rewrite (timeout_of_active _ (restarted m ip)) by done. exists (restarted m ip). by split_and!.
Qed.

Lemma reactivation_without_election_witness :
  wp (mamaFtMember_deactivate true ;; mamaFtMember_activate true 9 ;; ftTimeoutTimerCb 1)
    (demo_world (demo_member "g" 5 7 MAMA_FT_STATE_ACTIVE 3 3)) (fun _ w' => exists m',
    member w' = Some m' /\ myState m' = MAMA_FT_STATE_ACTIVE /\ myIsActive m' = true /\ myIncarnation m' = 0 /\
    myTimeoutTimer m' = TimerStarted /\ ftTrace w' = []).
Proof.
  apply (reactivation_without_election (demo_world (demo_member "g" 5 7 MAMA_FT_STATE_ACTIVE 3 3))
    (demo_member "g" 5 7 MAMA_FT_STATE_ACTIVE 3 3) "g" 9); try reflexivity.
  apply demo_running; unfold in_s, in_u; try lia. repeat split; cbn; lia || done.
Defined.

(** ** A failed activation *)

(** The member when the bridge refused to start its timeout timer. *)
Definition half_active (m : mamaFtMemberImpl) (ip : Z) : mamaFtMemberImpl :=
  mkMember (myGroupName m) (myWeight m) (myIncarnation m) 1 false (mySubscription m) TimerStarted TimerFreed 0
    (myInstanceId m) (mySymbol m) (myState m) (myRecvSocket m) (mySendSocket m) (i32 ip) (myPid m) (myRecvWindow m)
    (ftType m).

(** An inactive multicast member without timers. *)
Definition idle (w : world) (m : mamaFtMemberImpl) : Prop :=
  member w = Some m /\ ftType m = Some MAMA_FT_TYPE_MULTICAST /\ myIsActive m = false /\
  myHeartbeatTimer m = TimerNull /\ myTimeoutTimer m = TimerNull.

Lemma idle_eta w m : idle w m -> m = mkMember (myGroupName m) (myWeight m) (myIncarnation m) (myNextIncarnation m) false
  (mySubscription m) TimerNull TimerNull (myHeartbeatTick m) (myInstanceId m) (mySymbol m) (myState m) (myRecvSocket m)
  (mySendSocket m) (myIP m) (myPid m) (myRecvWindow m) (Some MAMA_FT_TYPE_MULTICAST).
Proof. intros (_ & H1 & H2 & H3 & H4). destruct m; cbn in *. by subst. Qed.

Lemma activate_no_heartbeat_timer w m ip st : idle w m -> status_ok st = false -> outcomes w = [MAMA_STATUS_OK; st] ->
  mamaFtMember_activate true ip w =
    Ok (st, set_outcomes [] (set_gReadHandler true (set_ioHandlers (ioHandlers w + 1) w))).
Proof.
  intros I Hst Hc. pose proof (idle_eta w m I) as Em. destruct I as (Hm & _). rewrite Em in Hm.
  destruct w as [mem fh gr ih fds nfd inb outc tr]. cbn in Hm, Hc. subst mem outc.
  unfold mamaFtMember_activate, ftActivate, multicastFt_activate, deactivate_running, mbind, M_bind. ft_run.
  rewrite Hst. ft_run. by rewrite Hst.
Qed.

Lemma activate_no_timeout_timer w m ip st : idle w m -> status_ok st = false ->
  outcomes w = [MAMA_STATUS_OK; MAMA_STATUS_OK; MAMA_STATUS_OK; MAMA_STATUS_OK; st] ->
  mamaFtMember_activate true ip w =
    Ok (st, set_outcomes [] (set_gReadHandler true (set_ioHandlers (ioHandlers w + 1)
      (set_member (Some (half_active m ip)) w)))).
Proof.
  intros I Hst Hc. pose proof (idle_eta w m I) as Em. destruct I as (Hm & Hty & _).
  unfold half_active. rewrite Hty. rewrite Em in Hm.
  destruct w as [mem fh gr ih fds nfd inb outc tr]. cbn in Hm, Hc. subst mem outc.
  unfold mamaFtMember_activate, ftActivate, multicastFt_activate, deactivate_running, mbind, M_bind. ft_run.
  rewrite Hst. done.
Qed.

Lemma destroy_idle w m : idle w m -> mamaFtMember_destroy true w = Ok (MAMA_STATUS_OK,
  set_member None (set_member (Some (stopped m)) w)).
Proof.
  intros I. pose proof (idle_eta w m I) as Em. destruct I as (Hm & Hty & _). unfold stopped. rewrite Hty.
  rewrite Em in Hm.
  destruct w as [mem fh gr ih fds nfd inb outc tr]. cbn in Hm. subst mem.
  unfold mamaFtMember_destroy, mamaFtMember_deactivate, ftDeactivate, multicastFt_deactivate, mbind, M_bind. ft_run. done.
Qed.

Lemma destroy_half_active w m ip : member w = Some (half_active m ip) -> ftType m = Some MAMA_FT_TYPE_MULTICAST ->
  mamaFtMember_destroy true w = Fail InvalidDeref.
Proof.
  unfold half_active. intros Hm Hty. rewrite Hty in Hm.
  destruct w as [mem fh gr ih fds nfd inb outc tr]. cbn in Hm. subst mem.
  unfold mamaFtMember_destroy, mamaFtMember_deactivate, ftDeactivate, multicastFt_deactivate, mbind, M_bind. ft_run.
  by destruct outc.
Qed.

(** a failed activation is not undone.  If the heartbeat timer of a
    multicast member cannot be made, [mamaFtMember_activate] reports it but
    leaves the read handler registered, also after [mamaFtMember_destroy] has
    freed the member the handler points to.  If the bridge refuses to start the
    timeout timer, the member keeps a pointer to the freed timer, and
    [mamaFtMember_destroy] follows it. *)
Theorem failed_activation_not_undone w m ip st :
  idle w m -> status_ok st = false ->
  let run := mamaFtMember_activate true ip in
  (outcomes w = [MAMA_STATUS_OK; st] -> exists w1 w2, run w = Ok (st, w1) /\
    mamaFtMember_destroy true w1 = Ok (MAMA_STATUS_OK, w2) /\ member w2 = None /\ ioHandlers w2 = ioHandlers w + 1) /\
  (outcomes w = [MAMA_STATUS_OK; MAMA_STATUS_OK; MAMA_STATUS_OK; MAMA_STATUS_OK; st] -> exists w1,
    run w = Ok (st, w1) /\ mamaFtMember_destroy true w1 = Fail InvalidDeref).
Proof.
  intros I Hst run. split; intros Hc.
  - eexists _, _. split; [by apply (activate_no_heartbeat_timer w m)|].
    split; [by apply (destroy_idle _ m)|done].
  - eexists. split; [by apply (activate_no_timeout_timer w m)|].
    apply (destroy_half_active _ m ip); [done|by destruct I as (_ & Hty & _)].
Qed.

Definition idle_member : mamaFtMemberImpl :=
  mkMember (Some "g"%string) 1 0 0 false false TimerNull TimerNull 0 None None MAMA_FT_STATE_UNKNOWN 3 4 5 6 20
    (Some MAMA_FT_TYPE_MULTICAST).

Lemma failed_activation_not_undone_witness :
  let w := set_member (Some idle_member) (blank_world [MAMA_STATUS_OK; MAMA_STATUS_NOMEM]) in
  exists w1 w2, mamaFtMember_activate true 9 w = Ok (MAMA_STATUS_NOMEM, w1) /\
    mamaFtMember_destroy true w1 = Ok (MAMA_STATUS_OK, w2) /\ member w2 = None /\ ioHandlers w2 = ioHandlers w + 1.
Proof.
  intros w. apply (failed_activation_not_undone w idle_member 9 MAMA_STATUS_NOMEM); [by repeat split|reflexivity..].
Defined.
