(* ===== verification/MRSWLock.v ===== *)
(** * The multiple-reader single-writer lock (common/c_cpp/src/c/MRSWLock.c)

    The lock as threads see it: every access of the C code to the mutex, the
    semaphore and the counters is a step of its own, and the steps of any
    number of threads interleave.  [point] names the program points of
    [MRSWLock_acquire], [MRSWLock_release] and [MRSWLock_getWriteThreadId]
    before each access, [exec] is the code from one point to the next, and
    [step] lets one thread begin a call or run on.  The recursive mutex is the
    [wLock] of wlock.c, the semaphore that of linux/wSemaphore.c. *)

From S2P Require Import Prelude.

Module Mrsw.

Inductive MRSW_RESULT : Type :=
| MRSW_S_OK
| MRSW_E_INVALIDARG
| MRSW_E_OUTOFMEMORY
| MRSW_E_SYSTEM.

(** ** The lock's memory

    The mutex is the thread that owns it and how often it locked it. *)
Record MRSWLock : Type := mkMRSW {
  m_numberReaders : Z;
  m_numberWriters : Z;
  m_noLocksEvent : Z;
  m_mutex : option (Z * Z);
  m_writeThreadId : Z;
}.

Definition set_readers (v : Z) (s : MRSWLock) : MRSWLock :=
  mkMRSW v (m_numberWriters s) (m_noLocksEvent s) (m_mutex s) (m_writeThreadId s).
Definition set_writers (v : Z) (s : MRSWLock) : MRSWLock :=
  mkMRSW (m_numberReaders s) v (m_noLocksEvent s) (m_mutex s) (m_writeThreadId s).
Definition set_event (v : Z) (s : MRSWLock) : MRSWLock :=
  mkMRSW (m_numberReaders s) (m_numberWriters s) v (m_mutex s) (m_writeThreadId s).
Definition set_mutex (v : option (Z * Z)) (s : MRSWLock) : MRSWLock :=
  mkMRSW (m_numberReaders s) (m_numberWriters s) (m_noLocksEvent s) v (m_writeThreadId s).
Definition set_writeThreadId (v : Z) (s : MRSWLock) : MRSWLock :=
  mkMRSW (m_numberReaders s) (m_numberWriters s) (m_noLocksEvent s) (m_mutex s) v.

(** ** The primitives

    [None]: the thread blocks. *)

Definition wlock_lock (t : Z) (s : MRSWLock) : option MRSWLock :=
  match m_mutex s with
  | None => Some (set_mutex (Some (t, 1)) s)
  | Some (o, d) => if o =? t then Some (set_mutex (Some (o, d + 1)) s) else None
  end.

(** A recursive mutex refuses to be unlocked by a thread that does not own it;
    the code ignores the result. *)
Definition wlock_unlock (t : Z) (s : MRSWLock) : MRSWLock :=
  match m_mutex s with
  | None => s
  | Some (o, d) =>
      if o =? t then set_mutex (if d =? 1 then None else Some (o, d - 1)) s else s
  end.

Definition wsem_post (s : MRSWLock) : MRSWLock := set_event (m_noLocksEvent s + 1) s.

(** [wsem_wait] returns with a token, or without one when a signal interrupts
    it; the code does not look at the result. *)
Definition wsem_wait (s : MRSWLock) : list MRSWLock :=
  s :: (if 0 <? m_noLocksEvent s then [set_event (m_noLocksEvent s - 1) s] else []).

(** [wsem_timedwait] with a timeout of 0 takes a token if there is one; it
    returns at once without one when [gettimeofday] fails. *)
Definition wsem_timedwait_0 (s : MRSWLock) : list MRSWLock :=
  s :: (if 0 <? m_noLocksEvent s then [set_event (m_noLocksEvent s - 1) s] else []).

(** ** Creation and destruction *)

Definition calloc_lock : MRSWLock := mkMRSW 0 0 0 None 0.

(** The result code of [MRSWLock_free]; [destroyed] is the result of
    [wsem_destroy]. *)
Definition MRSWLock_free (destroyed : Z) (lock : option MRSWLock) : MRSW_RESULT :=
  match lock with
  | None => MRSW_E_INVALIDARG
  | Some _ => if destroyed =? 0 then MRSW_S_OK else MRSW_E_SYSTEM
  end.

(** [out] is whether the caller passed a place for the lock, the other
    arguments whether calloc, [wsem_init] and [wlock_create] succeed.  The
    second component is what is written to that place. *)
Definition MRSWLock_create (out alloc sem mutex : bool) : MRSW_RESULT * option (option MRSWLock) :=
  if negb out then (MRSW_E_INVALIDARG, None)
  else if alloc && sem && mutex then (MRSW_S_OK, Some (Some (wsem_post calloc_lock)))
  else (MRSW_E_OUTOFMEMORY, Some None).

(** ** The code of the calls, point by point *)

Inductive point : Type :=
(* MRSWLock_acquire (lock, 0) *)
| GetId_lock                      (* MRSWLock_getWriteThreadId: wlock_lock *)
| GetId_read                      (* ret = lock->m_writeThreadId *)
| GetId_unlock (ret : Z)          (* wlock_unlock; currentThreadId == ret ? *)
| Again_lock                      (* wlock_lock *)
| Again_count                     (* lock->m_numberWriters ++ *)
| Again_unlock                    (* wlock_unlock *)
| Write_wait                      (* wsem_wait *)
| Write_lock                      (* wlock_lock *)
| Write_check                     (* 0 == lock->m_numberReaders *)
| Write_retry                     (* wlock_unlock, back to the while *)
| Write_setId                     (* lock->m_writeThreadId = currentThreadId *)
(* MRSWLock_acquire (lock, 1) *)
| Read_lock                       (* wlock_lock *)
| Read_reset                      (* if no readers: wsem_timedwait (.., 0) *)
| Read_count                      (* lock->m_numberReaders ++ *)
| Read_unlock                     (* wlock_unlock *)
(* MRSWLock_release (lock, 0) *)
| Unwrite_lock                    (* wlock_lock *)
| Unwrite_check                   (* lock->m_numberWriters > 0 *)
| Unwrite_count                   (* lock->m_numberWriters -- *)
| Unwrite_first                   (* wlock_unlock of the acquire's lock *)
| Unwrite_setId                   (* lock->m_writeThreadId = 0 *)
| Unwrite_post                    (* wsem_post *)
| Unwrite_unlock (full : bool)    (* the last wlock_unlock *)
(* MRSWLock_release (lock, 1) *)
| Unread_lock                     (* wlock_lock *)
| Unread_count                    (* lock->m_numberReaders -- *)
| Unread_check                    (* if no readers: wsem_post *)
| Unread_unlock.                  (* wlock_unlock *)

(** Where the code goes on: at a point, or back to the caller, which then holds
    one more lock of the kind given (a read lock is [true]). *)
Inductive next : Type :=
| Goto (p : point)
| Return (granted : option bool).

Definition if_locked (t : Z) (s : MRSWLock) (n : next) : list (MRSWLock * next) :=
  match wlock_lock t s with Some s' => [(s', n)] | None => [] end.

Definition MRSWLock_getWriteThreadId (t : Z) (s : MRSWLock) (p : point) : list (MRSWLock * next) :=
  match p with
  | GetId_lock => if_locked t s (Goto GetId_read)
  | GetId_read => [(s, Goto (GetId_unlock (m_writeThreadId s)))]
  | GetId_unlock ret => [(wlock_unlock t s, Goto (if t =? ret then Again_lock else Write_wait))]
  | _ => []
  end.

Definition acquire_write (t : Z) (s : MRSWLock) (p : point) : list (MRSWLock * next) :=
  match p with
  | Again_lock => if_locked t s (Goto Again_count)
  | Again_count => [(set_writers (m_numberWriters s + 1) s, Goto Again_unlock)]
  | Again_unlock => [(wlock_unlock t s, Return (Some false))]
  | Write_wait => (fun s' => (s', Goto Write_lock)) <$> wsem_wait s
  | Write_lock => if_locked t s (Goto Write_check)
  | Write_check => [(s, Goto (if 0 =? m_numberReaders s then Write_setId else Write_retry))]
  | Write_retry => [(wlock_unlock t s, Goto Write_wait)]
  | Write_setId => [(set_writeThreadId t s, Return (Some false))]
  | _ => []
  end.

Definition acquire_read (t : Z) (s : MRSWLock) (p : point) : list (MRSWLock * next) :=
  match p with
  | Read_lock => if_locked t s (Goto Read_reset)
  | Read_reset =>
      (fun s' => (s', Goto Read_count)) <$>
        (if m_numberReaders s =? 0 then wsem_timedwait_0 s else [s])
  | Read_count => [(set_readers (m_numberReaders s + 1) s, Goto Read_unlock)]
  | Read_unlock => [(wlock_unlock t s, Return (Some true))]
  | _ => []
  end.

Definition release_write (t : Z) (s : MRSWLock) (p : point) : list (MRSWLock * next) :=
  match p with
  | Unwrite_lock => if_locked t s (Goto Unwrite_check)
  | Unwrite_check => [(s, Goto (if 0 <? m_numberWriters s then Unwrite_count else Unwrite_first))]
  | Unwrite_count => [(set_writers (m_numberWriters s - 1) s, Goto (Unwrite_unlock false))]
  | Unwrite_first => [(wlock_unlock t s, Goto Unwrite_setId)]
  | Unwrite_setId => [(set_writeThreadId 0 s, Goto Unwrite_post)]
  | Unwrite_post => [(wsem_post s, Goto (Unwrite_unlock true))]
  | Unwrite_unlock _ => [(wlock_unlock t s, Return None)]
  | _ => []
  end.

Definition release_read (t : Z) (s : MRSWLock) (p : point) : list (MRSWLock * next) :=
  match p with
  | Unread_lock => if_locked t s (Goto Unread_count)
  | Unread_count => [(set_readers (m_numberReaders s - 1) s, Goto Unread_check)]
  | Unread_check => [(if m_numberReaders s =? 0 then wsem_post s else s, Goto Unread_unlock)]
  | Unread_unlock => [(wlock_unlock t s, Return None)]
  | _ => []
  end.

Definition exec (t : Z) (s : MRSWLock) (p : point) : list (MRSWLock * next) :=
  MRSWLock_getWriteThreadId t s p ++ acquire_write t s p ++ acquire_read t s p ++
  release_write t s p ++ release_read t s p.

(** [MRSWLock_acquire] and [MRSWLock_release] begin at these points. *)
Definition MRSWLock_acquire (read : bool) : point := if read then Read_lock else GetId_lock.
Definition MRSWLock_release (read : bool) : point := if read then Unread_lock else Unwrite_lock.

(** ** Threads *)

Inductive call : Type :=
| Acquire (read : bool)
| Release (read : bool)
| Upgrade
| Downgrade.

(** A thread is outside the lock's code or at a point of it, with the acquire
    that an upgrade or a downgrade still has to make; [reads] and [writes] count
    the locks it was granted and has not begun to give back. *)
Record thread : Type := mkThread {
  pc : option point;
  still : option bool;
  reads : Z;
  writes : Z;
}.

(** Begin a call: the release gives the lock back.  A client only releases what
    it holds. *)
Definition release_of (read : bool) (k : option bool) (th : thread) : thread :=
  mkThread (Some (MRSWLock_release read)) k
    (if read then reads th - 1 else reads th) (if read then writes th else writes th - 1).

Definition MRSWLock_upgrade (th : thread) : thread := release_of true (Some false) th.
Definition MRSWLock_downgrade (th : thread) : thread := release_of false (Some true) th.

Definition start (c : call) (th : thread) : thread :=
  match c with
  | Acquire read => mkThread (Some (MRSWLock_acquire read)) None (reads th) (writes th)
  | Release read => release_of read None th
  | Upgrade => MRSWLock_upgrade th
  | Downgrade => MRSWLock_downgrade th
  end.

Definition may_call (c : call) (th : thread) : bool :=
  match c with
  | Acquire _ => true
  | Release true | Upgrade => 0 <? reads th
  | Release false | Downgrade => 0 <? writes th
  end.

Definition continue (n : next) (th : thread) : thread :=
  match n with
  | Goto p => mkThread (Some p) (still th) (reads th) (writes th)
  | Return (Some true) => mkThread None None (reads th + 1) (writes th)
  | Return (Some false) => mkThread None None (reads th) (writes th + 1)
  | Return None =>
      mkThread (MRSWLock_acquire <$> still th) None (reads th) (writes th)
  end.

Definition idle : thread := mkThread None None 0 0.

(** Threads are named by their position, the identifiers are distinct and none
    is 0. *)
Definition tid (i : nat) : Z := Z.of_nat i + 1.

Definition conf : Type := MRSWLock * list thread.

Inductive step : conf -> conf -> Prop :=
| step_call s ths i th c :
    ths !! i = Some th -> pc th = None -> may_call c th = true ->
    step (s, ths) (s, <[i := start c th]> ths)
| step_run s ths i th p s' n :
    ths !! i = Some th -> pc th = Some p -> (s', n) ∈ exec (tid i) s p ->
    step (s, ths) (s', <[i := continue n th]> ths).

(** The executable counterpart: a schedule says which thread moves next, and
    how: it begins a call, or the code runs to the next point with the given
    outcome of those [exec] lists. *)
Inductive move : Type :=
| Begin (c : call)
| Run (outcome : nat).

Definition run_move (i : nat) (m : move) (c : conf) : option conf :=
  th ← c.2 !! i;
  match m, pc th with
  | Begin cl, None => if may_call cl th then Some (c.1, <[i := start cl th]> c.2) else None
  | Run k, Some p => '(s', n) ← exec (tid i) c.1 p !! k; Some (s', <[i := continue n th]> c.2)
  | _, _ => None
  end.

Fixpoint run_schedule (l : list (nat * move)) (c : conf) : option conf :=
  match l with
  | [] => Some c
  | (i, m) :: l' => c' ← run_move i m c; run_schedule l' c'
  end.

(** A created lock with [k] threads that have not called it yet. *)
Definition created (k : nat) : conf := (wsem_post calloc_lock, replicate k idle).

Definition reachable (k : nat) (c : conf) : Prop := rtc step (created k) c.

End Mrsw.
