(* ===== verification/MRSWInv.v ===== *)
(** * The multiple-reader single-writer lock: its invariant

    What a thread holds at each point of the code, the invariant that ties the
    memory of the lock to it, and that a step of the running thread keeps its
    own part of the invariant. *)

From S2P Require Import Prelude MRSWLock.
Import Mrsw.

(** ** What a thread holds, by the point it is at *)

(** Levels of the mutex held by the code at a point, beyond the one a write
    lock keeps. *)
Definition levels (p : point) : Z :=
  match p with
  | GetId_read | GetId_unlock _ | Again_count | Again_unlock
  | Write_check | Write_retry | Write_setId | Read_reset | Read_count | Read_unlock
  | Unwrite_check | Unwrite_count | Unwrite_first | Unwrite_unlock false
  | Unread_count | Unread_check | Unread_unlock => 1
  | _ => 0
  end.

(** The write lock being given back at a point. *)
Definition leaving (p : point) : Z :=
  match p with
  | Unwrite_lock | Unwrite_check | Unwrite_count | Unwrite_first | Unwrite_setId
  | Unwrite_post | Unwrite_unlock true => 1
  | _ => 0
  end.

(** What [m_numberWriters] counts of the call under way. *)
Definition nested (p : point) : Z :=
  match p with Again_unlock => 1 | _ => leaving p end.

(** What [m_numberReaders] counts of the call under way. *)
Definition reading (p : point) : Z :=
  match p with Read_unlock | Unread_lock | Unread_count => 1 | _ => 0 end.

(** Tokens the code at a point took or is about to post. *)
Definition token (p : point) : Z :=
  match p with Write_lock | Write_check | Write_setId | Read_count | Unread_check => 1 | _ => 0 end.

Definition at_pc (f : point -> Z) (th : thread) : Z := from_option f 0 (pc th).

(** 1 for the thread that has the write lock, 0 for the others. *)
Definition owner (th : thread) : Z := if 0 <? writes th + at_pc leaving th then 1 else 0.

Definition depth (th : thread) : Z := at_pc levels th + owner th.

(** The thread that has the write lock and has not posted the token yet. *)
Definition withholds (th : thread) : Z :=
  match pc th with Some (Unwrite_unlock true) => 0 | _ => owner th end.

Definition names_writer (th : thread) : Z :=
  match pc th with Some Unwrite_post | Some (Unwrite_unlock true) => 0 | _ => owner th end.

Definition mutex_depth (t : Z) (s : MRSWLock) : Z :=
  match m_mutex s with Some (o, d) => if o =? t then d else 0 | None => 0 end.

(** The facts that belong to the point a thread is at. *)
Definition local_ok (s : MRSWLock) (th : thread) (p : point) : Prop :=
  match p with
  | GetId_unlock v => v = m_writeThreadId s
  | Again_lock | Again_count | Again_unlock => 0 < writes th
  | Write_wait | Write_lock | Write_check => writes th = 0
  | Write_retry => writes th = 0 /\ m_numberReaders s <> 0
  | Write_setId => writes th = 0 /\ m_numberReaders s = 0 /\ reads th = 0
  | Unwrite_count => 0 < m_numberWriters s
  | Unwrite_first | Unwrite_setId | Unwrite_post | Unwrite_unlock true => m_numberWriters s = 0
  | Unwrite_unlock false => 0 < writes th
  | _ => True
  end.

Record thread_ok (s : MRSWLock) (t : Z) (th : thread) : Prop := mkThreadOk {
  ok_reads : 0 <= reads th;
  ok_writes : 0 <= writes th;
  ok_mutex : mutex_depth t s = depth th;
  ok_name : m_writeThreadId s = t <-> names_writer th = 1;
  ok_alone : owner th = 1 -> m_numberReaders s = reads th + at_pc reading th;
  ok_nested : owner th = 1 -> m_numberWriters s + 1 = writes th + at_pc nested th;
  ok_local : forall p, pc th = Some p -> local_ok s th p;
}.

(** Sums over the threads. *)
Fixpoint total (f : thread -> Z) (ths : list thread) : Z :=
  match ths with [] => 0 | th :: ths' => f th + total f ths' end.

Definition has_read (th : thread) : Z := reads th + at_pc reading th.

Record invariant (c : conf) : Prop := mkInvariant {
  inv_threads : forall i th, c.2 !! i = Some th -> thread_ok c.1 (tid i) th;
  inv_mutex : match m_mutex c.1 with
              | None => True
              | Some (o, d) => 1 <= d /\ exists i th, c.2 !! i = Some th /\ o = tid i
              end;
  inv_event : 0 <= m_noLocksEvent c.1;
  inv_readers : m_numberReaders c.1 = total has_read c.2;
  inv_writers : total owner c.2 = 0 -> m_numberWriters c.1 = 0;
  inv_token : m_numberReaders c.1 = 0 -> total withholds c.2 = 0 ->
              1 <= m_noLocksEvent c.1 + total (at_pc token) c.2;
}.

(** ** Sums *)

Lemma total_insert f ths i th th' :
  ths !! i = Some th -> total f (<[i := th']> ths) = total f ths - f th + f th'.
Proof.
  revert i. induction ths as [|x ths IH]; intros [|i] H; simplify_eq/=; [lia|].
  rewrite (IH _ H). lia.
Qed.

Lemma total_lookup_le f ths i th :
  (forall x, x ∈ ths -> 0 <= f x) -> ths !! i = Some th -> f th <= total f ths.
Proof.
  revert i. induction ths as [|x ths IH]; intros [|i] Hf H; simplify_eq/=.
  - assert (0 <= total f ths); [|lia].
    clear IH. induction ths as [|y ths IH]; [done|]. cbn.
    specialize (IH ltac:(set_solver)). pose proof (Hf y ltac:(set_solver)). lia.
  - pose proof (IH i ltac:(set_solver) H). pose proof (Hf x ltac:(set_solver)). lia.
Qed.

Lemma total_two_le f ths i j a b :
  (forall x, x ∈ ths -> 0 <= f x) -> ths !! i = Some a -> ths !! j = Some b -> i <> j ->
  f a + f b <= total f ths.
Proof.
  revert i j. induction ths as [|x ths IH]; intros [|i] [|j] Hf Ha Hb Hij; simplify_eq/=.
  - pose proof (total_lookup_le f ths j b ltac:(set_solver) Hb). lia.
  - pose proof (total_lookup_le f ths i a ltac:(set_solver) Ha). lia.
  - pose proof (IH i j ltac:(set_solver) Ha Hb ltac:(lia)). pose proof (Hf x ltac:(set_solver)). lia.
Qed.

Lemma total_zero f ths :
  (forall x, x ∈ ths -> f x = 0) -> total f ths = 0.
Proof. induction ths as [|x ths IH]; intros H; cbn; [done|]. rewrite H, IH by set_solver. lia. Qed.

(** ** Threads that do not run *)

Lemma levels_nonneg p : 0 <= levels p.
Proof. destruct p as [| | | | | | | | | | | | | | | | | | | | |[]| | | |]; cbn; lia. Qed.

Lemma at_pc_nonneg f th : (forall p, 0 <= f p) -> 0 <= at_pc f th.
Proof. intros H. unfold at_pc. destruct (pc th); cbn; [apply H|lia]. Qed.

Lemma owner_cases th : owner th = 0 \/ owner th = 1.
Proof. unfold owner. destruct (_ <? _); lia. Qed.

Lemma depth_zero th : depth th = 0 -> at_pc levels th = 0 /\ owner th = 0.
Proof.
  unfold depth. pose proof (at_pc_nonneg levels th levels_nonneg). pose proof (owner_cases th). lia.
Qed.

Lemma names_writer_owner th : owner th = 0 -> names_writer th = 0.
Proof. unfold names_writer. intros ->. by destruct (pc th) as [[]|]; try case_match. Qed.

(** A thread without the mutex knows nothing that another one can change. *)
Lemma thread_ok_other s s' t th :
  thread_ok s t th -> depth th = 0 -> mutex_depth t s' = 0 -> m_writeThreadId s' <> t ->
  thread_ok s' t th.
Proof.
  intros [? ? ? ? ? ? Hlo] Hd Hm Hw. destruct (depth_zero _ Hd) as [Hl Ho].
  pose proof (names_writer_owner _ Ho). split; try done; try lia.
  intros p Hp. specialize (Hlo p Hp). unfold owner, at_pc in Hl, Ho. rewrite Hp in Hl, Ho.
  destruct (Z.ltb_spec 0 (writes th + from_option leaving 0 (Some p))) as [|Hle]; [done|].
  destruct p as [| | | | | | | | | | | | | | | | | | | | |[]| | | |]; cbn in *; done || lia.
Qed.

Lemma thread_ok_event s v t th : thread_ok s t th -> thread_ok (set_event v s) t th.
Proof. intros []. by split. Qed.

(** ** The thread that runs *)

Lemma if_locked_in t s n x :
  x ∈ if_locked t s n ->
  x = (set_mutex (Some (t, 1)) s, n) /\ m_mutex s = None \/
  exists d, x = (set_mutex (Some (t, d + 1)) s, n) /\ m_mutex s = Some (t, d).
Proof.
  unfold if_locked, wlock_lock. destruct (m_mutex s) as [[o d]|].
  - destruct (Z.eqb_spec o t) as [->|]; cbn; [|by rewrite elem_of_nil].
    rewrite list_elem_of_singleton. eauto.
  - cbn. rewrite list_elem_of_singleton. eauto.
Qed.

(** Split a step into the outcomes of the code at its point. *)
Ltac exec_cases H :=
  unfold exec in H; cbn in H; rewrite ?app_nil_r in H;
  first
    [ apply if_locked_in in H as [[H ?]|(? & H & ?)]
    | repeat match type of H with
      | context [if ?b then _ else _] => destruct b eqn:?; cbn in H
      end;
      repeat rewrite elem_of_cons in H; rewrite ?elem_of_nil in H; destruct_or? H; try done ];
  apply pair_equal_spec in H as [-> ->].

Ltac split_ifs :=
  repeat match goal with
  | |- context [if ?b then _ else _] => destruct b eqn:?
  | H : context [if ?b then _ else _] |- _ => destruct b eqn:?
  end.

Lemma run_self s t th p s' n :
  0 < t -> thread_ok s t th -> has_read th <= m_numberReaders s ->
  (owner th = 0 -> 1 <= depth th -> m_numberWriters s = 0) ->
  pc th = Some p -> (s', n) ∈ exec t s p -> thread_ok s' t (continue n th).
Proof.
  intros Ht [? ? ? ? ? ? Hlo] Hr Hw Hp H. destruct th as [pc0 st r w]. cbn in Hp. subst pc0.
  specialize (Hlo p eq_refl). destruct s as [rd wr ev mx id].
  unfold has_read, owner, names_writer, depth, at_pc, mutex_depth, owner, at_pc in *. cbn in *.
  destruct p; exec_cases H.
  all: unfold wlock_unlock, wsem_post, set_readers, set_writers, set_event, set_mutex, set_writeThreadId; cbn in *;
    try destruct mx as [[o d]|]; cbn in *.
  all: split; unfold has_read, owner, names_writer, depth, at_pc, mutex_depth, owner, at_pc; cbn.
  all: try (intros p Hp; cbn in Hp); try destruct st as [[]|]; cbn; simplify_eq/=.
  all: split_ifs; cbn in *; split_ifs; try destruct rd; lia.
Qed.

(** ** The other threads *)

Section Step.
  Context (s : MRSWLock) (ths : list thread).
  Hypothesis I : invariant (s, ths).

Lemma thread_at i th : ths !! i = Some th -> thread_ok s (tid i) th.
Proof. apply (inv_threads _ I). Qed.

Lemma has_read_nonneg th : th ∈ ths -> 0 <= has_read th.
Proof.
  intros [i Hi]%list_elem_of_lookup. destruct (thread_at i th Hi).
  unfold has_read. pose proof (at_pc_nonneg reading th ltac:(by intros [])). lia.
Qed.

Lemma has_read_le i th : ths !! i = Some th -> has_read th <= m_numberReaders s.
Proof.
  intros Hi. pose proof (inv_readers _ I) as E. cbn in E. rewrite E.
  apply (total_lookup_le _ _ i); [apply has_read_nonneg|done].
Qed.

(** While a thread has the mutex, nobody else has it. *)
Lemma mutex_excludes i th j th' :
  ths !! i = Some th -> 1 <= depth th -> ths !! j = Some th' -> j <> i ->
  depth th' = 0 /\ m_mutex s = Some (tid i, depth th).
Proof.
  intros Hi Hd Hj Hij. pose proof (ok_mutex _ _ _ (thread_at i th Hi)) as E1.
  pose proof (ok_mutex _ _ _ (thread_at j th' Hj)) as E2. unfold mutex_depth, tid in *.
  destruct (m_mutex s) as [[o d]|]; [|lia].
  destruct (Z.eqb_spec o (Z.of_nat i + 1)); [|lia].
  destruct (Z.eqb_spec o (Z.of_nat j + 1)); [lia|]. split; [lia|congruence].
Qed.

Lemma alone_total f i th :
  (forall x, depth x = 0 -> f x = 0) ->
  ths !! i = Some th -> 1 <= depth th -> total f ths = f th.
Proof.
  intros Hf Hi Hd. pose proof (total_insert f ths i th idle Hi) as E.
  assert (f idle = 0) by by apply Hf.
  rewrite total_zero in E; [lia|]. intros x [j Hj]%list_elem_of_lookup.
  destruct (decide (j = i)) as [->|Hij].
  - rewrite list_lookup_insert_eq in Hj by (by eapply lookup_lt_Some). by simplify_eq.
  - rewrite list_lookup_insert_ne in Hj by done. apply Hf. by apply (mutex_excludes i th j x).
Qed.

Lemma no_owner_no_writers i th :
  ths !! i = Some th -> owner th = 0 -> 1 <= depth th -> m_numberWriters s = 0.
Proof.
  intros Hi Ho Hd. apply (inv_writers _ I). cbn.
  rewrite (alone_total owner i th); [done| |done|done]. intros x Hx. by apply depth_zero.
Qed.

End Step.
