(* ===== verification/MRSWProps.v ===== *)
(** * The multiple-reader single-writer lock: exclusion and wake-up

    The invariant holds in every configuration that any number of threads can
    reach (by induction over [step]); a writer excludes everybody else, and the
    token a waiting writer needs is never lost. *)

From S2P Require Import Prelude MRSWLock MRSWInv.
Import Mrsw.

(** ** What a step of one thread does to the shared memory *)

Ltac exec_all p H :=
  destruct p; exec_cases H;
  unfold wlock_unlock, wsem_post, set_readers, set_writers, set_event, set_mutex, set_writeThreadId in *;
  cbn in *.

Lemma exec_mutex t s p s' n :
  (s', n) ∈ exec t s p ->
  (forall o d, m_mutex s = Some (o, d) -> 1 <= d) ->
  (forall j, j <> t -> mutex_depth j s' = mutex_depth j s) /\
  (m_writeThreadId s' = m_writeThreadId s \/ m_writeThreadId s' = t \/ m_writeThreadId s' = 0) /\
  (forall o d, m_mutex s' = Some (o, d) -> 1 <= d /\ (o = t \/ exists d', m_mutex s = Some (o, d'))) /\
  ((exists v m, s' = set_event v (set_mutex m s)) \/ 1 <= levels p + leaving p).
Proof.
  intros H Hd. destruct s as [rd wr ev mx id]. unfold mutex_depth.
  exec_all p H; try destruct mx as [[o d]|]; cbn in *.
  all: try specialize (Hd _ _ eq_refl).
  all: split_ifs; refine (conj _ (conj _ (conj _ _))).
  all: cbn; intros; simplify_eq/=; split_ifs; try lia; naive_solver lia.
Qed.

Ltac unfold_thread :=
  unfold has_read, withholds, owner, names_writer, depth, mutex_depth, owner, at_pc in *; cbn in *.

Lemma exec_readers t s th p s' n :
  pc th = Some p -> (s', n) ∈ exec t s p ->
  m_numberReaders s' = m_numberReaders s - has_read th + has_read (continue n th).
Proof.
  intros Hp H. destruct th as [pc0 st r w], s as [rd wr ev mx id]. cbn in Hp. subst pc0. unfold_thread.
  exec_all p H; try destruct mx as [[o d]|]; try destruct st as [[]|]; cbn; split_ifs; cbn; lia.
Qed.

Lemma exec_writers t s th p s' n :
  thread_ok s t th -> pc th = Some p -> (s', n) ∈ exec t s p -> owner (continue n th) = 0 ->
  m_numberWriters s' = if owner th =? 0 then m_numberWriters s else 0.
Proof.
  intros [Hr0 Hw0 Hm0 Hn0 Ha0 Hc0 Hl0] Hp H Ho. destruct th as [pc0 st r w], s as [rd wr ev mx id]. cbn in Hp. subst pc0.
  specialize (Hl0 p eq_refl). clear Hm0 Hn0 Ha0. unfold_thread.
  exec_all p H; try destruct mx as [[o d]|]; try destruct st as [[]|]; cbn in *; split_ifs; cbn in *; lia.
Qed.

Lemma exec_event t s th p s' n :
  thread_ok s t th -> has_read th <= m_numberReaders s -> 0 <= m_noLocksEvent s ->
  pc th = Some p -> (s', n) ∈ exec t s p ->
  0 <= m_noLocksEvent s' /\
  (m_numberReaders s' = 0 -> withholds (continue n th) = 0 ->
   (m_numberReaders s = 0 /\ withholds th = 0 /\
    m_noLocksEvent s + at_pc token th <= m_noLocksEvent s' + at_pc token (continue n th)) \/
   1 <= m_noLocksEvent s' + at_pc token (continue n th)).
Proof.
  intros [Hr0 Hw0 Hm0 Hn0 Ha0 Hc0 Hl0] Hr He Hp H. destruct th as [pc0 st r w], s as [rd wr ev mx id]. cbn in Hp. subst pc0.
  specialize (Hl0 p eq_refl). clear Hm0 Hn0 Ha0. unfold_thread.
  exec_all p H; try destruct mx as [[o d]|]; try destruct st as [[]|]; cbn in *; split_ifs; cbn in *;
   try destruct rd; lia.
Qed.

(** ** The invariant is kept *)

Lemma tid_pos i : 0 < tid i.
Proof. unfold tid. lia. Qed.

Lemma leaving_nonneg p : 0 <= leaving p.
Proof. destruct p as [| | | | | | | | | | | | | | | | | | | | |[]| | | |]; cbn; lia. Qed.

Lemma owner_nonneg th : 0 <= owner th.
Proof. pose proof (owner_cases th). lia. Qed.

Lemma withholds_nonneg th : 0 <= withholds th.
Proof. pose proof (owner_nonneg th). unfold withholds. repeat case_match; lia. Qed.

Lemma token_nonneg th : 0 <= at_pc token th.
Proof. apply at_pc_nonneg. by intros []. Qed.

Lemma depth_ge th p : pc th = Some p -> 0 <= writes th -> levels p + leaving p <= depth th.
Proof.
  intros Hp Hw. unfold depth, owner, at_pc. rewrite Hp. cbn.
  pose proof (levels_nonneg p). destruct (Z.ltb_spec 0 (writes th + leaving p)); destruct p; cbn in *;
    try case_match; lia.
Qed.

Lemma run_others s ths i th p s' n j th' :
  invariant (s, ths) -> ths !! i = Some th -> pc th = Some p -> (s', n) ∈ exec (tid i) s p ->
  ths !! j = Some th' -> j <> i -> thread_ok s' (tid j) th'.
Proof.
  intros I Hi Hp H Hj Hij. pose proof (thread_at _ _ I j th' Hj) as K.
  assert (tid j <> tid i) as Ht by (unfold tid; lia). pose proof (tid_pos j).
  destruct (exec_mutex _ _ _ _ _ H) as (Hm & Hw & _ & Hc).
  { intros o d E. pose proof (inv_mutex _ I) as Hx. cbn in Hx. rewrite E in Hx. lia. }
  specialize (Hm _ Ht). destruct Hc as [(v & m & ->)|Hc].
  - destruct K. split; try done. by rewrite Hm.
  - pose proof (depth_ge th p Hp (ok_writes _ _ _ (thread_at _ _ I i th Hi))).
    destruct (mutex_excludes _ _ I i th j th') as [Hd _]; [done|lia|done|done|].
    apply (thread_ok_other s); [done|done| |].
    + rewrite Hm. by rewrite (ok_mutex _ _ _ K).
    + destruct Hw as [->|[->| ->]]; [|congruence|lia].
      rewrite (ok_name _ _ _ K). rewrite names_writer_owner; [done|]. by apply depth_zero.
Qed.

Lemma invariant_run s ths i th p s' n :
  invariant (s, ths) -> ths !! i = Some th -> pc th = Some p -> (s', n) ∈ exec (tid i) s p ->
  invariant (s', <[i := continue n th]> ths).
Proof.
  intros I Hi Hp H. pose proof (thread_at _ _ I i th Hi) as K.
  pose proof (has_read_le _ _ I i th Hi) as Hr. pose proof (lookup_lt_Some _ _ _ Hi) as Hlt.
  pose proof (run_self s (tid i) th p s' n (tid_pos i) K Hr (no_owner_no_writers _ _ I i th Hi) Hp H) as K'.
  assert (forall j x, <[i := continue n th]> ths !! j = Some x -> thread_ok s' (tid j) x) as Hth.
  { intros j x Hx. destruct (decide (j = i)) as [->|Hij].
    - rewrite list_lookup_insert_eq in Hx by done. by simplify_eq.
    - rewrite list_lookup_insert_ne in Hx by done. by apply (run_others s ths i th p s' n j x). }
  destruct (exec_event _ _ _ _ _ _ K Hr (inv_event _ I) Hp H) as [He Htok].
  pose proof (inv_readers _ I) as Erd. cbn in Erd.
  split; cbn.
  - exact Hth.
  - destruct (m_mutex s') as [[o d]|] eqn:E; [|done].
    pose proof (inv_mutex _ I) as Hx. cbn in Hx.
    destruct (exec_mutex _ _ _ _ _ H) as (_ & _ & Hm & _); [intros ? ? E'; rewrite E' in Hx; lia|].
    destruct (Hm _ _ E) as [? Ho]. split; [done|]. destruct Ho as [->|[d' Ed']].
    + exists i. eexists. by rewrite list_lookup_insert_eq.
    + rewrite Ed' in Hx. destruct Hx as (_ & j & x & Hj & ->).
      destruct (decide (j = i)) as [->|]; [exists i|exists j]; eexists;
        [by rewrite list_lookup_insert_eq|by rewrite list_lookup_insert_ne].
  - exact He.
  - rewrite (total_insert _ _ _ _ _ Hi), <- Erd. by apply (exec_readers (tid i) s th p).
  - intros Ho. pose proof (total_lookup_le owner _ i (continue n th) (fun x _ => owner_nonneg x)
      (list_lookup_insert_eq _ _ _ Hlt)). pose proof (owner_nonneg (continue n th)).
    assert (owner (continue n th) = 0) by lia.
    rewrite (exec_writers _ _ _ _ _ _ K Hp H) by lia. destruct (Z.eqb_spec (owner th) 0); [|done].
    apply (inv_writers _ I). cbn. rewrite (total_insert _ _ _ _ _ Hi) in Ho. lia.
  - intros Hz Hwh. pose proof (total_lookup_le withholds _ i (continue n th) (fun x _ => withholds_nonneg x)
      (list_lookup_insert_eq _ _ _ Hlt)). pose proof (withholds_nonneg (continue n th)).
    assert (withholds (continue n th) = 0) by lia.
    rewrite (total_insert _ _ _ _ _ Hi) in Hwh. rewrite (total_insert _ _ _ _ _ Hi).
    pose proof (total_lookup_le (at_pc token) _ i th (fun x _ => token_nonneg x) Hi).
    destruct (Htok Hz ltac:(lia)) as [(? & ? & ?)|?]; [|lia].
    pose proof (inv_token _ I) as Ht. cbn in Ht. specialize (Ht ltac:(done) ltac:(lia)). lia.
Qed.

Lemma start_ok s t th c :
  pc th = None -> may_call c th = true -> thread_ok s t th -> thread_ok s t (start c th).
Proof.
  intros Hp Hc [? ? ? ? ? ? ?]. destruct th as [pc0 st r w]. cbn in Hp. subst pc0.
  destruct c as [[]|[]| |]; cbn in Hc; (split; [..|intros p Hp; cbn in Hp; simplify_eq/=; done]);
    unfold_thread; split_ifs; lia.
Qed.

Lemma start_totals th c :
  pc th = None -> may_call c th = true -> 0 <= writes th ->
  has_read (start c th) = has_read th /\ owner (start c th) = owner th /\
  withholds (start c th) = withholds th /\ at_pc token (start c th) = at_pc token th.
Proof.
  intros Hp Hc Hw. destruct th as [pc0 st r w]. cbn in Hp. subst pc0.
  destruct c as [[]|[]| |]; cbn in Hc; unfold_thread; split_ifs; lia.
Qed.

Lemma invariant_call s ths i th c :
  invariant (s, ths) -> ths !! i = Some th -> pc th = None -> may_call c th = true ->
  invariant (s, <[i := start c th]> ths).
Proof.
  intros I Hi Hp Hc. pose proof (thread_at _ _ I i th Hi) as K. pose proof (lookup_lt_Some _ _ _ Hi) as Hlt.
  destruct (start_totals th c Hp Hc (ok_writes _ _ _ K)) as (E1 & E2 & E3 & E4).
  destruct I as [It Im Ie Ir Iw Ik]. cbn in *.
  split; cbn; rewrite ?(total_insert _ _ _ _ _ Hi), ?E1, ?E2, ?E3, ?E4, ?Z.sub_add; try done.
  - intros j x Hx. destruct (decide (j = i)) as [->|Hij].
    + rewrite list_lookup_insert_eq in Hx by done. simplify_eq. by apply start_ok.
    + rewrite list_lookup_insert_ne in Hx by done. by apply It.
  - destruct (m_mutex s) as [[o d]|]; [|done]. destruct Im as (? & j & x & Hj & ->). split; [done|].
    destruct (decide (j = i)) as [->|]; [exists i|exists j]; eexists;
      [by rewrite list_lookup_insert_eq|by rewrite list_lookup_insert_ne].
Qed.

Lemma invariant_created k : invariant (created k).
Proof.
  assert (forall f, f idle = 0 -> total f (replicate k idle) = 0) as Hz.
  { intros f Hf. apply total_zero. intros x [-> _]%elem_of_replicate. done. }
  split; cbn; try done.
  - intros i th [-> _]%lookup_replicate. pose proof (tid_pos i). split; cbn; try done; try lia.
    change (owner idle) with 0. lia.
  - by rewrite Hz.
  - intros _ _. rewrite Hz; [lia|done].
Qed.

Lemma reachable_invariant k c : reachable k c -> invariant c.
Proof.
  unfold reachable. intros H. remember (created k) as c0 eqn:E.
  assert (invariant c0) as I by (subst; apply invariant_created). clear E.
  induction H as [|c1 c2 c3 Hs _ IH]; [done|]. apply IH. destruct Hs; eauto using invariant_call, invariant_run.
Qed.

(** ** Properties *)

(** C10: The lock excludes: in every configuration that [k] threads can reach by
    acquiring, releasing, upgrading and downgrading in any interleaving (with
    waits interrupted by signals), a thread that holds the write lock is the
    only one that holds any lock, it owns the mutex, and the count of readers is
    that of its own read locks. *)
Theorem writer_excludes_all k s ths i th :
  reachable k (s, ths) -> ths !! i = Some th -> 0 < writes th ->
  mutex_depth (tid i) s >= 1 /\ m_numberReaders s = reads th + at_pc reading th /\
  forall j th', ths !! j = Some th' -> j <> i -> reads th' = 0 /\ writes th' = 0.
Proof.
  intros I%reachable_invariant Hi Hw. pose proof (thread_at _ _ I i th Hi) as K.
  assert (owner th = 1) as Ho.
  { unfold owner. pose proof (at_pc_nonneg leaving th leaving_nonneg).
    destruct (Z.ltb_spec 0 (writes th + at_pc leaving th)); lia. }
  pose proof (at_pc_nonneg levels th levels_nonneg).
  assert (1 <= depth th) as Hd by (unfold depth; lia). rewrite (ok_mutex _ _ _ K).
  split; [lia|]. split; [by apply (ok_alone _ _ _ K)|]. intros j th' Hj Hij.
  pose proof (thread_at _ _ I j th' Hj) as K'.
  destruct (mutex_excludes _ _ I i th j th' Hi Hd Hj Hij) as [[Hl' Ho']%depth_zero _].
  pose proof (total_two_le has_read ths i j th th' (has_read_nonneg _ _ I) Hi Hj ltac:(done)) as Ht.
  pose proof (inv_readers _ I) as E. cbn in E. rewrite (ok_alone _ _ _ K Ho) in E.
  pose proof (ok_reads _ _ _ K'). pose proof (ok_writes _ _ _ K').
  pose proof (at_pc_nonneg reading th' ltac:(by intros [])). 
  change (has_read th) with (reads th + at_pc reading th) in Ht.
  change (has_read th') with (reads th' + at_pc reading th') in Ht.
  split; [lia|]. unfold owner in Ho'.
  pose proof (at_pc_nonneg leaving th' leaving_nonneg).
  destruct (Z.ltb_spec 0 (writes th' + at_pc leaving th')); lia.
Qed.

(** A thread outside the lock's code, or waiting for the semaphore, that holds
    nothing. *)
Definition resting (th : thread) : bool :=
  match pc th with
  | None | Some Write_wait => (reads th =? 0) && (writes th =? 0)
  | _ => false
  end.

Lemma resting_counts th :
  resting th = true ->
  depth th = 0 /\ has_read th = 0 /\ withholds th = 0 /\ at_pc token th = 0 /\ owner th = 0.
Proof.
  unfold resting. destruct th as [pc0 st r w]. cbn.
  destruct pc0 as [[]|]; try done; intros [?%Z.eqb_eq ?%Z.eqb_eq]%andb_true_iff; by subst.
Qed.

(** When every thread rests, the lock is free and the token is there. *)
Lemma resting_free k s ths :
  reachable k (s, ths) -> forallb resting ths = true ->
  m_numberReaders s = 0 /\ 1 <= m_noLocksEvent s /\ m_mutex s = None.
Proof.
  intros I%reachable_invariant Hall.
  assert (forall x, x ∈ ths -> resting x = true) as Hrest.
  { intros x Hx. rewrite forallb_forall in Hall. apply Hall. by apply list_elem_of_In. }
  assert (forall f, (forall x, resting x = true -> f x = 0) -> total f ths = 0) as Hz.
  { intros f Hf. apply total_zero. auto. }
  assert (m_numberReaders s = 0) as Hr.
  { pose proof (inv_readers _ I) as E. cbn in E. rewrite E. apply Hz. intros x Hx. by apply resting_counts. }
  split; [done|]. split.
  - pose proof (inv_token _ I Hr) as Ht. cbn in Ht. rewrite !Hz in Ht;
      [|intros x Hx; by apply resting_counts..]. lia.
  - pose proof (inv_mutex _ I) as Hx. cbn in Hx. destruct (m_mutex s) as [[o d]|] eqn:E; [|done].
    destruct Hx as (Hd & j & x & Hj & ->). pose proof (ok_mutex _ _ _ (thread_at _ _ I j x Hj)) as Em.
    unfold mutex_depth in Em. rewrite E, Z.eqb_refl in Em.
    destruct (resting_counts x) as (D & _); [by apply Hrest, list_elem_of_lookup; eauto|]. lia.
Qed.

(** ** Schedules are executions *)

Lemma run_move_step i m c c' : run_move i m c = Some c' -> step c c'.
Proof.
  destruct c as [s ths]. unfold run_move. cbn. destruct (ths !! i) as [th|] eqn:Hi; [|done]. cbn.
  destruct m as [cl|k], (pc th) as [p|] eqn:Hp; try done.
  - destruct (may_call cl th) eqn:Hc; [|done]. intros [= <-]. by apply step_call.
  - destruct (exec (tid i) s p !! k) as [[s' n]|] eqn:He; [|done]. intros [= <-].
    apply (step_run s ths i th p); [done..|]. by apply list_elem_of_lookup_2 in He.
Qed.

Lemma run_move_run s ths i th p k s' n :
  ths !! i = Some th -> pc th = Some p -> exec (tid i) s p !! k = Some (s', n) ->
  run_move i (Run k) (s, ths) = Some (s', <[i := continue n th]> ths).
Proof. intros Hi Hp He. unfold run_move. cbn. by rewrite Hi; cbn; rewrite Hp, He. Qed.

Lemma run_schedule_steps l c c' : run_schedule l c = Some c' -> rtc step c c'.
Proof.
  revert c. induction l as [|[i m] l IH]; intros c; cbn; [by intros [= <-]|].
  destruct (run_move i m c) as [c1|] eqn:E; [|done]. cbn. intros H.
  eapply rtc_l; [by eapply run_move_step|auto].
Qed.

(** C11: No wake-up is lost: whenever the lock is free (every thread is outside
    the lock's code or waits for the semaphore, and holds nothing), the token is
    there: a waiting writer that takes it and runs on gets the write lock in
    four steps, whatever the others did before. *)
Theorem waiting_writer_gets_lock k s ths i th :
  reachable k (s, ths) -> forallb resting ths = true ->
  ths !! i = Some th -> pc th = Some Write_wait ->
  0 < m_noLocksEvent s /\
  exists s' th', run_schedule [(i, Run 1); (i, Run 0); (i, Run 0); (i, Run 0)] (s, ths) = Some (s', <[i := th']> ths) /\
    pc th' = None /\ writes th' = 1 /\ m_writeThreadId s' = tid i /\
    m_noLocksEvent s' = m_noLocksEvent s - 1.
Proof.
  intros R Hall Hi Hp. destruct (resting_free k s ths R Hall) as (Hr & He & Hm). split; [lia|].
  assert (resting th = true) as Hth.
  { rewrite forallb_forall in Hall. apply Hall. apply list_elem_of_In, list_elem_of_lookup. eauto. }
  pose proof (lookup_lt_Some _ _ _ Hi) as Hlt.
  destruct th as [pc0 st r w]. cbn in Hp. subst pc0. unfold resting in Hth. cbn in Hth.
  apply andb_true_iff in Hth as [?%Z.eqb_eq ?%Z.eqb_eq]. subst r w.
  destruct s as [rd wr ev mx id]. cbn in Hr, He, Hm. subst rd mx.
  assert (0 <? ev = true) as Hev by lia.
  eexists _, (mkThread None None 0 1). split; [|shelve]. cbn [run_schedule].
  erewrite run_move_run; [|exact Hi|done|cbn; rewrite Hev; done]. cbn [mbind option_bind].
  do 3 (erewrite run_move_run; [|by apply list_lookup_insert_eq|done|done];
        rewrite list_insert_insert_eq; cbn [mbind option_bind]).
  reflexivity. Unshelve. by cbn.
Qed.

(** ** Witnesses *)

(** Thread 0 reads, thread 1 waits to write and loses a race for the token to
    thread 0; thread 0 gives the lock back. *)
Definition waiting_schedule : list (nat * move) :=
  [(0%nat, Begin (Acquire true)); (0%nat, Run 0); (0%nat, Run 1); (0%nat, Run 0); (0%nat, Run 0);
   (1%nat, Begin (Acquire false)); (1%nat, Run 0); (1%nat, Run 0); (1%nat, Run 0);
   (0%nat, Begin (Release true)); (0%nat, Run 0); (0%nat, Run 0); (0%nat, Run 0); (0%nat, Run 0)].

Definition waiting_conf : conf :=
  (mkMRSW 0 0 1 None 0, [idle; mkThread (Some Write_wait) None 0 0]).

Lemma waiting_writer_gets_lock_witness :
  0 < 1 /\
  exists s' th',
    run_schedule [(1%nat, Run 1); (1%nat, Run 0); (1%nat, Run 0); (1%nat, Run 0)] waiting_conf
      = Some (s', <[1%nat := th']> (waiting_conf.2)) /\
    pc th' = None /\ writes th' = 1 /\ m_writeThreadId s' = 2 /\ m_noLocksEvent s' = 1 - 1.
Proof.
  apply (waiting_writer_gets_lock 2 (waiting_conf.1) (waiting_conf.2) 1 (mkThread (Some Write_wait) None 0 0)); [|done..].
  apply (run_schedule_steps waiting_schedule). vm_compute. reflexivity.
Defined.

(** Thread 1 gets the write lock after that and takes a read lock as well. *)
Definition writing_schedule : list (nat * move) :=
  waiting_schedule ++
  [(1%nat, Run 1); (1%nat, Run 0); (1%nat, Run 0); (1%nat, Run 0);
   (1%nat, Begin (Acquire true)); (1%nat, Run 0); (1%nat, Run 0); (1%nat, Run 0); (1%nat, Run 0)].

Lemma writer_excludes_all_witness :
  let s := mkMRSW 1 0 0 (Some (2, 1)) 2 in
  mutex_depth 2 s >= 1 /\ m_numberReaders s = 1 + 0 /\
  forall j th', [idle; mkThread None None 1 1] !! j = Some th' -> j <> 1%nat -> reads th' = 0 /\ writes th' = 0.
Proof.
  apply (writer_excludes_all 2 (mkMRSW 1 0 0 (Some (2, 1)) 2) [idle; mkThread None None 1 1] 1 (mkThread None None 1 1)); [|done..].
  apply (run_schedule_steps writing_schedule). vm_compute. reflexivity.
Defined.
