(* ===== verification/DestroyHandle.v ===== *)
(** * Destroy handles (common/c_cpp/src/c/destroyHandle.c)

    The reference-counted handle that lets other threads find out whether its
    owner is gone.  A call is made by a thread [t]; the lock is recursive, and
    a thread that finds it taken by another one blocks.  [None] is freed
    memory: any access to it is a fault. *)

From S2P Require Import Prelude.

Module DestroyHandle.

Record wDestroyHandle : Type := mkHandle {
  m_destroyed : Z;
  m_lock : option (Z * Z);
  m_numberReferences : Z;
  m_owner : Z;
}.

Definition heap : Type := option wDestroyHandle.

Definition handle_get : M heap wDestroyHandle := fun h =>
  match h with Some x => Ok (x, h) | None => Fail InvalidDeref end.
Definition handle_put (x : wDestroyHandle) : M heap unit := fun _ => Ok (tt, Some x).

Definition set_lock (l : option (Z * Z)) (x : wDestroyHandle) : wDestroyHandle :=
  mkHandle (m_destroyed x) l (m_numberReferences x) (m_owner x).
Definition set_references (n : Z) (x : wDestroyHandle) : wDestroyHandle :=
  mkHandle (m_destroyed x) (m_lock x) n (m_owner x).
Definition set_destroyed (n : Z) (x : wDestroyHandle) : wDestroyHandle :=
  mkHandle n (m_lock x) (m_numberReferences x) (m_owner x).

Definition handle_lock (t : Z) : M heap unit :=
  x ← handle_get;
  match m_lock x with
  | None => handle_put (set_lock (Some (t, 1)) x)
  | Some (o, d) => if o =? t then handle_put (set_lock (Some (o, d + 1)) x) else fail Blocked
  end.

Definition handle_unlock (t : Z) : M heap unit :=
  x ← handle_get;
  match m_lock x with
  | Some (o, d) =>
      if o =? t then handle_put (set_lock (if d =? 1 then None else Some (o, d - 1)) x) else mret tt
  | None => mret tt
  end.

Definition free_handle : M heap unit := fun _ => Ok (tt, None).

(** Destroys the lock, whoever has it, and frees the structure. *)
Definition destroyHandle_freeHandle : M heap unit := 
  x ← handle_get; free_handle.

(** [alloc]: whether calloc succeeds; a freshly created lock is free. *)
Definition destroyHandle_create (alloc : bool) (owner : Z) : heap :=
  if alloc then Some (mkHandle 0 None 0 owner) else None.

(** The calls do nothing for a null pointer; [handle] is whether it is not. *)
Definition destroyHandle_destroyOwner (handle : bool) (t : Z) : M heap unit :=
  if handle then
    handle_lock t ;;
    x ← handle_get;
    if 0 =? m_numberReferences x then destroyHandle_freeHandle
    else
      handle_put (set_destroyed 1 x) ;;
      handle_unlock t
  else mret tt.

Definition destroyHandle_incrementRefCount (handle : bool) (t : Z) : M heap unit :=
  if handle then
    handle_lock t ;;
    x ← handle_get;
    handle_put (set_references (m_numberReferences x + 1) x) ;;
    handle_unlock t
  else mret tt.

Definition destroyHandle_removeReference (handle : bool) (t : Z) : M heap Z :=
  if handle then
    handle_lock t ;;
    x ← handle_get;
    let x' := set_references (m_numberReferences x - 1) x in
    handle_put x' ;;
    if 0 =? m_destroyed x' then
      handle_unlock t ;;
      mret (m_owner x')
    else if 0 =? m_numberReferences x' then
      destroyHandle_freeHandle ;;
      mret 0
    else mret 0
  else mret 0.

(** ** Histories of calls *)

Inductive hcall : Type :=
| Hold
| Drop
| DestroyOwner.

Definition run_hcall (t : Z) (c : hcall) : M heap (option Z) :=
  match c with
  | Hold => destroyHandle_incrementRefCount true t ;; mret None
  | Drop => r ← destroyHandle_removeReference true t; mret (Some r)
  | DestroyOwner => destroyHandle_destroyOwner true t ;; mret None
  end.

Fixpoint run_hcalls (l : list (Z * hcall)) : M heap (list Z) :=
  match l with
  | [] => mret []
  | (t, c) :: l' =>
      r ← run_hcall t c;
      rs ← run_hcalls l';
      mret (option_list r ++ rs)
  end.

(** ** What the handle promises

    The number of references held and whether the owner was destroyed; the
    handle is gone when both let it go. *)

Record ahandle : Type := mkA { refs : Z; dead : bool }.

Definition gone (a : ahandle) : bool := dead a && (refs a =? 0).

(** The calls a client may make: it drops what it holds, destroys the owner
    once, and holds only a handle that is there. *)
Definition legal (c : hcall) (a : ahandle) : bool :=
  match c with
  | Hold => negb (gone a)
  | Drop => 0 <? refs a
  | DestroyOwner => negb (dead a)
  end.

Definition astep (owner : Z) (c : hcall) (a : ahandle) : list Z * ahandle :=
  match c with
  | Hold => ([], mkA (refs a + 1) (dead a))
  | Drop => ([if dead a then 0 else owner], mkA (refs a - 1) (dead a))
  | DestroyOwner => ([], mkA (refs a) true)
  end.

Fixpoint aruns (owner : Z) (l : list hcall) (a : ahandle) : option (list Z * ahandle) :=
  match l with
  | [] => Some ([], a)
  | c :: l' =>
      if legal c a then
        '(rs, a') ← aruns owner l' (astep owner c a).2;
        Some ((astep owner c a).1 ++ rs, a')
      else None
  end.

(** A lock that [t] took [d] times. *)
Definition held (t d : Z) : option (Z * Z) := if d =? 0 then None else Some (t, d).

(** The memory of a handle used by the thread [t] alone. *)
Definition hsim (t owner : Z) (h : heap) (a : ahandle) : Prop :=
  0 <= refs a /\
  if gone a then h = None
  else exists d, 0 <= d /\ h = Some (mkHandle (if dead a then 1 else 0) (held t d) (refs a) owner).

(** ** The calls on a handle whose lock is free or the caller's own *)

Lemma handle_lock_held t a d n o :
  0 <= d -> handle_lock t (Some (mkHandle a (held t d) n o)) = Ok (tt, Some (mkHandle a (held t (d + 1)) n o)).
Proof.
  intros Hd. unfold handle_lock, handle_get, mbind, M_bind, held. cbn.
  destruct (Z.eqb_spec (d + 1) 0); [lia|]. destruct (Z.eqb_spec d 0) as [->|]; cbn; [done|].
  by rewrite Z.eqb_refl.
Qed.

Lemma handle_unlock_held t a d n o :
  0 <= d -> handle_unlock t (Some (mkHandle a (held t (d + 1)) n o)) = Ok (tt, Some (mkHandle a (held t d) n o)).
Proof.
  intros Hd. unfold handle_unlock, handle_get, handle_put, mbind, M_bind, held. cbn.
  destruct (Z.eqb_spec (d + 1) 0); [lia|]. cbn. rewrite Z.eqb_refl. cbn.
  destruct (Z.eqb_spec (d + 1) 1), (Z.eqb_spec d 0); try lia; [done|]. by rewrite Z.add_simpl_r.
Qed.

Arguments destroyHandle_incrementRefCount : simpl never.
Arguments destroyHandle_removeReference : simpl never.
Arguments destroyHandle_destroyOwner : simpl never.
Arguments handle_lock : simpl never.
#[local] Arguments Z.eqb : simpl never.
Arguments handle_unlock : simpl never.

Ltac handle_open H :=
  unfold mbind, M_bind; rewrite handle_lock_held by exact H; cbn;
  unfold handle_get, handle_put, set_references, set_destroyed; cbn.

Lemma hold_held t a d n o :
  0 <= d -> destroyHandle_incrementRefCount true t (Some (mkHandle a (held t d) n o))
            = Ok (tt, Some (mkHandle a (held t d) (n + 1) o)).
Proof.
  intros Hd. unfold destroyHandle_incrementRefCount. handle_open Hd. by rewrite handle_unlock_held.
Qed.

Lemma drop_held t a d n o :
  0 <= d -> destroyHandle_removeReference true t (Some (mkHandle a (held t d) n o))
            = if 0 =? a then Ok (o, Some (mkHandle a (held t d) (n - 1) o))
              else if 0 =? n - 1 then Ok (0, None)
              else Ok (0, Some (mkHandle a (held t (d + 1)) (n - 1) o)).
Proof.
  intros Hd. unfold destroyHandle_removeReference. handle_open Hd.
  destruct (0 =? a); [by rewrite handle_unlock_held|]. by destruct (0 =? n - 1).
Qed.

Lemma destroy_held t a d n o :
  0 <= d -> destroyHandle_destroyOwner true t (Some (mkHandle a (held t d) n o))
            = if 0 =? n then Ok (tt, None) else Ok (tt, Some (mkHandle 1 (held t d) n o)).
Proof.
  intros Hd. unfold destroyHandle_destroyOwner. handle_open Hd.
  destruct (0 =? n); [done|]. by rewrite handle_unlock_held.
Qed.

Lemma hcall_sim t owner c h a :
  hsim t owner h a -> legal c a = true ->
  wp (run_hcall t c) h (fun r h' => option_list r = (astep owner c a).1 /\ hsim t owner h' (astep owner c a).2).
Proof.
  intros [Hr Hs] Hl. destruct a as [n dd]. unfold hsim, gone in *. cbn in *.
  assert (dd && (n =? 0) = false) as Hg.
  { destruct c; cbn in Hl; [by apply negb_true_iff in Hl| |]; destruct dd; cbn; lia. }
  rewrite Hg in Hs. destruct Hs as (d & Hd & ->).
  destruct c; cbn in Hl |- *; unfold wp, mbind, M_bind.
  - rewrite hold_held by done. cbn. split; [done|]. split; [lia|].
    destruct (Z.eqb_spec (n + 1) 0); [lia|]. rewrite andb_false_r. eauto.
  - rewrite drop_held by done. destruct dd; cbn.
    + destruct (Z.eqb_spec 0 (n - 1)), (Z.eqb_spec (n - 1) 0); try lia; cbn; (split; [done|]); (split; [lia|]).
      * done.
      * exists (d + 1). split; [lia|done].
    + split; [done|]. split; [lia|]. eauto.
  - rewrite destroy_held by done. destruct dd; [done|].
    destruct (Z.eqb_spec 0 n), (Z.eqb_spec n 0); try lia; cbn; eauto.
Qed.

Lemma hcalls_sim t owner l h a rs a' :
  hsim t owner h a -> aruns owner l a = Some (rs, a') ->
  wp (run_hcalls ((t,.) <$> l)) h (fun r h' => r = rs /\ hsim t owner h' a').
Proof.
  revert h a rs. induction l as [|c l IH]; intros h a rs Hs; cbn; [by intros [= <- <-]|].
  destruct (legal c a) eqn:Hl; [|done].
  destruct (aruns owner l (astep owner c a).2) as [[rs1 a1]|] eqn:E; [|done]. intros [= <- <-].
  apply wp_bind. eapply wp_mono; [by apply hcall_sim|]. intros r h' [-> Hs'].
  apply wp_bind. eapply wp_mono; [by eapply IH|]. by intros r' h'' [-> ?].
Qed.

(** A destroy handle that one thread works with counts right: through any
    legal history of holding, dropping and destroying, no call touches freed
    memory, a drop returns the owner exactly as long as it was not destroyed,
    and the memory is freed exactly when the owner is destroyed and the last
    reference is dropped. *)
Theorem handle_counts_references t owner l rs a :
  aruns owner l (mkA 0 false) = Some (rs, a) ->
  exists h, run_hcalls ((t,.) <$> l) (destroyHandle_create true owner) = Ok (rs, h) /\
    (h = None <-> dead a = true /\ refs a = 0).
Proof.
  intros H. assert (hsim t owner (destroyHandle_create true owner) (mkA 0 false)) as Hs.
  { split; [done|]. cbn. exists 0. split; [done|]. reflexivity. }
  destruct (proj1 (wp_elim _ _ _) (hcalls_sim t owner l _ _ _ _ Hs H)) as (r & h & E & -> & Hr & Hh).
  exists h. split; [done|]. unfold gone in Hh.
  destruct (dead a), (Z.eqb_spec (refs a) 0); cbn in Hh; naive_solver.
Qed.

(** With two references or more when the owner is destroyed, the next drop
    returns without giving the lock back: every later call of another thread
    blocks, and the handle is never freed. *)
Theorem drop_after_destroy_keeps_lock t1 t2 t3 n owner c :
  2 <= n -> t2 <> t3 ->
  wp (destroyHandle_destroyOwner true t1 ;; destroyHandle_removeReference true t2)
    (Some (mkHandle 0 None n owner)) (fun r h =>
    r = 0 /\ h = Some (mkHandle 1 (Some (t2, 1)) (n - 1) owner) /\ run_hcall t3 c h = Fail Blocked).
Proof.
  intros Hn Ht. apply wp_bind. unfold wp.
  change None with (held t1 0) at 1. rewrite destroy_held by done. destruct (Z.eqb_spec 0 n); [lia|].
  change (held t1 0) with (held t2 0). rewrite drop_held by done. cbn.
  destruct (Z.eqb_spec 0 (n - 1)); [lia|]. split; [done|]. split; [done|].
  change (held t2 (0 + 1)) with (Some (t2, 1)). destruct c; unfold run_hcall, destroyHandle_incrementRefCount, destroyHandle_removeReference,
    destroyHandle_destroyOwner, handle_lock, mbind, M_bind; cbn; by destruct (Z.eqb_spec t2 t3).
Qed.

(** ** Witnesses *)

Lemma handle_counts_references_witness :
  exists h, run_hcalls ((7,.) <$> [Hold; Hold; Drop; DestroyOwner; Drop]) (destroyHandle_create true 99) = Ok ([99; 0], h) /\
    (h = None <-> true = true /\ 0 = 0).
Proof. apply (handle_counts_references 7 99 _ _ (mkA 0 true)). reflexivity. Defined.

Lemma drop_after_destroy_keeps_lock_witness :
  wp (destroyHandle_destroyOwner true 1 ;; destroyHandle_removeReference true 2)
    (Some (mkHandle 0 None 2 99)) (fun r h =>
    r = 0 /\ h = Some (mkHandle 1 (Some (2, 1)) (2 - 1) 99) /\ run_hcall 3 Drop h = Fail Blocked).
Proof. apply drop_after_destroy_keeps_lock; lia. Defined.

End DestroyHandle.
