(* ===== verification/DateTime.v ===== *)
(** * Dates and times (mama/c_cpp/src/c/datetime.c, datetimeimpl.h)

    A [mamaDateTime] is seconds since the epoch, nanoseconds, a precision and
    hints.  A pointer to one is an [option]: the functions test it.  [long] and
    [time_t] are 64 bits wide as on the Linux build; [/] and [%] of C truncate
    towards zero ([Z.quot], [Z.rem]).  The functions that work in floating
    point are not modelled. *)

From S2P Require Import Prelude MamaStatus.

Module DateTime.

Inductive mamaDateTimePrecision : Type :=
| MAMA_DATE_TIME_PREC_SECONDS
| MAMA_DATE_TIME_PREC_DECISECONDS
| MAMA_DATE_TIME_PREC_CENTISECONDS
| MAMA_DATE_TIME_PREC_MILLISECONDS
| MAMA_DATE_TIME_PREC_MICROSECONDS
| MAMA_DATE_TIME_PREC_NANOSECONDS
| MAMA_DATE_TIME_PREC_DAYS
| MAMA_DATE_TIME_PREC_MINUTES
| MAMA_DATE_TIME_PREC_UNKNOWN
| MAMA_DATE_TIME_PREC_OTHER (n : Z).   (* an int that is no enumerator *)

(** The code stores plain numbers into the enumeration. *)
Definition prec_of (n : Z) : mamaDateTimePrecision :=
  match n with
  | 0 => MAMA_DATE_TIME_PREC_SECONDS
  | 1 => MAMA_DATE_TIME_PREC_DECISECONDS
  | 2 => MAMA_DATE_TIME_PREC_CENTISECONDS
  | 3 => MAMA_DATE_TIME_PREC_MILLISECONDS
  | 6 => MAMA_DATE_TIME_PREC_MICROSECONDS
  | 9 => MAMA_DATE_TIME_PREC_NANOSECONDS
  | 10 => MAMA_DATE_TIME_PREC_DAYS
  | 12 => MAMA_DATE_TIME_PREC_MINUTES
  | 15 => MAMA_DATE_TIME_PREC_UNKNOWN
  | _ => MAMA_DATE_TIME_PREC_OTHER n
  end.

Definition MAMA_DATE_TIME_HAS_DATE : Z := 1.
Definition MAMA_DATE_TIME_HAS_TIME : Z := 2.
Definition MAMA_DATE_TIME_NO_TIMEZONE : Z := 4.

Record mama_datetime_t : Type := mkDateTime {
  mSeconds : Z;                          (* int64_t *)
  mNanoseconds : Z;                      (* long *)
  mPrecision : mamaDateTimePrecision;
  mHints : Z;                            (* mama_u8_t *)
}.

Definition SECONDS_IN_A_DAY : Z := 24 * 60 * 60.
Definition UINT32_MAX : Z := 2 ^ 32 - 1.

(** ** The macros of datetimeimpl.h *)

Definition mamaDateTimeImpl_clear (t : mama_datetime_t) : mama_datetime_t :=
  mkDateTime 0 0 MAMA_DATE_TIME_PREC_UNKNOWN 0.

Definition mamaDateTimeImpl_setSeconds (s : Z) (t : mama_datetime_t) : mama_datetime_t :=
  mkDateTime (i64 s) (mNanoseconds t) (mPrecision t) (mHints t).
Definition mamaDateTimeImpl_setMicroSeconds (us : Z) (t : mama_datetime_t) : mama_datetime_t :=
  mkDateTime (mSeconds t) (i64 (i64 us * 1000)) (mPrecision t) (mHints t).
Definition mamaDateTimeImpl_setNanoSeconds (ns : Z) (t : mama_datetime_t) : mama_datetime_t :=
  mkDateTime (mSeconds t) (i64 ns) (mPrecision t) (mHints t).
Definition mamaDateTimeImpl_setPrecision (p : mamaDateTimePrecision) (t : mama_datetime_t) : mama_datetime_t :=
  mkDateTime (mSeconds t) (mNanoseconds t) p (mHints t).
Definition mamaDateTimeImpl_setHint (h : Z) (t : mama_datetime_t) : mama_datetime_t :=
  mkDateTime (mSeconds t) (mNanoseconds t) (mPrecision t) h.

Definition mamaDateTimeImpl_setHasDate (t : mama_datetime_t) : mama_datetime_t :=
  mamaDateTimeImpl_setHint (Z.lor (mHints t) MAMA_DATE_TIME_HAS_DATE) t.
Definition mamaDateTimeImpl_setHasTime (t : mama_datetime_t) : mama_datetime_t :=
  mamaDateTimeImpl_setHint (Z.lor (mHints t) MAMA_DATE_TIME_HAS_TIME) t.
Definition mamaDateTimeImpl_clearHasDate (t : mama_datetime_t) : mama_datetime_t :=
  mamaDateTimeImpl_setHint (Z.ldiff (mHints t) MAMA_DATE_TIME_HAS_DATE) t.
Definition mamaDateTimeImpl_clearHasTime (t : mama_datetime_t) : mama_datetime_t :=
  mamaDateTimeImpl_setHint (Z.ldiff (mHints t) MAMA_DATE_TIME_HAS_TIME) t.

Definition mamaDateTimeImpl_getMicroSeconds (t : mama_datetime_t) : Z := Z.quot (mNanoseconds t) 1000.
Definition mamaDateTimeImpl_getHasDate (t : mama_datetime_t) : bool :=
  Z.land (mHints t) MAMA_DATE_TIME_HAS_DATE =? MAMA_DATE_TIME_HAS_DATE.
Definition mamaDateTimeImpl_getHasTime (t : mama_datetime_t) : bool :=
  Z.land (mHints t) MAMA_DATE_TIME_HAS_TIME =? MAMA_DATE_TIME_HAS_TIME.

Definition mamaDateTimeImpl_clearDate (t : mama_datetime_t) : mama_datetime_t :=
  mamaDateTimeImpl_clearHasDate
    (mamaDateTimeImpl_setSeconds (Z.rem (mSeconds t) SECONDS_IN_A_DAY) t).
Definition mamaDateTimeImpl_clearTime (t : mama_datetime_t) : mama_datetime_t :=
  mamaDateTimeImpl_clearHasTime
    (mamaDateTimeImpl_setMicroSeconds 0
      (mamaDateTimeImpl_setSeconds (Z.quot (mSeconds t) SECONDS_IN_A_DAY * SECONDS_IN_A_DAY) t)).

(** The comma operators of the macro drop all comparisons but the last. *)
Definition mamaDateTimeImpl_empty (t : mama_datetime_t) : bool := mHints t =? 0.

Definition mamaDateTimeImpl_equal (l r : mama_datetime_t) : bool :=
  (mSeconds l =? mSeconds r) && (mNanoseconds l =? mNanoseconds r).

Definition mamaDateTimeImpl_compare (l r : mama_datetime_t) : Z :=
  if mSeconds r <? mSeconds l then 1
  else if (mSeconds l =? mSeconds r) && (mNanoseconds l =? mNanoseconds r) then 0
  else -1.

(** ** The calendar

    [struct tm] as far as it is used, and [timegm], which takes any day, hour,
    minute and second and carries months over into years. *)

Record tm : Type := mkTm {
  tm_year : Z; tm_mon : Z; tm_mday : Z; tm_hour : Z; tm_min : Z; tm_sec : Z; tm_wday : Z;
}.

Definition leap (y : Z) : bool := (y `mod` 4 =? 0) && negb (y `mod` 100 =? 0) || (y `mod` 400 =? 0).

(** Days from 1 January 1970 to 1 January of the year. *)
Definition days_before_year (y : Z) : Z :=
  365 * (y - 1970) + (y - 1969) / 4 - (y - 1901) / 100 + (y - 1601) / 400.

(** Days of the year before a month (counted from 0). *)
Definition days_before_month (y m : Z) : Z :=
  match m with
  | 0 => 0 | 1 => 31 | 2 => 59 | 3 => 90 | 4 => 120 | 5 => 151
  | 6 => 181 | 7 => 212 | 8 => 243 | 9 => 273 | 10 => 304 | 11 => 334 | _ => 365
  end
  + (if leap y && (2 <=? m) then 1 else 0).

Definition timegm (t : tm) : Z :=
  let y := 1900 + tm_year t + tm_mon t / 12 in
  let m := tm_mon t `mod` 12 in
  86400 * (days_before_year y + days_before_month y m + (tm_mday t - 1))
  + 3600 * tm_hour t + 60 * tm_min t + tm_sec t.

Definition SETDATE_MIN_YEAR : Z := 1900.

Definition makeTime (year mon day hour min sec : Z) : Z :=
  timegm (mkTm (if SETDATE_MIN_YEAR <=? year then year - 1900 else 70)
               (if 0 <? mon then mon - 1 else 0)
               (if 0 <? day then day else 1)
               hour min sec 0).

(** ** The functions *)

Definition result : Type := mama_status * option mama_datetime_t.

(** Guard of the functions that need an object, and return code without. *)
Definition with_dt (null : mama_status) (dt : option mama_datetime_t) (k : mama_datetime_t -> result) : result :=
  match dt with None => (null, None) | Some t => k t end.

Definition ok (t : mama_datetime_t) : result := (MAMA_STATUS_OK, Some t).

(** [alloc]: whether malloc succeeds. *)
Definition mamaDateTime_create (alloc : bool) : result :=
  if alloc then ok (mkDateTime 0 0 MAMA_DATE_TIME_PREC_UNKNOWN 0) else (MAMA_STATUS_NOMEM, None).

Definition mamaDateTime_clear (dt : option mama_datetime_t) : result :=
  with_dt MAMA_STATUS_INVALID_ARG dt (fun t => ok (mamaDateTimeImpl_clear t)).
Definition mamaDateTime_clearDate (dt : option mama_datetime_t) : result :=
  with_dt MAMA_STATUS_INVALID_ARG dt (fun t => ok (mamaDateTimeImpl_clearDate t)).
Definition mamaDateTime_clearTime (dt : option mama_datetime_t) : result :=
  with_dt MAMA_STATUS_INVALID_ARG dt (fun t => ok (mamaDateTimeImpl_clearTime t)).

Definition mamaDateTime_copy (dest src : option mama_datetime_t) : result :=
  match src, dest with
  | Some s, Some _ => ok s
  | _, _ => (MAMA_STATUS_INVALID_ARG, dest)
  end.

Definition mamaDateTime_empty (dt : option mama_datetime_t) : bool :=
  match dt with None => true | Some t => mamaDateTimeImpl_empty t end.

(** Two objects; the same pointer twice is equal as well. *)
Definition mamaDateTime_equal (lhs rhs : option mama_datetime_t) : bool :=
  match lhs, rhs with
  | None, None => true
  | Some l, Some r => mamaDateTimeImpl_equal l r
  | _, _ => false
  end.

Definition mamaDateTime_compare (lhs rhs : option mama_datetime_t) : Z :=
  match lhs, rhs with
  | Some l, Some r => mamaDateTimeImpl_compare l r
  | _, _ => 0
  end.

(** Getters return the status and what is written to the result pointers; [out]
    is whether those are not null. *)
Definition mamaDateTime_getEpochTimeExt (dt : option mama_datetime_t) (out : bool) : mama_status * option (Z * Z) :=
  match dt with
  | Some t => if out then (MAMA_STATUS_OK, Some (mSeconds t, u32 (mNanoseconds t))) else (MAMA_STATUS_NULL_ARG, None)
  | None => (MAMA_STATUS_NULL_ARG, None)
  end.

Definition mamaDateTime_setEpochTimeExt (dt : option mama_datetime_t) (seconds nanoseconds : Z) : result :=
  with_dt MAMA_STATUS_NULL_ARG dt (fun t =>
  if 1000000000 <=? nanoseconds then (MAMA_STATUS_INVALID_ARG, Some t)
  else ok (mamaDateTimeImpl_setNanoSeconds nanoseconds (mamaDateTimeImpl_setSeconds seconds t))).

(** The common tail of the epoch setters: the date is known to be set from the
    second day on. *)
Definition set_date_if (b : bool) (t : mama_datetime_t) : mama_datetime_t :=
  if b then mamaDateTimeImpl_setHasDate t else t.

Definition mamaDateTime_setEpochTime (dt : option mama_datetime_t) (seconds microseconds : Z)
    (precision : mamaDateTimePrecision) : result :=
  with_dt MAMA_STATUS_INVALID_ARG dt (fun t =>
  if 1000000 <=? microseconds then (MAMA_STATUS_INVALID_ARG, Some t)
  else
    let t := mamaDateTimeImpl_clear t in
    let t := mamaDateTimeImpl_setSeconds seconds t in
    let t := mamaDateTimeImpl_setMicroSeconds microseconds t in
    let t := mamaDateTimeImpl_setPrecision precision t in
    let t := mamaDateTimeImpl_setHasTime t in
    ok (set_date_if (SECONDS_IN_A_DAY <? seconds) t)).

Definition mamaDateTime_setEpochTimeMilliseconds (dt : option mama_datetime_t) (milliseconds : Z) : result :=
  let seconds := milliseconds / 1000 in
  let milliseconds := milliseconds `mod` 1000 in
  with_dt MAMA_STATUS_INVALID_ARG dt (fun t =>
    let t := mamaDateTimeImpl_clear t in
    let t := mamaDateTimeImpl_setSeconds seconds t in
    let t := mamaDateTimeImpl_setMicroSeconds (u64 (milliseconds * 1000)) t in
    let t := mamaDateTimeImpl_setHasTime t in
    let t := set_date_if (SECONDS_IN_A_DAY <? seconds) t in
    ok (mamaDateTimeImpl_setPrecision (prec_of (if 0 <? milliseconds then 3 else 0)) t)).

Definition mamaDateTime_setEpochTimeMicroseconds (dt : option mama_datetime_t) (microseconds : Z) : result :=
  let seconds := microseconds / 1000000 in
  let microseconds := microseconds `mod` 1000000 in
  with_dt MAMA_STATUS_INVALID_ARG dt (fun t =>
    let t := mamaDateTimeImpl_clear t in
    let t := mamaDateTimeImpl_setSeconds seconds t in
    let t := mamaDateTimeImpl_setMicroSeconds microseconds t in
    let t := mamaDateTimeImpl_setHasTime t in
    let t := set_date_if (SECONDS_IN_A_DAY <? seconds) t in
    ok (mamaDateTimeImpl_setPrecision (prec_of (if 0 <? microseconds then 6 else 0)) t)).

Definition mamaDateTime_setWithHints (dt : option mama_datetime_t) (seconds microseconds : Z)
    (precision : mamaDateTimePrecision) (hints : Z) : result :=
  with_dt MAMA_STATUS_INVALID_ARG dt (fun t =>
  if 1000000 <=? microseconds then (MAMA_STATUS_INVALID_ARG, Some t)
  else
    let t := mamaDateTimeImpl_clear t in
    let t := mamaDateTimeImpl_setSeconds seconds t in
    let t := mamaDateTimeImpl_setMicroSeconds microseconds t in
    let t := mamaDateTimeImpl_setPrecision precision t in
    let t := mamaDateTimeImpl_setHasTime t in
    let t := mamaDateTimeImpl_setHint hints t in
    ok (set_date_if (SECONDS_IN_A_DAY <? seconds) t)).

Definition mamaDateTime_setHints (dt : option mama_datetime_t) (hints : Z) : result :=
  with_dt MAMA_STATUS_NULL_ARG dt (fun t => ok (mamaDateTimeImpl_setHint hints t)).
Definition mamaDateTime_setPrecision (dt : option mama_datetime_t) (p : mamaDateTimePrecision) : result :=
  with_dt MAMA_STATUS_INVALID_ARG dt (fun t => ok (mamaDateTimeImpl_setPrecision p t)).

(** [now]: what [gettimeofday] returns, if it succeeds. *)
Definition mamaDateTime_setToNow (now : option (Z * Z)) (dt : option mama_datetime_t) : result :=
  with_dt MAMA_STATUS_INVALID_ARG dt (fun t =>
    let t := mamaDateTimeImpl_clear t in
    match now with
    | None => (MAMA_STATUS_SYSTEM_ERROR, Some t)
    | Some (tv_sec, tv_usec) =>
        let t := mamaDateTimeImpl_setSeconds tv_sec t in
        let t := mamaDateTimeImpl_setMicroSeconds tv_usec t in
        let t := mamaDateTimeImpl_setPrecision (prec_of 6) t in
        let t := mamaDateTimeImpl_setHasDate t in
        ok (mamaDateTimeImpl_setHasTime t)
    end).

(** [tz]: the offset of the time zone, if one is given; [now]: [time(NULL)]. *)
Definition mamaDateTime_setToMidnightToday (now : Z) (dt : option mama_datetime_t) (tz : option Z) : result :=
  with_dt MAMA_STATUS_INVALID_ARG dt (fun t =>
    let secondsSinceEpoch := u32 now in
    let secondsSinceEpoch := match tz with Some offset => u32 (secondsSinceEpoch + offset) | None => secondsSinceEpoch end in
    let tmpSeconds := secondsSinceEpoch / SECONDS_IN_A_DAY * SECONDS_IN_A_DAY in
    let t := mamaDateTimeImpl_clear t in
    let t := mamaDateTimeImpl_setSeconds tmpSeconds t in
    let t := mamaDateTimeImpl_setMicroSeconds 0 t in
    let t := mamaDateTimeImpl_setPrecision (prec_of 0) t in
    let t := mamaDateTimeImpl_setHasDate t in
    ok (mamaDateTimeImpl_setHasTime t)).

(** [tmpSeconds] is a [mama_i32_t]; the hours, minutes and seconds are unsigned
    32-bit numbers, and so is their sum with it. *)
Definition mamaDateTime_setTimeWithPrecisionAndTz (dt : option mama_datetime_t) (hour minute second microsecond : Z)
    (precision : mamaDateTimePrecision) (tz : option Z) : result :=
  with_dt MAMA_STATUS_INVALID_ARG dt (fun t =>
  if 1000000 <=? microsecond then (MAMA_STATUS_INVALID_ARG, Some t)
  else
    let tmpSeconds := i32 (Z.quot (mSeconds t) SECONDS_IN_A_DAY * SECONDS_IN_A_DAY) in
    let tmpSeconds := i32 (u32 (tmpSeconds + u32 (second + u32 (60 * u32 (minute + u32 (60 * hour)))))) in
    let tmpSeconds := match tz with Some offset => i32 (tmpSeconds - offset) | None => tmpSeconds end in
    let t := mamaDateTimeImpl_setSeconds tmpSeconds t in
    let t := mamaDateTimeImpl_setMicroSeconds microsecond t in
    let t := mamaDateTimeImpl_setPrecision precision t in
    ok (mamaDateTimeImpl_setHasTime t)).

Definition mamaDateTime_setTime (dt : option mama_datetime_t) (hour minute second microsecond : Z) : result :=
  mamaDateTime_setTimeWithPrecisionAndTz dt hour minute second microsecond MAMA_DATE_TIME_PREC_UNKNOWN None.

Definition mamaDateTime_setDate (dt : option mama_datetime_t) (year month day : Z) : result :=
  with_dt MAMA_STATUS_INVALID_ARG dt (fun t =>
  if year <? SETDATE_MIN_YEAR then (MAMA_STATUS_INVALID_ARG, Some t)
  else
    let tmpSeconds := Z.rem (mSeconds t) SECONDS_IN_A_DAY in
    let dateSeconds := makeTime (i32 year) (i32 month) (i32 day) 0 0 0 in
    if -1 =? dateSeconds then (MAMA_STATUS_INVALID_ARG, Some t)
    else
      let tmpSeconds := i64 (tmpSeconds + dateSeconds) in
      let t := mamaDateTimeImpl_setSeconds tmpSeconds t in
      ok (mamaDateTimeImpl_setHasDate t)).

Definition mamaDateTime_setWithPrecisionAndTz (dt : option mama_datetime_t)
    (year month day hour minute second microsecond : Z) (precision : mamaDateTimePrecision) (tz : option Z) : result :=
  let '(status, dt) := mamaDateTime_clear dt in
  if negb (status_ok status) then (status, dt)
  else
    let '(status, dt) := mamaDateTime_setDate dt year month day in
    if negb (status_ok status) then (status, dt)
    else
      let '(status, dt) := mamaDateTime_setTimeWithPrecisionAndTz dt hour minute second microsecond precision tz in
      if negb (status_ok status) then (status, dt) else (MAMA_STATUS_OK, dt).

Definition mamaDateTime_copyTime (dest src : option mama_datetime_t) : result :=
  match dest, src with
  | Some d, Some s =>
      let tmpSeconds := Z.quot (mSeconds d) SECONDS_IN_A_DAY * SECONDS_IN_A_DAY in
      let tmpSeconds := i64 (tmpSeconds + Z.rem (mSeconds s) SECONDS_IN_A_DAY) in
      let tmpMicroseconds := mamaDateTimeImpl_getMicroSeconds s in
      let d := mamaDateTimeImpl_setSeconds tmpSeconds d in
      let d := mamaDateTimeImpl_setMicroSeconds tmpMicroseconds d in
      ok (mamaDateTimeImpl_setHasTime d)
  | _, _ => (MAMA_STATUS_INVALID_ARG, dest)
  end.

Definition mamaDateTime_copyDate (dest src : option mama_datetime_t) : result :=
  match dest, src with
  | Some d, Some s =>
      let tmpSeconds := Z.rem (mSeconds d) SECONDS_IN_A_DAY in
      let tmpSeconds := i64 (tmpSeconds + Z.quot (mSeconds s) SECONDS_IN_A_DAY * SECONDS_IN_A_DAY) in
      let d := mamaDateTimeImpl_setSeconds tmpSeconds d in
      ok (mamaDateTimeImpl_setHasDate d)
  | _, _ => (MAMA_STATUS_INVALID_ARG, dest)
  end.

Definition mamaDateTime_addWholeSeconds (dt : option mama_datetime_t) (addSeconds : Z) : result :=
  with_dt MAMA_STATUS_INVALID_ARG dt (fun t =>
  if addSeconds =? 0 then ok t
  else ok (mamaDateTimeImpl_setHasTime (mamaDateTimeImpl_setSeconds (mSeconds t + addSeconds) t))).

(** The whole seconds are passed on as a [mama_i32_t]. *)
Definition mamaDateTime_addMicroseconds (dt : option mama_datetime_t) (addMicroseconds : Z) : result :=
  with_dt MAMA_STATUS_INVALID_ARG dt (fun t =>
  if addMicroseconds =? 0 then ok t
  else
    let addMicroseconds := i64 (addMicroseconds + mamaDateTimeImpl_getMicroSeconds t) in
    let '(dt, addMicroseconds) :=
      if 1000000 <=? addMicroseconds then
        ((mamaDateTime_addWholeSeconds dt (i32 (Z.quot addMicroseconds 1000000))).2,
         Z.rem addMicroseconds 1000000)
      else if addMicroseconds <? 0 then
        let dt :=
          if -1000000 <=? addMicroseconds then (mamaDateTime_addWholeSeconds dt (-1)).2
          else (mamaDateTime_addWholeSeconds dt (i32 (Z.quot addMicroseconds 1000000 - 1))).2 in
        let addMicroseconds := Z.rem addMicroseconds 1000000 in
        (dt, if addMicroseconds <? 0 then addMicroseconds + 1000000 else addMicroseconds)
      else (dt, addMicroseconds) in
    with_dt MAMA_STATUS_INVALID_ARG dt (fun t =>
      ok (mamaDateTimeImpl_setHasTime (mamaDateTimeImpl_setMicroSeconds addMicroseconds t)))).

(** ** Getters *)

Definition mamaDateTime_getEpochTimeWithTz (dt : option mama_datetime_t) (out : bool) (tz : option Z)
    : mama_status * option (Z * Z * mamaDateTimePrecision) :=
  match dt with
  | None => (MAMA_STATUS_INVALID_ARG, None)
  | Some t =>
      if negb out then (MAMA_STATUS_INVALID_ARG, None)
      else
        let timeSeconds := match tz with Some offset => i64 (mSeconds t + offset) | None => mSeconds t end in
        if (UINT32_MAX <? timeSeconds) || (timeSeconds <? 0) then (MAMA_STATUS_INVALID_ARG, None)
        else
          let timeMicroSeconds := mamaDateTimeImpl_getMicroSeconds t in
          if (UINT32_MAX <? timeMicroSeconds) || (timeMicroSeconds <? 0) then (MAMA_STATUS_INVALID_ARG, None)
          else (MAMA_STATUS_OK, Some (u32 timeSeconds, u32 timeMicroSeconds, mPrecision t))
  end.

Definition mamaDateTime_getEpochTime (dt : option mama_datetime_t) (out : bool) :=
  mamaDateTime_getEpochTimeWithTz dt out None.

Definition mamaDateTime_getEpochTimeMicrosecondsWithTz (dt : option mama_datetime_t) (out : bool) (tz : option Z)
    : mama_status * option Z :=
  match dt with
  | None => (MAMA_STATUS_INVALID_ARG, None)
  | Some t =>
      if negb out then (MAMA_STATUS_INVALID_ARG, None)
      else (MAMA_STATUS_OK, Some (u64 (1000000 * u64 (u64 (mSeconds t) + default 0 tz)
                                       + mamaDateTimeImpl_getMicroSeconds t)))
  end.

Definition mamaDateTime_getEpochTimeMicroseconds (dt : option mama_datetime_t) (out : bool) :=
  mamaDateTime_getEpochTimeMicrosecondsWithTz dt out None.

Definition mamaDateTime_getEpochTimeMillisecondsWithTz (dt : option mama_datetime_t) (out : bool) (tz : option Z)
    : mama_status * option Z :=
  match dt with
  | None => (MAMA_STATUS_INVALID_ARG, None)
  | Some t =>
      if negb out then (MAMA_STATUS_INVALID_ARG, None)
      else (MAMA_STATUS_OK, Some (u64 (1000 * u64 (u64 (mSeconds t) + default 0 tz)
                                       + Z.quot (mamaDateTimeImpl_getMicroSeconds t) 1000)))
  end.

Definition mamaDateTime_getEpochTimeMilliseconds (dt : option mama_datetime_t) (out : bool) :=
  mamaDateTime_getEpochTimeMillisecondsWithTz dt out None.

Definition mamaDateTime_getWithHints (dt : option mama_datetime_t) (out : bool)
    : mama_status * option (Z * Z * mamaDateTimePrecision * Z) :=
  match dt with
  | None => (MAMA_STATUS_INVALID_ARG, None)
  | Some t =>
      if negb out then (MAMA_STATUS_INVALID_ARG, None)
      else if (UINT32_MAX <? mSeconds t) || (mSeconds t <? 0) then (MAMA_STATUS_INVALID_ARG, None)
      else
        let us := mamaDateTimeImpl_getMicroSeconds t in
        if (UINT32_MAX <? us) || (us <? 0) then (MAMA_STATUS_INVALID_ARG, None)
        else (MAMA_STATUS_OK, Some (u32 (mSeconds t), u32 us, mPrecision t, mHints t))
  end.

Definition mamaDateTime_diffMicroseconds (t1 t0 : option mama_datetime_t) (out : bool) : mama_status * option Z :=
  match t1, t0 with
  | Some _, Some _ =>
      if negb out then (MAMA_STATUS_INVALID_ARG, None)
      else
        match mamaDateTime_getEpochTimeMicroseconds t0 true with
        | (MAMA_STATUS_OK, Some t0_msecs) =>
            match mamaDateTime_getEpochTimeMicroseconds t1 true with
            | (MAMA_STATUS_OK, Some t1_msecs) => (MAMA_STATUS_OK, Some (i64 (i64 t1_msecs - i64 t0_msecs)))
            | (status, _) => (status, None)
            end
        | (status, _) => (status, None)
        end
  | _, _ => (MAMA_STATUS_INVALID_ARG, None)
  end.

Definition mamaDateTime_setFromStructTimeSpec (dt : option mama_datetime_t) (input : option (Z * Z)) : result :=
  match dt, input with
  | Some t, Some (tv_sec, tv_nsec) =>
      if 1000000000 <=? tv_nsec then (MAMA_STATUS_INVALID_ARG, dt)
      else
        let t := mkDateTime tv_sec tv_nsec (mPrecision t) (mHints t) in
        let t := mamaDateTimeImpl_setHasTime t in
        let t := mamaDateTimeImpl_setHasDate t in
        ok (mamaDateTimeImpl_setPrecision (prec_of (if 0 <? tv_nsec then 6 else 0)) t)
  | _, _ => (MAMA_STATUS_INVALID_ARG, dt)
  end.

Definition mamaDateTime_getStructTimeSpec (dt : option mama_datetime_t) (out : bool) : mama_status * option (Z * Z) :=
  match dt with
  | Some t => if out then (MAMA_STATUS_OK, Some (mSeconds t, mNanoseconds t)) else (MAMA_STATUS_INVALID_ARG, None)
  | None => (MAMA_STATUS_INVALID_ARG, None)
  end.

Definition mamaDateTime_setFromStructTimeVal (dt : option mama_datetime_t) (input : option (Z * Z)) : result :=
  match dt, input with
  | Some t, Some (tv_sec, tv_usec) =>
      if 1000000 <=? tv_usec then (MAMA_STATUS_INVALID_ARG, dt)
      else
        let t := mamaDateTimeImpl_setSeconds tv_sec t in
        let t := mamaDateTimeImpl_setMicroSeconds tv_usec t in
        let t := mamaDateTimeImpl_setHasTime t in
        let t := mamaDateTimeImpl_setHasDate t in
        ok (mamaDateTimeImpl_setPrecision (prec_of (if 0 <? tv_usec then 6 else 0)) t)
  | _, _ => (MAMA_STATUS_INVALID_ARG, dt)
  end.

Definition mamaDateTime_getStructTimeValWithTz (dt : option mama_datetime_t) (out : bool) (tz : option Z)
    : mama_status * option (Z * Z) :=
  match dt with
  | Some t =>
      if out then (MAMA_STATUS_OK, Some (i64 (mSeconds t + default 0 tz), mamaDateTimeImpl_getMicroSeconds t))
      else (MAMA_STATUS_INVALID_ARG, None)
  | None => (MAMA_STATUS_INVALID_ARG, None)
  end.

(** ** Broken-down time

    The Apache Portable Runtime breaks a time down: [explode s offset] is
    [apr_time_exp_tz] (and [apr_time_exp_gmt] for the offset 0) of the time [s].
    The functions take it as an argument. *)

Definition WINDOWS_GREGORIAN_EPOCH : Z := -11644473600.

Section Explode.
  Context (explode : Z -> Z -> tm).

Definition mamaDateTime_getStructTmWithTz (dt : option mama_datetime_t) (out : bool) (tz : option Z)
    : mama_status * option tm :=
  match dt with
  | Some t =>
      if negb out then (MAMA_STATUS_INVALID_ARG, None)
      else if mSeconds t <? WINDOWS_GREGORIAN_EPOCH then (MAMA_STATUS_INVALID_ARG, None)
      else (MAMA_STATUS_OK, Some (explode (mSeconds t) (default 0 tz)))
  | None => (MAMA_STATUS_INVALID_ARG, None)
  end.

Definition mamaDateTime_getStructTm (dt : option mama_datetime_t) (out : bool) :=
  mamaDateTime_getStructTmWithTz dt out None.

(** The getters of one field: [None] when nothing is written. *)
Definition get_field (f : tm -> Z) (dt : option mama_datetime_t) : mama_status * option Z :=
  match mamaDateTime_getStructTm dt true with
  | (MAMA_STATUS_OK, Some stm) => (MAMA_STATUS_OK, Some (u32 (f stm)))
  | (status, _) => (status, None)
  end.

Definition mamaDateTime_getYear := get_field (fun stm => tm_year stm + 1900).
Definition mamaDateTime_getMonth := get_field (fun stm => tm_mon stm + 1).
Definition mamaDateTime_getDay := get_field tm_mday.
Definition mamaDateTime_getHour := get_field tm_hour.
Definition mamaDateTime_getMinute := get_field tm_min.
Definition mamaDateTime_getSecond := get_field tm_sec.

End Explode.

Definition mamaDateTime_getMicrosecond (dt : option mama_datetime_t) : mama_status * option Z :=
  match dt with
  | None => (MAMA_STATUS_INVALID_ARG, None)
  | Some t =>
      let us := mamaDateTimeImpl_getMicroSeconds t in
      if (UINT32_MAX <? us) || (us <? 0) then (MAMA_STATUS_INVALID_ARG, None)
      else (MAMA_STATUS_OK, Some (u32 us))
  end.

(** [now] as in [mamaDateTime_setToNow]. *)
Definition mamaDateTime_addTodayToDateTime (now : option (Z * Z)) (t : mama_datetime_t) : result :=
  match now with
  | None => (MAMA_STATUS_SYSTEM_ERROR, Some t)
  | Some (tv_sec, _) =>
      let tmpSeconds := Z.rem (mSeconds t) SECONDS_IN_A_DAY in
      let tmpSeconds := i64 (tmpSeconds + Z.quot (i64 tv_sec) SECONDS_IN_A_DAY * SECONDS_IN_A_DAY) in
      ok (mamaDateTimeImpl_setHasDate (mamaDateTimeImpl_setSeconds tmpSeconds t))
  end.

End DateTime.
