(* ===== verification/DateTimeProps.v ===== *)
(** * Dates and times: the calendar, setting and reading fields, adding time *)

From S2P Require Import Prelude MamaStatus DateTime.
Import DateTime.

(** ** The calendar is injective

    [timegm] gives different numbers for different valid dates and times. *)

Definition month_length (y m : Z) : Z :=
  match m with
  | 1 => if leap y then 29 else 28
  | 3 | 5 | 8 | 10 => 30
  | _ => 31
  end.

Record valid_tm (t : tm) : Prop := mkValidTm {
  v_mon : 0 <= tm_mon t < 12;
  v_mday : 1 <= tm_mday t <= month_length (1900 + tm_year t) (tm_mon t);
  v_hour : 0 <= tm_hour t < 24;
  v_min : 0 <= tm_min t < 60;
  v_sec : 0 <= tm_sec t < 60;
}.

Definition leap_day (y : Z) : Z := if leap y then 1 else 0.

Lemma leap_day_cases y : leap_day y = 0 \/ leap_day y = 1.
Proof. unfold leap_day. destruct (leap y); lia. Qed.

Lemma div_step n k : 0 < k -> (n + 1) / k = n / k + (if (n + 1) `mod` k =? 0 then 1 else 0).
Proof.
  intros Hk. pose proof (Z.div_mod n k ltac:(lia)). pose proof (Z.div_mod (n + 1) k ltac:(lia)).
  pose proof (Z.mod_pos_bound n k Hk). pose proof (Z.mod_pos_bound (n + 1) k Hk).
  destruct (Z.eqb_spec ((n + 1) `mod` k) 0); nia.
Qed.

Lemma days_before_year_succ y : days_before_year (y + 1) = days_before_year y + 365 + leap_day y.
Proof.
  unfold days_before_year, leap_day, leap.
  replace (y + 1 - 1969) with ((y - 1969) + 1) by lia.
  replace (y + 1 - 1901) with ((y - 1901) + 1) by lia.
  replace (y + 1 - 1601) with ((y - 1601) + 1) by lia.
  rewrite !div_step by lia.
  rewrite (mod_shift (y - 1969 + 1) y 4 (-492)) by lia.
  rewrite (mod_shift (y - 1901 + 1) y 100 (-19)) by lia.
  rewrite (mod_shift (y - 1601 + 1) y 400 (-4)) by lia.
  pose proof (Z.div_mod y 400 ltac:(lia)). pose proof (Z.div_mod y 100 ltac:(lia)).
  pose proof (Z.div_mod y 4 ltac:(lia)). pose proof (Z.mod_pos_bound y 4 ltac:(lia)).
  pose proof (Z.mod_pos_bound y 100 ltac:(lia)). pose proof (Z.mod_pos_bound y 400 ltac:(lia)).
  destruct (Z.eqb_spec (y `mod` 4) 0), (Z.eqb_spec (y `mod` 100) 0), (Z.eqb_spec (y `mod` 400) 0);
    cbn; lia.
Qed.

Lemma days_before_year_mono y y' : y <= y' -> days_before_year y <= days_before_year y'.
Proof.
  intros H. replace y' with (y + Z.of_nat (Z.to_nat (y' - y))) by lia.
  induction (Z.to_nat (y' - y)) as [|n IH]; [rewrite Z.add_0_r; lia|].
  replace (y + Z.of_nat (S n)) with (y + Z.of_nat n + 1) by lia. rewrite days_before_year_succ.
  pose proof (leap_day_cases (y + Z.of_nat n)). lia.
Qed.

Ltac month_cases m H :=
  assert (m = 0 \/ m = 1 \/ m = 2 \/ m = 3 \/ m = 4 \/ m = 5 \/ m = 6 \/ m = 7 \/ m = 8 \/ m = 9 \/ m = 10 \/ m = 11)
    as H by lia;
  destruct_or! H; subst m.

Lemma day_of_year_range y m d :
  0 <= m < 12 -> 1 <= d <= month_length y m ->
  0 <= days_before_month y m + (d - 1) < 365 + leap_day y.
Proof.
  unfold month_length, days_before_month, leap_day. intros Hm Hd. destruct (leap y); month_cases m Hc; cbn in *; lia.
Qed.

Lemma day_of_year_inj y m d m' d' :
  0 <= m < 12 -> 1 <= d <= month_length y m -> 0 <= m' < 12 -> 1 <= d' <= month_length y m' ->
  days_before_month y m + (d - 1) = days_before_month y m' + (d' - 1) -> m = m' /\ d = d'.
Proof.
  unfold month_length, days_before_month. intros Hm Hd Hm' Hd' E.
  destruct (leap y); month_cases m Hc; month_cases m' Hc'; cbn in *; lia.
Qed.

Lemma timegm_valid t :
  valid_tm t ->
  timegm t = 86400 * (days_before_year (1900 + tm_year t) +
                      (days_before_month (1900 + tm_year t) (tm_mon t) + (tm_mday t - 1)))
             + (3600 * tm_hour t + 60 * tm_min t + tm_sec t).
Proof. intros []. unfold timegm. rewrite Z.div_small, Z.mod_small, !Z.add_0_r by lia. lia. Qed.

Lemma timegm_inj t t' :
  valid_tm t -> valid_tm t' -> timegm t = timegm t' ->
  tm_year t = tm_year t' /\ tm_mon t = tm_mon t' /\ tm_mday t = tm_mday t' /\
  tm_hour t = tm_hour t' /\ tm_min t = tm_min t' /\ tm_sec t = tm_sec t'.
Proof.
  intros V V'. rewrite !timegm_valid by done. destruct V as [V1 V2 V3 V4 V5], V' as [W1 W2 W3 W4 W5].
  pose proof (day_of_year_range _ _ _ V1 V2) as R. pose proof (day_of_year_range _ _ _ W1 W2) as R'.
  intros E. set (y := 1900 + tm_year t) in *. set (y' := 1900 + tm_year t') in *.
  assert (y = y') as Hy.
  { pose proof (days_before_year_succ y). pose proof (days_before_year_succ y').
    destruct (Z.lt_trichotomy y y') as [H1|[H1|H1]]; [|done|].
    - pose proof (days_before_year_mono (y + 1) y' ltac:(lia)). lia.
    - pose proof (days_before_year_mono (y' + 1) y ltac:(lia)). lia. }
  rewrite <- Hy in *. destruct (day_of_year_inj y (tm_mon t) (tm_mday t) (tm_mon t') (tm_mday t')); try done; lia.
Qed.

(** ** Setting a date and a time *)

(** The [struct tm] of a date and a time as the API writes them. *)
Definition tm_of (y mo d h mi s : Z) : tm := mkTm (y - 1900) (mo - 1) d h mi s 0.

Lemma midnight_bounds y mo d :
  1900 <= y <= 9999 -> valid_tm (tm_of y mo d 0 0 0) ->
  exists k, timegm (tm_of y mo d 0 0 0) = 86400 * k /\ -30000 <= k <= 3000000.
Proof.
  intros Hy V. rewrite timegm_valid by done. destruct V as [V1 V2 _ _ _].
  pose proof (day_of_year_range _ _ _ V1 V2) as R. cbn [tm_of tm_year tm_mon tm_mday tm_hour tm_min tm_sec] in *.
  replace (1900 + (y - 1900)) with y in * by lia. eexists. split; [rewrite Z.add_0_r; reflexivity|].
  pose proof (days_before_year_mono 1900 y ltac:(lia)) as L. pose proof (days_before_year_mono y 9999 ltac:(lia)) as U.
  pose proof (leap_day_cases y). change (days_before_year 1900) with (-25567) in L.
  change (days_before_year 9999) with 2932532 in U. lia.
Qed.

Lemma makeTime_valid y mo d :
  1900 <= y <= 9999 -> 1 <= mo <= 12 -> 1 <= d <= 31 ->
  makeTime (i32 y) (i32 mo) (i32 d) 0 0 0 = timegm (tm_of y mo d 0 0 0).
Proof.
  intros. unfold makeTime, tm_of, SETDATE_MIN_YEAR. rewrite !i32_small by (cbn; lia).
  destruct (Z.leb_spec 1900 y), (Z.ltb_spec 0 mo), (Z.ltb_spec 0 d); lia || done.
Qed.

Lemma month_length_le y m : month_length y m <= 31.
Proof. unfold month_length. repeat case_match; lia. Qed.

Lemma set_date_time dt y mo d h mi s us p :
  1900 <= y <= 9999 -> valid_tm (tm_of y mo d h mi s) -> 0 <= us < 1000000 ->
  mamaDateTime_setWithPrecisionAndTz (Some dt) y mo d h mi s us p None
  = (MAMA_STATUS_OK, Some (mkDateTime (i32 (timegm (tm_of y mo d h mi s))) (us * 1000) p 3)).
Proof.
  intros Hy V Hus. pose proof V as [V1 V2 V3 V4 V5]. cbn [tm_of tm_year tm_mon tm_mday tm_hour tm_min tm_sec] in *.
  pose proof (month_length_le (1900 + (y - 1900)) (mo - 1)).
  assert (valid_tm (tm_of y mo d 0 0 0)) as V0 by (split; cbn [tm_of tm_year tm_mon tm_mday tm_hour tm_min tm_sec]; lia).
  destruct (midnight_bounds y mo d Hy V0) as (k & Ek & Hk).
  assert (timegm (tm_of y mo d h mi s) = 86400 * k + (3600 * h + 60 * mi + s)) as Et.
  { rewrite <- Ek. rewrite !timegm_valid by done. cbn [tm_of tm_year tm_mon tm_mday tm_hour tm_min tm_sec]. lia. }
  unfold mamaDateTime_setWithPrecisionAndTz, mamaDateTime_clear, with_dt, ok. cbn [status_ok negb].
  unfold mamaDateTime_setDate, with_dt, ok, SETDATE_MIN_YEAR. rewrite (makeTime_valid y mo d), Ek by lia.
  destruct (Z.ltb_spec y 1900); [lia|]. cbn [mSeconds mamaDateTimeImpl_clear].
  destruct (Z.eqb_spec (-1) (86400 * k)); [lia|]. cbn [status_ok negb].
  unfold mamaDateTime_setTimeWithPrecisionAndTz, with_dt, ok. destruct (Z.leb_spec 1000000 us); [lia|]. cbn [status_ok negb].
  unfold mamaDateTimeImpl_setHasDate, mamaDateTimeImpl_setSeconds, mamaDateTimeImpl_setHasTime,
    mamaDateTimeImpl_setMicroSeconds, mamaDateTimeImpl_setPrecision, mamaDateTimeImpl_setHint, mamaDateTimeImpl_clear.
  cbn [mSeconds mNanoseconds mPrecision mHints].
  change (Z.rem 0 SECONDS_IN_A_DAY) with 0. rewrite Z.add_0_l. rewrite !(i64_small (86400 * k)) by (cbn; lia).
  change SECONDS_IN_A_DAY with 86400. rewrite (Z.mul_comm 86400 k), Z.quot_mul by lia.
  rewrite i32_u32_add, i64_i32. rewrite (i64_small us), (i64_small (us * 1000)) by (cbn; lia).
  do 3 f_equal. rewrite Et. f_equal.
  rewrite (u32_small (60 * h)), (u32_small (mi + 60 * h)), (u32_small (60 * _)) by (cbn; lia). lia.
Qed.

(** What [apr_time_exp_gmt] is documented to do for the time [s]: the broken-down
    fields are in their ranges and denote [s]. *)
Definition denotes (t : tm) (s : Z) : Prop := valid_tm t /\ timegm t = s.

Lemma get_field_ok explode f dt s :
  mSeconds dt = s -> WINDOWS_GREGORIAN_EPOCH <= s -> 0 <= f (explode s 0) < 2 ^ 32 ->
  get_field explode f (Some dt) = (MAMA_STATUS_OK, Some (f (explode s 0))).
Proof.
  intros <- Hs Hf. unfold get_field, mamaDateTime_getStructTm, mamaDateTime_getStructTmWithTz. cbn [negb default].
  destruct (Z.ltb_spec (mSeconds dt) WINDOWS_GREGORIAN_EPOCH); [lia|]. by rewrite u32_small.
Qed.

(** A date and a time set field by field are read back: for every valid
    date from 1900 on whose number of seconds fits 32 bits, with the runtime
    library breaking that one time down as documented, the year, month, day,
    hour, minute, second and microsecond come back unchanged. *)
Theorem date_time_round_trip explode dt y mo d h mi s us p :
  1900 <= y <= 9999 -> valid_tm (tm_of y mo d h mi s) -> 0 <= us < 1000000 ->
  let secs := timegm (tm_of y mo d h mi s) in
  - 2 ^ 31 <= secs < 2 ^ 31 -> denotes (explode secs 0) secs ->
  let r := mamaDateTime_setWithPrecisionAndTz (Some dt) y mo d h mi s us p None in
  r.1 = MAMA_STATUS_OK /\
  mamaDateTime_getYear explode r.2 = (MAMA_STATUS_OK, Some y) /\
  mamaDateTime_getMonth explode r.2 = (MAMA_STATUS_OK, Some mo) /\
  mamaDateTime_getDay explode r.2 = (MAMA_STATUS_OK, Some d) /\
  mamaDateTime_getHour explode r.2 = (MAMA_STATUS_OK, Some h) /\
  mamaDateTime_getMinute explode r.2 = (MAMA_STATUS_OK, Some mi) /\
  mamaDateTime_getSecond explode r.2 = (MAMA_STATUS_OK, Some s) /\
  mamaDateTime_getMicrosecond r.2 = (MAMA_STATUS_OK, Some us).
Proof.
  intros Hy V Hus secs Hs [V' E] r. unfold r. rewrite set_date_time by done. fold secs. rewrite i32_small by done.
  destruct (timegm_inj _ _ V' V E) as (E1 & E2 & E3 & E4 & E5 & E6). destruct V as [V1 V2 V3 V4 V5].
  pose proof (month_length_le (1900 + (y - 1900)) (mo - 1)).
  cbn [tm_of tm_year tm_mon tm_mday tm_hour tm_min tm_sec fst snd] in *.
  assert (WINDOWS_GREGORIAN_EPOCH <= secs) as Hw by (unfold WINDOWS_GREGORIAN_EPOCH; lia).
  unfold mamaDateTime_getYear, mamaDateTime_getMonth, mamaDateTime_getDay, mamaDateTime_getHour,
    mamaDateTime_getMinute, mamaDateTime_getSecond.
  split; [done|].
  rewrite !(get_field_ok explode _ _ secs) by (done || cbn; lia).
  rewrite E1, E2, E3, E4, E5, E6, !Z.sub_add.
  repeat (split; [done|]). unfold mamaDateTime_getMicrosecond, mamaDateTimeImpl_getMicroSeconds, UINT32_MAX.
  cbn [mNanoseconds]. rewrite Z.quot_mul by lia.
  destruct (Z.ltb_spec (2 ^ 32 - 1) us), (Z.ltb_spec us 0); try lia. cbn [orb]. by rewrite u32_small by lia.
Qed.

(** The time of day goes through a 32-bit variable: every date and time
    from 19 January 2038, 03:14:08 on is accepted, but stored as an earlier
    one, before that moment. *)
Theorem dates_after_2038_wrap dt y mo d h mi s us p :
  1900 <= y <= 9999 -> valid_tm (tm_of y mo d h mi s) -> 0 <= us < 1000000 ->
  2 ^ 31 <= timegm (tm_of y mo d h mi s) ->
  exists t, mamaDateTime_setWithPrecisionAndTz (Some dt) y mo d h mi s us p None = (MAMA_STATUS_OK, Some t) /\
    mSeconds t < 2 ^ 31 <= timegm (tm_of y mo d h mi s) /\
    (timegm (tm_of y mo d h mi s) - mSeconds t) `mod` 2 ^ 32 = 0.
Proof.
  intros Hy V Hus Hs. rewrite set_date_time by done. eexists. split; [done|]. cbn [mSeconds].
  pose proof (i32_range (timegm (tm_of y mo d h mi s))). split; [lia|]. apply i32_diff.
Qed.

(** ** Adding microseconds *)

(** A time in microseconds since the epoch. *)
Definition micros (t : mama_datetime_t) : Z := 1000000 * mSeconds t + mamaDateTimeImpl_getMicroSeconds t.

(** A date-time whose nanoseconds are a fraction of a second. *)
Definition normal (t : mama_datetime_t) : Prop := 0 <= mNanoseconds t < 1000000000 /\ Z.abs (mSeconds t) < 2 ^ 62.

Lemma normal_micros t : normal t -> 0 <= mamaDateTimeImpl_getMicroSeconds t < 1000000.
Proof.
  intros [H _]. unfold mamaDateTimeImpl_getMicroSeconds. rewrite Z.quot_div_nonneg by lia.
  split; [apply Z.div_pos; lia|]. apply Z.div_lt_upper_bound; lia.
Qed.

(** The error of [mamaDateTime_addMicroseconds]: an exact number of seconds, two
    or more, below the start of the current second loses one second too much. *)
Definition lost_second (sum : Z) : Z :=
  if (sum <? -1000000) && (sum `mod` 1000000 =? 0) then 1000000 else 0.

Lemma add_whole_seconds t n :
  normal t -> - 2 ^ 31 <= n < 2 ^ 31 ->
  exists h, (mamaDateTime_addWholeSeconds (Some t) n).2 = Some (mkDateTime (mSeconds t + n) (mNanoseconds t) (mPrecision t) h).
Proof.
  intros [_ Hs] Hn. unfold mamaDateTime_addWholeSeconds, with_dt, ok. destruct (Z.eqb_spec n 0) as [->|].
  - exists (mHints t). rewrite Z.add_0_r. by destruct t.
  - eexists. unfold mamaDateTimeImpl_setHasTime, mamaDateTimeImpl_setHint, mamaDateTimeImpl_setSeconds.
    cbn [mSeconds mNanoseconds mPrecision mHints snd]. by rewrite i64_small by lia.
Qed.

Lemma set_micros us t :
  0 <= us < 1000000 ->
  let t' := mamaDateTimeImpl_setHasTime (mamaDateTimeImpl_setMicroSeconds us t) in
  0 <= mNanoseconds t' < 1000000000 /\ micros t' = 1000000 * mSeconds t + us.
Proof.
  intros Hus. unfold micros, mamaDateTimeImpl_getMicroSeconds, mamaDateTimeImpl_setHasTime, mamaDateTimeImpl_setHint,
    mamaDateTimeImpl_setMicroSeconds. cbn [mSeconds mNanoseconds mPrecision mHints].
  rewrite (i64_small us), (i64_small (us * 1000)) by lia. rewrite Z.quot_mul by lia. lia.
Qed.

(** The seconds and the microseconds [mamaDateTime_addMicroseconds] splits a sum
    into. *)
Definition whole (n : Z) : Z :=
  if 1000000 <=? n then Z.quot n 1000000
  else if n <? 0 then (if -1000000 <=? n then -1 else Z.quot n 1000000 - 1)
  else 0.

Definition fraction (n : Z) : Z :=
  let r := Z.rem n 1000000 in if r <? 0 then r + 1000000 else r.

Lemma whole_fraction n :
  Z.abs n < 2147483001 * 1000000 ->
  0 <= fraction n < 1000000 /\ - 2 ^ 31 <= whole n < 2 ^ 31 /\ 1000000 * whole n + fraction n = n - lost_second n.
Proof.
  intros H. unfold whole, fraction, lost_second.
  destruct (Z.leb_spec 1000000 n), (Z.ltb_spec n 0), (Z.leb_spec (-1000000) n), (Z.ltb_spec n (-1000000)),
    (Z.ltb_spec (Z.rem n 1000000) 0), (Z.eqb_spec (n `mod` 1000000) 0); try lia; cbn [andb];
    Z.to_euclidean_division_equations; lia.
Qed.

Lemma add_microseconds_split t a :
  normal t -> a <> 0 -> Z.abs a < 2147483000 * 1000000 ->
  let n := a + mamaDateTimeImpl_getMicroSeconds t in
  mamaDateTime_addMicroseconds (Some t) a =
  with_dt MAMA_STATUS_INVALID_ARG (mamaDateTime_addWholeSeconds (Some t) (whole n)).2
    (fun t0 => ok (mamaDateTimeImpl_setHasTime (mamaDateTimeImpl_setMicroSeconds (fraction n) t0))).
Proof.
  intros N Ha Hb n. pose proof (normal_micros t N) as Hus.
  destruct (whole_fraction n ltac:(unfold n; lia)) as (_ & Hw & _).
  unfold mamaDateTime_addMicroseconds, with_dt at 1. destruct (Z.eqb_spec a 0); [done|].
  rewrite i64_small by lia. fold n. unfold whole, fraction in *.
  destruct (Z.leb_spec 1000000 n).
  - rewrite i32_small by lia. destruct (Z.ltb_spec (Z.rem n 1000000) 0); [|done].
    Z.to_euclidean_division_equations; lia.
  - destruct (Z.ltb_spec n 0).
    + destruct (Z.leb_spec (-1000000) n); [done|]. by rewrite i32_small by lia.
    + rewrite Z.rem_small by lia. destruct (Z.ltb_spec n 0); [lia|]. done.
Qed.

(** Adding microseconds, positive or negative, within 32 bits of seconds:
    the result is in normal form and denotes exactly the sum, except when the
    sum with the current fraction is an exact number of seconds below minus
    one: then it is one second too early. *)
Theorem add_microseconds_exact t a :
  normal t -> Z.abs a < 2147483000 * 1000000 ->
  exists t', mamaDateTime_addMicroseconds (Some t) a = (MAMA_STATUS_OK, Some t') /\
    0 <= mNanoseconds t' < 1000000000 /\
    micros t' = micros t + a - lost_second (a + mamaDateTimeImpl_getMicroSeconds t).
Proof.
  intros N Ha. pose proof (normal_micros t N) as Hus. destruct (decide (a = 0)) as [->|Hnz].
  - exists t. split; [done|]. destruct N as [Hn _]. split; [done|]. unfold lost_second.
    destruct (Z.ltb_spec (0 + mamaDateTimeImpl_getMicroSeconds t) (-1000000)); [lia|]. cbn [andb]. lia.
  - rewrite add_microseconds_split by done. cbn zeta. set (n := a + mamaDateTimeImpl_getMicroSeconds t) in *.
    destruct (whole_fraction n ltac:(lia)) as (Hf & Hw & E).
    destruct (add_whole_seconds t (whole n) N Hw) as [h ->]. eexists. split; [reflexivity|].
    destruct (set_micros (fraction n) (mkDateTime (mSeconds t + whole n) (mNanoseconds t) (mPrecision t) h) Hf) as [B ->].
    split; [done|]. unfold micros. cbn [mSeconds]. lia.
Qed.

(** ** Witnesses *)

Ltac by_computing := repeat split; vm_compute; congruence.


Definition demo_dt : mama_datetime_t := mkDateTime 1339063872 123456000 MAMA_DATE_TIME_PREC_MICROSECONDS 3.

(** 7 June 2012, 10:11:12. *)
Lemma date_time_round_trip_witness :
  let explode := fun _ _ => mkTm 112 5 7 10 11 12 4 in
  let r := mamaDateTime_setWithPrecisionAndTz (Some demo_dt) 2012 6 7 10 11 12 123456 MAMA_DATE_TIME_PREC_MICROSECONDS None in
  r.1 = MAMA_STATUS_OK /\
  mamaDateTime_getYear explode r.2 = (MAMA_STATUS_OK, Some 2012) /\
  mamaDateTime_getMonth explode r.2 = (MAMA_STATUS_OK, Some 6) /\
  mamaDateTime_getDay explode r.2 = (MAMA_STATUS_OK, Some 7) /\
  mamaDateTime_getHour explode r.2 = (MAMA_STATUS_OK, Some 10) /\
  mamaDateTime_getMinute explode r.2 = (MAMA_STATUS_OK, Some 11) /\
  mamaDateTime_getSecond explode r.2 = (MAMA_STATUS_OK, Some 12) /\
  mamaDateTime_getMicrosecond r.2 = (MAMA_STATUS_OK, Some 123456).
Proof.
  apply date_time_round_trip; [lia|by_computing|lia|by_computing|].
  split; [by_computing|reflexivity].
Defined.

Lemma dates_after_2038_wrap_witness :
  exists t, mamaDateTime_setWithPrecisionAndTz (Some demo_dt) 2040 2 29 12 0 0 0 MAMA_DATE_TIME_PREC_SECONDS None
            = (MAMA_STATUS_OK, Some t) /\
    mSeconds t < 2 ^ 31 <= timegm (tm_of 2040 2 29 12 0 0) /\
    (timegm (tm_of 2040 2 29 12 0 0) - mSeconds t) `mod` 2 ^ 32 = 0.
Proof. apply dates_after_2038_wrap; [lia|by_computing|lia|by_computing]. Defined.

Lemma add_microseconds_exact_witness :
  exists t', mamaDateTime_addMicroseconds (Some demo_dt) (-2123456) = (MAMA_STATUS_OK, Some t') /\
    0 <= mNanoseconds t' < 1000000000 /\
    micros t' = micros demo_dt + -2123456 - 1000000.
Proof. apply (add_microseconds_exact demo_dt (-2123456)); [by_computing|lia]. Defined.
