(* ===== verification/DateTimeText.v ===== *)
(** * Dates and times as text (mama/c_cpp/src/c/datetime.c, mamaStrUtils.c)

    [mamaDateTime_setFromString] and its variants, and
    [mamaDateTime_getAsFormattedString].  A text is a [string] without its
    terminator; the buffer that is written is the list of the characters so
    far, [maxLen] its size.  A write past the end of the buffer is a fault. *)

From S2P Require Import Prelude MamaStatus Cstdio DateTime.
From Stdlib Require Import Ascii String.
#[local] Open Scope Z_scope.
Import Cstdio DateTime.

Module DateTimeText.

(** ** Reading *)

(** [strchr]: the rest of the text from the first occurrence on. *)
Fixpoint strchr (s : string) (c : Z) : option string :=
  match s with
  | EmptyString => None
  | String a s' => if code a =? c then Some s else strchr s' c
  end.

(** [p + 1]. *)
Definition next_char (s : string) : string :=
  match s with String _ s' => s' | EmptyString => EmptyString end.

(** [strtoul] in base 10, with its saturation. *)
Definition strtoul (s : string) : Z :=
  let '(neg, s) := get_sign (skip_space s) in
  match get_number 10 s with
  | None => 0
  | Some (v, _) => if 2 ^ 64 <=? v then 2 ^ 64 - 1 else if neg : bool then u64 (- v) else v
  end.

(** The digits after the dot: their value and their number. *)
Fixpoint subsecond_loop (ch : string) (i microsecs : Z) : Z * Z :=
  match ch with
  | String c ch' =>
      if (48 <=? code c) && (code c <=? 57)
      then subsecond_loop ch' (i + 1) (u64 (10 * microsecs + (code c - 48)))
      else (i, microsecs)
  | EmptyString => (i, microsecs)
  end.

(** [while (i++ < 6) microsecs *= 10]. *)
Fixpoint scale_loop (fuel : nat) (i microsecs : Z) : Z :=
  match fuel with
  | O => microsecs
  | S fuel' => if i <? 6 then scale_loop fuel' (i + 1) (u64 (microsecs * 10)) else microsecs
  end.

Definition SPACE : Z := 32.
Definition COMMA : Z := 44.
Definition DASH : Z := 45.
Definition DOT : Z := 46.
Definition SLASH : Z := 47.
Definition COLON : Z := 58.

(** Year, month and day of the text, and whether there is a date. *)
Definition read_date (str : string) : Z * Z * Z * bool :=
  let '(slash1, slash2) :=
    match strchr str SLASH with
    | Some s1 => (Some s1, strchr (next_char s1) SLASH)
    | None =>
        match strchr str DASH with
        | Some s1 => (Some s1, strchr (next_char s1) DASH)
        | None => (None, None)
        end
    end in
  match slash1, slash2 with
  | Some s1, Some s2 => (strtoul str, strtoul (next_char s1), strtoul (next_char s2), true)
  | Some s1, None => (0, strtoul str, strtoul (next_char s1), true)
  | None, _ => (0, 0, 0, false)
  end.

(** Hour, minute, second, microseconds and digits of the text, and whether
    there is a time. *)
Definition read_time (str : string) : Z * Z * Z * Z * Z * bool :=
  let strtime := match strchr str SPACE with Some space => next_char space | None => str end in
  match strchr strtime COLON with
  | None => (0, 0, 0, 0, 0, false)
  | Some colon1 =>
      let hour := strtoul strtime in
      let minute := strtoul (next_char colon1) in
      match strchr (next_char colon1) COLON with
      | None => (hour, minute, 0, 0, 0, true)
      | Some colon2 =>
          let second := strtoul (next_char colon2) in
          match strchr (next_char colon2) DOT with
          | None => (hour, minute, second, 0, 0, true)
          | Some dot =>
              let '(i, microsecs) := subsecond_loop (next_char dot) 0 0 in
              (hour, minute, second, scale_loop 6 i microsecs, i, true)
          end
      end
  end.

(** [tz] is the offset of the time zone, if one is given. *)
Definition mamaDateTime_setFromStringWithTz (dt : option mama_datetime_t) (str : option string) (tz : option Z) : result :=
  match dt, str with
  | None, _ => (MAMA_STATUS_INVALID_ARG, None)
  | Some _, None => mamaDateTime_clear dt
  | Some t, Some str =>
      let '(year, month, day, has_date) := read_date str in
      let '(hour, minute, second, microsecs, precision, has_time) := read_time str in
      let t := mamaDateTimeImpl_clear t in
      let t := if has_date : bool then mamaDateTimeImpl_setHasDate t else t in
      let t := if has_time : bool then mamaDateTimeImpl_setHasTime t else t in
      let epochSeconds := makeTime (i32 year) (i32 month) (i32 day) (i32 hour) (i32 minute) (i32 second) in
      let epochSeconds := match tz with Some offset => epochSeconds - offset | None => epochSeconds end in
      let t := mamaDateTimeImpl_setPrecision (prec_of precision) t in
      let t := mamaDateTimeImpl_setSeconds epochSeconds t in
      ok (mamaDateTimeImpl_setMicroSeconds microsecs t)
  end.

Definition mamaDateTime_setFromString (dt : option mama_datetime_t) (str : option string) : result :=
  mamaDateTime_setFromStringWithTz dt str None.

(** The first [strLen] characters of the text; [alloc]: whether calloc succeeds. *)
Definition mamaDateTime_setFromStringBufferWithTz (alloc : bool) (dt : option mama_datetime_t) (str : string)
    (strLen : nat) (tz : option Z) : result :=
  if alloc then mamaDateTime_setFromStringWithTz dt (Some (String.substring 0 strLen str)) tz
  else (MAMA_STATUS_NOMEM, dt).

(** ** Writing *)

Section Buffer.
  Context (maxLen : Z).

Definition room (out : list ascii) : bool := Z.of_nat (List.length out) <? maxLen.

Definition printChar (c : ascii) (out : list ascii) : list ascii :=
  if room out then out ++ [c] else out.

Definition printDigit (digit : Z) (out : list ascii) : list ascii := printChar (chr (u8 (u32 digit + 48))) out.

Fixpoint printString (str : string) (out : list ascii) : list ascii :=
  match str with
  | EmptyString => out
  | String c str' => if room out then printString str' (out ++ [c]) else out
  end.

(** The tens and the ones of a number, and four digits of a year. *)
Definition print_2 (n : Z) (out : list ascii) : list ascii := printDigit (n `mod` 10) (printDigit (n / 10) out).
Definition print_4 (n : Z) (out : list ascii) : list ascii :=
  let out := printDigit (n / 1000) out in
  let n := n `mod` 1000 in
  let out := printDigit (n / 100) out in
  let n := n `mod` 100 in
  print_2 n out.

Definition printSubseconds (precision : mamaDateTimePrecision) (microsecs : Z) (out : list ascii) : list ascii :=
  match precision with
  | MAMA_DATE_TIME_PREC_MICROSECONDS =>
      let out := printDigit (Z.quot microsecs 100000) out in
      let microsecs := Z.rem microsecs 100000 in
      let out := printDigit (Z.quot microsecs 10000) out in
      let microsecs := Z.rem microsecs 10000 in
      let out := printDigit (Z.quot microsecs 1000) out in
      let microsecs := Z.rem microsecs 1000 in
      let out := printDigit (Z.quot microsecs 100) out in
      let microsecs := Z.rem microsecs 100 in
      let out := printDigit (Z.quot microsecs 10) out in
      let microsecs := Z.rem microsecs 10 in
      printDigit microsecs out
  | MAMA_DATE_TIME_PREC_UNKNOWN | MAMA_DATE_TIME_PREC_MILLISECONDS =>
      let microsecs := Z.quot microsecs 1000 in
      let out := printDigit (Z.quot microsecs 100) out in
      let microsecs := Z.rem microsecs 100 in
      let out := printDigit (Z.quot microsecs 10) out in
      let microsecs := Z.rem microsecs 10 in
      printDigit microsecs out
  | MAMA_DATE_TIME_PREC_CENTISECONDS =>
      let microsecs := Z.quot microsecs 100 in
      let out := printDigit (Z.quot microsecs 10) out in
      let microsecs := Z.rem microsecs 10 in
      printDigit microsecs out
  | MAMA_DATE_TIME_PREC_DECISECONDS =>
      let microsecs := Z.quot microsecs 10 in
      printDigit microsecs out
  | _ => out
  end.

Definition gMonthsAbbrev : list string :=
  ["Jan"; "Feb"; "Mar"; "Apr"; "May"; "Jun"; "Jul"; "Aug"; "Sep"; "Oct"; "Nov"; "Dec"]%string.
Definition gMonthsAbbrevAllCap : list string :=
  ["JAN"; "FEB"; "MAR"; "APR"; "MAY"; "JUN"; "JUL"; "AUG"; "SEP"; "OCT"; "NOV"; "DEC"]%string.
Definition gMonthsFull : list string :=
  ["January"; "February"; "March"; "April"; "May"; "June";
   "July"; "August"; "September"; "October"; "November"; "December"]%string.

(** The name of a month; an index outside the table is a fault. *)
Definition month_name (table : list string) (m : Z) (out : list ascii) : res (list ascii) :=
  if m <? 0 then Fail InvalidDeref
  else match table !! Z.to_nat m with
       | Some name => Ok (printString name out)
       | None => Fail InvalidDeref
       end.

Definition sep (c : Z) : list ascii -> list ascii := printChar (chr c).

(** The switch over the character after a [%]: [None] for a character that is
    no conversion.  [date_or] and [time_or] print blanks when the date-time has no
    date or no time. *)
Definition date_or (impl : mama_datetime_t) (blank : string) (out out' : list ascii) : option (res (list ascii)) :=
  Some (Ok (if mamaDateTimeImpl_getHasDate impl then out' else printString blank out)).
Definition time_or (impl : mama_datetime_t) (blank : string) (out out' : list ascii) : option (res (list ascii)) :=
  Some (Ok (if mamaDateTimeImpl_getHasTime impl then out' else printString blank out)).
Definition name_or (impl : mama_datetime_t) (blank : string) (x : tm) (table : list string) (out : list ascii) :
    option (res (list ascii)) :=
  Some (if mamaDateTimeImpl_getHasDate impl then month_name table (tm_mon x) out else Ok (printString blank out)).

Definition convert_date (impl : mama_datetime_t) (x : tm) (k : ascii) (out : list ascii) : option (res (list ascii)) :=
  if Ascii.eqb k "Y" then date_or impl "    " out (print_4 (u32 (tm_year x + 1900)) out)
  else if Ascii.eqb k "y" then date_or impl "  " out (print_2 (u32 (Z.rem (tm_year x) 100)) out)
  else if Ascii.eqb k "m" then date_or impl "  " out (print_2 (u32 (tm_mon x + 1)) out)
  else if Ascii.eqb k "d" then date_or impl "  " out (print_2 (u32 (tm_mday x)) out)
  else if Ascii.eqb k "F" then
    date_or impl "    -  -  " out
      (print_2 (u32 (tm_mday x)) (sep DASH (print_2 (u32 (tm_mon x + 1)) (sep DASH (print_4 (u32 (tm_year x + 1900)) out)))))
  else if Ascii.eqb k "T" then
    time_or impl "  :  :  " out
      (print_2 (u32 (tm_sec x)) (sep COLON (print_2 (u32 (tm_min x)) (sep COLON (print_2 (u32 (tm_hour x)) out)))))
  else if Ascii.eqb k "D" then
    date_or impl "    -  -  " out
      (print_2 (u32 (tm_year x)) (sep SLASH (print_2 (u32 (tm_mday x)) (sep SLASH (print_2 (u32 (tm_mon x + 1)) out)))))
  else None.

Definition convert_time (impl : mama_datetime_t) (x : tm) (k : ascii) (out : list ascii) : option (res (list ascii)) :=
  let us := mamaDateTimeImpl_getMicroSeconds impl in
  let has_subsecond := mamaDateTimeImpl_getHasTime impl && (0 <? us) in
  if Ascii.eqb k "H" then time_or impl "  " out (print_2 (u32 (tm_hour x)) out)
  else if Ascii.eqb k "M" then time_or impl "  " out (print_2 (u32 (tm_min x)) out)
  else if Ascii.eqb k "S" then time_or impl "  " out (print_2 (u32 (tm_sec x)) out)
  else if Ascii.eqb k ":" then time_or impl "   " out (printSubseconds MAMA_DATE_TIME_PREC_MILLISECONDS us out)
  else if Ascii.eqb k ";" then
    Some (Ok (if has_subsecond then printSubseconds MAMA_DATE_TIME_PREC_MILLISECONDS us (sep DOT out) else out))
  else if Ascii.eqb k "." then time_or impl "   " out (printSubseconds (mPrecision impl) us out)
  else if Ascii.eqb k "," then
    Some (Ok (if has_subsecond then printSubseconds (mPrecision impl) us (sep DOT out) else out))
  else if Ascii.eqb k "B" then name_or impl "     " x gMonthsFull out
  else if Ascii.eqb k "b" then name_or impl "   " x gMonthsAbbrev out
  else if Ascii.eqb k "h" then name_or impl "   " x gMonthsAbbrevAllCap out
  else None.

Definition convert (impl : mama_datetime_t) (x : tm) (k : ascii) (out : list ascii) : option (res (list ascii)) :=
  match convert_date impl x k out with
  | Some r => Some r
  | None => convert_time impl x k out
  end.

(** [result[resLen++] = c] without a test. *)
Definition store (c : ascii) (out : list ascii) : res (list ascii) :=
  if room out then Ok (out ++ [c]) else Fail InvalidDeref.

Definition PERCENT : ascii := chr 37.

(** The loop over the format.  After a final [%] the switch falls through: the
    character is stored twice. *)
Fixpoint format_loop (impl : mama_datetime_t) (x : tm) (fmt : string) (out : list ascii) : res (list ascii) :=
  match fmt with
  | EmptyString => Ok out
  | String c rest =>
      if negb (room out) then Ok out
      else if negb (Ascii.eqb c PERCENT) then
        match store c out with Ok out' => format_loop impl x rest out' | Fail f => Fail f end
      else
        match rest with
        | EmptyString =>
            match store PERCENT out with Ok out' => store PERCENT out' | Fail f => Fail f end
        | String k rest' =>
            match convert impl x k out with
            | Some (Ok out') => format_loop impl x rest' out'
            | Some (Fail f) => Fail f
            | None => match store PERCENT out with Ok out' => format_loop impl x rest out' | Fail f => Fail f end
            end
        end
  end.

(** The terminator: the text that a reader of the buffer finds. *)
Definition terminate (out : list ascii) : res string :=
  if room out then Ok (string_of_list_ascii out)
  else if maxLen <? 1 then Fail InvalidDeref
  else Ok (string_of_list_ascii (take (Z.to_nat (maxLen - 1)) out)).

End Buffer.

Section Format.
  Context (explode : Z -> Z -> tm).

(** [offset] is that of the time zone, 0 without one; [buffer]: whether there
    is one to write to. *)
Definition mamaDateTime_getAsFormattedStringWithTz (dt : option mama_datetime_t) (buffer : bool) (maxLen : Z)
    (fmt : string) (offset : Z) : res (mama_status * option string) :=
  match dt with
  | None => Ok (MAMA_STATUS_INVALID_ARG, None)
  | Some impl =>
      if negb buffer then Ok (MAMA_STATUS_INVALID_ARG, None)
      else if mSeconds impl <? WINDOWS_GREGORIAN_EPOCH then Ok (MAMA_STATUS_INVALID_ARG, None)
      else
        match format_loop maxLen impl (explode (mSeconds impl) offset) fmt [] with
        | Fail f => Fail f
        | Ok out =>
            match terminate maxLen out with
            | Ok text => Ok (MAMA_STATUS_OK, Some text)
            | Fail f => Fail f
            end
        end
  end.

Definition mamaDateTime_getAsFormattedString (dt : option mama_datetime_t) (buffer : bool) (maxLen : Z) (fmt : string) :=
  mamaDateTime_getAsFormattedStringWithTz dt buffer maxLen fmt 0.

End Format.

End DateTimeText.
