(* ===== verification/DateTimeTextProps.v ===== *)
(** * Dates and times as text: the round trip, and what writing can overrun *)

From S2P Require Import Prelude MamaStatus Cstdio DateTime DateTimeProps DateTimeText.
From Stdlib Require Import Ascii String.
#[local] Open Scope Z_scope.
Import Cstdio DateTime DateTimeText.

(** ** Numbers of a fixed width *)

Definition dig (v : Z) : ascii := chr (48 + v).

Fixpoint digits (k : nat) (n : Z) : list ascii :=
  match k with
  | O => []
  | S k' => digits k' (n / 10) ++ [dig (n `mod` 10)]
  end.

(** The characters in front of a text. *)
Definition put (l : list ascii) (s : string) : string := foldr String s l.

Lemma put_chars_app l1 l2 s : put (l1 ++ l2) s = put l1 (put l2 s).
Proof. apply foldr_app. Qed.

Lemma string_of_put l : string_of_list_ascii l = put l EmptyString.
Proof. induction l as [|c l IH]; [done|]. cbn. by rewrite IH. Qed.

Lemma length_digits k n : List.length (digits k n) = k.
Proof. revert n. induction k as [|k IH]; intros n; [done|]. cbn. rewrite length_app, IH. cbn. lia. Qed.

Lemma dig_cons v w l l' : v = w -> l = l' -> dig v :: l = dig w :: l'.
Proof. by intros -> ->. Qed.

Lemma code_dig v : 0 <= v < 10 -> code (dig v) = 48 + v.
Proof. intros. unfold dig. apply code_chr. lia. Qed.

Lemma dig_char v : 0 <= v < 10 -> digit_char v = dig v.
Proof. intros H. unfold digit_char. by destruct (Z.ltb_spec v 10); [|lia]. Qed.

Lemma digit_in_dig v : 0 <= v < 10 -> digit_in 10 (dig v) = Some v.
Proof. intros H. rewrite <- dig_char by done. apply digit_in_char; lia. Qed.

Lemma mod10 n : 0 <= n `mod` 10 < 10.
Proof. apply Z.mod_pos_bound. lia. Qed.

Lemma strchr_digits c k n s : c < 48 \/ 57 < c -> strchr (put (digits k n) s) c = strchr s c.
Proof.
  intros Hc. revert n s. induction k as [|k IH]; intros n s; [done|]. cbn [digits]. rewrite put_chars_app, IH. cbn.
  pose proof (mod10 n). rewrite code_dig by done. destruct (Z.eqb_spec (48 + n `mod` 10) c); [lia|done].
Qed.

Lemma get_digits_digits k n acc s :
  0 <= n < 10 ^ Z.of_nat k ->
  get_digits 10 acc (put (digits k n) s) = get_digits 10 (acc * 10 ^ Z.of_nat k + n) s.
Proof.
  revert n acc s. induction k as [|k IH]; intros n acc s Hn.
  - cbn in *. f_equal. lia.
  - rewrite Nat2Z.inj_succ, Z.pow_succ_r in * by lia. cbn [digits]. rewrite put_chars_app, IH.
    + cbn. rewrite digit_in_dig by apply mod10. f_equal. pose proof (Z.div_mod n 10 ltac:(lia)). lia.
    + split; [apply Z.div_pos; lia|]. apply Z.div_lt_upper_bound; lia.
Qed.

Lemma digits_first k n s : exists v s', 0 <= v < 10 /\ put (digits (S k) n) s = String (dig v) s'.
Proof.
  revert n s. induction k as [|k IH]; intros n s.
  - exists (n `mod` 10). eexists. split; [apply mod10|]. done.
  - cbn [digits]. rewrite put_chars_app. apply (IH (n / 10)).
Qed.

Lemma strtoul_digits k n s :
  0 <= n < 10 ^ Z.of_nat (S k) -> 10 ^ Z.of_nat (S k) <= 2 ^ 64 -> stops 10 s ->
  strtoul (put (digits (S k) n) s) = n.
Proof.
  intros Hn Hk Hs. pose proof (get_digits_digits (S k) n 0 s Hn) as E.
  destruct (digits_first k n s) as (v & s' & Hv & Ev). rewrite Ev in *. unfold strtoul.
  cbn [skip_space get_sign get_number]. unfold is_space. rewrite code_dig by done.
  destruct (Z.eqb_spec (48 + v) 32), (Z.leb_spec 9 (48 + v)), (Z.leb_spec (48 + v) 13); try lia. cbn [orb andb].
  cbn [get_sign get_number]. rewrite code_dig by done.
  destruct (Z.eqb_spec (48 + v) 45), (Z.eqb_spec (48 + v) 43); try lia.
  cbn [get_number]. rewrite digit_in_dig by done. rewrite E, get_digits_stops by done.
  rewrite Z.mul_0_l, Z.add_0_l. destruct (Z.leb_spec (2 ^ 64) n); lia.
Qed.

Lemma subsecond_digits k n i acc s :
  0 <= n < 10 ^ Z.of_nat k -> 0 <= acc -> (acc + 1) * 10 ^ Z.of_nat k <= 2 ^ 64 ->
  subsecond_loop (put (digits k n) s) i acc = subsecond_loop s (i + Z.of_nat k) (acc * 10 ^ Z.of_nat k + n).
Proof.
  revert n i acc s. induction k as [|k IH]; intros n i acc s Hn Ha Hb.
  - cbn in *. f_equal; lia.
  - rewrite Nat2Z.inj_succ, Z.pow_succ_r in * by lia. cbn [digits].
    assert (0 <= n / 10 < 10 ^ Z.of_nat k) by (split; [apply Z.div_pos; lia|]; apply Z.div_lt_upper_bound; lia).
    rewrite put_chars_app, IH by (done || nia). cbn. pose proof (mod10 n). rewrite code_dig by done.
    destruct (Z.leb_spec 48 (48 + n `mod` 10)), (Z.leb_spec (48 + n `mod` 10) 57); try lia. cbn [andb].
    pose proof (Z.div_mod n 10 ltac:(lia)). f_equal; [lia|]. unfold u64. rewrite uwrap_small; [lia|]. unfold in_u. nia.
Qed.

(** ** Writing into a buffer with room *)

Definition fits (maxLen : Z) (out : list ascii) (k : nat) : Prop := Z.of_nat (List.length out) + Z.of_nat k <= maxLen.

Lemma printChar_fits maxLen c out : fits maxLen out 1 -> printChar maxLen c out = out ++ [c].
Proof.
  intros H. unfold printChar, room, fits in *. destruct (Z.ltb_spec (Z.of_nat (List.length out)) maxLen); [done|lia].
Qed.

Lemma printDigit_fits maxLen v out : 0 <= v < 10 -> fits maxLen out 1 -> printDigit maxLen v out = out ++ [dig v].
Proof.
  intros Hv H. unfold printDigit. rewrite printChar_fits by done.
  rewrite (u32_small v) by lia. unfold dig, u8. rewrite uwrap_small by (unfold in_u; lia). by rewrite Z.add_comm.
Qed.

Lemma fits_app maxLen out l k : fits maxLen out (List.length l + k) -> fits maxLen (out ++ l) k.
Proof. unfold fits. rewrite length_app. lia. Qed.

Lemma fits_le maxLen out k k' : (k' <= k)%nat -> fits maxLen out k -> fits maxLen out k'.
Proof. unfold fits. lia. Qed.

Ltac fits_tac :=
  lazymatch goal with
  | |- fits _ _ _ => repeat apply fits_app; first [done | eapply fits_le; [|done]; cbn; lia]
  | _ => first [done | lia | Z.to_euclidean_division_equations; lia]
  end.

Lemma print_2_fits maxLen n out : 0 <= n < 100 -> fits maxLen out 2 -> print_2 maxLen n out = out ++ digits 2 n.
Proof.
  intros Hn H. unfold print_2. assert (0 <= n / 10 < 10) by (split; [apply Z.div_pos; lia|apply Z.div_lt_upper_bound; lia]).
  rewrite (printDigit_fits _ (n / 10)) by fits_tac.
  rewrite printDigit_fits by fits_tac.
  cbn. by rewrite (Z.mod_small (n / 10)), <- app_assoc.
Qed.

Lemma print_4_fits maxLen n out : 0 <= n < 10000 -> fits maxLen out 4 -> print_4 maxLen n out = out ++ digits 4 n.
Proof.
  intros Hn H. unfold print_4.
  assert (0 <= n / 1000 < 10) by (split; [apply Z.div_pos; lia|apply Z.div_lt_upper_bound; lia]).
  pose proof (Z.mod_pos_bound n 1000 ltac:(lia)).
  assert (0 <= n `mod` 1000 / 100 < 10) by (split; [apply Z.div_pos; lia|apply Z.div_lt_upper_bound; lia]).
  pose proof (Z.mod_pos_bound (n `mod` 1000) 100 ltac:(lia)).
  rewrite (printDigit_fits _ (n / 1000)) by fits_tac.
  rewrite (printDigit_fits _ (n `mod` 1000 / 100)) by fits_tac.
  rewrite print_2_fits by fits_tac.
  cbn. rewrite <- !app_assoc. cbn. f_equal. 
  repeat (apply dig_cons; [Z.to_euclidean_division_equations; lia|]). done.
Qed.

Lemma print_micros_fits maxLen us out :
  0 <= us < 1000000 -> fits maxLen out 6 ->
  printSubseconds maxLen MAMA_DATE_TIME_PREC_MICROSECONDS us out = out ++ digits 6 us.
Proof.
  intros Hn H. unfold printSubseconds.
  rewrite (printDigit_fits _ (Z.quot us 100000)) by fits_tac.
  do 5 (rewrite (printDigit_fits _ _ (_ ++ [_])) by fits_tac).
  cbn. rewrite <- !app_assoc. cbn. f_equal.
  repeat (apply dig_cons; [Z.to_euclidean_division_equations; lia|]). done.
Qed.


(** ** The round trip *)

(** The characters of [YYYY-mm-dd HH:MM:SS.uuuuuu]. *)
Definition iso (x : tm) (us : Z) : list ascii :=
  digits 4 (1900 + tm_year x) ++ [chr DASH] ++ digits 2 (tm_mon x + 1) ++ [chr DASH] ++ digits 2 (tm_mday x) ++
  [chr SPACE] ++ digits 2 (tm_hour x) ++ [chr COLON] ++ digits 2 (tm_min x) ++ [chr COLON] ++ digits 2 (tm_sec x) ++
  [chr DOT] ++ digits 6 us.

Lemma length_iso x us : List.length (iso x us) = 26%nat.
Proof. unfold iso. rewrite !length_app, !length_digits. done. Qed.

Lemma format_date impl x maxLen out :
  mamaDateTimeImpl_getHasDate impl = true -> valid_tm x -> 1900 <= 1900 + tm_year x <= 9999 -> fits maxLen out 10 ->
  convert maxLen impl x "F" out =
  Some (Ok (out ++ digits 4 (1900 + tm_year x) ++ [chr DASH] ++ digits 2 (tm_mon x + 1) ++ [chr DASH] ++ digits 2 (tm_mday x))).
Proof.
  intros Hd [V1 V2 _ _ _] Hy H. pose proof (month_length_le (1900 + tm_year x) (tm_mon x)).
  unfold convert, convert_date, convert_time, date_or, time_or. cbn [Ascii.eqb Bool.eqb]. rewrite Hd. do 2 f_equal. unfold sep.
  rewrite (Z.add_comm (tm_year x)), !u32_small by lia.
  rewrite print_4_fits by fits_tac. rewrite (printChar_fits _ _ (_ ++ digits 4 _)) by fits_tac.
  rewrite (print_2_fits _ _ (_ ++ [_])) by fits_tac. rewrite (printChar_fits _ _ (_ ++ digits 2 _)) by fits_tac.
  rewrite (print_2_fits _ _ (_ ++ [_])) by fits_tac. by rewrite <- !app_assoc.
Qed.

Lemma format_time impl x maxLen out :
  mamaDateTimeImpl_getHasTime impl = true -> valid_tm x -> fits maxLen out 8 ->
  convert maxLen impl x "T" out =
  Some (Ok (out ++ digits 2 (tm_hour x) ++ [chr COLON] ++ digits 2 (tm_min x) ++ [chr COLON] ++ digits 2 (tm_sec x))).
Proof.
  intros Hd [_ _ V3 V4 V5] H. unfold convert, convert_date, convert_time, date_or, time_or. cbn [Ascii.eqb Bool.eqb]. rewrite Hd. do 2 f_equal. unfold sep.
  rewrite !u32_small by lia.
  rewrite (print_2_fits _ (tm_hour x)) by fits_tac. rewrite (printChar_fits _ _ (_ ++ digits 2 _)) by fits_tac.
  rewrite (print_2_fits _ _ (_ ++ [_])) by fits_tac. rewrite (printChar_fits _ _ (_ ++ digits 2 _)) by fits_tac.
  rewrite (print_2_fits _ _ (_ ++ [_])) by fits_tac. by rewrite <- !app_assoc.
Qed.

Lemma format_micros impl x maxLen out us :
  mamaDateTimeImpl_getHasTime impl = true -> mPrecision impl = MAMA_DATE_TIME_PREC_MICROSECONDS ->
  mamaDateTimeImpl_getMicroSeconds impl = us -> 0 <= us < 1000000 -> fits maxLen out 6 ->
  convert maxLen impl x "." out = Some (Ok (out ++ digits 6 us)).
Proof.
  intros Hd Hp <- Hus H. unfold convert, convert_date, convert_time, date_or, time_or. cbn [Ascii.eqb Bool.eqb]. rewrite Hd, Hp. do 2 f_equal. by apply print_micros_fits.
Qed.

Lemma room_fits maxLen out : fits maxLen out 1 -> room maxLen out = true.
Proof. unfold room, fits. intros H. apply Z.ltb_lt. lia. Qed.

Lemma format_char maxLen impl x c rest out :
  Ascii.eqb c PERCENT = false -> fits maxLen out 1 ->
  format_loop maxLen impl x (String c rest) out = format_loop maxLen impl x rest (out ++ [c]).
Proof. intros Hc H. cbn [format_loop]. unfold store. by rewrite room_fits, Hc. Qed.

Lemma format_convert maxLen impl x k rest out out' :
  fits maxLen out 1 -> convert maxLen impl x k out = Some (Ok out') ->
  format_loop maxLen impl x (String PERCENT (String k rest)) out = format_loop maxLen impl x rest out'.
Proof. intros H E. cbn [format_loop]. by rewrite room_fits, Ascii.eqb_refl, E. Qed.

Ltac iso_len := rewrite ?length_app, ?length_digits; cbn; lia.

Lemma format_iso impl x maxLen us :
  mHints impl = 3 -> mPrecision impl = MAMA_DATE_TIME_PREC_MICROSECONDS ->
  mamaDateTimeImpl_getMicroSeconds impl = us -> 0 <= us < 1000000 ->
  valid_tm x -> 1900 <= 1900 + tm_year x <= 9999 -> 27 <= maxLen ->
  format_loop maxLen impl x "%F %T.%." [] = Ok (iso x us).
Proof.
  intros Hh Hp Hus Hr V Hy Hm.
  assert (mamaDateTimeImpl_getHasDate impl = true) as Hd by (unfold mamaDateTimeImpl_getHasDate; by rewrite Hh).
  assert (mamaDateTimeImpl_getHasTime impl = true) as Ht by (unfold mamaDateTimeImpl_getHasTime; by rewrite Hh).
  assert (forall l k, (List.length l + k <= 26)%nat -> fits maxLen l k) as Hf by (unfold fits; intros; lia).
  etrans; [apply (format_convert _ _ _ "F" " %T.%."); [apply Hf; cbn; lia|apply format_date; [done..|apply Hf; cbn; lia]]|].
  etrans; [apply (format_char _ _ _ " " "%T.%."); [done|apply Hf; iso_len]|].
  etrans; [apply (format_convert _ _ _ "T" ".%."); [apply Hf; iso_len|apply format_time; [done..|apply Hf; iso_len]]|].
  etrans; [apply (format_char _ _ _ "." "%."); [done|apply Hf; iso_len]|].
  etrans; [apply (format_convert _ _ _ "." ""); [apply Hf; iso_len|apply (format_micros _ _ _ _ us); [done..|apply Hf; iso_len]]|].
  cbn [format_loop]. unfold iso. rewrite <- !app_assoc. reflexivity.
Qed.

(** The text with its separators in sight. *)
Definition iso_text (x : tm) (us : Z) : string :=
  put (digits 4 (1900 + tm_year x)) (String (chr DASH) (put (digits 2 (tm_mon x + 1)) (String (chr DASH)
  (put (digits 2 (tm_mday x)) (String (chr SPACE) (put (digits 2 (tm_hour x)) (String (chr COLON)
  (put (digits 2 (tm_min x)) (String (chr COLON) (put (digits 2 (tm_sec x)) (String (chr DOT)
  (put (digits 6 us) EmptyString)))))))))))).

Lemma put_iso x us : put (iso x us) EmptyString = iso_text x us.
Proof. unfold iso, iso_text. by rewrite !put_chars_app. Qed.

Lemma strchr_hit n s : 0 <= n < 256 -> strchr (String (chr n) s) n = Some (String (chr n) s).
Proof. intros H. cbn. by rewrite code_chr, Z.eqb_refl. Qed.

Lemma strchr_miss n c s : 0 <= n < 256 -> n <> c -> strchr (String (chr n) s) c = strchr s c.
Proof. intros H Hc. cbn. rewrite code_chr by done. by destruct (Z.eqb_spec n c). Qed.

Ltac strchr_tac :=
  repeat first
    [ rewrite strchr_digits by (unfold SLASH, DASH, SPACE, COLON, DOT; lia)
    | rewrite strchr_hit by (unfold SLASH, DASH, SPACE, COLON, DOT; lia)
    | rewrite strchr_miss by (unfold SLASH, DASH, SPACE, COLON, DOT; lia) ].

Lemma read_iso_date x us :
  valid_tm x -> 1900 <= 1900 + tm_year x <= 9999 ->
  read_date (iso_text x us) = (1900 + tm_year x, tm_mon x + 1, tm_mday x, true).
Proof.
  intros [V1 V2 _ _ _] Hy. pose proof (month_length_le (1900 + tm_year x) (tm_mon x)).
  unfold read_date, iso_text. strchr_tac. cbn [strchr next_char]. strchr_tac. cbn [next_char].
  rewrite !strtoul_digits by (done || cbn; lia). done.
Qed.

Lemma read_iso_time x us :
  valid_tm x -> 0 <= us < 1000000 ->
  read_time (iso_text x us) = (tm_hour x, tm_min x, tm_sec x, us, 6, true).
Proof.
  intros [_ _ V3 V4 V5] Hus. unfold read_time, iso_text. strchr_tac. cbn [next_char]. strchr_tac. cbn [next_char].
  strchr_tac. cbn [next_char]. strchr_tac. cbn [next_char].
  rewrite !strtoul_digits by (done || cbn; lia). rewrite subsecond_digits by (cbn; lia). cbn [subsecond_loop].
  cbn [scale_loop]. done.
Qed.

Lemma seconds_bounds x :
  valid_tm x -> 1900 <= 1900 + tm_year x <= 9999 -> WINDOWS_GREGORIAN_EPOCH <= timegm x < 2 ^ 40.
Proof.
  intros V Hy. rewrite timegm_valid by done. destruct V as [V1 V2 V3 V4 V5].
  pose proof (day_of_year_range _ _ _ V1 V2). pose proof (leap_day_cases (1900 + tm_year x)).
  pose proof (days_before_year_mono 1900 (1900 + tm_year x) ltac:(lia)) as L.
  pose proof (days_before_year_mono (1900 + tm_year x) 9999 ltac:(lia)) as U.
  change (days_before_year 1900) with (-25567) in L. change (days_before_year 9999) with 2932532 in U.
  unfold WINDOWS_GREGORIAN_EPOCH. lia.
Qed.

Lemma makeTime_tm x :
  valid_tm x -> 1900 <= 1900 + tm_year x <= 9999 ->
  makeTime (i32 (1900 + tm_year x)) (i32 (tm_mon x + 1)) (i32 (tm_mday x)) (i32 (tm_hour x)) (i32 (tm_min x)) (i32 (tm_sec x))
  = timegm x.
Proof.
  intros [V1 V2 V3 V4 V5] Hy. pose proof (month_length_le (1900 + tm_year x) (tm_mon x)).
  unfold makeTime, SETDATE_MIN_YEAR. rewrite !i32_small by lia.
  destruct (Z.leb_spec 1900 (1900 + tm_year x)), (Z.ltb_spec 0 (tm_mon x + 1)), (Z.ltb_spec 0 (tm_mday x)); try lia.
  unfold timegm. cbn [tm_year tm_mon tm_mday tm_hour tm_min tm_sec].
  replace (1900 + tm_year x - 1900) with (tm_year x) by lia. by rewrite Z.add_simpl_r.
Qed.

(** C12: Text and back: a date-time with date, time and microsecond precision,
    in a year from 1900 to 9999, written with the format [%F %T.%.] into a
    buffer of 27 characters or more, reads back as exactly the same date-time,
    whatever object it is read into. *)
Theorem text_round_trip explode dt dt' maxLen :
  mHints dt = 3 -> mPrecision dt = MAMA_DATE_TIME_PREC_MICROSECONDS ->
  (exists us, mNanoseconds dt = us * 1000 /\ 0 <= us < 1000000) ->
  denotes (explode (mSeconds dt) 0) (mSeconds dt) ->
  1900 <= 1900 + tm_year (explode (mSeconds dt) 0) <= 9999 -> 27 <= maxLen ->
  exists text,
    mamaDateTime_getAsFormattedString explode (Some dt) true maxLen "%F %T.%." = Ok (MAMA_STATUS_OK, Some text) /\
    mamaDateTime_setFromString (Some dt') (Some text) = (MAMA_STATUS_OK, Some dt).
Proof.
  intros Hh Hp (us & Hns & Hus) [V Et] Hy Hm. set (x := explode (mSeconds dt) 0) in *.
  exists (iso_text x us).
  assert (mamaDateTimeImpl_getMicroSeconds dt = us) as Eus
    by (unfold mamaDateTimeImpl_getMicroSeconds; rewrite Hns; apply Z.quot_mul; lia).
  split.
  - unfold mamaDateTime_getAsFormattedString, mamaDateTime_getAsFormattedStringWithTz. cbn [negb]. fold x.
    pose proof (seconds_bounds x V Hy). destruct (Z.ltb_spec (mSeconds dt) WINDOWS_GREGORIAN_EPOCH); [lia|].
    rewrite (format_iso dt x maxLen us) by done. unfold terminate. rewrite room_fits by (unfold fits; rewrite length_iso; lia).
    by rewrite string_of_put, put_iso.
  - unfold mamaDateTime_setFromString, mamaDateTime_setFromStringWithTz.
    rewrite read_iso_date, read_iso_time by done. rewrite makeTime_tm, Et by done.
    pose proof (seconds_bounds x V Hy) as B. rewrite Et in B. unfold WINDOWS_GREGORIAN_EPOCH in B.
    unfold ok, mamaDateTimeImpl_setMicroSeconds, mamaDateTimeImpl_setSeconds. cbn [mSeconds mNanoseconds mPrecision mHints mamaDateTimeImpl_setPrecision].
    rewrite (i64_small us), (i64_small (us * 1000)), i64_small by lia.
    transitivity (MAMA_STATUS_OK, Some (mkDateTime (mSeconds dt) (mNanoseconds dt) (mPrecision dt) (mHints dt)));
      [by rewrite Hns, Hp, Hh|clear; by destruct dt].
Qed.

(** A format that ends in [%] stores the character twice without a test:
    when the text before it leaves room for exactly one character, the second
    store is past the end of the buffer. *)
Theorem trailing_percent_overruns explode dt text :
  WINDOWS_GREGORIAN_EPOCH <= mSeconds dt -> Forall (fun c => Ascii.eqb c PERCENT = false) (list_ascii_of_string text) ->
  mamaDateTime_getAsFormattedString explode (Some dt) true (Z.of_nat (String.length text) + 1)
    (text ++ "%") = Fail InvalidDeref.
Proof.
  intros Hs Ht. unfold mamaDateTime_getAsFormattedString, mamaDateTime_getAsFormattedStringWithTz. cbn [negb].
  destruct (Z.ltb_spec (mSeconds dt) WINDOWS_GREGORIAN_EPOCH); [lia|].
  assert (forall x rest out, Forall (fun c => Ascii.eqb c PERCENT = false) (list_ascii_of_string rest) ->
    format_loop (Z.of_nat (List.length out + String.length rest) + 1) dt x (rest ++ "%") out = Fail InvalidDeref) as H1.
  { intros x rest. induction rest as [|c rest IH]; intros out Hr.
    - change ("" ++ "%")%string with "%"%string. cbn [format_loop]. unfold store. rewrite room_fits by (unfold fits; cbn; lia).
      cbn [negb]. rewrite Ascii.eqb_refl. cbn [negb].
      unfold room. rewrite length_app. cbn [String.length List.length].
      destruct (Z.ltb_spec (Z.of_nat (List.length out + 1)) (Z.of_nat (List.length out + 0) + 1)); [lia|done].
    - cbn [list_ascii_of_string] in Hr. apply Forall_cons in Hr as [Hc Hr]. rewrite string_app_cons.
      rewrite format_char by (done || unfold fits; cbn; lia).
      specialize (IH (out ++ [c]) Hr). rewrite length_app in IH. cbn [List.length String.length] in *.
      replace (List.length out + S (String.length rest))%nat with (List.length out + 1 + String.length rest)%nat by lia.
      exact IH. }
  specialize (H1 (explode (mSeconds dt) 0) text [] Ht). cbn [List.length Nat.add] in H1. by rewrite H1.
Qed.

(** ** Witnesses *)

Definition demo_tm : tm := mkTm 112 5 7 10 11 12 4.

Lemma text_round_trip_witness :
  exists text,
    mamaDateTime_getAsFormattedString (fun _ _ => demo_tm) (Some demo_dt) true 27 "%F %T.%." = Ok (MAMA_STATUS_OK, Some text) /\
    mamaDateTime_setFromString (Some (mkDateTime 0 0 MAMA_DATE_TIME_PREC_UNKNOWN 0)) (Some text) = (MAMA_STATUS_OK, Some demo_dt).
Proof.
  apply text_round_trip; [reflexivity|reflexivity|exists 123456; by_computing| |by_computing|lia].
  split; [by_computing|reflexivity].
Defined.

Lemma trailing_percent_overruns_witness :
  mamaDateTime_getAsFormattedString (fun _ _ => demo_tm) (Some demo_dt) true (3 + 1) ("100" ++ "%") = Fail InvalidDeref.
Proof. apply (trailing_percent_overruns _ demo_dt "100"); [by_computing|repeat constructor]. Defined.
