(* ===== verification/Throttle.v ===== *)
(** * The throttle of outgoing requests (mama/c_cpp/src/c/throttle.c)

    A client of the list: messages wait in a [wList] and a timer runs at most a
    quota of them in each interval.  The list is the model of list.c itself, so
    every call below goes through its memory.  Rates and intervals are IEEE
    doubles.  The action a message stands for runs outside the throttle: it is
    recorded in [actions] in the order the callbacks are made. *)

From S2P Require Import Prelude MamaStatus Linked WList.
From Stdlib Require Import SpecFloat.
Import WList.

Module Throttle.

(** ** Doubles *)

Definition double_mul : spec_float -> spec_float -> spec_float := SFmul 53 1024.
Definition double_0 : spec_float := S754_zero false.
Definition double_1 : spec_float := S754_finite false 4503599627370496 (-52).
(** The doubles nearest to 0.1 and 1000. *)
Definition double_0_1 : spec_float := S754_finite false 7205759403792794 (-56).
Definition double_1000 : spec_float := S754_finite false 8796093022208000 (-43).

(** [(int) d]: towards zero; what does not fit gives the indefinite integer of
    the processor. *)
Definition int_of_double (d : spec_float) : Z :=
  let v := match d with
           | S754_finite s m e => (if s then Z.opp else id) (Z.shiftl (Z.pos m) e)
           | S754_zero _ => 0
           | _ => 2 ^ 31
           end in
  if (- 2 ^ 31 <=? v) && (v <? 2 ^ 31) then v else - 2 ^ 31.

(** ** State *)

Record MsgProperties : Type := mkMsg { mOwner : Z; mActionCb : Z; mClosure1 : Z; mClosure2 : Z }.

Definition zero_msg : MsgProperties := mkMsg 0 0 0 0.
Definition sizeof_MsgProperties : Z := 32.

(** The callback of a message and its closures. *)
Definition action : Type := Z * Z * Z.
Definition action_of (m : MsgProperties) : action := (mActionCb m, mClosure1 m, mClosure2 m).

Record wombatThrottleImpl : Type := mkThrottle {
  mMsgQueue : wListImpl MsgProperties;
  mRate : spec_float;
  mMsgsSentThisInterval : Z;
  mMessagesPerInterval : Z;
  mInterval : spec_float;
  mQueue : Z;
  mTimer : bool;
  mTimerLock : Z;
  actions : list action;
}.

Definition set_mMsgQueue (v : wListImpl MsgProperties) (t : wombatThrottleImpl) : wombatThrottleImpl :=
  mkThrottle v (mRate t) (mMsgsSentThisInterval t) (mMessagesPerInterval t) (mInterval t) (mQueue t) (mTimer t) (mTimerLock t) (actions t).
Definition set_mRate (v : spec_float) (t : wombatThrottleImpl) : wombatThrottleImpl :=
  mkThrottle (mMsgQueue t) v (mMsgsSentThisInterval t) (mMessagesPerInterval t) (mInterval t) (mQueue t) (mTimer t) (mTimerLock t) (actions t).
Definition set_sent (v : Z) (t : wombatThrottleImpl) : wombatThrottleImpl :=
  mkThrottle (mMsgQueue t) (mRate t) v (mMessagesPerInterval t) (mInterval t) (mQueue t) (mTimer t) (mTimerLock t) (actions t).
Definition set_quota (v : Z) (t : wombatThrottleImpl) : wombatThrottleImpl :=
  mkThrottle (mMsgQueue t) (mRate t) (mMsgsSentThisInterval t) v (mInterval t) (mQueue t) (mTimer t) (mTimerLock t) (actions t).
Definition set_mInterval (v : spec_float) (t : wombatThrottleImpl) : wombatThrottleImpl :=
  mkThrottle (mMsgQueue t) (mRate t) (mMsgsSentThisInterval t) (mMessagesPerInterval t) v (mQueue t) (mTimer t) (mTimerLock t) (actions t).
Definition set_mQueue (v : Z) (t : wombatThrottleImpl) : wombatThrottleImpl :=
  mkThrottle (mMsgQueue t) (mRate t) (mMsgsSentThisInterval t) (mMessagesPerInterval t) (mInterval t) v (mTimer t) (mTimerLock t) (actions t).
Definition set_mTimer (v : bool) (t : wombatThrottleImpl) : wombatThrottleImpl :=
  mkThrottle (mMsgQueue t) (mRate t) (mMsgsSentThisInterval t) (mMessagesPerInterval t) (mInterval t) (mQueue t) v (mTimerLock t) (actions t).
Definition set_mTimerLock (v : Z) (t : wombatThrottleImpl) : wombatThrottleImpl :=
  mkThrottle (mMsgQueue t) (mRate t) (mMsgsSentThisInterval t) (mMessagesPerInterval t) (mInterval t) (mQueue t) (mTimer t) v (actions t).
Definition set_actions (v : list action) (t : wombatThrottleImpl) : wombatThrottleImpl :=
  mkThrottle (mMsgQueue t) (mRate t) (mMsgsSentThisInterval t) (mMessagesPerInterval t) (mInterval t) (mQueue t) (mTimer t) (mTimerLock t) v.

Abbreviation TM := (M wombatThrottleImpl).
Abbreviation LM := (M (wListImpl MsgProperties)).

(** A call of the list library on the queue. *)
Definition on_list {A} (m : LM A) : TM A := fun t =>
  match m (mMsgQueue t) with
  | Ok (a, l) => Ok (a, set_mMsgQueue l t)
  | Fail f => Fail f
  end.

Definition list_lock : LM unit := wlock_lock.
Definition list_unlock : LM unit := wlock_unlock.

(** The four stores into, and the loads from, an element. *)
Definition st_msg (info : Z) (v : MsgProperties) : LM unit := fun l =>
  match mem l !! hdr_of info with
  | Some h => Ok (tt, set_mem_ (<[hdr_of info := mkHeader (mPrev h) (mNext h) v]> (mem l)) l)
  | None => Fail InvalidDeref
  end.
Definition ld_msg (info : Z) : LM MsgProperties := fun l =>
  match mem l !! hdr_of info with Some h => Ok (mData h, l) | None => Fail InvalidDeref end.

Definition lock_timer : TM unit := modify (fun t => set_mTimerLock (mTimerLock t + 1) t).
Definition unlock_timer : TM unit := modify (fun t => set_mTimerLock (mTimerLock t - 1) t).

Definition run_action (m : MsgProperties) : TM unit := modify (fun t => set_actions (actions t ++ [action_of m]) t).

(** ** Operations *)

Definition wombatThrottle_setRate (rate : spec_float) : TM unit :=
  let rate := if SFltb rate double_0 then double_0 else rate in
  modify (set_mRate rate) ;;
  if SFeqb rate double_0 then mret tt
  else
    interval ← gets mInterval;
    let messagesPerInterval := double_mul rate interval in
    modify (set_quota (if SFltb double_1 messagesPerInterval then int_of_double messagesPerInterval else 1)).

(** [throttle]: whether the pointer is not NULL. *)
Definition wombatThrottle_setInterval (throttle : bool) (interval : spec_float) : TM mama_status :=
  if throttle then modify (set_mInterval interval) ;; mret MAMA_STATUS_OK
  else mret MAMA_STATUS_NULL_ARG.

Definition wombatThrottle_create (queue : Z) : TM mama_status :=
  modify (set_mQueue queue) ;; mret MAMA_STATUS_OK.

Definition wombatThrottle_lock : TM unit := on_list list_lock.
Definition wombatThrottle_unlock : TM unit := on_list list_unlock.

Definition wombatThrottle_getRate : TM spec_float := gets mRate.

(** [alloc]: whether malloc succeeds; [limit] is the end of the list's memory.
    The result of [list_create] is not checked: [Some None] is a throttle whose
    list is NULL, on which every later call dereferences NULL. *)
Definition wombatThrottle_allocate (alloc : bool) (limit : Z) : mama_status * option (option wombatThrottleImpl) :=
  if alloc then
    (MAMA_STATUS_OK,
     Some (queue ← list_create zero_msg sizeof_MsgProperties limit;
           match wombatThrottle_setRate double_1000 (mkThrottle queue double_0 0 0 double_0_1 0 false 0 []) with
           | Ok (_, t) => Some t
           | Fail _ => None
           end))
  else (MAMA_STATUS_NOMEM, None).

(** [timer_ok]: whether [mamaTimer_create] makes a timer; its result is ignored.
    The second component is the handle. *)
Definition wombatThrottle_dispatch (timer_ok : bool) (m : MsgProperties) (immediate : bool) : TM (mama_status * Z) :=
  rate ← gets mRate;
  if SFleb rate double_0 then
    run_action m ;;
    mret (MAMA_STATUS_OK, 0)
  else
    on_list list_lock ;;
    info ← on_list (list_allocate_element zero_msg);
    lock_timer ;;
    timer ← gets mTimer;
    (if timer : bool then mret tt else modify (set_mTimer timer_ok)) ;;
    unlock_timer ;;
    if info =? 0 then
      on_list list_unlock ;;
      mret (MAMA_STATUS_NOMEM, 0)
    else
      on_list (st_msg info m) ;;
      (if immediate then on_list (list_push_front info) else on_list (list_push_back info)) ;;
      on_list list_unlock ;;
      mret (MAMA_STATUS_OK, info).

(** 1 if a message was processed, 0 if the queue was empty. *)
Definition wombatThrottle_sendQueuedMessage : TM bool :=
  on_list list_lock ;;
  info ← on_list list_pop_front;
  if info =? 0 then
    on_list list_unlock ;;
    mret false
  else
    m ← on_list (ld_msg info);
    run_action m ;;
    on_list (list_free_element info) ;;
    on_list list_unlock ;;
    mret true.

(** [while (mMsgsSentThisInterval++ < mMessagesPerInterval)]. *)
Fixpoint quota_loop (fuel : nat) : TM unit :=
  sent ← gets mMsgsSentThisInterval;
  modify (set_sent (i32 (sent + 1))) ;;
  quota ← gets mMessagesPerInterval;
  if sent <? quota then
    match fuel with
    | O => fail OutOfFuel
    | S fuel' =>
        more ← wombatThrottle_sendQueuedMessage;
        if more : bool then quota_loop fuel' else mret tt
    end
  else mret tt.

Definition wombatThrottle_dispatchMessagesUntilQuota : TM unit :=
  sent ← gets mMsgsSentThisInterval;
  quota ← gets mMessagesPerInterval;
  quota_loop (Z.to_nat (quota - sent)).

(** [while (mRate == 0.0 && wombatThrottle_sendQueuedMessage (throttle))]. *)
Fixpoint purge_loop (fuel : nat) : TM unit :=
  rate ← gets mRate;
  if SFeqb rate double_0 then
    more ← wombatThrottle_sendQueuedMessage;
    if more : bool then
      match fuel with
      | O => fail OutOfFuel
      | S fuel' => purge_loop fuel'
      end
    else mret tt
  else mret tt.

Definition wombatThrottle_timerCB : TM unit :=
  fuel ← gets (fun t => size (mem (mMsgQueue t)));
  purge_loop fuel ;;
  modify (set_sent 0) ;;
  n ← on_list list_size;
  (if n =? 0 then
     lock_timer ;;
     modify (set_mTimer false) ;;
     unlock_timer
   else mret tt) ;;
  wombatThrottle_dispatchMessagesUntilQuota.

(** The callback of [list_for_each]; the count of removed messages is only
    logged. *)
Definition removeMessagesForOwnerCb (owner : Z) (element : Z) : LM unit :=
  info ← ld_msg element;
  if owner =? mOwner info then
    list_remove_element element ;;
    list_free_element element
  else mret tt.

Definition wombatThrottle_removeMessagesForOwner (throttle : bool) (owner : Z) : TM mama_status :=
  if throttle then
    on_list (list_for_each (removeMessagesForOwnerCb owner)) ;;
    mret MAMA_STATUS_OK
  else mret MAMA_STATUS_NULL_ARG.

Definition wombatThrottle_removeAction (action : Z) : TM mama_status :=
  on_list (list_remove_element action) ;;
  on_list (list_free_element action) ;;
  mret MAMA_STATUS_OK.

(** The handles another list holds, in the order [list_for_each] visits them. *)
Fixpoint removeMessagesFromListCb (handles : list Z) : TM unit :=
  match handles with
  | [] => mret tt
  | action :: handles' =>
      on_list (list_remove_element action) ;;
      on_list (list_free_element action) ;;
      removeMessagesFromListCb handles'
  end.

Definition wombatThrottle_removeMessagesFromList (handles : list Z) : TM mama_status :=
  on_list list_lock ;;
  removeMessagesFromListCb handles ;;
  on_list list_unlock ;;
  mret MAMA_STATUS_OK.

(** Frees the timer, the list and the structure; the result lists the blocks of
    the list that were freed. *)
Definition wombatThrottle_destroy (throttle : option wombatThrottleImpl) : res (mama_status * list Z) :=
  match throttle with
  | None => Ok (MAMA_STATUS_OK, [])
  | Some t =>
      match list_destroy (mMsgQueue t) with
      | Ok (_, (elems, _, freed)) => Ok (MAMA_STATUS_OK, elems ++ freed)
      | Fail f => Fail f
      end
  end.

(** ** Histories *)

Inductive tcall : Type :=
| Dispatch (timer_ok : bool) (m : MsgProperties) (immediate : bool)
| Tick
| RemoveOwner (owner : Z)
| SetRate (rate : spec_float)
| SetInterval (interval : spec_float).

(** The status a call returns; those that return nothing give [OK]. *)
Definition run_tcall (c : tcall) : TM mama_status :=
  match c with
  | Dispatch ok m immediate => r ← wombatThrottle_dispatch ok m immediate; mret r.1
  | Tick => wombatThrottle_timerCB ;; mret MAMA_STATUS_OK
  | RemoveOwner owner => wombatThrottle_removeMessagesForOwner true owner
  | SetRate rate => wombatThrottle_setRate rate ;; mret MAMA_STATUS_OK
  | SetInterval interval => wombatThrottle_setInterval true interval
  end.

Fixpoint run_tcalls (l : list tcall) : TM (list mama_status) :=
  match l with
  | [] => mret []
  | c :: l' => r ← run_tcall c; rs ← run_tcalls l'; mret (r :: rs)
  end.

End Throttle.
