(* ===== verification/ThrottleProps.v ===== *)
(** * The throttle: a queue with a quota

    The list of the throttle with the messages in its elements, the calls of
    the throttle on it, and the theorem that the throttle is a queue from which
    every tick of the timer takes a quota. *)

From S2P Require Import Prelude MamaStatus Linked WList WListOps WListSpec Throttle.
From Stdlib Require Import SpecFloat.
Import WList Throttle.

(** ** The list with its contents *)

Definition data (l : wListImpl MsgProperties) (p : Z) : option MsgProperties := mData <$> mem l !! p.

(** The blocks [ls] of the list hold the messages [w]; there are no iterators. *)
Definition arep (l : wListImpl MsgProperties) (ls fl : list Z) (w : list MsgProperties) : Prop :=
  repr l ls fl [] /\ data l <$> ls = Some <$> w.

(** Besides, the block [p] is in the hands of the caller and holds [m]. *)
Definition aloose (l : wListImpl MsgProperties) (ls fl : list Z) (w : list MsgProperties) (p : Z) (m : MsgProperties) : Prop :=
  arep l ls fl w /\ detached l ls fl p /\ data l p = Some m.

(** The same without the addresses, the lock taken [k] times. *)
Definition qrep (l : wListImpl MsgProperties) (k : Z) (w : list MsgProperties) : Prop :=
  exists ls fl, repr l ls fl [] /\ lock l = k /\ data l <$> ls = Some <$> w.
Definition qloose (l : wListImpl MsgProperties) (k : Z) (w : list MsgProperties) (p : Z) (m : MsgProperties) : Prop :=
  exists ls fl, aloose l ls fl w p m /\ lock l = k.

Lemma qrep_arep l k w : qrep l k w <-> exists ls fl, arep l ls fl w /\ lock l = k.
Proof. unfold qrep, arep. split; intros (ls & fl & H); exists ls, fl; tauto. Qed.

(** Changing what blocks hold, or the lock, changes nothing in the list. *)
Lemma repr_same_links (s s' : wListImpl MsgProperties) ls fl ids :
  repr s ls fl ids ->
  (forall p, nxt (mem s') p = nxt (mem s) p) -> (forall p, prv (mem s') p = prv (mem s) p) ->
  mFreeList s' = mFreeList s -> mAllocSize s' = mAllocSize s -> lsize s' = lsize s -> iterators s' = iterators s ->
  its s' = its s -> brk s' = brk s -> limit s' = limit s -> repr s' ls fl ids.
Proof.
  intros R Hn Hp E1 E2 E3 E4 E5 E6 E7.
  assert (forall p, is_Some (mem s' !! p) <-> is_Some (mem s !! p)) as Hdom.
  { intros p. specialize (Hn p). unfold nxt in Hn. destruct (mem s' !! p), (mem s !! p); try done; split; eauto; by intros [? ?]. }
  destruct R as [L ND FR MK DT RG EN SZ BD IT ID CU]. split; rewrite ?E1, ?E2, ?E3, ?E4, ?E5, ?E6, ?E7, ?Hn, ?Hp; try done.
  - by eapply linked_frame.
  - by eapply chain_frame.
  - intros p Hin. rewrite Hp. auto.
  - intros p Hs. rewrite Hn, Hp. apply DT. by apply Hdom.
  - intros p Hs. apply RG. by apply Hdom.
Qed.

Lemma arep_lock l ls fl w v : arep l ls fl w -> arep (set_lock v l) ls fl w.
Proof. intros [R D]. split; [by eapply repr_same_links|done]. Qed.

Lemma qrep_lock l k w v : qrep l k w -> qrep (set_lock v l) v w.
Proof. rewrite !qrep_arep. intros (ls & fl & R & _). exists ls, fl. split; [by apply arep_lock|done]. Qed.

Lemma data_keeps (s s' : wListImpl MsgProperties) (ls : list Z) : keeps s s' -> data s' <$> ls = data s <$> ls.
Proof. intros [_ K]. apply list_fmap_ext. intros ? p _. apply K. Qed.

Lemma keeps_lock (s s' : wListImpl MsgProperties) : keeps s s' -> lock s' = lock s.
Proof. by intros [? _]. Qed.

(** ** The calls of the list, block by block *)

Lemma aloose_keeps l l' ls fl w p m :
  keeps l l' -> arep l' ls fl w -> detached l' ls fl p -> data l p = Some m -> aloose l' ls fl w p m.
Proof. intros [_ K] A Dt D. split; [done|]. split; [done|]. unfold data in *. by rewrite K. Qed.

Lemma elem_nonzero (l : wListImpl MsgProperties) ls fl ids p :
  repr l ls fl ids -> is_Some (mem l !! p) -> elem_of p <> 0.
Proof. intros R Hs. pose proof (r_range _ _ _ _ R p Hs). unfold elem_of, sizeof_header. lia. Qed.

Lemma pop_front_at l p ls fl m w :
  arep l (p :: ls) fl (m :: w) ->
  wp list_pop_front l (fun r l' => r = elem_of p /\ r <> 0 /\ aloose l' ls fl w p m /\ lock l' = lock l).
Proof.
  intros [R D]. cbn in D. injection D as D1 D2.
  assert (is_Some (mem l !! p)) as Hs by (unfold data in D1; destruct (mem l !! p); [eauto|done]).
  pose proof (elem_nonzero _ _ _ _ _ R Hs).
  eapply wp_mono; [by eapply list_pop_front_spec|]. cbn. intros r l' (-> & R' & Dt & K).
  split; [done|]. split; [done|]. split; [|by apply keeps_lock].
  eapply aloose_keeps; try done. split; [done|]. by rewrite (data_keeps l).
Qed.

Lemma remove_at l l1 p l2 fl w1 m w2 :
  arep l (l1 ++ p :: l2) fl (w1 ++ m :: w2) -> length l1 = length w1 ->
  wp (list_remove_element (elem_of p)) l (fun _ l' => aloose l' (l1 ++ l2) fl (w1 ++ w2) p m /\ lock l' = lock l).
Proof.
  intros [R D] Hlen. rewrite !fmap_app in D. apply app_inj_1 in D as [D1 D2]; [|by rewrite !length_fmap].
  cbn in D2. injection D2 as Dp D2.
  eapply wp_mono; [apply list_remove_element_spec; rewrite hdr_elem; exact R|]. rewrite hdr_elem.
  cbn. intros _ l' (R' & Dt & K & _). split; [|by apply keeps_lock]. eapply aloose_keeps; try done.
  split; [done|]. rewrite (data_keeps l), !fmap_app by done. by rewrite D1, D2.
Qed.

Lemma free_at l ls fl w p m :
  aloose l ls fl w p m ->
  wp (list_free_element (elem_of p)) l (fun _ l' => arep l' ls (p :: fl) w /\ lock l' = lock l).
Proof.
  intros ([R D] & Dt & _).
  eapply wp_mono; [apply list_free_element_spec; [done|by rewrite hdr_elem]|]. rewrite hdr_elem.
  cbn. intros _ l' (R' & K & _). split; [|by apply keeps_lock]. split; [done|]. by rewrite (data_keeps l).
Qed.

Lemma alloc_at l ls fl w :
  arep l ls fl w ->
  wp (list_allocate_element zero_msg) l (fun r l' =>
    (r = 0 /\ l' = l) \/
    (exists p, r = elem_of p /\ r <> 0 /\ aloose l' ls (tail fl) w p zero_msg /\ lock l' = lock l)).
Proof.
  intros [R D]. eapply wp_mono; [by eapply list_allocate_element_spec|]. cbn.
  intros r l' [(-> & -> & _)|(p & -> & Hp & [R' Dt] & El & _ & Em & _)]; [by left|]. right.
  exists p. split; [done|]. split; [unfold elem_of, sizeof_header; lia|]. split; [|done].
  split; [split; [done|]|split; [done|]]; unfold data; rewrite Em; [|by rewrite lookup_insert_eq].
  rewrite <- D. apply list_fmap_ext. intros ? q Hq. unfold data. rewrite lookup_insert_ne; [done|].
  intros <-. destruct Dt as [_ Dt]. apply list_elem_of_lookup_2 in Hq. set_solver.
Qed.

Lemma store_at l ls fl w p m0 m :
  aloose l ls fl w p m0 -> wp (st_msg (elem_of p) m) l (fun _ l' => aloose l' ls fl w p m /\ lock l' = lock l).
Proof.
  intros ([R D] & Dt & Dp). unfold wp, st_msg. rewrite hdr_elem. unfold data in Dp.
  destruct (mem l !! p) as [h|] eqn:Hh; [|done]. split; [|done].
  assert (forall q, nxt (<[p := mkHeader (mPrev h) (mNext h) m]> (mem l)) q = nxt (mem l) q) as Hn.
  { intros q. unfold nxt. destruct (decide (q = p)) as [->|]; [|by rewrite lookup_insert_ne].
    by rewrite lookup_insert_eq, Hh. }
  assert (forall q, prv (<[p := mkHeader (mPrev h) (mNext h) m]> (mem l)) q = prv (mem l) q) as Hp.
  { intros q. unfold prv. destruct (decide (q = p)) as [->|]; [|by rewrite lookup_insert_ne].
    by rewrite lookup_insert_eq, Hh. }
  destruct Dt as [Hs Hq]. split; [split; [by eapply repr_same_links|]|split; [split; [|done]|]];
    unfold data in *; state_simpl.
  - rewrite <- D. apply list_fmap_ext. intros ? q Hin. rewrite lookup_insert_ne; [done|].
    intros <-. apply list_elem_of_lookup_2 in Hin. set_solver.
  - rewrite lookup_insert_eq. eauto.
  - by rewrite lookup_insert_eq.
Qed.

Lemma push_back_at l ls fl w p m :
  aloose l ls fl w p m ->
  wp (list_push_back (elem_of p)) l (fun _ l' => arep l' (ls ++ [p]) fl (w ++ [m]) /\ lock l' = lock l).
Proof.
  intros ([R D] & Dt & Dp).
  eapply wp_mono; [apply list_push_back_spec; [done|by rewrite hdr_elem]|]. rewrite hdr_elem.
  cbn. intros _ l' (R' & K & _). split; [|by apply keeps_lock]. split; [done|].
  rewrite (data_keeps l), !fmap_app by done. by rewrite D; cbn; rewrite Dp.
Qed.

Lemma push_front_at l ls fl w p m :
  aloose l ls fl w p m ->
  wp (list_push_front (elem_of p)) l (fun _ l' => arep l' (p :: ls) fl (m :: w) /\ lock l' = lock l).
Proof.
  intros ([R D] & Dt & Dp).
  eapply wp_mono; [apply list_push_front_spec; [done|by rewrite hdr_elem]|]. rewrite hdr_elem.
  cbn. intros _ l' (R' & K & _). split; [|by apply keeps_lock]. split; [done|].
  rewrite (data_keeps l) by done. cbn. by rewrite D, Dp.
Qed.

Lemma load_at l ls fl w p m : aloose l ls fl w p m -> wp (ld_msg (elem_of p)) l (fun r l' => r = m /\ l' = l).
Proof.
  intros (_ & _ & D). unfold wp, ld_msg. rewrite hdr_elem. unfold data in D.
  destruct (mem l !! p); [|done]. injection D as <-. done.
Qed.

(** ** The same calls without the addresses *)

Lemma pop_empty l k : qrep l k [] -> wp list_pop_front l (fun r l' => r = 0 /\ qrep l' k []).
Proof.
  intros (ls & fl & R & E & D). destruct ls; [|done].
  eapply wp_mono; [by eapply list_pop_front_empty|]. cbn. intros r l' [-> ->]. split; [done|]. by exists [], fl.
Qed.

Lemma pop_first l k m w :
  qrep l k (m :: w) ->
  wp list_pop_front l (fun r l' => exists p, r = elem_of p /\ r <> 0 /\ qloose l' k w p m).
Proof.
  rewrite qrep_arep. intros (ls & fl & A & <-). destruct ls as [|p ls]; [by destruct A|].
  eapply wp_mono; [by apply pop_front_at|]. cbn beta. intros r l' (-> & Hr & Q & El).
  exists p. split; [done|]. split; [done|]. by exists ls, fl.
Qed.

Lemma ld_loose l k w p m : qloose l k w p m -> wp (ld_msg (elem_of p)) l (fun r l' => r = m /\ l' = l).
Proof. intros (ls & fl & Q & _). by eapply load_at. Qed.

Lemma free_loose l k w p m : qloose l k w p m -> wp (list_free_element (elem_of p)) l (fun _ l' => qrep l' k w).
Proof.
  intros (ls & fl & Q & <-). eapply wp_mono; [by eapply free_at|]. cbn beta. intros _ l' [A El].
  apply qrep_arep. by exists ls, (p :: fl).
Qed.

Lemma alloc_loose_msg l k w :
  qrep l k w ->
  wp (list_allocate_element zero_msg) l (fun r l' =>
    (r = 0 /\ l' = l) \/ (exists p, r = elem_of p /\ r <> 0 /\ qloose l' k w p zero_msg)).
Proof.
  rewrite qrep_arep. intros (ls & fl & A & <-). eapply wp_mono; [by apply alloc_at|]. cbn beta.
  intros r l' [?|(p & -> & Hr & Q & El)]; [by left|]. right. exists p. split; [done|]. split; [done|].
  by exists ls, (tail fl).
Qed.

Lemma st_loose l k w p m0 m :
  qloose l k w p m0 -> wp (st_msg (elem_of p) m) l (fun _ l' => qloose l' k w p m).
Proof.
  intros (ls & fl & Q & <-). eapply wp_mono; [by eapply store_at|]. cbn beta. intros _ l' [Q' El]. by exists ls, fl.
Qed.

Lemma push_back_loose l k w p m :
  qloose l k w p m -> wp (list_push_back (elem_of p)) l (fun _ l' => qrep l' k (w ++ [m])).
Proof.
  intros (ls & fl & Q & <-). eapply wp_mono; [by apply push_back_at|]. cbn beta. intros _ l' [A El].
  apply qrep_arep. by exists (ls ++ [p]), fl.
Qed.

Lemma push_front_loose l k w p m :
  qloose l k w p m -> wp (list_push_front (elem_of p)) l (fun _ l' => qrep l' k (m :: w)).
Proof.
  intros (ls & fl & Q & <-). eapply wp_mono; [by apply push_front_at|]. cbn beta. intros _ l' [A El].
  apply qrep_arep. by exists (p :: ls), fl.
Qed.

(** ** Removing the messages of an owner *)

Definition of_owner (owner : Z) (m : MsgProperties) : bool := owner =? mOwner m.

Definition others (owner : Z) (w : list MsgProperties) : list MsgProperties :=
  List.filter (fun m => negb (of_owner owner m)) w.

(** While the traversal runs: what was visited is filtered, the rest is as it
    was. *)
Definition visiting (owner k : Z) (w : list MsgProperties) (seen rest : list Z) (l : wListImpl MsgProperties) : Prop :=
  exists kept fl w1 w2,
    repr l (kept ++ rest) fl [] /\ lock l = k /\ w = w1 ++ w2 /\
    data l <$> kept = Some <$> others owner w1 /\ data l <$> rest = Some <$> w2.

Lemma remove_callback owner k w seen x rest l :
  visiting owner k w seen (x :: rest) l ->
  nxt (mem l) x = Some (after rest) /\
  wp (removeMessagesForOwnerCb owner (elem_of x)) l (fun _ l' => visiting owner k w (seen ++ [x]) rest l').
Proof.
  intros (kept & fl & w1 & w2 & R & E & -> & D1 & D2).
  destruct (middle_facts _ _ _ _ _ _ R) as (_ & _ & Hn & _). split; [done|].
  destruct w2 as [|m w2]; [done|]. cbn in D2. injection D2 as Dx D2.
  unfold removeMessagesForOwnerCb. apply wp_bind.
  assert (wp (ld_msg (elem_of x)) l (fun r l' => r = m /\ l' = l)) as Hld.
  { unfold wp, ld_msg. rewrite hdr_elem. unfold data in Dx. destruct (mem l !! x); [|done]. by injection Dx as <-. }
  eapply wp_mono; [exact Hld|]. cbn. intros r l' [-> ->].
  change (owner =? mOwner m) with (of_owner owner m).
  assert (others owner (w1 ++ [m]) = others owner w1 ++ (if of_owner owner m then [] else [m])) as Eo.
  { unfold others. rewrite List.filter_app. cbn. by destruct (of_owner owner m). }
  destruct (of_owner owner m).
  - apply wp_bind. eapply wp_mono; [apply list_remove_element_spec; rewrite hdr_elem; exact R|].
    rewrite hdr_elem. cbn. intros _ l1 (R1 & Dt & K1 & _).
    eapply wp_mono; [apply list_free_element_spec; [exact R1|by rewrite hdr_elem]|]. rewrite hdr_elem.
    cbn. intros _ l2 (R2 & K2 & _). exists kept, (x :: fl), (w1 ++ [m]), w2.
    split; [done|]. split; [by rewrite (keeps_lock l1), (keeps_lock l)|]. split; [by rewrite <- app_assoc|].
    rewrite !(data_keeps l1 l2), !(data_keeps l l1), Eo, app_nil_r by done. done.
  - apply wp_ret. exists (kept ++ [x]), fl, (w1 ++ [m]), w2.
    split; [by rewrite <- app_assoc|]. split; [done|]. split; [by rewrite <- app_assoc|]. split; [|done].
    rewrite Eo, !fmap_app. by rewrite D1; cbn; rewrite Dx.
Qed.

Lemma remove_owner_spec owner l k w :
  qrep l k w -> wp (list_for_each (removeMessagesForOwnerCb owner)) l (fun _ l' => qrep l' k (others owner w)).
Proof.
  intros (ls & fl & R & E & D).
  eapply wp_mono; [apply (list_for_each_spec _ (visiting owner (k + 1) w) l ls fl []); [done| |]|].
  - exists [], fl, [], w. split; [by eapply repr_same_links|]. state_simpl. split; [lia|]. done.
  - intros seen x rest s1 V. by apply remove_callback.
  - cbn. intros _ l' (s2 & (kept & fl2 & w1 & w2 & R2 & E2 & -> & D1 & D2) & ->).
    destruct w2; [|done]. rewrite app_nil_r in *. rewrite E2, Z.add_simpl_r. apply (qrep_lock s2 (k + 1)).
    by exists kept, fl2.
Qed.

(** ** What the throttle promises *)

Record athrottle : Type := mkAT {
  waiting : list MsgProperties;
  arate : spec_float;
  aquota : Z;
  ainterval : spec_float;
  atimer : bool;
}.

Definition off (rate : spec_float) : bool := SFeqb rate double_0.

(** The quota of an interval. *)
Definition quota_of (rate interval : spec_float) : Z :=
  let n := double_mul rate interval in if SFltb double_1 n then int_of_double n else 1.

Definition empty (w : list MsgProperties) : bool := match w with [] => true | _ => false end.

(** One call: the actions it runs and the throttle after it.  A dispatch makes the
    timer when there is none, with memory for the message or not; a tick that finds
    no message removes it. *)
Definition tstep (c : tcall) (status : mama_status) (a : athrottle) : list MsgProperties * athrottle :=
  match c with
  | Dispatch ok m immediate =>
      if off (arate a) then ([m], a)
      else if status_ok status
           then ([], mkAT (if immediate then m :: waiting a else waiting a ++ [m]) (arate a) (aquota a) (ainterval a) (atimer a || ok))
           else ([], mkAT (waiting a) (arate a) (aquota a) (ainterval a) (atimer a || ok))
  | Tick =>
      if off (arate a) then (waiting a, mkAT [] (arate a) (aquota a) (ainterval a) false)
      else let n := Z.to_nat (aquota a) in
           (take n (waiting a), mkAT (drop n (waiting a)) (arate a) (aquota a) (ainterval a) (atimer a && negb (empty (waiting a))))
  | RemoveOwner owner => ([], mkAT (others owner (waiting a)) (arate a) (aquota a) (ainterval a) (atimer a))
  | SetRate rate =>
      let rate := if SFltb rate double_0 then double_0 else rate in
      ([], mkAT (waiting a) rate (if off rate then aquota a else quota_of rate (ainterval a)) (ainterval a) (atimer a))
  | SetInterval interval => ([], mkAT (waiting a) (arate a) (aquota a) interval (atimer a))
  end.

Fixpoint tsteps (l : list tcall) (rs : list mama_status) (a : athrottle) : list MsgProperties * athrottle :=
  match l, rs with
  | c :: l', r :: rs' => let '(acts, a1) := tstep c r a in let '(acts', a') := tsteps l' rs' a1 in (acts ++ acts', a')
  | _, _ => ([], a)
  end.

(** The throttle [t], between two calls, stands for [a]. *)
Record tsim (t : wombatThrottleImpl) (a : athrottle) : Prop := mkTsim {
  ts_queue : qrep (mMsgQueue t) 0 (waiting a);
  ts_rate : mRate t = arate a;
  ts_quota : mMessagesPerInterval t = aquota a;
  ts_interval : mInterval t = ainterval a;
  ts_timer : mTimer t = atimer a;
  ts_timer_lock : mTimerLock t = 0;
  ts_positive : SFltb (arate a) double_0 = false;
  ts_width : aquota a < 2 ^ 31;
}.

Lemma wp_on_list {A} (m : LM A) t (Q : A -> wombatThrottleImpl -> Prop) :
  wp m (mMsgQueue t) (fun x l => Q x (set_mMsgQueue l t)) -> wp (on_list m) t Q.
Proof. unfold wp, on_list. by destruct (m (mMsgQueue t)) as [[x l]|f]. Qed.

Lemma positive_off rate : SFltb rate double_0 = false -> SFleb rate double_0 = off rate.
Proof. unfold SFltb, SFleb, off, SFeqb. by destruct (SFcompare rate double_0) as [[]|]. Qed.

Lemma int_of_double_width d : int_of_double d < 2 ^ 31.
Proof.
  unfold int_of_double. set (v := match d with S754_finite _ _ _ => _ | _ => _ end).
  destruct (Z.leb_spec (- 2 ^ 31) v), (Z.ltb_spec v (2 ^ 31)); cbn [andb]; lia.
Qed.

Lemma quota_width rate interval : quota_of rate interval < 2 ^ 31.
Proof. unfold quota_of. case_match; [apply int_of_double_width|lia]. Qed.

(** Within a call that began in [t0], only the queue and the trace have changed:
    the actions [acts] were run, the lock is held [k] times and [w] waits
    (and the caller has the block [p] with [m]). *)
Definition within (t0 : wombatThrottleImpl) (acts : list action) (k : Z) (w : list MsgProperties) (t : wombatThrottleImpl) : Prop :=
  exists l, qrep l k w /\ t = set_actions acts (set_mMsgQueue l t0).
Definition within_block (t0 : wombatThrottleImpl) (acts : list action) (k : Z) (w : list MsgProperties) (p : Z)
    (m : MsgProperties) (t : wombatThrottleImpl) : Prop :=
  exists l, qloose l k w p m /\ t = set_actions acts (set_mMsgQueue l t0).

Lemma on_within {A} (op : LM A) t0 acts k w t (Q : A -> wombatThrottleImpl -> Prop) :
  within t0 acts k w t ->
  (forall l, qrep l k w -> wp op l (fun r l' => Q r (set_actions acts (set_mMsgQueue l' t0)))) ->
  wp (on_list op) t Q.
Proof. intros (l & Ql & ->) H. apply wp_on_list. by apply H. Qed.

Lemma on_block {A} (op : LM A) t0 acts k w p m t (Q : A -> wombatThrottleImpl -> Prop) :
  within_block t0 acts k w p m t ->
  (forall l, qloose l k w p m -> wp op l (fun r l' => Q r (set_actions acts (set_mMsgQueue l' t0)))) ->
  wp (on_list op) t Q.
Proof. intros (l & Ql & ->) H. apply wp_on_list. by apply H. Qed.

Lemma lock_within t0 acts k w t :
  within t0 acts k w t -> wp (on_list list_lock) t (fun _ t' => within t0 acts (k + 1) w t').
Proof.
  intros H. eapply on_within; [exact H|]. intros l Ql. apply wp_modify. eexists. split; [|done].
  destruct Ql as (ls & fl & R & <- & D). apply (qrep_lock _ (lock l)). by exists ls, fl.
Qed.

Lemma unlock_within t0 acts k w t :
  within t0 acts (k + 1) w t -> wp (on_list list_unlock) t (fun _ t' => within t0 acts k w t').
Proof.
  intros H. eapply on_within; [exact H|]. intros l Ql. apply wp_modify. eexists. split; [|done].
  destruct Ql as (ls & fl & R & E & D). rewrite E, Z.add_simpl_r. apply (qrep_lock _ (k + 1)). by exists ls, fl.
Qed.

Lemma send_empty t0 acts t :
  within t0 acts 0 [] t ->
  wp wombatThrottle_sendQueuedMessage t (fun b t' => b = false /\ within t0 acts 0 [] t').
Proof.
  intros H. apply wp_bind. eapply wp_mono; [by apply lock_within|]. cbn beta. intros _ t1 H1.
  apply wp_bind. eapply on_within; [exact H1|]. intros l Ql. eapply wp_mono; [by apply pop_empty|].
  cbn beta. intros r l' [-> Ql']. cbn [Z.eqb]. apply wp_bind. eapply wp_mono; [apply (unlock_within t0 acts 0 [])|].
  { by exists l'. }
  cbn beta. intros _ t2 H2. by apply wp_ret.
Qed.

Lemma send_first t0 acts m w t :
  within t0 acts 0 (m :: w) t ->
  wp wombatThrottle_sendQueuedMessage t (fun b t' => b = true /\ within t0 (acts ++ [action_of m]) 0 w t').
Proof.
  intros H. apply wp_bind. eapply wp_mono; [by apply lock_within|]. cbn beta. intros _ t1 H1.
  apply wp_bind. eapply on_within; [exact H1|]. intros l Ql. eapply wp_mono; [by apply pop_first|].
  cbn beta. intros r l' (p & -> & Hr & Ql'). destruct (Z.eqb_spec (elem_of p) 0); [done|].
  assert (within_block t0 acts (0 + 1) w p m (set_actions acts (set_mMsgQueue l' t0))) as H2 by (by exists l').
  apply wp_bind. eapply on_block; [exact H2|]. intros l2 Ql2. eapply wp_mono; [by eapply ld_loose|].
  cbn beta. intros r l3 [-> ->]. apply wp_bind. apply wp_modify. cbn [actions set_actions].
  apply wp_bind. eapply (on_block _ t0 (acts ++ [action_of m])); [by exists l2|]. intros l3 Ql3.
  eapply wp_mono; [by eapply free_loose|]. cbn beta. intros _ l4 Ql4.
  apply wp_bind. eapply wp_mono; [apply (unlock_within t0 (acts ++ [action_of m]) 0 w); by exists l4|].
  cbn beta. intros _ t5 H5. by apply wp_ret.
Qed.

(** ** The loops *)

Lemma loop_sent t0 acts k w t v : within t0 acts k w t -> within (set_sent v t0) acts k w (set_sent v t).
Proof. intros (l & Q & ->). by exists l. Qed.

Lemma quota_loop_spec fuel : forall t0 acts w t,
  within t0 acts 0 w t ->
  - 2 ^ 31 <= mMsgsSentThisInterval t0 -> mMessagesPerInterval t0 < 2 ^ 31 ->
  (Z.to_nat (mMessagesPerInterval t0 - mMsgsSentThisInterval t0) <= fuel)%nat ->
  wp (quota_loop fuel) t (fun _ t' =>
    let n := Z.to_nat (mMessagesPerInterval t0 - mMsgsSentThisInterval t0) in
    exists v, within (set_sent v t0) (acts ++ (action_of <$> take n w)) 0 (drop n w) t').
Proof.
  induction fuel as [|fuel IH]; intros t0 acts w t H Hs Hq Hf.
  all: assert (mMsgsSentThisInterval t = mMsgsSentThisInterval t0 /\ mMessagesPerInterval t = mMessagesPerInterval t0)
    as [E1 E2] by (by destruct H as (l & _ & ->)).
  all: cbn [quota_loop]; apply wp_bind, wp_gets; cbn beta; apply wp_bind, wp_modify; cbn beta; apply wp_bind, wp_gets.
  all: cbn [mMessagesPerInterval set_sent]; rewrite E1, E2.
  all: apply (loop_sent _ _ _ _ _ (i32 (mMsgsSentThisInterval t0 + 1))) in H.
  all: destruct (Z.ltb_spec (mMsgsSentThisInterval t0) (mMessagesPerInterval t0)) as [Hlt|Hge]; [try lia|].
  1,3: apply wp_ret; replace (Z.to_nat _) with O by lia; rewrite take_0, drop_0, app_nil_r; eauto.
  remember (Z.to_nat (mMessagesPerInterval t0 - mMsgsSentThisInterval t0)) as n eqn:En.
  destruct n as [|n]; [lia|]. rewrite i32_small in * by lia. apply wp_bind.
  destruct w as [|m w].
  - eapply wp_mono; [by apply send_empty|]. cbn. intros ? t' [-> H']. apply wp_ret. rewrite app_nil_r. eauto.
  - eapply wp_mono; [by apply send_first|]. cbn beta. intros ? t' [-> H'].
    eapply wp_mono; [apply (IH _ _ _ _ H'); cbn; lia|]. cbn [mMsgsSentThisInterval mMessagesPerInterval set_sent].
    replace (Z.to_nat _) with n by lia. cbn [take drop fmap list_fmap]. intros _ t1 (v & H1). exists v.
    rewrite <- app_assoc in H1. exact H1.
Qed.

Lemma purge_loop_spec fuel : forall t0 acts w t,
  within t0 acts 0 w t -> off (mRate t0) = true -> (length w <= fuel)%nat ->
  wp (purge_loop fuel) t (fun _ t' => within t0 (acts ++ (action_of <$> w)) 0 [] t').
Proof.
  induction fuel as [|fuel IH]; intros t0 acts w t H Hr Hf.
  all: assert (mRate t = mRate t0) as E by (by destruct H as (l & _ & ->)).
  all: cbn [purge_loop]; apply wp_bind, wp_gets; rewrite E; unfold off in Hr; rewrite Hr; apply wp_bind.
  all: destruct w as [|m w]; cbn [length] in Hf; try lia.
  1,2: eapply wp_mono; [by apply send_empty|]; cbn; intros ? t' [-> H']; apply wp_ret; by rewrite app_nil_r.
  eapply wp_mono; [by apply send_first|]. cbn beta. intros ? t' [-> H'].
  eapply wp_mono; [apply (IH _ _ _ _ H' Hr); lia|]. cbn. intros _ t1 H1. by rewrite <- app_assoc in H1.
Qed.

Lemma purge_loop_on fuel t : off (mRate t) = false -> wp (purge_loop fuel) t (fun _ t' => t' = t).
Proof.
  intros Hr. unfold off in Hr. destruct fuel; cbn [purge_loop]; apply wp_bind, wp_gets; rewrite Hr; by apply wp_ret.
Qed.

(** ** Each call *)

Lemma tsim_within t a : tsim t a -> within t (actions t) 0 (waiting a) t.
Proof. intros H. exists (mMsgQueue t). split; [apply H|]. by destruct t. Qed.

Lemma within_tsim t0 t a a' :
  tsim t0 a -> within t0 (actions t) 0 (waiting a') t ->
  arate a' = arate a -> aquota a' = aquota a -> ainterval a' = ainterval a -> atimer a' = atimer a -> tsim t a'.
Proof.
  intros [Hq Hr Hn Hi Ht Hl Hp Hw] (l & Q & ->) E1 E2 E3 E4. split; rewrite ?E1, ?E2, ?E3, ?E4; done.
Qed.

Lemma within_size t0 acts k w t : within t0 acts k w t -> lsize (mMsgQueue t) = Z.of_nat (length w).
Proof.
  intros (l & (ls & fl & R & _ & D) & ->). cbn. rewrite (r_size _ _ _ _ R). f_equal.
  by rewrite <- (length_fmap (data l) ls), D, length_fmap.
Qed.

Lemma qrep_fuel l k w : qrep l k w -> (length w <= size (mem l))%nat.
Proof.
  intros (ls & fl & R & _ & D). pose proof (mem_size_bound _ _ _ _ R).
  apply (f_equal length) in D. rewrite !length_fmap in D. lia.
Qed.

(** What a step of [c] that began in [t] must have done when it ends in [t']. *)
Definition done_step (c : tcall) (t : wombatThrottleImpl) (a : athrottle) (r : mama_status) (t' : wombatThrottleImpl) : Prop :=
  let '(acts, a') := tstep c r a in tsim t' a' /\ actions t' = actions t ++ (action_of <$> acts).

Lemma set_rate_step rate t a :
  tsim t a -> wp (run_tcall (SetRate rate)) t (done_step (SetRate rate) t a).
Proof.
  intros [Hq Hr Hn Hi Ht Hl Hp Hw]. unfold done_step. cbn [run_tcall tstep]. apply wp_bind, wp_bind, wp_modify.
  set (rt := if SFltb rate double_0 then double_0 else rate).
  assert (SFltb rt double_0 = false) as Hpos by (unfold rt; by destruct (SFltb rate double_0) eqn:?).
  unfold off. destruct (SFeqb rt double_0).
  - apply wp_ret, wp_ret. split; [by split|]. cbn. by rewrite app_nil_r.
  - apply wp_bind, wp_gets. cbn beta. apply wp_modify, wp_ret. cbn. rewrite Hi, app_nil_r.
    split; [|done]. split; try done. apply quota_width.
Qed.

Lemma set_interval_step interval t a :
  tsim t a -> wp (run_tcall (SetInterval interval)) t (done_step (SetInterval interval) t a).
Proof.
  intros [Hq Hr Hn Hi Ht Hl Hp Hw]. unfold done_step. cbn [run_tcall tstep]. apply wp_bind, wp_modify, wp_ret.
  split; [by split|]. cbn. by rewrite app_nil_r.
Qed.

Lemma remove_owner_step owner t a :
  tsim t a -> wp (run_tcall (RemoveOwner owner)) t (done_step (RemoveOwner owner) t a).
Proof.
  intros H. unfold done_step. cbn [run_tcall tstep]. apply wp_bind.
  eapply on_within; [by apply tsim_within|]. intros l Ql. eapply wp_mono; [by apply remove_owner_spec|].
  cbn beta. intros _ l' Ql'. apply wp_ret. split; [|cbn; by rewrite app_nil_r].
  eapply within_tsim; [exact H|by exists l'|done..].
Qed.

Definition with_timer (b : bool) (a : athrottle) : athrottle := mkAT (waiting a) (arate a) (aquota a) (ainterval a) b.

Lemma tsim_timer t a b v : tsim t a -> tsim (set_mTimer b (set_sent v t)) (with_timer b a).
Proof. intros [Hq Hr Hn Hi Ht Hl Hp Hw]. by split. Qed.

Lemma wp_timer {A} (k : TM A) ok t (Q : A -> wombatThrottleImpl -> Prop) :
  mTimerLock t = 0 ->
  wp k (set_mTimer (mTimer t || ok) t) Q ->
  wp (lock_timer ;; timer ← gets mTimer; (if timer : bool then mret tt else modify (set_mTimer ok)) ;; unlock_timer ;; k) t Q.
Proof.
  intros El H. destruct t as [q rt s n i mq tm lk ac]. cbn in El. subst lk.
  apply wp_bind, wp_modify, wp_bind, wp_gets. cbn. apply wp_bind.
  destruct tm; [apply wp_ret|apply wp_modify]; apply wp_bind, wp_modify; cbn; exact H.
Qed.

Lemma push_within t0 acts k w p m (immediate : bool) t :
  within_block t0 acts k w p m t ->
  wp (if immediate then on_list (list_push_front (elem_of p)) else on_list (list_push_back (elem_of p))) t
     (fun _ t' => within t0 acts k (if immediate then m :: w else w ++ [m]) t').
Proof.
  intros H. destruct immediate; (eapply on_block; [exact H|]; intros l Ql; eapply wp_mono;
    [first [by eapply push_front_loose|by eapply push_back_loose]|]; cbn beta; intros _ l' Q'; by exists l').
Qed.

Lemma dispatch_step ok m immediate t a :
  tsim t a -> wp (run_tcall (Dispatch ok m immediate)) t (done_step (Dispatch ok m immediate) t a).
Proof.
  intros H. pose proof H as [_ Hr _ _ Htm Hl Hp _]. cbn [run_tcall]. apply wp_bind, wp_bind, wp_gets.
  rewrite Hr, (positive_off _ Hp). unfold done_step. cbn [tstep]. destruct (off (arate a)).
  { apply wp_bind, wp_modify, wp_ret, wp_ret. cbn. split; [|done]. by destruct H. }
  apply wp_bind. eapply wp_mono; [by apply lock_within, tsim_within|]. cbn beta. intros _ t1 H1.
  apply wp_bind. eapply on_within; [exact H1|]. intros l Ql. eapply wp_mono; [by apply alloc_loose_msg|].
  cbn beta. intros r l1 Hr1. apply wp_timer; [exact Hl|]. cbn beta.
  match goal with |- context [mTimer ?x] => replace (mTimer x) with (atimer a) by first [exact Htm|exact (eq_sym Htm)] end. set (b := atimer a || ok).
  assert (tsim (set_mTimer b t) (with_timer b a)) as Hb by (by destruct H; split).
  destruct Hr1 as [[-> ->]|(p & -> & Hne & Ql1)].
  - cbn [Z.eqb]. apply wp_bind. eapply wp_mono; [apply (unlock_within (set_mTimer b t) (actions t) 0); by exists l|].
    cbn beta. intros _ t2 H2. apply wp_ret, wp_ret. cbn.
    destruct H2 as (l2 & Q2 & ->). split; [|by rewrite app_nil_r]. eapply within_tsim; [exact Hb|by exists l2|done..].
  - destruct (Z.eqb_spec (elem_of p) 0); [done|].
    apply wp_bind. eapply (on_block _ (set_mTimer b t) (actions t)); [by exists l1|]. intros l2 Ql2.
    eapply wp_mono; [by eapply st_loose|]. cbn beta. intros _ l3 Ql3. apply wp_bind.
    eapply wp_mono; [apply (push_within (set_mTimer b t) (actions t) (0 + 1)); by exists l3|].
    cbn beta. intros _ t4 H4. apply wp_bind. eapply wp_mono; [by apply unlock_within|].
    cbn beta. intros _ t5 (l5 & Q5 & ->). apply wp_ret, wp_ret. cbn.
    split; [|by rewrite app_nil_r]. eapply within_tsim; [exact Hb|by exists l5|done..].
Qed.

Lemma tick_rest t0 acts w t :
  within t0 acts 0 w t -> mTimerLock t0 = 0 -> mMessagesPerInterval t0 < 2 ^ 31 ->
  wp (modify (set_sent 0) ;;
      n ← on_list list_size;
      (if n =? 0 then lock_timer ;; modify (set_mTimer false) ;; unlock_timer else mret tt) ;;
      wombatThrottle_dispatchMessagesUntilQuota) t (fun _ t' =>
    let n := Z.to_nat (mMessagesPerInterval t0) in
    exists v, within (set_mTimer (mTimer t0 && negb (empty w)) (set_sent v t0)) (acts ++ (action_of <$> take n w)) 0 (drop n w) t').
Proof.
  intros H El Hq. pose proof (within_size _ _ _ _ _ H) as Hn. destruct H as (l & Ql & ->). cbn in Hn. destruct t0 as [q rt s n i mq tm lk ac]. cbn in El, Hq. subst lk.
  apply wp_bind, wp_modify, wp_bind, wp_on_list, wp_gets. cbn. apply wp_bind.
  assert (forall b, within (mkThrottle q rt 0 n i mq b 0 ac) acts 0 w (mkThrottle l rt 0 n i mq b 0 acts)) as Hw
    by (intros b; by exists l).
  assert (forall b, wp wombatThrottle_dispatchMessagesUntilQuota (mkThrottle l rt 0 n i mq b 0 acts) (fun _ t' =>
    exists v, within (mkThrottle q rt v n i mq b 0 ac) (acts ++ (action_of <$> take (Z.to_nat n) w)) 0 (drop (Z.to_nat n) w) t'))
    as Hloop.
  { intros b. apply wp_bind, wp_gets, wp_bind, wp_gets. cbn beta.
    eapply wp_mono; [apply (quota_loop_spec _ _ _ _ _ (Hw b)); cbn; lia|]. cbn. rewrite Z.sub_0_r.
    intros _ t' (v & H'). by exists v. }
  rewrite Hn. destruct w as [|m w]; cbn [length empty negb]; change (Z.of_nat 0 =? 0) with true; cbn iota.
  - rewrite andb_false_r. apply wp_bind, wp_modify, wp_bind, wp_modify, wp_modify. apply Hloop.
  - rewrite (proj2 (Z.eqb_neq _ _)) by lia. rewrite andb_true_r. apply wp_ret. apply Hloop.
Qed.

Lemma tick_step t a : tsim t a -> wp (run_tcall Tick) t (done_step Tick t a).
Proof.
  intros H. pose proof H as [Hq Hr Hn _ Htm Hl _ Hw]. cbn [run_tcall]. unfold done_step. cbn [tstep].
  apply wp_bind. unfold wombatThrottle_timerCB. apply wp_bind, wp_gets, wp_bind. cbn beta. rewrite <- Hr.
  assert (forall b v, tsim (set_mTimer b (set_sent v t)) (with_timer b a)) as Ht by (intros; by apply tsim_timer).
  destruct (off (mRate t)) eqn:Ho.
  - eapply wp_mono; [apply purge_loop_spec; [by apply tsim_within|done|by eapply qrep_fuel]|].
    cbn beta. intros _ t1 H1. eapply wp_mono; [apply (tick_rest _ _ _ _ H1); [done|lia]|].
    cbn. rewrite take_nil, drop_nil, app_nil_r. intros _ t2 (v & l & Q & ->). apply wp_ret. split; [|done].
    rewrite andb_false_r in *. eapply within_tsim; [apply (Ht false v)|by exists l|done..].
  - eapply wp_mono; [by apply purge_loop_on|]. cbn beta. intros _ ? ->.
    eapply wp_mono; [apply (tick_rest t); [by apply tsim_within|done|lia]|].
    cbn. rewrite Hn. intros _ t2 (v & l & Q & ->). apply wp_ret. split; [|done].
    rewrite Htm in *. eapply within_tsim; [apply (Ht (atimer a && negb (empty (waiting a))) v)|by exists l|done..].
Qed.

Lemma call_step c t a : tsim t a -> wp (run_tcall c) t (done_step c t a).
Proof.
  destruct c; [apply dispatch_step|apply tick_step|apply remove_owner_step|apply set_rate_step|apply set_interval_step].
Qed.

Lemma calls_refine l : forall t a,
  tsim t a ->
  wp (run_tcalls l) t (fun rs t' =>
    length rs = length l /\
    let '(acts, a') := tsteps l rs a in tsim t' a' /\ actions t' = actions t ++ (action_of <$> acts)).
Proof.
  induction l as [|c l IH]; intros t a H; cbn [run_tcalls].
  { apply wp_ret. cbn. by rewrite app_nil_r. }
  apply wp_bind. eapply wp_mono; [by apply call_step|]. cbn beta. intros r t1. unfold done_step.
  destruct (tstep c r a) as [acts1 a1] eqn:E1. intros [H1 A1].
  apply wp_bind. eapply wp_mono; [apply (IH _ _ H1)|]. cbn beta. intros rs t2 [Hlen H2]. apply wp_ret.
  cbn [tsteps length]. rewrite E1. destruct (tsteps l rs a1) as [acts2 a2]. destruct H2 as [H2 A2].
  split; [lia|]. split; [done|]. by rewrite A2, A1, fmap_app, app_assoc.
Qed.

(** ** The throttle as a whole *)

(** What [wombatThrottle_allocate] makes: 1000 messages a second, in intervals
    of a tenth of a second. *)
Definition new_throttle : athrottle := mkAT [] double_1000 100 double_0_1 false.

Lemma fresh_sim limit t :
  wombatThrottle_allocate true limit = (MAMA_STATUS_OK, Some (Some t)) -> limit <= 2 ^ 64 ->
  tsim t new_throttle /\ actions t = [].
Proof.
  unfold wombatThrottle_allocate. destruct (list_create zero_msg sizeof_MsgProperties limit) as [q|] eqn:Hc; [|done].
  intros E Hl. assert (t = mkThrottle q double_1000 0 100 double_0_1 0 false 0 []) as ->.
  { revert E. generalize q. intros q' E. assert (wombatThrottle_setRate double_1000
      (mkThrottle q' double_0 0 0 double_0_1 0 false 0 []) = Ok (tt, mkThrottle q' double_1000 0 100 double_0_1 0 false 0 []))
      as Er by reflexivity. cbn in E. rewrite Er in E. by injection E as <-. }
  assert (lock q = 0) as El by (unfold list_create in Hc; case_match; [done|by injection Hc as <-]).
  apply list_create_sim in Hc; [|done|vm_compute; discriminate]. destruct Hc as [R _].
  split; [|done]. split; try done. by exists [], [].
Qed.

(** C13: a throttle is a queue with a quota.  Whatever sequence of dispatches,
    timer ticks, removals and changes of the rate is made on a new throttle,
    every call completes, and the actions that have been run are, in this order,
    those of the queue: with the rate at zero a dispatch runs at once and a tick
    empties the queue; otherwise a dispatch adds at the back (at the front when
    immediate; not at all without memory), and a tick runs the first of the
    waiting messages, as many as the quota of the interval. *)
Theorem throttle_refines_queue limit t l :
  wombatThrottle_allocate true limit = (MAMA_STATUS_OK, Some (Some t)) -> limit <= 2 ^ 64 ->
  exists rs t', run_tcalls l t = Ok (rs, t') /\ length rs = length l /\
    let '(acts, a) := tsteps l rs new_throttle in tsim t' a /\ actions t' = action_of <$> acts.
Proof.
  intros E Hl. destruct (fresh_sim _ _ E Hl) as [H Ha].
  destruct (proj1 (wp_elim _ _ _) (calls_refine l _ _ H)) as (rs & t' & Er & Hlen & H'). rewrite Ha in H'.
  exists rs, t'. done.
Qed.

Definition test_throttle : wombatThrottleImpl :=
  default (mkThrottle (mkList ∅ 0 0 0 0 ∅ 0 0 0) double_0 0 0 double_0 0 false 0 [])
    (default None (snd (wombatThrottle_allocate true (2 ^ 20)))).

Definition test_msg (owner n : Z) : MsgProperties := mkMsg owner n n n.

Definition test_calls : list tcall :=
  [Dispatch true (test_msg 1 1) false; Dispatch true (test_msg 2 2) false; Dispatch true (test_msg 1 3) true;
   RemoveOwner 2; SetRate double_1; Tick; Dispatch true (test_msg 3 4) false; SetRate double_0; Tick].

Lemma throttle_refines_queue_witness :
  exists rs t', run_tcalls test_calls test_throttle = Ok (rs, t') /\ length rs = 9%nat /\
    let '(acts, a) := tsteps test_calls rs new_throttle in tsim t' a /\ actions t' = action_of <$> acts.
Proof. apply (throttle_refines_queue (2 ^ 20) test_throttle test_calls); [reflexivity|vm_compute; discriminate]. Defined.

Example throttle_run :
  match run_tcalls test_calls test_throttle with
  | Ok (rs, t') => (rs, actions t') = (replicate 9 MAMA_STATUS_OK, [(3, 3, 3); (1, 1, 1); (4, 4, 4)])
  | Fail _ => False
  end.
Proof. vm_compute. reflexivity. Qed.

(** *** The timer *)

(** Whether a call that makes the timer gets one. *)
Definition timer_made (c : tcall) : bool := match c with Dispatch ok _ _ => ok | _ => true end.

(** What waits has a timer. *)
Definition armed (a : athrottle) : Prop := waiting a <> [] -> atimer a = true.

Lemma others_nil owner w : others owner w <> [] -> w <> [].
Proof. by intros H ->. Qed.

Lemma tstep_armed c st a : timer_made c = true -> armed a -> armed (tstep c st a).2.
Proof.
  unfold armed. intros Hc Ha. destruct c as [ok m immediate| |owner|rate|interval]; cbn in *; try done.
  - subst ok. repeat case_match; cbn; intros; by rewrite ?orb_true_r; auto.
  - case_match; cbn; [done|]. intros Hd. destruct (waiting a) as [|m w]; [by rewrite drop_nil in Hd|]. cbn. by rewrite Ha.
  - intros Hd. apply Ha. by eapply others_nil.
Qed.

Lemma tsteps_armed l : forall rs a, forallb timer_made l = true -> armed a -> armed (tsteps l rs a).2.
Proof.
  induction l as [|c l IH]; intros [|r rs] a Hl Ha; try done. cbn in Hl. apply andb_prop in Hl as [Hc Hl]. cbn.
  pose proof (tstep_armed c r a Hc Ha) as H1. destruct (tstep c r a) as [acts1 a1]. specialize (IH rs a1 Hl H1). by destruct (tsteps l rs a1).
Qed.

(** [k] intervals pass: the callback of the timer runs at the end of one when the
    timer is there. *)
Fixpoint intervals (k : nat) : TM unit :=
  match k with
  | O => mret tt
  | S k' => timer ← gets mTimer; (if timer : bool then wombatThrottle_timerCB else mret tt) ;; intervals k'
  end.

(** The intervals that suffice for [n] messages. *)
Definition enough (a : athrottle) (k : nat) : Prop :=
  if off (arate a) then (1 <= k)%nat else Z.of_nat (length (waiting a)) <= Z.of_nat k * aquota a.

Lemma interval_step k t a (Q : unit -> wombatThrottleImpl -> Prop) : tsim t a -> armed a ->
  (forall t', tsim t' (tstep Tick MAMA_STATUS_OK a).2 -> actions t' = actions t ++ (action_of <$> (tstep Tick MAMA_STATUS_OK a).1) -> wp (intervals k) t' Q) ->
  wp (intervals (S k)) t Q.
Proof.
  intros H Ha HQ. cbn [intervals]. apply wp_bind, wp_gets. rewrite (ts_timer _ _ H). apply wp_bind. destruct (atimer a) eqn:E.
  - pose proof (tick_step t a H) as W. cbn [run_tcall] in W. unfold wp, mbind, M_bind in W |- *.
    destruct (wombatThrottle_timerCB t) as [[x t1]|f]; [|done]. change (done_step Tick t a MAMA_STATUS_OK t1) in W.
    unfold done_step in W. destruct (tstep Tick MAMA_STATUS_OK a). destruct W. by apply HQ.
  - apply wp_ret. assert (waiting a = []) as Hw by (unfold armed in Ha; destruct (waiting a); [done|by rewrite Ha in E]).
    assert (tstep Tick MAMA_STATUS_OK a = ([], a)) as Et.
    { destruct a as [w r q i b]. cbn in Hw, E |- *. subst w b. cbn. by rewrite take_nil, drop_nil; case_match. }
    rewrite Et in HQ. apply HQ; [done|]. by rewrite app_nil_r.
Qed.

Lemma intervals_drain k : forall t a, tsim t a -> armed a -> waiting a = [] \/ enough a k ->
  wp (intervals k) t (fun _ t' => exists a', tsim t' a' /\ armed a' /\ waiting a' = [] /\ actions t' = actions t ++ (action_of <$> waiting a)).
Proof.
  induction k as [|k IH]; intros t a H Ha Hk.
  - apply wp_ret. exists a. assert (waiting a = []) as E.
    { destruct Hk as [Hk|Hk]; [done|]. unfold enough in Hk. destruct (off (arate a)); [lia|]. destruct (waiting a); [done|cbn in Hk; lia]. }
    split_and!; try done. by rewrite E, app_nil_r.
  - pose proof (tstep_armed Tick MAMA_STATUS_OK a eq_refl Ha) as Ha1. apply (interval_step k t a); [done..|]. intros t1 H1 A1.
    set (a1 := (tstep Tick MAMA_STATUS_OK a).2) in *.
    assert ((tstep Tick MAMA_STATUS_OK a).1 ++ waiting a1 = waiting a) as Ew.
    { unfold a1. cbn. case_match; cbn; [by rewrite app_nil_r|by rewrite take_drop]. }
    assert (waiting a1 = [] \/ enough a1 k) as Hk1.
    { unfold a1, enough in *. cbn. destruct (off (arate a)) eqn:Ho; cbn; [by left|]. rewrite Ho.
      destruct Hk as [Hk|Hk]; [left; by rewrite Hk, drop_nil|right]. rewrite length_drop. destruct (Z.le_gt_cases 0 (aquota a)); nia. }
    eapply wp_mono; [by apply (IH t1 a1)|]. cbn beta. intros _ t2 (a2 & H2 & Ha2 & E2 & A2). exists a2. split_and!; try done.
    rewrite A2, A1, <- app_assoc, <- fmap_app, Ew. done.
Qed.

(** C14: no message waits for ever.  Take any history of a new throttle in which
    timers can be created.  Then a timer is running whenever messages wait, and it
    keeps running until they are sent: when no other call is made, after as many
    intervals as the waiting messages fill (one interval, when the throttle was
    switched off) all of them have been run, in their order, by the callback of that
    timer, and one more interval later there is no timer any more.  This needs a
    quota, which every rate gives but those of 2^31 messages an interval or more,
    whose conversion to int has no value: with that of the processor nothing is sent
    ([huge_rate_sends_nothing]). *)
Theorem throttle_drains limit t l rs t1 k :
  wombatThrottle_allocate true limit = (MAMA_STATUS_OK, Some (Some t)) -> limit <= 2 ^ 64 ->
  run_tcalls l t = Ok (rs, t1) -> forallb timer_made l = true ->
  let '(acts, a) := tsteps l rs new_throttle in
  (lsize (mMsgQueue t1) <> 0 -> mTimer t1 = true) /\
  (enough a k ->
     wp (intervals k) t1 (fun _ t2 => actions t2 = action_of <$> (acts ++ waiting a) /\ lsize (mMsgQueue t2) = 0 /\
       wp (intervals 1) t2 (fun _ t3 => actions t3 = actions t2 /\ mTimer t3 = false))).
Proof.
  intros E Hl Er Ht. destruct (fresh_sim _ _ E Hl) as [H Ha].
  pose proof (calls_refine l _ _ H) as W. unfold wp in W. rewrite Er in W. destruct W as [_ W].
  pose proof (tsteps_armed l rs new_throttle Ht (fun Hne => match Hne eq_refl with end)) as Hm.
  destruct (tsteps l rs new_throttle) as [acts a]. destruct W as [H1 A1]. cbn in Hm. split.
  - intros Hs. rewrite (ts_timer _ _ H1). apply Hm. intros Hw. rewrite (within_size _ _ _ _ _ (tsim_within _ _ H1)), Hw in Hs. done.
  - intros Hk. eapply wp_mono; [apply (intervals_drain k t1 a); auto|]. cbn beta. intros _ t2 (a2 & H2 & Ha2 & Hw2 & A2).
    split; [by rewrite A2, A1, Ha, fmap_app|]. split; [by rewrite (within_size _ _ _ _ _ (tsim_within _ _ H2)), Hw2|].
    apply (interval_step 0 t2 a2); [done..|]. intros t3 H3 A3. apply wp_ret. rewrite (ts_timer _ _ H3), A3. cbn. rewrite Hw2.
    case_match; cbn; (split; [by rewrite ?take_nil, app_nil_r|]); by rewrite ?andb_false_r.
Qed.

(** Five messages at two an interval: 20 a second. *)
Definition drain_calls : list tcall :=
  SetRate (S754_finite false 5629499534213120 (-48)) :: map (fun n => Dispatch true (test_msg 1 n) false) [1; 2; 3; 4; 5].
Definition drain_state : wombatThrottleImpl := Eval vm_compute in after_run (run_tcalls drain_calls) test_throttle.
Definition drain_end : list MsgProperties * athrottle :=
  Eval vm_compute in tsteps drain_calls (replicate 6 MAMA_STATUS_OK) new_throttle.

Lemma throttle_drains_witness :
  mTimer drain_state = true /\
  wp (intervals 3) drain_state (fun _ t2 => actions t2 = [(1, 1, 1); (2, 2, 2); (3, 3, 3); (4, 4, 4); (5, 5, 5)] /\ lsize (mMsgQueue t2) = 0 /\
    wp (intervals 1) t2 (fun _ t3 => actions t3 = actions t2 /\ mTimer t3 = false)).
Proof.
  pose proof (throttle_drains (2 ^ 20) test_throttle drain_calls (replicate 6 MAMA_STATUS_OK) drain_state 3) as H.
  replace (tsteps drain_calls (replicate 6 MAMA_STATUS_OK) new_throttle) with drain_end in H by (vm_compute; reflexivity).
  destruct H as [H1 H2]; [vm_compute; first [reflexivity|discriminate]..|]. split; [apply H1; vm_compute; discriminate|].
  apply H2. vm_compute. discriminate.
Defined.

Definition double_2_40 : spec_float := S754_finite false 4503599627370496 (-12).

(** At 2^40 messages a second the quota of an interval of 0.1 s is negative. *)
Example huge_rate_sends_nothing :
  match run_tcalls ([SetRate double_2_40; Dispatch true (test_msg 1 1) false] ++ replicate 9 Tick) test_throttle with
  | Ok (_, t) => mMessagesPerInterval t = - 2 ^ 31 /\ lsize (mMsgQueue t) = 1 /\ mTimer t = true /\ actions t = []
  | Fail _ => False
  end.
Proof. vm_compute. repeat split. Qed.

(** A timer that cannot be created is not missed until the next dispatch. *)
Example no_timer_waits :
  match run_tcalls [Dispatch false (test_msg 1 1) false] test_throttle with
  | Ok (_, t) => mTimer t = false /\ lsize (mMsgQueue t) = 1 /\ state_of (intervals 9 t) = Some t
  | Fail _ => False
  end.
Proof. vm_compute. split; [reflexivity|]. split; reflexivity. Qed.
