(* ===== verification/EndpointPool.v ===== *)
(** * The endpoint pool (mama/c_cpp/src/c/endpointpool.c)

    A client of the hash table through its interface [StringTable]: a table from
    topics to tables from identifiers to endpoints.  The inner tables live in a
    heap under their addresses, which are the data of the outer table.  The
    array [endpointPool_getRegistered] fills is kept as the list of its cells;
    a write outside it faults.  An argument that may be NULL is an [option], or
    a [bool] when only its presence matters; the flags [mem..] say whether an
    allocation succeeds. *)

From S2P Require Import Prelude MamaStatus WTableSpec Cstdio.
From Stdlib Require Import Ascii.
Import Cstdio.

Module EndpointPool.

Definition ENDPOINT_POOL_TABLE_CHUNK_SIZE : Z := 10.
Definition ENDPOINT_POOL_BUFFER_CHUNK_SIZE : Z := 1024.
Definition ENDPOINT_POOL_MAX_ID_LEN : Z := 128.
Definition sizeof_pointer : Z := 8.

(** A cell of the result array: a pointer, or the address of a key. *)
Inductive cell : Type :=
| Ptr (p : Z)
| KeyPtr (k : string).

#[export] Instance cell_eq_dec : EqDecision cell.
Proof. solve_decision. Defined.

Section pool.

Context {T : Type} `{StringTable T}.

(** [heap] and [brk] are the inner tables and the next free address; [called]
    records the endpoints passed to the callback of the destruction. *)
Record endpointPoolImpl : Type := mkPool {
  mName : string;
  mContainer : T;
  mBuffer : list cell;
  mBufferIndex : Z;
  mBufferSize : Z;
  mLock : Z;
  heap : gmap Z T;
  brk : Z;
  called : list Z;
}.

Definition set_mContainer (v : T) (p : endpointPoolImpl) : endpointPoolImpl :=
  mkPool (mName p) v (mBuffer p) (mBufferIndex p) (mBufferSize p) (mLock p) (heap p) (brk p) (called p).
Definition set_buffer (b : list cell) (size : Z) (p : endpointPoolImpl) : endpointPoolImpl :=
  mkPool (mName p) (mContainer p) b (mBufferIndex p) size (mLock p) (heap p) (brk p) (called p).
Definition set_index (v : Z) (p : endpointPoolImpl) : endpointPoolImpl :=
  mkPool (mName p) (mContainer p) (mBuffer p) v (mBufferSize p) (mLock p) (heap p) (brk p) (called p).
Definition set_mLock (v : Z) (p : endpointPoolImpl) : endpointPoolImpl :=
  mkPool (mName p) (mContainer p) (mBuffer p) (mBufferIndex p) (mBufferSize p) v (heap p) (brk p) (called p).
Definition set_heap (v : gmap Z T) (b : Z) (p : endpointPoolImpl) : endpointPoolImpl :=
  mkPool (mName p) (mContainer p) (mBuffer p) (mBufferIndex p) (mBufferSize p) (mLock p) v b (called p).
Definition set_called (v : list Z) (p : endpointPoolImpl) : endpointPoolImpl :=
  mkPool (mName p) (mContainer p) (mBuffer p) (mBufferIndex p) (mBufferSize p) (mLock p) (heap p) (brk p) v.

Abbreviation PM := (M endpointPoolImpl).

Definition lift {A} (r : res A) : PM A := fun p =>
  match r with Ok a => Ok (a, p) | Fail f => Fail f end.

Definition wlock_lock : PM unit := modify (fun p => set_mLock (mLock p + 1) p).
Definition wlock_unlock : PM unit := modify (fun p => set_mLock (mLock p - 1) p).

(** ** Tables by address: NULL is 0 *)

Definition table_at (a : Z) : PM T := fun p =>
  match heap p !! a with Some t => Ok (t, p) | None => Fail InvalidDeref end.

Definition new_table (mem : bool) (nm : string) (n : Z) : PM Z := fun p =>
  match (if mem then st_create nm n else None) with
  | Some t => Ok (brk p, set_heap (<[brk p := t]> (heap p)) (brk p + 1) p)
  | None => Ok (0, p)
  end.

(** [wtable_insert]: a NULL table is left alone. *)
Definition table_insert (mem : bool) (a : Z) (k : string) (d : Z) : PM unit :=
  if a =? 0 then mret tt
  else
    t ← table_at a;
    r ← lift (st_insert mem k d t);
    modify (fun p => set_heap (<[a := r.2]> (heap p)) (brk p) p).

Definition container_insert (mem : bool) (k : string) (d : Z) : PM unit :=
  c ← gets mContainer;
  r ← lift (st_insert mem k d c);
  modify (set_mContainer r.2).

Definition container_lookup (topic : string) : PM Z :=
  c ← gets mContainer;
  lift (st_lookup topic c).

(** [wtable_for_each] with a callback that works on the pool. *)
Definition for_each (cb : Z -> string -> PM unit) (t : T) : PM unit := fun p =>
  match st_for_each (fun d k (c : res (unit * endpointPoolImpl)) =>
                       match c with Ok (_, p') => cb d k p' | Fail f => Fail f end) (Ok (tt, p)) t with
  | Ok r => r
  | Fail f => Fail f
  end.

(** ** Creation *)

(** [mem_impl], [mem_name], [mem_buffer], [mem_table]: the allocations, in
    their order.  The lock is not destroyed on the failures. *)
Definition endpointPool_create (mem_impl mem_name mem_buffer mem_table : bool) (endpoints : bool) (name : option string)
  : mama_status * option endpointPoolImpl :=
  match endpoints, name with
  | true, Some name =>
      if negb mem_impl then (MAMA_STATUS_NOMEM, None)
      else if negb mem_name then (MAMA_STATUS_NOMEM, None)
      else if negb mem_buffer then (MAMA_STATUS_NOMEM, None)
      else
        match (if mem_table then st_create name ENDPOINT_POOL_TABLE_CHUNK_SIZE else None) with
        | None => (MAMA_STATUS_NOMEM, None)
        | Some container =>
            (MAMA_STATUS_OK,
             Some (mkPool name container
                     (replicate (Z.to_nat (ENDPOINT_POOL_BUFFER_CHUNK_SIZE / sizeof_pointer)) (Ptr 0))
                     0 ENDPOINT_POOL_BUFFER_CHUNK_SIZE 0 ∅ 1 []))
        end
  | _, _ => (MAMA_STATUS_NULL_ARG, None)
  end.

(** ** Registration *)

(** [mem_table], [mem_entry], [mem_topic]: memory for a new inner table, for its
    entry and for the entry of the outer table; the results are not checked. *)
Definition endpointPool_registerWithIdentifier (mem_table mem_entry mem_topic : bool) (endpoints : bool)
    (topic identifier : option string) (opaque : Z) : PM mama_status :=
  match endpoints, topic, identifier with
  | true, Some topic, Some identifier =>
      wlock_lock ;;
      registeredTable ← container_lookup topic;
      (if registeredTable =? 0 then
         newConsumerTable ← new_table mem_table topic 1;
         table_insert mem_entry newConsumerTable identifier opaque ;;
         container_insert mem_topic topic newConsumerTable
       else
         t ← table_at registeredTable;
         entry ← lift (st_lookup identifier t);
         if entry =? 0 then table_insert mem_entry registeredTable identifier opaque else mret tt) ;;
      wlock_unlock ;;
      mret MAMA_STATUS_OK
  | _, _, _ => mret MAMA_STATUS_NULL_ARG
  end.

(** [%p] of a pointer that is not NULL.  At most 18 characters: the buffer of
    [ENDPOINT_POOL_MAX_ID_LEN] does not cut it. *)
Definition pointer_text (p : Z) : string := String "0"%char (String "x"%char (put_x p EmptyString)).

(** The second component of the result is the identifier. *)
Definition endpointPool_registerWithoutIdentifier (mem_id mem_table mem_entry mem_topic : bool) (endpoints : bool)
    (topic : option string) (identifier : bool) (opaque : Z) : PM (mama_status * option string) :=
  match endpoints && identifier && negb (opaque =? 0), topic with
  | true, Some _ =>
      let identifierBuffer := pointer_text opaque in
      let id := if mem_id then Some identifierBuffer else None in
      status ← endpointPool_registerWithIdentifier mem_table mem_entry mem_topic endpoints topic id opaque;
      mret (status, id)
  | _, _ => mret (MAMA_STATUS_NULL_ARG, None)
  end.

Definition endpointPool_unregister (endpoints : bool) (topic identifier : option string) : PM mama_status :=
  match endpoints, topic, identifier with
  | true, Some topic, Some identifier =>
      wlock_lock ;;
      registeredTable ← container_lookup topic;
      (if registeredTable =? 0 then mret tt
       else
         t ← table_at registeredTable;
         r ← lift (st_remove identifier t);
         modify (fun p => set_heap (<[registeredTable := r.2]> (heap p)) (brk p) p)) ;;
      wlock_unlock ;;
      mret MAMA_STATUS_OK
  | _, _, _ => mret MAMA_STATUS_NULL_ARG
  end.

(** ** Reading *)

(** [while (newSize < size) newSize += ENDPOINT_POOL_BUFFER_CHUNK_SIZE]. *)
Fixpoint extend_loop (fuel : nat) (newSize size : Z) : res Z :=
  if newSize <? size then
    match fuel with
    | O => Fail OutOfFuel
    | S fuel' => extend_loop fuel' (u64 (newSize + ENDPOINT_POOL_BUFFER_CHUNK_SIZE)) size
    end
  else Ok newSize.

(** The contents of the new part of the buffer are not specified. *)
Definition endpointPoolImpl_extendBuffer (mem : bool) (size : Z) : PM mama_status :=
  bufferSize ← gets mBufferSize;
  if size <=? bufferSize then mret MAMA_STATUS_OK
  else
    newSize ← lift (extend_loop (Z.to_nat ((size - bufferSize) / ENDPOINT_POOL_BUFFER_CHUNK_SIZE + 1)) bufferSize size);
    if mem then
      modify (fun p => set_buffer
        (mBuffer p ++ replicate (Z.to_nat ((newSize - mBufferSize p) / sizeof_pointer)) (Ptr 0)) newSize p) ;;
      mret MAMA_STATUS_OK
    else mret MAMA_STATUS_NOMEM.

Definition store_cell (i : Z) (v : cell) : PM unit := fun p =>
  match mBuffer p !! Z.to_nat i with
  | Some _ => Ok (tt, set_buffer (<[Z.to_nat i := v]> (mBuffer p)) (mBufferSize p) p)
  | None => Fail InvalidDeref
  end.

Definition endpointPoolImpl_appendEachEndpoint (mem : bool) (data : Z) (key : string) : PM unit :=
  index ← gets mBufferIndex;
  let required := u64 (sizeof_pointer * (index + 1)) in
  bufferSize ← gets mBufferSize;
  (if bufferSize <? required then endpointPoolImpl_extendBuffer mem required ;; mret tt else mret tt) ;;
  store_cell index (if data =? 0 then KeyPtr key else Ptr data) ;;
  modify (set_index (u64 (index + 1))).

(** [opaque], [count]: whether the result pointers are given.  The result is the
    status, the count and whether the array is set; the array is [mBuffer]. *)
Definition endpointPool_getRegistered (mem : bool) (endpoints : bool) (topic : option string) (opaque count : bool)
  : PM (mama_status * Z * bool) :=
  match endpoints && opaque && count, topic with
  | true, Some topic =>
      wlock_lock ;;
      registeredTable ← container_lookup topic;
      r ← (if registeredTable =? 0 then mret (0, false)
           else
             modify (set_index 0) ;;
             t ← table_at registeredTable;
             for_each (endpointPoolImpl_appendEachEndpoint mem) t ;;
             count ← gets mBufferIndex;
             mret (count, true));
      wlock_unlock ;;
      mret (MAMA_STATUS_OK, r.1, r.2)
  | _, _ => mret (MAMA_STATUS_NULL_ARG, 0, false)
  end.

Definition endpointPool_getName (endpoints name : bool) : PM (mama_status * option string) :=
  if endpoints && name then nm ← gets mName; mret (MAMA_STATUS_OK, Some nm)
  else mret (MAMA_STATUS_NULL_ARG, None).

Definition endpointPoolImpl_checkEndpointExists (mMatchWith : Z) (data : Z) (key : string) (mResult : Z) : Z :=
  if data =? mMatchWith then 1 else mResult.

Definition endpointPool_isRegistedByContent (endpoints : bool) (topic : option string) (content : Z) : PM Z :=
  match endpoints && negb (content =? 0), topic with
  | true, Some topic =>
      wlock_lock ;;
      registeredTable ← container_lookup topic;
      ret ← (if registeredTable =? 0 then mret 0
             else
               t ← table_at registeredTable;
               lift (st_for_each (endpointPoolImpl_checkEndpointExists content) 0 t));
      wlock_unlock ;;
      mret ret
  | _, _ => mret 0
  end.

(** [endpoint]: what the result pointer holds. *)
Definition endpointPool_getEndpointByIdentifiers (topic identifier : string) (endpoint : Z) : PM (mama_status * Z) :=
  wlock_lock ;;
  registeredTable ← container_lookup topic;
  r ← (if registeredTable =? 0 then mret (MAMA_STATUS_NOT_FOUND, endpoint)
       else
         t ← table_at registeredTable;
         existingEndpoint ← lift (st_lookup identifier t);
         mret (if existingEndpoint =? 0 then (MAMA_STATUS_NOT_FOUND, endpoint) else (MAMA_STATUS_OK, existingEndpoint)));
  wlock_unlock ;;
  mret r.

(** ** Destruction *)

(** [callback]: whether the callback is not NULL; calling NULL faults. *)
Definition endpointPoolImpl_triggerEndpointDestroyCb (callback : bool) (data : Z) (key : string) : PM unit :=
  if data =? 0 then mret tt
  else if callback then modify (fun p => set_called (called p ++ [data]) p)
  else fail InvalidDeref.

(** The closure is the address of the caller's variable, never NULL. *)
Definition endpointPoolImpl_destroySubTable (callback : bool) (data : Z) (key : string) : PM unit :=
  (if data =? 0 then mret tt
   else t ← table_at data; for_each (endpointPoolImpl_triggerEndpointDestroyCb callback) t) ;;
  t ← table_at data;
  lift (st_clear t) ;;
  modify (fun p => set_heap (delete data (heap p)) (brk p) p).

(** The result holds the pool as it was when the structure was freed. *)
Definition endpointPool_destroyWithCallback (callback : bool) (endpoints : option endpointPoolImpl)
  : res (mama_status * option endpointPoolImpl) :=
  match endpoints with
  | None => Ok (MAMA_STATUS_NULL_ARG, None)
  | Some p =>
      match (wlock_lock ;;
             c ← gets mContainer;
             for_each (endpointPoolImpl_destroySubTable callback) c ;;
             c' ← lift (st_clear c);
             modify (set_mContainer c')) p with
      | Ok (_, p') => Ok (MAMA_STATUS_OK, Some p')
      | Fail f => Fail f
      end
  end.

Definition endpointPool_destroy (endpoints : option endpointPoolImpl) : res (mama_status * option endpointPoolImpl) :=
  endpointPool_destroyWithCallback false endpoints.

End pool.

Arguments endpointPoolImpl T : clear implicits.

End EndpointPool.
