(* ===== verification/EndpointPoolProps.v ===== *)
(** * The endpoint pool: topics, identifiers and endpoints

    Proved against the interface of the hash table: the pool is a finite map
    from topics to finite maps from identifiers to endpoints, its array is
    extended before it is written, and what its destruction does. *)

From S2P Require Import Prelude MamaStatus WTableSpec Cstdio EndpointPool.
From Stdlib Require Import Ascii.
Import Cstdio EndpointPool.

Section props.

Context {T : Type} `{StringTable T}.

Abbreviation pool := (endpointPoolImpl T).

(** ** What a pool stands for *)

Abbreviation apool := (gmap string (gmap string Z)).

(** The address of the table of a topic; 0 without one. *)
Definition addr (p : pool) (topic : string) : Z := default 0 (st_map (mContainer p) !! topic).

Definition buf_ok (b : list cell) (size : Z) : Prop :=
  size = 8 * Z.of_nat (length b) /\ size <= 2 ^ 62 /\ exists j, 0 < j /\ size = 1024 * j.

(** [p] stands for [a]; its lock is taken [k] times. *)
Record prep (k : Z) (p : pool) (a : apool) : Prop := mkPrep {
  pr_container : st_ok (mContainer p);
  pr_none : forall topic, addr p topic = 0 -> a !! topic = None;
  pr_some : forall topic, addr p topic <> 0 ->
    0 < addr p topic < brk p /\ exists t, heap p !! addr p topic = Some t /\ st_ok t /\ a !! topic = Some (st_map t);
  pr_entry : forall topic, is_Some (st_map (mContainer p) !! topic) -> addr p topic <> 0;
  pr_inj : forall t1 t2, addr p t1 <> 0 -> addr p t1 = addr p t2 -> t1 = t2;
  pr_heap : forall x, is_Some (heap p !! x) -> x <> 0 /\ exists topic, addr p topic = x;
  pr_brk : 0 < brk p;
  pr_lock : mLock p = k;
  pr_buf : buf_ok (mBuffer p) (mBufferSize p);
}.

Lemma prep_lock k k' p a : prep k p a -> prep k' (set_mLock k' p) a.
Proof. intros [A B C N D E F G I]. by split. Qed.

Lemma prep_topic k p a topic :
  prep k p a ->
  (addr p topic = 0 /\ a !! topic = None) \/
  (addr p topic <> 0 /\ exists t, heap p !! addr p topic = Some t /\ st_ok t /\ a !! topic = Some (st_map t)).
Proof.
  intros R. destruct (decide (addr p topic = 0)) as [E|E].
  - left. split; [done|]. by apply (pr_none _ _ _ R).
  - right. split; [done|]. by apply (pr_some _ _ _ R).
Qed.

Lemma wp_lift {A} (r : res A) (p : pool) (Q : A -> pool -> Prop) x : r = Ok x -> Q x p -> wp (lift r) p Q.
Proof. intros -> HQ. exact HQ. Qed.

Lemma wp_lookup topic p (Q : Z -> pool -> Prop) :
  st_ok (mContainer p) -> Q (addr p topic) p -> wp (container_lookup topic) p Q.
Proof.
  intros Ho HQ. apply wp_bind, wp_gets. cbn beta. eapply wp_lift; [by apply st_lookup_spec|]. exact HQ.
Qed.

Lemma wp_table a t p (Q : T -> pool -> Prop) : heap p !! a = Some t -> Q t p -> wp (table_at a) p Q.
Proof. intros E HQ. unfold wp, table_at. by rewrite E. Qed.

(** Replacing the table of a topic. *)
Lemma prep_replace k p a topic t' :
  prep k p a -> addr p topic <> 0 -> st_ok t' ->
  prep k (set_heap (<[addr p topic := t']> (heap p)) (brk p) p) (<[topic := st_map t']> a).
Proof.
  intros [A B C N D E F G I] Hne Ho.
  split; cbn [mContainer set_heap heap brk mLock mBuffer mBufferSize]; try done.
  - intros tp Ht. rewrite lookup_insert_ne; [by apply B|]. by intros ->.
  - intros tp Ht. change (addr (set_heap _ _ p) tp) with (addr p tp) in *. split; [by apply C|].
    destruct (decide (topic = tp)) as [<-|Hn].
    + exists t'. by rewrite !lookup_insert_eq.
    + destruct (C tp Ht) as (_ & t & H1 & H2 & H3). exists t.
      rewrite !lookup_insert_ne; [done|done|]. intros Ea. by apply Hn, D.
  - intros x Hx. apply E. apply lookup_insert_is_Some in Hx. destruct Hx as [<-|[_ Hx]]; [|done].
    destruct (C topic Hne) as (_ & t & -> & _). done.
Qed.

(** A new table for a topic that has none. *)
Lemma prep_new k p a topic t c' :
  prep k p a -> addr p topic = 0 -> st_ok t -> st_ok c' ->
  st_map c' = <[topic := brk p]> (st_map (mContainer p)) ->
  prep k (set_mContainer c' (set_heap (<[brk p := t]> (heap p)) (brk p + 1) p)) (<[topic := st_map t]> a).
Proof.
  intros [A B C N D E F G I] H0 Ho Hc Hm.
  assert (forall tp, addr (set_mContainer c' (set_heap (<[brk p := t]> (heap p)) (brk p + 1) p)) tp
            = if decide (topic = tp) then brk p else addr p tp) as Ha.
  { intros tp. unfold addr. cbn. rewrite Hm, lookup_insert. by case_decide. }
  split; cbn [mContainer set_heap set_mContainer heap brk mLock mBuffer mBufferSize]; try done.
  - intros tp. rewrite Ha. case_decide; [lia|]. intros Ht. rewrite lookup_insert_ne by done. by apply B.
  - intros tp. rewrite Ha. case_decide as Hd.
    + subst. intros _. split; [lia|]. exists t. by rewrite !lookup_insert_eq.
    + intros Ht. destruct (C tp Ht) as (Hr & t1 & H1 & H2 & H3). split; [lia|]. exists t1.
      rewrite !lookup_insert_ne by (done || lia). done.
  - intros tp. rewrite Ha, Hm. case_decide; [lia|]. rewrite lookup_insert_ne by done. apply N.
  - intros t1 t2. rewrite !Ha. repeat case_decide; subst; try done.
    + intros _ E2. destruct (C t2) as [? _]; [lia|lia].
    + intros Ht E2. destruct (C t1) as [? _]; [done|lia].
    + apply D.
  - intros x [<-|[Hx1 Hx2]]%lookup_insert_is_Some.
    + split; [lia|]. exists topic. rewrite Ha. by rewrite decide_True.
    + destruct (E x Hx2) as [Hx0 [tp <-]]. split; [done|]. exists tp. rewrite Ha. rewrite decide_False; [done|].
      intros <-. by rewrite H0 in Hx0.
  - lia.
Qed.

(** ** Registration *)

Definition aregister (topic id : string) (e : Z) (a : apool) : apool :=
  match a !! topic with
  | None => <[topic := {[id := e]}]> a
  | Some m => if default 0 (m !! id) =? 0 then <[topic := <[id := e]> m]> a else a
  end.

Definition aunregister (topic id : string) (a : apool) : apool :=
  match a !! topic with None => a | Some m => <[topic := delete id m]> a end.

Lemma wp_locked {A} (m : M pool A) (p : pool) a (Q : A -> pool -> Prop) :
  prep 0 p a -> (forall p1, prep 1 p1 a -> mBuffer p1 = mBuffer p -> wp m p1 Q) -> wp (wlock_lock ;; m) p Q.
Proof.
  intros R Hm. apply wp_bind, wp_modify. apply Hm; [|done]. rewrite (pr_lock _ _ _ R). by eapply prep_lock.
Qed.

Lemma wp_unlock {A} (x : A) (p : pool) a (Q : A -> pool -> Prop) :
  prep 1 p a -> (forall p', prep 0 p' a -> mBuffer p' = mBuffer p -> mBufferIndex p' = mBufferIndex p -> Q x p') ->
  wp (wlock_unlock ;; mret x) p Q.
Proof.
  intros R HQ. apply wp_bind, wp_modify, wp_ret. rewrite (pr_lock _ _ _ R). apply HQ; [|done..]. by eapply prep_lock.
Qed.

Lemma register_spec topic id e p a :
  prep 0 p a ->
  wp (endpointPool_registerWithIdentifier true true true true (Some topic) (Some id) e) p (fun r p' =>
    r = MAMA_STATUS_OK /\ prep 0 p' (aregister topic id e a)).
Proof.
  intros R. eapply wp_locked; [exact R|]. clear R. intros p1 R _. apply wp_bind, wp_lookup; [apply R|].
  apply wp_bind. unfold aregister.
  eapply (wp_mono _ _ (fun _ p' => prep 1 p' (aregister topic id e a))).
  2:{ intros _ p2 R2. eapply wp_unlock; [exact R2|]. auto. }
  unfold aregister. destruct (prep_topic _ _ _ topic R) as [(E & ->)|(E & t & Ht & Ho & ->)].
  - rewrite E. cbn [Z.eqb]. apply wp_bind. unfold wp at 1, new_table.
    destruct (st_create_spec topic 1) as (t & -> & Ho & Hm); [lia..|]. pose proof (pr_brk _ _ _ R) as Hb.
    apply wp_bind. unfold table_insert. destruct (Z.eqb_spec (brk p1) 0); [lia|].
    apply wp_bind. eapply wp_table; [apply lookup_insert_eq|]. cbn beta.
    destruct (st_insert_spec t id e Ho) as (t' & Ei & Ho' & Hm'). apply wp_bind. eapply wp_lift; [exact Ei|].
    apply wp_modify. apply wp_bind, wp_gets, wp_bind.
    destruct (st_insert_spec (mContainer p1) topic (brk p1) (pr_container _ _ _ R)) as (c' & Ec & Hc & Hcm).
    eapply wp_lift; [exact Ec|]. apply wp_modify. cbn [snd heap brk set_heap]. rewrite insert_insert_eq.
    rewrite Hm in Hm'. rewrite insert_empty in Hm'. rewrite <- Hm'.
    exact (prep_new _ p1 a topic t' c' R E Ho' Hc Hcm).
  - destruct (Z.eqb_spec (addr p1 topic) 0); [done|]. apply wp_bind. eapply wp_table; [exact Ht|].
    apply wp_bind. eapply wp_lift; [by apply st_lookup_spec|]. cbn beta.
    destruct (default 0 (st_map t !! id) =? 0); [|by apply wp_ret].
    unfold table_insert. destruct (Z.eqb_spec (addr p1 topic) 0); [done|]. apply wp_bind. eapply wp_table; [exact Ht|].
    cbn beta. destruct (st_insert_spec t id e Ho) as (t' & Ei & Ho' & Hm'). apply wp_bind. eapply wp_lift; [exact Ei|].
    apply wp_modify. cbn [snd]. rewrite <- Hm'. by apply prep_replace.
Qed.

Lemma unregister_spec topic id p a :
  prep 0 p a ->
  wp (endpointPool_unregister true (Some topic) (Some id)) p (fun r p' =>
    r = MAMA_STATUS_OK /\ prep 0 p' (aunregister topic id a)).
Proof.
  intros R. eapply wp_locked; [exact R|]. clear R. intros p1 R _. apply wp_bind, wp_lookup; [apply R|].
  apply wp_bind. eapply (wp_mono _ _ (fun _ p' => prep 1 p' (aunregister topic id a))).
  2:{ intros _ p2 R2. eapply wp_unlock; [exact R2|]. auto. }
  unfold aunregister. destruct (prep_topic _ _ _ topic R) as [(E & ->)|(E & t & Ht & Ho & ->)].
  - rewrite E. by apply wp_ret.
  - destruct (Z.eqb_spec (addr p1 topic) 0); [done|]. apply wp_bind. eapply wp_table; [exact Ht|].
    destruct (st_remove_spec t id Ho) as (t' & Er & Ho' & Hm'). apply wp_bind. eapply wp_lift; [exact Er|].
    apply wp_modify. cbn [snd]. rewrite <- Hm'. by apply prep_replace.
Qed.

(** ** The array *)

Definition cell_of (d : Z) (k : string) : cell := if d =? 0 then KeyPtr k else Ptr d.

Lemma extend_loop_spec fuel : forall n size,
  0 <= n -> size <= 2 ^ 61 -> n <= 2 ^ 62 -> (size - n) / 1024 < Z.of_nat fuel ->
  exists n' j, extend_loop fuel n size = Ok n' /\ 0 <= j /\ n' = n + 1024 * j /\ size <= n' <= Z.max n (size + 1024).
Proof.
  induction fuel as [|fuel IH]; intros n size Hn Hs Hb Hf; cbn [extend_loop];
    destruct (Z.ltb_spec n size) as [Hlt|Hge].
  - assert (0 <= (size - n) / 1024) by (apply Z.div_pos; lia). lia.
  - exists n, 0. split; [done|lia].
  - unfold ENDPOINT_POOL_BUFFER_CHUNK_SIZE, u64. rewrite uwrap_small by (unfold in_u; lia).
    destruct (IH (n + 1024) size) as (n' & j & -> & Hj & -> & Hle & Hmx); [lia..| |exists (n + 1024 + 1024 * j), (j + 1); split; [done|lia]].
    replace (size - (n + 1024)) with (size - n + (-1) * 1024) by lia. rewrite Z.div_add by lia. lia.
  - exists n, 0. split; [done|lia].
Qed.

Lemma extend_spec size (p : pool) :
  buf_ok (mBuffer p) (mBufferSize p) -> size <= 2 ^ 61 ->
  wp (endpointPoolImpl_extendBuffer true size) p (fun r p' => exists more sz,
    r = MAMA_STATUS_OK /\ p' = set_buffer (mBuffer p ++ more) sz p /\ buf_ok (mBuffer p ++ more) sz /\ size <= sz).
Proof.
  intros (E & Hb & j & Hj & Ej) Hs. apply wp_bind, wp_gets. cbn beta. destruct (Z.leb_spec size (mBufferSize p)).
  { apply wp_ret. exists [], (mBufferSize p). rewrite app_nil_r. split; [done|]. split; [by destruct p|]. split; [|lia].
    split; [done|]. split; [done|]. by exists j. }
  apply wp_bind. unfold ENDPOINT_POOL_BUFFER_CHUNK_SIZE.
  destruct (extend_loop_spec (Z.to_nat ((size - mBufferSize p) / 1024 + 1)) (mBufferSize p) size)
    as (n & i & El & Hi & En & Hle & Hmx); [lia..|assert (0 <= (size - mBufferSize p) / 1024) by (apply Z.div_pos; lia); lia|].
  eapply wp_lift; [exact El|]. apply wp_bind, wp_modify, wp_ret. eexists _, n. split; [done|]. split; [done|].
  split; [|done]. unfold buf_ok, sizeof_pointer. rewrite length_app, length_replicate.
  replace (n - mBufferSize p) with (i * 128 * 8) by lia. rewrite Z.div_mul by lia. split; [lia|]. split; [lia|]. exists (j + i). lia.
Qed.

(** One callback of the traversal. *)
Lemma append_spec d key (p : pool) :
  buf_ok (mBuffer p) (mBufferSize p) -> 0 <= mBufferIndex p <= Z.of_nat (length (mBuffer p)) ->
  mBufferIndex p < 2 ^ 58 ->
  wp (endpointPoolImpl_appendEachEndpoint true d key) p (fun _ p' => exists b sz,
    p' = set_index (mBufferIndex p + 1) (set_buffer b sz p) /\ buf_ok b sz /\
    take (Z.to_nat (mBufferIndex p + 1)) b = take (Z.to_nat (mBufferIndex p)) (mBuffer p) ++ [cell_of d key] /\
    mBufferIndex p + 1 <= Z.of_nat (length b)).
Proof.
  intros Hok Hi Hb. apply wp_bind, wp_gets. cbn beta. apply wp_bind, wp_gets. cbn beta. apply wp_bind.
  unfold sizeof_pointer, u64. rewrite !uwrap_small by (unfold in_u; lia).
  eapply (wp_mono _ _ (fun _ p' => exists more sz, p' = set_buffer (mBuffer p ++ more) sz p /\
    buf_ok (mBuffer p ++ more) sz /\ 8 * (mBufferIndex p + 1) <= sz)).
  { destruct (Z.ltb_spec (mBufferSize p) (8 * (mBufferIndex p + 1))).
    - apply wp_bind. eapply wp_mono; [apply extend_spec; [done|lia..]|]. cbn beta.
      intros _ p' (more & sz & _ & -> & Hb' & Hle). apply wp_ret. eauto.
    - apply wp_ret. exists [], (mBufferSize p). rewrite app_nil_r. split; [by destruct p|]. split; [done|lia]. }
  cbn beta. intros _ p' (more & sz & -> & Hok' & Hle). apply wp_bind. unfold wp at 1, store_cell.
  cbn [mBuffer set_buffer]. pose proof Hok' as [Hlen _].
  destruct (lookup_lt_is_Some_2 (mBuffer p ++ more) (Z.to_nat (mBufferIndex p))) as [c ->]; [lia|].
  apply wp_modify. cbn. eexists _, sz. split; [done|]. split; [|split].
  - destruct Hok' as [H1 H2]. split; [by rewrite length_insert|done].
  - replace (Z.to_nat (mBufferIndex p + 1)) with (S (Z.to_nat (mBufferIndex p))) by lia.
    rewrite (take_S_r _ _ (cell_of d key)) by (apply list_lookup_insert_eq; lia).
    rewrite take_insert_ge by lia. by rewrite take_app_le by lia.
  - rewrite length_insert. lia.
Qed.

Lemma append_all l : forall p : pool,
  buf_ok (mBuffer p) (mBufferSize p) -> 0 <= mBufferIndex p <= Z.of_nat (length (mBuffer p)) ->
  mBufferIndex p + Z.of_nat (length l) < 2 ^ 58 ->
  let n := mBufferIndex p + Z.of_nat (length l) in
  exists b sz,
    foldl (fun (c : res (unit * pool)) (x : string * Z) =>
             match c with Ok (_, p') => endpointPoolImpl_appendEachEndpoint true x.2 x.1 p' | Fail f => Fail f end)
          (Ok (tt, p)) l = Ok (tt, set_index n (set_buffer b sz p)) /\
    buf_ok b sz /\ n <= Z.of_nat (length b) /\
    take (Z.to_nat n) b = take (Z.to_nat (mBufferIndex p)) (mBuffer p) ++ ((fun x => cell_of x.2 x.1) <$> l).
Proof.
  induction l as [|[key d] l IH]; intros p Hok Hi Hb n; subst n.
  { exists (mBuffer p), (mBufferSize p). cbn [length] in *. rewrite Z.add_0_r, app_nil_r. split; [by destruct p|].
    split; [done|]. split; [lia|done]. }
  cbn [length] in Hb. destruct (proj1 (wp_elim _ _ _) (append_spec d key p Hok Hi ltac:(lia)))
    as ([] & p1 & Ea & b & sz & -> & Hok1 & Et & Hle).
  cbn [foldl fst snd]. rewrite Ea.
  destruct (IH (set_index (mBufferIndex p + 1) (set_buffer b sz p))) as (b2 & sz2 & E2 & Hok2 & Hle2 & Et2);
    [done|cbn; lia|cbn; lia|].
  exists b2, sz2. rewrite E2. cbn in *.
  replace (mBufferIndex p + 1 + Z.of_nat (length l)) with (mBufferIndex p + Z.of_nat (S (length l))) in * by lia.
  split; [done|]. split; [done|]. split; [done|]. by rewrite Et2, Et, <- app_assoc.
Qed.

Lemma get_registered_spec topic p a :
  prep 0 p a -> (forall m, a !! topic = Some m -> Z.of_nat (size m) < 2 ^ 58) ->
  wp (endpointPool_getRegistered true true (Some topic) true true) p (fun r p' =>
    prep 0 p' a /\
    match a !! topic with
    | None => r = (MAMA_STATUS_OK, 0, false)
    | Some m => exists l, l ≡ₚ map_to_list m /\ r = (MAMA_STATUS_OK, Z.of_nat (size m), true) /\
        take (size m) (mBuffer p') = (fun x => cell_of x.2 x.1) <$> l
    end).
Proof.
  intros R Hsz. eapply wp_locked; [exact R|]. clear R. intros p1 R _. apply wp_bind, wp_lookup; [apply R|].
  apply wp_bind. destruct (prep_topic _ _ _ topic R) as [(E & Ea)|(E & t & Ht & Ho & Ea)]; rewrite Ea in *.
  - rewrite E. apply wp_ret. eapply wp_unlock; [exact R|]. done.
  - destruct (Z.eqb_spec (addr p1 topic) 0); [done|]. apply wp_bind, wp_modify, wp_bind.
    eapply wp_table; [exact Ht|]. apply wp_bind. unfold wp at 1, for_each.
    destruct (st_for_each_spec t (fun d k (c : res (unit * pool)) =>
      match c with Ok (_, p') => endpointPoolImpl_appendEachEndpoint true d k p' | Fail f => Fail f end)
      (Ok (tt, set_index 0 p1)) Ho) as (l & Hl & ->).
    assert (length l = size (st_map t)) as El by (by rewrite Hl, length_map_to_list).
    destruct (append_all l (set_index 0 p1)) as (b & sz & -> & Hok & Hle & Et);
      [apply R|cbn; lia|cbn; specialize (Hsz _ eq_refl); lia|].
    cbn in Et, Hle. rewrite Z.add_0_l in *. rewrite Nat2Z.id in Et. cbn [mBufferIndex set_index set_buffer].
    apply wp_bind, wp_gets, wp_ret. eapply (wp_unlock _ _ a).
    + destruct R as [A B C N D F G I J]. by split.
    + intros p' R' Eb _. split; [done|]. exists l. rewrite Eb, <- El. done.
Qed.

Lemma exists_fold content l : forall r,
  foldl (fun c (x : string * Z) => endpointPoolImpl_checkEndpointExists content x.2 x.1 c) r l
  = if existsb (fun x : string * Z => x.2 =? content) l then 1 else r.
Proof.
  induction l as [|[k d] l IH]; intros r; cbn; [done|]. rewrite IH. unfold endpointPoolImpl_checkEndpointExists.
  destruct (d =? content); cbn; [by case_match|done].
Qed.

Lemma existsb_perm {A} (f : A -> bool) l1 l2 : l1 ≡ₚ l2 -> existsb f l1 = existsb f l2.
Proof.
  induction 1 as [|x l1 l2 _ IH|x y l|l1 l2 l3 _ IH1 _ IH2]; cbn; [done|by rewrite IH|by destruct (f x), (f y)|congruence].
Qed.

(** Whether a topic has the endpoint. *)
Definition has_content (content : Z) (m : gmap string Z) : bool :=
  existsb (fun x => x.2 =? content) (map_to_list m).

Lemma is_registered_spec topic content p a :
  prep 0 p a -> content <> 0 ->
  wp (endpointPool_isRegistedByContent true (Some topic) content) p (fun r p' =>
    prep 0 p' a /\ r = if default false (has_content content <$> a !! topic) then 1 else 0).
Proof.
  intros R Hc. unfold endpointPool_isRegistedByContent. destruct (Z.eqb_spec content 0); [done|]. cbn [negb andb].
  eapply wp_locked; [exact R|]. clear R. intros p1 R _. apply wp_bind, wp_lookup; [apply R|].
  apply wp_bind. destruct (prep_topic _ _ _ topic R) as [(E & Ea)|(E & t & Ht & Ho & Ea)]; rewrite Ea.
  - rewrite E. apply wp_ret. eapply wp_unlock; [exact R|]. done.
  - destruct (Z.eqb_spec (addr p1 topic) 0); [done|]. apply wp_bind. eapply wp_table; [exact Ht|].
    destruct (st_for_each_spec t (endpointPoolImpl_checkEndpointExists content) 0 Ho) as (l & Hl & E2).
    eapply wp_lift; [exact E2|]. eapply wp_unlock; [exact R|]. intros p' R' _ _. split; [done|].
    rewrite exists_fold. cbn. unfold has_content. by rewrite (existsb_perm _ _ _ Hl).
Qed.

Lemma get_endpoint_spec topic id e0 p a :
  prep 0 p a ->
  wp (endpointPool_getEndpointByIdentifiers topic id e0) p (fun r p' =>
    prep 0 p' a /\
    let e := default 0 (a !! topic ≫= lookup id) in
    r = if e =? 0 then (MAMA_STATUS_NOT_FOUND, e0) else (MAMA_STATUS_OK, e)).
Proof.
  intros R. eapply wp_locked; [exact R|]. clear R. intros p1 R _. apply wp_bind, wp_lookup; [apply R|].
  apply wp_bind. destruct (prep_topic _ _ _ topic R) as [(E & Ea)|(E & t & Ht & Ho & Ea)]; rewrite Ea.
  - rewrite E. apply wp_ret. eapply wp_unlock; [exact R|]. done.
  - destruct (Z.eqb_spec (addr p1 topic) 0); [done|]. apply wp_bind. eapply wp_table; [exact Ht|].
    apply wp_bind. eapply wp_lift; [by apply st_lookup_spec|]. apply wp_ret. eapply wp_unlock; [exact R|].
    intros p' R' _ _. split; [done|]. done.
Qed.

(** ** Histories *)

Inductive pcall : Type :=
| PRegister (topic id : string) (e : Z)
| PRegisterAnonymous (topic : string) (e : Z)
| PUnregister (topic id : string)
| PGetRegistered (topic : string)
| PIsRegistered (topic : string) (content : Z)
| PGetEndpoint (topic id : string).

Inductive preply : Type :=
| RStatus (s : mama_status)
| RIdentifier (s : mama_status) (id : option string)
| RArray (s : mama_status) (array : option (list cell))
| RFlag (r : Z)
| REndpoint (s : mama_status) (e : Z).

(** The array is what the caller reads after the call: [count] cells. *)
Definition run_pcall (c : pcall) : M pool preply :=
  match c with
  | PRegister topic id e =>
      s ← endpointPool_registerWithIdentifier true true true true (Some topic) (Some id) e; mret (RStatus s)
  | PRegisterAnonymous topic e =>
      r ← endpointPool_registerWithoutIdentifier true true true true true (Some topic) true e; mret (RIdentifier r.1 r.2)
  | PUnregister topic id => s ← endpointPool_unregister true (Some topic) (Some id); mret (RStatus s)
  | PGetRegistered topic =>
      r ← endpointPool_getRegistered true true (Some topic) true true;
      b ← gets mBuffer;
      mret (RArray r.1.1 (if r.2 : bool then Some (take (Z.to_nat r.1.2) b) else None))
  | PIsRegistered topic content => r ← endpointPool_isRegistedByContent true (Some topic) content; mret (RFlag r)
  | PGetEndpoint topic id => r ← endpointPool_getEndpointByIdentifiers topic id 0; mret (REndpoint r.1 r.2)
  end.

Fixpoint run_pcalls (l : list pcall) : M pool (list preply) :=
  match l with
  | [] => mret []
  | c :: l' => r ← run_pcall c; rs ← run_pcalls l'; mret (r :: rs)
  end.

(** The same calls on the map. *)
Definition anext (c : pcall) (a : apool) : apool :=
  match c with
  | PRegister topic id e => aregister topic id e a
  | PRegisterAnonymous topic e => if e =? 0 then a else aregister topic (pointer_text e) e a
  | PUnregister topic id => aunregister topic id a
  | _ => a
  end.

Definition areply (c : pcall) (a : apool) (r : preply) : Prop :=
  match c with
  | PRegister _ _ _ | PUnregister _ _ => r = RStatus MAMA_STATUS_OK
  | PRegisterAnonymous _ e =>
      r = if e =? 0 then RIdentifier MAMA_STATUS_NULL_ARG None
          else RIdentifier MAMA_STATUS_OK (Some (pointer_text e))
  | PGetRegistered topic =>
      match a !! topic with
      | None => r = RArray MAMA_STATUS_OK None
      | Some m => exists l, l ≡ₚ map_to_list m /\ r = RArray MAMA_STATUS_OK (Some ((fun x => cell_of x.2 x.1) <$> l))
      end
  | PIsRegistered topic content =>
      r = RFlag (if negb (content =? 0) && default false (has_content content <$> a !! topic) then 1 else 0)
  | PGetEndpoint topic id =>
      let e := default 0 (a !! topic ≫= lookup id) in
      r = REndpoint (if e =? 0 then MAMA_STATUS_NOT_FOUND else MAMA_STATUS_OK) e
  end.

Fixpoint areplies (l : list pcall) (a : apool) (rs : list preply) : Prop :=
  match l, rs with
  | [], [] => True
  | c :: l', r :: rs' => areply c a r /\ areplies l' (anext c a) rs'
  | _, _ => False
  end.

Definition bounded (n : Z) (a : apool) : Prop := forall topic m, a !! topic = Some m -> Z.of_nat (size m) <= n.

Lemma bounded_insert n a topic m : bounded n a -> Z.of_nat (size m) <= n + 1 -> bounded (n + 1) (<[topic := m]> a).
Proof.
  intros Hb Hm tp m'. rewrite lookup_insert. case_decide; [by intros [= <-]|]. intros E. specialize (Hb _ _ E). lia.
Qed.

Lemma bounded_mono n n' a : bounded n a -> n <= n' -> bounded n' a.
Proof. intros Hb Hn tp m E. specialize (Hb _ _ E). lia. Qed.

Lemma bounded_register n topic id e a : 0 <= n -> bounded n a -> bounded (n + 1) (aregister topic id e a).
Proof.
  intros Hn Hb. unfold aregister. destruct (a !! topic) as [m|] eqn:Em.
  - case_match; [|eapply bounded_mono; [done|lia]]. apply bounded_insert; [done|]. specialize (Hb _ _ Em).
    destruct (m !! id) eqn:Ei; [rewrite map_size_insert_Some by eauto; lia|rewrite map_size_insert_None by done; lia].
  - apply bounded_insert; [done|]. rewrite map_size_singleton. lia.
Qed.

Lemma bounded_next n c a : 0 <= n -> bounded n a -> bounded (n + 1) (anext c a).
Proof.
  intros Hn Hb. destruct c; cbn [anext]; try (eapply bounded_mono; [done|lia]).
  - by apply bounded_register.
  - case_match; [eapply bounded_mono; [done|lia]|by apply bounded_register].
  - unfold aunregister. destruct (a !! topic) as [m|] eqn:Em; [|eapply bounded_mono; [done|lia]].
    apply bounded_insert; [done|]. specialize (Hb _ _ Em).
    assert (size (delete id m) <= size m)%nat; [|lia]. apply map_subseteq_size, delete_subseteq.
Qed.

Lemma pcall_spec c p a n :
  prep 0 p a -> bounded n a -> n < 2 ^ 58 ->
  wp (run_pcall c) p (fun r p' => areply c a r /\ prep 0 p' (anext c a)).
Proof.
  intros R Hb Hn. destruct c as [topic id e|topic e|topic id|topic|topic content|topic id]; cbn [run_pcall anext areply].
  - apply wp_bind. eapply wp_mono; [by apply register_spec|]. cbn beta. intros ? p' [-> R']. by apply wp_ret.
  - apply wp_bind. unfold endpointPool_registerWithoutIdentifier. destruct (Z.eqb_spec e 0) as [->|He]; cbn [negb andb].
    { by apply wp_ret, wp_ret. }
    apply wp_bind. eapply wp_mono; [by apply register_spec|]. cbn beta. intros ? p' [-> R']. by apply wp_ret, wp_ret.
  - apply wp_bind. eapply wp_mono; [by apply unregister_spec|]. cbn beta. intros ? p' [-> R']. by apply wp_ret.
  - apply wp_bind. eapply wp_mono; [apply get_registered_spec; [exact R|]|].
    { intros m Hm. specialize (Hb _ _ Hm). lia. }
    cbn beta. intros r p' [R' Hr]. apply wp_bind, wp_gets, wp_ret. split; [|done].
    destruct (a !! topic) as [m|]; [|by subst].
    destruct Hr as (l & Hl & -> & Et). exists l. split; [done|]. cbn. by rewrite Nat2Z.id, Et.
  - apply wp_bind. destruct (Z.eqb_spec content 0) as [->|Hc]; cbn [negb andb].
    { unfold endpointPool_isRegistedByContent. cbn [andb negb Z.eqb]. by apply wp_ret, wp_ret. }
    eapply wp_mono; [by apply is_registered_spec|]. cbn beta. intros ? p' [R' ->]. by apply wp_ret.
  - apply wp_bind. eapply wp_mono; [by apply get_endpoint_spec|]. cbn beta zeta. intros ? p' [R' ->]. apply wp_ret.
    destruct (Z.eqb_spec (default 0 (a !! topic ≫= lookup id)) 0) as [->|]; done.
Qed.

Lemma pcalls_spec l : forall p a n,
  prep 0 p a -> bounded n a -> 0 <= n -> n + Z.of_nat (length l) < 2 ^ 58 ->
  wp (run_pcalls l) p (fun rs p' => areplies l a rs /\ prep 0 p' (foldl (fun a c => anext c a) a l)).
Proof.
  induction l as [|c l IH]; intros p a n R Hb H0 Hn; cbn [run_pcalls].
  { by apply wp_ret. }
  cbn [length] in Hn. apply wp_bind. eapply wp_mono; [apply (pcall_spec c p a n); [done|done|lia]|]. cbn beta.
  intros r p1 [Hr R1]. apply wp_bind.
  eapply wp_mono; [apply (IH _ _ (n + 1) R1); [by apply bounded_next|lia|lia]|].
  cbn beta. intros rs p2 [Hrs R2]. by apply wp_ret.
Qed.

Lemma create_prep name : exists p,
  endpointPool_create true true true true true (Some name) = (MAMA_STATUS_OK, Some p) /\ prep 0 p ∅ /\ called p = [].
Proof.
  unfold endpointPool_create. cbn [negb]. destruct (st_create_spec name ENDPOINT_POOL_TABLE_CHUNK_SIZE) as (c & -> & Ho & Hm);
    [by unfold ENDPOINT_POOL_TABLE_CHUNK_SIZE; lia..|]. eexists. split; [done|]. split; [|done].
  assert (forall h b i s k q r topic, addr (mkPool name c h b i s k q r) topic = 0) as Ha.
  { intros. unfold addr. cbn [mContainer]. by rewrite Hm. }
  split; cbn [mContainer heap brk mLock mBuffer mBufferSize]; try done; try (intros ?; by rewrite ?Ha).
  - intros topic [x Hx]. by rewrite Hm in Hx.
  - intros x [? Hx]. by rewrite lookup_empty in Hx.
  - split; [by rewrite length_replicate|]. split; [done|]. by exists 1.
Qed.

(** C15: while memory can be allocated, the endpoint pool is a map of maps.
    Through every sequence of fewer than 2^58 registrations (with or without
    identifier), removals and queries on a new pool in which no allocation fails,
    every call completes and replies as the finite map from topics to identifiers
    to endpoints does: the first endpoint of an identifier that is not NULL stays
    until it is removed, while a NULL one is replaced by the next registration of
    its identifier ([null_endpoint_replaced]); the array of the registered
    endpoints holds each of the topic once (its identifier where the endpoint is
    NULL), however many there are; no cell outside the array is written (when the
    array cannot be extended one is: [get_registered_overruns]), and the lock is
    free again after every call. *)
Theorem endpoint_pool_refines_map name l :
  Z.of_nat (length l) < 2 ^ 58 ->
  exists p rs p', endpointPool_create true true true true true (Some name) = (MAMA_STATUS_OK, Some p) /\
    run_pcalls l p = Ok (rs, p') /\ areplies l ∅ rs /\ prep 0 p' (foldl (fun a c => anext c a) ∅ l).
Proof.
  intros Hl. destruct (create_prep name) as (p & E & R & _). exists p.
  destruct (proj1 (wp_elim _ _ _) (pcalls_spec l p ∅ 0 R ltac:(done) ltac:(lia) ltac:(lia))) as (rs & p' & E' & H1 & H2).
  by exists rs, p'.
Qed.

(** ** Destruction *)

Definition live (l : list Z) : list Z := List.filter (fun d => negb (d =? 0)) l.

Lemma trigger_all cb l : forall p : pool,
  foldl (fun (c : res (unit * pool)) (x : string * Z) =>
           match c with Ok (_, p') => endpointPoolImpl_triggerEndpointDestroyCb cb x.2 x.1 p' | Fail f => Fail f end)
        (Ok (tt, p)) l
  = if cb || bool_decide (live l.*2 = []) then Ok (tt, set_called (called p ++ (if cb then live l.*2 else [])) p)
    else Fail InvalidDeref.
Proof.
  assert (forall (l : list (string * Z)) f, foldl (fun (c : res (unit * pool)) (x : string * Z) =>
    match c with Ok (_, p') => endpointPoolImpl_triggerEndpointDestroyCb cb x.2 x.1 p' | Fail f => Fail f end) (Fail f) l
    = Fail f) as Hf.
  { clear. intros l f. by induction l. }
  assert (forall p : pool, p = set_called (called p ++ []) p) as Hid by (intros []; cbn; by rewrite app_nil_r).
  induction l as [|[k d] l IH]; intros p; [cbn; destruct cb; cbn; by rewrite <- Hid|].
  cbn [foldl fst snd live fmap list_fmap List.filter]. unfold endpointPoolImpl_triggerEndpointDestroyCb at 2.
  fold (live l.*2) in *. change (List.filter _ (snd <$> l)) with (live l.*2).
  destruct (d =? 0); cbn [negb]; [exact (IH p)|]. destruct cb; cbn [orb].
  - etransitivity; [exact (IH (set_called (called p ++ [d]) p))|]. cbn [orb called set_called]. by rewrite <- app_assoc.
  - rewrite bool_decide_false by done. apply Hf.
Qed.

(** What the callbacks of the inner tables at the addresses [l] receive. *)
Definition at_addr (h : gmap Z T) (x : Z) : gmap string Z := default ∅ (st_map <$> h !! x).

Definition live_of (ms : list (gmap string Z)) : list Z := concat ((fun m => live (map_to_list m).*2) <$> ms).

Lemma live_perm l1 l2 : l1 ≡ₚ l2 -> live l1 ≡ₚ live l2.
Proof.
  unfold live. induction 1 as [|x l1 l2 _ IH|x y l|l1 l2 l3 _ IH1 _ IH2]; cbn; [done| | |by etransitivity].
  - case_match; by rewrite ?IH.
  - repeat case_match; try done. constructor.
Qed.

Lemma live_of_perm ms1 ms2 : ms1 ≡ₚ ms2 -> live_of ms1 ≡ₚ live_of ms2.
Proof.
  unfold live_of. induction 1 as [|x l1 l2 _ IH|x y l|l1 l2 l3 _ IH1 _ IH2]; cbn; [done|by rewrite IH| |by etransitivity].
  rewrite !app_assoc. by rewrite (Permutation_app_comm (live (map_to_list y).*2)).
Qed.

Lemma for_each_fold cb (t : T) (p : pool) :
  st_ok t -> exists l, l ≡ₚ map_to_list (st_map t) /\
    for_each cb t p = foldl (fun (c : res (unit * pool)) (x : string * Z) =>
      match c with Ok (_, p') => cb x.2 x.1 p' | Fail f => Fail f end) (Ok (tt, p)) l.
Proof.
  intros Ho. unfold for_each. destruct (st_for_each_spec t (fun d k (c : res (unit * pool)) =>
    match c with Ok (_, p') => cb d k p' | Fail f => Fail f end) (Ok (tt, p)) Ho) as (l & Hl & ->). by exists l.
Qed.

(** One inner table: its endpoints are passed on and it is freed. *)
Lemma destroy_sub cb x k t (p : pool) :
  heap p !! x = Some t -> st_ok t -> x <> 0 ->
  let ds := live (map_to_list (st_map t)).*2 in
  if cb || bool_decide (ds = []) then
    exists ds', ds' ≡ₚ (if cb then ds else []) /\
      endpointPoolImpl_destroySubTable cb x k p
      = Ok (tt, set_called (called p ++ ds') (set_heap (delete x (heap p)) (brk p) p))
  else endpointPoolImpl_destroySubTable cb x k p = Fail InvalidDeref.
Proof.
  intros Hx Ho Hne ds. destruct (for_each_fold (endpointPoolImpl_triggerEndpointDestroyCb cb) t p Ho) as (l & Hl & Ef).
  rewrite trigger_all in Ef.
  assert (live l.*2 ≡ₚ ds) as Hds by (apply live_perm; by rewrite Hl).
  assert (bool_decide (live l.*2 = []) = bool_decide (ds = [])) as Eb.
  { apply bool_decide_ext. split; intros E; rewrite E in Hds; [by apply Permutation_nil_l in Hds|by apply Permutation_nil_r in Hds]. }
  rewrite Eb in Ef.
  assert (endpointPoolImpl_destroySubTable cb x k p =
    match for_each (endpointPoolImpl_triggerEndpointDestroyCb cb) t p with
    | Ok (_, p1) => (t ← table_at x; lift (st_clear t) ;;
                     modify (fun p => set_heap (delete x (heap p)) (brk p) p)) p1
    | Fail f => Fail f
    end) as ->.
  { unfold endpointPoolImpl_destroySubTable. destruct (Z.eqb_spec x 0); [done|].
    unfold mbind, M_bind, table_at. rewrite Hx. done. }
  rewrite Ef. destruct (cb || bool_decide (ds = [])); [|done].
  exists (if cb then live l.*2 else []). split; [by destruct cb|].
  destruct (st_clear_spec t Ho) as (t' & Ec & _). unfold mbind, M_bind, table_at, lift. cbn [heap set_called].
  by rewrite Hx, Ec.
Qed.

Definition destroy_step (cb : bool) (c : res (unit * pool)) (x : string * Z) : res (unit * pool) :=
  match c with Ok (_, p') => endpointPoolImpl_destroySubTable cb x.2 x.1 p' | Fail f => Fail f end.

Lemma destroy_fail cb l f : foldl (destroy_step cb) (Fail f) l = Fail f.
Proof. by induction l. Qed.

Lemma at_addr_delete h x (l : list Z) : x ∉ l -> at_addr (delete x h) <$> l = at_addr h <$> l.
Proof.
  intros Hx. apply list_fmap_ext. intros ? y Hy. unfold at_addr. rewrite lookup_delete_ne; [done|].
  intros ->. by apply list_elem_of_lookup_2 in Hy.
Qed.

Lemma destroy_all cb l : forall p : pool,
  NoDup l.*2 -> (forall x, x ∈ l.*2 -> x <> 0 /\ exists t, heap p !! x = Some t /\ st_ok t) ->
  let ds := live_of (at_addr (heap p) <$> l.*2) in
  if cb || bool_decide (ds = []) then
    exists ds', ds' ≡ₚ (if cb then ds else []) /\
      foldl (destroy_step cb) (Ok (tt, p)) l
      = Ok (tt, set_called (called p ++ ds') (set_heap (foldl (fun h x => delete x h) (heap p) l.*2) (brk p) p))
  else foldl (destroy_step cb) (Ok (tt, p)) l = Fail InvalidDeref.
Proof.
  induction l as [|[k x] l IH]; intros p Hnd Hin; cbn zeta.
  { cbn. rewrite orb_true_r. exists []. split; [by destruct cb|]. destruct p. cbn. by rewrite app_nil_r. }
  rewrite !fmap_cons in *. cbn [fst snd] in *. apply NoDup_cons in Hnd as [Hx Hnd].
  destruct (Hin x) as (Hne & t & Ht & Ho); [by left|]. pose proof (destroy_sub cb x k t p Ht Ho Hne) as Hs.
  cbn zeta in Hs. cbn [foldl]. unfold live_of. rewrite fmap_cons. cbn [concat]. unfold destroy_step at 2 4. cbn [fst snd].
  assert (at_addr (heap p) x = st_map t) as Ex by (unfold at_addr; by rewrite Ht). rewrite Ex. fold (live_of (at_addr (heap p) <$> l.*2)).
  set (ds1 := live (map_to_list (st_map t)).*2) in *. set (ds2 := live_of (at_addr (heap p) <$> l.*2)).
  destruct (cb || bool_decide (ds1 = [])) eqn:E1.
  - destruct Hs as (d1 & P1 & E). rewrite E.
    specialize (IH (set_called (called p ++ d1) (set_heap (delete x (heap p)) (brk p) p)) Hnd). cbn [heap set_called set_heap] in IH.
    rewrite at_addr_delete in IH by done. fold ds2 in IH. cbn zeta in IH.
    assert (cb || bool_decide (ds1 ++ ds2 = []) = cb || bool_decide (ds2 = [])) as ->.
    { destruct cb; [done|]. cbn in *. apply bool_decide_eq_true in E1. by rewrite E1. }
    assert (forall y, y ∈ l.*2 -> y <> 0 /\ exists t, delete x (heap p) !! y = Some t /\ st_ok t) as Hin'.
    { intros y Hy. rewrite lookup_delete_ne by (intros ->; done). apply Hin. by right. }
    specialize (IH Hin'). destruct (cb || bool_decide (ds2 = [])); [|exact IH].
    destruct IH as (d2 & P2 & E2). exists (d1 ++ d2). split; [rewrite P1, P2; by destruct cb|].
    rewrite E2. cbn [called set_called]. by rewrite <- app_assoc.
  - apply orb_false_iff in E1 as [-> E1]. apply bool_decide_eq_false in E1. cbn [orb].
    rewrite bool_decide_false by (intros [? _]%app_nil; done). rewrite Hs. apply destroy_fail.
Qed.

(** The inner tables of a pool, by the entries of its outer table. *)
Lemma entries_facts k p a l :
  prep k p a -> l ≡ₚ map_to_list (st_map (mContainer p)) ->
  NoDup l.*2 /\ (forall x, x ∈ l.*2 -> x <> 0 /\ exists t, heap p !! x = Some t /\ st_ok t) /\
  live_of (at_addr (heap p) <$> l.*2) ≡ₚ live_of (map_to_list a).*2 /\
  foldl (fun h x => delete x h) (heap p) l.*2 = ∅.
Proof.
  intros R Hl.
  assert (forall tp x, (tp, x) ∈ l <-> st_map (mContainer p) !! tp = Some x) as Hel.
  { intros. by rewrite Hl, elem_of_map_to_list. }
  assert (forall tp x, (tp, x) ∈ l -> x = addr p tp /\ x <> 0) as Ha.
  { intros tp x Hin. apply Hel in Hin. pose proof (pr_entry _ _ _ R tp). unfold addr in *. rewrite Hin in *. cbn in *. eauto. }
  assert (forall x, x ∈ l.*2 -> x <> 0 /\ exists t, heap p !! x = Some t /\ st_ok t) as Hin.
  { intros x ([tp y] & -> & Hin)%list_elem_of_fmap. cbn. destruct (Ha _ _ Hin) as [-> Hne]. split; [done|].
    destruct (pr_some _ _ _ R tp Hne) as (_ & t & H1 & H2 & _). eauto. }
  assert (a = at_addr (heap p) <$> st_map (mContainer p)) as Em.
  { apply map_eq. intros tp. rewrite lookup_fmap. destruct (st_map (mContainer p) !! tp) as [x|] eqn:Ex.
    - destruct (Ha tp x) as [-> Hne]; [by apply Hel|]. destruct (pr_some _ _ _ R tp Hne) as (_ & t & H1 & _ & ->).
      cbn. unfold at_addr. by rewrite H1.
    - apply (pr_none _ _ _ R). unfold addr. by rewrite Ex. }
  split_and!; [|done| |].
  - apply NoDup_fmap_2_strong; [|rewrite Hl; apply NoDup_map_to_list]. intros [t1 x1] [t2 x2] H1 H2 E. cbn in E. subst x2.
    destruct (Ha _ _ H1) as [E1 Hne], (Ha _ _ H2) as [E2 _]. f_equal. apply (pr_inj _ _ _ R); congruence.
  - apply live_of_perm. rewrite Em, map_to_list_fmap, Hl, <- !list_fmap_compose. done.
  - assert (forall (l : list Z) h, foldl (fun (h : gmap Z T) x => delete x h) h l ⊆ h /\ forall x, x ∈ l -> foldl (fun (h : gmap Z T) x => delete x h) h l !! x = None) as Hfold.
    { clear. induction l as [|y l IH]; intros h; cbn; [split; [done|set_solver]|]. destruct (IH (delete y h)) as [H1 H2]. split.
      - etransitivity; [exact H1|]. apply delete_subseteq.
      - intros x [->|Hx]%elem_of_cons; [|by apply H2]. eapply lookup_weaken_None; [|exact H1]. apply lookup_delete_eq. }
    destruct (Hfold l.*2 (heap p)) as [H1 H2]. apply map_empty. intros x.
    destruct (heap p !! x) as [t|] eqn:Et; [|by eapply lookup_weaken_None]. apply H2.
    destruct (pr_heap _ _ _ R x) as [Hx [tp E]]; [eauto|]. apply list_elem_of_fmap. exists (tp, x). split; [done|].
    apply Hel. unfold addr in E. destruct (st_map (mContainer p) !! tp); cbn in E; congruence.
Qed.

(** destroying a pool with a callback passes every endpoint that is
    registered (and not NULL) to the callback exactly once, frees every inner
    table and leaves nothing in the outer one. *)
Theorem destroy_calls_each_once p a :
  prep 0 p a ->
  exists p', endpointPool_destroyWithCallback true (Some p) = Ok (MAMA_STATUS_OK, Some p') /\
    (exists ds, called p' = called p ++ ds /\ ds ≡ₚ live_of (map_to_list a).*2) /\
    heap p' = ∅ /\ st_map (mContainer p') = ∅.
Proof.
  intros R. unfold endpointPool_destroyWithCallback.
  destruct (for_each_fold (endpointPoolImpl_destroySubTable true) (mContainer p) (set_mLock (mLock p + 1) p)
    (pr_container _ _ _ R)) as (l & Hl & Ef).
  destruct (entries_facts _ _ _ _ R Hl) as (Hnd & Hin & Hds & Hh).
  destruct (destroy_all true l (set_mLock (mLock p + 1) p) Hnd Hin) as (ds & Pds & Ed).
  change (fun c x => match c with Ok (_, p') => _ | Fail f => Fail f end) with (destroy_step true) in Ef.
  rewrite Ed in Ef. destruct (st_clear_spec (mContainer p) (pr_container _ _ _ R)) as (c' & Ec & _ & Hc').
  eexists. split.
  { unfold mbind, M_bind, wlock_lock, modify, gets. cbn [mContainer set_mLock]. rewrite Ef. unfold lift. rewrite Ec. done. }
  cbn. split_and!; [exists ds; split; [done|]; by rewrite Pds|exact Hh|exact Hc'].
Qed.

(** [endpointPool_destroy] passes a NULL callback on, and what is tested
    against NULL is the address of the variable that holds it: destroying a pool
    with an endpoint still registered calls through NULL; without one, it frees
    everything. *)
Theorem destroy_crashes_on_live_endpoint p a :
  prep 0 p a ->
  if bool_decide (live_of (map_to_list a).*2 = []) then
    exists p', endpointPool_destroy (Some p) = Ok (MAMA_STATUS_OK, Some p') /\ heap p' = ∅
  else endpointPool_destroy (Some p) = Fail InvalidDeref.
Proof.
  intros R. unfold endpointPool_destroy, endpointPool_destroyWithCallback.
  destruct (for_each_fold (endpointPoolImpl_destroySubTable false) (mContainer p) (set_mLock (mLock p + 1) p)
    (pr_container _ _ _ R)) as (l & Hl & Ef).
  destruct (entries_facts _ _ _ _ R Hl) as (Hnd & Hin & Hds & Hh).
  pose proof (destroy_all false l (set_mLock (mLock p + 1) p) Hnd Hin) as Hd. cbn [orb] in Hd.
  replace (bool_decide (live_of (at_addr (heap (set_mLock (mLock p + 1) p)) <$> l.*2) = []))
    with (bool_decide (live_of (map_to_list a).*2 = [])) in Hd.
  2:{ cbn [heap set_mLock]. apply bool_decide_ext.
      split; intros E; rewrite E in Hds; [by apply Permutation_nil_r in Hds|by apply Permutation_nil_l in Hds]. }
  change (fun c x => match c with Ok (_, p') => _ | Fail f => Fail f end) with (destroy_step false) in Ef.
  unfold mbind, M_bind, wlock_lock, modify, gets. cbn [mContainer set_mLock]. rewrite Ef. case_bool_decide.
  - destruct Hd as (ds & _ & ->). destruct (st_clear_spec (mContainer p) (pr_container _ _ _ R)) as (c' & Ec & _ & Hc').
    unfold lift. rewrite Ec. eexists. split; [done|]. exact Hh.
  - by rewrite Hd.
Qed.

(** ** Without memory for the array *)

Definition append_step (mem : bool) (c : res (unit * pool)) (x : string * Z) : res (unit * pool) :=
  match c with Ok (_, p') => endpointPoolImpl_appendEachEndpoint mem x.2 x.1 p' | Fail f => Fail f end.

Lemma append_fail mem l f : foldl (append_step mem) (Fail f) l = Fail f.
Proof. by induction l. Qed.

(** Without memory the array does not grow and the cell behind it is written. *)
Lemma append_nomem l : forall p : pool,
  buf_ok (mBuffer p) (mBufferSize p) -> 0 <= mBufferIndex p <= Z.of_nat (length (mBuffer p)) ->
  Z.of_nat (length (mBuffer p)) < mBufferIndex p + Z.of_nat (length l) ->
  foldl (append_step false) (Ok (tt, p)) l = Fail InvalidDeref.
Proof.
  induction l as [|[k d] l IH]; intros p Hok Hi Hl; [cbn in Hl; lia|]. cbn [length] in Hl.
  pose proof Hok as (Es & Hs & j & Hj & Ej). cbn [foldl]. unfold append_step at 2. cbn [fst snd].
  unfold endpointPoolImpl_appendEachEndpoint, mbind, M_bind, gets, sizeof_pointer, u64.
  rewrite !uwrap_small by (unfold in_u; lia). destruct (Z.ltb_spec (mBufferSize p) (8 * (mBufferIndex p + 1))) as [Hlt|Hge].
  - assert (endpointPoolImpl_extendBuffer false (8 * (mBufferIndex p + 1)) p = Ok (MAMA_STATUS_NOMEM, p)) as Ee.
    { unfold endpointPoolImpl_extendBuffer, mbind, M_bind, gets, ENDPOINT_POOL_BUFFER_CHUNK_SIZE.
      destruct (Z.leb_spec (8 * (mBufferIndex p + 1)) (mBufferSize p)); [lia|].
      replace (8 * (mBufferIndex p + 1)) with (mBufferSize p + 8) by lia.
      replace (mBufferSize p + 8 - mBufferSize p) with 8 by lia. change (Z.to_nat (8 / 1024 + 1)) with 1%nat.
      unfold lift. cbn [extend_loop]. unfold u64, ENDPOINT_POOL_BUFFER_CHUNK_SIZE.
      rewrite uwrap_small by (unfold in_u; lia).
      destruct (Z.ltb_spec (mBufferSize p) (mBufferSize p + 8)), (Z.ltb_spec (mBufferSize p + 1024) (mBufferSize p + 8)); (lia || done). }
    rewrite Ee. cbn [mret M_ret]. unfold store_cell. rewrite lookup_ge_None_2 by lia. apply append_fail.
  - cbn [mret M_ret]. unfold store_cell.
    destruct (lookup_lt_is_Some_2 (mBuffer p) (Z.to_nat (mBufferIndex p))) as [c Hc]; [lia|]. rewrite Hc.
    unfold modify. apply IH; cbn; rewrite ?length_insert; [|lia..]. split; [by rewrite length_insert|]. split; [done|eauto].
Qed.

(** the result of extending the array is not looked at: when there is no
    memory and the topic has more endpoints than the array has cells, the cell
    behind its end is written. *)
Theorem get_registered_overruns p a topic m :
  prep 0 p a -> a !! topic = Some m -> mBufferSize p < 8 * Z.of_nat (size m) ->
  endpointPool_getRegistered false true (Some topic) true true p = Fail InvalidDeref.
Proof.
  intros R Em Hs. unfold endpointPool_getRegistered, container_lookup. cbn [andb].
  destruct (prep_topic _ _ _ topic R) as [(E & Ea)|(E & t & Ht & Ho & Ea)]; [congruence|].
  unfold mbind, M_bind, wlock_lock, modify, gets, lift. cbn [mContainer set_mLock].
  rewrite st_lookup_spec by apply R. fold (addr p topic). destruct (Z.eqb_spec (addr p topic) 0); [done|].
  unfold table_at. cbn [heap set_mLock set_index]. rewrite Ht.
  destruct (for_each_fold (endpointPoolImpl_appendEachEndpoint false) t (set_index 0 (set_mLock (mLock p + 1) p)) Ho)
    as (l & Hl & ->).
  pose proof (pr_buf _ _ _ R) as Hb.
  pose proof (append_nomem l (set_index 0 (set_mLock (mLock p + 1) p)) Hb) as Hn. unfold append_step in Hn.
  rewrite Hn; [done|cbn; lia|]. cbn. destruct Hb as [Hb _].
  rewrite Hl, length_map_to_list. rewrite Ea in Em. injection Em as ->. lia.
Qed.

End props.

(** ** Concrete runs, with the hash table of wtable.c *)

Definition test_calls : list pcall :=
  [PRegister "quotes" "a" 5; PRegister "quotes" "b" 0; PRegister "trades" "a" 6; PRegister "quotes" "a" 7;
   PRegisterAnonymous "trades" 4096; PGetEndpoint "trades" "0x1000"; PUnregister "trades" "a";
   PGetRegistered "trades"; PIsRegistered "quotes" 5; PGetRegistered "news"]%string.

Lemma endpoint_pool_refines_map_witness :
  exists (p : endpointPoolImpl WTable.WTable.wtable) rs p',
    endpointPool_create true true true true true (Some "pool"%string) = (MAMA_STATUS_OK, Some p) /\
    run_pcalls test_calls p = Ok (rs, p') /\ areplies test_calls ∅ rs /\
    prep 0 p' (foldl (fun a c => anext c a) ∅ test_calls).
Proof. apply (endpoint_pool_refines_map "pool" test_calls). vm_compute. reflexivity. Defined.

Example pool_run :
  match endpointPool_create true true true true true (Some "pool"%string) with
  | (_, Some p) => value_of (run_pcalls test_calls (p : endpointPoolImpl WTable.WTable.wtable))
  | _ => None
  end = Some
    [RStatus MAMA_STATUS_OK; RStatus MAMA_STATUS_OK; RStatus MAMA_STATUS_OK; RStatus MAMA_STATUS_OK;
     RIdentifier MAMA_STATUS_OK (Some "0x1000"%string); REndpoint MAMA_STATUS_OK 4096; RStatus MAMA_STATUS_OK;
     RArray MAMA_STATUS_OK (Some [Ptr 4096]); RFlag 1; RArray MAMA_STATUS_OK None].
Proof. vm_compute. reflexivity. Qed.

(** An identifier that was registered with NULL is registered again, although
    endpointpool.h says that duplicates will not be registered. *)
Example null_endpoint_replaced :
  match endpointPool_create true true true true true (Some "pool"%string) with
  | (_, Some p) => value_of (run_pcalls [PRegister "t" "i" 0; PGetRegistered "t"; PRegister "t" "i" 5; PRegister "t" "i" 6; PGetRegistered "t"]%string
                               (p : endpointPoolImpl WTable.WTable.wtable))
  | _ => None
  end = Some [RStatus MAMA_STATUS_OK; RArray MAMA_STATUS_OK (Some [KeyPtr "i"%string]); RStatus MAMA_STATUS_OK; RStatus MAMA_STATUS_OK;
              RArray MAMA_STATUS_OK (Some [Ptr 5])].
Proof. vm_compute. reflexivity. Qed.

(** The pool after a sequence of calls on a new one. *)
Definition pool_of (l : list pcall) : endpointPoolImpl WTable.WTable.wtable :=
  let none := mkPool "" (WTable.WTable.mkTable "" [] 0 0) [] 0 0 0 ∅ 1 [] in
  match endpointPool_create true true true true true (Some "pool"%string) with
  | (_, Some p) => default none (state_of (run_pcalls l p))
  | _ => none
  end.

Lemma pool_of_prep l : Z.of_nat (length l) < 2 ^ 58 -> prep 0 (pool_of l) (foldl (fun a c => anext c a) ∅ l).
Proof.
  intros Hl. unfold pool_of. destruct (create_prep (T := WTable.WTable.wtable) "pool") as (p & -> & R & _).
  destruct (proj1 (wp_elim _ _ _) (pcalls_spec l p ∅ 0 R ltac:(done) ltac:(lia) ltac:(lia))) as (rs & p' & -> & _ & H).
  exact H.
Qed.

Lemma destroy_calls_each_once_witness :
  exists p', endpointPool_destroyWithCallback true (Some (pool_of test_calls)) = Ok (MAMA_STATUS_OK, Some p') /\
    (exists ds, called p' = called (pool_of test_calls) ++ ds /\ ds ≡ₚ [5; 4096]) /\
    heap p' = ∅ /\ st_map (mContainer p') = ∅.
Proof. exact (destroy_calls_each_once _ _ (pool_of_prep test_calls eq_refl)). Defined.

Lemma destroy_crashes_on_live_endpoint_witness : endpointPool_destroy (Some (pool_of test_calls)) = Fail InvalidDeref.
Proof. exact (destroy_crashes_on_live_endpoint _ _ (pool_of_prep test_calls eq_refl)). Defined.

(** 130 endpoints under one topic: two more than the first array holds. *)
Definition many_calls : list pcall := (fun n => PRegisterAnonymous "t" (Z.of_nat n)) <$> seq 1 130.

Lemma some_default {A} (d : A) (o : option A) : bool_decide (is_Some o) = true -> o = Some (default d o).
Proof. intros [x ->]%bool_decide_eq_true. done. Qed.

Lemma get_registered_overruns_witness :
  endpointPool_getRegistered false true (Some "t"%string) true true (pool_of many_calls) = Fail InvalidDeref.
Proof.
  apply (get_registered_overruns _ (foldl (fun a c => anext c a) ∅ many_calls) "t"
           (default ∅ (foldl (fun a c => anext c a) ∅ many_calls !! "t"%string))).
  - exact (pool_of_prep many_calls eq_refl).
  - apply some_default. vm_compute. reflexivity.
  - vm_compute. reflexivity.
Defined.
