(* ===== verification/Timers.v ===== *)
(** * The timer heap (common/c_cpp/src/c/timers.c)

    Timers are elements of a tree ordered by time and address; a thread sleeps
    in [select] until the first is due or a byte arrives in a socket pair, and
    then runs the callbacks of all that are due.  The red-black tree of
    systree.h (the BSD macros) is a class: what its operations do to the keys in
    order.  Every call holds the heap's lock from the first access to the tree
    to the last, so calls and the awake phases of the thread are single steps of
    the interleaving below. *)

From S2P Require Import Prelude.
From stdpp Require Import sorting.
#[local] Open Scope Z_scope.

Module Timers.

(** ** Time *)

Record timeval : Type := mkTime { tv_sec : Z; tv_usec : Z }.

#[export] Instance timeval_eq_dec : EqDecision timeval.
Proof. solve_decision. Defined.

(** [timercmp (a, b, <)]; with [>] it is the same with the arguments swapped. *)
Definition timer_lt (a b : timeval) : bool :=
  if tv_sec a =? tv_sec b then tv_usec a <? tv_usec b else tv_sec a <? tv_sec b.

Definition timeradd (a b : timeval) : timeval :=
  let sec := i64 (tv_sec a + tv_sec b) in
  let usec := i64 (tv_usec a + tv_usec b) in
  if 1000000 <=? usec then mkTime (i64 (sec + 1)) (i64 (usec - 1000000)) else mkTime sec usec.

Definition timersub (a b : timeval) : timeval :=
  let sec := i64 (tv_sec a - tv_sec b) in
  let usec := i64 (tv_usec a - tv_usec b) in
  if usec <? 0 then mkTime (i64 (sec - 1)) (i64 (usec + 1000000)) else mkTime sec usec.

Definition timerclear : timeval := mkTime 0 0.

(** What the tree compares: the timeout of an element and its address. *)
Definition tkey : Type := timeval * Z.

Definition orderedTimeRBTreeCmp (lhs rhs : tkey) : Z :=
  if timer_lt lhs.1 rhs.1 then -1
  else if timer_lt rhs.1 lhs.1 then 1
  else if lhs.2 <? rhs.2 then -1
  else if rhs.2 <? lhs.2 then 1
  else 0.

(** ** The tree *)

(** [tt_keys]: the keys in order. *)
Class TimeTree (T : Type) := {
  RB_INIT : T;
  RB_MIN : T -> option tkey;
  RB_FIND : tkey -> T -> bool;
  RB_INSERT : tkey -> T -> T;
  RB_REMOVE : tkey -> T -> T;
  tt_keys : T -> list tkey;
  tt_ok : T -> Prop;
  tt_init : tt_ok RB_INIT /\ tt_keys RB_INIT = [];
  tt_sorted t : tt_ok t -> StronglySorted (fun a b => orderedTimeRBTreeCmp a b = -1) (tt_keys t);
  tt_min t : tt_ok t -> RB_MIN t = head (tt_keys t);
  tt_find t k : tt_ok t -> RB_FIND k t = bool_decide (k ∈ tt_keys t);
  tt_insert t k : tt_ok t -> k ∉ tt_keys t -> tt_ok (RB_INSERT k t) /\ tt_keys (RB_INSERT k t) ≡ₚ k :: tt_keys t;
  tt_remove t k : tt_ok t -> k ∈ tt_keys t -> tt_ok (RB_REMOVE k t) /\ k :: tt_keys (RB_REMOVE k t) ≡ₚ tt_keys t;
}.

Section heap.

Context {T : Type} `{TimeTree T}.

(** ** State *)

Record timerImpl : Type := mkTimer { mCb : Z; mClosure : Z; mTimeout : timeval }.

(** [elements] are the allocated timers; [mSockPair] holds the bytes on their
    way, at most [capacity]; [fired] records the callbacks made: the timer and
    the time the thread had read. *)
Record timerHeapImpl : Type := mkHeap {
  mTimeTree : T;
  mSockPair : list bool;
  capacity : nat;
  mLock : Z;
  mEnding : Z;
  elements : gmap Z timerImpl;
  brk : Z;
  fired : list (Z * timeval);
}.

(** The two bytes: ['w'] and ['d']. *)
Definition wake_byte : bool := false.
Definition destroy_byte : bool := true.

Definition set_tree (v : T) (h : timerHeapImpl) : timerHeapImpl :=
  mkHeap v (mSockPair h) (capacity h) (mLock h) (mEnding h) (elements h) (brk h) (fired h).
Definition set_pair (v : list bool) (h : timerHeapImpl) : timerHeapImpl :=
  mkHeap (mTimeTree h) v (capacity h) (mLock h) (mEnding h) (elements h) (brk h) (fired h).
Definition set_mLock (v : Z) (h : timerHeapImpl) : timerHeapImpl :=
  mkHeap (mTimeTree h) (mSockPair h) (capacity h) v (mEnding h) (elements h) (brk h) (fired h).
Definition set_mEnding (v : Z) (h : timerHeapImpl) : timerHeapImpl :=
  mkHeap (mTimeTree h) (mSockPair h) (capacity h) (mLock h) v (elements h) (brk h) (fired h).
Definition set_elements (v : gmap Z timerImpl) (b : Z) (h : timerHeapImpl) : timerHeapImpl :=
  mkHeap (mTimeTree h) (mSockPair h) (capacity h) (mLock h) (mEnding h) v b (fired h).
Definition set_fired (v : list (Z * timeval)) (h : timerHeapImpl) : timerHeapImpl :=
  mkHeap (mTimeTree h) (mSockPair h) (capacity h) (mLock h) (mEnding h) (elements h) (brk h) v.

Abbreviation HM := (M timerHeapImpl).

Definition wthread_mutex_lock : HM unit := modify (fun h => set_mLock (mLock h + 1) h).
Definition wthread_mutex_unlock : HM unit := modify (fun h => set_mLock (mLock h - 1) h).

Definition element_at (a : Z) : HM timerImpl := fun h =>
  match elements h !! a with Some e => Ok (e, h) | None => Fail InvalidDeref end.

(** [io]: whether the socket pair and its settings are made; [n]: the bytes it
    holds. *)
Definition createTimerHeap (mem io : bool) (n : nat) : Z * option timerHeapImpl :=
  if negb mem then (-1, None)
  else if negb io then (-1, None)
  else (0, Some (mkHeap RB_INIT [] n 0 0 ∅ 1 [])).

(** ** Scheduling *)

(** [write_error]: the write fails for another reason than a full pair or an
    interruption.  The latter is repeated; a full pair is left as it is. *)
Definition _addTimer (write_error : bool) (a : Z) : HM Z :=
  e ← element_at a;
  nextTimeOut ← gets (fun h => RB_MIN (mTimeTree h));
  let kickPipe := match nextTimeOut with
                  | None => true
                  | Some next => negb (timer_lt next.1 (mTimeout e))
                  end in
  modify (fun h => set_tree (RB_INSERT (mTimeout e, a) (mTimeTree h)) h) ;;
  if kickPipe then
    full ← gets (fun h => (capacity h <=? length (mSockPair h))%nat);
    if write_error then mret (-1)
    else if full : bool then mret 0
    else modify (fun h => set_pair (mSockPair h ++ [wake_byte]) h) ;; mret 0
  else mret 0.

Definition _removeTimer (a : Z) : HM unit :=
  e ← element_at a;
  found ← gets (fun h => RB_FIND (mTimeout e, a) (mTimeTree h));
  if found : bool then modify (fun h => set_tree (RB_REMOVE (mTimeout e, a) (mTimeTree h)) h) else mret tt.

(** [now] is what gettimeofday gives.  The second component is [*timer]; an
    element that could not be scheduled is not freed. *)
Definition createTimer (mem write_error : bool) (timer heap : bool) (now : timeval) (cb closure : Z)
    (timeout : option timeval) : HM (Z * Z) :=
  match timer && heap, timeout with
  | true, Some timeout =>
      if negb mem then mret (-1, 0)
      else
        ele ← gets brk;
        modify (fun h => set_elements (<[ele := mkTimer cb closure (timeradd now timeout)]> (elements h)) (ele + 1) h) ;;
        wthread_mutex_lock ;;
        ret ← _addTimer write_error ele;
        wthread_mutex_unlock ;;
        if ret <? 0 then mret (ret, 0) else mret (0, ele)
  | _, _ => mret (-1, 0)
  end.

(** A timer is NULL when its address is 0. *)
Definition destroyTimer (heap : bool) (timer : Z) : HM Z :=
  if negb heap || (timer =? 0) then mret (-1)
  else
    wthread_mutex_lock ;;
    _removeTimer timer ;;
    wthread_mutex_unlock ;;
    modify (fun h => set_elements (delete timer (elements h)) (brk h) h) ;;
    mret 0.

Definition resetTimer (write_error : bool) (heap : bool) (timer : Z) (now timeout : timeval) : HM Z :=
  if negb heap || (timer =? 0) then mret (-1)
  else
    wthread_mutex_lock ;;
    _removeTimer timer ;;
    e ← element_at timer;
    modify (fun h => set_elements
      (<[timer := mkTimer (mCb e) (mClosure e) (timeradd now timeout)]> (elements h)) (brk h) h) ;;
    ret ← _addTimer write_error timer;
    wthread_mutex_unlock ;;
    if ret <? 0 then mret ret else mret 0.

Definition lockTimerHeap (heap : bool) : HM Z := if heap then wthread_mutex_lock ;; mret 0 else mret (-1).
Definition unlockTimerHeap (heap : bool) : HM Z := if heap then wthread_mutex_unlock ;; mret 0 else mret (-1).

(** ** Calls, also those of callbacks *)

Inductive tcmd : Type :=
| Create (write_error : bool) (now : timeval) (cb closure : Z) (timeout : timeval)
| Destroy (timer : Z)
| Reset (write_error : bool) (timer : Z) (now timeout : timeval).

Definition run_cmd (c : tcmd) : HM Z :=
  match c with
  | Create err now cb closure timeout => r ← createTimer true err true true now cb closure (Some timeout); mret r.1
  | Destroy timer => destroyTimer true timer
  | Reset err timer now timeout => resetTimer err true timer now timeout
  end.

Fixpoint run_cmds (l : list tcmd) : HM unit :=
  match l with
  | [] => mret tt
  | c :: l' => run_cmd c ;; run_cmds l'
  end.

(** ** The dispatch thread *)

(** What the callback of a timer does to the heap. *)
Context (callback : Z -> list tcmd).

(** The inner loop on the timers that are due at [now]. *)
Fixpoint dispatch_loop (fuel : nat) (now : timeval) (ele : option tkey) : HM unit :=
  match ele with
  | None => mret tt
  | Some k =>
      if timer_lt now k.1 then mret tt
      else
        match fuel with
        | O => fail OutOfFuel
        | S fuel' =>
            modify (fun h => set_tree (RB_REMOVE k (mTimeTree h)) h) ;;
            modify (fun h => set_fired (fired h ++ [(k.2, now)]) h) ;;
            run_cmds (callback k.2) ;;
            ele ← gets (fun h => RB_MIN (mTimeTree h));
            dispatch_loop fuel' now ele
        end
  end.

(** The bytes read until the pair is empty or the byte of [destroyHeap] comes:
    whether it came, and what is left. *)
Fixpoint read_pair (l : list bool) : bool * list bool :=
  match l with
  | [] => (false, [])
  | b :: l' => if b then (true, l') else read_pair l'
  end.

(** How [select] returned. *)
Inductive select_result : Type := Interrupted | TimedOut | Readable.

(** The timeout of the next [select]: [None] waits for ever. *)
Definition sleep_for (now : timeval) : HM (option timeval) :=
  ele ← gets (fun h => RB_MIN (mTimeTree h));
  mret (match ele with
        | None => None
        | Some k => Some (if timer_lt now k.1 then timersub k.1 now else timerclear)
        end).

(** From the return of [select] to the next call of it: [now1] is read before
    the callbacks, [now2] before sleeping.  [None]: the thread ends. *)
Definition dispatch_awake (fuel : nat) (r : select_result) (now1 now2 : timeval) : HM (option (option timeval)) :=
  wthread_mutex_lock ;;
  ended ← (match r with
           | Readable =>
               l ← gets mSockPair;
               let '(ended, rest) := read_pair l in
               modify (set_pair rest) ;; mret ended
           | _ => mret false
           end);
  if ended : bool then
    wthread_mutex_unlock ;;
    modify (set_mEnding 1) ;;
    mret None
  else
    ele ← gets (fun h => RB_MIN (mTimeTree h));
    dispatch_loop fuel now1 ele ;;
    d ← sleep_for now2;
    wthread_mutex_unlock ;;
    mret (Some d).

(** [dispatchEntry] up to the first [select]. *)
Definition dispatch_start (now : timeval) : HM (option timeval) :=
  wthread_mutex_lock ;;
  d ← sleep_for now;
  wthread_mutex_unlock ;;
  mret d.

(** The write of [destroyHeap]: on a full pair it is repeated. *)
Definition destroyHeap_write : HM bool :=
  full ← gets (fun h => (capacity h <=? length (mSockPair h))%nat);
  if full : bool then mret false
  else modify (fun h => set_pair (mSockPair h ++ [destroy_byte]) h) ;; mret true.

(** ** Interleaving *)

(** The thread has not started, sleeps (since [since], for [timeout]), or has
    ended. *)
Inductive dstate : Type :=
| NotStarted
| Sleeping (since : timeval) (timeout : option timeval)
| Ended.

Record config : Type := mkConfig { heap_of : timerHeapImpl; thread : dstate }.

(** One step: a call of another thread (the label); the start of the dispatch
    thread; its waking up, by a byte only if there is one. *)
Inductive step : option tcmd -> config -> config -> Prop :=
| step_call c h h' r d :
    run_cmd c h = Ok (r, h') -> step (Some c) (mkConfig h d) (mkConfig h' d)
| step_destroy h h' r d :
    destroyHeap_write h = Ok (r, h') -> step None (mkConfig h d) (mkConfig h' d)
| step_start now h h' t :
    dispatch_start now h = Ok (t, h') -> step None (mkConfig h NotStarted) (mkConfig h' (Sleeping now t))
| step_wake fuel r now1 now2 since t h h' o :
    (r = Readable -> mSockPair h <> []) ->
    dispatch_awake fuel r now1 now2 h = Ok (o, h') ->
    step None (mkConfig h (Sleeping since t))
              (mkConfig h' (match o with Some t' => Sleeping now2 t' | None => Ended end)).

Inductive exec : list (option tcmd) -> config -> config -> Prop :=
| exec_nil c : exec [] c c
| exec_snoc l x c1 c2 c3 : exec l c1 c2 -> step x c2 c3 -> exec (l ++ [x]) c1 c3.

End heap.

Arguments timerHeapImpl T : clear implicits.
Arguments config T : clear implicits.

End Timers.
