(* ===== verification/TimersProps.v ===== *)
(** * The timer heap: what fires, in which order, and that the thread wakes up

    Proved against the interface of the tree: the calls and the dispatch thread
    keep a set of armed timers, a timer that is due fires once and in the order
    of the timeouts, and the thread never sleeps past the first timer. *)

From S2P Require Import Prelude Timers.
From stdpp Require Import sorting.
Import Timers.
#[local] Open Scope Z_scope.

(** ** The order *)

Lemma timer_lt_spec a b :
  timer_lt a b = true <-> tv_sec a < tv_sec b \/ (tv_sec a = tv_sec b /\ tv_usec a < tv_usec b).
Proof.
  unfold timer_lt. destruct (Z.eqb_spec (tv_sec a) (tv_sec b)); rewrite Z.ltb_lt; lia.
Qed.

Lemma timer_ge_spec a b :
  timer_lt a b = false <-> tv_sec b < tv_sec a \/ (tv_sec a = tv_sec b /\ tv_usec b <= tv_usec a).
Proof.
  unfold timer_lt. destruct (Z.eqb_spec (tv_sec a) (tv_sec b)); rewrite Z.ltb_ge; lia.
Qed.

Lemma timer_lt_trans_l a b c : timer_lt b a = false -> timer_lt b c = true -> timer_lt c a = false.
Proof. rewrite timer_lt_spec, !timer_ge_spec. lia. Qed.

Lemma timer_ge_trans a b c : timer_lt b a = false -> timer_lt c b = false -> timer_lt c a = false.
Proof. rewrite !timer_ge_spec. lia. Qed.

Abbreviation before := (fun a b : tkey => orderedTimeRBTreeCmp a b = -1).

Lemma before_le a b : before a b -> timer_lt b.1 a.1 = false.
Proof.
  unfold orderedTimeRBTreeCmp. destruct (timer_lt a.1 b.1) eqn:E1.
  - intros _. apply timer_lt_spec in E1. apply timer_ge_spec. lia.
  - by destruct (timer_lt b.1 a.1).
Qed.

Lemma before_asym a b : before a b -> before b a -> a = b.
Proof.
  unfold orderedTimeRBTreeCmp. destruct (timer_lt a.1 b.1) eqn:E1, (timer_lt b.1 a.1) eqn:E2; try done.
  - intros _ _. apply timer_lt_spec in E1, E2. lia.
  - repeat case_match; intros; try done. lia.
Qed.

#[local] Instance before_antisymm : AntiSymm (=) before := before_asym.

(** The address in the key makes the order total: the comparison is 0 only for
    equal keys. *)
Lemma compare_zero a b : orderedTimeRBTreeCmp a b = 0 <-> a = b.
Proof.
  unfold orderedTimeRBTreeCmp. destruct a as [[s u] x], b as [[s' u'] y]. cbn.
  destruct (timer_lt (mkTime s u) (mkTime s' u')) eqn:E1; [|destruct (timer_lt (mkTime s' u') (mkTime s u)) eqn:E2].
  - apply timer_lt_spec in E1. cbn in E1. split; [done|]. intros [= -> -> ->]. lia.
  - apply timer_lt_spec in E2. cbn in E2. split; [done|]. intros [= -> -> ->]. lia.
  - apply timer_ge_spec in E1, E2. cbn in E1, E2.
    destruct (Z.ltb_spec x y), (Z.ltb_spec y x); split; try done; try (intros [= -> -> ->]; lia).
    intros _. repeat f_equal; lia.
Qed.

Section props.

Context {T : Type} `{TimeTree T}.

Abbreviation heap := (timerHeapImpl T).

(** ** What a heap stands for *)

(** [am]: the armed timers and when they are due; [k]: how often the lock is
    taken. *)
Record hrep (k : Z) (h : heap) (am : gmap Z timeval) : Prop := mkHrep {
  hr_tree : tt_ok (mTimeTree h);
  hr_keys : forall tv a, (tv, a) ∈ tt_keys (mTimeTree h) <-> am !! a = Some tv;
  hr_elem : forall a tv, am !! a = Some tv -> exists e, elements h !! a = Some e /\ mTimeout e = tv;
  hr_range : forall a, is_Some (elements h !! a) -> 0 < a < brk h;
  hr_brk : 0 < brk h;
  hr_lock : mLock h = k;
}.

Lemma hrep_lock k k' h am : hrep k h am -> hrep k' (set_mLock k' h) am.
Proof. intros [A B C D E F]. by split. Qed.

Lemma hrep_pair k h am l : hrep k h am -> hrep k (set_pair l h) am.
Proof. intros [A B C D E F]. by split. Qed.

Lemma hrep_find k h am a e :
  hrep k h am -> elements h !! a = Some e ->
  RB_FIND (mTimeout e, a) (mTimeTree h) = bool_decide (is_Some (am !! a)).
Proof.
  intros R Ha. rewrite tt_find by apply R. apply bool_decide_ext. rewrite (hr_keys _ _ _ R). split; [eauto|].
  intros [tv Hv]. destruct (hr_elem _ _ _ R a tv Hv) as (e' & E1 & <-). congruence.
Qed.

Lemma keys_nodup k h am : hrep k h am -> NoDup (tt_keys (mTimeTree h)).
Proof.
  intros R. pose proof (tt_sorted _ (hr_tree _ _ _ R)) as S.
  induction S as [|x l _ IH Hx]; constructor; [|done]. intros Hin. rewrite Forall_forall in Hx.
  specialize (Hx x Hin). cbn in Hx. assert (orderedTimeRBTreeCmp x x = 0) by (by apply compare_zero). congruence.
Qed.

(** Taking the key of a timer out of the tree. *)
Lemma hrep_remove_key k h am a tv :
  hrep k h am -> am !! a = Some tv ->
  hrep k (set_tree (RB_REMOVE (tv, a) (mTimeTree h)) h) (delete a am) /\
  (tv, a) :: tt_keys (RB_REMOVE (tv, a) (mTimeTree h)) ≡ₚ tt_keys (mTimeTree h).
Proof.
  intros R Hv. destruct (tt_remove (mTimeTree h) (tv, a)) as [Ho Hp]; [apply R|by apply (hr_keys _ _ _ R)|].
  split; [|done]. pose proof (keys_nodup _ _ _ R) as Hnd. rewrite <- Hp in Hnd. apply NoDup_cons in Hnd as [Hni _].
  destruct R as [A B C D E F]. split; cbn [mTimeTree set_tree elements brk mLock]; try done.
  - intros tv' a'. destruct (decide (a' = a)) as [->|Hne].
    + rewrite lookup_delete_eq. split; [|done]. intros Hin.
      assert ((tv', a) ∈ tt_keys (mTimeTree h)) as Hin' by (rewrite <- Hp; by right). apply B in Hin'. assert (tv' = tv) as -> by congruence. done.
    + rewrite lookup_delete_ne, <- B, <- Hp by done. rewrite elem_of_cons. split; [by right|]. by intros [[= -> ->]|].
  - intros a' tv' [_ Ha]%lookup_delete_Some. by apply C.
Qed.

Lemma timer_remove_spec k h am a e :
  hrep k h am -> elements h !! a = Some e ->
  wp (_removeTimer a) h (fun _ h' => exists t, h' = set_tree t h /\ hrep k h' (delete a am)).
Proof.
  intros R Ha. apply wp_bind. unfold wp at 1, element_at. rewrite Ha. apply wp_bind, wp_gets. cbn beta.
  rewrite (hrep_find k h am) by done. case_bool_decide as Hs.
  - apply wp_modify. eexists. split; [done|]. destruct Hs as [tv Hv].
    destruct (hr_elem _ _ _ R a tv Hv) as (e' & E1 & E2). assert (e' = e) as -> by congruence. subst tv.
    by apply hrep_remove_key.
  - apply wp_ret. exists (mTimeTree h). split; [by destruct h|]. rewrite delete_id; [done|]. by apply eq_None_not_Some.
Qed.

(** Arming a timer that is not armed.  The dispatch thread is kicked if the new
    timer is the first. *)
Lemma add_spec err k h am a e :
  hrep k h am -> elements h !! a = Some e -> am !! a = None ->
  wp (_addTimer err a) h (fun r h' => exists t l,
    h' = set_pair l (set_tree t h) /\ hrep k h' (<[a := mTimeout e]> am) /\
    (r = 0 -> (l = mSockPair h /\ exists a' tv, am !! a' = Some tv /\ timer_lt tv (mTimeout e) = true) \/
              l = mSockPair h ++ [wake_byte] \/ (l = mSockPair h /\ (capacity h <= length l)%nat)) /\
    (r = -1 -> err = true) /\ (r = 0 \/ r = -1) /\ (l = mSockPair h \/ l = mSockPair h ++ [wake_byte])).
Proof.
  intros R Ha Hn. apply wp_bind. unfold wp at 1, element_at. rewrite Ha. apply wp_bind, wp_gets. cbn beta.
  rewrite tt_min by apply R. apply wp_bind, wp_modify. cbv beta zeta.
  set (t := RB_INSERT (mTimeout e, a) (mTimeTree h)).
  assert (hrep k (set_tree t h) (<[a := mTimeout e]> am)) as R'.
  { assert ((mTimeout e, a) ∉ tt_keys (mTimeTree h)) as Hni by (rewrite (hr_keys _ _ _ R); congruence).
    destruct (tt_insert (mTimeTree h) (mTimeout e, a)) as [Ho Hp]; [apply R|done|].
    destruct R as [A B C D E F]. split; cbn [mTimeTree set_tree elements brk mLock]; try done.
    - intros tv a'. unfold t. rewrite Hp, elem_of_cons, B, lookup_insert. case_decide as Hd.
      + subst a'. rewrite Hn. split; [by intros [[= ->]|]|]. intros [= ->]. by left.
      + split; [|by right]. by intros [[= -> ->]|].
    - intros a' tv. rewrite lookup_insert. case_decide; [|apply C]. intros [= <-]. subst. eauto. }
  assert (forall l, hrep k (set_pair l (set_tree t h)) (<[a := mTimeout e]> am)) as Rl by (intros; by apply hrep_pair).
  assert (set_tree t h = set_pair (mSockPair h) (set_tree t h)) as Hid by (by destruct h).
  match goal with |- wp (if ?b then _ else _) _ _ => set (kick := b) end.
  destruct kick eqn:Ek; [apply wp_bind, wp_gets; cbn [mSockPair capacity set_tree]|].
  - destruct err; [|destruct (Nat.leb_spec (capacity h) (length (mSockPair h)))].
    + apply wp_ret. exists t, (mSockPair h). split; [done|]. split; [done|]. split; [done|]. by split_and!; [|right|left].
    + apply wp_ret. exists t, (mSockPair h). split; [done|]. split; [done|]. split; [auto|]. by split_and!; [|left|left].
    + apply wp_bind, wp_modify, wp_ret. eexists t, _. split; [done|]. split; [done|]. split; [auto|]. by split_and!; [|left|right].
  - apply wp_ret. exists t, (mSockPair h). split; [done|]. split; [done|]. split; [|by split_and!; [|left|left]]. intros _. left.
    split; [done|]. unfold kick in Ek. destruct (tt_keys (mTimeTree h)) as [|[tv a'] ks] eqn:Eh; [done|]. cbn in Ek.
    exists a', tv. split; [|by destruct (timer_lt tv (mTimeout e))]. apply (hr_keys _ _ _ R). rewrite Eh. by left.
Qed.

(** ** Calls *)

(** The armed timers after a call; [next] is the address a new timer gets. *)
Definition acmd (c : tcmd) (next : Z) (am : gmap Z timeval) : gmap Z timeval :=
  match c with
  | Create _ now _ _ timeout => <[next := timeradd now timeout]> am
  | Destroy a => delete a am
  | Reset _ a now timeout => <[a := timeradd now timeout]> am
  end.

(** The allocated timers after a call. *)
Definition aalloc (c : tcmd) (next : Z) (al : gset Z) : gset Z :=
  match c with
  | Create _ _ _ _ _ => {[next]} ∪ al
  | Destroy a => al ∖ {[a]}
  | Reset _ _ _ _ => al
  end.

Definition anext (c : tcmd) (next : Z) : Z := match c with Create _ _ _ _ _ => next + 1 | _ => next end.

(** A call is made on a timer that exists. *)
Definition valid_cmd (c : tcmd) (al : gset Z) : Prop :=
  match c with Create _ _ _ _ _ => True | Destroy a | Reset _ a _ _ => a ∈ al end.

Definition write_fails (c : tcmd) : bool :=
  match c with Create err _ _ _ _ | Reset err _ _ _ => err | Destroy _ => false end.

(** Nothing in [am'] is earlier than everything in [am]. *)
Definition no_earlier (am am' : gmap Z timeval) : Prop :=
  forall a tv, am' !! a = Some tv -> exists a' tv', am !! a' = Some tv' /\ timer_lt tv tv' = false.

(** What the call leaves alone, and the wake-up byte. *)
Definition quietly (c : tcmd) (h h' : heap) (am am' : gmap Z timeval) : Prop :=
  capacity h' = capacity h /\ fired h' = fired h /\
  (mSockPair h' = mSockPair h \/ mSockPair h' = mSockPair h ++ [wake_byte]) /\
  (write_fails c = false -> (0 < capacity h)%nat -> mSockPair h' = [] -> mSockPair h = [] /\ no_earlier am am').

Lemma no_earlier_insert am a tv a' tv' :
  am !! a' = Some tv' -> timer_lt tv' tv = true -> no_earlier am (<[a := tv]> am).
Proof.
  intros Ha Hlt x v. rewrite lookup_insert. case_decide.
  - intros [= <-]. exists a', tv'. split; [done|]. apply timer_lt_spec in Hlt. apply timer_ge_spec. lia.
  - intros Hx. exists x, v. split; [done|]. apply timer_ge_spec. lia.
Qed.

Lemma no_earlier_delete am a : no_earlier am (delete a am).
Proof. intros x v [_ Hx]%lookup_delete_Some. exists x, v. split; [done|]. apply timer_ge_spec. lia. Qed.

Lemma no_earlier_trans am1 am2 am3 : no_earlier am1 am2 -> no_earlier am2 am3 -> no_earlier am1 am3.
Proof.
  intros H12 H23 a tv Ha. destruct (H23 a tv Ha) as (a2 & tv2 & H2 & L2). destruct (H12 a2 tv2 H2) as (a1 & tv1 & H1 & L1).
  exists a1, tv1. split; [done|]. by eapply timer_ge_trans.
Qed.

(** Timers that are not armed may be allocated and changed. *)
Lemma hrep_elements k h am a e b :
  hrep k h am -> am !! a = None -> 0 < a < b -> brk h <= b ->
  hrep k (set_elements (<[a := e]> (elements h)) b h) am.
Proof.
  intros [A B C D E F] Ha Hb Hle. split; cbn [mTimeTree elements brk mLock set_elements]; try done.
  - intros a' tv Hv. rewrite lookup_insert_ne; [by apply C|]. congruence.
  - intros a' [<-|[_ Hx]]%lookup_insert_is_Some; [done|]. specialize (D a' Hx). lia.
  - lia.
Qed.

Lemma hrep_free k h am a : hrep k h am -> am !! a = None -> hrep k (set_elements (delete a (elements h)) (brk h) h) am.
Proof.
  intros [A B C D E F] Ha. split; cbn [mTimeTree elements brk mLock set_elements]; try done.
  - intros a' tv Hv. rewrite lookup_delete_ne; [by apply C|]. congruence.
  - intros a' [? [_ Hx]%lookup_delete_Some]. apply D. eauto.
Qed.

(** The wake-up byte, from what [_addTimer] reports. *)
Lemma kick_facts (h : heap) l am a tv (r : Z) :
  (r = 0 -> (l = mSockPair h /\ exists a' tv', am !! a' = Some tv' /\ timer_lt tv' tv = true) \/
            l = mSockPair h ++ [wake_byte] \/ (l = mSockPair h /\ (capacity h <= length l)%nat)) ->
  r = 0 -> (0 < capacity h)%nat -> l = [] -> mSockPair h = [] /\ no_earlier am (<[a := tv]> am).
Proof.
  intros Hk Hr Hc ->. destruct (Hk Hr) as [[E (a' & tv' & Ha & Hlt)]|[E|[E Hl]]].
  - split; [done|]. by eapply no_earlier_insert.
  - by destruct (mSockPair h).
  - cbn in Hl. lia.
Qed.

Lemma timer_create_spec err now cb closure timeout k h am :
  hrep k h am ->
  let c := Create err now cb closure timeout in
  wp (run_cmd c) h (fun r h' => hrep k h' (acmd c (brk h) am) /\ quietly c h h' am (acmd c (brk h) am) /\
    dom (elements h') = aalloc c (brk h) (dom (elements h)) /\ brk h' = anext c (brk h)).
Proof.
  intros R c. cbn [run_cmd c]. pose proof (hr_brk _ _ _ R) as Hb. pose proof (hr_lock _ _ _ R) as Hl.
  assert (elements h !! brk h = None) as He.
  { apply eq_None_not_Some. intros Hs. specialize (hr_range _ _ _ R _ Hs). lia. }
  assert (am !! brk h = None) as Hn.
  { apply eq_None_not_Some. intros [tv Hv]. destruct (hr_elem _ _ _ R _ _ Hv) as (e & E & _). congruence. }
  apply wp_bind. unfold createTimer. cbn [andb negb]. apply wp_bind, wp_gets. cbn beta. apply wp_bind, wp_modify.
  apply wp_bind, wp_modify. apply wp_bind. set (e := mkTimer cb closure (timeradd now timeout)).
  set (h1 := set_mLock _ _).
  assert (hrep (k + 1) h1 am) as R1.
  { unfold h1. cbn [mLock set_elements]. rewrite Hl. eapply hrep_lock, hrep_elements; [exact R|done|lia|lia]. }
  eapply wp_mono; [eapply (add_spec err (k + 1) h1 am (brk h) e R1); [apply lookup_insert_eq|done]|].
  cbn beta. intros r h2 (t & l & -> & R2 & Hk & He1 & Hr & Hpair). apply wp_bind, wp_modify.
  destruct (r <? 0); apply wp_ret, wp_ret; (split_and!; [| |cbn; by rewrite dom_insert_L|done]).
  1,3: replace (mLock (set_pair l (set_tree t h1)) - 1) with k by (cbn; lia); exact (hrep_lock _ _ _ _ R2).
  all: split_and!; [done|done|exact Hpair|]; intros Hw Hc Hp; apply (kick_facts h1 l am (brk h) (timeradd now timeout) r Hk); [|done..].
  all: destruct Hr as [|Hr]; [done|]; specialize (He1 Hr); cbn in Hw; congruence.
Qed.

Lemma timer_destroy_spec a k h am :
  hrep k h am -> a ∈ dom (elements h) ->
  wp (run_cmd (Destroy a)) h (fun r h' => hrep k h' (delete a am) /\ quietly (Destroy a) h h' am (delete a am) /\
    dom (elements h') = aalloc (Destroy a) (brk h) (dom (elements h)) /\ brk h' = brk h).
Proof.
  intros R [e He]%elem_of_dom. pose proof (hr_lock _ _ _ R) as Hl. pose proof (hr_range _ _ _ R a ltac:(eauto)) as Hr.
  cbn [run_cmd]. unfold destroyTimer. destruct (Z.eqb_spec a 0); [lia|]. cbn [negb orb]. apply wp_bind, wp_modify. apply wp_bind.
  eapply wp_mono; [eapply (timer_remove_spec (k + 1) _ am a e); [rewrite Hl; by eapply hrep_lock|done]|].
  cbn beta. intros _ h1 (t & -> & R1). apply wp_bind, wp_modify, wp_bind, wp_modify, wp_ret.
  split_and!; [| |cbn; by rewrite dom_delete_L|done].
  - cbn [mLock set_tree set_mLock]. rewrite Hl, Z.add_simpl_r.
    exact (hrep_free _ _ _ _ (hrep_lock _ k _ _ R1) (lookup_delete_eq am a)).
  - split_and!; [done|done|by left|]. intros _ _ Hp. split; [done|]. apply no_earlier_delete.
Qed.

Lemma timer_reset_spec err a now timeout k h am :
  hrep k h am -> a ∈ dom (elements h) ->
  let c := Reset err a now timeout in
  wp (run_cmd c) h (fun r h' => hrep k h' (acmd c (brk h) am) /\ quietly c h h' am (acmd c (brk h) am) /\
    dom (elements h') = dom (elements h) /\ brk h' = brk h).
Proof.
  intros R Hd c. pose proof Hd as [e He]%elem_of_dom. pose proof (hr_lock _ _ _ R) as Hl.
  pose proof (hr_range _ _ _ R a ltac:(eauto)) as Hr.
  cbn [run_cmd c]. unfold resetTimer. destruct (Z.eqb_spec a 0); [lia|]. cbn [negb orb]. apply wp_bind, wp_modify. apply wp_bind.
  eapply wp_mono; [eapply (timer_remove_spec (k + 1) _ am a e); [rewrite Hl; by eapply hrep_lock|done]|].
  cbn beta. intros _ h1 (t & -> & R1). apply wp_bind. unfold wp at 1, element_at. cbn [elements set_tree set_mLock]. rewrite He.
  apply wp_bind, wp_modify, wp_bind. set (e' := mkTimer _ _ (timeradd now timeout)). set (h2 := set_elements _ _ _).
  assert (hrep (k + 1) h2 (delete a am)) as R2.
  { apply hrep_elements; [exact R1|apply lookup_delete_eq|cbn; lia|cbn; lia]. }
  eapply wp_mono; [eapply (add_spec err (k + 1) h2 (delete a am) a e' R2); [apply lookup_insert_eq|apply lookup_delete_eq]|].
  cbn beta. intros r h3 (t' & l & -> & R3 & Hk & He1 & Hrr & Hpair). apply wp_bind, wp_modify. rewrite insert_delete_eq in R3.
  destruct (r <? 0); apply wp_ret; (split_and!; [| |cbn; rewrite dom_insert_L; set_solver|done]).
  1,3: replace (mLock (set_pair l (set_tree t' h2)) - 1) with k by (cbn; lia); exact (hrep_lock _ _ _ _ R3).
  all: split_and!; [done|done|exact Hpair|]; intros Hw Hc Hp.
  all: destruct (kick_facts h2 l (delete a am) a (timeradd now timeout) r Hk) as [H1 H2]; [|done|done|].
  1,3: destruct Hrr as [|Hrr]; [done|]; specialize (He1 Hrr); cbn in Hw; congruence.
  all: split; [done|]; rewrite insert_delete_eq in H2; eapply no_earlier_trans; [apply (no_earlier_delete am a)|exact H2].
Qed.

Lemma cmd_spec c k h am :
  hrep k h am -> valid_cmd c (dom (elements h)) ->
  wp (run_cmd c) h (fun r h' => hrep k h' (acmd c (brk h) am) /\ quietly c h h' am (acmd c (brk h) am) /\
    dom (elements h') = aalloc c (brk h) (dom (elements h)) /\ brk h' = anext c (brk h)).
Proof.
  intros R Hv. destruct c; [by apply timer_create_spec|by apply timer_destroy_spec|by apply timer_reset_spec].
Qed.

(** A call that returns was made on a timer that exists, or did nothing. *)
Lemma cmd_ok c (h h' : heap) r :
  run_cmd c h = Ok (r, h') -> valid_cmd c (dom (elements h)) \/ h' = h.
Proof.
  destruct c as [err now cb closure timeout|a|err a now timeout]; cbn [run_cmd valid_cmd]; [by left|..];
    unfold destroyTimer, resetTimer; (destruct (Z.eqb_spec a 0); cbn [negb orb]; [intros E; injection E; auto|]);
    rewrite elem_of_dom; (destruct (elements h !! a) eqn:E; [eauto|]); intros Hr; exfalso; revert Hr;
    unfold _removeTimer, wthread_mutex_lock, mbind, M_bind, modify, element_at; cbn [elements set_mLock]; by rewrite E.
Qed.

(** ** The dispatch thread *)

(** A sleep that began at [since] with the timeout [t] is not too long for the
    timers [am]: it lasts until a time that is not after any of them. *)
Definition sleep_ok (since : timeval) (t : option timeval) (am : gmap Z timeval) : Prop :=
  match t with
  | None => am = ∅
  | Some d => exists tv0, d = (if timer_lt since tv0 then timersub tv0 since else timerclear) /\
                forall a tv, am !! a = Some tv -> timer_lt tv tv0 = false
  end.

Lemma first_key k h am tv a ks :
  hrep k h am -> tt_keys (mTimeTree h) = (tv, a) :: ks ->
  am !! a = Some tv /\ forall a' tv', am !! a' = Some tv' -> timer_lt tv' tv = false.
Proof.
  intros R E. split; [apply (hr_keys _ _ _ R); rewrite E; by left|]. intros a' tv' Ha'.
  apply (hr_keys _ _ _ R) in Ha'. rewrite E, elem_of_cons in Ha'. destruct Ha' as [[= -> ->]|Hin].
  - apply timer_ge_spec. lia.
  - pose proof (tt_sorted _ (hr_tree _ _ _ R)) as S. rewrite E in S. apply StronglySorted_inv in S as [_ S].
    rewrite Forall_forall in S. exact (before_le _ _ (S _ Hin)).
Qed.

Lemma keys_empty k h am : hrep k h am -> tt_keys (mTimeTree h) = [] <-> am = ∅.
Proof.
  intros R. split.
  - intros E. apply map_empty. intros a. apply eq_None_not_Some. intros [tv Hv]. apply (hr_keys _ _ _ R) in Hv.
    rewrite E in Hv. by apply not_elem_of_nil in Hv.
  - intros ->. apply elem_of_nil_inv. intros [tv a] Hin. apply (hr_keys _ _ _ R) in Hin. done.
Qed.

Lemma sleep_for_spec now k h am :
  hrep k h am -> wp (sleep_for now) h (fun d h' => h' = h /\ sleep_ok now d am).
Proof.
  intros R. apply wp_bind, wp_gets, wp_ret. split; [done|]. rewrite tt_min by apply R.
  destruct (tt_keys (mTimeTree h)) as [|[tv a] ks] eqn:E; cbn.
  - by apply (keys_empty k h).
  - exists tv. split; [done|]. by eapply first_key.
Qed.

Context (callback : Z -> list tcmd).

(** Whatever calls callbacks make, a batch that ends leaves a heap in order. *)
Lemma cmds_keep l : forall k h am,
  hrep k h am ->
  match run_cmds l h with
  | Ok (_, h') => exists am', hrep k h' am' /\ capacity h' = capacity h
  | Fail _ => True
  end.
Proof.
  induction l as [|c l IH]; intros k h am R; cbn [run_cmds]; [by exists am|].
  unfold mbind, M_bind. destruct (run_cmd c h) as [[r h1]|f] eqn:Ec; [|done].
  destruct (cmd_ok _ _ _ _ Ec) as [Hv| ->]; [|by eapply IH].
  pose proof (cmd_spec c k h am R Hv) as W. unfold wp in W. rewrite Ec in W. destruct W as (R1 & (Hc & _) & _).
  specialize (IH _ _ _ R1). destruct (run_cmds l h1) as [[? h2]|]; [|done].
  destruct IH as (am' & R2 & Hc2). exists am'. split; [done|congruence].
Qed.

Lemma loop_keep fuel : forall now ele k h am,
  hrep k h am -> ele = head (tt_keys (mTimeTree h)) ->
  match dispatch_loop callback fuel now ele h with
  | Ok (_, h') => exists am', hrep k h' am' /\ capacity h' = capacity h
  | Fail _ => True
  end.
Proof.
  induction fuel as [|fuel IH]; intros now ele k h am R ->;
    (destruct (tt_keys (mTimeTree h)) as [|[tv a] ks] eqn:E; cbn [head dispatch_loop fst]; [by exists am|]);
    (destruct (timer_lt now tv); [by exists am|]); [done|].
  destruct (first_key _ _ _ _ _ _ R E) as [Ha _]. destruct (hrep_remove_key _ _ _ _ _ R Ha) as [R1 _].
  unfold mbind, M_bind, modify, gets. cbn [snd].
  assert (hrep k (set_fired (fired (set_tree (RB_REMOVE (tv, a) (mTimeTree h)) h) ++ [(a, now)])
            (set_tree (RB_REMOVE (tv, a) (mTimeTree h)) h)) (delete a am)) as R2.
  { destruct R1 as [A B C D F G]. by split. }
  pose proof (cmds_keep (callback a) _ _ _ R2) as Hk. destruct (run_cmds (callback a) _) as [[? h2]|]; [|done].
  destruct Hk as (am2 & R3 & Hc). specialize (IH now _ k h2 am2 R3 eq_refl). rewrite tt_min by apply R3.
  destruct (dispatch_loop callback fuel now (head (tt_keys (mTimeTree h2))) h2) as [[? h3]|]; [|done].
  destruct IH as (am3 & R4 & Hc4). exists am3. split; [done|]. by rewrite Hc4, Hc.
Qed.

Lemma awake_keep fuel r now1 now2 h am o h' :
  hrep 0 h am -> dispatch_awake callback fuel r now1 now2 h = Ok (o, h') ->
  exists am', hrep 0 h' am' /\ capacity h' = capacity h /\ forall d, o = Some d -> sleep_ok now2 d am'.
Proof.
  intros R. unfold dispatch_awake.
  assert (exists l ended, forall k : bool -> M heap (option (option timeval)),
    (wthread_mutex_lock ;;
     ended ← (match r with
              | Readable => l ← gets mSockPair; let '(ended, rest) := read_pair l in modify (set_pair rest) ;; mret ended
              | _ => mret false end); k ended) h = k ended (set_pair l (set_mLock 1 h))) as (l & ended & ->).
  { assert (forall l (k : bool -> M heap (option (option timeval))) b,
      l = mSockPair h -> k b (set_mLock (mLock h + 1) h) = k b (set_pair l (set_mLock 1 h))) as Hid.
    { intros l k b ->. rewrite (hr_lock _ _ _ R). by destruct h. }
    unfold mbind, M_bind, wthread_mutex_lock, modify, gets, mret, M_ret. destruct r.
    - exists (mSockPair h), false. intros k. by apply Hid.
    - exists (mSockPair h), false. intros k. by apply Hid.
    - cbn [mSockPair set_mLock]. destruct (read_pair (mSockPair h)) as [e rest]. exists rest, e. intros k.
      rewrite (hr_lock _ _ _ R). done. }
  assert (hrep 1 (set_pair l (set_mLock 1 h)) am) as R1 by (apply hrep_pair; by eapply hrep_lock).
  destruct ended.
  - unfold mbind, M_bind, wthread_mutex_unlock, modify, mret, M_ret. intros [= <- <-]. exists am.
    split; [|split; [done|by intros]]. destruct R1 as [A B C D E F]. by split.
  - unfold mbind at 1, M_bind at 1, gets at 1. pose proof (loop_keep fuel now1 _ 1 _ am R1 eq_refl) as Hk.
    rewrite tt_min by apply R1. unfold mbind at 1, M_bind at 1.
    destruct (dispatch_loop callback fuel now1 _ _) as [[? h2]|]; [|done]. destruct Hk as (am2 & R2 & Hc).
    unfold mbind at 1, M_bind at 1. pose proof (sleep_for_spec now2 1 h2 am2 R2) as Hs. unfold wp in Hs.
    destruct (sleep_for now2 h2) as [[d h3]|]; [|done]. destruct Hs as [-> Hs].
    unfold mbind, M_bind, wthread_mutex_unlock, modify, mret, M_ret. intros [= <- <-]. exists am2.
    rewrite (hr_lock _ _ _ R2). split; [by eapply hrep_lock|]. split; [exact Hc|]. by intros ? [= <-].
Qed.

(** ** The thread never oversleeps *)

Record cinv (c : config T) (am : gmap Z timeval) : Prop := mkCinv {
  ci_heap : hrep 0 (heap_of c) am;
  ci_capacity : (0 < capacity (heap_of c))%nat;
  ci_sleep : forall since t, thread c = Sleeping since t -> mSockPair (heap_of c) = [] -> sleep_ok since t am;
}.

Lemma sleep_ok_later since t am am' : sleep_ok since t am -> no_earlier am am' -> sleep_ok since t am'.
Proof.
  destruct t as [d|]; cbn.
  - intros (tv0 & E & Hle) Hn. exists tv0. split; [done|]. intros a tv Ha. destruct (Hn a tv Ha) as (a' & tv' & Ha' & Hlt).
    eapply timer_ge_trans; [|exact Hlt]. by eapply Hle.
  - intros -> Hn. apply map_empty. intros a. apply eq_None_not_Some. intros [tv Ha].
    by destruct (Hn a tv Ha) as (a' & tv' & Ha' & _).
Qed.

Lemma step_cinv x c c' am :
  cinv c am -> step callback x c c' -> (forall cmd, x = Some cmd -> write_fails cmd = false) -> exists am', cinv c' am'.
Proof.
  intros [R Hc Hs] St Hw. destruct St as [cmd h h' r d Ec|h h' r d Ed|now h h' t Es|fuel r now1 now2 since t h h' o _ Ea];
    cbn [heap_of thread] in *.
  - destruct (cmd_ok _ _ _ _ Ec) as [Hv| ->]; [|by exists am].
    pose proof (cmd_spec cmd 0 h am R Hv) as W. unfold wp in W. rewrite Ec in W. destruct W as (R1 & (Hc1 & _ & _ & Hk) & _).
    exists (acmd cmd (brk h) am). split; cbn [heap_of thread]; [done|lia|]. intros since t -> Hp.
    destruct (Hk (Hw _ eq_refl) Hc Hp) as [Hp0 Hn]. eapply sleep_ok_later; [|exact Hn]. by apply Hs.
  - exists am. revert Ed. unfold destroyHeap_write, mbind, M_bind, gets.
    destruct (capacity h <=? length (mSockPair h))%nat.
    + intros [= _ <-]. done.
    + unfold modify, mret, M_ret. intros [= _ <-]. split; cbn [heap_of thread]; [by apply hrep_pair|done|].
      intros ? ? _ Hp. cbn in Hp. by destruct (mSockPair h).
  - exists am. revert Es. unfold dispatch_start, mbind at 1, M_bind at 1, wthread_mutex_lock, modify.
    assert (hrep 1 (set_mLock (mLock h + 1) h) am) as R1 by (rewrite (hr_lock _ _ _ R); by eapply hrep_lock).
    pose proof (sleep_for_spec now 1 _ am R1) as Hsl. unfold wp in Hsl. unfold mbind at 1, M_bind at 1.
    destruct (sleep_for now _) as [[d h1]|]; [|done]. destruct Hsl as [-> Hsl].
    unfold mbind, M_bind, wthread_mutex_unlock, modify, mret, M_ret. intros [= <- <-]. split; cbn [heap_of thread]; [|done|].
    + replace (mLock h + 1 - 1) with 0 by (rewrite (hr_lock _ _ _ R); lia). exact (hrep_lock _ _ _ _ R1).
    + intros ? ? [= <- <-] _. done.
  - destruct (awake_keep _ _ _ _ _ _ _ _ R Ea) as (am' & R1 & Hc1 & Hs1). exists am'.
    split; cbn [heap_of thread]; [done|lia|]. intros since' t'. destruct o as [d|]; [|done]. intros [= <- <-] _. by apply Hs1.
Qed.

(** C16: the dispatch thread never oversleeps.  In every configuration that other
    threads' calls (creating, resetting and destroying timers, ending the heap)
    and the dispatch thread can reach, whatever the callbacks call: when the
    thread sleeps and no byte is waiting for it, its sleep ends not after the
    timeout of any armed timer (at once where that is past), and it sleeps
    without limit only if no timer is armed.  (Writes to the socket pair may find
    it full but do not fail otherwise.) *)
Theorem thread_never_oversleeps n ls h0 c since t :
  createTimerHeap true true n = (0, Some h0) -> (0 < n)%nat ->
  exec callback ls (mkConfig h0 NotStarted) c -> Forall (fun x => forall cmd, x = Some cmd -> write_fails cmd = false) ls ->
  thread c = Sleeping since t -> mSockPair (heap_of c) = [] ->
  match t with
  | None => tt_keys (mTimeTree (heap_of c)) = []
  | Some d => exists tv0, d = (if timer_lt since tv0 then timersub tv0 since else timerclear) /\
      forall k, k ∈ tt_keys (mTimeTree (heap_of c)) -> timer_lt k.1 tv0 = false
  end.
Proof.
  intros [= <-] Hn Hex Hw.
  assert (exists am, cinv c am) as (am & [R _ Hs]).
  { remember (mkConfig _ NotStarted) as c0 eqn:Ec0. revert Hw. induction Hex as [c|l x c1 c2 c3 Hex IH St]; intros Hw; subst.
    - exists ∅. destruct tt_init as [H1 H2]. split; cbn [heap_of thread]; [|done|done].
      split; cbn; try done.
      + intros tv a. rewrite H2, lookup_empty. split; [by intros ?%not_elem_of_nil|done].
      + intros a. rewrite lookup_empty. by intros [? ?].
    - apply Forall_app in Hw as [Hw Hx]. destruct (IH eq_refl Hw) as [am Hi]. inversion Hx; subst. by eapply step_cinv. }
  intros Ht Hp. specialize (Hs _ _ Ht Hp). destruct t as [d|].
  - destruct Hs as (tv0 & E & Hle). exists tv0. split; [done|]. intros [tv a] Hk. apply (hr_keys _ _ _ R) in Hk. by eapply Hle.
  - by apply (keys_empty 0 _ am R).
Qed.

(** ** What fires *)

Context (quiet : forall a, callback a = []).

(** Taking the first key leaves the others as they are. *)
Lemma remove_first k h am tv a ks :
  hrep k h am -> tt_keys (mTimeTree h) = (tv, a) :: ks ->
  hrep k (set_tree (RB_REMOVE (tv, a) (mTimeTree h)) h) (delete a am) /\ tt_keys (RB_REMOVE (tv, a) (mTimeTree h)) = ks.
Proof.
  intros R E. destruct (first_key _ _ _ _ _ _ R E) as [Ha _]. destruct (hrep_remove_key _ _ _ _ _ R Ha) as [R1 Hp].
  split; [done|]. rewrite E in Hp. apply Permutation_cons_inv in Hp.
  pose proof (tt_sorted _ (hr_tree _ _ _ R)) as S. rewrite E in S. apply StronglySorted_inv in S as [S _].
  eapply (StronglySorted_unique before); [|exact S|exact Hp]. exact (tt_sorted _ (hr_tree _ _ _ R1)).
Qed.

Definition later (now : timeval) (x : Z * timeval) : Prop := timer_lt now x.2 = true.
#[local] Instance later_dec now x : Decision (later now x).
Proof. unfold later. apply _. Defined.

Lemma loop_quiet fuel : forall now k h am,
  hrep k h am -> (length (tt_keys (mTimeTree h)) <= fuel)%nat ->
  wp (dispatch_loop callback fuel now (head (tt_keys (mTimeTree h)))) h (fun _ h' => exists t due,
    h' = set_fired (fired h ++ ((fun x => (x.2, now)) <$> due)) (set_tree t h) /\ hrep k h' (filter (later now) am) /\
    due ++ tt_keys t = tt_keys (mTimeTree h) /\ Forall (fun x => timer_lt now x.1 = false) due /\
    Forall (fun x => timer_lt now x.1 = true) (tt_keys t)).
Proof.
  assert (forall now k h am, hrep k h am -> Forall (fun x => timer_lt now x.1 = true) (tt_keys (mTimeTree h)) ->
    exists t due, h = set_fired (fired h ++ ((fun x : tkey => (x.2, now)) <$> due)) (set_tree t h) /\ hrep k h (filter (later now) am) /\
    due ++ tt_keys t = tt_keys (mTimeTree h) /\ Forall (fun x => timer_lt now x.1 = false) due /\
    Forall (fun x => timer_lt now x.1 = true) (tt_keys t)) as Hstop.
  { intros now k h am R Hl. exists (mTimeTree h), []. split_and!; [|rewrite map_filter_id; [done|]|done|constructor|done].
    - destruct h. cbn. by rewrite app_nil_r.
    - intros a tv Ha. apply (hr_keys _ _ _ R) in Ha. rewrite Forall_forall in Hl. exact (Hl _ Ha). }
  induction fuel as [|fuel IH]; intros now k h am R Hf.
  - destruct (tt_keys (mTimeTree h)) eqn:E; [|cbn in Hf; lia]. apply wp_ret.
    rewrite <- E. apply Hstop; [done|]. rewrite E. constructor.
  - destruct (tt_keys (mTimeTree h)) as [|[tv a] ks] eqn:E; cbn [head dispatch_loop fst].
    { apply wp_ret. rewrite <- E. apply Hstop; [done|]. rewrite E. constructor. }
    destruct (timer_lt now tv) eqn:El.
    { apply wp_ret. rewrite <- E. apply Hstop; [done|]. apply Forall_forall. intros [tv' a'] Hin.
      apply (hr_keys _ _ _ R) in Hin. destruct (first_key _ _ _ _ _ _ R E) as [_ Hle]. specialize (Hle _ _ Hin). cbn.
      apply timer_lt_spec in El. apply timer_ge_spec in Hle. apply timer_lt_spec. lia. }
    destruct (remove_first _ _ _ _ _ _ R E) as [R1 Ek]. destruct (first_key _ _ _ _ _ _ R E) as [Ha _].
    apply wp_bind, wp_modify, wp_bind, wp_modify, wp_bind. rewrite quiet. apply wp_ret, wp_bind, wp_gets. cbn [snd].
    set (h1 := set_fired _ _). assert (hrep k h1 (delete a am)) as R2 by (destruct R1 as [A B C D F G]; by split).
    rewrite tt_min by apply R2. assert (tt_keys (mTimeTree h1) = ks) as Ek1 by exact Ek.
    eapply wp_mono; [apply (IH now k h1 _ R2); rewrite Ek1; cbn in Hf; lia|]. cbn beta.
    intros _ h2 (t & due & -> & R3 & Ed & Hd & Hl). exists t, ((tv, a) :: due).
    split_and!; [cbn; by rewrite <- app_assoc| |cbn; by rewrite Ed, Ek1|by constructor|done].
    rewrite map_filter_delete_not in R3; [done|]. intros v Hv. unfold later. cbn. congruence.
Qed.

(** The timers due at [now], in the order in which they fire. *)
Definition due_list (now : timeval) (am : gmap Z timeval) (due : list tkey) : Prop :=
  StronglySorted before due /\ forall tv a, (tv, a) ∈ due <-> am !! a = Some tv /\ timer_lt now tv = false.

Lemma StronglySorted_prefix {A} (R : A -> A -> Prop) l1 l2 : StronglySorted R (l1 ++ l2) -> StronglySorted R l1.
Proof.
  induction l1 as [|x l1 IH]; cbn; [constructor|]. intros [S F]%StronglySorted_inv. constructor; [by apply IH|].
  by apply Forall_app in F as [F _].
Qed.

Lemma read_wakes l : Forall (fun b => b = wake_byte) l -> read_pair l = (false, []).
Proof. induction 1 as [|b l -> _ IH]; [done|exact IH]. Qed.

Lemma awake_quiet r now1 now2 h am :
  hrep 0 h am -> Forall (fun b => b = wake_byte) (mSockPair h) ->
  wp (dispatch_awake callback (length (tt_keys (mTimeTree h))) r now1 now2) h (fun o h' =>
    (exists d, o = Some d) /\ hrep 0 h' (filter (later now1) am) /\ elements h' = elements h /\ brk h' = brk h /\
    Forall (fun b => b = wake_byte) (mSockPair h') /\
    exists due, due_list now1 am due /\ fired h' = fired h ++ ((fun x => (x.2, now1)) <$> due)).
Proof.
  intros R Hw. apply wp_bind, wp_modify, wp_bind.
  set (fuel := length (tt_keys (mTimeTree h))).
  eapply (wp_mono _ _ (fun ended h1 => ended = false /\ exists l, h1 = set_pair l (set_mLock 1 h) /\ Forall (fun b => b = wake_byte) l)).
  { rewrite (hr_lock _ _ _ R). destruct r; [apply wp_ret|apply wp_ret|apply wp_bind, wp_gets].
    1,2: split; [done|]; exists (mSockPair h); split; [by destruct h|done].
    cbn [mSockPair set_mLock]. rewrite read_wakes by done. apply wp_bind, wp_modify, wp_ret. split; [done|].
    exists []. split; [done|constructor]. }
  cbn beta. intros ? h1 (-> & l & -> & Hl). apply wp_bind, wp_gets.
  assert (hrep 1 (set_pair l (set_mLock 1 h)) am) as R1 by (apply hrep_pair; by eapply hrep_lock).
  rewrite tt_min by apply R1. apply wp_bind. eapply wp_mono; [apply (loop_quiet fuel now1 1 _ am R1); done|].
  cbn beta. intros _ h2 (t & due & -> & R2 & Ed & Hd & Hlt). apply wp_bind.
  eapply wp_mono; [by eapply sleep_for_spec|]. cbn beta. intros d ? [-> _]. apply wp_bind, wp_modify, wp_ret.
  split_and!; [eauto|exact (hrep_lock _ _ _ _ R2)|done|done|done|]. exists due. split; [|done].
  cbn in Ed. split.
  - eapply StronglySorted_prefix. rewrite Ed. apply tt_sorted, R.
  - intros tv a. rewrite <- (hr_keys _ _ _ R), <- Ed, elem_of_app. rewrite Forall_forall in Hd, Hlt. split.
    + intros Hin. split; [by left|]. exact (Hd _ Hin).
    + intros [[Hin|Hin] Hf]; [done|]. specialize (Hlt _ Hin). cbn in Hlt. congruence.
Qed.

(** ** Histories *)

(** A call, or the dispatch thread between two sleeps; its loop needs no more
    rounds than there are timers in the tree. *)
Inductive event : Type :=
| ECall (c : tcmd)
| EWake (r : select_result) (now1 now2 : timeval).

Definition run_event (e : event) : M heap unit :=
  match e with
  | ECall c => run_cmd c ;; mret tt
  | EWake r now1 now2 =>
      fuel ← gets (fun h => length (tt_keys (mTimeTree h)));
      dispatch_awake callback fuel r now1 now2 ;; mret tt
  end.

Fixpoint run_events (l : list event) : M heap unit :=
  match l with
  | [] => mret tt
  | e :: l' => run_event e ;; run_events l'
  end.

(** Calls are made on timers that exist. *)
Fixpoint valid_events (l : list event) (al : gset Z) (next : Z) : Prop :=
  match l with
  | [] => True
  | ECall c :: l' => valid_cmd c al /\ valid_events l' (aalloc c next al) (anext c next)
  | EWake _ _ _ :: l' => valid_events l' al next
  end.

(** What the history fires, and the timers armed at its end. *)
Fixpoint fires (l : list event) (am : gmap Z timeval) (next : Z) (out : list (Z * timeval)) (am' : gmap Z timeval) : Prop :=
  match l with
  | [] => out = [] /\ am' = am
  | ECall c :: l' => fires l' (acmd c next am) (anext c next) out am'
  | EWake _ now _ :: l' => exists due out', due_list now am due /\ out = ((fun x => (x.2, now)) <$> due) ++ out' /\
      fires l' (filter (later now) am) next out' am'
  end.

Lemma events_spec l : forall h am,
  hrep 0 h am -> Forall (fun b => b = wake_byte) (mSockPair h) -> valid_events l (dom (elements h)) (brk h) ->
  wp (run_events l) h (fun _ h' => exists out am',
    fires l am (brk h) out am' /\ fired h' = fired h ++ out /\ hrep 0 h' am').
Proof.
  induction l as [|[c|r now1 now2] l IH]; intros h am R Hw Hv; cbn [run_events fires valid_events] in *.
  - apply wp_ret. exists [], am. by rewrite app_nil_r.
  - destruct Hv as [Hv1 Hv2]. apply wp_bind, wp_bind. eapply wp_mono; [by apply cmd_spec|]. cbn beta.
    intros r h1 (R1 & (_ & Hf & Hp & _) & Hd & Hb). apply wp_ret. rewrite <- Hd, <- Hb in Hv2.
    eapply wp_mono; [apply (IH h1 _ R1); [|done]|].
    { destruct Hp as [-> | ->]; [done|]. apply Forall_app. split; [done|]. by repeat constructor. }
    cbn beta. intros _ h2 (out & am' & H1 & H2 & H3). exists out, am'. rewrite <- Hb. by rewrite H2, Hf.
  - apply wp_bind, wp_bind, wp_gets, wp_bind. eapply wp_mono; [by eapply awake_quiet|]. cbn beta.
    intros o h1 (_ & R1 & He & Hb & Hw1 & due & Hd & Hf). apply wp_ret. rewrite <- He, <- Hb in Hv.
    eapply wp_mono; [apply (IH h1 _ R1 Hw1 Hv)|]. cbn beta. intros _ h2 (out & am' & H1 & H2 & H3).
    eexists _, am'. split_and!; [|rewrite H2, Hf, <- app_assoc; reflexivity|done]. exists due, out. rewrite <- Hb. done.
Qed.

Lemma fresh_heap n h0 :
  createTimerHeap true true n = (0, Some h0) ->
  hrep 0 h0 ∅ /\ mSockPair h0 = [] /\ elements h0 = ∅ /\ brk h0 = 1 /\ fired h0 = [] /\ capacity h0 = n.
Proof.
  intros [= <-]. split; [|done]. destruct tt_init as [H1 H2]. split; cbn; try done.
  - intros tv a. rewrite H2, lookup_empty. split; [by intros ?%not_elem_of_nil|done].
  - intros a. rewrite lookup_empty. by intros [? ?].
Qed.

(** C17: timers fire once, in time and in order.  Through every sequence of
    creations, resets and destructions of timers and awakenings of the dispatch
    thread on a new heap (with callbacks that do not use the heap), every step
    completes, and an awakening at [now] fires exactly the timers armed and not
    later than [now], earliest first (by address among equals), and disarms
    them; a reset timer fires for its new time only, a destroyed one never. *)
Theorem timers_fire_in_order n h0 l :
  createTimerHeap true true n = (0, Some h0) -> valid_events l ∅ 1 ->
  exists h' am', run_events l h0 = Ok (tt, h') /\ fires l ∅ 1 (fired h') am' /\
    forall tv a, (tv, a) ∈ tt_keys (mTimeTree h') <-> am' !! a = Some tv.
Proof.
  intros E Hv. destruct (fresh_heap n h0 E) as (R & Hp & He & Hb & Hf & _).
  destruct (proj1 (wp_elim _ _ _) (events_spec l h0 ∅ R ltac:(by rewrite Hp) ltac:(by rewrite He, Hb, dom_empty_L)))
    as ([] & h' & Er & out & am' & H1 & H2 & R'). rewrite Hf in H2. cbn in H2. subst out. rewrite Hb in H1.
  exists h', am'. split; [done|]. split; [done|]. apply R'.
Qed.

(** A timer whose wake-up byte cannot be written: [createTimer] reports failure
    and gives no timer, but leaves it armed, and it will fire. *)
Lemma create_failure_leaves_timer now cb closure timeout h am :
  hrep 0 h am -> am = ∅ ->
  wp (createTimer true true true true now cb closure (Some timeout)) h (fun r h' =>
    r = (-1, 0) /\ tt_keys (mTimeTree h') = [(timeradd now timeout, brk h)]).
Proof.
  intros R ->. pose proof (proj2 (keys_empty _ _ _ R) eq_refl) as E. unfold createTimer. cbn [andb negb].
  apply wp_bind, wp_gets, wp_bind, wp_modify, wp_bind, wp_modify, wp_bind, wp_bind. unfold wp at 1, element_at.
  cbn [elements set_elements set_mLock]. rewrite lookup_insert_eq. apply wp_bind, wp_gets. cbn [mTimeTree set_elements set_mLock].
  rewrite tt_min by apply R. rewrite E. apply wp_bind, wp_modify, wp_bind, wp_gets, wp_ret, wp_bind, wp_modify, wp_ret.
  split; [done|]. cbn. destruct (tt_insert (mTimeTree h) (timeradd now timeout, brk h)) as [_ Hp]; [apply R|rewrite E; apply not_elem_of_nil|].
  rewrite E in Hp. by apply Permutation_singleton_r in Hp.
Qed.

End props.

(** ** The tree as a sorted list *)

Definition key_le (a b : tkey) : bool := orderedTimeRBTreeCmp a b =? -1.

Fixpoint insert_key (k : tkey) (l : list tkey) : list tkey :=
  match l with
  | [] => [k]
  | x :: l' => if key_le k x then k :: l else if key_le x k then x :: insert_key k l' else l
  end.

Lemma insert_key_perm k l : k ∉ l -> insert_key k l ≡ₚ k :: l.
Proof.
  induction l as [|x l IH]; cbn; [done|]. rewrite not_elem_of_cons. intros [Hne Hni]. case_match; [done|].
  destruct (key_le x k) eqn:E.
  - rewrite IH by done. constructor.
  - exfalso. apply Hne. apply compare_zero. unfold key_le in *.
    apply Z.eqb_neq in E, H. unfold orderedTimeRBTreeCmp in *.
    destruct (timer_lt k.1 x.1) eqn:E1, (timer_lt x.1 k.1) eqn:E2; repeat case_match; try done; lia.
Qed.

Lemma before_trans a b c : before a b -> before b c -> before a c.
Proof.
  unfold orderedTimeRBTreeCmp. intros H1 H2.
  destruct (timer_lt a.1 b.1) eqn:E1, (timer_lt b.1 a.1) eqn:E2, (timer_lt b.1 c.1) eqn:E3, (timer_lt c.1 b.1) eqn:E4,
    (timer_lt a.1 c.1) eqn:E5, (timer_lt c.1 a.1) eqn:E6; try done;
    rewrite ?timer_lt_spec, ?timer_ge_spec in *; try lia; repeat case_match; try done; lia.
Qed.

Lemma insert_key_sorted k l : StronglySorted before l -> StronglySorted before (insert_key k l).
Proof.
  induction 1 as [|x l S IH F]; cbn; [repeat constructor|]. rewrite Forall_forall in F. destruct (key_le k x) eqn:E1.
  - apply Z.eqb_eq in E1. constructor; [by constructor; [|apply Forall_forall]|]. constructor; [done|].
    apply Forall_forall. intros y Hy. eapply before_trans; [exact E1|]. by apply F.
  - destruct (key_le x k) eqn:E2; [|by constructor; [|apply Forall_forall]]. apply Z.eqb_eq in E2. constructor; [done|].
    apply Forall_forall. intros y Hy. destruct (decide (k ∈ l)) as [Hk|Hk].
    + assert (y ∈ l \/ y = k) as [Hy'| ->]; [|by apply F|done].
      clear -Hy. induction l as [|z l IH]; cbn in Hy; [set_solver|].
      repeat case_match; rewrite ?elem_of_cons in *; intuition.
    + rewrite insert_key_perm, elem_of_cons in Hy by done. destruct Hy as [->|Hy]; [done|by apply F].
Qed.

Lemma sorted_keys_nodup l : StronglySorted before l -> NoDup l.
Proof.
  induction 1 as [|x l _ IH F]; constructor; [|done]. intros Hin. rewrite Forall_forall in F. specialize (F x Hin). cbn in F.
  assert (orderedTimeRBTreeCmp x x = 0) by (by apply compare_zero). congruence.
Qed.

Definition remove_key (k : tkey) (l : list tkey) : list tkey := filter (fun x => x <> k) l.

Lemma remove_key_spec k l :
  StronglySorted before l -> k ∈ l -> StronglySorted before (remove_key k l) /\ k :: remove_key k l ≡ₚ l.
Proof.
  intros S Hin. split.
  - clear Hin. unfold remove_key. induction S as [|x l _ IH F]; [constructor|]. rewrite filter_cons. case_decide; [|done].
    constructor; [done|]. rewrite Forall_forall in *. intros y [_ Hy]%list_elem_of_filter. by apply F.
  - unfold remove_key. apply NoDup_Permutation; [|by apply sorted_keys_nodup|].
    + constructor; [rewrite list_elem_of_filter; naive_solver|]. apply NoDup_filter. by apply sorted_keys_nodup.
    + intros x. rewrite elem_of_cons, list_elem_of_filter. destruct (decide (x = k)); naive_solver.
Qed.

Lemma insert_key_spec l k :
  StronglySorted before l -> k ∉ l -> StronglySorted before (insert_key k l) /\ insert_key k l ≡ₚ k :: l.
Proof. intros S Hk. split; [by apply insert_key_sorted|by apply insert_key_perm]. Qed.

(** The interface can be met: a sorted list of keys. *)
#[export] Instance list_tree : TimeTree (list tkey) := {
  RB_INIT := [];
  RB_MIN := head;
  RB_FIND k l := bool_decide (k ∈ l);
  RB_INSERT := insert_key;
  RB_REMOVE := remove_key;
  tt_keys l := l;
  tt_ok l := StronglySorted before l;
  tt_init := conj (SSorted_nil _) eq_refl;
  tt_sorted l S := S;
  tt_min l S := eq_refl;
  tt_find l k S := eq_refl;
  tt_insert := insert_key_spec;
  tt_remove := fun l k => remove_key_spec k l;
}.

(** ** Concrete runs *)

Definition at_ (s us : Z) : timeval := mkTime s us.

Definition test_heap : timerHeapImpl (list tkey) := mkHeap [] [] 100 0 0 ∅ 1 [].

(** Three timers for seconds 5, 3 and 3; one is moved to second 9 and the first
    is destroyed. *)
Definition test_events : list event :=
  [ECall (Create false (at_ 0 0) 1 1 (at_ 5 0)); ECall (Create false (at_ 1 0) 2 2 (at_ 2 0));
   ECall (Create false (at_ 1 500000) 3 3 (at_ 1 500000)); EWake TimedOut (at_ 3 0) (at_ 3 0);
   ECall (Reset false 2 (at_ 4 0) (at_ 5 0)); ECall (Destroy 1); EWake Readable (at_ 8 0) (at_ 8 0);
   EWake Interrupted (at_ 9 1) (at_ 9 1)].

Lemma timers_fire_in_order_witness :
  exists h' am', run_events (fun _ => []) test_events test_heap = Ok (tt, h') /\
    fires test_events ∅ 1 (fired h') am' /\ forall tv a, (tv, a) ∈ tt_keys (mTimeTree h') <-> am' !! a = Some tv.
Proof.
  apply (timers_fire_in_order (fun _ => []) (fun _ => eq_refl) 100 test_heap test_events); [reflexivity|].
  cbn. split_and!; try done; set_solver.
Defined.

Example timers_run :
  match run_events (fun _ => []) test_events test_heap with
  | Ok (_, h) => fired h = [(2, at_ 3 0); (3, at_ 3 0); (2, at_ 9 1)]
  | Fail _ => False
  end.
Proof. vm_compute. reflexivity. Qed.

(** The thread starts, a timer is created, the thread wakes up and sleeps until
    it is due. *)
Definition test_create : tcmd := Create false (at_ 2 0) 1 1 (at_ 5 0).
Definition created_heap : timerHeapImpl (list tkey) := mkHeap [(at_ 7 0, 1)] [] 100 0 0 {[1 := mkTimer 1 1 (at_ 7 0)]} 2 [].

Lemma test_exec :
  exec (fun _ => []) [None; Some test_create; None] (mkConfig test_heap NotStarted)
    (mkConfig created_heap (Sleeping (at_ 2 1) (Some (at_ 4 999999)))).
Proof.
  apply (exec_snoc _ [None; Some test_create] None _ (mkConfig (set_pair [wake_byte] created_heap) (Sleeping (at_ 1 0) None))).
  - apply (exec_snoc _ [None] (Some test_create) _ (mkConfig test_heap (Sleeping (at_ 1 0) None))).
    + apply (exec_snoc _ [] None _ (mkConfig test_heap NotStarted)); [constructor|]. by apply (step_start _ (at_ 1 0)).
    + apply (step_call _ test_create _ _ 0). vm_compute. reflexivity.
  - apply (step_wake _ 5 Readable (at_ 2 1) (at_ 2 1) (at_ 1 0) None _ _ (Some (Some (at_ 4 999999)))); [done|].
    vm_compute. reflexivity.
Qed.

Lemma thread_never_oversleeps_witness :
  exists tv0, at_ 4 999999 = (if timer_lt (at_ 2 1) tv0 then timersub tv0 (at_ 2 1) else timerclear) /\
    forall k, k ∈ tt_keys (mTimeTree created_heap) -> timer_lt k.1 tv0 = false.
Proof.
  apply (thread_never_oversleeps (fun _ => []) 100 [None; Some test_create; None] test_heap
    (mkConfig created_heap (Sleeping (at_ 2 1) (Some (at_ 4 999999)))) (at_ 2 1) (Some (at_ 4 999999))).
  - reflexivity.
  - lia.
  - exact test_exec.
  - repeat constructor; by intros ? [= <-].
  - reflexivity.
  - reflexivity.
Defined.
