(* ===== verification/Listener.v ===== *)
(** * Messages of a subscription (mama/c_cpp/src/c/listenermsgcallback.c)

    What happens to a message between the bridge and the application: the
    entitlement check, the errors a message's status or type stands for, the
    data quality plugin (DqStrategy) as the hook that runs before the message is
    handled, and the callbacks.  What the outside sees is the list [out], in
    order; the events of the data quality layer are part of it.  The plugin list
    of plugin.c holds the data quality plugin alone. *)

From S2P Require Import Prelude MamaStatus DqStrategy.
Import DqStrategy.

Module Listener.

Inductive collector : Type := QueueStats | TransportStats | GlobalStats.
Inductive statistic : Type := MamaStatNumMessages | MamaStatInitials | MamaStatRecaps | MamaStatUnknownMsgs.

(** [Dq e]: an event the data quality layer or the subscription causes. *)
Inductive levent : Type :=
| Dq (e : event)
| OnError (s : mama_status)
| OnQualityMaybeStale
| ResetRefresh
| IncrementStat (c : collector) (s : statistic).

Inductive mamaError : Type := MAMA_ERROR_NONE | MAMA_ERROR_DEFAULT | MAMA_ERROR_NOT_ENTITLED.

(** A message with the fields read here: its type and the entitlement code. *)
Record lmsg : Type := mkLmsg { lm_type : mamaMsgType; lm_entitleCode : option Z; lm_msg : mamaMsg }.

(** The subscription; the entitlement fields of the subject context passed in;
    whether the bridge checks entitlements itself; the transport's setting; the
    statistics that are collected. *)
Record listener : Type := mkListener {
  lsub : subscription;
  mEntitlementAlreadyVerified : bool;
  mEntitleCode : Z;
  deferred : bool;
  isDqEnabled : bool;
  hasWildcards : bool;
  mRespondToNextRefresh : bool;
  collectors : list collector;
  lastError : mamaError;
  out : list levent;
}.

Definition set_lsub (v : subscription) (l : listener) : listener :=
  mkListener v (mEntitlementAlreadyVerified l) (mEntitleCode l) (deferred l) (isDqEnabled l) (hasWildcards l)
    (mRespondToNextRefresh l) (collectors l) (lastError l) (out l).
Definition set_verified (v : bool) (l : listener) : listener :=
  mkListener (lsub l) v (mEntitleCode l) (deferred l) (isDqEnabled l) (hasWildcards l)
    (mRespondToNextRefresh l) (collectors l) (lastError l) (out l).
Definition set_mEntitleCode (v : Z) (l : listener) : listener :=
  mkListener (lsub l) (mEntitlementAlreadyVerified l) v (deferred l) (isDqEnabled l) (hasWildcards l)
    (mRespondToNextRefresh l) (collectors l) (lastError l) (out l).
Definition set_respond (v : bool) (l : listener) : listener :=
  mkListener (lsub l) (mEntitlementAlreadyVerified l) (mEntitleCode l) (deferred l) (isDqEnabled l) (hasWildcards l)
    v (collectors l) (lastError l) (out l).
Definition set_lastError (v : mamaError) (l : listener) : listener :=
  mkListener (lsub l) (mEntitlementAlreadyVerified l) (mEntitleCode l) (deferred l) (isDqEnabled l) (hasWildcards l)
    (mRespondToNextRefresh l) (collectors l) v (out l).
Definition set_out (v : list levent) (l : listener) : listener :=
  mkListener (lsub l) (mEntitlementAlreadyVerified l) (mEntitleCode l) (deferred l) (isDqEnabled l) (hasWildcards l)
    (mRespondToNextRefresh l) (collectors l) (lastError l) v.

Abbreviation LM := (M listener).

Definition say (e : levent) : LM unit := modify (fun l => set_out (out l ++ [e]) l).

(** A call into the subscription or its data quality layer: what it does to the
    outside joins [out]. *)
Definition on_sub {A} (m : M subscription A) : LM A := fun l =>
  match m (set_trace [] (lsub l)) with
  | Ok (a, s) => Ok (a, set_out (out l ++ (Dq <$> trace s)) (set_lsub (set_trace [] s) l))
  | Fail f => Fail f
  end.

(** ** Calls into the subscription (subscription.c) *)

(** It stops the initial and the recap request, whichever there are. *)
Definition mamaSubscription_stopWaitForResponse : LM unit := say (Dq StopWaitForResponse).

Definition mamaSubscription_setPossiblyStale : LM mama_status :=
  state ← on_sub (dqStrategy_getDqState Own);
  if bool_decide (state = DQ_STATE_OK) then
    s ← gets lsub;
    (if cb_onQuality (cfg s) then say OnQualityMaybeStale else mret tt) ;;
    on_sub (dqStrategy_setPossiblyStale Own)
  else mret MAMA_STATUS_OK.

Definition mamaSubscription_respondToRefreshMessage : LM unit :=
  r ← gets mRespondToNextRefresh;
  if r : bool then say ResetRefresh else modify (set_respond true).

Definition forward (msg : mamaMsg) : LM unit := on_sub (mamaSubscription_forwardMsg msg).

(** ** listenermsgcallback.c *)

Definition listenerMsgCallback_create (mem : bool) (subscription : Z) : mama_status * option Z :=
  if mem then (MAMA_STATUS_OK, Some subscription) else (MAMA_STATUS_NOMEM, None).

Definition listenerMsgCallback_invokeErrorCallback (mamaStatus : mama_status) : LM unit :=
  mamaSubscription_stopWaitForResponse ;;
  modify (set_lastError MAMA_ERROR_DEFAULT) ;;
  say (OnError mamaStatus).

(** The type of the message is changed to [MISC]: the result. *)
Definition handleNoSubscribers : LM mamaMsgType :=
  w ← gets hasWildcards;
  (if negb w then mamaSubscription_stopWaitForResponse else mret tt) ;;
  listenerMsgCallback_invokeErrorCallback MAMA_STATUS_NO_SUBSCRIBERS ;;
  mret MAMA_MSG_TYPE_MISC.

(** [register]: the result of the entitlement bridge's
    [registerSubjectContext] for the code of the message. *)
Definition isEntitled (register : Z -> mama_status) (msg : lmsg) : LM bool :=
  v ← gets mEntitlementAlreadyVerified;
  if v : bool then mret true
  else
    d ← gets deferred;
    if d : bool then modify (set_verified true) ;; mret true
    else
      match lm_entitleCode msg with
      | None => mret true
      | Some value =>
          if value =? 0 then mret true
          else
            modify (set_mEntitleCode value) ;;
            if status_ok (register value) then modify (set_verified true) ;; mret true
            else
              modify (set_lastError MAMA_ERROR_NOT_ENTITLED) ;;
              say (Dq Deactivate) ;;
              say (OnError MAMA_STATUS_NOT_ENTITLED) ;;
              mret false
      end.

(** The statistics that are collected, in the order of the code. *)
Definition count (s : statistic) : LM unit :=
  cs ← gets collectors;
  modify (fun l => set_out (out l ++ ((fun c => IncrementStat c s) <$> cs)) l).

(** The error the status of a message stands for. *)
Definition status_error (status : mamaMsgStatus) : option mama_status :=
  match status with
  | MAMA_MSG_STATUS_NOT_PERMISSIONED => Some MAMA_STATUS_NOT_PERMISSIONED
  | MAMA_MSG_STATUS_BAD_SYMBOL => Some MAMA_STATUS_BAD_SYMBOL
  | MAMA_MSG_STATUS_EXPIRED => Some MAMA_STATUS_EXPIRED
  | MAMA_MSG_STATUS_NOT_FOUND => Some MAMA_STATUS_NOT_FOUND
  | MAMA_MSG_STATUS_TIMEOUT => Some MAMA_STATUS_TIMEOUT
  | MAMA_MSG_STATUS_NOT_ENTITLED => Some MAMA_STATUS_NOT_ENTITLED
  | MAMA_MSG_STATUS_BANDWIDTH_EXCEEDED => Some MAMA_STATUS_BANDWIDTH_EXCEEDED
  | _ => None
  end.

(** The [switch] on the status; [Some t]: the function returns (and the message
    has the type [t]). *)
Definition check_status (msg : lmsg) : LM (option mamaMsgType) :=
  match status_error (m_status (lm_msg msg)) with
  | Some e => listenerMsgCallback_invokeErrorCallback e ;; mret (Some (lm_type msg))
  | None =>
      match m_status (lm_msg msg) with
      | MAMA_MSG_STATUS_NO_SUBSCRIBERS => t ← handleNoSubscribers; mret (Some t)
      | MAMA_MSG_STATUS_POSSIBLY_STALE =>
          match lm_type msg with
          | MAMA_MSG_TYPE_MISC => mamaSubscription_setPossiblyStale ;; mret None
          | _ => mret None
          end
      | MAMA_MSG_STATUS_UNKNOWN =>
          mamaSubscription_setPossiblyStale ;;
          count MamaStatUnknownMsgs ;;
          mret (Some (lm_type msg))
      | _ => mret None
      end
  end.

Definition count_type (t : mamaMsgType) : LM unit :=
  match t with
  | MAMA_MSG_TYPE_INITIAL => count MamaStatInitials
  | MAMA_MSG_TYPE_RECAP | MAMA_MSG_TYPE_BOOK_RECAP => count MamaStatRecaps
  | MAMA_MSG_TYPE_UNKNOWN => count MamaStatUnknownMsgs
  | _ => mret tt
  end.

(** The last [switch]. *)
Definition handle_type (msg : lmsg) : LM unit :=
  dq ← gets isDqEnabled;
  match lm_type msg with
  | MAMA_MSG_TYPE_INITIAL | MAMA_MSG_TYPE_RECAP | MAMA_MSG_TYPE_SNAPSHOT | MAMA_MSG_TYPE_DDICT_SNAPSHOT
  | MAMA_MSG_TYPE_BOOK_INITIAL | MAMA_MSG_TYPE_BOOK_SNAPSHOT | MAMA_MSG_TYPE_BOOK_RECAP =>
      if dq : bool then mret tt
      else
        s ← gets lsub;
        (if negb (mAcceptMultipleInitials s) then mamaSubscription_stopWaitForResponse else mret tt) ;;
        forward (lm_msg msg)
  | MAMA_MSG_TYPE_REFRESH => mamaSubscription_respondToRefreshMessage
  | MAMA_MSG_TYPE_DELETE =>
      mamaSubscription_stopWaitForResponse ;; listenerMsgCallback_invokeErrorCallback MAMA_STATUS_DELETE
  | MAMA_MSG_TYPE_EXPIRE =>
      mamaSubscription_stopWaitForResponse ;; listenerMsgCallback_invokeErrorCallback MAMA_STATUS_EXPIRED
  | MAMA_MSG_TYPE_NOT_PERMISSIONED =>
      mamaSubscription_stopWaitForResponse ;; listenerMsgCallback_invokeErrorCallback MAMA_STATUS_NOT_PERMISSIONED
  | MAMA_MSG_TYPE_NOT_FOUND =>
      mamaSubscription_stopWaitForResponse ;; listenerMsgCallback_invokeErrorCallback MAMA_STATUS_NOT_FOUND
  | MAMA_MSG_TYPE_UNKNOWN => mret tt
  | _ => if dq : bool then mret tt else forward (lm_msg msg)
  end.

(** [ctx]: whether the subject context is not NULL.  The result is the type the
    message has afterwards. *)
Definition listenerMsgCallback_processMsg (register : Z -> mama_status) (ctx : bool) (msg : lmsg) : LM mamaMsgType :=
  if negb ctx then mret (lm_type msg)
  else
    e ← isEntitled register msg;
    if negb e then mret (lm_type msg)
    else
      count MamaStatNumMessages ;;
      r ← check_status msg;
      match r with
      | Some t => mret t
      | None =>
          count_type (lm_type msg) ;;
          on_sub (dqstrategyMamaPlugin_subscriptionPreMsgHook (lm_type msg) (lm_msg msg)) ;;
          handle_type msg ;;
          mret (lm_type msg)
      end.

Fixpoint processMsgs (register : Z -> mama_status) (l : list lmsg) : LM unit :=
  match l with
  | [] => mret tt
  | m :: l' => listenerMsgCallback_processMsg register true m ;; processMsgs register l'
  end.

End Listener.
