(* ===== verification/ListenerProps.v ===== *)
(** * Messages of a subscription: data, errors and the data quality layer

    The path of a message composed with the data quality layer: a stream in
    order reaches the application complete, with and without data quality; a
    message is either data or an error. *)

From S2P Require Import Prelude MamaStatus DqStrategy DqSpec DqProps Listener.
Import DqStrategy Listener.

(** ** What is visible in [out] *)

Definition dq_events (ev : list levent) : list event :=
  omap (fun e => match e with Dq x => Some x | _ => None end) ev.
Definition errors (ev : list levent) : list mama_status :=
  omap (fun e => match e with OnError s => Some s | _ => None end) ev.

(** The messages the application received. *)
Definition received (ev : list levent) : list mamaMsg := forwarded (dq_events ev).

Lemma dq_events_app a b : dq_events (a ++ b) = dq_events a ++ dq_events b.
Proof. apply omap_app. Qed.
Lemma errors_app a b : errors (a ++ b) = errors a ++ errors b.
Proof. apply omap_app. Qed.
Lemma received_app a b : received (a ++ b) = received a ++ received b.
Proof. unfold received. by rewrite dq_events_app, forwarded_app. Qed.

Lemma dq_events_dq tr : dq_events (Dq <$> tr) = tr.
Proof. induction tr as [|e tr IH]; [done|]. cbn. by rewrite <- IH at 2. Qed.
Lemma errors_dq tr : errors (Dq <$> tr) = [].
Proof. by induction tr. Qed.
Lemma received_dq tr : received (Dq <$> tr) = forwarded tr.
Proof. unfold received. by rewrite dq_events_dq. Qed.

Lemma stats_silent (cs : list collector) s :
  dq_events ((fun c => IncrementStat c s) <$> cs) = [] /\ errors ((fun c => IncrementStat c s) <$> cs) = [].
Proof. by induction cs. Qed.

(** ** Computations that only add to [out] what [P] allows *)

(** [m] returns, or faults; when it returns, [out] grew by events in [P]. *)
Definition adds {A} (m : M listener A) (P : A -> list levent -> Prop) : Prop :=
  forall l, match m l with
            | Ok (a, l') => exists ev, out l' = out l ++ ev /\ P a ev
            | Fail _ => True
            end.

Lemma adds_ret {A} (a : A) (P : A -> list levent -> Prop) : P a [] -> adds (mret a) P.
Proof. intros H l. exists []. by rewrite app_nil_r. Qed.

Lemma adds_bind {A B} (m : M listener A) (k : A -> M listener B) P Q :
  adds m P -> (forall a ev, P a ev -> adds (k a) (fun b ev' => Q b (ev ++ ev'))) -> adds (m ≫= k) Q.
Proof.
  intros Hm Hk l. unfold mbind, M_bind. specialize (Hm l). destruct (m l) as [[a l1]|f]; [|done].
  destruct Hm as (ev & E1 & HP). specialize (Hk a ev HP l1). destruct (k a l1) as [[b l2]|f]; [|done].
  destruct Hk as (ev' & E2 & HQ). exists (ev ++ ev'). split; [by rewrite E2, E1, app_assoc|done].
Qed.

Lemma adds_mono {A} (m : M listener A) (P Q : A -> list levent -> Prop) :
  adds m P -> (forall a ev, P a ev -> Q a ev) -> adds m Q.
Proof. intros Hm H l. specialize (Hm l). destruct (m l) as [[a l']|]; [|done]. destruct Hm as (ev & E & HP). eauto. Qed.

Lemma adds_gets {A} (f : listener -> A) (P : A -> list levent -> Prop) : (forall a, P a []) -> adds (gets f) P.
Proof. intros H l. exists []. split; [by rewrite app_nil_r|done]. Qed.

(** An update of a field other than [out]. *)
Lemma adds_set (f : listener -> listener) (P : unit -> list levent -> Prop) :
  (forall l, out (f l) = out l) -> P tt [] -> adds (modify f) P.
Proof. intros H HP l. exists []. split; [by rewrite app_nil_r, H|done]. Qed.

Lemma adds_say e (P : unit -> list levent -> Prop) : P tt [e] -> adds (say e) P.
Proof. intros H l. by exists [e]. Qed.

Lemma adds_on_sub {A} (m : M subscription A) (P : A -> list levent -> Prop) :
  (forall s a s', trace s = [] -> m s = Ok (a, s') -> P a (Dq <$> trace s')) -> adds (on_sub m) P.
Proof.
  intros H l. unfold on_sub. destruct (m (set_trace [] (lsub l))) as [[a s']|f] eqn:E; [|done].
  exists (Dq <$> trace s'). split; [done|]. exact (H (set_trace [] (lsub l)) a s' eq_refl E).
Qed.

(** Nothing the application gets as data or error. *)
Definition silent (ev : list levent) : Prop := received ev = [] /\ errors ev = [].

Lemma silent_app a b : silent a -> silent b -> silent (a ++ b).
Proof. intros [H1 H2] [H3 H4]. split; rewrite ?received_app, ?errors_app; by rewrite ?H1, ?H2, ?H3, ?H4. Qed.

Lemma silent_nil : silent [].
Proof. done. Qed.

Lemma count_silent s : adds (count s) (fun _ ev => silent ev).
Proof.
  intros l. cbn. exists ((fun c => IncrementStat c s) <$> collectors l). split; [done|].
  destruct (stats_silent (collectors l) s) as [H1 H2]. split; [|done]. unfold received. by rewrite H1.
Qed.

Lemma stop_silent : adds mamaSubscription_stopWaitForResponse (fun _ ev => silent ev).
Proof. by apply adds_say. Qed.

Lemma error_callback st :
  adds (listenerMsgCallback_invokeErrorCallback st) (fun _ ev => received ev = [] /\ errors ev = [st]).
Proof.
  eapply adds_bind; [apply stop_silent|]. intros _ ev1 [H1 H2]. eapply adds_bind; [by apply (adds_set _ (fun _ ev => ev = []))|].
  intros _ ? ->. apply adds_say. rewrite !received_app, !errors_app, H1, H2. done.
Qed.

Lemma stale_silent : adds mamaSubscription_setPossiblyStale (fun _ ev => silent ev).
Proof.
  eapply adds_bind.
  { apply (adds_on_sub _ (fun _ ev => ev = [])). intros s a s' E [= <- <-]. by rewrite E. }
  intros st ? ->. case_bool_decide; [|by apply adds_ret].
  eapply adds_bind; [by apply (adds_gets _ (fun _ ev => ev = []))|]. intros sub ? ->.
  eapply (adds_bind _ _ (fun _ ev => silent ev)).
  { case_match; [by apply adds_say|by apply adds_ret]. }
  intros [] ev Hs. apply adds_on_sub. intros s a s' E [= <- <-]. cbn. rewrite E. by apply silent_app.
Qed.

(** ** The hook on messages that are no data *)

(** A computation of the data quality layer that shows nothing outside. *)
Definition traceless {A} (m : M subscription A) : Prop :=
  forall s, match m s with Ok (_, s') => trace s' = trace s | Fail _ => True end.

Lemma traceless_ret {A} (a : A) : traceless (mret a).
Proof. done. Qed.
Lemma traceless_bind {A B} (m : M subscription A) (k : A -> M subscription B) :
  traceless m -> (forall a, traceless (k a)) -> traceless (m ≫= k).
Proof.
  intros Hm Hk s. unfold mbind, M_bind. specialize (Hm s). destruct (m s) as [[a s1]|]; [|done].
  specialize (Hk a s1). destruct (k a s1) as [[b s2]|]; [|done]. congruence.
Qed.
Lemma traceless_gets {A} (f : subscription -> A) : traceless (gets f).
Proof. done. Qed.
Lemma traceless_fail {A} f : traceless (fail f : M subscription A).
Proof. done. Qed.
Lemma traceless_get_subject r : traceless (get_subject r).
Proof. intros s. destruct r as [|x]; [done|]. unfold get_subject. by destruct (subjects s) as [m|]; [destruct (m !! x)|]. Qed.
Lemma traceless_put_subject r c : traceless (put_subject r c).
Proof. intros s. destruct r as [|x]; [done|]. unfold put_subject. by destruct (subjects s). Qed.
Lemma traceless_subject msg : traceless (mamaSubscription_getSubjectContext msg).
Proof.
  intros s. unfold mamaSubscription_getSubjectContext. destruct (subjects s) as [m|]; [|done].
  destruct (m_issueSymbol msg) as [x|]; [|done]. by destruct (m !! x).
Qed.

Create HintDb traceless.
#[local] Hint Resolve traceless_ret traceless_gets traceless_fail traceless_get_subject traceless_put_subject
  traceless_subject : traceless.

Lemma traceless_upd_ctx r f : traceless (upd_ctx r f).
Proof. apply traceless_bind; auto with traceless. Qed.
Lemma traceless_get_ctx r : traceless (get_ctx r).
Proof. apply traceless_bind; auto with traceless. Qed.
#[local] Hint Resolve traceless_upd_ctx traceless_get_ctx : traceless.

Lemma traceless_cacheMsg r msg : traceless (dqContext_cacheMsg r msg).
Proof.
  apply traceless_bind; [auto with traceless|]. intros c. case_match; [|auto with traceless].
  case_match; [auto with traceless|]. apply traceless_bind; auto with traceless.
Qed.
#[local] Hint Resolve traceless_cacheMsg : traceless.

(** The error a message type stands for. *)
Definition type_error (t : mamaMsgType) : option mama_status :=
  match t with
  | MAMA_MSG_TYPE_DELETE => Some MAMA_STATUS_DELETE
  | MAMA_MSG_TYPE_EXPIRE => Some MAMA_STATUS_EXPIRED
  | MAMA_MSG_TYPE_NOT_PERMISSIONED => Some MAMA_STATUS_NOT_PERMISSIONED
  | MAMA_MSG_TYPE_NOT_FOUND => Some MAMA_STATUS_NOT_FOUND
  | _ => None
  end.

Lemma hook_no_data t m : is_Some (type_error t) -> traceless (dqstrategyMamaPlugin_subscriptionPreMsgHook t m).
Proof.
  intros Ht. apply traceless_bind; [auto with traceless|]. intros sub. apply traceless_bind; [auto with traceless|].
  intros k. case_match; [auto with traceless|]. case_match; [|auto with traceless].
  assert (isInitialMessageOrRecap t = false) as -> by (by destruct t; destruct Ht).
  apply traceless_bind; [auto with traceless|]. intros e. apply traceless_bind; [apply traceless_bind; auto with traceless|].
  intros st. apply traceless_bind; [auto with traceless|]. intros sc. cbv zeta. match goal with |- traceless (if ?b then _ else _) => destruct b end.
  - apply traceless_bind; [case_match; auto with traceless|]. intros _. apply traceless_bind; auto with traceless.
  - destruct t; destruct Ht; done.
Qed.

(** ** Data or error *)

(** The error of a message that passed the entitlement check. *)
Definition msg_error (msg : lmsg) : option mama_status :=
  match m_status (lm_msg msg) with
  | MAMA_MSG_STATUS_NO_SUBSCRIBERS => Some MAMA_STATUS_NO_SUBSCRIBERS
  | MAMA_MSG_STATUS_UNKNOWN => None
  | st => match status_error st with Some e => Some e | None => type_error (lm_type msg) end
  end.

(** [ev] is the error [e] alone, or no error. *)
Definition as_error (e : option mama_status) (ev : list levent) : Prop :=
  errors ev = option_list e /\ (is_Some e -> received ev = []).

Lemma as_error_silent e ev1 ev2 : silent ev1 -> as_error e ev2 -> as_error e (ev1 ++ ev2).
Proof.
  intros [H1 H2] [H3 H4]. split; rewrite ?errors_app, ?received_app, ?H1, ?H2; [done|exact H4].
Qed.

Lemma silent_no_error ev : silent ev -> as_error None ev.
Proof. intros [H1 H2]. split; [done|by intros [? ?]]. Qed.

Lemma handle_type_error msg : adds (handle_type msg) (fun _ ev => as_error (type_error (lm_type msg)) ev).
Proof.
  assert (forall st, adds (mamaSubscription_stopWaitForResponse ;; listenerMsgCallback_invokeErrorCallback st)
    (fun _ ev => as_error (Some st) ev)) as Herr.
  { intros st. eapply adds_bind; [apply stop_silent|]. intros [] ev Hs. eapply adds_mono; [apply error_callback|].
    intros _ ev' [H1 H2]. apply as_error_silent; [done|]. split; [by rewrite H2|done]. }
  assert (forall m, adds (forward m) (fun _ ev => as_error None ev)) as Hfwd.
  { intros m. apply adds_on_sub. intros s a s' E [= _ <-]. split; [by rewrite errors_dq|by intros [? ?]]. }
  assert (forall A (a : A), adds (mret a) (fun _ ev => as_error None ev)) as Hret.
  { intros A a. apply adds_ret. by apply silent_no_error. }
  eapply adds_bind; [by apply (adds_gets _ (fun _ ev => ev = []))|]. intros dq ? ->. cbn [app].
  assert (adds (if dq then mret tt else
     s ← gets lsub; (if negb (mAcceptMultipleInitials s) then mamaSubscription_stopWaitForResponse else mret tt) ;;
     forward (lm_msg msg)) (fun _ ev => as_error None ev)) as Himg.
  { destruct dq; [apply Hret|]. eapply adds_bind; [by apply (adds_gets _ (fun _ ev => ev = []))|]. intros s ? ->. cbn [app].
    eapply (adds_bind _ _ (fun _ ev => silent ev)); [case_match; [apply stop_silent|by apply adds_ret]|].
    intros [] ev Hs. eapply adds_mono; [apply Hfwd|]. intros [] ev' He. by apply as_error_silent. }
  assert (adds mamaSubscription_respondToRefreshMessage (fun _ ev => as_error None ev)) as Hrefresh.
  { eapply adds_bind; [by apply (adds_gets _ (fun _ ev => ev = []))|]. intros r ? ->. cbn [app].
    destruct r; [by apply adds_say, silent_no_error|by apply adds_set; [|apply silent_no_error]]. }
  destruct (lm_type msg); cbn [type_error]; try apply Herr; try exact Himg; try exact Hrefresh; try apply Hret;
    (destruct dq; [apply Hret|apply Hfwd]).
Qed.

Lemma check_status_error msg :
  adds (check_status msg) (fun r ev =>
    match r with
    | Some _ => as_error (msg_error msg) ev
    | None => silent ev /\ msg_error msg = type_error (lm_type msg)
    end).
Proof.
  unfold check_status, msg_error. destruct (status_error (m_status (lm_msg msg))) as [e|] eqn:E.
  - eapply adds_bind; [apply error_callback|]. intros [] ev [H1 H2]. apply adds_ret. rewrite app_nil_r.
    assert (as_error (Some e) ev) as He by (split; [by rewrite H2|done]).
    destruct (m_status (lm_msg msg)); try done; injection E as <-; exact He.
  - assert (adds (t ← handleNoSubscribers; mret (Some t)) (fun r ev =>
      match r with Some _ => as_error (Some MAMA_STATUS_NO_SUBSCRIBERS) ev | None => False end)) as Hns.
    { eapply (adds_bind _ _ (fun _ ev => as_error (Some MAMA_STATUS_NO_SUBSCRIBERS) ev)).
      2:{ intros t ev He. apply adds_ret. by rewrite app_nil_r. }
      eapply adds_bind; [by apply (adds_gets _ (fun _ ev => ev = []))|]. intros w ? ->. cbn [app].
      eapply (adds_bind _ _ (fun _ ev => silent ev)); [destruct w; [by apply adds_ret|apply stop_silent]|].
      intros [] ev Hs. eapply adds_bind; [apply error_callback|]. intros [] ev' [H1 H2]. apply adds_ret. rewrite app_nil_r.
      apply as_error_silent; [done|]. split; [by rewrite H2|done]. }
    assert (forall x, adds (mret None : M listener (option mamaMsgType)) (fun r ev =>
      match r with Some _ => x ev | None => silent ev /\ type_error (lm_type msg) = type_error (lm_type msg) end)) as Hret.
    { intros x. by apply adds_ret. }
    destruct (m_status (lm_msg msg)); try discriminate; cbn [status_error]; try apply Hret.
    + eapply adds_mono; [exact Hns|]. intros [t|] ev He; [exact He|done].
    + destruct (lm_type msg); try apply Hret. eapply adds_bind; [apply stale_silent|]. intros st ev Hs. apply adds_ret.
      by rewrite app_nil_r.
    + eapply adds_bind; [apply stale_silent|]. intros st ev Hs. eapply adds_bind; [apply count_silent|]. intros [] ev' Hs'.
      apply adds_ret. rewrite app_nil_r. by apply silent_no_error, silent_app.
Qed.

(** After the check, with the hook: the error of the type, or none. *)
Lemma after_status msg :
  adds (count_type (lm_type msg) ;;
        on_sub (dqstrategyMamaPlugin_subscriptionPreMsgHook (lm_type msg) (lm_msg msg)) ;;
        handle_type msg ;; mret (lm_type msg)) (fun _ ev => as_error (type_error (lm_type msg)) ev).
Proof.
  eapply (adds_bind _ _ (fun _ ev => silent ev)).
  { unfold count_type. destruct (lm_type msg); try (by apply adds_ret); apply count_silent. }
  intros [] ev Hs.
  eapply (adds_bind _ _ (fun _ ev => errors ev = [] /\ (is_Some (type_error (lm_type msg)) -> received ev = []))).
  { apply adds_on_sub. intros s a s' E0 Eh. rewrite errors_dq. split; [done|]. intros Ht.
    pose proof (hook_no_data (lm_type msg) (lm_msg msg) Ht s) as Hk. rewrite Eh in Hk. by rewrite Hk, E0. }
  intros _st ev2 [H1 H2]. eapply adds_bind; [apply handle_type_error|]. intros [] ev3 [H3 H4]. apply adds_ret.
  rewrite app_nil_r. destruct Hs as [Hs1 Hs2]. split.
  - by rewrite !errors_app, Hs2, H1, H3.
  - intros Ht. by rewrite !received_app, Hs1, H2, H4.
Qed.

(** Whether the entitlement check lets a message through. *)
Definition entitled (register : Z -> mama_status) (l : listener) (msg : lmsg) : bool :=
  mEntitlementAlreadyVerified l || deferred l ||
  match lm_entitleCode msg with None => true | Some c => (c =? 0) || status_ok (register c) end.

Lemma entitled_spec register msg l :
  exists l', isEntitled register msg l = Ok (entitled register l msg, l') /\
    exists ev, out l' = out l ++ ev /\
      as_error (if entitled register l msg then None else Some MAMA_STATUS_NOT_ENTITLED) ev /\ received ev = [].
Proof.
  unfold isEntitled, entitled, mbind, M_bind, gets. destruct (mEntitlementAlreadyVerified l) eqn:E1.
  { exists l. split; [done|]. exists []. rewrite app_nil_r. split; [done|]. by split; [apply silent_no_error|]. }
  destruct (deferred l); cbn [orb].
  { eexists. split; [done|]. exists []. rewrite app_nil_r. split; [done|]. by split; [apply silent_no_error|]. }
  destruct (lm_entitleCode msg) as [c|].
  2:{ exists l. split; [done|]. exists []. rewrite app_nil_r. split; [done|]. by split; [apply silent_no_error|]. }
  destruct (c =? 0); cbn [orb].
  { exists l. split; [done|]. exists []. rewrite app_nil_r. split; [done|]. by split; [apply silent_no_error|]. }
  unfold modify. destruct (status_ok (register c)).
  - eexists. split; [done|]. exists []. cbn. rewrite app_nil_r. split; [done|]. by split; [apply silent_no_error|].
  - eexists. split; [done|]. exists [Dq Deactivate; OnError MAMA_STATUS_NOT_ENTITLED]. cbn. rewrite <- app_assoc. done.
Qed.

(** a message is data or an error.  Whatever the subscription, the
    statistics and the data quality settings: a message that is processed leads
    to the error callback exactly once when it is not entitled or its status or
    type is an error, with the matching code, and then nothing is delivered as
    data; otherwise the error callback does not run. *)
Theorem message_is_data_or_error register msg l t l' :
  listenerMsgCallback_processMsg register true msg l = Ok (t, l') ->
  exists ev, out l' = out l ++ ev /\
    as_error (if entitled register l msg then msg_error msg else Some MAMA_STATUS_NOT_ENTITLED) ev.
Proof.
  unfold listenerMsgCallback_processMsg. cbn [negb]. unfold mbind at 1, M_bind at 1.
  destruct (entitled_spec register msg l) as (l1 & -> & ev1 & E1 & He1 & Hr1). destruct (entitled register l msg); cbn [negb].
  2:{ intros [= <- <-]. by exists ev1. }
  match goal with |- ?m l1 = _ -> _ => assert (adds m (fun _ ev => as_error (msg_error msg) ev)) as Ha end.
  { eapply adds_bind; [apply count_silent|]. intros [] ev Hs. eapply adds_bind; [apply check_status_error|].
    intros [t'|] ev2 H2.
    - apply adds_ret. rewrite app_nil_r. by apply as_error_silent.
    - destruct H2 as [Hs2 ->]. eapply adds_mono; [apply after_status|]. intros t' ev3 H3. rewrite app_assoc.
      apply as_error_silent; [by apply silent_app|done]. }
  specialize (Ha l1). intros E. rewrite E in Ha. destruct Ha as (ev2 & E2 & H2). exists (ev1 ++ ev2).
  split; [by rewrite E2, E1, app_assoc|]. apply as_error_silent; [|done]. split; [done|apply He1].
Qed.

(** ** Streams *)

Definition pairs (ms : list lmsg) : list (mamaMsgType * mamaMsg) := (fun m => (lm_type m, lm_msg m)) <$> ms.

(** The types whose messages are passed on. *)
Definition data_type (t : mamaMsgType) : bool :=
  match t with
  | MAMA_MSG_TYPE_REFRESH | MAMA_MSG_TYPE_DELETE | MAMA_MSG_TYPE_EXPIRE | MAMA_MSG_TYPE_NOT_PERMISSIONED
  | MAMA_MSG_TYPE_NOT_FOUND | MAMA_MSG_TYPE_UNKNOWN => false
  | _ => true
  end.

Lemma wp_on_sub {A} (m : M subscription A) l (Q : A -> listener -> Prop) :
  wp m (set_trace [] (lsub l)) (fun a s => Q a (set_out (out l ++ (Dq <$> trace s)) (set_lsub (set_trace [] s) l))) ->
  wp (on_sub m) l Q.
Proof. unfold wp, on_sub. by destruct (m (set_trace [] (lsub l))) as [[a s]|]. Qed.

(** An entitled message that is OK: up to the hook only statistics are
    counted. *)
Lemma process_ok register msg l (Q : mamaMsgType -> listener -> Prop) :
  mEntitlementAlreadyVerified l = true -> m_status (lm_msg msg) = MAMA_MSG_STATUS_OK ->
  (forall ev, silent ev -> dq_events ev = [] ->
     wp (on_sub (dqstrategyMamaPlugin_subscriptionPreMsgHook (lm_type msg) (lm_msg msg)) ;;
         handle_type msg ;; mret (lm_type msg)) (set_out (out l ++ ev) l) Q) ->
  wp (listenerMsgCallback_processMsg register true msg) l Q.
Proof.
  intros Hv Hs H. unfold listenerMsgCallback_processMsg. cbn [negb]. apply wp_bind. unfold isEntitled.
  apply wp_bind, wp_gets. rewrite Hv. apply wp_ret. cbn [negb]. apply wp_bind, wp_bind, wp_gets, wp_modify.
  apply wp_bind. unfold check_status. rewrite Hs. cbn [status_error]. apply wp_ret.
  set (ev1 := (fun c => IncrementStat c MamaStatNumMessages) <$> collectors l).
  assert (forall s, silent ((fun c => IncrementStat c s) <$> collectors l) /\
            dq_events ((fun c => IncrementStat c s) <$> collectors l) = []) as Hst.
  { intros s. destruct (stats_silent (collectors l) s) as [H1 H2]. split; [|done]. split; [|done]. unfold received. by rewrite H1. }
  assert (exists ev2, silent ev2 /\ dq_events ev2 = [] /\
    count_type (lm_type msg) (set_out (out l ++ ev1) l) = Ok (tt, set_out (out l ++ ev1 ++ ev2) l)) as (ev2 & S2 & D2 & E2).
  { assert (forall s, count s (set_out (out l ++ ev1) l)
       = Ok (tt, set_out (out l ++ ev1 ++ ((fun c => IncrementStat c s) <$> collectors l)) l)) as Hc.
    { intros s. rewrite app_assoc. done. }
    unfold count_type. destruct (lm_type msg); (try (eexists; split; [|split]; [| |apply Hc]; apply Hst));
      exists []; rewrite app_nil_r; done. }
  apply wp_bind. unfold wp at 1. rewrite E2. destruct (Hst MamaStatNumMessages) as [S1 D1].
  apply H; [by apply silent_app|]. unfold ev1. by rewrite dq_events_app, D1, D2.
Qed.

Definition recap_free (ev : list levent) : Prop := recaps (dq_events ev) = [] /\ qualities (dq_events ev) = [].

Lemma process_in_order register msg l cc :
  mEntitlementAlreadyVerified l = true -> isDqEnabled l = true -> live (lsub l) -> mDQState (dq (lsub l)) = DQ_STATE_OK ->
  update_conflate (lm_type msg) (lm_msg msg) = Some cc -> same_sender (lsub l) (lm_msg msg) ->
  mamaMsg_getSeqNum (lm_msg msg) = u32 (mSeqNum (dq (lsub l)) + cc) -> m_status (lm_msg msg) = MAMA_MSG_STATUS_OK ->
  wp (listenerMsgCallback_processMsg register true msg) l (fun _ l' =>
    mEntitlementAlreadyVerified l' = true /\ isDqEnabled l' = true /\ live (lsub l') /\ mDQState (dq (lsub l')) = DQ_STATE_OK /\
    mSenderId (dq (lsub l')) = mSenderId (dq (lsub l)) /\ mSeqNum (dq (lsub l')) = mamaMsg_getSeqNum (lm_msg msg) /\
    exists ev, out l' = out l ++ ev /\ received ev = [lm_msg msg] /\ errors ev = [] /\ recap_free ev).
Proof.
  intros Hv Hd L Hok Hc Hs Hseq Hst. apply process_ok; [done|done|]. intros ev Sev Dev.
  apply wp_bind, wp_on_sub. cbn [lsub set_out].
  eapply wp_mono; [eapply (hook_in_order (set_trace [] (lsub l)) _ _ cc); [by apply live_set_trace| |exact Hc|exact Hs| |done]|].
  - right. change (mDQState (dq (lsub l)) <> DQ_STATE_WAITING_FOR_RECAP). by rewrite Hok.
  - rewrite Hseq. exact (in_order_next _ (mSeqNum (dq (lsub l))) cc).
  - cbn beta. intros _ s' (L' & _ & E2 & E3 & E4 & _ & E5). rewrite (quality_ok_none (set_trace [] (lsub l)) Hok) in E5. cbn in E5.
    apply wp_bind. eapply (wp_mono _ _ (fun _ l1 => l1 = _)).
    { unfold handle_type. apply wp_bind, wp_gets. cbn [isDqEnabled set_out set_lsub]. rewrite Hd.
      destruct (lm_type msg); cbn in Hc; try discriminate; by apply wp_ret. }
    cbn beta. intros _ ? ->. apply wp_ret. cbn. rewrite E5. split_and!; try done; [by apply live_set_trace|].
    eexists. split; [by rewrite <- app_assoc|]. destruct Sev as [S1 S2]. unfold recap_free, received in *.
    rewrite errors_app, !dq_events_app, forwarded_app, recaps_app, qualities_app, S2, Dev. done.
Qed.

(** Without data quality. *)
Definition plain (l : listener) : Prop :=
  mEntitlementAlreadyVerified l = true /\ isDqEnabled l = false /\ t_handleEvent (cfg (lsub l)) = false.

Lemma process_plain register msg l :
  plain l -> m_status (lm_msg msg) = MAMA_MSG_STATUS_OK -> data_type (lm_type msg) = true ->
  wp (listenerMsgCallback_processMsg register true msg) l (fun _ l' =>
    plain l' /\ exists ev, out l' = out l ++ ev /\ received ev = [lm_msg msg] /\ errors ev = [] /\ recap_free ev).
Proof.
  intros (Hv & Hd & Hp) Hst Ht. apply process_ok; [done|done|]. intros ev Sev Dev.
  apply wp_bind, wp_on_sub. cbn [lsub set_out].
  eapply (wp_mono _ _ (fun _ s => trace s = [] /\ t_handleEvent (cfg s) = false)).
  { unfold dqstrategyMamaPlugin_subscriptionPreMsgHook. apply wp_bind.
    eapply (wp_mono _ _ (fun _ s => trace s = [] /\ t_handleEvent (cfg s) = false)).
    - unfold wp, mamaSubscription_getSubjectContext. cbn [subjects set_trace]. destruct (subjects (lsub l)) as [tbl|]; [|done].
      destruct (m_issueSymbol (lm_msg msg)) as [x|]; [|done]. by destruct (tbl !! x).
    - cbn beta. intros sub s [E1 E2]. apply wp_bind, wp_gets. rewrite E2. by apply wp_ret. }
  cbn beta. intros _ s [E1 E2]. rewrite E1. cbn [fmap list_fmap out set_out]. rewrite app_nil_r.
  set (l1 := set_out _ _). apply wp_bind.
  eapply (wp_mono _ _ (fun _ l2 => plain l2 /\ exists ev2, out l2 = out l1 ++ ev2 /\ received ev2 = [lm_msg msg] /\
            errors ev2 = [] /\ recap_free ev2)).
  { assert (forall l0, plain l0 -> wp (forward (lm_msg msg)) l0 (fun _ l2 => plain l2 /\ out l2 = out l0 ++ [Dq (OnMsg (lm_msg msg))])) as Hf.
    { intros l0 Hl0. apply wp_on_sub, wp_modify. done. }
    assert (plain l1) as P1 by done. clearbody l1.
    assert (wp (s ← gets lsub; (if negb (mAcceptMultipleInitials s) then mamaSubscription_stopWaitForResponse else mret tt) ;;
       forward (lm_msg msg)) l1 (fun _ l2 => plain l2 /\ exists ev2, out l2 = out l1 ++ ev2 /\ received ev2 = [lm_msg msg] /\
            errors ev2 = [] /\ recap_free ev2)) as Himg.
    { apply wp_bind, wp_gets, wp_bind. destruct (mAcceptMultipleInitials (lsub l1)); [apply wp_ret|apply wp_modify].
      - eapply wp_mono; [by apply Hf|]. cbn beta. intros _ l2 [P2 ->]. split; [done|]. eexists. by split.
      - eapply wp_mono; [by apply Hf|]. cbn beta. intros _ l2 [P2 ->]. split; [done|]. cbn [out set_out].
        eexists. split; [by rewrite <- app_assoc|]. done. }
    assert (wp (forward (lm_msg msg)) l1 (fun _ l2 => plain l2 /\ exists ev2, out l2 = out l1 ++ ev2 /\
            received ev2 = [lm_msg msg] /\ errors ev2 = [] /\ recap_free ev2)) as Hfwd.
    { eapply wp_mono; [by apply Hf|]. cbn beta. intros _ l2 [P2 ->]. split; [done|]. eexists. by split. }
    destruct P1 as (_ & Hd1 & _). unfold handle_type. apply wp_bind, wp_gets. rewrite Hd1.
    destruct (lm_type msg); try discriminate; (exact Himg || exact Hfwd). }
  cbn beta. intros _ l2 (P2 & ev2 & E3 & R2 & Er2 & Rf2). apply wp_ret. split; [done|].
  exists (ev ++ ev2). cbn in E3. rewrite E3, <- app_assoc. split; [done|]. destruct Sev as [S1 S2]. destruct Rf2 as [F1 F2].
  unfold recap_free. rewrite received_app, errors_app, !dq_events_app, recaps_app, qualities_app.
  by rewrite S1, S2, R2, Er2, Dev, F1, F2.
Qed.

Definition set_cfg (v : settings) (s : subscription) : subscription :=
  mkSub (own s) (subjects s) (mDqStrategy s) (isGroup s) (subscSymbol s) (mExpectingInitial s)
    (mAcceptMultipleInitials s) (expectingUpdates s) (mInitialCount s) (mPreInitialCacheSize s) v (trace s).

(** The same subscription with data quality switched off on its transport. *)
Definition without_dq (l : listener) : listener :=
  let c := cfg (lsub l) in
  let s := set_cfg (mkSettings (t_preInitial c) (t_scheme c) (t_ft c) (t_preRecapCache c) false (cb_onQuality c)
                      (cb_onGap c) (cb_onRecapRequest c)) (lsub l) in
  mkListener s (mEntitlementAlreadyVerified l) (mEntitleCode l) (deferred l) false (hasWildcards l)
    (mRespondToNextRefresh l) (collectors l) (lastError l) (out l).

(** The application received [ms], in order, and nothing else. *)
Definition delivers (ms : list lmsg) (l l' : listener) : Prop :=
  exists ev, out l' = out l ++ ev /\ received ev = lm_msg <$> ms /\ errors ev = [] /\ recap_free ev.

Lemma delivers_cons m ms l l1 l2 ev :
  out l1 = out l ++ ev -> received ev = [lm_msg m] -> errors ev = [] -> recap_free ev ->
  delivers ms l1 l2 -> delivers (m :: ms) l l2.
Proof.
  intros E R Er [F1 F2] (ev2 & E2 & R2 & Er2 & [G1 G2]). exists (ev ++ ev2).
  unfold recap_free. rewrite received_app, errors_app, !dq_events_app, recaps_app, qualities_app.
  rewrite E2, E, R, R2, Er, Er2, F1, F2, G1, G2. split_and!; try done. by rewrite app_assoc.
Qed.

Lemma plain_stream register ms : forall l,
  plain l -> Forall (fun m => m_status (lm_msg m) = MAMA_MSG_STATUS_OK /\ data_type (lm_type m) = true) ms ->
  wp (processMsgs register ms) l (fun _ l' => delivers ms l l').
Proof.
  induction ms as [|m ms IH]; intros l P F; cbn [processMsgs].
  { apply wp_ret. exists []. by rewrite app_nil_r. }
  inversion F as [|? ? [F1 F2] F3]; subst. apply wp_bind. eapply wp_mono; [by apply process_plain|]. cbn beta.
  intros _ l1 (P1 & ev & E & R & Er & Rf). eapply wp_mono; [by apply IH|]. cbn beta. intros _ l2 D. by eapply delivers_cons.
Qed.

Lemma dq_stream register ms : forall l,
  mEntitlementAlreadyVerified l = true -> isDqEnabled l = true -> live (lsub l) -> mDQState (dq (lsub l)) = DQ_STATE_OK ->
  consecutive (mSeqNum (dq (lsub l))) (pairs ms) -> senders_ok (mSenderId (dq (lsub l))) (pairs ms) ->
  wp (processMsgs register ms) l (fun _ l' => delivers ms l l').
Proof.
  induction ms as [|m ms IH]; intros l Hv Hd L Hok Hc Hs; cbn [processMsgs].
  { apply wp_ret. exists []. by rewrite app_nil_r. }
  destruct Hc as ((cc & Hcc & Hseq) & Hst & Hc). cbn [fst snd] in *. apply wp_bind.
  eapply wp_mono; [apply (process_in_order register m l cc); try done; apply (Hs (lm_type m, lm_msg m)); by left|].
  cbn beta. intros _ l1 (V1 & D1 & L1 & K1 & S1 & Q1 & ev & E & R & Er & Rf).
  eapply wp_mono; [apply IH; try done|].
  - by rewrite Q1.
  - intros p Hp. rewrite S1. apply Hs. by right.
  - cbn beta. intros _ l2 D. by eapply delivers_cons.
Qed.

Lemma consecutive_data ms : forall seq,
  consecutive seq (pairs ms) ->
  Forall (fun m => m_status (lm_msg m) = MAMA_MSG_STATUS_OK /\ data_type (lm_type m) = true) ms.
Proof.
  induction ms as [|m ms IH]; intros seq; [constructor|]. cbn. intros ((cc & Hcc & _) & Hst & Hc).
  constructor; [|by eapply IH]. split; [done|]. by destruct (lm_type m).
Qed.

(** C18: on a stream in order data quality is transparent.  For an entitled, live
    subscription whose data are OK, updates that follow one another are all
    delivered to the application, once, in order and unchanged, through the
    whole path of a message with data quality on, and exactly the same messages
    are delivered with data quality off; in neither case does an error or
    quality callback run or a recap request go out. *)
Theorem dq_transparent_in_order register ms l :
  mEntitlementAlreadyVerified l = true -> isDqEnabled l = true -> live (lsub l) -> mDQState (dq (lsub l)) = DQ_STATE_OK ->
  consecutive (mSeqNum (dq (lsub l))) (pairs ms) -> senders_ok (mSenderId (dq (lsub l))) (pairs ms) ->
  wp (processMsgs register ms) l (fun _ l' => delivers ms l l') /\
  wp (processMsgs register ms) (without_dq l) (fun _ l' => delivers ms (without_dq l) l').
Proof.
  intros Hv Hd L Hok Hc Hs. split; [by apply dq_stream|]. apply plain_stream; [done|]. by eapply consecutive_data.
Qed.

(** Data quality on, but handled by no plugin: updates are dropped and nobody is
    told. *)
Lemma enabled_without_plugin_drops register msg l :
  mEntitlementAlreadyVerified l = true -> isDqEnabled l = true -> t_handleEvent (cfg (lsub l)) = false ->
  subjects (lsub l) = None -> m_status (lm_msg msg) = MAMA_MSG_STATUS_OK -> data_type (lm_type msg) = true ->
  wp (listenerMsgCallback_processMsg register true msg) l (fun _ l' => exists ev, out l' = out l ++ ev /\ silent ev).
Proof.
  intros Hv Hd Hp Hsub Hst Ht. apply process_ok; [done|done|]. intros ev Sev _. apply wp_bind, wp_on_sub.
  unfold dqstrategyMamaPlugin_subscriptionPreMsgHook, wp at 1, mbind at 1, M_bind at 1, mamaSubscription_getSubjectContext.
  cbn [lsub set_out subjects set_trace]. rewrite Hsub. unfold mbind at 1, M_bind at 1, gets. cbn [cfg set_trace]. rewrite Hp.
  cbn [negb mret M_ret trace set_trace fmap list_fmap]. apply wp_bind. unfold handle_type. apply wp_bind, wp_gets.
  cbn [isDqEnabled set_out set_lsub]. rewrite Hd.
  destruct (lm_type msg); try discriminate; apply wp_ret, wp_ret; exists ev; cbn; by rewrite app_nil_r.
Qed.

(** ** Concrete runs *)

Definition demo_listener : listener :=
  mkListener (demo_sub DQ_STATE_OK 7 0) true 0 false true false false [QueueStats; GlobalStats] MAMA_ERROR_NONE [].

Definition demo_msgs : list lmsg :=
  [mkLmsg MAMA_MSG_TYPE_UPDATE None (upd 1 8); mkLmsg MAMA_MSG_TYPE_QUOTE (Some 5) (upd 2 9); mkLmsg MAMA_MSG_TYPE_TRADE None (upd 3 10)].

Lemma dq_transparent_in_order_witness :
  wp (processMsgs (fun _ => MAMA_STATUS_OK) demo_msgs) demo_listener (fun _ l' => delivers demo_msgs demo_listener l') /\
  wp (processMsgs (fun _ => MAMA_STATUS_OK) demo_msgs) (without_dq demo_listener)
     (fun _ l' => delivers demo_msgs (without_dq demo_listener) l').
Proof.
  apply dq_transparent_in_order.
  - reflexivity.
  - reflexivity.
  - apply demo_live.
  - reflexivity.
  - cbn. split_and!; try done; exists 1; vm_compute; done.
  - intros p _. by left.
Defined.

Definition expired_msg : lmsg := mkLmsg MAMA_MSG_TYPE_EXPIRE None (upd 1 8).

Definition after_msg (m : lmsg) (l : listener) : listener :=
  match listenerMsgCallback_processMsg (fun _ => MAMA_STATUS_OK) true m l with Ok (_, l') => l' | Fail _ => l end.

Lemma message_is_data_or_error_witness :
  exists ev, out (after_msg expired_msg demo_listener) = [] ++ ev /\ errors ev = [MAMA_STATUS_EXPIRED] /\
    (is_Some (Some MAMA_STATUS_EXPIRED) -> received ev = []).
Proof.
  exact (message_is_data_or_error (fun _ => MAMA_STATUS_OK) expired_msg demo_listener MAMA_MSG_TYPE_EXPIRE
           (after_msg expired_msg demo_listener) eq_refl).
Defined.
