(* ===== verification/Subscription.v ===== *)
(** * The life cycle of a subscription (mama/c_cpp/src/c/subscription.c)

    The states a subscription goes through from its allocation to its
    deallocation, with everything they hold on to: an action waiting on the
    throttle, the subscription of the middleware bridge, a place in the
    transport's list of listeners, a count on its event queue, references.

    All subscriptions of one transport and one queue are in one [world].  The
    throttle is used through the interface [ActionQueue], which the throttle of
    throttle.c meets (SubscThrottle.v).  The middleware bridge is outside: what
    its functions answer is part of the call's [env], and a bridge subscription
    whose destruction it has accepted owes one callback, made within the call
    ([BDone], as the Qpid bridge does) or later ([BLater]).  The user's
    callbacks are recorded as [event]s; [onDestroy] may deallocate the
    subscription.  Pointers of which only the presence matters are [bool]s, an
    image request is present or not and waits for its response or not.
    [mCreateDestroyLock] counts how often the lock is held, as calls run one at
    a time here; SubscLocks.v has the interleavings. *)

From S2P Require Import Prelude MamaStatus.

(** ** What a subscription needs of the throttle *)

(** The action was run at once, there was no memory, or it waits under a handle. *)
Inductive dispatched : Type :=
| RunNow
| NoMemory
| Queued (h : Z).

(** A queue of actions: [aq_rep t l] says that [t] holds the actions [l], each a
    handle and the owner whose action it is. *)
Class ActionQueue (T : Type) : Type := {
  aq_rep : T -> list (Z * Z) -> Prop;
  aq_dispatch : Z -> M T dispatched;
  aq_remove : Z -> M T unit;
  aq_pop : M T (option Z);
  aq_dispatch_law : forall owner t l, aq_rep t l ->
    wp (aq_dispatch owner) t (fun d t' =>
      match d with
      | RunNow | NoMemory => aq_rep t' l
      | Queued h => h <> 0 /\ h ∉ l.*1 /\ aq_rep t' (l ++ [(h, owner)])
      end);
  aq_remove_law : forall h owner t l1 l2, aq_rep t (l1 ++ (h, owner) :: l2) ->
    wp (aq_remove h) t (fun _ t' => aq_rep t' (l1 ++ l2));
  aq_remove_null : forall t l, aq_rep t l -> aq_remove 0 t = Fail InvalidDeref;
  aq_pop_law : forall t l, aq_rep t l ->
    wp aq_pop t (fun r t' => r = snd <$> head l /\ aq_rep t' (tail l));
}.

Module Subscription.

(** ** Data *)

Inductive mamaSubscriptionState : Type :=
| MAMA_SUBSCRIPTION_UNKNOWN | MAMA_SUBSCRIPTION_ALLOCATED | MAMA_SUBSCRIPTION_SETUP
| MAMA_SUBSCRIPTION_ACTIVATING | MAMA_SUBSCRIPTION_ACTIVATED | MAMA_SUBSCRIPTION_DEACTIVATING
| MAMA_SUBSCRIPTION_DEACTIVATED | MAMA_SUBSCRIPTION_DESTROYING | MAMA_SUBSCRIPTION_DESTROYED
| MAMA_SUBSCRIPTION_DEALLOCATING | MAMA_SUBSCRIPTION_DEALLOCATED | MAMA_SUBSCRIPTION_REACTIVATING.

Inductive mamaSubscriptionType : Type :=
| MAMA_SUBSC_TYPE_NORMAL | MAMA_SUBSC_TYPE_GROUP | MAMA_SUBSC_TYPE_BOOK | MAMA_SUBSC_TYPE_BASIC
| MAMA_SUBSC_TYPE_DICTIONARY | MAMA_SUBSC_TYPE_SYMBOL_LIST | MAMA_SUBSC_TYPE_SYMBOL_LIST_NORMAL
| MAMA_SUBSC_TYPE_SYMBOL_LIST_GROUP | MAMA_SUBSC_TYPE_SYMBOL_LIST_BOOK.

Inductive mamaServiceLevel : Type :=
| MAMA_SERVICE_LEVEL_REAL_TIME | MAMA_SERVICE_LEVEL_SNAPSHOT | MAMA_SERVICE_LEVEL_REPEATING_SNAPSHOT
| MAMA_SERVICE_LEVEL_CONFLATED | MAMA_SERVICE_LEVEL_UNKNOWN.

(** The messages a subscription is opened with. *)
Inductive mamaSubscMsgType : Type :=
| MAMA_SUBSC_SUBSCRIBE | MAMA_SUBSC_SNAPSHOT | MAMA_SUBSC_DDICT_SNAPSHOT.

Inductive wildCardType : Type := wc_none | wc_transport | wc_wildcard.

(** The user's [onDestroy]: NULL, a function that only logs or records, or one
    that calls [mamaSubscription_deallocate]. *)
Inductive destroyCb : Type := CbNull | CbRecords | CbDeallocates.

#[export] Instance state_eq_dec : EqDecision mamaSubscriptionState.
Proof. solve_decision. Defined.
#[export] Instance type_eq_dec : EqDecision mamaSubscriptionType.
Proof. solve_decision. Defined.
#[export] Instance destroyCb_eq_dec : EqDecision destroyCb.
Proof. solve_decision. Defined.

Inductive event : Type :=
| OnCreate (s : Z)
| OnDestroy (s : Z).

#[export] Instance event_eq_dec : EqDecision event.
Proof. solve_decision. Defined.

(** The snapshot requests, which need no bridge. *)
Definition snapshot (t : mamaSubscMsgType) : bool :=
  match t with MAMA_SUBSC_SUBSCRIBE => false | _ => true end.

Definition basic (t : mamaSubscriptionType) : bool :=
  match t with MAMA_SUBSC_TYPE_BASIC => true | _ => false end.

(** [mInitialRequest] and [mRecapRequest] are the image requests with their
    [mWaitingForResponse]; [mDqRecap] says that the recap request was handed to
    [mSubjectContext.mDqContext]; [mEntitlement], [mSymbol] are the context's
    members, [mSubscSource] and [mSubscSymbol] stand for the strings of
    [setSubscInfo]. *)
Record mamaSubscriptionImpl : Type := mkSub {
  mType : mamaSubscriptionType;
  mServiceLevel : mamaServiceLevel;
  mSubscMsgType : mamaSubscMsgType;
  mRequiresInitial : bool;
  mAcceptMultipleInitials : bool;
  mExpectingInitial : bool;
  mGroupSizeHint : Z;
  mWildCardType : wildCardType;
  mTransport : bool;
  mQueue : bool;
  mBridgeImpl : bool;
  mSubscBridge : Z;
  mSubscHandle : Z;
  mAction : Z;
  onCreate : bool;
  onDestroy : destroyCb;
  mSubscPublisher : bool;
  mInitialRequest : option bool;
  mRecapRequest : option bool;
  mDqRecap : bool;
  mCallback : bool;
  mSubjects : bool;
  mEntitlement : bool;
  mSymbol : bool;
  mSubscSource : bool;
  mSubscSymbol : bool;
  mState : mamaSubscriptionState;
  mReferenceCount : Z;
  mCreateDestroyLock : Z;
}.

Definition set_mType (v : mamaSubscriptionType) (i : mamaSubscriptionImpl) : mamaSubscriptionImpl :=
  mkSub v (mServiceLevel i) (mSubscMsgType i) (mRequiresInitial i) (mAcceptMultipleInitials i) (mExpectingInitial i) (mGroupSizeHint i) (mWildCardType i) (mTransport i) (mQueue i) (mBridgeImpl i) (mSubscBridge i) (mSubscHandle i) (mAction i) (onCreate i) (onDestroy i) (mSubscPublisher i) (mInitialRequest i) (mRecapRequest i) (mDqRecap i) (mCallback i) (mSubjects i) (mEntitlement i) (mSymbol i) (mSubscSource i) (mSubscSymbol i) (mState i) (mReferenceCount i) (mCreateDestroyLock i).
Definition set_mServiceLevel (v : mamaServiceLevel) (i : mamaSubscriptionImpl) : mamaSubscriptionImpl :=
  mkSub (mType i) v (mSubscMsgType i) (mRequiresInitial i) (mAcceptMultipleInitials i) (mExpectingInitial i) (mGroupSizeHint i) (mWildCardType i) (mTransport i) (mQueue i) (mBridgeImpl i) (mSubscBridge i) (mSubscHandle i) (mAction i) (onCreate i) (onDestroy i) (mSubscPublisher i) (mInitialRequest i) (mRecapRequest i) (mDqRecap i) (mCallback i) (mSubjects i) (mEntitlement i) (mSymbol i) (mSubscSource i) (mSubscSymbol i) (mState i) (mReferenceCount i) (mCreateDestroyLock i).
Definition set_mSubscMsgType (v : mamaSubscMsgType) (i : mamaSubscriptionImpl) : mamaSubscriptionImpl :=
  mkSub (mType i) (mServiceLevel i) v (mRequiresInitial i) (mAcceptMultipleInitials i) (mExpectingInitial i) (mGroupSizeHint i) (mWildCardType i) (mTransport i) (mQueue i) (mBridgeImpl i) (mSubscBridge i) (mSubscHandle i) (mAction i) (onCreate i) (onDestroy i) (mSubscPublisher i) (mInitialRequest i) (mRecapRequest i) (mDqRecap i) (mCallback i) (mSubjects i) (mEntitlement i) (mSymbol i) (mSubscSource i) (mSubscSymbol i) (mState i) (mReferenceCount i) (mCreateDestroyLock i).
Definition set_mRequiresInitial (v : bool) (i : mamaSubscriptionImpl) : mamaSubscriptionImpl :=
  mkSub (mType i) (mServiceLevel i) (mSubscMsgType i) v (mAcceptMultipleInitials i) (mExpectingInitial i) (mGroupSizeHint i) (mWildCardType i) (mTransport i) (mQueue i) (mBridgeImpl i) (mSubscBridge i) (mSubscHandle i) (mAction i) (onCreate i) (onDestroy i) (mSubscPublisher i) (mInitialRequest i) (mRecapRequest i) (mDqRecap i) (mCallback i) (mSubjects i) (mEntitlement i) (mSymbol i) (mSubscSource i) (mSubscSymbol i) (mState i) (mReferenceCount i) (mCreateDestroyLock i).
Definition set_mAcceptMultipleInitials (v : bool) (i : mamaSubscriptionImpl) : mamaSubscriptionImpl :=
  mkSub (mType i) (mServiceLevel i) (mSubscMsgType i) (mRequiresInitial i) v (mExpectingInitial i) (mGroupSizeHint i) (mWildCardType i) (mTransport i) (mQueue i) (mBridgeImpl i) (mSubscBridge i) (mSubscHandle i) (mAction i) (onCreate i) (onDestroy i) (mSubscPublisher i) (mInitialRequest i) (mRecapRequest i) (mDqRecap i) (mCallback i) (mSubjects i) (mEntitlement i) (mSymbol i) (mSubscSource i) (mSubscSymbol i) (mState i) (mReferenceCount i) (mCreateDestroyLock i).
Definition set_mExpectingInitial (v : bool) (i : mamaSubscriptionImpl) : mamaSubscriptionImpl :=
  mkSub (mType i) (mServiceLevel i) (mSubscMsgType i) (mRequiresInitial i) (mAcceptMultipleInitials i) v (mGroupSizeHint i) (mWildCardType i) (mTransport i) (mQueue i) (mBridgeImpl i) (mSubscBridge i) (mSubscHandle i) (mAction i) (onCreate i) (onDestroy i) (mSubscPublisher i) (mInitialRequest i) (mRecapRequest i) (mDqRecap i) (mCallback i) (mSubjects i) (mEntitlement i) (mSymbol i) (mSubscSource i) (mSubscSymbol i) (mState i) (mReferenceCount i) (mCreateDestroyLock i).
Definition set_mGroupSizeHint (v : Z) (i : mamaSubscriptionImpl) : mamaSubscriptionImpl :=
  mkSub (mType i) (mServiceLevel i) (mSubscMsgType i) (mRequiresInitial i) (mAcceptMultipleInitials i) (mExpectingInitial i) v (mWildCardType i) (mTransport i) (mQueue i) (mBridgeImpl i) (mSubscBridge i) (mSubscHandle i) (mAction i) (onCreate i) (onDestroy i) (mSubscPublisher i) (mInitialRequest i) (mRecapRequest i) (mDqRecap i) (mCallback i) (mSubjects i) (mEntitlement i) (mSymbol i) (mSubscSource i) (mSubscSymbol i) (mState i) (mReferenceCount i) (mCreateDestroyLock i).
Definition set_mWildCardType (v : wildCardType) (i : mamaSubscriptionImpl) : mamaSubscriptionImpl :=
  mkSub (mType i) (mServiceLevel i) (mSubscMsgType i) (mRequiresInitial i) (mAcceptMultipleInitials i) (mExpectingInitial i) (mGroupSizeHint i) v (mTransport i) (mQueue i) (mBridgeImpl i) (mSubscBridge i) (mSubscHandle i) (mAction i) (onCreate i) (onDestroy i) (mSubscPublisher i) (mInitialRequest i) (mRecapRequest i) (mDqRecap i) (mCallback i) (mSubjects i) (mEntitlement i) (mSymbol i) (mSubscSource i) (mSubscSymbol i) (mState i) (mReferenceCount i) (mCreateDestroyLock i).
Definition set_mTransport (v : bool) (i : mamaSubscriptionImpl) : mamaSubscriptionImpl :=
  mkSub (mType i) (mServiceLevel i) (mSubscMsgType i) (mRequiresInitial i) (mAcceptMultipleInitials i) (mExpectingInitial i) (mGroupSizeHint i) (mWildCardType i) v (mQueue i) (mBridgeImpl i) (mSubscBridge i) (mSubscHandle i) (mAction i) (onCreate i) (onDestroy i) (mSubscPublisher i) (mInitialRequest i) (mRecapRequest i) (mDqRecap i) (mCallback i) (mSubjects i) (mEntitlement i) (mSymbol i) (mSubscSource i) (mSubscSymbol i) (mState i) (mReferenceCount i) (mCreateDestroyLock i).
Definition set_mQueue (v : bool) (i : mamaSubscriptionImpl) : mamaSubscriptionImpl :=
  mkSub (mType i) (mServiceLevel i) (mSubscMsgType i) (mRequiresInitial i) (mAcceptMultipleInitials i) (mExpectingInitial i) (mGroupSizeHint i) (mWildCardType i) (mTransport i) v (mBridgeImpl i) (mSubscBridge i) (mSubscHandle i) (mAction i) (onCreate i) (onDestroy i) (mSubscPublisher i) (mInitialRequest i) (mRecapRequest i) (mDqRecap i) (mCallback i) (mSubjects i) (mEntitlement i) (mSymbol i) (mSubscSource i) (mSubscSymbol i) (mState i) (mReferenceCount i) (mCreateDestroyLock i).
Definition set_mBridgeImpl (v : bool) (i : mamaSubscriptionImpl) : mamaSubscriptionImpl :=
  mkSub (mType i) (mServiceLevel i) (mSubscMsgType i) (mRequiresInitial i) (mAcceptMultipleInitials i) (mExpectingInitial i) (mGroupSizeHint i) (mWildCardType i) (mTransport i) (mQueue i) v (mSubscBridge i) (mSubscHandle i) (mAction i) (onCreate i) (onDestroy i) (mSubscPublisher i) (mInitialRequest i) (mRecapRequest i) (mDqRecap i) (mCallback i) (mSubjects i) (mEntitlement i) (mSymbol i) (mSubscSource i) (mSubscSymbol i) (mState i) (mReferenceCount i) (mCreateDestroyLock i).
Definition set_mSubscBridge (v : Z) (i : mamaSubscriptionImpl) : mamaSubscriptionImpl :=
  mkSub (mType i) (mServiceLevel i) (mSubscMsgType i) (mRequiresInitial i) (mAcceptMultipleInitials i) (mExpectingInitial i) (mGroupSizeHint i) (mWildCardType i) (mTransport i) (mQueue i) (mBridgeImpl i) v (mSubscHandle i) (mAction i) (onCreate i) (onDestroy i) (mSubscPublisher i) (mInitialRequest i) (mRecapRequest i) (mDqRecap i) (mCallback i) (mSubjects i) (mEntitlement i) (mSymbol i) (mSubscSource i) (mSubscSymbol i) (mState i) (mReferenceCount i) (mCreateDestroyLock i).
Definition set_mSubscHandle (v : Z) (i : mamaSubscriptionImpl) : mamaSubscriptionImpl :=
  mkSub (mType i) (mServiceLevel i) (mSubscMsgType i) (mRequiresInitial i) (mAcceptMultipleInitials i) (mExpectingInitial i) (mGroupSizeHint i) (mWildCardType i) (mTransport i) (mQueue i) (mBridgeImpl i) (mSubscBridge i) v (mAction i) (onCreate i) (onDestroy i) (mSubscPublisher i) (mInitialRequest i) (mRecapRequest i) (mDqRecap i) (mCallback i) (mSubjects i) (mEntitlement i) (mSymbol i) (mSubscSource i) (mSubscSymbol i) (mState i) (mReferenceCount i) (mCreateDestroyLock i).
Definition set_mAction (v : Z) (i : mamaSubscriptionImpl) : mamaSubscriptionImpl :=
  mkSub (mType i) (mServiceLevel i) (mSubscMsgType i) (mRequiresInitial i) (mAcceptMultipleInitials i) (mExpectingInitial i) (mGroupSizeHint i) (mWildCardType i) (mTransport i) (mQueue i) (mBridgeImpl i) (mSubscBridge i) (mSubscHandle i) v (onCreate i) (onDestroy i) (mSubscPublisher i) (mInitialRequest i) (mRecapRequest i) (mDqRecap i) (mCallback i) (mSubjects i) (mEntitlement i) (mSymbol i) (mSubscSource i) (mSubscSymbol i) (mState i) (mReferenceCount i) (mCreateDestroyLock i).
Definition set_onCreate (v : bool) (i : mamaSubscriptionImpl) : mamaSubscriptionImpl :=
  mkSub (mType i) (mServiceLevel i) (mSubscMsgType i) (mRequiresInitial i) (mAcceptMultipleInitials i) (mExpectingInitial i) (mGroupSizeHint i) (mWildCardType i) (mTransport i) (mQueue i) (mBridgeImpl i) (mSubscBridge i) (mSubscHandle i) (mAction i) v (onDestroy i) (mSubscPublisher i) (mInitialRequest i) (mRecapRequest i) (mDqRecap i) (mCallback i) (mSubjects i) (mEntitlement i) (mSymbol i) (mSubscSource i) (mSubscSymbol i) (mState i) (mReferenceCount i) (mCreateDestroyLock i).
Definition set_onDestroy (v : destroyCb) (i : mamaSubscriptionImpl) : mamaSubscriptionImpl :=
  mkSub (mType i) (mServiceLevel i) (mSubscMsgType i) (mRequiresInitial i) (mAcceptMultipleInitials i) (mExpectingInitial i) (mGroupSizeHint i) (mWildCardType i) (mTransport i) (mQueue i) (mBridgeImpl i) (mSubscBridge i) (mSubscHandle i) (mAction i) (onCreate i) v (mSubscPublisher i) (mInitialRequest i) (mRecapRequest i) (mDqRecap i) (mCallback i) (mSubjects i) (mEntitlement i) (mSymbol i) (mSubscSource i) (mSubscSymbol i) (mState i) (mReferenceCount i) (mCreateDestroyLock i).
Definition set_mSubscPublisher (v : bool) (i : mamaSubscriptionImpl) : mamaSubscriptionImpl :=
  mkSub (mType i) (mServiceLevel i) (mSubscMsgType i) (mRequiresInitial i) (mAcceptMultipleInitials i) (mExpectingInitial i) (mGroupSizeHint i) (mWildCardType i) (mTransport i) (mQueue i) (mBridgeImpl i) (mSubscBridge i) (mSubscHandle i) (mAction i) (onCreate i) (onDestroy i) v (mInitialRequest i) (mRecapRequest i) (mDqRecap i) (mCallback i) (mSubjects i) (mEntitlement i) (mSymbol i) (mSubscSource i) (mSubscSymbol i) (mState i) (mReferenceCount i) (mCreateDestroyLock i).
Definition set_mInitialRequest (v : option bool) (i : mamaSubscriptionImpl) : mamaSubscriptionImpl :=
  mkSub (mType i) (mServiceLevel i) (mSubscMsgType i) (mRequiresInitial i) (mAcceptMultipleInitials i) (mExpectingInitial i) (mGroupSizeHint i) (mWildCardType i) (mTransport i) (mQueue i) (mBridgeImpl i) (mSubscBridge i) (mSubscHandle i) (mAction i) (onCreate i) (onDestroy i) (mSubscPublisher i) v (mRecapRequest i) (mDqRecap i) (mCallback i) (mSubjects i) (mEntitlement i) (mSymbol i) (mSubscSource i) (mSubscSymbol i) (mState i) (mReferenceCount i) (mCreateDestroyLock i).
Definition set_mRecapRequest (v : option bool) (i : mamaSubscriptionImpl) : mamaSubscriptionImpl :=
  mkSub (mType i) (mServiceLevel i) (mSubscMsgType i) (mRequiresInitial i) (mAcceptMultipleInitials i) (mExpectingInitial i) (mGroupSizeHint i) (mWildCardType i) (mTransport i) (mQueue i) (mBridgeImpl i) (mSubscBridge i) (mSubscHandle i) (mAction i) (onCreate i) (onDestroy i) (mSubscPublisher i) (mInitialRequest i) v (mDqRecap i) (mCallback i) (mSubjects i) (mEntitlement i) (mSymbol i) (mSubscSource i) (mSubscSymbol i) (mState i) (mReferenceCount i) (mCreateDestroyLock i).
Definition set_mDqRecap (v : bool) (i : mamaSubscriptionImpl) : mamaSubscriptionImpl :=
  mkSub (mType i) (mServiceLevel i) (mSubscMsgType i) (mRequiresInitial i) (mAcceptMultipleInitials i) (mExpectingInitial i) (mGroupSizeHint i) (mWildCardType i) (mTransport i) (mQueue i) (mBridgeImpl i) (mSubscBridge i) (mSubscHandle i) (mAction i) (onCreate i) (onDestroy i) (mSubscPublisher i) (mInitialRequest i) (mRecapRequest i) v (mCallback i) (mSubjects i) (mEntitlement i) (mSymbol i) (mSubscSource i) (mSubscSymbol i) (mState i) (mReferenceCount i) (mCreateDestroyLock i).
Definition set_mCallback (v : bool) (i : mamaSubscriptionImpl) : mamaSubscriptionImpl :=
  mkSub (mType i) (mServiceLevel i) (mSubscMsgType i) (mRequiresInitial i) (mAcceptMultipleInitials i) (mExpectingInitial i) (mGroupSizeHint i) (mWildCardType i) (mTransport i) (mQueue i) (mBridgeImpl i) (mSubscBridge i) (mSubscHandle i) (mAction i) (onCreate i) (onDestroy i) (mSubscPublisher i) (mInitialRequest i) (mRecapRequest i) (mDqRecap i) v (mSubjects i) (mEntitlement i) (mSymbol i) (mSubscSource i) (mSubscSymbol i) (mState i) (mReferenceCount i) (mCreateDestroyLock i).
Definition set_mSubjects (v : bool) (i : mamaSubscriptionImpl) : mamaSubscriptionImpl :=
  mkSub (mType i) (mServiceLevel i) (mSubscMsgType i) (mRequiresInitial i) (mAcceptMultipleInitials i) (mExpectingInitial i) (mGroupSizeHint i) (mWildCardType i) (mTransport i) (mQueue i) (mBridgeImpl i) (mSubscBridge i) (mSubscHandle i) (mAction i) (onCreate i) (onDestroy i) (mSubscPublisher i) (mInitialRequest i) (mRecapRequest i) (mDqRecap i) (mCallback i) v (mEntitlement i) (mSymbol i) (mSubscSource i) (mSubscSymbol i) (mState i) (mReferenceCount i) (mCreateDestroyLock i).
Definition set_mEntitlement (v : bool) (i : mamaSubscriptionImpl) : mamaSubscriptionImpl :=
  mkSub (mType i) (mServiceLevel i) (mSubscMsgType i) (mRequiresInitial i) (mAcceptMultipleInitials i) (mExpectingInitial i) (mGroupSizeHint i) (mWildCardType i) (mTransport i) (mQueue i) (mBridgeImpl i) (mSubscBridge i) (mSubscHandle i) (mAction i) (onCreate i) (onDestroy i) (mSubscPublisher i) (mInitialRequest i) (mRecapRequest i) (mDqRecap i) (mCallback i) (mSubjects i) v (mSymbol i) (mSubscSource i) (mSubscSymbol i) (mState i) (mReferenceCount i) (mCreateDestroyLock i).
Definition set_mSymbol (v : bool) (i : mamaSubscriptionImpl) : mamaSubscriptionImpl :=
  mkSub (mType i) (mServiceLevel i) (mSubscMsgType i) (mRequiresInitial i) (mAcceptMultipleInitials i) (mExpectingInitial i) (mGroupSizeHint i) (mWildCardType i) (mTransport i) (mQueue i) (mBridgeImpl i) (mSubscBridge i) (mSubscHandle i) (mAction i) (onCreate i) (onDestroy i) (mSubscPublisher i) (mInitialRequest i) (mRecapRequest i) (mDqRecap i) (mCallback i) (mSubjects i) (mEntitlement i) v (mSubscSource i) (mSubscSymbol i) (mState i) (mReferenceCount i) (mCreateDestroyLock i).
Definition set_mSubscSource (v : bool) (i : mamaSubscriptionImpl) : mamaSubscriptionImpl :=
  mkSub (mType i) (mServiceLevel i) (mSubscMsgType i) (mRequiresInitial i) (mAcceptMultipleInitials i) (mExpectingInitial i) (mGroupSizeHint i) (mWildCardType i) (mTransport i) (mQueue i) (mBridgeImpl i) (mSubscBridge i) (mSubscHandle i) (mAction i) (onCreate i) (onDestroy i) (mSubscPublisher i) (mInitialRequest i) (mRecapRequest i) (mDqRecap i) (mCallback i) (mSubjects i) (mEntitlement i) (mSymbol i) v (mSubscSymbol i) (mState i) (mReferenceCount i) (mCreateDestroyLock i).
Definition set_mSubscSymbol (v : bool) (i : mamaSubscriptionImpl) : mamaSubscriptionImpl :=
  mkSub (mType i) (mServiceLevel i) (mSubscMsgType i) (mRequiresInitial i) (mAcceptMultipleInitials i) (mExpectingInitial i) (mGroupSizeHint i) (mWildCardType i) (mTransport i) (mQueue i) (mBridgeImpl i) (mSubscBridge i) (mSubscHandle i) (mAction i) (onCreate i) (onDestroy i) (mSubscPublisher i) (mInitialRequest i) (mRecapRequest i) (mDqRecap i) (mCallback i) (mSubjects i) (mEntitlement i) (mSymbol i) (mSubscSource i) v (mState i) (mReferenceCount i) (mCreateDestroyLock i).
Definition set_mState (v : mamaSubscriptionState) (i : mamaSubscriptionImpl) : mamaSubscriptionImpl :=
  mkSub (mType i) (mServiceLevel i) (mSubscMsgType i) (mRequiresInitial i) (mAcceptMultipleInitials i) (mExpectingInitial i) (mGroupSizeHint i) (mWildCardType i) (mTransport i) (mQueue i) (mBridgeImpl i) (mSubscBridge i) (mSubscHandle i) (mAction i) (onCreate i) (onDestroy i) (mSubscPublisher i) (mInitialRequest i) (mRecapRequest i) (mDqRecap i) (mCallback i) (mSubjects i) (mEntitlement i) (mSymbol i) (mSubscSource i) (mSubscSymbol i) v (mReferenceCount i) (mCreateDestroyLock i).
Definition set_mReferenceCount (v : Z) (i : mamaSubscriptionImpl) : mamaSubscriptionImpl :=
  mkSub (mType i) (mServiceLevel i) (mSubscMsgType i) (mRequiresInitial i) (mAcceptMultipleInitials i) (mExpectingInitial i) (mGroupSizeHint i) (mWildCardType i) (mTransport i) (mQueue i) (mBridgeImpl i) (mSubscBridge i) (mSubscHandle i) (mAction i) (onCreate i) (onDestroy i) (mSubscPublisher i) (mInitialRequest i) (mRecapRequest i) (mDqRecap i) (mCallback i) (mSubjects i) (mEntitlement i) (mSymbol i) (mSubscSource i) (mSubscSymbol i) (mState i) v (mCreateDestroyLock i).
Definition set_mCreateDestroyLock (v : Z) (i : mamaSubscriptionImpl) : mamaSubscriptionImpl :=
  mkSub (mType i) (mServiceLevel i) (mSubscMsgType i) (mRequiresInitial i) (mAcceptMultipleInitials i) (mExpectingInitial i) (mGroupSizeHint i) (mWildCardType i) (mTransport i) (mQueue i) (mBridgeImpl i) (mSubscBridge i) (mSubscHandle i) (mAction i) (onCreate i) (onDestroy i) (mSubscPublisher i) (mInitialRequest i) (mRecapRequest i) (mDqRecap i) (mCallback i) (mSubjects i) (mEntitlement i) (mSymbol i) (mSubscSource i) (mSubscSymbol i) (mState i) (mReferenceCount i) v.

(** What code outside the modelled part answers during one call. *)
Inductive bridge_destroy : Type :=
| BDone
| BLater
| BFail.

Record env : Type := mkEnv {
  e_bridgeCreate : mama_status;
  e_bridgeDestroy : bridge_destroy;
  e_hasWildcards : bool;
  e_listenerMem : bool;
}.

(** The arguments of the set-up and the answers of the code it calls: whether
    the pointers are not NULL, the user's callbacks ([None] for wild cards), and
    the status of each creation. *)
Record setup_args : Type := mkSetup {
  a_transport : bool;
  a_queue : bool;
  a_bridgeImpl : bool;
  a_deferred : bool;
  a_entitlementBridge : bool;
  a_isAllowed : bool;
  a_callbacks : option destroyCb;
  a_source : bool;
  a_symbol : bool;
  a_groupSizeHint : Z;
  a_publisher : mama_status;
  a_initialRequest : mama_status;
  a_recapRequest : mama_status;
  a_listener : mama_status;
  a_plugin : mama_status;
}.

Section subscription.

Context {T : Type} `{ActionQueue T}.

(** [bridges]: the live bridge subscriptions with the subscription they call
    back and whether their destruction is under way; [listeners]: the transport's
    handles; [brk]: the next address. *)
Record world : Type := mkWorld {
  subs : gmap Z mamaSubscriptionImpl;
  throttle : T;
  bridges : gmap Z (Z * bool);
  listeners : gmap Z Z;
  mNumberOpenObjects : Z;
  brk : Z;
  events : list event;
}.

Definition set_subs (v : gmap Z mamaSubscriptionImpl) (w : world) : world :=
  mkWorld v (throttle w) (bridges w) (listeners w) (mNumberOpenObjects w) (brk w) (events w).
Definition set_throttle (v : T) (w : world) : world :=
  mkWorld (subs w) v (bridges w) (listeners w) (mNumberOpenObjects w) (brk w) (events w).
Definition set_bridges (v : gmap Z (Z * bool)) (w : world) : world :=
  mkWorld (subs w) (throttle w) v (listeners w) (mNumberOpenObjects w) (brk w) (events w).
Definition set_listeners (v : gmap Z Z) (w : world) : world :=
  mkWorld (subs w) (throttle w) (bridges w) v (mNumberOpenObjects w) (brk w) (events w).
Definition set_mNumberOpenObjects (v : Z) (w : world) : world :=
  mkWorld (subs w) (throttle w) (bridges w) (listeners w) v (brk w) (events w).
Definition set_brk (v : Z) (w : world) : world :=
  mkWorld (subs w) (throttle w) (bridges w) (listeners w) (mNumberOpenObjects w) v (events w).
Definition set_events (v : list event) (w : world) : world :=
  mkWorld (subs w) (throttle w) (bridges w) (listeners w) (mNumberOpenObjects w) (brk w) v.

Abbreviation SM := (M world).

Definition ld (s : Z) : SM mamaSubscriptionImpl := fun w =>
  match subs w !! s with Some i => Ok (i, w) | None => Fail InvalidDeref end.

Definition upd (s : Z) (f : mamaSubscriptionImpl -> mamaSubscriptionImpl) : SM unit :=
  i ← ld s;
  modify (fun w => set_subs (<[s := f i]> (subs w)) w).

Definition on_throttle {A} (m : M T A) : SM A := fun w =>
  match m (throttle w) with
  | Ok (a, t) => Ok (a, set_throttle t w)
  | Fail f => Fail f
  end.

Definition say (e : event) : SM unit := modify (fun w => set_events (events w ++ [e]) w).

Definition fresh : SM Z :=
  b ← gets brk;
  modify (fun w => set_brk (b + 1) w) ;;
  mret b.

Definition wlock_lock (s : Z) : SM unit := upd s (fun i => set_mCreateDestroyLock (mCreateDestroyLock i + 1) i).
Definition wlock_unlock (s : Z) : SM unit := upd s (fun i => set_mCreateDestroyLock (mCreateDestroyLock i - 1) i).

(** The counters are 32-bit. *)
Definition mamaQueue_incrementObjectCount : SM unit :=
  modify (fun w => set_mNumberOpenObjects (i32 (mNumberOpenObjects w + 1)) w).
Definition mamaQueue_decrementObjectCount : SM unit :=
  modify (fun w => set_mNumberOpenObjects (i32 (mNumberOpenObjects w - 1)) w).
Definition wInterlocked_increment (s : Z) : SM unit := upd s (fun i => set_mReferenceCount (i32 (mReferenceCount i + 1)) i).
Definition wInterlocked_decrement (s : Z) : SM unit := upd s (fun i => set_mReferenceCount (i32 (mReferenceCount i - 1)) i).

Definition mamaSubscriptionImpl_setState (s : Z) (st : mamaSubscriptionState) : SM unit := upd s (set_mState st).

Definition mamaSubscriptionImpl_registerReference (s : Z) : SM unit := wInterlocked_increment s.

(** ** Allocation *)

Definition allocated : mamaSubscriptionImpl :=
  mkSub MAMA_SUBSC_TYPE_NORMAL MAMA_SERVICE_LEVEL_REAL_TIME MAMA_SUBSC_SUBSCRIBE true false false 0 wc_none
    false false false 0 0 0 false CbNull false None None false false false false false false false
    MAMA_SUBSCRIPTION_ALLOCATED 0 0.

Definition mamaSubscription_allocate (mem : bool) : SM (mama_status * Z) :=
  if mem then
    s ← fresh;
    modify (fun w => set_subs (<[s := allocated]> (subs w)) w) ;;
    mret (MAMA_STATUS_OK, s)
  else mret (MAMA_STATUS_NOMEM, 0).

(** ** Deallocation *)

Definition free_sub (s : Z) : SM unit :=
  mamaSubscriptionImpl_setState s MAMA_SUBSCRIPTION_DEALLOCATED ;;
  modify (fun w => set_subs (delete s (subs w)) w).

(** With references left the deallocation is put off. *)
Definition mamaSubscriptionImpl_deallocate (s : Z) : SM unit :=
  i ← ld s;
  if mReferenceCount i =? 0 then free_sub s
  else
    wInterlocked_decrement s ;;
    i ← ld s;
    if 0 <? mReferenceCount i then mret tt else free_sub s.

(** The lock is not released when the subscription is deallocated. *)
Definition mamaSubscription_deallocate (s : Z) : SM mama_status :=
  if s =? 0 then mret MAMA_STATUS_NULL_ARG
  else
    wlock_lock s ;;
    i ← ld s;
    match mState i with
    | MAMA_SUBSCRIPTION_DESTROYING =>
        mamaSubscriptionImpl_setState s MAMA_SUBSCRIPTION_DEALLOCATING ;;
        wlock_unlock s ;;
        mret MAMA_STATUS_OK
    | MAMA_SUBSCRIPTION_ALLOCATED | MAMA_SUBSCRIPTION_DESTROYED =>
        mamaSubscriptionImpl_deallocate s ;;
        mret MAMA_STATUS_OK
    | _ =>
        wlock_unlock s ;;
        mret MAMA_STATUS_SUBSCRIPTION_INVALID_STATE
    end.

Definition mamaSubscriptionImpl_invokeDestroyedCallback (s : Z) : SM unit :=
  i ← ld s;
  match onDestroy i with
  | CbNull => mret tt
  | CbRecords => say (OnDestroy s)
  | CbDeallocates => say (OnDestroy s) ;; mamaSubscription_deallocate s ;; mret tt
  end.

(** [mUserCallbacks.onCreate] is called without a test for NULL. *)
Definition call_onCreate (s : Z) : SM unit :=
  i ← ld s;
  if onCreate i then say (OnCreate s) else fail InvalidDeref.

(** The transport, publisher, image requests and message callback are dropped;
    the recap request is destroyed here or by the context it was handed to. *)
Definition cleaned (i : mamaSubscriptionImpl) : mamaSubscriptionImpl :=
  let i := set_mTransport false i in
  let i := set_mSubscPublisher false i in
  let i := set_mInitialRequest None i in
  let i := if mDqRecap i then i else set_mRecapRequest None i in
  let i := set_mCallback false i in
  let i := if mSubjects i then set_mSubjects false i else set_mEntitlement false i in
  let i := set_mDqRecap false i in
  let i := set_mRecapRequest None i in
  set_mSymbol false i.

Definition mamaSubscription_cleanup (s : Z) : SM unit := upd s cleaned.

(** ** Activation *)

Definition mamaTransport_addSubscription (e : env) (s : Z) : SM mama_status :=
  i ← ld s;
  if negb (mTransport i) then fail InvalidDeref
  else if e_listenerMem e then
    h ← fresh;
    modify (fun w => set_listeners (<[h := s]> (listeners w)) w) ;;
    upd s (set_mSubscHandle h) ;;
    mret MAMA_STATUS_OK
  else mret MAMA_STATUS_NOMEM.

(** A handle that was given back belongs to the list's free elements. *)
Definition mamaTransport_removeListener (handle : Z) : SM unit :=
  if handle =? 0 then mret tt
  else
    l ← gets listeners;
    match l !! handle with
    | Some _ => modify (fun w => set_listeners (delete handle (listeners w)) w)
    | None => fail InvalidDeref
    end.

(** [bridgeMamaSubscriptionCreate], of either kind: a new bridge subscription on
    success. *)
Definition bridge_create (e : env) (s : Z) : SM mama_status :=
  (if status_ok (e_bridgeCreate e) then
     b ← fresh;
     modify (fun w => set_bridges (<[b := (s, false)]> (bridges w)) w) ;;
     upd s (set_mSubscBridge b)
   else mret tt) ;;
  mret (e_bridgeCreate e).

Definition imageRequest_sendRequest (s : Z) : SM unit :=
  i ← ld s;
  match mInitialRequest i with
  | Some _ => upd s (set_mInitialRequest (Some true))
  | None => fail InvalidDeref
  end.

(** When the bridge creates nothing this is only logged.  Where no initial is
    required a subscribe message may be sent instead, which changes nothing
    here. *)
Definition mamaSubscription_initialize (e : env) (s : Z) : SM unit :=
  i ← ld s;
  (if snapshot (mSubscMsgType i) then mret tt
   else
     status ← bridge_create e s;
     if status_ok status then wInterlocked_increment s else mret tt) ;;
  (if mRequiresInitial i then
     upd s (set_mExpectingInitial true) ;;
     imageRequest_sendRequest s
   else mret tt) ;;
  i ← ld s;
  (if mBridgeImpl i && (e_hasWildcards e || bool_decide (mType i = MAMA_SUBSC_TYPE_GROUP))
   then upd s (set_mSubjects true) else mret tt) ;;
  mamaQueue_incrementObjectCount.

(** The state may have changed while the throttle waited for the lock.  The
    user's [onCreate] is called whatever happened. *)
Definition mamaSubscriptionImpl_completeMarketDataInitialisation (e : env) (s : Z) : SM mama_status :=
  if s =? 0 then mret MAMA_STATUS_NULL_ARG
  else
    wlock_lock s ;;
    upd s (set_mAction 0) ;;
    i ← ld s;
    ret ← (if bool_decide (mState i = MAMA_SUBSCRIPTION_ACTIVATING) then
             ret ← (if snapshot (mSubscMsgType i) then mret MAMA_STATUS_OK else mamaTransport_addSubscription e s);
             (if status_ok ret then
                mamaSubscription_initialize e s ;;
                mamaSubscriptionImpl_setState s MAMA_SUBSCRIPTION_ACTIVATED
              else mret tt) ;;
             mret ret
           else mret MAMA_STATUS_OK);
    wlock_unlock s ;;
    call_onCreate s ;;
    mret ret.

(** The callback of the throttle. *)
Definition createAction (e : env) (s : Z) : SM unit :=
  mamaSubscriptionImpl_completeMarketDataInitialisation e s ;;
  mret tt.

(** [dqContext_initializeContext] takes the recap request over. *)
Definition mamaSubscription_activate_internal (e : env) (s : Z) : SM mama_status :=
  i ← ld s;
  if negb (mTransport i) then mret MAMA_STATUS_INVALID_ARG
  else
    upd s (set_mDqRecap (match mRecapRequest i with Some _ => true | None => false end)) ;;
    d ← on_throttle (aq_dispatch s);
    match d with
    | RunNow => createAction e s ;; mret MAMA_STATUS_OK
    | NoMemory => mret MAMA_STATUS_NOMEM
    | Queued h => upd s (set_mAction h) ;; mret MAMA_STATUS_OK
    end.

Definition mamaSubscription_activate (e : env) (s : Z) : SM mama_status :=
  if s =? 0 then mret MAMA_STATUS_NULL_ARG
  else
    wlock_lock s ;;
    i ← ld s;
    ret ← (if basic (mType i) then mret MAMA_STATUS_SUBSCRIPTION_INVALID_TYPE
           else
             match mState i with
             | MAMA_SUBSCRIPTION_DEACTIVATED | MAMA_SUBSCRIPTION_SETUP =>
                 mamaSubscriptionImpl_setState s MAMA_SUBSCRIPTION_ACTIVATING ;;
                 mamaSubscription_activate_internal e s
             | MAMA_SUBSCRIPTION_ACTIVATED | MAMA_SUBSCRIPTION_ACTIVATING | MAMA_SUBSCRIPTION_REACTIVATING =>
                 mret MAMA_STATUS_OK
             | MAMA_SUBSCRIPTION_DEACTIVATING =>
                 mamaSubscriptionImpl_setState s MAMA_SUBSCRIPTION_REACTIVATING ;;
                 mret MAMA_STATUS_OK
             | _ => mret MAMA_STATUS_SUBSCRIPTION_INVALID_STATE
             end);
    wlock_unlock s ;;
    mret ret.

(** ** Deactivation *)

(** The callback of the bridge when its subscription is gone. *)
Definition mamaSubscriptionImpl_onSubscriptionDestroyed (e : env) (s : Z) : SM unit :=
  if s =? 0 then mret tt
  else
    i ← ld s;
    (if mQueue i then mamaQueue_decrementObjectCount else mret tt) ;;
    wlock_lock s ;;
    i ← ld s;
    match mState i with
    | MAMA_SUBSCRIPTION_DEALLOCATING =>
        mamaSubscription_cleanup s ;;
        mamaSubscriptionImpl_invokeDestroyedCallback s ;;
        wlock_unlock s ;;
        mamaSubscriptionImpl_deallocate s
    | MAMA_SUBSCRIPTION_DESTROYING =>
        mamaSubscription_cleanup s ;;
        mamaSubscriptionImpl_setState s MAMA_SUBSCRIPTION_DESTROYED ;;
        mamaSubscriptionImpl_invokeDestroyedCallback s ;;
        wInterlocked_decrement s ;;
        wlock_unlock s
    | st =>
        (match st with
         | MAMA_SUBSCRIPTION_DEACTIVATING => mamaSubscriptionImpl_setState s MAMA_SUBSCRIPTION_DEACTIVATED
         | MAMA_SUBSCRIPTION_REACTIVATING =>
             mamaSubscriptionImpl_setState s MAMA_SUBSCRIPTION_DEACTIVATED ;;
             mamaSubscription_activate e s ;;
             mret tt
         | _ => mret tt
         end) ;;
        wInterlocked_decrement s ;;
        wlock_unlock s
    end.

(** [imageRequest_stopWaitForResponse] of a request that waits. *)
Definition stop_waiting (r : option bool) : option bool := match r with Some _ => Some false | None => None end.

Definition stopped (i : mamaSubscriptionImpl) : mamaSubscriptionImpl :=
  match mInitialRequest i, mRecapRequest i with
  | Some true, _ | _, Some true =>
      set_mExpectingInitial false
        (set_mInitialRequest (stop_waiting (mInitialRequest i)) (set_mRecapRequest (stop_waiting (mRecapRequest i)) i))
  | _, _ => i
  end.

Definition mamaSubscription_deactivate_internal (e : env) (s : Z) : SM mama_status :=
  upd s stopped ;;
  i ← ld s;
  (if negb (snapshot (mSubscMsgType i)) && mTransport i then mamaTransport_removeListener (mSubscHandle i) else mret tt) ;;
  (if negb (mSubscBridge i =? 0) && mBridgeImpl i then
     (match e_bridgeDestroy e with
      | BDone =>
          modify (fun w => set_bridges (delete (mSubscBridge i) (bridges w)) w) ;;
          mamaSubscriptionImpl_onSubscriptionDestroyed e s
      | BLater => modify (fun w => set_bridges (<[mSubscBridge i := (s, true)]> (bridges w)) w)
      | BFail => mret tt
      end) ;;
     upd s (set_mSubscBridge 0)
   else mret tt) ;;
  mret MAMA_STATUS_OK.

Definition deactivate_market_data (e : env) (s : Z) (i : mamaSubscriptionImpl) : SM mama_status :=
  match mState i with
  | MAMA_SUBSCRIPTION_ACTIVATING =>
      (if mTransport i then on_throttle (aq_remove (mAction i)) else fail InvalidDeref) ;;
      upd s (set_mAction 0) ;;
      mamaSubscriptionImpl_setState s MAMA_SUBSCRIPTION_DEACTIVATED ;;
      mret MAMA_STATUS_OK
  | MAMA_SUBSCRIPTION_REACTIVATING =>
      mamaSubscriptionImpl_setState s MAMA_SUBSCRIPTION_DEACTIVATING ;;
      mret MAMA_STATUS_SUBSCRIPTION_INVALID_TYPE
  | MAMA_SUBSCRIPTION_ACTIVATED =>
      mamaSubscriptionImpl_setState s MAMA_SUBSCRIPTION_DEACTIVATING ;;
      ret ← mamaSubscription_deactivate_internal e s;
      i ← ld s;
      (if snapshot (mSubscMsgType i) then
         (if mQueue i then mamaQueue_decrementObjectCount else mret tt) ;;
         mamaSubscriptionImpl_setState s MAMA_SUBSCRIPTION_DEACTIVATED
       else mret tt) ;;
      mret ret
  | MAMA_SUBSCRIPTION_DEACTIVATING | MAMA_SUBSCRIPTION_DEACTIVATED => mret MAMA_STATUS_OK
  | _ => mret MAMA_STATUS_SUBSCRIPTION_INVALID_STATE
  end.

Definition deactivate_basic (e : env) (s : Z) (i : mamaSubscriptionImpl) : SM mama_status :=
  match mState i with
  | MAMA_SUBSCRIPTION_ACTIVATED =>
      mamaSubscriptionImpl_setState s MAMA_SUBSCRIPTION_DEACTIVATING ;;
      mamaSubscription_deactivate_internal e s
  | MAMA_SUBSCRIPTION_DEACTIVATING | MAMA_SUBSCRIPTION_DEACTIVATED => mret MAMA_STATUS_OK
  | _ => mret MAMA_STATUS_SUBSCRIPTION_INVALID_STATE
  end.

Definition mamaSubscription_deactivate (e : env) (s : Z) : SM mama_status :=
  if s =? 0 then mret MAMA_STATUS_NULL_ARG
  else
    wlock_lock s ;;
    i ← ld s;
    ret ← (if basic (mType i) then deactivate_basic e s i else deactivate_market_data e s i);
    wlock_unlock s ;;
    mret ret.

(** ** Destruction *)

Definition mamaSubscription_destroy (e : env) (s : Z) : SM mama_status :=
  if s =? 0 then mret MAMA_STATUS_NULL_ARG
  else
    mamaSubscription_deactivate e s ;;
    wlock_lock s ;;
    i ← ld s;
    match mState i with
    | MAMA_SUBSCRIPTION_SETUP | MAMA_SUBSCRIPTION_DEACTIVATED =>
        mamaSubscription_cleanup s ;;
        mamaSubscriptionImpl_setState s MAMA_SUBSCRIPTION_DESTROYED ;;
        wlock_unlock s ;;
        mamaSubscriptionImpl_invokeDestroyedCallback s ;;
        mret MAMA_STATUS_OK
    | MAMA_SUBSCRIPTION_DEACTIVATING =>
        mamaSubscriptionImpl_setState s MAMA_SUBSCRIPTION_DESTROYING ;;
        wlock_unlock s ;;
        mret MAMA_STATUS_OK
    | MAMA_SUBSCRIPTION_DESTROYING | MAMA_SUBSCRIPTION_DESTROYED | MAMA_SUBSCRIPTION_ALLOCATED =>
        wlock_unlock s ;;
        mret MAMA_STATUS_OK
    | _ =>
        wlock_unlock s ;;
        mret MAMA_STATUS_SUBSCRIPTION_INVALID_STATE
    end.

(** ** Set-up *)

(** The message type, whether several initials are accepted and the symbol the
    type asks for; [None] for a type this set-up does not serve. *)
Definition type_settings (t : mamaSubscriptionType) (msgType : mamaSubscMsgType) :
    option (mamaSubscMsgType * bool) :=
  match t with
  | MAMA_SUBSC_TYPE_NORMAL | MAMA_SUBSC_TYPE_BOOK => Some (msgType, false)
  | MAMA_SUBSC_TYPE_GROUP => Some (msgType, true)
  | MAMA_SUBSC_TYPE_BASIC => None
  | MAMA_SUBSC_TYPE_DICTIONARY => Some (MAMA_SUBSC_DDICT_SNAPSHOT, false)
  | MAMA_SUBSC_TYPE_SYMBOL_LIST | MAMA_SUBSC_TYPE_SYMBOL_LIST_NORMAL
  | MAMA_SUBSC_TYPE_SYMBOL_LIST_GROUP | MAMA_SUBSC_TYPE_SYMBOL_LIST_BOOK => Some (msgType, true)
  end.

Definition symbol_list (t : mamaSubscriptionType) : bool :=
  match t with
  | MAMA_SUBSC_TYPE_SYMBOL_LIST | MAMA_SUBSC_TYPE_SYMBOL_LIST_NORMAL
  | MAMA_SUBSC_TYPE_SYMBOL_LIST_GROUP | MAMA_SUBSC_TYPE_SYMBOL_LIST_BOOK => true
  | _ => false
  end.

Definition level_settings (i : mamaSubscriptionImpl) : option mamaSubscMsgType :=
  match mServiceLevel i with
  | MAMA_SERVICE_LEVEL_REAL_TIME => Some MAMA_SUBSC_SUBSCRIBE
  | MAMA_SERVICE_LEVEL_SNAPSHOT => if mRequiresInitial i then Some MAMA_SUBSC_SNAPSHOT else None
  | _ => None
  end.

Definition setSubscInfo (source symbol : bool) (i : mamaSubscriptionImpl) : mamaSubscriptionImpl :=
  let i := if source then set_mSubscSource true i else i in
  if symbol then set_mSubscSymbol true i else i.

(** A callback the user leaves NULL gets a default that logs. *)
Definition set_callbacks (cbs : option destroyCb) (i : mamaSubscriptionImpl) : mamaSubscriptionImpl :=
  match cbs with
  | None => i
  | Some CbNull => set_onCreate true (set_onDestroy CbRecords i)
  | Some cb => set_onCreate true (set_onDestroy cb i)
  end.

Definition MINIMUM_GROUP_SIZE_HINT : Z := 100.

Definition group_size_hint (transport : Z) (hint : Z) : Z :=
  let hint := if hint =? 0 then transport else hint in
  if hint <? MINIMUM_GROUP_SIZE_HINT then MINIMUM_GROUP_SIZE_HINT else hint.

(** What [isEntitledToSymbol] finds, after the entitlement bridge was asked. *)
Definition isEntitledToSymbol (a : setup_args) : bool := a_deferred a || a_isAllowed a.

(** The publisher, the image requests and the message callback.  When an image
    request cannot be created the status returned is the one of the publisher. *)
Definition setup_requests (a : setup_args) (s : Z) : SM mama_status :=
  if negb (status_ok (a_publisher a)) then mret (a_publisher a)
  else
    upd s (set_mSubscPublisher true) ;;
    if negb (status_ok (a_initialRequest a)) then mret MAMA_STATUS_OK
    else
      upd s (set_mInitialRequest (Some false)) ;;
      if negb (status_ok (a_recapRequest a)) then mret MAMA_STATUS_OK
      else
        upd s (set_mRecapRequest (Some false)) ;;
        if negb (status_ok (a_listener a)) then mret (a_listener a)
        else
          upd s (set_mCallback true) ;;
          if negb (status_ok (a_plugin a)) then mret (a_plugin a)
          else
            mamaSubscriptionImpl_setState s MAMA_SUBSCRIPTION_SETUP ;;
            mret MAMA_STATUS_OK.

Definition mamaSubscription_setupBasic (a : setup_args) (s : Z) : SM mama_status :=
  if s =? 0 then mret MAMA_STATUS_NULL_ARG
  else if negb (a_transport a) then mret MAMA_STATUS_INVALID_ARG
  else if negb (a_queue a) then mret MAMA_STATUS_INVALID_QUEUE
  else
    upd s (set_mBridgeImpl (a_bridgeImpl a)) ;;
    if negb (a_bridgeImpl a) then mret MAMA_STATUS_NO_BRIDGE_IMPL
    else if negb (a_deferred a) && negb (a_entitlementBridge a) then mret MAMA_STATUS_NO_BRIDGE_IMPL
    else
      (if a_deferred a then mret tt else upd s (set_mEntitlement true)) ;;
      if negb (isEntitledToSymbol a) then
        upd s (setSubscInfo (a_source a) (a_symbol a)) ;;
        mret MAMA_STATUS_NOT_ENTITLED
      else
        upd s (set_mSymbol true) ;;
        i ← ld s;
        match m ← level_settings i; type_settings (mType i) m with
        | None => mret MAMA_STATUS_INVALID_ARG
        | Some (msgType, multiple) =>
            upd s (fun i =>
              setSubscInfo (a_source a) (symbol_list (mType i) || a_symbol a)
                (set_mGroupSizeHint (group_size_hint (a_groupSizeHint a) (mGroupSizeHint i))
                  (set_mSubscMsgType msgType (set_mQueue true (set_mTransport true
                    (set_mAcceptMultipleInitials multiple (set_callbacks (a_callbacks a) i))))))) ;;
            setup_requests a s
        end.

Definition settable (st : mamaSubscriptionState) : bool :=
  match st with MAMA_SUBSCRIPTION_ALLOCATED | MAMA_SUBSCRIPTION_DESTROYED => true | _ => false end.

(** [mamaSubscription_setup2]; [mamaSubscription_setup] takes the transport and
    the name from a source first. *)
Definition mamaSubscription_setup2 (a : setup_args) (s : Z) : SM mama_status :=
  if negb ((negb (s =? 0)) && a_transport a && a_queue a) then mret MAMA_STATUS_NULL_ARG
  else
    wlock_lock s ;;
    i ← ld s;
    ret ← (if settable (mState i) then mamaSubscription_setupBasic a s
           else mret MAMA_STATUS_SUBSCRIPTION_INVALID_STATE);
    wlock_unlock s ;;
    mret ret.

(** [tport] and [name]: what [mamaSource_getTransport] and
    [mamaSource_getSymbolNamespace] return. *)
Definition mamaSubscription_setup (a : setup_args) (source : bool) (tport name : mama_status) (s : Z) : SM mama_status :=
  if negb ((negb (s =? 0)) && source) then mret MAMA_STATUS_NULL_ARG
  else
    wlock_lock s ;;
    i ← ld s;
    ret ← (if settable (mState i) then
             if negb (status_ok tport) then mret tport
             else if negb (status_ok name) then mret name
             else mamaSubscription_setupBasic a s
           else mret MAMA_STATUS_SUBSCRIPTION_INVALID_STATE);
    wlock_unlock s ;;
    mret ret.

Definition mamaSubscription_create_ (e : env) (a : setup_args) (source : bool) (tport name : mama_status) (s : Z) : SM mama_status :=
  status ← mamaSubscription_setup a source tport name s;
  if status_ok status then mamaSubscription_activate e s else mret status.

(** The options of a subscription may be set at any time. *)
Definition mamaSubscription_setSubscriptionType (t : mamaSubscriptionType) (s : Z) : SM mama_status :=
  if s =? 0 then mret MAMA_STATUS_NULL_ARG else upd s (set_mType t) ;; mret MAMA_STATUS_OK.
Definition mamaSubscription_setServiceLevel (l : mamaServiceLevel) (s : Z) : SM mama_status :=
  if s =? 0 then mret MAMA_STATUS_NULL_ARG else upd s (set_mServiceLevel l) ;; mret MAMA_STATUS_OK.
Definition mamaSubscription_setRequiresInitial (b : bool) (s : Z) : SM mama_status :=
  if s =? 0 then mret MAMA_STATUS_NULL_ARG else upd s (set_mRequiresInitial b) ;; mret MAMA_STATUS_OK.

Definition mamaSubscription_createSnapshot (e : env) (a : setup_args) (source : bool) (tport name : mama_status) (s : Z) : SM mama_status :=
  if s =? 0 then mret MAMA_STATUS_NULL_ARG
  else
    upd s (fun i => set_mRequiresInitial true (set_mServiceLevel MAMA_SERVICE_LEVEL_SNAPSHOT (set_mType MAMA_SUBSC_TYPE_NORMAL i))) ;;
    mamaSubscription_create_ e a source tport name s.

(** ** Basic subscriptions *)

Definition mamaSubscriptionImpl_completeBasicInitialisation (e : env) (s : Z) : SM mama_status :=
  if s =? 0 then mret MAMA_STATUS_NULL_ARG
  else
    i ← ld s;
    if bool_decide (mState i = MAMA_SUBSCRIPTION_ACTIVATING) then
      ret ← bridge_create e s;
      (if status_ok ret then
         mamaQueue_incrementObjectCount ;;
         mamaSubscriptionImpl_setState s MAMA_SUBSCRIPTION_ACTIVATED ;;
         wInterlocked_increment s
       else mret tt) ;;
      mret ret
    else mret MAMA_STATUS_SUBSCRIPTION_INVALID_STATE.

Definition mamaSubscriptionImpl_createBasic (e : env) (a : setup_args) (s : Z) : SM mama_status :=
  if negb ((negb (s =? 0)) && a_transport a && a_symbol a) then mret MAMA_STATUS_INVALID_ARG
  else if negb (a_queue a) then mret MAMA_STATUS_INVALID_QUEUE
  else
    wlock_lock s ;;
    i ← ld s;
    ret ← (if settable (mState i) then
             upd s (set_mBridgeImpl (a_bridgeImpl a)) ;;
             if negb (a_bridgeImpl a) then mret MAMA_STATUS_NO_BRIDGE_IMPL
             else
               upd s (fun i =>
                 set_callbacks (a_callbacks a)
                   (set_mType MAMA_SUBSC_TYPE_BASIC (set_mTransport true (set_mSubscSymbol true
                     (set_mRequiresInitial false (set_mQueue true i)))))) ;;
               mamaSubscriptionImpl_setState s MAMA_SUBSCRIPTION_ACTIVATING ;;
               mamaSubscriptionImpl_completeBasicInitialisation e s
           else mret MAMA_STATUS_SUBSCRIPTION_INVALID_STATE);
    wlock_unlock s ;;
    (if status_ok ret then call_onCreate s else mret tt) ;;
    mret ret.

(** [symbol]: whether one is given besides the source. *)
Definition mamaSubscription_createBasicWildCard (e : env) (a : setup_args) (callbacks : destroyCb) (symbol : bool) (s : Z) : SM mama_status :=
  if s =? 0 then mret MAMA_STATUS_NULL_ARG
  else
    upd s (fun i => set_callbacks (Some callbacks) (set_mWildCardType (if symbol then wc_wildcard else wc_transport) i)) ;;
    mamaSubscriptionImpl_createBasic e
      (mkSetup (a_transport a) (a_queue a) (a_bridgeImpl a) (a_deferred a) (a_entitlementBridge a) (a_isAllowed a) None
         (a_source a) true (a_groupSizeHint a) (a_publisher a) (a_initialRequest a) (a_recapRequest a) (a_listener a) (a_plugin a)) s.

(** ** Everything that can happen *)

(** The API calls on a subscription, a step of the throttle, and the callback a
    bridge subscription owes. *)
Inductive scall : Type :=
| Allocate
| Register (s : Z)
| SetType (t : mamaSubscriptionType) (s : Z)
| SetLevel (l : mamaServiceLevel) (s : Z)
| SetRequiresInitial (b : bool) (s : Z)
| Setup (a : setup_args) (s : Z)
| CreateBasic (a : setup_args) (s : Z)
| Activate (s : Z)
| Deactivate (s : Z)
| Destroy (s : Z)
| Deallocate (s : Z)
| Tick
| BridgeDone (b : Z).

Definition run_call (e : env) (c : scall) : SM mama_status :=
  match c with
  | Allocate => r ← mamaSubscription_allocate true; mret r.1
  | Register s => mamaSubscriptionImpl_registerReference s ;; mret MAMA_STATUS_OK
  | SetType t s => mamaSubscription_setSubscriptionType t s
  | SetLevel l s => mamaSubscription_setServiceLevel l s
  | SetRequiresInitial b s => mamaSubscription_setRequiresInitial b s
  | Setup a s => mamaSubscription_setup2 a s
  | CreateBasic a s => mamaSubscriptionImpl_createBasic e a s
  | Activate s => mamaSubscription_activate e s
  | Deactivate s => mamaSubscription_deactivate e s
  | Destroy s => mamaSubscription_destroy e s
  | Deallocate s => mamaSubscription_deallocate s
  | Tick =>
      owner ← on_throttle aq_pop;
      match owner with
      | Some s => createAction e s ;; mret MAMA_STATUS_OK
      | None => mret MAMA_STATUS_OK
      end
  | BridgeDone b =>
      l ← gets bridges;
      match l !! b with
      | Some (s, true) =>
          modify (fun w => set_bridges (delete b (bridges w)) w) ;;
          mamaSubscriptionImpl_onSubscriptionDestroyed e s ;;
          mret MAMA_STATUS_OK
      | _ => mret MAMA_STATUS_OK
      end
  end.

Fixpoint run_calls (l : list (env * scall)) : SM (list mama_status) :=
  match l with
  | [] => mret []
  | (e, c) :: l' => r ← run_call e c; rs ← run_calls l'; mret (r :: rs)
  end.

End subscription.
End Subscription.
