(* ===== verification/SubscriptionInv.v ===== *)
(** * The invariant of subscriptions

    What each state of a subscription holds on to, the rules by which the
    primitive steps of an operation change it, and the invariant of a world of
    subscriptions. *)

From S2P Require Import Prelude MamaStatus Subscription.
Import Subscription.

(** ** One subscription *)

(** The subscription counts as an open object of its queue. *)
Definition holds (st : mamaSubscriptionState) : bool :=
  match st with
  | MAMA_SUBSCRIPTION_ACTIVATED | MAMA_SUBSCRIPTION_DEACTIVATING | MAMA_SUBSCRIPTION_REACTIVATING
  | MAMA_SUBSCRIPTION_DESTROYING | MAMA_SUBSCRIPTION_DEALLOCATING => true
  | _ => false
  end.

Definition held (st : mamaSubscriptionState) : Z := if holds st then 1 else 0.

(** Set up: it has what an activation needs. *)
Definition ready (i : mamaSubscriptionImpl) : Prop :=
  mTransport i = true /\ mQueue i = true /\ mBridgeImpl i = true /\ onCreate i = true /\
  (basic (mType i) = false -> is_Some (mInitialRequest i)).

(** What a subscription in its state holds: the action [oa] on the throttle, the
    bridge subscription [ob] (and whether it is being destroyed), and the
    listener's handle [oh]. *)
Definition shape (i : mamaSubscriptionImpl) (oa : option Z) (ob : option (Z * bool)) (oh : option Z) : Prop :=
  match mState i with
  | MAMA_SUBSCRIPTION_ALLOCATED | MAMA_SUBSCRIPTION_DESTROYED =>
      oa = None /\ ob = None /\ oh = None /\ mSubscBridge i = 0
  | MAMA_SUBSCRIPTION_SETUP =>
      ready i /\ basic (mType i) = false /\ oa = None /\ ob = None /\ oh = None /\ mSubscBridge i = 0
  | MAMA_SUBSCRIPTION_DEACTIVATED =>
      ready i /\ oa = None /\ ob = None /\ oh = None /\ mSubscBridge i = 0
  | MAMA_SUBSCRIPTION_ACTIVATING =>
      ready i /\ basic (mType i) = false /\ oa = Some (mAction i) /\ ob = None /\ oh = None /\ mSubscBridge i = 0
  | MAMA_SUBSCRIPTION_ACTIVATED =>
      ready i /\ oa = None /\
      (if basic (mType i) || negb (snapshot (mSubscMsgType i))
       then mSubscBridge i <> 0 /\ ob = Some (mSubscBridge i, false)
       else mSubscBridge i = 0 /\ ob = None) /\
      (if basic (mType i) || snapshot (mSubscMsgType i) then oh = None
       else oh = Some (mSubscHandle i) /\ mSubscHandle i <> 0) /\
      (basic (mType i) = true -> snapshot (mSubscMsgType i) = false -> mSubscHandle i = 0)
  | MAMA_SUBSCRIPTION_DEACTIVATING | MAMA_SUBSCRIPTION_DESTROYING =>
      ready i /\ oa = None /\ (exists b, ob = Some (b, true)) /\ oh = None /\ mSubscBridge i = 0
  | MAMA_SUBSCRIPTION_REACTIVATING =>
      ready i /\ basic (mType i) = false /\ oa = None /\ (exists b, ob = Some (b, true)) /\ oh = None /\ mSubscBridge i = 0
  | MAMA_SUBSCRIPTION_DEALLOCATING =>
      ready i /\ oa = None /\ (exists b, ob = Some (b, true)) /\ oh = None /\ mSubscBridge i = 0 /\ mReferenceCount i = 1
  | _ => False
  end.

Definition bit (ob : option (Z * bool)) : Z := if ob then 1 else 0.

(** Between calls: the lock is free and there is a reference for the bridge,
    besides at most one of a wrapper. *)
Definition local (i : mamaSubscriptionImpl) (oa : option Z) (ob : option (Z * bool)) (oh : option Z) : Prop :=
  mCreateDestroyLock i = 0 /\ (exists x, 0 <= x <= 1 /\ mReferenceCount i = x + bit ob) /\ shape i oa ob oh.

Section inv.

Context {T : Type} `{ActionQueue T}.
Implicit Types w : @world T.

(** ** What belongs to a subscription *)

Record view w (l : list (Z * Z)) (s : Z) (oa : option Z) (ob : option (Z * bool)) (oh : option Z) : Prop := mkView {
  v_act : forall h, (h, s) ∈ l <-> oa = Some h;
  v_bridge : forall b c, bridges w !! b = Some (s, c) <-> ob = Some (b, c);
  v_listener : forall h, listeners w !! h = Some s <-> oh = Some h;
}.

Definition open_objects (m : gmap Z mamaSubscriptionImpl) : Z :=
  Z.of_nat (size (filter (fun kv => holds (mState kv.2) = true) m)).

(** Everything in the world has an owner among the subscriptions, and addresses
    are below the next free one. *)
Record owned w (l : list (Z * Z)) : Prop := mkOwned {
  o_act : forall h s, (h, s) ∈ l -> is_Some (subs w !! s);
  o_bridge : forall b s c, bridges w !! b = Some (s, c) -> is_Some (subs w !! s) /\ 0 < b < brk w;
  o_listener : forall h s, listeners w !! h = Some s -> is_Some (subs w !! s) /\ 0 < h < brk w;
  o_subs : forall s, is_Some (subs w !! s) -> 0 < s < brk w;
  o_brk : 0 < brk w;
}.

Record inv_at w (l : list (Z * Z)) : Prop := mkInv {
  i_rep : aq_rep (throttle w) l;
  i_nodup : NoDup l.*1;
  i_owned : owned w l;
  i_size : Z.of_nat (size (subs w)) < 2 ^ 31;
  i_count : mNumberOpenObjects w = open_objects (subs w);
  i_subs : forall s i, subs w !! s = Some i -> exists oa ob oh, view w l s oa ob oh /\ local i oa ob oh;
}.

Definition inv w : Prop := exists l, inv_at w l.

(** In the middle of an operation on [s]: the other subscriptions are as they
    should be, [k] is what [s] adds to the count of its queue, and [ev] are the
    callbacks made so far. *)
Record focus w (t : T) (l : list (Z * Z)) (s : Z) (i : mamaSubscriptionImpl) (oa : option Z) (ob : option (Z * bool))
    (oh : option Z) (k : Z) (ev : list event) : Prop := mkFocus {
  f_rep : aq_rep (throttle w) l;
  f_nodup : NoDup l.*1;
  f_owned : owned w l;
  f_size : Z.of_nat (size (subs w)) < 2 ^ 31;
  f_count : mNumberOpenObjects w = open_objects (delete s (subs w)) + k;
  f_self : subs w !! s = Some i;
  f_view : view w l s oa ob oh;
  f_others : forall s' i', s' <> s -> subs w !! s' = Some i' ->
    exists oa' ob' oh', view w l s' oa' ob' oh' /\ local i' oa' ob' oh';
  f_events : events w = ev;
  f_throttle : throttle w = t;
}.

Arguments f_owned {_ _ _ _ _ _ _ _ _ _} _.
Arguments f_self {_ _ _ _ _ _ _ _ _ _} _.
Arguments f_view {_ _ _ _ _ _ _ _ _ _} _.
Arguments f_events {_ _ _ _ _ _ _ _ _ _} _.
Arguments f_rep {_ _ _ _ _ _ _ _ _ _} _.
Arguments f_throttle {_ _ _ _ _ _ _ _ _ _} _.
Arguments f_nodup {_ _ _ _ _ _ _ _ _ _} _.

(** ** Opening and closing *)

Lemma open_objects_insert (m : gmap Z mamaSubscriptionImpl) s i :
  open_objects (<[s := i]> m) = open_objects (delete s m) + held (mState i).
Proof.
  unfold open_objects, held. rewrite <- insert_delete_eq.
  assert (delete s m !! s = None) as Hn by apply lookup_delete_eq.
  destruct (holds (mState i)) eqn:E.
  - rewrite map_filter_insert_True, map_size_insert_None; [lia| |by cbn].
    rewrite map_lookup_filter_None. by left.
  - rewrite map_filter_insert_False; [|cbn; congruence]. rewrite delete_delete_eq. lia.
Qed.

Lemma open_objects_delete (m : gmap Z mamaSubscriptionImpl) s i :
  m !! s = Some i -> open_objects m = open_objects (delete s m) + held (mState i).
Proof. intros E. by rewrite <- open_objects_insert, insert_id. Qed.

Lemma open_objects_bound (m : gmap Z mamaSubscriptionImpl) s i :
  m !! s = Some i -> 0 <= open_objects (delete s m) < Z.of_nat (size m).
Proof.
  intros E. unfold open_objects. pose proof (map_size_delete_Some s m ltac:(eauto)) as D.
  pose proof (map_size_filter (fun kv => holds (mState kv.2) = true) (delete s m)) as Hf.
  assert (size m <> 0%nat) by (intros Hz%map_size_empty_inv; by rewrite Hz, lookup_empty in E). lia.
Qed.

Lemma focus_open w l s i :
  inv_at w l -> subs w !! s = Some i ->
  exists oa ob oh, focus w (throttle w) l s i oa ob oh (held (mState i)) (events w) /\ local i oa ob oh.
Proof.
  intros [R N O S C U] E. destruct (U s i E) as (oa & ob & oh & V & L). exists oa, ob, oh.
  split; [|done]. split; try done; [by rewrite C; apply open_objects_delete|]. intros s' i' _ E'. by apply U.
Qed.

Lemma focus_close w t l s i oa ob oh ev :
  focus w t l s i oa ob oh (held (mState i)) ev -> local i oa ob oh -> inv_at w l.
Proof.
  intros [R N O S C E V U _ _] L. split; try done; [by rewrite C; symmetry; apply open_objects_delete|].
  intros s' i' E'. destruct (decide (s' = s)) as [->|]; [|eauto]. rewrite E in E'. injection E' as <-. eauto.
Qed.

(** ** The steps of an operation *)

Lemma wp_ld w s i (Q : mamaSubscriptionImpl -> world -> Prop) : subs w !! s = Some i -> Q i w -> wp (ld s) w Q.
Proof. unfold wp, ld. by intros ->. Qed.

Lemma owned_insert w l s i : owned w l -> is_Some (subs w !! s) -> owned (set_subs (<[s := i]> (subs w)) w) l.
Proof.
  intros [A B L U K] Hs.
  assert (forall x, is_Some (subs w !! x) -> is_Some (<[s := i]> (subs w) !! x)) as Hm.
  { intros x. rewrite lookup_insert_is_Some'. tauto. }
  split; cbn; try done.
  - naive_solver.
  - intros b x c E. destruct (B b x c E). auto.
  - intros h x E. destruct (L h x E). auto.
  - intros x. rewrite lookup_insert_is_Some'. intros [<-|]; auto.
Qed.

Lemma focus_id {w t l s i oa ob oh k ev} : focus w t l s i oa ob oh k ev -> s <> 0.
Proof. intros F. destruct (o_subs _ _ (f_owned F) s); [rewrite (f_self F); eauto|lia]. Qed.

Lemma focus_zero {w t l s i oa ob oh k ev} : focus w t l s i oa ob oh k ev -> (s =? 0) = false.
Proof. intros F%focus_id. by apply Z.eqb_neq. Qed.

Lemma wp_ld_focus {w t l s i oa ob oh k ev} (Q : mamaSubscriptionImpl -> world -> Prop) : focus w t l s i oa ob oh k ev -> Q i w -> wp (ld s) w Q.
Proof. intros F HQ. by apply (wp_ld _ _ _ _ (f_self F)). Qed.

Lemma wp_upd {w t l s i oa ob oh k ev} f (Q : unit -> world -> Prop) :
  focus w t l s i oa ob oh k ev -> (forall w', focus w' t l s (f i) oa ob oh k ev -> Q tt w') -> wp (upd s f) w Q.
Proof.
  intros [R N O S C E V U Ev Et] HQ. apply wp_bind. apply (wp_ld _ _ _ _ E). apply wp_modify, HQ. split; cbn; try done.
  - apply owned_insert; eauto.
  - rewrite map_size_insert_Some; eauto.
  - by rewrite delete_insert_eq.
  - by rewrite lookup_insert_eq.
  - by destruct V.
  - intros s' i' Hne. rewrite lookup_insert_ne by done. intros E'. destruct (U s' i' Hne E') as (a & b & h & V' & L).
    exists a, b, h. split; [by destruct V'|done].
Qed.

(** Steps that only change the count and the callbacks. *)
Lemma focus_frame {w t l s i oa ob oh k ev} w' k' ev' :
  focus w t l s i oa ob oh k ev ->
  throttle w' = throttle w -> subs w' = subs w -> bridges w' = bridges w -> listeners w' = listeners w -> brk w' = brk w ->
  mNumberOpenObjects w' = mNumberOpenObjects w + (k' - k) -> events w' = ev' -> focus w' t l s i oa ob oh k' ev'.
Proof.
  intros [R N O S C E V U Ev Et0] Et Es Eb El Ek En Ee. split; rewrite ?Et, ?Es; try done; [..|lia| |].
  - destruct O. split; rewrite ?Es, ?Eb, ?El, ?Ek; done.
  - destruct V. split; rewrite ?Eb, ?El; done.
  - intros s' i' Hne E'. destruct (U s' i' Hne E') as (a & b & h & V' & L). exists a, b, h. split; [|done].
    destruct V'. split; rewrite ?Eb, ?El; done.
Qed.

Lemma wp_inc {w t l s i oa ob oh k ev} (Q : unit -> world -> Prop) :
  k = 0 -> focus w t l s i oa ob oh k ev -> (forall w', focus w' t l s i oa ob oh 1 ev -> Q tt w') ->
  wp mamaQueue_incrementObjectCount w Q.
Proof.
  intros Hk F HQ. apply wp_modify, HQ. pose proof (open_objects_bound _ _ _ (f_self F)).
  apply (focus_frame _ _ _ F); try done; [|apply F]. destruct F as [_ _ _ S C _ _ _ _ _]. cbn. rewrite C, Hk, i32_small; lia.
Qed.

Lemma wp_dec {w t l s i oa ob oh k ev} (Q : unit -> world -> Prop) :
  k = 1 -> focus w t l s i oa ob oh k ev -> (forall w', focus w' t l s i oa ob oh 0 ev -> Q tt w') ->
  wp mamaQueue_decrementObjectCount w Q.
Proof.
  intros Hk F HQ. apply wp_modify, HQ. pose proof (open_objects_bound _ _ _ (f_self F)).
  apply (focus_frame _ _ _ F); try done; [|apply F]. destruct F as [_ _ _ S C _ _ _ _ _]. cbn. rewrite C, Hk, i32_small; lia.
Qed.

Lemma wp_say {w t l s i oa ob oh k ev} e (Q : unit -> world -> Prop) :
  focus w t l s i oa ob oh k ev -> (forall w', focus w' t l s i oa ob oh k (ev ++ [e]) -> Q tt w') -> wp (say e) w Q.
Proof.
  intros F HQ. apply wp_modify, HQ. apply (focus_frame _ _ _ F); try done; cbn; [lia|]. by rewrite (f_events F).
Qed.

(** The bridge subscriptions, listeners or actions change, but none of those
    of another subscription. *)
Definition same_for (w w' : @world T) (l l' : list (Z * Z)) (x : Z) : Prop :=
  (forall h, (h, x) ∈ l' <-> (h, x) ∈ l) /\
  (forall b c, bridges w' !! b = Some (x, c) <-> bridges w !! b = Some (x, c)) /\
  (forall h, listeners w' !! h = Some x <-> listeners w !! h = Some x).

Lemma view_same w w' l l' x a b h : same_for w w' l l' x -> view w l x a b h -> view w' l' x a b h.
Proof. intros (H1 & H2 & H3) [A B C]. split; intros; rewrite ?H1, ?H2, ?H3; auto. Qed.

Lemma focus_change {w t l s i oa ob oh k ev} w' t' l' oa' ob' oh' :
  focus w t l s i oa ob oh k ev ->
  aq_rep (throttle w') l' -> NoDup l'.*1 -> owned w' l' -> subs w' = subs w ->
  mNumberOpenObjects w' = mNumberOpenObjects w -> events w' = events w -> throttle w' = t' ->
  view w' l' s oa' ob' oh' -> (forall x, x <> s -> same_for w w' l l' x) ->
  focus w' t' l' s i oa' ob' oh' k ev.
Proof.
  intros [R N O S C E V U Ev Et] R' N' O' Es En Ee Et' V' Sm. split; rewrite ?Es, ?En, ?Ee; try done.
  intros s' i' Hne E'. destruct (U s' i' Hne E') as (a & b & h & Vx & L). exists a, b, h.
  split; [|done]. eapply view_same; eauto.
Qed.

Lemma wp_addListener {w t l s i oa ob oh k ev} e (Q : mama_status -> world -> Prop) :
  focus w t l s i oa ob oh k ev -> oh = None -> mTransport i = true -> e_listenerMem e = true ->
  (forall w' h, h <> 0 -> focus w' t l s (set_mSubscHandle h i) oa ob (Some h) k ev -> Q MAMA_STATUS_OK w') ->
  wp (mamaTransport_addSubscription e s) w Q.
Proof.
  intros F Hoh Ht Hm HQ. apply wp_bind, (wp_ld_focus _ F). rewrite Ht, Hm. cbn [negb].
  apply wp_bind, wp_bind, wp_gets, wp_bind, wp_modify, wp_ret, wp_bind, wp_modify.
  set (w1 := set_listeners _ _).
  assert (focus w1 t l s i oa ob (Some (brk w)) k ev) as F1.
  { pose proof (f_owned F) as O. pose proof (f_view F) as V.
    assert (forall h x, listeners w !! h = Some x -> h <> brk w) as Hf.
    { intros h x E. destruct (o_listener _ _ O h x E). lia. }
    apply (focus_change w1 t l oa ob (Some (brk w)) F); try done; try apply F.
    - destruct O as [A B L U K]. split; cbn; try done; [..|lia].
      + intros b x c E. destruct (B b x c E). split; [done|lia].
      + intros h x. rewrite lookup_insert_Some. intros [[<- <-]|[_ E]].
        * split; [rewrite (f_self F); eauto|lia].
        * destruct (L h x E). split; [done|lia].
      + intros x E. specialize (U x E). lia.
    - destruct V as [A B L]. split; cbn; try done. intros h. rewrite lookup_insert_Some, L, Hoh. naive_solver.
    - intros x Hx. split; [done|]. split; [done|]. intros h. cbn. rewrite lookup_insert_Some. naive_solver. }
  apply wp_bind, (wp_upd _ _ F1). intros w2 F2. apply wp_ret, (HQ w2 (brk w)); [|done].
  destruct (f_owned F). lia.
Qed.


Lemma wp_removeListener {w t l s i oa ob oh k ev} handle (Q : unit -> world -> Prop) :
  focus w t l s i oa ob oh k ev -> oh = (if handle =? 0 then None else Some handle) ->
  (forall w', focus w' t l s i oa ob None k ev -> Q tt w') -> wp (mamaTransport_removeListener handle) w Q.
Proof.
  intros F Hoh HQ. unfold mamaTransport_removeListener. destruct (handle =? 0).
  { apply wp_ret, HQ. by subst oh. }
  apply wp_bind, wp_gets. pose proof (f_view F) as V. pose proof (f_owned F) as O.
  assert (listeners w !! handle = Some s) as E by (apply V; done). rewrite E. apply wp_modify, HQ.
  apply (focus_change _ t l oa ob None F); try done; try apply F.
  - destruct O as [A B L U K]. split; cbn; try done. intros h x. rewrite lookup_delete_Some. intros [_ E']. eauto.
  - destruct V as [A B L]. split; cbn; try done. intros h. rewrite lookup_delete_Some, L, Hoh. naive_solver.
  - intros x Hx. split; [done|]. split; [done|]. intros h. cbn. rewrite lookup_delete_Some.
    split; [tauto|]. intros E'. split; [|done]. intros <-. congruence.
Qed.

Lemma wp_bridge_create {w t l s i oa ob oh k ev} e (Q : mama_status -> world -> Prop) :
  focus w t l s i oa ob oh k ev -> ob = None -> e_bridgeCreate e = MAMA_STATUS_OK ->
  (forall w' b, b <> 0 -> focus w' t l s (set_mSubscBridge b i) oa (Some (b, false)) oh k ev -> Q MAMA_STATUS_OK w') ->
  wp (bridge_create e s) w Q.
Proof.
  intros F Hob He HQ. unfold bridge_create. rewrite He. cbn [status_ok].
  apply wp_bind, wp_bind, wp_bind, wp_gets, wp_bind, wp_modify, wp_ret, wp_bind, wp_modify.
  set (w1 := set_bridges _ _). pose proof (f_owned F) as O. pose proof (f_view F) as V.
  assert (forall b x c, bridges w !! b = Some (x, c) -> b <> brk w) as Hf.
  { intros b x c E. destruct (o_bridge _ _ O b x c E). lia. }
  assert (focus w1 t l s i oa (Some (brk w, false)) oh k ev) as F1.
  { apply (focus_change w1 t l oa _ oh F); try done; try apply F.
    - destruct O as [A B L U K]. split; cbn; try done; [..|lia].
      + intros b x c. rewrite lookup_insert_Some. intros [[<- [= <- <-]]|[_ E]].
        * split; [rewrite (f_self F); eauto|lia].
        * destruct (B b x c E). split; [done|lia].
      + intros h x E. destruct (L h x E). split; [done|lia].
      + intros x E. specialize (U x E). lia.
    - destruct V as [A B L]. split; cbn; try done. intros b c. rewrite lookup_insert_Some, B, Hob. naive_solver.
    - intros x Hx. split; [done|]. split; [|done]. intros b c. cbn. rewrite lookup_insert_Some. naive_solver. }
  apply (wp_upd _ _ F1). intros w2 F2. apply wp_ret, (HQ w2 (brk w)); [|done]. destruct O. lia.
Qed.

(** The bridge subscription is gone, or its destruction is under way. *)
Lemma wp_bridge_gone {w t l s i oa oh k ev} b c (Q : unit -> world -> Prop) :
  focus w t l s i oa (Some (b, c)) oh k ev ->
  (forall w', focus w' t l s i oa None oh k ev -> Q tt w') ->
  wp (modify (fun w => set_bridges (delete b (bridges w)) w)) w Q.
Proof.
  intros F HQ. apply wp_modify, HQ. pose proof (f_view F) as V. pose proof (f_owned F) as O.
  assert (bridges w !! b = Some (s, c)) as E by (apply V; done).
  apply (focus_change _ t l oa None oh F); try done; try apply F.
  - destruct O as [A B L U K]. split; cbn; try done. intros b' x c'. rewrite lookup_delete_Some. intros [_ E']. eauto.
  - destruct V as [A B L]. split; cbn; try done. intros b' c'. rewrite lookup_delete_Some, B. naive_solver.
  - intros x Hx. split; [done|]. split; [|done]. intros b' c'. cbn. rewrite lookup_delete_Some.
    split; [tauto|]. intros E'. split; [|done]. intros <-. congruence.
Qed.

Lemma wp_bridge_closing {w t l s i oa oh k ev} b (Q : unit -> world -> Prop) :
  focus w t l s i oa (Some (b, false)) oh k ev ->
  (forall w', focus w' t l s i oa (Some (b, true)) oh k ev -> Q tt w') ->
  wp (modify (fun w => set_bridges (<[b := (s, true)]> (bridges w)) w)) w Q.
Proof.
  intros F HQ. apply wp_modify, HQ. pose proof (f_view F) as V. pose proof (f_owned F) as O.
  assert (bridges w !! b = Some (s, false)) as E by (apply V; done).
  apply (focus_change _ t l oa _ oh F); try done; try apply F.
  - destruct O as [A B L U K]. split; cbn; try done. intros b' x c'. rewrite lookup_insert_Some.
    intros [[<- [= <- <-]]|[_ E']]; eauto.
  - destruct V as [A B L]. split; cbn; try done. intros b' c'. rewrite lookup_insert_Some, B. naive_solver.
  - intros x Hx. split; [done|]. split; [|done]. intros b' c'. cbn. rewrite lookup_insert_Some.
    split; [naive_solver|]. intros E'. right. split; [|done]. intros <-. congruence.
Qed.

(** ** The throttle *)

Lemma wp_on_throttle {A} (m : M T A) w (Q : A -> world -> Prop) :
  wp m (throttle w) (fun x t => Q x (set_throttle t w)) -> wp (on_throttle m) w Q.
Proof. unfold wp, on_throttle. by destruct (m (throttle w)) as [[x t]|f]. Qed.

Lemma wp_dispatch {w t l s i oa ob oh k ev} (Q : dispatched -> world -> Prop) :
  focus w t l s i oa ob oh k ev -> oa = None ->
  (forall t', aq_dispatch s t <> Ok (NoMemory, t')) ->
  (forall w' t', focus w' t' l s i oa ob oh k ev -> Q RunNow w') ->
  (forall w' t' h, h <> 0 -> focus w' t' (l ++ [(h, s)]) s i (Some h) ob oh k ev -> Q (Queued h) w') ->
  wp (on_throttle (aq_dispatch s)) w Q.
Proof.
  intros F Hoa Hm HQ1 HQ2. apply wp_on_throttle. pose proof (f_view F) as V. pose proof (f_owned F) as O.
  destruct (proj1 (wp_elim _ _ _) (aq_dispatch_law s _ _ (f_rep F))) as (d & t1 & E & L).
  apply wp_elim. exists d, t1. split; [done|]. destruct d as [| |h].
  - apply (HQ1 _ t1). apply (focus_change _ t1 l oa ob oh F); try done; try apply F; [by destruct O|by destruct V].
  - destruct (Hm t1). by rewrite <- (f_throttle F).
  - destruct L as (Hh & Hn & R). apply (HQ2 _ t1); [done|].
    apply (focus_change _ t1 _ (Some h) ob oh F); try done.
    + rewrite fmap_app. apply NoDup_app. split; [apply F|]. split; [|by apply NoDup_singleton]. cbn. set_solver.
    + destruct O as [A B L U K]. split; cbn; try done. intros h' x. rewrite elem_of_app, list_elem_of_singleton.
      intros [E'|[= -> ->]]; [by eauto|]. rewrite (f_self F). eauto.
    + destruct V as [A B L]. split; cbn; try done. intros h'. rewrite elem_of_app, list_elem_of_singleton, A, Hoa. naive_solver.
    + intros x Hx. split; [|done]. intros h'. rewrite elem_of_app, list_elem_of_singleton. naive_solver.
Qed.

Lemma NoDup_fst_inj (l1 l2 : list (Z * Z)) h (s x : Z) :
  NoDup (l1 ++ (h, s) :: l2).*1 -> (h, x) ∉ l1 ++ l2.
Proof.
  rewrite fmap_app. cbn. rewrite NoDup_app, NoDup_cons. intros (_ & H1 & H2 & _).
  rewrite elem_of_app. intros [E|E]; apply (list_elem_of_fmap_2 fst) in E; cbn in E; [|done].
  apply (H1 h E). left.
Qed.

Lemma wp_remove {w t l s i ob oh k ev} h (Q : unit -> world -> Prop) :
  focus w t l s i (Some h) ob oh k ev ->
  (forall w' t' l', focus w' t' l' s i None ob oh k ev -> Q tt w') ->
  wp (on_throttle (aq_remove h)) w Q.
Proof.
  intros F HQ. apply wp_on_throttle. pose proof (f_view F) as V. pose proof (f_owned F) as O.
  assert ((h, s) ∈ l) as E by (apply V; done). apply list_elem_of_split in E as (l1 & l2 & ->).
  pose proof (f_nodup F) as N.
  eapply wp_mono; [apply (aq_remove_law h s _ l1 l2), F|]. cbn beta. intros [] t1 R. apply (HQ _ t1 (l1 ++ l2)).
  assert (forall h' x, (h', x) ∈ l1 ++ l2 -> (h', x) ∈ l1 ++ (h, s) :: l2) as Hin.
  { intros h' x. rewrite !elem_of_app, elem_of_cons. tauto. }
  apply (focus_change _ t1 (l1 ++ l2) None ob oh F); try done.
  - rewrite fmap_app in N |- *. cbn in N. apply NoDup_app in N as (N1 & N2 & N3). apply NoDup_cons in N3 as [N3 N4].
    apply NoDup_app. split; [done|]. split; [|done]. intros y Hy ?. apply (N2 y Hy). by right.
  - destruct O as [A B L U K]. split; cbn; try done. eauto.
  - destruct V as [A B L]. split; cbn; try done. intros h'. split; [|done]. intros Hi.
    pose proof (proj1 (A h') (Hin _ _ Hi)) as [= ->]. by destruct (NoDup_fst_inj _ _ _ _ s N).
  - intros x Hx. split; [|done]. intros h'. rewrite !elem_of_app, elem_of_cons. naive_solver.
Qed.

(** ** The end of a subscription *)

Lemma focus_free w t l s i ev :
  focus w t l s i None None None 0 ev -> inv_at (set_subs (delete s (subs w)) w) l.
Proof.
  intros [R N O S C E V U Ev Et].
  assert (forall x, (exists h, (h, x) ∈ l) \/ (exists b c, bridges w !! b = Some (x, c)) \/ (exists h, listeners w !! h = Some x) ->
    is_Some (subs w !! x) -> is_Some (delete s (subs w) !! x)) as Hm.
  { intros x Hx [j Hj]. exists j. apply lookup_delete_Some. split; [|done]. intros <-. destruct V as [V1 V2 V3].
    destruct Hx as [[h Hh]|[(b & c & Hb)|[h Hh]]]; [by apply V1 in Hh|by apply V2 in Hb|by apply V3 in Hh]. }
  split; cbn; try done.
  - destruct O as [A B L K1 K2]. split; cbn; try done.
    + intros h x Hi. apply Hm; eauto.
    + intros b x c Hi. destruct (B b x c Hi). split; [apply Hm; eauto|done].
    + intros h x Hi. destruct (L h x Hi). split; [apply Hm; eauto|done].
    + intros x Hx. apply K1. eapply lookup_delete_is_Some; eauto.
  - pose proof (map_size_delete_Some s (subs w) ltac:(eauto)). lia.
  - lia.
  - intros x j. rewrite lookup_delete_Some. intros [Hne Ej]. destruct (U x j ltac:(done) Ej) as (a & b & h & Vx & Lx).
    exists a, b, h. split; [by destruct Vx|done].
Qed.

End inv.

Arguments f_owned {T H _ _ _ _ _ _ _ _ _ _} _.
Arguments f_self {T H _ _ _ _ _ _ _ _ _ _} _.
Arguments f_view {T H _ _ _ _ _ _ _ _ _ _} _.
Arguments f_events {T H _ _ _ _ _ _ _ _ _ _} _.
Arguments f_rep {T H _ _ _ _ _ _ _ _ _ _} _.
Arguments f_nodup {T H _ _ _ _ _ _ _ _ _ _} _.
Arguments f_throttle {T H _ _ _ _ _ _ _ _ _ _} _.
