(* ===== verification/SubscriptionSteps.v ===== *)
(** * Subscriptions: what each operation does

    For every operation of Subscription.v: run on a subscription that is as the
    invariant says, it returns, and leaves the subscription in a state that is
    again as the invariant says, or frees it. *)

From S2P Require Import Prelude MamaStatus Subscription SubscriptionInv.
Import Subscription.

(** ** Steps *)

Ltac sub_simpl_goal := cbn [
  mType mServiceLevel mSubscMsgType mRequiresInitial mAcceptMultipleInitials mExpectingInitial mGroupSizeHint
  mWildCardType mTransport mQueue mBridgeImpl mSubscBridge mSubscHandle mAction onCreate onDestroy
  mSubscPublisher mInitialRequest mRecapRequest mDqRecap mCallback mSubjects mEntitlement mSymbol mSubscSource
  mSubscSymbol mState mReferenceCount mCreateDestroyLock set_mType set_mServiceLevel set_mSubscMsgType
  set_mRequiresInitial set_mAcceptMultipleInitials set_mExpectingInitial set_mGroupSizeHint set_mWildCardType
  set_mTransport set_mQueue set_mBridgeImpl set_mSubscBridge set_mSubscHandle set_mAction set_onCreate
  set_onDestroy set_mSubscPublisher set_mInitialRequest set_mRecapRequest set_mDqRecap set_mCallback
  set_mSubjects set_mEntitlement set_mSymbol set_mSubscSource set_mSubscSymbol set_mState set_mReferenceCount
  set_mCreateDestroyLock snapshot basic status_ok holds held settable bit negb andb orb].
Ltac sub_simpl_hyp H := cbn [
  mType mServiceLevel mSubscMsgType mRequiresInitial mAcceptMultipleInitials mExpectingInitial mGroupSizeHint
  mWildCardType mTransport mQueue mBridgeImpl mSubscBridge mSubscHandle mAction onCreate onDestroy
  mSubscPublisher mInitialRequest mRecapRequest mDqRecap mCallback mSubjects mEntitlement mSymbol mSubscSource
  mSubscSymbol mState mReferenceCount mCreateDestroyLock set_mType set_mServiceLevel set_mSubscMsgType
  set_mRequiresInitial set_mAcceptMultipleInitials set_mExpectingInitial set_mGroupSizeHint set_mWildCardType
  set_mTransport set_mQueue set_mBridgeImpl set_mSubscBridge set_mSubscHandle set_mAction set_onCreate
  set_onDestroy set_mSubscPublisher set_mInitialRequest set_mRecapRequest set_mDqRecap set_mCallback
  set_mSubjects set_mEntitlement set_mSymbol set_mSubscSource set_mSubscSymbol set_mState set_mReferenceCount
  set_mCreateDestroyLock snapshot basic status_ok holds held settable bit negb andb orb] in H.
Tactic Notation "sub_simpl" := sub_simpl_goal.
Tactic Notation "sub_simpl" "in" hyp(H) := sub_simpl_hyp H.

(** One command on the subscription in focus. *)
Ltac sub_step :=
  match goal with
  | |- wp (mbind _ _) _ _ => apply wp_bind
  | F : focus ?w _ _ ?s _ _ _ _ _ _ |- wp (ld ?s) ?w _ => apply (wp_ld_focus _ F)
  | F : focus ?w _ _ ?s _ _ _ _ _ _ |- wp (upd ?s ?f) ?w _ =>
      let w' := fresh "w" in let F' := fresh "F" in
      apply (wp_upd f _ F); intros w' F'; clear F; rename F' into F; try clear w
  | F : focus ?w _ _ ?s _ _ _ _ _ _ |- wp (say ?e) ?w _ =>
      let w' := fresh "w" in let F' := fresh "F" in
      apply (wp_say e _ F); intros w' F'; clear F; rename F' into F; try clear w
  | |- wp (wlock_lock _) _ _ => unfold wlock_lock
  | |- wp (wlock_unlock _) _ _ => unfold wlock_unlock
  | |- wp (mamaSubscriptionImpl_setState _ _) _ _ => unfold mamaSubscriptionImpl_setState
  | |- wp (wInterlocked_increment _) _ _ => unfold wInterlocked_increment
  | |- wp (wInterlocked_decrement _) _ _ => unfold wInterlocked_decrement
  | |- wp (mret _) _ _ => apply wp_ret
  end.

Ltac sub_steps := repeat (cbn beta; sub_simpl; sub_step); cbn beta; sub_simpl.

Section props.

Context {T : Type} `{ActionQueue T}.

Definition activates (e : env) : Prop := e_bridgeCreate e = MAMA_STATUS_OK /\ e_listenerMem e = true.

(** What an operation other than a set-up or the clean-up leaves as it is. *)
Record agrees (i j : mamaSubscriptionImpl) : Prop := mkAgrees {
  g_type : mType j = mType i;
  g_msg : mSubscMsgType j = mSubscMsgType i;
  g_lock : mCreateDestroyLock j = mCreateDestroyLock i;
  g_destroy : onDestroy j = onDestroy i;
  g_ready : ready i -> ready j;
}.

(** Nothing changed that the invariant is about. *)
Record core (i j : mamaSubscriptionImpl) : Prop := mkCore {
  c_agrees : agrees i j;
  c_state : mState j = mState i;
  c_handle : mSubscHandle j = mSubscHandle i;
  c_bridge : mSubscBridge j = mSubscBridge i;
  c_refs : mReferenceCount j = mReferenceCount i;
  c_action : mAction j = mAction i;
}.

Ltac agree := split; unfold ready in *; sub_simpl; try done; try (intros (? & ? & ? & ? & ?)); repeat split; eauto.

Lemma core_refl i : core i i.
Proof. split; first [done|agree]. Qed.

Lemma agrees_trans i j k : agrees i j -> agrees j k -> agrees i k.
Proof. intros [] []. split; try congruence; auto. Qed.

Lemma core_trans i j k : core i j -> core j k -> core i k.
Proof. intros [] []. split; try congruence. by eapply agrees_trans. Qed.

(** ** Activation *)

Lemma request_initial (w : @world T) t l s i oa ob oh k ev :
  focus w t l s i oa ob oh k ev -> ready i -> basic (mType i) = false ->
  wp (if mRequiresInitial i then upd s (set_mExpectingInitial true) ;; imageRequest_sendRequest s else mret tt) w
     (fun _ w' => exists j, focus w' t l s j oa ob oh k ev /\ core i j).
Proof.
  intros F (R1 & R2 & R3 & R4 & R5) Hb. destruct (R5 Hb) as [r Hr]. destruct (mRequiresInitial i).
  - sub_steps. unfold imageRequest_sendRequest. sub_steps. rewrite Hr. sub_steps. eexists. split; [exact F|].
    split; first [done|agree].
  - apply wp_ret. exists i. split; [done|apply core_refl].
Qed.

Lemma several_topics (w : @world T) t l s i oa ob oh k ev e :
  focus w t l s i oa ob oh k ev ->
  wp (if mBridgeImpl i && (e_hasWildcards e || bool_decide (mType i = MAMA_SUBSC_TYPE_GROUP))
      then upd s (set_mSubjects true) else mret tt) w
     (fun _ w' => exists j, focus w' t l s j oa ob oh k ev /\ core i j).
Proof.
  intros F. destruct (_ && _).
  - sub_steps. eexists. split; [exact F|]. split; first [done|agree].
  - apply wp_ret. exists i. split; [done|apply core_refl].
Qed.

(** The bridge subscription of [i], when it needs one, is made. *)
Definition bridged (i j : mamaSubscriptionImpl) (ob : option (Z * bool)) : Prop :=
  agrees i j /\ mState j = mState i /\ mSubscHandle j = mSubscHandle i /\
  mReferenceCount j = mReferenceCount i + bit ob /\
  (if snapshot (mSubscMsgType i) then ob = None /\ mSubscBridge j = mSubscBridge i
   else mSubscBridge j <> 0 /\ ob = Some (mSubscBridge j, false)).

Lemma bridged_core i j j' ob : bridged i j ob -> core j j' -> bridged i j' ob.
Proof.
  intros (A & E1 & E2 & E3 & E4) [A' C1 C2 C3 C4 C5]. split; [by eapply agrees_trans|]. rewrite C1, C2, C3, C4. done.
Qed.

Lemma create_bridge (w : @world T) t l s i oa oh k ev e :
  focus w t l s i oa None oh k ev -> e_bridgeCreate e = MAMA_STATUS_OK -> 0 <= mReferenceCount i <= 2 ->
  wp (if snapshot (mSubscMsgType i) then mret tt
      else status ← bridge_create e s; if status_ok status then wInterlocked_increment s else mret tt) w
     (fun _ w' => exists j ob, focus w' t l s j oa ob oh k ev /\ bridged i j ob /\ mRequiresInitial j = mRequiresInitial i).
Proof.
  intros F He Hn. destruct (snapshot (mSubscMsgType i)) eqn:Es.
  - apply wp_ret. exists i, None. split; [done|]. split; [|done]. unfold bridged. rewrite Es. cbn [bit].
    split; [agree|]. rewrite Z.add_0_r. done.
  - apply wp_bind. apply (wp_bridge_create _ _ F); [done..|]. clear F. intros w1 b Hb F. sub_steps.
    eexists _, _. split; [exact F|]. split; [|done]. unfold bridged. rewrite Es. sub_simpl.
    rewrite i32_small by lia. split; [agree|done].
Qed.

Lemma initialize_spec (w : @world T) t l s i oa oh ev e :
  focus w t l s i oa None oh 0 ev -> activates e -> ready i -> basic (mType i) = false -> 0 <= mReferenceCount i <= 2 ->
  wp (mamaSubscription_initialize e s) w (fun _ w' => exists j ob, focus w' t l s j oa ob oh 1 ev /\ bridged i j ob).
Proof.
  intros F [He _] Hr Hb Hn. apply wp_bind, (wp_ld_focus _ F). apply wp_bind.
  eapply wp_mono; [by apply create_bridge|]. clear F. cbn beta. intros [] w1 (j & ob & F & B & Er). rewrite <- Er.
  pose proof B as [A _]. apply wp_bind.
  eapply wp_mono; [apply (request_initial _ _ _ _ _ _ _ _ _ _ F); [by apply A|by rewrite (g_type _ _ A)]|].
  clear F. cbn beta. intros [] w2 (j2 & F & C2). apply wp_bind, (wp_ld_focus _ F), wp_bind.
  eapply wp_mono; [by apply (several_topics _ _ _ _ _ _ _ _ _ _ e F)|]. clear F. cbn beta. intros [] w3 (j3 & F & C3).
  apply (wp_inc _ eq_refl F). clear F. intros w4 F. exists j3, ob. split; [done|].
  eapply bridged_core; [done|]. by eapply core_trans.
Qed.

(** The listener's place on the transport, when it needs one. *)
Definition listening (i j : mamaSubscriptionImpl) (oh : option Z) : Prop :=
  agrees i j /\ mState j = mState i /\ mSubscBridge j = mSubscBridge i /\ mReferenceCount j = mReferenceCount i /\
  (if snapshot (mSubscMsgType i) then oh = None else oh = Some (mSubscHandle j) /\ mSubscHandle j <> 0).

Lemma add_listener (w : @world T) t l s i oa ob k ev e :
  focus w t l s i oa ob None k ev -> mTransport i = true -> e_listenerMem e = true ->
  wp (if snapshot (mSubscMsgType i) then mret MAMA_STATUS_OK else mamaTransport_addSubscription e s) w
     (fun r w' => r = MAMA_STATUS_OK /\ exists j oh, focus w' t l s j oa ob oh k ev /\ listening i j oh).
Proof.
  intros F Ht He. destruct (snapshot (mSubscMsgType i)) eqn:Es.
  - apply wp_ret. split; [done|]. exists i, None. split; [done|]. unfold listening. rewrite Es. split; [agree|done].
  - apply (wp_addListener _ _ F); [done..|]. clear F. intros w1 h Hh F. split; [done|]. eexists _, _.
    split; [exact F|]. unfold listening. rewrite Es. sub_simpl. split; [agree|done].
Qed.

Lemma onCreate_spec (w : @world T) t l s i oa ob oh k ev :
  focus w t l s i oa ob oh k ev -> onCreate i = true ->
  wp (call_onCreate s) w (fun _ w' => focus w' t l s i oa ob oh k (ev ++ [OnCreate s])).
Proof. intros F Hc. unfold call_onCreate. sub_steps. rewrite Hc. by sub_steps. Qed.

(** Coming off the throttle: the subscription is activated. *)
Lemma complete_spec (w : @world T) t l s i ev e :
  focus w t l s i None None None 0 ev -> activates e -> ready i -> basic (mType i) = false ->
  mState i = MAMA_SUBSCRIPTION_ACTIVATING -> mSubscBridge i = 0 -> 0 <= mReferenceCount i <= 2 ->
  wp (mamaSubscriptionImpl_completeMarketDataInitialisation e s) w (fun _ w' => exists j ob oh,
    focus w' t l s j None ob oh 1 (ev ++ [OnCreate s]) /\ agrees i j /\
    mState j = MAMA_SUBSCRIPTION_ACTIVATED /\ shape j None ob oh /\ mReferenceCount j = mReferenceCount i + bit ob).
Proof.
  intros F He Hr Hb Hs Hz Hn. unfold mamaSubscriptionImpl_completeMarketDataInitialisation.
  rewrite (focus_zero F). sub_steps. rewrite bool_decide_true by done. set (i1 := set_mAction 0 _) in *.
  assert (ready i1) as Hr1 by exact Hr. apply wp_bind.
  eapply wp_mono; [apply (add_listener _ _ _ _ _ _ _ _ _ e F); [apply Hr1|apply He]|].
  clear F. cbn beta. intros r w1 [-> (i2 & oh & F & A2 & S2 & B2 & N2 & L2)]. cbn [status_ok]. apply wp_bind, wp_bind.
  eapply wp_mono; [apply (initialize_spec _ _ _ _ _ _ _ _ e F)|].
  { done. } { by apply A2. } { by rewrite (g_type _ _ A2). } { by rewrite N2. }
  clear F. cbn beta. intros [] w2 (i3 & ob & F & A3 & S3 & H3 & N3 & B3).
  pose proof (g_ready _ _ A3 (g_ready _ _ A2 Hr1)) as Hr3.
  sub_steps. eapply wp_mono; [apply (onCreate_spec _ _ _ _ _ _ _ _ _ _ F); apply Hr3|].
  clear F. cbn beta. intros [] w3 F. apply wp_ret. eexists _, ob, oh. split; [exact F|]. sub_simpl.
  assert (mSubscMsgType i3 = mSubscMsgType i) as Em by (rewrite (g_msg _ _ A3), (g_msg _ _ A2); done).
  assert (mType i3 = mType i) as Et by (rewrite (g_type _ _ A3), (g_type _ _ A2); done).
  split; [|split; [done|split]].
  - split; sub_simpl; try done; [rewrite (g_lock _ _ A3), (g_lock _ _ A2); subst i1; sub_simpl; lia|].
    by rewrite (g_destroy _ _ A3), (g_destroy _ _ A2).
  - unfold shape. sub_simpl. rewrite Et, Em, Hb. cbn [orb].
    rewrite (g_msg _ _ A2) in B3. subst i1. sub_simpl in B3. sub_simpl in L2. sub_simpl in B2.
    split; [exact Hr3|]. split; [done|].
    destruct (snapshot (mSubscMsgType i)); cbn [negb]; rewrite ?H3.
    + destruct B3 as [-> E]. repeat split; congruence.
    + by destruct B3, L2.
  - by rewrite N3, N2.
Qed.

Lemma activate_start (w : @world T) t l s i ev e :
  focus w t l s i None None None 0 ev -> activates e -> (forall t', aq_dispatch s t <> Ok (NoMemory, t')) ->
  ready i -> basic (mType i) = false ->
  mState i = MAMA_SUBSCRIPTION_DEACTIVATED \/ mState i = MAMA_SUBSCRIPTION_SETUP ->
  mSubscBridge i = 0 -> 0 <= mReferenceCount i <= 2 ->
  wp (mamaSubscription_activate e s) w (fun _ w' => exists t' l' j oa ob oh ev',
    focus w' t' l' s j oa ob oh (held (mState j)) ev' /\ agrees i j /\ shape j oa ob oh /\
    (mState j = MAMA_SUBSCRIPTION_ACTIVATING \/ mState j = MAMA_SUBSCRIPTION_ACTIVATED) /\
    mReferenceCount j = mReferenceCount i + bit ob).
Proof.
  intros F He Hm Hr Hb Hs Hz Hn. unfold mamaSubscription_activate. rewrite (focus_zero F). sub_steps. rewrite Hb.
  set (Q := fun (_ : mama_status) (w' : @world T) => exists t' l' j oa ob oh ev',
    focus w' t' l' s j oa ob oh (held (mState j)) ev' /\ mCreateDestroyLock j = mCreateDestroyLock i + 1 /\
    agrees (set_mCreateDestroyLock (mCreateDestroyLock i + 1) i) j /\ shape j oa ob oh /\
    (mState j = MAMA_SUBSCRIPTION_ACTIVATING \/ mState j = MAMA_SUBSCRIPTION_ACTIVATED) /\
    mReferenceCount j = mReferenceCount i + bit ob).
  assert (wp (mamaSubscriptionImpl_setState s MAMA_SUBSCRIPTION_ACTIVATING ;; mamaSubscription_activate_internal e s) w0 Q) as HA.
  { unfold mamaSubscription_activate_internal. sub_steps. pose proof Hr as (R1 & R2 & R3 & R4 & R5). rewrite R1.
    cbn [negb]. sub_steps. apply (wp_dispatch _ F); [done|done|..]; clear F.
    - intros w1 t1 F. unfold createAction. sub_steps. eapply wp_mono; [apply (complete_spec _ _ _ _ _ _ e F); done|].
      cbn beta. intros r w2 (j & ob & oh & G & A & S & Sh & N). sub_steps. exists t1, l, j, None, ob, oh, (ev ++ [OnCreate s]).
      rewrite S at 1. split; [done|]. rewrite (g_lock _ _ A). split; [done|]. split; [|by eauto].
      eapply agrees_trans; [|exact A]. agree.
    - intros w1 t1 h Hh F. sub_steps. eexists t1, (l ++ [(h, s)]), _, (Some h), None, None, ev.
      split; [exact F|]. sub_simpl. split; [done|]. split; [agree|]. split; [|split; [by left|lia]].
      unfold shape. sub_simpl. done. }
  apply (wp_mono _ _ Q); [by destruct Hs as [-> | ->]|]. cbn beta. clear HA F.
  intros r w1 (t' & l' & j & oa & ob & oh & ev' & F & EL & A & S & St & N). sub_steps.
  eexists t', l', _, oa, ob, oh, ev'. split; [exact F|]. split; [|done].
  destruct A. split; sub_simpl; try done. lia.
Qed.

(** ** Deactivation *)

Lemma destroyed_deactivating (w : @world T) t l s i oa oh ev e :
  focus w t l s i oa None oh 1 ev -> mQueue i = true -> mState i = MAMA_SUBSCRIPTION_DEACTIVATING ->
  1 <= mReferenceCount i <= 2 ->
  wp (mamaSubscriptionImpl_onSubscriptionDestroyed e s) w (fun _ w' => exists j,
    focus w' t l s j oa None oh 0 ev /\ agrees i j /\ mState j = MAMA_SUBSCRIPTION_DEACTIVATED /\
    mReferenceCount j = mReferenceCount i - 1 /\ mSubscBridge j = mSubscBridge i).
Proof.
  intros F Hq Hs Hn. unfold mamaSubscriptionImpl_onSubscriptionDestroyed. rewrite (focus_zero F). sub_steps.
  rewrite Hq. apply (wp_dec _ eq_refl F). clear F. intros w1 F. sub_steps. rewrite Hs. sub_steps.
  eexists. split; [exact F|]. sub_simpl. split; [|by rewrite i32_small by lia]. agree. lia.
Qed.

Lemma stopped_core i : core i (stopped i).
Proof.
  assert (is_Some (mInitialRequest i) -> is_Some (mInitialRequest (stopped i))) as Hi.
  { unfold stopped. intros [r Hr]. destruct (mRecapRequest i) as [[]|], r; rewrite Hr; sub_simpl; rewrite ?Hr; cbn; eauto. }
  unfold stopped in *. destruct (mInitialRequest i) as [[]|] eqn:E1, (mRecapRequest i) as [[]|] eqn:E2;
    try apply core_refl; (split; [|done..]); sub_simpl in Hi; agree; rewrite ?E1 in *; auto.
Qed.

(** What [deactivate_internal] leaves: nothing when there was no bridge
    subscription, else one that is gone or that owes its callback. *)
Definition torn (i j : mamaSubscriptionImpl) (ob ob' : option (Z * bool)) (k : Z) : Prop :=
  agrees i j /\ mSubscBridge j = 0 /\ mReferenceCount j + bit ob = mReferenceCount i + bit ob' /\
  match ob with
  | None => mState j = MAMA_SUBSCRIPTION_DEACTIVATING /\ ob' = None /\ k = 1
  | Some (b, _) =>
      (mState j = MAMA_SUBSCRIPTION_DEACTIVATED /\ ob' = None /\ k = 0) \/
      (mState j = MAMA_SUBSCRIPTION_DEACTIVATING /\ ob' = Some (b, true) /\ k = 1)
  end.

(** The listener that [deactivate_internal] takes off the transport. *)
Definition handle_of (i : mamaSubscriptionImpl) : option Z :=
  if snapshot (mSubscMsgType i) then None else if mSubscHandle i =? 0 then None else Some (mSubscHandle i).

Definition bridge_of (i : mamaSubscriptionImpl) : option (Z * bool) :=
  if mSubscBridge i =? 0 then None else Some (mSubscBridge i, false).

Lemma deactivate_internal_spec (w : @world T) t l s i ev e :
  focus w t l s i None (bridge_of i) (handle_of i) 1 ev -> ready i -> mState i = MAMA_SUBSCRIPTION_DEACTIVATING ->
  e_bridgeDestroy e <> BFail -> bit (bridge_of i) <= mReferenceCount i <= 2 ->
  wp (mamaSubscription_deactivate_internal e s) w (fun r w' => r = MAMA_STATUS_OK /\ exists j ob' k,
    focus w' t l s j None ob' None k ev /\ torn i j (bridge_of i) ob' k).
Proof.
  intros F Hr Hs He Hn. unfold mamaSubscription_deactivate_internal. sub_steps.
  pose proof (stopped_core i) as [A C1 C2 C3 C4 C5]. set (j := stopped i) in *. pose proof (g_ready _ _ A Hr) as Hrj.
  assert (wp (if negb (snapshot (mSubscMsgType j)) && mTransport j then mamaTransport_removeListener (mSubscHandle j) else mret tt) w0
    (fun _ w' => focus w' t l s j None (bridge_of i) None 1 ev)) as HL.
  { destruct Hrj as [-> _]. rewrite (g_msg _ _ A), C2, andb_true_r. unfold handle_of in F.
    destruct (snapshot (mSubscMsgType i)); cbn [negb]; [by apply wp_ret|]. by apply (wp_removeListener _ _ F). }
  apply (wp_mono _ _ _ _ HL). clear HL F. intros [] w1 F. sub_steps. destruct Hrj as (R1 & R2 & R3 & R4 & R5).
  rewrite C3, R3, andb_true_r. unfold torn. unfold bridge_of in *. destruct (mSubscBridge i =? 0) eqn:Eb; cbn [negb].
  - sub_steps. split; [done|]. exists j, None, 1. split; [done|]. split; [done|]. apply Z.eqb_eq in Eb. rewrite C3, C4, C1. done.
  - destruct (e_bridgeDestroy e) eqn:Ed; [..|done].
    + sub_steps. apply (wp_bridge_gone _ _ _ F). clear F. intros w2 F.
      eapply wp_mono; [apply (destroyed_deactivating _ _ _ _ _ _ _ _ e F); [done|congruence|sub_simpl in Hn; lia]|].
      clear F. cbn beta. intros [] w3 (j2 & F & A2 & S2 & N2 & B2). sub_steps. split; [done|]. eexists _, None, 0.
      split; [exact F|]. sub_simpl. split; [|split; [done|split; [lia|by left]]].
      eapply agrees_trans; [exact A|]. eapply agrees_trans; [exact A2|]. agree.
    + sub_steps. apply (wp_bridge_closing _ _ F). clear F. intros w2 F. sub_steps. split; [done|]. eexists _, _, 1.
      split; [exact F|]. sub_simpl. split; [|split; [done|split; [lia|right; by rewrite C1]]].
      eapply agrees_trans; [exact A|]. agree.
Qed.

Lemma shape_activated i oa ob oh :
  shape i oa ob oh -> mState i = MAMA_SUBSCRIPTION_ACTIVATED ->
  ready i /\ oa = None /\ ob = bridge_of i /\ oh = handle_of i.
Proof.
  unfold shape, bridge_of, handle_of. intros Sh E. rewrite E in Sh. destruct Sh as (R & -> & B & L & Hb).
  split; [done|]. split; [done|].
  destruct (basic (mType i)), (snapshot (mSubscMsgType i)); cbn [orb negb] in B, L;
    destruct (Z.eqb_spec (mSubscBridge i) 0), (Z.eqb_spec (mSubscHandle i) 0); naive_solver.
Qed.

Definition deact (st st' : mamaSubscriptionState) : Prop :=
  match st with
  | MAMA_SUBSCRIPTION_ACTIVATING => st' = MAMA_SUBSCRIPTION_DEACTIVATED
  | MAMA_SUBSCRIPTION_REACTIVATING => st' = MAMA_SUBSCRIPTION_DEACTIVATING
  | MAMA_SUBSCRIPTION_ACTIVATED => st' = MAMA_SUBSCRIPTION_DEACTIVATED \/ st' = MAMA_SUBSCRIPTION_DEACTIVATING
  | _ => st' = st
  end.

(** The result of a deactivation, while the lock is held once. *)
Definition deactivated (w' : @world T) (s : Z) (i : mamaSubscriptionImpl) (ob : option (Z * bool)) (ev : list event) : Prop :=
  exists t' l' j oa' ob' oh',
    focus w' t' l' s j oa' ob' oh' (held (mState j)) ev /\ mCreateDestroyLock j = mCreateDestroyLock i /\
    onDestroy j = onDestroy i /\ shape j oa' ob' oh' /\ deact (mState i) (mState j) /\
    mReferenceCount j + bit ob = mReferenceCount i + bit ob'.

Lemma deactivated_intro w' t' l' s i j oa' ob ob' oh' ev :
  focus w' t' l' s j oa' ob' oh' (held (mState j)) ev -> agrees i j -> shape j oa' ob' oh' ->
  deact (mState i) (mState j) -> mReferenceCount j + bit ob = mReferenceCount i + bit ob' -> deactivated w' s i ob ev.
Proof. intros F [] Sh D N. exists t', l', j, oa', ob', oh'. done. Qed.

(** Tearing an active subscription down. *)
Lemma deactivate_active (w : @world T) t l s i oa ob oh ev e :
  focus w t l s i oa ob oh 1 ev -> shape i oa ob oh -> mState i = MAMA_SUBSCRIPTION_ACTIVATED ->
  e_bridgeDestroy e <> BFail -> bit ob <= mReferenceCount i <= 2 ->
  wp (mamaSubscriptionImpl_setState s MAMA_SUBSCRIPTION_DEACTIVATING) w (fun _ w1 =>
    wp (mamaSubscription_deactivate_internal e s) w1 (fun r w' => r = MAMA_STATUS_OK /\ exists j ob' k,
      focus w' t l s j None ob' None k ev /\ agrees i j /\ torn i j ob ob' k)).
Proof.
  intros F Sh Hs He Hn. destruct (shape_activated _ _ _ _ Sh Hs) as (Hr & -> & -> & ->). sub_steps.
  eapply wp_mono; [apply (deactivate_internal_spec _ _ _ _ _ _ e F); done|]. cbn beta.
  intros r w1 [-> (j & ob' & k & G & A & B & N & S)]. split; [done|]. exists j, ob', k. split; [done|].
  assert (agrees i j) by (eapply agrees_trans; [|exact A]; agree). done.
Qed.

Lemma torn_shape i j b c ob' k :
  torn i j (Some (b, c)) ob' k -> ready i -> k = held (mState j) /\ shape j None ob' None /\
  (mState j = MAMA_SUBSCRIPTION_DEACTIVATED \/ mState j = MAMA_SUBSCRIPTION_DEACTIVATING).
Proof.
  intros (A & B & N & S) Hr. apply (g_ready _ _ A) in Hr. unfold shape. destruct S as [(-> & -> & ->)|(-> & -> & ->)].
  - split; [done|]. split; [done|]. by left.
  - split; [done|]. split; [|by right]. eauto 8.
Qed.

Lemma deactivate_basic_spec (w : @world T) t l s i oa ob oh ev e :
  focus w t l s i oa ob oh (held (mState i)) ev -> shape i oa ob oh -> basic (mType i) = true ->
  e_bridgeDestroy e <> BFail -> bit ob <= mReferenceCount i <= 2 ->
  wp (deactivate_basic e s i) w (fun _ w' => deactivated w' s i ob ev).
Proof.
  intros F Sh Hb He Hn. unfold deactivate_basic.
  assert (forall (st : mama_status), deact (mState i) (mState i) -> wp (mret st : M _ _) w (fun _ w' => deactivated w' s i ob ev)) as Hid.
  { intros st Hd. apply wp_ret. eapply deactivated_intro; [exact F|agree|done..]. }
  destruct (mState i) eqn:Hs; try (by apply Hid); 
    try (unfold shape in Sh; rewrite Hs in Sh; destruct_and?; congruence).
  apply wp_bind. eapply wp_mono; [by apply (deactivate_active _ _ _ _ _ _ _ _ _ e F)|]. cbn beta. intros [] w1 W.
  apply (wp_mono _ _ _ _ W). clear W. intros r w2 [-> (j & ob' & k & G & A & D)]. unfold shape in Sh. rewrite Hs, Hb in Sh. cbn [orb] in Sh.
  destruct Sh as (Hr & _ & [_ ->] & _). pose proof D as (_ & _ & N & _).
  destruct (torn_shape _ _ _ _ _ _ D Hr) as (-> & Sj & Dj). eapply deactivated_intro; [done..| |done].
  rewrite Hs. cbn. tauto.
Qed.

Lemma deactivate_market_data_spec (w : @world T) t l s i oa ob oh ev e :
  focus w t l s i oa ob oh (held (mState i)) ev -> shape i oa ob oh -> basic (mType i) = false ->
  e_bridgeDestroy e <> BFail -> bit ob <= mReferenceCount i <= 2 ->
  wp (deactivate_market_data e s i) w (fun _ w' => deactivated w' s i ob ev).
Proof.
  intros F Sh Hb He Hn. unfold deactivate_market_data.
  assert (forall (st : mama_status), deact (mState i) (mState i) -> wp (mret st : M _ _) w (fun _ w' => deactivated w' s i ob ev)) as Hid.
  { intros st Hd. apply wp_ret. eapply deactivated_intro; [exact F|agree|done..]. }
  destruct (mState i) eqn:Hs; try (by apply Hid); sub_simpl in F.
  - unfold shape in Sh. rewrite Hs in Sh. destruct Sh as (Hr & _ & -> & -> & -> & Hz). pose proof Hr as [-> _].
    apply wp_bind, (wp_remove _ _ F). clear F. intros w1 t1 l1 F. sub_steps.
    eapply deactivated_intro; [exact F|agree| |by rewrite Hs|done]. unfold shape. sub_simpl. done.
  - apply wp_bind. eapply wp_mono; [by apply (deactivate_active _ _ _ _ _ _ _ _ _ e F)|]. clear F. cbn beta. intros [] w1 W.
    apply wp_bind, (wp_mono _ _ _ _ W). clear W. intros r w2 [-> (j & ob' & k & F & A & D)]. sub_steps.
    rewrite (g_msg _ _ A). unfold shape in Sh. rewrite Hs, Hb in Sh. cbn [orb] in Sh. destruct Sh as (Hr & _ & Sb & _).
    destruct (snapshot (mSubscMsgType i)) eqn:Es; cbn [negb] in Sb.
    + destruct Sb as [_ ->]. destruct D as (_ & Z & N & S & -> & ->). sub_steps.
      pose proof (g_ready _ _ A Hr) as Hrj. pose proof Hrj as (_ & -> & _).
      apply (wp_dec _ eq_refl F). clear F. intros w3 F. sub_steps.
      eapply deactivated_intro; [exact F|eapply agrees_trans; [exact A|agree]| | |done].
      * unfold shape. sub_simpl. done.
      * rewrite Hs. sub_simpl. by left.
    + destruct Sb as [_ ->]. pose proof D as (_ & _ & N & _). sub_steps.
      destruct (torn_shape _ _ _ _ _ _ D Hr) as (-> & Sj & Dj). eapply deactivated_intro; [done..| |done].
      rewrite Hs. cbn. tauto.
  - unfold shape in Sh. rewrite Hs in Sh. sub_steps. eapply deactivated_intro; [exact F|agree| |by rewrite Hs|done].
    unfold shape. sub_simpl. destruct_and?. done.
Qed.

Lemma deactivate_spec (w : @world T) t l s i oa ob oh ev e :
  focus w t l s i oa ob oh (held (mState i)) ev -> shape i oa ob oh ->
  e_bridgeDestroy e <> BFail -> bit ob <= mReferenceCount i <= 2 ->
  wp (mamaSubscription_deactivate e s) w (fun _ w' => deactivated w' s i ob ev).
Proof.
  intros F Sh He Hn. unfold mamaSubscription_deactivate. rewrite (focus_zero F). sub_steps.
  set (i1 := set_mCreateDestroyLock (mCreateDestroyLock i + 1) i) in *.
  apply (wp_mono _ _ (fun _ w' => deactivated w' s i1 ob ev)).
  - destruct (basic (mType i)) eqn:Hb; [by apply (deactivate_basic_spec _ t l _ _ oa ob oh)|].
    by apply (deactivate_market_data_spec _ t l _ _ oa ob oh).
  - clear F. intros r w1 (t' & l' & j & oa' & ob' & oh' & F & EL & ED & Sj & D & N). sub_steps.
    eexists t', l', _, oa', ob', oh'. split; [exact F|]. sub_simpl. subst i1. sub_simpl in EL. repeat split; try done. lia.
Qed.

(** ** Deallocation and destruction *)

(** The subscription is freed. *)
Definition freed (w' : @world T) (s : Z) (ev : list event) : Prop :=
  inv w' /\ subs w' !! s = None /\ events w' = ev.

Lemma free_sub_spec (w : @world T) t l s i ev :
  focus w t l s i None None None 0 ev -> wp (free_sub s) w (fun _ w' => freed w' s ev).
Proof.
  intros F. unfold free_sub. sub_steps. apply wp_modify. split; [|split].
  - exists l. exact (focus_free _ _ _ _ _ _ F).
  - cbn. apply lookup_delete_eq.
  - exact (f_events F).
Qed.

Lemma impl_deallocate_spec (w : @world T) t l s i ev :
  focus w t l s i None None None 0 ev -> 0 <= mReferenceCount i <= 1 ->
  wp (mamaSubscriptionImpl_deallocate s) w (fun _ w' => freed w' s ev).
Proof.
  intros F Hn. unfold mamaSubscriptionImpl_deallocate. sub_steps. destruct (Z.eqb_spec (mReferenceCount i) 0).
  - by eapply free_sub_spec.
  - sub_steps. rewrite i32_small by lia. destruct (Z.ltb_spec 0 (mReferenceCount i - 1)); [lia|].
    by eapply free_sub_spec.
Qed.

Lemma deallocate_settable (w : @world T) t l s i ev :
  focus w t l s i None None None 0 ev -> settable (mState i) = true -> 0 <= mReferenceCount i <= 1 ->
  wp (mamaSubscription_deallocate s) w (fun _ w' => freed w' s ev).
Proof.
  intros F Hs Hn. unfold mamaSubscription_deallocate. rewrite (focus_zero F). sub_steps.
  assert (wp (mamaSubscriptionImpl_deallocate s ;; mret MAMA_STATUS_OK) w0 (fun _ w' => freed w' s ev)) as Hd.
  { sub_steps. eapply wp_mono; [by apply (impl_deallocate_spec _ _ _ _ _ _ F)|]. by intros. }
  by destruct (mState i).
Qed.

Lemma focus_inv (w : @world T) t l s i oa ob oh k ev :
  focus w t l s i oa ob oh k ev -> k = held (mState i) -> mCreateDestroyLock i = 0 -> 0 <= mReferenceCount i - bit ob <= 1 ->
  shape i oa ob oh -> inv w.
Proof.
  intros F -> Hl Hn Sh. exists l. eapply focus_close; [exact F|]. split; [done|]. split; [|done].
  exists (mReferenceCount i - bit ob). lia.
Qed.

Definition destructible (st : mamaSubscriptionState) : bool :=
  match st with
  | MAMA_SUBSCRIPTION_ALLOCATED | MAMA_SUBSCRIPTION_DESTROYED | MAMA_SUBSCRIPTION_DEALLOCATING => false
  | _ => true
  end.

Lemma deact_result st st' :
  deact st st' ->
  match st' with
  | MAMA_SUBSCRIPTION_ACTIVATING | MAMA_SUBSCRIPTION_ACTIVATED | MAMA_SUBSCRIPTION_REACTIVATING => False
  | _ => destructible st' = destructible st
  end.
Proof. destruct st; cbn; intros D; subst; try done. by destruct D as [-> | ->]. Qed.

Definition announced (cb : destroyCb) (s : Z) : list event := match cb with CbNull => [] | _ => [OnDestroy s] end.

(** Nothing is left of a destroyed subscription but its memory. *)
Definition gone (w' : @world T) (s : Z) : Prop :=
  match subs w' !! s with None => True | Some i => mState i = MAMA_SUBSCRIPTION_DESTROYED end.

Lemma gone_close (w : @world T) t l s i ev :
  focus w t l s i None None None 0 ev -> mState i = MAMA_SUBSCRIPTION_DESTROYED -> mCreateDestroyLock i = 0 ->
  mSubscBridge i = 0 -> 0 <= mReferenceCount i <= 1 -> inv w /\ gone w s /\ events w = ev.
Proof.
  intros F Hs Hl Hz Hn. split; [|split; [by unfold gone; rewrite (f_self F)|exact (f_events F)]].
  eapply (focus_inv _ _ _ _ _ _ _ _ _ _ F); [by rewrite Hs|done|cbn; lia|]. unfold shape. by rewrite Hs.
Qed.

Lemma invoke_destroyed (w : @world T) t l s i ev :
  focus w t l s i None None None 0 ev -> mState i = MAMA_SUBSCRIPTION_DESTROYED -> mCreateDestroyLock i = 0 ->
  mSubscBridge i = 0 -> 0 <= mReferenceCount i <= 1 ->
  wp (mamaSubscriptionImpl_invokeDestroyedCallback s) w (fun _ w' =>
    inv w' /\ gone w' s /\ events w' = ev ++ announced (onDestroy i) s).
Proof.
  intros F Hs Hl Hz Hn. unfold mamaSubscriptionImpl_invokeDestroyedCallback. sub_steps. destruct (onDestroy i); cbn [announced].
  - apply wp_ret. rewrite app_nil_r. by eapply gone_close.
  - sub_steps. by eapply gone_close.
  - sub_steps. eapply wp_mono; [apply (deallocate_settable _ _ _ _ _ _ F); by rewrite ?Hs|]. cbn beta.
    intros st w1 (I & E & Ev). sub_steps. split; [done|]. split; [by unfold gone; rewrite E|done].
Qed.

(** The destruction of a subscription that was set up is done, or waits for the
    callback of the bridge. *)
Definition waits (w' : @world T) (s : Z) (cb : destroyCb) (ev : list event) : Prop :=
  exists b j, bridges w' !! b = Some (s, true) /\ subs w' !! s = Some j /\
    mState j = MAMA_SUBSCRIPTION_DESTROYING /\ onDestroy j = cb /\ events w' = ev.

Record cleans (i j : mamaSubscriptionImpl) : Prop := mkCleans {
  l_state : mState j = mState i;
  l_lock : mCreateDestroyLock j = mCreateDestroyLock i;
  l_refs : mReferenceCount j = mReferenceCount i;
  l_bridge : mSubscBridge j = mSubscBridge i;
  l_destroy : onDestroy j = onDestroy i;
}.

Lemma cleaned_spec i : cleans i (cleaned i).
Proof. unfold cleaned. destruct (mDqRecap _), (mSubjects _); done. Qed.

Lemma wp_cleanup {w : @world T} {t l s i oa ob oh k ev} (Q : unit -> world -> Prop) :
  focus w t l s i oa ob oh k ev -> (forall w' j, cleans i j -> focus w' t l s j oa ob oh k ev -> Q tt w') ->
  wp (mamaSubscription_cleanup s) w Q.
Proof. intros F HQ. apply (wp_upd _ _ F). intros w1. apply HQ, cleaned_spec. Qed.

Lemma finish_destroy (w : @world T) t l s i ev :
  focus w t l s i None None None 0 ev -> mCreateDestroyLock i = 1 -> mSubscBridge i = 0 -> 0 <= mReferenceCount i <= 1 ->
  wp (mamaSubscription_cleanup s ;; mamaSubscriptionImpl_setState s MAMA_SUBSCRIPTION_DESTROYED ;; wlock_unlock s ;;
      mamaSubscriptionImpl_invokeDestroyedCallback s ;; mret MAMA_STATUS_OK) w (fun r w' =>
    r = MAMA_STATUS_OK /\ inv w' /\ gone w' s /\ events w' = ev ++ announced (onDestroy i) s).
Proof.
  intros F Hl Hz Hn. apply wp_bind, (wp_cleanup _ F). clear F. intros w1 j [E1 E2 E3 E4 E5] F. sub_steps.
  eapply wp_mono; [apply (invoke_destroyed _ _ _ _ _ _ F); sub_simpl; try done; rewrite ?E2, ?E3, ?E4; done || lia|].
  cbn beta. sub_simpl. rewrite E5. intros [] w2 HH. sub_steps. done.
Qed.

Lemma waits_close (w : @world T) t l s i oa b oh ev :
  focus w t l s i oa (Some (b, true)) oh 1 ev -> mState i = MAMA_SUBSCRIPTION_DESTROYING -> mCreateDestroyLock i = 0 ->
  0 <= mReferenceCount i - 1 <= 1 -> shape i oa (Some (b, true)) oh -> inv w /\ waits w s (onDestroy i) ev.
Proof.
  intros F Hs Hl Hn Sh. split.
  - eapply (focus_inv _ _ _ _ _ _ _ _ _ _ F); [by rewrite Hs|done..].
  - exists b, i. split; [by apply (f_view F)|]. split; [apply (f_self F)|]. split; [done|]. split; [done|]. apply (f_events F).
Qed.

Lemma destroy_spec (w : @world T) t l s i oa ob oh ev e :
  focus w t l s i oa ob oh (held (mState i)) ev -> local i oa ob oh -> e_bridgeDestroy e <> BFail ->
  wp (mamaSubscription_destroy e s) w (fun r w' => inv w' /\
    (destructible (mState i) = true -> r = MAMA_STATUS_OK /\
      ((gone w' s /\ events w' = ev ++ announced (onDestroy i) s) \/ waits w' s (onDestroy i) ev))).
Proof.
  intros F (HL & (x & Hx & Hn) & Sh) He. unfold mamaSubscription_destroy. rewrite (focus_zero F). apply wp_bind.
  eapply wp_mono; [apply (deactivate_spec _ _ _ _ _ _ _ _ _ e F); [done|done|destruct ob; cbn in *; lia]|].
  clear F. cbn beta. intros _ w1 (t' & l' & j & oa' & ob' & oh' & F & EL & ED & Sj & D & N). sub_steps.
  assert (0 <= mReferenceCount j - bit ob' <= 1) as Hj by lia. rewrite HL in EL.
  pose proof (deact_result _ _ D) as DR. rewrite <- ED. clear D ED HL Sh N.
  destruct (mState j) eqn:Hs; try done; pose proof Sj as S2; unfold shape in S2; rewrite Hs in S2; try done; destruct_and? S2;
    try match goal with E : exists b, _ |- _ => destruct E as [? E] end; subst;
    try (eapply wp_mono; [apply (finish_destroy _ _ _ _ _ _ F); sub_simpl; (done || cbn in Hj; lia)|];
         cbn beta; sub_simpl; intros r w2 (-> & I & G & Ev); split; [done|]; intros _; split; [done|by left]).
  all: sub_steps.
  all: match goal with
       | F : focus _ _ _ _ _ _ (Some _) _ _ _ |- inv ?w /\ (_ -> MAMA_STATUS_OK = _ /\ _) =>
           destruct (waits_close _ _ _ _ _ _ _ _ _ F) as [I W];
             [done|sub_simpl; lia|sub_simpl; cbn in Hj; lia|unfold shape; sub_simpl; rewrite ?Hs; eauto 8|];
             split; [done|]; intros _; split; [done|by right]
       | F : focus _ _ _ _ _ _ _ _ _ _ |- _ =>
           split; [|by rewrite <- DR]; eapply (focus_inv _ _ _ _ _ _ _ _ _ _ F); unfold shape; sub_simpl; rewrite ?Hs; eauto 8; lia
       end.
Qed.

(** ** The callback of the bridge *)

Definition reactivation (e : env) (s : Z) (t : T) : Prop := activates e /\ (forall t', aq_dispatch s t <> Ok (NoMemory, t')).

Lemma deallocate_destroyed (w : @world T) t l s i oa oh ev e :
  focus w t l s i oa None oh 1 ev -> oa = None -> oh = None -> mQueue i = true -> mCreateDestroyLock i = 0 ->
  mState i = MAMA_SUBSCRIPTION_DEALLOCATING -> mReferenceCount i = 1 ->
  wp (mamaSubscriptionImpl_onSubscriptionDestroyed e s) w (fun _ w' => freed w' s (ev ++ announced (onDestroy i) s)).
Proof.
  intros F -> -> Hq Hl Hs Hn. unfold mamaSubscriptionImpl_onSubscriptionDestroyed. rewrite (focus_zero F). sub_steps.
  rewrite Hq. apply (wp_dec _ eq_refl F). clear F. intros w1 F. sub_steps. rewrite Hs.
  apply wp_bind, (wp_cleanup _ F). clear F. sub_simpl. intros w2 j [E1 E2 E3 E4 E5] F. sub_simpl in E1. sub_simpl in E3. sub_simpl in E5.
  apply wp_bind. apply (wp_mono _ _ (fun _ w' => exists j, focus w' t l s j None None None 0 (ev ++ announced (onDestroy i) s) /\ mReferenceCount j = 1)).
  - unfold mamaSubscriptionImpl_invokeDestroyedCallback. sub_steps. rewrite E5. destruct (onDestroy i); sub_steps.
    + exists j. rewrite app_nil_r. split; [done|congruence].
    + exists j. split; [done|congruence].
    + unfold mamaSubscription_deallocate. rewrite (focus_zero F). sub_steps. rewrite E1, Hs. sub_steps.
      eexists. split; [exact F|]. sub_simpl. congruence.
  - clear F. intros [] w3 (j2 & F & N). sub_steps. apply (impl_deallocate_spec _ _ _ _ _ _ F). sub_simpl. lia.
Qed.

Lemma destroying_destroyed (w : @world T) t l s i ev e :
  focus w t l s i None None None 1 ev -> mQueue i = true -> mCreateDestroyLock i = 0 -> mSubscBridge i = 0 ->
  mState i = MAMA_SUBSCRIPTION_DESTROYING -> 1 <= mReferenceCount i <= 2 -> onDestroy i <> CbDeallocates ->
  wp (mamaSubscriptionImpl_onSubscriptionDestroyed e s) w (fun _ w' =>
    inv w' /\ gone w' s /\ events w' = ev ++ announced (onDestroy i) s).
Proof.
  intros F Hq Hl Hz Hs Hn Hcb. unfold mamaSubscriptionImpl_onSubscriptionDestroyed. rewrite (focus_zero F). sub_steps.
  rewrite Hq. apply (wp_dec _ eq_refl F). clear F. intros w1 F. sub_steps. rewrite Hs.
  apply wp_bind, (wp_cleanup _ F). clear F. sub_simpl. intros w2 j [E1 E2 E3 E4 E5] F.
  sub_simpl in E2. sub_simpl in E3. sub_simpl in E4. sub_simpl in E5. rewrite <- E5 in *.
  sub_steps. unfold mamaSubscriptionImpl_invokeDestroyedCallback. sub_steps.
  destruct (onDestroy j); try done; sub_steps; rewrite ?app_nil_r;
    eapply (gone_close _ _ _ _ _ _ F); sub_simpl; rewrite ?i32_small by lia; done || lia.
Qed.

Lemma reactivating_destroyed (w : @world T) t l s i ev e :
  focus w t l s i None None None 1 ev -> ready i -> basic (mType i) = false -> mCreateDestroyLock i = 0 -> mSubscBridge i = 0 ->
  mState i = MAMA_SUBSCRIPTION_REACTIVATING -> 1 <= mReferenceCount i <= 2 -> reactivation e s t ->
  wp (mamaSubscriptionImpl_onSubscriptionDestroyed e s) w (fun _ w' => inv w').
Proof.
  intros F Hr Hb Hl Hz Hs Hn [He Hm]. unfold mamaSubscriptionImpl_onSubscriptionDestroyed. rewrite (focus_zero F). sub_steps.
  pose proof Hr as (_ & -> & _). apply (wp_dec _ eq_refl F). clear F. intros w1 F. sub_steps. rewrite Hs. sub_steps.
  eapply wp_mono; [apply (activate_start _ _ _ _ _ _ e F); sub_simpl; first [done|by left|lia]|].
  clear F. cbn beta. intros st w2 (t' & l' & j & oa & ob & oh & ev' & F & A & Sh & St & N). sub_steps. sub_simpl in N.
  destruct A as [A1 A2 A3 A4 A5]. sub_simpl in A3.
  eapply (focus_inv _ _ _ _ _ _ _ _ _ _ F); sub_simpl; try done; [lia| |].
  - assert (0 <= bit ob <= 1) by (destruct ob; cbn; lia). rewrite i32_small by lia. lia.
  - unfold shape in *. sub_simpl. by destruct St as [E|E]; rewrite E in *.
Qed.

(** What can be asked of the environment when a bridge subscription that is
    being destroyed calls back. *)
Definition callback_ok (e : env) (s : Z) (t : T) (i : mamaSubscriptionImpl) : Prop :=
  match mState i with
  | MAMA_SUBSCRIPTION_REACTIVATING => reactivation e s t
  | MAMA_SUBSCRIPTION_DESTROYING => onDestroy i <> CbDeallocates
  | _ => True
  end.

Lemma bridge_done_spec (w : @world T) t l s i oa b oh ev e :
  focus w t l s i oa (Some (b, true)) oh (held (mState i)) ev -> local i oa (Some (b, true)) oh -> callback_ok e s t i ->
  wp (run_call e (BridgeDone b)) w (fun _ w' => inv w' /\
    (mState i = MAMA_SUBSCRIPTION_DESTROYING \/ mState i = MAMA_SUBSCRIPTION_DEALLOCATING ->
     gone w' s /\ events w' = ev ++ announced (onDestroy i) s)).
Proof.
  intros F (HL & (x & Hx & Hn) & Sh) He. cbn [bit] in Hn. unfold run_call. apply wp_bind, wp_gets.
  rewrite (proj2 (v_bridge _ _ _ _ _ _ (f_view F) b true) eq_refl).
  apply wp_bind, (wp_bridge_gone _ _ _ F). clear F. intros w1 F. apply wp_bind. unfold callback_ok in He.
  unfold shape in Sh. destruct (mState i) eqn:Hs; try done; try (by destruct_and? Sh); try (by naive_solver); sub_simpl in F.
  - destruct Sh as (_ & _ & Sb & _). destruct (basic (mType i) || _); naive_solver.
  - destruct Sh as (Hr & -> & _ & -> & Hz). pose proof Hr as (_ & Hq & _).
    eapply wp_mono; [apply (destroyed_deactivating _ _ _ _ _ _ _ _ e F); [done|done|lia]|].
    clear F. cbn beta. intros [] w2 (j & F & A & S & N & B). apply wp_ret. split; [|by intros [|]].
    eapply (focus_inv _ _ _ _ _ _ _ _ _ _ F); [by rewrite S|by rewrite (g_lock _ _ A)|cbn; lia|].
    unfold shape. rewrite S. split; [by apply A|]. rewrite B. done.
  - destruct Sh as (Hr & -> & _ & -> & Hz). pose proof Hr as (_ & Hq & _).
    eapply wp_mono; [apply (destroying_destroyed _ _ _ _ _ _ e F); done || lia|]. cbn beta.
    intros [] w2 (I & G & Ev). by apply wp_ret.
  - destruct Sh as (Hr & -> & _ & -> & Hz & Hn1). pose proof Hr as (_ & Hq & _).
    eapply wp_mono; [apply (deallocate_destroyed _ _ _ _ _ _ _ _ e F); done|]. cbn beta.
    intros [] w2 (I & G & Ev). apply wp_ret. split; [done|]. intros _. unfold gone. by rewrite G.
  - destruct Sh as (Hr & Hb & -> & _ & -> & Hz).
    eapply wp_mono; [apply (reactivating_destroyed _ _ _ _ _ _ e F); done || lia|]. cbn beta.
    intros [] w2 I. apply wp_ret. split; [done|by intros [|]].
Qed.

(** ** Set-up *)

(** A set-up that fails leaves the subscription where it was. *)
Definition set_up (w' : @world T) (t : T) (l : list (Z * Z)) (s : Z) (i : mamaSubscriptionImpl) (ev : list event) : Prop :=
  exists j, focus w' t l s j None None None 0 ev /\ mCreateDestroyLock j = mCreateDestroyLock i /\
    mReferenceCount j = mReferenceCount i /\ mSubscBridge j = mSubscBridge i /\
    (mState j = mState i \/ (mState j = MAMA_SUBSCRIPTION_SETUP /\ ready j /\ basic (mType j) = false)).

Lemma set_up_intro w' t l s i j ev :
  focus w' t l s j None None None 0 ev -> mCreateDestroyLock j = mCreateDestroyLock i ->
  mReferenceCount j = mReferenceCount i -> mSubscBridge j = mSubscBridge i -> mState j = mState i -> set_up w' t l s i ev.
Proof. intros. exists j. eauto 6. Qed.

Lemma setup_requests_spec (w : @world T) t l s i ev a :
  focus w t l s i None None None 0 ev -> mTransport i = true -> mQueue i = true -> mBridgeImpl i = true ->
  onCreate i = true -> basic (mType i) = false ->
  wp (setup_requests a s) w (fun _ w' => set_up w' t l s i ev).
Proof.
  intros F R1 R2 R3 R4 Hb. unfold setup_requests.
  destruct (status_ok (a_publisher a)); sub_steps; [|by eapply set_up_intro].
  destruct (status_ok (a_initialRequest a)); sub_steps; [|by eapply set_up_intro].
  destruct (status_ok (a_recapRequest a)); sub_steps; [|by eapply set_up_intro].
  destruct (status_ok (a_listener a)); sub_steps; [|by eapply set_up_intro].
  destruct (status_ok (a_plugin a)); sub_steps; [|by eapply set_up_intro].
  eexists. split; [exact F|]. sub_simpl. split; [done|]. split; [done|]. split; [done|]. right.
  split; [done|]. split; [|done]. unfold ready. sub_simpl. eauto 8.
Qed.

(** The subscription with its options and callbacks, before the requests. *)
Lemma configured_spec a (m : mamaSubscMsgType) (multiple : bool) i cb :
  a_callbacks a = Some cb ->
  exists j, setSubscInfo (a_source a) (symbol_list (mType i) || a_symbol a)
              (set_mGroupSizeHint (group_size_hint (a_groupSizeHint a) (mGroupSizeHint i))
                (set_mSubscMsgType m (set_mQueue true (set_mTransport true
                  (set_mAcceptMultipleInitials multiple (set_callbacks (a_callbacks a) i)))))) = j /\
    mTransport j = true /\ mQueue j = true /\ onCreate j = true /\ mBridgeImpl j = mBridgeImpl i /\ mType j = mType i /\
    mCreateDestroyLock j = mCreateDestroyLock i /\ mReferenceCount j = mReferenceCount i /\
    mSubscBridge j = mSubscBridge i /\ mState j = mState i.
Proof.
  intros ->. eexists. split; [done|]. unfold setSubscInfo, set_callbacks.
  destruct cb, (a_source a), (symbol_list (mType i) || a_symbol a); repeat split.
Qed.

Lemma setupBasic_spec (w : @world T) t l s i ev a :
  focus w t l s i None None None 0 ev -> a_callbacks a <> None ->
  wp (mamaSubscription_setupBasic a s) w (fun _ w' => set_up w' t l s i ev).
Proof.
  intros F Hc. unfold mamaSubscription_setupBasic. rewrite (focus_zero F).
  destruct (a_transport a); [|apply wp_ret; by eapply set_up_intro].
  destruct (a_queue a); [|apply wp_ret; by eapply set_up_intro]. cbn [negb]. sub_steps.
  destruct (a_bridgeImpl a); cbn [negb]; [|apply wp_ret; by eapply set_up_intro].
  destruct (negb (a_deferred a) && negb (a_entitlementBridge a)); [apply wp_ret; by eapply set_up_intro|].
  apply wp_bind.
  apply (wp_mono _ _ (fun _ w' => exists j, focus w' t l s j None None None 0 ev /\ mCreateDestroyLock j = mCreateDestroyLock i /\
    mReferenceCount j = mReferenceCount i /\ mSubscBridge j = mSubscBridge i /\ mState j = mState i /\ mBridgeImpl j = true)).
  { destruct (a_deferred a); sub_steps; eexists; (split; [exact F|done]). }
  clear F. intros [] w1 (j & F & E1 & E2 & E3 & E4 & E5).
  destruct (isEntitledToSymbol a); cbn [negb].
  - sub_steps. set (i1 := set_mSymbol true j) in *.
    match goal with |- wp (match ?x with _ => _ end) _ _ => destruct x as [[m multiple]|] eqn:Em end;
      [|apply wp_ret; by eapply set_up_intro].
    assert (basic (mType j) = false) as Hb.
    { destruct (level_settings i1); [|done]. cbn in Em. by destruct (mType j). }
    destruct (a_callbacks a) as [cb|] eqn:Ecb; [|done]. apply wp_bind, (wp_upd _ _ F). clear F. intros w2 F.
    destruct (configured_spec a m multiple i1 cb Ecb) as (i2 & Ei & K1 & K2 & K3 & K4 & K5 & K6 & K7 & K8 & K9).
    rewrite <- Ecb in F. rewrite Ei in F. subst i1. sub_simpl in K4. sub_simpl in K5. sub_simpl in K6. sub_simpl in K7. sub_simpl in K8. sub_simpl in K9.
    eapply wp_mono; [apply (setup_requests_spec _ _ _ _ _ _ a F); try done; congruence|]. cbn beta.
    intros r w3 (j3 & G & H1 & H2 & H3 & H4). exists j3. split; [done|]. rewrite H1, H2, H3, K6, K7, K8, <- E4, <- K9. done.
  - sub_steps. eapply set_up_intro; [exact F|..]; unfold setSubscInfo; by destruct (a_source a), (a_symbol a).
Qed.

Lemma settable_shape i oa ob oh :
  shape i oa ob oh -> settable (mState i) = true ->
  oa = None /\ ob = None /\ oh = None /\ mSubscBridge i = 0 /\ held (mState i) = 0.
Proof. unfold shape. destruct (mState i); naive_solver. Qed.

Lemma setup_spec (w : @world T) t l s i oa ob oh ev a :
  focus w t l s i oa ob oh (held (mState i)) ev -> local i oa ob oh -> a_callbacks a <> None ->
  wp (mamaSubscription_setup2 a s) w (fun _ w' => inv w').
Proof.
  intros F L Hc. unfold mamaSubscription_setup2. rewrite (focus_zero F). cbn [negb andb].
  destruct (a_transport a && a_queue a) eqn:Ea; cbn [negb]; [|apply wp_ret; by exists l; eapply focus_close].
  destruct L as (HL & (x & Hx & Hn) & Sh). sub_steps. destruct (settable (mState i)) eqn:Es.
  - destruct (settable_shape _ _ _ _ Sh Es) as (-> & -> & -> & Hz & Hh). rewrite Hh in F. eapply wp_mono; [by apply (setupBasic_spec _ _ _ _ _ _ a F)|]. clear F. cbn beta.
    intros r w1 (j & F & E1 & E2 & E3 & E4). sub_simpl in E1. sub_simpl in E2. sub_simpl in E3. sub_simpl in E4. sub_steps.
    cbn in Hn. eapply (focus_inv _ _ _ _ _ _ _ _ _ _ F); unfold shape; sub_simpl; [|lia|lia|].
    + destruct E4 as [E|[E _]]; rewrite E; [done|done].
    + destruct E4 as [E|(E & R & B)]; rewrite E; [destruct (mState i); try done; rewrite E3; done|].
      rewrite E3. done.
  - sub_steps. eapply (focus_inv _ _ _ _ _ _ _ _ _ _ F); sub_simpl; try done; lia.
Qed.

(** ** The other calls *)

Lemma basic_config a cb i :
  a_callbacks a = Some cb ->
  exists j, set_callbacks (a_callbacks a) (set_mType MAMA_SUBSC_TYPE_BASIC (set_mTransport true (set_mSubscSymbol true
              (set_mRequiresInitial false (set_mQueue true i))))) = j /\
    ready (set_mBridgeImpl true j) /\ mBridgeImpl j = mBridgeImpl i /\ mType j = MAMA_SUBSC_TYPE_BASIC /\
    mSubscMsgType j = mSubscMsgType i /\ mSubscHandle j = mSubscHandle i /\
    mCreateDestroyLock j = mCreateDestroyLock i /\ mReferenceCount j = mReferenceCount i /\ mState j = mState i.
Proof. intros ->. eexists. split; [done|]. unfold ready. by destruct cb. Qed.

Lemma createBasic_spec (w : @world T) t l s i oa ob oh ev e a :
  focus w t l s i oa ob oh (held (mState i)) ev -> local i oa ob oh ->
  a_callbacks a <> None -> e_bridgeCreate e = MAMA_STATUS_OK ->
  (snapshot (mSubscMsgType i) = false -> mSubscHandle i = 0) ->
  wp (mamaSubscriptionImpl_createBasic e a s) w (fun _ w' => inv w').
Proof.
  intros F L Hc He Hh. unfold mamaSubscriptionImpl_createBasic. rewrite (focus_zero F). cbn [negb andb].
  destruct (a_transport a && a_symbol a); cbn [negb]; [|apply wp_ret; by exists l; eapply focus_close].
  destruct (a_queue a); cbn [negb]; [|apply wp_ret; by exists l; eapply focus_close].
  destruct L as (HL & (x & Hx & Hn) & Sh). sub_steps. destruct (settable (mState i)) eqn:Es.
  2:{ sub_steps. eapply (focus_inv _ _ _ _ _ _ _ _ _ _ F); sub_simpl; try done; lia. }
  destruct (settable_shape _ _ _ _ Sh Es) as (-> & -> & -> & Hz & Hk). rewrite Hk in F. cbn in Hn. sub_steps.
  destruct (a_bridgeImpl a); cbn [negb].
  2:{ sub_steps. eapply (focus_inv _ _ _ _ _ _ _ _ _ _ F); sub_simpl; try done; try lia. unfold shape. sub_simpl.
      by destruct (mState i). }
  destruct (a_callbacks a) as [cb|] eqn:Ecb; [|done]. apply wp_bind, (wp_upd _ _ F). clear F. intros w2 F.
  set (i1 := set_mBridgeImpl true _) in F. destruct (basic_config a cb i1 Ecb) as (i2 & Ei & K1 & K2 & K3 & K4 & K5 & K6 & K7 & K8).
  rewrite Ecb in Ei. rewrite Ei in F. subst i1. sub_simpl in K4. sub_simpl in K5. sub_simpl in K6. sub_simpl in K7. clear Ei.
  unfold mamaSubscriptionImpl_completeBasicInitialisation. rewrite (focus_zero F). sub_steps.
  rewrite bool_decide_true by done. apply wp_bind. apply (wp_bridge_create _ _ F); [done..|]. clear F. intros w3 b Hb F.
  sub_steps. apply (wp_inc _ eq_refl F). clear F. intros w4 F. sub_steps.
  eapply wp_mono; [apply (onCreate_spec _ _ _ _ _ _ _ _ _ _ F); apply K1|]. clear F. cbn beta. intros [] w5 F. sub_steps.
  assert (mBridgeImpl i2 = true) as KB by exact K2.
  eapply (focus_inv _ _ _ _ _ _ _ _ _ _ F); sub_simpl; [done|lia|cbn; rewrite i32_small; lia|].
  unfold shape. sub_simpl. rewrite K3, K4, K5. cbn [basic orb]. split; [|done].
  destruct K1 as (R1 & R2 & _ & R4 & _). unfold ready. sub_simpl. by rewrite K3.
Qed.

Lemma activate_spec (w : @world T) t l s i oa ob oh ev e :
  focus w t l s i oa ob oh (held (mState i)) ev -> local i oa ob oh -> reactivation e s t ->
  wp (mamaSubscription_activate e s) w (fun _ w' => inv w').
Proof.
  intros F (HL & (x & Hx & Hn) & Sh) [He Hm].
  destruct (decide (basic (mType i) = false /\
    (mState i = MAMA_SUBSCRIPTION_DEACTIVATED \/ mState i = MAMA_SUBSCRIPTION_SETUP))) as [[Hb Hs]|Hd].
  - assert (ready i /\ oa = None /\ ob = None /\ oh = None /\ mSubscBridge i = 0 /\ held (mState i) = 0)
      as (Hr & -> & -> & -> & Hz & Hk) by (unfold shape in Sh; destruct Hs as [E|E]; rewrite E in *; naive_solver).
    cbn in Hn. rewrite Hk in F.
    eapply wp_mono; [apply (activate_start _ _ _ _ _ _ e F); first [done|lia]|]. clear F. cbn beta.
    intros r w1 (t' & l' & j & oa & ob & oh & ev' & F & A & Sj & St & N).
    eapply (focus_inv _ _ _ _ _ _ _ _ _ _ F); [done|by rewrite (g_lock _ _ A)|lia|done].
  - unfold mamaSubscription_activate. rewrite (focus_zero F). sub_steps.
    assert (forall r : mama_status, wp (mret r : M _ _) w0 (fun a s' => wp (wlock_unlock s ;; mret a) s' (fun _ w' => inv w'))) as Hsame.
    { intros r. sub_steps. eapply (focus_inv _ _ _ _ _ _ _ _ _ _ F); sub_simpl; try done; lia. }
    destruct (basic (mType i)) eqn:Hb; [apply Hsame|].
    destruct (mState i) eqn:Hs; try apply Hsame; try (by destruct Hd; auto).
    sub_steps. unfold shape in Sh. rewrite Hs in Sh.
    eapply (focus_inv _ _ _ _ _ _ _ _ _ _ F); unfold shape; sub_simpl; [done|lia|lia|]. naive_solver.
Qed.

Lemma deallocate_spec (w : @world T) t l s i oa ob oh ev :
  focus w t l s i oa ob oh (held (mState i)) ev -> local i oa ob oh ->
  (mState i = MAMA_SUBSCRIPTION_DESTROYING -> mReferenceCount i = 1) ->
  wp (mamaSubscription_deallocate s) w (fun _ w' => inv w').
Proof.
  intros F (HL & (x & Hx & Hn) & Sh) Hd. destruct (settable (mState i)) eqn:Es.
  - destruct (settable_shape _ _ _ _ Sh Es) as (-> & -> & -> & Hz & Hk). rewrite Hk in F. cbn in Hn.
    eapply wp_mono; [apply (deallocate_settable _ _ _ _ _ _ F); [done|lia]|]. cbn beta. by intros r w1 (I & _).
  - unfold mamaSubscription_deallocate. rewrite (focus_zero F). sub_steps.
    assert (forall r : mama_status, wp (wlock_unlock s ;; mret r) w0 (fun _ w' => inv w')) as Hsame.
    { intros r. sub_steps. eapply (focus_inv _ _ _ _ _ _ _ _ _ _ F); sub_simpl; try done; lia. }
    destruct (mState i) eqn:Hs; try apply Hsame; try done. sub_steps. unfold shape in Sh. rewrite Hs in Sh.
    eapply (focus_inv _ _ _ _ _ _ _ _ _ _ F); unfold shape; sub_simpl; [done|lia|lia|]. naive_solver.
Qed.

Lemma option_spec (w : @world T) t l s i oa ob oh ev f (r : mama_status) :
  focus w t l s i oa ob oh (held (mState i)) ev -> local i oa ob oh ->
  mState (f i) = mState i -> local (f i) oa ob oh -> wp (upd s f ;; mret r) w (fun _ w' => inv w').
Proof.
  intros F L E L'. sub_steps. exists l. eapply focus_close; [rewrite E; exact F|done].
Qed.

Lemma tick_spec (w : @world T) l e :
  inv_at w l -> activates e -> wp (run_call e Tick) w (fun _ w' => inv w').
Proof.
  intros I He. unfold run_call. apply wp_bind, wp_on_throttle. eapply wp_mono; [apply aq_pop_law, I|]. cbn beta.
  intros r t [-> R]. destruct I as [_ N O S C U]. destruct l as [|[h s] l]; cbn in *.
  - apply wp_ret. exists []. split; cbn; try done; [by destruct O|]. intros s i E.
    destruct (U s i E) as (oa & ob & oh & V & L). exists oa, ob, oh. split; [by destruct V|done].
  - destruct (o_act _ _ O h s ltac:(left)) as [i E]. destruct (U s i E) as (oa & ob & oh & V & (HL & (x & Hx & Hn) & Sh)).
    pose proof (proj1 (v_act _ _ _ _ _ _ V h) ltac:(left)) as ->.
    assert (mState i = MAMA_SUBSCRIPTION_ACTIVATING) as Hs.
    { unfold shape in Sh. destruct (mState i); naive_solver. }
    pose proof Sh as Sh'. unfold shape in Sh'. rewrite Hs in Sh'. destruct Sh' as (Hr & Hb & Ha & -> & -> & Hz). cbn in Hn.
    apply NoDup_cons in N as [N1 N2].
    assert (focus (set_throttle t w) t l s i None None None 0 (events w)) as F.
    { split; cbn; try done.
      - destruct O as [A B L K1 K2]. split; cbn; try done. intros h' x' Hi. apply (A h'). by right.
      - rewrite C, (open_objects_delete _ _ _ E), Hs. done.
      - destruct V as [V1 V2 V3]. split; cbn; try done. intros h'. split; [|done]. intros Hi.
        pose proof (proj1 (V1 h') ltac:(by right)) as [= ->]. destruct N1. by apply (list_elem_of_fmap_2 fst) in Hi.
      - intros s' i' Hne E'. destruct (U s' i' E') as (oa' & ob' & oh' & [V1 V2 V3] & L). exists oa', ob', oh'.
        split; [|done]. split; cbn; try done. intros h'. rewrite <- V1, elem_of_cons. naive_solver. }
    apply wp_bind, wp_bind. eapply wp_mono; [apply (complete_spec _ _ _ _ _ _ e F); done || lia|]. clear F. cbn beta.
    intros r w1 (j & ob & oh & F & A & Sj & Shj & Nj). sub_steps.
    eapply (focus_inv _ _ _ _ _ _ _ _ _ _ F); [by rewrite Sj|by rewrite (g_lock _ _ A)|lia|done].
Qed.
End props.
