(* ===== verification/SubscriptionProps.v ===== *)
(** * Subscriptions: safety, destruction, failures

    Every call keeps the invariant of SubscriptionInv.v and dereferences nothing
    that is gone, as long as the middleware and the memory do not fail it, and
    the destruction of a subscription completes and is announced once.  The last
    part has the failures: what a failed creation of the bridge subscription
    leads to, and what happens when the user deallocates from [onDestroy]. *)

From S2P Require Import Prelude MamaStatus Subscription SubscriptionInv SubscriptionSteps.
Import Subscription.

Section props.

Context {T : Type} `{ActionQueue T}.

(** What a call asks of its caller and of the world around: the subscription
    exists; nothing is created without memory, nothing refused by the bridge;
    the type is set before the set-up; a wrapper's reference is dropped by the
    wrapper. *)
Definition good (e : env) (c : scall) (w : @world T) : Prop :=
  let at_ s (P : mamaSubscriptionImpl -> Prop) := exists i, subs w !! s = Some i /\ P i in
  match c with
  | Allocate => Z.of_nat (size (subs w)) + 1 < 2 ^ 31
  | Register s => at_ s (fun i => mState i = MAMA_SUBSCRIPTION_ALLOCATED /\ mReferenceCount i = 0)
  | SetType _ s => at_ s (fun i => settable (mState i) = true)
  | SetLevel _ s | SetRequiresInitial _ s => at_ s (fun _ => True)
  | Setup a s => at_ s (fun _ => a_callbacks a <> None)
  | CreateBasic a s => at_ s (fun i => a_callbacks a <> None /\ e_bridgeCreate e = MAMA_STATUS_OK /\
                                      (snapshot (mSubscMsgType i) = false -> mSubscHandle i = 0))
  | Activate s => at_ s (fun _ => reactivation e s (throttle w))
  | Deactivate s | Destroy s => at_ s (fun _ => e_bridgeDestroy e <> BFail)
  | Deallocate s => at_ s (fun i => mState i = MAMA_SUBSCRIPTION_DESTROYING -> mReferenceCount i = 1)
  | Tick => activates e
  | BridgeDone b => forall s, bridges w !! b = Some (s, true) -> at_ s (callback_ok e s (throttle w))
  end.

Fixpoint legal (l : list (env * scall)) (w : @world T) : Prop :=
  match l with
  | [] => True
  | (e, c) :: l' => good e c w /\ forall r w', run_call e c w = Ok (r, w') -> legal l' w'
  end.

Lemma allocate_inv (w : @world T) e :
  inv w -> good e Allocate w -> wp (run_call e Allocate) w (fun _ w' => inv w').
Proof.
  intros [l [R N O S C U]] G. cbn in G. apply wp_bind. unfold mamaSubscription_allocate.
  apply wp_bind, wp_bind, wp_gets, wp_bind, wp_modify, wp_ret, wp_bind, wp_modify, wp_ret, wp_ret.
  assert (subs w !! brk w = None) as Hn.
  { apply eq_None_not_Some. intros Hs%(o_subs _ _ O). lia. }
  assert (forall x, is_Some (subs w !! x) -> is_Some (<[brk w := allocated]> (subs w) !! x)) as Hm.
  { intros x. rewrite lookup_insert_is_Some'. tauto. }
  exists l. split; cbn; try done.
  - destruct O as [A B L K1 K2]. split; cbn; [..|lia].
    + intros h x Hi. eauto.
    + intros b x c Hi. destruct (B b x c Hi). split; [auto|lia].
    + intros h x Hi. destruct (L h x Hi). split; [auto|lia].
    + intros x. rewrite lookup_insert_is_Some'. intros [<-|Hx]; [lia|]. specialize (K1 x Hx). lia.
  - rewrite map_size_insert_None by done. lia.
  - rewrite open_objects_insert, delete_id by done. cbn. lia.
  - intros s i. rewrite lookup_insert_Some. intros [[<- <-]|[Hne E]].
    + exists None, None, None. split; [|split; [done|split; [exists 0; cbn; lia|done]]].
      assert (forall x, x = brk w -> subs w !! x = None) as Hx by (by intros x ->).
      split; cbn.
      * intros h. split; [|done]. intros [? Hi]%(o_act _ _ O). congruence.
      * intros b c. split; [|done]. intros [[? Hi] _]%(o_bridge _ _ O). congruence.
      * intros h. split; [|done]. intros [[? Hi] _]%(o_listener _ _ O). congruence.
    + destruct (U s i E) as (oa & ob & oh & V & L). exists oa, ob, oh. split; [by destruct V|done].
Qed.

Lemma call_inv (w : @world T) e c : inv w -> good e c w -> wp (run_call e c) w (fun _ w' => inv w').
Proof.
  intros I G. destruct c as [|s|t s|lv s|b s|a s|a s|s|s|s|s| |b]; [by apply allocate_inv|..];
    try (destruct G as (i & E & P); destruct I as [l I]; destruct (focus_open _ _ _ _ I E) as (oa & ob & oh & F & L)).
  - destruct P as [Hs Hn]. eapply option_spec; [done..|]. destruct L as (HL & _ & Sh).
    unfold shape in Sh. rewrite Hs in Sh. destruct Sh as (-> & -> & -> & Hz).
    split; [done|]. split; [exists 1; cbn; rewrite Hn; done|]. unfold shape. cbn [mState set_mReferenceCount]. by rewrite Hs.
  - unfold run_call, mamaSubscription_setSubscriptionType. rewrite (focus_zero F). eapply option_spec; [done..|].
    destruct L as (HL & Hx & Sh). split; [done|]. split; [done|]. unfold shape in *. cbn [mState set_mType].
    by destruct (mState i).
  - unfold run_call, mamaSubscription_setServiceLevel. rewrite (focus_zero F). by eapply option_spec.
  - unfold run_call, mamaSubscription_setRequiresInitial. rewrite (focus_zero F). by eapply option_spec.
  - by eapply setup_spec.
  - destruct P as (P1 & P2 & P3). by eapply createBasic_spec.
  - by eapply activate_spec.
  - unfold run_call. destruct L as (HL & (x & Hx & Hn) & Sh).
    eapply wp_mono; [apply (deactivate_spec _ _ _ _ _ _ _ _ _ e F); [done|done|destruct ob; cbn in *; lia]|]. cbn beta.
    intros r w1 (t' & l' & j & oa' & ob' & oh' & G & EL & ED & Sj & D & N).
    eapply (focus_inv _ _ _ _ _ _ _ _ _ _ G); [done|congruence|lia|done].
  - unfold run_call. eapply wp_mono; [by apply (destroy_spec _ _ _ _ _ _ _ _ _ e F)|]. cbn beta. by intros r w1 [? _].
  - by eapply deallocate_spec.
  - destruct I as [l I]. by eapply tick_spec.
  - destruct (bridges w !! b) as [[s []]|] eqn:Eb.
    + destruct (G s Eb) as (i & E & P). destruct I as [l I]. destruct (focus_open _ _ _ _ I E) as (oa & ob & oh & F & L).
      pose proof (proj1 (v_bridge _ _ _ _ _ _ (f_view F) b true) Eb) as ->.
      eapply wp_mono; [by apply (bridge_done_spec _ _ _ _ _ _ _ _ _ e F)|]. cbn beta. by intros r w1 [? _].
    + unfold run_call. apply wp_bind, wp_gets. rewrite Eb. by apply wp_ret.
    + unfold run_call. apply wp_bind, wp_gets. rewrite Eb. by apply wp_ret.
Qed.
Lemma calls_inv l : forall (w : @world T), inv w -> legal l w -> wp (run_calls l) w (fun _ w' => inv w').
Proof.
  induction l as [|[e c] l IH]; intros w I L; [by apply wp_ret|]. destruct L as [G L].
  destruct (proj1 (wp_elim _ _ _) (call_inv w e c I G)) as (r & w1 & E & I1).
  apply wp_bind, wp_elim. exists r, w1. split; [done|]. apply wp_bind.
  eapply wp_mono; [by apply IH; [|by eapply L]|]. by intros.
Qed.

(** The world before anything was allocated. *)
Definition empty_world (t : T) : @world T := mkWorld ∅ t ∅ ∅ 0 1 [].

Lemma empty_inv t : aq_rep t [] -> inv (empty_world t).
Proof.
  intros R. exists []. split; [done|constructor| |done|done|]; [|cbn; intros s i; by rewrite lookup_empty].
  split; [| | | |done]; cbn.
  - by intros h s ?%elem_of_nil.
  - intros b s c. by rewrite lookup_empty.
  - intros h s. by rewrite lookup_empty.
  - intros s. rewrite lookup_empty. by intros [].
Qed.

(** ** Claims *)

(** C20: destroying a subscription that was set up, and is neither destroyed yet nor
    about to be deallocated, answers MAMA_STATUS_OK, from each of the states SETUP,
    ACTIVATING, ACTIVATED, DEACTIVATING, DEACTIVATED, REACTIVATING and DESTROYING,
    when the bridge accepts to destroy its subscription and the user's [onDestroy]
    does not deallocate it; either it is destroyed at once, with one [onDestroy]
    callback, or exactly the bridge's callback is missing, and when that comes the
    subscription is destroyed, with one [onDestroy] callback.  (A bridge
    subscription that could not be created never calls back:
    [bridge_failure_wedges]; an [onDestroy] that deallocates crashes:
    [deallocate_in_callback_crashes].) *)
Theorem destroy_completes (w : @world T) s i e e' :
  inv w -> subs w !! s = Some i -> destructible (mState i) = true -> onDestroy i = CbRecords -> e_bridgeDestroy e <> BFail ->
  wp (mamaSubscription_destroy e s) w (fun r w1 => r = MAMA_STATUS_OK /\
    ((gone w1 s /\ events w1 = events w ++ [OnDestroy s]) \/
     (exists b, bridges w1 !! b = Some (s, true) /\
        wp (run_call e' (BridgeDone b)) w1 (fun _ w2 => gone w2 s /\ events w2 = events w ++ [OnDestroy s])))).
Proof.
  intros [l I] E Hd Hcb He. destruct (focus_open _ _ _ _ I E) as (oa & ob & oh & F & L).
  eapply wp_mono; [by apply (destroy_spec _ _ _ _ _ _ _ _ _ e F)|]. clear F. cbn beta.
  intros r w1 [[l1 I1] D]. destruct (D Hd) as [-> D']. split; [done|]. rewrite Hcb in D'. clear D.
  destruct D' as [D|(b & j & Eb & Ej & Hs & Hj & Ev)]; [by left|]. right. exists b. split; [done|].
  destruct (focus_open _ _ _ _ I1 Ej) as (oa1 & ob1 & oh1 & F & L1).
  pose proof (proj1 (v_bridge _ _ _ _ _ _ (f_view F) b true) Eb) as ->.
  eapply wp_mono; [apply (bridge_done_spec _ _ _ _ _ _ _ _ _ e' F); [done|unfold callback_ok; by rewrite Hs, Hj]|].
  cbn beta. intros r w2 [_ G]. destruct (G ltac:(by left)) as [G1 G2]. split; [done|]. rewrite G2, Ev, Hj. done.
Qed.

(** ** When the bridge creates nothing

    The subscription alone, without a bridge subscription; [n] is the count of
    its queue, [L] are the listeners of the transport. *)
Record lone (w : @world T) (s : Z) (i : mamaSubscriptionImpl) (n : Z) (L : gmap Z Z) : Prop := mkLone {
  n_self : subs w !! s = Some i;
  n_id : (s =? 0) = false;
  n_bridges : forall b c, bridges w !! b <> Some (s, c);
  n_count : mNumberOpenObjects w = n;
  n_listeners : listeners w = L;
}.

Lemma lone_ld w s i n L (Q : mamaSubscriptionImpl -> world -> Prop) : lone w s i n L -> Q i w -> wp (ld s) w Q.
Proof. intros [E _ _ _ _]. by apply wp_ld. Qed.

Lemma lone_upd {w s i n L} f (Q : unit -> world -> Prop) :
  lone w s i n L -> (forall w', lone w' s (f i) n L -> Q tt w') -> wp (upd s f) w Q.
Proof.
  intros [E Hs B C EL] HQ. apply wp_bind, (wp_ld _ _ _ _ E), wp_modify, HQ. split; try done. cbn. by rewrite lookup_insert_eq.
Qed.

Lemma lone_say {w s i n L} e (Q : unit -> world -> Prop) :
  lone w s i n L -> (forall w', lone w' s i n L -> Q tt w') -> wp (say e) w Q.
Proof. intros [E Hs B C EL] HQ. by apply wp_modify, HQ. Qed.
End props.

Ltac lone_step :=
  match goal with
  | |- wp (mbind _ _) _ _ => apply wp_bind
  | F : lone ?w ?s _ _ _ |- wp (ld ?s) ?w _ => apply (lone_ld _ _ _ _ _ _ F)
  | F : lone ?w ?s _ _ _ |- wp (upd ?s ?f) ?w _ =>
      let w' := fresh "w" in let F' := fresh "F" in
      apply (lone_upd f _ F); intros w' F'; clear F; rename F' into F; try clear w
  | F : lone ?w ?s _ _ _ |- wp (say ?e) ?w _ =>
      let w' := fresh "w" in let F' := fresh "F" in
      apply (lone_say e _ F); intros w' F'; clear F; rename F' into F; try clear w
  | |- wp (wlock_lock _) _ _ => unfold wlock_lock
  | |- wp (wlock_unlock _) _ _ => unfold wlock_unlock
  | |- wp (mamaSubscriptionImpl_setState _ _) _ _ => unfold mamaSubscriptionImpl_setState
  | |- wp (wInterlocked_increment _) _ _ => unfold wInterlocked_increment
  | |- wp (wInterlocked_decrement _) _ _ => unfold wInterlocked_decrement
  | |- wp (mret _) _ _ => apply wp_ret
  end.

Ltac lone_steps := repeat (cbn beta; sub_simpl; lone_step); cbn beta; sub_simpl.

Section failures.

Context {T : Type} `{ActionQueue T}.

Definition descending (st : mamaSubscriptionState) : bool :=
  match st with
  | MAMA_SUBSCRIPTION_DEACTIVATING | MAMA_SUBSCRIPTION_REACTIVATING | MAMA_SUBSCRIPTION_DESTROYING
  | MAMA_SUBSCRIPTION_DEALLOCATING => true
  | _ => false
  end.

(** On its way down, but no bridge subscription will call back. *)
Definition wedged (w : @world T) (s n : Z) : Prop := exists i L, lone w s i n L /\ descending (mState i) = true.

(** The calls the application can make on a subscription. *)
Definition on_subscription (s : Z) (c : scall) : Prop :=
  match c with
  | Register x | SetType _ x | SetLevel _ x | SetRequiresInitial _ x | Setup _ x | CreateBasic _ x
  | Activate x | Deactivate x | Destroy x | Deallocate x => x = s
  | _ => False
  end.

Lemma deactivate_wedged (w : @world T) s n e :
  wedged w s n -> wp (mamaSubscription_deactivate e s) w (fun _ w' => wedged w' s n).
Proof.
  intros (i & L & F & D). unfold mamaSubscription_deactivate. rewrite (n_id _ _ _ _ _ F). lone_steps.
  unfold deactivate_basic, deactivate_market_data.
  destruct (basic (mType i)); sub_simpl; destruct (mState i) eqn:Hs; try done; lone_steps;
    (eexists _, _; split; [exact F|]); sub_simpl; by rewrite ?Hs.
Qed.

(** Run on, splitting at every test, down to a subscription that is still
    wedged. *)
Ltac wedge :=
  repeat (lone_steps; try match goal with
    | |- wp (match mState ?i with _ => _ end) _ _ => destruct (mState i) eqn:?; try done
    | |- wp (if settable (mState ?i) then _ else _) _ _ => destruct (mState i) eqn:?; try done
    | |- wp (if ?b then _ else _) _ _ => destruct b
    end);
  match goal with
  | F : lone ?w ?s _ _ _ |- wedged ?w ?s _ => eexists _, _; split; [exact F|]; sub_simpl; first [done|congruence]
  end.

Lemma wedged_call (w : @world T) s n e c :
  wedged w s n -> on_subscription s c -> wp (run_call e c) w (fun _ w' => wedged w' s n).
Proof.
  intros W Hc. destruct c as [|x|t x|lv x|b x|a x|a x|x|x|x|x| |b]; cbn in Hc; try done; subst; unfold run_call;
    [..|by apply deactivate_wedged| |].
  8: unfold mamaSubscription_destroy; destruct W as (i & L & F & D); rewrite (n_id _ _ _ _ _ F); apply wp_bind;
     (eapply wp_mono; [apply deactivate_wedged; by exists i, L|]); clear i F D; cbn beta; intros _ w1 (i & L1 & F & D); wedge.
  all: destruct W as (i & L & F & D);
    unfold mamaSubscriptionImpl_registerReference, mamaSubscription_setSubscriptionType, mamaSubscription_setServiceLevel,
      mamaSubscription_setRequiresInitial, mamaSubscription_setup2, mamaSubscriptionImpl_createBasic, mamaSubscription_activate,
      mamaSubscription_deallocate; rewrite ?(n_id _ _ _ _ _ F); cbn [negb andb].
  all: wedge.
Qed.

Lemma wedged_calls s n cs : forall (w : @world T), wedged w s n -> Forall (fun ec => on_subscription s ec.2) cs ->
  wp (run_calls cs) w (fun _ w' => wedged w' s n).
Proof.
  induction cs as [|[e c] cs IH]; intros w W Hc; [by apply wp_ret|]. inversion_clear Hc as [|? ? H1 H2].
  apply wp_bind. eapply wp_mono; [by apply wedged_call|]. cbn beta. intros r w1 W1. apply wp_bind.
  eapply wp_mono; [by apply IH|]. by intros.
Qed.

Lemma initialize_unbridged (w : @world T) s i n L e :
  lone w s i n L -> snapshot (mSubscMsgType i) = false -> is_Some (mInitialRequest i) -> status_ok (e_bridgeCreate e) = false ->
  wp (mamaSubscription_initialize e s) w (fun _ w' => exists j, lone w' s j (i32 (n + 1)) L /\
    mSubscHandle j = mSubscHandle i /\ mSubscMsgType j = mSubscMsgType i /\ mType j = mType i /\
    mSubscBridge j = mSubscBridge i /\ onCreate j = onCreate i).
Proof.
  intros F Hm [rq Hrq] He. unfold mamaSubscription_initialize, bridge_create, imageRequest_sendRequest.
  lone_steps. rewrite Hm, He. lone_steps. rewrite He. lone_steps. destruct (mRequiresInitial i); lone_steps; rewrite ?Hrq; lone_steps;
    match goal with |- wp (if ?b then _ else _) _ _ => destruct b end; lone_steps;
    apply wp_modify; eexists; (split; [destruct F as [F1 F2 F3 F4 F5]; split; cbn; try done; by rewrite F4|done]).
Qed.

(** Coming off the throttle without getting a bridge subscription: active all
    the same. *)
Lemma complete_unbridged (w : @world T) s i n L e :
  lone w s i n L -> mState i = MAMA_SUBSCRIPTION_ACTIVATING -> snapshot (mSubscMsgType i) = false -> basic (mType i) = false ->
  ready i -> mSubscBridge i = 0 -> e_listenerMem e = true -> status_ok (e_bridgeCreate e) = false ->
  wp (createAction e s) w (fun _ w' => exists j L', lone w' s j (i32 (n + 1)) L' /\ is_Some (L' !! mSubscHandle j) /\
    mState j = MAMA_SUBSCRIPTION_ACTIVATED /\ snapshot (mSubscMsgType j) = false /\ basic (mType j) = false /\ mSubscBridge j = 0).
Proof.
  intros F Hs Hm Hb (R1 & R2 & R3 & R4 & R5) Hz Hl He.
  unfold createAction, mamaSubscriptionImpl_completeMarketDataInitialisation. rewrite (n_id _ _ _ _ _ F). lone_steps.
  rewrite bool_decide_true by done. rewrite Hm. unfold mamaTransport_addSubscription. lone_steps. rewrite R1, Hl. cbn [negb].
  apply wp_bind, wp_bind, wp_gets, wp_bind, wp_modify, wp_ret, wp_bind, wp_modify. set (w1 := set_listeners _ _).
  set (i1 := set_mAction 0 _) in F.
  assert (lone w1 s i1 n (<[brk w := s]> L)) as F1 by (destruct F as [F1 F2 F3 F4 F5]; split; cbn; try done; by rewrite F5).
  clear F. rename F1 into F. clearbody w1. lone_steps.
  eapply wp_mono; [apply (initialize_unbridged _ _ _ _ _ e F); [done|by apply R5|done]|]. clear F. cbn beta.
  intros [] w2 (j & F & E1 & E2 & E3 & E4 & E5). subst i1. sub_simpl in E1. sub_simpl in E2. sub_simpl in E3. sub_simpl in E4. sub_simpl in E5.
  lone_steps. unfold call_onCreate. lone_steps. rewrite E5, R4. lone_steps. eexists _, _. split; [exact F|]. sub_simpl.
  rewrite E1, lookup_insert_eq, E2, E3, E4. eauto 8.
Qed.

Lemma lone_remove (w : @world T) s i n L h (b : bool) :
  lone w s i n L -> is_Some (L !! h) ->
  wp (if b then mamaTransport_removeListener h else mret tt) w (fun _ w' => exists L', lone w' s i n L').
Proof.
  intros F [x Hx]. destruct b; [|apply wp_ret; eauto]. unfold mamaTransport_removeListener.
  destruct (h =? 0); [apply wp_ret; eauto|]. apply wp_bind, wp_gets. rewrite (n_listeners _ _ _ _ _ F), Hx.
  apply wp_modify. eexists. destruct F as [F1 F2 F3 F4 F5]. by split.
Qed.

Lemma destroy_unbridged (w : @world T) s i n L e :
  lone w s i n L -> is_Some (L !! mSubscHandle i) -> mState i = MAMA_SUBSCRIPTION_ACTIVATED ->
  snapshot (mSubscMsgType i) = false -> basic (mType i) = false -> mSubscBridge i = 0 ->
  wp (mamaSubscription_destroy e s) w (fun r w' => r = MAMA_STATUS_OK /\ wedged w' s n).
Proof.
  intros F Hx Hs Hm Hb Hz. unfold mamaSubscription_destroy, mamaSubscription_deactivate. rewrite (n_id _ _ _ _ _ F).
  lone_steps. rewrite Hb. unfold deactivate_market_data. sub_simpl. rewrite Hs. unfold mamaSubscription_deactivate_internal. lone_steps.
  set (i1 := set_mState _ _) in *. destruct (stopped_core i1) as [A C1 C2 C3 C4 C5]. set (j := stopped i1) in *. clearbody j.
  eapply wp_mono; [apply (lone_remove _ _ _ _ _ _ _ F); by rewrite C2|]. clear F. cbn beta. intros [] w1 [L1 F]. lone_steps.
  rewrite C3. change (mSubscBridge i1) with (mSubscBridge i). rewrite Hz. cbn [Z.eqb negb andb]. lone_steps.
  rewrite (g_msg _ _ A). change (mSubscMsgType i1) with (mSubscMsgType i). rewrite Hm. lone_steps. rewrite C1.
  change (mState i1) with MAMA_SUBSCRIPTION_DEACTIVATING. lone_steps.
  split; [done|]. by eexists _, _.
Qed.

(** a middleware that refuses the subscription wedges it for ever.  The
    activation ends in the state ACTIVATED with the user's [onCreate] called, and
    the destruction that follows answers MAMA_STATUS_OK; but no bridge
    subscription exists whose callback would complete it, so whatever the
    application then calls, the subscription is neither destroyed nor
    deallocated, and it stays an open object of its queue. *)
Theorem bridge_failure_wedges (w : @world T) s i e e' cs :
  s <> 0 -> subs w !! s = Some i -> (forall b c, bridges w !! b <> Some (s, c)) ->
  mState i = MAMA_SUBSCRIPTION_ACTIVATING -> snapshot (mSubscMsgType i) = false -> basic (mType i) = false -> ready i ->
  mSubscBridge i = 0 -> e_listenerMem e = true -> status_ok (e_bridgeCreate e) = false ->
  Forall (fun ec => on_subscription s ec.2) cs ->
  wp (createAction e s) w (fun _ w1 =>
    (exists j, subs w1 !! s = Some j /\ mState j = MAMA_SUBSCRIPTION_ACTIVATED) /\
    wp (mamaSubscription_destroy e' s) w1 (fun r w2 => r = MAMA_STATUS_OK /\
      wp (run_calls cs) w2 (fun _ w3 => wedged w3 s (i32 (mNumberOpenObjects w + 1))))).
Proof.
  intros Hs0 E B Hs Hm Hb Hr Hz Hl He Hcs.
  assert (lone w s i (mNumberOpenObjects w) (listeners w)) as F by (split; try done; by apply Z.eqb_neq).
  eapply wp_mono; [by apply (complete_unbridged _ _ _ _ _ e F)|]. clear F. cbn beta.
  intros [] w1 (j & L & F & Hx & Sj & Mj & Bj & Zj). split; [exists j; split; [apply F|done]|].
  eapply wp_mono; [by apply (destroy_unbridged _ _ _ _ _ e' F)|]. cbn beta. intros r w2 [-> W]. split; [done|].
  by apply wedged_calls.
Qed.

(** ** Deallocation from the callback *)

Lemma bind_fail {S A B} (m : M S A) (k : A -> M S B) (s : S) Q f :
  wp m s Q -> (forall a s', Q a s' -> k a s' = Fail f) -> (m ≫= k) s = Fail f.
Proof. intros (a & s' & E & HQ)%wp_elim Hk. unfold mbind, M_bind. rewrite E. by apply Hk. Qed.

Lemma callback_freed (w : @world T) t l s i oa oh ev e :
  focus w t l s i oa None oh 1 ev -> oa = None -> oh = None -> mQueue i = true ->
  mState i = MAMA_SUBSCRIPTION_DESTROYING -> mReferenceCount i = 1 -> onDestroy i = CbDeallocates ->
  mamaSubscriptionImpl_onSubscriptionDestroyed e s w = Fail InvalidDeref.
Proof.
  intros F -> -> Hq Hs Hn Hcb. unfold mamaSubscriptionImpl_onSubscriptionDestroyed. rewrite (focus_zero F).
  eapply bind_fail; [apply (wp_ld_focus (fun r w' => r = i /\ w' = w) F); done|]. intros ? ? [-> ->]. rewrite Hq.
  eapply (bind_fail _ _ _ (fun _ w' => focus w' t l s i None None None 0 ev)); [by apply (wp_dec _ eq_refl F)|]. clear F. cbn beta. intros [] w1 F.
  eapply (bind_fail _ _ _ (fun _ w' => focus w' t l s (set_mCreateDestroyLock (mCreateDestroyLock i + 1) i) None None None 0 ev));
    [by apply (wp_upd _ _ F)|]. clear F. cbn beta. intros [] w2 F.
  eapply bind_fail; [apply (wp_ld_focus (fun r w' => r = set_mCreateDestroyLock (mCreateDestroyLock i + 1) i /\ w' = w2) F); done|].
  intros ? ? [-> ->]. sub_simpl. rewrite Hs.
  eapply (bind_fail _ _ _ (fun _ w' => exists j, cleans i (set_mCreateDestroyLock (mCreateDestroyLock i) j) /\ focus w' t l s j None None None 0 ev)).
  { apply (wp_cleanup _ F). intros w3 j [E1 E2 E3 E4 E5] F3. exists j. split; [by split|done]. }
  clear F. intros [] w3 (j & [E1 _ E3 E4 E5] & F). sub_simpl in E1. sub_simpl in E3. sub_simpl in E5.
  eapply (bind_fail _ _ _ (fun _ w' => focus w' t l s (set_mState MAMA_SUBSCRIPTION_DESTROYED j) None None None 0 ev));
    [by apply (wp_upd _ _ F)|]. clear F. cbn beta. intros [] w4 F.
  eapply (bind_fail _ _ _ (fun _ w' => subs w' !! s = None)).
  - unfold mamaSubscriptionImpl_invokeDestroyedCallback. sub_steps. rewrite E5, Hcb. sub_steps.
    eapply wp_mono; [apply (deallocate_settable _ _ _ _ _ _ F); sub_simpl; [done|lia]|]. cbn beta.
    intros r w5 (_ & E & _). by sub_steps.
  - intros [] w5 E. unfold wInterlocked_decrement, upd, ld, mbind, M_bind. by rewrite E.
Qed.

(** an application that deallocates the subscription from its [onDestroy]
    callback frees it under the feet of the bridge's callback: when the bridge
    completes a destruction later than asked, as it may, the callback goes on to
    drop its reference and to unlock, in freed memory. *)
Theorem deallocate_in_callback_crashes (w : @world T) s i b e :
  inv w -> subs w !! s = Some i -> bridges w !! b = Some (s, true) ->
  mState i = MAMA_SUBSCRIPTION_DESTROYING -> mReferenceCount i = 1 -> onDestroy i = CbDeallocates ->
  run_call e (BridgeDone b) w = Fail InvalidDeref.
Proof.
  intros [l I] E Eb Hs Hn Hcb. destruct (focus_open _ _ _ _ I E) as (oa & ob & oh & F & (_ & _ & Sh)).
  pose proof (proj1 (v_bridge _ _ _ _ _ _ (f_view F) b true) Eb) as ->.
  unfold shape in Sh. rewrite Hs in Sh, F. destruct Sh as (Hr & -> & _ & -> & _).
  unfold run_call. eapply (bind_fail _ _ _ (fun r w' => r = bridges w /\ w' = w)); [done|]. intros ? ? [-> ->]. rewrite Eb.
  eapply (bind_fail _ _ _ (fun _ w' => focus w' _ _ s i None None None 1 _)); [by apply (wp_bridge_gone _ _ _ F)|]. clear F. cbn beta. intros [] w1 F.
  unfold mbind, M_bind. rewrite (callback_freed _ _ _ _ _ _ _ _ e F); try done. apply Hr.
Qed.

End failures.

(** ** A queue that meets the interface, and the theorems at work *)

(** Whether actions run at once, the next handle, and the actions that wait. *)
Definition list_queue : Type := bool * Z * list (Z * Z).

Definition lq_rep (q : list_queue) (l : list (Z * Z)) : Prop :=
  let '(_, next, w) := q in w = l /\ 0 < next /\ Forall (fun a => a.1 < next) l.

Definition lq_dispatch (owner : Z) : M list_queue dispatched := fun q =>
  let '(now, next, w) := q in
  if now : bool then Ok (RunNow, q) else Ok (Queued next, (now, next + 1, w ++ [(next, owner)])).

Fixpoint drop_handle (h : Z) (l : list (Z * Z)) : option (list (Z * Z)) :=
  match l with
  | [] => None
  | a :: l' => if a.1 =? h then Some l' else cons a <$> drop_handle h l'
  end.

Definition lq_remove (h : Z) : M list_queue unit := fun q =>
  let '(now, next, w) := q in
  if h =? 0 then Fail InvalidDeref
  else match drop_handle h w with Some w' => Ok (tt, (now, next, w')) | None => Fail InvalidDeref end.

Definition lq_pop : M list_queue (option Z) := fun q =>
  let '(now, next, w) := q in Ok (snd <$> head w, (now, next, tail w)).

Lemma drop_handle_split h owner l1 l2 :
  exists l1' l2', drop_handle h (l1 ++ (h, owner) :: l2) = Some (l1' ++ l2') /\
    (h ∉ l1.*1 -> l1' ++ l2' = l1 ++ l2).
Proof.
  induction l1 as [|[x o] l1 (a & b & E & N)]; cbn.
  - rewrite Z.eqb_refl. by exists [], l2.
  - destruct (Z.eqb_spec x h) as [->|Hx].
    + exists [], (l1 ++ (h, owner) :: l2). split; [done|]. intros []. left.
    + exists ((x, o) :: a), b. rewrite E. split; [done|]. intros Hn. cbn. rewrite N; [done|]. intros ?. apply Hn. by right.
Qed.

#[export, refine] Instance list_action_queue : ActionQueue list_queue := {|
  aq_rep q l := lq_rep q l /\ NoDup l.*1 /\ Forall (fun a => 0 < a.1) l;
  aq_dispatch := lq_dispatch;
  aq_remove := lq_remove;
  aq_pop := lq_pop;
|}.
Proof.
  - intros owner [[now next] w] l ((-> & Hn & Hf) & N & P). unfold wp, lq_dispatch. destruct now; [done|].
    assert (next ∉ l.*1) as Hni.
    { rewrite list_elem_of_fmap. intros ([h o] & -> & Hi). rewrite Forall_forall in Hf. specialize (Hf _ Hi). cbn in Hf. lia. }
    split; [lia|]. split; [done|]. split; [|split].
    + split; [done|]. split; [lia|]. apply Forall_app. split; [|apply Forall_singleton; cbn; lia].
      eapply Forall_impl; [exact Hf|]. cbn beta. intros a Ha. lia.
    + rewrite fmap_app. apply NoDup_app. split; [done|]. split; [|by apply NoDup_singleton]. cbn. set_solver.
    + apply Forall_app. split; [done|]. by apply Forall_singleton.
  - intros h owner [[now next] w] l1 l2 ((-> & Hn & Hf) & N & P). unfold wp, lq_remove.
    assert (0 < h) as Hh. { apply Forall_app in P as [_ P]. by inversion P. }
    destruct (Z.eqb_spec h 0); [lia|]. destruct (drop_handle_split h owner l1 l2) as (a & b & -> & E).
    rewrite fmap_app in N. cbn in N. apply NoDup_app in N as (N1 & N2 & N3). apply NoDup_cons in N3 as [N3 N4].
    rewrite E by (intros Hi; by apply (N2 h Hi); left).
    apply Forall_app in Hf as [Hf1 Hf2]. apply Forall_app in P as [P1 P2]. inversion_clear Hf2. inversion_clear P2.
    split; [split; [done|split; [done|by apply Forall_app]]|]. split; [|by apply Forall_app].
    rewrite fmap_app. apply NoDup_app. split; [done|]. split; [|done]. intros x Hx ?. apply (N2 x Hx). by right.
  - by intros [[now next] w] l _.
  - intros [[now next] w] l ((-> & Hn & Hf) & N & P). split; [done|].
    destruct l as [|a l]; [done|]. inversion_clear Hf. inversion_clear P. cbn in N. apply NoDup_cons in N as [_ N]. done.
Defined.

Definition good_env : env := mkEnv MAMA_STATUS_OK BLater false true.
Definition bad_env : env := mkEnv MAMA_STATUS_PLATFORM BLater false true.
Definition example_setup : setup_args :=
  mkSetup true true true true false true (Some CbRecords) true true 0 MAMA_STATUS_OK MAMA_STATUS_OK MAMA_STATUS_OK MAMA_STATUS_OK MAMA_STATUS_OK.

Lemma legal_cons {T} `{ActionQueue T} e c l (w w' : @world T) r :
  good e c w -> run_call e c w = Ok (r, w') -> legal l w' -> legal ((e, c) :: l) w.
Proof. intros G E L. split; [done|]. intros r1 w1 E1. rewrite E in E1. by injection E1 as <- <-. Qed.

Ltac good_call := cbv [good]; first [done|eexists; split; [vm_compute; reflexivity|]; repeat split; first [done|discriminate|by intros]].

Lemma reached_inv {T} `{ActionQueue T} t l rs (w : @world T) :
  aq_rep t [] -> legal l (empty_world t) -> run_calls l (empty_world t) = Ok (rs, w) -> inv w.
Proof.
  intros R L E. destruct (proj1 (wp_elim _ _ _) (calls_inv l _ (empty_inv t R) L)) as (rs' & w' & E' & I).
  rewrite E in E'. by injection E' as <- <-.
Qed.

(** One subscription, made and brought up by these calls. *)
Definition bring_up (cb : destroyCb) : list (env * scall) :=
  [(good_env, Allocate);
   (good_env, Setup (mkSetup true true true true false true (Some cb) true true 0 MAMA_STATUS_OK MAMA_STATUS_OK MAMA_STATUS_OK MAMA_STATUS_OK MAMA_STATUS_OK) 1);
   (good_env, Activate 1)].

Definition world_after (l : list (env * scall)) : @world list_queue :=
  match run_calls l (empty_world (false, 1, [])) with Ok (_, w) => w | Fail _ => empty_world (false, 1, []) end.

Definition activating_world : @world list_queue := Eval vm_compute in world_after (bring_up CbRecords).
Definition active_world : @world list_queue := Eval vm_compute in world_after (bring_up CbRecords ++ [(good_env, Tick)]).
Definition destroying_world : @world list_queue :=
  Eval vm_compute in world_after (bring_up CbDeallocates ++ [(good_env, Tick); (good_env, Destroy 1)]).

Lemma list_queue_empty : aq_rep ((false, 1, []) : list_queue) [].
Proof. repeat split; try done; by constructor. Qed.

Lemma active_world_inv : inv active_world.
Proof. assert (legal (bring_up CbRecords ++ [(good_env, Tick)]) (empty_world ((false, 1, []) : list_queue))) as L.
  { repeat (eapply legal_cons; [good_call|vm_compute; reflexivity|]). exact I. }
  eapply (reached_inv _ _ _ _ list_queue_empty L). vm_compute. reflexivity.
Qed.

Lemma destroying_world_inv : inv destroying_world.
Proof. assert (legal (bring_up CbDeallocates ++ [(good_env, Tick); (good_env, Destroy 1)]) (empty_world ((false, 1, []) : list_queue))) as L.
  { repeat (eapply legal_cons; [good_call|vm_compute; reflexivity|]). exact I. }
  eapply (reached_inv _ _ _ _ list_queue_empty L). vm_compute. reflexivity.
Qed.

Lemma destroy_completes_witness : exists i, subs active_world !! 1 = Some i /\
  wp (mamaSubscription_destroy good_env 1) active_world (fun r w1 => r = MAMA_STATUS_OK /\
    ((gone w1 1 /\ events w1 = events active_world ++ [OnDestroy 1]) \/
     (exists b, bridges w1 !! b = Some (1, true) /\
        wp (run_call good_env (BridgeDone b)) w1 (fun _ w2 => gone w2 1 /\ events w2 = events active_world ++ [OnDestroy 1])))).
Proof.
  eexists. split; [vm_compute; reflexivity|].
  eapply (destroy_completes active_world 1 _ good_env good_env); [exact active_world_inv|vm_compute; reflexivity|reflexivity|reflexivity|discriminate].
Defined.

Lemma bridge_failure_wedges_witness : exists n,
  wp (createAction bad_env 1) activating_world (fun _ w1 =>
    (exists j, subs w1 !! 1 = Some j /\ mState j = MAMA_SUBSCRIPTION_ACTIVATED) /\
    wp (mamaSubscription_destroy bad_env 1) w1 (fun r w2 => r = MAMA_STATUS_OK /\
      wp (run_calls [(good_env, Deallocate 1); (good_env, Activate 1)]) w2 (fun _ w3 => wedged w3 1 n))).
Proof.
  eexists. eapply (bridge_failure_wedges activating_world 1 _ bad_env bad_env);
    [discriminate|vm_compute; reflexivity|intros b c; vm_compute; by destruct b|reflexivity|reflexivity|reflexivity
    |repeat split; by eexists|reflexivity|reflexivity|reflexivity|by repeat constructor].
Defined.

Lemma deallocate_in_callback_crashes_witness :
  run_call good_env (BridgeDone 3) destroying_world = Fail InvalidDeref.
Proof.
  eapply (deallocate_in_callback_crashes destroying_world 1 _ 3 good_env);
    [exact destroying_world_inv|vm_compute; reflexivity|vm_compute; reflexivity|reflexivity|reflexivity|reflexivity].
Defined.
