(* ===== verification/SubscThrottle.v ===== *)
(** * The throttle as the queue of a subscription's actions

    The throttle of throttle.c, with its messages in the memory of list.c, meets
    the interface [ActionQueue] the life cycle of subscriptions is proved
    against: an activation hands [createAction] to [wombatThrottle_dispatch] and
    keeps the address of the element as its [mAction];
    [wombatThrottle_removeAction] takes that element out again. *)

From S2P Require Import Prelude MamaStatus Linked WList WListOps WListSpec Throttle ThrottleProps Subscription SubscriptionInv SubscriptionProps.
From Stdlib Require Import SpecFloat.
Import WList Throttle.

(** What [mamaSubscription_activate_internal] dispatches: owner and closure are
    the subscription, the callback is [createAction] (the only callback here, so
    its address does not matter). *)
Definition createAction_cb : Z := 1.
Definition create_msg (owner : Z) : MsgProperties := mkMsg owner createAction_cb owner 0.

(** [wombatThrottle_dispatch] as activation uses it, with [immediate] 0. *)
Definition dispatch_create (timer_ok : bool) (owner : Z) : TM dispatched :=
  rate ← gets mRate;
  r ← wombatThrottle_dispatch timer_ok (create_msg owner) false;
  mret (if SFleb rate double_0 then RunNow else if status_ok r.1 then Queued r.2 else NoMemory).

Definition remove_create (h : Z) : TM unit := wombatThrottle_removeAction h ;; mret tt.

(** The timer sends one message: the closure of the callback it makes. *)
Definition pop_create : TM (option Z) :=
  sent ← wombatThrottle_sendQueuedMessage;
  acts ← gets actions;
  mret (if sent : bool then (fun a : action => a.1.2) <$> last acts else None).

(** The actions [a], each a handle and its owner, wait in the list, the handle
    being the address of the element. *)
Definition crep (l : wListImpl MsgProperties) (a : list (Z * Z)) : Prop :=
  exists ls fl, arep l ls fl (create_msg <$> a.*2) /\ a.*1 = elem_of <$> ls.

Definition trep (t : wombatThrottleImpl) (a : list (Z * Z)) : Prop :=
  mTimerLock t = 0 /\ crep (mMsgQueue t) a.

Lemma crep_lock l a v : crep l a -> crep (set_lock v l) a.
Proof. intros (ls & fl & A & E). exists ls, fl. split; [by apply arep_lock|done]. Qed.

(** A block in the caller's hands is none of those that wait. *)
Lemma loose_fresh l ls fl w p m : aloose l ls fl w p m -> elem_of p ∉ elem_of <$> ls.
Proof.
  intros (_ & [_ Hd] & _) (q & Hq & Hin)%list_elem_of_fmap. unfold elem_of in Hq.
  assert (p = q) as -> by lia. set_solver.
Qed.

Lemma dispatch_create_law ok owner t l :
  trep t l ->
  wp (dispatch_create ok owner) t (fun d t' =>
    match d with
    | RunNow | NoMemory => trep t' l
    | Queued h => h <> 0 /\ h ∉ l.*1 /\ trep t' (l ++ [(h, owner)])
    end).
Proof.
  intros [Et (ls & fl & A & E)]. apply wp_bind, wp_gets, wp_bind. unfold wombatThrottle_dispatch. apply wp_bind, wp_gets.
  destruct (SFleb (mRate t) double_0).
  { apply wp_bind, wp_modify, wp_ret, wp_ret. split; [done|]. by exists ls, fl. }
  apply wp_bind, wp_on_list, wp_modify, wp_bind, wp_on_list. cbn [mMsgQueue set_mMsgQueue].
  eapply wp_mono; [by apply alloc_at, arep_lock|]. cbn beta. intros r l1 Hr. apply wp_timer; [done|].
  match goal with |- context [set_mTimer ?x] => generalize x; intros b end.
  destruct Hr as [[-> ->]|(p & -> & Hne & Q & El)].
  - cbn [Z.eqb]. apply wp_bind, wp_on_list, wp_modify, wp_ret, wp_ret. cbn. split; [done|].
    exists ls, fl. split; [by do 2 apply arep_lock|done].
  - destruct (Z.eqb_spec (elem_of p) 0); [done|]. apply wp_bind, wp_on_list.
    eapply wp_mono; [by eapply store_at|]. cbn beta. intros _ l2 [Q2 _]. apply wp_bind, wp_on_list.
    eapply wp_mono; [by apply push_back_at|]. cbn beta. intros _ l3 [A3 _].
    apply wp_bind, wp_on_list, wp_modify, wp_ret, wp_ret. cbn. split; [done|].
    rewrite E. split; [by eapply loose_fresh|]. split; [done|].
    exists (ls ++ [p]), (tail fl). rewrite !fmap_app, E. split; [by apply arep_lock|done].
Qed.

Lemma remove_create_law h owner t l1 l2 :
  trep t (l1 ++ (h, owner) :: l2) -> wp (remove_create h) t (fun _ t' => trep t' (l1 ++ l2)).
Proof.
  intros [Et (ls & fl & A & E)]. rewrite fmap_app in E. symmetry in E.
  apply fmap_app_inv in E as (k1 & k2 & E1 & E2 & ->). destruct k2 as [|p k2]; [done|].
  cbn in E2. injection E2 as -> E2. rewrite !fmap_app in A. cbn in A.
  apply wp_bind, wp_bind, wp_on_list. eapply wp_mono; [apply (remove_at _ _ _ _ _ _ _ _ A)|].
  { by rewrite !length_fmap, <- (length_fmap fst l1), E1, length_fmap. }
  cbn beta. intros _ q1 [Q1 _]. apply wp_bind, wp_on_list. eapply wp_mono; [by eapply free_at|].
  cbn beta. intros _ q2 [A2 _]. apply wp_ret, wp_ret. split; [done|].
  exists (k1 ++ k2), (p :: fl). rewrite !fmap_app. split; [done|]. by rewrite E1, E2.
Qed.

(** A handle that is NULL is dereferenced. *)
Lemma remove_create_null t l : trep t l -> remove_create 0 t = Fail InvalidDeref.
Proof.
  intros [_ (ls & fl & [R _] & _)].
  assert (mem (mMsgQueue t) !! hdr_of 0 = None) as Hn.
  { destruct (mem (mMsgQueue t) !! hdr_of 0) eqn:Hm; [|done].
    assert (0 < hdr_of 0 < brk (mMsgQueue t)) as [Hlt _] by (apply (r_range _ _ _ _ R); eauto).
    unfold hdr_of, sizeof_header in Hlt. lia. }
  assert (list_remove_element 0 (mMsgQueue t) = Fail InvalidDeref) as Hr.
  { unfold list_remove_element, list_adjust_iterators, wlock_lock, modify, gets, mbind, M_bind.
    unfold ld_next, nxt. cbn -[hdr_of]. by rewrite Hn. }
  unfold remove_create, wombatThrottle_removeAction, on_list, mbind, M_bind. by rewrite Hr.
Qed.

Lemma pop_create_law t l :
  trep t l -> wp pop_create t (fun r t' => r = snd <$> head l /\ trep t' (tail l)).
Proof.
  intros [Et (ls & fl & A & E)]. apply wp_bind. unfold wombatThrottle_sendQueuedMessage.
  apply wp_bind, wp_on_list, wp_modify, wp_bind, wp_on_list. cbn [mMsgQueue set_mMsgQueue].
  destruct l as [|[h o] l]; destruct ls as [|p ls]; try done.
  - destruct A as [R D]. eapply wp_mono; [eapply list_pop_front_empty; by eapply (arep_lock _ _ _ [])|].
    cbn beta. intros r q [-> ->]. cbn [Z.eqb]. apply wp_bind, wp_on_list, wp_modify, wp_ret, wp_bind, wp_gets, wp_ret.
    cbn. split; [done|]. split; [done|]. exists [], fl. split; [by do 2 apply (arep_lock _ _ _ [])|done].
  - cbn in A, E. injection E as -> E. eapply wp_mono; [by eapply pop_front_at, arep_lock|].
    cbn beta. intros r q (-> & Hr & Q & _). destruct (Z.eqb_spec (elem_of p) 0); [done|].
    apply wp_bind, wp_on_list. eapply wp_mono; [by eapply load_at|]. cbn beta. intros m q2 [-> ->].
    apply wp_bind, wp_modify, wp_bind, wp_on_list. cbn [mMsgQueue set_mMsgQueue set_actions actions].
    eapply wp_mono; [by eapply free_at|]. cbn beta. intros _ q3 [A3 _].
    apply wp_bind, wp_on_list, wp_modify, wp_ret, wp_bind, wp_gets, wp_ret. cbn.
    rewrite last_snoc. split; [done|]. split; [done|]. exists ls, (p :: fl). split; [by apply arep_lock|done].
Qed.

#[local, refine] Instance throttle_action_queue (timer_ok : bool) : ActionQueue wombatThrottleImpl := {|
  aq_rep := trep;
  aq_dispatch := dispatch_create timer_ok;
  aq_remove := remove_create;
  aq_pop := pop_create;
|}.
Proof.
  - apply dispatch_create_law.
  - apply remove_create_law.
  - apply remove_create_null.
  - apply pop_create_law.
Defined.

Import Subscription.

(** A throttle as the transport makes it, at any rate, holds no actions. *)
Lemma new_throttle_empty limit rate t0 t :
  wombatThrottle_allocate true limit = (MAMA_STATUS_OK, Some (Some t0)) -> limit <= 2 ^ 64 ->
  wombatThrottle_setRate rate t0 = Ok (tt, t) -> trep t [].
Proof.
  intros E Hl Er. destruct (fresh_sim _ _ E Hl) as [S _].
  pose proof (set_rate_step rate _ _ S) as W. unfold done_step in W. cbn [run_tcall] in W.
  unfold wp, mbind, M_bind in W. rewrite Er in W. cbn in W. destruct W as [[Q _ _ _ _ Et _ _] _]. cbn in Q.
  split; [done|]. destruct Q as (ls & fl & R & _ & D). destruct ls; [|done]. by exists [], fl.
Qed.

(** C19: on a new throttle, at any rate, every sequence of calls on
    subscriptions (fewer than 2^31), steps of the throttle and callbacks of the
    bridge runs without touching freed memory, and each subscription then holds
    exactly what its state says (an action on the throttle, a bridge
    subscription, one that owes its callback, or nothing), its lock is free, its
    references are those of the bridge and the wrapper, and the queue counts as
    open objects the subscriptions that are active or on their way down. The
    conditions: calls are on existing subscriptions; a wrapper registers once,
    right after allocation; the type is set before the set-up, which gets
    callbacks; no basic subscription reuses an object with a transport handle;
    the bridge refuses nothing and activations find memory (else
    [bridge_failure_wedges]); one being destroyed is deallocated only while the
    bridge has the one reference, and not from [onDestroy] when the bridge calls
    back later ([deallocate_in_callback_crashes]). *)
Theorem subscriptions_safe limit rate timer_ok t0 t l :
  wombatThrottle_allocate true limit = (MAMA_STATUS_OK, Some (Some t0)) -> limit <= 2 ^ 64 ->
  wombatThrottle_setRate rate t0 = Ok (tt, t) ->
  let queue := throttle_action_queue timer_ok in
  legal l (empty_world t) -> wp (run_calls l) (empty_world t) (fun _ w => inv w).
Proof.
  intros E Hl Er queue L. apply (calls_inv (T := wombatThrottleImpl)); [|exact L].
  apply empty_inv. by eapply new_throttle_empty.
Qed.


Definition safe_calls : list (env * scall) :=
  [(good_env, Allocate); (good_env, Setup example_setup 1); (good_env, Activate 1); (good_env, Subscription.Tick);
   (good_env, Destroy 1)].

Lemma subscriptions_safe_witness :
  let queue := throttle_action_queue true in
  wp (run_calls safe_calls) (empty_world test_throttle) (fun _ w => inv w).
Proof.
  apply (subscriptions_safe (2 ^ 20) double_1000 true test_throttle test_throttle);
    [reflexivity|vm_compute; discriminate|vm_compute; reflexivity|].
  repeat (eapply legal_cons; [good_call|vm_compute; reflexivity|]). done.
Defined.
