(* ===== verification/SubscLocks.v ===== *)
(** * The locks of a subscription among threads

    [mamaSubscription_activate], [mamaSubscription_deactivate],
    [mamaSubscription_destroy] and the callback of the bridge (subscription.c),
    the timers of the throttles (throttle.c) and the image requests of the
    subscription (imagerequest.c) run on different threads and take five locks:
    that of the subscription, [mCreateDestroyLock], those of the lists of the two
    throttles, and those of the two image requests.  Here each of them is a
    program whose steps are the lock operations and the accesses to the state,
    and the steps of any number of threads interleave.  The subscription is one
    of market data with a transport and a bridge; what the calls do to anything
    but its state is in Subscription.v.  The callbacks of the user and the lists
    inside a request or a transport, which are locked by themselves and for one
    call of the list, take none of the five locks.  Not modelled are the loops of a
    transport over its subscriptions, which hold the lock of its list while they
    call each of them. *)

From S2P Require Import Prelude MamaStatus Subscription.
Import Subscription.

Module SubscLocks.

(** The throttle of the activations and of the request for the initial value, the
    subscription, that request, the throttle of recaps, the request for a recap. *)
Inductive lockName : Type := ThrottleLock | CreateDestroyLock | RequestLock | RecapThrottleLock | RecapLock.

#[export] Instance lockName_eq_dec : EqDecision lockName.
Proof. solve_decision. Defined.

(** What the programs read and write: the state of the subscription, whether its
    action waits on the throttle, and whether its requests wait for a response. *)
Record shared : Type := mkShared { sState : mamaSubscriptionState; sWaits : bool; sInitial : bool; sRecap : bool }.

#[export] Instance shared_eq_dec : EqDecision shared.
Proof. solve_decision. Defined.

(** [Do f k]: one access in the state [s] makes [f s] of it and goes on with
    [k s]. *)
Inductive prog : Type :=
| Return
| Lock (l : lockName) (k : prog)
| Unlock (l : lockName) (k : prog)
| Do (f : shared -> shared) (k : shared -> prog).

Definition to_state (v : mamaSubscriptionState) (s : shared) : shared := mkShared v (sWaits s) (sInitial s) (sRecap s).
Definition set_waits (b : bool) (s : shared) : shared := mkShared (sState s) b (sInitial s) (sRecap s).

(** ** Requests *)

Inductive request : Type := Initial | Recap.

Definition request_throttle (r : request) : lockName := match r with Initial => ThrottleLock | Recap => RecapThrottleLock end.
Definition request_lock (r : request) : lockName := match r with Initial => RequestLock | Recap => RecapLock end.
Definition waiting (r : request) (s : shared) : bool := match r with Initial => sInitial s | Recap => sRecap s end.
Definition set_waiting (r : request) (b : bool) (s : shared) : shared :=
  match r with
  | Initial => mkShared (sState s) (sWaits s) b (sRecap s)
  | Recap => mkShared (sState s) (sWaits s) (sInitial s) b
  end.

(** [throttled], [recapThrottled]: whether the rates are above 0, so that
    [wombatThrottle_dispatch] queues the action.  [within]: whether the bridge makes
    its callback while it is told to destroy the subscription.  [initial]:
    [mRequiresInitial]. *)
Record setting : Type := mkSetting { throttled : bool; recapThrottled : bool; within : bool; initial : bool }.

Section Calls.

Context (x : setting).

Definition requestAction (r : request) (k : prog) : prog :=
  Lock (request_throttle r) (Lock (request_lock r) (Unlock (request_lock r) (Unlock (request_throttle r) k))).

(** [wombatThrottle_dispatch] with [requestAction]. *)
Definition dispatch_request (r : request) (k : prog) : prog :=
  if (match r with Initial => throttled x | Recap => recapThrottled x end)
  then Lock (request_throttle r) (Unlock (request_throttle r) k)
  else requestAction r k.

(** The part of a throttled request, and of one that is sent again after a time. *)
Definition throttle_request (r : request) (k : prog) : prog :=
  Lock (request_throttle r) (Lock (request_lock r)
    (dispatch_request r (Unlock (request_lock r) (Unlock (request_throttle r) k)))).

Definition imageRequest_sendRequest (r : request) (throttle : bool) (k : prog) : prog :=
  Do (set_waiting r true) (fun _ => if throttle then throttle_request r k else requestAction r k).

(** What [wombatThrottle_removeMessagesFromList] locks again is locked already. *)
Definition imageRequest_stopWaitForResponse (r : request) (k : prog) : prog :=
  Lock (request_throttle r) (Lock (request_lock r)
    (Do (set_waiting r false) (fun _ => Unlock (request_lock r) (Unlock (request_throttle r) k)))).

(** When a response is there, without the lock of the subscription. *)
Definition mamaSubscription_stopWaitForResponse (k : prog) : prog :=
  imageRequest_stopWaitForResponse Initial (imageRequest_stopWaitForResponse Recap k).

(** ** The calls *)

(** [mamaSubscriptionImpl_completeMarketDataInitialisation] with
    [mamaSubscription_initialize]; the bridge and the list of the transport do not
    fail. *)
Definition createAction (k : prog) : prog :=
  Lock CreateDestroyLock
    (Do id (fun s =>
     match sState s with
     | MAMA_SUBSCRIPTION_ACTIVATING =>
         let activated := Do (to_state MAMA_SUBSCRIPTION_ACTIVATED) (fun _ => Unlock CreateDestroyLock k) in
         if initial x then imageRequest_sendRequest Initial false activated else activated
     | _ => Unlock CreateDestroyLock k
     end)).

Definition wombatThrottle_dispatch (k : prog) : prog :=
  if throttled x then
    Lock ThrottleLock (Do (set_waits true) (fun _ => Unlock ThrottleLock k))
  else createAction k.

Definition wombatThrottle_sendQueuedMessage (k : prog) : prog :=
  Lock ThrottleLock
    (Do (set_waits false) (fun s =>
     if sWaits s then createAction (Unlock ThrottleLock k) else Unlock ThrottleLock k)).

(** The same for a request that waits on its throttle. *)
Definition send_request_message (r : request) (k : prog) : prog :=
  Lock (request_throttle r) (requestAction r (Unlock (request_throttle r) k)).

Definition mamaSubscription_activate (k : prog) : prog :=
  Lock CreateDestroyLock
    (Do (fun s => match sState s with
                  | MAMA_SUBSCRIPTION_DEACTIVATED | MAMA_SUBSCRIPTION_SETUP => to_state MAMA_SUBSCRIPTION_ACTIVATING s
                  | MAMA_SUBSCRIPTION_DEACTIVATING => to_state MAMA_SUBSCRIPTION_REACTIVATING s
                  | _ => s
                  end) (fun s =>
     match sState s with
     | MAMA_SUBSCRIPTION_DEACTIVATED | MAMA_SUBSCRIPTION_SETUP =>
         wombatThrottle_dispatch (Unlock CreateDestroyLock k)
     | _ => Unlock CreateDestroyLock k
     end)).

Definition mamaSubscriptionImpl_onSubscriptionDestroyed (k : prog) : prog :=
  Lock CreateDestroyLock
    (Do (fun s => match sState s with
                  | MAMA_SUBSCRIPTION_DEACTIVATING | MAMA_SUBSCRIPTION_REACTIVATING =>
                      to_state MAMA_SUBSCRIPTION_DEACTIVATED s
                  | MAMA_SUBSCRIPTION_DESTROYING => to_state MAMA_SUBSCRIPTION_DESTROYED s
                  | _ => s
                  end) (fun s =>
     match sState s with
     | MAMA_SUBSCRIPTION_REACTIVATING => mamaSubscription_activate (Unlock CreateDestroyLock k)
     | _ => Unlock CreateDestroyLock k
     end)).

Definition mamaSubscription_deactivate_internal (k : prog) : prog :=
  let destroy := if within x then mamaSubscriptionImpl_onSubscriptionDestroyed k else k in
  let recap := Do id (fun s => if waiting Recap s then imageRequest_stopWaitForResponse Recap destroy else destroy) in
  Do id (fun s => if waiting Initial s then imageRequest_stopWaitForResponse Initial recap else recap).

Definition mamaSubscription_deactivate (k : prog) : prog :=
  let unlock := Unlock CreateDestroyLock (Unlock ThrottleLock k) in
  Lock ThrottleLock (Lock CreateDestroyLock
    (Do (fun s => match sState s with
                  | MAMA_SUBSCRIPTION_ACTIVATING => set_waits false (to_state MAMA_SUBSCRIPTION_DEACTIVATED s)
                  | MAMA_SUBSCRIPTION_REACTIVATING | MAMA_SUBSCRIPTION_ACTIVATED =>
                      to_state MAMA_SUBSCRIPTION_DEACTIVATING s
                  | _ => s
                  end) (fun s =>
     match sState s with
     | MAMA_SUBSCRIPTION_ACTIVATED => mamaSubscription_deactivate_internal unlock
     | _ => unlock
     end))).

(** The clean-up has no transport any more, so that [imageRequest_destroy] locks
    nothing. *)
Definition mamaSubscription_destroy (k : prog) : prog :=
  mamaSubscription_deactivate
    (Lock CreateDestroyLock
      (Do (fun s => match sState s with
                    | MAMA_SUBSCRIPTION_SETUP | MAMA_SUBSCRIPTION_DEACTIVATED => to_state MAMA_SUBSCRIPTION_DESTROYED s
                    | MAMA_SUBSCRIPTION_DEACTIVATING => to_state MAMA_SUBSCRIPTION_DESTROYING s
                    | _ => s
                    end) (fun _ =>
       Unlock CreateDestroyLock k))).

(** [AskRecap]: the request of the data quality layer.  [Retry]: a request that had
    no response in time.  [Response]: the response. *)
Inductive lcall : Type := Activate | Deactivate | Destroy | Callback | Timer | RequestTimer (r : request) | AskRecap | Retry (r : request) | Response.

Definition code (c : lcall) : prog -> prog :=
  match c with
  | Activate => mamaSubscription_activate
  | Deactivate => mamaSubscription_deactivate
  | Destroy => mamaSubscription_destroy
  | Callback => mamaSubscriptionImpl_onSubscriptionDestroyed
  | Timer => wombatThrottle_sendQueuedMessage
  | RequestTimer r => send_request_message r
  | AskRecap => imageRequest_sendRequest Recap true
  | Retry r => throttle_request r
  | Response => mamaSubscription_stopWaitForResponse
  end.

(** A thread that makes these calls one after the other. *)
Fixpoint thread (l : list lcall) : prog :=
  match l with
  | [] => Return
  | c :: l' => code c (thread l')
  end.

End Calls.

(** ** Interleavings *)

(** The locks are recursive: the thread that owns one and how often it locked
    it. *)
Record conf : Type := mkConf {
  cShared : shared;
  cOwner : lockName -> option (Z * nat);
  cThreads : gmap Z prog;
}.

Definition set_owner (l : lockName) (v : option (Z * nat)) (o : lockName -> option (Z * nat)) :
  lockName -> option (Z * nat) := fun l' => if decide (l' = l) then v else o l'.

(** The next step of the thread [t] with program [p]; [None]: it waits, or has
    returned. *)
Definition exec (t : Z) (p : prog) (c : conf) : option conf :=
  let go k := <[t := k]> (cThreads c) in
  match p with
  | Return => None
  | Lock l k =>
      match cOwner c l with
      | None => Some (mkConf (cShared c) (set_owner l (Some (t, 1%nat)) (cOwner c)) (go k))
      | Some (u, d) =>
          if u =? t then Some (mkConf (cShared c) (set_owner l (Some (t, S d)) (cOwner c)) (go k)) else None
      end
  | Unlock l k =>
      let owner := match cOwner c l with
                   | Some (u, S (S d)) => if u =? t then Some (u, S d) else Some (u, S (S d))
                   | Some (u, d) => if u =? t then None else Some (u, d)
                   | None => None
                   end in
      Some (mkConf (cShared c) (set_owner l owner (cOwner c)) (go k))
  | Do f k => Some (mkConf (f (cShared c)) (cOwner c) (go (k (cShared c))))
  end.

Definition exec_thread (t : Z) (c : conf) : option conf := p ← cThreads c !! t; exec t p c.

Definition lstep (c c' : conf) : Prop := exists t, exec_thread t c = Some c'.

(** Threads that make the calls of [ls], from the state [s]. *)
Definition start (x : setting) (s : shared) (ls : gmap Z (list lcall)) : conf :=
  mkConf s (fun _ => None) (thread x <$> ls).

Definition returned (c : conf) : Prop := map_Forall (fun _ p => p = Return) (cThreads c).

#[export] Instance returned_dec (c : conf) : Decision (returned c).
Proof.
  apply map_Forall_dec. intros _ p.
  refine (match p with Return => left eq_refl | Lock _ _ | Unlock _ _ | Do _ _ => right _ end); discriminate.
Defined.

(** Somebody has not returned, and nobody can do a step. *)
Definition deadlocked (c : conf) : Prop := ~ returned c /\ forall t, exec_thread t c = None.

Fixpoint run_threads (schedule : list Z) (c : conf) : option conf :=
  match schedule with
  | [] => Some c
  | t :: l => c' ← exec_thread t c; run_threads l c'
  end.

End SubscLocks.

Import SubscLocks.

(** ** The order of the locks *)

Definition rank (l : lockName) : nat :=
  match l with ThrottleLock => 0 | CreateDestroyLock => 1 | RequestLock => 2 | RecapThrottleLock => 3 | RecapLock => 4 end.


(** How often each lock is held. *)
Inductive held : Type := Held (t c q rt r : nat).

Definition count (h : held) (l : lockName) : nat :=
  let '(Held t c q rt r) := h in
  match l with ThrottleLock => t | CreateDestroyLock => c | RequestLock => q | RecapThrottleLock => rt | RecapLock => r end.







(** None of the locks after [l] is held. *)
Definition free_after (h : held) (l : lockName) : Prop := forall l', (rank l < rank l')%nat -> count h l' = O.



Lemma free_later h l l' : free_after h l -> (rank l <= rank l')%nat -> free_after h l'.
Proof. intros Hf Hr l'' Hl. apply Hf. lia. Qed.








Section OrderedCalls.
Context (x : setting) (Ht : throttled x = false) (Hi : initial x = false).











End OrderedCalls.












(** ** Progress *)





(** ** Termination *)












Lemma run_threads_steps l : forall c c', run_threads l c = Some c' -> rtc lstep c c'.
Proof.
  induction l as [|t l IH]; cbn; intros c c' E; [by injection E as <-|].
  destruct (exec_thread t c) as [c1|] eqn:E1; [|done]. eapply rtc_l; [by exists t|by apply IH].
Qed.

(** ** Claims *)


(** No thread of a list can do a step: checked by running them. *)
Definition stuck (c : conf) : bool :=
  negb (bool_decide (returned c)) &&
  bool_decide (map_Forall (fun t p => exec t p c = None) (cThreads c)).

Lemma stuck_deadlocked c : stuck c = true -> deadlocked c.
Proof.
  unfold stuck. rewrite andb_true_iff, negb_true_iff, bool_decide_eq_false, bool_decide_eq_true.
  intros [Hr Hs]. split; [done|]. intros t. unfold exec_thread. destruct (cThreads c !! t) as [p|] eqn:Hp; [|done].
  by apply Hs.
Qed.

Lemma schedule_deadlocks l c0 : option_map stuck (run_threads l c0) = Some true -> exists c, rtc lstep c0 c /\ deadlocked c.
Proof.
  intros E. destruct (run_threads l c0) as [c|] eqn:Er; [|done]. injection E as E.
  exists c. split; [by eapply run_threads_steps|by apply stuck_deadlocked].
Qed.


Definition at_rest (st : mamaSubscriptionState) : shared := mkShared st false false false.

(** The callback sets the state and asks for the throttle; the destruction takes
    the throttle. *)
Definition deadlock_schedule : list Z := [1; 1; 1; 1; 2].

Lemma callback_deadlocks x : throttled x = true ->
  option_map stuck (run_threads deadlock_schedule (start x (at_rest MAMA_SUBSCRIPTION_REACTIVATING) {[1 := [Callback]; 2 := [Destroy]]})) = Some true.
Proof. intros Ht. destruct x as [[] [] [] []]; try done; vm_compute; reflexivity. Qed.





(** C22: with the throttle on, a user who destroys a subscription while the bridge
    reports that the subscription it is to reopen is gone can lock both threads
    for ever: the callback has the subscription's lock and, to reopen it, waits
    for that of the throttle, which the destruction took before it asked for the
    subscription's. *)
Theorem destroy_deadlocks_reactivation recapThrottled within initial :
  exists c, rtc lstep (start (mkSetting true recapThrottled within initial) (at_rest MAMA_SUBSCRIPTION_REACTIVATING)
                         {[1 := [Callback]; 2 := [Destroy]]}) c /\ deadlocked c.
Proof. by apply (schedule_deadlocks deadlock_schedule), callback_deadlocks. Qed.

(** The same two threads without the throttle, in an order that completes. *)
Example unthrottled_run :
  option_map (fun c => (sState (cShared c), bool_decide (returned c)))
    (run_threads (replicate 10 1 ++ replicate 13 2)
       (start (mkSetting false true true false) (at_rest MAMA_SUBSCRIPTION_REACTIVATING) {[1 := [Callback]; 2 := [Destroy]]}))
  = Some (MAMA_SUBSCRIPTION_DESTROYED, true).
Proof. vm_compute. reflexivity. Qed.
