(* ===== verification/Dictionary.v ===== *)
(** * The data dictionary (mama/c_cpp/src/c/dictionary.c, fielddesc.c)

    The descriptors of the fields a feed publishes, in an array indexed by field
    id.  The array is allocated on the first descriptor and grown when a field id
    does not fit; a dictionary is filled by hand, from a dictionary message or
    from a text file, and written back as a message or a file.  Reads and writes
    of the array are checked, so that an access through NULL or behind the end
    is a fault.  What the user's callbacks do is recorded as events. *)

From S2P Require Import Prelude MamaStatus Cstdio.
From Stdlib Require Import Ascii String.
From stdpp Require Import strings.
#[local] Open Scope Z_scope.
Import Cstdio.

(** ** What a dictionary needs of messages

    A message is the payload bridge's: a sequence of fields, each with a name
    (or none), a field id and a type; adding puts a field at the end, unless it
    fails.  [fm_getString] reads the first field with that id. *)
Record msgField : Type := mkField { f_name : option string; f_fid : Z; f_type : Z }.

Class FieldMsg (msg : Type) : Type := {
  fm_empty : msg;
  fm_fields : msg -> list msgField;
  fm_add : msgField -> msg -> mama_status * msg;
  fm_getString : msg -> option string -> Z -> option string;
  fm_fields_empty : fm_fields fm_empty = [];
  fm_fields_add : forall f m m', fm_add f m = (MAMA_STATUS_OK, m') -> fm_fields m' = fm_fields m ++ [f];
}.

Module Dictionary.

(** ** Field types (mama/fielddesc.h) *)

Definition MAMA_FIELD_TYPE_UNKNOWN : Z := 100.

(** The enumeration and the names [mamaFieldTypeToString] gives: each case of
    its switch. *)
Definition field_types : list (Z * string) :=
  [(1, "MSG"); (7, "OPAQUE"); (8, "STRING"); (9, "BOOLEAN"); (10, "CHAR"); (14, "I8"); (15, "U8"); (16, "I16");
   (17, "U16"); (18, "I32"); (19, "U32"); (20, "I64"); (21, "U64"); (24, "F32"); (25, "F64"); (26, "TIME");
   (27, "PRICE"); (29, "VECTOR_BOOL"); (30, "VECTOR_CHAR"); (34, "VECTOR_I8"); (35, "VECTOR_U8");
   (36, "VECTOR_I16"); (37, "VECTOR_U16"); (38, "VECTOR_I32"); (39, "VECTOR_U32"); (40, "VECTOR_I64");
   (41, "VECTOR_U64"); (44, "VECTOR_F32"); (45, "VECTOR_F64"); (46, "VECTOR_STRING"); (47, "VECTOR_MSG");
   (48, "VECTOR_TIME"); (49, "VECTOR_PRICE"); (50, "QUANTITY"); (99, "COLLECTION")]%string.

Fixpoint name_of (t : Z) (l : list (Z * string)) : string :=
  match l with
  | [] => "UNKNOWN"%string
  | (t', n) :: l' => if t =? t' then n else name_of t l'
  end.

Fixpoint type_of (s : string) (l : list (Z * string)) : Z :=
  match l with
  | [] => MAMA_FIELD_TYPE_UNKNOWN
  | (t, n) :: l' => if String.eqb s n then t else type_of s l'
  end.

Definition mamaFieldTypeToString (type : Z) : string := name_of type field_types.
Definition stringToMamaFieldType (str : string) : Z := type_of str field_types.

(** The cases of the switch in [populateMessageFromDictionary]: all but
    quantities and collections, each adding a field of the type itself. *)
Definition in_message (t : Z) : bool :=
  existsb (fun e => (t =? e.1) && negb ((t =? 50) || (t =? 99))) field_types.

(** ** Field descriptors *)

Record mamaFieldDescriptorImpl : Type := mkDesc {
  mFid : Z;
  mType : Z;
  mName : string;
}.

#[export] Instance desc_eq_dec : EqDecision mamaFieldDescriptorImpl.
Proof. solve_decision. Defined.

(** Which allocations succeed during a call: the first array, a larger one, a
    descriptor and its name. *)
Record allocs : Type := mkAllocs { al_array : bool; al_grow : bool; al_desc : bool; al_name : bool }.

Definition mamaFieldDescriptor_create (e : allocs) (fid wType : Z) (name : option string) :
    mama_status * option mamaFieldDescriptorImpl :=
  if al_desc e && al_name e
  then (MAMA_STATUS_OK, Some (mkDesc fid wType (default EmptyString name)))
  else (MAMA_STATUS_NOMEM, None).

(** ** State *)

Inductive dict_event : Type := OnComplete | OnTimeout | OnError.

(** [mDict] is [None] for NULL; [mSubscription] says whether there is one. *)
Record mamaDictionaryImpl : Type := mkDict {
  mDict : option (list (option mamaFieldDescriptorImpl));
  mDictSize : Z;
  mSize : Z;
  mMaxFid : Z;
  mHasDuplicates : bool;
  mSubscription : bool;
  mFeedHost : option string;
  mFeedName : option string;
  events : list dict_event;
}.

Definition set_mDict (v : option (list (option mamaFieldDescriptorImpl))) (d : mamaDictionaryImpl) : mamaDictionaryImpl :=
  mkDict v (mDictSize d) (mSize d) (mMaxFid d) (mHasDuplicates d) (mSubscription d) (mFeedHost d) (mFeedName d) (events d).
Definition set_mDictSize (v : Z) (d : mamaDictionaryImpl) : mamaDictionaryImpl :=
  mkDict (mDict d) v (mSize d) (mMaxFid d) (mHasDuplicates d) (mSubscription d) (mFeedHost d) (mFeedName d) (events d).
Definition set_mSize (v : Z) (d : mamaDictionaryImpl) : mamaDictionaryImpl :=
  mkDict (mDict d) (mDictSize d) v (mMaxFid d) (mHasDuplicates d) (mSubscription d) (mFeedHost d) (mFeedName d) (events d).
Definition set_mMaxFid (v : Z) (d : mamaDictionaryImpl) : mamaDictionaryImpl :=
  mkDict (mDict d) (mDictSize d) (mSize d) v (mHasDuplicates d) (mSubscription d) (mFeedHost d) (mFeedName d) (events d).
Definition set_mHasDuplicates (v : bool) (d : mamaDictionaryImpl) : mamaDictionaryImpl :=
  mkDict (mDict d) (mDictSize d) (mSize d) (mMaxFid d) v (mSubscription d) (mFeedHost d) (mFeedName d) (events d).
Definition set_mSubscription (v : bool) (d : mamaDictionaryImpl) : mamaDictionaryImpl :=
  mkDict (mDict d) (mDictSize d) (mSize d) (mMaxFid d) (mHasDuplicates d) v (mFeedHost d) (mFeedName d) (events d).
Definition set_mFeedHost (v : option string) (d : mamaDictionaryImpl) : mamaDictionaryImpl :=
  mkDict (mDict d) (mDictSize d) (mSize d) (mMaxFid d) (mHasDuplicates d) (mSubscription d) v (mFeedName d) (events d).
Definition set_mFeedName (v : option string) (d : mamaDictionaryImpl) : mamaDictionaryImpl :=
  mkDict (mDict d) (mDictSize d) (mSize d) (mMaxFid d) (mHasDuplicates d) (mSubscription d) (mFeedHost d) v (events d).
Definition say (v : dict_event) (d : mamaDictionaryImpl) : mamaDictionaryImpl :=
  mkDict (mDict d) (mDictSize d) (mSize d) (mMaxFid d) (mHasDuplicates d) (mSubscription d) (mFeedHost d) (mFeedName d) (events d ++ [v]).

Abbreviation DM := (M mamaDictionaryImpl).

Definition mamaDictionary_create (alloc : bool) : mama_status * option mamaDictionaryImpl :=
  if alloc then (MAMA_STATUS_OK, Some (mkDict None 0 0 0 false false None None [])) else (MAMA_STATUS_NOMEM, None).

(** [self->mDict[i]], read and written. *)
Definition rd (i : Z) : DM (option mamaFieldDescriptorImpl) := fun d =>
  match a ← mDict d; if i <? 0 then None else a !! Z.to_nat i with
  | Some e => Ok (e, d)
  | None => Fail InvalidDeref
  end.

Definition wr (i : Z) (v : option mamaFieldDescriptorImpl) : DM unit := fun d =>
  match a ← mDict d; if (0 <=? i) && (i <? Z.of_nat (length a)) then Some (<[Z.to_nat i := v]> a) else None with
  | Some a => Ok (tt, set_mDict (Some a) d)
  | None => Fail InvalidDeref
  end.

(** ** Adding descriptors *)

Definition createDictArray (e : allocs) : DM mama_status :=
  maxFid ← gets mMaxFid;
  modify (set_mDictSize (maxFid + 1)) ;;
  if al_array e
  then modify (set_mDict (Some (replicate (Z.to_nat (maxFid + 1)) None))) ;; mret MAMA_STATUS_OK
  else modify (set_mDict None) ;; mret MAMA_STATUS_NOMEM.

(** The old descriptors in the order they are copied. *)
Definition old_entries : DM (list (option mamaFieldDescriptorImpl)) := fun d =>
  match mDict d with
  | Some a => Ok (a, d)
  | None => if mDictSize d =? 0 then Ok ([], d) else Fail InvalidDeref
  end.

Definition ensureCapacity (e : allocs) (fid : Z) : DM mama_status :=
  maxFid ← gets mMaxFid;
  (if maxFid <? fid then modify (set_mMaxFid fid) else mret tt) ;;
  size ← gets mDictSize;
  if size <? fid + 1 then
    let newDictNumElements := fid + 100 in
    if negb (al_grow e) then mret MAMA_STATUS_NOMEM
    else
      old ← old_entries;
      modify (set_mDictSize newDictNumElements) ;;
      modify (set_mDict (Some (old ++ replicate (Z.to_nat newDictNumElements - length old) None))) ;;
      mret MAMA_STATUS_OK
  else mret MAMA_STATUS_OK.

(** [fid] is converted to 16 bits by the call; the statuses of the helpers are
    ignored. *)
Definition mamaDictionary_createFieldDescriptor (e : allocs) (fid : Z) (name : option string) (type : Z) : DM mama_status :=
  let fid := u16 fid in
  dict ← gets mDict;
  (match dict with None => createDictArray e ;; mret tt | Some _ => mret tt end) ;;
  let newDescriptor := snd (mamaFieldDescriptor_create e fid type name) in
  ensureCapacity e fid ;;
  wr fid newDescriptor ;;
  modify (fun d => set_mSize (u64 (mSize d + 1)) d) ;;
  mret MAMA_STATUS_OK.

Definition mamaDictionary_setMaxFid (e : allocs) (maxFid : Z) : DM mama_status :=
  dict ← gets mDict;
  (match dict with
   | Some _ => ensureCapacity e (u16 maxFid) ;; mret tt
   | None => modify (set_mMaxFid (u16 maxFid))
   end) ;;
  mret MAMA_STATUS_OK.

(** ** Looking up *)

(** The first component is the status, the second the descriptor found. *)
Definition mamaDictionary_getFieldDescriptorByFid (fid : Z) : DM (mama_status * option mamaFieldDescriptorImpl) :=
  size ← gets mDictSize;
  if size <=? fid then mret (MAMA_STATUS_INVALID_ARG, None)
  else r ← rd fid; mret (MAMA_STATUS_OK, r).

(** [for (i = ...; i < mDictSize; ++i)] with [n] rounds to go. *)
Fixpoint index_loop (n : nat) (i curIndex index : Z) : DM (mama_status * option mamaFieldDescriptorImpl) :=
  match n with
  | O => mret (MAMA_STATUS_NOT_FOUND, None)
  | S n' =>
      e ← rd i;
      match e with
      | Some _ => if curIndex =? index then mret (MAMA_STATUS_OK, e) else index_loop n' (i + 1) (u16 (curIndex + 1)) index
      | None => index_loop n' (i + 1) curIndex index
      end
  end.

Definition mamaDictionary_getFieldDescriptorByIndex (index : Z) : DM (mama_status * option mamaFieldDescriptorImpl) :=
  n ← gets mSize;
  if n <=? index then mret (MAMA_STATUS_INVALID_ARG, None)
  else size ← gets mDictSize; index_loop (Z.to_nat size) 0 0 index.

Definition named (fname : string) (e : option mamaFieldDescriptorImpl) : bool :=
  match e with Some x => String.eqb (mName x) fname | None => false end.

Fixpoint name_loop (n : nat) (i : Z) (fname : string) : DM (mama_status * option mamaFieldDescriptorImpl) :=
  match n with
  | O => mret (MAMA_STATUS_NOT_FOUND, None)
  | S n' =>
      e ← rd i;
      if named fname e then mret (MAMA_STATUS_OK, e) else name_loop n' (i + 1) fname
  end.

Definition mamaDictionary_getFieldDescriptorByName (fname : option string) : DM (mama_status * option mamaFieldDescriptorImpl) :=
  match fname with
  | None => mret (MAMA_STATUS_NULL_ARG, None)
  | Some fname => size ← gets mDictSize; name_loop (Z.to_nat size) 0 fname
  end.

(** The counter [i] is a [mama_fid_t] of 16 bits, the bound is not: the fuel
    does not follow from the size.  [found] is the list written so far. *)
Fixpoint all_loop (fuel : nat) (i : Z) (fname : string) (size : Z) (found : list mamaFieldDescriptorImpl) :
    DM (list mamaFieldDescriptorImpl) :=
  dictSize ← gets mDictSize;
  if i <? dictSize then
    match fuel with
    | O => fail OutOfFuel
    | S fuel' =>
        e ← rd i;
        match e with
        | Some x =>
            if String.eqb (mName x) fname then
              let found := found ++ [x] in
              if Z.of_nat (length found) =? size then mret found else all_loop fuel' (u16 (i + 1)) fname size found
            else all_loop fuel' (u16 (i + 1)) fname size found
        | None => all_loop fuel' (u16 (i + 1)) fname size found
        end
    end
  else mret found.

(** [size]: the room in the caller's list; the list written is returned. *)
Definition mamaDictionary_getFieldDescriptorByNameAll (fuel : nat) (fname : option string) (size : Z) :
    DM (mama_status * list mamaFieldDescriptorImpl) :=
  match fname with
  | None => mret (MAMA_STATUS_INVALID_ARG, [])
  | Some fname =>
      if size <=? 0 then mret (MAMA_STATUS_INVALID_ARG, [])
      else found ← all_loop fuel 0 fname size []; mret (MAMA_STATUS_OK, found)
  end.

Definition mamaDictionary_getMaxFid : DM Z := gets mMaxFid.
Definition mamaDictionary_getSize : DM Z := gets mSize.
Definition mamaDictionary_hasDuplicates : DM bool := gets mHasDuplicates.

Definition mamaDictionary_getFeedName : DM (mama_status * option string) :=
  name ← gets mFeedName;
  mret (match name with Some n => (MAMA_STATUS_OK, Some n) | None => (MAMA_STATUS_NOT_FOUND, None) end).

(** Tests the name, not the host. *)
Definition mamaDictionary_getFeedHost : DM (mama_status * option string) :=
  name ← gets mFeedName;
  host ← gets mFeedHost;
  mret (match name with Some _ => (MAMA_STATUS_OK, host) | None => (MAMA_STATUS_NOT_FOUND, None) end).

(** ** Duplicates *)

(** [for (j = ...; j <= mMaxFid; ++j)] with [n] rounds to go. *)
Fixpoint duplicate_of (n : nat) (j : Z) (name : string) : DM bool :=
  match n with
  | O => mret false
  | S n' =>
      e ← rd j;
      if named name e then mret true else duplicate_of n' (j + 1) name
  end.

Fixpoint duplicate_loop (n : nat) (i : Z) : DM bool :=
  match n with
  | O => mret false
  | S n' =>
      e ← rd i;
      match e with
      | None => duplicate_loop n' (i + 1)
      | Some x =>
          found ← duplicate_of n (i + 1) (mName x);
          if found : bool then mret true else duplicate_loop n' (i + 1)
      end
  end.

Definition checkForDuplicateNames : DM unit :=
  maxFid ← gets mMaxFid;
  b ← duplicate_loop (Z.to_nat maxFid) 0;
  modify (set_mHasDuplicates b).

(** ** From and to messages *)

Section Messages.

Context {msg : Type} `{FieldMsg msg}.

Definition maxIterator (f : msgField) : DM unit :=
  maxFid ← gets mMaxFid;
  if maxFid <? f_fid f then modify (set_mMaxFid (f_fid f)) else mret tt.

Fixpoint iterate (cb : msgField -> DM unit) (l : list msgField) : DM unit :=
  match l with
  | [] => mret tt
  | f :: l' => cb f ;; iterate cb l'
  end.

Definition determineMaxFid (m : msg) : DM unit := iterate maxIterator (fm_fields m).

Definition MamaFieldFeedName : Z := 11.
Definition MamaFieldFeedHost : Z := 12.

Definition dictMsgIterator (e : allocs) (m : msg) (f : msgField) : DM unit :=
  (if MamaFieldFeedName =? f_fid f then
     match fm_getString m (f_name f) (f_fid f) with
     | Some v => modify (set_mFeedName (Some v))
     | None => mret tt
     end
   else if MamaFieldFeedHost =? f_fid f then
     match fm_getString m (f_name f) (f_fid f) with
     | Some v => modify (set_mFeedHost (Some v))
     | None => mret tt
     end
   else mret tt) ;;
  mamaDictionary_createFieldDescriptor e (f_fid f) (f_name f) (f_type f) ;;
  mret tt.

Definition getAndStoreFields (e : allocs) (m : msg) : DM unit := iterate (dictMsgIterator e m) (fm_fields m).

Definition mamaDictionary_buildDictionaryFromMessage (e : allocs) (m : msg) : DM mama_status :=
  determineMaxFid m ;;
  getAndStoreFields e m ;;
  checkForDuplicateNames ;;
  mret MAMA_STATUS_OK.

(** A field that cannot be added is logged and left out. *)
Definition add_entry (x : option mamaFieldDescriptorImpl) (m : msg) : msg :=
  match x with
  | None => m
  | Some x => if in_message (mType x) then snd (fm_add (mkField (Some (mName x)) (mFid x) (mType x)) m) else m
  end.

Fixpoint populate_loop (n : nat) (i : Z) (m : msg) : DM msg :=
  match n with
  | O => mret m
  | S n' => x ← rd i; populate_loop n' (i + 1) (add_entry x m)
  end.

Definition populateMessageFromDictionary (m : msg) : DM msg :=
  size ← gets mDictSize;
  populate_loop (Z.to_nat size) 0 m.

Definition mamaDictionary_getDictionaryMessage : DM (mama_status * msg) :=
  m ← populateMessageFromDictionary fm_empty;
  mret (MAMA_STATUS_OK, m).

Definition mamaDictionary_fillDictionaryMessage (m : msg) : DM (mama_status * msg) :=
  m ← populateMessageFromDictionary m;
  mret (MAMA_STATUS_OK, m).

(** The callback of the dictionary's subscription.  [status] and [type] are those
    of the message. *)
Inductive dict_status : Type := StatusOk | StatusTimeout | StatusOther.

Definition processMsg (e : allocs) (status : dict_status) (expected : bool) (m : msg) : DM unit :=
  match status with
  | StatusTimeout => modify (say OnTimeout)
  | _ =>
      if match status with StatusOk => false | _ => negb expected end then modify (say OnError)
      else
        mamaDictionary_buildDictionaryFromMessage e m ;;
        modify (set_mSubscription false) ;;
        modify (say OnComplete)
  end.

End Messages.

(** ** From and to text files

    A file is its contents.  [snprintf] keeps 255 characters of a line. *)

Definition BAR : ascii := chr 124.
Definition NEWLINE : ascii := chr 10.

(** The first characters of a buffer, and the buffer from an offset on. *)
Fixpoint stake (n : nat) (s : string) : string :=
  match n, s with
  | S n', String c s' => String c (stake n' s')
  | _, _ => EmptyString
  end.

Fixpoint sdrop (n : nat) (s : string) : string :=
  match n, s with
  | S n', String _ s' => sdrop n' s'
  | _, _ => s
  end.

Definition line_of (x : mamaFieldDescriptorImpl) : string :=
  stake 255 (put_d (mFid x) (String BAR (mName x ++ String BAR (put_d (mType x) (String NEWLINE EmptyString))))).

Fixpoint write_loop (n : nat) (i : Z) (file : string) : DM string :=
  match n with
  | O => mret file
  | S n' =>
      x ← rd i;
      write_loop n' (i + 1) (match x with Some x => file ++ line_of x | None => file end)%string
  end.

(** [open]: whether the file can be opened. *)
Definition mamaDictionary_writeToFile (open : bool) : DM (mama_status * string) :=
  if open then
    size ← gets mDictSize;
    file ← write_loop (Z.to_nat size) 0 EmptyString;
    mret (MAMA_STATUS_OK, file)
  else mret (MAMA_STATUS_IO_ERROR, EmptyString).

(** [fgets] with room for [n] characters: up to and with the next newline. *)
Fixpoint fgets (n : nat) (file : string) : string * string :=
  match n, file with
  | S n', String c file' =>
      if Ascii.eqb c NEWLINE then (String c EmptyString, file')
      else let '(line, rest) := fgets n' file' in (String c line, rest)
  | _, _ => (EmptyString, file)
  end.

(** The C string at the start of a buffer. *)
Definition cstr (s : string) : string := default s (c_string s).

Fixpoint strip_spaces (s : string) : string :=
  match s with
  | EmptyString => EmptyString
  | String c s' =>
      match strip_spaces s' with
      | EmptyString => if is_space c then EmptyString else String c EmptyString
      | r => String c r
      end
  end.

Definition stripTrailingWhiteSpace (buffer : string) : string := strip_spaces (cstr buffer).

Fixpoint bars (s : string) : nat :=
  match s with
  | EmptyString => O
  | String c s' => if Ascii.eqb c BAR then S (bars s') else bars s'
  end.

(** Whether the first and the last delimiter exist and differ. *)
Definition validateDelimLine (c : string) : bool := (2 <=? bars c)%nat.

(** Puts NUL for the next delimiter, found across NULs, and returns the buffer
    with the offset behind it; [None]: the search leaves the buffer. *)
Fixpoint getNextDelimStr (c : string) : option (string * nat) :=
  match c with
  | EmptyString => None
  | String x c' =>
      if Ascii.eqb x BAR then Some (String NUL c', 1%nat)
      else '(b, n) ← getNextDelimStr c'; Some (String x b, S n)
  end.

Definition at_ (offset : nat) (buffer : string) : string := cstr (sdrop offset buffer).

Definition atoi (s : string) : Z := i32 (strtol s).

(** One line: the delimiters are both searched from the start of the buffer. *)
Definition populate_line (e : allocs) (line : string) : DM unit :=
  let buffer := stripTrailingWhiteSpace line in
  if validateDelimLine buffer then
    match ('(b1, n1) ← getNextDelimStr buffer; '(b2, n2) ← getNextDelimStr b1; Some (b2, n1, n2)) with
    | None => fail InvalidDeref
    | Some (b, n1, n2) =>
        mamaDictionary_createFieldDescriptor e (atoi (at_ 0 b)) (Some (at_ n1 b)) (atoi (at_ n2 b)) ;;
        mret tt
    end
  else mret tt.

(** [while (fgets (lineBuffer, 255, infile) != NULL)]. *)
Fixpoint file_loop (fuel : nat) (e : allocs) (file : string) : DM unit :=
  match file with
  | EmptyString => mret tt
  | _ =>
      match fuel with
      | O => fail OutOfFuel
      | S fuel' =>
          let '(line, rest) := fgets 254 file in
          populate_line e line ;;
          file_loop fuel' e rest
      end
  end.

(** [file]: the contents, [None] when it cannot be opened. *)
Definition mamaDictionary_populateFromFile (e : allocs) (file : option string) : DM mama_status :=
  match file with
  | None => mret MAMA_STATUS_IO_ERROR
  | Some file => file_loop (String.length file) e file ;; mret MAMA_STATUS_OK
  end.

(** Frees every descriptor up to the largest field id, then the array: the field
    ids of the descriptors freed. *)
Fixpoint destroy_entries (n : nat) (i : Z) (freed : list mamaFieldDescriptorImpl) : DM (list mamaFieldDescriptorImpl) :=
  match n with
  | O => mret freed
  | S n' =>
      x ← rd i;
      destroy_entries n' (i + 1) (match x with Some x => freed ++ [x] | None => freed end)
  end.

Definition mamaDictionary_destroy : DM (mama_status * list mamaFieldDescriptorImpl) :=
  dict ← gets mDict;
  freed ← (match dict with
           | None => mret []
           | Some _ => maxFid ← gets mMaxFid; destroy_entries (Z.to_nat (maxFid + 1)) 0 []
           end);
  modify (set_mDict None) ;;
  modify (set_mSubscription false) ;;
  mret (MAMA_STATUS_OK, freed).

End Dictionary.
