(* ===== verification/DictionaryProps.v ===== *)
(** * The dictionary is a finite map

    The array of a dictionary against a map from field ids to types and names:
    every way of filling it, and every way of reading it. *)

From S2P Require Import Prelude MamaStatus Cstdio Dictionary.
From Stdlib Require Import Ascii String Sorted.
From stdpp Require Import strings.
#[local] Open Scope Z_scope.
Import Cstdio Dictionary.

(** ** What a dictionary stands for *)

Abbreviation dmap := (gmap Z (Z * string)).

Definition desc_of (fid : Z) (v : Z * string) : mamaFieldDescriptorImpl := mkDesc fid v.1 v.2.

Definition arr (d : mamaDictionaryImpl) : list (option mamaFieldDescriptorImpl) := default [] (mDict d).

Definition entry (d : mamaDictionaryImpl) (fid : Z) : option mamaFieldDescriptorImpl :=
  if fid <? 0 then None else mjoin (arr d !! Z.to_nat fid).

(** The descriptors in the order of their field ids. *)
Definition present (d : mamaDictionaryImpl) : list mamaFieldDescriptorImpl := omap id (arr d).

(** [d] stands for [m]; as long as fields with the ids [pending] are still to be
    stored, the largest field id may be one of those. *)
Record drep (pending : list Z) (d : mamaDictionaryImpl) (m : dmap) : Prop := mkDrep {
  dr_array : match mDict d with
             | None => mDictSize d = 0 /\ m = ∅
             | Some a => mDictSize d = Z.of_nat (length a) /\ (mMaxFid d < mDictSize d \/ mMaxFid d ∈ pending)
             end;
  dr_entry : forall fid, entry d fid = desc_of fid <$> m !! fid;
  dr_max : forall fid, is_Some (m !! fid) -> 0 <= fid <= mMaxFid d;
  dr_width : in_u 16 (mMaxFid d);
  dr_size : mDictSize d <= 2 ^ 16 + 99;
}.

Definition memory : allocs := mkAllocs true true true true.

(** What no call on the fields changes. *)
Definition rest_same (d d' : mamaDictionaryImpl) : Prop :=
  mHasDuplicates d' = mHasDuplicates d /\ mSubscription d' = mSubscription d /\
  mFeedHost d' = mFeedHost d /\ mFeedName d' = mFeedName d /\ events d' = events d.

Lemma new_drep d : mamaDictionary_create true = (MAMA_STATUS_OK, Some d) -> drep [] d ∅.
Proof.
  intros [= <-]. split; cbn; [done| |intros fid; rewrite lookup_empty; by intros []|unfold in_u; lia|lia].
  intros fid. rewrite lookup_empty. unfold entry. by case_match.
Qed.

Lemma drep_pending l l' d m : drep l d m -> (mMaxFid d ∈ l -> mMaxFid d ∈ l') -> drep l' d m.
Proof.
  intros [A E X W S] Hl. split; try done. destruct (mDict d); [|done]. destruct A as [A [B|B]]; auto.
Qed.

(** ** Filling *)

Lemma entry_insert d a i v fid :
  mDict d = Some a -> 0 <= i < Z.of_nat (length a) ->
  entry (set_mDict (Some (<[Z.to_nat i := v]> a)) d) fid = if decide (fid = i) then v else entry d fid.
Proof.
  intros Ed Hi. unfold entry, arr. cbn. rewrite Ed. cbn. case_decide as E.
  - subst fid. destruct (Z.ltb_spec i 0); [lia|]. rewrite list_lookup_insert_eq by lia. by destruct v.
  - destruct (Z.ltb_spec fid 0); [done|]. rewrite list_lookup_insert_ne by lia. done.
Qed.

Lemma entry_grow d a n fid :
  mDict d = Some a -> entry (set_mDict (Some (a ++ replicate n None)) d) fid = entry d fid.
Proof.
  intros Ed. unfold entry, arr. cbn. rewrite Ed. cbn. case_match; [done|].
  destruct (decide (Z.to_nat fid < length a)%nat); [by rewrite lookup_app_l|].
  rewrite lookup_app_r, (lookup_ge_None_2 a) by lia. destruct (_ !! _) as [x|] eqn:E; [|done].
  by apply lookup_replicate in E as [-> _].
Qed.

Lemma ensure_spec pending d m fid a :
  drep pending d m -> in_u 16 fid -> mDict d = Some a ->
  wp (ensureCapacity memory fid) d (fun _ d' => exists a', mDict d' = Some a' /\
    mDictSize d' = Z.of_nat (length a') /\ mMaxFid d' = Z.max (mMaxFid d) fid /\ fid < mDictSize d' /\
    mDictSize d <= mDictSize d' <= 2 ^ 16 + 99 /\ (forall f, entry d' f = entry d f) /\
    mSize d' = mSize d /\ rest_same d d' /\ (mDictSize d <= fid -> mDictSize d' = fid + 100)).
Proof.
  intros [A E X W S] Hf Ed. rewrite Ed in A. destruct A as [A B]. unfold in_u in *.
  unfold ensureCapacity. apply wp_bind, wp_gets, wp_bind.
  set (d1 := if mMaxFid d <? fid then set_mMaxFid fid d else d).
  assert (wp (if mMaxFid d <? fid then modify (set_mMaxFid fid) else mret tt) d (fun _ d' => d' = d1)) as W1.
  { unfold d1. case_match; [by apply wp_modify|by apply wp_ret]. }
  eapply wp_mono; [exact W1|]. cbn beta. intros _ ? ->. apply wp_bind, wp_gets.
  assert (mDictSize d1 = mDictSize d /\ mDict d1 = mDict d /\ mMaxFid d1 = Z.max (mMaxFid d) fid /\ mSize d1 = mSize d
          /\ rest_same d d1) as (Es & Em & Ex & En & Er).
  { unfold d1, rest_same. destruct (Z.ltb_spec (mMaxFid d) fid); cbn; split_and!; try done; lia. }
  assert (forall f, entry d1 f = entry d f) as Ef by (intros; unfold entry, arr; by rewrite Em).
  clearbody d1. rewrite Es. destruct (Z.ltb_spec (mDictSize d) (fid + 1)) as [Hlt|Hge].
  - cbn [negb memory al_grow]. apply wp_bind. unfold wp at 1, old_entries. rewrite Em, Ed.
    apply wp_bind, wp_modify, wp_bind, wp_modify, wp_ret. eexists. split; [done|]. cbn. rewrite length_app, length_replicate.
    split_and!; try lia; [|done..]. intros f. rewrite <- Ef. change (arr d1) with (arr (set_mDictSize (fid + 100) d1)).
    change (entry d1 f) with (entry (set_mDictSize (fid + 100) d1) f). apply entry_grow. cbn. congruence.
  - apply wp_ret. exists a. split_and!; try done; try lia; congruence.
Qed.

(** The first descriptor: the array is made for the largest field id known. *)
Lemma first_array_spec pending d m :
  drep pending d m -> mDict d = None ->
  wp (createDictArray memory) d (fun _ d' => drep [] d' m /\ is_Some (mDict d') /\
    mMaxFid d' = mMaxFid d /\ mSize d' = mSize d /\ rest_same d d').
Proof.
  intros [A E X W S] Ed. rewrite Ed in A. destruct A as [A ->]. unfold in_u in W.
  apply wp_bind, wp_gets, wp_bind, wp_modify. cbn [memory al_array]. apply wp_bind, wp_modify, wp_ret.
  split; [|by split_and!; try done; eexists]. split; cbn; try done.
  - rewrite length_replicate. split; [lia|left; lia].
  - intros fid. rewrite lookup_empty. unfold entry, arr. cbn. case_match; [done|].
    destruct (_ !! _) as [x|] eqn:Ex; [|done]. by apply lookup_replicate in Ex as [-> _].
  - lia.
Qed.

(** Storing a descriptor in an array that has room. *)
Lemma store_spec pending d m fid v a :
  drep pending d m -> mDict d = Some a -> in_u 16 fid -> fid < mDictSize d -> fid <= mMaxFid d ->
  wp (wr fid (Some (desc_of fid v))) d (fun _ d' => drep (List.remove Z.eq_dec fid pending) d' (<[fid := v]> m) /\
    mSize d' = mSize d /\ mMaxFid d' = mMaxFid d /\ rest_same d d' /\ mDictSize d' = mDictSize d).
Proof.
  intros [A E X W S] Ed Hf Hs Hm. rewrite Ed in A. destruct A as [A B]. unfold in_u in *.
  unfold wp, wr. rewrite Ed. cbn.
  destruct (Z.leb_spec 0 fid), (Z.ltb_spec fid (Z.of_nat (length a))); try lia. cbn. split; [|done].
  split; cbn; try done.
  - rewrite length_insert. split; [done|]. destruct B as [B|B]; [by left|].
    destruct (decide (mMaxFid d < mDictSize d)) as [|Hn]; [by left|right].
    apply list_elem_of_In, List.in_in_remove; [lia|by apply list_elem_of_In].
  - intros f. rewrite (entry_insert d a) by (done || lia). case_decide as Ef.
    + subst f. by rewrite lookup_insert_eq.
    + by rewrite lookup_insert_ne.
  - intros f. rewrite lookup_insert_is_Some'. intros [<-|Hx]; [lia|auto].
Qed.

Lemma create_descriptor_spec pending d m fid name type :
  drep pending d m ->
  wp (mamaDictionary_createFieldDescriptor memory fid name type) d (fun r d' => r = MAMA_STATUS_OK /\
    drep (List.remove Z.eq_dec (u16 fid) pending) d' (<[u16 fid := (type, default EmptyString name)]> m) /\
    mMaxFid d' = Z.max (mMaxFid d) (u16 fid) /\ mSize d' = u64 (mSize d + 1) /\ is_Some (mDict d') /\ rest_same d d' /\
    (is_Some (mDict d) -> mDictSize d <= u16 fid -> mDictSize d' = u16 fid + 100)).
Proof.
  intros H. assert (in_u 16 (u16 fid)) as Hf by (apply Z.mod_pos_bound; lia).
  unfold mamaDictionary_createFieldDescriptor. set (f := u16 fid) in *. apply wp_bind, wp_gets, wp_bind.
  assert (wp (match mDict d with None => createDictArray memory ;; mret tt | Some _ => mret tt end) d (fun _ d1 =>
    drep pending d1 m /\ is_Some (mDict d1) /\ mMaxFid d1 = mMaxFid d /\ mSize d1 = mSize d /\ rest_same d d1 /\
    (is_Some (mDict d) -> mDictSize d1 = mDictSize d))) as W1.
  { destruct (mDict d) eqn:Ed; [by apply wp_ret; split_and!; eauto|].
    apply wp_bind. eapply wp_mono; [by eapply first_array_spec|]. cbn beta. intros _ d1 (H1 & Hs & ?).
    apply wp_ret. split; [|destruct_and!; split_and!; try done; by intros []].
    eapply drep_pending; [done|]. by intros ?%elem_of_nil. }
  eapply wp_mono; [exact W1|]. cbn beta. intros _ d1 (H1 & [a Ea] & Em & Es & Er & Ez).
  apply wp_bind. eapply wp_mono; [by eapply ensure_spec|]. cbn beta.
  intros _ d2 (a2 & Ea2 & El2 & Em2 & Hlt & Hb & Ee & Es2 & Er2 & Ez2). apply wp_bind.
  assert (drep pending d2 m) as H2.
  { destruct H1 as [A E X W S]. rewrite Ea in A. unfold in_u in *. split; [rewrite Ea2| | | |]; try (unfold in_u; lia).
    - split; [done|]. destruct (decide (mMaxFid d2 < mDictSize d2)) as [|Hn]; [by left|right].
      destruct A as [_ [A|A]]; [lia|]. assert (mMaxFid d2 = mMaxFid d1) as -> by lia. done.
    - intros g. by rewrite Ee.
    - intros g Hg. specialize (X g Hg). lia. }
  eapply wp_mono; [by eapply (store_spec _ _ _ f (type, default EmptyString name)); [..|lia]|].
  cbn beta. intros _ d3 (H3 & Es3 & Em3 & Er3 & Ez3). apply wp_bind, wp_modify, wp_ret.
  assert (is_Some (mDict d3)) as Hs3.
  { destruct H3 as [A _ _ _ _]. destruct (mDict d3); [eauto|]. destruct A as [_ A].
    apply (f_equal (lookup f)) in A. by rewrite lookup_insert_eq in A. }
  split; [done|]. split; [by destruct H3|]. cbn. unfold rest_same in *. cbn.
  split_and!; try first [done|lia|congruence]. all: destruct_and!; try congruence.
  intros Hd Hle. rewrite Ez3. apply Ez2. rewrite (Ez Hd). exact Hle.
Qed.

Lemma set_max_spec d m n :
  drep [] d m ->
  wp (mamaDictionary_setMaxFid memory n) d (fun r d' => r = MAMA_STATUS_OK /\ drep [] d' m /\ mSize d' = mSize d).
Proof.
  intros H. assert (in_u 16 (u16 n)) as Hn by (apply Z.mod_pos_bound; lia). pose proof H as [A E X W S].
  apply wp_bind, wp_gets. destruct (mDict d) as [a|] eqn:Ed.
  - apply wp_bind, wp_bind. eapply wp_mono; [by eapply ensure_spec|]. cbn beta.
    intros _ d2 (a2 & Ea2 & El2 & Em2 & Hlt & Hb & Ee & Es & _). apply wp_ret, wp_ret. split; [done|]. split; [|done].
    unfold in_u in *. destruct A as [A [B|B]]; [|by apply elem_of_nil in B].
    split; [rewrite Ea2| | | |]; try (unfold in_u; lia).
    + intros g. by rewrite Ee.
    + intros g Hg. specialize (X g Hg). lia.
  - apply wp_bind, wp_modify, wp_ret. split; [done|]. split; [|done]. destruct A as [A ->]. split; cbn; try done; [by rewrite Ed|].
    intros g. rewrite lookup_empty. by intros [].
Qed.

(** ** Building from a message *)

Definition store_field (m : dmap) (f : msgField) : dmap := <[f_fid f := (f_type f, default EmptyString (f_name f))]> m.

Definition field_ok (f : msgField) : Prop := in_u 16 (f_fid f).

Lemma max_iterate l : forall d m pending,
  drep pending d m -> Forall field_ok l ->
  wp (iterate maxIterator l) d (fun _ d' => drep (pending ++ (f_fid <$> l)) d' m /\ mDict d' = mDict d /\
    mSize d' = mSize d /\ rest_same d d').
Proof.
  induction l as [|f l IH]; intros d m pending H Hl; cbn [iterate].
  { apply wp_ret. rewrite app_nil_r. by split_and!. }
  apply Forall_cons in Hl as [Hf Hl]. apply wp_bind.
  assert (wp (maxIterator f) d (fun _ d1 => drep (pending ++ [f_fid f]) d1 m /\ mDict d1 = mDict d /\
    mSize d1 = mSize d /\ rest_same d d1)) as W1.
  { apply wp_bind, wp_gets. destruct (Z.ltb_spec (mMaxFid d) (f_fid f)).
    - apply wp_modify. split; [|by split_and!]. destruct H as [A E X W S]. split; cbn; try done.
      + destruct (mDict d); [|done]. split; [tauto|]. right. set_solver.
      + intros g Hg. specialize (X g Hg). lia.
    - apply wp_ret. split; [|by split_and!]. eapply drep_pending; [done|]. set_solver. }
  eapply wp_mono; [exact W1|]. cbn beta. intros _ d1 (H1 & E1 & Es & Er).
  eapply wp_mono; [by apply IH|]. cbn beta. intros _ d2 (H2 & E2 & Es2 & Er2).
  rewrite <- app_assoc in H2. split; [done|]. unfold rest_same in *. destruct_and!. split_and!; congruence.
Qed.

Lemma drep_feed_name pending d m v : drep pending d m -> drep pending (set_mFeedName v d) m.
Proof. by intros []. Qed.
Lemma drep_feed_host pending d m v : drep pending d m -> drep pending (set_mFeedHost v d) m.
Proof. by intros []. Qed.

Section building.

Context {msg : Type} `{FieldMsg msg}.

Lemma store_one (mm : msg) f d m l :
  drep (f_fid f :: l) d m -> field_ok f ->
  wp (dictMsgIterator memory mm f) d (fun _ d' => drep l d' (store_field m f) /\ is_Some (mDict d') /\
    mSize d' = u64 (mSize d + 1)).
Proof.
  intros R Hf. unfold dictMsgIterator. apply wp_bind.
  set (Q := fun (_ : unit) d1 => drep (f_fid f :: l) d1 m /\ mSize d1 = mSize d).
  assert (forall (b : bool) (k1 k2 : DM unit), wp k1 d Q -> wp k2 d Q -> wp (if b then k1 else k2) d Q) as Hif.
  { by intros []. }
  eapply (wp_mono _ _ Q).
  { assert (wp (mret tt) d Q) as Hr by (by apply wp_ret).
    apply Hif; [|apply Hif; [|done]]; (destruct (fm_getString _ _ _); [|done]); apply wp_modify; split; try done;
      [by apply drep_feed_name|by apply drep_feed_host]. }
  intros _ d1 [R1 Es]. apply wp_bind. eapply wp_mono; [by apply create_descriptor_spec|]. cbn beta.
  intros r d2 (-> & R2 & _ & Es2 & Hs & _). apply wp_ret.
  assert (u16 (f_fid f) = f_fid f) as Ef by (apply Z.mod_small; exact Hf). rewrite Ef in R2.
  split; [|split; [done|congruence]]. eapply drep_pending; [exact R2|].
  intros Hin. apply list_elem_of_In, List.in_remove in Hin as [Hin Hne].
  apply list_elem_of_In, elem_of_cons in Hin as [|]; [done|done].
Qed.

Lemma store_all (mm : msg) l : forall d m,
  drep (f_fid <$> l) d m -> Forall field_ok l ->
  wp (iterate (dictMsgIterator memory mm) l) d (fun _ d' => drep [] d' (foldl store_field m l) /\
    (l <> [] \/ is_Some (mDict d) -> is_Some (mDict d')) /\ u64 (mSize d') = u64 (mSize d + Z.of_nat (length l))).
Proof.
  induction l as [|f l IH]; intros d m R Hl; cbn [iterate].
  { apply wp_ret. split; [done|]. split; [by intros [|]|]. by rewrite Z.add_0_r. }
  apply Forall_cons in Hl as [Hf Hl]. apply wp_bind. eapply wp_mono; [by apply store_one|]. cbn beta.
  intros _ d1 (R1 & Hs & Es). eapply wp_mono; [by apply IH|]. cbn beta. intros _ d2 (R2 & Hs2 & Es2).
  split; [done|]. split; [auto|]. rewrite Es2, Es. unfold u64, uwrap. rewrite Zplus_mod_idemp_l. f_equal. cbn. lia.
Qed.

End building.

(** ** Reading *)

(** Reading the array in the order of its indices is walking the list. *)
Lemma wp_rd_drop {A} d a i (k : option mamaFieldDescriptorImpl -> DM A) Q :
  mDict d = Some a -> (i < length a)%nat ->
  (forall x, drop i a = x :: drop (S i) a -> wp (k x) d Q) ->
  wp (x ← rd (Z.of_nat i); k x) d Q.
Proof.
  intros Ed Hi Hk. destruct (lookup_lt_is_Some_2 a i Hi) as [x Hx]. apply wp_bind. unfold wp at 1, rd. rewrite Ed. cbn.
  destruct (Z.ltb_spec (Z.of_nat i) 0); [lia|]. rewrite Nat2Z.id, Hx. apply Hk. by apply drop_S.
Qed.

Definition first_named (fname : string) (l : list mamaFieldDescriptorImpl) : option mamaFieldDescriptorImpl :=
  List.find (fun x => String.eqb (mName x) fname) l.

Lemma name_loop_spec d a fname : mDict d = Some a -> forall n i, (i + n = length a)%nat ->
  wp (name_loop n (Z.of_nat i) fname) d (fun r d' => d' = d /\
    r = match first_named fname (omap id (drop i a)) with
        | Some x => (MAMA_STATUS_OK, Some x)
        | None => (MAMA_STATUS_NOT_FOUND, None)
        end).
Proof.
  intros Ed. induction n as [|n IH]; intros i Hi; cbn [name_loop].
  { apply wp_ret. rewrite drop_ge by lia. done. }
  apply (wp_rd_drop d a i); [done|lia|]. intros x Hx. rewrite Hx. replace (Z.of_nat i + 1) with (Z.of_nat (S i)) by lia.
  destruct x as [x|]; cbn.
  - destruct (String.eqb (mName x) fname) eqn:En; [apply wp_ret; by split|apply IH; lia].
  - apply IH. lia.
Qed.

Lemma index_loop_spec d a index : mDict d = Some a -> Z.of_nat (length a) <= 2 ^ 16 + 99 -> forall n i cur, (i + n = length a)%nat ->
  0 <= cur <= index -> index < 2 ^ 16 ->
  wp (index_loop n (Z.of_nat i) cur index) d (fun r d' => d' = d /\
    r = match omap id (drop i a) !! Z.to_nat (index - cur) with
        | Some x => (MAMA_STATUS_OK, Some x)
        | None => (MAMA_STATUS_NOT_FOUND, None)
        end).
Proof.
  intros Ed Hlen. induction n as [|n IH]; intros i cur Hi Hc Hx; cbn [index_loop].
  { apply wp_ret. rewrite drop_ge by lia. done. }
  apply (wp_rd_drop d a i); [done|lia|]. intros x Hd. rewrite Hd. replace (Z.of_nat i + 1) with (Z.of_nat (S i)) by lia.
  destruct x as [x|]; cbn [omap list_omap id]; [|apply IH; lia].
  destruct (Z.eqb_spec cur index) as [->|Hne].
  - apply wp_ret. rewrite Z.sub_diag. done.
  - assert (u16 (cur + 1) = cur + 1) as -> by (apply Z.mod_small; lia).
    replace (Z.to_nat (index - cur)) with (S (Z.to_nat (index - (cur + 1)))) by lia. apply IH; lia.
Qed.

(** As long as the counter of 16 bits reaches the end, all with the name are
    found, up to the room there is. *)
Lemma all_loop_spec d a fname size : mDict d = Some a -> mDictSize d = Z.of_nat (length a) -> Z.of_nat (length a) < 2 ^ 16 ->
  0 < size -> forall n i found fuel, (i + n = length a)%nat -> (n <= fuel)%nat -> Z.of_nat (length found) < size ->
  wp (all_loop fuel (Z.of_nat i) fname size found) d (fun r d' => d' = d /\
    r = take (Z.to_nat size) (found ++ filter (fun x => mName x = fname) (omap id (drop i a)))).
Proof.
  intros Ed Es Hlen Hsz. induction n as [|n IH]; intros i found fuel Hi Hfuel Hf; destruct fuel as [|fuel]; try lia;
    cbn [all_loop]; apply wp_bind, wp_gets; rewrite Es; destruct (Z.ltb_spec (Z.of_nat i) (Z.of_nat (length a))); try lia.
  1,2: apply wp_ret; split; [done|]; rewrite drop_ge by lia; cbn; rewrite app_nil_r, take_ge by lia; done.
  apply (wp_rd_drop d a i); [done|lia|]. intros x Hd. rewrite Hd.
  assert (u16 (Z.of_nat i + 1) = Z.of_nat (S i)) as -> by (unfold u16, uwrap; rewrite Z.mod_small by lia; lia).
  destruct x as [x|]; cbn [omap list_omap id]; [|apply IH; lia].
  destruct (String.eqb_spec (mName x) fname) as [En|En].
  - rewrite filter_cons_True by done.
    set (l := filter _ _). replace (found ++ x :: l) with ((found ++ [x]) ++ l) by (by rewrite <- app_assoc).
    cbn zeta. destruct (Z.eqb_spec (Z.of_nat (length (found ++ [x]))) size) as [El|El].
    + apply wp_ret. cbn beta. split; [done|]. rewrite take_app_length'; [done|lia].
    + apply IH; try lia. rewrite length_app in *. cbn in *. lia.
  - rewrite filter_cons_False by done. apply IH; lia.
Qed.

Lemma duplicate_of_spec d a name : mDict d = Some a -> forall n j, (j + n <= length a)%nat ->
  wp (duplicate_of n (Z.of_nat j) name) d (fun r d' => d' = d /\ r = existsb (named name) (take n (drop j a))).
Proof.
  intros Ed. induction n as [|n IH]; intros j Hj; cbn [duplicate_of]; [by apply wp_ret|].
  apply (wp_rd_drop d a j); [done|lia|]. intros x Hd. rewrite Hd. cbn [take existsb].
  replace (Z.of_nat j + 1) with (Z.of_nat (S j)) by lia. destruct (named name x); [by apply wp_ret|]. apply IH. lia.
Qed.

(** Whether two of the array's descriptors have one name. *)
Fixpoint has_twins (l : list (option mamaFieldDescriptorImpl)) : bool :=
  match l with
  | [] => false
  | Some x :: l' => existsb (named (mName x)) l' || has_twins l'
  | None :: l' => has_twins l'
  end.

Lemma duplicate_loop_spec d a : mDict d = Some a -> forall n i, (i + n < length a)%nat ->
  wp (duplicate_loop n (Z.of_nat i)) d (fun r d' => d' = d /\ r = has_twins (take (S n) (drop i a))).
Proof.
  intros Ed. induction n as [|n IH]; intros i Hi; cbn [duplicate_loop].
  { apply wp_ret. split; [done|]. destruct (drop i a) as [|[x|] l]; [done|cbn; by rewrite take_0|cbn; by rewrite take_0]. }
  apply (wp_rd_drop d a i); [done|lia|]. intros x Hd. rewrite Hd. replace (Z.of_nat i + 1) with (Z.of_nat (S i)) by lia.
  destruct x as [x|].
  - apply wp_bind. eapply wp_mono; [apply (duplicate_of_spec d a _ Ed (S n) (S i)); lia|]. cbn beta. intros b d' [-> ->].
    cbn [take has_twins]. destruct (existsb _ _); [by apply wp_ret|]. apply IH. lia.
  - apply IH. lia.
Qed.

(** The fields of [m] in the order of their ids. *)
Definition lists (m : dmap) (l : list mamaFieldDescriptorImpl) : Prop :=
  StronglySorted (fun x y => mFid x < mFid y) l /\ forall x, x ∈ l <-> m !! mFid x = Some (mType x, mName x).

Lemma omap_sorted a : forall off : Z,
  (forall i x, a !! i = Some (Some x) -> mFid x = off + Z.of_nat i) ->
  StronglySorted (fun x y => mFid x < mFid y) (omap id a) /\ Forall (fun x => off <= mFid x) (omap id a).
Proof.
  induction a as [|e a IH]; intros off Ha; [split; constructor|].
  destruct (IH (off + 1)) as [S F]. { intros i x Hx. rewrite (Ha (S i) x Hx). lia. }
  destruct e as [x|]; cbn.
  - specialize (Ha 0%nat x eq_refl) as Hx. split; constructor; try done; try lia.
    all: eapply Forall_impl; [exact F|]; cbn; intros y Hy; lia.
  - split; [done|]. eapply Forall_impl; [exact F|]. cbn. intros y Hy. lia.
Qed.

Lemma elem_of_present d x : x ∈ present d <-> exists i, arr d !! i = Some (Some x).
Proof.
  unfold present. rewrite list_elem_of_omap. split.
  - intros (e & He & Hid). cbn in Hid. subst e. by apply list_elem_of_lookup in He.
  - intros [i Hi]. exists (Some x). split; [by eapply list_elem_of_lookup_2|done].
Qed.

Lemma arr_entry pending d m i x :
  drep pending d m -> arr d !! i = Some (Some x) -> mFid x = Z.of_nat i /\ m !! mFid x = Some (mType x, mName x).
Proof.
  intros R Hx. pose proof (dr_entry _ _ _ R (Z.of_nat i)) as E. unfold entry in E.
  destruct (Z.ltb_spec (Z.of_nat i) 0); [lia|]. rewrite Nat2Z.id, Hx in E. cbn in E.
  destruct (m !! Z.of_nat i) as [[t n]|] eqn:Em; [|done]. by injection E as ->.
Qed.

Lemma present_lists pending d m : drep pending d m -> lists m (present d).
Proof.
  intros R. pose proof (fun i x => arr_entry _ _ _ i x R) as Ha.
  split; [apply (omap_sorted _ 0); intros i x Hx; by apply Ha|]. intros x. rewrite elem_of_present. split.
  - intros [i Hi]. by eapply Ha.
  - intros Hm. pose proof (dr_entry _ _ _ R (mFid x)) as E. rewrite Hm in E. unfold entry in E. cbn in E.
    case_match; [done|]. destruct (arr d !! Z.to_nat (mFid x)) as [[y|]|] eqn:Ey; cbn in E; try done.
    injection E as ->. exists (Z.to_nat (mFid x)). rewrite Ey. unfold desc_of. by destruct x.
Qed.

Lemma twins_spec a : forall off,
  (forall i x, a !! i = Some (Some x) -> mFid x = off + Z.of_nat i) ->
  has_twins a = true <-> exists x y, x ∈ omap id a /\ y ∈ omap id a /\ mFid x < mFid y /\ mName x = mName y.
Proof.
  induction a as [|e a IH]; intros off Ha.
  { cbn. split; [done|]. by intros (x & y & ?%elem_of_nil & _). }
  assert (forall i x, a !! i = Some (Some x) -> mFid x = (off + 1) + Z.of_nat i) as Ha'.
  { intros i x Hx. rewrite (Ha (S i) x Hx). lia. }
  destruct (omap_sorted a _ Ha') as [_ F]. rewrite Forall_forall in F. specialize (IH _ Ha').
  destruct e as [x|]; cbn [has_twins omap list_omap id]; [|exact IH]. specialize (Ha 0%nat x eq_refl) as Hx.
  rewrite orb_true_iff, IH, existsb_exists. split.
  - intros [(e & He & Hn)|(y & z & Hy & Hz & ?)]; [|exists y, z; set_solver].
    destruct e as [y|]; [|done]. cbn in Hn. apply String.eqb_eq in Hn. exists x, y.
    assert (y ∈ omap id a) as Hy by (apply list_elem_of_omap; exists (Some y); by apply list_elem_of_In in He).
    specialize (F y Hy). cbn in F. split_and!; [set_solver|set_solver|lia|done].
  - intros (y & z & Hy & Hz & Hlt & Hn). apply elem_of_cons in Hy as [->|Hy].
    + apply elem_of_cons in Hz as [->|Hz]; [lia|]. left. exists (Some z). apply list_elem_of_omap in Hz as (e & He & Hid).
      cbn in Hid. subst e. split; [by apply list_elem_of_In|]. cbn. rewrite Hn. apply String.eqb_refl.
    + apply elem_of_cons in Hz as [->|Hz]; [|right; by exists y, z]. specialize (F y Hy). cbn in F. lia.
Qed.

(** ** Building is exact about duplicates *)

(** Two fields of [m] have one name. *)
Definition twins (m : dmap) : Prop :=
  exists f1 f2 v1 v2, f1 < f2 /\ m !! f1 = Some v1 /\ m !! f2 = Some v2 /\ v1.2 = v2.2.

Lemma twins_present d m : drep [] d m -> has_twins (arr d) = true <-> twins m.
Proof.
  intros R. destruct (present_lists _ _ _ R) as [_ L]. rewrite (twins_spec (arr d) 0).
  - change (omap id (arr d)) with (present d). split.
    + intros (x & y & Hx & Hy & Hlt & Hn). apply L in Hx, Hy. by exists (mFid x), (mFid y), (mType x, mName x), (mType y, mName y).
    + intros (f1 & f2 & [t1 n1] & [t2 n2] & Hlt & H1 & H2 & Hn). exists (mkDesc f1 t1 n1), (mkDesc f2 t2 n2).
      rewrite !L. by cbn.
  - intros i x Hx. by eapply arr_entry.
Qed.

(** Above the largest field id the array is empty. *)
Lemma twins_take d m a : drep [] d m -> mDict d = Some a -> has_twins (take (S (Z.to_nat (mMaxFid d))) a) = has_twins a.
Proof.
  intros R Ed. pose proof R as [_ E X W _]. unfold in_u in W. rewrite <- (take_drop (S (Z.to_nat (mMaxFid d))) a) at 2.
  assert (Forall (fun e => e = None) (drop (S (Z.to_nat (mMaxFid d))) a)) as Hn.
  { apply Forall_lookup. intros i e Hi. rewrite lookup_drop in Hi. destruct e as [x|]; [|done].
    destruct (arr_entry _ _ _ (S (Z.to_nat (mMaxFid d)) + i) x R) as [Hf Hm]; [unfold arr; by rewrite Ed|].
    assert (0 <= mFid x <= mMaxFid d) by (apply X; eauto). lia. }
  generalize (take (S (Z.to_nat (mMaxFid d))) a). revert Hn. generalize (drop (S (Z.to_nat (mMaxFid d))) a).
  intros t Ht l. induction l as [|e l IH]; cbn.
  - induction Ht as [|e t -> _ IHt]; [done|]. cbn. exact IHt.
  - destruct e as [x|]; [|exact IH]. rewrite existsb_app, IH. f_equal.
    assert (existsb (named (mName x)) t = false) as ->; [|by rewrite orb_false_r].
    clear IH. induction Ht as [|e t -> _ IHt]; [done|]. cbn. exact IHt.
Qed.

Lemma check_spec d m :
  drep [] d m -> is_Some (mDict d) ->
  wp checkForDuplicateNames d (fun _ d' => drep [] d' m /\ (mHasDuplicates d' = true <-> twins m) /\
    mSize d' = mSize d /\ mDict d' = mDict d).
Proof.
  intros R [a Ea]. pose proof R as [A _ _ W _]. rewrite Ea in A. destruct A as [A [B|B]]; [|by apply elem_of_nil in B].
  unfold in_u in W. apply wp_bind, wp_gets, wp_bind.
  eapply wp_mono; [apply (duplicate_loop_spec d a Ea _ 0); lia|]. cbn beta. intros b d' [-> ->]. apply wp_modify.
  split; [by destruct R|]. cbn [mHasDuplicates set_mHasDuplicates]. split; [|done].
  rewrite drop_0, (twins_take d m a R Ea), <- (twins_present d m R). unfold arr. by rewrite Ea.
Qed.

Section claims.

Context {msg : Type} `{FieldMsg msg}.

Lemma build_spec d m (mm : msg) :
  drep [] d m -> Forall field_ok (fm_fields mm) -> fm_fields mm <> [] \/ is_Some (mDict d) ->
  wp (mamaDictionary_buildDictionaryFromMessage memory mm) d (fun r d' => r = MAMA_STATUS_OK /\
    drep [] d' (foldl store_field m (fm_fields mm)) /\
    (mHasDuplicates d' = true <-> twins (foldl store_field m (fm_fields mm))) /\
    u64 (mSize d') = u64 (mSize d + Z.of_nat (length (fm_fields mm)))).
Proof.
  intros R Hl Hne. apply wp_bind. eapply wp_mono; [by apply (max_iterate _ _ m [])|]. cbn beta.
  intros _ d1 (R1 & E1 & S1 & _). apply wp_bind. eapply wp_mono; [by apply store_all|]. cbn beta.
  intros _ d2 (R2 & Hs & S2). apply wp_bind. eapply wp_mono; [apply check_spec; [exact R2|apply Hs; by rewrite E1]|].
  cbn beta. intros _ d3 (R3 & Hd & S3 & _). apply wp_ret. split; [done|]. split; [done|]. split; [done|]. congruence.
Qed.

(** ** Histories *)

Inductive dcall : Type :=
| AddField (fid : Z) (name : option string) (type : Z)
| SetMaxFid (maxFid : Z)
| Build (m : msg).

Definition run_dcall (c : dcall) : DM mama_status :=
  match c with
  | AddField fid name type => mamaDictionary_createFieldDescriptor memory fid name type
  | SetMaxFid n => mamaDictionary_setMaxFid memory n
  | Build m => mamaDictionary_buildDictionaryFromMessage memory m
  end.

Fixpoint run_dcalls (l : list dcall) : DM (list mama_status) :=
  match l with
  | [] => mret []
  | c :: l' => r ← run_dcall c; rs ← run_dcalls l'; mret (r :: rs)
  end.

(** The abstract dictionary: the map, and how many descriptors were stored. *)
Definition dstep (a : dmap * nat) (c : dcall) : dmap * nat :=
  match c with
  | AddField fid name type => (<[u16 fid := (type, default EmptyString name)]> a.1, S a.2)
  | SetMaxFid _ => a
  | Build m => (foldl store_field a.1 (fm_fields m), (a.2 + length (fm_fields m))%nat)
  end.

(** Field ids of messages have 16 bits; a message to build from is not empty. *)
Definition dcall_ok (c : dcall) : Prop :=
  match c with Build m => Forall field_ok (fm_fields m) /\ fm_fields m <> [] | _ => True end.

Lemma call_refines d a c :
  drep [] d a.1 -> u64 (mSize d) = u64 (Z.of_nat a.2) -> dcall_ok c ->
  wp (run_dcall c) d (fun r d' => r = MAMA_STATUS_OK /\ drep [] d' (dstep a c).1 /\
    u64 (mSize d') = u64 (Z.of_nat (dstep a c).2)).
Proof.
  intros R S Hc. destruct c as [fid name type|n|mm]; cbn [run_dcall dstep fst snd].
  - eapply wp_mono; [by apply create_descriptor_spec|]. cbn beta. intros r d' (-> & R' & _ & S' & _). split; [done|].
    split; [by eapply drep_pending|]. rewrite S'. unfold u64, uwrap in *. rewrite Z.mod_mod by done.
    rewrite <- Zplus_mod_idemp_l, S, Zplus_mod_idemp_l. f_equal. lia.
  - eapply wp_mono; [by apply set_max_spec|]. cbn beta. intros r d' (-> & R' & S'). by rewrite S'.
  - destruct Hc as [Hf Hne]. eapply wp_mono; [apply build_spec; [done|done|by left]|]. cbn beta.
    intros r d' (-> & R' & _ & S'). split; [done|]. split; [done|]. rewrite S'. unfold u64, uwrap in *.
    rewrite <- Zplus_mod_idemp_l, S, Zplus_mod_idemp_l. f_equal. lia.
Qed.

Lemma calls_refine_map l : forall d a,
  drep [] d a.1 -> u64 (mSize d) = u64 (Z.of_nat a.2) -> Forall dcall_ok l ->
  wp (run_dcalls l) d (fun rs d' => rs = replicate (length l) MAMA_STATUS_OK /\ drep [] d' (foldl dstep a l).1 /\
    u64 (mSize d') = u64 (Z.of_nat (foldl dstep a l).2)).
Proof.
  induction l as [|c l IH]; intros d a R S Hl; cbn [run_dcalls]; [by apply wp_ret|].
  apply Forall_cons in Hl as [Hc Hl]. apply wp_bind. eapply wp_mono; [by apply call_refines|]. cbn beta.
  intros r d1 (-> & R1 & S1). apply wp_bind. eapply wp_mono; [by apply (IH d1 (dstep a c))|]. cbn beta.
  intros rs d2 (-> & R2 & S2). apply wp_ret. by split_and!.
Qed.

End claims.

(** ** What reading returns *)

Lemma by_fid_spec d m fid :
  drep [] d m -> in_u 16 fid ->
  wp (mamaDictionary_getFieldDescriptorByFid fid) d (fun r d' => d' = d /\ r.2 = desc_of fid <$> m !! fid /\
    (r.1 = MAMA_STATUS_OK \/ r = (MAMA_STATUS_INVALID_ARG, None))).
Proof.
  intros [A E X W S] Hf. unfold in_u in *. apply wp_bind, wp_gets. specialize (E fid). unfold entry, arr in E.
  destruct (Z.ltb_spec fid 0); [lia|]. destruct (Z.leb_spec (mDictSize d) fid) as [Hle|Hlt].
  - apply wp_ret. split; [done|]. split; [|by right]. rewrite <- E. destruct (mDict d) as [a|]; cbn; [|done].
    rewrite lookup_ge_None_2; [done|]. lia.
  - apply wp_bind. unfold wp at 1, rd. destruct (mDict d) as [a|]; [|lia]. destruct A as [A _]. cbn in *.
    destruct (Z.ltb_spec fid 0); [lia|]. destruct (lookup_lt_is_Some_2 a (Z.to_nat fid)) as [x Hx]; [lia|].
    rewrite Hx in *. apply wp_ret. by split_and!; [| |left].
Qed.

(** All that the lookups by name and by index return, in terms of the list of
    the fields. *)
Lemma lookups_spec d m :
  drep [] d m ->
  (forall fname, wp (mamaDictionary_getFieldDescriptorByName (Some fname)) d (fun r d' => d' = d /\
     r = match first_named fname (present d) with
         | Some x => (MAMA_STATUS_OK, Some x)
         | None => (MAMA_STATUS_NOT_FOUND, None)
         end)) /\
  (forall fname size fuel, mDictSize d < 2 ^ 16 -> 0 < size -> (Z.to_nat (mDictSize d) <= fuel)%nat ->
     wp (mamaDictionary_getFieldDescriptorByNameAll fuel (Some fname) size) d (fun r d' => d' = d /\
       r = (MAMA_STATUS_OK, take (Z.to_nat size) (filter (fun x => mName x = fname) (present d))))) /\
  (forall index, in_u 16 index -> index < mSize d ->
     wp (mamaDictionary_getFieldDescriptorByIndex index) d (fun r d' => d' = d /\ r.2 = present d !! Z.to_nat index)).
Proof.
  intros [A E X W S]. unfold in_u in *. destruct (mDict d) as [a|] eqn:Ed.
  - destruct A as [A _]. assert (present d = omap id (drop 0 a)) as -> by (unfold present, arr; by rewrite Ed).
    split_and!.
    + intros fname. apply wp_bind, wp_gets. apply (name_loop_spec d a fname Ed _ 0). lia.
    + intros fname size fuel Hs Hz Hf. unfold mamaDictionary_getFieldDescriptorByNameAll.
      destruct (Z.leb_spec size 0); [lia|]. apply wp_bind.
      eapply wp_mono; [apply (all_loop_spec d a fname size Ed A) with (n := length a) (i := 0%nat); cbn; lia|].
      cbn beta. intros r d' [-> ->]. apply wp_ret. done.
    + intros index Hi Hz. apply wp_bind, wp_gets. destruct (Z.leb_spec (mSize d) index); [lia|].
      apply wp_bind, wp_gets. eapply wp_mono; [apply (index_loop_spec d a index Ed) with (i := 0%nat); lia|].
      cbn beta. intros r d' [-> ->]. rewrite Z.sub_0_r. split; [done|]. by case_match.
  - destruct A as [A ->]. assert (present d = []) as -> by (unfold present, arr; by rewrite Ed). rewrite ?A. split_and!.
    + intros fname. apply wp_bind, wp_gets. rewrite A. by apply wp_ret.
    + intros fname size fuel Hs Hz Hf. unfold mamaDictionary_getFieldDescriptorByNameAll.
      destruct (Z.leb_spec size 0); [lia|]. apply wp_bind.
      destruct fuel; cbn [all_loop]; apply wp_bind, wp_gets; rewrite A; cbn [Z.ltb Z.compare]; apply wp_ret, wp_ret; cbn; by rewrite take_nil.
    + intros index Hi Hz. apply wp_bind, wp_gets. destruct (Z.leb_spec (mSize d) index); [lia|].
      apply wp_bind, wp_gets. rewrite A. by apply wp_ret.
Qed.

(** The lowest field id with a name, or none. *)
Lemma first_named_spec m l fname :
  lists m l ->
  match first_named fname l with
  | Some x => m !! mFid x = Some (mType x, fname) /\ mName x = fname /\
              forall f v, m !! f = Some v -> v.2 = fname -> mFid x <= f
  | None => forall f v, m !! f = Some v -> v.2 <> fname
  end.
Proof.
  intros [S L]. unfold first_named. destruct (List.find _ l) as [x|] eqn:Ef.
  - pose proof (List.find_some _ _ Ef) as [Hin Hn]. apply list_elem_of_In, L in Hin. apply String.eqb_eq in Hn.
    rewrite Hn in Hin. split; [done|]. split; [done|]. intros f [t n] Hf Hnm. cbn in Hnm. subst n.
    assert (mkDesc f t fname ∈ l) as Hy by (by apply L). clear Hin Hf L.
    induction S as [|y l S IH F]; [by apply elem_of_nil in Hy|]. cbn in Ef. destruct (String.eqb (mName y) fname) eqn:Ey.
    + injection Ef as ->. apply elem_of_cons in Hy as [<-|Hy]; [done|]. rewrite Forall_forall in F.
      specialize (F _ Hy). cbn in F. lia.
    + apply elem_of_cons in Hy as [<-|Hy]; [cbn in Ey; by rewrite String.eqb_refl in Ey|by apply IH].
  - intros f [t n] Hf Hnm. cbn in Hnm. subst n. assert (mkDesc f t fname ∈ l) as Hy by (by apply L).
    apply list_elem_of_In in Hy. apply (List.find_none _ _ Ef) in Hy. cbn in Hy. by rewrite String.eqb_refl in Hy.
Qed.

(** ** The message of a dictionary *)

Definition field_of (x : mamaFieldDescriptorImpl) : msgField := mkField (Some (mName x)) (mFid x) (mType x).
Definition sendable (l : list mamaFieldDescriptorImpl) : list mamaFieldDescriptorImpl := filter (fun x => in_message (mType x)) l.
Definition sendable_map (m : dmap) : dmap := filter (fun e => in_message e.2.1) m.

Lemma store_fields_lookup l : forall m f,
  NoDup (f_fid <$> l) ->
  foldl store_field m l !! f =
    match list_find (fun x => f_fid x = f) l with
    | Some (_, x) => Some (f_type x, default EmptyString (f_name x))
    | None => m !! f
    end.
Proof.
  induction l as [|x l IH]; intros m f Hn; [done|]. cbn in Hn. apply NoDup_cons in Hn as [Hx Hn]. cbn [foldl list_find].
  rewrite IH by done. destruct (list_find _ l) as [[i y]|] eqn:Ey.
  - case_decide as Ef; [|done]. apply list_find_Some in Ey as (Hy & Hfy & _). exfalso. apply Hx.
    apply list_elem_of_fmap. exists y. split; [congruence|by eapply list_elem_of_lookup_2].
  - unfold store_field. case_decide as Ef; [subst f; by rewrite lookup_insert_eq|by rewrite lookup_insert_ne].
Qed.

Lemma lists_nodup m l : lists m l -> NoDup (mFid <$> l).
Proof.
  intros [S _]. induction S as [|x l S IH F]; cbn; constructor; [|done]. intros (y & Hy & Hin)%list_elem_of_fmap.
  rewrite Forall_forall in F. specialize (F y Hin). lia.
Qed.

(** Storing the listed fields one by one gives the map. *)
Lemma store_listed m l : lists m l -> foldl store_field ∅ (field_of <$> l) = m.
Proof.
  intros L. pose proof (lists_nodup _ _ L) as ND. destruct L as [_ L]. apply map_eq. intros f.
  rewrite store_fields_lookup by (by rewrite <- list_fmap_compose). destruct (list_find _ _) as [[i y]|] eqn:Ey.
  - apply list_find_Some in Ey as (Hy & Hf & _). apply list_lookup_fmap_Some in Hy as (x & -> & Hx). cbn in *.
    apply list_elem_of_lookup_2, L in Hx. by rewrite <- Hf.
  - rewrite lookup_empty. destruct (m !! f) as [[t n]|] eqn:Em; [|done]. exfalso.
    rewrite list_find_None, Forall_forall in Ey. apply (Ey (field_of (mkDesc f t n))); [|done].
    apply list_elem_of_fmap. exists (mkDesc f t n). split; [done|by apply L].
Qed.

Lemma sendable_lists m l : lists m l -> lists (sendable_map m) (sendable l).
Proof.
  intros [S L]. split.
  - clear L. unfold sendable. induction S as [|x l S IH F]; [constructor|]. rewrite filter_cons. case_decide; [|done].
    constructor; [done|]. rewrite Forall_forall in *. intros y Hy. apply F. by apply list_elem_of_filter in Hy as [_ Hy].
  - intros x. unfold sendable, sendable_map. rewrite list_elem_of_filter, map_lookup_filter_Some, L. cbn. tauto.
Qed.

Section messages.

Context {msg : Type} `{FieldMsg msg}.

Lemma populate_loop_spec d a : mDict d = Some a -> (forall f (mm : msg), fst (fm_add f mm) = MAMA_STATUS_OK) ->
  forall n i (mm : msg), (i + n = length a)%nat ->
  wp (populate_loop n (Z.of_nat i) mm) d (fun r d' => d' = d /\
    fm_fields r = fm_fields mm ++ (field_of <$> sendable (omap id (drop i a)))).
Proof.
  intros Ed Hadd. induction n as [|n IH]; intros i mm Hi; cbn [populate_loop].
  { apply wp_ret. rewrite drop_ge by lia. cbn. by rewrite app_nil_r. }
  apply (wp_rd_drop d a i); [done|lia|]. intros x Hx. rewrite Hx. replace (Z.of_nat i + 1) with (Z.of_nat (S i)) by lia.
  eapply wp_mono; [apply IH; lia|]. cbn beta. intros r d' [-> Hr]. split; [done|]. rewrite Hr. destruct x as [x|]; cbn [add_entry omap list_omap id]; [|done].
  destruct (in_message (mType x)) eqn:Em.
  - unfold sendable. rewrite filter_cons_True by (by rewrite Em). destruct (fm_add _ mm) as [st m'] eqn:Ea. cbn.
    pose proof (Hadd (mkField (Some (mName x)) (mFid x) (mType x)) mm) as Hok. rewrite Ea in Hok. cbn in Hok. subst st.
    rewrite (fm_fields_add _ _ _ Ea), <- app_assoc. done.
  - unfold sendable. rewrite filter_cons_False by (rewrite Em; exact id). done.
Qed.

Lemma message_spec d m : drep [] d m -> (forall f (mm : msg), fst (fm_add f mm) = MAMA_STATUS_OK) ->
  wp mamaDictionary_getDictionaryMessage d (fun r d' => d' = d /\ r.1 = MAMA_STATUS_OK /\
    fm_fields (r.2 : msg) = field_of <$> sendable (present d)).
Proof.
  intros [A E X W S] Hadd. apply wp_bind. apply wp_bind, wp_gets. destruct (mDict d) as [a|] eqn:Ed.
  - eapply wp_mono; [apply (populate_loop_spec d a Ed Hadd _ 0); lia|]. cbn beta. intros r d' [-> Hr].
    apply wp_ret. split; [done|]. split; [done|]. cbn. rewrite Hr, fm_fields_empty. unfold present, arr. by rewrite Ed.
  - destruct A as [A ->]. rewrite A. apply wp_ret, wp_ret. cbn. split; [done|]. split; [done|].
    rewrite fm_fields_empty. unfold present, arr. by rewrite Ed.
Qed.

End messages.

(** ** The counter of 16 bits *)

Lemma all_loop_diverges d a fname size : mDict d = Some a -> mDictSize d = Z.of_nat (length a) -> 2 ^ 16 <= Z.of_nat (length a) ->
  (forall i x, a !! i = Some (Some x) -> mName x <> fname) ->
  forall fuel i found, in_u 16 i -> all_loop fuel i fname size found d = Fail OutOfFuel.
Proof.
  intros Ed Es Hlen Hn. unfold in_u. induction fuel as [|fuel IH]; intros i found Hi; cbn [all_loop];
    unfold mbind, M_bind, gets; rewrite Es; destruct (Z.ltb_spec i (Z.of_nat (length a))); try lia; [done|].
  unfold rd. rewrite Ed. cbn [mbind option_bind]. destruct (Z.ltb_spec i 0); [lia|].
  destruct (lookup_lt_is_Some_2 a (Z.to_nat i)) as [x Hx]; [lia|]. rewrite Hx.
  assert (0 <= u16 (i + 1) < 2 ^ 16) by (apply Z.mod_pos_bound; lia).
  destruct x as [x|]; [|by apply IH]. destruct (String.eqb_spec (mName x) fname) as [E|_]; [|by apply IH].
  by apply Hn in Hx.
Qed.

(** ** Claims *)

(** C23: a dictionary is a map from field ids of 16 bits to types and names.
    Whatever sequence of descriptors is added by hand, largest ids announced and
    messages of at least one field built from, on a new dictionary while memory
    lasts, every call succeeds, no access leaves the array, and the dictionary
    stands for the map in which a later descriptor replaces an earlier one of the
    same id: a lookup by id finds exactly that descriptor, one by name the
    descriptor with the lowest id of that name, one by index the descriptor at that
    place in the order of ids.  The size is the number of descriptors that were
    stored, where one that replaced another counts too, although dictionary.h says
    that it is the number of fields ([dictionary_run]); a message without fields
    may read an array that is not there ([empty_message_faults]) and is left out. *)
Theorem dictionary_refines_map {msg} `{FieldMsg msg} d0 (l : list dcall) :
  mamaDictionary_create true = (MAMA_STATUS_OK, Some d0) -> Forall dcall_ok l ->
  wp (run_dcalls l) d0 (fun rs d =>
    let '(m, stored) := foldl dstep (∅, O) l in
    rs = replicate (length l) MAMA_STATUS_OK /\ drep [] d m /\ u64 (mSize d) = u64 (Z.of_nat stored) /\
    (forall fid, in_u 16 fid -> wp (mamaDictionary_getFieldDescriptorByFid fid) d (fun r _ => r.2 = desc_of fid <$> m !! fid)) /\
    (forall fname, wp (mamaDictionary_getFieldDescriptorByName (Some fname)) d (fun r _ =>
       match r.2 with
       | Some x => m !! mFid x = Some (mType x, fname) /\ forall f v, m !! f = Some v -> v.2 = fname -> mFid x <= f
       | None => forall f v, m !! f = Some v -> v.2 <> fname
       end)) /\
    exists fields, lists m fields /\
      (forall index, in_u 16 index -> index < mSize d ->
         wp (mamaDictionary_getFieldDescriptorByIndex index) d (fun r _ => r.2 = fields !! Z.to_nat index))).
Proof.
  intros Hn Hl. pose proof (new_drep d0 Hn) as R0. eapply wp_mono; [apply (calls_refine_map l d0 (∅, O))|]; [done| |done|].
  { injection Hn as <-. done. }
  cbn beta. intros rs d. destruct (foldl dstep (∅, O) l) as [m stored]. cbn [fst snd]. intros (-> & R & S).
  split; [done|]. split; [done|]. split; [done|]. pose proof (present_lists _ _ _ R) as L.
  destruct (lookups_spec d m R) as (HN & _ & HI). split_and!.
  - intros fid Hf. eapply wp_mono; [by apply by_fid_spec|]. by intros r d' (_ & ? & _).
  - intros fname. eapply wp_mono; [apply HN|]. cbn beta. intros r d' [-> ->].
    pose proof (first_named_spec m (present d) fname L) as F. destruct (first_named fname (present d)) as [x|]; cbn; [|done].
    tauto.
  - exists (present d). split; [done|]. intros index Hi Hz. eapply wp_mono; [by apply HI|]. by intros r d' [_ ?].
Qed.

(** a dictionary sent as a message arrives: from the message of a dictionary,
    whatever it holds, a new dictionary is built that has the same fields,
    except those of the types the message cannot hold (quantities and
    collections), and that knows whether two of them have one name. *)
Theorem dictionary_message_round_trip {msg} `{FieldMsg msg} d m d0 :
  (forall f (mm : msg), fst (fm_add f mm) = MAMA_STATUS_OK) ->
  mamaDictionary_create true = (MAMA_STATUS_OK, Some d0) ->
  drep [] d m -> sendable_map m <> ∅ ->
  wp mamaDictionary_getDictionaryMessage d (fun r d' => d' = d /\ r.1 = MAMA_STATUS_OK /\
    wp (mamaDictionary_buildDictionaryFromMessage memory (r.2 : msg)) d0 (fun s d1 => s = MAMA_STATUS_OK /\
      drep [] d1 (sendable_map m) /\ (mHasDuplicates d1 = true <-> twins (sendable_map m)))).
Proof.
  intros Hadd Hn R Hne. pose proof (present_lists _ _ _ R) as L. pose proof (store_listed _ _ (sendable_lists _ _ L)) as Es.
  eapply wp_mono; [by eapply message_spec|]. cbn beta. intros [st mm] d' (-> & Hst & Hf). cbn in Hst, Hf. split; [done|]. split; [done|].
  eapply wp_mono; [apply (build_spec d0 ∅ mm)|].
  - by apply new_drep.
  - rewrite Hf. apply Forall_fmap, Forall_forall. intros x Hx. apply list_elem_of_filter in Hx as [_ Hx].
    apply (proj2 L) in Hx. assert (0 <= mFid x <= mMaxFid d) by (apply (dr_max _ _ _ R); eauto).
    pose proof (dr_width _ _ _ R) as W. unfold field_ok, in_u in *. cbn. lia.
  - left. rewrite Hf. intros E. rewrite E in Es. cbn in Es. congruence.
  - cbn beta. rewrite Hf, Es. intros s d1 (-> & R1 & T & _). done.
Qed.

(** a lookup of all fields with a name can run for ever.  When a field with
    an id of 65436 or more is added to a dictionary whose array ends below it,
    the array grows to 65536 elements or more, which the counter of 16 bits in
    [mamaDictionary_getFieldDescriptorByNameAll] never reaches: looking for a
    name that no field has does not return. *)
Theorem name_all_never_returns d m fid name type fname size :
  drep [] d m -> is_Some (mDict d) -> mDictSize d <= fid -> 2 ^ 16 - 100 <= fid < 2 ^ 16 -> 0 < size ->
  fname <> default EmptyString name -> (forall f v, m !! f = Some v -> v.2 <> fname) ->
  wp (mamaDictionary_createFieldDescriptor memory fid name type) d (fun _ d' =>
    forall fuel, mamaDictionary_getFieldDescriptorByNameAll fuel (Some fname) size d' = Fail OutOfFuel).
Proof.
  intros R Hs Hd Hf Hz Hne Hm. assert (u16 fid = fid) as Ef by (apply Z.mod_small; lia).
  eapply wp_mono; [by apply create_descriptor_spec|]. cbn beta. rewrite Ef.
  intros r d' (_ & R' & _ & _ & [a Ea] & _ & Ez). specialize (Ez Hs Hd). intros fuel.
  pose proof R' as [A _ _ _ _]. rewrite Ea in A. destruct A as [A _].
  unfold mamaDictionary_getFieldDescriptorByNameAll. destruct (Z.leb_spec size 0); [lia|].
  unfold mbind, M_bind. rewrite (all_loop_diverges d' a); [done|done|done|lia| |unfold in_u; lia].
  intros i x Hx. destruct (arr_entry _ _ _ i x R') as [_ Hl]; [unfold arr; by rewrite Ea|].
  rewrite lookup_insert_Some in Hl. destruct Hl as [[_ Hl]|[_ Hl]]; [injection Hl as _ Hl; congruence|].
  by apply Hm in Hl.
Qed.

(** ** Examples *)

(** Messages as the plain sequence of their fields, without string values. *)
#[export, refine] Instance list_message : FieldMsg (list msgField) := {|
  fm_empty := [];
  fm_fields m := m;
  fm_add f m := (MAMA_STATUS_OK, m ++ [f]);
  fm_getString _ _ _ := None;
|}.
Proof.
  - done.
  - by intros f m m' [= <-].
Defined.

Definition new_dictionary : mamaDictionaryImpl := mkDict None 0 0 0 false false None None [].

Definition example_calls : list (@dcall (list msgField)) :=
  [AddField 7 (Some "bid"%string) 27; SetMaxFid 3; Build [mkField (Some "ask"%string) 5 27; mkField None 7 18]; AddField 120 (Some "ask"%string) 50].

Lemma dictionary_refines_map_witness :
  wp (run_dcalls example_calls) new_dictionary (fun rs d => rs = replicate 4 MAMA_STATUS_OK).
Proof.
  eapply wp_mono; [apply (dictionary_refines_map (msg := list msgField) new_dictionary example_calls); [reflexivity|]|].
  - repeat constructor; done.
  - cbn beta. intros rs d H. by destruct H.
Defined.

(** The second descriptor with the id 7 replaces the first: there are three fields,
    and the size is 4. *)
Example dictionary_run :
  match run_dcalls example_calls new_dictionary with
  | Ok (_, d) => present d = [mkDesc 5 27 "ask"; mkDesc 7 18 ""; mkDesc 120 50 "ask"]%string /\
                 (mDictSize d, mSize d, mMaxFid d, mHasDuplicates d) = (220, 4, 120, false)
  | Fail _ => False
  end.
Proof. vm_compute. done. Qed.

Definition small_dictionary : mamaDictionaryImpl :=
  mkDict (Some [None; Some (mkDesc 1 8 "symbol"%string); Some (mkDesc 2 99 "parts"%string)]) 3 2 2 false false None None [].
Definition small_map : dmap := <[1 := (8, "symbol"%string)]> (<[2 := (99, "parts"%string)]> ∅).

Lemma small_drep : drep [] small_dictionary small_map.
Proof.
  split; cbn; try (unfold in_u; lia); [|].
  - intros fid. unfold small_map. destruct (decide (fid = 1)) as [->|]; [reflexivity|].
    destruct (decide (fid = 2)) as [->|]; [reflexivity|]. rewrite !lookup_insert_ne, lookup_empty by done.
    unfold entry. cbn. destruct (Z.ltb_spec fid 0); [done|]. destruct (decide (fid = 0)) as [->|]; [done|].
    rewrite lookup_ge_None_2; [done|]. cbn. lia.
  - intros fid. unfold small_map. rewrite !lookup_insert_is_Some', lookup_empty. intros [|[|[]]]; done || lia.
Qed.

Lemma dictionary_message_round_trip_witness :
  wp mamaDictionary_getDictionaryMessage small_dictionary (fun r d' => d' = small_dictionary /\ r.1 = MAMA_STATUS_OK /\
    wp (mamaDictionary_buildDictionaryFromMessage memory (r.2 : list msgField)) new_dictionary (fun s d1 => s = MAMA_STATUS_OK /\
      drep [] d1 (sendable_map small_map) /\ (mHasDuplicates d1 = true <-> twins (sendable_map small_map)))).
Proof.
  apply (dictionary_message_round_trip small_dictionary small_map new_dictionary); [done|done|exact small_drep|].
  intros E. apply (f_equal (lookup 1)) in E. vm_compute in E. discriminate.
Defined.

Lemma name_all_never_returns_witness :
  wp (mamaDictionary_createFieldDescriptor memory 65500 (Some "last"%string) 18) small_dictionary (fun _ d' =>
    forall fuel, mamaDictionary_getFieldDescriptorByNameAll fuel (Some "bid"%string) 4 d' = Fail OutOfFuel).
Proof.
  apply (name_all_never_returns small_dictionary small_map); [exact small_drep|cbn; eauto|cbn; lia|lia|lia|done|].
  intros f v. unfold small_map. rewrite !lookup_insert_Some, lookup_empty.
  intros [[_ <-]|[_ [[_ <-]|[_ ?]]]]; done.
Defined.

(** Building from an empty message after the largest id was announced reads the
    array that was never made. *)
Lemma empty_message_faults n :
  0 < n < 2 ^ 16 ->
  (mamaDictionary_setMaxFid memory n ;; mamaDictionary_buildDictionaryFromMessage memory ([] : list msgField)) new_dictionary
  = Fail InvalidDeref.
Proof.
  intros Hn. assert (u16 n = n) as E by (apply Z.mod_small; lia).
  unfold mamaDictionary_setMaxFid, mamaDictionary_buildDictionaryFromMessage, determineMaxFid, getAndStoreFields,
    checkForDuplicateNames, mbind, M_bind, gets, modify. cbn -[u16 Z.to_nat]. rewrite E.
  by destruct (Z.to_nat n) as [|k] eqn:Ek; [lia|].
Qed.
