(* ===== verification/Text.v ===== *)
(** * Text

    Strings by their characters, and what printed numbers are made of: the
    lemmas the formats of the components share. *)

From S2P Require Import Prelude Cstdio.
From Stdlib Require Import Ascii String.
From stdpp Require Import strings.
#[local] Open Scope Z_scope.
Import Cstdio.

(** ** Characters *)

Fixpoint sall (p : ascii -> bool) (s : string) : bool :=
  match s with EmptyString => true | String c s' => p c && sall p s' end.

Definition not_char (x c : ascii) : bool := negb (Ascii.eqb c x).
Definition not_space (c : ascii) : bool := negb (is_space c).

(** What numbers are printed with: digits and the sign. *)
Definition numeric (c : ascii) : bool := let n := code c in (n =? 45) || ((48 <=? n) && (n <=? 57)).

Lemma sall_app p s t : sall p (s ++ t) = sall p s && sall p t.
Proof. induction s as [|c s IH]; [done|]. rewrite string_app_cons. cbn. by rewrite IH, andb_assoc. Qed.

Lemma sall_impl (p q : ascii -> bool) s : (forall c, p c = true -> q c = true) -> sall p s = true -> sall q s = true.
Proof. intros Hpq. induction s as [|c s IH]; [done|]. cbn. intros [H1 H2]%andb_prop. by rewrite Hpq, IH. Qed.

Lemma length_sapp (s t : string) : String.length (s ++ t) = (String.length s + String.length t)%nat.
Proof. induction s as [|c s IH]; [done|]. rewrite string_app_cons. cbn. by rewrite IH. Qed.

(** ** Printed numbers *)

Lemma put_d_front n t : put_d n t = (put_d n EmptyString ++ t)%string.
Proof. by rewrite put_d_app. Qed.

Lemma digit_numeric v : 0 <= v < 10 -> numeric (digit_char v) = true.
Proof.
  intros Hv. unfold numeric, digit_char. destruct (Z.ltb_spec v 10); [|lia]. rewrite code_chr by lia. cbn zeta.
  destruct (Z.eqb_spec (48 + v) 45), (Z.leb_spec 48 (48 + v)), (Z.leb_spec (48 + v) 57); cbn; done || lia.
Qed.

Lemma put_digits_numeric fuel : forall n s, sall numeric s = true -> sall numeric (put_digits fuel 10 n s) = true.
Proof.
  induction fuel as [|fuel IH]; intros n s Hs; [done|]. cbn [put_digits].
  assert (sall numeric (String (digit_char (n `mod` 10)) s) = true) as H.
  { cbn. rewrite digit_numeric; [done|]. apply Z.mod_pos_bound. lia. }
  case_match; [done|by apply IH].
Qed.

Lemma put_d_numeric n : sall numeric (put_d n EmptyString) = true.
Proof. unfold put_d, put_u. case_match; [|by apply put_digits_numeric]. cbn [sall]. by rewrite put_digits_numeric. Qed.

Lemma put_d_nonempty n : put_d n EmptyString <> EmptyString.
Proof.
  unfold put_d, put_u. case_match; [done|].
  destruct (put_digits_head 10 ltac:(lia) 64 n EmptyString ltac:(lia)) as (v & s & _ & -> & _). done.
Qed.

(** [strtol] reads a printed number back. *)
Lemma strtol_put_d n : in_s 64 n -> strtol (put_d n EmptyString) = n.
Proof.
  intros Hn. unfold in_s in Hn. pose proof (pow_64 10 ltac:(lia)). unfold strtol, put_d, put_u. destruct (Z.ltb_spec n 0).
  - change (skip_space (String (chr 45) ?x)) with (String (chr 45) x).
    change (get_sign (String (chr 45) ?x)) with (true, x). cbv beta iota.
    rewrite get_number_put; [|lia|lia|lia|done]. lia.
  - destruct (put_digits_head 10 ltac:(lia) 64 n EmptyString ltac:(lia)) as (v & s & Hv & E & _).
    destruct (plain_digit v s ltac:(lia)) as [E1 E2]. rewrite E, E1, E2, <- E.
    rewrite get_number_put; [|lia|lia|lia|done]. lia.
Qed.
