(* ===== verification/DictionaryText.v ===== *)
(** * The dictionary as text

    What [mamaDictionary_writeToFile] writes, [mamaDictionary_populateFromFile]
    reads back. *)

From S2P Require Import Prelude MamaStatus Cstdio Text Dictionary DictionaryProps.
From Stdlib Require Import Ascii String Sorted.
From stdpp Require Import strings.
#[local] Open Scope Z_scope.
Import Cstdio Dictionary.

(** ** Characters *)

Lemma numeric_plain c : numeric c = true -> not_char BAR c = true /\ not_char NUL c = true /\ not_char NEWLINE c = true /\ not_space c = true.
Proof.
  unfold numeric, not_char, not_space, is_space. intros H.
  assert (forall n, 0 <= n < 256 -> n <> code c -> Ascii.eqb c (chr n) = false) as Hne.
  { intros n Hn Hc. apply Ascii.eqb_neq. intros ->. rewrite code_chr in Hc by done. done. }
  assert (code c = 45 \/ 48 <= code c <= 57) as Hc.
  { destruct (Z.eqb_spec (code c) 45), (Z.leb_spec 48 (code c)), (Z.leb_spec (code c) 57); cbn in H; try done; auto. }
  unfold BAR, NUL, NEWLINE. rewrite !Hne by lia. split_and!; try done.
  destruct (Z.eqb_spec (code c) 32), (Z.leb_spec 9 (code c)), (Z.leb_spec (code c) 13); cbn; try done; lia.
Qed.

(** [atoi] reads a printed number back. *)
Lemma atoi_put_d n : in_s 32 n -> atoi (put_d n EmptyString) = n.
Proof. intros Hn. unfold atoi. rewrite strtol_put_d; unfold in_s in *; [by apply swrap_small|lia]. Qed.

(** ** Buffers *)

Lemma stake_all n s : (String.length s <= n)%nat -> stake n s = s.
Proof. revert n. induction s as [|c s IH]; intros [|n] H; cbn in *; try done; try lia. rewrite IH; [done|lia]. Qed.

Lemma sdrop_app (p q : string) : sdrop (String.length p) (p ++ q) = q.
Proof. induction p as [|c p IH]; [by destruct q|]. rewrite string_app_cons. cbn. exact IH. Qed.

Lemma sdrop_after (p q : string) c : sdrop (S (String.length p)) (p ++ String c q) = q.
Proof. induction p as [|c' p IH]; [by destruct q|]. rewrite string_app_cons. cbn. exact IH. Qed.

Lemma nul_code c : not_char NUL c = true -> (code c =? 0) = false.
Proof.
  intros H. apply Z.eqb_neq. intros E. unfold not_char in H. apply negb_true_iff, Ascii.eqb_neq in H. apply H.
  unfold NUL, chr. rewrite <- (ascii_nat_embedding c). unfold code in E. f_equal. lia.
Qed.

Lemma c_string_free s : sall (not_char NUL) s = true -> c_string s = None.
Proof. induction s as [|c s IH]; [done|]. cbn. intros [H1 H2]%andb_prop. by rewrite nul_code, IH. Qed.

Lemma cstr_free s : sall (not_char NUL) s = true -> cstr s = s.
Proof. intros H. unfold cstr. by rewrite c_string_free. Qed.

Lemma cstr_nul s t : sall (not_char NUL) s = true -> cstr (s ++ String NUL t) = s.
Proof.
  intros H. unfold cstr. replace (c_string (s ++ String NUL t)) with (Some s); [done|].
  induction s as [|c s IH]; [done|]. cbn in H. apply andb_prop in H as [H1 H2]. rewrite string_app_cons. cbn.
  by rewrite nul_code, <- IH.
Qed.

Lemma strip_newline s : strip_spaces (s ++ String NEWLINE EmptyString) = strip_spaces s.
Proof. induction s as [|c s IH]; [done|]. rewrite string_app_cons. cbn [strip_spaces]. by rewrite IH. Qed.

Lemma strip_keep p q : sall not_space q = true -> q <> EmptyString -> strip_spaces (p ++ q) = (p ++ q)%string.
Proof.
  intros Hq Hn. induction p as [|c p IH].
  - change (EmptyString ++ q)%string with q. induction q as [|c q IH]; [done|]. cbn in Hq. apply andb_prop in Hq as [H1 H2].
    unfold not_space in H1. apply negb_true_iff in H1. destruct q as [|c' q]; [cbn; by rewrite H1|].
    cbn [strip_spaces] in *. rewrite IH by done. done.
  - rewrite string_app_cons. cbn [strip_spaces]. rewrite IH. destruct (p ++ q)%string eqn:E; [|done].
    destruct p; [by destruct q|done].
Qed.

Lemma bars_app s t : bars (s ++ t) = (bars s + bars t)%nat.
Proof. induction s as [|c s IH]; [done|]. rewrite string_app_cons. cbn. rewrite IH. by case_match. Qed.

Lemma bars_bar s : bars (String BAR s) = S (bars s).
Proof. done. Qed.

Lemma next_delim p r :
  sall (not_char BAR) p = true -> getNextDelimStr (p ++ String BAR r) = Some ((p ++ String NUL r)%string, S (String.length p)).
Proof.
  intros H. induction p as [|c p IH]; [done|]. cbn in H. apply andb_prop in H as [H1 H2].
  rewrite !string_app_cons. cbn [getNextDelimStr String.length]. unfold not_char in H1. apply negb_true_iff in H1. by rewrite H1, IH.
Qed.

Lemma fgets_line s rest : forall n, sall (not_char NEWLINE) s = true -> (String.length s < n)%nat ->
  fgets n (s ++ String NEWLINE rest) = ((s ++ String NEWLINE EmptyString)%string, rest).
Proof.
  induction s as [|c s IH]; intros n Hs Hn; (destruct n as [|n]; [cbn in Hn; lia|]); [done|].
  cbn in Hs. apply andb_prop in Hs as [H1 H2]. unfold not_char in H1. apply negb_true_iff in H1.
  rewrite !string_app_cons. cbn [fgets]. rewrite H1, IH; [done|done|cbn in Hn; lia].
Qed.

(** ** A line *)

(** What a descriptor must be to fit into a line of the file: the ids and types of
    the C types, no delimiter, newline or NUL in the name, and room for the line
    in the buffer of [fgets]. *)
Definition name_char (c : ascii) : bool := not_char BAR c && not_char NEWLINE c && not_char NUL c.

Definition body (x : mamaFieldDescriptorImpl) : string :=
  (put_d (mFid x) EmptyString ++ String BAR (mName x ++ String BAR (put_d (mType x) EmptyString)))%string.

Definition fits (x : mamaFieldDescriptorImpl) : Prop :=
  in_u 16 (mFid x) /\ in_s 32 (mType x) /\ sall name_char (mName x) = true /\ (String.length (body x) < 254)%nat.

Lemma line_text x : fits x -> line_of x = (body x ++ String NEWLINE EmptyString)%string.
Proof.
  intros (_ & _ & _ & Hl). unfold line_of.
  assert (put_d (mFid x) (String BAR (mName x ++ String BAR (put_d (mType x) (String NEWLINE EmptyString)))) =
          (body x ++ String NEWLINE EmptyString)%string) as ->.
  { unfold body. rewrite (put_d_front (mFid x)), (put_d_front (mType x)). by rewrite string_app_assoc, !string_app_cons, string_app_assoc, string_app_cons. }
  apply stake_all. rewrite length_sapp. cbn. lia.
Qed.

Lemma name_chars x : sall name_char (mName x) = true ->
  sall (not_char BAR) (mName x) = true /\ sall (not_char NEWLINE) (mName x) = true /\ sall (not_char NUL) (mName x) = true.
Proof. intros H. split_and!; (eapply sall_impl; [|exact H]); unfold name_char; intros c [[? ?]%andb_prop ?]%andb_prop; done. Qed.

Lemma put_d_chars n :
  sall (not_char BAR) (put_d n EmptyString) = true /\ sall (not_char NEWLINE) (put_d n EmptyString) = true /\
  sall (not_char NUL) (put_d n EmptyString) = true /\ sall not_space (put_d n EmptyString) = true.
Proof. split_and!; (eapply sall_impl; [|apply put_d_numeric]); intros c Hc; by apply numeric_plain in Hc as (? & ? & ? & ?). Qed.

Lemma body_chars x : fits x -> sall (not_char NEWLINE) (body x) = true /\ sall (not_char NUL) (body x) = true.
Proof.
  intros (_ & _ & Hn & _). destruct (name_chars x Hn) as (_ & N1 & N2).
  destruct (put_d_chars (mFid x)) as (_ & F1 & F2 & _), (put_d_chars (mType x)) as (_ & T1 & T2 & _).
  unfold body. rewrite !sall_app. cbn [sall]. rewrite !sall_app. cbn [sall].
  rewrite N1, N2, F1, F2, T1, T2. done.
Qed.

Lemma line_reads x e d :
  fits x -> populate_line e (body x ++ String NEWLINE EmptyString) d =
    (mamaDictionary_createFieldDescriptor e (mFid x) (Some (mName x)) (mType x) ;; mret tt) d.
Proof.
  intros Hx. destruct (body_chars x Hx) as [B1 B2]. pose proof Hx as (Hf & Ht & Hn & _).
  destruct (name_chars x Hn) as (N1 & _ & N2). destruct (put_d_chars (mFid x)) as (F1 & _ & F2 & _), (put_d_chars (mType x)) as (T1 & _ & T2 & T3).
  assert (atoi (put_d (mFid x) EmptyString) = mFid x) as AF by (apply atoi_put_d; unfold in_s, in_u in *; lia).
  pose proof (atoi_put_d _ Ht) as AT. pose proof (put_d_nonempty (mType x)) as TN. unfold body in *.
  generalize dependent (put_d (mType x) EmptyString). generalize dependent (put_d (mFid x) EmptyString).
  intros F F1 F2 AF T B1 B2 T1 T2 T3 AT TN. set (B := (F ++ String BAR (mName x ++ String BAR T))%string) in *.
  unfold populate_line, stripTrailingWhiteSpace. rewrite cstr_free by (by rewrite sall_app, B2). rewrite strip_newline.
  assert (B = ((F ++ String BAR (mName x ++ String BAR EmptyString)) ++ T)%string) as Eb
    by (unfold B; by rewrite string_app_assoc, !string_app_cons, string_app_assoc).
  rewrite Eb, strip_keep, <- Eb by done.
  assert (validateDelimLine B = true) as ->.
  { unfold validateDelimLine, B. apply Nat.leb_le. rewrite bars_app, bars_bar, bars_app, bars_bar. lia. }
  unfold B. rewrite next_delim by done. cbn [mbind option_bind].
  assert ((F ++ String NUL (mName x ++ String BAR T)) = ((F ++ String NUL (mName x)) ++ String BAR T))%string as ->
    by (by rewrite string_app_assoc, string_app_cons).
  rewrite next_delim by (rewrite sall_app; cbn [sall]; by rewrite F1, N1). cbn [mbind option_bind].
  set (b := ((F ++ String NUL (mName x)) ++ String NUL T)%string).
  assert (at_ 0 b = F) as ->.
  { unfold at_, b. cbn [sdrop]. rewrite string_app_assoc, string_app_cons. by apply cstr_nul. }
  assert (at_ (S (String.length F)) b = mName x) as ->.
  { unfold at_, b. rewrite string_app_assoc, string_app_cons, sdrop_after. by apply cstr_nul. }
  assert (at_ (S (String.length (F ++ String NUL (mName x)))) b = T) as ->.
  { unfold at_, b. rewrite sdrop_after. by apply cstr_free. }
  by rewrite AF, AT.
Qed.

(** ** The file *)

Fixpoint text_of (l : list mamaFieldDescriptorImpl) : string :=
  match l with
  | [] => EmptyString
  | x :: l' => line_of x ++ text_of l'
  end.

Lemma write_loop_spec d a : mDict d = Some a -> forall n i file, (i + n = length a)%nat ->
  wp (write_loop n (Z.of_nat i) file) d (fun r d' => d' = d /\ r = (file ++ text_of (omap id (drop i a)))%string).
Proof.
  intros Ed. induction n as [|n IH]; intros i file Hi; cbn [write_loop].
  { apply wp_ret. rewrite drop_ge by lia. split; [done|]. by rewrite string_app_nil. }
  apply (wp_rd_drop d a i); [done|lia|]. intros x Hx. rewrite Hx. replace (Z.of_nat i + 1) with (Z.of_nat (S i)) by lia.
  eapply wp_mono; [apply IH; lia|]. cbn beta. intros r d' [-> ->]. split; [done|].
  destruct x as [x|]; cbn [omap list_omap id text_of]; [by rewrite string_app_assoc|done].
Qed.

Lemma write_spec d m : drep [] d m ->
  wp (mamaDictionary_writeToFile true) d (fun r d' => d' = d /\ r = (MAMA_STATUS_OK, text_of (present d))).
Proof.
  intros [A E X W S]. apply wp_bind, wp_gets, wp_bind. destruct (mDict d) as [a|] eqn:Ed.
  - eapply wp_mono; [apply (write_loop_spec d a Ed _ 0); lia|]. cbn beta. intros r d' [-> ->]. apply wp_ret.
    unfold present, arr. by rewrite Ed.
  - destruct A as [A ->]. rewrite A. apply wp_ret, wp_ret. unfold present, arr. by rewrite Ed.
Qed.

Lemma file_loop_spec l : forall d m fuel,
  Forall fits l -> drep [] d m -> (String.length (text_of l) <= fuel)%nat ->
  wp (file_loop fuel memory (text_of l)) d (fun _ d' => drep [] d' (foldl store_field m (field_of <$> l))).
Proof.
  induction l as [|x l IH]; intros d m fuel Hl R Hf; [destruct fuel; by apply wp_ret|].
  apply Forall_cons in Hl as [Hx Hl]. cbn [text_of] in *. rewrite (line_text x Hx) in *.
  rewrite string_app_assoc in *. change (String NEWLINE EmptyString ++ text_of l)%string with (String NEWLINE (text_of l)) in *.
  rewrite length_sapp in Hf. cbn [String.length] in Hf. destruct fuel as [|fuel]; [lia|].
  assert (exists c s, (body x ++ String NEWLINE (text_of l))%string = String c s) as (c & s & E) by (destruct (body x); eauto).
  cbn [file_loop]. rewrite E, <- E. destruct (body_chars x Hx) as [B1 _]. pose proof Hx as (Hfid & _ & _ & Hlen).
  rewrite fgets_line by done. apply wp_bind. unfold wp at 1. rewrite (line_reads x) by done.
  assert (wp (mamaDictionary_createFieldDescriptor memory (mFid x) (Some (mName x)) (mType x) ;; mret tt) d
            (fun _ d1 => drep [] d1 (store_field m (field_of x)))) as W1.
  { apply wp_bind. eapply wp_mono; [by apply create_descriptor_spec|]. cbn beta. intros r d1 (_ & R1 & _). apply wp_ret.
    assert (u16 (mFid x) = mFid x) as Eu by (by apply Z.mod_small). rewrite Eu in R1. exact R1. }
  eapply wp_mono in W1; [exact W1|]. cbn beta. intros _ d1 R1. cbn [fmap list_fmap foldl]. apply IH; [done|done|lia].
Qed.

(** C24: a dictionary written to a file comes back.  If the names of its fields
    hold no delimiter, newline or NUL and every line fits the line buffer, then
    the file that [mamaDictionary_writeToFile] writes, read into a new
    dictionary, gives a dictionary with exactly the same fields. *)
Theorem dictionary_file_round_trip d m d0 :
  mamaDictionary_create true = (MAMA_STATUS_OK, Some d0) ->
  drep [] d m -> (forall f v, m !! f = Some v -> fits (desc_of f v)) ->
  wp (mamaDictionary_writeToFile true) d (fun r d' => d' = d /\ r.1 = MAMA_STATUS_OK /\
    wp (mamaDictionary_populateFromFile memory (Some r.2)) d0 (fun s d1 => s = MAMA_STATUS_OK /\ drep [] d1 m)).
Proof.
  intros Hn R Hfit. pose proof (present_lists _ _ _ R) as L. eapply wp_mono; [by eapply write_spec|]. cbn beta.
  intros r d' [-> ->]. split; [done|]. split; [done|]. cbn [snd]. apply wp_bind.
  eapply wp_mono; [apply (file_loop_spec (present d) d0 ∅); [|by apply new_drep|done]|].
  - apply Forall_forall. intros [f t n] Hx. apply (proj2 L) in Hx. by apply (Hfit f (t, n)).
  - cbn beta. intros _ d1 R1. apply wp_ret. split; [done|]. by rewrite (store_listed m) in R1.
Qed.

Lemma dictionary_file_round_trip_witness :
  wp (mamaDictionary_writeToFile true) small_dictionary (fun r d' => d' = small_dictionary /\ r.1 = MAMA_STATUS_OK /\
    wp (mamaDictionary_populateFromFile memory (Some r.2)) new_dictionary (fun s d1 => s = MAMA_STATUS_OK /\ drep [] d1 small_map)).
Proof.
  apply (dictionary_file_round_trip small_dictionary small_map new_dictionary); [reflexivity|exact small_drep|].
  intros f v. unfold small_map. rewrite !lookup_insert_Some, lookup_empty.
  intros [[<- <-]|[_ [[<- <-]|[_ ?]]]]; [..|done]; (split; [|split; [|split]]); unfold in_u, in_s; cbn [desc_of fst snd mFid mType]; first [lia|vm_compute; reflexivity|apply Nat.ltb_lt; vm_compute; reflexivity].
Defined.

(** A name that is too long for the buffer of the writer: the line loses its type
    and its newline, and the field does not come back. *)
Example long_name_lost :
  let name := put_digits 252 10 (10 ^ 252) EmptyString in
  match (mamaDictionary_createFieldDescriptor memory 1 (Some name) 8 ;; mamaDictionary_writeToFile true) new_dictionary with
  | Ok ((_, file), _) =>
      match mamaDictionary_populateFromFile memory (Some file) new_dictionary with
      | Ok (_, d) => option_map mType (entry d 1) <> Some 8
      | Fail _ => False
      end
  | Fail _ => False
  end.
Proof. vm_compute. discriminate. Qed.

(** ** Names of types *)

(** The names of the field types are unambiguous: from the name that
    [mamaFieldTypeToString] gives to a type of the enumeration,
    [stringToMamaFieldType] gives back the type, every other value is named
    UNKNOWN, and every other name is read as the unknown type. *)
Theorem field_type_names_round_trip t :
  (t ∈ field_types.*1 -> stringToMamaFieldType (mamaFieldTypeToString t) = t) /\
  (t ∉ field_types.*1 -> mamaFieldTypeToString t = "UNKNOWN"%string) /\
  (forall s, s ∉ field_types.*2 -> stringToMamaFieldType s = MAMA_FIELD_TYPE_UNKNOWN).
Proof.
  split_and!.
  - intros H. assert (Forall (fun t => stringToMamaFieldType (mamaFieldTypeToString t) = t) field_types.*1) as F
      by (apply (bool_decide_unpack _); vm_compute; exact I).
    rewrite Forall_forall in F. by apply F.
  - unfold mamaFieldTypeToString. generalize field_types. induction l as [|[t' n] l IH]; [done|]. cbn. intros Hn.
    destruct (Z.eqb_spec t t') as [->|]; [exfalso; apply Hn; by left|]. apply IH. intros Hin. apply Hn. by right.
  - intros s. unfold stringToMamaFieldType. generalize field_types. induction l as [|[t' n] l IH]; [done|]. cbn. intros Hn.
    destruct (String.eqb_spec s n) as [->|]; [exfalso; apply Hn; by left|]. apply IH. intros Hin. apply Hn. by right.
Qed.
