(* ===== verification/DqPublisher.v ===== *)
(** * Publishing with data quality (mama/c_cpp/src/c/dqpublisher.c)

    The publisher that numbers what it sends: every message carries the sequence
    number and the status of its topic, the id of the sender and, if enabled,
    the time.  The topics of a publisher are in a hash table, used through its
    interface [StringTable]; their contexts live in a heap under the addresses
    that are the data of the table.  The publisher of the middleware is outside:
    what is handed to it is recorded in [sent].  Messages are those the
    data quality strategy of the receiver reads (DqStrategy.v). *)

From S2P Require Import Prelude MamaStatus WTableSpec DqStrategy.
Import DqStrategy.

Module DqPublisher.

Definition TOPIC_TABLE_SIZE : Z := 100.

(** ** Messages *)

(** The type of the field with the sender's id, and the field with the time. *)
Inductive senderField : Type := SenderNone | SenderU16 | SenderU32 | SenderU64 | SenderOther.
Inductive timeField : Type := TimeNone | TimeI64 (v : Z) | TimeString (v : Z) | TimeDateTime (v : Z) | TimeOther.

Record pmsg : Type := mkPmsg {
  p_type : mamaMsgType;
  p_sender : senderField;
  p_time : timeField;
  p_msg : mamaMsg;
}.

(** A message object: whether it may be changed in place ([mMessageOwner], or the
    setting that allows it), its contents, and the cached copy. *)
Record msgObj : Type := mkObj { o_inPlace : bool; o_msg : pmsg; o_copy : option pmsg }.

Definition set_seqNum (v : Z) (m : mamaMsg) : mamaMsg :=
  mkMsg (m_id m) (Some v) (m_senderId m) (m_conflateCount m) (m_status m) (m_total m) (m_num m) (m_issueSymbol m).
Definition set_senderId (v : Z) (m : mamaMsg) : mamaMsg :=
  mkMsg (m_id m) (m_seqNum m) (Some v) (m_conflateCount m) (m_status m) (m_total m) (m_num m) (m_issueSymbol m).

Definition on_msg (f : mamaMsg -> mamaMsg) (p : pmsg) : pmsg := mkPmsg (p_type p) (p_sender p) (p_time p) (f (p_msg p)).

(** [mamaMsg_getTempCopy] (msg.c): the message that may be changed. *)
Definition mamaMsg_getTempCopy (o : msgObj) : pmsg := if o_inPlace o then o_msg o else default (o_msg o) (o_copy o).

(** The object after the message it gave out was changed to [p]. *)
Definition put_temp (o : msgObj) (p : pmsg) : msgObj :=
  if o_inPlace o then mkObj true p (o_copy o) else mkObj false (o_msg o) (Some p).

(** ** State *)

Record topicCtx : Type := mkTopicCtx { mSeqNum : Z; mStatus : mamaMsgStatus }.

Definition set_ctxSeqNum (v : Z) (c : topicCtx) : topicCtx := mkTopicCtx v (mStatus c).
Definition set_ctxStatus (v : mamaMsgStatus) (c : topicCtx) : topicCtx := mkTopicCtx (mSeqNum c) v.

Section publisher.

Context {T : Type} `{StringTable T}.

(** [mSendTime]: whether a date-time was made; [ctxs] and [brk] are the contexts
    of the topics and the next address. *)
Record mamaDQPublisherImpl : Type := mkPub {
  mPublisher : bool;
  mSenderId : Z;
  mCache : Z;
  mSendTime : bool;
  mTopicCtx : topicCtx;
  mTopicCtxs : option T;
  ctxs : gmap Z topicCtx;
  brk : Z;
  sent : list pmsg;
}.

Definition set_mPublisher (v : bool) (p : mamaDQPublisherImpl) : mamaDQPublisherImpl :=
  mkPub v (mSenderId p) (mCache p) (mSendTime p) (mTopicCtx p) (mTopicCtxs p) (ctxs p) (brk p) (sent p).
Definition set_mSenderId (v : Z) (p : mamaDQPublisherImpl) : mamaDQPublisherImpl :=
  mkPub (mPublisher p) v (mCache p) (mSendTime p) (mTopicCtx p) (mTopicCtxs p) (ctxs p) (brk p) (sent p).
Definition set_mCache (v : Z) (p : mamaDQPublisherImpl) : mamaDQPublisherImpl :=
  mkPub (mPublisher p) (mSenderId p) v (mSendTime p) (mTopicCtx p) (mTopicCtxs p) (ctxs p) (brk p) (sent p).
Definition set_mSendTime (v : bool) (p : mamaDQPublisherImpl) : mamaDQPublisherImpl :=
  mkPub (mPublisher p) (mSenderId p) (mCache p) v (mTopicCtx p) (mTopicCtxs p) (ctxs p) (brk p) (sent p).
Definition set_mTopicCtx (v : topicCtx) (p : mamaDQPublisherImpl) : mamaDQPublisherImpl :=
  mkPub (mPublisher p) (mSenderId p) (mCache p) (mSendTime p) v (mTopicCtxs p) (ctxs p) (brk p) (sent p).
Definition set_mTopicCtxs (v : option T) (p : mamaDQPublisherImpl) : mamaDQPublisherImpl :=
  mkPub (mPublisher p) (mSenderId p) (mCache p) (mSendTime p) (mTopicCtx p) v (ctxs p) (brk p) (sent p).
Definition set_ctxs (v : gmap Z topicCtx) (b : Z) (p : mamaDQPublisherImpl) : mamaDQPublisherImpl :=
  mkPub (mPublisher p) (mSenderId p) (mCache p) (mSendTime p) (mTopicCtx p) (mTopicCtxs p) v b (sent p).
Definition set_sent (v : list pmsg) (p : mamaDQPublisherImpl) : mamaDQPublisherImpl :=
  mkPub (mPublisher p) (mSenderId p) (mCache p) (mSendTime p) (mTopicCtx p) (mTopicCtxs p) (ctxs p) (brk p) v.

Abbreviation PM := (M mamaDQPublisherImpl).

Definition lift {A} (r : res A) : PM A := fun p => match r with Ok a => Ok (a, p) | Fail f => Fail f end.

(** [self_id]: what [mamaSenderId_getSelf] returns. *)
Definition mamaDQPublisher_allocate (alloc : bool) (self_id : Z) : mama_status * option mamaDQPublisherImpl :=
  if alloc
  then (MAMA_STATUS_OK, Some (mkPub false self_id 0 false (mkTopicCtx 1 MAMA_MSG_STATUS_OK) None ∅ 1 []))
  else (MAMA_STATUS_NOMEM, None).

(** [status]: what the middleware answers. *)
Definition mamaDQPublisher_create (status : mama_status) : PM mama_status :=
  (if status_ok status then modify (set_mPublisher true) else mret tt) ;;
  mret status.

Definition mamaDQPublisher_setStatus (status : mamaMsgStatus) : PM unit :=
  modify (fun p => set_mTopicCtx (set_ctxStatus status (mTopicCtx p)) p).
Definition mamaDQPublisher_setSenderId (senderid : Z) : PM unit := modify (set_mSenderId senderid).
Definition mamaDQPublisher_setSeqNum (num : Z) : PM unit :=
  modify (fun p => set_mTopicCtx (set_ctxSeqNum num (mTopicCtx p)) p).
Definition mamaDQPublisher_enableSendTime (enable : bool) : PM unit := modify (set_mSendTime enable).
Definition mamaDQPublisher_setCache (cache : Z) : PM unit := modify (set_mCache cache).

(** [mem_table], [mem_ctx], [mem_entry]: the allocations.  Without memory for the
    table the publisher is destroyed ([fail]: it is gone); a context that cannot
    be allocated is written through NULL. *)
Definition mamaDQPublisher_addTopic (mem_table mem_ctx mem_entry : bool) (topic : string) : PM mama_status :=
  table ← gets mTopicCtxs;
  table ← (match table with
           | Some t => mret (Some t)
           | None => mret (if mem_table then st_create "topicCtxs" TOPIC_TABLE_SIZE else None)
           end);
  match table with
  | None => fail Aborted
  | Some t =>
      modify (set_mTopicCtxs (Some t)) ;;
      ctx ← lift (st_lookup topic t);
      if ctx =? 0 then
        if mem_ctx then
          a ← gets brk;
          modify (fun p => set_ctxs (<[a := mkTopicCtx 1 MAMA_MSG_STATUS_OK]> (ctxs p)) (a + 1) p) ;;
          r ← lift (st_insert mem_entry topic a t);
          modify (set_mTopicCtxs (Some r.2)) ;;
          mret (if r.1 =? 1 then MAMA_STATUS_OK else MAMA_STATUS_INVALID_ARG)
        else fail InvalidDeref
      else mret MAMA_STATUS_INVALID_ARG
  end.

(** ** Sending *)

(** Where the context of a message is: the publisher's own, or that of a topic. *)
Inductive ctxRef : Type := OwnCtx | TopicCtx (a : Z).

Definition getTopicCtx (m : pmsg) : PM (mama_status * ctxRef) :=
  table ← gets mTopicCtxs;
  match table with
  | None => mret (MAMA_STATUS_OK, OwnCtx)
  | Some t =>
      match m_issueSymbol (p_msg m) with
      | None => mret (MAMA_STATUS_NOT_FOUND, OwnCtx)
      | Some symbol =>
          a ← lift (st_lookup symbol t);
          if a =? 0 then mret (MAMA_STATUS_INVALID_ARG, OwnCtx) else mret (MAMA_STATUS_OK, TopicCtx a)
      end
  end.

Definition get_ctx (r : ctxRef) : PM topicCtx := fun p =>
  match r with
  | OwnCtx => Ok (mTopicCtx p, p)
  | TopicCtx a => match ctxs p !! a with Some c => Ok (c, p) | None => Fail InvalidDeref end
  end.

Definition put_ctx (r : ctxRef) (c : topicCtx) : PM unit :=
  match r with
  | OwnCtx => modify (set_mTopicCtx c)
  | TopicCtx a => modify (fun p => set_ctxs (<[a := c]> (ctxs p)) (brk p) p)
  end.

Definition updateSenderId (senderId : Z) (m : pmsg) : pmsg :=
  match p_sender m with
  | SenderU16 => on_msg (set_senderId (u16 senderId)) m
  | SenderU32 => on_msg (set_senderId (u32 senderId)) m
  | SenderU64 => on_msg (set_senderId senderId) m
  | SenderOther => m
  | SenderNone => mkPmsg (p_type m) SenderU64 (p_time m) (set_senderId senderId (p_msg m))
  end.

(** [now]: the time, in milliseconds. *)
Definition updateSendTime (now : Z) (m : pmsg) : pmsg :=
  let t := match p_time m with
           | TimeI64 _ => TimeI64 now
           | TimeString _ => TimeString now
           | TimeDateTime _ | TimeNone => TimeDateTime now
           | TimeOther => TimeOther
           end in
  mkPmsg (p_type m) (p_sender m) t (p_msg m).

(** The types that are not numbered anew: those that carry no status, and the
    images, which repeat the number of the last update. *)
Inductive numbering : Type := Unnumbered | Image | Numbered.

#[export] Instance numbering_eq_dec : EqDecision numbering.
Proof. solve_decision. Defined.

Definition numbering_of (t : mamaMsgType) : numbering :=
  match t with
  | MAMA_MSG_TYPE_REFRESH | MAMA_MSG_TYPE_SYNC_REQUEST | MAMA_MSG_TYPE_MISC
  | MAMA_MSG_TYPE_NOT_PERMISSIONED | MAMA_MSG_TYPE_NOT_FOUND => Unnumbered
  | MAMA_MSG_TYPE_INITIAL | MAMA_MSG_TYPE_BOOK_INITIAL | MAMA_MSG_TYPE_RECAP | MAMA_MSG_TYPE_BOOK_RECAP => Image
  | _ => Numbered
  end.

(** The switch of [mamaDQPublisher_send]: the message and the context after it. *)
Definition number_msg (c : topicCtx) (m : pmsg) : pmsg * topicCtx :=
  match numbering_of (p_type m) with
  | Unnumbered => (on_msg (set_seqNum (mSeqNum c)) m, c)
  | Image => (on_msg (set_seqNum (mSeqNum c)) (on_msg (set_status (mStatus c)) m), c)
  | Numbered =>
      let c' := set_ctxSeqNum (u32 (mSeqNum c + 1)) c in
      (on_msg (set_seqNum (mSeqNum c')) (on_msg (set_status (mStatus c)) m), c')
  end.

(** What the middleware does with a message is its own; [send_status] is its
    answer.  The result is the status and the caller's message afterwards. *)
Definition mamaDQPublisher_send (now : Z) (send_status : mama_status) (o : msgObj) : PM (mama_status * msgObj) :=
  r ← getTopicCtx (o_msg o);
  if negb (status_ok r.1) then mret (r.1, o)
  else
    c ← get_ctx r.2;
    o ← (if mSeqNum c =? 0 then mret o
         else let '(m, c') := number_msg c (mamaMsg_getTempCopy o) in
              put_ctx r.2 c' ;;
              mret (put_temp o m));
    senderId ← gets mSenderId;
    let o := if senderId =? 0 then o else put_temp o (updateSenderId senderId (mamaMsg_getTempCopy o)) in
    time ← gets mSendTime;
    let o := if time : bool then put_temp o (updateSendTime now (mamaMsg_getTempCopy o)) else o in
    let modified := negb (mSeqNum c =? 0) || negb (senderId =? 0) || time in
    modify (fun p => set_sent (sent p ++ [if modified then mamaMsg_getTempCopy o else o_msg o]) p) ;;
    mret (send_status, o).

(** [mamaDQPublisher_sendReply] and [mamaDQPublisher_sendReplyWithHandle] stamp
    the reply itself with the number and the status of the topic. *)
Definition mamaDQPublisher_sendReply (now : Z) (send_status : mama_status) (reply : pmsg) : PM (mama_status * pmsg) :=
  r ← getTopicCtx reply;
  if negb (status_ok r.1) then mret (r.1, reply)
  else
    c ← get_ctx r.2;
    senderId ← gets mSenderId;
    let reply := if senderId =? 0 then reply else updateSenderId senderId reply in
    let reply := if mSeqNum c =? 0 then reply
                 else on_msg (set_status (mStatus c)) (on_msg (set_seqNum (mSeqNum c)) reply) in
    time ← gets mSendTime;
    let reply := if time : bool then updateSendTime now reply else reply in
    modify (fun p => set_sent (sent p ++ [reply]) p) ;;
    mret (send_status, reply).

(** Frees every context of the table: the addresses. *)
Definition mamaDQPublisher_destroy : PM (list Z) :=
  table ← gets mTopicCtxs;
  freed ← (match table with
           | None => mret []
           | Some t => lift (st_for_each (fun a _ l => l ++ [a]) [] t)
           end);
  modify (fun p => set_ctxs (foldr (fun a m => delete a m) (ctxs p) freed) (brk p) p) ;;
  modify (set_mTopicCtxs None) ;;
  modify (set_mPublisher false) ;;
  modify (set_mSendTime false) ;;
  mret freed.

(** ** Histories *)

Inductive pcall : Type :=
| AddTopic (topic : string)
| Send (now : Z) (o : msgObj).

Definition run_pcall (c : pcall) : PM mama_status :=
  match c with
  | AddTopic topic => mamaDQPublisher_addTopic true true true topic
  | Send now o => r ← mamaDQPublisher_send now MAMA_STATUS_OK o; mret r.1
  end.

Fixpoint run_pcalls (l : list pcall) : PM (list mama_status) :=
  match l with
  | [] => mret []
  | c :: l' => r ← run_pcall c; rs ← run_pcalls l'; mret (r :: rs)
  end.

End publisher.

Arguments mamaDQPublisherImpl : clear implicits.

End DqPublisher.
