(* ===== verification/DqPublisherProps.v ===== *)
(** * Publishing with data quality: what receivers can rely on

    The messages of every topic are numbered one after the other, whatever is
    sent in between, so that a receiver's data quality plugin passes them all
    on; where the numbering ends, and where the two sides disagree. *)

From S2P Require Import Prelude MamaStatus WTable WTableSpec DqStrategy DqSpec DqProps Listener ListenerProps DqPublisher.
Import DqStrategy Listener DqPublisher WTable.

(** ** One message *)

Section stamp.

Context {T : Type} `{StringTable T}.
Implicit Types p : mamaDQPublisherImpl T.

Lemma temp_put o m : mamaMsg_getTempCopy (put_temp o m) = m.
Proof. unfold mamaMsg_getTempCopy, put_temp. by destruct (o_inPlace o). Qed.

(** The message that leaves the publisher, numbered with the context [c]. *)
Definition stamp p (c : topicCtx) (now : Z) (m : pmsg) : pmsg :=
  let m := (number_msg c m).1 in
  let m := if DqPublisher.mSenderId p =? 0 then m else updateSenderId (DqPublisher.mSenderId p) m in
  if mSendTime p then updateSendTime now m else m.

Definition store (r : ctxRef) (c : topicCtx) p : mamaDQPublisherImpl T :=
  match r with
  | OwnCtx => set_mTopicCtx c p
  | TopicCtx a => set_ctxs (<[a := c]> (ctxs p)) (brk p) p
  end.

Lemma stamp_send p r c now st o :
  getTopicCtx (o_msg o) p = Ok ((MAMA_STATUS_OK, r), p) -> get_ctx r p = Ok (c, p) -> DqPublisher.mSeqNum c <> 0 ->
  wp (mamaDQPublisher_send now st o) p (fun x p' => x.1 = st /\
    p' = set_sent (sent p ++ [stamp p c now (mamaMsg_getTempCopy o)]) (store r (number_msg c (mamaMsg_getTempCopy o)).2 p)).
Proof.
  intros Hr Hc Hn. unfold mamaDQPublisher_send. apply wp_bind. unfold wp at 1. rewrite Hr. cbn [status_ok fst snd negb].
  apply wp_bind. unfold wp at 1. rewrite Hc. apply wp_bind. destruct (Z.eqb_spec (DqPublisher.mSeqNum c) 0) as [|_]; [done|].
  unfold stamp. destruct (number_msg c (mamaMsg_getTempCopy o)) as [m c']. cbn [fst snd].
  set (p1 := store r c' p).
  assert (wp (put_ctx r c' ;; mret (put_temp o m)) p (fun x q => x = put_temp o m /\ q = p1)) as W1.
  { apply wp_bind. destruct r; apply wp_modify, wp_ret; done. }
  eapply wp_mono; [exact W1|]. cbn beta. intros x q [-> ->].
  assert (DqPublisher.mSenderId p1 = DqPublisher.mSenderId p /\ mSendTime p1 = mSendTime p /\ sent p1 = sent p) as (E1 & E2 & E3)
    by (by destruct r).
  apply wp_bind, wp_gets. rewrite E1. apply wp_bind, wp_gets. rewrite E2. cbn [negb orb].
  apply wp_bind, wp_modify, wp_ret. split; [done|]. rewrite E3. do 3 f_equal.
  destruct (Z.eqb_spec (DqPublisher.mSenderId p) 0); destruct (mSendTime p); by rewrite ?temp_put.
Qed.

(** What stamping keeps and sets. *)
Lemma stamp_type p c now m : p_type (stamp p c now m) = p_type m.
Proof.
  unfold stamp, number_msg, updateSenderId, updateSendTime, on_msg. repeat case_match; done.
Qed.

Lemma stamp_symbol p c now m : m_issueSymbol (p_msg (stamp p c now m)) = m_issueSymbol (p_msg m).
Proof. unfold stamp, number_msg, updateSenderId, updateSendTime, on_msg. repeat case_match; done. Qed.

Lemma stamp_conflate p c now m : m_conflateCount (p_msg (stamp p c now m)) = m_conflateCount (p_msg m).
Proof. unfold stamp, number_msg, updateSenderId, updateSendTime, on_msg. repeat case_match; done. Qed.

Lemma stamp_seqNum p c now m :
  m_seqNum (p_msg (stamp p c now m)) = Some (DqPublisher.mSeqNum (number_msg c m).2).
Proof. unfold stamp, number_msg, updateSenderId, updateSendTime, on_msg. repeat case_match; done. Qed.

Lemma stamp_status p c now m :
  numbering_of (p_type m) <> Unnumbered -> m_status (p_msg (stamp p c now m)) = mStatus c.
Proof. intros Hn. unfold stamp, number_msg, updateSenderId, updateSendTime, on_msg. repeat case_match; done. Qed.

Lemma number_seqNum c m :
  DqPublisher.mSeqNum (number_msg c m).2 =
    match numbering_of (p_type m) with Numbered => u32 (DqPublisher.mSeqNum c + 1) | _ => DqPublisher.mSeqNum c end.
Proof. unfold number_msg. by case_match. Qed.

Lemma number_status c m : mStatus (number_msg c m).2 = mStatus c.
Proof. unfold number_msg. by case_match. Qed.

End stamp.

(** ** The messages of a topic *)

Definition for_topic (s : string) (l : list pmsg) : list pmsg := filter (fun m => m_issueSymbol (p_msg m) = Some s) l.
Definition numbered (l : list pmsg) : list pmsg := filter (fun m => numbering_of (p_type m) = Numbered) l.
Definition seqs (l : list pmsg) : list (option Z) := (fun m => m_seqNum (p_msg m)) <$> l.

Section topics.

Context {T : Type} `{StringTable T}.
Implicit Types p : mamaDQPublisherImpl T.

(** A topic that has sent [k] numbered messages has given them the numbers 2 to
    [k + 1] and stands at [k + 1]. *)
Record topic_ok (sent : list pmsg) (s : string) (c : topicCtx) : Prop := mkTopicOk {
  to_status : mStatus c = MAMA_MSG_STATUS_OK;
  to_seq : DqPublisher.mSeqNum c = 1 + Z.of_nat (length (numbered (for_topic s sent)));
  to_numbers : seqs (numbered (for_topic s sent)) = Some <$> seqZ 2 (Z.of_nat (length (numbered (for_topic s sent))));
}.

(** A message is one of [objs], stamped by a publisher with the sender id [id]. *)
Definition origin (objs : list msgObj) (id : Z) (m : pmsg) : Prop :=
  exists o p c now, o ∈ objs /\ DqPublisher.mSenderId p = id /\ mStatus c = MAMA_MSG_STATUS_OK /\
    m = stamp p c now (mamaMsg_getTempCopy o).

Record pub_ok (objs : list msgObj) (id : Z) p (t : T) : Prop := mkPubOk {
  po_table : mTopicCtxs p = Some t;
  po_ok : st_ok t;
  po_brk : 0 < brk p;
  po_topics : forall s a, st_map t !! s = Some a -> 0 < a < brk p /\ exists c, ctxs p !! a = Some c /\ topic_ok (sent p) s c;
  po_inj : forall s s' a, st_map t !! s = Some a -> st_map t !! s' = Some a -> s = s';
  po_unknown : forall s, st_map t !! s = None -> for_topic s (sent p) = [];
  po_sender : DqPublisher.mSenderId p = id;
  po_origin : Forall (origin objs id) (sent p);
}.

(** The copy of a message is a copy of it. *)
Definition obj_ok (o : msgObj) : Prop :=
  match o_copy o with
  | Some m => p_type m = p_type (o_msg o) /\ m_issueSymbol (p_msg m) = m_issueSymbol (p_msg (o_msg o)) /\
              m_conflateCount (p_msg m) = m_conflateCount (p_msg (o_msg o)) /\ p_sender m = p_sender (o_msg o)
  | None => True
  end.

Lemma obj_temp o : obj_ok o ->
  p_type (mamaMsg_getTempCopy o) = p_type (o_msg o) /\
  m_issueSymbol (p_msg (mamaMsg_getTempCopy o)) = m_issueSymbol (p_msg (o_msg o)) /\
  m_conflateCount (p_msg (mamaMsg_getTempCopy o)) = m_conflateCount (p_msg (o_msg o)) /\
  p_sender (mamaMsg_getTempCopy o) = p_sender (o_msg o).
Proof. unfold obj_ok, mamaMsg_getTempCopy. destruct (o_inPlace o), (o_copy o); cbn; tauto. Qed.

Lemma for_topic_snoc s l m :
  for_topic s (l ++ [m]) = for_topic s l ++ (if decide (m_issueSymbol (p_msg m) = Some s) then [m] else []).
Proof. unfold for_topic. rewrite filter_app. done. Qed.

Lemma numbered_snoc l m :
  numbered (l ++ [m]) = numbered l ++ (match numbering_of (p_type m) with Numbered => [m] | _ => [] end).
Proof. unfold numbered. rewrite filter_app, filter_cons. by destruct (numbering_of (p_type m)). Qed.

(** One more message of the topic. *)
Lemma topic_sent p now sent s c m :
  topic_ok sent s c -> m_issueSymbol (p_msg m) = Some s -> Z.of_nat (length sent) < 2 ^ 32 - 2 ->
  topic_ok (sent ++ [stamp p c now m]) s (number_msg c m).2.
Proof.
  intros [K1 K2 K3] Hs Hl.
  assert (length (numbered (for_topic s sent)) <= length sent)%nat as Hb.
  { unfold numbered, for_topic. etrans; apply length_filter. }
  split; rewrite ?number_status, ?for_topic_snoc, ?stamp_symbol; try done; rewrite decide_True by done; rewrite numbered_snoc, stamp_type.
  - rewrite number_seqNum. destruct (numbering_of (p_type m)); rewrite ?app_nil_r; try done. rewrite length_app, K2. cbn.
    unfold u32, uwrap. rewrite Z.mod_small; lia.
  - destruct (numbering_of (p_type m)) eqn:En; rewrite ?app_nil_r; try done. unfold seqs in *. rewrite length_app, fmap_app, K3. cbn.
    rewrite stamp_seqNum, number_seqNum, En, K2, Nat2Z.inj_add, seqZ_app, fmap_app by lia. f_equal.
    rewrite seqZ_cons by lia. cbn. do 2 f_equal. unfold u32, uwrap. rewrite Z.mod_small; lia.
Qed.

Lemma topic_other sent s c m : topic_ok sent s c -> m_issueSymbol (p_msg m) <> Some s -> topic_ok (sent ++ [m]) s c.
Proof. intros [K1 K2 K3] Hs. split; try done; rewrite for_topic_snoc, decide_False, app_nil_r; done. Qed.

(** ** Calls *)

Lemma wp_lift_table {A} (r : res A) a p (Q : A -> mamaDQPublisherImpl T -> Prop) : r = Ok a -> Q a p -> wp (lift r) p Q.
Proof. intros -> HQ. exact HQ. Qed.

Lemma lookup_in objs id p t s a :
  pub_ok objs id p t -> st_lookup s t = Ok a -> a <> 0 -> st_map t !! s = Some a.
Proof.
  intros K E Ha. rewrite (st_lookup_spec t s (po_ok _ _ _ _ K)) in E. injection E as <-.
  destruct (st_map t !! s); cbn in *; congruence.
Qed.

Lemma add_topic_ok objs id p t s :
  pub_ok objs id p t ->
  wp (mamaDQPublisher_addTopic true true true s) p (fun r p' => exists t', pub_ok objs id p' t' /\ sent p' = sent p /\
    r = (if decide (is_Some (st_map t !! s)) then MAMA_STATUS_INVALID_ARG else MAMA_STATUS_OK) /\ is_Some (st_map t' !! s)).
Proof.
  intros K. pose proof K as [Et Ho Hb Ht Hi Hu Hs Hg]. apply wp_bind, wp_gets. rewrite Et. apply wp_bind, wp_ret, wp_bind, wp_modify, wp_bind.
  assert (set_mTopicCtxs (Some t) p = p) as -> by (destruct p; cbn in *; by subst).
  eapply wp_lift_table; [apply (st_lookup_spec t s Ho)|]. destruct (st_map t !! s) as [a|] eqn:Es; cbn [from_option]; unfold Datatypes.id.
  - destruct (Ht s a Es) as [Ha _]. destruct (Z.eqb_spec a 0); [lia|]. apply wp_ret. exists t.
    split; [done|]. split; [done|]. rewrite decide_True by eauto. split; [done|]. by rewrite Es.
  - cbn [Z.eqb]. apply wp_bind, wp_gets, wp_bind, wp_modify, wp_bind.
    destruct (st_insert_spec t s (brk p) Ho) as (t' & E & Ho' & Em). eapply wp_lift_table; [exact E|].
    rewrite Es. rewrite !decide_False by (by intros []). apply wp_bind, wp_modify, wp_ret. exists t'. split.
    + split; cbn; try done; [lia|..].
      * intros s' a. rewrite Em, lookup_insert_Some. intros [[<- <-]|[Hne Ha]].
        -- split; [lia|]. exists (mkTopicCtx 1 MAMA_MSG_STATUS_OK). rewrite lookup_insert_eq. split; [done|].
           split; cbn; try done; by rewrite (Hu s Es).
        -- destruct (Ht s' a Ha) as [Hlt (c & Hc & Hk)]. split; [lia|]. exists c.
           rewrite lookup_insert_ne by lia. done.
      * intros s1 s2 a. rewrite Em, !lookup_insert_Some.
        intros [[<- <-]|[H1 E1]] [[<- Ea]|[H2 E2]]; try done.
        -- by apply Ht in E2 as [? _]; lia.
        -- subst a. by apply Ht in E1 as [? _]; lia.
        -- by eapply Hi.
      * intros s'. rewrite Em, lookup_insert_None. intros [? _]. by apply Hu.
    + split; [done|]. split; [done|]. rewrite Em, lookup_insert_eq. eauto.
Qed.

Lemma send_ok objs id p t now o :
  pub_ok objs id p t -> obj_ok o -> o ∈ objs -> Z.of_nat (length (sent p)) < 2 ^ 32 - 2 ->
  wp (mamaDQPublisher_send now MAMA_STATUS_OK o) p (fun r p' => pub_ok objs id p' t /\
    match m_issueSymbol (p_msg (o_msg o)) with
    | Some s => if decide (is_Some (st_map t !! s))
                then r.1 = MAMA_STATUS_OK /\ exists m, sent p' = sent p ++ [m] /\ m_issueSymbol (p_msg m) = Some s
                else r.1 = MAMA_STATUS_INVALID_ARG /\ p' = p
    | None => r.1 = MAMA_STATUS_NOT_FOUND /\ p' = p
    end).
Proof.
  intros K Ho Hin Hl. pose proof K as [Et Hok Hb Ht Hi Hu Hs Hg]. destruct (obj_temp o Ho) as (O1 & O2 & _).
  assert (getTopicCtx (o_msg o) p = Ok (match m_issueSymbol (p_msg (o_msg o)) with
    | None => (MAMA_STATUS_NOT_FOUND, OwnCtx)
    | Some s => match st_map t !! s with Some a => (MAMA_STATUS_OK, TopicCtx a) | None => (MAMA_STATUS_INVALID_ARG, OwnCtx) end
    end, p)) as Eg.
  { unfold getTopicCtx, mbind, M_bind, gets. rewrite Et. destruct (m_issueSymbol (p_msg (o_msg o))) as [s|]; [|done].
    unfold lift. rewrite (st_lookup_spec t s Hok). destruct (st_map t !! s) as [a|] eqn:Ea; [|done]. cbn [from_option]; unfold Datatypes.id.
    destruct (Ht s a Ea) as [Ha _]. destruct (Z.eqb_spec a 0); [lia|done]. }
  destruct (m_issueSymbol (p_msg (o_msg o))) as [s|] eqn:Es.
  2: { unfold wp, mamaDQPublisher_send, mbind, M_bind. by rewrite Eg. }
  destruct (st_map t !! s) as [a|] eqn:Ea.
  2: { destruct (decide _) as [[? [=]]|_]. unfold wp, mamaDQPublisher_send, mbind, M_bind. by rewrite Eg. }
  destruct (decide _) as [_|[]]; [|eauto]. destruct (Ht s a Ea) as [Ha (c & Hc & Hk)].
  assert (get_ctx (TopicCtx a) p = Ok (c, p)) as Egc by (unfold get_ctx; by rewrite Hc).
  assert (0 < DqPublisher.mSeqNum c) by (rewrite (to_seq _ _ _ Hk); lia).
  eapply wp_mono; [apply (stamp_send p _ c now _ o Eg Egc); lia|]. cbn beta. intros r p' [Hr ->]. split.
  - set (m := stamp p c now (mamaMsg_getTempCopy o)).
    assert (m_issueSymbol (p_msg m) = Some s) as Hm by (unfold m; rewrite stamp_symbol; congruence).
    split; cbn [mTopicCtxs brk ctxs sent DqPublisher.mSenderId set_sent store set_ctxs]; try done.
    + intros s' a' Ea'. destruct (Ht s' a' Ea') as [Hlt (c' & Hc' & Hk')]. split; [done|].
      destruct (decide (s' = s)) as [->|Hne].
      * assert (a' = a) as -> by congruence. rewrite lookup_insert_eq. eexists. split; [done|].
        assert (c' = c) as -> by congruence. apply topic_sent; [done|congruence|done].
      * assert (a' <> a) by (intros ->; apply Hne; by eapply Hi). rewrite lookup_insert_ne by done. exists c'.
        split; [done|]. apply topic_other; [done|]. rewrite Hm. congruence.
    + intros s' Hn. rewrite for_topic_snoc, Hu by done. rewrite decide_False; [done|]. rewrite Hm. congruence.
    + apply Forall_app. split; [done|]. constructor; [|done]. exists o, p, c, now. split_and!; try done. by destruct Hk.
  - split; [done|]. eexists. split; [done|]. rewrite stamp_symbol. congruence.
Qed.

(** The messages a history sends. *)
Definition sends (l : list pcall) : list msgObj :=
  omap (fun c => match c with Send _ o => Some o | AddTopic _ => None end) l.

Lemma calls_ok objs id l : forall p t,
  pub_ok objs id p t -> sends l ⊆ objs -> Forall obj_ok (sends l) ->
  Z.of_nat (length (sent p) + length l) < 2 ^ 32 - 2 ->
  wp (run_pcalls l) p (fun rs p' => (length (sent p') <= length (sent p) + length l)%nat /\ exists t', pub_ok objs id p' t').
Proof.
  induction l as [|c l IH]; intros p t K Hin Ho Hl; cbn [run_pcalls]; [apply wp_ret; split; [lia|eauto]|].
  cbn in Hl. apply wp_bind. destruct c as [s|now o]; cbn [run_pcall].
  - eapply wp_mono; [by apply add_topic_ok|]. cbn beta. intros r p1 (t1 & K1 & E1 & _). apply wp_bind.
    eapply wp_mono; [apply (IH p1 t1 K1 Hin Ho)|]; [rewrite E1; lia|]. cbn beta. rewrite E1. intros rs p2 [Hb K2].
    apply wp_ret. split; [cbn; lia|done].
  - cbn in Hin, Ho. apply Forall_cons in Ho as [Ho1 Ho]. apply wp_bind.
    eapply wp_mono; [apply (send_ok objs id p t now o K Ho1)|]; [set_solver|lia|]. cbn beta. intros r p1 [K1 Hr].
    assert (length (sent p1) <= length (sent p) + 1)%nat.
    { repeat case_match; destruct Hr as [_ Hr]; [destruct Hr as (m & -> & _); rewrite length_app; cbn; lia|subst; lia..]. }
    apply wp_ret, wp_bind. eapply wp_mono; [apply (IH p1 t K1)|]; [set_solver|done|lia|]. cbn beta. intros rs p2 [Hb K2].
    apply wp_ret. split; [cbn; lia|done].
Qed.

Lemma first_topic objs id p s :
  mamaDQPublisher_allocate true id = (MAMA_STATUS_OK, Some p) ->
  wp (mamaDQPublisher_addTopic true true true s) p (fun r p' => r = MAMA_STATUS_OK /\ sent p' = [] /\ exists t, pub_ok objs id p' t).
Proof.
  intros [= <-]. destruct (st_create_spec "topicCtxs" TOPIC_TABLE_SIZE) as (t & Ec & Ho & Em); [done|done|].
  set (p0 := mkPub _ _ _ _ _ _ _ _ _ : mamaDQPublisherImpl T).
  assert (pub_ok objs id (set_mTopicCtxs (Some t) p0) t) as K.
  { split; cbn; try done; intros s'; rewrite Em; intros *; by rewrite lookup_empty. }
  assert (mamaDQPublisher_addTopic true true true s p0 = mamaDQPublisher_addTopic true true true s (set_mTopicCtxs (Some t) p0)) as E.
  { unfold mamaDQPublisher_addTopic, mbind, M_bind, gets. cbn [mTopicCtxs set_mTopicCtxs p0]. unfold p0 at 1. cbn [mTopicCtxs].
    rewrite Ec. reflexivity. }
  unfold wp. rewrite E. eapply wp_mono; [by apply add_topic_ok|]. cbn beta. rewrite Em, lookup_empty.
  intros r p' (t' & K' & Es & -> & _). destruct (decide _) as [[? [=]]|_]. split; [done|]. split; [done|]. by exists t'.
Qed.

Lemma history_ok id p s0 l :
  mamaDQPublisher_allocate true id = (MAMA_STATUS_OK, Some p) -> Forall obj_ok (sends l) -> Z.of_nat (length l) < 2 ^ 32 - 2 ->
  wp (run_pcalls (AddTopic s0 :: l)) p (fun rs p' => (length (sent p') <= length l)%nat /\ exists t', pub_ok (sends l) id p' t').
Proof.
  intros Ea Ho Hl. cbn [run_pcalls run_pcall]. apply wp_bind. eapply wp_mono; [by apply (first_topic (sends l))|].
  cbn beta. intros r p1 (-> & Es & t & K). apply wp_bind. eapply wp_mono; [apply (calls_ok (sends l) id l p1 t K)|]; try done.
  - rewrite Es. cbn. lia.
  - cbn beta. rewrite Es. intros rs p2 [Hb K2]. apply wp_ret. split; [cbn in Hb; lia|done].
Qed.

End topics.

(** ** What a receiver sees *)

(** The messages as they reach the callback of the receiver's subscription. *)
Definition received_as (code : option Z) (m : pmsg) : lmsg := mkLmsg (p_type m) code (p_msg m).

(** An update that is not conflated, of a type both sides count, with room for
    the sender's id. *)
Definition plain_update (o : msgObj) : Prop :=
  update_conflate (p_type (o_msg o)) (p_msg (o_msg o)) = Some 1 /\ numbering_of (p_type (o_msg o)) = Numbered /\
  (p_sender (o_msg o) = SenderNone \/ p_sender (o_msg o) = SenderU64).

Lemma numbers_consecutive code : forall l n,
  seqs l = Some <$> seqZ (n + 1) (Z.of_nat (length l)) -> 0 <= n -> n + Z.of_nat (length l) < 2 ^ 32 ->
  Forall (fun m => update_conflate (p_type m) (p_msg m) = Some 1 /\ m_status (p_msg m) = MAMA_MSG_STATUS_OK) l ->
  consecutive n (pairs (received_as code <$> l)).
Proof.
  induction l as [|m l IH]; intros n Hs Hn Hl Hf; [done|]. apply Forall_cons in Hf as [[Hc Hst] Hf].
  cbn [length] in *. rewrite seqZ_cons in Hs by lia. cbn in Hs. injection Hs as Hm Hs.
  assert (mamaMsg_getSeqNum (p_msg m) = n + 1) as En.
  { unfold mamaMsg_getSeqNum. rewrite Hm. cbn. unfold u32, uwrap. rewrite Z.mod_small; lia. }
  cbn [fmap list_fmap pairs consecutive received_as lm_type lm_msg]. split; [|split; [done|]].
  - exists 1. split; [done|]. rewrite En. unfold u32, uwrap. rewrite Z.mod_small; lia.
  - rewrite En. apply IH; [|lia|lia|done]. unfold seqs. rewrite Hs. f_equal. f_equal; lia.
Qed.

Lemma updated_sender {T} `{StringTable T} (p : mamaDQPublisherImpl T) c now m :
  p_sender m = SenderNone \/ p_sender m = SenderU64 -> DqPublisher.mSenderId p <> 0 ->
  m_senderId (p_msg (stamp p c now m)) = Some (DqPublisher.mSenderId p).
Proof.
  intros Hs Hn. unfold stamp. destruct (Z.eqb_spec (DqPublisher.mSenderId p) 0); [done|].
  assert (p_sender (number_msg c m).1 = p_sender m) as Ep by (unfold number_msg; by case_match).
  unfold updateSenderId, updateSendTime. rewrite Ep. by destruct Hs as [-> | ->]; destruct (mSendTime p).
Qed.

(** ** Claims *)

(** the topics of a publisher are numbered independently.  Whatever topics
    are added and messages sent, in whatever order, the messages of each topic
    that carry new numbers carry 2, 3, 4, ... in the order they were sent, up to
    the end of the 32 bits. *)
Theorem topics_numbered {T} `{StringTable T} id (p : mamaDQPublisherImpl T) s0 l :
  mamaDQPublisher_allocate true id = (MAMA_STATUS_OK, Some p) -> Forall obj_ok (sends l) -> Z.of_nat (length l) < 2 ^ 32 - 2 ->
  wp (run_pcalls (AddTopic s0 :: l)) p (fun _ p' => forall s,
    seqs (numbered (for_topic s (sent p'))) = Some <$> seqZ 2 (Z.of_nat (length (numbered (for_topic s (sent p')))))).
Proof.
  intros Ea Ho Hl. eapply wp_mono; [by apply history_ok|]. cbn beta. intros rs p' (_ & t & K) s.
  destruct (st_map t !! s) as [a|] eqn:Es.
  - destruct (po_topics _ _ _ _ K s a Es) as (_ & c & _ & Hk). apply Hk.
  - rewrite (po_unknown _ _ _ _ K s Es). done.
Qed.

(** C25: what a publisher sends on a topic reaches the subscribers of the topic.
    If the messages sent on a topic are unconflated updates, among any messages
    on other topics, then a subscriber that has the image of the topic (number
    1) and receives the topic's messages in the order they were sent passes
    every one of them on to the application, once and in order, and neither
    announces a gap nor requests a recap. *)
Theorem published_updates_delivered {T} `{StringTable T} id (p : mamaDQPublisherImpl T) s0 l s code register (L : listener) :
  mamaDQPublisher_allocate true id = (MAMA_STATUS_OK, Some p) -> id <> 0 ->
  Forall obj_ok (sends l) -> Z.of_nat (length l) < 2 ^ 32 - 3 ->
  (forall o, o ∈ sends l -> m_issueSymbol (p_msg (o_msg o)) = Some s -> plain_update o) ->
  mEntitlementAlreadyVerified L = true -> isDqEnabled L = true -> live (lsub L) -> mDQState (dq (lsub L)) = DQ_STATE_OK ->
  DqStrategy.mSeqNum (dq (lsub L)) = 1 -> DqStrategy.mSenderId (dq (lsub L)) = id ->
  wp (run_pcalls (AddTopic s0 :: l)) p (fun _ p' =>
    let ms := received_as code <$> for_topic s (sent p') in
    wp (processMsgs register ms) L (fun _ L' => delivers ms L L')).
Proof.
  intros Ea Hid Ho Hl Hu Hv Hd Hlive Hok Hseq Hsid. eapply wp_mono; [apply (history_ok id p s0 l Ea Ho); lia|]. cbn beta.
  intros rs p' (Hlen & t & K). cbn zeta. set (out := for_topic s (sent p')).
  assert (Forall (fun m => (update_conflate (p_type m) (p_msg m) = Some 1 /\ m_status (p_msg m) = MAMA_MSG_STATUS_OK) /\
    numbering_of (p_type m) = Numbered /\ m_senderId (p_msg m) = Some id) out) as Hout.
  { apply Forall_forall. intros m Hm. apply list_elem_of_filter in Hm as [Hsym Hm].
    pose proof (po_origin _ _ _ _ K) as Hg. rewrite Forall_forall in Hg. destruct (Hg m Hm) as (o & q & c & now & Hin & Hq & Hc & ->).
    rewrite Forall_forall in Ho. destruct (obj_temp o (Ho o Hin)) as (O1 & O2 & O3 & O4).
    rewrite stamp_symbol, O2 in Hsym. destruct (Hu o Hin Hsym) as (U1 & U2 & U3).
    rewrite stamp_type, O1. split_and!.
    - revert U1. unfold update_conflate. rewrite stamp_conflate, O3. by destruct (p_type (o_msg o)).
    - rewrite stamp_status by (rewrite O1, U2; done). done.
    - done.
    - rewrite updated_sender; [congruence|by rewrite O4|congruence]. }
  assert (numbered out = out) as En.
  { unfold numbered. clear -Hout. induction Hout as [|m l' (_ & Hn & _) _ IH]; [done|]. rewrite filter_cons_True by done. by rewrite IH. }
  assert (length out <= length (sent p'))%nat by apply length_filter.
  assert (seqs out = Some <$> seqZ 2 (Z.of_nat (length out))) as Hnum.
  { destruct (st_map t !! s) as [a|] eqn:Es; [|unfold out; by rewrite (po_unknown _ _ _ _ K s Es)].
    destruct (po_topics _ _ _ _ K s a Es) as (_ & c & _ & Hk). pose proof (to_numbers _ _ _ Hk) as Hn. by fold out in Hn; rewrite En in Hn. }
  apply dq_stream; try done.
  - rewrite Hseq. apply numbers_consecutive; [done|lia|lia|]. eapply Forall_impl; [exact Hout|]. by intros m [? _].
  - intros x Hx. right. right. apply list_elem_of_fmap in Hx as (m & -> & Hm). apply list_elem_of_fmap in Hm as (m' & -> & Hm).
    rewrite Forall_forall in Hout. destruct (Hout m' Hm) as (_ & _ & Hs). cbn. by rewrite Hs.
Qed.

(** ** The end of the numbers *)

Lemma own_ctx {T} `{StringTable T} (p : mamaDQPublisherImpl T) m :
  mTopicCtxs p = None -> getTopicCtx m p = Ok ((MAMA_STATUS_OK, OwnCtx), p) /\ get_ctx OwnCtx p = Ok (mTopicCtx p, p).
Proof. intros E. unfold getTopicCtx, mbind, M_bind, gets. by rewrite E. Qed.

Lemma own_send {T} `{StringTable T} (p : mamaDQPublisherImpl T) now o :
  mTopicCtxs p = None -> DqPublisher.mSeqNum (mTopicCtx p) <> 0 ->
  wp (run_pcall (Send now o)) p (fun _ p' => mTopicCtxs p' = None /\
    mTopicCtx p' = (number_msg (mTopicCtx p) (mamaMsg_getTempCopy o)).2 /\
    DqPublisher.mSenderId p' = DqPublisher.mSenderId p /\
    sent p' = sent p ++ [stamp p (mTopicCtx p) now (mamaMsg_getTempCopy o)]).
Proof.
  intros Et Hn. destruct (own_ctx p (o_msg o) Et) as [E1 E2]. cbn [run_pcall]. apply wp_bind.
  eapply wp_mono; [by apply (stamp_send p _ _ now _ o E1 E2)|]. cbn beta. intros x p1 [_ ->]. by apply wp_ret.
Qed.

(** What a receiver reads of a plain update. *)
Lemma stamped_update {T} `{StringTable T} (p : mamaDQPublisherImpl T) c now o :
  obj_ok o -> plain_update o -> DqPublisher.mSenderId p <> 0 -> 0 <= DqPublisher.mSeqNum c < 2 ^ 32 - 1 ->
  let m := stamp p c now (mamaMsg_getTempCopy o) in
  update_conflate (p_type m) (p_msg m) = Some 1 /\ m_senderId (p_msg m) = Some (DqPublisher.mSenderId p) /\
  mamaMsg_getSeqNum (p_msg m) = DqPublisher.mSeqNum c + 1.
Proof.
  intros Ho (U1 & U2 & U3) Hid Hc. destruct (obj_temp o Ho) as (O1 & O2 & O3 & O4). cbn zeta. split_and!.
  - rewrite stamp_type, O1. revert U1. unfold update_conflate. rewrite stamp_conflate, O3. by destruct (p_type (o_msg o)).
  - by rewrite updated_sender; [|by rewrite O4|].
  - assert (u32 (DqPublisher.mSeqNum c + 1) = DqPublisher.mSeqNum c + 1) as Eu
      by (unfold u32, uwrap; rewrite Z.mod_small; lia).
    unfold mamaMsg_getSeqNum. rewrite stamp_seqNum, number_seqNum, O1, U2. cbn [from_option].
    unfold Datatypes.id. by rewrite !Eu.
Qed.

(** With the number at 0 a message leaves with the number its caller gave it. *)
Lemma send_unnumbered {T} `{StringTable T} (p : mamaDQPublisherImpl T) now st o :
  mTopicCtxs p = None -> DqPublisher.mSeqNum (mTopicCtx p) = 0 -> o_copy o = None ->
  wp (mamaDQPublisher_send now st o) p (fun x p' => exists m,
    p' = set_sent (sent p ++ [m]) p /\ m_seqNum (p_msg m) = m_seqNum (p_msg (o_msg o))).
Proof.
  intros Et Hz Hc. destruct (own_ctx p (o_msg o) Et) as [E1 E2]. unfold mamaDQPublisher_send. apply wp_bind.
  unfold wp at 1. rewrite E1. cbn [status_ok fst snd negb]. apply wp_bind. unfold wp at 1. rewrite E2, Hz. cbn [Z.eqb negb orb].
  apply wp_bind, wp_ret, wp_bind, wp_gets, wp_bind, wp_gets, wp_bind, wp_modify, wp_ret. eexists. split; [done|].
  assert (mamaMsg_getTempCopy o = o_msg o) as Eo by (unfold mamaMsg_getTempCopy; rewrite Hc; by destruct (o_inPlace o)).
  assert (forall id m, m_seqNum (p_msg (updateSenderId id m)) = m_seqNum (p_msg m)) as Hs by (intros id m; unfold updateSenderId; by destruct (p_sender m)).
  destruct (DqPublisher.mSenderId p =? 0), (mSendTime p); cbn [negb orb]; rewrite ?temp_put; cbn; rewrite ?Hs, ?Eo; done.
Qed.

(** the numbering does not survive the end of the 32 bits.  A publisher at
    the number 2^32 - 1 gives the next update the number 0, by which it switches
    its numbering off: everything it sends from then on leaves with the number,
    or without the number, that the caller's message had. *)
Theorem numbering_stops_at_wrap {T} `{StringTable T} (p : mamaDQPublisherImpl T) now o l :
  mTopicCtxs p = None -> DqPublisher.mSeqNum (mTopicCtx p) = 2 ^ 32 - 1 -> obj_ok o ->
  numbering_of (p_type (o_msg o)) = Numbered -> Forall (fun x => o_copy x = None) (sends l) ->
  Forall (fun c => match c with Send _ _ => True | AddTopic _ => False end) l ->
  wp (mamaDQPublisher_send now MAMA_STATUS_OK o) p (fun _ p1 =>
    (exists m, sent p1 = sent p ++ [m] /\ m_seqNum (p_msg m) = Some 0) /\
    wp (run_pcalls l) p1 (fun _ p2 => exists ms, sent p2 = sent p1 ++ ms /\
      seqs ms = (fun x => m_seqNum (p_msg (o_msg x))) <$> sends l)).
Proof.
  intros Et Hn Ho Hk Hc Hl. destruct (own_ctx p (o_msg o) Et) as [E1 E2]. destruct (obj_temp o Ho) as (O1 & _).
  eapply wp_mono; [apply (stamp_send p _ _ now _ o E1 E2); rewrite Hn; lia|]. cbn beta. intros x p1 [_ ->].
  set (c' := (number_msg (mTopicCtx p) (mamaMsg_getTempCopy o)).2).
  assert (DqPublisher.mSeqNum c' = 0) as Hz by (unfold c'; rewrite number_seqNum, O1, Hk, Hn; reflexivity).
  split. { eexists. split; [done|]. rewrite stamp_seqNum. by fold c'; rewrite Hz. }
  set (p1 := set_sent _ _). assert (mTopicCtxs p1 = None /\ DqPublisher.mSeqNum (mTopicCtx p1) = 0) as [F1 F2] by done.
  clearbody p1. clear -F1 F2 Hc Hl. revert p1 F1 F2. induction l as [|c l IH]; intros p1 F1 F2; cbn [run_pcalls].
  { apply wp_ret. exists []. by rewrite app_nil_r. }
  apply Forall_cons in Hl as [Hcl Hl]. destruct c as [|nw x]; [done|]. cbn in Hc. apply Forall_cons in Hc as [Hx Hc].
  cbn [run_pcall]. apply wp_bind, wp_bind. eapply wp_mono; [by apply send_unnumbered|]. cbn beta. intros r p2 (m & -> & Hm).
  apply wp_ret, wp_bind. eapply wp_mono; [by apply IH|]. cbn beta. intros rs p3 (ms & Es & Hms). apply wp_ret.
  exists (m :: ms). cbn in Es |- *. rewrite Es, <- app_assoc. split; [done|]. unfold seqs in *. by rewrite Hm, Hms.
Qed.

(** ** Types only one side counts *)

(** The publisher numbers these, the receiver does not look at their numbers. *)
Definition uncounted (t : mamaMsgType) : bool :=
  match t with MAMA_MSG_TYPE_DELETE | MAMA_MSG_TYPE_EXPIRE | MAMA_MSG_TYPE_UNKNOWN => true | _ => false end.

Lemma hook_uncounted s t m :
  live s -> not_held s -> uncounted t = true ->
  wp (dqstrategyMamaPlugin_subscriptionPreMsgHook t m) s (fun _ s' => s' = s).
Proof.
  intros L Hnh Ht. unfold dqstrategyMamaPlugin_subscriptionPreMsgHook.
  apply wp_bind. unfold mamaSubscription_getSubjectContext, wp at 1. rewrite (l_single _ L). wp_dq.
  rewrite (l_plugin _ L). cbn [negb].
  assert (isInitialMessageOrRecap t = false) as -> by (by destruct t). wp_dq.
  unfold dqStrategy_getDqState. wp_dq.
  assert (mExpectingInitial s && negb (mInitialArrived (own s)) = false) as ->.
  { pose proof (l_initial _ L) as Hi. destruct (mExpectingInitial s); [|done]. by rewrite Hi. }
  assert (bool_decide (mDQState (dq s) = DQ_STATE_WAITING_FOR_RECAP) && t_preRecapCache (cfg s) = false) as ->.
  { destruct Hnh as [-> | Hn]; [by rewrite andb_false_r|]. by rewrite bool_decide_false. }
  cbn [orb andb]. destruct t; try done; by apply wp_ret.
Qed.

(** publisher and receiver disagree about deletions and expirations.  The
    publisher numbers such a message like an update; the receiver does not take
    its number.  The update after it therefore arrives as a gap: it is delivered
    marked stale, and a recap is requested although nothing was lost. *)
Theorem uncounted_type_leaves_gap {T} `{StringTable T} (p : mamaDQPublisherImpl T) n1 n2 o1 o2 (s : subscription) :
  mTopicCtxs p = None -> 0 < DqPublisher.mSeqNum (mTopicCtx p) < 2 ^ 32 - 3 -> obj_ok o1 -> obj_ok o2 ->
  uncounted (p_type (o_msg o1)) = true -> plain_update o2 ->
  DqPublisher.mSenderId p <> 0 -> DqStrategy.mSenderId (dq s) = DqPublisher.mSenderId p ->
  live s -> mDQState (dq s) = DQ_STATE_OK -> try_fill s = false -> t_preRecapCache (cfg s) = false ->
  DqStrategy.mSeqNum (dq s) = DqPublisher.mSeqNum (mTopicCtx p) ->
  wp (run_pcalls [Send n1 o1; Send n2 o2]) p (fun _ p' => exists m1 m2, sent p' = sent p ++ [m1; m2] /\
    wp (run_msgs [(p_type m1, p_msg m1); (p_type m2, p_msg m2)]) s (fun _ s' =>
      mDQState (dq s') = DQ_STATE_WAITING_FOR_RECAP /\
      exists tr, trace s' = trace s ++ tr /\ recaps tr = [Some (subscSymbol s)] /\
        forwarded tr = [set_status MAMA_MSG_STATUS_STALE (p_msg m2)])).
Proof.
  intros Et Hn Ho1 Ho2 Hu Hpl Hid Hsid L Hok Ht Hp Hseq. destruct (obj_temp o1 Ho1) as (O1 & _).
  cbn [run_pcalls]. apply wp_bind. eapply wp_mono; [apply own_send; [done|lia]|]. cbn beta. intros r1 p1 (F1 & F2 & F3 & F4).
  set (m1 := stamp p _ n1 _) in F4.
  assert (p_type m1 = p_type (o_msg o1)) as T1 by (unfold m1; by rewrite stamp_type, O1).
  assert (DqPublisher.mSeqNum (mTopicCtx p1) = DqPublisher.mSeqNum (mTopicCtx p) + 1) as Hc1.
  { rewrite F2, number_seqNum, O1. destruct (p_type (o_msg o1)); try done; cbn; unfold u32, uwrap; rewrite Z.mod_small; lia. }
  apply wp_bind, wp_bind. eapply wp_mono; [apply own_send; [done|lia]|]. cbn beta. intros r2 p2 (_ & _ & _ & G4).
  apply wp_bind, wp_ret, wp_ret, wp_ret.
  destruct (stamped_update p1 (mTopicCtx p1) n2 o2) as (S1 & S2 & S3); [done|done|congruence|lia|]. rewrite Hc1 in S3.
  set (m2 := stamp p1 _ n2 _) in *. exists m1, m2. split; [by rewrite G4, F4, <- app_assoc|].
  clearbody m1 m2. cbn [run_msgs]. apply wp_bind. eapply wp_mono; [apply hook_uncounted; [done|by left|by rewrite T1]|].
  cbn beta. intros r3 ? ->. apply wp_bind. eapply wp_mono; [apply hook_gap; try done; [..|by rewrite Hok|by rewrite Hok]|].
  - right. right. rewrite S2. cbn. congruence.
  - split; [|cbn [snd]; split; [lia|split; [lia|right; lia]]]. exists 1. split; [done|]. unfold u32, uwrap.
    cbn [snd]. rewrite S3, Hseq, Z.mod_small; lia.
  - cbn beta. intros r4 s1 (_ & _ & _ & _ & Hst & _ & _ & Htr). apply wp_ret. split; [done|]. eexists. split; [exact Htr|].
    rewrite recaps_app, forwarded_app. unfold gap_events, stale_events. rewrite Hok, bool_decide_false by done.
    rewrite !recaps_app, !forwarded_app. split; repeat case_match; reflexivity.
Qed.

(** ** Witnesses *)

Definition demo_pub (seq : Z) : mamaDQPublisherImpl wtable :=
  mkPub false 77 0 false (mkTopicCtx seq MAMA_MSG_STATUS_OK) None ∅ 1 [].
Definition demo_obj (t : mamaMsgType) (id : Z) (topic : string) : msgObj :=
  mkObj false (mkPmsg t SenderNone TimeNone (mkMsg id None None None MAMA_MSG_STATUS_OK None None (Some topic))) None.
Definition demo_calls : list pcall :=
  [AddTopic "MSFT"; Send 5 (demo_obj MAMA_MSG_TYPE_UPDATE 1 "IBM"); Send 6 (demo_obj MAMA_MSG_TYPE_RECAP 2 "MSFT");
   Send 7 (demo_obj MAMA_MSG_TYPE_DELETE 3 "MSFT"); AddTopic "IBM"; Send 8 (demo_obj MAMA_MSG_TYPE_TRADE 4 "IBM")].
Definition image_listener : listener :=
  mkListener (demo_sub DQ_STATE_OK 1 77) true 0 false true false false [QueueStats; GlobalStats] MAMA_ERROR_NONE [].

Lemma topics_numbered_witness :
  wp (run_pcalls (AddTopic "IBM" :: demo_calls)) (demo_pub 1) (fun _ p' => forall s,
    seqs (numbered (for_topic s (sent p'))) = Some <$> seqZ 2 (Z.of_nat (length (numbered (for_topic s (sent p')))))).
Proof.
  apply (topics_numbered 77 (demo_pub 1) "IBM" demo_calls); [reflexivity|repeat constructor|reflexivity].
Defined.

Lemma published_updates_delivered_witness :
  wp (run_pcalls (AddTopic "IBM" :: demo_calls)) (demo_pub 1) (fun _ p' =>
    let ms := received_as None <$> for_topic "IBM" (sent p') in
    wp (processMsgs (fun _ => MAMA_STATUS_OK) ms) image_listener (fun _ L' => delivers ms image_listener L')).
Proof.
  apply (published_updates_delivered 77 (demo_pub 1) "IBM" demo_calls "IBM" None (fun _ => MAMA_STATUS_OK) image_listener);
    try reflexivity; [done|repeat constructor| |apply demo_live].
  refine (proj1 (Forall_forall _ _) _). repeat constructor; try discriminate; by left.
Defined.

Lemma numbering_stops_at_wrap_witness :
  wp (mamaDQPublisher_send 5 MAMA_STATUS_OK (demo_obj MAMA_MSG_TYPE_UPDATE 1 "IBM")) (demo_pub 4294967295) (fun _ p1 =>
    (exists m, sent p1 = [] ++ [m] /\ m_seqNum (p_msg m) = Some 0) /\
    wp (run_pcalls [Send 6 (demo_obj MAMA_MSG_TYPE_UPDATE 2 "IBM")]) p1 (fun _ p2 => exists ms, sent p2 = sent p1 ++ ms /\
      seqs ms = [None])).
Proof.
  apply (numbering_stops_at_wrap (demo_pub 4294967295) 5 (demo_obj MAMA_MSG_TYPE_UPDATE 1 "IBM")
           [Send 6 (demo_obj MAMA_MSG_TYPE_UPDATE 2 "IBM")]); try reflexivity; repeat constructor.
Defined.

Lemma uncounted_type_leaves_gap_witness :
  wp (run_pcalls [Send 5 (demo_obj MAMA_MSG_TYPE_DELETE 1 "IBM"); Send 6 (demo_obj MAMA_MSG_TYPE_UPDATE 2 "IBM")]) (demo_pub 9)
    (fun _ p' => exists m1 m2, sent p' = [] ++ [m1; m2] /\
    wp (run_msgs [(p_type m1, p_msg m1); (p_type m2, p_msg m2)]) (demo_sub DQ_STATE_OK 9 77) (fun _ s' =>
      mDQState (dq s') = DQ_STATE_WAITING_FOR_RECAP /\
      exists tr, trace s' = [] ++ tr /\ recaps tr = [Some "IBM"%string] /\
        forwarded tr = [set_status MAMA_MSG_STATUS_STALE (p_msg m2)])).
Proof.
  apply (uncounted_type_leaves_gap (demo_pub 9) 5 6 (demo_obj MAMA_MSG_TYPE_DELETE 1 "IBM")
           (demo_obj MAMA_MSG_TYPE_UPDATE 2 "IBM") (demo_sub DQ_STATE_OK 9 77));
    try reflexivity; try (cbn; done); try apply demo_live.
  split; [reflexivity|split; [reflexivity|by left]].
Defined.
