(* ===== verification/DqPublisherManager.v ===== *)
(** * The publisher manager (mama/c_cpp/src/c/dqpublishermanager.c)

    A publishing application's side of subscriptions: the manager keeps the
    publishers of a source by symbol, listens to the requests of subscribers and
    passes them to the application's callbacks, answers refreshes itself, and
    turns the answers to its synchronisation request into requests.

    The table holds addresses of [mamaPublishTopic] structures; these, and the
    publishers, live in two heaps.  The application's callbacks are computations
    on the manager, since they call it back (a request for an unknown symbol is
    where publishers are created). *)

From S2P Require Import Prelude MamaStatus WTableSpec DqStrategy DqPublisher.
Import DqStrategy.

Module DqPublisherManager.

Abbreviation mamaDQPublisherImpl := DqPublisher.mamaDQPublisherImpl.
Abbreviation msgObj := DqPublisher.msgObj.

Definition NUM_BUCKETS : Z := 11.

(** The types of subscription messages the manager tells apart (subscmsgtype.h). *)
Definition MAMA_SUBSC_RESUBSCRIBE : Z := 3.
Definition MAMA_SUBSC_REFRESH : Z := 4.

(** ** Messages and callbacks *)

(** What the manager reads of a request: each field if it is there. *)
Record request : Type := mkRequest {
  r_subType : option Z;
  r_symbol : option string;
  r_sendSubject : option string;
  r_msgType : option Z;
}.

(** What it reads of an answer to the synchronisation request. *)
Record syncAnswer : Type := mkSyncAnswer {
  s_topics : mama_status + list string;
  s_types : mama_status + list Z;
}.

(** The synchronisation request: topics per message, delay and duration (the
    bits of the doubles), and the source. *)
Record syncRequest : Type := mkSyncRequest { q_nummsg : Z; q_delay : Z; q_duration : Z; q_source : option string }.

(** What leaves the manager other than through the publishers of the table. *)
Inductive mevent : Type :=
| Subscribed (topic : string)
| Published (topic : string)
| SentSync (r : option syncRequest)
| SentNoSubscribers.

Record mamaPublishTopic : Type := mkTopic { tp_symbol : string; tp_pub : Z; tp_cache : Z }.

Section manager.

Context {T : Type} `{StringTable T}.

(** ** State *)

(** [mSubscription]: the topic of the subscription. *)
Record manager : Type := mkManager {
  mPublisherMap : option T;
  mRefreshResponseMsg : option msgObj;
  mNoSubscribersMsg : bool;
  mSyncRequestMsg : option syncRequest;
  mSubscription : option string;
  mPublisher : bool;
  mInbox : bool;
  mStatus : mamaMsgStatus;
  mSenderId : Z;
  mSeqNum : Z;
  mNameSpace : option string;
  mEnableSendTime : bool;
  topics : gmap Z mamaPublishTopic;
  pubs : gmap Z (mamaDQPublisherImpl T);
  topic_brk : Z;
  pub_brk : Z;
  events : list mevent;
}.

Definition put_mPublisherMap (v : option T) (g : manager) : manager :=
  mkManager v (mRefreshResponseMsg g) (mNoSubscribersMsg g) (mSyncRequestMsg g) (mSubscription g) (mPublisher g) (mInbox g) (mStatus g) (mSenderId g) (mSeqNum g) (mNameSpace g) (mEnableSendTime g) (topics g) (pubs g) (topic_brk g) (pub_brk g) (events g).
Definition put_mRefreshResponseMsg (v : option msgObj) (g : manager) : manager :=
  mkManager (mPublisherMap g) v (mNoSubscribersMsg g) (mSyncRequestMsg g) (mSubscription g) (mPublisher g) (mInbox g) (mStatus g) (mSenderId g) (mSeqNum g) (mNameSpace g) (mEnableSendTime g) (topics g) (pubs g) (topic_brk g) (pub_brk g) (events g).
Definition put_mNoSubscribersMsg (v : bool) (g : manager) : manager :=
  mkManager (mPublisherMap g) (mRefreshResponseMsg g) v (mSyncRequestMsg g) (mSubscription g) (mPublisher g) (mInbox g) (mStatus g) (mSenderId g) (mSeqNum g) (mNameSpace g) (mEnableSendTime g) (topics g) (pubs g) (topic_brk g) (pub_brk g) (events g).
Definition put_mSyncRequestMsg (v : option syncRequest) (g : manager) : manager :=
  mkManager (mPublisherMap g) (mRefreshResponseMsg g) (mNoSubscribersMsg g) v (mSubscription g) (mPublisher g) (mInbox g) (mStatus g) (mSenderId g) (mSeqNum g) (mNameSpace g) (mEnableSendTime g) (topics g) (pubs g) (topic_brk g) (pub_brk g) (events g).
Definition put_mSubscription (v : option string) (g : manager) : manager :=
  mkManager (mPublisherMap g) (mRefreshResponseMsg g) (mNoSubscribersMsg g) (mSyncRequestMsg g) v (mPublisher g) (mInbox g) (mStatus g) (mSenderId g) (mSeqNum g) (mNameSpace g) (mEnableSendTime g) (topics g) (pubs g) (topic_brk g) (pub_brk g) (events g).
Definition put_mPublisher (v : bool) (g : manager) : manager :=
  mkManager (mPublisherMap g) (mRefreshResponseMsg g) (mNoSubscribersMsg g) (mSyncRequestMsg g) (mSubscription g) v (mInbox g) (mStatus g) (mSenderId g) (mSeqNum g) (mNameSpace g) (mEnableSendTime g) (topics g) (pubs g) (topic_brk g) (pub_brk g) (events g).
Definition put_mInbox (v : bool) (g : manager) : manager :=
  mkManager (mPublisherMap g) (mRefreshResponseMsg g) (mNoSubscribersMsg g) (mSyncRequestMsg g) (mSubscription g) (mPublisher g) v (mStatus g) (mSenderId g) (mSeqNum g) (mNameSpace g) (mEnableSendTime g) (topics g) (pubs g) (topic_brk g) (pub_brk g) (events g).
Definition put_mStatus (v : mamaMsgStatus) (g : manager) : manager :=
  mkManager (mPublisherMap g) (mRefreshResponseMsg g) (mNoSubscribersMsg g) (mSyncRequestMsg g) (mSubscription g) (mPublisher g) (mInbox g) v (mSenderId g) (mSeqNum g) (mNameSpace g) (mEnableSendTime g) (topics g) (pubs g) (topic_brk g) (pub_brk g) (events g).
Definition put_mSenderId (v : Z) (g : manager) : manager :=
  mkManager (mPublisherMap g) (mRefreshResponseMsg g) (mNoSubscribersMsg g) (mSyncRequestMsg g) (mSubscription g) (mPublisher g) (mInbox g) (mStatus g) v (mSeqNum g) (mNameSpace g) (mEnableSendTime g) (topics g) (pubs g) (topic_brk g) (pub_brk g) (events g).
Definition put_mSeqNum (v : Z) (g : manager) : manager :=
  mkManager (mPublisherMap g) (mRefreshResponseMsg g) (mNoSubscribersMsg g) (mSyncRequestMsg g) (mSubscription g) (mPublisher g) (mInbox g) (mStatus g) (mSenderId g) v (mNameSpace g) (mEnableSendTime g) (topics g) (pubs g) (topic_brk g) (pub_brk g) (events g).
Definition put_mNameSpace (v : option string) (g : manager) : manager :=
  mkManager (mPublisherMap g) (mRefreshResponseMsg g) (mNoSubscribersMsg g) (mSyncRequestMsg g) (mSubscription g) (mPublisher g) (mInbox g) (mStatus g) (mSenderId g) (mSeqNum g) v (mEnableSendTime g) (topics g) (pubs g) (topic_brk g) (pub_brk g) (events g).
Definition put_mEnableSendTime (v : bool) (g : manager) : manager :=
  mkManager (mPublisherMap g) (mRefreshResponseMsg g) (mNoSubscribersMsg g) (mSyncRequestMsg g) (mSubscription g) (mPublisher g) (mInbox g) (mStatus g) (mSenderId g) (mSeqNum g) (mNameSpace g) v (topics g) (pubs g) (topic_brk g) (pub_brk g) (events g).
Definition put_topics (v : gmap Z mamaPublishTopic) (g : manager) : manager :=
  mkManager (mPublisherMap g) (mRefreshResponseMsg g) (mNoSubscribersMsg g) (mSyncRequestMsg g) (mSubscription g) (mPublisher g) (mInbox g) (mStatus g) (mSenderId g) (mSeqNum g) (mNameSpace g) (mEnableSendTime g) v (pubs g) (topic_brk g) (pub_brk g) (events g).
Definition put_pubs (v : gmap Z (mamaDQPublisherImpl T)) (g : manager) : manager :=
  mkManager (mPublisherMap g) (mRefreshResponseMsg g) (mNoSubscribersMsg g) (mSyncRequestMsg g) (mSubscription g) (mPublisher g) (mInbox g) (mStatus g) (mSenderId g) (mSeqNum g) (mNameSpace g) (mEnableSendTime g) (topics g) v (topic_brk g) (pub_brk g) (events g).
Definition put_topic_brk (v : Z) (g : manager) : manager :=
  mkManager (mPublisherMap g) (mRefreshResponseMsg g) (mNoSubscribersMsg g) (mSyncRequestMsg g) (mSubscription g) (mPublisher g) (mInbox g) (mStatus g) (mSenderId g) (mSeqNum g) (mNameSpace g) (mEnableSendTime g) (topics g) (pubs g) v (pub_brk g) (events g).
Definition put_pub_brk (v : Z) (g : manager) : manager :=
  mkManager (mPublisherMap g) (mRefreshResponseMsg g) (mNoSubscribersMsg g) (mSyncRequestMsg g) (mSubscription g) (mPublisher g) (mInbox g) (mStatus g) (mSenderId g) (mSeqNum g) (mNameSpace g) (mEnableSendTime g) (topics g) (pubs g) (topic_brk g) v (events g).
Definition put_events (v : list mevent) (g : manager) : manager :=
  mkManager (mPublisherMap g) (mRefreshResponseMsg g) (mNoSubscribersMsg g) (mSyncRequestMsg g) (mSubscription g) (mPublisher g) (mInbox g) (mStatus g) (mSenderId g) (mSeqNum g) (mNameSpace g) (mEnableSendTime g) (topics g) (pubs g) (topic_brk g) (pub_brk g) v.

Abbreviation MM := (M manager).

Definition emit (e : mevent) : MM unit := modify (fun g => put_events (events g ++ [e]) g).

Definition lift {A} (r : res A) : MM A := fun g => match r with Ok a => Ok (a, g) | Fail f => Fail f end.

(** The table, which is NULL before [mamaDQPublisherManager_create]. *)
Definition map_lookup (symbol : string) : MM Z :=
  t ← gets mPublisherMap;
  match t with Some t => lift (st_lookup symbol t) | None => mret 0 end.

Definition map_insert (mem : bool) (symbol : string) (a : Z) : MM Z :=
  t ← gets mPublisherMap;
  match t with
  | Some t => r ← lift (st_insert mem symbol a t); modify (put_mPublisherMap (Some r.2)) ;; mret r.1
  | None => mret 0
  end.

Definition map_remove (symbol : string) : MM unit :=
  t ← gets mPublisherMap;
  match t with
  | Some t => r ← lift (st_remove symbol t); modify (put_mPublisherMap (Some r.2))
  | None => mret tt
  end.

(** The structures behind the addresses. *)
Definition get_topic (a : Z) : MM mamaPublishTopic := fun g =>
  match topics g !! a with Some tp => Ok (tp, g) | None => Fail InvalidDeref end.

Definition new_topic (mem : bool) (tp : mamaPublishTopic) : MM Z :=
  if mem then
    a ← gets topic_brk;
    modify (fun g => put_topic_brk (a + 1) (put_topics (<[a := tp]> (topics g)) g)) ;;
    mret a
  else fail InvalidDeref.

Definition free_topic (a : Z) : MM unit :=
  get_topic a ;;
  modify (fun g => put_topics (delete a (topics g)) g).

Definition on_pub {A} (a : Z) (f : M (mamaDQPublisherImpl T) A) : MM A := fun g =>
  match pubs g !! a with
  | None => Fail InvalidDeref
  | Some p => match f p with
              | Ok (x, p') => Ok (x, put_pubs (<[a := p']> (pubs g)) g)
              | Fail e => Fail e
              end
  end.

(** [mamaDQPublisher_destroy] frees the publisher at the end. *)
Definition destroy_pub (a : Z) : MM unit :=
  on_pub a DqPublisher.mamaDQPublisher_destroy ;;
  modify (fun g => put_pubs (delete a (pubs g)) g).

(** ** Operations *)

Definition mamaDQPublisherManager_allocate (alloc : bool) (self_id : Z) : mama_status * option manager :=
  if alloc
  then (MAMA_STATUS_OK, Some (mkManager None None false None None false false MAMA_MSG_STATUS_OK self_id 1 None false ∅ ∅ 1 1 []))
  else (MAMA_STATUS_NOMEM, None).

(** The results of the calls it makes are not looked at. *)
Definition mamaDQPublisherManager_create (sourcename root : string) : MM mama_status :=
  let topic := (root +:+ "." +:+ sourcename)%string in
  modify (put_mNameSpace (Some sourcename)) ;;
  modify (put_mPublisherMap (st_create topic NUM_BUCKETS)) ;;
  modify (put_mPublisher true) ;;
  modify (put_mSubscription (Some topic)) ;;
  emit (Subscribed topic) ;;
  mret MAMA_STATUS_OK.

(** What remains allocated after [mamaDQPublisherManager_destroy]: the table is
    freed, not what it points to. *)
Definition mamaDQPublisherManager_destroy : MM (gmap Z mamaPublishTopic * gmap Z (mamaDQPublisherImpl T)) :=
  modify (put_mPublisher false) ;;
  modify (put_mSubscription None) ;;
  modify (put_mInbox false) ;;
  modify (put_mRefreshResponseMsg None) ;;
  modify (put_mNoSubscribersMsg false) ;;
  modify (put_mSyncRequestMsg None) ;;
  modify (put_mNameSpace None) ;;
  modify (put_mPublisherMap None) ;;
  ts ← gets topics;
  ps ← gets pubs;
  mret (ts, ps).

(** [mem_topic], [mem_entry]: the allocations of the structure and of the table's
    entry. *)
Definition mamaDQPublisherManager_addPublisher (mem_topic mem_entry : bool) (symbol : string) (pub cache : Z) : MM mama_status :=
  newTopic ← map_lookup symbol;
  if newTopic =? 0 then
    newTopic ← new_topic mem_topic (mkTopic symbol pub cache);
    r ← map_insert mem_entry symbol newTopic;
    mret (if r =? 1 then MAMA_STATUS_OK else MAMA_STATUS_INVALID_ARG)
  else mret MAMA_STATUS_INVALID_ARG.

(** The results with a second component: what is written to [*pub]. *)
Definition mamaDQPublisherManager_removePublisher (symbol : string) : MM (mama_status * option Z) :=
  newTopic ← map_lookup symbol;
  if newTopic =? 0 then mret (MAMA_STATUS_INVALID_ARG, None)
  else
    map_remove symbol ;;
    tp ← get_topic newTopic;
    free_topic newTopic ;;
    mret (MAMA_STATUS_OK, Some (tp_pub tp)).

(** [self_id]: what [mamaSenderId_getSelf] returns; [create_status]: what the
    middleware answers for the new publisher. *)
Definition mamaDQPublisherManager_createPublisher (mem_pub mem_topic mem_entry : bool) (self_id : Z)
  (create_status : mama_status) (symbol : string) (cache : Z) : MM (mama_status * option Z) :=
  newTopic ← map_lookup symbol;
  if newTopic =? 0 then
    match DqPublisher.mamaDQPublisher_allocate mem_pub self_id with
    | (status, None) => mret (status, None)
    | (_, Some p) =>
        newPublisher ← gets pub_brk;
        modify (fun g => put_pub_brk (newPublisher + 1) (put_pubs (<[newPublisher := p]> (pubs g)) g)) ;;
        newTopic ← new_topic mem_topic (mkTopic symbol newPublisher cache);
        senderId ← gets mSenderId;
        status ← gets mStatus;
        seqNum ← gets mSeqNum;
        sendTime ← gets mEnableSendTime;
        on_pub newPublisher (DqPublisher.mamaDQPublisher_setCache cache) ;;
        on_pub newPublisher (DqPublisher.mamaDQPublisher_setSenderId senderId) ;;
        on_pub newPublisher (DqPublisher.mamaDQPublisher_setStatus status) ;;
        on_pub newPublisher (DqPublisher.mamaDQPublisher_setSeqNum seqNum) ;;
        on_pub newPublisher (DqPublisher.mamaDQPublisher_enableSendTime sendTime) ;;
        nameSpace ← gets mNameSpace;
        match nameSpace with
        | None => fail InvalidDeref
        | Some nameSpace =>
            status ← on_pub newPublisher (DqPublisher.mamaDQPublisher_create create_status);
            if negb (status_ok status) then mret (status, Some newPublisher)
            else
              emit (Published (nameSpace +:+ "." +:+ symbol)%string) ;;
              r ← map_insert mem_entry symbol newTopic;
              if r =? 1 then mret (MAMA_STATUS_OK, Some newPublisher)
              else
                destroy_pub newPublisher ;;
                free_topic newTopic ;;
                mret (status, Some newPublisher)
        end
    end
  else mret (MAMA_STATUS_INVALID_ARG, None).

Definition mamaDQPublisherManager_destroyPublisher (symbol : string) : MM mama_status :=
  newTopic ← map_lookup symbol;
  if newTopic =? 0 then mret MAMA_STATUS_INVALID_ARG
  else
    tp ← get_topic newTopic;
    destroy_pub (tp_pub tp) ;;
    map_remove symbol ;;
    free_topic newTopic ;;
    mret MAMA_STATUS_OK.

Definition mamaDQPublisherManager_getPublisher (symbol : string) : MM (mama_status * option Z) :=
  topic ← map_lookup symbol;
  if topic =? 0 then mret (MAMA_STATUS_NOT_FOUND, None)
  else
    tp ← get_topic topic;
    mret (MAMA_STATUS_OK, Some (tp_pub tp)).

Definition mamaDQPublisherManager_setStatus (status : mamaMsgStatus) : MM unit := modify (put_mStatus status).
Definition mamaDQPublisherManager_setSenderId (senderid : Z) : MM unit := modify (put_mSenderId senderid).
Definition mamaDQPublisherManager_setSeqNum (num : Z) : MM unit := modify (put_mSeqNum num).
Definition mamaDQPublisherManager_enableSendTime (enable : bool) : MM unit := modify (put_mEnableSendTime enable).

(** The request is made once: later calls send the first one again.
    [send_status]: what the middleware answers. *)
Definition mamaDQPublisherManager_sendSyncRequest (nummsg delay duration : Z) (send_status : mama_status) : MM mama_status :=
  msg ← gets mSyncRequestMsg;
  (match msg with
   | Some _ => mret tt
   | None =>
       modify (put_mInbox true) ;;
       source ← gets mNameSpace;
       modify (put_mSyncRequestMsg (Some (mkSyncRequest nummsg delay duration source)))
   end) ;;
  msg ← gets mSyncRequestMsg;
  emit (SentSync msg) ;;
  mret send_status.

(** An empty message, whatever the symbol. *)
Definition mamaDQPublisherManager_sendNoSubscribers (symbol : string) : MM mama_status :=
  modify (put_mNoSubscribersMsg true) ;;
  emit SentNoSubscribers ;;
  mret MAMA_STATUS_OK.

(** ** Callbacks *)

(** The application's callbacks; [info] is the address of the topic. *)
Record mamaDQPublisherManagerCallbacks : Type := mkCallbacks {
  onCreate : option (MM unit);
  onError : mama_status -> string -> MM unit;
  onNewRequest : string -> Z -> Z -> MM unit;
  onRequest : Z -> Z -> Z -> MM unit;
  onRefresh : Z -> Z -> Z -> MM unit;
  onMsg : option (MM unit);
}.

Context (cbs : mamaDQPublisherManagerCallbacks).

(** The loop of [inboxMsgCb]: its length is that of the types. *)
Fixpoint sync_loop (topicl : list string) (types : list Z) : MM unit :=
  match types with
  | [] => mret tt
  | ty :: types' =>
      match topicl with
      | [] => fail InvalidDeref
      | topic :: topicl' =>
          info ← map_lookup topic;
          (if info =? 0 then onNewRequest cbs topic ty MAMA_SUBSC_RESUBSCRIBE
           else onRequest cbs info ty MAMA_SUBSC_RESUBSCRIBE) ;;
          sync_loop topicl' types'
      end
  end.

Definition inboxMsgCb (msg : syncAnswer) : MM unit :=
  match s_topics msg, s_types msg with
  | inl status, _ => onError cbs status "Unknown Msg"
  | inr _, inl status => onError cbs status "Unknown Msg"
  | inr topicl, inr types => sync_loop topicl types
  end.

Definition inboxErrorCb (status : mama_status) : MM unit := onError cbs status "Send sync failure".

Definition dqPublisherImplCreateCb : MM unit :=
  match onCreate cbs with Some f => f | None => mret tt end.

Definition dqPublisherImplErrorCb (status : mama_status) (subject : string) : MM unit := onError cbs status subject.

(** The answer to a refresh: made once, and stamped anew each time. *)
Definition refresh_msg : msgObj :=
  DqPublisher.mkObj true
    (DqPublisher.mkPmsg MAMA_MSG_TYPE_REFRESH DqPublisher.SenderNone DqPublisher.TimeNone
       (mkMsg 0 None None None MAMA_MSG_STATUS_MISC None None None)) None.

(** [now] and [send_status]: the time and the middleware's answer. *)
Definition answer_refresh (now : Z) (send_status : mama_status) (info : Z) : MM unit :=
  o ← gets mRefreshResponseMsg;
  let o := default refresh_msg o in
  tp ← get_topic info;
  r ← on_pub (tp_pub tp) (DqPublisher.mamaDQPublisher_send now send_status o);
  modify (put_mRefreshResponseMsg (Some r.2)).

Definition dqPublisherImplMsgCb (now : Z) (send_status : mama_status) (msg : request) : MM unit :=
  match r_subType msg with
  | None => match onMsg cbs with Some f => f | None => mret tt end
  | Some subType =>
      match (match r_symbol msg with Some s => Some s | None => r_sendSubject msg end) with
      | None => onError cbs MAMA_STATUS_NOT_FOUND "No symbol"
      | Some symbol =>
          match r_msgType msg with
          | None => onError cbs MAMA_STATUS_NOT_FOUND "NO msg type"
          | Some msgType =>
              info ← map_lookup symbol;
              if info =? 0 then onNewRequest cbs symbol subType msgType
              else if msgType =? MAMA_SUBSC_REFRESH then
                answer_refresh now send_status info ;;
                onRefresh cbs info subType msgType
              else onRequest cbs info subType msgType
          end
      end
  end.

(** ** Histories *)

Inductive mcall : Type :=
| AddPublisher (symbol : string) (pub cache : Z)
| RemovePublisher (symbol : string)
| CreatePublisher (create_status : mama_status) (symbol : string) (cache : Z)
| DestroyPublisher (symbol : string)
| GetPublisher (symbol : string)
| SetStatus (status : mamaMsgStatus)
| SetSenderId (senderid : Z)
| SetSeqNum (num : Z)
| EnableSendTime (enable : bool).

(** With memory for what is allocated.  The setters return nothing. *)
Definition run_mcall (self_id : Z) (c : mcall) : MM (mama_status * option Z) :=
  match c with
  | AddPublisher s p k => r ← mamaDQPublisherManager_addPublisher true true s p k; mret (r, None)
  | RemovePublisher s => mamaDQPublisherManager_removePublisher s
  | CreatePublisher st s k => mamaDQPublisherManager_createPublisher true true true self_id st s k
  | DestroyPublisher s => r ← mamaDQPublisherManager_destroyPublisher s; mret (r, None)
  | GetPublisher s => mamaDQPublisherManager_getPublisher s
  | SetStatus status => mamaDQPublisherManager_setStatus status ;; mret (MAMA_STATUS_OK, None)
  | SetSenderId senderid => mamaDQPublisherManager_setSenderId senderid ;; mret (MAMA_STATUS_OK, None)
  | SetSeqNum num => mamaDQPublisherManager_setSeqNum num ;; mret (MAMA_STATUS_OK, None)
  | EnableSendTime enable => mamaDQPublisherManager_enableSendTime enable ;; mret (MAMA_STATUS_OK, None)
  end.

Fixpoint run_mcalls (self_id : Z) (l : list mcall) : MM (list (mama_status * option Z)) :=
  match l with
  | [] => mret []
  | c :: l' => r ← run_mcall self_id c; rs ← run_mcalls self_id l'; mret (r :: rs)
  end.

End manager.

Arguments manager : clear implicits.

End DqPublisherManager.
