(* ===== verification/DqPublisherManagerProps.v ===== *)
(** * The publisher manager: what an application can rely on

    The manager as a map from symbols to publishers, under an application that
    gives it only publishers it owns and that the map does not hold yet; the
    answers to a synchronisation request; and what happens when memory runs out. *)

From S2P Require Import Prelude MamaStatus WTable WTableSpec DqStrategy DqPublisher DqPublisherManager.
Import DqStrategy DqPublisherManager.

Section spec.

Context {T : Type} `{StringTable T}.
Implicit Types g : manager T.

(** ** The abstract manager *)

(** The settings new publishers get. *)
Record settings : Type := mkSettings { c_status : mamaMsgStatus; c_sender : Z; c_seq : Z; c_time : bool }.

Definition settings_of g : settings := mkSettings (mStatus g) (mSenderId g) (mSeqNum g) (mEnableSendTime g).

(** The publishers by symbol, the publishers that exist, and the next one. *)
Record amgr : Type := mkAmgr { am : gmap string Z; alive : gmap Z (mamaDQPublisherImpl T); next : Z }.

Definition new_publisher (k : settings) (st : mama_status) (cache : Z) : mamaDQPublisherImpl T :=
  DqPublisher.mkPub (status_ok st) (c_sender k) cache (c_time k) (DqPublisher.mkTopicCtx (c_seq k) (c_status k)) None ∅ 1 [].

Definition held (p : Z) (m : gmap string Z) : Prop := map_Exists (fun _ q => q = p) m.

#[local] Instance held_dec p m : Decision (held p m).
Proof. unfold held. apply _. Defined.

(** [None]: the application breaks its side. *)
Definition astep (k : settings) (c : mcall) (a : amgr) : option ((mama_status * option Z) * amgr) :=
  match c with
  | AddPublisher s p _ =>
      match am a !! s with
      | Some _ => Some ((MAMA_STATUS_INVALID_ARG, None), a)
      | None => if decide (is_Some (alive a !! p) /\ ~ held p (am a))
                then Some ((MAMA_STATUS_OK, None), mkAmgr (<[s := p]> (am a)) (alive a) (next a)) else None
      end
  | RemovePublisher s =>
      match am a !! s with
      | None => Some ((MAMA_STATUS_INVALID_ARG, None), a)
      | Some p => Some ((MAMA_STATUS_OK, Some p), mkAmgr (delete s (am a)) (alive a) (next a))
      end
  | CreatePublisher st s cache =>
      match am a !! s with
      | Some _ => Some ((MAMA_STATUS_INVALID_ARG, None), a)
      | None => Some ((st, Some (next a)),
                  mkAmgr (if status_ok st then <[s := next a]> (am a) else am a)
                    (<[next a := new_publisher k st cache]> (alive a)) (next a + 1))
      end
  | DestroyPublisher s =>
      match am a !! s with
      | None => Some ((MAMA_STATUS_INVALID_ARG, None), a)
      | Some p => Some ((MAMA_STATUS_OK, None), mkAmgr (delete s (am a)) (delete p (alive a)) (next a))
      end
  | GetPublisher s =>
      Some (match am a !! s with None => (MAMA_STATUS_NOT_FOUND, None) | Some p => (MAMA_STATUS_OK, Some p) end, a)
  | SetStatus _ | SetSenderId _ | SetSeqNum _ | EnableSendTime _ => Some ((MAMA_STATUS_OK, None), a)
  end.

(** The setters are about the publishers created from then on. *)
Definition kstep (c : mcall) (k : settings) : settings :=
  match c with
  | SetStatus v => mkSettings v (c_sender k) (c_seq k) (c_time k)
  | SetSenderId v => mkSettings (c_status k) v (c_seq k) (c_time k)
  | SetSeqNum v => mkSettings (c_status k) (c_sender k) v (c_time k)
  | EnableSendTime v => mkSettings (c_status k) (c_sender k) (c_seq k) v
  | _ => k
  end.

Fixpoint arun (k : settings) (l : list mcall) (a : amgr) : option (list (mama_status * option Z) * amgr) :=
  match l with
  | [] => Some ([], a)
  | c :: l' => '(r, a') ← astep k c a; '(rs, a'') ← arun (kstep c k) l' a'; Some (r :: rs, a'')
  end.

(** ** Representation *)

Definition pub_wf (p : mamaDQPublisherImpl T) : Prop := forall t, DqPublisher.mTopicCtxs p = Some t -> st_ok t.

(** The topic of a symbol: its address is in the table, its publisher in the map. *)
Definition topic_of g (m : gmap string Z) (s : string) (x : Z) : Prop :=
  0 < x < topic_brk g /\ exists tp, topics g !! x = Some tp /\ tp_symbol tp = s /\ m !! s = Some (tp_pub tp).

Record mgr_rep (k : settings) g (t : T) (a : amgr) : Prop := mkMgrRep {
  mr_map : mPublisherMap g = Some t;
  mr_ok : st_ok t;
  mr_brk : 0 < topic_brk g;
  mr_topics : forall s x, st_map t !! s = Some x -> topic_of g (am a) s x;
  mr_none : forall s, st_map t !! s = None -> am a !! s = None;
  mr_pubs : pubs g = alive a;
  mr_next : pub_brk g = next a;
  mr_ns : is_Some (mNameSpace g);
  mr_settings : settings_of g = k;
}.

(** Every symbol has a publisher of its own, and it exists. *)
Record abs_ok (a : amgr) : Prop := mkAbsOk {
  ab_wf : forall p q, alive a !! p = Some q -> p < next a /\ pub_wf q;
  ab_alive : forall s p, am a !! s = Some p -> is_Some (alive a !! p);
  ab_inj : forall s s' p, am a !! s = Some p -> am a !! s' = Some p -> s = s';
}.

Lemma astep_ok k c a r a' : abs_ok a -> astep k c a = Some (r, a') -> abs_ok a'.
Proof.
  intros [A1 A2 A3] E. destruct c as [s p cache|s|st s cache|s|s|?|?|?|?]; cbn in E; try (by simplify_eq);
    destruct (am a !! s) as [q|] eqn:Es; simplify_eq; try done.
  - destruct (decide _) as [[Hp Hh]|]; simplify_eq. split; cbn; [done|..].
    + intros s' p'. rewrite lookup_insert_Some. intros [[_ <-]|[_ ?]]; eauto.
    + intros s1 s2 p'. rewrite !lookup_insert_Some. intros [[<- <-]|[H1 E1]] [[<- E2]|[H2 E2]]; try done.
      * destruct Hh. by exists s2, p.
      * destruct Hh. exists s1, p'. by rewrite E2.
      * by eapply A3.
  - split; cbn; [done|..].
    + intros s' p'. rewrite lookup_delete_Some. intros [_ ?]; eauto.
    + intros s1 s2 p'. rewrite !lookup_delete_Some. intros [_ ?] [_ ?]. eauto.
  - assert (forall s p, am a !! s = Some p -> p <> next a) as Hlt.
    { intros s' p' Hp'. destruct (A2 s' p' Hp') as [q Hq]. destruct (A1 p' q Hq). lia. }
    split; cbn.
    + intros p' q. rewrite lookup_insert_Some. intros [[<- <-]|[_ Hq]]; [split; [lia|done]|]. destruct (A1 p' q Hq). split; [lia|done].
    + intros s' p' Hp'. rewrite lookup_insert_is_Some'. destruct (decide (next a = p')) as [|Hne]; [by left|right].
      destruct (status_ok st); [|eauto]. apply lookup_insert_Some in Hp' as [[_ ?]|[_ ?]]; [done|eauto].
    + intros s1 s2 p'. destruct (status_ok st); [|eauto]. rewrite !lookup_insert_Some.
      intros [[<- <-]|[H1 E1]] [[<- E2]|[H2 E2]]; try done; [by apply Hlt in E2|by apply Hlt in E1; congruence|by eapply A3].
  - split; cbn.
    + intros p' q'. rewrite lookup_delete_Some. intros [_ ?]. eauto.
    + intros s' p'. rewrite lookup_delete_Some, lookup_delete_is_Some. intros [Hne Hp']. split; [|eauto].
      intros ->. apply Hne. by eapply A3.
    + intros s1 s2 p'. rewrite !lookup_delete_Some. intros [_ ?] [_ ?]. eauto.
Qed.

(** ** The table and the heaps *)

Lemma lookup_rep k g t a s :
  mgr_rep k g t a ->
  wp (map_lookup s) g (fun x g' => g' = g /\
    match am a !! s with
    | None => x = 0 /\ st_map t !! s = None
    | Some p => x <> 0 /\ st_map t !! s = Some x /\ exists tp, topics g !! x = Some tp /\ tp_symbol tp = s /\ tp_pub tp = p
    end).
Proof.
  intros K. unfold map_lookup. apply wp_bind, wp_gets. rewrite (mr_map _ _ _ _ K). unfold wp, lift.
  rewrite (st_lookup_spec t s (mr_ok _ _ _ _ K)). split; [done|].
  destruct (st_map t !! s) as [x|] eqn:Ex; cbn [from_option]; unfold Datatypes.id.
  - destruct (mr_topics _ _ _ _ K s x Ex) as (Hx & tp & Ht & Hs & ->). split; [lia|]. eauto 6.
  - by rewrite (mr_none _ _ _ _ K s Ex).
Qed.

(** A topic that no symbol has yet. *)
Lemma new_topic_rep k g t a tp :
  mgr_rep k g t a ->
  wp (new_topic true tp) g (fun x g' => mgr_rep k g' t a /\ 0 < x < topic_brk g' /\ topics g' !! x = Some tp /\
    pubs g' = pubs g /\ settings_of g' = settings_of g).
Proof.
  intros K. unfold new_topic. apply wp_bind, wp_gets, wp_bind, wp_modify, wp_ret.
  destruct K as [K1 K2 K3 K4 K5 K6 K7 K8 K9]. split; [|cbn; rewrite lookup_insert_eq; split_and!; done || lia].
  split; cbn; try done; [lia|]. intros s x Ex. destruct (K4 s x Ex) as (Hx & tp' & Ht & Hs & Hm). unfold topic_of. cbn.
  split; [lia|]. exists tp'. by rewrite lookup_insert_ne by lia.
Qed.

(** Its entry into the table. *)
Lemma map_insert_rep k g t a s x tp :
  mgr_rep k g t a -> am a !! s = None -> 0 < x < topic_brk g -> topics g !! x = Some tp -> tp_symbol tp = s ->
  wp (map_insert true s x) g (fun r g' =>
    r = 1 /\ exists t', mgr_rep k g' t' (mkAmgr (<[s := tp_pub tp]> (am a)) (alive a) (next a))).
Proof.
  intros K Hs Hx Ht Htp.
  assert (st_map t !! s = None) as Hts.
  { destruct (st_map t !! s) as [y|] eqn:Ey; [|done]. destruct (mr_topics _ _ _ _ K s y Ey) as (_ & tp' & _ & _ & Hm). congruence. }
  unfold map_insert. apply wp_bind, wp_gets. rewrite (mr_map _ _ _ _ K).
  destruct (st_insert_spec t s x (mr_ok _ _ _ _ K)) as (t' & Ei & Ho & Em).
  apply wp_bind. unfold wp at 1, lift. rewrite Ei, Hts, !decide_False by (by intros []). apply wp_bind, wp_modify, wp_ret.
  split; [done|]. exists t'. destruct K as [K1 K2 K3 K4 K5 K6 K7 K8 K9]. split; cbn; try done.
  - intros s' y. rewrite Em, lookup_insert_Some. unfold topic_of. cbn. intros [[<- <-]|[Hne Ey]].
    + split; [lia|]. exists tp. by rewrite !lookup_insert_eq.
    + destruct (K4 s' y Ey) as (Hy & tp' & Ht' & Hs' & Hm). split; [lia|]. exists tp'. by rewrite lookup_insert_ne.
  - intros s'. rewrite Em, lookup_insert_None. intros [Hy Hne]. rewrite lookup_insert_ne by done. by apply K5.
Qed.

(** Forgetting a symbol: its entry, then its topic. *)
Lemma forget_rep k g t a s x tp :
  mgr_rep k g t a -> st_map t !! s = Some x -> topics g !! x = Some tp ->
  wp (map_remove s ;; get_topic x) g (fun r g' => r = tp /\ wp (free_topic x) g' (fun _ g'' =>
    exists t', mgr_rep k g'' t' (mkAmgr (delete s (am a)) (alive a) (next a)))).
Proof.
  intros K Ex Ht. apply wp_bind. unfold map_remove. apply wp_bind, wp_gets. rewrite (mr_map _ _ _ _ K).
  destruct (st_remove_spec t s (mr_ok _ _ _ _ K)) as (t' & Er & Ho & Em). apply wp_bind. unfold wp at 1, lift. rewrite Er.
  apply wp_modify. unfold wp at 1, get_topic. cbn [topics put_mPublisherMap]. rewrite Ht. split; [done|].
  unfold free_topic. apply wp_bind. unfold wp at 1, get_topic. cbn [topics put_mPublisherMap]. rewrite Ht. apply wp_modify.
  exists t'. destruct K as [K1 K2 K3 K4 K5 K6 K7 K8 K9]. split; cbn; try done.
  - intros s' y. rewrite Em, lookup_delete_Some. unfold topic_of. cbn. intros [Hne Ey].
    destruct (K4 s' y Ey) as (Hy & tp' & Ht' & Hs' & Hm). split; [done|]. exists tp'. rewrite !lookup_delete_ne; try done.
    intros ->. destruct (K4 s y Ex) as (_ & tp'' & Ht'' & Hs'' & _). congruence.
  - intros s'. rewrite Em, !lookup_delete_None. intros [->|?]; eauto.
Qed.

(** Only the heap of publishers changes. *)
Lemma rep_pubs k g t a ps n :
  mgr_rep k g t a -> mgr_rep k (put_pub_brk n (put_pubs ps g)) t (mkAmgr (am a) ps n).
Proof. intros K. by destruct K. Qed.

Lemma rep_events k g t a es : mgr_rep k g t a -> mgr_rep k (put_events es g) t a.
Proof. intros K. by destruct K. Qed.

(** ** Publishers *)

Lemma put_pubs_id g : put_pubs (pubs g) g = g.
Proof. by destruct g. Qed.

Lemma wp_on_pub {A} x (f : M (mamaDQPublisherImpl T) A) g p Q :
  pubs g !! x = Some p -> wp f p (fun r p' => Q r (put_pubs (<[x := p']> (pubs g)) g)) -> wp (on_pub x f) g Q.
Proof. intros E W. unfold wp, on_pub. rewrite E. unfold wp in W. by destruct (f p) as [[r p']|]. Qed.

(** The changes of a publisher collect in its place. *)
Lemma wp_set_pub {A} x (f : M (mamaDQPublisherImpl T) A) g ps p Q :
  wp f p (fun r p' => Q r (put_pubs (<[x := p']> ps) g)) -> wp (on_pub x f) (put_pubs (<[x := p]> ps) g) Q.
Proof.
  intros W. eapply wp_on_pub; [cbn; apply lookup_insert_eq|]. cbn [pubs put_pubs]. eapply wp_mono; [exact W|].
  cbn beta. intros r p' HQ. by rewrite insert_insert_eq.
Qed.

Lemma destroy_pub_rep k g t a x p :
  mgr_rep k g t a -> alive a !! x = Some p -> pub_wf p ->
  wp (destroy_pub x) g (fun _ g' => mgr_rep k g' t (mkAmgr (am a) (delete x (alive a)) (next a)) /\ topics g' = topics g).
Proof.
  intros K Hp Hw. unfold destroy_pub. apply wp_bind. eapply wp_on_pub; [by rewrite (mr_pubs _ _ _ _ K)|].
  assert (wp DqPublisher.mamaDQPublisher_destroy p (fun _ _ => True)) as W.
  { unfold DqPublisher.mamaDQPublisher_destroy. apply wp_bind, wp_gets, wp_bind.
    assert (wp (match DqPublisher.mTopicCtxs p with
       | Some t0 => DqPublisher.lift (st_for_each (fun a0 _ l => l ++ [a0]) [] t0) | None => mret [] end) p (fun _ q => True)) as W0.
    { destruct (DqPublisher.mTopicCtxs p) as [tb|] eqn:Et; [|by apply wp_ret].
      destruct (st_for_each_spec tb (fun a0 _ l => l ++ [a0]) [] (Hw tb Et)) as (l & _ & E).
      unfold wp, DqPublisher.lift. by rewrite E. }
    eapply wp_mono; [exact W0|]. intros l q _. by apply wp_bind, wp_modify, wp_bind, wp_modify, wp_bind, wp_modify, wp_bind, wp_modify, wp_ret. }
  eapply wp_mono; [exact W|]. cbn beta. intros l p' _. apply wp_modify. cbn. rewrite delete_insert_eq.
  destruct K as [K1 K2 K3 K4 K5 K6 K7 K8 K9]. split; [|done]. split; cbn; try done. by rewrite K6.
Qed.

(** ** The operations *)

Lemma create_rep k id g t a st s cache :
  mgr_rep k g t a -> am a !! s = None ->
  wp (mamaDQPublisherManager_createPublisher true true true id st s cache) g (fun r g' => r = (st, Some (next a)) /\
    exists t', mgr_rep k g' t' (mkAmgr (if status_ok st then <[s := next a]> (am a) else am a)
                    (<[next a := new_publisher k st cache]> (alive a)) (next a + 1))).
Proof.
  intros K Hs. unfold mamaDQPublisherManager_createPublisher. apply wp_bind. eapply wp_mono; [by eapply lookup_rep|].
  cbn beta. rewrite Hs. intros x ? [-> [-> _]]. cbn [Z.eqb DqPublisher.mamaDQPublisher_allocate].
  apply wp_bind, wp_gets, wp_bind, wp_modify, wp_bind. rewrite (mr_next _ _ _ _ K).
  pose proof (rep_pubs k g t a (<[next a := DqPublisher.mkPub false id 0 false (DqPublisher.mkTopicCtx 1 MAMA_MSG_STATUS_OK) None ∅ 1 []]> (pubs g)) (next a + 1) K) as K1.
  eapply wp_mono; [apply (new_topic_rep _ _ _ _ (mkTopic s (next a) cache) K1)|]. cbn beta.
  intros x g1 (K2 & Hx & Ht & Hp & _). pose proof (mr_settings _ _ _ _ K2) as Ek. rewrite <- (put_pubs_id g1), Hp. cbn [pubs put_pub_brk put_pubs].
  do 4 apply wp_bind, wp_gets.
  do 5 (apply wp_bind, wp_set_pub; apply wp_modify). apply wp_bind, wp_gets. cbn [mNameSpace put_pubs].
  destruct (mr_ns _ _ _ _ K2) as [ns ->]. apply wp_bind, wp_set_pub.
  assert (forall p, wp (DqPublisher.mamaDQPublisher_create (T := T) st) p (fun r q => r = st /\
    q = if status_ok st then DqPublisher.set_mPublisher true p else p)) as Wc.
  { intros p. unfold DqPublisher.mamaDQPublisher_create. apply wp_bind.
    destruct (status_ok st); [apply wp_modify|apply wp_ret]; by apply wp_ret. }
  eapply wp_mono; [apply Wc|]. cbn beta. intros r q [-> ->].
  set (q := if status_ok st then _ else _).
  assert (q = new_publisher k st cache) as -> by (unfold q, new_publisher; rewrite <- Ek; by destruct (status_ok st)).
  rewrite (mr_pubs _ _ _ _ K).
  assert (mgr_rep k (put_pubs (<[next a := new_publisher k st cache]> (alive a)) g1) t
    (mkAmgr (am a) (<[next a := new_publisher k st cache]> (alive a)) (next a + 1))) as K3 by (by destruct K2).
  destruct (status_ok st) eqn:Est; cbn [negb].
  2: { apply wp_ret. split; [done|]. by exists t. }
  assert (st = MAMA_STATUS_OK) as -> by (by destruct st).
  apply wp_bind, wp_modify, wp_bind. 
  eapply wp_mono; [apply (map_insert_rep _ _ _ _ _ _ (mkTopic s (next a) cache) (rep_events _ _ _ _ _ K3) Hs Hx Ht eq_refl)|].
  cbn beta. intros r g2 [-> [t' K4]]. apply wp_ret. split; [done|]. by exists t'.
Qed.

Lemma mcall_rep k id c g t a r a' :
  mgr_rep k g t a -> abs_ok a -> astep k c a = Some (r, a') ->
  wp (run_mcall id c) g (fun r' g' => r' = r /\ exists t', mgr_rep (kstep c k) g' t' a').
Proof.
  intros K [A1 A2 A3] E. pose proof (fun s => lookup_rep k g t a s K) as W.
  destruct c as [s p cache|s|st s cache|s|s|v|v|v|v]; cbn in E |- *; try specialize (W s);
    try (injection E as <- <-; apply wp_bind, wp_modify, wp_ret; split; [done|]; exists t; destruct K as [? ? ? ? ? ? ? ? <-]; by split).
  - apply wp_bind, wp_bind. eapply wp_mono; [exact W|]. cbn beta. intros x ? [-> Hx]. destruct (am a !! s) as [q|] eqn:Es; simplify_eq.
    + destruct Hx as [Hx _]. destruct (Z.eqb_spec x 0); [done|]. apply wp_ret, wp_ret. split; [done|]. by exists t.
    + destruct Hx as [-> _]. destruct (decide _) as [[Hp _]|]; simplify_eq. cbn [Z.eqb]. apply wp_bind.
      eapply wp_mono; [by apply (new_topic_rep k g t a (mkTopic s p cache))|]. cbn beta. intros x g1 (K1 & Hx & Ht & _ & _).
      apply wp_bind. eapply wp_mono; [by apply (map_insert_rep k g1 t a s x _ K1 Es Hx Ht)|]. cbn beta.
      intros y g2 [-> [t' K2]]. apply wp_ret, wp_ret. split; [done|]. by exists t'.
  - apply wp_bind. eapply wp_mono; [exact W|]. cbn beta. intros x ? [-> Hx]. destruct (am a !! s) as [q|] eqn:Es; simplify_eq.
    + destruct Hx as (Hx & Et & tp & Htp & Hs & <-). destruct (Z.eqb_spec x 0); [done|].
      pose proof (forget_rep k g t a s x tp K Et Htp) as W1. apply wp_bind.
      unfold wp in W1 |- *. unfold mbind at 1, M_bind at 1 in W1. destruct (map_remove s g) as [[? g1]|]; [|done].
      unfold mbind, M_bind. destruct (get_topic x g1) as [[tp' g2]|]; [|done]. destruct W1 as [-> W1].
      destruct (free_topic x g2) as [[? g3]|]; [|done]. by split.
    + destruct Hx as [-> _]. cbn [Z.eqb]. apply wp_ret. split; [done|]. by exists t.
  - destruct (am a !! s) as [q|] eqn:Es; simplify_eq; [|by eapply create_rep].
    unfold mamaDQPublisherManager_createPublisher. apply wp_bind. eapply wp_mono; [exact W|]. cbn beta. intros x ? [-> Hx].
    destruct Hx as [Hx _]. destruct (Z.eqb_spec x 0); [done|]. apply wp_ret. split; [done|]. by exists t.
  - apply wp_bind, wp_bind. eapply wp_mono; [exact W|]. cbn beta. intros x ? [-> Hx]. destruct (am a !! s) as [q|] eqn:Es; simplify_eq.
    + destruct Hx as (Hx & Et & tp & Htp & Hs & <-). destruct (Z.eqb_spec x 0); [done|]. apply wp_bind.
      unfold wp at 1, get_topic. rewrite Htp. destruct (A2 s _ Es) as [q Hq]. apply wp_bind.
      eapply wp_mono; [apply (destroy_pub_rep k g t a _ q K Hq); by eapply A1|]. cbn beta. intros [] g1 [K1 Ht1].
      pose proof (forget_rep k g1 t _ s x tp K1 Et) as W1. rewrite Ht1 in W1. specialize (W1 Htp). apply wp_bind.
      unfold wp in W1 |- *. unfold mbind at 1, M_bind at 1 in W1. destruct (map_remove s g1) as [[? g2]|]; [|done].
      unfold mbind, M_bind. unfold get_topic in W1. destruct (topics g2 !! x) as [tp'|]; [|done]. destruct W1 as [_ W1].
      destruct (free_topic x g2) as [[? g3]|]; [|done]. by split.
    + destruct Hx as [-> _]. cbn [Z.eqb]. apply wp_ret, wp_ret. split; [done|]. by exists t.
  - apply wp_bind. eapply wp_mono; [exact W|]. cbn beta. intros x ? [-> Hx]. destruct (am a !! s) as [q|] eqn:Es; simplify_eq.
    + destruct Hx as (Hx & Et & tp & Htp & Hs & <-). destruct (Z.eqb_spec x 0); [done|]. apply wp_bind.
      unfold wp at 1, get_topic. rewrite Htp. apply wp_ret. split; [done|]. by exists t.
    + destruct Hx as [-> _]. cbn [Z.eqb]. apply wp_ret. split; [done|]. by exists t.
Qed.

Lemma mcalls_rep id l : forall k g t a rs a',
  mgr_rep k g t a -> abs_ok a -> arun k l a = Some (rs, a') ->
  wp (run_mcalls id l) g (fun rs' g' => rs' = rs /\ abs_ok a' /\ exists t', mgr_rep (foldl (fun k c => kstep c k) k l) g' t' a').
Proof.
  induction l as [|c l IH]; intros k g t a rs a' K Ha E; cbn in E.
  - injection E as <- <-. apply wp_ret. split_and!; [done|done|by exists t].
  - destruct (astep k c a) as [[r a1]|] eqn:E1; [|done]. cbn in E. destruct (arun (kstep c k) l a1) as [[rs1 a2]|] eqn:E2; [|done].
    injection E as <- <-. cbn [run_mcalls]. apply wp_bind. eapply wp_mono; [by eapply mcall_rep|]. cbn beta.
    intros r' g1 [-> [t1 K1]]. apply wp_bind. eapply wp_mono; [eapply (IH _ g1 t1 a1); [done|by eapply astep_ok|done]|]. cbn beta.
    intros rs' g2 (-> & Ha2 & K2). by apply wp_ret.
Qed.

(** A manager that was just created. *)
Lemma created_rep id src root g :
  mamaDQPublisherManager_allocate true id = (MAMA_STATUS_OK, Some g) ->
  wp (mamaDQPublisherManager_create src root) g (fun r g' => r = MAMA_STATUS_OK /\ exists t,
    mgr_rep (mkSettings MAMA_MSG_STATUS_OK id 1 false) g' t (mkAmgr ∅ ∅ 1)).
Proof.
  intros [= <-]. unfold mamaDQPublisherManager_create.
  destruct (st_create_spec (root +:+ "." +:+ src)%string NUM_BUCKETS) as (t & Ec & Ho & Em); [done|done|].
  repeat (apply wp_bind, wp_modify). apply wp_ret. split; [done|]. exists t. split; cbn; try done.
  intros s x. by rewrite Em, lookup_empty.
Qed.

Lemma empty_abs : abs_ok (mkAmgr ∅ ∅ 1).
Proof. split; cbn; intros *; by rewrite lookup_empty. Qed.

(** ** Synchronisation *)

(** An application that creates the publisher of every unknown symbol it is asked
    for, and does nothing with requests for known ones. *)
Definition creates_missing (id : Z) (cbs : mamaDQPublisherManagerCallbacks) : Prop :=
  (forall s ty mt, onNewRequest cbs s ty mt =
     (mamaDQPublisherManager_createPublisher true true true id MAMA_STATUS_OK s 0 ;; mret tt)) /\
  (forall x ty mt, onRequest cbs x ty mt = mret tt).

Definition acreate (k : settings) (a : amgr) (s : string) : amgr :=
  match am a !! s with
  | Some _ => a
  | None => mkAmgr (<[s := next a]> (am a)) (<[next a := new_publisher k MAMA_STATUS_OK 0]> (alive a)) (next a + 1)
  end.

Lemma acreate_ok k a s : abs_ok a -> abs_ok (acreate k a s).
Proof.
  intros Ha. unfold acreate. destruct (am a !! s) eqn:Es; [done|].
  eapply (astep_ok k (CreatePublisher MAMA_STATUS_OK s 0) a); [done|]. cbn. by rewrite Es.
Qed.

(** Creating the missing ones: one publisher each, the others kept. *)
Lemma acreate_all k l : forall a, abs_ok a ->
  let a' := foldl (acreate k) a l in
  abs_ok a' /\ am a ⊆ am a' /\ dom (am a') = dom (am a) ∪ list_to_set l /\
  next a' - next a = Z.of_nat (size (am a')) - Z.of_nat (size (am a)).
Proof.
  induction l as [|s l IH]; intros a Ha; cbn [foldl list_to_set]; cbn zeta.
  - split_and!; [done|done|set_solver|lia].
  - destruct (IH (acreate k a s) (acreate_ok k a s Ha)) as (H1 & H2 & H3 & H4). cbn zeta in *.
    assert (am a ⊆ am (acreate k a s) /\ dom (am (acreate k a s)) = dom (am a) ∪ {[s]} /\
      next (acreate k a s) - next a = Z.of_nat (size (am (acreate k a s))) - Z.of_nat (size (am a))) as (E1 & E2 & E3).
    { unfold acreate. destruct (am a !! s) as [p|] eqn:Es; cbn.
      - split_and!; [done| |lia]. apply elem_of_dom_2 in Es. set_solver.
      - split_and!; [by apply insert_subseteq|rewrite dom_insert_L; set_solver|]. rewrite map_size_insert_None by done. lia. }
    split_and!; [done|by etrans|set_solver|lia].
Qed.

Lemma sync_rep k id cbs : creates_missing id cbs -> forall ts tys g t a,
  length ts = length tys -> mgr_rep k g t a -> abs_ok a ->
  wp (sync_loop cbs ts tys) g (fun _ g' => exists t', mgr_rep k g' t' (foldl (acreate k) a ts)).
Proof.
  intros [Hn Hr]. induction ts as [|s ts IH]; intros [|ty tys] g t a Hl K Ha; try done; cbn [sync_loop foldl].
  { apply wp_ret. by exists t. }
  injection Hl as Hl. apply wp_bind. eapply wp_mono; [by eapply lookup_rep|]. cbn beta. intros x ? [-> Hx]. apply wp_bind.
  pose proof (acreate_ok k a s Ha) as Ha1. unfold acreate in *.
  destruct (am a !! s) as [p|] eqn:Es; destruct Hx as [Hx _].
  - destruct (Z.eqb_spec x 0); [done|]. rewrite Hr. apply wp_ret. by eapply IH.
  - subst x. cbn [Z.eqb]. rewrite Hn. apply wp_bind. eapply wp_mono; [by eapply create_rep|]. cbn beta.
    intros r g1 (_ & t1 & K1). apply wp_ret. by eapply IH.
Qed.

End spec.

(** ** Claims *)

(** C26: the manager is a map from symbols to publishers.  From its creation on,
    whatever publishers an application creates, hands over, takes back, looks up
    and destroys, and whatever status, sender id, sequence number and send time it
    sets in between, the manager answers as a map does while memory lasts, and
    never touches a structure or publisher that was freed; every publisher it
    creates has the status, sender id, first sequence number and send time that
    were last set, and the cache it was given.  The application must only hand over
    publishers that exist and that the manager does not hold. *)
Theorem manager_refines_map {T} `{StringTable T} id (g : manager T) src root l rs a' :
  mamaDQPublisherManager_allocate true id = (MAMA_STATUS_OK, Some g) ->
  arun (mkSettings MAMA_MSG_STATUS_OK id 1 false) l (mkAmgr ∅ ∅ 1) = Some (rs, a') ->
  wp (mamaDQPublisherManager_create src root ;; run_mcalls id l) g (fun rs' g' =>
    rs' = rs /\ pubs g' = alive a' /\ forall s, wp (mamaDQPublisherManager_getPublisher s) g' (fun r _ =>
      r = match am a' !! s with None => (MAMA_STATUS_NOT_FOUND, None) | Some p => (MAMA_STATUS_OK, Some p) end)).
Proof.
  intros Ea E. apply wp_bind. eapply wp_mono; [by apply created_rep|]. cbn beta. intros r g1 (_ & t & K).
  eapply wp_mono; [eapply (mcalls_rep id l _ g1 t _ rs a' K empty_abs E)|]. cbn beta. intros rs' g2 (-> & Ha & t2 & K2).
  split; [done|]. split; [apply K2|]. intros s.
  eapply wp_mono; [eapply (mcall_rep _ id (GetPublisher s) g2 t2 a' _ a' K2 Ha eq_refl)|]. cbn beta. by intros r' g3 [-> _].
Qed.

(** an answer to the synchronisation request leaves no topic without a
    publisher.  If the application creates the publisher of each unknown symbol
    it is asked for, then after an answer every topic of it has a publisher, the
    publishers there were are kept, and there is one new publisher for each
    symbol that was missing, even if the answer names it several times. *)
Theorem sync_answer_covers_topics {T} `{StringTable T} k id cbs (g : manager T) t a ts tys :
  creates_missing id cbs -> mgr_rep k g t a -> abs_ok a -> length ts = length tys ->
  wp (inboxMsgCb cbs (mkSyncAnswer (inr ts) (inr tys))) g (fun _ g' => exists t' a',
    mgr_rep k g' t' a' /\ abs_ok a' /\ am a ⊆ am a' /\ dom (am a') = dom (am a) ∪ list_to_set ts /\
    next a' - next a = Z.of_nat (size (am a')) - Z.of_nat (size (am a))).
Proof.
  intros Hc K Ha Hl. eapply wp_mono; [eapply (sync_rep k id cbs Hc ts tys g t a Hl K Ha)|]. cbn beta. intros [] g' [t' K'].
  destruct (acreate_all k ts a Ha) as (A1 & A2 & A3 & A4). by exists t', (foldl (acreate k) a ts).
Qed.

(** Without memory for the entry in the table [mamaDQPublisherManager_createPublisher]
    destroys the publisher it made and still reports success, with the address
    of the destroyed publisher: the application's next call on it is invalid. *)
Theorem failed_create_reports_success {T} `{StringTable T} k id (g : manager T) t a s cache {A} (f : M (mamaDQPublisherImpl T) A) :
  mgr_rep k g t a -> am a !! s = None ->
  wp (mamaDQPublisherManager_createPublisher true true false id MAMA_STATUS_OK s cache) g (fun r g' =>
    r = (MAMA_STATUS_OK, Some (next a)) /\ on_pub (next a) f g' = Fail InvalidDeref).
Proof.
  intros K Hs. unfold mamaDQPublisherManager_createPublisher. apply wp_bind. eapply wp_mono; [by eapply lookup_rep|].
  cbn beta. rewrite Hs. intros x ? [-> [-> Ets]]. cbn [Z.eqb DqPublisher.mamaDQPublisher_allocate].
  apply wp_bind, wp_gets, wp_bind, wp_modify, wp_bind. rewrite (mr_next _ _ _ _ K).
  eapply wp_mono; [apply (new_topic_rep _ _ _ _ (mkTopic s (next a) cache) (rep_pubs k g t a _ (next a + 1) K))|]. cbn beta.
  intros x g1 (K2 & Hx & Ht & Hp & _). rewrite <- (put_pubs_id g1), Hp. cbn [pubs put_pub_brk put_pubs].
  do 4 apply wp_bind, wp_gets. do 5 (apply wp_bind, wp_set_pub; apply wp_modify). apply wp_bind, wp_gets. cbn [mNameSpace put_pubs].
  destruct (mr_ns _ _ _ _ K2) as [ns ->]. apply wp_bind, wp_set_pub, wp_bind, wp_modify, wp_ret. cbn [negb status_ok].
  apply wp_bind, wp_modify, wp_bind. unfold map_insert. apply wp_bind, wp_gets. cbn [mPublisherMap put_events put_pubs].
  rewrite (mr_map _ _ _ _ K2). apply wp_bind. unfold wp at 1, lift. rewrite (st_insert_nomem t s x (mr_ok _ _ _ _ K) Ets).
  apply wp_bind, wp_modify, wp_ret. cbn [Z.eqb fst]. apply wp_bind. unfold destroy_pub. apply wp_bind.
  eapply wp_on_pub; [cbn; apply lookup_insert_eq|]. unfold DqPublisher.mamaDQPublisher_destroy.
  apply wp_bind, wp_gets, wp_bind. cbn. apply wp_ret, wp_bind, wp_modify, wp_bind, wp_modify, wp_bind, wp_modify, wp_bind, wp_modify, wp_ret.
  apply wp_modify. unfold free_topic. apply wp_bind, wp_bind. unfold wp at 1, get_topic. cbn. rewrite Ht. apply wp_modify, wp_ret.
  split; [done|]. unfold on_pub. cbn. by rewrite lookup_delete_eq.
Qed.

(** ** Witnesses *)

Definition demo_manager : manager WTable.wtable :=
  mkManager None None false None None false false MAMA_MSG_STATUS_OK 77 1 None false ∅ ∅ 1 1 [].
Definition demo_mcalls : list mcall :=
  [CreatePublisher MAMA_STATUS_OK "IBM" 5; SetSenderId 9; SetSeqNum 40; SetStatus MAMA_MSG_STATUS_STALE; EnableSendTime true;
   CreatePublisher MAMA_STATUS_NOMEM "MSFT" 6; AddPublisher "MSFT" 2 6; GetPublisher "IBM";
   RemovePublisher "IBM"; AddPublisher "ORCL" 1 7; DestroyPublisher "IBM"; DestroyPublisher "ORCL"; GetPublisher "MSFT"].
Definition demo_mresults : list (mama_status * option Z) :=
  [(MAMA_STATUS_OK, Some 1); (MAMA_STATUS_OK, None); (MAMA_STATUS_OK, None); (MAMA_STATUS_OK, None); (MAMA_STATUS_OK, None); (MAMA_STATUS_NOMEM, Some 2); (MAMA_STATUS_OK, None); (MAMA_STATUS_OK, Some 1);
   (MAMA_STATUS_OK, Some 1); (MAMA_STATUS_OK, None); (MAMA_STATUS_INVALID_ARG, None); (MAMA_STATUS_OK, None); (MAMA_STATUS_OK, Some 2)].
Definition demo_settings : settings := mkSettings MAMA_MSG_STATUS_OK 77 1 false.
Definition demo_final : amgr (T := WTable.wtable) :=
  mkAmgr {["MSFT"%string := 2]} {[2 := new_publisher (mkSettings MAMA_MSG_STATUS_STALE 9 40 true) MAMA_STATUS_NOMEM 6]} 3.

Lemma manager_refines_map_witness :
  wp (mamaDQPublisherManager_create "WOMBAT" "_MD" ;; run_mcalls 77 demo_mcalls) demo_manager (fun rs' g' =>
    rs' = demo_mresults /\ pubs g' = alive demo_final /\ forall s, wp (mamaDQPublisherManager_getPublisher s) g' (fun r _ =>
      r = match am demo_final !! s with None => (MAMA_STATUS_NOT_FOUND, None) | Some p => (MAMA_STATUS_OK, Some p) end)).
Proof. apply (manager_refines_map 77 demo_manager "WOMBAT" "_MD" demo_mcalls); vm_compute; reflexivity. Defined.

Definition demo_cbs : mamaDQPublisherManagerCallbacks (T := WTable.wtable) :=
  mkCallbacks None (fun _ _ => mret tt)
    (fun s _ _ => mamaDQPublisherManager_createPublisher true true true 77 MAMA_STATUS_OK s 0 ;; mret tt)
    (fun _ _ _ => mret tt) (fun _ _ _ => mret tt) None.

Definition demo_empty : amgr (T := WTable.wtable) := mkAmgr ∅ ∅ 1.

Lemma sync_answer_covers_topics_witness : exists g : manager WTable.wtable,
  wp (inboxMsgCb demo_cbs (mkSyncAnswer (inr ["A"; "B"; "A"]%string) (inr [1; 2; 3]))) g (fun _ g' => exists t' a',
    mgr_rep demo_settings g' t' a' /\ abs_ok a' /\ am demo_empty ⊆ am a' /\
    dom (am a') = dom (am demo_empty) ∪ list_to_set ["A"; "B"; "A"]%string /\
    next a' - next demo_empty = Z.of_nat (size (am a')) - Z.of_nat (size (am demo_empty))).
Proof.
  pose proof (created_rep 77 "WOMBAT" "_MD" demo_manager eq_refl) as W. unfold wp at 1 in W.
  destruct (mamaDQPublisherManager_create "WOMBAT" "_MD" demo_manager) as [[r g]|]; [|done]. destruct W as (_ & t & K).
  exists g. apply (sync_answer_covers_topics demo_settings 77 demo_cbs g t demo_empty ["A"; "B"; "A"]%string [1; 2; 3]);
    [done|done|apply empty_abs|reflexivity].
Defined.
