(* ===== verification/StrUtils.v ===== *)
(** * String utilities (common/c_cpp/src/c/strutils.c)

    The parts of the library the configuration of MAMA goes through: the
    replacement of environment variables in values, the reading of booleans and
    of version strings.  The buffers of fixed size of the sources are checked:
    a write past their end is a fault. *)

From S2P Require Import Prelude Cstdio.
From Stdlib Require Import Ascii String.
From stdpp Require Import strings.
#[local] Open Scope Z_scope.
Import Cstdio.

Module StrUtils.

(** [strlen]. *)
Definition len (s : string) : Z := Z.of_nat (String.length s).

(** [strchr]: the text before the first [c], and the text from it on. *)
Fixpoint find_char (c : ascii) (s : string) : option (string * string) :=
  match s with
  | EmptyString => None
  | String x s' => if decide (x = c) then Some (EmptyString, s)
                   else '(before, from) ← find_char c s'; Some (String x before, from)
  end.

(** [strstr] for a needle of two characters: the text before the first one and
    the text after it. *)
Fixpoint find_pair (a b : ascii) (s : string) : option (string * string) :=
  match s with
  | EmptyString => None
  | String x s' =>
      match s' with
      | String y s'' => if decide (x = a /\ y = b) then Some (EmptyString, s'')
                        else '(before, after) ← find_pair a b s'; Some (String x before, after)
      | EmptyString => None
      end
  end.

Definition tail (s : string) : string := match s with String _ s' => s' | EmptyString => EmptyString end.

(** ** Environment variables *)

Definition DOLLAR : ascii := chr 36.

(** The sizes of [startStr], [endStr] and [envVar]. *)
Definition PART_SIZE : Z := 4096.
Definition VAR_SIZE : Z := 1024.

(** The [while] loop of [strReplaceEnvironmentVariable], with the characters that
    open and close a variable; the result [None] is NULL. *)
Fixpoint env_loop (getenv : string -> option string) (op cl : ascii) (fuel : nat) (ret : string) : res (option string) :=
  match fuel with
  | O => Fail OutOfFuel
  | S fuel' =>
      match find_pair DOLLAR op ret with
      | None => Ok (Some ret)
      | Some (startStr, variableStart) =>
          match find_char cl variableStart with
          | None => Ok None
          | Some (envVar, endStr) =>
              if PART_SIZE <? len endStr + 1 then Fail InvalidDeref
              else if PART_SIZE <? len startStr + 1 then Ok None
              else if VAR_SIZE <? len envVar + 1 then Fail InvalidDeref
              else match getenv envVar with
                   | None => Ok None
                   | Some envValue => env_loop getenv op cl fuel' (startStr ++ envValue ++ tail endStr)%string
                   end
          end
      end
  end.

Definition strReplaceEnvironmentVariable (getenv : string -> option string) (fuel : nat) (value : option string)
  : res (option string) :=
  match value with
  | None => Ok None
  | Some value =>
      match find_char DOLLAR value with
      | None => Ok None
      | Some _ =>
          match find_pair DOLLAR (chr 40) value with
          | Some _ => env_loop getenv (chr 40) (chr 41) fuel value
          | None => env_loop getenv (chr 123) (chr 125) fuel value
          end
      end
  end.

(** ** Booleans *)

Definition strtobool (s : option string) : bool :=
  match s with
  | None => false
  | Some s =>
      if len s =? 0 then false
      else if len s =? 1 then bool_decide (s ∈ ["1"; "y"; "Y"; "t"; "T"]%string)
      else bool_decide (s ∈ ["true"; "True"; "TRUE"; "yes"; "Yes"; "YES"]%string)
  end.

(** ** Versions *)

Definition VERSION_INFO_STR_MAX : Z := 64.
Definition VERSION_INFO_EXTRA_MAX : Z := 16.

Record versionInfo : Type := mkVersion { mMajor : Z; mMinor : Z; mRelease : Z; mExtra : string }.

Definition is_digit (c : ascii) : bool := (48 <=? code c) && (code c <=? 57).

(** [strtok] with the delimiter "." : the next token and what follows it. *)
Fixpoint strtok (s : string) : option (string * string) :=
  match s with
  | EmptyString => None
  | String c s' => if code c =? 46 then strtok s'
                   else match find_char (chr 46) s with
                        | Some (token, rest) => Some (token, tail rest)
                        | None => Some (s, EmptyString)
                        end
  end.

(** The digits a token starts with, and the rest. *)
Fixpoint split_digits (s : string) : string * string :=
  match s with
  | String c s' => if is_digit c then let '(d, r) := split_digits s' in (String c d, r) else (EmptyString, s)
  | EmptyString => (EmptyString, EmptyString)
  end.

Fixpoint skip_nondigits (s : string) : option string :=
  match s with
  | EmptyString => None
  | String c s' => if is_digit c then Some s else skip_nondigits s'
  end.

(** [atoi]. *)
Definition atoi_token (s : string) : Z := i32 (strtol s).

(** The first [n] characters. *)
Fixpoint take_string (n : nat) (s : string) : string :=
  match n, s with
  | S n', String c s' => String c (take_string n' s')
  | _, _ => EmptyString
  end.

(** The loop over at most three tokens: the result and the version. *)
Definition read_version (s : string) : Z * versionInfo :=
  match strtok s with
  | None => (0, mkVersion 0 0 0 "")
  | Some (t1, s) =>
      match strtok s with
      | None => (0, mkVersion (atoi_token t1) 0 0 "")
      | Some (t2, s) =>
          match strtok s with
          | None => (0, mkVersion (atoi_token t1) (atoi_token t2) 0 "")
          | Some (t3, _) =>
              let '(d, extra) := split_digits t3 in
              (1, mkVersion (atoi_token t1) (atoi_token t2) (atoi_token d)
                    (take_string (Z.to_nat (VERSION_INFO_EXTRA_MAX - 1)) extra))
          end
      end
  end.

(** [strcpy] into [copy] needs room for the terminator. *)
Definition strToVersionInfo (s : option string) : res (Z * versionInfo) :=
  match s with
  | None => Ok (0, mkVersion 0 0 0 "")
  | Some s =>
      if (len s =? 0) || (VERSION_INFO_STR_MAX <? len s) then Ok (0, mkVersion 0 0 0 "")
      else if VERSION_INFO_STR_MAX <? len s + 1 then Fail InvalidDeref
      else match skip_nondigits s with
           | None => Ok (0, mkVersion 0 0 0 "")
           | Some v => Ok (read_version v)
           end
  end.

(** ** What [take_string] gives *)

Lemma take_string_short n s : (String.length s <= n)%nat -> take_string n s = s.
Proof. revert n. induction s as [|c s IH]; intros [|n] Hn; cbn in *; try done; [lia|]. by rewrite IH by lia. Qed.

Lemma length_take_string n s : (String.length (take_string n s) <= n)%nat.
Proof. revert n. induction s as [|c s IH]; intros [|n]; cbn; try lia. specialize (IH n). lia. Qed.

Lemma take_string_app s t : take_string (String.length s) (s ++ t) = s.
Proof. induction s as [|c s IH]; [by destruct t|]. rewrite string_app_cons. cbn. by rewrite IH. Qed.

End StrUtils.
