(* ===== verification/StrUtilsProps.v ===== *)
(** * String utilities: what configuration relies on

    Environment variables are replaced by their values, unless a value names a
    variable itself, and versions are read as they are written. *)

From S2P Require Import Prelude Cstdio Text StrUtils.
From Stdlib Require Import Ascii String.
From stdpp Require Import strings.
#[local] Open Scope Z_scope.
Import Cstdio StrUtils.

(** ** Searching *)

Lemma not_char_neq x c : not_char x c = true -> c <> x.
Proof. unfold not_char. intros H ->. by rewrite Ascii.eqb_refl in H. Qed.

Lemma find_char_here c s t : sall (not_char c) s = true -> find_char c (s ++ String c t) = Some (s, String c t).
Proof.
  induction s as [|x s IH]; intros H; [change (EmptyString ++ ?x)%string with x; cbn [find_char]; by rewrite decide_True|]. cbn in H. apply andb_prop in H as [Hx H].
  rewrite string_app_cons. cbn [find_char]. rewrite decide_False by (by apply not_char_neq in Hx). by rewrite IH.
Qed.

Lemma find_char_none c s : sall (not_char c) s = true -> find_char c s = None.
Proof.
  induction s as [|x s IH]; intros H; [done|]. cbn in H. cbn [find_char]. apply andb_prop in H as [Hx H].
  rewrite decide_False by (by apply not_char_neq in Hx). by rewrite IH.
Qed.

Lemma find_pair_here a b s t :
  sall (not_char a) s = true -> find_pair a b (s ++ String a (String b t)) = Some (s, t).
Proof.
  induction s as [|x s IH]; intros H; [change (EmptyString ++ ?x)%string with x; cbn [find_pair]; by rewrite decide_True|]. cbn in H. apply andb_prop in H as [Hx H].
  rewrite string_app_cons. specialize (IH H). cbn [find_pair].
  destruct (s ++ String a (String b t))%string as [|y r] eqn:E; [by destruct s|].
  rewrite decide_False by (intros [-> _]; by apply not_char_neq in Hx). by rewrite IH.
Qed.

Lemma find_pair_none a b s : sall (not_char a) s = true -> find_pair a b s = None.
Proof.
  induction s as [|x s IH]; intros H; [done|]. cbn in H. apply andb_prop in H as [Hx H]. specialize (IH H). cbn [find_pair].
  destruct s as [|y r]; [done|]. rewrite decide_False by (intros [-> _]; by apply not_char_neq in Hx). by rewrite IH.
Qed.

(** ** Environment variables *)

(** A value as text with variables in it, each with the text before it. *)
Fixpoint render (op cl : ascii) (l : list (string * string)) (rest : string) : string :=
  match l with
  | [] => rest
  | (text, name) :: l' => text ++ String DOLLAR (String op (name ++ String cl (render op cl l' rest)))
  end.

(** The value with the variables replaced. *)
Fixpoint substitute (getenv : string -> option string) (l : list (string * string)) (rest : string) : string :=
  match l with
  | [] => rest
  | (text, name) :: l' => text ++ default ""%string (getenv name) ++ substitute getenv l' rest
  end.

Definition no_dollar (s : string) : Prop := sall (not_char DOLLAR) s = true.

(** The variables are set, to values that mention no variable. *)
Definition variables_ok (getenv : string -> option string) (cl : ascii) (l : list (string * string)) : Prop :=
  Forall (fun '(text, name) => no_dollar text /\ sall (not_char cl) name = true /\ len name < 1023 /\
    exists v, getenv name = Some v /\ no_dollar v) l.

Lemma len_app (s t : string) : len (s ++ t) = len s + len t.
Proof. unfold len. rewrite length_sapp. lia. Qed.

Lemma len_cons c (s : string) : len (String c s) = len s + 1.
Proof. unfold len. cbn [String.length]. lia. Qed.

Lemma len_nonneg s : 0 <= len s.
Proof. unfold len. lia. Qed.

Lemma no_dollar_app s t : no_dollar s -> no_dollar t -> no_dollar (s ++ t).
Proof. unfold no_dollar. intros Hs Ht. by rewrite sall_app, Hs, Ht. Qed.

Lemma env_loop_substitutes getenv op cl rest : no_dollar rest -> forall l fuel pre,
  no_dollar pre -> variables_ok getenv cl l -> (length l < fuel)%nat ->
  len (render op cl l rest) < 4095 -> len (pre ++ substitute getenv l rest) < 4095 ->
  env_loop getenv op cl fuel (pre ++ render op cl l rest) = Ok (Some (pre ++ substitute getenv l rest)%string).
Proof.
  intros Hrest. induction l as [|[text name] l IH]; intros fuel pre Hpre Hl Hf Hr Hs; destruct fuel as [|fuel]; cbn [length] in Hf; try lia.
  - cbn [render substitute env_loop]. by rewrite find_pair_none by (by apply no_dollar_app).
  - apply Forall_cons in Hl as [(Ht & Hn & Hlen & v & Hv & Hvd) Hl]. cbn [render substitute] in *. rewrite Hv in *. cbn [default from_option] in *.
    unfold Datatypes.id in *. cbn [env_loop]. rewrite <- string_app_assoc, find_pair_here by (by apply no_dollar_app).
    rewrite find_char_here by done. cbn [tail]. rewrite !len_app, !len_cons, !len_app, len_cons in Hr. rewrite !len_app in Hs.
    pose proof (len_nonneg text). pose proof (len_nonneg name). pose proof (len_nonneg (substitute getenv l rest)). pose proof (len_nonneg v).
    pose proof (len_nonneg (render op cl l rest)). pose proof (len_nonneg pre).
    rewrite len_cons, len_app. unfold PART_SIZE, VAR_SIZE.
    destruct (Z.ltb_spec 4096 (len (render op cl l rest) + 1 + 1)); [lia|].
    destruct (Z.ltb_spec 4096 (len pre + len text + 1)); [lia|]. destruct (Z.ltb_spec 1024 (len name + 1)); [lia|].
    rewrite Hv. rewrite <- (string_app_assoc (pre ++ text) v). rewrite IH; [by rewrite !string_app_assoc| | |lia|lia|]; try done.
    + by repeat apply no_dollar_app.
    + rewrite !len_app. lia.
Qed.

(** The opening characters are not confused: with [$(] the braces are text. *)
Definition opens (op cl : ascii) (l : list (string * string)) : Prop :=
  (op = chr 40 /\ cl = chr 41) \/
  (op = chr 123 /\ cl = chr 125 /\ Forall (fun '(_, name) => no_dollar name) l).

Lemma find_dollar_render op cl text name l rest :
  no_dollar text -> exists r, find_char DOLLAR (render op cl ((text, name) :: l) rest) = Some r.
Proof. intros Ht. cbn [render]. rewrite find_char_here by done. eauto. Qed.

(** No [$(] where the variables are in braces. *)
Lemma braces_no_paren l rest :
  no_dollar rest -> Forall (fun '(text, name) => no_dollar text /\ no_dollar name) l ->
  find_pair DOLLAR (chr 40) (render (chr 123) (chr 125) l rest) = None.
Proof.
  intros Hr Hl.
  assert (forall s t, no_dollar s -> find_pair DOLLAR (chr 40) t = None -> find_pair DOLLAR (chr 40) (s ++ t) = None) as Hskip.
  { intros s t Hs Ht. induction s as [|x s IH]; [done|]. cbn in Hs. unfold no_dollar in Hs. cbn in Hs. apply andb_prop in Hs as [Hx Hs].
    rewrite string_app_cons. cbn [find_pair]. destruct (s ++ t)%string as [|y r] eqn:E; [done|].
    rewrite decide_False by (intros [-> _]; by apply not_char_neq in Hx). by rewrite (IH Hs). }
  induction Hl as [|[text name] l [Ht Hn] _ IH]; cbn [render]; [by apply find_pair_none|].
  apply Hskip; [done|]. change (String DOLLAR (String (chr 123) ?x)) with (String DOLLAR (String (chr 123) EmptyString ++ x)).
  assert (find_pair DOLLAR (chr 40) (String (chr 123) EmptyString ++ name ++ String (chr 125) (render (chr 123) (chr 125) l rest)) = None) as E.
  { apply Hskip; [done|]. apply Hskip; [done|]. apply (Hskip (String (chr 125) EmptyString)); [done|exact IH]. }
  cbn [find_pair]. rewrite string_app_cons in E |- *. rewrite decide_False by (intros [_ ?]; done). by rewrite E.
Qed.

(** ** Versions *)

Lemma put_d_digits n : 0 <= n -> sall is_digit (put_d n EmptyString) = true.
Proof.
  intros Hn. unfold put_d, put_u. destruct (Z.ltb_spec n 0); [lia|].
  assert (forall fuel n s, sall is_digit s = true -> sall is_digit (put_digits fuel 10 n s) = true) as HG; [|by apply HG].
  induction fuel as [|fuel IH]; intros k s Hs; [done|]. cbn [put_digits].
  assert (sall is_digit (String (digit_char (k `mod` 10)) s) = true) as H0.
  { cbn [sall]. rewrite Hs, andb_true_r. unfold is_digit. pose proof (Z.mod_pos_bound k 10 ltac:(lia)).
    unfold digit_char. destruct (Z.ltb_spec (k `mod` 10) 10); [|lia]. rewrite code_chr by lia.
    destruct (Z.leb_spec 48 (48 + k `mod` 10)), (Z.leb_spec (48 + k `mod` 10) 57); done || lia. }
  case_match; [done|by apply IH].
Qed.

Lemma digit_not_dot c : is_digit c = true -> not_char (chr 46) c = true /\ (code c =? 46) = false.
Proof.
  unfold is_digit, not_char. intros [H1 H2]%andb_prop. apply Z.leb_le in H1, H2. split; [|apply Z.eqb_neq; lia].
  apply negb_true_iff, Ascii.eqb_neq. intros ->. rewrite code_chr in H1; lia.
Qed.

(** A token of digits, up to the next dot or the end. *)
Lemma strtok_digits d t : sall is_digit d = true -> d <> EmptyString -> strtok (d ++ String (chr 46) t) = Some (d, t).
Proof.
  intros Hd Hne. destruct d as [|c d]; [done|]. rewrite string_app_cons. cbn [strtok]. pose proof Hd as Hd'. cbn in Hd'.
  apply andb_prop in Hd' as [Hc _]. destruct (digit_not_dot c Hc) as [_ ->].
  rewrite <- string_app_cons, find_char_here; [done|]. eapply sall_impl; [|exact Hd]. intros x Hx. by apply digit_not_dot.
Qed.

Lemma split_digits_app d e :
  sall is_digit d = true -> match e with String c _ => is_digit c = false | EmptyString => True end ->
  split_digits (d ++ e) = (d, e).
Proof.
  intros Hd He. induction d as [|c d IH]; [destruct e as [|c e]; [done|]; change (EmptyString ++ ?x)%string with x; cbn [split_digits]; by rewrite He|].
  cbn in Hd. apply andb_prop in Hd as [Hc Hd]. rewrite string_app_cons. cbn [split_digits]. by rewrite Hc, IH.
Qed.

Lemma skip_nondigits_app p d t :
  sall (fun c => negb (is_digit c)) p = true -> sall is_digit d = true -> d <> EmptyString ->
  skip_nondigits (p ++ d ++ t) = Some (d ++ t)%string.
Proof.
  intros Hp Hd Hne. induction p as [|c p IH].
  - destruct d as [|c d]; [done|]. cbn in Hd. apply andb_prop in Hd as [Hc _].
    change (EmptyString ++ ?x)%string with x. rewrite string_app_cons. cbn [skip_nondigits]. by rewrite Hc.
  - cbn in Hp. apply andb_prop in Hp as [Hc Hp]. apply negb_true_iff in Hc. rewrite string_app_cons. cbn [skip_nondigits]. by rewrite Hc, IH.
Qed.

Lemma take_string_all n s : (String.length s <= n)%nat -> take_string n s = s.
Proof. revert n. induction s as [|c s IH]; intros [|n] H; cbn in *; try done; try lia. rewrite IH; [done|lia]. Qed.

Lemma atoi_token_put n : 0 <= n < 2 ^ 31 -> atoi_token (put_d n EmptyString) = n.
Proof. intros Hn. unfold atoi_token. rewrite strtol_put_d by (unfold in_s; lia). by apply i32_small; lia. Qed.

(** A version as it is written, after a prefix without digits. *)
Definition version_text (prefix : string) (v : versionInfo) : string :=
  prefix ++ put_d (mMajor v) (String (chr 46) (put_d (mMinor v) (String (chr 46) (put_d (mRelease v) (mExtra v))))).

Definition version_ok (v : versionInfo) : Prop :=
  (0 <= mMajor v < 2 ^ 31 /\ 0 <= mMinor v < 2 ^ 31 /\ 0 <= mRelease v < 2 ^ 31) /\
  sall (not_char (chr 46)) (mExtra v) = true /\ (String.length (mExtra v) <= 15)%nat /\
  match mExtra v with String c _ => is_digit c = false | EmptyString => True end.

(** The last token: nothing of it is a dot. *)
Lemma strtok_last s : sall (not_char (chr 46)) s = true -> s <> EmptyString -> strtok s = Some (s, EmptyString).
Proof.
  intros H Hne. destruct s as [|c s]; [done|]. cbn [strtok].
  destruct (Z.eqb_spec (code c) 46) as [E|_]; [|by rewrite find_char_none].
  cbn in H. apply andb_prop in H as [H _]. apply not_char_neq in H. destruct H.
  rewrite <- (ascii_nat_embedding c). unfold chr, code in *. f_equal. lia.
Qed.

(** ** Claims *)

(** environment variables are replaced by their values.  In a value with
    variables in parentheses or in braces, all of them set to values without a
    dollar sign and everything within the sizes of the buffers, each variable
    becomes its value and the rest stays as it is, in as many rounds as there
    are variables. *)
Theorem environment_expansion getenv op cl text name l rest fuel :
  let l := (text, name) :: l in
  opens op cl l -> no_dollar rest -> variables_ok getenv cl l -> (length l < fuel)%nat ->
  len (render op cl l rest) < 4095 -> len (substitute getenv l rest) < 4095 ->
  strReplaceEnvironmentVariable getenv fuel (Some (render op cl l rest)) = Ok (Some (substitute getenv l rest)).
Proof.
  intros l' Hop Hr Hv Hf H1 H2. unfold strReplaceEnvironmentVariable.
  assert (no_dollar text) as Ht by (apply Forall_cons in Hv as [(? & _) _]; done).
  destruct (find_dollar_render op cl text name l rest Ht) as [r Er]. fold l' in Er. rewrite Er.
  pose proof (env_loop_substitutes getenv op cl rest Hr l' fuel EmptyString eq_refl Hv Hf H1 H2) as E.
  change (EmptyString ++ ?x)%string with x in E. destruct Hop as [[-> ->]|(-> & -> & Hn)].
  - unfold l' at 1. cbn [render]. rewrite find_pair_here by done. exact E.
  - rewrite braces_no_paren; [exact E|done|]. unfold variables_ok in Hv. rewrite Forall_forall in Hv, Hn |- *. intros [x y] Hxy.
    destruct (Hv _ Hxy) as [? _]. split; [done|]. exact (Hn _ Hxy).
Qed.

(** a variable whose value mentions the variable is never resolved.  The
    result is searched again from its start, so that the replacement goes round
    for ever (until memory is exhausted, where the value is longer than the
    variable). *)
Theorem self_reference_never_returns getenv name fuel :
  sall (not_char (chr 41)) name = true -> len name < 1000 ->
  getenv name = Some (render (chr 40) (chr 41) [(EmptyString, name)] EmptyString) ->
  strReplaceEnvironmentVariable getenv fuel (Some (render (chr 40) (chr 41) [(EmptyString, name)] EmptyString)) = Fail OutOfFuel.
Proof.
  intros Hn Hl Hg. set (v := render _ _ _ _) in *. assert (find_pair DOLLAR (chr 40) v = Some (EmptyString, name ++ String (chr 41) EmptyString)%string) as E1
    by (unfold v; cbn [render]; by apply (find_pair_here _ _ EmptyString)).
  assert (find_char DOLLAR v <> None) as E2.
  { unfold v. destruct (find_dollar_render (chr 40) (chr 41) EmptyString name [] EmptyString eq_refl) as [r ->]. done. }
  unfold strReplaceEnvironmentVariable. destruct (find_char DOLLAR v) as [r|]; [|done]. rewrite E1.
  induction fuel as [|fuel IH]; [done|]. cbn [env_loop]. rewrite E1, find_char_here by done.
  unfold PART_SIZE, VAR_SIZE. rewrite len_cons. change (len EmptyString) with 0.
  destruct (Z.ltb_spec 1024 (len name + 1)); [lia|]. cbn [Z.add Z.ltb Z.compare Pos.compare Pos.compare_cont]. rewrite Hg. cbn [tail].
  change (EmptyString ++ ?x)%string with x. rewrite string_app_nil. exact IH.
Qed.

(** versions are read as they are written: three numbers and, after the
    third, anything that does not start with a digit, after any prefix without
    digits. *)
Theorem version_round_trip prefix v :
  version_ok v -> sall (fun c => negb (is_digit c)) prefix = true -> len (version_text prefix v) < 64 ->
  strToVersionInfo (Some (version_text prefix v)) = Ok (1, v).
Proof.
  intros ((H1 & H2 & H3) & Hdot & Hlen & Hx) Hp Hl. unfold strToVersionInfo, VERSION_INFO_STR_MAX.
  assert (0 < len (version_text prefix v)) as Hpos.
  { unfold version_text. rewrite len_app, put_d_front, len_app, len_cons. pose proof (len_nonneg prefix).
    pose proof (len_nonneg (put_d (mMajor v) EmptyString)).
    pose proof (len_nonneg (put_d (mMinor v) (String (chr 46) (put_d (mRelease v) (mExtra v))))). lia. }
  destruct (Z.eqb_spec (len (version_text prefix v)) 0); [lia|].
  destruct (Z.ltb_spec 64 (len (version_text prefix v))); [lia|]. destruct (Z.ltb_spec 64 (len (version_text prefix v) + 1)); [lia|].
  cbn [orb]. unfold version_text. rewrite (put_d_front (mMajor v)), skip_nondigits_app; [|done|by apply put_d_digits; lia|apply put_d_nonempty].
  unfold read_version. rewrite strtok_digits; [|by apply put_d_digits; lia|apply put_d_nonempty].
  rewrite (put_d_front (mMinor v)), strtok_digits; [|by apply put_d_digits; lia|apply put_d_nonempty].
  rewrite (put_d_front (mRelease v)). pose proof (put_d_digits (mRelease v) ltac:(lia)) as Hd.
  rewrite strtok_last.
  - rewrite split_digits_app by done. rewrite !atoi_token_put by lia. rewrite take_string_all by done. by destruct v.
  - rewrite sall_app, Hdot, andb_true_r. eapply sall_impl; [|exact Hd]. intros c Hc. by apply digit_not_dot.
  - pose proof (put_d_nonempty (mRelease v)). by destruct (put_d (mRelease v) EmptyString).
Qed.

(** ** Witnesses *)

Definition demo_env (name : string) : option string :=
  if decide (name = "HOME"%string) then Some "/home/mama"%string
  else if decide (name = "LOOP"%string) then Some "$(LOOP)"%string else None.

Lemma environment_expansion_witness :
  strReplaceEnvironmentVariable demo_env 3 (Some "a=$(HOME)/x:$(HOME)"%string) = Ok (Some "a=/home/mama/x:/home/mama"%string).
Proof.
  apply (environment_expansion demo_env (chr 40) (chr 41) "a=" "HOME" [("/x:", "HOME")]%string "" 3);
    [by left|reflexivity| |cbn; lia|reflexivity|reflexivity].
  repeat constructor; by exists "/home/mama"%string.
Defined.

Lemma self_reference_never_returns_witness :
  strReplaceEnvironmentVariable demo_env 50 (Some "$(LOOP)"%string) = Fail OutOfFuel.
Proof. apply (self_reference_never_returns demo_env "LOOP" 50); reflexivity. Defined.

Lemma version_round_trip_witness : strToVersionInfo (Some "proton-2.3.14rc1"%string) = Ok (1, mkVersion 2 3 14 "rc1").
Proof.
  apply (version_round_trip "proton-" (mkVersion 2 3 14 "rc1")); [|reflexivity|reflexivity].
  split_and!; cbn; done || lia.
Defined.
