(* ===== verification/PropertiesLexer.v ===== *)
(** * The lexer of properties files (common/c_cpp/src/c/properties.l)

    The rules of the lexer and how flex chooses among them: of the rules that are
    active in the start condition the longest match wins, and the first rule
    among equally long matches; a character that no rule matches is echoed.  A
    match is therefore never empty.  Start condition, key and value are global:
    they survive the end of the input.

    The lexer is independent of the table it fills: its result is the sequence
    of the properties it adds. *)

From S2P Require Import Prelude Cstdio Text.
From Stdlib Require Import Ascii String.
From stdpp Require Import strings.
#[local] Open Scope Z_scope.
Import Cstdio.

Module PropertiesLexer.

Definition NL : ascii := chr 10.
Definition CR : ascii := chr 13.
Definition SPACE : ascii := chr 32.
Definition SLASH : ascii := chr 92.

Definition one_of (l : list ascii) (c : ascii) : bool := existsb (Ascii.eqb c) l.

(** The character classes of the rules. *)
Definition ws : ascii -> bool := one_of [SPACE; TAB].
Definition separator : ascii -> bool := one_of [chr 58; chr 61].
Definition comment_char : ascii -> bool := one_of [chr 35; chr 33].
Definition key_char (c : ascii) : bool := negb (one_of [SPACE; TAB; chr 58; chr 61; CR; NL; SLASH] c).
Definition value_char (c : ascii) : bool := negb (one_of [SLASH; CR; NL; SPACE; TAB] c).

(** Start conditions. *)
Inductive condition : Type := INITIAL | key | value.

Record lexer : Type := mkLexer { start : condition; curKey : option string; curValue : option string }.

Definition clean : lexer := mkLexer INITIAL None None.

(** What the actions do outside the lexer: [propertiesImpl_AddProperty] and the
    default action. *)
Inductive action : Type := Add (k v : option string) | Echo (c : ascii).

(** ** Matching *)

(** The length of the run of characters of a class. *)
Fixpoint span (p : ascii -> bool) (s : string) : nat :=
  match s with String c s' => if p c then S (span p s') else O | EmptyString => O end.

Fixpoint sskip (n : nat) (s : string) : string :=
  match n, s with S n', String _ s' => sskip n' s' | _, _ => s end.
Fixpoint sfirst (n : nat) (s : string) : string :=
  match n, s with S n', String c s' => String c (sfirst n' s') | _, _ => EmptyString end.

(** [{NEWLINE}]: a line feed, or a carriage return and a line feed. *)
Definition newline_len (s : string) : nat :=
  match s with
  | String c s' => if Ascii.eqb c NL then 1
                   else match s' with
                        | String d _ => if Ascii.eqb c CR && Ascii.eqb d NL then 2 else 0
                        | EmptyString => 0
                        end
  | EmptyString => 0
  end.

Inductive rule : Type :=
| Comment | Blank | LeadingSpace | KeyText | Assignment | ValueText | Continuation | EndOfValue | KeyEscape | ValueEscape | Default.

Definition in_key (st : condition) : bool := match st with INITIAL | key => true | value => false end.
Definition in_value (st : condition) : bool := match st with value => true | _ => false end.

(** The length of the match of a rule, 0 if there is none (or only an empty one);
    [bol]: at the beginning of a line. *)
Definition match_len (bol : bool) (st : condition) (s : string) (r : rule) : nat :=
  match r with
  | Comment =>
      match st, bol, s with
      | INITIAL, true, String c s' =>
          let n := span (not_char NL) s' in
          if comment_char c && negb (String.eqb (sskip n s') EmptyString) then S (S n) else 0
      | _, _, _ => 0
      end
  | Blank =>
      match st, bol with
      | INITIAL, true => let n := span ws s in
                         match newline_len (sskip n s) with O => 0 | k => n + k end
      | _, _ => 0
      end
  | LeadingSpace => if bol then span ws s else 0
  | KeyText => if in_key st then span key_char s else 0
  | Assignment =>
      match st with
      | key => let n := span ws s in
               match sskip n s with
               | String c s' => if separator c then n + S (span ws s') else n
               | EmptyString => n
               end
      | _ => 0
      end
  | ValueText => if in_value st then span value_char s else 0
  | Continuation =>
      match st, s with
      | value, String c s' => if Ascii.eqb c SLASH then
                                match newline_len s' with O => 0 | k => S k + span ws (sskip k s') end
                              else 0
      | _, _ => 0
      end
  | EndOfValue => if in_value st then newline_len s else 0
  | KeyEscape | ValueEscape =>
      match s with
      | String c (String d _) =>
          if Ascii.eqb c SLASH && negb (Ascii.eqb d NL) && (match r with KeyEscape => in_key st | _ => in_value st end) then 2 else 0
      | _ => 0
      end
  | Default => match s with EmptyString => 0 | _ => 1 end
  end%nat.

Definition rules : list rule :=
  [Comment; Blank; LeadingSpace; KeyText; Assignment; ValueText; Continuation; EndOfValue; KeyEscape; ValueEscape; Default].

(** The longest match, the first of the longest. *)
Definition pick (bol : bool) (st : condition) (s : string) : rule * nat :=
  foldl (fun best r => let n := match_len bol st s r in if (best.2 <? n)%nat then (r, n) else best) (Default, O) rules.

(** ** Actions *)

Definition concatString (dest : option string) (s : string) : string := (default ""%string dest ++ s)%string.

Definition escape_char (c : ascii) : ascii :=
  if Ascii.eqb c (chr 110) then NL else if Ascii.eqb c (chr 114) then CR else if Ascii.eqb c (chr 116) then TAB else c.

Definition concatEscape (toWhat : option string) (escape : ascii) : string :=
  concatString toWhat (String (escape_char escape) EmptyString).

(** [yytext[1]]. *)
Definition second (s : string) : ascii := match s with String _ (String d _) => d | _ => NUL end.

Definition act (r : rule) (yytext : string) (z : lexer) : lexer * list action :=
  match r with
  | Comment | Blank | LeadingSpace | Continuation => (z, [])
  | KeyText => (mkLexer key (Some (concatString (curKey z) yytext)) (curValue z), [])
  | Assignment => (mkLexer value (curKey z) (curValue z), [])
  | ValueText => (mkLexer (start z) (curKey z) (Some (concatString (curValue z) yytext)), [])
  | EndOfValue => (clean, [Add (curKey z) (curValue z)])
  | KeyEscape => (mkLexer key (Some (concatEscape (curKey z) (second yytext))) (curValue z), [])
  | ValueEscape => (mkLexer (start z) (curKey z) (Some (concatEscape (curValue z) (second yytext))), [])
  | Default => (z, match yytext with String c _ => [Echo c] | EmptyString => [] end)
  end.

(** [<<EOF>>]. *)
Definition at_end (z : lexer) : lexer * list action :=
  match curKey z, curValue z with
  | Some k, Some v => (clean, [Add (Some k) (Some v)])
  | _, _ => (z, [])
  end.

Fixpoint last_is_nl (s : string) : bool :=
  match s with
  | EmptyString => false
  | String c EmptyString => Ascii.eqb c NL
  | String _ s' => last_is_nl s'
  end.

(** [yylex]: one match after the other; every match has at least one character,
    so that the length of the input is fuel enough. *)
Fixpoint scan_loop (fuel : nat) (bol : bool) (z : lexer) (s : string) : res (lexer * list action) :=
  match s with
  | EmptyString => Ok (at_end z)
  | _ =>
      match fuel with
      | O => Fail OutOfFuel
      | S fuel' =>
          let '(r, n) := pick bol (start z) s in
          let yytext := sfirst n s in
          let '(z', out) := act r yytext z in
          match scan_loop fuel' (last_is_nl yytext) z' (sskip n s) with
          | Ok (z'', out') => Ok (z'', out ++ out')
          | Fail f => Fail f
          end
      end
  end.

(** A new buffer is at the beginning of a line. *)
Definition yylex (z : lexer) (s : string) : res (lexer * list action) := scan_loop (String.length s) true z s.

End PropertiesLexer.
