(* ===== verification/PropertiesText.v ===== *)
(** * Properties as text

    The lexer always ends, and it reads back what [properties_AddEscapes]
    (common/c_cpp/src/c/property.c) wrote. *)

From S2P Require Import Prelude Cstdio Text PropertiesLexer.
From Stdlib Require Import Ascii String.
From stdpp Require Import strings.
#[local] Open Scope Z_scope.
Import Cstdio PropertiesLexer.

(** ** Termination *)

Lemma pick_positive bol st s : s <> EmptyString -> (0 < (pick bol st s).2)%nat.
Proof.
  intros Hs. unfold pick, rules.
  assert (forall l b, (0 < b.2 \/ Default ∈ l -> 0 < (foldl (fun best r => let n := match_len bol st s r in if best.2 <? n then (r, n) else best) b l).2)%nat) as HG.
  { induction l as [|r l IH]; intros b Hb; cbn [foldl]; [destruct Hb as [Hb|Hb]; [done|by apply elem_of_nil in Hb]|].
    apply IH. cbn zeta. destruct (Nat.ltb_spec b.2 (match_len bol st s r)) as [Hlt|Hge]; [left; cbn; lia|].
    destruct Hb as [Hb|Hb]; [by left|]. apply elem_of_cons in Hb as [<-|Hb]; [|by right].
    left. cbn in Hge. destruct s; [done|]. lia. }
  apply HG. right. set_solver.
Qed.

Lemma length_sskip n s : String.length (sskip n s) = (String.length s - n)%nat.
Proof. revert n. induction s as [|c s IH]; intros [|n]; cbn; done || apply IH. Qed.

(** More fuel than there are characters changes nothing. *)
Lemma scan_loop_fuel f : forall bol z s, (String.length s <= f)%nat ->
  scan_loop f bol z s = scan_loop (String.length s) bol z s.
Proof.
  induction f as [f IH] using lt_wf_ind. intros bol z s Hf. destruct s as [|c s]; [by destruct f|].
  destruct f as [|f]; [cbn in Hf; lia|]. cbn [String.length] in *.
  cbn [scan_loop]. pose proof (pick_positive bol (start z) (String c s) ltac:(done)) as Hp.
  destruct (pick bol (start z) (String c s)) as [r n]. cbn [snd] in Hp. destruct (act r _ z) as [z' out].
  assert (String.length (sskip n (String c s)) <= String.length s)%nat as Hl by (rewrite length_sskip; cbn; lia).
  rewrite (IH f ltac:(lia) _ _ (sskip n (String c s))) by lia.
  destruct (decide (String.length s = f)) as [->|Hne]; [by rewrite (IH f ltac:(lia) _ _ (sskip n (String c s))) by lia|].
  by rewrite (IH (String.length s) ltac:(lia) _ _ (sskip n (String c s))) by lia.
Qed.

Lemma scan_loop_ok f : forall bol z s, (String.length s <= f)%nat -> exists z' out, scan_loop f bol z s = Ok (z', out).
Proof.
  induction f as [f IH] using lt_wf_ind. intros bol z s Hf. destruct s as [|c s]; [destruct f; cbn; destruct (at_end z); eauto|].
  destruct f as [|f]; [cbn in Hf; lia|]. cbn [String.length] in *.
  cbn [scan_loop]. pose proof (pick_positive bol (start z) (String c s) ltac:(done)) as Hp.
  destruct (pick bol (start z) (String c s)) as [r n]. cbn [snd] in Hp. destruct (act r _ z) as [z' out].
  destruct (IH f ltac:(lia) (last_is_nl (sfirst n (String c s))) z' (sskip n (String c s))) as (z'' & out' & ->); [|eauto].
  rewrite length_sskip; cbn; lia.
Qed.

(** ** Runs of the lexer *)

(** Matches from one point of the input to another. *)
Inductive runs : bool -> lexer -> string -> list action -> bool -> lexer -> string -> Prop :=
| runs_refl bol z s : runs bol z s [] bol z s
| runs_step bol z s r n out bol' z' s' :
    s <> EmptyString -> pick bol (start z) s = (r, n) ->
    runs (last_is_nl (sfirst n s)) (act r (sfirst n s) z).1 (sskip n s) out bol' z' s' ->
    runs bol z s ((act r (sfirst n s) z).2 ++ out) bol' z' s'.

Lemma runs_trans bol z s out bol' z' s' out' bol'' z'' s'' :
  runs bol z s out bol' z' s' -> runs bol' z' s' out' bol'' z'' s'' -> runs bol z s (out ++ out') bol'' z'' s''.
Proof.
  induction 1 as [|bol z s r n out bol' z' s' Hs Hp _ IH]; intros R; [done|]. rewrite <- app_assoc.
  eapply runs_step; [done|done|by apply IH].
Qed.

(** A match whose action adds nothing. *)
Lemma runs_silent bol z s r n z1 out bol' z' s' :
  s <> EmptyString -> pick bol (start z) s = (r, n) -> act r (sfirst n s) z = (z1, []) ->
  runs (last_is_nl (sfirst n s)) z1 (sskip n s) out bol' z' s' -> runs bol z s out bol' z' s'.
Proof.
  intros Hs Hp Ha R. pose proof (runs_step bol z s r n out bol' z' s' Hs Hp) as H. rewrite Ha in H. by apply H.
Qed.

Lemma scan_runs bol z s out bol' z' s' :
  runs bol z s out bol' z' s' -> forall z'' out', scan_loop (String.length s') bol' z' s' = Ok (z'', out') ->
  scan_loop (String.length s) bol z s = Ok (z'', out ++ out').
Proof.
  induction 1 as [|bol z s r n out bol' z' s' Hs Hp R IH]; intros z'' out' E; [done|]. specialize (IH z'' out' E).
  destruct s as [|c s]; [done|]. cbn [String.length scan_loop]. rewrite Hp.
  pose proof (pick_positive bol (start z) (String c s) ltac:(done)) as Hn. rewrite Hp in Hn. cbn [snd] in Hn.
  destruct (act r (sfirst n (String c s)) z) as [z1 out1]. cbn [fst snd] in *.
  rewrite scan_loop_fuel by (rewrite length_sskip; cbn; lia). rewrite IH. by rewrite app_assoc.
Qed.

(** ** Escapes *)

(** [properties_AddEscapes] (property.c): a backslash before every character of
    the set. *)
Fixpoint properties_AddEscapes (chars : list ascii) (src : string) : string :=
  match src with
  | EmptyString => EmptyString
  | String c s => if one_of chars c then String SLASH (String c (properties_AddEscapes chars s))
                  else String c (properties_AddEscapes chars s)
  end.

(** The sets that protect everything the lexer treats specially, and no letter
    that an escape turns into something else. *)
Definition escape_set (E : list ascii) : Prop :=
  (forall c, c ∈ [SLASH; SPACE; TAB; chr 58; chr 61; chr 35; chr 33] -> one_of E c = true) /\
  (forall c, one_of E c = true -> escape_char c = c).

(** Text without line ends. *)
Definition one_line (s : string) : bool := sall (fun c => not_char NL c && not_char CR c) s.

Section escapes.

Context (E : list ascii) (HE : escape_set E).

Definition plain (c : ascii) : bool := negb (one_of E c) && not_char NL c && not_char CR c.

Lemma one_of_spec l c : one_of l c = true <-> c ∈ l.
Proof.
  unfold one_of. rewrite existsb_exists. split.
  - intros (x & Hx & Heq). apply Ascii.eqb_eq in Heq as ->. by apply list_elem_of_In.
  - intros Hc. exists c. split; [by apply list_elem_of_In|apply Ascii.eqb_refl].
Qed.

Lemma one_of_false l c : (c ∈ l -> False) -> one_of l c = false.
Proof. intros H. apply not_true_is_false. by rewrite one_of_spec. Qed.

(** A plain character is none of the special ones. *)
Lemma plain_not c l : plain c = true -> Forall (fun d => d ∈ [SLASH; SPACE; TAB; chr 58; chr 61; chr 35; chr 33; NL; CR]) l ->
  one_of l c = false.
Proof.
  unfold plain. intros [[H1 H2]%andb_prop H3]%andb_prop Hl. apply one_of_false. intros Hc. rewrite Forall_forall in Hl.
  specialize (Hl c Hc). change ([SLASH; SPACE; TAB; chr 58; chr 61; chr 35; chr 33; NL; CR])
    with ([SLASH; SPACE; TAB; chr 58; chr 61; chr 35; chr 33] ++ [NL; CR]) in Hl. apply elem_of_app in Hl as [Hl|Hl].
  - apply (proj1 HE) in Hl. by rewrite Hl in H1.
  - apply elem_of_cons in Hl as [->|Hl]; [done|]. apply list_elem_of_singleton in Hl as ->. done.
Qed.

(** ** Text and its pieces *)

Lemma span_stop p s d t : sall p s = true -> p d = false -> span p (s ++ String d t) = String.length s.
Proof.
  intros Hs Hd. induction s as [|c s IH]; [change (EmptyString ++ ?x)%string with x; cbn; by rewrite Hd|]. cbn in Hs. apply andb_prop in Hs as [Hc Hs].
  rewrite string_app_cons. cbn [span String.length]. by rewrite Hc, IH.
Qed.

Lemma sfirst_app s t : sfirst (String.length s) (s ++ t) = s.
Proof. induction s as [|c s IH]; [by destruct t|]. rewrite string_app_cons. cbn. by rewrite IH. Qed.

Lemma sskip_app s t : sskip (String.length s) (s ++ t) = t.
Proof. induction s as [|c s IH]; [by destruct t|]. rewrite string_app_cons. cbn. exact IH. Qed.

Lemma escapes_app s t : properties_AddEscapes E (s ++ t) = (properties_AddEscapes E s ++ properties_AddEscapes E t)%string.
Proof.
  induction s as [|c s IH]; [done|]. rewrite string_app_cons. cbn [properties_AddEscapes].
  destruct (one_of E c); rewrite IH; by rewrite ?string_app_cons.
Qed.

Lemma escapes_plain s : sall plain s = true -> properties_AddEscapes E s = s.
Proof.
  induction s as [|c s IH]; [done|]. cbn. intros [Hc Hs]%andb_prop. unfold plain in Hc. apply andb_prop in Hc as [Hc _].
  apply andb_prop in Hc as [Hc _]. apply negb_true_iff in Hc. by rewrite Hc, IH.
Qed.

(** The plain text a text starts with; an escape follows, or nothing. *)
Lemma split_plain k : one_line k = true -> exists k1 k2, k = (k1 ++ k2)%string /\ sall plain k1 = true /\ one_line k2 = true /\
  (k2 = EmptyString \/ exists c k', k2 = String c k' /\ one_of E c = true).
Proof.
  induction k as [|c k IH]; intros H; [by exists EmptyString, EmptyString; auto|]. pose proof H as H'. unfold one_line in H'. cbn in H'.
  apply andb_prop in H' as [Hc Hk]. destruct (one_of E c) eqn:Ec.
  - exists EmptyString, (String c k). eauto 8.
  - destruct (IH Hk) as (k1 & k2 & -> & H1 & H2 & H3). exists (String c k1), k2. split_and!; try done.
    cbn. rewrite H1. unfold plain. by rewrite Ec, andb_true_r.
Qed.

(** ** What the lexer picks *)

Lemma pick_by f bol st s : (forall r, match_len bol st s r = f r) ->
  pick bol st s = foldl (fun best r => if (best.2 <? f r)%nat then (r, f r) else best) (Default, O) rules.
Proof.
  intros Hf. unfold pick. generalize (Default, O). induction rules as [|r l IH]; intros b; [done|]. cbn [foldl].
  by rewrite Hf, IH.
Qed.

Lemma newline_len_other c s : c <> NL -> c <> CR -> newline_len (String c s) = O.
Proof.
  intros H1 H2. cbn. apply Ascii.eqb_neq in H1, H2. rewrite H1, H2. by destruct s.
Qed.

(** The facts about a character that decide the rules. *)
Record char_facts (c : ascii) : Prop := {
  cf_ws : ws c = false; cf_sep : separator c = false; cf_comment : comment_char c = false;
  cf_nl : c <> NL; cf_cr : c <> CR;
}.

Lemma plain_facts c : plain c = true -> char_facts c /\ key_char c = true /\ value_char c = true /\ Ascii.eqb c SLASH = false.
Proof.
  intros Hc. assert (forall l, Forall (fun d => d ∈ [SLASH; SPACE; TAB; chr 58; chr 61; chr 35; chr 33; NL; CR]) l -> one_of l c = false) as H.
  { intros l. by apply plain_not. }
  split_and!.
  - split; [apply H; repeat constructor; set_solver..| |]; intros ->; unfold plain, not_char in Hc;
      by rewrite Ascii.eqb_refl, ?andb_false_r in Hc.
  - unfold key_char. rewrite H; [done|]. repeat constructor; set_solver.
  - unfold value_char. rewrite H; [done|]. repeat constructor; set_solver.
  - specialize (H [SLASH]). unfold one_of in H. cbn [existsb] in H. rewrite orb_false_r in H. apply H. repeat constructor; set_solver.
Qed.

Lemma slash_facts : char_facts SLASH.
Proof. by split. Qed.

(** Rules that need a blank, a line end, a separator or a comment sign. *)
Lemma other_rules bol st c s : char_facts c ->
  match_len bol st (String c s) Comment = O /\ match_len bol st (String c s) Blank = O /\
  match_len bol st (String c s) LeadingSpace = O /\ match_len bol st (String c s) Assignment = O /\
  match_len bol st (String c s) EndOfValue = O.
Proof.
  intros [H1 H2 H3 H4 H5]. pose proof (newline_len_other c s H4 H5) as Hn. cbn [match_len span sskip]. rewrite H1. cbn [sskip]. rewrite H2, H3. cbn [andb].
  rewrite Hn. split_and!; by destruct st, bol.
Qed.

Lemma pick_key_text bol st c s : in_key st = true -> plain c = true ->
  pick bol st (String c s) = (KeyText, S (span key_char s)).
Proof.
  intros Hst Hc. destruct (plain_facts c Hc) as (Hf & Hk & Hv & Hs). destruct (other_rules bol st c s Hf) as (R1 & R2 & R3 & R4 & R5).
  rewrite (pick_by (fun r => match r with KeyText => S (span key_char s) | Default => 1%nat | _ => 0%nat end)); [done|].
  intros []; try done; cbn [match_len span]; rewrite ?Hk, ?Hs, ?Hst; try done; destruct st; try done; by destruct s.
Qed.


Lemma pick_escape bol st d s : d <> NL -> d <> CR ->
  pick bol st (String SLASH (String d s)) = (if in_key st then KeyEscape else ValueEscape, 2%nat).
Proof.
  intros Hd Hr. destruct (other_rules bol st SLASH (String d s) slash_facts) as (R1 & R2 & R3 & R4 & R5).
  pose proof (newline_len_other d s Hd Hr) as Hn. apply Ascii.eqb_neq in Hd.
  rewrite (pick_by (fun r => match r with
     | KeyEscape => if in_key st then 2 else 0 | ValueEscape => if in_key st then 0 else 2 | Default => 1 | _ => 0 end%nat)); [by destruct st|].
  intros []; try done; cbn [match_len]; try rewrite Hd; try (by destruct st). cbn [Ascii.eqb]. destruct st; try done.
  change (Ascii.eqb SLASH SLASH) with true. by rewrite Hn.
Qed.

(** ** Keys, values and lines *)

Lemma last_is_nl_plain s : sall (fun c => not_char NL c && not_char CR c) s = true -> last_is_nl s = false.
Proof.
  induction s as [|c s IH]; [done|]. cbn [sall]. intros [Hc Hs]%andb_prop. specialize (IH Hs). destruct s; [|exact IH].
  cbn. apply andb_prop in Hc as [Hc _]. unfold not_char in Hc. by apply negb_true_iff in Hc.
Qed.

Lemma plain_one_line s : sall plain s = true -> last_is_nl s = false.
Proof.
  intros Hs. apply last_is_nl_plain. eapply sall_impl; [|exact Hs]. intros c Hc. unfold plain in Hc.
  apply andb_prop in Hc as [Hc H2]. apply andb_prop in Hc as [_ H1]. by rewrite H1, H2.
Qed.

Lemma escaped_char c : one_of E c = true -> one_line (String c EmptyString) = true ->
  escape_char c = c /\ c <> NL /\ c <> CR /\ Ascii.eqb c NL = false.
Proof.
  intros Hc Hl. unfold one_line in Hl. cbn [sall] in Hl. rewrite andb_true_r in Hl. unfold not_char in Hl.
  apply andb_prop in Hl as [H1 H2]. apply negb_true_iff in H1, H2. split_and!; [by apply HE| | |done]; intros ->.
  - by rewrite Ascii.eqb_refl in H1.
  - by rewrite Ascii.eqb_refl in H2.
Qed.

Lemma one_line_cons c s : one_line (String c s) = true -> one_line (String c EmptyString) = true /\ one_line s = true.
Proof. unfold one_line. cbn [sall]. intros [H1 H2]%andb_prop. by rewrite H1, H2. Qed.

(** Collecting text, of a key or of a value: [cls] are the characters the rule
    [rt] takes, [re] is the rule for escapes; [holds x z]: the lexer is about to
    continue the text [x]; [put x]: it has collected [x]. *)
Section collecting.

Context (cls : ascii -> bool) (stop : ascii) (rt re : rule) (holds : string -> bool -> lexer -> Prop) (put : string -> lexer).
Hypothesis Hcls : forall c, plain c = true -> cls c = true.
Hypothesis Hstop : cls stop = false /\ cls SLASH = false.
Hypothesis Hput : forall x, holds x false (put x).
Hypothesis Htext : forall x bol z c s, holds x bol z -> plain c = true -> pick bol (start z) (String c s) = (rt, S (span cls s)).
Hypothesis Hescape : forall x bol z c s, holds x bol z -> c <> NL -> c <> CR -> pick bol (start z) (String SLASH (String c s)) = (re, 2%nat).
Hypothesis Hact : forall x bol z y c, holds x bol z ->
  act rt y z = (put (x ++ y)%string, []) /\ act re (String SLASH (String c EmptyString)) z = (put (x ++ String (escape_char c) EmptyString)%string, []).

Lemma text_runs : forall n k x bol z t, (String.length k <= n)%nat -> one_line k = true -> k <> EmptyString -> holds x bol z ->
  runs bol z (properties_AddEscapes E k ++ String stop t) [] false (put (x ++ k)%string) (String stop t).
Proof.
  induction n as [n IH] using lt_wf_ind. intros k x bol z t Hn Hl Hk Hz.
  assert (forall k2 x' bol', (String.length k2 < String.length k)%nat -> one_line k2 = true -> bol' = false ->
    runs bol' (put x') (properties_AddEscapes E k2 ++ String stop t) [] false (put (x' ++ k2)%string) (String stop t)) as Hrest.
  { intros k2 x' bol' Hlt Hl2 ->. destruct k2 as [|c2 k2]; [rewrite string_app_nil; apply runs_refl|].
    by apply (IH (String.length (String c2 k2)) ltac:(lia)). }
  destruct k as [|c k]; [done|]. destruct (one_line_cons c k Hl) as [Hl1 Hl2]. destruct (one_of E c) eqn:Ec.
  - destruct (escaped_char c Ec Hl1) as (Hesc & Hnl & Hcr & Hb). cbn [properties_AddEscapes]. rewrite Ec, !string_app_cons.
    destruct (Hact x bol z EmptyString c Hz) as [_ Ha].
    eapply runs_silent; [done|by eapply Hescape|exact Ha|]. cbn [sfirst sskip last_is_nl]. rewrite Hesc, Hb.
    rewrite <- (string_app_assoc x (String c EmptyString) k : _ = (x ++ String c k)%string). apply Hrest; [cbn; lia|done|done].
  - destruct (split_plain (String c k) Hl) as (k1 & k2 & Ek & H1 & H2 & H3).
    destruct k1 as [|c1 k1]. { destruct H3 as [->|(c' & k' & -> & Hc')]; [done|]. change (EmptyString ++ ?x)%string with x in Ek. congruence. }
    rewrite Ek, escapes_app, (escapes_plain (String c1 k1)) by done. pose proof H1 as Hp. cbn [sall] in H1. apply andb_prop in H1 as [Hc1 H1].
    assert (exists d r, (properties_AddEscapes E k2 ++ String stop t)%string = String d r /\ cls d = false) as (d & r & Ed & Hd).
    { destruct H3 as [->|(c' & k' & -> & Hc')]; [exists stop, t; by split; [|apply Hstop]|].
      cbn [properties_AddEscapes]. rewrite Hc', string_app_cons. eexists _, _. by split; [|apply Hstop]. }
    assert (span cls (k1 ++ properties_AddEscapes E k2 ++ String stop t) = String.length k1) as Hsp.
    { rewrite Ed. apply span_stop; [|done]. eapply sall_impl; [exact Hcls|exact H1]. }
    destruct (Hact x bol z (String c1 k1) c Hz) as [Ha _]. rewrite string_app_assoc, string_app_cons.
    eapply runs_silent; [done|by eapply Htext|rewrite Hsp; cbn [sfirst]; rewrite sfirst_app; exact Ha|].
    rewrite Hsp. cbn [sfirst sskip]. rewrite sfirst_app, sskip_app, <- string_app_assoc. apply Hrest; [rewrite Ek, length_sapp; cbn; lia|done|by apply plain_one_line].
Qed.

End collecting.

Lemma key_runs k bol st ck cv t :
  one_line k = true -> in_key st = true -> k <> EmptyString ->
  runs bol (mkLexer st ck cv) (properties_AddEscapes E k ++ String (chr 61) t) []
       false (mkLexer key (Some (concatString ck k)) cv) (String (chr 61) t).
Proof.
  intros Hl Hst Hk. eapply (text_runs key_char (chr 61) KeyText KeyEscape
    (fun x _ z => in_key (start z) = true /\ default ""%string (curKey z) = x /\ curValue z = cv)
    (fun x => mkLexer key (Some x) cv)); try done.
  - intros c Hc. by apply plain_facts.
  - intros x b z c s [Hz _]. by apply pick_key_text.
  - intros x b z c s [Hz _] H1 H2. by rewrite pick_escape, Hz.
  - intros x b z y c (_ & <- & <-). done.
Qed.


(** A line with a property. *)
Definition property_line (p : string * string) (rest : string) : string :=
  properties_AddEscapes E p.1 ++ String (chr 61) (properties_AddEscapes E p.2 ++ String NL rest).






Fixpoint properties_file (l : list (string * string)) : string :=
  match l with [] => EmptyString | p :: l' => property_line p (properties_file l') end.


End escapes.

(** ** Claims *)

(** the lexer ends on every input, in every state it may have been left in:
    each match takes at least one character. *)
Theorem lexer_terminates z s : exists z' out, yylex z s = Ok (z', out).
Proof. apply scan_loop_ok. lia. Qed.


(** what one text leaves unfinished, the next one continues, though they
    may be for different tables.  A text that ends after a key and its
    separator leaves the lexer collecting the value: the following text is taken
    as the value of that key, whatever it was to set. *)
Theorem unfinished_text_leaks E k k2 v2 :
  escape_set E -> one_line k = true -> k <> EmptyString -> sall value_char k2 = true -> k2 <> EmptyString ->
  sall value_char v2 = true -> v2 <> EmptyString ->
  exists z, yylex clean (properties_AddEscapes E k ++ String (chr 61) EmptyString) = Ok (z, []) /\
    yylex z (k2 ++ String (chr 61) v2) = Ok (clean, [Add (Some k) (Some (k2 ++ String (chr 61) v2)%string)]).
Proof.
  intros HE Hl Hk Hk2 Hne Hv2 Hv. exists (mkLexer value (Some k) None). split.
  - unfold yylex. change (Ok (mkLexer value (Some k) None, [])) with (Ok (mkLexer value (Some k) None, [] ++ [] : list action)).
    eapply (scan_runs _ _ _ _ false (mkLexer value (Some k) None) EmptyString); [|done]. change ([] : list action) with ([] ++ [] : list action). eapply runs_trans; [by apply key_runs|].
    eapply (runs_silent _ _ _ Assignment 1); [done|reflexivity|done|apply runs_refl].
  - set (s := (k2 ++ String (chr 61) v2)%string). assert (sall value_char s = true) as Hs by (unfold s; rewrite sall_app, Hk2; cbn; by rewrite Hv2).
    assert (s <> EmptyString) as Hns by (unfold s; by destruct k2). clearbody s.
    assert (span value_char s = String.length s) as Hsp.
    { clear -Hs. induction s as [|c s IH]; [done|]. cbn in Hs |- *. apply andb_prop in Hs as [-> Hs]. by rewrite IH. }
    assert (pick true value s = (ValueText, String.length s)) as Hp.
    { destruct s as [|c s]; [done|]. cbn in Hs. apply andb_prop in Hs as [Hc Hs].
      assert (ws c = false /\ Ascii.eqb c SLASH = false /\ c <> NL /\ c <> CR) as (W1 & W2 & W3 & W4).
      { unfold value_char in Hc. apply negb_true_iff in Hc. assert (forall d, d ∈ [SLASH; CR; NL; SPACE; TAB] -> c <> d) as H.
        { intros d Hd ->. rewrite (proj2 (one_of_spec _ d) Hd) in Hc. done. }
        split_and!; [|apply Ascii.eqb_neq|..]; try (apply H; set_solver). apply one_of_false. intros Hc'. by destruct (H c); [set_solver|]. }
      rewrite (pick_by (fun r => match r with ValueText => String.length (String c s) | Default => 1%nat | _ => 0%nat end)); [done|].
      intros []; cbn [match_len in_value in_key]; rewrite ?W2, ?Hsp; try done; [cbn [span]; by rewrite W1|by apply newline_len_other|by destruct s..]. }
    assert (forall t : string, sfirst (String.length t) t = t /\ sskip (String.length t) t = EmptyString) as Hall.
    { intros t. pose proof (sfirst_app t EmptyString) as F1. pose proof (sskip_app t EmptyString) as F2. by rewrite string_app_nil in F1, F2. }
    destruct (Hall s) as [F1 F2]. unfold yylex.
    change [Add (Some k) (Some s)] with ([] ++ [Add (Some k) (Some s)]). 
    eapply (scan_runs _ _ _ _ (last_is_nl s) (mkLexer value (Some k) (Some s)) EmptyString); [|reflexivity].
    eapply runs_silent; [done|exact Hp|by rewrite F1|]. rewrite F1, F2. apply runs_refl.
Qed.

(** ** Witnesses *)

Definition demo_escapes : list ascii := [SLASH; SPACE; TAB; chr 58; chr 61; chr 35; chr 33].

Lemma demo_escape_set : escape_set demo_escapes.
Proof.
  split; [intros c Hc; by apply one_of_spec|]. intros c Hc. apply one_of_spec in Hc.
  assert (Forall (fun c => escape_char c = c) demo_escapes) as H by repeat constructor.
  rewrite Forall_forall in H. by apply H.
Qed.



Example newline_cuts_value :
  yylex clean (properties_file demo_escapes [("k", String.append "x" (String NL "y")); ("a", "b")]%string) =
    Ok (clean, [Add (Some "k"%string) (Some "x"%string); Echo NL; Add (Some "ya"%string) (Some "b"%string)]).
Proof. vm_compute. reflexivity. Qed.

Example empty_key_spoils_next :
  yylex clean (properties_file demo_escapes [("", "v"); ("a", "b")]%string) =
    Ok (clean, [Echo (chr 61); Echo NL; Add (Some "va"%string) (Some "b"%string)]).
Proof. vm_compute. reflexivity. Qed.

Lemma unfinished_text_leaks_witness : exists z,
  yylex clean "first=" = Ok (z, []) /\
  yylex z "second=2" = Ok (clean, [Add (Some "first"%string) (Some "second=2"%string)]).
Proof. apply (unfinished_text_leaks demo_escapes "first" "second" "2"); [apply demo_escape_set|done..]. Defined.
