(* ===== verification/Properties.v ===== *)
(** * Properties (common/c_cpp/src/c/property.c)

    Tables from names to values.  The values are C strings: the table holds
    their addresses, and merging one set of properties into another copies the
    addresses, so that the two share the strings.  The strings and the objects
    are therefore kept in one store, in which an address that was freed is
    gone.  The lexer (PropertiesLexer.v) is one for all objects. *)

From S2P Require Import Prelude Cstdio Text WTableSpec StrUtils PropertiesLexer PropertiesText.
From Stdlib Require Import Ascii String.
From stdpp Require Import strings.
#[local] Open Scope Z_scope.
Import Cstdio StrUtils PropertiesLexer.

Module Properties.

Definition PROPERTY_NAME_MAX_LENGTH : Z := 1024.
Definition PATH_DELIM : ascii := chr 58.
Definition TABLE_SIZE : Z := 10.

Section properties.

Context {T : Type} `{StringTable T}.

(** The environment, and the rounds allowed for replacing variables. *)
Context (getenv : string -> option string) (env_fuel : nat).

(** [strs]: the allocated strings; [objs]: the tables of the objects by handle;
    [echo]: what the default action of the lexer prints. *)
Record world : Type := mkWorld {
  strs : gmap Z string;
  str_brk : Z;
  objs : gmap Z T;
  obj_brk : Z;
  lex : lexer;
  echo : list ascii;
}.

Definition put_strs (v : gmap Z string) (b : Z) (w : world) : world := mkWorld v b (objs w) (obj_brk w) (lex w) (echo w).
Definition put_objs (v : gmap Z T) (b : Z) (w : world) : world := mkWorld (strs w) (str_brk w) v b (lex w) (echo w).
Definition put_lex (v : lexer) (w : world) : world := mkWorld (strs w) (str_brk w) (objs w) (obj_brk w) v (echo w).
Definition put_echo (v : list ascii) (w : world) : world := mkWorld (strs w) (str_brk w) (objs w) (obj_brk w) (lex w) v.

Abbreviation WM := (M world).

Definition lift {A} (r : res A) : WM A := fun w => match r with Ok a => Ok (a, w) | Fail f => Fail f end.

(** ** Strings and objects *)

(** [strdup] of a string; [free], which accepts NULL. *)
Definition strdup (s : string) : WM Z :=
  a ← gets str_brk;
  modify (fun w => put_strs (<[a := s]> (strs w)) (a + 1) w) ;;
  mret a.

Definition free (a : Z) : WM unit := fun w =>
  if a =? 0 then Ok (tt, w)
  else match strs w !! a with
       | Some _ => Ok (tt, put_strs (delete a (strs w)) (str_brk w) w)
       | None => Fail InvalidDeref
       end.

(** What the application reads through an address. *)
Definition read (a : Z) : WM string := fun w =>
  match strs w !! a with Some s => Ok (s, w) | None => Fail InvalidDeref end.

Definition get_obj (h : Z) : WM T := fun w =>
  match objs w !! h with Some t => Ok (t, w) | None => Fail InvalidDeref end.
Definition put_obj (h : Z) (t : T) : WM unit := modify (fun w => put_objs (<[h := t]> (objs w)) (obj_brk w) w).

(** ** Operations *)

Definition properties_Create : WM Z :=
  match st_create ""%string TABLE_SIZE with
  | None => mret 0
  | Some t =>
      h ← gets obj_brk;
      modify (fun w => put_objs (<[h := t]> (objs w)) (h + 1) w) ;;
      mret h
  end.

(** [mem]: memory for a new entry of the table; [value]: the address of the
    value, which the table owns from now on. *)
Definition propertiesImpl_AddProperty (mem : bool) (h : Z) (name : string) (value : Z) : WM Z :=
  t ← get_obj h;
  data ← lift (st_lookup name t);
  r ← lift (st_insert mem name value t);
  put_obj h r.2 ;;
  if r.1 =? -1 then mret 0
  else
    (if (r.1 =? 0) && negb (data =? 0) then free data else mret tt) ;;
    mret 1.

(** The value with its variables replaced, as a new string. *)
Definition replaced (value : string) : WM Z :=
  v ← lift (strReplaceEnvironmentVariable getenv env_fuel (Some value));
  strdup (default value v).

Definition properties_setProperty (mem : bool) (h : Z) (name value : string) : WM Z :=
  value_c ← replaced value;
  propertiesImpl_AddProperty mem h name value_c.

(** [None]: NULL, as the lexer passes it for an empty value. *)
Definition add_property (mem : bool) (h : Z) (name value : option string) : WM unit :=
  value ← (match value with Some v => replaced v | None => mret 0 end);
  match name with
  | None => mret tt
  | Some name => propertiesImpl_AddProperty mem h name value ;; mret tt
  end.

Fixpoint lexer_actions (mem : bool) (h : Z) (l : list action) : WM unit :=
  match l with
  | [] => mret tt
  | Add k v :: l' => add_property mem h k v ;; lexer_actions mem h l'
  | Echo c :: l' => modify (fun w => put_echo (echo w ++ [c]) w) ;; lexer_actions mem h l'
  end.

(** [yylex] on a text, for the table of [h]. *)
Definition propertiesImpl_scan (mem : bool) (h : Z) (text : string) : WM unit :=
  z ← gets lex;
  r ← lift (yylex z text);
  modify (put_lex r.1) ;;
  lexer_actions mem h r.2.

(** [properties_AddString]: the variables of the whole string are replaced
    first; its result is always 0. *)
Definition properties_AddString (mem : bool) (h : Z) (propString : string) : WM Z :=
  v ← lift (strReplaceEnvironmentVariable getenv env_fuel (Some propString));
  propertiesImpl_scan mem h (default propString v) ;;
  mret 0.

(** [files]: the files that can be opened, with their contents. *)
Definition propertiesImpl_ImportPropertiesFromFile (files : string -> option string) (mem : bool) (h : Z) (path fileName : string) : WM Z :=
  match files (path +:+ "/" +:+ fileName)%string with
  | None => mret 0
  | Some text => propertiesImpl_scan mem h text ;; mret 1
  end.

(** *** Loading a file *)

Fixpoint remove_quotes (s : string) : string :=
  match s with
  | EmptyString => EmptyString
  | String c s' => if Ascii.eqb c (chr 34) then remove_quotes s' else String c (remove_quotes s')
  end.

(** The sub paths of the loop of [properties_Load]: [seg] are the characters since
    the last delimiter; the first sub path is copied from the path without quotes
    ([newPath]), in the length it has with them; the character after a delimiter
    is not looked at ([unchecked]).  With each its length in the path. *)
Fixpoint sub_paths (newPath : option string) (seg : string) (unchecked : bool) (s : string) : list (Z * string) :=
  let subPath := (len seg, match newPath with Some p => take_string (String.length seg) p | None => seg end) in
  match s with
  | EmptyString => if unchecked then [] else [subPath]
  | String c s' => if negb unchecked && Ascii.eqb c PATH_DELIM then subPath :: sub_paths None EmptyString true s'
                   else sub_paths newPath (seg ++ String c EmptyString) false s'
  end.

(** The sizes of [newPath] and [subPath]. *)
Definition PATH_SIZE : Z := 256.

Fixpoint try_paths (files : string -> option string) (mem : bool) (h : Z) (fileName : string) (l : list (Z * string)) : WM Z :=
  match l with
  | [] => mret 0
  | (n, p) :: l' =>
      if PATH_SIZE <=? n then fail InvalidDeref
      else
        r ← propertiesImpl_ImportPropertiesFromFile files mem h p fileName;
        if r =? 0 then try_paths files mem h fileName l' else mret r
  end.

Definition properties_Load (files : string -> option string) (mem : bool) (path : option string) (fileName : string) : WM Z :=
  h ← properties_Create;
  if h =? 0 then mret 0
  else
    let path := default ""%string path in
    r ← (if len path =? 0 then propertiesImpl_ImportPropertiesFromFile files mem h ""%string fileName
         else if PATH_SIZE <? len (remove_quotes path) then fail InvalidDeref
         else try_paths files mem h fileName (sub_paths (Some (remove_quotes path)) EmptyString false path));
    if r =? 0 then
      modify (fun w => put_objs (delete h (objs w)) (obj_brk w) w) ;;
      mret 0
    else mret h.

(** ** Looking up and merging *)

(** The address of the value, 0 if there is none. *)
Definition properties_Get (h : Z) (name : string) : WM Z :=
  if len name =? 0 then mret 0
  else
    t ← get_obj h;
    lift (st_lookup name t).

(** [paramName]: what the format gives; longer names are cut. *)
Definition properties_GetPropertyValueUsingVaList (h : Z) (defaultVal : Z) (paramName : string) : WM Z :=
  property ← properties_Get h (take_string (Z.to_nat (PROPERTY_NAME_MAX_LENGTH - 1)) paramName);
  mret (if property =? 0 then defaultVal else property).

Definition properties_GetPropertyValueAsBoolean (propertyValue : option string) : bool := strtobool propertyValue.

(** The callback of the merge, for an entry of the other table. *)
Definition properties_copy (mem : bool) (data : Z) (name : string) (to_ : Z) : WM unit :=
  t ← get_obj to_;
  staleData ← lift (st_lookup name t);
  (if staleData =? 0 then mret tt else free staleData) ;;
  t ← get_obj to_;
  r ← lift (st_insert mem name data t);
  put_obj to_ r.2.

(** [wtable_for_each] with that callback, which replaces entries of the other
    table only (or, merging an object into itself, an entry by itself). *)
Definition properties_Merge (mem : bool) (to_ from : Z) : WM unit := fun w =>
  match objs w !! from with
  | None => Fail InvalidDeref
  | Some t =>
      match st_for_each (fun data name acc =>
              match acc with Ok (_, w) => properties_copy mem data name to_ w | Fail f => Fail f end) (Ok (tt, w)) t with
      | Ok r => r
      | Fail f => Fail f
      end
  end.

(** What the callbacks of [properties_ForEach] and
    [properties_ForEachWithPrefix] get, in this order. *)
Definition properties_ForEach (h : Z) : WM (list (string * Z)) :=
  t ← get_obj h;
  lift (st_for_each (fun data name l => l ++ [(name, data)]) [] t).

Definition properties_ForEachWithPrefix (h : Z) (prefix : string) : WM (list (string * Z)) :=
  t ← get_obj h;
  lift (st_for_each (fun data name l =>
          if String.prefix prefix name && (len prefix <? len name)
          then l ++ [(sskip (String.length prefix) name, data)] else l) [] t).

Fixpoint free_all (l : list Z) : WM unit :=
  match l with [] => mret tt | a :: l' => free a ;; free_all l' end.

Definition delete_obj (h : Z) : WM unit := modify (fun w => put_objs (delete h (objs w)) (obj_brk w) w).

(** [properties_Free] and [properties_FreeEx]: the values too. *)
Definition properties_Free (h : Z) : WM unit :=
  t ← get_obj h;
  l ← lift (st_for_each (fun data _ l => l ++ [data]) [] t);
  free_all l ;;
  delete_obj h.

(** [properties_FreeEx2]: all but the values. *)
Definition properties_FreeEx2 (h : Z) : WM unit :=
  get_obj h ;;
  delete_obj h.

End properties.

Arguments world : clear implicits.

End Properties.
