(* ===== verification/PropertiesProps.v ===== *)
(** * Properties: what configuration relies on

    The objects as maps from names to values, under the rule the sources state
    for merging: the object that was merged into another is released with
    [properties_FreeEx2].  Then no string is freed twice, read after it was
    freed, or leaked. *)

From S2P Require Import Prelude Cstdio Text WTable WTableSpec StrUtils PropertiesLexer PropertiesText Properties.
From Stdlib Require Import Ascii String.
From stdpp Require Import strings.
#[local] Open Scope Z_scope.
Import Cstdio StrUtils PropertiesLexer Properties.

Section spec.

Context {T : Type} `{StringTable T}.
Implicit Types w : world T.

(** ** Representation *)

(** The values of an object; a value may be NULL. *)
Abbreviation values := (gmap string (option string)).

(** The value behind an address. *)
Definition cell (S : gmap Z string) (a : Z) (ov : option string) : Prop :=
  if a =? 0 then ov = None else exists v, S !! a = Some v /\ ov = Some v.

(** An address some table holds, the object [x] not counted. *)
Definition ref (x : Z) w (a : Z) (h : Z) (s : string) : Prop :=
  exists t, delete x (objs w) !! h = Some t /\ st_map t !! s = Some a.

(** [L]: the strings that belong to no table. *)
Record prop_rep (x : Z) w (L : gset Z) (A : gmap Z values) : Prop := mkPropRep {
  pr_objs : map_Forall2 (fun _ t m => st_ok t /\ map_Forall2 (fun _ => cell (strs w)) (st_map t) m) (delete x (objs w)) A;
  pr_inj : forall a h s h' s', a <> 0 -> ref x w a h s -> ref x w a h' s' -> h = h' /\ s = s';
  pr_loose : forall a, a ∈ L -> is_Some (strs w !! a) /\ forall h s, ~ ref x w a h s;
  pr_noleak : forall a, is_Some (strs w !! a) -> a ∈ L \/ exists h s, ref x w a h s;
  pr_pos : forall a, is_Some (strs w !! a) -> 0 < a < str_brk w;
  pr_brk : 0 < str_brk w;
  pr_handles : forall h, is_Some (objs w !! h) -> 0 < h < obj_brk w;
  pr_obrk : 0 < obj_brk w;
}.

Lemma rep_obj x w L A h m : prop_rep x w L A -> A !! h = Some m ->
  exists t, h <> x /\ objs w !! h = Some t /\ st_ok t /\ map_Forall2 (fun _ => cell (strs w)) (st_map t) m.
Proof.
  intros K Hm. pose proof (pr_objs _ _ _ _ K h) as Ho. rewrite Hm in Ho. destruct (delete x (objs w) !! h) as [t|] eqn:Et; [|by inv Ho].
  apply lookup_delete_Some in Et as [Hx Et]. exists t. inv Ho. split_and!; try done; tauto.
Qed.

(** The address a table holds points to the value. *)
Lemma rep_cell x w L A h m t s a : prop_rep x w L A -> A !! h = Some m -> objs w !! h = Some t -> h <> x ->
  st_map t !! s = Some a -> exists ov, m !! s = Some ov /\ cell (strs w) a ov.
Proof.
  intros K Hm Ht Hx Ha. destruct (rep_obj x w L A h m K Hm) as (t' & _ & Ht' & _ & Hc). assert (t' = t) as -> by congruence.
  specialize (Hc s). rewrite Ha in Hc. destruct (m !! s) as [ov|]; inv Hc. eauto.
Qed.

Lemma cell_live S a ov : cell S a ov -> a <> 0 -> is_Some (S !! a).
Proof. unfold cell. intros Hc Ha. destruct (Z.eqb_spec a 0); [done|]. destruct Hc as (v & -> & _). eauto. Qed.

Lemma rep_ref_live x w L A a h s : prop_rep x w L A -> ref x w a h s -> a <> 0 -> is_Some (strs w !! a).
Proof.
  intros K (t & Ht & Ha) Hz. pose proof (pr_objs _ _ _ _ K h) as Ho. rewrite Ht in Ho.
  destruct (A !! h) as [m|]; [|by inv Ho]. inv Ho. destruct H2 as [_ Hc]. specialize (Hc s). rewrite Ha in Hc.
  destruct (m !! s) as [ov|]; inv Hc. by eapply cell_live.
Qed.

(** ** Putting a value into a table *)

Lemma replace_rep x w L A h t m t' k a ov :
  prop_rep x w L A -> h <> x -> objs w !! h = Some t -> A !! h = Some m ->
  st_ok t' -> st_map t' = <[k := a]> (st_map t) -> cell (strs w) a ov -> (a = 0 \/ a ∈ L) ->
  let old := default 0 (st_map t !! k) in
  prop_rep x (put_strs (delete old (strs w)) (str_brk w) (put_objs (<[h := t']> (objs w)) (obj_brk w) w))
    (L ∖ {[a]}) (<[h := <[k := ov]> m]> A).
Proof.
  intros K Hx Ht Hm Hok Em Hcell Ha old.
  assert (delete x (objs w) !! h = Some t) as Htx by (by rewrite lookup_delete_ne).
  set (w' := put_strs _ _ _).
  assert (forall b h' s, ref x w' b h' s <-> (h' = h /\ s = k /\ b = a) \/ (~ (h' = h /\ s = k) /\ ref x w b h' s)) as Href.
  { intros b h' s. unfold ref. cbn. rewrite delete_insert_ne by done. split.
    - intros (t0 & E1 & E2). destruct (decide (h' = h)) as [->|Hne].
      + rewrite lookup_insert_eq in E1. injection E1 as <-. rewrite Em in E2. apply lookup_insert_Some in E2 as [[<- <-]|[Hk E2]]; [by left|].
        right. split; [by intros [_ ?]|]. by exists t.
      + rewrite lookup_insert_ne in E1 by done. right. split; [by intros [? _]|]. by exists t0.
    - intros [(-> & -> & ->)|(Hn & t0 & E1 & E2)].
      + exists t'. by rewrite lookup_insert_eq, Em, lookup_insert_eq.
      + destruct (decide (h' = h)) as [->|Hne].
        * exists t'. rewrite lookup_insert_eq, Em. split; [done|]. rewrite lookup_insert_ne; [congruence|]. intros <-. by apply Hn.
        * exists t0. by rewrite lookup_insert_ne. }
  assert (forall b, b ∈ L -> forall h' s, ~ ref x w b h' s) as Hloose by (intros b Hb; by apply (pr_loose _ _ _ _ K b)).
  assert (old <> 0 -> ref x w old h k) as Hold.
  { intros Hz. exists t. split; [done|]. unfold old in *. by destruct (st_map t !! k). }
  assert (forall b, b ∈ L -> b <> old) as HLold.
  { intros b Hb ->. destruct (decide (old = 0)) as [E|Hz]; [|by eapply Hloose, Hold]. destruct (pr_loose _ _ _ _ K _ Hb) as [Hl _].
    apply (pr_pos _ _ _ _ K) in Hl. lia. }
  assert (forall b h' s, ref x w b h' s -> ~ (h' = h /\ s = k) -> b = 0 \/ b <> old) as Hrefold.
  { intros b h' s Hb Hn. destruct (decide (b = 0)) as [|Hz]; [by left|right]. intros ->. apply Hn.
    eapply (pr_inj _ _ _ _ K old); [done|done|by apply Hold]. }
  assert (forall b ov', cell (strs w) b ov' -> b = 0 \/ b <> old -> cell (delete old (strs w)) b ov') as Hcd.
  { intros b ov' Hc Hb. unfold cell in *. destruct (Z.eqb_spec b 0); [done|]. destruct Hb as [|Hb]; [done|]. by rewrite lookup_delete_ne. }
  split.
  - intros h'. cbn. rewrite delete_insert_ne by done. pose proof (pr_objs _ _ _ _ K h') as Ho. destruct (decide (h' = h)) as [->|Hne].
    + rewrite !lookup_insert_eq. constructor. split; [done|]. intros s. rewrite Em. rewrite Htx, Hm in Ho. inv Ho. destruct H2 as [_ Hc].
      destruct (decide (s = k)) as [->|Hs].
      * rewrite !lookup_insert_eq. constructor. apply Hcd; [done|]. destruct Ha as [|Ha]; [by left|right; by apply HLold].
      * rewrite !lookup_insert_ne by done. specialize (Hc s). destruct (st_map t !! s) as [b|] eqn:Eb; inv Hc; constructor.
        apply Hcd; [done|]. eapply (Hrefold b h s); [by exists t|by intros [_ ?]].
    + rewrite !lookup_insert_ne by done. destruct (delete x (objs w) !! h') as [t0|] eqn:Et0; inv Ho; constructor.
      destruct H2 as [Ho Hc]. split; [done|]. intros s. specialize (Hc s). destruct (st_map t0 !! s) as [b|] eqn:Eb; inv Hc; constructor.
      apply Hcd; [done|]. eapply (Hrefold b h' s); [by exists t0|by intros [? _]].
  - intros b h1 s1 h2 s2 Hb R1 R2. apply Href in R1, R2.
    destruct R1 as [(-> & -> & ->)|(N1 & R1)], R2 as [(-> & -> & E2)|(N2 & R2)]; try done.
    + destruct Ha as [|Ha]; [done|]. by apply Hloose in R2.
    + subst b. destruct Ha as [|Ha]; [done|]. by apply Hloose in R1.
    + by eapply (pr_inj _ _ _ _ K b).
  - intros b Hb. apply elem_of_difference in Hb as [Hb Hba]. apply not_elem_of_singleton in Hba. cbn. split.
    + rewrite lookup_delete_ne by (symmetry; by apply HLold). by apply (pr_loose _ _ _ _ K).
    + intros h' s R. apply Href in R as [(-> & -> & ->)|(_ & R)]; [done|]. by apply Hloose in R.
  - intros b Hb. cbn in Hb. apply lookup_delete_is_Some in Hb as [Hbo Hb]. destruct (pr_noleak _ _ _ _ K b Hb) as [HbL|(h' & s & R)].
    + destruct (decide (b = a)) as [->|]; [right; exists h, k; apply Href; by left|left; set_solver].
    + right. exists h', s. apply Href. destruct (decide (h' = h /\ s = k)) as [[-> ->]|Hn]; [|by right].
      destruct R as (t0 & E1 & E2). assert (t0 = t) as -> by congruence. unfold old in Hbo. by rewrite E2 in Hbo.
  - intros b Hb. cbn in Hb |- *. apply lookup_delete_is_Some in Hb as [_ Hb]. by apply (pr_pos _ _ _ _ K).
  - apply (pr_brk _ _ _ _ K).
  - intros h'. cbn. rewrite lookup_insert_is_Some'. intros [<-|Hh]; apply (pr_handles _ _ _ _ K); [eauto|done].
  - apply (pr_obrk _ _ _ _ K).
Qed.

(** ** Operations on one value *)

(** What no operation on values changes. *)
Definition same w w' : Prop := lex w' = lex w /\ obj_brk w' = obj_brk w.

Lemma same_trans w1 w2 w3 : same w1 w2 -> same w2 w3 -> same w1 w3.
Proof. unfold same. intuition congruence. Qed.


Lemma strdup_rep x w L A s : prop_rep x w L A ->
  wp (strdup s) w (fun a w' => prop_rep x w' (L ∪ {[a]}) A /\ cell (strs w') a (Some s) /\ a <> 0 /\ same w w').
Proof.
  intros K. unfold strdup. apply wp_bind, wp_gets, wp_bind, wp_modify, wp_ret. set (a := str_brk w).
  pose proof (pr_brk _ _ _ _ K) as Hb. assert (strs w !! a = None) as Hn.
  { apply eq_None_not_Some. intros Ha. apply (pr_pos _ _ _ _ K) in Ha. unfold a in Ha. lia. }
  split; [|split; [|by split; [unfold a; lia|]]].
  - assert (forall b ov, cell (strs w) b ov -> cell (<[a := s]> (strs w)) b ov) as Hc.
    { intros b ov Hc. unfold cell in *. destruct (Z.eqb_spec b 0); [done|]. destruct Hc as (v & Hv & ->). exists v.
      rewrite lookup_insert_ne by congruence. done. }
    split; cbn.
    + intros h. pose proof (pr_objs _ _ _ _ K h) as Ho. destruct (delete x (objs w) !! h); inv Ho; constructor.
      destruct H2 as [? Hm]. split; [done|]. intros k. specialize (Hm k). destruct (st_map _ !! k); inv Hm; constructor. by apply Hc.
    + exact (pr_inj _ _ _ _ K).
    + intros b [Hb'| ->%elem_of_singleton]%elem_of_union.
      * destruct (pr_loose _ _ _ _ K b Hb') as [Hl Hr]. split; [|done]. rewrite lookup_insert_is_Some'. by right.
      * rewrite lookup_insert_eq. split; [eauto|]. intros h k R. assert (is_Some (strs w !! a)); [|by rewrite Hn in *; destruct H0].
        eapply rep_ref_live; [exact K|exact R|unfold a; lia].
    + intros b [<-|Hb']%lookup_insert_is_Some'; [left; set_solver|]. destruct (pr_noleak _ _ _ _ K b Hb'); [left; set_solver|by right].
    + intros b [<-|Hb']%lookup_insert_is_Some'; [unfold a in *; lia|]. apply (pr_pos _ _ _ _ K) in Hb'. unfold a. lia.
    + unfold a. lia.
    + exact (pr_handles _ _ _ _ K).
    + apply (pr_obrk _ _ _ _ K).
  - cbn. unfold cell. destruct (Z.eqb_spec a 0); [unfold a in *; lia|]. exists s. by rewrite lookup_insert_eq.
Qed.

Lemma free_rep x w L A a : prop_rep x w L A -> a ∈ L ->
  wp (free a) w (fun _ w' => prop_rep x w' (L ∖ {[a]}) A /\ objs w' = objs w /\ same w w').
Proof.
  intros K Ha. destruct (pr_loose _ _ _ _ K a Ha) as [[v Hv] Hr]. pose proof (pr_pos _ _ _ _ K a (ex_intro _ v Hv)).
  unfold wp, free. destruct (Z.eqb_spec a 0); [lia|]. rewrite Hv. split; [|done].
  assert (forall b h s ov, ref x w b h s -> cell (strs w) b ov -> cell (delete a (strs w)) b ov) as Hc.
  { intros b h s ov R Hc. unfold cell in *. destruct (Z.eqb_spec b 0); [done|]. rewrite lookup_delete_ne; [done|]. intros ->. by eapply Hr. }
  split; cbn.
  - intros h. pose proof (pr_objs _ _ _ _ K h) as Ho. destruct (delete x (objs w) !! h) as [t|] eqn:Et; inv Ho; constructor.
    destruct H3 as [? Hm]. split; [done|]. intros k. specialize (Hm k). destruct (st_map t !! k) as [b|] eqn:Eb; inv Hm; constructor.
    eapply Hc; [by exists t|done].
  - exact (pr_inj _ _ _ _ K).
  - intros b [Hb Hba]%elem_of_difference. destruct (pr_loose _ _ _ _ K b Hb) as [Hl Hr']. split; [|done].
    rewrite lookup_delete_ne by set_solver. done.
  - intros b [Hba Hb]%lookup_delete_is_Some. destruct (pr_noleak _ _ _ _ K b Hb); [left; set_solver|by right].
  - intros b [_ Hb]%lookup_delete_is_Some. by apply (pr_pos _ _ _ _ K).
  - apply (pr_brk _ _ _ _ K).
  - exact (pr_handles _ _ _ _ K).
  - apply (pr_obrk _ _ _ _ K).
Qed.

(** The world after a value of the object [h] was replaced. *)
Definition replaced_world w h t' old : world T :=
  put_strs (delete old (strs w)) (str_brk w) (put_objs (<[h := t']> (objs w)) (obj_brk w) w).

Lemma replaced_zero x w L A h t' : prop_rep x w L A -> replaced_world w h t' 0 = put_objs (<[h := t']> (objs w)) (obj_brk w) w.
Proof.
  intros K. unfold replaced_world. rewrite delete_id; [done|]. apply eq_None_not_Some. intros Hz. apply (pr_pos _ _ _ _ K) in Hz. lia.
Qed.

(** An old value that is not NULL can be freed. *)
Lemma old_live x w L A h m t k : prop_rep x w L A -> A !! h = Some m -> h <> x -> objs w !! h = Some t ->
  default 0 (st_map t !! k) <> 0 -> is_Some (strs w !! default 0 (st_map t !! k)).
Proof.
  intros K Hm Hx Ht Hz. eapply (rep_ref_live x w L A _ h k K); [|done]. exists t. rewrite lookup_delete_ne by done.
  split; [done|]. by destruct (st_map t !! k).
Qed.

Lemma add_rep x w L A h m k a ov :
  prop_rep x w L A -> A !! h = Some m -> cell (strs w) a ov -> (a = 0 \/ a ∈ L) ->
  wp (propertiesImpl_AddProperty true h k a) w (fun r w' =>
    r = 1 /\ prop_rep x w' (L ∖ {[a]}) (<[h := <[k := ov]> m]> A) /\ same w w').
Proof.
  intros K Hm Hc Ha. destruct (rep_obj x w L A h m K Hm) as (t & Hx & Ht & Ho & _).
  destruct (st_insert_spec t k a Ho) as (t' & Ei & Ho' & Em).
  pose proof (replace_rep x w L A h t m t' k a ov K Hx Ht Hm Ho' Em Hc Ha) as K'. cbn zeta in K'. fold (replaced_world w h t' (default 0 (st_map t !! k))) in K'.
  pose proof (old_live x w L A h m t k K Hm Hx Ht) as Hlive.
  unfold propertiesImpl_AddProperty. apply wp_bind. unfold wp at 1, get_obj. rewrite Ht. apply wp_bind.
  unfold wp at 1, lift. rewrite (st_lookup_spec t k Ho). apply wp_bind. unfold wp at 1, lift. rewrite Ei. apply wp_bind, wp_modify.
  cbn [fst snd]. destruct (decide (is_Some (st_map t !! k))) as [[d Hd]|Hn].
  - rewrite Hd in *. cbn [default from_option] in *. unfold Datatypes.id in *. cbn [Z.eqb andb]. apply wp_bind.
    destruct (Z.eqb_spec d 0) as [->|Hz]; cbn [negb].
    + apply wp_ret, wp_ret. rewrite <- (replaced_zero x w L A h t' K). done.
    + unfold wp at 1, free. destruct (Z.eqb_spec d 0); [done|]. cbn [strs put_objs]. destruct (Hlive Hz) as [v ->]. by apply wp_ret.
  - apply eq_None_not_Some in Hn. rewrite Hn in *. cbn [default from_option] in *. cbn [Z.eqb andb]. apply wp_bind, wp_ret, wp_ret.
    rewrite <- (replaced_zero x w L A h t' K). done.
Qed.

Lemma copy_rep x w L A h m k a ov :
  prop_rep x w L A -> A !! h = Some m -> cell (strs w) a ov -> (a = 0 \/ a ∈ L) ->
  wp (properties_copy true a k h) w (fun _ w' => prop_rep x w' (L ∖ {[a]}) (<[h := <[k := ov]> m]> A) /\ same w w' /\
    (forall h', h' <> h -> objs w' !! h' = objs w !! h') /\ (forall b, b ∈ L -> strs w' !! b = strs w !! b) /\
    exists t', objs w' !! h = Some t' /\ st_ok t' /\ st_map t' !! k = Some a).
Proof.
  intros K Hm Hc Ha. destruct (rep_obj x w L A h m K Hm) as (t & Hx & Ht & Ho & _).
  destruct (st_insert_spec t k a Ho) as (t' & Ei & Ho' & Em).
  pose proof (replace_rep x w L A h t m t' k a ov K Hx Ht Hm Ho' Em Hc Ha) as K'. cbn zeta in K'. fold (replaced_world w h t' (default 0 (st_map t !! k))) in K'.
  pose proof (old_live x w L A h m t k K Hm Hx Ht) as Hlive.
  unfold properties_copy. apply wp_bind. unfold wp at 1, get_obj. rewrite Ht. apply wp_bind.
  unfold wp at 1, lift. rewrite (st_lookup_spec t k Ho). apply wp_bind.
  assert (wp (if default 0 (st_map t !! k) =? 0 then mret tt else free (default 0 (st_map t !! k))) w
    (fun _ w1 => w1 = put_strs (delete (default 0 (st_map t !! k)) (strs w)) (str_brk w) w)) as W.
  { destruct (Z.eqb_spec (default 0 (st_map t !! k)) 0) as [E|Hz].
    - apply wp_ret. rewrite E, delete_id; [by destruct w|]. apply eq_None_not_Some. intros Hz. apply (pr_pos _ _ _ _ K) in Hz. lia.
    - unfold wp, free. destruct (Z.eqb_spec (default 0 (st_map t !! k)) 0); [done|]. by destruct (Hlive Hz) as [v ->]. }
  eapply wp_mono; [exact W|]. cbn beta. intros [] w1 ->. apply wp_bind. unfold wp at 1, get_obj. cbn [objs put_strs]. rewrite Ht.
  apply wp_bind. unfold wp at 1, lift. rewrite Ei. apply wp_modify. split; [exact K'|]. split; [done|]. split; [|split].
  - intros h' Hh. cbn. by rewrite lookup_insert_ne.
  - intros b Hb. cbn. destruct (pr_loose _ _ _ _ K b Hb) as [Hl Hr]. rewrite lookup_delete_ne; [done|].
    intros <-. destruct (st_map t !! k) as [d|] eqn:Ed; cbn in *; [|apply (pr_pos _ _ _ _ K) in Hl; lia].
    eapply (Hr h k). exists t. by rewrite lookup_delete_ne.
  - exists t'. cbn. by rewrite lookup_insert_eq, Em, lookup_insert_eq.
Qed.

(** ** Whole objects *)

Definition nonzero (l : list Z) : list Z := filter (fun a => a <> 0) l.

(** The addresses a table holds. *)
Definition addrs (t : T) : list Z := nonzero (map_to_list (st_map t)).*2.

Lemma elem_of_addrs t a : a ∈ addrs t <-> a <> 0 /\ exists s, st_map t !! s = Some a.
Proof.
  unfold addrs, nonzero. rewrite list_elem_of_filter. f_equiv. rewrite list_elem_of_fmap. split.
  - intros ([s b] & -> & Hs). exists s. by apply elem_of_map_to_list.
  - intros [s Hs]. exists (s, a). split; [done|]. by apply elem_of_map_to_list.
Qed.

Lemma rep_delete_zero x w L A : prop_rep x w L A -> delete 0 (objs w) = objs w.
Proof. intros K. apply delete_id, eq_None_not_Some. intros Hz. apply (pr_handles _ _ _ _ K) in Hz. lia. Qed.

(** An object whose strings are to be moved or freed. *)
Lemma hide_rep w A h t : prop_rep 0 w ∅ A -> objs w !! h = Some t -> prop_rep h w (list_to_set (addrs t)) (delete h A).
Proof.
  intros K Ht. pose proof (rep_delete_zero _ _ _ _ K) as E0.
  assert (forall b h' s, ref h w b h' s <-> h' <> h /\ ref 0 w b h' s) as Href.
  { intros b h' s. unfold ref. rewrite E0. split.
    - intros (t0 & E1 & E2). apply lookup_delete_Some in E1 as [Hn E1]. split; [done|]. by exists t0.
    - intros (Hn & t0 & E1 & E2). exists t0. by rewrite lookup_delete_ne. }
  assert (forall a, a ∈ addrs t -> exists s, ref 0 w a h s) as Had.
  { intros a Ha. apply elem_of_addrs in Ha as [_ [s Hs]]. exists s, t. by rewrite E0. }
  split.
  - intros h'. pose proof (pr_objs _ _ _ _ K h') as Ho. rewrite E0 in Ho. destruct (decide (h' = h)) as [->|Hne]; [rewrite !lookup_delete_eq; constructor|].
    by rewrite !lookup_delete_ne.
  - intros a h1 s1 h2 s2 Ha [_ R1]%Href [_ R2]%Href. by eapply (pr_inj _ _ _ _ K a).
  - intros a Ha. apply elem_of_list_to_set in Ha. destruct (Had a Ha) as [s Hs]. apply elem_of_addrs in Ha as [Hz _].
    split; [by eapply rep_ref_live|]. intros h' s' [Hn R]%Href. by destruct (pr_inj _ _ _ _ K a h' s' h s Hz R Hs).
  - intros a Ha. destruct (pr_noleak _ _ _ _ K a Ha) as [?|(h' & s & R)]; [set_solver|].
    destruct (decide (h' = h)) as [->|Hne]; [|right; exists h', s; by apply Href]. left. apply elem_of_list_to_set, elem_of_addrs.
    destruct R as (t0 & E1 & E2). rewrite E0 in E1. apply (pr_pos _ _ _ _ K) in Ha. split; [lia|]. exists s. congruence.
  - apply (pr_pos _ _ _ _ K).
  - apply (pr_brk _ _ _ _ K).
  - apply (pr_handles _ _ _ _ K).
  - apply (pr_obrk _ _ _ _ K).
Qed.

Lemma unhide_rep w A h : prop_rep h w ∅ A -> prop_rep 0 (put_objs (delete h (objs w)) (obj_brk w) w) ∅ A.
Proof.
  intros K. set (w' := put_objs _ _ w). assert (delete 0 (objs w') = delete h (objs w)) as E.
  { cbn. apply delete_id, eq_None_not_Some. intros [_ Hz]%lookup_delete_is_Some. apply (pr_handles _ _ _ _ K) in Hz. lia. }
  assert (forall b h' s, ref 0 w' b h' s <-> ref h w b h' s) as Href by (intros; unfold ref; by rewrite E).
  split.
  - rewrite E. apply (pr_objs _ _ _ _ K).
  - intros a h1 s1 h2 s2 Ha R1%Href R2%Href. by eapply (pr_inj _ _ _ _ K a).
  - set_solver.
  - intros a Ha. destruct (pr_noleak _ _ _ _ K a Ha) as [?|(h' & s & R)]; [by left|]. right. exists h', s. by apply Href.
  - apply (pr_pos _ _ _ _ K).
  - apply (pr_brk _ _ _ _ K).
  - intros h' Hh. cbn in Hh. apply lookup_delete_is_Some in Hh as [_ Hh]. by apply (pr_handles _ _ _ _ K).
  - apply (pr_obrk _ _ _ _ K).
Qed.

Lemma table_addrs_nodup w A h t : prop_rep 0 w ∅ A -> objs w !! h = Some t -> NoDup (addrs t).
Proof.
  intros K Ht. unfold addrs, nonzero. pose proof (NoDup_fst_map_to_list (st_map t)) as Hnd.
  assert (forall s a, (s, a) ∈ map_to_list (st_map t) -> ref 0 w a h s) as Hr.
  { intros s a Hs. apply elem_of_map_to_list in Hs. exists t. by rewrite (rep_delete_zero _ _ _ _ K). }
  revert Hnd Hr. generalize (map_to_list (st_map t)) as l. induction l as [|[s a] l IH]; intros Hnd Hr; [constructor|].
  cbn in Hnd. apply NoDup_cons in Hnd as [Hs Hnd]. rewrite fmap_cons, filter_cons. cbn. specialize (IH Hnd ltac:(set_solver)).
  destruct (decide (a <> 0)) as [Ha|]; [|done]. constructor; [|done]. intros Hin. apply list_elem_of_filter in Hin as [_ Hin].
  apply list_elem_of_fmap in Hin as ([s' a'] & E & Hin). cbn in E. subst a'.
  destruct (pr_inj _ _ _ _ K a h s h s' Ha) as [_ <-]; [apply Hr; set_solver..|]. apply Hs, list_elem_of_fmap. by exists (s, a).
Qed.

(** ** Releasing *)

Lemma free_all_rep x A l : forall w, prop_rep x w (list_to_set (nonzero l)) A -> NoDup (nonzero l) ->
  wp (free_all l) w (fun _ w' => prop_rep x w' ∅ A /\ objs w' = objs w /\ same w w').
Proof.
  induction l as [|a l IH]; intros w K Hnd; cbn [free_all]; [by apply wp_ret|]. apply wp_bind.
  unfold nonzero in *. rewrite filter_cons in K, Hnd. destruct (decide (a <> 0)) as [Ha|Ha].
  - apply NoDup_cons in Hnd as [Hn Hnd]. cbn [list_to_set] in K.
    eapply wp_mono; [apply (free_rep x w _ A a K); set_solver|]. cbn beta. intros [] w1 (K1 & O1 & L1).
    eapply wp_mono; [apply (IH w1)|]; [|done|].
    + eapply eq_ind with (P := fun X => prop_rep x w1 X A); [exact K1|]. set_solver.
    + cbn beta. intros [] w2 (K2 & O2 & L2). split; [done|]. split; [congruence|by eapply same_trans].
  - assert (a = 0) as -> by lia. unfold wp at 1, free. cbn [Z.eqb]. by apply IH.
Qed.

Lemma collect_data (l : list (string * Z)) acc : foldl (fun c p => c ++ [p.2]) acc l = acc ++ l.*2.
Proof. revert acc. induction l as [|p l IH]; intros acc; cbn; [by rewrite app_nil_r|]. rewrite IH, <- app_assoc. done. Qed.

Lemma free_object_rep w A h m : prop_rep 0 w ∅ A -> A !! h = Some m ->
  wp (properties_Free h) w (fun _ w' => prop_rep 0 w' ∅ (delete h A) /\ same w w').
Proof.
  intros K Hm. destruct (rep_obj 0 w ∅ A h m K Hm) as (t & _ & Ht & Ho & _). pose proof (hide_rep w A h t K Ht) as K1.
  pose proof (table_addrs_nodup w A h t K Ht) as Hnd.
  unfold properties_Free. apply wp_bind. unfold wp at 1, get_obj. rewrite Ht. apply wp_bind.
  destruct (st_for_each_spec t (fun data _ l => l ++ [data]) [] Ho) as (l & Hp & E). unfold wp at 1, lift. rewrite E, collect_data.
  change ([] ++ l.*2) with l.*2. apply wp_bind.
  assert (nonzero l.*2 ≡ₚ addrs t) as Hpn by (unfold addrs, nonzero; by rewrite Hp).
  eapply wp_mono; [apply (free_all_rep h (delete h A) l.*2 w)|].
  - eapply eq_ind with (P := fun X => prop_rep h w X (delete h A)); [exact K1|]. by rewrite Hpn.
  - by rewrite Hpn.
  - cbn beta. intros [] w1 (K2 & O2 & L2). apply wp_modify. split; [by apply unhide_rep|done].
Qed.

(** ** Merging *)

(** The values of [mf] put into [m], name by name. *)
Definition put_values (mf : values) (m : values) (s : string) : values :=
  match mf !! s with Some ov => <[s := ov]> m | None => m end.

Lemma put_values_all mf l : forall m s,
  foldl (put_values mf) m l !! s = if decide (s ∈ l) then union_with (fun x _ => Some x) (mf !! s) (m !! s) else m !! s.
Proof.
  induction l as [|s0 l IH]; intros m s; cbn [foldl]; [by rewrite decide_False by set_solver|]. rewrite IH.
  assert (put_values mf m s0 !! s = if decide (s = s0) then union_with (fun x _ => Some x) (mf !! s) (m !! s) else m !! s) as E.
  { unfold put_values. destruct (decide (s = s0)) as [->|Hne].
    - destruct (mf !! s0) as [ov|] eqn:Eo; [rewrite lookup_insert_eq; by destruct (m !! s0)|by destruct (m !! s0)].
    - destruct (mf !! s0); by rewrite ?lookup_insert_ne. }
  rewrite E. destruct (decide (s = s0)) as [->|Hne].
  - rewrite (decide_True (P := s0 ∈ s0 :: l)) by set_solver. destruct (mf !! s0), (m !! s0); cbn; by destruct (decide (s0 ∈ l)).
  - destruct (decide (s ∈ l)) as [Hl|Hl]; [by rewrite decide_True by set_solver|]. by rewrite decide_False by set_solver.
Qed.

Lemma put_values_union (mf m : values) l : (forall s, s ∈ l <-> is_Some (mf !! s)) -> foldl (put_values mf) m l = mf ∪ m.
Proof.
  intros Hl. apply map_eq. intros s. rewrite put_values_all, lookup_union.
  destruct (decide (s ∈ l)) as [Hs|Hs]; [by destruct (mf !! s), (m !! s)|]. rewrite Hl in Hs.
  destruct (mf !! s); [destruct Hs; eauto|by destruct (m !! s)].
Qed.

Definition copy_all (to_ : Z) (l : list (string * Z)) w : res (unit * world T) :=
  foldl (fun acc p => match acc with Ok (_, w) => properties_copy true p.2 p.1 to_ w | Fail f => Fail f end) (Ok (tt, w)) l.

Lemma copy_all_rep x to_ mf l : forall w L A m,
  prop_rep x w L A -> A !! to_ = Some m -> L = list_to_set (nonzero l.*2) -> NoDup (nonzero l.*2) ->
  (forall s a, (s, a) ∈ l -> exists ov, mf !! s = Some ov /\ cell (strs w) a ov) ->
  exists w', copy_all to_ l w = Ok (tt, w') /\ prop_rep x w' ∅ (<[to_ := foldl (put_values mf) m l.*1]> A) /\ same w w' /\
    forall h', h' <> to_ -> objs w' !! h' = objs w !! h'.
Proof.
  induction l as [|[s a] l IH]; intros w L A m K Hm HL Hnd Hc.
  { exists w. subst L. split; [done|]. cbn. by rewrite insert_id. }
  destruct (Hc s a) as (ov & Hov & Hcell); [set_solver|]. cbn [fmap list_fmap snd] in HL, Hnd. unfold nonzero in HL, Hnd. rewrite filter_cons in HL, Hnd.
  assert (a = 0 \/ a ∈ L) as Ha. { destruct (decide (a = 0)) as [|Hz]; [by left|right]. subst L. rewrite decide_True by done. set_solver. }
  assert (NoDup (nonzero l.*2) /\ L ∖ {[a]} = list_to_set (nonzero l.*2)) as [Hnd' HL'].
  { subst L. fold (nonzero l.*2) in *. destruct (decide (a <> 0)) as [Hz|Hz].
    - apply NoDup_cons in Hnd as [Hn Hnd]. split; [done|]. cbn. set_solver.
    - split; [done|]. assert (a ∉ (list_to_set (nonzero l.*2) : gset Z)); [|set_solver]. rewrite elem_of_list_to_set. unfold nonzero.
      intros [? _]%list_elem_of_filter. done. }
  pose proof (copy_rep x w L A to_ m s a ov K Hm Hcell Ha) as W. unfold wp in W. unfold copy_all. cbn [foldl fst snd].
  destruct (properties_copy true a s to_ w) as [[[] w1]|]; [|done]. destruct W as (K1 & L1 & O1 & S1 & _).
  destruct (IH w1 (L ∖ {[a]}) (<[to_ := <[s := ov]> m]> A) (<[s := ov]> m) K1) as (w' & E & K' & L' & O'); try done.
  - by rewrite lookup_insert_eq.
  - intros s' a' Hin. destruct (Hc s' a') as (ov' & H1 & H2); [set_solver|]. exists ov'. split; [done|]. unfold cell in *.
    destruct (Z.eqb_spec a' 0) as [|Hz]; [done|]. rewrite S1; [done|]. assert (a' ∈ L ∖ {[a]}); [|set_solver].
    rewrite HL', elem_of_list_to_set. unfold nonzero. apply list_elem_of_filter. split; [done|]. apply list_elem_of_fmap. by exists (s', a').
  - exists w'. split; [exact E|]. rewrite insert_insert_eq in K'. cbn [fmap list_fmap foldl fst]. unfold put_values at 2. rewrite Hov.
    split; [done|]. split; [by eapply same_trans|]. intros h' Hh. by rewrite O', O1.
Qed.

Lemma merge_rep w A to_ from mt mf :
  prop_rep 0 w ∅ A -> to_ <> from -> A !! to_ = Some mt -> A !! from = Some mf ->
  wp (properties_Merge true to_ from ;; properties_FreeEx2 from) w (fun _ w' =>
    prop_rep 0 w' ∅ (<[to_ := mf ∪ mt]> (delete from A)) /\ same w w').
Proof.
  intros K Hne Hmt Hmf. destruct (rep_obj 0 w ∅ A from mf K Hmf) as (t & Hx & Ht & Ho & Hc). pose proof (hide_rep w A from t K Ht) as K1.
  pose proof (table_addrs_nodup w A from t K Ht) as Hnd.
  set (cb := fun data name (acc : res (unit * world T)) => match acc with Ok (_, w) => properties_copy true data name to_ w | Fail f => Fail f end).
  destruct (st_for_each_spec t cb (Ok (tt, w)) Ho) as (l & Hp & E).
  assert (nonzero l.*2 ≡ₚ addrs t) as Hpn by (unfold addrs, nonzero; by rewrite Hp).
  assert (forall s a, (s, a) ∈ l <-> st_map t !! s = Some a) as Hl by (intros s a; rewrite Hp; apply elem_of_map_to_list).
  destruct (copy_all_rep from to_ mf l w (list_to_set (addrs t)) (delete from A) mt K1) as (w1 & E1 & K2 & L2 & O2).
  - by rewrite lookup_delete_ne.
  - by rewrite Hpn.
  - by rewrite Hpn.
  - intros s a Hs%Hl. specialize (Hc s). rewrite Hs in Hc. destruct (mf !! s) as [ov|]; inv Hc. eauto.
  - apply wp_bind. unfold wp at 1, properties_Merge. rewrite Ht. fold cb. rewrite E.
    assert (foldl (fun c p => cb p.2 p.1 c) (Ok (tt, w)) l = Ok (tt, w1)) as -> by exact E1.
    unfold properties_FreeEx2. apply wp_bind. unfold wp at 1, get_obj. rewrite O2, Ht by done. apply wp_modify.
    split; [|done]. apply unhide_rep. rewrite (put_values_union mf mt) in K2; [done|]. intros s. rewrite list_elem_of_fmap. split.
    + intros ([s' a] & -> & Hs%Hl). cbn [fst]. specialize (Hc s'). rewrite Hs in Hc. destruct (mf !! s'); inv Hc. eauto.
    + intros [ov Hov]. specialize (Hc s). rewrite Hov in Hc. destruct (st_map t !! s) as [a|] eqn:Ea; inv Hc. exists (s, a). by rewrite Hl.
Qed.

(** ** New objects and texts *)

Lemma create_object_rep w A : prop_rep 0 w ∅ A ->
  wp properties_Create w (fun h w' => h = obj_brk w /\ prop_rep 0 w' ∅ (<[h := ∅]> A) /\ A !! h = None /\
    obj_brk w' = h + 1 /\ lex w' = lex w).
Proof.
  intros K. unfold properties_Create. destruct (st_create_spec ""%string TABLE_SIZE) as (t & -> & Ho & Em); [done|done|].
  apply wp_bind, wp_gets, wp_bind, wp_modify, wp_ret. pose proof (rep_delete_zero _ _ _ _ K) as E0. pose proof (pr_obrk _ _ _ _ K) as Hb.
  assert (objs w !! obj_brk w = None) as Hn. { apply eq_None_not_Some. intros Hh. apply (pr_handles _ _ _ _ K) in Hh. lia. }
  assert (A !! obj_brk w = None) as HA. { pose proof (pr_objs _ _ _ _ K (obj_brk w)) as Ho'. rewrite E0, Hn in Ho'. by inv Ho'. }
  split; [done|]. split; [|done]. set (w' := put_objs _ _ w).
  assert (delete 0 (objs w') = <[obj_brk w := t]> (objs w)) as E0' by (cbn; rewrite delete_insert_ne by lia; by rewrite E0).
  assert (forall b h' s, ref 0 w' b h' s <-> ref 0 w b h' s) as Href.
  { intros b h' s. unfold ref. rewrite E0', E0. split; intros (t0 & E1 & E2).
    - apply lookup_insert_Some in E1 as [[_ <-]|[_ E1]]; [by rewrite Em, lookup_empty in E2|by exists t0].
    - exists t0. split; [|done]. rewrite lookup_insert_ne; [done|]. congruence. }
  split.
  - intros h'. rewrite E0'. pose proof (pr_objs _ _ _ _ K h') as Ho'. rewrite E0 in Ho'. destruct (decide (h' = obj_brk w)) as [->|Hne].
    + rewrite !lookup_insert_eq. constructor. split; [done|]. rewrite Em. intros s. rewrite !lookup_empty. constructor.
    + by rewrite !lookup_insert_ne.
  - intros a h1 s1 h2 s2 Ha R1%Href R2%Href. by eapply (pr_inj _ _ _ _ K a).
  - set_solver.
  - intros a Ha. destruct (pr_noleak _ _ _ _ K a Ha) as [?|(h' & s & R)]; [by left|]. right. exists h', s. by apply Href.
  - apply (pr_pos _ _ _ _ K).
  - apply (pr_brk _ _ _ _ K).
  - intros h' Hh. cbn in Hh |- *. apply lookup_insert_is_Some' in Hh as [<-|Hh]; [lia|]. apply (pr_handles _ _ _ _ K) in Hh. lia.
  - cbn. lia.
Qed.

(** ** Histories *)

Context (getenv : string -> option string) (env_fuel : nat).

(** A value with its variables replaced; [None]: the replacement does not return. *)
Definition expand (v : string) : option string :=
  match strReplaceEnvironmentVariable getenv env_fuel (Some v) with Ok r => Some (default v r) | Fail _ => None end.

Fixpoint apply_actions (l : list action) (m : values) : option values :=
  match l with
  | [] => Some m
  | Add (Some k) (Some v) :: l' => v ← expand v; apply_actions l' (<[k := Some v]> m)
  | Add (Some k) None :: l' => apply_actions l' (<[k := None]> m)
  | Add None _ :: _ => None
  | Echo _ :: l' => apply_actions l' m
  end.

Inductive pop : Type :=
| Create
| SetProperty (h : Z) (name v : string)
| AddText (h : Z) (text : string)
| MergeInto (to_ from : Z)
| Release (h : Z)
| GetValue (h : Z) (name : string).

Inductive presult : Type := PHandle (h : Z) | PDone | PValue (v : option string).

(** [MergeInto]: the object that was merged is released as the sources ask. *)
Definition run_pop (o : pop) : M (world T) presult :=
  match o with
  | Create => h ← properties_Create; mret (PHandle h)
  | SetProperty h k v => properties_setProperty getenv env_fuel true h k v ;; mret PDone
  | AddText h s => properties_AddString getenv env_fuel true h s ;; mret PDone
  | MergeInto t f => properties_Merge true t f ;; properties_FreeEx2 f ;; mret PDone
  | Release h => properties_Free h ;; mret PDone
  | GetValue h k => a ← properties_Get h k; if a =? 0 then mret (PValue None) else s ← read a; mret (PValue (Some s))
  end.

Fixpoint run_pops (l : list pop) : M (world T) (list presult) :=
  match l with [] => mret [] | o :: l' => r ← run_pop o; rs ← run_pops l'; mret (r :: rs) end.

(** The objects as maps, the next handle, and the lexer. *)
Record aprops : Type := mkAprops { maps : gmap Z values; next : Z; alex : lexer }.

Definition pstep (o : pop) (a : aprops) : option (presult * aprops) :=
  match o with
  | Create => Some (PHandle (next a), mkAprops (<[next a := ∅]> (maps a)) (next a + 1) (alex a))
  | SetProperty h k v =>
      m ← maps a !! h; v ← expand v; Some (PDone, mkAprops (<[h := <[k := Some v]> m]> (maps a)) (next a) (alex a))
  | AddText h s =>
      m ← maps a !! h; s ← expand s;
      match yylex (alex a) s with
      | Ok (z, acts) => m ← apply_actions acts m; Some (PDone, mkAprops (<[h := m]> (maps a)) (next a) z)
      | Fail _ => None
      end
  | MergeInto t f =>
      mt ← maps a !! t; mf ← maps a !! f;
      if decide (t = f) then None else Some (PDone, mkAprops (<[t := mf ∪ mt]> (delete f (maps a))) (next a) (alex a))
  | Release h => _ ← maps a !! h; Some (PDone, mkAprops (delete h (maps a)) (next a) (alex a))
  | GetValue h k => m ← maps a !! h; Some (PValue (if len k =? 0 then None else mjoin (m !! k)), a)
  end.

Fixpoint pruns (l : list pop) (a : aprops) : option (list presult * aprops) :=
  match l with [] => Some ([], a) | o :: l' => '(r, a') ← pstep o a; '(rs, a'') ← pruns l' a'; Some (r :: rs, a'') end.

Definition props_rep w (a : aprops) : Prop := prop_rep 0 w ∅ (maps a) /\ obj_brk w = next a /\ lex w = alex a.

Lemma set_rep w A h m k v v' :
  prop_rep 0 w ∅ A -> A !! h = Some m -> expand v = Some v' ->
  wp (properties_setProperty getenv env_fuel true h k v) w (fun _ w' => prop_rep 0 w' ∅ (<[h := <[k := Some v']> m]> A) /\ same w w').
Proof.
  intros K Hm Hv. unfold properties_setProperty, replaced. apply wp_bind, wp_bind. unfold wp at 1, lift. unfold expand in Hv.
  destruct (strReplaceEnvironmentVariable getenv env_fuel (Some v)) as [r|]; [|done]. injection Hv as <-.
  eapply wp_mono; [by apply (strdup_rep 0 w ∅ A)|]. cbn beta. intros a w1 (K1 & Hc & Ha & L1 & B1).
  eapply wp_mono; [apply (add_rep 0 w1 _ A h m k a _ K1 Hm Hc); right; set_solver|]. cbn beta. intros r' w2 (_ & K2 & L2).
  split; [|by eapply same_trans]. eapply eq_ind with (P := fun X => prop_rep 0 w2 X _); [exact K2|]. set_solver.
Qed.

Lemma actions_rep l : forall w A h m m',
  prop_rep 0 w ∅ A -> A !! h = Some m -> apply_actions l m = Some m' ->
  wp (lexer_actions getenv env_fuel true h l) w (fun _ w' => prop_rep 0 w' ∅ (<[h := m']> A) /\ same w w').
Proof.
  induction l as [|[ok ov|c] l IH]; intros w A h m m' K Hm E; cbn [lexer_actions apply_actions] in *.
  - injection E as <-. apply wp_ret. by rewrite insert_id.
  - destruct ok as [k|]; [|done]. apply wp_bind.
    assert (exists ov', (match ov with Some v => Some <$> expand v | None => Some None end = Some ov') /\ apply_actions l (<[k := ov']> m) = Some m') as (ov' & Eo & E').
    { destruct ov as [v|]; [|by exists None]. destruct (expand v) as [v'|]; [|done]. by exists (Some v'). }
    assert (wp (add_property getenv env_fuel true h (Some k) ov) w (fun _ w' => prop_rep 0 w' ∅ (<[h := <[k := ov']> m]> A) /\ same w w')) as W.
    { unfold add_property. destruct ov as [v|].
      - destruct (expand v) as [v'|] eqn:Ev; [|done]. injection Eo as <-. pose proof (set_rep w A h m k v v' K Hm Ev) as W. unfold properties_setProperty in W.
        unfold wp in *. unfold mbind, M_bind in *. destruct (replaced getenv env_fuel v w) as [[a w1]|]; [|done].
        by destruct (propertiesImpl_AddProperty true h k a w1) as [[r w2]|].
      - injection Eo as <-. apply wp_bind, wp_ret, wp_bind. eapply wp_mono; [apply (add_rep 0 w ∅ A h m k 0 None K Hm); [done|by left]|].
        cbn beta. intros r w1 (_ & K1 & L1). apply wp_ret. split; [|done]. eapply eq_ind with (P := fun X => prop_rep 0 w1 X _); [exact K1|]. set_solver. }
    eapply wp_mono; [exact W|]. cbn beta. intros [] w1 (K1 & L1).
    eapply wp_mono; [apply (IH w1 _ h (<[k := ov']> m) m' K1); [by rewrite lookup_insert_eq|done]|]. cbn beta. rewrite insert_insert_eq.
    intros [] w2 (K2 & L2). split; [done|by eapply same_trans].
  - apply wp_bind, wp_modify. assert (prop_rep 0 (put_echo (echo w ++ [c]) w) ∅ A) as K1 by (by destruct K).
    eapply wp_mono; [by apply (IH _ A h m m' K1)|]. done.
Qed.

Lemma pop_rep o w a r a' : props_rep w a -> pstep o a = Some (r, a') ->
  wp (run_pop o) w (fun r' w' => r' = r /\ props_rep w' a').
Proof.
  intros (K & Hn & Hz) E. destruct o as [|h k v|h s|t f|h|h k]; cbn [run_pop pstep] in *.
  - injection E as <- <-. apply wp_bind. eapply wp_mono; [by apply create_object_rep|]. cbn beta. intros h w1 (-> & K1 & _ & B1 & L1).
    apply wp_ret. rewrite <- Hn in *. split; [done|]. split; [done|]. by rewrite B1, L1.
  - destruct (maps a !! h) as [m|] eqn:Hm; [|done]. cbn in E. destruct (expand v) as [v'|] eqn:Ev; [|done]. injection E as <- <-.
    apply wp_bind. eapply wp_mono; [by eapply set_rep|]. cbn beta. intros _ w1 (K1 & L1 & B1). apply wp_ret. split; [done|]. split; [done|].
    cbn. by rewrite L1, B1.
  - destruct (maps a !! h) as [m|] eqn:Hm; [|done]. cbn in E. destruct (expand s) as [s'|] eqn:Es; [|done]. cbn in E.
    destruct (yylex (alex a) s') as [[z acts]|] eqn:Ey; [|done]. destruct (apply_actions acts m) as [m'|] eqn:Em; [|done]. injection E as <- <-.
    apply wp_bind. unfold properties_AddString. apply wp_bind. unfold wp at 1, lift. unfold expand in Es.
    destruct (strReplaceEnvironmentVariable getenv env_fuel (Some s)) as [r0|]; [|done]. injection Es as ->. apply wp_bind.
    unfold propertiesImpl_scan. apply wp_bind, wp_gets, wp_bind. rewrite Hz. unfold wp at 1, lift. rewrite Ey. apply wp_bind, wp_modify. cbn [fst snd].
    assert (prop_rep 0 (put_lex z w) ∅ (maps a)) as K1 by (by destruct K).
    eapply wp_mono; [by apply (actions_rep acts _ _ h m m' K1)|]. cbn beta. intros [] w1 (K2 & L2 & B2). apply wp_ret, wp_ret.
    split; [done|]. split; [done|]. cbn in *. by rewrite L2, B2.
  - destruct (maps a !! t) as [mt|] eqn:Ht; [|done]. cbn in E. destruct (maps a !! f) as [mf|] eqn:Hf; [|done]. cbn in E.
    destruct (decide (t = f)) as [|Hne]; [done|]. injection E as <- <-. pose proof (merge_rep w (maps a) t f mt mf K Hne Ht Hf) as W.
    unfold wp in *. unfold mbind, M_bind in *. destruct (properties_Merge true t f w) as [[[] w1]|]; [|done].
    destruct (properties_FreeEx2 f w1) as [[[] w2]|]; [|done]. destruct W as (K2 & L2 & B2). split; [done|]. split; [done|]. cbn. by rewrite L2, B2.
  - destruct (maps a !! h) as [m|] eqn:Hm; [|done]. injection E as <- <-. apply wp_bind. eapply wp_mono; [by eapply free_object_rep|]. cbn beta.
    intros [] w1 (K1 & L1 & B1). apply wp_ret. split; [done|]. split; [done|]. cbn. by rewrite L1, B1.
  - destruct (maps a !! h) as [m|] eqn:Hm; [|done]. injection E as <- <-. destruct (rep_obj 0 w ∅ _ h m K Hm) as (t & _ & Ht & Ho & Hc).
    apply wp_bind. unfold properties_Get. destruct (len k =? 0); [apply wp_ret; by apply wp_ret|].
    apply wp_bind. unfold wp at 1, get_obj. rewrite Ht. unfold wp at 1, lift. rewrite (st_lookup_spec t k Ho). specialize (Hc k).
    destruct (st_map t !! k) as [b|]; [|destruct (m !! k) as [ov|]; [by inv Hc|]; by apply wp_ret].
    destruct (m !! k) as [ov|]; inv Hc. cbn [from_option]. unfold Datatypes.id, cell in *. destruct (Z.eqb_spec b 0); [subst ov; by apply wp_ret|].
    destruct H2 as (v & Hv & ->). apply wp_bind. unfold wp at 1, read. rewrite Hv. by apply wp_ret.
Qed.

Lemma pops_rep l : forall w a rs a', props_rep w a -> pruns l a = Some (rs, a') ->
  wp (run_pops l) w (fun rs' w' => rs' = rs /\ props_rep w' a').
Proof.
  induction l as [|o l IH]; intros w a rs a' K E; cbn [pruns run_pops] in *.
  - injection E as <- <-. by apply wp_ret.
  - destruct (pstep o a) as [[r a1]|] eqn:E1; [|done]. cbn in E. destruct (pruns l a1) as [[rs1 a2]|] eqn:E2; [|done].
    injection E as <- <-. apply wp_bind. eapply wp_mono; [by eapply pop_rep|]. cbn beta. intros r' w1 [-> K1]. apply wp_bind.
    eapply wp_mono; [by eapply IH|]. cbn beta. intros rs' w2 [-> K2]. by apply wp_ret.
Qed.

(** Nothing is allocated. *)
Definition empty_world : world T := mkWorld ∅ 1 ∅ 1 clean [].

Lemma empty_rep : props_rep empty_world (mkAprops ∅ 1 clean).
Proof.
  split; [|done]. split; cbn; try lia; try set_solver.
  - intros h. rewrite delete_empty, !lookup_empty. constructor.
  - intros a h s h' s' _ (t & [_ Ht]%lookup_delete_Some & _). done.
  - intros a [? Ha]. by rewrite lookup_empty in Ha.
  - intros a [? Ha]. by rewrite lookup_empty in Ha.
  - intros h [? Hh]. by rewrite lookup_empty in Hh.
Qed.

End spec.

(** ** Claims *)

(** C28: properties are maps, and their strings are managed correctly.  From an
    empty start, whatever objects are created, set, filled from texts, merged
    (the merged object then released without its values), read and released, the
    answers are those of maps from names to values, a merge preferring the values
    merged in; no string is read or freed after it was freed, and every string
    that is still allocated is a value of an object. *)
Theorem properties_refine_maps {T} `{StringTable T} getenv fuel l rs a' :
  pruns getenv fuel l (mkAprops ∅ 1 clean) = Some (rs, a') ->
  wp (run_pops getenv fuel l) (empty_world : world T) (fun rs' w' => rs' = rs /\
    (forall h, is_Some (objs w' !! h) <-> is_Some (maps a' !! h)) /\
    (forall p, is_Some (strs w' !! p) -> exists h t s, objs w' !! h = Some t /\ st_map t !! s = Some p)).
Proof.
  intros E. eapply wp_mono; [by eapply pops_rep; [apply empty_rep|]|]. cbn beta. intros rs' w' (-> & K & _ & _).
  split; [done|]. split.
  - intros h. pose proof (pr_objs _ _ _ _ K h) as Ho. rewrite (rep_delete_zero _ _ _ _ K) in Ho.
    destruct (objs w' !! h), (maps a' !! h); inv Ho; split; eauto; by intros [].
  - intros p Hp. destruct (pr_noleak _ _ _ _ K p Hp) as [?|(h & s & t & [_ Ht]%lookup_delete_Some & Hs)]; [set_solver|]. eauto.
Qed.

(** merging the same object twice destroys its values.  The second merge
    finds the values of the first one in the target, frees them as stale and
    enters the same addresses again: reading such a property then is invalid. *)
Theorem second_merge_dangles {T} `{StringTable T} (w : world T) A to_ from mt mf s v :
  prop_rep 0 w ∅ A -> to_ <> from -> A !! to_ = Some mt -> A !! from = Some mf -> mf = {[s := Some v]} -> len s <> 0 ->
  wp (properties_Merge true to_ from ;; properties_Merge true to_ from) w (fun _ w' =>
    wp (properties_Get to_ s) w' (fun a w'' => a <> 0 /\ read a w'' = Fail InvalidDeref)).
Proof.
  intros K Hne Hmt Hmf -> Hs. destruct (rep_obj 0 w ∅ A from _ K Hmf) as (t & Hx & Ht & Ho & Hc). pose proof (hide_rep w A from t K Ht) as K1.
  destruct (st_map t !! s) as [a|] eqn:Ea; [|specialize (Hc s); rewrite Ea, lookup_singleton_eq in Hc; by inv Hc].
  assert (st_map t = {[s := a]}) as Em.
  { apply map_eq. intros s'. destruct (decide (s' = s)) as [->|Hs']; [by rewrite lookup_singleton_eq|]. rewrite lookup_singleton_ne by done.
    specialize (Hc s'). rewrite lookup_singleton_ne in Hc by done. by destruct (st_map t !! s'); inv Hc. }
  assert (cell (strs w) a (Some v)) as Hcell by (specialize (Hc s); rewrite Ea, lookup_singleton_eq in Hc; by inv Hc).
  assert (a <> 0) as Hz by (intros ->; done).
  assert (forall w1, objs w1 !! from = Some t -> properties_Merge true to_ from w1 = properties_copy true a s to_ w1) as Hmerge.
  { intros w1 Ht1. unfold properties_Merge. rewrite Ht1.
    match goal with |- context [st_for_each ?cb ?c t] => destruct (st_for_each_spec t cb c Ho) as (l & Hp & E) end. rewrite E. rewrite Em, map_to_list_singleton in Hp.
    apply Permutation_singleton_r in Hp as ->. done. }
  assert (addrs t = [a]) as Ead by (unfold addrs, nonzero; rewrite Em, map_to_list_singleton; cbn; by destruct (decide (a <> 0))).
  apply wp_bind. unfold wp at 1. rewrite (Hmerge w Ht).
  assert (delete from A !! to_ = Some mt) as Hmt' by (by rewrite lookup_delete_ne).
  pose proof (copy_rep from w _ (delete from A) to_ mt s a (Some v) K1 Hmt' Hcell ltac:(right; rewrite Ead; set_solver)) as W.
  unfold wp in W. destruct (properties_copy true a s to_ w) as [[[] w1]|] eqn:E1; [|done]. destruct W as (_ & _ & O2 & S2 & t1 & Ht1 & Ho1 & Ea1).
  unfold wp at 1. rewrite Hmerge by (by rewrite O2).
  assert (is_Some (strs w1 !! a)) as [v1 Hv1].
  { rewrite S2 by (rewrite Ead; set_solver). by eapply cell_live. }
  unfold properties_copy, mbind, M_bind, get_obj, lift. rewrite Ht1, (st_lookup_spec t1 s Ho1), Ea1. cbn [from_option]. unfold Datatypes.id.
  destruct (Z.eqb_spec a 0); [done|]. unfold free. destruct (Z.eqb_spec a 0); [done|]. rewrite Hv1. cbn [objs put_strs]. rewrite Ht1.
  destruct (st_insert_spec t1 s a Ho1) as (t1' & Ei1 & Ho1' & Em1'). rewrite Ei1. unfold put_obj, modify. cbn [snd].
  unfold properties_Get. destruct (Z.eqb_spec (len s) 0); [done|]. apply wp_bind. unfold wp at 1, get_obj. cbn. rewrite lookup_insert_eq.
  unfold wp, lift. rewrite (st_lookup_spec t1' s Ho1'), Em1', lookup_insert_eq. split; [done|]. unfold read. cbn. by rewrite lookup_delete_eq.
Qed.

(** ** The search path *)

(** The directories of a path, each followed by the delimiter or the end. *)
Fixpoint join_path (l : list string) : string :=
  match l with
  | [] => EmptyString
  | d :: l' => match l' with [] => d | _ => d ++ String PATH_DELIM (join_path l') end
  end.

Definition directory (d : string) : Prop :=
  d <> EmptyString /\ sall (not_char PATH_DELIM) d = true /\ sall (not_char (chr 34)) d = true.

Lemma no_quotes s : sall (not_char (chr 34)) s = true -> remove_quotes s = s.
Proof.
  induction s as [|c s IH]; [done|]. cbn. intros [Hc Hs]%andb_prop. unfold not_char in Hc. apply negb_true_iff in Hc. by rewrite Hc, IH.
Qed.

Lemma join_no_quotes l : Forall directory l -> sall (not_char (chr 34)) (join_path l) = true.
Proof.
  induction 1 as [|d l (_ & _ & Hd) _ IH]; [done|]. cbn [join_path]. destruct l as [|d' l]; [done|].
  rewrite sall_app, Hd. cbn [sall andb]. by rewrite IH.
Qed.

(** What is cut off before the next delimiter, or the end. *)
Lemma sub_paths_text np : forall d seg rest u, sall (not_char PATH_DELIM) d = true -> (u = true -> d <> EmptyString) ->
  (rest = EmptyString \/ exists r, rest = String PATH_DELIM r) ->
  sub_paths np seg u (d ++ rest) =
    (len (seg ++ d), match np with Some p => take_string (String.length (seg ++ d)) p | None => (seg ++ d)%string end) ::
    (match rest with EmptyString => [] | String _ r => sub_paths None EmptyString true r end).
Proof.
  induction d as [|c d IH]; intros seg rest u Hd Hu Hr.
  - destruct u; [by destruct Hu|]. change (EmptyString ++ rest)%string with rest. rewrite string_app_nil.
    by destruct Hr as [->|(r & ->)].
  - cbn in Hd. apply andb_prop in Hd as [Hc Hd]. unfold not_char in Hc. apply negb_true_iff in Hc. rewrite string_app_cons. cbn [sub_paths].
    rewrite Hc, andb_false_r. rewrite IH; [|done|done|done]. by rewrite string_app_assoc.
Qed.

Lemma join_cases d l : join_path (d :: l) = (d ++ match l with [] => EmptyString | _ => String PATH_DELIM (join_path l) end)%string.
Proof. cbn [join_path]. destruct l; [by rewrite string_app_nil|done]. Qed.

Lemma sub_paths_rest l : Forall directory l -> l <> [] -> sub_paths None EmptyString true (join_path l) = (fun d => (len d, d)) <$> l.
Proof.
  induction 1 as [|d l (Hne & Hd & _) Hl IH]; intros Hn; [done|]. rewrite join_cases, sub_paths_text; [|done|done|destruct l; eauto].
  change (EmptyString ++ d)%string with d. cbn [fmap list_fmap]. f_equal. destruct l as [|d' l]; [done|]. by apply IH.
Qed.

(** The sub paths of a plain search path are its directories. *)
Lemma sub_paths_directories d l : Forall directory (d :: l) ->
  let path := join_path (d :: l) in
  sub_paths (Some (remove_quotes path)) EmptyString false path = (fun d => (len d, d)) <$> d :: l.
Proof.
  intros Hl. cbn zeta. rewrite no_quotes by (by apply join_no_quotes). pose proof Hl as Hl'. apply Forall_cons in Hl' as [(Hne & Hd & _) Hl2].
  rewrite join_cases, sub_paths_text; [|done|done|destruct l; eauto]. change (EmptyString ++ d)%string with d. rewrite take_string_app.
  cbn [fmap list_fmap]. f_equal. destruct l as [|d' l]; [done|]. by apply sub_paths_rest.
Qed.

(** a properties file is searched along the path.  With a path of
    directories (none empty, no quotes, together shorter than the buffers),
    [properties_Load] reads the file of the first directory that has it, and
    nothing else. *)
Theorem load_takes_first {T} `{StringTable T} getenv fuel (w : world T) A files pre d post name text m :
  prop_rep 0 w ∅ A -> Forall directory (pre ++ d :: post) -> len (join_path (pre ++ d :: post)) < 256 ->
  Forall (fun x => files (x +:+ "/" +:+ name)%string = None) pre -> files (d +:+ "/" +:+ name)%string = Some text ->
  lex w = clean -> (forall z acts, yylex clean text = Ok (z, acts) -> apply_actions getenv fuel acts ∅ = Some m) ->
  wp (properties_Load getenv fuel files true (Some (join_path (pre ++ d :: post))) name) w (fun h w' =>
    h <> 0 /\ prop_rep 0 w' ∅ (<[h := m]> A) /\ A !! h = None).
Proof.
  intros K Hdir Hlen Hpre Hf Hz Hm. unfold properties_Load. apply wp_bind. eapply wp_mono; [by apply create_object_rep|]. cbn beta.
  intros h w1 (-> & K1 & HA & _ & L1). pose proof (pr_obrk _ _ _ _ K) as Hb. destruct (Z.eqb_spec (obj_brk w) 0); [lia|]. cbn [from_option].
  set (h := obj_brk w) in *. set (path := join_path (pre ++ d :: post)) in *. unfold Datatypes.id. destruct (lexer_terminates clean text) as (z & acts & Ey).
  assert (wp (propertiesImpl_ImportPropertiesFromFile getenv fuel files true h d name) w1 (fun r w' => r = 1 /\ prop_rep 0 w' ∅ (<[h := m]> A))) as Wd.
  { unfold propertiesImpl_ImportPropertiesFromFile. rewrite Hf. apply wp_bind. unfold propertiesImpl_scan. apply wp_bind, wp_gets, wp_bind.
    rewrite L1, Hz. unfold wp at 1, lift. rewrite Ey. apply wp_bind, wp_modify. cbn [fst snd].
    assert (prop_rep 0 (put_lex z w1) ∅ (<[h := ∅]> A)) as K2 by (by destruct K1).
    eapply wp_mono; [apply (actions_rep getenv fuel acts _ _ h ∅ m K2); [by rewrite lookup_insert_eq|by eapply Hm]|]. cbn beta.
    intros [] w2 (K3 & _). apply wp_ret. by rewrite insert_insert_eq in K3. }
  assert (forall l, Forall (fun x => len x < 256) (l ++ d :: post) -> Forall (fun x => files (x +:+ "/" +:+ name)%string = None) l ->
    wp (try_paths getenv fuel files true h name ((fun d => (len d, d)) <$> l ++ d :: post)) w1 (fun r w' => r = 1 /\ prop_rep 0 w' ∅ (<[h := m]> A))) as Wl.
  { induction l as [|x l IH]; intros Hlt Hn; cbn [app fmap list_fmap try_paths]; apply Forall_cons in Hlt as [Hx Hlt]; unfold PATH_SIZE.
    - destruct (Z.leb_spec 256 (len d)); [lia|]. apply wp_bind. eapply wp_mono; [exact Wd|]. cbn beta. intros r w2 [-> K2]. by apply wp_ret.
    - destruct (Z.leb_spec 256 (len x)); [lia|]. apply Forall_cons in Hn as [Hnx Hn]. apply wp_bind.
      unfold propertiesImpl_ImportPropertiesFromFile. rewrite Hnx. apply wp_ret. cbn [Z.eqb]. by apply IH. }
  assert (Forall (fun x => len x < 256) (pre ++ d :: post)) as Hlt.
  { clear -Hlen. assert (forall l x, x ∈ l -> len x <= len (join_path l)) as HG; [|apply Forall_forall; intros x Hx; specialize (HG _ x Hx); unfold path in *; lia].
    induction l as [|y l IH]; intros x Hx; [by apply elem_of_nil in Hx|]. rewrite join_cases. unfold len. rewrite length_sapp.
    apply elem_of_cons in Hx as [->|Hx]; [lia|]. specialize (IH x Hx). unfold len in IH. destruct l; [by apply elem_of_nil in Hx|]. cbn [String.length]. lia. }
  assert (0 < len path) as Hpos.
  { unfold path. destruct (pre ++ d :: post) as [|y l] eqn:E; [by destruct pre|]. rewrite join_cases. apply Forall_cons in Hdir as [(Hne & _) _].
    unfold len. rewrite length_sapp. destruct y; [done|]. cbn. lia. }
  apply wp_bind. destruct (Z.eqb_spec (len path) 0); [lia|]. 
  assert (remove_quotes path = path) as Eq by (by apply no_quotes, join_no_quotes). rewrite Eq. unfold PATH_SIZE at 1. destruct (Z.ltb_spec 256 (len path)); [lia|].
  assert (sub_paths (Some path) EmptyString false path = (fun d => (len d, d)) <$> pre ++ d :: post) as Esp.
  { unfold path. destruct (pre ++ d :: post) as [|y l] eqn:E; [by destruct pre|]. rewrite <- (sub_paths_directories y l Hdir). cbn zeta.
    by rewrite no_quotes by (by apply join_no_quotes). }
  rewrite Esp. eapply wp_mono; [by apply Wl|]. cbn beta. intros r w2 [-> K2]. apply wp_ret. done.
Qed.

(** ** Witnesses *)

Definition demo_getenv (name : string) : option string := if decide (name = "HOME"%string) then Some "/opt"%string else None.
Definition demo_pops : list pop :=
  [Create; Create; SetProperty 1 "a" "$(HOME)/x"; AddText 2 "b = 2"; SetProperty 2 "a" "y"; MergeInto 1 2;
   GetValue 1 "a"; GetValue 1 "b"; GetValue 1 "c"; SetProperty 1 "b" "3"; GetValue 1 "b"; Release 1]%string.
Definition demo_presults : list presult :=
  [PHandle 1; PHandle 2; PDone; PDone; PDone; PDone; PValue (Some "y"); PValue (Some "2"); PValue None; PDone; PValue (Some "3"); PDone]%string.

Lemma properties_refine_maps_witness :
  wp (run_pops demo_getenv 5 demo_pops) (empty_world : world WTable.wtable) (fun rs' w' => rs' = demo_presults /\
    (forall h, is_Some (objs w' !! h) <-> is_Some ((∅ : gmap Z (gmap string (option string))) !! h)) /\
    (forall p, is_Some (strs w' !! p) -> exists h t s, objs w' !! h = Some t /\ st_map t !! s = Some p)).
Proof. apply (properties_refine_maps demo_getenv 5 demo_pops demo_presults (mkAprops ∅ 3 clean)). vm_compute. reflexivity. Defined.

(** Two objects, the second with one property. *)
Definition demo_maps : gmap Z (gmap string (option string)) := <[1 := ∅]> (<[2 := {["a"%string := Some "y"%string]}]> ∅).

Lemma two_objects : exists w : world WTable.wtable,
  prop_rep 0 w ∅ demo_maps /\ lex w = clean.
Proof.
  pose proof (pops_rep demo_getenv 5 [Create; Create; SetProperty 2 "a" "y"]%string empty_world (mkAprops ∅ 1 clean)
    [PHandle 1; PHandle 2; PDone] (mkAprops demo_maps 3 clean) empty_rep ltac:(vm_compute; reflexivity)) as W.
  unfold wp in W. destruct (run_pops demo_getenv 5 _ empty_world) as [[rs w]|]; [|done]. exists w. by destruct W as (_ & K & _ & L).
Qed.

Lemma second_merge_dangles_witness : exists w : world WTable.wtable,
  wp (properties_Merge true 1 2 ;; properties_Merge true 1 2) w (fun _ w' =>
    wp (properties_Get 1 "a") w' (fun a w'' => a <> 0 /\ read a w'' = Fail InvalidDeref)).
Proof.
  destruct two_objects as (w & K & _). exists w.
  apply (second_merge_dangles w _ 1 2 ∅ {["a"%string := Some "y"%string]} "a" "y" K); vm_compute; done.
Defined.

Definition demo_files (name : string) : option string :=
  if decide (name = "/opt/mama/mama.properties"%string) then Some "k=v"%string else None.

Lemma load_takes_first_witness : exists w : world WTable.wtable,
  wp (properties_Load demo_getenv 5 demo_files true (Some "/etc:/opt/mama:/usr"%string) "mama.properties") w (fun h w' =>
    h <> 0 /\ prop_rep 0 w' ∅ (<[h := {["k"%string := Some "v"%string]}]> demo_maps) /\ demo_maps !! h = None).
Proof.
  destruct two_objects as (w & K & L). exists w.
  apply (load_takes_first demo_getenv 5 w _ demo_files ["/etc"]%string "/opt/mama" ["/usr"]%string "mama.properties" "k=v"
           {["k"%string := Some "v"%string]} K); try done.
  - repeat constructor; done.
  - repeat constructor.
  - vm_compute. intros z acts [= <- <-]. reflexivity.
Defined.
