(* ===== verification/RefreshTransport.v ===== *)
(** * Refreshing subscriptions (mama/c_cpp/src/c/refreshtransport.c)

    Publishers forget subscribers that do not show up for an hour.  The transport
    therefore sends a refresh for every subscription before that: a timer looks
    at the subscriptions every 13.99 seconds.  New subscriptions wait in a list
    of their own and get their first refresh at a random time, at least five
    minutes after they were made; then they move to the main list, which is kept
    in the order of the times of the next refresh.

    The two lists are [wList]s of the same elements (list.c is modelled in
    WList.v and shown to be a sequence in WListSpec.v): here they are sequences
    of addresses, with the structures behind them in a heap and the elements
    given back in the free list of the list they were given back to.  [time] is a
    clock that does not go backwards. *)

From S2P Require Import Prelude MamaStatus Throttle.
From Stdlib Require Import SpecFloat.

Module RefreshTransport.

(** In seconds. *)
Definition MAMA_REFRESHINTERVALMIN : Z := 5 * 60.
Definition MAMA_REFRESHINTERVALRAND : Z := 55 * 60.

(** [REFRESH_GRANULARITY] is 13.99: as a whole number, in hundredths, and as a
    double. *)
Definition GRANULARITY_int : Z := 13.
Definition GRANULARITY_hundredths : Z := 1399.
Definition GRANULARITY_double : spec_float := S754_finite false 7875669848364155 (-49).

Definition RAND_MAX : Z := 2 ^ 31 - 1.

(** ** State *)

Record SubscriptionInfo : Type := mkInfo { mSubscription : Z; mNextRefreshTime : Z; mIsInMainList : bool }.

Definition set_mNextRefreshTime (v : Z) (i : SubscriptionInfo) : SubscriptionInfo := mkInfo (mSubscription i) v (mIsInMainList i).
Definition set_mIsInMainList (v : bool) (i : SubscriptionInfo) : SubscriptionInfo := mkInfo (mSubscription i) (mNextRefreshTime i) v.

(** A refresh that was sent: for which subscription, at which time, and when it
    was due. *)
Record refresh : Type := mkRefresh { r_subscription : Z; r_time : Z; r_due : Z }.

(** [infos], [ibrk]: the elements; [mainFree], [newFree]: the free lists of the
    two lists; [clock]: what [time] returned last, [delays]: by how much it goes
    on with each further call (not at all when none is left); [rand_values]: what
    [rand] returns. *)
Record refreshTransportImpl : Type := mkRefreshTransport {
  mListeners : list Z;
  mNewListeners : list Z;
  infos : gmap Z SubscriptionInfo;
  ibrk : Z;
  mainFree : list Z;
  newFree : list Z;
  mRefreshTimer : bool;
  mStaleRecapTimer : bool;
  mStaleRecapTimeout : Z;
  clock : Z;
  delays : list Z;
  rand_values : list Z;
  sent : list refresh;
  recaps : list Z;
}.

Section setters.

Context (t : refreshTransportImpl).

Definition put_mListeners (v : list Z) : refreshTransportImpl :=
  mkRefreshTransport v (mNewListeners t) (infos t) (ibrk t) (mainFree t) (newFree t) (mRefreshTimer t) (mStaleRecapTimer t) (mStaleRecapTimeout t) (clock t) (delays t) (rand_values t) (sent t) (recaps t).
Definition put_mNewListeners (v : list Z) : refreshTransportImpl :=
  mkRefreshTransport (mListeners t) v (infos t) (ibrk t) (mainFree t) (newFree t) (mRefreshTimer t) (mStaleRecapTimer t) (mStaleRecapTimeout t) (clock t) (delays t) (rand_values t) (sent t) (recaps t).
Definition put_infos (v : gmap Z SubscriptionInfo) (b : Z) : refreshTransportImpl :=
  mkRefreshTransport (mListeners t) (mNewListeners t) v b (mainFree t) (newFree t) (mRefreshTimer t) (mStaleRecapTimer t) (mStaleRecapTimeout t) (clock t) (delays t) (rand_values t) (sent t) (recaps t).
Definition put_free (m n : list Z) : refreshTransportImpl :=
  mkRefreshTransport (mListeners t) (mNewListeners t) (infos t) (ibrk t) m n (mRefreshTimer t) (mStaleRecapTimer t) (mStaleRecapTimeout t) (clock t) (delays t) (rand_values t) (sent t) (recaps t).
Definition put_timers (r s : bool) : refreshTransportImpl :=
  mkRefreshTransport (mListeners t) (mNewListeners t) (infos t) (ibrk t) (mainFree t) (newFree t) r s (mStaleRecapTimeout t) (clock t) (delays t) (rand_values t) (sent t) (recaps t).
Definition put_clock (c : Z) (d : list Z) : refreshTransportImpl :=
  mkRefreshTransport (mListeners t) (mNewListeners t) (infos t) (ibrk t) (mainFree t) (newFree t) (mRefreshTimer t) (mStaleRecapTimer t) (mStaleRecapTimeout t) c d (rand_values t) (sent t) (recaps t).
Definition put_rand (r : list Z) : refreshTransportImpl :=
  mkRefreshTransport (mListeners t) (mNewListeners t) (infos t) (ibrk t) (mainFree t) (newFree t) (mRefreshTimer t) (mStaleRecapTimer t) (mStaleRecapTimeout t) (clock t) (delays t) r (sent t) (recaps t).
Definition put_sent (v : list refresh) : refreshTransportImpl :=
  mkRefreshTransport (mListeners t) (mNewListeners t) (infos t) (ibrk t) (mainFree t) (newFree t) (mRefreshTimer t) (mStaleRecapTimer t) (mStaleRecapTimeout t) (clock t) (delays t) (rand_values t) v (recaps t).
Definition put_recaps (v : list Z) : refreshTransportImpl :=
  mkRefreshTransport (mListeners t) (mNewListeners t) (infos t) (ibrk t) (mainFree t) (newFree t) (mRefreshTimer t) (mStaleRecapTimer t) (mStaleRecapTimeout t) (clock t) (delays t) (rand_values t) (sent t) v.

End setters.

Abbreviation RM := (M refreshTransportImpl).

Definition get_info (a : Z) : RM SubscriptionInfo := fun t =>
  match infos t !! a with Some i => Ok (i, t) | None => Fail InvalidDeref end.
Definition put_info (a : Z) (i : SubscriptionInfo) : RM unit := modify (fun t => put_infos t (<[a := i]> (infos t)) (ibrk t)).

(** [time (NULL)]. *)
Definition time : RM Z := fun t =>
  match delays t with
  | [] => Ok (clock t, t)
  | d :: ds => let c := clock t + d in Ok (c, put_clock t c ds)
  end.

Definition rand : RM Z := fun t =>
  match rand_values t with
  | [] => Ok (0, t)
  | r :: rs => Ok (r, put_rand t rs)
  end.

(** ** Life cycle *)

(** [timeout]: the setting mama.maybestale.recap.timeout. *)
Definition refreshTransport_create (timeout now : Z) : refreshTransportImpl :=
  mkRefreshTransport [] [] ∅ 1 [] [] true false timeout now [] [] [] [].

(** An element of the free list of the new listeners, or a new one; zeroed. *)
Definition refreshTransport_allocateSubscInfo (mem : bool) : RM Z :=
  free ← gets newFree;
  match free with
  | a :: free' =>
      modify (fun t => put_free t (mainFree t) free') ;;
      put_info a (mkInfo 0 0 false) ;;
      mret a
  | [] =>
      if mem then
        a ← gets ibrk;
        modify (fun t => put_infos t (<[a := mkInfo 0 0 false]> (infos t)) (a + 1)) ;;
        mret a
      else mret 0
  end.

Definition refreshTransport_addSubscription (a : Z) : RM unit :=
  now ← time;
  i ← get_info a;
  put_info a (set_mNextRefreshTime (now + MAMA_REFRESHINTERVALRAND) i) ;;
  modify (fun t => put_mNewListeners t (mNewListeners t ++ [a])).

(** [mamaTransport_addSubscription] (transport.c) with a refresh transport; the
    result is the handle, 0 without memory. *)
Definition mamaTransport_addSubscription (mem : bool) (subscription : Z) : RM Z :=
  handle ← refreshTransport_allocateSubscInfo mem;
  if handle =? 0 then mret 0
  else
    i ← get_info handle;
    put_info handle (mkInfo subscription (mNextRefreshTime i) (mIsInMainList i)) ;;
    refreshTransport_addSubscription handle ;;
    mret handle.

(** [list_remove_element]: out of the sequence. *)
Definition remove_element (a : Z) (l : list Z) : list Z := filter (fun b => b <> a) l.

Definition refreshTransport_removeListener (a : Z) (freeElement : bool) : RM unit :=
  i ← get_info a;
  if mIsInMainList i then
    modify (fun t => put_mListeners t (remove_element a (mListeners t))) ;;
    (if freeElement then modify (fun t => put_free t (a :: mainFree t) (newFree t)) else mret tt)
  else
    modify (fun t => put_mNewListeners t (remove_element a (mNewListeners t))) ;;
    (if freeElement then modify (fun t => put_free t (mainFree t) (a :: newFree t)) else mret tt).

Definition refreshTransport_resetRefreshForListener (a : Z) : RM unit :=
  refreshTransport_removeListener a false ;;
  i ← get_info a;
  put_info a (set_mIsInMainList true i) ;;
  now ← time;
  i ← get_info a;
  put_info a (set_mNextRefreshTime (now + MAMA_REFRESHINTERVALRAND - 1) i) ;;
  modify (fun t => put_mListeners t (mListeners t ++ [a])).

(** ** Refreshing *)

(** [mamaSubscription_sendRefresh]. *)
Definition send_refresh (curTime : Z) (i : SubscriptionInfo) : RM unit :=
  modify (fun t => put_sent t (sent t ++ [mkRefresh (mSubscription i) curTime (mNextRefreshTime i)])).

Definition double_of_Z (z : Z) : spec_float := binary_normalize 53 1024 z 0 false.

(** [(int)((last->mNextRefreshTime - curTime)/REFRESH_GRANULARITY)], at least 1. *)
Definition intervals_until (lastTime curTime : Z) : Z :=
  let n := Throttle.int_of_double (SFdiv 53 1024 (double_of_Z (lastTime - curTime)) GRANULARITY_double) in
  if n =? 0 then 1 else n.

(** [(int)(2*(1 + ((double)rand ()/(double)RAND_MAX) * messagesPerInterval))]. *)
Definition max_messages (r messagesPerInterval : Z) : Z :=
  Throttle.int_of_double
    (SFmul 53 1024 (double_of_Z 2)
       (SFadd 53 1024 (double_of_Z 1)
          (SFmul 53 1024 (SFdiv 53 1024 (double_of_Z r) (double_of_Z RAND_MAX)) (double_of_Z messagesPerInterval)))).

(** The comparison [next > curTime + REFRESH_GRANULARITY] is one of doubles, exact
    for times below 2^46. *)
Definition beyond_granularity (next curTime : Z) : bool := curTime * 100 + GRANULARITY_hundredths <? next * 100.

(** The [while] loop over the new listeners, each of which leaves the list. *)
Fixpoint new_loop (fuel : nat) (curTime dontRefreshBefore maxMessages sentCount : Z) : RM unit :=
  match fuel with
  | O => fail OutOfFuel
  | S fuel' =>
      l ← gets mNewListeners;
      match l with
      | [] => mret tt
      | cur :: rest =>
          i ← get_info cur;
          if beyond_granularity (mNextRefreshTime i) curTime &&
             ((dontRefreshBefore <? mNextRefreshTime i) || (maxMessages <? sentCount))
          then mret tt
          else
            send_refresh curTime i ;;
            modify (fun t => put_mNewListeners t rest) ;;
            now ← time;
            put_info cur (mkInfo (mSubscription i) (now + MAMA_REFRESHINTERVALRAND) true) ;;
            modify (fun t => put_mListeners t (mListeners t ++ [cur])) ;;
            new_loop fuel' curTime dontRefreshBefore maxMessages (sentCount + 1)
      end
  end.

Definition refreshTransportImpl_processNewSubscriptions : RM unit :=
  curTime ← time;
  let dontRefreshBefore := curTime + (MAMA_REFRESHINTERVALRAND - MAMA_REFRESHINTERVALMIN) in
  l ← gets mNewListeners;
  match l with
  | [] => mret tt
  | cur :: _ =>
      i ← get_info cur;
      if dontRefreshBefore <? mNextRefreshTime i then mret tt
      else
        lastInfo ← get_info (List.last l cur);
        let intervals := intervals_until (mNextRefreshTime lastInfo) curTime in
        let messagesPerInterval := Z.quot (Z.of_nat (length l)) intervals in
        r ← rand;
        new_loop (S (length l)) curTime dontRefreshBefore (max_messages r messagesPerInterval) 0
  end.

(** The [while] loop over the main list, in which every listener that was
    refreshed goes to the end. *)
Fixpoint main_loop (fuel : nat) (curTime refreshUntil : Z) : RM unit :=
  match fuel with
  | O => fail OutOfFuel
  | S fuel' =>
      l ← gets mListeners;
      match l with
      | [] => mret tt
      | cur :: rest =>
          i ← get_info cur;
          if refreshUntil <? mNextRefreshTime i then mret tt
          else
            send_refresh curTime i ;;
            modify (fun t => put_mListeners t rest) ;;
            now ← time;
            put_info cur (set_mNextRefreshTime (now + MAMA_REFRESHINTERVALRAND) i) ;;
            modify (fun t => put_mListeners t (mListeners t ++ [cur])) ;;
            main_loop fuel' curTime refreshUntil
      end
  end.

(** [refreshTransportImpl_doRefresh], the callback of the timer. *)
Definition refreshTransportImpl_doRefresh : RM unit :=
  curTime ← time;
  let refreshUntil := curTime + GRANULARITY_int in
  refreshTransportImpl_processNewSubscriptions ;;
  l ← gets mListeners;
  main_loop (S (length l)) curTime refreshUntil.

(** ** The rest *)

Definition refreshTransport_numListeners : RM Z :=
  t ← get; mret (Z.of_nat (length (mNewListeners t)) + Z.of_nat (length (mListeners t))).

(** The subscriptions the callback gets, in this order. *)
Definition refreshTransport_iterateListeners : RM (list Z) := fun t =>
  match mapM (fun a => mSubscription <$> infos t !! a) (mListeners t ++ mNewListeners t) with
  | Some l => Ok (l, t)
  | None => Fail InvalidDeref
  end.

(** [maybe_stale]: the subscriptions whose quality is MAMA_QUALITY_MAYBE_STALE. *)
Definition checkQualityIterator (maybe_stale : Z -> bool) (subsc : Z) : RM unit :=
  if maybe_stale subsc then modify (fun t => put_recaps t (recaps t ++ [subsc])) else mret tt.

Fixpoint for_each_subscription (f : Z -> RM unit) (l : list Z) : RM unit :=
  match l with [] => mret tt | s :: l' => f s ;; for_each_subscription f l' end.

(** The timer is destroyed, but the field keeps it. *)
Definition refreshTransportImpl_staleRecapTimerCallback (maybe_stale : Z -> bool) : RM unit :=
  l ← refreshTransport_iterateListeners;
  for_each_subscription (checkQualityIterator maybe_stale) l.

Definition refreshTransport_startStaleRecapTimer : RM unit :=
  running ← gets mStaleRecapTimer;
  timeout ← gets mStaleRecapTimeout;
  if (running : bool) || (timeout =? 0) then mret tt else modify (fun t => put_timers t (mRefreshTimer t) true).

Definition refreshTransport_destroy : RM mama_status :=
  modify (fun t => put_mNewListeners t []) ;;
  modify (fun t => put_timers t false (mStaleRecapTimer t)) ;;
  mret MAMA_STATUS_OK.

End RefreshTransport.
