(* ===== verification/RefreshTransportProps.v ===== *)
(** * Refreshing subscriptions: no one is forgotten

    Every subscription is in exactly one of the lists, the lists are in the order
    of the times (the main list up to a second), and with a timer that comes
    every 14 seconds no refresh is more than a second late. *)

From S2P Require Import Prelude MamaStatus RefreshTransport.
From Stdlib Require Import Sorted.
Import RefreshTransport.

(** ** Sorted lists *)

Lemma sorted_snoc {A} (R : A -> A -> Prop) l y : StronglySorted R l -> Forall (fun x => R x y) l -> StronglySorted R (l ++ [y]).
Proof.
  induction 1 as [|x l Hl IH Hx]; intros Hy; [by repeat constructor|]. apply Forall_cons in Hy as [Hxy Hy].
  cbn. constructor; [by apply IH|]. apply Forall_app. by repeat constructor.
Qed.

Lemma sorted_sublist {A} (R : A -> A -> Prop) l k : l `sublist_of` k -> StronglySorted R k -> StronglySorted R l.
Proof.
  induction 1 as [|x l k Hs IH|x l k Hs IH]; intros HS; [done|..]; inversion HS as [|? ? HS' Hx]; subst.
  - constructor; [by apply IH|]. rewrite Forall_forall in Hx |- *. intros y Hy. by eapply Hx, elem_of_sublist.
  - by apply IH.
Qed.

(** ** The invariant *)

Definition next_of (t : refreshTransportImpl) (a : Z) : Z := default 0 (mNextRefreshTime <$> infos t !! a).
Definition times (t : refreshTransportImpl) (l : list Z) : list Z := next_of t <$> l.
Definition everything (t : refreshTransportImpl) : list Z := mListeners t ++ mNewListeners t ++ mainFree t ++ newFree t.

Record refresh_ok (t : refreshTransportImpl) : Prop := mkRefreshOk {
  ro_nodup : NoDup (everything t);
  ro_heap : forall a, a ∈ everything t -> 0 < a < ibrk t /\ is_Some (infos t !! a);
  ro_flag : forall a i, infos t !! a = Some i ->
    (a ∈ mListeners t -> mIsInMainList i = true) /\ (a ∈ mNewListeners t -> mIsInMainList i = false);
  ro_main : StronglySorted (fun x y => x <= y + 1) (times t (mListeners t));
  ro_new : StronglySorted Z.le (times t (mNewListeners t));
  ro_horizon : forall a, a ∈ mListeners t ++ mNewListeners t -> next_of t a <= clock t + MAMA_REFRESHINTERVALRAND;
  ro_brk : 0 < ibrk t;
}.

(** An element that is allocated and in no list. *)
Definition loose (t : refreshTransportImpl) (a : Z) : Prop := 0 < a < ibrk t /\ is_Some (infos t !! a) /\ a ∉ everything t.

(** Taking elements out of the lists. *)
Lemma shrink_ok t lm ln fm fn :
  refresh_ok t -> lm `sublist_of` mListeners t -> ln `sublist_of` mNewListeners t -> fm `sublist_of` mainFree t -> fn `sublist_of` newFree t ->
  refresh_ok (put_free (put_mNewListeners (put_mListeners t lm) ln) fm fn).
Proof.
  intros K H1 H2 H3 H4. set (t' := put_free _ _ _).
  assert (everything t' `sublist_of` everything t) as Hs by (unfold everything; cbn; by repeat apply sublist_app).
  destruct K as [K1 K2 K3 K4 K5 K6 K7]. split.
  - by eapply sublist_NoDup.
  - intros a Ha. cbn. apply K2. by eapply elem_of_sublist.
  - intros a i Hi. cbn in *. destruct (K3 a i Hi) as [F1 F2]. split; intros Ha; [apply F1|apply F2]; by eapply elem_of_sublist.
  - eapply sorted_sublist; [|exact K4]. unfold times. cbn. by apply fmap_sublist.
  - eapply sorted_sublist; [|exact K5]. unfold times. cbn. by apply fmap_sublist.
  - intros a Ha. apply K6. eapply elem_of_sublist; [exact Ha|]. cbn. by apply sublist_app.
  - done.
Qed.

(** Writing to an element that is in no list. *)
Lemma write_ok t a i : refresh_ok t -> a ∉ everything t -> refresh_ok (put_infos t (<[a := i]> (infos t)) (ibrk t)).
Proof.
  intros K Ha. set (t' := put_infos _ _ _).
  assert (forall b, b ∈ everything t -> infos t' !! b = infos t !! b) as Hi by (intros b Hb; cbn; rewrite lookup_insert_ne; set_solver).
  assert (forall l, (forall b, b ∈ l -> b ∈ everything t) -> times t' l = times t l) as Ht.
  { intros l Hl. apply list_fmap_ext. intros n b Hb. unfold next_of. rewrite Hi; [done|]. by eapply Hl, list_elem_of_lookup_2. }
  destruct K as [K1 K2 K3 K4 K5 K6 K7]. unfold everything in *. split; try done.
  - intros b Hb. rewrite Hi by done. by apply K2.
  - intros b j Hj. split; intros Hb; rewrite Hi in Hj by set_solver; by apply (K3 b j Hj).
  - rewrite Ht; [done|]. set_solver.
  - rewrite Ht; [done|]. set_solver.
  - intros b Hb. unfold next_of. rewrite Hi by set_solver. by apply K6.
Qed.

Lemma next_of_write t a i b : next_of (put_infos t (<[a := i]> (infos t)) b) a = mNextRefreshTime i.
Proof. unfold next_of. cbn. by rewrite lookup_insert_eq. Qed.

Lemma next_of_other t a i b c : c <> a -> next_of (put_infos t (<[a := i]> (infos t)) b) c = next_of t c.
Proof. intros Hc. unfold next_of. cbn. by rewrite lookup_insert_ne. Qed.

(** Pushing an element with its next time to the end of a list. *)
Lemma push_main_ok t a i :
  refresh_ok t -> loose t a -> infos t !! a = Some i -> mIsInMainList i = true ->
  clock t + MAMA_REFRESHINTERVALRAND - 1 <= mNextRefreshTime i <= clock t + MAMA_REFRESHINTERVALRAND ->
  refresh_ok (put_mListeners t (mListeners t ++ [a])).
Proof.
  intros K (La & Ls & Ln) Hi Hf Hx. assert (next_of t a = mNextRefreshTime i) as En by (unfold next_of; by rewrite Hi).
  set (t' := put_mListeners _ _). assert (everything t' ≡ₚ a :: everything t) as Hp by (unfold everything; cbn; solve_Permutation).
  destruct K as [K1 K2 K3 K4 K5 K6 K7]. split; try done.
  - rewrite Hp. by constructor.
  - intros b. rewrite Hp. intros [->|Hb]%elem_of_cons; [done|by apply K2].
  - intros b j Hj. cbn in *. destruct (K3 b j Hj) as [F1 F2]. split; [|done]. intros [Hb|Hb]%elem_of_app; [by apply F1|].
    apply list_elem_of_singleton in Hb as ->. congruence.
  - unfold times. cbn. rewrite fmap_app. apply sorted_snoc; [done|]. apply Forall_forall. intros x Hx'.
    apply list_elem_of_fmap in Hx' as (b & -> & Hb). specialize (K6 b ltac:(set_solver)). cbn. unfold next_of at 2. cbn. rewrite Hi. cbn. 
    unfold next_of in *. cbn in *. lia.
  - intros b Hb. cbn in Hb. change (next_of t' b) with (next_of t b). change (clock t') with (clock t).
    rewrite !elem_of_app, list_elem_of_singleton in Hb. destruct Hb as [[Hb| ->]|Hb]; [apply K6; set_solver|rewrite En; lia|apply K6; set_solver].
Qed.

Lemma push_new_ok t a i :
  refresh_ok t -> loose t a -> infos t !! a = Some i -> mIsInMainList i = false ->
  mNextRefreshTime i = clock t + MAMA_REFRESHINTERVALRAND ->
  refresh_ok (put_mNewListeners t (mNewListeners t ++ [a])).
Proof.
  intros K (La & Ls & Ln) Hi Hf Hx. assert (next_of t a = mNextRefreshTime i) as En by (unfold next_of; by rewrite Hi).
  set (t' := put_mNewListeners _ _). assert (everything t' ≡ₚ a :: everything t) as Hp by (unfold everything; cbn; solve_Permutation).
  destruct K as [K1 K2 K3 K4 K5 K6 K7]. split; try done.
  - rewrite Hp. by constructor.
  - intros b. rewrite Hp. intros [->|Hb]%elem_of_cons; [done|by apply K2].
  - intros b j Hj. cbn in *. destruct (K3 b j Hj) as [F1 F2]. split; [done|]. intros [Hb|Hb]%elem_of_app; [by apply F2|].
    apply list_elem_of_singleton in Hb as ->. congruence.
  - unfold times. cbn. rewrite fmap_app. apply sorted_snoc; [done|]. apply Forall_forall. intros x Hx'.
    apply list_elem_of_fmap in Hx' as (b & -> & Hb). specialize (K6 b ltac:(set_solver)). change (next_of t' a) with (next_of t a).
    change (next_of t' b) with (next_of t b). lia.
  - intros b Hb. cbn in Hb. change (next_of t' b) with (next_of t b). change (clock t') with (clock t).
    rewrite !elem_of_app, list_elem_of_singleton in Hb. destruct Hb as [Hb|[Hb| ->]]; [apply K6; set_solver|apply K6; set_solver|rewrite En; lia].
Qed.

(** ** Time and the subscriptions *)

Definition listening (t : refreshTransportImpl) : list Z := mListeners t ++ mNewListeners t.

(** A refresh is sent at most a second late, and at most fifty minutes early:
    that is, not in the first five minutes. *)
Definition timely (r : refresh) : Prop := r_time r - 1 <= r_due r <= r_time r + 3000.

(** [A]: the subscriptions by handle; [L]: when the timer came last. *)
Record good (L : Z) (t : refreshTransportImpl) (A : gmap Z Z) : Prop := mkGood {
  g_ok : refresh_ok t;
  g_delays : delays t = [];
  g_subs : forall a s, A !! a = Some s <-> a ∈ listening t /\ mSubscription <$> infos t !! a = Some s;
  g_due : forall a, a ∈ listening t -> L + 13 <= next_of t a;
  g_sent : Forall timely (sent t);
  g_clock : L <= clock t;
}.

Lemma wp_time t Q : delays t = [] -> Q (clock t) t -> wp time t Q.
Proof. intros Hd HQ. unfold wp, time. by rewrite Hd. Qed.

Lemma wp_get_info t a i Q : infos t !! a = Some i -> Q i t -> wp (get_info a) t Q.
Proof. intros Hi HQ. unfold wp, get_info. by rewrite Hi. Qed.

Lemma remove_id a l : a ∉ l -> remove_element a l = l.
Proof.
  unfold remove_element. induction l as [|b l IH]; intros Ha; [done|]. rewrite filter_cons, decide_True by set_solver.
  rewrite IH; [done|set_solver].
Qed.

Lemma elem_of_remove a b l : b ∈ remove_element a l <-> b <> a /\ b ∈ l.
Proof. unfold remove_element. by rewrite list_elem_of_filter. Qed.

(** Taking a subscription out of its list. *)
Lemma good_remove L t A a t0 :
  good L t A -> a ∈ listening t ->
  t0 = put_mNewListeners (put_mListeners t (remove_element a (mListeners t))) (remove_element a (mNewListeners t)) ->
  good L t0 (delete a A) /\ loose t0 a.
Proof.
  intros [K1 K2 K3 K4 K5 K6] Ha ->. set (t0 := put_mNewListeners _ _).
  assert (refresh_ok t0) as Hok.
  { pose proof (shrink_ok t (remove_element a (mListeners t)) (remove_element a (mNewListeners t)) (mainFree t) (newFree t) K1) as Hs.
    apply Hs; try done; apply sublist_filter. }
  assert (forall b, b ∈ listening t0 <-> b <> a /\ b ∈ listening t) as Hl.
  { intros b. unfold listening. cbn. rewrite !elem_of_app, !elem_of_remove. tauto. }
  split; [split|]; try done.
  - intros b s. rewrite lookup_delete_Some, Hl, K3. cbn. intuition congruence.
  - intros b Hb%Hl. apply K4. tauto.
  - destruct (ro_heap _ K1 a) as [Hr Hi]; [unfold everything, listening in *; set_solver|]. split; [done|]. split; [done|].
    pose proof (ro_nodup _ K1) as Hnd. unfold everything, listening in *. cbn. rewrite !elem_of_app, !elem_of_remove.
    rewrite app_assoc in Hnd. apply NoDup_app in Hnd as (_ & Hdis & _). specialize (Hdis a Ha). set_solver.
Qed.

(** Putting one at the end of a list, with its next time. *)
Lemma good_push_main L t A a s x :
  good L t A -> loose t a -> clock t + MAMA_REFRESHINTERVALRAND - 1 <= x <= clock t + MAMA_REFRESHINTERVALRAND ->
  let t1 := put_infos t (<[a := mkInfo s x true]> (infos t)) (ibrk t) in
  good L (put_mListeners t1 (mListeners t1 ++ [a])) (<[a := s]> A).
Proof.
  intros [K1 K2 K3 K4 K5 K6] (L1 & L2 & L3) Hx t1. assert (refresh_ok t1) as H1 by (by apply write_ok).
  assert (infos t1 !! a = Some (mkInfo s x true)) as Hi by (cbn; by rewrite lookup_insert_eq).
  assert (a ∉ listening t) as Hn by (unfold everything, listening in *; set_solver).
  split; try done.
  - apply (push_main_ok t1 a (mkInfo s x true)); try done.
  - intros b v. unfold listening in *. cbn. rewrite lookup_insert_Some, K3, !elem_of_app, list_elem_of_singleton.
    destruct (decide (b = a)) as [->|Hne].
    + rewrite lookup_insert_eq. cbn. set_solver.
    + rewrite lookup_insert_ne by done. set_solver.
  - intros b Hb. unfold listening in *. cbn in Hb. change (next_of _ b) with (next_of t1 b). unfold MAMA_REFRESHINTERVALRAND in *.
    destruct (decide (b = a)) as [->|Hne]; [unfold t1; rewrite next_of_write; cbn; lia|]. unfold t1. rewrite next_of_other by done. apply K4. set_solver.
Qed.

Lemma good_push_new L t A a s :
  good L t A -> loose t a ->
  let t1 := put_infos t (<[a := mkInfo s (clock t + MAMA_REFRESHINTERVALRAND) false]> (infos t)) (ibrk t) in
  good L (put_mNewListeners t1 (mNewListeners t1 ++ [a])) (<[a := s]> A).
Proof.
  intros [K1 K2 K3 K4 K5 K6] (L1 & L2 & L3) t1. assert (refresh_ok t1) as H1 by (by apply write_ok).
  set (i := mkInfo s (clock t + MAMA_REFRESHINTERVALRAND) false). assert (infos t1 !! a = Some i) as Hi by (cbn; by rewrite lookup_insert_eq).
  assert (a ∉ listening t) as Hn by (unfold everything, listening in *; set_solver).
  split; try done.
  - apply (push_new_ok t1 a i); try done.
  - intros b v. unfold listening in *. cbn. rewrite lookup_insert_Some, K3, !elem_of_app, list_elem_of_singleton.
    destruct (decide (b = a)) as [->|Hne].
    + rewrite lookup_insert_eq. cbn. set_solver.
    + rewrite lookup_insert_ne by done. set_solver.
  - intros b Hb. unfold listening in *. cbn in Hb. change (next_of _ b) with (next_of t1 b). unfold MAMA_REFRESHINTERVALRAND in *.
    destruct (decide (b = a)) as [->|Hne]; [unfold t1; rewrite next_of_write; cbn; lia|]. unfold t1. rewrite next_of_other by done. apply K4. set_solver.
Qed.

(** ** Adding, removing, resetting *)

Lemma add_good L t A s : good L t A ->
  wp (mamaTransport_addSubscription true s) t (fun a t' => a <> 0 /\ A !! a = None /\ good L t' (<[a := s]> A) /\ clock t' = clock t).
Proof.
  intros K. pose proof K as [K1 K2 K3 K4 K5 K6]. unfold mamaTransport_addSubscription. apply wp_bind.
  assert (wp (refreshTransport_allocateSubscInfo true) t (fun a t1 => good L t1 A /\ loose t1 a /\ clock t1 = clock t /\
    infos t1 !! a = Some (mkInfo 0 0 false))) as W.
  { unfold refreshTransport_allocateSubscInfo. apply wp_bind, wp_gets. destruct (newFree t) as [|a fr] eqn:Ef.
    - apply wp_bind, wp_gets, wp_bind, wp_modify, wp_ret. set (t1 := put_infos _ _ _). pose proof (ro_brk _ K1) as Hb.
      assert (ibrk t ∉ everything t) as Hn by (intros Hin; apply (ro_heap _ K1) in Hin; lia).
      pose proof (write_ok t (ibrk t) (mkInfo 0 0 false) K1 Hn) as Hw.
      assert (refresh_ok t1) as H1.
      { destruct Hw as [W1 W2 W3 W4 W5 W6 W7]. split; try done; [|cbn; lia]. intros b Hb'. destruct (W2 b Hb'). cbn in *. split; [lia|done]. }
      assert (forall b, b ∈ listening t -> infos t1 !! b = infos t !! b) as Hi.
      { intros b Hb'. cbn. rewrite lookup_insert_ne; [done|]. intros <-. apply Hn. unfold everything, listening in *. set_solver. }
      split; [|split; [|split; [done|cbn; by rewrite lookup_insert_eq]]].
      + split; try done.
        * intros b v. rewrite K3. change (listening t1) with (listening t). split; intros [Hb' Hv]; (split; [done|]); by rewrite Hi in *.
        * intros b Hb'. change (listening t1) with (listening t) in Hb'. unfold next_of. rewrite Hi by done. by apply K4.
      + split; [cbn; lia|]. split; [cbn; rewrite lookup_insert_eq; eauto|done].
    - apply wp_bind, wp_modify, wp_bind, wp_modify, wp_ret. set (t0 := put_free t (mainFree t) fr).
      assert (refresh_ok t0) as H0.
      { apply (shrink_ok t (mListeners t) (mNewListeners t) (mainFree t) fr K1); try done. rewrite Ef. by constructor. }
      assert (a ∈ everything t) as Hin by (unfold everything; rewrite Ef; set_solver).
      assert (a ∉ everything t0) as Hn.
      { pose proof (ro_nodup _ K1) as Hnd. unfold everything in *. cbn. rewrite Ef in Hnd.
        assert (mListeners t ++ mNewListeners t ++ mainFree t ++ a :: fr ≡ₚ a :: mListeners t ++ mNewListeners t ++ mainFree t ++ fr) as Hp by solve_Permutation.
        rewrite Hp in Hnd. by apply NoDup_cons in Hnd as [? _]. }
      set (t1 := put_infos _ _ _). assert (refresh_ok t1) as H1 by (by apply (write_ok t0)).
      assert (forall b, b ∈ listening t -> infos t1 !! b = infos t !! b) as Hi.
      { intros b Hb'. cbn. rewrite lookup_insert_ne; [done|]. intros <-. apply Hn. unfold everything, listening in *. cbn. set_solver. }
      split; [|split; [|split; [done|cbn; by rewrite lookup_insert_eq]]].
      + split; try done.
        * intros b v. rewrite K3. change (listening t1) with (listening t). split; intros [Hb' Hv]; (split; [done|]); by rewrite Hi in *.
        * intros b Hb'. change (listening t1) with (listening t) in Hb'. unfold next_of. rewrite Hi by done. by apply K4.
      + destruct (ro_heap _ K1 a Hin). split; [done|]. split; [cbn; rewrite lookup_insert_eq; eauto|done]. }
  eapply wp_mono; [exact W|]. cbn beta. intros a t1 (G1 & Hl & Hc & Hi). pose proof Hl as (Ha & _ & Hn). destruct (Z.eqb_spec a 0); [lia|].
  apply wp_bind. eapply wp_get_info; [exact Hi|]. apply wp_bind, wp_modify, wp_bind, wp_bind.
  apply wp_time; [apply G1|]. apply wp_bind. eapply wp_get_info; [cbn; apply lookup_insert_eq|]. apply wp_bind, wp_modify, wp_modify, wp_ret.
  split; [done|]. assert (A !! a = None) as HA.
  { apply eq_None_not_Some. intros [v Hv]. apply (g_subs _ _ _ G1) in Hv as [Hv _]. apply Hn. unfold everything, listening in *. set_solver. }
  split; [done|]. split; [|done]. pose proof (good_push_new L t1 A a s G1 Hl) as G. cbn in *. rewrite insert_insert_eq. exact G.
Qed.

(** [free]: whether the element is given back. *)
Lemma remove_good L t A a : good L t A -> a ∈ listening t ->
  wp (refreshTransport_removeListener a false) t (fun _ t' => good L t' (delete a A) /\ loose t' a /\ infos t' = infos t /\ clock t' = clock t) /\
  wp (refreshTransport_removeListener a true) t (fun _ t' => good L t' (delete a A) /\ clock t' = clock t).
Proof.
  intros K Ha. pose proof (g_ok _ _ _ K) as K1. destruct (good_remove L t A a _ K Ha eq_refl) as [G Hl].
  destruct (ro_heap _ K1 a) as [Hr [i Hi]]; [unfold everything, listening in *; set_solver|]. destruct (ro_flag _ K1 a i Hi) as [F1 F2].
  pose proof (ro_nodup _ K1) as Hnd. unfold everything in Hnd. apply NoDup_app in Hnd as (_ & Hdis & _).
  set (t0 := put_mNewListeners _ _) in *.
  assert (t0 = if mIsInMainList i then put_mListeners t (remove_element a (mListeners t)) else put_mNewListeners t (remove_element a (mNewListeners t))) as E0.
  { unfold t0. apply elem_of_app in Ha as [Ha|Ha].
    - rewrite F1 by done. rewrite (remove_id a (mNewListeners t)) by (specialize (Hdis a Ha); set_solver). done.
    - rewrite F2 by done. rewrite (remove_id a (mListeners t)) by (intros Hm; specialize (Hdis a Hm); set_solver). done. }
  assert (forall fm fn, fm ++ fn ≡ₚ a :: mainFree t0 ++ newFree t0 -> good L (put_free t0 fm fn) (delete a A)) as Hfree.
  { intros fm fn Hp. destruct G as [G1 G2 G3 G4 G5 G6]. destruct Hl as (Hl1 & Hl2 & Hl3). split; try done.
    destruct G1 as [O1 O2 O3 O4 O5 O6 O7]. set (t1 := put_free _ _ _).
    assert (everything t1 ≡ₚ a :: everything t0) as Hpe by (unfold everything; cbn; rewrite Hp; cbn; solve_Permutation).
    split; try done; [rewrite Hpe; by constructor|]. intros b. rewrite Hpe. intros [->|Hb]%elem_of_cons; [done|by apply O2]. }
  split; unfold refreshTransport_removeListener; apply wp_bind; (eapply wp_get_info; [exact Hi|]); destruct (mIsInMainList i); apply wp_bind, wp_modify.
  - apply wp_ret. by rewrite <- E0.
  - apply wp_ret. by rewrite <- E0.
  - apply wp_modify. rewrite <- E0. split; [|done]. apply Hfree. done.
  - apply wp_modify. rewrite <- E0. split; [|done]. apply Hfree. solve_Permutation.
Qed.

Lemma reset_good L t A a : good L t A -> a ∈ listening t ->
  wp (refreshTransport_resetRefreshForListener a) t (fun _ t' => good L t' A /\ clock t' = clock t).
Proof.
  intros K Ha. destruct (remove_good L t A a K Ha) as [W _]. unfold refreshTransport_resetRefreshForListener. apply wp_bind.
  eapply wp_mono; [exact W|]. cbn beta. intros [] t1 (G1 & Hl & Hi & Hc). pose proof Hl as (_ & [i Ei] & _).
  assert (A !! a = Some (mSubscription i)) as HA by (apply (g_subs _ _ _ K); split; [done|]; by rewrite <- Hi, Ei).
  apply wp_bind. eapply wp_get_info; [exact Ei|]. apply wp_bind, wp_modify, wp_bind. apply wp_time; [apply G1|].
  apply wp_bind. eapply wp_get_info; [cbn; apply lookup_insert_eq|]. apply wp_bind, wp_modify, wp_modify.
  pose proof (good_push_main L t1 (delete a A) a (mSubscription i) (clock t1 + MAMA_REFRESHINTERVALRAND - 1) G1 Hl ltac:(lia)) as G.
  rewrite insert_delete_id in G by done. split; [|done]. cbn in *. by rewrite insert_insert_eq.
Qed.

(** ** The loops *)

(** What a refresh of [a] does: it is recorded, and [a] goes to the end of the
    main list. *)
Lemma refresh_good L t A a s x r :
  good L t A -> a ∈ listening t -> A !! a = Some s -> timely r ->
  clock t + MAMA_REFRESHINTERVALRAND - 1 <= x <= clock t + MAMA_REFRESHINTERVALRAND ->
  good L (put_mListeners (put_infos (put_mNewListeners (put_mListeners (put_sent t (sent t ++ [r])) (remove_element a (mListeners t)))
            (remove_element a (mNewListeners t))) (<[a := mkInfo s x true]> (infos t)) (ibrk t)) (remove_element a (mListeners t) ++ [a])) A.
Proof.
  intros K Ha Hs Hr Hx. assert (good L (put_sent t (sent t ++ [r])) A) as K'.
  { destruct K as [K1 K2 K3 K4 K5 K6]. split; try done; [by destruct K1|]. cbn. apply Forall_app. split; [done|]. by apply Forall_singleton. }
  destruct (good_remove L _ A a _ K' Ha eq_refl) as [G Hl].
  pose proof (good_push_main L _ _ a s x G Hl Hx) as G1. by rewrite insert_delete_id in G1.
Qed.

Lemma head_remove a (l : list Z) : NoDup (a :: l) -> remove_element a (a :: l) = l.
Proof. intros [Hn _]%NoDup_cons. unfold remove_element. rewrite filter_cons, decide_False by tauto. by apply remove_id. Qed.

Lemma main_nodup t : refresh_ok t -> NoDup (mListeners t) /\ NoDup (mNewListeners t) /\ forall a, a ∈ mListeners t -> a ∉ mNewListeners t.
Proof.
  intros K. pose proof (ro_nodup _ K) as Hnd. unfold everything in Hnd. apply NoDup_app in Hnd as (H1 & H2 & H3).
  apply NoDup_app in H3 as (H3 & _). split_and!; [done|done|]. intros a Ha Hn. specialize (H2 a Ha). set_solver.
Qed.

Lemma listening_info L t A a : good L t A -> a ∈ listening t -> exists i, infos t !! a = Some i /\ A !! a = Some (mSubscription i) /\
  next_of t a = mNextRefreshTime i.
Proof.
  intros K Ha. destruct (ro_heap _ (g_ok _ _ _ K) a) as [_ [i Hi]]; [unfold everything, listening in *; set_solver|]. exists i.
  split; [done|]. split; [|unfold next_of; by rewrite Hi]. apply (g_subs _ _ _ K). split; [done|]. by rewrite Hi.
Qed.

(** [L1]: the part of the list not looked at yet. *)
Lemma main_loop_good L A : forall l1 l2 t fuel,
  good L t A -> mListeners t = l1 ++ l2 -> (length l1 < fuel)%nat -> clock t <= L + 14 ->
  (forall a, a ∈ l2 -> clock t + 13 < next_of t a) -> (forall a, a ∈ mNewListeners t -> clock t + 13 <= next_of t a) ->
  wp (main_loop fuel (clock t) (clock t + GRANULARITY_int)) t (fun _ t' => good (clock t) t' A /\ clock t' = clock t).
Proof.
  induction l1 as [|a l1 IH]; intros l2 t fuel K Hl Hf Hc H2 Hn; (destruct fuel as [|fuel]; [cbn in Hf; lia|]); cbn [main_loop];
    apply wp_bind, wp_gets; rewrite Hl; pose proof K as [K1 K2 K3 K4 K5 K6].
  - assert (good (clock t) t A) as Kc.
    { split; try done. intros b [Hb|Hb]%elem_of_app; [|by apply Hn]. rewrite Hl in Hb. specialize (H2 b Hb). lia. }
    cbn [app]. destruct l2 as [|b l2]; [by apply wp_ret|]. destruct (listening_info L t A b K) as (i & Hi & _ & En); [unfold listening; rewrite Hl; set_solver|].
    apply wp_bind. eapply wp_get_info; [exact Hi|]. specialize (H2 b ltac:(set_solver)). rewrite En in H2. unfold GRANULARITY_int.
    destruct (Z.ltb_spec (clock t + 13) (mNextRefreshTime i)); [by apply wp_ret|lia].
  - destruct (main_nodup t K1) as (Hd1 & Hd2 & Hd3). rewrite Hl in Hd1, Hd3. cbn [app] in *.
    assert (a ∈ listening t) as Ha by (unfold listening; rewrite Hl; set_solver).
    destruct (listening_info L t A a K Ha) as (i & Hi & HA & En). apply wp_bind. eapply wp_get_info; [exact Hi|]. unfold GRANULARITY_int.
    destruct (Z.ltb_spec (clock t + 13) (mNextRefreshTime i)) as [Hlt|Hle].
    + apply wp_ret. split; [|done]. split; try done. intros b [Hb|Hb]%elem_of_app; [|by apply Hn]. rewrite Hl in Hb.
      apply elem_of_cons in Hb as [->|Hb]; [lia|]. pose proof (ro_main _ K1) as Hso. unfold times in Hso. rewrite Hl in Hso. cbn in Hso.
      inversion Hso as [|? ? _ Hx]; subst. rewrite Forall_forall in Hx. specialize (Hx (next_of t b)).
      assert (next_of t a <= next_of t b + 1); [|lia]. apply Hx. apply list_elem_of_fmap. eauto.
    + assert (timely (mkRefresh (mSubscription i) (clock t) (mNextRefreshTime i))) as Hr.
      { split; cbn; [|lia]. specialize (K4 a Ha). lia. }
      pose proof (refresh_good L t A a (mSubscription i) (clock t + MAMA_REFRESHINTERVALRAND) _ K Ha HA Hr ltac:(lia)) as G.
      rewrite Hl, (head_remove a (l1 ++ l2)), (remove_id a (mNewListeners t)) in G; [|set_solver|done].
      apply wp_bind, wp_modify, wp_bind, wp_modify, wp_bind. apply wp_time; [done|]. apply wp_bind, wp_modify, wp_bind, wp_modify.
      set (t1 := put_mListeners _ _) in G.
      match goal with |- wp _ ?s _ => change s with (put_mListeners (put_infos (put_mListeners (put_sent t (sent t ++ [mkRefresh (mSubscription i) (clock t) (mNextRefreshTime i)])) (l1 ++ l2))
        (<[a := set_mNextRefreshTime (clock t + MAMA_REFRESHINTERVALRAND) i]> (infos t)) (ibrk t)) ((l1 ++ l2) ++ [a])) end.
      assert (mIsInMainList i = true) as Hflag by (apply (ro_flag _ K1 a i Hi); rewrite Hl; set_solver).
      replace (set_mNextRefreshTime (clock t + MAMA_REFRESHINTERVALRAND) i) with (mkInfo (mSubscription i) (clock t + MAMA_REFRESHINTERVALRAND) true)
        by (unfold set_mNextRefreshTime; by rewrite Hflag).
      assert (forall b, b <> a -> next_of t1 b = next_of t b) as Hnext by (intros b Hb; unfold next_of, t1; cbn; by rewrite lookup_insert_ne).
      apply (IH (l2 ++ [a]) t1 fuel G); [cbn; by rewrite app_assoc|cbn in Hf; lia|done| |].
      * intros b [Hb|Hb]%elem_of_app.
        -- rewrite Hnext; [by apply H2|]. intros ->. apply NoDup_cons in Hd1 as [? _]. set_solver.
        -- apply list_elem_of_singleton in Hb as ->. unfold next_of, t1. cbn. rewrite lookup_insert_eq. cbn. unfold MAMA_REFRESHINTERVALRAND. lia.
      * intros b Hb. rewrite Hnext; [by apply Hn|]. intros ->. by apply (Hd3 a); [set_solver|].
Qed.

(** The new listeners that remain are not due in this round. *)
Lemma new_loop_good L A : forall l t fuel maxMessages n,
  good L t A -> mNewListeners t = l -> (length l < fuel)%nat -> clock t <= L + 14 ->
  wp (new_loop fuel (clock t) (clock t + 3000) maxMessages n) t (fun _ t' => good L t' A /\ clock t' = clock t /\
    forall a, a ∈ mNewListeners t' -> clock t + 13 <= next_of t' a).
Proof.
  induction l as [|a l IH]; intros t fuel mx n K Hl Hf Hc; (destruct fuel as [|fuel]; [cbn in Hf; lia|]); cbn [new_loop];
    apply wp_bind, wp_gets; rewrite Hl; pose proof K as [K1 K2 K3 K4 K5 K6].
  - apply wp_ret. rewrite Hl. split_and!; try done. intros a Ha. by apply elem_of_nil in Ha.
  - destruct (main_nodup t K1) as (Hd1 & Hd2 & Hd3). rewrite Hl in Hd2.
    assert (a ∈ listening t) as Ha by (unfold listening; rewrite Hl; set_solver).
    destruct (listening_info L t A a K Ha) as (i & Hi & HA & En). apply wp_bind. eapply wp_get_info; [exact Hi|].
    unfold beyond_granularity, GRANULARITY_hundredths.
    destruct (Z.ltb_spec (clock t * 100 + 1399) (mNextRefreshTime i * 100)) as [Hlt|Hle]; cbn [andb];
      [destruct (Z.ltb_spec (clock t + 3000) (mNextRefreshTime i)) as [H1|H1], (Z.ltb_spec mx n) as [H2|H2]; cbn [orb]|].
    1-3: apply wp_ret; split_and!; try done; rewrite Hl; intros b [->|Hb]%elem_of_cons; [lia|];
      pose proof (ro_new _ K1) as Hso; unfold times in Hso; rewrite Hl in Hso; cbn in Hso; inversion Hso as [|? ? _ Hx]; subst;
      rewrite Forall_forall in Hx; specialize (Hx (next_of t b)); assert (next_of t a <= next_of t b); [|lia];
      apply Hx, list_elem_of_fmap; eauto.
    all: assert (timely (mkRefresh (mSubscription i) (clock t) (mNextRefreshTime i))) as Hr
      by (split; cbn; [specialize (K4 a Ha); lia|lia]);
      pose proof (refresh_good L t A a (mSubscription i) (clock t + MAMA_REFRESHINTERVALRAND) _ K Ha HA Hr ltac:(lia)) as G;
      rewrite Hl, (head_remove a l Hd2), (remove_id a (mListeners t)) in G by (intros Hm; apply (Hd3 a Hm); rewrite Hl; set_solver);
      apply wp_bind, wp_modify, wp_bind, wp_modify, wp_bind; (apply wp_time; [done|]); apply wp_bind, wp_modify, wp_bind, wp_modify;
      set (t1 := put_mListeners _ _) in G; eapply (IH t1 fuel mx (n + 1) G); [done|cbn in Hf; lia|done].
Qed.

Lemma process_new_good L t A : good L t A -> clock t <= L + 14 ->
  wp refreshTransportImpl_processNewSubscriptions t (fun _ t' => good L t' A /\ clock t' = clock t /\
    forall a, a ∈ mNewListeners t' -> clock t + 13 <= next_of t' a).
Proof.
  intros K Hc. pose proof K as [K1 K2 K3 K4 K5 K6]. unfold refreshTransportImpl_processNewSubscriptions. apply wp_bind. apply wp_time; [done|].
  apply wp_bind, wp_gets. destruct (mNewListeners t) as [|a l] eqn:El.
  { apply wp_ret. rewrite El. split_and!; try done. intros b Hb. by apply elem_of_nil in Hb. }
  assert (forall b, b ∈ a :: l -> b ∈ listening t) as Hin by (intros b Hb; unfold listening; rewrite El; set_solver).
  destruct (listening_info L t A a K (Hin a ltac:(set_solver))) as (i & Hi & HA & En). apply wp_bind. eapply wp_get_info; [exact Hi|].
  change (MAMA_REFRESHINTERVALRAND - MAMA_REFRESHINTERVALMIN) with 3000.
  destruct (Z.ltb_spec (clock t + 3000) (mNextRefreshTime i)) as [Hlt|Hle].
  - apply wp_ret. split_and!; try done. rewrite El. intros b [->|Hb]%elem_of_cons; [lia|].
    pose proof (ro_new _ K1) as Hso. unfold times in Hso. rewrite El in Hso. cbn in Hso. inversion Hso as [|? ? _ Hx]; subst.
    rewrite Forall_forall in Hx. specialize (Hx (next_of t b)). assert (next_of t a <= next_of t b); [|lia]. apply Hx, list_elem_of_fmap. eauto.
  - destruct (listening_info L t A (List.last (a :: l) a) K) as (j & Hj & _ & _).
    { apply Hin. clear. generalize a at 1 3. induction l as [|b l IH]; intros c; [set_solver|]. apply elem_of_cons. right. apply IH. }
    apply wp_bind. eapply wp_get_info; [exact Hj|]. apply wp_bind.
    assert (wp rand t (fun _ t1 => good L t1 A /\ clock t1 = clock t /\ mNewListeners t1 = a :: l)) as W.
    { unfold wp, rand. destruct (rand_values t) as [|r rs]; [by rewrite El|]. split; [|by rewrite <- El]. split; try done. by destruct K1. }
    eapply wp_mono; [exact W|]. cbn beta. intros r t1 (G1 & C1 & E1). rewrite <- C1. eapply wp_mono; [apply (new_loop_good L A (a :: l) t1); try done; lia|].
    cbn beta. intros [] t2 (G2 & C2 & D2). split; [done|]. split; [congruence|done].
Qed.

Lemma tick_good L t A : good L t A -> clock t <= L + 14 ->
  wp refreshTransportImpl_doRefresh t (fun _ t' => good (clock t) t' A /\ clock t' = clock t).
Proof.
  intros K Hc. unfold refreshTransportImpl_doRefresh. apply wp_bind. apply wp_time; [apply K|]. apply wp_bind.
  eapply wp_mono; [by apply process_new_good|]. cbn beta. intros [] t1 (G1 & C1 & D1). apply wp_bind, wp_gets. rewrite <- C1.
  apply (main_loop_good L A (mListeners t1) []); [done|by rewrite app_nil_r|lia|lia| |by rewrite C1].
  intros a Ha. by apply elem_of_nil in Ha.
Qed.

(** ** Histories *)

(** [Wait d]: [d] seconds pass; [Tick]: the timer comes. *)
Inductive revent : Type := Wait (d : Z) | Tick | Subscribe (s : Z) | Unsubscribe (a : Z) | Reset (a : Z).

Definition run_revent (e : revent) : M refreshTransportImpl (option Z) :=
  match e with
  | Wait d => modify (fun t => put_clock t (clock t + d) (delays t)) ;; mret None
  | Tick => refreshTransportImpl_doRefresh ;; mret None
  | Subscribe s => a ← mamaTransport_addSubscription true s; mret (Some a)
  | Unsubscribe a => refreshTransport_removeListener a true ;; mret None
  | Reset a => refreshTransport_resetRefreshForListener a ;; mret None
  end.

(** The subscriptions after an event; [r]: the handle a new one got. *)
Definition after_event (e : revent) (r : option Z) (A : gmap Z Z) : gmap Z Z :=
  match e, r with
  | Subscribe s, Some a => <[a := s]> A
  | Unsubscribe a, _ => delete a A
  | _, _ => A
  end.

Definition legal (e : revent) (A : gmap Z Z) : Prop :=
  match e with Unsubscribe a | Reset a => is_Some (A !! a) | _ => True end.

(** As long as only handles of subscriptions are used, no event faults, and [Q]
    holds in the end. *)
Fixpoint safe (l : list revent) (t : refreshTransportImpl) (A : gmap Z Z) (Q : refreshTransportImpl -> gmap Z Z -> Prop) : Prop :=
  match l with
  | [] => Q t A
  | e :: l' => legal e A -> match run_revent e t with Ok (r, t1) => safe l' t1 (after_event e r A) Q | Fail _ => False end
  end.

(** The timer comes at least every 14 seconds: [d] is the time since it came last. *)
Fixpoint scheduled (l : list revent) (d : Z) : Prop :=
  match l with
  | [] => True
  | Wait k :: l' => 0 <= k /\ d + k <= 14 /\ scheduled l' (d + k)
  | Tick :: l' => scheduled l' 0
  | _ :: l' => scheduled l' d
  end.

Lemma event_good e L t A : good L t A -> clock t <= L + 14 -> legal e A ->
  (match e with Wait k => 0 <= k /\ clock t + k <= L + 14 | _ => True end) ->
  wp (run_revent e) t (fun r t' => good (match e with Tick => clock t | _ => L end) t' (after_event e r A) /\
    clock t' = match e with Wait k => clock t + k | _ => clock t end).
Proof.
  intros K Hc Hl Hw. destruct e as [k| |s|a|a]; cbn [run_revent].
  - apply wp_bind, wp_modify, wp_ret. split; [|done]. destruct K as [K1 K2 K3 K4 K5 K6]. split; try done; [|cbn; lia].
    destruct K1 as [O1 O2 O3 O4 O5 O6 O7]. split; try done. intros b Hb. specialize (O6 b Hb). cbn. change (next_of _ b) with (next_of t b). lia.
  - apply wp_bind. eapply wp_mono; [by eapply tick_good|]. cbn beta. intros [] t1 G. by apply wp_ret.
  - apply wp_bind. eapply wp_mono; [by eapply add_good|]. cbn beta. intros a t1 (_ & _ & G & C). by apply wp_ret.
  - destruct Hl as [s Hs]. apply (g_subs _ _ _ K) in Hs as [Ha _]. apply wp_bind. destruct (remove_good L t A a K Ha) as [_ W].
    eapply wp_mono; [exact W|]. cbn beta. intros [] t1 G. by apply wp_ret.
  - destruct Hl as [s Hs]. apply (g_subs _ _ _ K) in Hs as [Ha _]. apply wp_bind. eapply wp_mono; [by apply reset_good|].
    cbn beta. intros [] t1 G. by apply wp_ret.
Qed.

Lemma safe_good (Q : refreshTransportImpl -> gmap Z Z -> Prop) :
  (forall L t A, good L t A -> clock t <= L + 14 -> Q t A) ->
  forall l L t A, good L t A -> scheduled l (clock t - L) -> clock t <= L + 14 -> safe l t A Q.
Proof.
  intros HQ. induction l as [|e l IH]; intros L t A K Hs Hc; cbn [safe]; [by eapply HQ|]. intros Hl.
  assert (match e with Wait k => 0 <= k /\ clock t + k <= L + 14 | _ => True end) as Hw by (destruct e; try done; destruct Hs as (? & ? & _); lia).
  pose proof (event_good e L t A K Hc Hl Hw) as W. unfold wp in W. destruct (run_revent e t) as [[r t1]|]; [|done].
  destruct W as [G C]. eapply IH; [exact G| |].
  - destruct e; cbn [scheduled] in Hs; rewrite C; try exact Hs; [destruct Hs as (_ & _ & Hs); by replace (clock t + d - L) with (clock t - L + d) by lia|by rewrite Z.sub_diag].
  - rewrite C. destruct e; try done; lia.
Qed.

Lemma created_good timeout now : good now (refreshTransport_create timeout now) ∅.
Proof.
  split; cbn; try done.
  - split; cbn; try done; try (by repeat constructor); intros a Ha; try (by apply elem_of_nil in Ha).
  - intros a s. rewrite lookup_empty. split; [done|]. intros [Ha _]. by apply elem_of_nil in Ha.
  - intros a Ha. by apply elem_of_nil in Ha.
Qed.

(** ** Claims *)

(** C29: no subscription is forgotten.  With a timer that comes at least every
    14 seconds (it is set to 13.99), and whatever subscriptions are made, removed
    and reset in between, every subscription is in the lists exactly once, with
    the flag of the list it is in, and at any time its next refresh is at most a
    second overdue and at most 55 minutes away; every refresh that was sent was
    at most a second late, and none was sent more than fifty minutes before it
    was due, that is in the first five minutes.  The clock moves between the
    calls, not during one. *)
Theorem refreshes_in_time timeout now l :
  scheduled l 0 ->
  safe l (refreshTransport_create timeout now) ∅ (fun t A =>
    NoDup (listening t) /\
    (forall a s, A !! a = Some s <-> a ∈ listening t /\ mSubscription <$> infos t !! a = Some s) /\
    (forall a, a ∈ listening t -> clock t - 1 <= next_of t a <= clock t + 3300 /\
       mIsInMainList <$> infos t !! a = Some (bool_decide (a ∈ mListeners t))) /\
    Forall timely (sent t)).
Proof.
  intros Hs. apply (safe_good _) with (L := now); [|apply created_good|by rewrite Z.sub_diag|cbn; lia]. intros L t A K Hc.
  pose proof K as [K1 K2 K3 K4 K5 K6]. split_and!; [|done| |done].
  - pose proof (ro_nodup _ K1) as Hnd. unfold everything in Hnd. rewrite app_assoc in Hnd. by apply NoDup_app in Hnd as (? & _).
  - intros a Ha. specialize (K4 a Ha). pose proof (ro_horizon _ K1 a Ha) as Hh. unfold MAMA_REFRESHINTERVALRAND in Hh. split; [lia|].
    destruct (listening_info L t A a K Ha) as (i & Hi & _ & _). rewrite Hi. cbn. f_equal. destruct (ro_flag _ K1 a i Hi) as [F1 F2].
    apply elem_of_app in Ha as [Ha|Ha]; [rewrite F1 by done; by rewrite bool_decide_true|]. rewrite F2 by done. rewrite bool_decide_false; [done|].
    intros Hm. by apply (proj2 (proj2 (main_nodup t K1)) a).
Qed.

Definition demo_revents : list revent :=
  [Subscribe 7; Wait 14; Tick; Subscribe 8; Wait 10; Reset 1; Wait 4; Tick; Unsubscribe 2; Wait 13; Tick; Subscribe 9].

Lemma refreshes_in_time_witness :
  safe demo_revents (refreshTransport_create 0 1000) ∅ (fun t A =>
    NoDup (listening t) /\
    (forall a s, A !! a = Some s <-> a ∈ listening t /\ mSubscription <$> infos t !! a = Some s) /\
    (forall a, a ∈ listening t -> clock t - 1 <= next_of t a <= clock t + 3300 /\
       mIsInMainList <$> infos t !! a = Some (bool_decide (a ∈ mListeners t))) /\
    Forall timely (sent t)).
Proof. apply (refreshes_in_time 0 1000 demo_revents). cbn. lia. Defined.

(** The recap for stale subscriptions is asked for once: its timer is destroyed
    when it comes, but the field that says that it runs is not reset. *)
Theorem stale_recap_only_once maybe_stale t :
  wp refreshTransport_startStaleRecapTimer t (fun _ t1 => mStaleRecapTimer t1 = true ->
    forall t2, (wp (refreshTransportImpl_staleRecapTimerCallback maybe_stale) t1 (fun _ t' => t' = t2)) -> 
    refreshTransport_startStaleRecapTimer t2 = Ok (tt, t2)).
Proof.
  assert (forall l t0, wp (for_each_subscription (checkQualityIterator maybe_stale) l) t0 (fun _ t' => mStaleRecapTimer t' = mStaleRecapTimer t0)) as HF.
  { induction l as [|s l IH]; intros t0; cbn [for_each_subscription]; [by apply wp_ret|]. apply wp_bind. unfold checkQualityIterator.
    destruct (maybe_stale s); [apply wp_modify|apply wp_ret]; (eapply wp_mono; [apply IH|]); cbn; by intros _ t' ->. }
  unfold refreshTransport_startStaleRecapTimer at 1. apply wp_bind, wp_gets, wp_bind, wp_gets.
  assert (forall t1, mStaleRecapTimer t1 = true -> forall t2, wp (refreshTransportImpl_staleRecapTimerCallback maybe_stale) t1 (fun _ t' => t' = t2) ->
    refreshTransport_startStaleRecapTimer t2 = Ok (tt, t2)) as HG.
  { intros t1 H1 t2 W. unfold refreshTransportImpl_staleRecapTimerCallback, wp, mbind, M_bind in W. unfold refreshTransport_iterateListeners in W.
    destruct (mapM _ _) as [l|]; [|done]. specialize (HF l t1). unfold wp in HF.
    destruct (for_each_subscription (checkQualityIterator maybe_stale) l t1) as [[u t']|]; [|done]. subst t'.
    unfold refreshTransport_startStaleRecapTimer, mbind, M_bind, gets. by rewrite HF, H1. }
  destruct (_ || _); [apply wp_ret|apply wp_modify]; intros H1 t2 W; by eapply HG.
Qed.
