(* ===== verification/FieldCacheVector.v ===== *)
(** * Vectors and lists of the field cache
      (mama/c_cpp/src/c/fieldcache/fieldcachevector.c, fieldcachelist.c)

    A vector is an array of pointers with its size; a list is a vector with the
    position of the last item in use.  The pointers are generic: [None] is NULL.
    The list is shown to be a sequence to which items are appended. *)

From S2P Require Import Prelude MamaStatus.

Module FieldCacheVector.

Section Vector.
Context {A : Type}.

(** [vData]: mData, [None] is NULL; [vSize]: mSize. *)
Record mamaFieldCacheVectorImpl : Type := mkVector { vData : option (list (option A)); vSize : Z }.

Definition mamaFieldCacheVector_create : mamaFieldCacheVectorImpl := mkVector None 0.

Definition mamaFieldCacheVector_clear (v : mamaFieldCacheVectorImpl) : mamaFieldCacheVectorImpl :=
  match vData v with
  | None => v
  | Some d => mkVector (Some ((fun _ => None) <$> take (Z.to_nat (vSize v)) d)) (vSize v)
  end.

Definition mamaFieldCacheVector_set (v : mamaFieldCacheVectorImpl) (index : Z) (item : option A) :
  res (mama_status * mamaFieldCacheVectorImpl) :=
  if vSize v <=? index then Ok (MAMA_STATUS_INVALID_ARG, v)
  else
    match vData v with
    | Some d =>
        if index <? Z.of_nat (length d) then Ok (MAMA_STATUS_OK, mkVector (Some (<[Z.to_nat index := item]> d)) (vSize v))
        else Fail InvalidDeref
    | None => Fail InvalidDeref
    end.

(** The item is not written when the index is out of range. *)
Definition mamaFieldCacheVector_get (v : mamaFieldCacheVectorImpl) (index : Z) : res (mama_status * option (option A)) :=
  if vSize v <=? index then Ok (MAMA_STATUS_INVALID_ARG, None)
  else
    match vData v with
    | Some d => match d !! Z.to_nat index with Some x => Ok (MAMA_STATUS_OK, Some x) | None => Fail InvalidDeref end
    | None => Fail InvalidDeref
    end.

Definition mamaFieldCacheVector_getSize (v : mamaFieldCacheVectorImpl) : Z := vSize v.

(** [malloc] and [realloc] give what is asked for. *)
Definition mamaFieldCacheVector_grow (v : mamaFieldCacheVectorImpl) (newAllocSize : Z) : mamaFieldCacheVectorImpl :=
  if newAllocSize <? vSize v then v
  else
    mkVector (Some (default [] (vData v) ++ replicate (Z.to_nat (newAllocSize - vSize v)) None)) newAllocSize.

(** ** The list *)

Definition LIST_GROW_CHUNK_SIZE : Z := 32.

Record mamaFieldCacheListImpl : Type := mkList { mVector : mamaFieldCacheVectorImpl; mLast : Z }.

Definition mamaFieldCacheList_create : mamaFieldCacheListImpl := mkList mamaFieldCacheVector_create (u64 (-1)).

Definition mamaFieldCacheList_clear (l : mamaFieldCacheListImpl) : mamaFieldCacheListImpl :=
  mkList (mamaFieldCacheVector_clear (mVector l)) (u64 (-1)).

Definition mamaFieldCacheList_add (l : mamaFieldCacheListImpl) (item : option A) : res (mama_status * mamaFieldCacheListImpl) :=
  let vectorSize := mamaFieldCacheVector_getSize (mVector l) in
  let last := u64 (mLast l + 1) in
  let v := if vectorSize <=? last then mamaFieldCacheVector_grow (mVector l) (vectorSize + LIST_GROW_CHUNK_SIZE) else mVector l in
  match mamaFieldCacheVector_set v last item with
  | Ok (status, v') => Ok (status, mkList v' last)
  | Fail f => Fail f
  end.

Definition mamaFieldCacheList_set (l : mamaFieldCacheListImpl) (index : Z) (item : option A) : res (mama_status * mamaFieldCacheListImpl) :=
  if mLast l <? index then Ok (MAMA_STATUS_INVALID_ARG, l)
  else
    match mamaFieldCacheVector_set (mVector l) index item with
    | Ok (status, v') => Ok (status, mkList v' (mLast l))
    | Fail f => Fail f
    end.

Definition mamaFieldCacheList_get (l : mamaFieldCacheListImpl) (index : Z) : res (mama_status * option (option A)) :=
  if mLast l <? index then Ok (MAMA_STATUS_INVALID_ARG, None) else mamaFieldCacheVector_get (mVector l) index.

Definition mamaFieldCacheList_getSize (l : mamaFieldCacheListImpl) : Z := u64 (mLast l + 1).

(** ** The vector is an array *)

(** The array of a vector has the size the vector says. *)
Definition vector_ok (v : mamaFieldCacheVectorImpl) : Prop :=
  match vData v with Some d => Z.of_nat (length d) = vSize v | None => vSize v = 0 end.

Definition items (v : mamaFieldCacheVectorImpl) : list (option A) := default [] (vData v).

Lemma items_length v : vector_ok v -> Z.of_nat (length (items v)) = vSize v.
Proof. unfold vector_ok, items. destruct (vData v); cbn; lia. Qed.

Lemma grow_ok v n : vector_ok v -> 0 <= n ->
  let v' := mamaFieldCacheVector_grow v n in
  vector_ok v' /\ vSize v' = Z.max n (vSize v) /\ items v' = items v ++ replicate (Z.to_nat (n - vSize v)) None.
Proof.
  intros K Hn. pose proof (items_length v K) as E. unfold mamaFieldCacheVector_grow. case_match.
  - split; [done|]. split; [lia|]. replace (Z.to_nat (n - vSize v)) with O by lia. cbn. by rewrite app_nil_r.
  - unfold vector_ok, items in *; cbn. rewrite length_app, length_replicate. split; [lia|]. split; [lia|done].
Qed.

Lemma grow_some v n : vector_ok v -> 0 <= n -> is_Some (vData (mamaFieldCacheVector_grow v n)).
Proof.
  intros K Hn. unfold mamaFieldCacheVector_grow. destruct (Z.ltb_spec n (vSize v)); [|by eexists].
  unfold vector_ok in K. destruct (vData v); [done|lia].
Qed.

Lemma set_some v i x st v' : mamaFieldCacheVector_set v i x = Ok (st, v') -> is_Some (vData v) -> is_Some (vData v').
Proof. unfold mamaFieldCacheVector_set. intros H [d Hd]. rewrite Hd in H. repeat case_match; simplify_eq; cbn; by eexists. Qed.

Lemma set_ok v i x : vector_ok v -> 0 <= i < vSize v ->
  exists v', mamaFieldCacheVector_set v i x = Ok (MAMA_STATUS_OK, v') /\ vector_ok v' /\ vSize v' = vSize v /\
    items v' = <[Z.to_nat i := x]> (items v).
Proof.
  intros K Hi. pose proof (items_length v K) as E. unfold mamaFieldCacheVector_set, vector_ok, items in *.
  destruct (Z.leb_spec (vSize v) i); [lia|]. destruct (vData v) as [d|]; cbn in *; [|lia].
  destruct (Z.ltb_spec i (Z.of_nat (length d))); [|lia]. eexists; split; [done|]; cbn. by rewrite length_insert.
Qed.

Lemma get_ok v i : vector_ok v -> 0 <= i < vSize v ->
  exists x, items v !! Z.to_nat i = Some x /\ mamaFieldCacheVector_get v i = Ok (MAMA_STATUS_OK, Some x).
Proof.
  intros K Hi. pose proof (items_length v K) as E. unfold mamaFieldCacheVector_get, vector_ok, items in *.
  destruct (Z.leb_spec (vSize v) i); [lia|]. destruct (vData v) as [d|]; cbn in *; [|lia].
  destruct (lookup_lt_is_Some_2 d (Z.to_nat i) ltac:(lia)) as [x Hx]. exists x. by rewrite Hx.
Qed.

(** ** The list is a sequence *)

(** [l] holds the items [xs]. *)
Record holds (l : mamaFieldCacheListImpl) (xs : list A) : Prop := {
  h_vector : vector_ok (mVector l);
  h_last : mLast l = u64 (Z.of_nat (length xs) - 1);
  h_room : Z.of_nat (length xs) <= vSize (mVector l);
  h_items : take (length xs) (items (mVector l)) = Some <$> xs;
}.

Lemma holds_size l xs : holds l xs -> Z.of_nat (length xs) < 2 ^ 64 -> mamaFieldCacheList_getSize l = Z.of_nat (length xs).
Proof.
  intros [_ K _ _] Hl. unfold mamaFieldCacheList_getSize. rewrite K. unfold u64, uwrap. rewrite Zplus_mod_idemp_l, Z.mod_small; lia.
Qed.

Lemma holds_create : holds mamaFieldCacheList_create [].
Proof. by split; cbn. Qed.

Lemma holds_clear l xs : holds l xs -> holds (mamaFieldCacheList_clear l) [].
Proof.
  intros [K _ _ _]. split; cbn; try done.
  - unfold mamaFieldCacheVector_clear, vector_ok in *. destruct (vData (mVector l)) as [d|] eqn:E; cbn; [|by rewrite E].
    rewrite length_fmap, length_take. lia.
  - unfold mamaFieldCacheVector_clear, vector_ok in *. destruct (vData (mVector l)) as [d|]; cbn; lia.
Qed.

Lemma holds_add l xs x : holds l xs -> Z.of_nat (length xs) < 2 ^ 63 ->
  exists l', mamaFieldCacheList_add l (Some x) = Ok (MAMA_STATUS_OK, l') /\ holds l' (xs ++ [x]).
Proof.
  intros K Hl. pose proof (holds_size l xs K ltac:(lia)) as E. destruct K as [K1 K2 K3 K4]. unfold mamaFieldCacheList_getSize in E.
  unfold mamaFieldCacheList_add, mamaFieldCacheVector_getSize, LIST_GROW_CHUNK_SIZE. rewrite E.
  set (v := if vSize (mVector l) <=? _ then _ else _).
  assert (vector_ok v /\ Z.of_nat (length xs) < vSize v /\ take (length xs) (items v) = Some <$> xs) as (V1 & V2 & V3).
  { unfold v. destruct (Z.leb_spec (vSize (mVector l)) (Z.of_nat (length xs))); [|by split_and!].
    destruct (grow_ok (mVector l) (vSize (mVector l) + 32) K1 ltac:(pose proof (items_length _ K1); lia)) as (G1 & G2 & G3).
    split_and!; [done|rewrite G2; lia|]. rewrite G3, take_app_le; [done|]. pose proof (items_length _ K1). lia. }
  destruct (set_ok v (Z.of_nat (length xs)) (Some x) V1 ltac:(lia)) as (v' & -> & S1 & S2 & S3).
  eexists; split; [done|]. split; cbn; [done| | |].
  - rewrite length_app; cbn. unfold u64. rewrite uwrap_small; [lia|]. unfold in_u. cbn in *. lia.
  - rewrite length_app, S2. cbn. lia.
  - rewrite length_app, S3, Nat2Z.id. cbn. rewrite Nat.add_1_r.
    pose proof (items_length v V1) as Hi. rewrite fmap_app. cbn. rewrite <- V3.
    rewrite (take_S_r _ _ (Some x)); [by rewrite take_insert_ge by lia|]. apply list_lookup_insert_eq. lia.
Qed.

Lemma holds_get l xs i x : holds l xs -> Z.of_nat (length xs) < 2 ^ 63 -> xs !! i = Some x ->
  mamaFieldCacheList_get l (Z.of_nat i) = Ok (MAMA_STATUS_OK, Some (Some x)).
Proof.
  intros [K1 K2 K3 K4] Hl Hx. apply lookup_lt_Some in Hx as Hi. unfold mamaFieldCacheList_get. rewrite K2.
  replace (u64 _) with (Z.of_nat (length xs) - 1) by (symmetry; apply uwrap_small; unfold in_u; cbn in *; lia).
  destruct (Z.ltb_spec (Z.of_nat (length xs) - 1) (Z.of_nat i)); [lia|].
  destruct (get_ok (mVector l) (Z.of_nat i) K1 ltac:(lia)) as (y & Hy & ->). do 2 f_equal. rewrite Nat2Z.id in Hy.
  rewrite <- (lookup_take_lt _ (length xs)) in Hy by done. rewrite K4, list_lookup_fmap, Hx in Hy. by injection Hy as <-.
Qed.

End Vector.

Arguments mamaFieldCacheVectorImpl : clear implicits.
Arguments mamaFieldCacheListImpl : clear implicits.

End FieldCacheVector.
