(* ===== verification/FieldCacheField.v ===== *)
(** * Fields of the field cache
      (mama/c_cpp/src/c/fieldcache/fieldcachefield.c, fieldcachefieldimpl.c)

    A field of the cache has an identifier and a type that do not change, and a
    value in a union: a number, or a pointer to memory whose size the field
    keeps, to a price or date, or to a vector.  Every accessor tests the type.
    The values of the other fields of a message, [content], are numbers (floating
    point numbers by their bits), strings as their characters, prices and dates
    as opaque values, and arrays of these. *)

From S2P Require Import Prelude MamaStatus FieldCacheVector.

Module FieldCacheField.
Import FieldCacheVector.

Inductive mamaFieldType : Type :=
| MAMA_FIELD_TYPE_MSG | MAMA_FIELD_TYPE_OPAQUE | MAMA_FIELD_TYPE_STRING | MAMA_FIELD_TYPE_BOOL
| MAMA_FIELD_TYPE_CHAR | MAMA_FIELD_TYPE_I8 | MAMA_FIELD_TYPE_U8 | MAMA_FIELD_TYPE_I16
| MAMA_FIELD_TYPE_U16 | MAMA_FIELD_TYPE_I32 | MAMA_FIELD_TYPE_U32 | MAMA_FIELD_TYPE_I64
| MAMA_FIELD_TYPE_U64 | MAMA_FIELD_TYPE_F32 | MAMA_FIELD_TYPE_F64 | MAMA_FIELD_TYPE_TIME
| MAMA_FIELD_TYPE_PRICE | MAMA_FIELD_TYPE_VECTOR_BOOL | MAMA_FIELD_TYPE_VECTOR_CHAR | MAMA_FIELD_TYPE_VECTOR_I8
| MAMA_FIELD_TYPE_VECTOR_U8 | MAMA_FIELD_TYPE_VECTOR_I16 | MAMA_FIELD_TYPE_VECTOR_U16 | MAMA_FIELD_TYPE_VECTOR_I32
| MAMA_FIELD_TYPE_VECTOR_U32 | MAMA_FIELD_TYPE_VECTOR_I64 | MAMA_FIELD_TYPE_VECTOR_U64 | MAMA_FIELD_TYPE_VECTOR_F32
| MAMA_FIELD_TYPE_VECTOR_F64 | MAMA_FIELD_TYPE_VECTOR_STRING | MAMA_FIELD_TYPE_VECTOR_MSG | MAMA_FIELD_TYPE_VECTOR_TIME
| MAMA_FIELD_TYPE_VECTOR_PRICE | MAMA_FIELD_TYPE_QUANTITY | MAMA_FIELD_TYPE_COLLECTION | MAMA_FIELD_TYPE_UNKNOWN.

#[export] Instance mamaFieldType_eq_dec : EqDecision mamaFieldType.
Proof. solve_decision. Defined.

Inductive content : Type :=
| Scalar (z : Z)
| Str (s : list Z)
| Obj (o : Z)
| Scalars (l : list Z)
| Strs (l : list (list Z))
| Objs (l : list Z).

#[export] Instance content_eq_dec : EqDecision content.
Proof. solve_decision. Defined.

(** The union, by what was stored in it: a number (0 after [calloc], which is
    also NULL), memory of [bytes] bytes with the elements [l], a price or date,
    or a vector of strings, prices or dates. *)
Inductive cacheData : Type :=
| dWord (z : Z)
| dBlock (bytes : Z) (l : list Z)
| dObject (o : Z)
| dVector (v : mamaFieldCacheVectorImpl content).

Definition is_null (d : cacheData) : bool := match d with dWord z => z =? 0 | _ => false end.

(** [mDescriptor]: its address, 0 is NULL. *)
Record mamaFieldCacheFieldImpl : Type := mkField {
  mType : mamaFieldType;
  mFid : Z;
  mPublish : bool;
  mCheckModified : bool;
  mData : cacheData;
  mDataSize : Z;
  mVectorSize : Z;
  mDescriptor : Z;
  mName : option string;
  mIsModified : bool;
}.

Section Setters.
Context (f : mamaFieldCacheFieldImpl).
Definition put_data (d : cacheData) (n : Z) : mamaFieldCacheFieldImpl :=
  mkField (mType f) (mFid f) (mPublish f) (mCheckModified f) d n (mVectorSize f) (mDescriptor f) (mName f) (mIsModified f).
Definition put_vectorSize (n : Z) : mamaFieldCacheFieldImpl :=
  mkField (mType f) (mFid f) (mPublish f) (mCheckModified f) (mData f) (mDataSize f) n (mDescriptor f) (mName f) (mIsModified f).
Definition put_flags (p c m : bool) : mamaFieldCacheFieldImpl :=
  mkField (mType f) (mFid f) p c (mData f) (mDataSize f) (mVectorSize f) (mDescriptor f) (mName f) m.
Definition put_descriptor (d : Z) : mamaFieldCacheFieldImpl :=
  mkField (mType f) (mFid f) (mPublish f) (mCheckModified f) (mData f) (mDataSize f) (mVectorSize f) d (mName f) (mIsModified f).
Definition put_name (n : option string) : mamaFieldCacheFieldImpl :=
  mkField (mType f) (mFid f) (mPublish f) (mCheckModified f) (mData f) (mDataSize f) (mVectorSize f) (mDescriptor f) n (mIsModified f).
End Setters.

Definition put_modified (m : bool) (f : mamaFieldCacheFieldImpl) : mamaFieldCacheFieldImpl := put_flags f (mPublish f) (mCheckModified f) m.

(** ** Life cycle *)

Definition mamaFieldCacheField_isSupported (type : mamaFieldType) : bool :=
  match type with
  | MAMA_FIELD_TYPE_MSG | MAMA_FIELD_TYPE_VECTOR_MSG | MAMA_FIELD_TYPE_UNKNOWN | MAMA_FIELD_TYPE_COLLECTION
  | MAMA_FIELD_TYPE_OPAQUE => false
  | _ => true
  end.

(** The new field, [None] when none is made; [mem]: whether [calloc] succeeds. *)
Definition mamaFieldCacheField_create (mem : bool) (fid : Z) (type : mamaFieldType) (name : option string) :
  mama_status * option mamaFieldCacheFieldImpl :=
  if negb (mamaFieldCacheField_isSupported type) then (MAMA_STATUS_INVALID_ARG, None)
  else if negb mem then (MAMA_STATUS_NOMEM, None)
  else (MAMA_STATUS_OK, Some (mkField type fid true true (dWord 0) 0 0 0 name false)).

(** What [mamaFieldCacheField_destroy] frees besides the field. *)
Definition mamaFieldCacheField_destroy (f : mamaFieldCacheFieldImpl) : res mama_status :=
  if negb (mDataSize f =? 0) then
    match mData f with dBlock _ _ => Ok MAMA_STATUS_OK | _ => Fail InvalidDeref end
  else
    match mType f with
    | MAMA_FIELD_TYPE_PRICE | MAMA_FIELD_TYPE_TIME =>
        match mData f with dObject _ => Ok MAMA_STATUS_OK | d => if is_null d then Ok MAMA_STATUS_OK else Fail InvalidDeref end
    | MAMA_FIELD_TYPE_VECTOR_STRING | MAMA_FIELD_TYPE_VECTOR_PRICE | MAMA_FIELD_TYPE_VECTOR_TIME =>
        match mData f with dVector _ => Ok MAMA_STATUS_OK | d => if is_null d then Ok MAMA_STATUS_OK else Fail InvalidDeref end
    | _ => Ok MAMA_STATUS_OK
    end.

(** ** The private setters *)

(** [mamaFieldCacheField_setDataValue] for [count] elements of [width] bytes each;
    [data]: the elements that can be read there, [None] is NULL. *)
Definition mamaFieldCacheField_setDataValue (f : mamaFieldCacheFieldImpl) (data : option (list Z)) (width count : Z) :
  res (mama_status * mamaFieldCacheFieldImpl) :=
  let size := count * width in
  let f1 := if negb (is_null (mData f)) && negb (mDataSize f =? size) then put_data f (dWord 0) 0 else f in
  match data with
  | None => Ok (MAMA_STATUS_OK, f1)
  | Some l =>
      if size =? 0 then Ok (MAMA_STATUS_OK, f1)
      else
        let f2 := if negb (mDataSize f1 =? size) then put_data f1 (dBlock size []) size else f1 in
        match mData f2 with
        | dBlock b old =>
            if (b <? size) || (Z.of_nat (length l) <? count) then Fail InvalidDeref
            else Ok (MAMA_STATUS_OK, put_data f2 (dBlock b (take (Z.to_nat count) l ++ drop (Z.to_nat count) old)) (mDataSize f2))
        | d => if is_null d then Ok (MAMA_STATUS_OK, f2) else Fail InvalidDeref
        end
  end.

(** The old pointer is given back when there is one. *)
Definition mamaFieldCacheField_setDataPointer (f : mamaFieldCacheFieldImpl) (data : cacheData) : mama_status * cacheData * mamaFieldCacheFieldImpl :=
  let old := if is_null (mData f) then dWord 0 else mData f in
  let f1 := if is_null (mData f) then f else put_data f (dWord 0) 0 in
  let f2 := if is_null data then f1 else put_data f1 data 0 in
  (MAMA_STATUS_OK, old, f2).

(** ** Getters

    The second component is [None] when the result is not written. *)

Definition get_scalar (t : mamaFieldType) (f : mamaFieldCacheFieldImpl) : mama_status * option Z :=
  if decide (mType f = t) then (MAMA_STATUS_OK, Some (match mData f with dWord z => z | _ => 0 end))
  else (MAMA_STATUS_INVALID_ARG, None).

(** The pointer and the number of elements. *)
Definition get_vector (t : mamaFieldType) (f : mamaFieldCacheFieldImpl) : mama_status * option (option (list Z) * Z) :=
  if decide (mType f = t) then (MAMA_STATUS_OK, Some (match mData f with dBlock _ l => Some l | _ => None end, mVectorSize f))
  else (MAMA_STATUS_INVALID_ARG, None).

Definition get_object (t : mamaFieldType) (f : mamaFieldCacheFieldImpl) : mama_status * option (option Z) :=
  if decide (mType f = t) then (MAMA_STATUS_OK, Some (match mData f with dObject o => Some o | _ => None end))
  else (MAMA_STATUS_INVALID_ARG, None).

Definition get_object_vector (t : mamaFieldType) (f : mamaFieldCacheFieldImpl) :
  mama_status * option (option (list (option content)) * Z) :=
  if decide (mType f = t) then
    (MAMA_STATUS_OK, Some (match mData f with dVector v => (vData v, mVectorSize f) | _ => (None, 0) end))
  else (MAMA_STATUS_INVALID_ARG, None).

Definition mamaFieldCacheField_getBool := get_scalar MAMA_FIELD_TYPE_BOOL.
Definition mamaFieldCacheField_getChar := get_scalar MAMA_FIELD_TYPE_CHAR.
Definition mamaFieldCacheField_getI8 := get_scalar MAMA_FIELD_TYPE_I8.
Definition mamaFieldCacheField_getU8 := get_scalar MAMA_FIELD_TYPE_U8.
Definition mamaFieldCacheField_getI16 := get_scalar MAMA_FIELD_TYPE_I16.
Definition mamaFieldCacheField_getU16 := get_scalar MAMA_FIELD_TYPE_U16.
Definition mamaFieldCacheField_getI32 := get_scalar MAMA_FIELD_TYPE_I32.
Definition mamaFieldCacheField_getU32 := get_scalar MAMA_FIELD_TYPE_U32.
Definition mamaFieldCacheField_getI64 := get_scalar MAMA_FIELD_TYPE_I64.
Definition mamaFieldCacheField_getU64 := get_scalar MAMA_FIELD_TYPE_U64.
Definition mamaFieldCacheField_getF32 := get_scalar MAMA_FIELD_TYPE_F32.
Definition mamaFieldCacheField_getF64 := get_scalar MAMA_FIELD_TYPE_F64.
Definition mamaFieldCacheField_getString := get_vector MAMA_FIELD_TYPE_STRING.
Definition mamaFieldCacheField_getPrice := get_object MAMA_FIELD_TYPE_PRICE.
Definition mamaFieldCacheField_getDateTime := get_object MAMA_FIELD_TYPE_TIME.
Definition mamaFieldCacheField_getBoolVector := get_vector MAMA_FIELD_TYPE_VECTOR_BOOL.
Definition mamaFieldCacheField_getCharVector := get_vector MAMA_FIELD_TYPE_VECTOR_CHAR.
Definition mamaFieldCacheField_getI8Vector := get_vector MAMA_FIELD_TYPE_VECTOR_I8.
Definition mamaFieldCacheField_getU8Vector := get_vector MAMA_FIELD_TYPE_VECTOR_U8.
Definition mamaFieldCacheField_getI16Vector := get_vector MAMA_FIELD_TYPE_VECTOR_I16.
Definition mamaFieldCacheField_getU16Vector := get_vector MAMA_FIELD_TYPE_VECTOR_U16.
Definition mamaFieldCacheField_getI32Vector := get_vector MAMA_FIELD_TYPE_VECTOR_I32.
Definition mamaFieldCacheField_getU32Vector := get_vector MAMA_FIELD_TYPE_VECTOR_U32.
Definition mamaFieldCacheField_getI64Vector := get_vector MAMA_FIELD_TYPE_VECTOR_I64.
Definition mamaFieldCacheField_getU64Vector := get_vector MAMA_FIELD_TYPE_VECTOR_U64.
Definition mamaFieldCacheField_getF32Vector := get_vector MAMA_FIELD_TYPE_VECTOR_F32.
Definition mamaFieldCacheField_getF64Vector := get_vector MAMA_FIELD_TYPE_VECTOR_F64.
Definition mamaFieldCacheField_getStringVector := get_object_vector MAMA_FIELD_TYPE_VECTOR_STRING.
Definition mamaFieldCacheField_getPriceVector := get_object_vector MAMA_FIELD_TYPE_VECTOR_PRICE.
Definition mamaFieldCacheField_getDateTimeVector := get_object_vector MAMA_FIELD_TYPE_VECTOR_TIME.

(** [descriptor_name]: [mamaFieldDescriptor_getName] of the descriptors. *)
Definition mamaFieldCacheField_getName (descriptor_name : Z -> option string) (f : mamaFieldCacheFieldImpl) : option string :=
  match mName f with
  | Some n => Some n
  | None => if mDescriptor f =? 0 then None else descriptor_name (mDescriptor f)
  end.

Definition mamaFieldCacheField_setDescriptor (f : mamaFieldCacheFieldImpl) (desc : Z) : mamaFieldCacheFieldImpl := put_descriptor f desc.
Definition mamaFieldCacheField_setPublish (f : mamaFieldCacheFieldImpl) (publish : bool) : mamaFieldCacheFieldImpl :=
  put_flags f publish (mCheckModified f) (mIsModified f).
Definition mamaFieldCacheField_setCheckModified (f : mamaFieldCacheFieldImpl) (check : bool) : mamaFieldCacheFieldImpl :=
  put_flags f (mPublish f) check (mIsModified f).

(** ** Setters *)

Definition set_scalar (t : mamaFieldType) (f : mamaFieldCacheFieldImpl) (value : Z) : mama_status * mamaFieldCacheFieldImpl :=
  if decide (mType f = t) then (MAMA_STATUS_OK, put_data f (dWord value) (mDataSize f)) else (MAMA_STATUS_INVALID_ARG, f).

Definition set_object (t : mamaFieldType) (f : mamaFieldCacheFieldImpl) (value : option Z) : res (mama_status * mamaFieldCacheFieldImpl) :=
  match value with
  | None => Ok (MAMA_STATUS_NULL_ARG, f)
  | Some o =>
      if decide (mType f = t) then
        let f1 := if is_null (mData f) then (mamaFieldCacheField_setDataPointer f (dObject 0)).2 else f in
        match mData f1 with
        | dObject _ => Ok (MAMA_STATUS_OK, put_data f1 (dObject o) (mDataSize f1))
        | _ => Fail InvalidDeref
        end
      else Ok (MAMA_STATUS_INVALID_ARG, f)
  end.

Definition set_vector (t : mamaFieldType) (width : Z) (f : mamaFieldCacheFieldImpl) (values : option (list Z)) (size : Z) :
  res (mama_status * mamaFieldCacheFieldImpl) :=
  match values with
  | None => Ok (MAMA_STATUS_NULL_ARG, f)
  | Some _ =>
      if decide (mType f = t) then mamaFieldCacheField_setDataValue (put_vectorSize f size) values width size
      else Ok (MAMA_STATUS_INVALID_ARG, f)
  end.

(** The loop over the elements: each is a new string, or copied into the price or
    date at its place, which is made when there is none. *)
Fixpoint fill_vector (v : mamaFieldCacheVectorImpl content) (values : list (option content)) (counter : Z) :
  res (mamaFieldCacheVectorImpl content) :=
  match values with
  | [] => Ok v
  | None :: _ => Fail InvalidDeref
  | Some x :: rest =>
      match mamaFieldCacheVector_get v counter with
      | Ok _ =>
          match mamaFieldCacheVector_set v counter (Some x) with
          | Ok (_, v') => fill_vector v' rest (counter + 1)
          | Fail e => Fail e
          end
      | Fail e => Fail e
      end
  end.

Definition set_object_vector (t : mamaFieldType) (f : mamaFieldCacheFieldImpl) (values : option (list (option content))) (size : Z) :
  res (mama_status * mamaFieldCacheFieldImpl) :=
  match values with
  | None => Ok (MAMA_STATUS_NULL_ARG, f)
  | Some l =>
      if decide (mType f = t) then
        let f1 := if is_null (mData f) then put_data f (dVector mamaFieldCacheVector_create) (mDataSize f) else f in
        match mData f1 with
        | dVector v =>
            if Z.of_nat (length l) <? size then Fail InvalidDeref
            else
              match fill_vector (mamaFieldCacheVector_grow v size) (take (Z.to_nat size) l) 0 with
              | Ok v' => Ok (MAMA_STATUS_OK, put_vectorSize (put_data f1 (dVector v') (mDataSize f1)) size)
              | Fail e => Fail e
              end
        | _ => Fail InvalidDeref
        end
      else Ok (MAMA_STATUS_INVALID_ARG, f)
  end.

Definition mamaFieldCacheField_setBool := set_scalar MAMA_FIELD_TYPE_BOOL.
Definition mamaFieldCacheField_setChar := set_scalar MAMA_FIELD_TYPE_CHAR.
Definition mamaFieldCacheField_setI8 := set_scalar MAMA_FIELD_TYPE_I8.
Definition mamaFieldCacheField_setU8 := set_scalar MAMA_FIELD_TYPE_U8.
Definition mamaFieldCacheField_setI16 := set_scalar MAMA_FIELD_TYPE_I16.
Definition mamaFieldCacheField_setU16 := set_scalar MAMA_FIELD_TYPE_U16.
Definition mamaFieldCacheField_setI32 := set_scalar MAMA_FIELD_TYPE_I32.
Definition mamaFieldCacheField_setU32 := set_scalar MAMA_FIELD_TYPE_U32.
Definition mamaFieldCacheField_setI64 := set_scalar MAMA_FIELD_TYPE_I64.
Definition mamaFieldCacheField_setU64 := set_scalar MAMA_FIELD_TYPE_U64.
Definition mamaFieldCacheField_setF32 := set_scalar MAMA_FIELD_TYPE_F32.
Definition mamaFieldCacheField_setF64 := set_scalar MAMA_FIELD_TYPE_F64.

(** [value]: the characters of the string; the memory behind it ends with a 0. *)
Definition mamaFieldCacheField_setString (f : mamaFieldCacheFieldImpl) (value : option (list Z)) (len : Z) :
  res (mama_status * mamaFieldCacheFieldImpl) :=
  if decide (mType f = MAMA_FIELD_TYPE_STRING) then
    let len := match value with Some s => if len =? 0 then Z.of_nat (length s) else len | None => len end in
    mamaFieldCacheField_setDataValue (put_vectorSize f len) ((fun s => s ++ [0]) <$> value) 1
      (match value with Some _ => len + 1 | None => 0 end)
  else Ok (MAMA_STATUS_INVALID_ARG, f).

Definition mamaFieldCacheField_setPrice := set_object MAMA_FIELD_TYPE_PRICE.
Definition mamaFieldCacheField_setDateTime := set_object MAMA_FIELD_TYPE_TIME.
Definition mamaFieldCacheField_setBoolVector := set_vector MAMA_FIELD_TYPE_VECTOR_BOOL 1.
Definition mamaFieldCacheField_setCharVector := set_vector MAMA_FIELD_TYPE_VECTOR_CHAR 1.
Definition mamaFieldCacheField_setI8Vector := set_vector MAMA_FIELD_TYPE_VECTOR_I8 1.
Definition mamaFieldCacheField_setU8Vector := set_vector MAMA_FIELD_TYPE_VECTOR_U8 1.
Definition mamaFieldCacheField_setI16Vector := set_vector MAMA_FIELD_TYPE_VECTOR_I16 2.
Definition mamaFieldCacheField_setU16Vector := set_vector MAMA_FIELD_TYPE_VECTOR_U16 2.
Definition mamaFieldCacheField_setI32Vector := set_vector MAMA_FIELD_TYPE_VECTOR_I32 4.
Definition mamaFieldCacheField_setU32Vector := set_vector MAMA_FIELD_TYPE_VECTOR_U32 4.
Definition mamaFieldCacheField_setI64Vector := set_vector MAMA_FIELD_TYPE_VECTOR_I64 8.
Definition mamaFieldCacheField_setU64Vector := set_vector MAMA_FIELD_TYPE_VECTOR_U64 8.
Definition mamaFieldCacheField_setF32Vector := set_vector MAMA_FIELD_TYPE_VECTOR_F32 4.
Definition mamaFieldCacheField_setF64Vector := set_vector MAMA_FIELD_TYPE_VECTOR_F64 8.
Definition mamaFieldCacheField_setStringVector := set_object_vector MAMA_FIELD_TYPE_VECTOR_STRING.
Definition mamaFieldCacheField_setPriceVector := set_object_vector MAMA_FIELD_TYPE_VECTOR_PRICE.
Definition mamaFieldCacheField_setDateTimeVector := set_object_vector MAMA_FIELD_TYPE_VECTOR_TIME.

(** ** Copying *)

(** [copy_data field copy]: the [switch] of [mamaFieldCacheField_copy].  A number
    that was not written is whatever the stack holds, [garbage]; a pointer that
    was not written is NULL. *)
Section Copy.
Context (garbage : Z).

Definition written (r : mama_status * option Z) : Z := default garbage r.2.

(** The characters of a string up to its terminator. *)
Fixpoint c_string (l : list Z) : list Z :=
  match l with [] => [] | c :: l' => if c =? 0 then [] else c :: c_string l' end.

Definition copy_data (field copy : mamaFieldCacheFieldImpl) : res (mama_status * mamaFieldCacheFieldImpl) :=
  match mType field with
  | MAMA_FIELD_TYPE_BOOL => Ok (mamaFieldCacheField_setBool copy (written (mamaFieldCacheField_getBool field)))
  | MAMA_FIELD_TYPE_CHAR => Ok (mamaFieldCacheField_setChar copy (written (mamaFieldCacheField_getChar field)))
  | MAMA_FIELD_TYPE_I8 => Ok (mamaFieldCacheField_setI8 copy (written (mamaFieldCacheField_getI8 field)))
  | MAMA_FIELD_TYPE_U8 => Ok (mamaFieldCacheField_setU8 copy (written (mamaFieldCacheField_getU8 field)))
  | MAMA_FIELD_TYPE_I16 => Ok (mamaFieldCacheField_setI16 copy (written (mamaFieldCacheField_getI16 field)))
  | MAMA_FIELD_TYPE_U16 => Ok (mamaFieldCacheField_setU16 copy (written (mamaFieldCacheField_getU16 field)))
  | MAMA_FIELD_TYPE_I32 => Ok (mamaFieldCacheField_setI32 copy (written (mamaFieldCacheField_getI32 field)))
  | MAMA_FIELD_TYPE_U32 => Ok (mamaFieldCacheField_setU32 copy (written (mamaFieldCacheField_getU32 field)))
  | MAMA_FIELD_TYPE_I64 => Ok (mamaFieldCacheField_setI64 copy (written (mamaFieldCacheField_getI64 field)))
  | MAMA_FIELD_TYPE_U64 => Ok (mamaFieldCacheField_setU64 copy (written (mamaFieldCacheField_getU64 field)))
  | MAMA_FIELD_TYPE_F32 => Ok (mamaFieldCacheField_setF32 copy (written (mamaFieldCacheField_getF32 field)))
  | MAMA_FIELD_TYPE_QUANTITY | MAMA_FIELD_TYPE_F64 => Ok (mamaFieldCacheField_setF64 copy (written (mamaFieldCacheField_getF64 field)))
  | MAMA_FIELD_TYPE_STRING =>
      let r := default (None, 0) (mamaFieldCacheField_getString field).2 in
      mamaFieldCacheField_setString copy (c_string <$> r.1) r.2
  | MAMA_FIELD_TYPE_PRICE => mamaFieldCacheField_setPrice copy (default None (mamaFieldCacheField_getPrice field).2)
  | MAMA_FIELD_TYPE_TIME => mamaFieldCacheField_setDateTime copy (default None (mamaFieldCacheField_getDateTime field).2)
  | MAMA_FIELD_TYPE_VECTOR_BOOL =>
      let r := default (None, garbage) (mamaFieldCacheField_getBoolVector field).2 in mamaFieldCacheField_setBoolVector copy r.1 r.2
  | MAMA_FIELD_TYPE_VECTOR_CHAR =>
      let r := default (None, garbage) (mamaFieldCacheField_getCharVector field).2 in mamaFieldCacheField_setCharVector copy r.1 r.2
  | MAMA_FIELD_TYPE_VECTOR_I8 =>
      let r := default (None, garbage) (mamaFieldCacheField_getI8Vector field).2 in mamaFieldCacheField_setI8Vector copy r.1 r.2
  | MAMA_FIELD_TYPE_VECTOR_U8 =>
      let r := default (None, garbage) (mamaFieldCacheField_getU8Vector field).2 in mamaFieldCacheField_setU8Vector copy r.1 r.2
  | MAMA_FIELD_TYPE_VECTOR_I16 =>
      let r := default (None, garbage) (mamaFieldCacheField_getI16Vector field).2 in mamaFieldCacheField_setI16Vector copy r.1 r.2
  | MAMA_FIELD_TYPE_VECTOR_U16 =>
      let r := default (None, garbage) (mamaFieldCacheField_getU16Vector field).2 in mamaFieldCacheField_setU16Vector copy r.1 r.2
  | MAMA_FIELD_TYPE_VECTOR_I32 =>
      let r := default (None, garbage) (mamaFieldCacheField_getI32Vector field).2 in mamaFieldCacheField_setI32Vector copy r.1 r.2
  | MAMA_FIELD_TYPE_VECTOR_U32 =>
      let r := default (None, garbage) (mamaFieldCacheField_getU32Vector field).2 in mamaFieldCacheField_setU32Vector copy r.1 r.2
  | MAMA_FIELD_TYPE_VECTOR_I64 =>
      let r := default (None, garbage) (mamaFieldCacheField_getI64Vector field).2 in mamaFieldCacheField_setI64Vector copy r.1 r.2
  | MAMA_FIELD_TYPE_VECTOR_U64 =>
      let r := default (None, garbage) (mamaFieldCacheField_getU64Vector field).2 in mamaFieldCacheField_setU64Vector copy r.1 r.2
  | MAMA_FIELD_TYPE_VECTOR_F32 =>
      let r := default (None, garbage) (mamaFieldCacheField_getF32Vector field).2 in mamaFieldCacheField_setF32Vector copy r.1 r.2
  | MAMA_FIELD_TYPE_VECTOR_F64 =>
      let r := default (None, garbage) (mamaFieldCacheField_getF64Vector field).2 in mamaFieldCacheField_setF64Vector copy r.1 r.2
  | MAMA_FIELD_TYPE_VECTOR_STRING =>
      let r := default (None, garbage) (mamaFieldCacheField_getStringVector field).2 in mamaFieldCacheField_setStringVector copy r.1 r.2
  | MAMA_FIELD_TYPE_VECTOR_PRICE =>
      let r := default (None, garbage) (mamaFieldCacheField_getPriceVector field).2 in mamaFieldCacheField_setPriceVector copy r.1 r.2
  | MAMA_FIELD_TYPE_VECTOR_TIME =>
      let r := default (None, garbage) (mamaFieldCacheField_getDateTimeVector field).2 in mamaFieldCacheField_setDateTimeVector copy r.1 r.2
  | _ => Ok (MAMA_STATUS_OK, copy)
  end.

(** [same]: whether the two are the same field. *)
Definition mamaFieldCacheField_copy (same : bool) (field copy : mamaFieldCacheFieldImpl) : res (mama_status * mamaFieldCacheFieldImpl) :=
  if same then Ok (MAMA_STATUS_OK, copy)
  else if bool_decide (mFid field <> mFid copy) || bool_decide (mType field <> mType copy) then Ok (MAMA_STATUS_INVALID_ARG, copy)
  else
    let copy1 := put_descriptor (put_flags copy (mPublish field) (mCheckModified field) (mIsModified field)) (mDescriptor field) in
    let copy2 := match mName field with Some n => put_name copy1 (Some n) | None => copy1 end in
    match copy_data field copy2 with
    | Ok (_, copy3) => Ok (MAMA_STATUS_OK, copy3)
    | Fail e => Fail e
    end.
End Copy.

End FieldCacheField.
