(* ===== verification/FieldCacheFieldProps.v ===== *)
(** * Fields of the field cache: types and values

    Whatever setters are called with whatever types, a field keeps a value of its
    own type, in memory of exactly the size the field says, and the getter of its
    type gives back the last value that was set. *)

From S2P Require Import Prelude MamaStatus FieldCacheVector FieldCacheField.

Module FieldCacheFieldProps.
Import FieldCacheVector FieldCacheField.

(** ** The accessors by type *)

(** What a value of a type is: a number in a range, an array of numbers of a
    width in a range, and so on.  [KQuantity]: a type without an accessor. *)
Inductive kind : Type :=
| KScalar (lo hi : Z)
| KString
| KObject
| KVector (width lo hi : Z)
| KStrings
| KObjects
| KQuantity
| KUnsupported.

Definition kind_of (t : mamaFieldType) : kind :=
  match t with
  | MAMA_FIELD_TYPE_BOOL => KScalar (- 2 ^ 7) (2 ^ 7)
  | MAMA_FIELD_TYPE_CHAR => KScalar (- 2 ^ 7) (2 ^ 7)
  | MAMA_FIELD_TYPE_I8 => KScalar (- 2 ^ 7) (2 ^ 7)
  | MAMA_FIELD_TYPE_U8 => KScalar 0 (2 ^ 8)
  | MAMA_FIELD_TYPE_I16 => KScalar (- 2 ^ 15) (2 ^ 15)
  | MAMA_FIELD_TYPE_U16 => KScalar 0 (2 ^ 16)
  | MAMA_FIELD_TYPE_I32 => KScalar (- 2 ^ 31) (2 ^ 31)
  | MAMA_FIELD_TYPE_U32 => KScalar 0 (2 ^ 32)
  | MAMA_FIELD_TYPE_I64 => KScalar (- 2 ^ 63) (2 ^ 63)
  | MAMA_FIELD_TYPE_U64 => KScalar 0 (2 ^ 64)
  | MAMA_FIELD_TYPE_F32 => KScalar 0 (2 ^ 32)
  | MAMA_FIELD_TYPE_F64 => KScalar 0 (2 ^ 64)
  | MAMA_FIELD_TYPE_STRING => KString
  | MAMA_FIELD_TYPE_PRICE | MAMA_FIELD_TYPE_TIME => KObject
  | MAMA_FIELD_TYPE_VECTOR_BOOL => KVector 1 (- 2 ^ 7) (2 ^ 7)
  | MAMA_FIELD_TYPE_VECTOR_CHAR => KVector 1 (- 2 ^ 7) (2 ^ 7)
  | MAMA_FIELD_TYPE_VECTOR_I8 => KVector 1 (- 2 ^ 7) (2 ^ 7)
  | MAMA_FIELD_TYPE_VECTOR_U8 => KVector 1 0 (2 ^ 8)
  | MAMA_FIELD_TYPE_VECTOR_I16 => KVector 2 (- 2 ^ 15) (2 ^ 15)
  | MAMA_FIELD_TYPE_VECTOR_U16 => KVector 2 0 (2 ^ 16)
  | MAMA_FIELD_TYPE_VECTOR_I32 => KVector 4 (- 2 ^ 31) (2 ^ 31)
  | MAMA_FIELD_TYPE_VECTOR_U32 => KVector 4 0 (2 ^ 32)
  | MAMA_FIELD_TYPE_VECTOR_I64 => KVector 8 (- 2 ^ 63) (2 ^ 63)
  | MAMA_FIELD_TYPE_VECTOR_U64 => KVector 8 0 (2 ^ 64)
  | MAMA_FIELD_TYPE_VECTOR_F32 => KVector 4 0 (2 ^ 32)
  | MAMA_FIELD_TYPE_VECTOR_F64 => KVector 8 0 (2 ^ 64)
  | MAMA_FIELD_TYPE_VECTOR_STRING => KStrings
  | MAMA_FIELD_TYPE_VECTOR_PRICE | MAMA_FIELD_TYPE_VECTOR_TIME => KObjects
  | MAMA_FIELD_TYPE_QUANTITY => KQuantity
  | _ => KUnsupported
  end.

Definition in_range (lo hi z : Z) : Prop := lo <= z < hi.

(** A string has no zero in it. *)
Definition is_string (s : list Z) : Prop := Forall (fun c => c <> 0) s.

(** A value that the C type of the setter of [t] has. *)
Definition content_ok (t : mamaFieldType) (c : content) : Prop :=
  match kind_of t, c with
  | KScalar lo hi, Scalar z => in_range lo hi z
  | KString, Str s => is_string s
  | KObject, Obj _ => True
  | KVector _ lo hi, Scalars l => Forall (in_range lo hi) l
  | KStrings, Strs l => Forall is_string l
  | KObjects, Objs _ => True
  | _, _ => False
  end.

(** The call of the setter of the type [t] with the value [c]. *)
Definition set_value (t : mamaFieldType) (f : mamaFieldCacheFieldImpl) (c : content) : res (mama_status * mamaFieldCacheFieldImpl) :=
  match t, c with
  | MAMA_FIELD_TYPE_BOOL, Scalar z => Ok (mamaFieldCacheField_setBool f z)
  | MAMA_FIELD_TYPE_CHAR, Scalar z => Ok (mamaFieldCacheField_setChar f z)
  | MAMA_FIELD_TYPE_I8, Scalar z => Ok (mamaFieldCacheField_setI8 f z)
  | MAMA_FIELD_TYPE_U8, Scalar z => Ok (mamaFieldCacheField_setU8 f z)
  | MAMA_FIELD_TYPE_I16, Scalar z => Ok (mamaFieldCacheField_setI16 f z)
  | MAMA_FIELD_TYPE_U16, Scalar z => Ok (mamaFieldCacheField_setU16 f z)
  | MAMA_FIELD_TYPE_I32, Scalar z => Ok (mamaFieldCacheField_setI32 f z)
  | MAMA_FIELD_TYPE_U32, Scalar z => Ok (mamaFieldCacheField_setU32 f z)
  | MAMA_FIELD_TYPE_I64, Scalar z => Ok (mamaFieldCacheField_setI64 f z)
  | MAMA_FIELD_TYPE_U64, Scalar z => Ok (mamaFieldCacheField_setU64 f z)
  | MAMA_FIELD_TYPE_F32, Scalar z => Ok (mamaFieldCacheField_setF32 f z)
  | MAMA_FIELD_TYPE_F64, Scalar z => Ok (mamaFieldCacheField_setF64 f z)
  | MAMA_FIELD_TYPE_STRING, Str s => mamaFieldCacheField_setString f (Some s) 0
  | MAMA_FIELD_TYPE_PRICE, Obj o => mamaFieldCacheField_setPrice f (Some o)
  | MAMA_FIELD_TYPE_TIME, Obj o => mamaFieldCacheField_setDateTime f (Some o)
  | MAMA_FIELD_TYPE_VECTOR_BOOL, Scalars l => mamaFieldCacheField_setBoolVector f (Some l) (Z.of_nat (length l))
  | MAMA_FIELD_TYPE_VECTOR_CHAR, Scalars l => mamaFieldCacheField_setCharVector f (Some l) (Z.of_nat (length l))
  | MAMA_FIELD_TYPE_VECTOR_I8, Scalars l => mamaFieldCacheField_setI8Vector f (Some l) (Z.of_nat (length l))
  | MAMA_FIELD_TYPE_VECTOR_U8, Scalars l => mamaFieldCacheField_setU8Vector f (Some l) (Z.of_nat (length l))
  | MAMA_FIELD_TYPE_VECTOR_I16, Scalars l => mamaFieldCacheField_setI16Vector f (Some l) (Z.of_nat (length l))
  | MAMA_FIELD_TYPE_VECTOR_U16, Scalars l => mamaFieldCacheField_setU16Vector f (Some l) (Z.of_nat (length l))
  | MAMA_FIELD_TYPE_VECTOR_I32, Scalars l => mamaFieldCacheField_setI32Vector f (Some l) (Z.of_nat (length l))
  | MAMA_FIELD_TYPE_VECTOR_U32, Scalars l => mamaFieldCacheField_setU32Vector f (Some l) (Z.of_nat (length l))
  | MAMA_FIELD_TYPE_VECTOR_I64, Scalars l => mamaFieldCacheField_setI64Vector f (Some l) (Z.of_nat (length l))
  | MAMA_FIELD_TYPE_VECTOR_U64, Scalars l => mamaFieldCacheField_setU64Vector f (Some l) (Z.of_nat (length l))
  | MAMA_FIELD_TYPE_VECTOR_F32, Scalars l => mamaFieldCacheField_setF32Vector f (Some l) (Z.of_nat (length l))
  | MAMA_FIELD_TYPE_VECTOR_F64, Scalars l => mamaFieldCacheField_setF64Vector f (Some l) (Z.of_nat (length l))
  | MAMA_FIELD_TYPE_VECTOR_STRING, Strs l => mamaFieldCacheField_setStringVector f (Some ((fun s => Some (Str s)) <$> l)) (Z.of_nat (length l))
  | MAMA_FIELD_TYPE_VECTOR_PRICE, Objs l => mamaFieldCacheField_setPriceVector f (Some ((fun o => Some (Obj o)) <$> l)) (Z.of_nat (length l))
  | MAMA_FIELD_TYPE_VECTOR_TIME, Objs l => mamaFieldCacheField_setDateTimeVector f (Some ((fun o => Some (Obj o)) <$> l)) (Z.of_nat (length l))
  | _, _ => Ok (MAMA_STATUS_INVALID_ARG, f)
  end.

(** What the caller of a getter reads: as many elements as the getter says; [None]
    when there is no value or the elements cannot be read. *)
Definition read_elements {A} (r : option (option (list A) * Z)) : option (list A) :=
  match r with
  | Some (Some l, n) => if Z.of_nat (length l) <? n then None else Some (take (Z.to_nat n) l)
  | _ => None
  end.

Definition as_str (c : option content) : option (list Z) := match c with Some (Str s) => Some s | _ => None end.
Definition as_obj (c : option content) : option Z := match c with Some (Obj o) => Some o | _ => None end.

(** The call of the getter of the type [t]. *)
Definition get_value (t : mamaFieldType) (f : mamaFieldCacheFieldImpl) : option content :=
  match t with
  | MAMA_FIELD_TYPE_BOOL => Scalar <$> (mamaFieldCacheField_getBool f).2
  | MAMA_FIELD_TYPE_CHAR => Scalar <$> (mamaFieldCacheField_getChar f).2
  | MAMA_FIELD_TYPE_I8 => Scalar <$> (mamaFieldCacheField_getI8 f).2
  | MAMA_FIELD_TYPE_U8 => Scalar <$> (mamaFieldCacheField_getU8 f).2
  | MAMA_FIELD_TYPE_I16 => Scalar <$> (mamaFieldCacheField_getI16 f).2
  | MAMA_FIELD_TYPE_U16 => Scalar <$> (mamaFieldCacheField_getU16 f).2
  | MAMA_FIELD_TYPE_I32 => Scalar <$> (mamaFieldCacheField_getI32 f).2
  | MAMA_FIELD_TYPE_U32 => Scalar <$> (mamaFieldCacheField_getU32 f).2
  | MAMA_FIELD_TYPE_I64 => Scalar <$> (mamaFieldCacheField_getI64 f).2
  | MAMA_FIELD_TYPE_U64 => Scalar <$> (mamaFieldCacheField_getU64 f).2
  | MAMA_FIELD_TYPE_F32 => Scalar <$> (mamaFieldCacheField_getF32 f).2
  | MAMA_FIELD_TYPE_F64 => Scalar <$> (mamaFieldCacheField_getF64 f).2
  | MAMA_FIELD_TYPE_STRING =>
      match (mamaFieldCacheField_getString f).2 with Some (Some l, _) => Some (Str (c_string l)) | _ => None end
  | MAMA_FIELD_TYPE_PRICE => match (mamaFieldCacheField_getPrice f).2 with Some (Some o) => Some (Obj o) | _ => None end
  | MAMA_FIELD_TYPE_TIME => match (mamaFieldCacheField_getDateTime f).2 with Some (Some o) => Some (Obj o) | _ => None end
  | MAMA_FIELD_TYPE_VECTOR_BOOL => Scalars <$> read_elements (mamaFieldCacheField_getBoolVector f).2
  | MAMA_FIELD_TYPE_VECTOR_CHAR => Scalars <$> read_elements (mamaFieldCacheField_getCharVector f).2
  | MAMA_FIELD_TYPE_VECTOR_I8 => Scalars <$> read_elements (mamaFieldCacheField_getI8Vector f).2
  | MAMA_FIELD_TYPE_VECTOR_U8 => Scalars <$> read_elements (mamaFieldCacheField_getU8Vector f).2
  | MAMA_FIELD_TYPE_VECTOR_I16 => Scalars <$> read_elements (mamaFieldCacheField_getI16Vector f).2
  | MAMA_FIELD_TYPE_VECTOR_U16 => Scalars <$> read_elements (mamaFieldCacheField_getU16Vector f).2
  | MAMA_FIELD_TYPE_VECTOR_I32 => Scalars <$> read_elements (mamaFieldCacheField_getI32Vector f).2
  | MAMA_FIELD_TYPE_VECTOR_U32 => Scalars <$> read_elements (mamaFieldCacheField_getU32Vector f).2
  | MAMA_FIELD_TYPE_VECTOR_I64 => Scalars <$> read_elements (mamaFieldCacheField_getI64Vector f).2
  | MAMA_FIELD_TYPE_VECTOR_U64 => Scalars <$> read_elements (mamaFieldCacheField_getU64Vector f).2
  | MAMA_FIELD_TYPE_VECTOR_F32 => Scalars <$> read_elements (mamaFieldCacheField_getF32Vector f).2
  | MAMA_FIELD_TYPE_VECTOR_F64 => Scalars <$> read_elements (mamaFieldCacheField_getF64Vector f).2
  | MAMA_FIELD_TYPE_VECTOR_STRING => Strs <$> (read_elements (mamaFieldCacheField_getStringVector f).2 ≫= mapM as_str)
  | MAMA_FIELD_TYPE_VECTOR_PRICE => Objs <$> (read_elements (mamaFieldCacheField_getPriceVector f).2 ≫= mapM as_obj)
  | MAMA_FIELD_TYPE_VECTOR_TIME => Objs <$> (read_elements (mamaFieldCacheField_getDateTimeVector f).2 ≫= mapM as_obj)
  | _ => None
  end.

(** ** Well-typed fields *)

(** Memory from [malloc], of [mDataSize] bytes, with elements of [width] bytes. *)
Definition block_ok (width : Z) (f : mamaFieldCacheFieldImpl) : Prop :=
  (mData f = dWord 0 /\ mDataSize f = 0) \/
  exists l, mData f = dBlock (mDataSize f) l /\ 0 < mDataSize f /\ Z.of_nat (length l) * width = mDataSize f.

Definition object_ok (f : mamaFieldCacheFieldImpl) : Prop :=
  mDataSize f = 0 /\ (mData f = dWord 0 \/ exists o, mData f = dObject o).

(** A vector whose first [mVectorSize] places are filled with items of the type. *)
Definition items_ok (P : content -> Prop) (f : mamaFieldCacheFieldImpl) : Prop :=
  mDataSize f = 0 /\
  (mData f = dWord 0 \/
   exists v, mData f = dVector v /\ is_Some (vData v) /\ vector_ok v /\ 0 <= mVectorSize f <= vSize v /\
     Forall (fun x => exists c, x = Some c /\ P c) (take (Z.to_nat (mVectorSize f)) (items v))).

Definition str_item (c : content) : Prop := match c with Str s => is_string s | _ => False end.
Definition obj_item (c : content) : Prop := match c with Obj _ => True | _ => False end.

Definition data_ok (f : mamaFieldCacheFieldImpl) : Prop :=
  match kind_of (mType f) with
  | KScalar lo hi => mDataSize f = 0 /\ exists z, mData f = dWord z /\ in_range lo hi z
  | KString =>
      block_ok 1 f /\ (forall b l, mData f = dBlock b l -> exists s, l = s ++ [0] /\ is_string s /\ mVectorSize f = Z.of_nat (length s))
  | KObject => object_ok f
  | KVector w lo hi =>
      block_ok w f /\ (forall b l, mData f = dBlock b l -> Forall (in_range lo hi) l /\ mVectorSize f = Z.of_nat (length l))
  | KStrings => items_ok str_item f
  | KObjects => items_ok obj_item f
  | KQuantity => mData f = dWord 0 /\ mDataSize f = 0
  | KUnsupported => False
  end.

(** The value of a field. *)
Definition field_value (f : mamaFieldCacheFieldImpl) : option content :=
  match kind_of (mType f), mData f with
  | KScalar _ _, dWord z => Some (Scalar z)
  | KString, dBlock _ l => Some (Str (c_string l))
  | KObject, dObject o => Some (Obj o)
  | KVector _ _ _, dBlock _ l => Some (Scalars l)
  | KStrings, dVector v => Strs <$> mapM as_str (take (Z.to_nat (mVectorSize f)) (items v))
  | KObjects, dVector v => Objs <$> mapM as_obj (take (Z.to_nat (mVectorSize f)) (items v))
  | _, _ => None
  end.

(** An empty array of numbers is stored as NULL. *)
Definition readable (c : content) : option content := match c with Scalars [] => None | _ => Some c end.

(** What is not the value. *)
Definition keeps (f f' : mamaFieldCacheFieldImpl) : Prop :=
  mType f' = mType f /\ mFid f' = mFid f /\ mPublish f' = mPublish f /\ mCheckModified f' = mCheckModified f /\
  mDescriptor f' = mDescriptor f /\ mName f' = mName f /\ mIsModified f' = mIsModified f.

Lemma keeps_refl f : keeps f f.
Proof. by unfold keeps. Qed.

Lemma keeps_put f d n m : keeps f (put_data (put_vectorSize f m) d n).
Proof. by unfold keeps. Qed.

(** What the setter of the type [t] does to [f]. *)
Definition outcome (t : mamaFieldType) (f : mamaFieldCacheFieldImpl) (c : content) (r : res (mama_status * mamaFieldCacheFieldImpl)) : Prop :=
  if decide (mType f = t) then
    exists f', r = Ok (MAMA_STATUS_OK, f') /\ data_ok f' /\ keeps f f' /\ field_value f' = readable c
  else r = Ok (MAMA_STATUS_INVALID_ARG, f).

Lemma c_string_stops s : is_string s -> c_string (s ++ [0]) = s.
Proof.
  induction 1 as [|c s Hc _ IH]; [done|]. cbn. destruct (Z.eqb_spec c 0); [done|]. by rewrite IH.
Qed.

Lemma setDataValue_ok f l w n :
  block_ok w f -> 0 < w -> 0 <= n <= Z.of_nat (length l) ->
  mamaFieldCacheField_setDataValue f (Some l) w n =
    Ok (MAMA_STATUS_OK, put_data f (if n =? 0 then dWord 0 else dBlock (n * w) (take (Z.to_nat n) l)) (n * w)).
Proof.
  intros [[D S]|(old & D & S & L)] Hw Hn; unfold mamaFieldCacheField_setDataValue; rewrite D; cbn [is_null negb andb].
  - destruct (Z.eqb_spec n 0) as [->|].
    + cbn. do 2 f_equal. destruct f; cbn in *. by subst.
    + cbn [Z.eqb negb andb]. rewrite S. destruct (Z.eqb_spec (n * w) 0); [lia|]. destruct (Z.eqb_spec 0 (n * w)); [lia|].
      cbn [mData put_data mDataSize negb]. rewrite Z.ltb_irrefl. destruct (Z.ltb_spec (Z.of_nat (length l)) n); [lia|].
      cbn. by rewrite drop_nil, app_nil_r.
  - destruct (Z.eqb_spec (mDataSize f) (n * w)) as [E|E]; cbn [negb andb].
    + destruct (Z.eqb_spec (n * w) 0); [lia|]. destruct (Z.eqb_spec n 0); [lia|]. rewrite E, Z.eqb_refl. cbn [negb].
      rewrite D, E. rewrite Z.ltb_irrefl. destruct (Z.ltb_spec (Z.of_nat (length l)) n); [lia|]. cbn [orb].
      rewrite (drop_ge old) by nia. by rewrite app_nil_r.
    + destruct (Z.eqb_spec (n * w) 0); [destruct (Z.eqb_spec n 0); [|nia]; subst; done|]. cbn [put_data mDataSize].
      destruct (Z.eqb_spec 0 (n * w)); [lia|]. destruct (Z.eqb_spec n 0); [lia|]. cbn [mData put_data mDataSize negb]. rewrite Z.ltb_irrefl.
      destruct (Z.ltb_spec (Z.of_nat (length l)) n); [lia|]. cbn. by rewrite drop_nil, app_nil_r.
Qed.

Lemma set_scalar_outcome t lo hi f z : kind_of t = KScalar lo hi -> in_range lo hi z -> data_ok f -> outcome t f (Scalar z) (Ok (set_scalar t f z)).
Proof.
  intros Ht Hz K. unfold outcome, set_scalar. destruct (decide (mType f = t)) as [E|E]; [|done]. unfold data_ok in *. rewrite E, Ht in K.
  destruct K as [K1 K2]. eexists; split; [done|]. split; [|split; [by apply (keeps_put f _ _ (mVectorSize f))|]].
  - unfold data_ok; cbn. rewrite E, Ht. split; [done|]. by exists z.
  - unfold field_value; cbn. by rewrite E, Ht.
Qed.

Lemma set_vector_outcome t w lo hi f l : kind_of t = KVector w lo hi -> 0 < w -> Forall (in_range lo hi) l -> data_ok f ->
  outcome t f (Scalars l) (set_vector t w f (Some l) (Z.of_nat (length l))).
Proof.
  intros Ht Hw Hl K. unfold outcome, set_vector. destruct (decide (mType f = t)) as [E|E]; [|done]. unfold data_ok in K. rewrite E, Ht in K.
  rewrite setDataValue_ok by (lia || apply K). eexists; split; [done|]. rewrite Nat2Z.id, firstn_all. split; [|split; [apply keeps_put|]].
  - unfold data_ok; cbn. rewrite E, Ht. destruct l as [|x l]; cbn [length].
    + split; [by left|]. cbn. done.
    + split; [right; exists (x :: l); cbn; split_and!; [done|lia|done]|]. cbn. intros b l' [= <- <-]. done.
  - unfold field_value; cbn. rewrite E, Ht. by destruct l.
Qed.

Lemma set_string_outcome f s : is_string s -> data_ok f -> outcome MAMA_FIELD_TYPE_STRING f (Str s) (mamaFieldCacheField_setString f (Some s) 0).
Proof.
  intros Hs K. unfold outcome, mamaFieldCacheField_setString. destruct (decide _) as [E|E]; [|done]. unfold data_ok in K. rewrite E in K. cbn in K.
  cbn [Z.eqb option_fmap fmap option_map]. rewrite setDataValue_ok; [|apply K|lia|rewrite length_app; cbn; lia].
  eexists; split; [done|]. destruct (Z.eqb_spec (Z.of_nat (length s) + 1) 0); [lia|].
  replace (take _ _) with (s ++ [0]) by (rewrite take_ge; [done|rewrite length_app; cbn; lia]). split; [|split; [apply keeps_put|]].
  - unfold data_ok; cbn. rewrite E; cbn. split.
    + right. exists (s ++ [0]). cbn. rewrite length_app. cbn. split_and!; [done|lia|lia].
    + intros b l [= <- <-]. by exists s.
  - unfold field_value; cbn. rewrite E; cbn. by rewrite c_string_stops.
Qed.

(** [mamaFieldCacheField_setString] with a length: the whole string, or as many
    characters and one more, which is no terminator. *)
Lemma set_string_length f s len : is_string s -> data_ok f -> mType f = MAMA_FIELD_TYPE_STRING -> 0 <= len <= Z.of_nat (length s) ->
  if decide (len = 0 \/ len = Z.of_nat (length s)) then mamaFieldCacheField_setString f (Some s) len = mamaFieldCacheField_setString f (Some s) 0
  else exists f', mamaFieldCacheField_setString f (Some s) len = Ok (MAMA_STATUS_OK, f') /\ keeps f f' /\ mVectorSize f' = len /\
         mData f' = dBlock (len + 1) (take (Z.to_nat len + 1) s).
Proof.
  intros Hs K E Hl. unfold mamaFieldCacheField_setString. destruct (decide (mType f = _)); [|done]. unfold data_ok in K. rewrite E in K. cbn in K.
  case_decide as D; [destruct D as [->| ->]; [done|]; by destruct (Z.of_nat (length s) =? 0)|].
  destruct (Z.eqb_spec len 0); [lia|]. cbn [option_fmap fmap option_map].
  rewrite setDataValue_ok; [|apply K|lia|rewrite length_app; cbn; lia]. eexists; split; [done|]. split; [apply keeps_put|]. split; [done|].
  cbn. destruct (Z.eqb_spec (len + 1) 0); [lia|]. rewrite Z.mul_1_r, take_app_le by lia. by replace (Z.to_nat (len + 1)) with (Z.to_nat len + 1)%nat by lia.
Qed.

Lemma set_object_outcome t f o : kind_of t = KObject -> data_ok f -> outcome t f (Obj o) (set_object t f (Some o)).
Proof.
  intros Ht K. unfold outcome, set_object. destruct (decide _) as [E|E]; [|done]. unfold data_ok in K. rewrite E, Ht in K.
  destruct K as [K1 K2].
  assert (let f1 := if is_null (mData f) then (mamaFieldCacheField_setDataPointer f (dObject 0)).2 else f in
    exists o0, f1 = put_data f (dObject o0) 0) as (o0 & E1).
  { destruct K2 as [K2|[o0 K2]]; unfold mamaFieldCacheField_setDataPointer; rewrite K2; cbn; [by exists 0|].
    exists o0. destruct f; cbn in *. by subst. }
  cbn zeta. rewrite E1. cbn. eexists; split; [done|]. split; [|split; [by apply (keeps_put f _ _ (mVectorSize f))|]].
  - unfold data_ok, object_ok; cbn. rewrite E, Ht. split; [done|]. right. by exists o.
  - unfold field_value; cbn. by rewrite E, Ht.
Qed.

Lemma fill_vector_ok (cs : list content) : forall v i, vector_ok v -> 0 <= i -> i + Z.of_nat (length cs) <= vSize v ->
  exists v', fill_vector v (Some <$> cs) i = Ok v' /\ vector_ok v' /\ vSize v' = vSize v /\ (is_Some (vData v) -> is_Some (vData v')) /\
    take (Z.to_nat i + length cs) (items v') = take (Z.to_nat i) (items v) ++ (Some <$> cs).
Proof.
  induction cs as [|c cs IH]; intros v i K Hi Hn.
  - exists v. cbn. rewrite app_nil_r. by rewrite Nat.add_0_r.
  - cbn [fmap list_fmap fill_vector length] in *. destruct (get_ok v i K ltac:(lia)) as (x & Hx & ->).
    destruct (set_ok v i (Some c) K ltac:(lia)) as (v1 & E1 & K1 & S1 & I1). rewrite E1.
    destruct (IH v1 (i + 1) K1 ltac:(lia) ltac:(lia)) as (v' & -> & K' & S' & N' & I'). exists v'.
    split_and!; [done..|congruence|intros N; apply N'; by eapply set_some|].
    replace (Z.to_nat i + S (length cs))%nat with (Z.to_nat (i + 1) + length cs)%nat by lia. rewrite I', I1.
    replace (Z.to_nat (i + 1)) with (S (Z.to_nat i)) by lia. apply lookup_lt_Some in Hx.
    rewrite (take_S_r _ _ (Some c)) by (by apply list_lookup_insert_eq). rewrite take_insert_ge by lia. by rewrite <- app_assoc.
Qed.

Lemma set_object_vector_outcome t f (cs : list content) (P : content -> Prop) (c : content) :
  (forall f, data_ok f <-> (if decide (mType f = t) then items_ok P f else data_ok f)) -> Forall P cs -> data_ok f ->
  (forall f' v, mType f' = t -> mData f' = dVector v -> take (Z.to_nat (mVectorSize f')) (items v) = Some <$> cs -> field_value f' = readable c) ->
  outcome t f c (set_object_vector t f (Some (Some <$> cs)) (Z.of_nat (length cs))).
Proof.
  intros HP Hcs K Hv. unfold outcome, set_object_vector. destruct (decide (mType f = t)) as [E|E]; [|done].
  apply HP in K. rewrite decide_True in K by done. destruct K as [K1 K2].
  assert (let f1 := if is_null (mData f) then put_data f (dVector mamaFieldCacheVector_create) (mDataSize f) else f in
    exists v, f1 = put_data f (dVector v) 0 /\ vector_ok v) as (v & E1 & Kv).
  { destruct K2 as [K2|(v & K2 & _ & Kv & _)]; rewrite K2; cbn; [exists mamaFieldCacheVector_create; by rewrite K1|].
    exists v. split; [|done]. destruct f; cbn in *. by subst. }
  cbn zeta. rewrite E1. cbn [mData put_data mDataSize]. rewrite length_fmap, Z.ltb_irrefl, Nat2Z.id, take_ge by (by rewrite length_fmap).
  destruct (grow_ok v (Z.of_nat (length cs)) Kv ltac:(lia)) as (G1 & G2 & G3).
  destruct (fill_vector_ok cs _ 0 G1 ltac:(lia) ltac:(rewrite G2; lia)) as (v' & -> & F1 & F2 & F4 & F3).
  change (take (length cs) (items v') = Some <$> cs) in F3.
  eexists; split; [done|]. split; [|split; [done|]].
  - apply HP. rewrite decide_True by done. split; [done|]. right. exists v'. cbn. split_and!; [done|apply F4, grow_some; [done|lia]|done|lia|rewrite F2, G2; lia|].
    rewrite Nat2Z.id, F3. apply Forall_fmap. eapply Forall_impl; [exact Hcs|]. intros c0 Hc. by exists c0.
  - apply (Hv _ v'); [done..|]. cbn. by rewrite Nat2Z.id.
Qed.

Lemma mapM_some {A B} (g : A -> option B) (h : B -> A) l : (forall x, g (h x) = Some x) -> mapM g (h <$> l) = Some l.
Proof. intros H. induction l as [|x l IH]; [done|]. cbn. rewrite H. cbn. by rewrite IH. Qed.

Lemma set_strings_outcome f l : Forall is_string l -> data_ok f ->
  outcome MAMA_FIELD_TYPE_VECTOR_STRING f (Strs l)
    (set_object_vector MAMA_FIELD_TYPE_VECTOR_STRING f (Some ((fun s => Some (Str s)) <$> l)) (Z.of_nat (length l))).
Proof.
  intros Hl K. rewrite <- (length_fmap Str). replace ((fun s => Some (Str s)) <$> l) with (Some <$> (Str <$> l)) by (by rewrite <- list_fmap_compose).
  apply (set_object_vector_outcome _ _ _ str_item); [|by apply Forall_fmap|done|].
  - intros f0. unfold data_ok. case_decide as E; [rewrite E|]; done.
  - intros f' v E D I. unfold field_value. rewrite E, D; cbn. rewrite I, <- list_fmap_compose. by rewrite mapM_some.
Qed.

Lemma set_objects_outcome t f l : kind_of t = KObjects -> data_ok f ->
  outcome t f (Objs l) (set_object_vector t f (Some ((fun o => Some (Obj o)) <$> l)) (Z.of_nat (length l))).
Proof.
  intros Ht K. rewrite <- (length_fmap Obj). replace ((fun s => Some (Obj s)) <$> l) with (Some <$> (Obj <$> l)) by (by rewrite <- list_fmap_compose).
  apply (set_object_vector_outcome _ _ _ obj_item); [|by apply Forall_fmap, Forall_true|done|].
  - intros f0. unfold data_ok. case_decide as E; [rewrite E, Ht|]; done.
  - intros f' v E D I. unfold field_value. rewrite E, D, Ht. rewrite I, <- list_fmap_compose. by rewrite mapM_some.
Qed.

(** ** Every setter *)

Lemma set_value_outcome t f c : content_ok t c -> data_ok f -> outcome t f c (set_value t f c).
Proof.
  intros Hc K. destruct t; try done; destruct c; try done; cbn [set_value]; unfold content_ok in Hc; cbn [kind_of] in Hc;
    first [ by eapply set_scalar_outcome | by eapply set_vector_outcome; [..|done|] | by apply set_string_outcome
          | by apply set_object_outcome | by apply set_strings_outcome | by apply set_objects_outcome ].
Qed.

(** Every getter of the type of the field gives its value. *)
Lemma read_block f b (l : list Z) : mVectorSize f = Z.of_nat (length l) -> mData f = dBlock b l ->
  read_elements (Some (match mData f with dBlock _ l => Some l | _ => None end, mVectorSize f)) = Some l.
Proof. intros E ->. cbn. rewrite E, Z.ltb_irrefl, Nat2Z.id. by rewrite firstn_all. Qed.

Lemma read_items P f v : items_ok P f -> mData f = dVector v ->
  read_elements (Some (match mData f with dVector v => (vData v, mVectorSize f) | _ => (None, 0) end)) =
    Some (take (Z.to_nat (mVectorSize f)) (items v)).
Proof.
  intros [_ [K2|(v' & K2 & [d Hd] & Kv & K3 & _)]] D; rewrite D in K2; [done|]. injection K2 as <-. rewrite D. pose proof (items_length v Kv) as L.
  unfold items in *. rewrite Hd in *. cbn in *. destruct (Z.ltb_spec (Z.of_nat (length d)) (mVectorSize f)); [lia|done].
Qed.

Lemma get_scalar_is t lo hi f : kind_of t = KScalar lo hi -> mType f = t -> data_ok f -> Scalar <$> (get_scalar t f).2 = field_value f.
Proof.
  intros Ht E K. unfold data_ok in K. rewrite E, Ht in K. destruct K as [_ (z & D & _)].
  unfold get_scalar, field_value. rewrite decide_True by done. by rewrite E, Ht, D.
Qed.

Lemma get_vector_is t w lo hi f : kind_of t = KVector w lo hi -> mType f = t -> data_ok f -> Scalars <$> read_elements (get_vector t f).2 = field_value f.
Proof.
  intros Ht E K. unfold data_ok in K. rewrite E, Ht in K. destruct K as [[[D _]|(l & D & _)] KV]; unfold get_vector, field_value;
    rewrite decide_True by done; rewrite E, Ht; cbn [snd].
  - by rewrite D.
  - rewrite (read_block f (mDataSize f) l) by (done || by eapply KV). by rewrite D.
Qed.

Lemma get_object_is t f : kind_of t = KObject -> mType f = t -> data_ok f ->
  match (get_object t f).2 with Some (Some o) => Some (Obj o) | _ => None end = field_value f.
Proof.
  intros Ht E K. unfold data_ok in K. rewrite E, Ht in K. destruct K as [_ [D|[o D]]];
    unfold get_object, field_value; rewrite decide_True by done; by rewrite E, Ht, D.
Qed.

Lemma get_items_is {A} (g : option content -> option A) (mk : list A -> content) t P f : items_ok P f -> mType f = t ->
  mk <$> (read_elements (get_object_vector t f).2 ≫= mapM g) =
    match mData f with dVector v => mk <$> mapM g (take (Z.to_nat (mVectorSize f)) (items v)) | _ => None end.
Proof.
  intros K E. unfold get_object_vector. rewrite decide_True by done. cbn [snd]. pose proof K as [_ [D|(v & D & _)]].
  - by rewrite D.
  - rewrite (read_items P f v K D). cbn. by rewrite D.
Qed.

Lemma get_value_is f : data_ok f -> get_value (mType f) f = field_value f.
Proof.
  intros K. destruct (mType f) eqn:E; try (by unfold data_ok in K; rewrite E in K); cbn [get_value];
    try (by eapply get_scalar_is); try (by eapply get_vector_is); try (by apply get_object_is);
    pose proof K as K'; unfold data_ok in K'; rewrite E in K'; cbn [kind_of] in K';
    try (unfold mamaFieldCacheField_getStringVector, mamaFieldCacheField_getPriceVector, mamaFieldCacheField_getDateTimeVector;
         erewrite get_items_is by done; unfold field_value; rewrite E; done).
  - unfold mamaFieldCacheField_getString, get_vector, field_value. rewrite decide_True by done. rewrite E. cbn. by destruct (mData f).
  - unfold field_value. by rewrite E.
Qed.

(** ** Copying *)

(** What the copy of [f] onto [g] holds: NULL takes the value of [g] away only when
    it is a string. *)
Definition copied (f g : mamaFieldCacheFieldImpl) : option content :=
  match field_value f with
  | Some v => Some v
  | None => if decide (mType f = MAMA_FIELD_TYPE_STRING) then None else field_value g
  end.

Definition copy_outcome (f g : mamaFieldCacheFieldImpl) (r : res (mama_status * mamaFieldCacheFieldImpl)) : Prop :=
  exists st g', r = Ok (st, g') /\ data_ok g' /\ keeps g g' /\ field_value g' = copied f g.

(** The value is set again on [g]. *)
Lemma copy_set t f g c r : mType g = t -> field_value f = Some c -> readable c = Some c -> outcome t g c r -> copy_outcome f g r.
Proof.
  intros E V R O. unfold outcome in O. rewrite decide_True in O by done. destruct O as (g' & -> & O1 & O2 & O3).
  exists MAMA_STATUS_OK, g'. split_and!; [done..|]. unfold copied. by rewrite V, O3.
Qed.

Lemma copy_unchanged f g st : mType f <> MAMA_FIELD_TYPE_STRING -> data_ok g -> field_value f = None -> copy_outcome f g (Ok (st, g)).
Proof. intros Hs K V. exists st, g. split_and!; [done..|]. unfold copied. by rewrite V, decide_False. Qed.

Section CopyData.
Context (garbage : Z) (f g : mamaFieldCacheFieldImpl) (Kf : data_ok f) (Kg : data_ok g).

Lemma copy_scalar t lo hi : kind_of t = KScalar lo hi -> mType f = t -> mType g = t ->
  copy_outcome f g (Ok (set_scalar t g (written garbage (get_scalar t f)))).
Proof using Kf Kg.
  intros Ht Ef Eg. pose proof (get_scalar_is t lo hi f Ht Ef Kf) as V. unfold data_ok in Kf. rewrite Ef, Ht in Kf. destruct Kf as [_ (z & D & Hz)].
  unfold get_scalar in *. rewrite decide_True in * by done. rewrite D in *. cbn in V. unfold written. cbn.
  eapply copy_set; [done|by symmetry| |by eapply set_scalar_outcome]. done.
Qed.

Lemma copy_vector t w lo hi : kind_of t = KVector w lo hi -> 0 < w -> mType f = t -> mType g = t ->
  copy_outcome f g (let r := default (None, garbage) (get_vector t f).2 in set_vector t w g r.1 r.2).
Proof using Kf Kg.
  intros Ht Hw Ef Eg. assert (mType f <> MAMA_FIELD_TYPE_STRING) as Hs by (intros E'; rewrite Ef in E'; by rewrite E' in Ht).
  unfold data_ok in Kf. rewrite Ef, Ht in Kf. destruct Kf as [KB KV]. unfold get_vector. rewrite decide_True by done. cbn [default snd fst].
  destruct KB as [[D _]|(l & D & Hp & L)].
  - rewrite D. cbn. apply copy_unchanged; [done..|]. unfold field_value. by rewrite Ef, Ht, D.
  - destruct (KV _ _ D) as [KV1 KV2]. rewrite D. cbn. rewrite KV2. eapply (copy_set _ _ _ (Scalars l)); [done| | |by eapply set_vector_outcome].
    + unfold field_value. by rewrite Ef, Ht, D.
    + destruct l; [cbn in *; lia|done].
Qed.

Lemma copy_object t : kind_of t = KObject -> mType f = t -> mType g = t ->
  copy_outcome f g (set_object t g (default None (get_object t f).2)).
Proof using Kf Kg.
  intros Ht Ef Eg. assert (mType f <> MAMA_FIELD_TYPE_STRING) as Hs by (intros E'; rewrite Ef in E'; by rewrite E' in Ht).
  unfold data_ok in Kf. rewrite Ef, Ht in Kf. unfold get_object. rewrite decide_True by done. destruct Kf as [_ [D|[o D]]]; rewrite D; cbn.
  - apply copy_unchanged; [done..|]. unfold field_value. by rewrite Ef, Ht, D.
  - eapply (copy_set _ _ _ (Obj o)); [done| |done|by apply set_object_outcome]. unfold field_value. by rewrite Ef, Ht, D.
Qed.

Lemma copy_string : mType f = MAMA_FIELD_TYPE_STRING -> mType g = MAMA_FIELD_TYPE_STRING ->
  copy_outcome f g (let r := default (None, 0) (mamaFieldCacheField_getString f).2 in mamaFieldCacheField_setString g (c_string <$> r.1) r.2).
Proof using Kf Kg.
  intros Ef Eg. unfold data_ok in Kf. rewrite Ef in Kf. destruct Kf as [KB KS].
  unfold mamaFieldCacheField_getString, get_vector. rewrite decide_True by done. destruct KB as [[D _]|(l & D & Hp & L)]; rewrite D; cbn.
  - unfold mamaFieldCacheField_setString. rewrite decide_True by done. cbn. unfold data_ok in Kg. rewrite Eg in Kg. destruct Kg as [KB' _].
    unfold mamaFieldCacheField_setDataValue. cbn. unfold copy_outcome, copied. rewrite (decide_True _ _ Ef). unfold field_value at 2. rewrite Ef, D. cbn.
    destruct KB' as [[D' S']|(l' & D' & Hp' & _)]; rewrite D'; cbn.
    + eexists _, _. split_and!; [done| |done|]; unfold data_ok, field_value, block_ok; cbn; rewrite Eg, D'; cbn; [|done].
      split; [by left|]. done.
    + destruct (Z.eqb_spec (mDataSize g) (0 * 1)); [lia|]. cbn. eexists _, _. split_and!; [done| |done|]; unfold data_ok, field_value, block_ok; cbn; rewrite Eg; cbn; [|done].
      split; [by left|]. done.
  - destruct (KS _ _ D) as (s & -> & Hs & Hv). rewrite c_string_stops by done.
    assert (mamaFieldCacheField_setString g (Some s) (mVectorSize f) = mamaFieldCacheField_setString g (Some s) 0) as ->.
    { unfold mamaFieldCacheField_setString. rewrite Hv. destruct (Z.eqb_spec (Z.of_nat (length s)) 0) as [->|]; [done|]. done. }
    eapply (copy_set _ _ _ (Str s)); [done| |done|by apply set_string_outcome]. unfold field_value. rewrite Ef, D. cbn. by rewrite c_string_stops.
Qed.

(** Only the first [n] elements are read. *)
Lemma set_object_vector_take t (d : list (option content)) n : 0 <= n <= Z.of_nat (length d) ->
  set_object_vector t g (Some d) n = set_object_vector t g (Some (take (Z.to_nat n) d)) n.
Proof using Type.
  intros Hn. unfold set_object_vector. rewrite length_take. case_decide; [|done]. case_match; try done.
  destruct (Z.ltb_spec (Z.of_nat (length d)) n); [lia|]. destruct (Z.ltb_spec (Z.of_nat (Nat.min (Z.to_nat n) (length d))) n); [lia|].
  by rewrite take_take, Nat.min_id.
Qed.

Lemma copy_items {A} (mk : A -> content) (mks : list A -> content) (un : option content -> option A) t P :
  mType f = t -> mType g = t -> t <> MAMA_FIELD_TYPE_STRING -> items_ok P f -> items_ok P g ->
  (forall x, un (Some (mk x)) = Some x) -> (forall c, P c -> exists x, c = mk x) ->
  (forall h, mType h = t -> field_value h = match mData h with
     dVector v => mks <$> mapM un (take (Z.to_nat (mVectorSize h)) (items v)) | _ => None end) ->
  (forall l, Forall P (mk <$> l) -> readable (mks l) = Some (mks l) /\
     outcome t g (mks l) (set_object_vector t g (Some ((fun x => Some (mk x)) <$> l)) (Z.of_nat (length l)))) ->
  copy_outcome f g (let r := default (None, garbage) (get_object_vector t f).2 in set_object_vector t g r.1 r.2).
Proof using Kg.
  intros Ef Eg Hs Hf _ Hun HP HV HO. unfold get_object_vector. rewrite decide_True by done. cbn [default snd].
  destruct Hf as [_ [D|(v & D & [d Hd] & Kv & Hn & HF)]]; rewrite D; cbn [fst snd from_option]; unfold Datatypes.id; cbn [fst snd].
  - unfold set_object_vector. apply copy_unchanged; [by rewrite Ef|done|]. rewrite HV by done. by rewrite D.
  - rewrite Hd. pose proof (items_length v Kv) as L. unfold items in L, HF. rewrite Hd in L, HF. cbn in L, HF.
    rewrite set_object_vector_take by lia. set (n := mVectorSize f) in *.
    assert (exists l, take (Z.to_nat n) d = (fun x => Some (mk x)) <$> l /\ Forall P (mk <$> l)) as (l & El & Hl).
    { clear - HF HP. induction HF as [|x d' (c & -> & Hc) _ (l & -> & Hl)]; [by exists []|]. destruct (HP c Hc) as [x ->]. exists (x :: l). cbn. auto. }
    rewrite El. replace n with (Z.of_nat (length l)).
    2:{ rewrite <- (length_fmap (fun x => Some (mk x))), <- El, length_take. lia. }
    destruct (HO l Hl) as [HR HO']. eapply (copy_set _ _ _ (mks l)); [done| |done|done].
    rewrite HV by done. rewrite D. unfold items. rewrite Hd. cbn [default from_option]. fold n. unfold Datatypes.id. rewrite El.
    by rewrite mapM_some by apply Hun.
Qed.

Lemma copy_data_ok : mType f = mType g -> copy_outcome f g (copy_data garbage f g).
Proof using Kf Kg.
  intros E. unfold copy_data. destruct (mType f) eqn:Ef; try (by unfold data_ok in Kf; rewrite Ef in Kf);
    try (by eapply copy_scalar); try (by eapply copy_vector); try (by apply copy_object); try (by apply copy_string);
    pose proof Kf as Kf'; pose proof Kg as Kg'; unfold data_ok in Kf', Kg'; rewrite Ef in Kf'; rewrite <- E in Kg'; cbn [kind_of] in Kf', Kg'.
  - eapply (copy_items Str Strs as_str _ str_item); try done.
    + intros [] ?; try done. by eexists.
    + intros h Eh. unfold field_value. by rewrite Eh.
    + intros l Hl. split; [done|]. apply set_strings_outcome; [|done]. exact (proj1 (Forall_fmap Str str_item l) Hl).
  - eapply (copy_items Obj Objs as_obj _ obj_item); try done.
    + intros [] ?; try done. by eexists.
    + intros h Eh. unfold field_value. by rewrite Eh.
    + intros l Hl. split; [done|]. by apply set_objects_outcome.
  - eapply (copy_items Obj Objs as_obj _ obj_item); try done.
    + intros [] ?; try done. by eexists.
    + intros h Eh. unfold field_value. by rewrite Eh.
    + intros l Hl. split; [done|]. by apply set_objects_outcome.
  - destruct Kf' as [D S]. unfold mamaFieldCacheField_setF64, set_scalar. rewrite <- E. cbn. apply copy_unchanged; [by rewrite Ef|done|].
    unfold field_value. by rewrite Ef.
Qed.

End CopyData.

(** ** Claims *)

Lemma created_ok mem fid t name st f : mamaFieldCacheField_create mem fid t name = (st, Some f) -> data_ok f /\ mType f = t /\ mFid f = fid.
Proof.
  unfold mamaFieldCacheField_create. destruct (mamaFieldCacheField_isSupported t) eqn:Hs; [|done]. destruct mem; [|done]. cbn. intros [= <- <-].
  split; [|done]. unfold data_ok; cbn. destruct t; try done; cbn; unfold block_ok, object_ok, items_ok, in_range; cbn;
    try (split; [by left|done]); try (split; [done|by left]); try (split; [done|]; exists 0; split; [done|lia]).
Qed.

(** C30: fields are well typed.  A new field holds a value of its type.  Whatever
    setter is called on a field that holds a value of its type (the setter of
    another type, and for every type but QUANTITY the setter of its own), with a
    value of the C type of the setter (a string with its length or 0, an array with
    its length), it does not write outside the memory of the field and leaves a
    field that holds a value of its type: the setter of another type answers with
    an error and changes nothing; after the setter of its type the getter gives the
    value back (an empty array of numbers is stored as no value).  The one
    exception is a string that is set with a smaller length: then the characters up
    to that length and the one after them are stored, without a terminator
    ([short_string_unterminated]).  Copying a field onto one with the same
    identifier and type leaves a field of its type with the value of the source, if
    it has one. *)
Theorem fields_stay_typed mem fid t0 name st f0 :
  mamaFieldCacheField_create mem fid t0 name = (st, Some f0) ->
  data_ok f0 /\ mType f0 = t0 /\
  (forall f t c, data_ok f -> content_ok t c ->
     if decide (mType f = t) then
       exists f', set_value t f c = Ok (MAMA_STATUS_OK, f') /\ data_ok f' /\ keeps f f' /\ get_value t f' = readable c
     else set_value t f c = Ok (MAMA_STATUS_INVALID_ARG, f)) /\
  (forall f s len, data_ok f -> mType f = MAMA_FIELD_TYPE_STRING -> is_string s -> 0 <= len <= Z.of_nat (length s) ->
     exists f', mamaFieldCacheField_setString f (Some s) len = Ok (MAMA_STATUS_OK, f') /\ keeps f f' /\
       if decide (len = 0 \/ len = Z.of_nat (length s))
       then data_ok f' /\ get_value MAMA_FIELD_TYPE_STRING f' = Some (Str s)
       else mData f' = dBlock (len + 1) (take (Z.to_nat len + 1) s)) /\
  (forall f g garbage, data_ok f -> data_ok g -> mType f = mType g -> mFid f = mFid g ->
     exists g', mamaFieldCacheField_copy garbage false f g = Ok (MAMA_STATUS_OK, g') /\ data_ok g' /\
       mType g' = mType g /\ mFid g' = mFid g /\ mPublish g' = mPublish f /\ mIsModified g' = mIsModified f /\
       (forall c, get_value (mType f) f = Some c -> get_value (mType g) g' = Some c)).
Proof.
  intros Hc. destruct (created_ok _ _ _ _ _ _ Hc) as (K0 & T0 & _). split_and!; [done|done| | |].
  - intros f t c K Ht. pose proof (set_value_outcome t f c Ht K) as O. unfold outcome in O. destruct (decide (mType f = t)) as [E|E]; [|done].
    destruct O as (f' & R & O1 & O2 & O3). exists f'. split_and!; [done..|]. pose proof (get_value_is f' O1) as G. destruct O2 as (O2 & _).
    rewrite O2, E in G. by rewrite G.
  - intros f s len K E Hs Hl. pose proof (set_string_length f s len Hs K E Hl) as L. case_decide.
    + rewrite L. pose proof (set_string_outcome f s Hs K) as O. unfold outcome in O. rewrite decide_True in O by done.
      destruct O as (f' & R & O1 & O2 & O3). exists f'. split_and!; [done..|]. pose proof (get_value_is f' O1) as G. destruct O2 as (O2 & _).
      rewrite O2, E in G. by rewrite G.
    + destruct L as (f' & L1 & L2 & _ & L4). by exists f'.
  - intros f g garbage Kf Kg Et Ei. unfold mamaFieldCacheField_copy. rewrite !bool_decide_false by (by intros []). cbn [orb].
    set (g2 := match mName f with Some n => _ | None => _ end).
    assert (data_ok g2 /\ mType g2 = mType g /\ mFid g2 = mFid g /\ mPublish g2 = mPublish f /\ mIsModified g2 = mIsModified f) as (K2 & T2 & F2 & P2 & M2)
      by (unfold g2; by destruct (mName f)).
    destruct (copy_data_ok garbage f g2 Kf K2 ltac:(congruence)) as (st' & g' & -> & O1 & (O2 & O3 & O4 & _ & _ & _ & O5) & OV).
    exists g'. split_and!; [done..|congruence|congruence|congruence|congruence|]. intros c Hv. rewrite get_value_is in Hv by done.
    rewrite <- T2, <- O2. rewrite get_value_is by done. rewrite OV. unfold copied. by rewrite Hv.
Qed.

Definition demo_field : mamaFieldCacheFieldImpl := mkField MAMA_FIELD_TYPE_VECTOR_I16 7 true true (dWord 0) 0 0 0 None false.

(** The copy of the first two characters of a string ends with the third. *)
Example short_string_unterminated :
  match mamaFieldCacheField_create true 1 MAMA_FIELD_TYPE_STRING None with
  | (_, Some f) => match mamaFieldCacheField_setString f (Some [65; 66; 67; 68]) 2 with
                   | Ok (st, f') => Some (st, mData f')
                   | Fail _ => None
                   end
  | _ => None
  end = Some (MAMA_STATUS_OK, dBlock 3 [65; 66; 67]).
Proof. vm_compute. reflexivity. Qed.

Lemma fields_stay_typed_witness :
  set_value MAMA_FIELD_TYPE_STRING demo_field (Str [65]) = Ok (MAMA_STATUS_INVALID_ARG, demo_field) /\
  (exists f', set_value MAMA_FIELD_TYPE_VECTOR_I16 demo_field (Scalars [1; -2]) = Ok (MAMA_STATUS_OK, f') /\ mDataSize f' = 4 /\
     get_value MAMA_FIELD_TYPE_VECTOR_I16 f' = Some (Scalars [1; -2])) /\ data_ok demo_field.
Proof.
  destruct (fields_stay_typed true 7 MAMA_FIELD_TYPE_VECTOR_I16 None _ _ eq_refl) as (K & _ & H & _). split_and!; [|eexists; split_and!; vm_compute; reflexivity|exact K].
  specialize (H demo_field MAMA_FIELD_TYPE_STRING (Str [65]) K). cbn in H. apply H. repeat constructor; lia.
Defined.

End FieldCacheFieldProps.
