(* ===== verification/FieldCache.v ===== *)
(** * The field cache (mama/c_cpp/src/c/fieldcache/)

    A cache keeps the last value of every field of the messages applied to it, in
    an array of fields (fieldcachemaparray.c).  The index of a field is a number
    given to its identifier when it is first seen by any cache of the process.  The
    cache also keeps a list of the fields that changed, from which a message with
    the changes is made (fieldcache.c, fieldcacheimpl.c).

    Messages are behind an interface, [Payload]: the payload library reads and
    writes them.  The fields are in a heap; the lock of the cache is not modelled. *)

From S2P Require Import Prelude MamaStatus FieldCacheVector FieldCacheField.

Module FieldCache.
Import FieldCacheVector FieldCacheField.

(** ** Messages *)

(** A field of a message that is read: its identifier and type (or the errors the
    accessors give), its name and descriptor, and the value that the accessor of
    each type gives, converted by the payload library; [None]: the accessor fails. *)
Record mamaMsgField : Type := mkMsgField {
  mf_fid : mama_status * Z;
  mf_type : mama_status * mamaFieldType;
  mf_name : option string;
  mf_descriptor : Z;
  mf_get : mamaFieldType -> option content;
}.

(** [mamaMsg_add] and [mamaMsg_update] stand for the functions of this name for
    every type; [mamaMsg_iterate] gives the fields the message iterator visits. *)
Class Payload (msg : Type) : Type := {
  mamaMsg_getNumFields : msg -> Z;
  mamaMsg_add : msg -> option string -> Z -> mamaFieldType -> content -> mama_status * msg;
  mamaMsg_update : msg -> option string -> Z -> mamaFieldType -> content -> mama_status * msg;
  mamaMsg_iterate : msg -> list mamaMsgField;
  mamaMsg_applyMsg : msg -> msg -> mama_status * msg;
  mamaMsg_clear : msg -> msg;
}.

(** ** State *)

Record mamaFieldCacheMapArrayImpl : Type := mkMapArray { mFieldArray : list Z; maSize : Z }.

Record mamaFieldCacheImpl (msg : Type) : Type := mkCache {
  mMap : option mamaFieldCacheMapArrayImpl;
  mSize : Z;
  mAlwaysPublishFields : mamaFieldCacheListImpl Z;
  mModifiedFields : mamaFieldCacheListImpl Z;
  mReusableDateTime : Z;
  mReusablePrice : Z;
  mTrackModified : bool;
  mUseLock : bool;
  mUseFieldNames : bool;
  mCachePayload : bool;
  mCacheMsg : option msg;
}.
Arguments mkCache {msg}. Arguments mMap {msg}. Arguments mSize {msg}. Arguments mAlwaysPublishFields {msg}.
Arguments mModifiedFields {msg}. Arguments mReusableDateTime {msg}. Arguments mReusablePrice {msg}. Arguments mTrackModified {msg}.
Arguments mUseLock {msg}. Arguments mUseFieldNames {msg}. Arguments mCachePayload {msg}. Arguments mCacheMsg {msg}.

(** [mFields], [mCounter]: the static table of mamaFieldCacheMapArray_convertFid,
    shared by all caches; [fields], [fbrk]: the fields in memory; [allocs]: whether
    the next tested allocations succeed (they all do when none is left). *)
Record world (msg : Type) : Type := mkWorld {
  mFields : gmap Z Z;
  mCounter : Z;
  fields : gmap Z mamaFieldCacheFieldImpl;
  fbrk : Z;
  cache : mamaFieldCacheImpl msg;
  allocs : list bool;
}.
Arguments mkWorld {msg}. Arguments mFields {msg}. Arguments mCounter {msg}. Arguments fields {msg}. Arguments fbrk {msg}.
Arguments cache {msg}. Arguments allocs {msg}.

Section FieldCache.
Context {msg : Type} `{Payload msg}.
Context (garbage : Z) (descriptor_name : Z -> option string).

Notation cacheImpl := (mamaFieldCacheImpl msg).
Notation FM := (M (world msg)).

Section Setters.
Context (c : cacheImpl).
Definition put_map (m : option mamaFieldCacheMapArrayImpl) (n : Z) : cacheImpl :=
  mkCache m n (mAlwaysPublishFields c) (mModifiedFields c) (mReusableDateTime c) (mReusablePrice c) (mTrackModified c) (mUseLock c)
    (mUseFieldNames c) (mCachePayload c) (mCacheMsg c).
Definition put_lists (a m : mamaFieldCacheListImpl Z) : cacheImpl :=
  mkCache (mMap c) (mSize c) a m (mReusableDateTime c) (mReusablePrice c) (mTrackModified c) (mUseLock c)
    (mUseFieldNames c) (mCachePayload c) (mCacheMsg c).
Definition put_reusable (d p : Z) : cacheImpl :=
  mkCache (mMap c) (mSize c) (mAlwaysPublishFields c) (mModifiedFields c) d p (mTrackModified c) (mUseLock c)
    (mUseFieldNames c) (mCachePayload c) (mCacheMsg c).
Definition put_options (track lock names : bool) : cacheImpl :=
  mkCache (mMap c) (mSize c) (mAlwaysPublishFields c) (mModifiedFields c) (mReusableDateTime c) (mReusablePrice c) track lock
    names (mCachePayload c) (mCacheMsg c).
Definition put_msg (m : option msg) : cacheImpl :=
  mkCache (mMap c) (mSize c) (mAlwaysPublishFields c) (mModifiedFields c) (mReusableDateTime c) (mReusablePrice c) (mTrackModified c) (mUseLock c)
    (mUseFieldNames c) (mCachePayload c) m.
End Setters.

Definition put_statics (m : gmap Z Z) (n : Z) (w : world msg) : world msg := mkWorld m n (fields w) (fbrk w) (cache w) (allocs w).
Definition put_fields (m : gmap Z mamaFieldCacheFieldImpl) (b : Z) (w : world msg) : world msg :=
  mkWorld (mFields w) (mCounter w) m b (cache w) (allocs w).
Definition put_cache (c : cacheImpl) (w : world msg) : world msg := mkWorld (mFields w) (mCounter w) (fields w) (fbrk w) c (allocs w).
Definition put_allocs (l : list bool) (w : world msg) : world msg := mkWorld (mFields w) (mCounter w) (fields w) (fbrk w) (cache w) l.

Definition lift {A} (r : res A) : FM A := fun w => match r with Ok a => Ok (a, w) | Fail f => Fail f end.

(** Whether the next allocation succeeds. *)
Definition alloc : FM bool := fun w =>
  match allocs w with [] => Ok (true, w) | b :: l => Ok (b, put_allocs l w) end.

Definition get_field (a : Z) : FM mamaFieldCacheFieldImpl := fun w =>
  match fields w !! a with Some f => Ok (f, w) | None => Fail InvalidDeref end.
Definition put_field (a : Z) (f : mamaFieldCacheFieldImpl) : FM unit := modify (fun w => put_fields (<[a := f]> (fields w)) (fbrk w) w).

(** An operation on the field at [a]. *)
Definition on_field (a : Z) (op : mamaFieldCacheFieldImpl -> res (mama_status * mamaFieldCacheFieldImpl)) : FM mama_status :=
  f ← get_field a;
  r ← lift (op f);
  put_field a r.2 ;;
  mret r.1.

(** [mamaFieldCacheField_create], which leaves the pointer as it is (NULL) on
    errors. *)
Definition new_field (fid : Z) (type : mamaFieldType) (name : option string) : FM (mama_status * Z) :=
  mem ← (if mamaFieldCacheField_isSupported type then alloc else mret true);
  match mamaFieldCacheField_create mem fid type name with
  | (status, Some f) =>
      a ← gets fbrk;
      modify (fun w => put_fields (<[a := f]> (fields w)) (a + 1) w) ;;
      mret (status, a)
  | (status, None) => mret (status, 0)
  end.

(** [mamaFieldCacheField_destroy]: the field is freed. *)
Definition free_field (a : Z) : FM mama_status :=
  if a =? 0 then mret MAMA_STATUS_NULL_ARG
  else
    f ← get_field a;
    status ← lift (mamaFieldCacheField_destroy f);
    modify (fun w => put_fields (delete a (fields w)) (fbrk w) w) ;;
    mret status.

(** ** The array of fields *)

Definition MAP_ARRAY_CHUNK_SIZE : Z := 64.

(** The length of the static table. *)
Definition FIDS : Z := 65535.

Definition mamaFieldCacheMapArray_convertFid (fid : Z) : FM Z :=
  if (fid <? 0) || (FIDS <=? fid) then fail InvalidDeref
  else
    table ← gets mFields;
    let ret := default 0 (table !! fid) in
    if negb (ret =? 0) then mret (u16 (ret - 1))
    else
      counter ← gets mCounter;
      let counter := u16 (counter + 1) in
      modify (put_statics (<[fid := counter]> table) counter) ;;
      mret (u16 (counter - 1)).

Definition mamaFieldCacheMapArray_create : FM (mama_status * option mamaFieldCacheMapArrayImpl) :=
  mem ← alloc;
  if mem : bool then
    mret (MAMA_STATUS_OK, Some (mkMapArray (replicate (Z.to_nat MAP_ARRAY_CHUNK_SIZE) 0) MAP_ARRAY_CHUNK_SIZE))
  else mret (MAMA_STATUS_NOMEM, None).

(** [assert(map)]. *)
Definition the_map : FM mamaFieldCacheMapArrayImpl :=
  m ← gets (fun w => mMap (cache w));
  match m with Some m => mret m | None => fail Aborted end.

Definition put_map_array (m : mamaFieldCacheMapArrayImpl) : FM unit :=
  modify (fun w => put_cache (put_map (cache w) (Some m) (mSize (cache w))) w).

(** The [do]-[while] loop that computes the new size, a 16-bit number. *)
Fixpoint grow_loop (fuel : nat) (newSize cacheFid : Z) : option Z :=
  match fuel with
  | O => None
  | S fuel' =>
      let newSize := u16 (newSize + MAP_ARRAY_CHUNK_SIZE) in
      if newSize <=? cacheFid then grow_loop fuel' newSize cacheFid else Some newSize
  end.

(** The sizes are the 1024 multiples of 64 below 2^16, unless the loop repeats them. *)
Definition GROW_FUEL : nat := 1025.

(** [realloc] to [newSize], with NULL in the new entries. *)
Definition resize (arrayMap : mamaFieldCacheMapArrayImpl) (newSize : Z) : mamaFieldCacheMapArrayImpl :=
  mkMapArray (take (Z.to_nat newSize) (mFieldArray arrayMap) ++ replicate (Z.to_nat (newSize - maSize arrayMap)) 0) newSize.

Definition mamaFieldCacheMapArray_add (field : Z) : FM mama_status :=
  arrayMap ← the_map;
  f ← get_field field;
  cacheFid ← mamaFieldCacheMapArray_convertFid (mFid f);
  if (cacheFid <? maSize arrayMap) && negb (default 0 (mFieldArray arrayMap !! Z.to_nat cacheFid) =? 0) then mret MAMA_STATUS_INVALID_ARG
  else
    grown ← (if maSize arrayMap <=? cacheFid then
               match grow_loop GROW_FUEL (maSize arrayMap) cacheFid with
               | None => fail OutOfFuel
               | Some newSize => mem ← alloc; mret (if mem : bool then Some (resize arrayMap newSize) else None)
               end
             else mret (Some arrayMap));
    match grown with
    | None => mret MAMA_STATUS_NOMEM
    | Some m =>
        if Z.of_nat (length (mFieldArray m)) <=? cacheFid then fail InvalidDeref
        else
          put_map_array (mkMapArray (<[Z.to_nat cacheFid := field]> (mFieldArray m)) (maSize m)) ;;
          mret MAMA_STATUS_OK
    end.

(** The pointer that is written, [None] when none is. *)
Definition mamaFieldCacheMapArray_find (fid : Z) : FM (mama_status * option Z) :=
  arrayMap ← the_map;
  cacheFid ← mamaFieldCacheMapArray_convertFid fid;
  if maSize arrayMap <=? cacheFid then mret (MAMA_STATUS_NOT_FOUND, None)
  else
    match mFieldArray arrayMap !! Z.to_nat cacheFid with
    | None => fail InvalidDeref
    | Some field => mret (if field =? 0 then MAMA_STATUS_NOT_FOUND else MAMA_STATUS_OK, Some field)
    end.

Fixpoint free_all (l : list Z) : FM unit :=
  match l with
  | [] => mret tt
  | a :: l' => (if a =? 0 then mret tt else free_field a ;; mret tt) ;; free_all l'
  end.

Definition mamaFieldCacheMapArray_clear : FM mama_status :=
  arrayMap ← the_map;
  free_all (take (Z.to_nat (maSize arrayMap)) (mFieldArray arrayMap)) ;;
  put_map_array (mkMapArray ((fun _ => 0) <$> mFieldArray arrayMap) (maSize arrayMap)) ;;
  mret MAMA_STATUS_OK.

Definition mamaFieldCacheMapArray_destroy : FM mama_status :=
  arrayMap ← the_map;
  free_all (take (Z.to_nat (maSize arrayMap)) (mFieldArray arrayMap)) ;;
  modify (fun w => put_cache (put_map (cache w) None (mSize (cache w))) w) ;;
  mret MAMA_STATUS_OK.

(** ** The iterator: the index of the field it gave last, -1 at the start. *)

(** The first field from the index [i] on, with its index. *)
Fixpoint next_from (l : list Z) (i : Z) : option (Z * Z) :=
  match l with
  | [] => None
  | a :: l' => if a =? 0 then next_from l' (i + 1) else Some (a, i)
  end.

Definition entries_from (m : mamaFieldCacheMapArrayImpl) (i : Z) : list Z := drop (Z.to_nat i) (take (Z.to_nat (maSize m)) (mFieldArray m)).

(** The field and the new index; NULL leaves the index as it is. *)
Definition mamaFieldCacheMapIteratorArray_next (m : mamaFieldCacheMapArrayImpl) (mCurrentIndex : Z) : Z * Z :=
  match next_from (entries_from m (mCurrentIndex + 1)) (mCurrentIndex + 1) with
  | Some (a, i) => (a, i)
  | None => (0, mCurrentIndex)
  end.

Definition mamaFieldCacheMapIteratorArray_hasNext (m : mamaFieldCacheMapArrayImpl) (mCurrentIndex : Z) : bool :=
  match next_from (entries_from m (mCurrentIndex + 1)) (mCurrentIndex + 1) with Some _ => true | None => false end.

(** The index stays as it is. *)
Definition mamaFieldCacheMapIteratorArray_begin (m : mamaFieldCacheMapArrayImpl) (mCurrentIndex : Z) : Z * Z :=
  match next_from (entries_from m 0) 0 with Some (a, _) => (a, mCurrentIndex) | None => (0, mCurrentIndex) end.

(** ** Lists of the cache *)

Definition add_modified (field : Z) : FM unit :=
  c ← gets cache;
  r ← lift (mamaFieldCacheList_add (mModifiedFields c) (Some field));
  modify (fun w => put_cache (put_lists (cache w) (mAlwaysPublishFields (cache w)) r.2) w).

Definition add_always (field : Z) : FM unit :=
  c ← gets cache;
  r ← lift (mamaFieldCacheList_add (mAlwaysPublishFields c) (Some field));
  modify (fun w => put_cache (put_lists (cache w) r.2 (mModifiedFields (cache w))) w).

Definition count_field : FM unit := modify (fun w => put_cache (put_map (cache w) (mMap (cache w)) (mSize (cache w) + 1)) w).

(** ** Applying a field of a message *)

(** The accessors of the field of the message; what is not written is what the
    stack holds (numbers), NULL (strings, arrays) or the value of the field that was
    read before (prices and dates, which go through an object of the cache). *)
Definition msg_scalar (mf : mamaMsgField) (t : mamaFieldType) : Z := match mf_get mf t with Some (Scalar z) => z | _ => garbage end.
Definition msg_string (mf : mamaMsgField) : option (list Z) := match mf_get mf MAMA_FIELD_TYPE_STRING with Some (Str s) => Some s | _ => None end.
Definition msg_object (mf : mamaMsgField) (t : mamaFieldType) (old : Z) : Z := match mf_get mf t with Some (Obj o) => o | _ => old end.
Definition msg_vector (mf : mamaMsgField) (t : mamaFieldType) : option (list Z) * Z :=
  match mf_get mf t with Some (Scalars l) => (Some l, Z.of_nat (length l)) | _ => (None, 0) end.
Definition msg_strings (mf : mamaMsgField) : option (list (option content)) * Z :=
  match mf_get mf MAMA_FIELD_TYPE_VECTOR_STRING with Some (Strs l) => (Some ((fun s => Some (Str s)) <$> l), Z.of_nat (length l)) | _ => (None, 0) end.

(** The [switch] over the type of the cached field. *)
Definition store_value (type : mamaFieldType) (mf : mamaMsgField) (field : Z) : FM mama_status :=
  match type with
  | MAMA_FIELD_TYPE_BOOL => on_field field (fun f => Ok (mamaFieldCacheField_setBool f (msg_scalar mf MAMA_FIELD_TYPE_BOOL)))
  | MAMA_FIELD_TYPE_CHAR => on_field field (fun f => Ok (mamaFieldCacheField_setChar f (msg_scalar mf MAMA_FIELD_TYPE_CHAR)))
  | MAMA_FIELD_TYPE_I8 => on_field field (fun f => Ok (mamaFieldCacheField_setI8 f (msg_scalar mf MAMA_FIELD_TYPE_I8)))
  | MAMA_FIELD_TYPE_U8 => on_field field (fun f => Ok (mamaFieldCacheField_setU8 f (msg_scalar mf MAMA_FIELD_TYPE_U8)))
  | MAMA_FIELD_TYPE_I16 => on_field field (fun f => Ok (mamaFieldCacheField_setI16 f (msg_scalar mf MAMA_FIELD_TYPE_I16)))
  | MAMA_FIELD_TYPE_U16 => on_field field (fun f => Ok (mamaFieldCacheField_setU16 f (msg_scalar mf MAMA_FIELD_TYPE_U16)))
  | MAMA_FIELD_TYPE_I32 => on_field field (fun f => Ok (mamaFieldCacheField_setI32 f (msg_scalar mf MAMA_FIELD_TYPE_I32)))
  | MAMA_FIELD_TYPE_U32 => on_field field (fun f => Ok (mamaFieldCacheField_setU32 f (msg_scalar mf MAMA_FIELD_TYPE_U32)))
  | MAMA_FIELD_TYPE_I64 => on_field field (fun f => Ok (mamaFieldCacheField_setI64 f (msg_scalar mf MAMA_FIELD_TYPE_I64)))
  | MAMA_FIELD_TYPE_U64 => on_field field (fun f => Ok (mamaFieldCacheField_setU64 f (msg_scalar mf MAMA_FIELD_TYPE_U64)))
  | MAMA_FIELD_TYPE_F32 => on_field field (fun f => Ok (mamaFieldCacheField_setF32 f (msg_scalar mf MAMA_FIELD_TYPE_F32)))
  | MAMA_FIELD_TYPE_QUANTITY | MAMA_FIELD_TYPE_F64 => on_field field (fun f => Ok (mamaFieldCacheField_setF64 f (msg_scalar mf MAMA_FIELD_TYPE_F64)))
  | MAMA_FIELD_TYPE_STRING => on_field field (fun f => mamaFieldCacheField_setString f (msg_string mf) 0)
  | MAMA_FIELD_TYPE_PRICE =>
      modify (fun w => put_cache (put_reusable (cache w) (mReusableDateTime (cache w)) (msg_object mf MAMA_FIELD_TYPE_PRICE (mReusablePrice (cache w)))) w) ;;
      c ← gets cache;
      on_field field (fun f => mamaFieldCacheField_setPrice f (Some (mReusablePrice c)))
  | MAMA_FIELD_TYPE_TIME =>
      modify (fun w => put_cache (put_reusable (cache w) (msg_object mf MAMA_FIELD_TYPE_TIME (mReusableDateTime (cache w))) (mReusablePrice (cache w))) w) ;;
      c ← gets cache;
      on_field field (fun f => mamaFieldCacheField_setDateTime f (Some (mReusableDateTime c)))
  | MAMA_FIELD_TYPE_VECTOR_BOOL => let r := msg_vector mf MAMA_FIELD_TYPE_VECTOR_BOOL in on_field field (fun f => mamaFieldCacheField_setBoolVector f r.1 r.2)
  | MAMA_FIELD_TYPE_VECTOR_CHAR => let r := msg_vector mf MAMA_FIELD_TYPE_VECTOR_CHAR in on_field field (fun f => mamaFieldCacheField_setCharVector f r.1 r.2)
  | MAMA_FIELD_TYPE_VECTOR_I8 => let r := msg_vector mf MAMA_FIELD_TYPE_VECTOR_I8 in on_field field (fun f => mamaFieldCacheField_setI8Vector f r.1 r.2)
  | MAMA_FIELD_TYPE_VECTOR_U8 => let r := msg_vector mf MAMA_FIELD_TYPE_VECTOR_U8 in on_field field (fun f => mamaFieldCacheField_setU8Vector f r.1 r.2)
  | MAMA_FIELD_TYPE_VECTOR_I16 => let r := msg_vector mf MAMA_FIELD_TYPE_VECTOR_I16 in on_field field (fun f => mamaFieldCacheField_setI16Vector f r.1 r.2)
  | MAMA_FIELD_TYPE_VECTOR_U16 => let r := msg_vector mf MAMA_FIELD_TYPE_VECTOR_U16 in on_field field (fun f => mamaFieldCacheField_setU16Vector f r.1 r.2)
  | MAMA_FIELD_TYPE_VECTOR_I32 => let r := msg_vector mf MAMA_FIELD_TYPE_VECTOR_I32 in on_field field (fun f => mamaFieldCacheField_setI32Vector f r.1 r.2)
  | MAMA_FIELD_TYPE_VECTOR_U32 => let r := msg_vector mf MAMA_FIELD_TYPE_VECTOR_U32 in on_field field (fun f => mamaFieldCacheField_setU32Vector f r.1 r.2)
  | MAMA_FIELD_TYPE_VECTOR_I64 => let r := msg_vector mf MAMA_FIELD_TYPE_VECTOR_I64 in on_field field (fun f => mamaFieldCacheField_setI64Vector f r.1 r.2)
  | MAMA_FIELD_TYPE_VECTOR_U64 => let r := msg_vector mf MAMA_FIELD_TYPE_VECTOR_U64 in on_field field (fun f => mamaFieldCacheField_setU64Vector f r.1 r.2)
  | MAMA_FIELD_TYPE_VECTOR_F32 => let r := msg_vector mf MAMA_FIELD_TYPE_VECTOR_F32 in on_field field (fun f => mamaFieldCacheField_setF32Vector f r.1 r.2)
  | MAMA_FIELD_TYPE_VECTOR_F64 => let r := msg_vector mf MAMA_FIELD_TYPE_VECTOR_F64 in on_field field (fun f => mamaFieldCacheField_setF64Vector f r.1 r.2)
  | MAMA_FIELD_TYPE_VECTOR_STRING => let r := msg_strings mf in on_field field (fun f => mamaFieldCacheField_setStringVector f r.1 r.2)
  | _ => mret MAMA_STATUS_OK
  end.

(** The field for the identifier: the one of the cache, or a new one. *)
Definition field_for (mf : mamaMsgField) : FM (mama_status * Z * mamaFieldType) :=
  let fid := (mf_fid mf).2 in
  found ← mamaFieldCacheMapArray_find fid;
  match found with
  | (MAMA_STATUS_OK, Some field) =>
      f ← get_field field;
      mret (MAMA_STATUS_OK, field, mType f)
  | _ =>
      if negb (status_ok (mf_type mf).1) then mret ((mf_type mf).1, 0, MAMA_FIELD_TYPE_UNKNOWN)
      else
        c ← gets cache;
        let type := (mf_type mf).2 in
        let name := if mUseFieldNames c then mf_name mf else None in
        r ← new_field fid type name;
        let field := r.2 in
        ret ← mamaFieldCacheMapArray_add field;
        if negb (status_ok ret) then mret (ret, 0, type)
        else
          count_field ;;
          (if mf_descriptor mf =? 0 then mret tt
           else on_field field (fun f => Ok (MAMA_STATUS_OK, mamaFieldCacheField_setDescriptor f (mf_descriptor mf))) ;; mret tt) ;;
          mret (MAMA_STATUS_OK, field, type)
  end.

Definition mamaFieldCache_updateCacheFromMsgField (mf : mamaMsgField) : FM mama_status :=
  if negb (status_ok (mf_fid mf).1) then mret (mf_fid mf).1
  else
    r ← field_for mf;
    let '(ret, field, type) := r in
    if negb (status_ok ret) then mret ret
    else
      c ← gets cache;
      f ← get_field field;
      (if mTrackModified c && mPublish f && negb (mIsModified f) then
         put_field field (put_modified true f) ;; add_modified field
       else mret tt) ;;
      store_value type mf field ;;
      mret ret.

(** ** Applying a field of another cache or record *)

Definition mamaFieldCache_updateCacheFromField (field : Z) : FM mama_status :=
  if field =? 0 then mret MAMA_STATUS_NULL_ARG
  else
    f ← get_field field;
    let fid := mFid f in
    found ← mamaFieldCacheMapArray_find fid;
    r ← match found with
        | (MAMA_STATUS_OK, Some cachedField) =>
            g ← get_field cachedField;
            mret (MAMA_STATUS_OK, cachedField, mIsModified g)
        | _ =>
            n ← new_field fid (mType f) None;
            if negb (status_ok n.1) then mret (n.1, 0, false)
            else
              ret ← mamaFieldCacheMapArray_add n.2;
              if negb (status_ok ret) then mret (ret, 0, false)
              else
                count_field ;;
                (if mPublish f && negb (mCheckModified f) then add_always n.2 else mret tt) ;;
                mret (MAMA_STATUS_OK, n.2, false)
        end;
    let '(ret, cachedField, alreadyModified) := r in
    if negb (status_ok ret) then mret ret
    else
      f ← get_field field;
      on_field cachedField (fun g => mamaFieldCacheField_copy garbage (field =? cachedField) f g) ;;
      g ← get_field cachedField;
      c ← gets cache;
      (if mPublish g && mCheckModified g && negb alreadyModified && mTrackModified c then
         put_field cachedField (put_modified true g) ;; add_modified cachedField
       else mret tt) ;;
      mret ret.

(** ** Writing a field to a message *)

(** [size] elements behind a pointer. *)
Definition elements_at {A} (l : list A) (size : Z) : FM (list A) :=
  if Z.of_nat (length l) <? size then fail InvalidDeref else mret (take (Z.to_nat size) l).

Definition strings_of (l : list (option content)) : option (list (list Z)) := mapM (fun x => match x with Some (Str s) => Some s | _ => None end) l.
Definition objects_of (l : list (option content)) : option (list Z) := mapM (fun x => match x with Some (Obj o) => Some o | _ => None end) l.

Definition mamaFieldCache_updateMsgField (field : Z) (message : msg) (useUpdate : bool) : FM (mama_status * msg) :=
  f ← get_field field;
  c ← gets cache;
  let fid := mFid f in
  let type := mType f in
  let name := if mUseFieldNames c then mamaFieldCacheField_getName descriptor_name f else None in
  let write t c := mret ((if useUpdate then mamaMsg_update message name fid t c else mamaMsg_add message name fid t c) : mama_status * msg) in
  let null := mret (MAMA_STATUS_INVALID_ARG, message) in
  let vector t (r : mama_status * option (option (list Z) * Z)) :=
    match r.2 with Some (Some l, size) => l ← elements_at l size; write t (Scalars l) | _ => null end in
  match type with
  | MAMA_FIELD_TYPE_BOOL => write MAMA_FIELD_TYPE_BOOL (Scalar (written garbage (mamaFieldCacheField_getBool f)))
  | MAMA_FIELD_TYPE_CHAR => write MAMA_FIELD_TYPE_CHAR (Scalar (written garbage (mamaFieldCacheField_getChar f)))
  | MAMA_FIELD_TYPE_I8 => write MAMA_FIELD_TYPE_I8 (Scalar (written garbage (mamaFieldCacheField_getI8 f)))
  | MAMA_FIELD_TYPE_U8 => write MAMA_FIELD_TYPE_U8 (Scalar (written garbage (mamaFieldCacheField_getU8 f)))
  | MAMA_FIELD_TYPE_I16 => write MAMA_FIELD_TYPE_I16 (Scalar (written garbage (mamaFieldCacheField_getI16 f)))
  | MAMA_FIELD_TYPE_U16 => write MAMA_FIELD_TYPE_U16 (Scalar (written garbage (mamaFieldCacheField_getU16 f)))
  | MAMA_FIELD_TYPE_I32 => write MAMA_FIELD_TYPE_I32 (Scalar (written garbage (mamaFieldCacheField_getI32 f)))
  | MAMA_FIELD_TYPE_U32 => write MAMA_FIELD_TYPE_U32 (Scalar (written garbage (mamaFieldCacheField_getU32 f)))
  | MAMA_FIELD_TYPE_I64 => write MAMA_FIELD_TYPE_I64 (Scalar (written garbage (mamaFieldCacheField_getI64 f)))
  | MAMA_FIELD_TYPE_U64 => write MAMA_FIELD_TYPE_U64 (Scalar (written garbage (mamaFieldCacheField_getU64 f)))
  | MAMA_FIELD_TYPE_F32 => write MAMA_FIELD_TYPE_F32 (Scalar (written garbage (mamaFieldCacheField_getF32 f)))
  | MAMA_FIELD_TYPE_QUANTITY | MAMA_FIELD_TYPE_F64 => write MAMA_FIELD_TYPE_F64 (Scalar (written garbage (mamaFieldCacheField_getF64 f)))
  | MAMA_FIELD_TYPE_STRING =>
      match (mamaFieldCacheField_getString f).2 with
      | Some (Some l, _) => if decide (0 ∈ l) then write MAMA_FIELD_TYPE_STRING (Str (c_string l)) else fail InvalidDeref
      | _ => null
      end
  | MAMA_FIELD_TYPE_PRICE =>
      match (mamaFieldCacheField_getPrice f).2 with Some (Some o) => write MAMA_FIELD_TYPE_PRICE (Obj o) | _ => null end
  | MAMA_FIELD_TYPE_TIME =>
      match (mamaFieldCacheField_getDateTime f).2 with Some (Some o) => write MAMA_FIELD_TYPE_TIME (Obj o) | _ => null end
  | MAMA_FIELD_TYPE_VECTOR_BOOL => vector MAMA_FIELD_TYPE_VECTOR_BOOL (mamaFieldCacheField_getBoolVector f)
  | MAMA_FIELD_TYPE_VECTOR_CHAR => vector MAMA_FIELD_TYPE_VECTOR_CHAR (mamaFieldCacheField_getCharVector f)
  | MAMA_FIELD_TYPE_VECTOR_I8 => vector MAMA_FIELD_TYPE_VECTOR_I8 (mamaFieldCacheField_getI8Vector f)
  | MAMA_FIELD_TYPE_VECTOR_U8 => vector MAMA_FIELD_TYPE_VECTOR_U8 (mamaFieldCacheField_getU8Vector f)
  | MAMA_FIELD_TYPE_VECTOR_I16 => vector MAMA_FIELD_TYPE_VECTOR_I16 (mamaFieldCacheField_getI16Vector f)
  | MAMA_FIELD_TYPE_VECTOR_U16 => vector MAMA_FIELD_TYPE_VECTOR_U16 (mamaFieldCacheField_getU16Vector f)
  | MAMA_FIELD_TYPE_VECTOR_I32 => vector MAMA_FIELD_TYPE_VECTOR_I32 (mamaFieldCacheField_getI32Vector f)
  | MAMA_FIELD_TYPE_VECTOR_U32 => vector MAMA_FIELD_TYPE_VECTOR_U32 (mamaFieldCacheField_getU32Vector f)
  | MAMA_FIELD_TYPE_VECTOR_I64 => vector MAMA_FIELD_TYPE_VECTOR_I64 (mamaFieldCacheField_getI64Vector f)
  | MAMA_FIELD_TYPE_VECTOR_U64 => vector MAMA_FIELD_TYPE_VECTOR_U64 (mamaFieldCacheField_getU64Vector f)
  | MAMA_FIELD_TYPE_VECTOR_F32 => vector MAMA_FIELD_TYPE_VECTOR_F32 (mamaFieldCacheField_getF32Vector f)
  | MAMA_FIELD_TYPE_VECTOR_F64 => vector MAMA_FIELD_TYPE_VECTOR_F64 (mamaFieldCacheField_getF64Vector f)
  | MAMA_FIELD_TYPE_VECTOR_STRING =>
      match (mamaFieldCacheField_getStringVector f).2 with
      | Some (Some l, size) =>
          l ← elements_at l size;
          match strings_of l with Some l => write MAMA_FIELD_TYPE_VECTOR_STRING (Strs l) | None => fail InvalidDeref end
      | _ => null
      end
  | MAMA_FIELD_TYPE_VECTOR_PRICE =>
      match (mamaFieldCacheField_getPriceVector f).2 with
      | Some (Some l, size) =>
          l ← elements_at l size;
          match objects_of l with
          | Some l => mret (mamaMsg_add message name fid MAMA_FIELD_TYPE_VECTOR_PRICE (Objs l))
          | None => fail InvalidDeref
          end
      | _ => null
      end
  | MAMA_FIELD_TYPE_VECTOR_TIME =>
      match (mamaFieldCacheField_getDateTimeVector f).2 with
      | Some (Some l, size) =>
          l ← elements_at l size;
          match objects_of l with
          | Some l => mret (mamaMsg_add message name fid MAMA_FIELD_TYPE_VECTOR_TIME (Objs l))
          | None => fail InvalidDeref
          end
      | _ => null
      end
  | _ => mret (MAMA_STATUS_NOT_FOUND, message)
  end.

(** ** The cache *)

(** [payload]: the setting mama.fieldcache.type is payload. *)
Definition mamaFieldCache_create (payload : bool) : FM mama_status :=
  let c := mkCache None 0 mamaFieldCacheList_create mamaFieldCacheList_create 0 0 false false false payload None in
  mem ← alloc;
  if negb mem then mret MAMA_STATUS_NOMEM
  else if payload then modify (put_cache c) ;; mret MAMA_STATUS_OK
  else
    r ← mamaFieldCacheMapArray_create;
    match r with
    | (MAMA_STATUS_OK, Some m) =>
        modify (put_cache (put_map (put_options c true false false) (Some m) 0)) ;;
        mret MAMA_STATUS_OK
    | _ => fail Aborted
    end.

(** The cache is freed. *)
Definition mamaFieldCache_destroy : FM mama_status :=
  c ← gets cache;
  (if mCachePayload c then mret MAMA_STATUS_OK else mamaFieldCacheMapArray_destroy) ;;
  mret MAMA_STATUS_OK.

Definition mamaFieldCache_clear : FM mama_status :=
  c ← gets cache;
  if mCachePayload c then
    modify (fun w => put_cache (put_msg c (mamaMsg_clear <$> mCacheMsg c)) w) ;;
    mret MAMA_STATUS_OK
  else
    mamaFieldCacheMapArray_clear ;;
    modify (fun w => put_cache (put_lists (put_map (cache w) (mMap (cache w)) 0)
      (mamaFieldCacheList_clear (mAlwaysPublishFields (cache w))) (mamaFieldCacheList_clear (mModifiedFields (cache w)))) w) ;;
    mret MAMA_STATUS_OK.

Definition mamaFieldCache_getSize : FM Z := gets (fun w => mSize (cache w)).

Definition mamaFieldCache_find (fid : Z) : FM (mama_status * option Z) :=
  c ← gets cache;
  if mCachePayload c then mret (MAMA_STATUS_NOT_IMPLEMENTED, None) else mamaFieldCacheMapArray_find fid.

(** The field, and whether it was there. *)
Definition mamaFieldCache_findOrAdd (fid : Z) (type : mamaFieldType) (name : option string) : FM (mama_status * option Z * bool) :=
  c ← gets cache;
  if mCachePayload c then mret (MAMA_STATUS_NOT_IMPLEMENTED, None, false)
  else
    found ← mamaFieldCacheMapArray_find fid;
    match found with
    | (MAMA_STATUS_OK, Some field) => mret (MAMA_STATUS_OK, Some field, true)
    | (_, old) =>
        r ← new_field fid type name;
        if negb (status_ok r.1) then mret (r.1, old, false)
        else
          ret ← mamaFieldCacheMapArray_add r.2;
          (if status_ok ret then count_field else mret tt) ;;
          mret (ret, Some r.2, false)
    end.

Definition mamaFieldCache_setModified (field : Z) : FM mama_status :=
  if field =? 0 then mret MAMA_STATUS_NULL_ARG
  else
    c ← gets cache;
    f ← get_field field;
    if negb (mTrackModified c) || mIsModified f then mret MAMA_STATUS_OK
    else
      put_field field (put_modified true f) ;;
      add_modified field ;;
      mret MAMA_STATUS_OK.

Definition mamaFieldCache_applyField (field : Z) : FM mama_status :=
  if field =? 0 then mret MAMA_STATUS_NULL_ARG
  else
    c ← gets cache;
    if mCachePayload c then mret MAMA_STATUS_NOT_IMPLEMENTED else mamaFieldCache_updateCacheFromField field.

(** The loop over the fields of the message, up to the first error. *)
Fixpoint apply_fields (l : list mamaMsgField) : FM mama_status :=
  match l with
  | [] => mret MAMA_STATUS_OK
  | mf :: l' =>
      ret ← mamaFieldCache_updateCacheFromMsgField mf;
      if status_ok ret then apply_fields l' else mret ret
  end.

Definition mamaFieldCache_applyMessage (message : msg) : FM mama_status :=
  c ← gets cache;
  if mCachePayload c then
    match mCacheMsg c with
    | None => modify (put_cache (put_msg c (Some message))) ;; mret MAMA_STATUS_OK
    | Some m => let r := mamaMsg_applyMsg m message in modify (put_cache (put_msg c (Some r.2))) ;; mret r.1
    end
  else apply_fields (mamaMsg_iterate message).

(** The [while] loop over the iterator; the number of fields bounds it. *)
Fixpoint full_loop (fuel : nat) (m : mamaFieldCacheMapArrayImpl) (index : Z) (message : msg) (useUpdate : bool) : FM msg :=
  match fuel with
  | O => fail OutOfFuel
  | S fuel' =>
      if mamaFieldCacheMapIteratorArray_hasNext m index then
        let '(field, index') := mamaFieldCacheMapIteratorArray_next m index in
        f ← get_field field;
        message' ← (if mPublish f then r ← mamaFieldCache_updateMsgField field message useUpdate; mret r.2 else mret message);
        full_loop fuel' m index' message' useUpdate
      else mret message
  end.

(** [(mama_bool_t)numFields], a number of 8 bits. *)
Definition use_update (message : msg) : bool := negb (swrap 8 (mamaMsg_getNumFields message) =? 0).

Definition mamaFieldCache_getFullMessage (message : msg) : FM (mama_status * msg) :=
  c ← gets cache;
  match mCacheMsg c with
  | Some m => mret (MAMA_STATUS_OK, m)
  | None =>
      match mMap c with
      | None => fail InvalidDeref
      | Some m =>
          message' ← full_loop (S (length (mFieldArray m))) m (-1) message (use_update message);
          mret (MAMA_STATUS_OK, message')
      end
  end.

(** The [for] loops over a list of the cache: the fields at the indices given. *)
Fixpoint delta_loop (l : mamaFieldCacheListImpl Z) (indices : list Z) (message : msg) (useUpdate : bool) : FM msg :=
  match indices with
  | [] => mret message
  | i :: rest =>
      r ← lift (mamaFieldCacheList_get l i);
      match r.2 with
      | Some (Some field) =>
          r ← mamaFieldCache_updateMsgField field message useUpdate;
          f ← get_field field;
          put_field field (put_modified false f) ;;
          delta_loop l rest r.2 useUpdate
      | _ => fail Aborted
      end
  end.

Definition clear_modified_list : FM unit :=
  modify (fun w => put_cache (put_lists (cache w) (mAlwaysPublishFields (cache w)) (mamaFieldCacheList_clear (mModifiedFields (cache w)))) w).

Definition mamaFieldCache_getDeltaMessage (message : msg) : FM (mama_status * msg) :=
  c ← gets cache;
  if negb (mTrackModified c) then mamaFieldCache_getFullMessage message
  else
    let useUpdate := use_update message in
    message1 ← delta_loop (mAlwaysPublishFields c) (seqZ 0 (mamaFieldCacheList_getSize (mAlwaysPublishFields c))) message useUpdate;
    message2 ← delta_loop (mModifiedFields c) (seqZ 0 (mamaFieldCacheList_getSize (mModifiedFields c))) message1 useUpdate;
    clear_modified_list ;;
    mret (MAMA_STATUS_OK, message2).

Fixpoint unmodify_loop (l : mamaFieldCacheListImpl Z) (indices : list Z) : FM unit :=
  match indices with
  | [] => mret tt
  | i :: rest =>
      r ← lift (mamaFieldCacheList_get l i);
      match r.2 with
      | Some (Some field) => f ← get_field field; put_field field (put_modified false f) ;; unmodify_loop l rest
      | _ => fail Aborted
      end
  end.

Definition mamaFieldCache_clearModifiedFields : FM mama_status :=
  c ← gets cache;
  if negb (mTrackModified c) then mret MAMA_STATUS_OK
  else
    unmodify_loop (mModifiedFields c) (seqZ 0 (mamaFieldCacheList_getSize (mModifiedFields c))) ;;
    clear_modified_list ;;
    mret MAMA_STATUS_OK.

Definition mamaFieldCache_setTrackModified (trackModified : bool) : FM mama_status :=
  modify (fun w => put_cache (if mCachePayload (cache w) then cache w
    else put_options (cache w) trackModified (mUseLock (cache w)) (mUseFieldNames (cache w))) w) ;;
  mret MAMA_STATUS_OK.

Definition mamaFieldCache_setUseFieldNames (useFieldNames : bool) : FM mama_status :=
  modify (fun w => put_cache (put_options (cache w) (mTrackModified (cache w)) (mUseLock (cache w)) useFieldNames) w) ;;
  mret MAMA_STATUS_OK.

Definition mamaFieldCache_setUseLock (enable : bool) : FM mama_status :=
  modify (fun w => put_cache (put_options (cache w) (mTrackModified (cache w)) enable (mUseFieldNames (cache w))) w) ;;
  mret MAMA_STATUS_OK.

(** ** Records: fields to be applied together *)

Record mamaFieldCacheRecordImpl : Type := mkRecord { rFields : mamaFieldCacheVectorImpl Z; rSize : Z }.

Definition mamaFieldCacheRecord_create : mamaFieldCacheRecordImpl := mkRecord mamaFieldCacheVector_create 0.

(** A NULL field is entered when none can be made. *)
Definition mamaFieldCacheRecord_add (record : mamaFieldCacheRecordImpl) (fid : Z) (type : mamaFieldType) (name : option string) :
  FM (mama_status * Z * mamaFieldCacheRecordImpl) :=
  let v := mamaFieldCacheVector_grow (rFields record) (rSize record + 10) in
  r ← new_field fid type name;
  v' ← lift (mamaFieldCacheVector_set v (rSize record) (if r.2 =? 0 then None else Some r.2));
  mret (MAMA_STATUS_OK, r.2, mkRecord v'.2 (rSize record + 1)).

(** The field at an index; 0 is NULL. *)
Definition mamaFieldCacheRecord_getField (record : mamaFieldCacheRecordImpl) (index : Z) : FM (mama_status * option Z) :=
  if rSize record <=? index then mret (MAMA_STATUS_INVALID_ARG, None)
  else
    r ← lift (mamaFieldCacheVector_get (rFields record) index);
    mret (MAMA_STATUS_OK, (fun x => default 0 x) <$> r.2).

(** The [for] loop over the record; the result of the last field is returned. *)
Fixpoint record_loop (record : mamaFieldCacheRecordImpl) (indices : list Z) (ret : mama_status) : FM mama_status :=
  match indices with
  | [] => mret ret
  | i :: rest =>
      r ← mamaFieldCacheRecord_getField record i;
      let newField := default 0 r.2 in
      ret ← (if newField =? 0 then mret ret else mamaFieldCache_updateCacheFromField newField);
      record_loop record rest ret
  end.

Definition mamaFieldCache_applyRecord (record : mamaFieldCacheRecordImpl) : FM mama_status :=
  c ← gets cache;
  if mCachePayload c then mret MAMA_STATUS_NOT_IMPLEMENTED
  else record_loop record (seqZ 0 (rSize record)) MAMA_STATUS_OK.

(** The first field of the record with the identifier. *)
Fixpoint record_find_loop (record : mamaFieldCacheRecordImpl) (indices : list Z) (fid : Z) : FM (mama_status * Z) :=
  match indices with
  | [] => mret (MAMA_STATUS_NOT_FOUND, 0)
  | i :: rest =>
      r ← mamaFieldCacheRecord_getField record i;
      let field := default 0 r.2 in
      if field =? 0 then record_find_loop record rest fid
      else
        f ← get_field field;
        if fid =? mFid f then mret (MAMA_STATUS_OK, field) else record_find_loop record rest fid
  end.

Definition mamaFieldCacheRecord_find (record : mamaFieldCacheRecordImpl) (fid : Z) : FM (mama_status * Z) :=
  record_find_loop record (seqZ 0 (rSize record)) fid.

Fixpoint record_free_loop (record : mamaFieldCacheRecordImpl) (indices : list Z) : FM unit :=
  match indices with
  | [] => mret tt
  | i :: rest => r ← mamaFieldCacheRecord_getField record i; free_field (default 0 r.2) ;; record_free_loop record rest
  end.

Definition mamaFieldCacheRecord_clear (record : mamaFieldCacheRecordImpl) : FM mamaFieldCacheRecordImpl :=
  record_free_loop record (seqZ 0 (rSize record)) ;;
  mret (mkRecord (mkVector ((fun d => replicate (Z.to_nat (rSize record)) None ++ drop (Z.to_nat (rSize record)) d) <$> vData (rFields record))
                           (vSize (rFields record))) 0).

Definition mamaFieldCacheRecord_destroy (record : mamaFieldCacheRecordImpl) : FM mama_status :=
  record_free_loop record (seqZ 0 (rSize record)) ;;
  mret MAMA_STATUS_OK.

End FieldCache.

End FieldCache.
