(* ===== verification/FieldCacheProps.v ===== *)
(** * The field cache: a map of values and its replicas

    The cache is a map from the identifiers of fields to values; a second cache to
    which the full messages and the messages with the changes are applied holds
    what the first one held when the last message was made. *)

From S2P Require Import Prelude MamaStatus FieldCacheVector FieldCacheField FieldCacheFieldProps FieldCache.

Module FieldCacheProps.
Import FieldCacheVector FieldCacheField FieldCacheFieldProps FieldCache.

(** ** Messages *)

Record entry : Type := mkEntry { e_fid : Z; e_type : mamaFieldType; e_content : content }.

(** Replace the value of the first entry with the identifier, or add one. *)
Fixpoint upsert (e : entry) (l : list entry) : list entry :=
  match l with
  | [] => [e]
  | x :: l' => if e_fid x =? e_fid e then e :: l' else x :: upsert e l'
  end.

(** What the field cache relies on: adding a field appends it, updating one
    replaces or adds it, and the iterator visits the fields in order, each with the
    value that was written. *)
Class PayloadLaws (msg : Type) `{Payload msg} : Type := {
  msg_entries : msg -> list entry;
  msg_empty : msg;
  entries_empty : msg_entries msg_empty = [];
  entries_count m : mamaMsg_getNumFields m = Z.of_nat (length (msg_entries m));
  entries_add m n fid t c : msg_entries (mamaMsg_add m n fid t c).2 = msg_entries m ++ [mkEntry fid t c];
  entries_update m n fid t c : msg_entries (mamaMsg_update m n fid t c).2 = upsert (mkEntry fid t c) (msg_entries m);
  entries_iterate m : Forall2 (fun e mf => mf_fid mf = (MAMA_STATUS_OK, e_fid e) /\ mf_type mf = (MAMA_STATUS_OK, e_type e) /\
    mf_get mf (e_type e) = Some (e_content e)) (msg_entries m) (mamaMsg_iterate m);
}.

(** Messages as lists of entries, without names; values are not converted. *)
Definition read_entry (e : entry) : mamaMsgField :=
  mkMsgField (MAMA_STATUS_OK, e_fid e) (MAMA_STATUS_OK, e_type e) None 0
    (fun t => if decide (t = e_type e) then Some (e_content e) else None).

#[export] Instance list_payload : Payload (list entry) := {|
  mamaMsg_getNumFields m := Z.of_nat (length m);
  mamaMsg_add m _ fid t c := (MAMA_STATUS_OK, m ++ [mkEntry fid t c]);
  mamaMsg_update m _ fid t c := (MAMA_STATUS_OK, upsert (mkEntry fid t c) m);
  mamaMsg_iterate m := read_entry <$> m;
  mamaMsg_applyMsg m m' := (MAMA_STATUS_OK, foldl (fun m e => upsert e m) m m');
  mamaMsg_clear _ := [];
|}.

#[export] Instance list_payload_laws : PayloadLaws (list entry).
Proof.
  refine {| msg_entries m := m; msg_empty := [] |}; try done.
  intros m. cbn. induction m as [|e m IH]; constructor; [|done]. cbn. by rewrite decide_True.
Defined.

(** ** The numbers of the identifiers *)

Section Cache.
Context {msg : Type} `{HP : Payload msg} `{HL : !PayloadLaws msg}.
Context (garbage : Z) (descriptor_name : Z -> option string).

Notation world := (world msg).

(** Identifiers below 65472: more than 65472 different ones do not fit. *)
Definition MAX_FID : Z := 65472.

Record statics_ok (w : world) : Prop := {
  s_range : forall fid n, mFields w !! fid = Some n -> 0 <= fid < MAX_FID /\ 1 <= n <= mCounter w;
  s_inj : forall fid fid' n, mFields w !! fid = Some n -> mFields w !! fid' = Some n -> fid = fid';
  s_count : mCounter w = Z.of_nat (size (mFields w));
}.

Lemma fids_bounded {A} (m : gmap Z A) : (forall fid x, m !! fid = Some x -> 0 <= fid < MAX_FID) -> Z.of_nat (size m) <= MAX_FID.
Proof.
  intros Hr. rewrite <- size_dom. unfold size, set_size. cbn.
  pose proof (NoDup_interval_length (elements (dom m)) 0 MAX_FID) as L. rewrite Z.sub_0_r in L. apply L; [apply NoDup_elements| |done].
  intros fid Hf. apply elem_of_elements, elem_of_dom in Hf as [x Hx]. by eapply Hr.
Qed.

Lemma counter_bounded w : statics_ok w -> 0 <= mCounter w <= MAX_FID.
Proof. intros K. rewrite (s_count w K). split; [lia|]. apply fids_bounded. intros fid n Hn. by apply (s_range w K) in Hn as [? _]. Qed.

Lemma convertFid_ok w fid : statics_ok w -> 0 <= fid < MAX_FID ->
  wp (mamaFieldCacheMapArray_convertFid fid) w (fun i w' =>
    exists T n, w' = put_statics T n w /\ statics_ok w' /\ 0 <= i < MAX_FID /\ T !! fid = Some (i + 1) /\
      (forall g k, mFields w !! g = Some k -> T !! g = Some k)).
Proof.
  intros K Hf. pose proof (counter_bounded w K) as Hc. unfold mamaFieldCacheMapArray_convertFid, FIDS. unfold MAX_FID in *.
  destruct (Z.ltb_spec fid 0); [lia|]. destruct (Z.leb_spec 65535 fid); [lia|]. cbn [orb]. apply wp_bind, wp_gets.
  destruct (mFields w !! fid) as [n|] eqn:E; cbn [from_option]; unfold Datatypes.id.
  - pose proof (s_range w K _ _ E) as [_ Hn]. destruct (Z.eqb_spec n 0); [lia|]. cbn [negb]. apply wp_ret.
    unfold u16. rewrite uwrap_small by (unfold in_u; lia). exists (mFields w), (mCounter w). split_and!; try done; try lia; [by destruct w|].
    rewrite E. f_equal. lia.
  - cbn. apply wp_bind, wp_gets.
    assert (mCounter w + 1 <= 65472) as Hs.
    { rewrite (s_count w K). pose proof (fids_bounded (<[fid := 0]> (mFields w))) as B. rewrite map_size_insert_None in B by done.
      unfold MAX_FID in B. enough (Z.of_nat (S (size (mFields w))) <= 65472) by lia. apply B. intros g x Hg.
      apply lookup_insert_Some in Hg as [[<- _]|[_ Hg]]; [done|]. by apply (s_range w K) in Hg as [? _]. }
    unfold u16. rewrite !(uwrap_small 16 (mCounter w + 1)) by (unfold in_u; lia). apply wp_bind, wp_modify, wp_ret.
    rewrite uwrap_small by (unfold in_u; lia). exists (<[fid := mCounter w + 1]> (mFields w)), (mCounter w + 1). split_and!; try done; try lia.
    + split; cbn.
      * intros g n Hg. apply lookup_insert_Some in Hg as [[<- <-]|[_ Hg]]; [unfold MAX_FID; lia|]. apply (s_range w K) in Hg. lia.
      * intros g g' n Hg Hg'. rewrite lookup_insert_Some in Hg. rewrite lookup_insert_Some in Hg'.
        destruct Hg as [[<- <-]|[N1 Hg]], Hg' as [[<- E3]|[N2 Hg']]; [done|apply (s_range w K) in Hg'; lia|apply (s_range w K) in Hg; lia|].
        by eapply (s_inj w K).
      * rewrite map_size_insert_None by done. rewrite (s_count w K). lia.
    + rewrite lookup_insert_eq. f_equal. lia.
    + intros g k Hg. rewrite lookup_insert_ne; [done|]. intros <-. congruence.
Qed.

(** ** Growing the array *)

Lemma grow_loop_ok cacheFid : 0 <= cacheFid < MAX_FID -> forall fuel k,
  1 <= k -> k <= cacheFid / 64 -> cacheFid / 64 + 1 - k <= Z.of_nat fuel ->
  grow_loop fuel (64 * k) cacheFid = Some (64 * (cacheFid / 64 + 1)).
Proof.
  intros Hf. unfold MAX_FID in *. pose proof (Z.div_lt_upper_bound cacheFid 64 1023 ltac:(lia) ltac:(lia)).
  pose proof (Z.mul_div_le cacheFid 64 ltac:(lia)). pose proof (Z.mul_succ_div_gt cacheFid 64 ltac:(lia)).
  induction fuel as [|fuel IH]; intros k Hk1 Hk2 Hk3; [lia|]. cbn [grow_loop]. unfold MAP_ARRAY_CHUNK_SIZE, u16.
  rewrite uwrap_small by (unfold in_u; lia). destruct (Z.leb_spec (64 * k + 64) cacheFid) as [L|L].
  - replace (64 * k + 64) with (64 * (k + 1)) by lia. apply IH; [lia| |lia]. apply Z.div_le_lower_bound; lia.
  - f_equal. lia.
Qed.

(** From the 65473rd identifier on the size wraps around before it is large
    enough, and the loop never ends. *)
Lemma grow_loop_forever cacheFid : MAX_FID <= cacheFid -> forall fuel k,
  0 <= k < 1024 -> grow_loop fuel (64 * k) cacheFid = None.
Proof.
  intros Hf. unfold MAX_FID in *. induction fuel as [|fuel IH]; intros k Hk; [done|]. cbn [grow_loop]. unfold MAP_ARRAY_CHUNK_SIZE, u16, uwrap.
  replace ((64 * k + 64) `mod` 2 ^ 16) with (64 * ((k + 1) `mod` 1024)).
  2:{ replace (64 * k + 64) with (64 * (k + 1)) by lia. change (2 ^ 16) with (64 * 1024). by rewrite Zmult_mod_distr_l. }
  pose proof (Z.mod_pos_bound (k + 1) 1024 ltac:(lia)). destruct (Z.leb_spec (64 * ((k + 1) `mod` 1024)) cacheFid); [|lia]. by apply IH.
Qed.

(** ** The array is a map *)

(** [T]: the numbers of the identifiers, [A]: the address of the field of each
    identifier. *)
Record map_ok (T A : gmap Z Z) (m : mamaFieldCacheMapArrayImpl) : Prop := {
  m_len : Z.of_nat (length (mFieldArray m)) = maSize m;
  m_chunks : exists k, 1 <= k <= 1023 /\ maSize m = 64 * k;
  m_entry : forall i a, mFieldArray m !! i = Some a -> a <> 0 -> exists fid, T !! fid = Some (Z.of_nat i + 1) /\ A !! fid = Some a;
  m_find : forall fid a, A !! fid = Some a -> a <> 0 /\ exists n, T !! fid = Some n /\ mFieldArray m !! Z.to_nat (n - 1) = Some a;
}.

Lemma map_ok_statics T T' A m : map_ok T A m -> (forall g k, T !! g = Some k -> T' !! g = Some k) -> map_ok T' A m.
Proof.
  intros [K1 K2 K3 K4] HT. split; [done..| |].
  - intros i a Ha Hn. destruct (K3 i a Ha Hn) as (fid & H1 & H2). exists fid. split; [by apply HT|done].
  - intros fid a Ha. destruct (K4 fid a Ha) as (Hn & n & H1 & H2). split; [done|]. exists n. split; [by apply HT|done].
Qed.

(** The entry of an identifier that the map does not have is empty. *)
Lemma map_ok_empty w A m fid i a : statics_ok w -> map_ok (mFields w) A m -> A !! fid = None -> 0 <= i -> mFields w !! fid = Some (i + 1) ->
  mFieldArray m !! Z.to_nat i = Some a -> a = 0.
Proof.
  intros KS K Hn Hi HT Ha. destruct (decide (a = 0)) as [|Hz]; [done|]. destruct (m_entry _ _ _ K _ _ Ha Hz) as (fid' & HT' & HA).
  rewrite Z2Nat.id in HT' by done. rewrite (s_inj w KS _ _ _ HT' HT) in HA. congruence.
Qed.

Lemma find_ok w A m fid : statics_ok w -> mMap (cache w) = Some m -> map_ok (mFields w) A m -> 0 <= fid < MAX_FID ->
  wp (mamaFieldCacheMapArray_find fid) w (fun r w' => exists T n, w' = put_statics T n w /\ statics_ok w' /\ map_ok T A m /\
    match A !! fid with Some a => r = (MAMA_STATUS_OK, Some a) | None => exists o, r = (MAMA_STATUS_NOT_FOUND, o) end).
Proof.
  intros KS Hm K Hf. unfold mamaFieldCacheMapArray_find, the_map. apply wp_bind, wp_bind, wp_gets. rewrite Hm. apply wp_ret.
  apply wp_bind. eapply wp_mono; [by apply convertFid_ok|]. cbn beta. intros i w' (T & n & -> & KS' & Hi & HT & HI).
  pose proof (map_ok_statics _ _ _ _ K HI) as K'. pose proof (m_len _ _ _ K) as L.
  destruct (Z.leb_spec (maSize m) i) as [Hs|Hs].
  - apply wp_ret. exists T, n. split_and!; [done..|]. destruct (A !! fid) as [a|] eqn:E; [|by eexists].
    destruct (m_find _ _ _ K' _ _ E) as (_ & k & Hk & Ha). rewrite HT in Hk. injection Hk as <-. apply lookup_lt_Some in Ha. lia.
  - destruct (mFieldArray m !! Z.to_nat i) as [a|] eqn:Ea; [|apply lookup_ge_None in Ea; lia]. apply wp_ret. exists T, n. split_and!; [done..|].
    destruct (A !! fid) as [b|] eqn:E.
    + destruct (m_find _ _ _ K' _ _ E) as (Hb & k & Hk & Ha). rewrite HT in Hk. injection Hk as <-.
      replace (i + 1 - 1) with i in Ha by lia. rewrite Ea in Ha. injection Ha as ->. by destruct (Z.eqb_spec b 0).
    + rewrite (map_ok_empty _ A m fid i a KS' K' E (proj1 Hi) HT Ea). by eexists.
Qed.

Lemma resize_ok T A m n : map_ok T A m -> maSize m <= n -> (exists k, 1 <= k <= 1023 /\ n = 64 * k) -> map_ok T A (resize m n) /\ maSize (resize m n) = n.
Proof.
  intros [K1 K2 K3 K4] Hn Hk. split; [|done]. unfold resize. rewrite take_ge by lia. split; cbn; [|done| |].
  - rewrite length_app, length_replicate. lia.
  - intros i a Ha Hz. apply lookup_app_Some in Ha as [Ha|[_ Ha]]; [by apply K3|]. by apply lookup_replicate in Ha as [-> _].
  - intros fid a Ha. destruct (K4 fid a Ha) as (Hz & k & Hk1 & Hk2). split; [done|]. exists k. split; [done|]. by apply lookup_app_l_Some.
Qed.

Lemma map_ok_insert w A m fid i a : statics_ok w -> map_ok (mFields w) A m -> A !! fid = None -> a <> 0 -> 0 <= i < maSize m -> mFields w !! fid = Some (i + 1) ->
  map_ok (mFields w) (<[fid := a]> A) (mkMapArray (<[Z.to_nat i := a]> (mFieldArray m)) (maSize m)).
Proof.
  intros KS [K1 K2 K3 K4] Hn Ha Hi HT. split; cbn; [by rewrite length_insert|done| |].
  - intros j b Hj Hb. apply list_lookup_insert_Some in Hj as [(<- & <- & _)|[Hne Hj]].
    + exists fid. rewrite Z2Nat.id by lia. split; [done|apply lookup_insert_eq].
    + destruct (K3 j b Hj Hb) as (g & H1' & H2'). exists g. split; [done|]. rewrite lookup_insert_ne; [done|]. intros <-. congruence.
  - intros g b Hg. apply lookup_insert_Some in Hg as [[<- <-]|[Hne Hg]].
    + split; [done|]. exists (i + 1). split; [done|]. replace (i + 1 - 1) with i by lia. apply list_lookup_insert_eq. lia.
    + destruct (K4 g b Hg) as (Hb & k & Hk1 & Hk2). split; [done|]. exists k. split; [done|]. rewrite list_lookup_insert_ne; [done|].
      intros E. apply Hne. eapply (s_inj w KS); [exact HT|]. rewrite Hk1. f_equal. pose proof (s_range w KS _ _ Hk1). lia.
Qed.

Lemma add_ok w A m fid a f : statics_ok w -> mMap (cache w) = Some m -> map_ok (mFields w) A m -> allocs w = [] -> A !! fid = None -> a <> 0 ->
  fields w !! a = Some f -> mFid f = fid -> 0 <= fid < MAX_FID ->
  wp (mamaFieldCacheMapArray_add a) w (fun r w' => r = MAMA_STATUS_OK /\ exists T n m',
    w' = put_cache (put_map (cache w) (Some m') (mSize (cache w))) (put_statics T n w) /\ statics_ok w' /\ map_ok T (<[fid := a]> A) m').
Proof.
  intros KS Hm K HA Hn Ha Hf <- Hr. unfold mamaFieldCacheMapArray_add, the_map. apply wp_bind, wp_bind, wp_gets. rewrite Hm. apply wp_ret.
  apply wp_bind. unfold get_field, wp at 1. rewrite Hf. apply wp_bind. eapply wp_mono; [by apply convertFid_ok|].
  cbn beta. intros i w' (T & n & -> & KS' & Hi & HT & HI). pose proof (map_ok_statics _ _ _ _ K HI) as K'. pose proof (m_len _ _ _ K) as L.
  assert ((i <? maSize m) && negb (default 0 (mFieldArray m !! Z.to_nat i) =? 0) = false) as ->.
  { destruct (mFieldArray m !! Z.to_nat i) as [b|] eqn:Eb; [|apply andb_false_r].
    rewrite (map_ok_empty _ A m (mFid f) i b KS' K' Hn (proj1 Hi) HT Eb). apply andb_false_r. }
  apply wp_bind. eapply (wp_mono _ _ (fun g w1 => w1 = put_statics T n w /\ exists m1, g = Some m1 /\ map_ok T A m1 /\ i < maSize m1)).
  - destruct (Z.leb_spec (maSize m) i) as [Hs|Hs]; [|apply wp_ret; split; [done|]; by exists m].
    destruct (m_chunks _ _ _ K) as (k & Hk & Hk').
    assert (1 <= k /\ k <= i / 64 /\ i / 64 + 1 <= 1023) as (B1 & B2 & B3).
    { unfold MAX_FID in *. split; [lia|]. split; [apply Z.div_le_lower_bound; lia|]. pose proof (Z.div_lt_upper_bound i 64 1023 ltac:(lia) ltac:(lia)). lia. }
    rewrite Hk', grow_loop_ok; [|done|lia|done|unfold GROW_FUEL; lia]. apply wp_bind. unfold alloc, wp at 1. cbn [allocs put_statics]. rewrite HA.
    apply wp_ret. split; [done|]. eexists; split; [done|]. destruct (resize_ok T A m (64 * (i / 64 + 1)) K') as [R1 R2]; [lia|exists (i / 64 + 1); lia|].
    split; [done|]. rewrite R2. pose proof (Z.mul_succ_div_gt i 64 ltac:(lia)). lia.
  - cbn beta. intros g w1 [-> (m1 & -> & K1 & Hi1)]. rewrite <- (m_len _ _ _ K1) in Hi1. destruct (Z.leb_spec (Z.of_nat (length (mFieldArray m1))) i); [lia|].
    apply wp_bind. unfold put_map_array. apply wp_modify, wp_ret. split; [done|]. eexists T, n, _. split; [done|]. split.
    + by destruct KS' as [Q1 Q2 Q3]; split.
    + rewrite (m_len _ _ _ K1) in Hi1. apply (map_ok_insert (put_statics T n w)); try done; cbn; lia || done.
Qed.

(** ** Values *)

(** Types whose values can be stored from a message and published. *)
Definition storable (t : mamaFieldType) : bool :=
  match kind_of t with KQuantity | KUnsupported | KObjects => false | _ => true end.

Definition nonempty (c : content) : Prop := c <> Scalars [] /\ c <> Strs [].

Context (types : Z -> mamaFieldType).

(** A field as the dictionary, [types], has it, with a value that is not an empty
    array. *)
Definition entry_ok (e : entry) : Prop :=
  0 <= e_fid e < MAX_FID /\ e_type e = types (e_fid e) /\ storable (e_type e) = true /\ content_ok (e_type e) (e_content e) /\ nonempty (e_content e).

Lemma storable_supported t : storable t = true -> mamaFieldCacheField_isSupported t = true.
Proof. by destruct t. Qed.

Lemma nonempty_readable c : nonempty c -> readable c = Some c.
Proof. intros [N1 N2]. by destruct c as [| | |[]| |]. Qed.

(** The cache with the fields at the addresses [A], the values [V] (but for the
    identifier [hole], whose field has no value yet), and [xs] the fields that
    changed. *)
Record cache_ok (hole : option Z) (w : world) (A : gmap Z Z) (V : gmap Z content) (xs : list Z) : Prop := {
  c_statics : statics_ok w;
  c_map : exists m, mMap (cache w) = Some m /\ map_ok (mFields w) A m;
  c_size : mSize (cache w) = Z.of_nat (size A);
  c_mode : mCachePayload (cache w) = false /\ mCacheMsg (cache w) = None /\ allocs w = [] /\ mTrackModified (cache w) = true;
  c_heap : forall a f, fields w !! a = Some f -> 0 < a < fbrk w;
  c_brk : 0 < fbrk w;
  c_field : forall fid a, A !! fid = Some a -> exists f, fields w !! a = Some f /\ mFid f = fid /\ mType f = types fid /\
    data_ok f /\ mPublish f = true /\ 0 <= fid < MAX_FID /\ storable (types fid) = true;
  c_value : forall fid a f, A !! fid = Some a -> fields w !! a = Some f -> hole <> Some fid ->
    exists c, field_value f = Some c /\ V !! fid = Some c /\ content_ok (types fid) c /\ nonempty c;
  c_dom : forall fid, A !! fid = None -> V !! fid = None;
  c_modified : holds (mModifiedFields (cache w)) xs;
  c_nodup : NoDup xs;
  c_flag : forall fid a f, A !! fid = Some a -> fields w !! a = Some f -> (a ∈ xs <-> mIsModified f = true);
  c_listed : forall a, a ∈ xs -> exists fid, A !! fid = Some a;
  c_always : holds (mAlwaysPublishFields (cache w)) [];
}.

Lemma address_inj hole w A V xs fid fid' a : cache_ok hole w A V xs -> A !! fid = Some a -> A !! fid' = Some a -> fid = fid'.
Proof.
  intros K Ha Ha'. destruct (c_field _ _ _ _ _ K _ _ Ha) as (f & Hf & <- & _). destruct (c_field _ _ _ _ _ K _ _ Ha') as (f' & Hf' & <- & _). congruence.
Qed.

Lemma modified_bounded hole w A V xs : cache_ok hole w A V xs -> Z.of_nat (length xs) <= MAX_FID.
Proof.
  intros K. set (fid_of := fun a => match fields w !! a with Some f => mFid f | None => 0 end).
  assert (forall a, a ∈ xs -> A !! fid_of a = Some a) as HA.
  { intros a Ha. destruct (c_listed _ _ _ _ _ K a Ha) as [fid Hf]. destruct (c_field _ _ _ _ _ K _ _ Hf) as (f & Hl & E & _). unfold fid_of. by rewrite Hl, E. }
  pose proof (NoDup_interval_length (fid_of <$> xs) 0 MAX_FID) as L. rewrite length_fmap, Z.sub_0_r in L. apply L; [| |done].
  - apply NoDup_fmap_2_strong; [|apply K]. intros a b Ha Hb E. apply HA in Ha, Hb. rewrite E in Ha. congruence.
  - intros p Hp. apply list_elem_of_fmap in Hp as (a & -> & Ha). apply HA in Ha. destruct (c_field _ _ _ _ _ K _ _ Ha) as (f & _ & _ & _ & _ & _ & R & _). done.
Qed.

(** A field of a message that is read as the entry [e]. *)
Definition reads (e : entry) (mf : mamaMsgField) : Prop :=
  mf_fid mf = (MAMA_STATUS_OK, e_fid e) /\ mf_type mf = (MAMA_STATUS_OK, e_type e) /\ mf_get mf (e_type e) = Some (e_content e).

(** ** Storing the value *)

Lemma on_field_ok (w : world) a f op st f' : fields w !! a = Some f -> op f = Ok (st, f') ->
  on_field a op w = Ok (st, put_fields (<[a := f']> (fields w)) (fbrk w) w).
Proof. intros Hf Ho. unfold on_field, mbind, M_bind, get_field. rewrite Hf. unfold lift. by rewrite Ho. Qed.

(** The type of the field decides which accessor is called on the message and on
    the field; prices and dates go through the objects of the cache. *)
Lemma store_value_ok (w : world) mf a f c : storable (mType f) = true -> fields w !! a = Some f -> data_ok f ->
  mf_get mf (mType f) = Some c -> content_ok (mType f) c -> nonempty c ->
  wp (store_value garbage (mType f) mf a) w (fun _ w' => exists f' d p, data_ok f' /\ keeps f f' /\ field_value f' = Some c /\
    w' = put_fields (<[a := f']> (fields w)) (fbrk w) (put_cache (put_reusable (cache w) d p) w)).
Proof.
  intros Ht Hf K Hg Hc Hn. pose proof (set_value_outcome (mType f) f c Hc K) as O. unfold outcome in O. rewrite decide_True in O by done.
  destruct O as (f' & O & O1 & O2 & O3). rewrite nonempty_readable in O3 by done.
  assert (forall op st (w0 : world), fields w0 = fields w -> fbrk w0 = fbrk w -> op f = Ok (st, f') ->
    (exists d p, w0 = put_cache (put_reusable (cache w) d p) w) ->
    wp (on_field a op) w0 (fun _ w' => exists f' d p, data_ok f' /\ keeps f f' /\ field_value f' = Some c /\
      w' = put_fields (<[a := f']> (fields w)) (fbrk w) (put_cache (put_reusable (cache w) d p) w))) as HW.
  { intros op st w0 E1 E2 Ho (d & p & ->). unfold wp. erewrite on_field_ok by done. exists f', d, p. by split_and!. }
  assert (exists d p, w = put_cache (put_reusable (cache w) d p) w) as HR.
  { exists (mReusableDateTime (cache w)), (mReusablePrice (cache w)). by destruct w as [? ? ? ? [] ?]. }
  destruct (mType f) eqn:E; try done; destruct c; try done; cbn [set_value] in O; unfold store_value;
    unfold msg_scalar, msg_string, msg_vector, msg_strings; rewrite ?Hg; cbn [fst snd]; try (by eapply HW; [done..|exact O|exact HR]).
  all: apply wp_bind, wp_modify, wp_bind, wp_gets; unfold msg_object; rewrite Hg; eapply HW; [done..|exact O|]; eexists _, _; reflexivity.
Qed.

(** ** Applying a field *)

Lemma cache_ok_hole w A V xs fid : cache_ok None w A V xs -> cache_ok (Some fid) w A V xs.
Proof. intros [K1 K2 K3 K4 K5 K6 K7 K8 K9 K10 K11 K12 K13 K14]. split; try done. intros g a f Ha Hf _. by apply (K8 g a f). Qed.

(** The numbers of the identifiers may grow. *)
Lemma cache_ok_statics hole w A V xs T n m : cache_ok hole w A V xs -> statics_ok (put_statics T n w) -> mMap (cache w) = Some m -> map_ok T A m ->
  cache_ok hole (put_statics T n w) A V xs.
Proof. intros [K1 K2 K3 K4 K5 K6 K7 K8 K9 K10 K11 K12 K13 K14] KS Hm K. split; try done. by exists m. Qed.

(** A new field at a new address. *)
Lemma cache_ok_new w A V xs f T n m' fid : cache_ok None w A V xs -> A !! fid = None ->
  let a := fbrk w in
  let w' := put_cache (put_map (cache w) (Some m') (mSize (cache w) + 1)) (put_statics T n (put_fields (<[a := f]> (fields w)) (a + 1) w)) in
  statics_ok w' -> map_ok T (<[fid := a]> A) m' ->
  mFid f = fid -> mType f = types fid -> data_ok f -> mPublish f = true -> mIsModified f = false -> 0 <= fid < MAX_FID -> storable (types fid) = true ->
  cache_ok (Some fid) w' (<[fid := a]> A) V xs.
Proof.
  intros K Hn a w' KS KM F1 F2 F3 F4 F5 F6 F7. pose proof K as [K1 K2 K3 K4 K5 K6 K7 K8 K9 K10 K11 K12 K13 K14].
  assert (fields w !! a = None) as Hfree by (destruct (fields w !! a) as [g|] eqn:E; [apply K5 in E; unfold a in E; lia|done]).
  assert (forall g b h, A !! g = Some b -> <[a := f]> (fields w) !! b = Some h -> fields w !! b = Some h) as HO.
  { intros g b h Hg Hb. rewrite lookup_insert_ne in Hb; [done|]. intros <-. destruct (K7 g a Hg) as (h' & Hh & _). congruence. }
  split; cbn; try done.
  - by exists m'.
  - rewrite map_size_insert_None by done. lia.
  - intros b h Hb. apply lookup_insert_Some in Hb as [[<- _]|[_ Hb]]; [unfold a; lia|]. apply K5 in Hb. unfold a. lia.
  - unfold a. lia.
  - intros g b Hg. apply lookup_insert_Some in Hg as [[<- <-]|[Hne Hg]].
    + exists f. rewrite lookup_insert_eq. split_and!; try done; lia.
    + destruct (K7 g b Hg) as (h & Hh & R). exists h. rewrite lookup_insert_ne; [by split|]. intros <-. congruence.
  - intros g b h Hg Hb Hh. assert (fid <> g) as Hne by congruence. rewrite lookup_insert_ne in Hg by done. apply (K8 g b h); [done|by eapply HO|done].
  - intros g Hg. apply K9. by apply lookup_insert_None in Hg as [? _].
  - intros g b h Hg Hb. apply lookup_insert_Some in Hg as [[<- <-]|[Hne Hg]].
    + rewrite lookup_insert_eq in Hb. injection Hb as <-. rewrite F5. split; [|done]. intros Ha. destruct (K13 a Ha) as [g Hg].
      destruct (K7 g a Hg) as (h & Hh & _). congruence.
    + apply (K12 g b h); [done|by eapply HO].
  - intros b Hb. destruct (K13 b Hb) as [g Hg]. exists g. rewrite lookup_insert_ne; [done|]. intros <-. congruence.
Qed.

(** A change of the field at [a] that leaves its place in the lists as it is. *)
Lemma cache_ok_field hole w A V xs fid a f f' V' d p : cache_ok (Some fid) w A V xs -> A !! fid = Some a -> fields w !! a = Some f ->
  data_ok f' -> keeps f f' -> (forall g, g <> fid -> V' !! g = V !! g) ->
  (hole = None -> exists c, field_value f' = Some c /\ V' !! fid = Some c /\ content_ok (types fid) c /\ nonempty c) -> (hole = None \/ hole = Some fid) ->
  cache_ok hole (put_fields (<[a := f']> (fields w)) (fbrk w) (put_cache (put_reusable (cache w) d p) w)) A V' xs.
Proof.
  intros K Ha Hf F1 F2 HV HH Hhole. pose proof K as [K1 K2 K3 K4 K5 K6 K7 K8 K9 K10 K11 K12 K13 K14].
  destruct F2 as (F2 & F3 & F4 & F5 & F6 & F7 & F8).
  assert (forall g b, A !! g = Some b -> g <> fid -> b <> a) as HA by (intros g b Hg Hne ->; by apply Hne, (address_inj _ _ _ _ _ _ _ _ K Hg Ha)).
  split; cbn; try done.
  - by destruct K1 as [Q1 Q2 Q3]; split.
  - intros b h Hb. apply lookup_insert_Some in Hb as [[<- _]|[_ Hb]]; [by eapply K5|by eapply K5].
  - intros g b Hg. destruct (K7 g b Hg) as (h & Hh & R1 & R2 & R3 & R4 & R5). destruct (decide (b = a)) as [->|Hne].
    + exists f'. rewrite lookup_insert_eq. rewrite Hf in Hh. injection Hh as <-. split_and!; [done|congruence|congruence|done|congruence|apply R5..].
    + exists h. rewrite lookup_insert_ne by done. split_and!; done || apply R5.
  - intros g b h Hg Hb Hh. destruct (decide (g = fid)) as [->|Hne].
    + destruct Hhole as [->| ->]; [|done]. rewrite Ha in Hg. injection Hg as <-. rewrite lookup_insert_eq in Hb. injection Hb as <-. by apply HH.
    + rewrite lookup_insert_ne in Hb by (symmetry; by eapply HA). rewrite HV by done. apply (K8 g b h); [done..|]. intros [= ->]. done.
  - intros g Hg. destruct (decide (g = fid)) as [->|Hne]; [congruence|]. rewrite HV by done. by apply K9.
  - intros g b h Hg Hb. destruct (decide (b = a)) as [->|Hne].
    + rewrite lookup_insert_eq in Hb. injection Hb as <-. rewrite F8. by apply (K12 g a f).
    + rewrite lookup_insert_ne in Hb by done. by apply (K12 g b h).
Qed.

Lemma field_for_ok w A V xs e mf : cache_ok None w A V xs -> entry_ok e -> reads e mf ->
  wp (field_for mf) w (fun r w' => exists A' a, r = (MAMA_STATUS_OK, a, e_type e) /\ A' !! e_fid e = Some a /\
    (forall g, g <> e_fid e -> A' !! g = A !! g) /\ cache_ok (Some (e_fid e)) w' A' V xs).
Proof.
  intros K (E1 & E2 & E3 & E4 & E5) (R1 & R2 & R3). unfold field_for. rewrite R1, R2. cbn [fst snd]. destruct (c_map _ _ _ _ _ K) as (m & Hm & KM).
  apply wp_bind. eapply wp_mono; [by eapply find_ok; [apply K|..]|]. cbn beta. intros r w1 (T & n & -> & KS & KM' & Hr).
  pose proof (cache_ok_statics _ _ _ _ _ T n m K KS Hm KM') as K'. destruct (A !! e_fid e) as [a|] eqn:EA.
  - subst r. destruct (c_field _ _ _ _ _ K' _ _ EA) as (f & Hf & F1 & F2 & _). apply wp_bind. unfold get_field, wp at 1. rewrite Hf. apply wp_ret.
    exists A, a. rewrite F2, E2. split_and!; [done..|]. by apply cache_ok_hole.
  - destruct Hr as [o ->]. cbn [status_ok negb]. apply wp_bind, wp_gets, wp_bind. set (w1 := put_statics T n w) in *.
    unfold new_field. rewrite storable_supported by done. apply wp_bind. unfold alloc, wp at 1. change (allocs w1) with (allocs w).
    destruct (c_mode _ _ _ _ _ K) as (M1 & M2 & M3 & M4). rewrite M3. unfold mamaFieldCacheField_create. rewrite storable_supported by done. cbn [negb].
    apply wp_bind, wp_gets, wp_bind, wp_modify, wp_ret. cbn [snd]. set (f := mkField _ _ _ _ _ _ _ _ _ _). set (a := fbrk w1).
    assert (data_ok f) as Kf.
    { eapply (created_ok true (e_fid e) (e_type e)). unfold mamaFieldCacheField_create. rewrite storable_supported by done. reflexivity. }
    assert (0 < a) as Ha by apply (c_brk _ _ _ _ _ K). apply wp_bind. set (w2 := put_fields _ _ _).
    eapply wp_mono; [eapply (add_ok w2 A m (e_fid e) a f); try done|].
    + by destruct KS as [Q1 Q2 Q3]; split.
    + lia.
    + apply lookup_insert_eq.
    + cbn beta. intros r w3 (-> & T3 & n3 & m3 & -> & KS3 & KM3). cbn [status_ok negb]. apply wp_bind, wp_modify, wp_bind.
      assert (forall f', keeps f (put_descriptor f' 0) -> data_ok f' -> mDescriptor f' = mDescriptor f' ->
        cache_ok (Some (e_fid e)) (put_cache (put_map (cache w) (Some m3) (mSize (cache w) + 1))
          (put_statics T3 n3 (put_fields (<[a := f']> (fields w)) (a + 1) w))) (<[e_fid e := a]> A) V xs) as HN.
      { intros f' (N1 & N2 & N3 & N4 & N5 & N6 & N7) N8 _. apply cache_ok_new; try done; cbn in *; try congruence.
        by destruct KS3 as [Q1 Q2 Q3]; split. }
      assert (exists A' a0, (MAMA_STATUS_OK, a, e_type e) = (MAMA_STATUS_OK, a0, e_type e) /\ A' !! e_fid e = Some a0 /\
        (forall g, g <> e_fid e -> A' !! g = A !! g) /\ A' = <[e_fid e := a]> A) as HX.
      { exists (<[e_fid e := a]> A), a. split_and!; [done|apply lookup_insert_eq|intros g Hg; by rewrite lookup_insert_ne|done]. }
      destruct (mf_descriptor mf =? 0).
      * apply wp_ret, wp_ret. destruct HX as (A' & a0 & X1 & X2 & X3 & ->). exists (<[e_fid e := a]> A), a0. split_and!; [done..|]. by apply (HN f).
      * apply wp_bind. unfold wp at 1. erewrite on_field_ok; [|apply lookup_insert_eq|reflexivity]. apply wp_ret, wp_ret.
        destruct HX as (A' & a0 & X1 & X2 & X3 & ->). exists (<[e_fid e := a]> A), a0. split_and!; [done..|].
        specialize (HN (put_descriptor f (mf_descriptor mf))). unfold put_fields, put_cache, put_statics in *. cbn in *. rewrite insert_insert_eq. by apply HN.
Qed.

(** The field is marked as changed, and listed once. *)
Lemma mark_ok hole w A V xs fid a f : cache_ok hole w A V xs -> A !! fid = Some a -> fields w !! a = Some f ->
  wp (if mTrackModified (cache w) && mPublish f && negb (mIsModified f) then put_field a (put_modified true f) ;; add_modified a else mret tt) w
    (fun _ w' => exists xs' f', cache_ok hole w' A V xs' /\ fields w' !! a = Some f' /\ a ∈ xs' /\ (forall b, b ∈ xs' <-> b ∈ xs \/ b = a)).
Proof.
  intros K Ha Hf. pose proof K as [K1 K2 K3 K4 K5 K6 K7 K8 K9 K10 K11 K12 K13 K14].
  destruct K4 as (M1 & M2 & M3 & M4). destruct (K7 _ _ Ha) as (f0 & Hf0 & F1 & F2 & F3 & F4 & F5). rewrite Hf in Hf0. injection Hf0 as <-.
  rewrite M4, F4. cbn [andb]. destruct (mIsModified f) eqn:EM; cbn [negb].
  { apply wp_ret. assert (a ∈ xs) as Hx by (by apply (K12 fid a f)). exists xs, f. split_and!; [done..|]. intros b. split; [by left|]. by intros [?| ->]. }
  assert (a ∉ xs) as Hx by (intros Hx; apply (K12 fid a f) in Hx; [congruence|done..]).
  apply wp_bind, wp_modify. unfold add_modified. apply wp_bind, wp_gets, wp_bind. unfold lift, wp at 1.
  pose proof (modified_bounded _ _ _ _ _ K) as B. unfold MAX_FID in B.
  destruct (holds_add (mModifiedFields (cache w)) xs a K10 ltac:(lia)) as (l' & Hl & HL'). cbn [cache put_fields]. rewrite Hl. apply wp_modify. cbn [snd].
  exists (xs ++ [a]), (put_modified true f). split_and!.
  - split; cbn; try done.
    + by destruct K1 as [Q1 Q2 Q3]; split.
    + intros b h Hb. apply lookup_insert_Some in Hb as [[<- _]|[_ Hb]]; by eapply K5.
    + intros g b Hg. destruct (K7 g b Hg) as (h & Hh & R). destruct (decide (b = a)) as [->|Hne].
      * rewrite Hf in Hh. injection Hh as <-. eexists; split; [apply lookup_insert_eq|]. exact R.
      * exists h. by rewrite lookup_insert_ne.
    + intros g b h Hg Hb Hh. apply lookup_insert_Some in Hb as [[<- <-]|[Hne Hb]]; [by apply (K8 g a f)|by apply (K8 g b h)].
    + apply NoDup_app. split_and!; [done| |apply NoDup_singleton]. intros b Hb Hb'. apply list_elem_of_singleton in Hb' as ->. done.
    + intros g b h Hg Hb. rewrite elem_of_app, list_elem_of_singleton. apply lookup_insert_Some in Hb as [[<- <-]|[Hne Hb]]; [cbn; tauto|].
      rewrite (K12 g b h Hg Hb). split; [|by left]. intros [?| ->]; done.
    + intros b Hb. apply elem_of_app in Hb as [Hb|Hb]; [by apply K13|]. apply list_elem_of_singleton in Hb as ->. by exists fid.
  - cbn. apply lookup_insert_eq.
  - apply elem_of_app. right. by apply list_elem_of_singleton.
  - intros b. by rewrite elem_of_app, list_elem_of_singleton.
Qed.

(** What the application of an entry leaves of the fields and the changes. *)
Definition grows (fid : Z) (A : gmap Z Z) (xs : list Z) (A' : gmap Z Z) (xs' : list Z) : Prop :=
  (exists a, A' !! fid = Some a /\ a ∈ xs') /\ (forall g, g <> fid -> A' !! g = A !! g) /\ (forall b, b ∈ xs' <-> b ∈ xs \/ A' !! fid = Some b).

Lemma update_ok w A V xs e mf : cache_ok None w A V xs -> entry_ok e -> reads e mf ->
  wp (mamaFieldCache_updateCacheFromMsgField garbage mf) w (fun r w' => r = MAMA_STATUS_OK /\
    exists A' xs', cache_ok None w' A' (<[e_fid e := e_content e]> V) xs' /\ grows (e_fid e) A xs A' xs').
Proof.
  intros K HE HR. pose proof HE as (E1 & E2 & E3 & E4 & E5). pose proof HR as (R1 & R2 & R3). unfold mamaFieldCache_updateCacheFromMsgField.
  rewrite R1. cbn [fst status_ok negb]. apply wp_bind. eapply wp_mono; [by eapply field_for_ok|]. cbn beta. intros r w1 (A' & a & -> & HA & HO & K1).
  cbn [status_ok negb]. destruct (c_field _ _ _ _ _ K1 _ _ HA) as (f & Hf & F1 & F2 & F3 & F4 & F5 & F6).
  apply wp_bind, wp_gets, wp_bind. unfold get_field, wp at 1. rewrite Hf. apply wp_bind. eapply wp_mono; [by eapply mark_ok|].
  cbn beta. intros _ w2 (xs' & f2 & K2 & Hf2 & Hx & HX). apply wp_bind.
  destruct (c_field _ _ _ _ _ K2 _ _ HA) as (f2' & Hf2' & G1 & G2 & G3 & G4 & _). rewrite Hf2 in Hf2'. injection Hf2' as <-.
  assert (e_type e = mType f2) as ET by congruence. rewrite ET in *.
  eapply wp_mono; [eapply store_value_ok; done|]. cbn beta. intros _ w3 (f3 & d & p & D1 & D2 & D3 & ->). apply wp_ret. split; [done|].
  exists A', xs'. split.
  - eapply (cache_ok_field None _ _ V _ (e_fid e) a f2); try done; [by intros g Hg; rewrite lookup_insert_ne| |by left].
    intros _. exists (e_content e). rewrite lookup_insert_eq, <- G2. done.
  - split_and!; [by exists a|done|]. intros b. rewrite HX, HA. split; (intros [|E]; [by left|right; congruence]).
Qed.

(** ** Applying a message *)

Definition apply_entries (l : list entry) (V : gmap Z content) : gmap Z content := foldl (fun V e => <[e_fid e := e_content e]> V) V l.

(** The fields that were there stay where they are; those of the message have
    changed, and no other ones. *)
Definition grows_all (l : list entry) (A : gmap Z Z) (xs : list Z) (A' : gmap Z Z) (xs' : list Z) : Prop :=
  (forall e, e ∈ l -> exists a, A' !! e_fid e = Some a /\ a ∈ xs') /\
  (forall g, g ∉ e_fid <$> l -> A' !! g = A !! g /\ forall a, A' !! g = Some a -> (a ∈ xs' <-> a ∈ xs)) /\
  (forall b, b ∈ xs -> b ∈ xs').

Lemma apply_fields_ok l mfs : Forall2 reads l mfs -> Forall entry_ok l -> forall w A V xs, cache_ok None w A V xs ->
  wp (apply_fields garbage mfs) w (fun r w' => r = MAMA_STATUS_OK /\
    exists A' xs', cache_ok None w' A' (apply_entries l V) xs' /\ grows_all l A xs A' xs').
Proof.
  induction 1 as [|e mf l mfs HR HRs IH]; intros HE w A V xs K; cbn [apply_fields].
  - apply wp_ret. split; [done|]. exists A, xs. split; [done|]. split_and!; [by intros e He; apply elem_of_nil in He|done..].
  - inversion_clear HE as [|? ? HE1 HE2]. apply wp_bind. eapply wp_mono; [by eapply update_ok|]. cbn beta. intros r w1 (-> & A1 & xs1 & K1 & (a & Ha & Hx) & G2 & G3).
    cbn [status_ok]. eapply wp_mono; [by eapply IH|]. cbn beta. intros r w2 (-> & A2 & xs2 & K2 & H1 & H2 & H3). split; [done|]. exists A2, xs2. split; [done|].
    split_and!.
    + intros e' He'. destruct (decide (e_fid e' ∈ e_fid <$> l)) as [Hin|Hin].
      * apply list_elem_of_fmap in Hin as (e2 & E2 & He2). rewrite E2. by apply H1.
      * apply elem_of_cons in He' as [->|He']; [|by exfalso; apply Hin, list_elem_of_fmap_2]. destruct (H2 _ Hin) as [E2 E3].
        exists a. rewrite E2. split; [done|]. apply E3; [by rewrite E2|done].
    + intros g Hg. rewrite fmap_cons, not_elem_of_cons in Hg. destruct Hg as [Hg1 Hg2]. destruct (H2 g Hg2) as [E2 E3].
      rewrite E2, G2 by done. split; [done|]. intros b Hb. rewrite E3 by (by rewrite E2, G2). rewrite G3. split; [|by left]. intros [|Hb2]; [done|].
      exfalso. apply Hg1. eapply (address_inj _ _ _ _ _ _ _ _ K1); [|exact Hb2]. by rewrite G2.
    + intros b Hb. apply H3, G3. by left.
Qed.

Lemma applyMessage_ok w A V xs m : cache_ok None w A V xs -> Forall entry_ok (msg_entries m) ->
  wp (mamaFieldCache_applyMessage garbage m) w (fun r w' => r = MAMA_STATUS_OK /\
    exists A' xs', cache_ok None w' A' (apply_entries (msg_entries m) V) xs' /\ grows_all (msg_entries m) A xs A' xs').
Proof.
  intros K HE. unfold mamaFieldCache_applyMessage. apply wp_bind, wp_gets. destruct (c_mode _ _ _ _ _ K) as (-> & _). apply apply_fields_ok; [|done..].
  apply entries_iterate.
Qed.

(** ** Writing fields to a message *)

(** The entries of a message after writing [es] to it. *)
Definition write_entries (useUpdate : bool) (es l : list entry) : list entry :=
  foldl (fun l e => if useUpdate then upsert e l else l ++ [e]) l es.

Lemma write_entries_add es l : write_entries false es l = l ++ es.
Proof.
  revert l. induction es as [|e es IH]; intros l; [by rewrite app_nil_r|].
  change (write_entries false es (l ++ [e]) = l ++ e :: es). rewrite IH. by rewrite <- app_assoc.
Qed.

(** The field of the cache as an entry. *)
Definition entry_of (f : mamaFieldCacheFieldImpl) : entry := mkEntry (mFid f) (mType f) (default (Scalar 0) (field_value f)).

Definition publishable (f : mamaFieldCacheFieldImpl) : Prop :=
  data_ok f /\ storable (mType f) = true /\ exists c, field_value f = Some c.

Lemma write_message_ok (m : msg) (upd : bool) name fid t c :
  msg_entries ((if upd then mamaMsg_update m name fid t c else mamaMsg_add m name fid t c).2) = write_entries upd [mkEntry fid t c] (msg_entries m).
Proof. destruct upd; cbn; [apply entries_update|apply entries_add]. Qed.

Lemma publish_ok (w : world) a f m upd : fields w !! a = Some f -> publishable f ->
  exists st m', mamaFieldCache_updateMsgField garbage descriptor_name a m upd w = Ok ((st, m'), w) /\
    msg_entries m' = write_entries upd [entry_of f] (msg_entries m).
Proof.
  intros Hf (K & Ht & c & Hc). unfold mamaFieldCache_updateMsgField, mbind, M_bind, get_field, gets. rewrite Hf.
  set (name := if mUseFieldNames (cache w) then _ else _). unfold entry_of. rewrite Hc. cbn [from_option]. unfold Datatypes.id.
  assert (forall t c', mType f = t -> c' = c ->
    exists st m', (mret (if upd then mamaMsg_update m name (mFid f) t c' else mamaMsg_add m name (mFid f) t c') : M world _) w = Ok ((st, m'), w) /\
      msg_entries m' = write_entries upd [mkEntry (mFid f) t c] (msg_entries m)) as HW.
  { intros t c' _ ->. exists (if upd then mamaMsg_update m name (mFid f) t c else mamaMsg_add m name (mFid f) t c).1,
      (if upd then mamaMsg_update m name (mFid f) t c else mamaMsg_add m name (mFid f) t c).2.
    split; [|apply write_message_ok]. destruct upd; [by destruct (mamaMsg_update m name (mFid f) t c)|by destruct (mamaMsg_add m name (mFid f) t c)]. }
  assert (forall t, Scalar <$> (get_scalar t f).2 = Some c -> Scalar (written garbage (get_scalar t f)) = c) as HS.
  { intros t E. unfold written. destruct (get_scalar t f).2 as [z|]; cbn in *; congruence. }
  assert (forall t, mType f = t -> Scalars <$> read_elements (get_vector t f).2 = Some c ->
    exists st m', match (get_vector t f).2 with
      | Some (Some l, size) => fun w => match elements_at l size w with
          | Ok (l, w) => (mret (if upd then mamaMsg_update m name (mFid f) t (Scalars l) else mamaMsg_add m name (mFid f) t (Scalars l)) : M world _) w
          | Fail e => Fail e end
      | _ => (mret (MAMA_STATUS_INVALID_ARG, m) : M world _) end w = Ok ((st, m'), w) /\
      msg_entries m' = write_entries upd [mkEntry (mFid f) t c] (msg_entries m)) as HV.
  { intros t Et E. destruct (get_vector t f).2 as [[[l|] n]|]; try done. unfold read_elements in E. unfold elements_at. destruct (_ <? _); [done|].
    apply HW; [done|]. cbn in E. congruence. }
  destruct (mType f) eqn:E; try done;
    try (apply HW; [done|]; apply HS; rewrite <- Hc; by eapply get_scalar_is);
    try (apply HV; [done|]; rewrite <- Hc; by eapply get_vector_is).
  - pose proof K as K'. unfold data_ok in K'. rewrite E in K'. cbn in K'. destruct K' as [_ K']. unfold field_value in Hc. rewrite E in Hc. cbn in Hc.
    unfold mamaFieldCacheField_getString, get_vector. rewrite decide_True by done. cbn [snd]. destruct (mData f) as [|b l| |] eqn:D; try done.
    destruct (K' _ _ eq_refl) as (s & -> & Hs & _). rewrite decide_True by (apply elem_of_app; right; by apply list_elem_of_singleton). apply HW; [done|congruence].
  - pose proof (get_object_is MAMA_FIELD_TYPE_TIME f eq_refl E K) as G. rewrite Hc in G. unfold mamaFieldCacheField_getDateTime.
    destruct (get_object _ f).2 as [[o|]|]; try done. apply HW; [done|congruence].
  - pose proof (get_object_is MAMA_FIELD_TYPE_PRICE f eq_refl E K) as G. rewrite Hc in G. unfold mamaFieldCacheField_getPrice.
    destruct (get_object _ f).2 as [[o|]|]; try done. apply HW; [done|congruence].
  - pose proof K as K'. unfold data_ok in K'. rewrite E in K'. cbn [kind_of] in K'.
    pose proof (get_items_is as_str Strs MAMA_FIELD_TYPE_VECTOR_STRING str_item f K' E) as G.
    assert (field_value f = match mData f with dVector v => Strs <$> mapM as_str (take (Z.to_nat (mVectorSize f)) (items v)) | _ => None end) as EV
      by (unfold field_value; by rewrite E).
    rewrite <- EV, Hc in G. unfold mamaFieldCacheField_getStringVector. destruct (get_object_vector _ f).2 as [[[l|] n]|]; try done.
    unfold read_elements in G. unfold elements_at. destruct (_ <? _); [done|]. cbn [mret M_ret] in *. cbn in G.
    change (strings_of (take (Z.to_nat n) l)) with (mapM as_str (take (Z.to_nat n) l)). destruct (mapM as_str _) as [l'|]; [|done]. apply HW; [done|cbn in G; congruence].
Qed.

(** ** The full message *)

Definition live (l : list Z) : list Z := filter (fun a => a <> 0) l.

Lemma next_from_spec l : forall i, match next_from l i with
  | None => live l = []
  | Some (a, j) => exists k, j = i + Z.of_nat k /\ live l = a :: live (drop (S k) l) /\ (k < length l)%nat
  end.
Proof.
  induction l as [|a l IH]; intros i; [done|]. cbn [next_from]. unfold live. rewrite filter_cons. destruct (Z.eqb_spec a 0) as [->|Hn].
  - rewrite decide_False by (by intros []). specialize (IH (i + 1)). destruct (next_from l (i + 1)) as [[b j]|]; [|done].
    destruct IH as (k & -> & H1 & H2). exists (S k). split; [lia|]. split; [done|cbn; lia].
  - rewrite decide_True by done. exists O. split; [lia|]. split; [done|cbn; lia].
Qed.

Lemma full_loop_ok (w : world) arr upd : Z.of_nat (length (mFieldArray arr)) = maSize arr ->
  (forall a, a ∈ live (mFieldArray arr) -> exists f, fields w !! a = Some f /\ publishable f /\ mPublish f = true) ->
  forall fuel k m, (k <= length (mFieldArray arr))%nat -> (length (mFieldArray arr) - k < fuel)%nat ->
  exists m', full_loop garbage descriptor_name fuel arr (Z.of_nat k - 1) m upd w = Ok (m', w) /\
    exists fs, Forall2 (fun a f => fields w !! a = Some f) (live (drop k (mFieldArray arr))) fs /\ msg_entries m' = write_entries upd (entry_of <$> fs) (msg_entries m).
Proof.
  intros Hlen HF. induction fuel as [|fuel IH]; intros k m Hk Hfuel; [lia|]. cbn [full_loop].
  unfold mamaFieldCacheMapIteratorArray_hasNext, mamaFieldCacheMapIteratorArray_next, entries_from.
  replace (Z.of_nat k - 1 + 1) with (Z.of_nat k) by lia. rewrite Nat2Z.id, take_ge by lia.
  pose proof (next_from_spec (drop k (mFieldArray arr)) (Z.of_nat k)) as N. destruct (next_from _ _) as [[a j]|].
  2:{ exists m. split; [done|]. rewrite N. exists []. by split. }
  destruct N as (k' & -> & N1 & N2). rewrite drop_drop in N1. rewrite length_drop in N2. replace (k + S k')%nat with (S (k + k')) in N1 by lia.
  assert (a ∈ live (mFieldArray arr)) as Ha.
  { assert (a ∈ live (drop k (mFieldArray arr))) as Hd by (rewrite N1; left). unfold live in *. apply list_elem_of_filter in Hd as [Hz Hd].
    apply list_elem_of_filter. split; [done|]. eapply elem_of_sublist; [exact Hd|apply sublist_drop]. }
  destruct (HF a Ha) as (f & Hf & HP1 & HP2).
  destruct (publish_ok w a f m upd Hf HP1) as (st & m1 & Hp & He).
  destruct (IH (S (k + k')) m1 ltac:(lia) ltac:(lia)) as (m' & Hm & fs & HF2 & HE2).
  exists m'. split.
  - unfold mbind at 1, M_bind at 1, get_field. rewrite Hf. rewrite HP2. unfold mbind at 1, M_bind at 1. unfold mbind, M_bind. rewrite Hp. cbn [mret M_ret snd].
    replace (Z.of_nat k + Z.of_nat k') with (Z.of_nat (S (k + k')) - 1) by lia. exact Hm.
  - rewrite N1. exists (f :: fs). split; [by constructor|]. rewrite HE2, He. done.
Qed.

(** What the cache publishes. *)
Lemma cached_publishable w A V xs fid a : cache_ok None w A V xs -> A !! fid = Some a ->
  exists f c, fields w !! a = Some f /\ publishable f /\ mPublish f = true /\ entry_of f = mkEntry fid (types fid) c /\ V !! fid = Some c /\
    entry_ok (mkEntry fid (types fid) c).
Proof.
  intros K Ha. destruct (c_field _ _ _ _ _ K _ _ Ha) as (f & Hf & F1 & F2 & F3 & F4 & F5 & F6).
  destruct (c_value _ _ _ _ _ K _ _ _ Ha Hf ltac:(done)) as (c & V1 & V2 & V3 & V4). exists f, c.
  split_and!; [done| |done| |done|by split_and!; try apply F5].
  - split_and!; [done|by rewrite F2|by exists c].
  - unfold entry_of. by rewrite F1, F2, V1.
Qed.

(** The entries [es] hold values of [V]. *)
Definition values_of (V : gmap Z content) (es : list entry) : Prop := Forall (fun e => V !! e_fid e = Some (e_content e) /\ entry_ok e) es.

Lemma full_ok w A V xs : cache_ok None w A V xs ->
  exists m, mamaFieldCache_getFullMessage garbage descriptor_name msg_empty w = Ok ((MAMA_STATUS_OK, m), w) /\
    values_of V (msg_entries m) /\ (forall fid, is_Some (V !! fid) -> fid ∈ e_fid <$> msg_entries m).
Proof.
  intros K. destruct (c_mode _ _ _ _ _ K) as (_ & M2 & _). destruct (c_map _ _ _ _ _ K) as (arr & Hm & KM).
  assert (forall a, a ∈ live (mFieldArray arr) -> exists fid, A !! fid = Some a) as HL1.
  { intros a Ha. apply list_elem_of_filter in Ha as [Hz Ha]. apply list_elem_of_lookup in Ha as [i Hi].
    destruct (m_entry _ _ _ KM _ _ Hi Hz) as (fid & _ & HA). by exists fid. }
  destruct (full_loop_ok w arr false (m_len _ _ _ KM)) with (fuel := S (length (mFieldArray arr))) (k := O) (m := msg_empty) as (m & Hr & fs & HF & HE); [|lia..|].
  { intros a Ha. destruct (HL1 a Ha) as [fid HA]. destruct (cached_publishable _ _ _ _ _ _ K HA) as (f & c & R1 & R2 & R3 & _). by exists f. }
  exists m. unfold mamaFieldCache_getFullMessage, mbind, M_bind, gets. rewrite M2, Hm. unfold use_update. rewrite entries_count, entries_empty.
  change (negb (swrap 8 (Z.of_nat (length (@nil entry))) =? 0)) with false. change (Z.of_nat O - 1) with (-1) in Hr. rewrite Hr. split; [done|]. rewrite write_entries_add, entries_empty in HE. cbn [app] in HE. rewrite HE.
  rewrite drop_0 in HF. split.
  - unfold values_of. apply Forall_fmap, Forall_forall. intros f Hf. apply list_elem_of_lookup in Hf as [i Hi].
    destruct (Forall2_lookup_r _ _ _ _ _ HF Hi) as (a & Ha & Hfa). destruct (HL1 a ltac:(by eapply list_elem_of_lookup_2)) as [fid HA].
    destruct (cached_publishable _ _ _ _ _ _ K HA) as (f' & c & R1 & _ & _ & R4 & R5 & R6). rewrite Hfa in R1. injection R1 as <-. unfold compose. rewrite R4. by split.
  - intros fid [c Hc]. destruct (A !! fid) as [a|] eqn:HA; [|by rewrite (c_dom _ _ _ _ _ K) in Hc].
    destruct (m_find _ _ _ KM _ _ HA) as (Hz & n & _ & Hn). assert (a ∈ live (mFieldArray arr)) as Ha by (apply list_elem_of_filter; split; [done|by eapply list_elem_of_lookup_2]).
    apply list_elem_of_lookup in Ha as [i Hi]. destruct (Forall2_lookup_l _ _ _ _ _ HF Hi) as (f & Hfi & Hfa).
    destruct (cached_publishable _ _ _ _ _ _ K HA) as (f' & c' & R1 & _ & _ & R4 & _). rewrite Hfa in R1. injection R1 as <-.
    apply list_elem_of_fmap. exists (entry_of f). split; [by rewrite R4|]. apply list_elem_of_fmap. exists f. split; [done|]. by eapply list_elem_of_lookup_2.
Qed.

(** ** The message with the changes *)

Definition unmark (xs : list Z) (F : gmap Z mamaFieldCacheFieldImpl) : gmap Z mamaFieldCacheFieldImpl :=
  foldl (fun F a => alter (put_modified false) a F) F xs.

Lemma unmark_lookup xs : forall F a, unmark xs F !! a = if decide (a ∈ xs) then put_modified false <$> F !! a else F !! a.
Proof.
  induction xs as [|x xs IH]; intros F a; [done|]. change (unmark (x :: xs) F) with (unmark xs (alter (put_modified false) x F)). rewrite IH.
  destruct (decide (a = x)) as [->|Hne].
  - rewrite lookup_alter_eq. rewrite (decide_True _ _ (list_elem_of_here x xs)). case_decide; [|done]. by destruct (F !! x).
  - rewrite lookup_alter_ne by done. case_decide as D; case_decide as D'; try done; [by exfalso; apply D'; right|].
    by apply elem_of_cons in D' as [|].
Qed.

Lemma entry_of_unmarked f : entry_of (put_modified false f) = entry_of f.
Proof. done. Qed.

Lemma delta_loop_ok l xs upd : holds l xs -> Z.of_nat (length xs) < 2 ^ 63 -> forall ys zs (w : world) m, xs = zs ++ ys ->
  (forall a, a ∈ ys -> exists f, fields w !! a = Some f /\ publishable f) ->
  exists m', delta_loop garbage descriptor_name l (seqZ (Z.of_nat (length zs)) (Z.of_nat (length ys))) m upd w =
      Ok (m', put_fields (unmark ys (fields w)) (fbrk w) w) /\
    exists fs, Forall2 (fun a f => exists f0, fields w !! a = Some f0 /\ entry_of f0 = entry_of f) ys fs /\
      msg_entries m' = write_entries upd (entry_of <$> fs) (msg_entries m).
Proof.
  intros Hh Hl. induction ys as [|a ys IH]; intros zs w m Exs HF.
  - exists m. split; [by destruct w|]. exists []. by split.
  - rewrite seqZ_cons by (cbn; lia). cbn [delta_loop]. unfold lift. unfold mbind at 1, M_bind at 1.
    rewrite (holds_get l xs (length zs) a Hh Hl) by (rewrite Exs; by apply list_lookup_middle). cbn [snd].
    destruct (HF a (list_elem_of_here a ys)) as (f & Hf & HPf). destruct (publish_ok w a f m upd Hf HPf) as (st & m1 & Hp & He).
    unfold mbind at 1, M_bind at 1. rewrite Hp. unfold mbind at 1, M_bind at 1, get_field. rewrite Hf. unfold mbind at 1, M_bind at 1, put_field, modify. cbn [snd].
    set (w1 := put_fields _ _ w).
    destruct (IH (zs ++ [a]) w1 m1) as (m' & Hr & fs & HF2 & HE2).
    { by rewrite <- app_assoc. }
    { intros b Hb. destruct (HF b ltac:(by right)) as (g & Hg & HPg). unfold w1; cbn. destruct (decide (b = a)) as [->|Hne].
      - rewrite lookup_insert_eq. exists (put_modified false f). split; [done|]. exact HPf.
      - rewrite lookup_insert_ne by done. by exists g. }
    exists m'. replace (Z.succ (Z.of_nat (length zs))) with (Z.of_nat (length (zs ++ [a]))) by (rewrite length_app; cbn; lia).
    replace (Z.pred (Z.of_nat (length (a :: ys)))) with (Z.of_nat (length ys)) by (cbn; lia). rewrite Hr. split.
    + change (unmark (a :: ys) (fields w)) with (unmark ys (alter (put_modified false) a (fields w))).
      replace (alter (put_modified false) a (fields w)) with (<[a := put_modified false f]> (fields w)); [done|].
      apply map_eq. intros b. destruct (decide (b = a)) as [->|Hne]; [by rewrite lookup_insert_eq, lookup_alter_eq, Hf|].
      by rewrite lookup_insert_ne, lookup_alter_ne by done.
    + exists (f :: fs). split; [|by rewrite HE2, He]. constructor; [by exists f|]. eapply Forall2_impl; [exact HF2|]. cbn. intros b g (g0 & Hg0 & Eg).
      destruct (decide (b = a)) as [->|Hne]; [rewrite lookup_insert_eq in Hg0; injection Hg0 as <-; by exists f|rewrite lookup_insert_ne in Hg0 by done; by exists g0].
Qed.

(** The changes are published and none is left. *)
Lemma cache_ok_unmarked w A V xs : cache_ok None w A V xs ->
  cache_ok None (put_cache (put_lists (cache w) (mAlwaysPublishFields (cache w)) (mamaFieldCacheList_clear (mModifiedFields (cache w))))
    (put_fields (unmark xs (fields w)) (fbrk w) w)) A V [].
Proof.
  intros K. pose proof K as [K1 K2 K3 K4 K5 K6 K7 K8 K9 K10 K11 K12 K13 K14].
  assert (forall a f', unmark xs (fields w) !! a = Some f' -> exists f, fields w !! a = Some f /\ f' = (if decide (a ∈ xs) then put_modified false f else f)) as HU.
  { intros a f' Ha. rewrite unmark_lookup in Ha. case_decide; [|by exists f']. destruct (fields w !! a) as [f|]; [|done]. exists f. by injection Ha as <-. }
  split; cbn; try done.
  - by destruct K1 as [Q1 Q2 Q3]; split.
  - intros a f' Ha. destruct (HU _ _ Ha) as (f & Hf & _). by eapply K5.
  - intros fid a Ha. destruct (K7 fid a Ha) as (f & Hf & R). rewrite unmark_lookup, Hf. case_decide; eexists; split; [done|exact R|done|exact R].
  - intros fid a f' Ha Hf' _. destruct (HU _ _ Hf') as (f & Hf & ->). pose proof (K8 fid a f Ha Hf ltac:(done)) as R. by case_decide.
  - by eapply holds_clear.
  - by apply NoDup_nil.
  - intros fid a f' Ha Hf'. destruct (HU _ _ Hf') as (f & Hf & ->). split; [by intros Hx; apply elem_of_nil in Hx|]. pose proof (K12 fid a f Ha Hf) as R.
    case_decide as D; [done|]. intros HM. by apply R in HM.
  - intros a Ha. by apply elem_of_nil in Ha.
Qed.

Lemma delta_ok w A V xs : cache_ok None w A V xs ->
  exists m w', mamaFieldCache_getDeltaMessage garbage descriptor_name msg_empty w = Ok ((MAMA_STATUS_OK, m), w') /\ cache_ok None w' A V [] /\
    values_of V (msg_entries m) /\ (forall fid a, A !! fid = Some a -> a ∈ xs -> fid ∈ e_fid <$> msg_entries m).
Proof.
  intros K. destruct (c_mode _ _ _ _ _ K) as (_ & _ & _ & M4). pose proof (modified_bounded _ _ _ _ _ K) as B. unfold MAX_FID in B.
  assert (forall a, a ∈ xs -> exists fid f c, A !! fid = Some a /\ fields w !! a = Some f /\ publishable f /\ entry_of f = mkEntry fid (types fid) c /\
    V !! fid = Some c /\ entry_ok (mkEntry fid (types fid) c)) as HX.
  { intros a Ha. destruct (c_listed _ _ _ _ _ K a Ha) as [fid HA]. destruct (cached_publishable _ _ _ _ _ _ K HA) as (f & c & R1 & R2 & _ & R4 & R5 & R6).
    exists fid, f, c. by split_and!. }
  destruct (delta_loop_ok (mModifiedFields (cache w)) xs false (c_modified _ _ _ _ _ K) ltac:(lia) xs [] w msg_empty) as (m & Hr & fs & HF & HE); [done| |].
  { intros a Ha. destruct (HX a Ha) as (fid & f & c & _ & R2 & R3 & _). by exists f. }
  exists m. eexists. unfold mamaFieldCache_getDeltaMessage. unfold mbind at 1, M_bind at 1, gets. rewrite M4. cbn [negb].
  rewrite (holds_size _ [] (c_always _ _ _ _ _ K)) by (cbn; lia). change (seqZ 0 (Z.of_nat (length (@nil Z)))) with (@nil Z). cbn [delta_loop].
  rewrite (holds_size _ xs (c_modified _ _ _ _ _ K)) by lia. unfold use_update. rewrite entries_count, entries_empty.
  change (negb (swrap 8 (Z.of_nat (length (@nil entry))) =? 0)) with false. unfold mbind at 1, M_bind at 1, mret at 1, M_ret at 1.
  unfold mbind at 1, M_bind at 1. change (Z.of_nat (length (@nil Z))) with 0 in Hr. rewrite Hr. split; [reflexivity|]. split; [exact (cache_ok_unmarked w A V xs K)|].
  rewrite write_entries_add, entries_empty in HE. cbn [app] in HE. rewrite HE. split.
  - unfold values_of. apply Forall_fmap, Forall_forall. intros f Hf. apply list_elem_of_lookup in Hf as [i Hi].
    destruct (Forall2_lookup_r _ _ _ _ _ HF Hi) as (a & Ha & f0 & Hf0 & Ef). destruct (HX a ltac:(by eapply list_elem_of_lookup_2)) as (fid & f' & c & _ & R2 & _ & R4 & R5 & R6).
    unfold compose. rewrite <- Ef. rewrite Hf0 in R2. injection R2 as <-. rewrite R4. by split.
  - intros fid a HA Ha. apply list_elem_of_lookup in Ha as [i Hi]. destruct (Forall2_lookup_l _ _ _ _ _ HF Hi) as (f & Hfi & f0 & Hf0 & Ef).
    destruct (cached_publishable _ _ _ _ _ _ K HA) as (f' & c' & R1 & _ & _ & R4 & _). rewrite Hf0 in R1. injection R1 as <-.
    apply list_elem_of_fmap. exists (entry_of f). split; [by rewrite <- Ef, R4|]. apply list_elem_of_fmap. exists f. split; [done|]. by eapply list_elem_of_lookup_2.
Qed.

(** ** Replicas *)

(** Values of [V] applied to any map. *)
Lemma apply_values V es : values_of V es -> forall R g, apply_entries es R !! g = if decide (g ∈ e_fid <$> es) then V !! g else R !! g.
Proof.
  induction 1 as [|e es [He _] _ IH]; intros R g; [done|]. cbn. change (foldl _ ?x ?y) with (apply_entries y x). rewrite IH.
  case_decide as D; case_decide as D'; try done.
  - by exfalso; apply D'; right.
  - apply elem_of_cons in D' as [->|D']; [|done]. by rewrite lookup_insert_eq.
  - rewrite lookup_insert_ne; [done|]. intros <-. apply D'. left.
Qed.

(** Where nothing changed the replica has the value of the cache. *)
Definition in_step (A : gmap Z Z) (xs : list Z) (V R : gmap Z content) : Prop :=
  (forall fid, (forall a, A !! fid = Some a -> a ∉ xs) -> R !! fid = V !! fid) /\ (forall fid, V !! fid = None -> R !! fid = None).

Inductive fevent : Type := ApplyMsg (m : msg) | SendFull | SendDelta.

Definition run_fevent (e : fevent) (ws wr : world) : res (world * world) :=
  match e with
  | ApplyMsg m => match mamaFieldCache_applyMessage garbage m ws with Ok (_, ws') => Ok (ws', wr) | Fail x => Fail x end
  | SendFull =>
      match mamaFieldCache_getFullMessage garbage descriptor_name msg_empty ws with
      | Ok ((_, m), ws') => match mamaFieldCache_applyMessage garbage m wr with Ok (_, wr') => Ok (ws', wr') | Fail x => Fail x end
      | Fail x => Fail x
      end
  | SendDelta =>
      match mamaFieldCache_getDeltaMessage garbage descriptor_name msg_empty ws with
      | Ok ((_, m), ws') => match mamaFieldCache_applyMessage garbage m wr with Ok (_, wr') => Ok (ws', wr') | Fail x => Fail x end
      | Fail x => Fail x
      end
  end.

Fixpoint run_fevents (l : list fevent) (ws wr : world) : res (world * world) :=
  match l with
  | [] => Ok (ws, wr)
  | e :: l' => match run_fevent e ws wr with Ok (ws', wr') => run_fevents l' ws' wr' | Fail x => Fail x end
  end.

(** The abstract cache and replica: maps of values; sending makes them equal. *)
Fixpoint spec_fevents (l : list fevent) (V R : gmap Z content) : gmap Z content * gmap Z content :=
  match l with
  | [] => (V, R)
  | ApplyMsg m :: l' => spec_fevents l' (apply_entries (msg_entries m) V) R
  | _ :: l' => spec_fevents l' V V
  end.

Definition fevent_ok (e : fevent) : Prop := match e with ApplyMsg m => Forall entry_ok (msg_entries m) | _ => True end.

Lemma values_of_ok V es : values_of V es -> Forall entry_ok es.
Proof. intros H. eapply Forall_impl; [exact H|]. by intros e [_ ?]. Qed.

Lemma run_fevents_ok l : Forall fevent_ok l -> forall ws wr A V xs B R ys,
  cache_ok None ws A V xs -> cache_ok None wr B R ys -> in_step A xs V R ->
  exists ws' wr', run_fevents l ws wr = Ok (ws', wr') /\ exists A' xs' B' ys',
    cache_ok None ws' A' (spec_fevents l V R).1 xs' /\ cache_ok None wr' B' (spec_fevents l V R).2 ys'.
Proof.
  induction 1 as [|e l He Hl IH]; intros ws wr A V xs B R ys KS KR [S1 S2].
  { exists ws, wr. split; [done|]. by exists A, xs, B, ys. }
  cbn [run_fevents]. destruct e as [m| |]; cbn [run_fevent spec_fevents].
  - pose proof (applyMessage_ok _ _ _ _ m KS He) as W. apply wp_elim in W as (r & ws1 & -> & _ & A1 & xs1 & K1 & G1 & G2 & G3).
    eapply IH; [exact K1|exact KR|]. split.
    + intros fid Hu. assert (fid ∉ e_fid <$> msg_entries m) as Hn.
      { intros Hi. apply list_elem_of_fmap in Hi as (e & -> & Hi). destruct (G1 e Hi) as (a & Ha & Hx). by apply (Hu a). }
      destruct (G2 fid Hn) as [E1 E2]. rewrite S1.
      * symmetry. clear - Hn. revert V. induction (msg_entries m) as [|e es IH]; intros V; [done|]. cbn. rewrite fmap_cons, not_elem_of_cons in Hn.
        destruct Hn as [Hn1 Hn2]. change (foldl _ ?x ?y) with (apply_entries y x). rewrite IH by done. by rewrite lookup_insert_ne.
      * intros a Ha Hx. apply (Hu a); [by rewrite E1|]. by apply E2; [rewrite E1|].
    + intros fid Hn. apply S2. clear - Hn. revert V Hn. induction (msg_entries m) as [|e es IH]; intros V Hn; [done|]. apply IH in Hn. by apply lookup_insert_None in Hn as [? _].
  - destruct (full_ok _ _ _ _ KS) as (m & -> & F1 & F2). pose proof (applyMessage_ok _ _ _ _ m KR (values_of_ok _ _ F1)) as W.
    apply wp_elim in W as (r & wr1 & -> & _ & B1 & ys1 & K1 & _).
    replace (apply_entries (msg_entries m) R) with V in K1.
    2:{ apply map_eq. intros g. rewrite (apply_values V) by done. case_decide as D; [done|]. destruct (V !! g) eqn:E; [by exfalso; apply D, F2|]. symmetry. by apply S2. }
    eapply IH; [exact KS|exact K1|]. by split.
  - destruct (delta_ok _ _ _ _ KS) as (m & ws1 & -> & KS1 & F1 & F2). pose proof (applyMessage_ok _ _ _ _ m KR (values_of_ok _ _ F1)) as W.
    apply wp_elim in W as (r & wr1 & -> & _ & B1 & ys1 & K1 & _).
    replace (apply_entries (msg_entries m) R) with V in K1.
    2:{ apply map_eq. intros g. rewrite (apply_values V) by done. case_decide as D; [done|]. symmetry. apply S1. intros a Ha Hx. by apply D, (F2 g a). }
    eapply IH; [exact KS1|exact K1|]. by split.
Qed.

(** ** The start *)

Definition process_start : world :=
  mkWorld ∅ 0 ∅ 1 (mkCache None 0 mamaFieldCacheList_create mamaFieldCacheList_create 0 0 false false false false None) [].

(** A process with a new cache. *)
Definition started : world := match mamaFieldCache_create false process_start with Ok (_, w) => w | Fail _ => process_start end.

Lemma started_ok : cache_ok None started ∅ ∅ [].
Proof.
  split; cbn; try done.
  - eexists; split; [done|]. split; cbn; [done|by exists 1| |by intros fid a Ha; rewrite lookup_empty in Ha].
    intros i a Ha Hz. change (replicate 64 0 !! i = Some a) in Ha. by apply lookup_replicate in Ha as [-> _].
  - by apply NoDup_nil.
  - intros a Ha. by apply elem_of_nil in Ha.
Qed.

(** The value the application finds for an identifier. *)
Definition value_in (w : world) (fid : Z) : option content :=
  match mamaFieldCache_find fid w with
  | Ok ((MAMA_STATUS_OK, Some a), w') => fields w' !! a ≫= fun f => get_value (mType f) f
  | _ => None
  end.

Lemma value_in_ok w A V xs fid : cache_ok None w A V xs -> 0 <= fid < MAX_FID -> value_in w fid = V !! fid.
Proof.
  intros K Hf. destruct (c_map _ _ _ _ _ K) as (m & Hm & KM). destruct (c_mode _ _ _ _ _ K) as (M1 & _).
  assert (mamaFieldCache_find fid w = mamaFieldCacheMapArray_find fid w) as E by (unfold mamaFieldCache_find, mbind, M_bind, gets; by rewrite M1).
  unfold value_in. rewrite E. pose proof (find_ok w A m fid (c_statics _ _ _ _ _ K) Hm KM Hf) as W. apply wp_elim in W as (r & w' & -> & T & n & -> & _ & _ & Hr).
  destruct (A !! fid) as [a|] eqn:HA.
  - subst r. destruct (c_field _ _ _ _ _ K _ _ HA) as (f & Hfa & _ & F2 & F3 & _). destruct (c_value _ _ _ _ _ K _ _ _ HA Hfa ltac:(done)) as (c & V1 & V2 & _).
    cbn [fields put_statics]. rewrite Hfa. cbn. rewrite get_value_is by done. by rewrite V1, V2.
  - destruct Hr as [o ->]. by rewrite (c_dom _ _ _ _ _ K).
Qed.

Lemma cached_size w A V xs : cache_ok None w A V xs -> mSize (cache w) = Z.of_nat (size V).
Proof.
  intros K. rewrite (c_size _ _ _ _ _ K). f_equal. rewrite <- !size_dom. f_equal. apply leibniz_equiv. intros fid. rewrite !elem_of_dom. split.
  - intros [a Ha]. destruct (c_field _ _ _ _ _ K _ _ Ha) as (f & Hf & _). destruct (c_value _ _ _ _ _ K _ _ _ Ha Hf ltac:(done)) as (c & _ & Hc & _). by exists c.
  - intros [c Hc]. destruct (A !! fid) as [a|] eqn:HA; [by exists a|]. by rewrite (c_dom _ _ _ _ _ K) in Hc.
Qed.

(** ** Claims *)

(** C31: a cache is a map of values, and its messages keep a replica.  Two
    processes have a cache each; messages are applied to the first one, whose full
    messages and messages with the changes are applied to the second one, in any
    order.  For every payload library that obeys the laws, and messages with fields
    as a dictionary has them (no quantities, arrays of prices or dates, empty
    arrays; identifiers below 65472), nothing faults; the application finds in the
    first cache the last value of every field that was applied, and in the second
    one the values the first one had when the last message of either kind was made;
    the sizes are the numbers of fields. *)
Theorem replica_in_step l : Forall fevent_ok l ->
  exists ws wr, run_fevents l started started = Ok (ws, wr) /\
    (forall fid, 0 <= fid < MAX_FID -> value_in ws fid = (spec_fevents l ∅ ∅).1 !! fid /\ value_in wr fid = (spec_fevents l ∅ ∅).2 !! fid) /\
    mSize (cache ws) = Z.of_nat (size (spec_fevents l ∅ ∅).1) /\ mSize (cache wr) = Z.of_nat (size (spec_fevents l ∅ ∅).2).
Proof.
  intros Hl. destruct (run_fevents_ok l Hl started started ∅ ∅ [] ∅ ∅ [] started_ok started_ok) as (ws & wr & -> & A & xs & B & ys & K1 & K2); [by split|].
  exists ws, wr. split; [done|]. split; [|split; by eapply cached_size]. intros fid Hf. split; by eapply value_in_ok.
Qed.

(** C32: the array of fields cannot hold the 65473rd identifier.  When a process has
    seen 65472 identifiers or more, adding a field with a new one to any cache computes the
    new size of the array in 16 bits, in a loop that does not end. *)
Theorem array_grows_forever (w : world) m k a f :
  mMap (cache w) = Some m -> maSize m = 64 * k -> 1 <= k <= 1023 -> fields w !! a = Some f -> 0 <= mFid f < FIDS ->
  mFields w !! mFid f = None -> MAX_FID <= mCounter w < FIDS ->
  (forall fuel, grow_loop fuel (maSize m) (mCounter w) = None) /\ mamaFieldCacheMapArray_add a w = Fail OutOfFuel.
Proof.
  intros Hm Hs Hk Hf Hr Hn Hc. assert (forall fuel, grow_loop fuel (maSize m) (mCounter w) = None) as HG by (intros fuel; rewrite Hs; apply grow_loop_forever; lia).
  split; [done|]. unfold mamaFieldCacheMapArray_add, mbind, M_bind, the_map, gets, mbind, M_bind. rewrite Hm. cbn [mret M_ret]. unfold get_field. rewrite Hf.
  unfold FIDS, MAX_FID in *. unfold mamaFieldCacheMapArray_convertFid, FIDS. destruct (Z.ltb_spec (mFid f) 0); [lia|]. destruct (Z.leb_spec 65535 (mFid f)); [lia|].
  cbn [orb]. unfold mbind, M_bind, gets. rewrite Hn. cbn [from_option]. unfold modify, Datatypes.id. change (negb (0 =? 0)) with false. cbn [mret M_ret].
  assert (u16 (u16 (mCounter w + 1) - 1) = mCounter w) as ->.
  { unfold u16. rewrite (uwrap_small 16 (mCounter w + 1)) by (unfold in_u; lia). rewrite uwrap_small by (unfold in_u; lia). lia. }
  destruct (Z.ltb_spec (mCounter w) (maSize m)); [lia|]. cbn [andb]. destruct (Z.leb_spec (maSize m) (mCounter w)); [|lia]. by rewrite HG.
Qed.

Lemma add_null (w : world) m : mMap (cache w) = Some m -> fields w !! 0 = None -> mamaFieldCacheMapArray_add 0 w = Fail InvalidDeref.
Proof.
  intros Hm Hn. unfold mamaFieldCacheMapArray_add, mbind, M_bind, the_map, gets, mbind, M_bind. rewrite Hm. cbn [mret M_ret]. unfold get_field. by rewrite Hn.
Qed.

(** A field of a type the cache does not support, such as a message inside a
    message, makes the application of the message dereference NULL. *)
Theorem unsupported_field_crashes w A V xs mf fid t : cache_ok None w A V xs -> 0 <= fid < MAX_FID -> A !! fid = None ->
  mf_fid mf = (MAMA_STATUS_OK, fid) -> mf_type mf = (MAMA_STATUS_OK, t) -> mamaFieldCacheField_isSupported t = false ->
  mamaFieldCache_updateCacheFromMsgField garbage mf w = Fail InvalidDeref.
Proof.
  intros K Hf HA E1 E2 Hs. destruct (c_map _ _ _ _ _ K) as (m & Hm & KM).
  pose proof (find_ok w A m fid (c_statics _ _ _ _ _ K) Hm KM Hf) as W. apply wp_elim in W as (r & w' & Hr & T & n & -> & _ & _ & Hr').
  rewrite HA in Hr'. destruct Hr' as [o ->]. unfold mamaFieldCache_updateCacheFromMsgField, field_for. rewrite E1, E2. cbn [fst snd status_ok negb].
  assert (fields w !! 0 = None) as H0 by (destruct (fields w !! 0) as [f|] eqn:E; [apply (c_heap _ _ _ _ _ K) in E; lia|done]).
  pose proof (add_null (put_statics T n w) m Hm H0) as HA0.
  unfold mbind at 1, M_bind at 1. unfold mbind at 1, M_bind at 1. rewrite Hr. unfold new_field. rewrite Hs. unfold mamaFieldCacheField_create. rewrite Hs.
  unfold mbind, M_bind, gets, mret, M_ret. cbn [negb snd]. by rewrite HA0.
Qed.

(** The value of a quantity is not stored, and when the field is published the
    message gets whatever the stack holds. *)
Theorem quantity_is_garbage (w : world) a f mf m : fields w !! a = Some f -> mType f = MAMA_FIELD_TYPE_QUANTITY ->
  store_value garbage MAMA_FIELD_TYPE_QUANTITY mf a w = Ok (MAMA_STATUS_INVALID_ARG, w) /\
  exists st m', mamaFieldCache_updateMsgField garbage descriptor_name a m false w = Ok ((st, m'), w) /\
    msg_entries m' = msg_entries m ++ [mkEntry (mFid f) MAMA_FIELD_TYPE_F64 (Scalar garbage)].
Proof.
  intros Hf Ht. split.
  - unfold store_value. erewrite on_field_ok; [|exact Hf|unfold mamaFieldCacheField_setF64, set_scalar; by rewrite Ht].
    rewrite insert_id by done. by destruct w.
  - unfold mamaFieldCache_updateMsgField, mbind, M_bind, get_field, gets. rewrite Hf, Ht.
    assert (written garbage (mamaFieldCacheField_getF64 f) = garbage) as -> by (unfold mamaFieldCacheField_getF64, get_scalar; by rewrite Ht).
    set (name := if mUseFieldNames (cache w) then _ else _). set (r := mamaMsg_add m name (mFid f) MAMA_FIELD_TYPE_F64 (Scalar garbage)).
    exists r.1, r.2. split; [by destruct r|apply entries_add].
Qed.

End Cache.

(** ** Examples *)

Definition demo_types (fid : Z) : mamaFieldType := if fid =? 1 then MAMA_FIELD_TYPE_STRING else MAMA_FIELD_TYPE_I32.

Definition demo_fevents : list (@fevent (list entry)) :=
  [ApplyMsg [mkEntry 1 MAMA_FIELD_TYPE_STRING (Str [72; 105]); mkEntry 300 MAMA_FIELD_TYPE_I32 (Scalar 7)]; SendFull;
   ApplyMsg [mkEntry 300 MAMA_FIELD_TYPE_I32 (Scalar 8); mkEntry 2 MAMA_FIELD_TYPE_I32 (Scalar (-1))]; SendDelta;
   ApplyMsg [mkEntry 1 MAMA_FIELD_TYPE_STRING (Str [])]].

Lemma replica_in_step_witness :
  exists ws wr, run_fevents 99 (fun _ => None) demo_fevents started started = Ok (ws, wr) /\
    (forall fid, 0 <= fid < MAX_FID -> value_in ws fid = (spec_fevents demo_fevents ∅ ∅).1 !! fid /\ value_in wr fid = (spec_fevents demo_fevents ∅ ∅).2 !! fid) /\
    mSize (cache ws) = Z.of_nat (size (spec_fevents demo_fevents ∅ ∅).1) /\ mSize (cache wr) = Z.of_nat (size (spec_fevents demo_fevents ∅ ∅).2).
Proof.
  apply (replica_in_step 99 (fun _ => None) demo_types demo_fevents).
  assert (forall fid t c, 0 <= fid < MAX_FID -> t = demo_types fid -> storable t = true -> content_ok t c -> nonempty c -> entry_ok demo_types (mkEntry fid t c)) as HE
    by (intros fid t c H1 H2 H3 H4 H5; exact (conj H1 (conj H2 (conj H3 (conj H4 H5))))).
  repeat first [ exact I | apply List.Forall_nil | apply List.Forall_cons | apply HE ];
    try reflexivity; try done; try (unfold MAX_FID; lia); cbn; unfold in_range, is_string; try lia; repeat constructor; lia.
Defined.

(** The process has given numbers to the identifiers 0 to 65471. *)
Definition full_table : gmap Z Z := list_to_map ((fun i => (i, i + 1)) <$> seqZ 0 65472).

Definition full_process : world (list entry) :=
  mkWorld full_table 65472 {[1 := mkField MAMA_FIELD_TYPE_I32 65500 true true (dWord 0) 0 0 0 None false]} 2
    (mkCache (Some (mkMapArray (replicate 64 0) 64)) 0 mamaFieldCacheList_create mamaFieldCacheList_create 0 0 true false false false None) [].

Lemma full_table_lookup : full_table !! 65500 = None.
Proof.
  apply not_elem_of_list_to_map_1. intros Hi. rewrite <- list_fmap_compose in Hi. apply list_elem_of_fmap in Hi as (i & Hi & Hr).
  apply elem_of_seqZ in Hr. cbn in Hi. lia.
Qed.

Lemma array_grows_forever_witness :
  (forall fuel, grow_loop fuel 64 65472 = None) /\ mamaFieldCacheMapArray_add 1 full_process = Fail OutOfFuel.
Proof.
  apply (array_grows_forever full_process (mkMapArray (replicate 64 0) 64) 1 1 (mkField MAMA_FIELD_TYPE_I32 65500 true true (dWord 0) 0 0 0 None false));
    [reflexivity|reflexivity|lia|reflexivity|cbn; unfold FIDS; lia|exact full_table_lookup|cbn; unfold FIDS, MAX_FID; lia].
Defined.

(** A field that is applied from a record while it is listed as changed takes over
    the flag of the source: it is listed, and published, a second time. *)
Example changed_field_published_twice :
  (let go := (mamaFieldCache_applyMessage 0 [mkEntry 5 MAMA_FIELD_TYPE_I32 (Scalar 1)] ;;
     r ← mamaFieldCacheRecord_add mamaFieldCacheRecord_create 5 MAMA_FIELD_TYPE_I32 None;
     mamaFieldCache_applyRecord 0 r.2 ;;
     mamaFieldCache_applyMessage 0 [mkEntry 5 MAMA_FIELD_TYPE_I32 (Scalar 2)] ;;
     mamaFieldCache_getDeltaMessage 0 (fun _ => None) []) in
   value_of (go started)) =
  Some (MAMA_STATUS_OK, [mkEntry 5 MAMA_FIELD_TYPE_I32 (Scalar 2); mkEntry 5 MAMA_FIELD_TYPE_I32 (Scalar 2)]).
Proof. vm_compute. reflexivity. Qed.

End FieldCacheProps.
