(* ===== verification/MamaRegister.v ===== *)
(** * Bridges and their functions (mama/c_cpp/src/c/registerfunctions.c, mama.c)

    What a bridge is made of: the functions MAMA looks up in its library by name,
    and the version of MAMA it was compiled against.  A structure of function
    pointers is a map from the names of the functions (without the name of the
    bridge) to the handle of the library that has the function. *)

From S2P Require Import Prelude MamaStatus Cstdio Text StrUtils.
From Stdlib Require Import Ascii String.
From stdpp Require Import strings.
#[local] Open Scope Z_scope.
Import Cstdio StrUtils.

Module MamaRegister.

(** ** Functions *)

(** Whether the bridge has to have the function, and its name. *)
Record requirement : Type := mkRequirement { required : bool; suffix : string }.
Abbreviation req := (mkRequirement true).
Abbreviation opt := (mkRequirement false).

Abbreviation functions := (gmap string Z).

(** [snprintf] into a buffer of [size] characters. *)
Definition snprintf (size : Z) (s : string) : string := take_string (Z.to_nat (size - 1)) s.

(** REGISTER_BRIDGE_FUNCTION and REGISTER_OPTIONAL_BRIDGE_FUNCTION: a function
    that is registered already stays. *)
Definition register_function (exports : string -> bool) (bridgeLib : Z) (name : string) (s : mama_status * functions) (r : requirement)
    : mama_status * functions :=
  let result := exports (snprintf 256 (name ++ suffix r)) in
  let fns := if result && bool_decide (s.2 !! suffix r = None) then <[suffix r := bridgeLib]> s.2 else s.2 in
  (if required r && bool_decide (fns !! suffix r = None) then MAMA_STATUS_PLATFORM else s.1, fns).

Definition register_functions (l : list requirement) (exports : string -> bool) (bridgeLib : Z) (name : string) (fns : functions)
    : mama_status * functions :=
  foldl (register_function exports bridgeLib name) (MAMA_STATUS_OK, fns) l.

(** Of a middleware bridge. *)
Definition middleware_functions : list requirement := [
  req "Bridge_start"; req "Bridge_stop"; req "Bridge_open"; req "Bridge_close"; req "Bridge_getVersion"; req "Bridge_getName";
  req "Bridge_getDefaultPayloadId"; req "BridgeMamaQueue_create"; opt "BridgeMamaQueue_create_usingNative";
  req "BridgeMamaQueue_destroy"; opt "BridgeMamaQueue_getEventCount"; req "BridgeMamaQueue_dispatch";
  req "BridgeMamaQueue_timedDispatch"; req "BridgeMamaQueue_dispatchEvent"; req "BridgeMamaQueue_enqueueEvent";
  req "BridgeMamaQueue_stopDispatch"; opt "BridgeMamaQueue_setEnqueueCallback"; opt "BridgeMamaQueue_removeEnqueueCallback";
  opt "BridgeMamaQueue_getNativeHandle"; opt "BridgeMamaQueue_setLowWatermark"; opt "BridgeMamaQueue_setHighWatermark";
  req "BridgeMamaTransport_isValid"; req "BridgeMamaTransport_destroy"; req "BridgeMamaTransport_create";
  opt "BridgeMamaTransport_forceClientDisconnect"; opt "BridgeMamaTransport_findConnection";
  opt "BridgeMamaTransport_getAllConnections"; opt "BridgeMamaTransport_getAllConnectionsForTopic";
  opt "BridgeMamaTransport_freeAllConnections"; opt "BridgeMamaTransport_getAllServerConnections";
  opt "BridgeMamaTransport_freeAllServerConnections"; opt "BridgeMamaTransport_getNumLoadBalanceAttributes";
  opt "BridgeMamaTransport_getLoadBalanceScheme"; opt "BridgeMamaTransport_getLoadBalanceSharedObjectName";
  opt "BridgeMamaTransport_sendMsgToConnection"; opt "BridgeMamaTransport_isConnectionIntercepted";
  opt "BridgeMamaTransport_installConnectConflateMgr"; opt "BridgeMamaTransport_uninstallConnectConflateMgr";
  opt "BridgeMamaTransport_startConnectionConflation"; opt "BridgeMamaTransport_requestConflation";
  opt "BridgeMamaTransport_requestEndConflation"; opt "BridgeMamaTransport_getNativeTransport";
  opt "BridgeMamaTransport_getNativeTransportNamingCtx"; req "BridgeMamaSubscription_create";
  opt "BridgeMamaSubscription_createWildCard"; req "BridgeMamaSubscription_mute"; req "BridgeMamaSubscription_destroy";
  req "BridgeMamaSubscription_isValid"; opt "BridgeMamaSubscription_hasWildcards"; opt "BridgeMamaSubscription_getPlatformError";
  opt "BridgeMamaSubscription_setTopicClosure"; opt "BridgeMamaSubscription_muteCurrentTopic";
  opt "BridgeMamaSubscription_isTportDisconnected"; req "BridgeMamaTimer_create"; req "BridgeMamaTimer_destroy";
  opt "BridgeMamaTimer_reset"; opt "BridgeMamaTimer_setInterval"; opt "BridgeMamaTimer_getInterval"; opt "BridgeMamaIo_create";
  opt "BridgeMamaIo_getDescriptor"; opt "BridgeMamaIo_destroy"; req "BridgeMamaPublisher_createByIndex";
  req "BridgeMamaPublisher_destroy"; req "BridgeMamaPublisher_send"; req "BridgeMamaPublisher_sendFromInbox";
  req "BridgeMamaPublisher_sendFromInboxByIndex"; req "BridgeMamaPublisher_sendReplyToInbox";
  opt "BridgeMamaPublisher_sendReplyToInboxHandle"; opt "BridgeMamaPublisher_setUserCallbacks"; req "BridgeMamaInbox_create";
  req "BridgeMamaInbox_createByIndex"; req "BridgeMamaInbox_destroy"; opt "BridgeMamaMsg_create"; opt "BridgeMamaMsg_destroy";
  opt "BridgeMamaMsg_destroyMiddlewareMsg"; opt "BridgeMamaMsg_detach"; opt "BridgeMamaMsg_isFromInbox";
  opt "BridgeMamaMsg_getPlatformError"; opt "BridgeMamaMsg_setSendSubject"; opt "BridgeMamaMsg_getNativeHandle";
  opt "BridgeMamaMsg_duplicateReplyHandle"; opt "BridgeMamaMsg_copyReplyHandle"; opt "BridgeMamaMsgImpl_setReplyHandle";
  opt "BridgeMamaMsgImpl_setReplyHandleAndIncrement"; opt "BridgeMamaMsg_destroyReplyHandle"].

(** Of a payload bridge. *)
Definition payload_functions : list requirement := [
  req "Payload_create"; opt "Payload_getType"; opt "Payload_createForTemplate"; req "Payload_copy"; req "Payload_clear";
  req "Payload_destroy"; opt "Payload_setParent"; opt "Payload_getByteSize"; req "Payload_getNumFields";
  opt "Payload_getSendSubject"; req "Payload_toString"; req "Payload_iterateFields"; req "Payload_getByteBuffer";
  req "Payload_unSerialize"; req "Payload_serialize"; req "Payload_setByteBuffer"; req "Payload_createFromByteBuffer";
  req "Payload_apply"; opt "Payload_getNativeMsg"; req "Payload_getFieldAsString"; req "Payload_addBool"; req "Payload_addChar";
  req "Payload_addI8"; req "Payload_addU8"; req "Payload_addI16"; req "Payload_addU16"; req "Payload_addI32";
  req "Payload_addU32"; req "Payload_addI64"; req "Payload_addU64"; req "Payload_addF32"; req "Payload_addF64";
  req "Payload_addString"; req "Payload_addOpaque"; req "Payload_addDateTime"; req "Payload_addPrice"; opt "Payload_addMsg";
  opt "Payload_addVectorBool"; opt "Payload_addVectorChar"; opt "Payload_addVectorI8"; opt "Payload_addVectorU8";
  opt "Payload_addVectorI16"; opt "Payload_addVectorU16"; opt "Payload_addVectorI32"; opt "Payload_addVectorU32";
  opt "Payload_addVectorI64"; opt "Payload_addVectorU64"; opt "Payload_addVectorF32"; opt "Payload_addVectorF64";
  opt "Payload_addVectorString"; opt "Payload_addVectorMsg"; opt "Payload_addVectorDateTime"; opt "Payload_addVectorPrice";
  opt "Payload_deserialize"; req "Payload_updateBool"; req "Payload_updateChar"; req "Payload_updateU8"; req "Payload_updateI8";
  req "Payload_updateI16"; req "Payload_updateU16"; req "Payload_updateI32"; req "Payload_updateU32"; req "Payload_updateI64";
  req "Payload_updateU64"; req "Payload_updateF32"; req "Payload_updateF64"; req "Payload_updateString";
  req "Payload_updateOpaque"; req "Payload_updateDateTime"; req "Payload_updatePrice"; opt "Payload_updateSubMsg";
  opt "Payload_updateVectorMsg"; opt "Payload_updateVectorString"; opt "Payload_updateVectorBool"; opt "Payload_updateVectorChar";
  opt "Payload_updateVectorI8"; opt "Payload_updateVectorU8"; opt "Payload_updateVectorI16"; opt "Payload_updateVectorU16";
  opt "Payload_updateVectorI32"; opt "Payload_updateVectorU32"; opt "Payload_updateVectorI64"; opt "Payload_updateVectorU64";
  opt "Payload_updateVectorF32"; opt "Payload_updateVectorF64"; opt "Payload_updateVectorPrice"; opt "Payload_updateVectorTime";
  req "Payload_getBool"; req "Payload_getChar"; req "Payload_getI8"; req "Payload_getU8"; req "Payload_getI16";
  req "Payload_getU16"; req "Payload_getI32"; req "Payload_getU32"; req "Payload_getI64"; req "Payload_getU64";
  req "Payload_getF32"; req "Payload_getF64"; req "Payload_getString"; req "Payload_getOpaque"; req "Payload_getField";
  req "Payload_getDateTime"; req "Payload_getPrice"; opt "Payload_getMsg"; opt "Payload_getVectorBool";
  opt "Payload_getVectorChar"; opt "Payload_getVectorI8"; opt "Payload_getVectorU8"; opt "Payload_getVectorI16";
  opt "Payload_getVectorU16"; opt "Payload_getVectorI32"; opt "Payload_getVectorU32"; opt "Payload_getVectorI64";
  opt "Payload_getVectorU64"; opt "Payload_getVectorF32"; opt "Payload_getVectorF64"; opt "Payload_getVectorString";
  opt "Payload_getVectorDateTime"; opt "Payload_getVectorPrice"; opt "Payload_getVectorMsg"; req "PayloadIter_create";
  req "PayloadIter_next"; req "PayloadIter_hasNext"; req "PayloadIter_begin"; req "PayloadIter_end"; req "PayloadIter_associate";
  req "PayloadIter_destroy"; req "FieldPayload_create"; req "FieldPayload_destroy"; req "FieldPayload_getName";
  req "FieldPayload_getFid"; req "FieldPayload_getDescriptor"; req "FieldPayload_getType"; req "FieldPayload_updateBool";
  req "FieldPayload_updateChar"; req "FieldPayload_updateU8"; req "FieldPayload_updateI8"; req "FieldPayload_updateI16";
  req "FieldPayload_updateU16"; req "FieldPayload_updateI32"; req "FieldPayload_updateU32"; req "FieldPayload_updateI64";
  req "FieldPayload_updateU64"; req "FieldPayload_updateF32"; req "FieldPayload_updateF64"; req "FieldPayload_updateDateTime";
  req "FieldPayload_updatePrice"; opt "FieldPayload_updateString"; req "FieldPayload_getBool"; req "FieldPayload_getChar";
  req "FieldPayload_getI8"; req "FieldPayload_getU8"; req "FieldPayload_getI16"; req "FieldPayload_getU16";
  req "FieldPayload_getI32"; req "FieldPayload_getU32"; req "FieldPayload_getI64"; req "FieldPayload_getU64";
  req "FieldPayload_getF32"; req "FieldPayload_getF64"; req "FieldPayload_getString"; req "FieldPayload_getOpaque";
  req "FieldPayload_getDateTime"; req "FieldPayload_getPrice"; opt "FieldPayload_getMsg"; opt "FieldPayload_getVectorBool";
  opt "FieldPayload_getVectorChar"; opt "FieldPayload_getVectorI8"; opt "FieldPayload_getVectorU8";
  opt "FieldPayload_getVectorI16"; opt "FieldPayload_getVectorU16"; opt "FieldPayload_getVectorI32";
  opt "FieldPayload_getVectorU32"; opt "FieldPayload_getVectorI64"; opt "FieldPayload_getVectorU64";
  opt "FieldPayload_getVectorF32"; opt "FieldPayload_getVectorF64"; opt "FieldPayload_getVectorString";
  opt "FieldPayload_getVectorDateTime"; opt "FieldPayload_getVectorPrice"; opt "FieldPayload_getVectorMsg";
  req "FieldPayload_getAsString"].

(** Of an entitlement bridge. *)
Definition entitlement_functions : list requirement := [
  req "EntitlementBridge_destroy"; req "EntitlementBridge_registerSubjectContext"; req "EntitlementBridge_setIsSnapshot";
  req "EntitlementBridge_isAllowed"; req "EntitlementBridge_createSubscription"; req "EntitlementBridge_destroySubscription"].

Definition mamaInternal_registerMiddlewareFunctions := register_functions middleware_functions.
Definition mamaInternal_registerPayloadFunctions := register_functions payload_functions.
Definition mamaInternal_registerEntitlementFunctions := register_functions entitlement_functions.

(** ** Versions *)

Definition mama_normalizeMamaBridgeInterfaceVersionInternal (version : versionInfo) : versionInfo :=
  let v := version in
  let v := if (mMajor v =? 2) && (mMinor v <? 4) then mkVersion 6 0 (mRelease v) (mExtra v) else v in
  let v := if (mMajor v =? 6) && (mMinor v =? 0) && (7 <=? mRelease v) then mkVersion 6 1 (mRelease v) (mExtra v) else v in
  let v := if (mMajor v =? 2) && (mMinor v =? 4) then mkVersion 6 1 (mRelease v) (mExtra v) else v in
  mkVersion (mMajor v) (mMinor v) 0 (mExtra v).

Definition mama_areVersionsCompatibleInternal (mamaVer bridgeVer : versionInfo) : bool :=
  let mamaVer := mama_normalizeMamaBridgeInterfaceVersionInternal mamaVer in
  let bridgeVer := mama_normalizeMamaBridgeInterfaceVersionInternal bridgeVer in
  (mMajor mamaVer =? mMajor bridgeVer) && (mMinor mamaVer =? mMinor bridgeVer).

(** ** What registration does *)

Lemma register_function_keeps exports h name s r k x : s.2 !! k = Some x -> (register_function exports h name s r).2 !! k = Some x.
Proof.
  intros Hk. unfold register_function. cbn. case_match; [|done].
  apply andb_prop in H as [_ H]. apply bool_decide_eq_true_1 in H.
  rewrite lookup_insert_ne; [done|]. congruence.
Qed.

(** Every pointer is one that was there or goes to the library. *)
Lemma register_function_from exports h name s r k x :
  (register_function exports h name s r).2 !! k = Some x -> s.2 !! k = Some x \/ x = h.
Proof.
  unfold register_function. cbn. case_match; [|by left].
  destruct (decide (suffix r = k)) as [<-|]; [rewrite lookup_insert_eq; intros [= <-]; by right|].
  rewrite lookup_insert_ne by done. by left.
Qed.

Lemma register_function_bad exports h name s r : s.1 <> MAMA_STATUS_OK -> (register_function exports h name s r).1 <> MAMA_STATUS_OK.
Proof. intros Hs. unfold register_function. cbn. by case_match. Qed.

Lemma register_functions_aux exports h name l : forall s,
  (forall k x, s.2 !! k = Some x -> (foldl (register_function exports h name) s l).2 !! k = Some x) /\
  (forall k x, (foldl (register_function exports h name) s l).2 !! k = Some x -> s.2 !! k = Some x \/ x = h) /\
  ((foldl (register_function exports h name) s l).1 = MAMA_STATUS_OK ->
     s.1 = MAMA_STATUS_OK /\ forall r, r ∈ l -> required r = true -> is_Some ((foldl (register_function exports h name) s l).2 !! suffix r)).
Proof.
  induction l as [|r l IH]; intros s; cbn [foldl].
  - split_and!; [done|by left|]. intros Hs. split; [done|]. intros r Hr. by apply elem_of_nil in Hr.
  - destruct (IH (register_function exports h name s r)) as (I1 & I2 & I3). split_and!.
    + intros k x Hk. apply I1. by apply register_function_keeps.
    + intros k x Hk. apply I2 in Hk as [Hk|Hk]; [|by right]. by eapply register_function_from.
    + intros Ho. destruct (I3 Ho) as [J1 J2]. split.
      * destruct (decide (s.1 = MAMA_STATUS_OK)) as [|Hn]; [done|]. by apply (register_function_bad exports h name s r) in Hn.
      * intros r' [->|Hr']%elem_of_cons Hq; [|by apply J2].
        assert (is_Some ((register_function exports h name s r).2 !! suffix r)) as [x Hx]; [|exists x; by apply I1].
        unfold register_function in J1 |- *. cbn in J1 |- *. rewrite Hq in J1. cbn in J1.
        case_bool_decide as Hd; [done|]. by apply not_eq_None_Some.
Qed.

(** After a registration without errors all required functions are there, and
    they are in the library or were registered before. *)
Lemma register_functions_ok l exports h name fns fns' :
  register_functions l exports h name fns = (MAMA_STATUS_OK, fns') ->
  (forall r, r ∈ l -> required r = true -> is_Some (fns' !! suffix r)).
Proof.
  intros E r Hr Hq. destruct (register_functions_aux exports h name l (MAMA_STATUS_OK, fns)) as (_ & _ & H3).
  unfold register_functions in E. rewrite E in H3. by apply H3.
Qed.

Lemma register_functions_from l exports h name fns k x :
  (register_functions l exports h name fns).2 !! k = Some x -> fns !! k = Some x \/ x = h.
Proof. apply (register_functions_aux exports h name l (MAMA_STATUS_OK, fns)). Qed.

Lemma register_functions_keep l exports h name fns k x :
  fns !! k = Some x -> (register_functions l exports h name fns).2 !! k = Some x.
Proof. apply (register_functions_aux exports h name l (MAMA_STATUS_OK, fns)). Qed.

(** ** The table of versions in the comment of the normalisation *)

Definition documented (v : versionInfo) : option (Z * Z) :=
  if (mMajor v =? 2) && ((mMinor v =? 2) || (mMinor v =? 3)) then Some (6, 0)
  else if (mMajor v =? 2) && (mMinor v =? 4) then Some (6, 1)
  else if (mMajor v =? 6) && (mMinor v =? 0) then Some (6, if mRelease v <? 7 then 0 else 1)
  else if (mMajor v =? 6) && ((mMinor v =? 1) || (mMinor v =? 2)) then Some (6, mMinor v)
  else None.

(** Releases of 2.2 and 2.3 from the seventh on are taken for 6.0.7. *)
Definition late_release (v : versionInfo) : bool := (mMajor v =? 2) && (mMinor v <? 4) && (7 <=? mRelease v).

Lemma normalized_documented v d : documented v = Some d ->
  let n := mama_normalizeMamaBridgeInterfaceVersionInternal v in
  (mMajor n, mMinor n) = if late_release v then (6, 1) else d.
Proof.
  destruct v as [a b c e].
  unfold documented, late_release, mama_normalizeMamaBridgeInterfaceVersionInternal. cbn [mMajor mMinor mRelease mExtra].
  repeat (match goal with
          | |- context [?x =? ?y] => destruct (Z.eqb_spec x y); subst
          | |- context [?x <? ?y] => destruct (Z.ltb_spec x y)
          | |- context [?x <=? ?y] => destruct (Z.leb_spec x y)
          end; cbn [andb orb mMajor mMinor mRelease mExtra]; try lia);
    intros [= <-]; try done; cbn in *; repeat case_match; cbn in *; done || lia.
Qed.

(** Two versions of the table in the comment are
    compatible exactly when the table gives them the same interface version;
    except that a release of 2.2 or 2.3 from the seventh on counts as 6.1. *)
Theorem versions_follow_table v1 v2 d1 d2 :
  documented v1 = Some d1 -> documented v2 = Some d2 ->
  mama_areVersionsCompatibleInternal v1 v2 =
  bool_decide ((if late_release v1 then (6, 1) else d1) = (if late_release v2 then (6, 1) else d2)).
Proof.
  intros H1 H2. pose proof (normalized_documented v1 d1 H1) as N1. pose proof (normalized_documented v2 d2 H2) as N2.
  cbn zeta in N1, N2. rewrite <- N1, <- N2. unfold mama_areVersionsCompatibleInternal. cbn zeta.
  destruct (Z.eqb_spec (mMajor (mama_normalizeMamaBridgeInterfaceVersionInternal v1)) (mMajor (mama_normalizeMamaBridgeInterfaceVersionInternal v2)));
  destruct (Z.eqb_spec (mMinor (mama_normalizeMamaBridgeInterfaceVersionInternal v1)) (mMinor (mama_normalizeMamaBridgeInterfaceVersionInternal v2)));
    cbn; symmetry; first [apply bool_decide_eq_true_2; by f_equal|apply bool_decide_eq_false_2; by intros [= ??]].
Qed.

(** A bridge compiled against 2.3.7 and MAMA 6.0.6 share an interface in the
    table, and are refused. *)
Example late_release_refused : mama_areVersionsCompatibleInternal (mkVersion 6 0 6 "") (mkVersion 2 3 7 "") = false.
Proof. reflexivity. Qed.

Lemma versions_follow_table_witness :
  mama_areVersionsCompatibleInternal (mkVersion 6 0 3 "") (mkVersion 2 2 1 "") = true.
Proof. exact (versions_follow_table (mkVersion 6 0 3 "") (mkVersion 2 2 1 "") (6, 0) (6, 0) eq_refl eq_refl). Defined.

End MamaRegister.
