(* ===== verification/Mama.v ===== *)
(** * Starting and ending MAMA (mama/c_cpp/src/c/mama.c)

    The libraries of middleware, payload and entitlement bridges are loaded by
    name into three registries; [mama_open] and [mama_close] count how often MAMA is
    open and release everything with the last close.  All that is allocated is in
    one heap, so leaks and dangling pointers show.  Shared libraries come from
    [openSharedLib] and are described by what their functions give; properties are
    behind the interface [PropertyTable]; what other components do is recorded in
    [calls].  The tables of the registries are finite maps (WTableSpec.v). *)

From S2P Require Import Prelude MamaStatus Cstdio Text StrUtils MamaRegister.
From Stdlib Require Import Ascii String.
From stdpp Require Import strings.
#[local] Open Scope Z_scope.
Import Cstdio StrUtils MamaRegister.

(** ** Properties *)

(** Of two tables, [properties_Merge to from] is the first one with the entries of
    the second; [properties_ForEach] lists the entries in the order of the table. *)
Class PropertyTable (P : Type) : Type := {
  properties_Create : P;
  properties_Load : option string -> string -> option P;
  properties_Get : P -> string -> option string;
  properties_setProperty : P -> string -> string -> bool * P;
  properties_Merge : P -> P -> P;
  properties_Count : P -> Z;
  properties_ForEach : P -> list (string * string);
}.

Module Mama.

(** ** Libraries *)

(** What a library exports and does: the result of its initialisation function,
    the meta properties this sets (with [mamaInternal_setMetaProperty]) and the
    structure it makes (entitlements); the results of the functions of the bridges
    that the loader calls. *)
Record library : Type := mkLibrary {
  lib_exports : string -> bool;
  lib_init : mama_status;
  lib_meta : list (string * string);
  lib_impl : Z;
  lib_getType : Z;
  lib_getName : string;
  lib_open : mama_status;
  lib_queue : Z;
  lib_close : mama_status;
  lib_payloadIds : option (list (string * Z));
}.

(** ** State *)

Record mamaBridgeImpl : Type := mkBridge {
  bridgeFunctions : functions;
  mLock : Z;
  mDefaultEventQueue : Z;
  mRefCount : Z;
  mEntitleDeferred : bool;
  mStartBackgroundThread : bool;
}.

(** What is in memory; 0 is NULL in the pointers. *)
Inductive obj : Type :=
| Handle (l : library)
| Lock
| PayloadBridge (fns : functions) (payloadLib : Z)
| PayloadLib (bridge library id : Z) (keepLoaded : bool)
| MiddlewareBridge (b : mamaBridgeImpl)
| MiddlewareLib (bridge library : Z)
| EntitlementBridge (fns : functions) (mImpl : Z)
| EntitlementLib (bridge library : Z).

(** mamaMiddlewares, mamaPayloads and mamaEntitlements; the payloads are indexed by
    their character.  An index with NULL has no entry. *)
Record registry : Type := mkRegistry { table : option (gmap string Z); byIndex : gmap Z Z; count : Z }.

(** Statistics *)
Inductive group : Type := Global | Transport | Queue | Lbm | User.
#[export] Instance group_eq_dec : EqDecision group.
Proof. solve_decision. Defined.
Record statsFlags : Type := mkFlags { gLog : bool; gPublish : bool; gGenerate : bool }.

(** Calls of other components. *)
Inductive call : Type :=
| InitReservedFields | CleanupReservedFields | LogInit | LogDestroy | ThreadProperties | InitPlugins | ShutdownPlugins
| EnableStatsLogging | EnableStats (queue : Z) | StopReportTimer | DestroyStats | TimeZoneCleanUp
| GetInternalEventQueue (bridge : Z) | StopInternalEventQueue (bridge : Z)
| BridgeOpen (bridge : Z) | BridgeClose (bridge : Z) | DestroyThread (bridge : Z) | EntitlementDestroy (bridge : Z).

(** [myLock] is the depth of the recursive lock; [keys] counts the thread keys
    that exist; [allocs]: whether the next allocations that are tested succeed (they
    do when none is left). *)
Record world (P : Type) : Type := mkWorld {
  heap : gmap Z obj;
  brk : Z;
  middlewares : registry;
  payloads : registry;
  entitlements : registry;
  myRefCount : Z;
  init : Z;
  myLock : Z;
  internalProperties : option P;
  version : versionInfo;
  gProperties : option P;
  gDefaultPayload : Z;
  keys : Z;
  appContext : option string * option string;
  flags : group -> statsFlags;
  gStatsGenerator : bool;
  gCatchCallbackExceptions : bool;
  gAllowMsgModify : bool;
  calls : list call;
  allocs : list bool;
}.
Arguments mkWorld {P}. Arguments heap {P}. Arguments brk {P}. Arguments middlewares {P}. Arguments payloads {P}. Arguments entitlements {P}. Arguments myRefCount {P}. Arguments init {P}. Arguments myLock {P}. Arguments internalProperties {P}. Arguments version {P}. Arguments gProperties {P}. Arguments gDefaultPayload {P}. Arguments keys {P}. Arguments appContext {P}. Arguments flags {P}. Arguments gStatsGenerator {P}. Arguments gCatchCallbackExceptions {P}. Arguments gAllowMsgModify {P}. Arguments calls {P}. Arguments allocs {P}.

Definition MAMA_PAYLOAD_MAX : Z := 255.
Definition MAMA_MAX_MIDDLEWARES : Z := 127.
Definition MAMA_MAX_ENTITLEMENTS : Z := 127.
Definition MAMA_PAYLOAD_NULL : Z := 0.
Definition MAX_INTERNAL_PROP_LEN : Z := 1024.
Definition PTHREAD_KEYS_MAX : Z := 1024.

Definition empty_registry : registry := mkRegistry None ∅ 0.
Definition set_count (n : Z) (r : registry) : registry := mkRegistry (table r) (byIndex r) n.
Definition set_table (t : option (gmap string Z)) (r : registry) : registry := mkRegistry t (byIndex r) (count r).
Definition set_byIndex (m : gmap Z Z) (r : registry) : registry := mkRegistry (table r) m (count r).

Section Mama.
Context {P : Type} `{PropertyTable P}.
Context (openSharedLib : string -> option string -> option library).
Context (getenv : string -> option string).
Context (mama_version : string) (gEntitlementBridges : list string).

Abbreviation MM := (M (world P)).

Section Setters.
Definition put_heap (h : gmap Z obj) (b : Z) (w : world P) : world P :=
  mkWorld h b (middlewares w) (payloads w) (entitlements w) (myRefCount w) (init w) (myLock w) (internalProperties w) (version w)
    (gProperties w) (gDefaultPayload w) (keys w) (appContext w) (flags w) (gStatsGenerator w) (gCatchCallbackExceptions w) (gAllowMsgModify
    w) (calls w) (allocs w).
Definition put_middlewares (v : registry) (w : world P) : world P :=
  mkWorld (heap w) (brk w) v (payloads w) (entitlements w) (myRefCount w) (init w) (myLock w) (internalProperties w) (version w)
    (gProperties w) (gDefaultPayload w) (keys w) (appContext w) (flags w) (gStatsGenerator w) (gCatchCallbackExceptions w) (gAllowMsgModify
    w) (calls w) (allocs w).
Definition put_payloads (v : registry) (w : world P) : world P :=
  mkWorld (heap w) (brk w) (middlewares w) v (entitlements w) (myRefCount w) (init w) (myLock w) (internalProperties w) (version w)
    (gProperties w) (gDefaultPayload w) (keys w) (appContext w) (flags w) (gStatsGenerator w) (gCatchCallbackExceptions w) (gAllowMsgModify
    w) (calls w) (allocs w).
Definition put_entitlements (v : registry) (w : world P) : world P :=
  mkWorld (heap w) (brk w) (middlewares w) (payloads w) v (myRefCount w) (init w) (myLock w) (internalProperties w) (version w) (gProperties
    w) (gDefaultPayload w) (keys w) (appContext w) (flags w) (gStatsGenerator w) (gCatchCallbackExceptions w) (gAllowMsgModify w) (calls w)
    (allocs w).
Definition put_myRefCount (v : Z) (w : world P) : world P :=
  mkWorld (heap w) (brk w) (middlewares w) (payloads w) (entitlements w) v (init w) (myLock w) (internalProperties w) (version w)
    (gProperties w) (gDefaultPayload w) (keys w) (appContext w) (flags w) (gStatsGenerator w) (gCatchCallbackExceptions w) (gAllowMsgModify
    w) (calls w) (allocs w).
Definition put_myLock (v : Z) (w : world P) : world P :=
  mkWorld (heap w) (brk w) (middlewares w) (payloads w) (entitlements w) (myRefCount w) (init w) v (internalProperties w) (version w)
    (gProperties w) (gDefaultPayload w) (keys w) (appContext w) (flags w) (gStatsGenerator w) (gCatchCallbackExceptions w) (gAllowMsgModify
    w) (calls w) (allocs w).
Definition put_internalProperties (v : option P) (w : world P) : world P :=
  mkWorld (heap w) (brk w) (middlewares w) (payloads w) (entitlements w) (myRefCount w) (init w) (myLock w) v (version w) (gProperties w)
    (gDefaultPayload w) (keys w) (appContext w) (flags w) (gStatsGenerator w) (gCatchCallbackExceptions w) (gAllowMsgModify w) (calls w)
    (allocs w).
Definition put_gProperties (v : option P) (w : world P) : world P :=
  mkWorld (heap w) (brk w) (middlewares w) (payloads w) (entitlements w) (myRefCount w) (init w) (myLock w) (internalProperties w) (version
    w) v (gDefaultPayload w) (keys w) (appContext w) (flags w) (gStatsGenerator w) (gCatchCallbackExceptions w) (gAllowMsgModify w) (calls
    w) (allocs w).
Definition put_gDefaultPayload (v : Z) (w : world P) : world P :=
  mkWorld (heap w) (brk w) (middlewares w) (payloads w) (entitlements w) (myRefCount w) (init w) (myLock w) (internalProperties w) (version
    w) (gProperties w) v (keys w) (appContext w) (flags w) (gStatsGenerator w) (gCatchCallbackExceptions w) (gAllowMsgModify w) (calls w)
    (allocs w).
Definition put_keys (v : Z) (w : world P) : world P :=
  mkWorld (heap w) (brk w) (middlewares w) (payloads w) (entitlements w) (myRefCount w) (init w) (myLock w) (internalProperties w) (version
    w) (gProperties w) (gDefaultPayload w) v (appContext w) (flags w) (gStatsGenerator w) (gCatchCallbackExceptions w) (gAllowMsgModify w)
    (calls w) (allocs w).
Definition put_appContext (v : option string * option string) (w : world P) : world P :=
  mkWorld (heap w) (brk w) (middlewares w) (payloads w) (entitlements w) (myRefCount w) (init w) (myLock w) (internalProperties w) (version
    w) (gProperties w) (gDefaultPayload w) (keys w) v (flags w) (gStatsGenerator w) (gCatchCallbackExceptions w) (gAllowMsgModify w) (calls
    w) (allocs w).
Definition put_flags (v : group -> statsFlags) (w : world P) : world P :=
  mkWorld (heap w) (brk w) (middlewares w) (payloads w) (entitlements w) (myRefCount w) (init w) (myLock w) (internalProperties w) (version
    w) (gProperties w) (gDefaultPayload w) (keys w) (appContext w) v (gStatsGenerator w) (gCatchCallbackExceptions w) (gAllowMsgModify w)
    (calls w) (allocs w).
Definition put_gStatsGenerator (v : bool) (w : world P) : world P :=
  mkWorld (heap w) (brk w) (middlewares w) (payloads w) (entitlements w) (myRefCount w) (init w) (myLock w) (internalProperties w) (version
    w) (gProperties w) (gDefaultPayload w) (keys w) (appContext w) (flags w) v (gCatchCallbackExceptions w) (gAllowMsgModify w) (calls w)
    (allocs w).
Definition put_gCatchCallbackExceptions (v : bool) (w : world P) : world P :=
  mkWorld (heap w) (brk w) (middlewares w) (payloads w) (entitlements w) (myRefCount w) (init w) (myLock w) (internalProperties w) (version
    w) (gProperties w) (gDefaultPayload w) (keys w) (appContext w) (flags w) (gStatsGenerator w) v (gAllowMsgModify w) (calls w) (allocs w).
Definition put_gAllowMsgModify (v : bool) (w : world P) : world P :=
  mkWorld (heap w) (brk w) (middlewares w) (payloads w) (entitlements w) (myRefCount w) (init w) (myLock w) (internalProperties w) (version
    w) (gProperties w) (gDefaultPayload w) (keys w) (appContext w) (flags w) (gStatsGenerator w) (gCatchCallbackExceptions w) v (calls w)
    (allocs w).
Definition put_calls (v : list call) (w : world P) : world P :=
  mkWorld (heap w) (brk w) (middlewares w) (payloads w) (entitlements w) (myRefCount w) (init w) (myLock w) (internalProperties w) (version
    w) (gProperties w) (gDefaultPayload w) (keys w) (appContext w) (flags w) (gStatsGenerator w) (gCatchCallbackExceptions w)
    (gAllowMsgModify w) v (allocs w).
Definition put_allocs (v : list bool) (w : world P) : world P :=
  mkWorld (heap w) (brk w) (middlewares w) (payloads w) (entitlements w) (myRefCount w) (init w) (myLock w) (internalProperties w) (version
    w) (gProperties w) (gDefaultPayload w) (keys w) (appContext w) (flags w) (gStatsGenerator w) (gCatchCallbackExceptions w)
    (gAllowMsgModify w) (calls w) v.
Definition put_init (v : versionInfo) (n : Z) (w : world P) : world P :=
  mkWorld (heap w) (brk w) (middlewares w) (payloads w) (entitlements w) (myRefCount w) n (myLock w) (internalProperties w) v (gProperties
    w) (gDefaultPayload w) (keys w) (appContext w) (flags w) (gStatsGenerator w) (gCatchCallbackExceptions w) (gAllowMsgModify w) (calls w)
    (allocs w).
End Setters.

Definition lift {A} (r : res A) : MM A := fun w => match r with Ok a => Ok (a, w) | Fail f => Fail f end.

Fixpoint for_each {A} (f : A -> MM unit) (l : list A) : MM unit :=
  match l with [] => mret tt | a :: l' => f a ;; for_each f l' end.

Definition invoke (c : call) : MM unit := modify (fun w => put_calls (calls w ++ [c]) w).

(** ** Memory and locks *)

Definition alloc : MM bool := fun w =>
  match allocs w with [] => Ok (true, w) | b :: l => Ok (b, put_allocs l w) end.

Definition new (o : obj) : MM Z := fun w => Ok (brk w, put_heap (<[brk w := o]> (heap w)) (brk w + 1) w).
Definition calloc (o : obj) : MM Z := mem ← alloc; if mem : bool then new o else mret 0.
Definition load (a : Z) : MM obj := fun w => match heap w !! a with Some o => Ok (o, w) | None => Fail InvalidDeref end.
Definition store (a : Z) (o : obj) : MM unit := load a ;; modify (fun w => put_heap (<[a := o]> (heap w)) (brk w) w).
Definition free (a : Z) : MM unit :=
  if a =? 0 then mret tt else load a ;; modify (fun w => put_heap (delete a (heap w)) (brk w) w).

Definition open_lib (name : string) (path : option string) : MM Z :=
  match openSharedLib name path with Some l => new (Handle l) | None => mret 0 end.
Definition closeSharedLib (a : Z) : MM unit := free a.
Definition get_library (a : Z) : MM library :=
  o ← load a; match o with Handle l => mret l | _ => fail InvalidDeref end.

(** A call through the pointer to a function: the library it goes to. *)
Definition call_fn (fns : functions) (name : string) : MM library :=
  match fns !! name with Some h => get_library h | None => fail InvalidDeref end.

Definition lock : MM unit := modify (fun w => put_myLock (myLock w + 1) w).
Definition unlock : MM unit := modify (fun w => put_myLock (myLock w - 1) w).

Definition get_bridge (a : Z) : MM mamaBridgeImpl := o ← load a; match o with MiddlewareBridge b => mret b | _ => fail InvalidDeref end.
Definition payload_functions_of (a : Z) : MM functions := o ← load a; match o with PayloadBridge fns _ => mret fns | _ => fail InvalidDeref end.

(** The bridge of a library structure, and the handle of the library. *)
Definition get_lib (a : Z) : MM (Z * Z) :=
  o ← load a;
  match o with
  | PayloadLib b l _ _ | MiddlewareLib b l | EntitlementLib b l => mret (b, l)
  | _ => fail InvalidDeref
  end.

(** ** Registries *)

(** A registry of the world and how it is replaced. *)
Inductive kind : Type := Middlewares | Payloads | Entitlements.
Definition registry_of (k : kind) (w : world P) : registry :=
  match k with Middlewares => middlewares w | Payloads => payloads w | Entitlements => entitlements w end.
Definition put_registry (k : kind) (r : registry) (w : world P) : world P :=
  match k with Middlewares => put_middlewares r w | Payloads => put_payloads r w | Entitlements => put_entitlements r w end.
Definition update (k : kind) (f : registry -> registry) : MM unit := modify (fun w => put_registry k (f (registry_of k w)) w).

Definition wtable_lookup (k : kind) (name : string) : MM Z :=
  t ← gets (fun w => table (registry_of k w));
  mret (match t with Some m => default 0 (m !! name) | None => 0 end).

(** 1 for success, 0 for a key that is there, whose data is replaced (or no table),
    -1 without memory. *)
Definition wtable_insert (k : kind) (name : string) (data : Z) : MM Z :=
  t ← gets (fun w => table (registry_of k w));
  match t with
  | None => mret 0
  | Some m =>
      if bool_decide (is_Some (m !! name)) then update k (set_table (Some (<[name := data]> m))) ;; mret 0
      else
        mem ← alloc;
        if mem : bool then update k (set_table (Some (<[name := data]> m))) ;; mret 1 else mret (-1)
  end.

(** The bridge that is loaded under a name, or NULL. *)
Definition loaded (k : kind) (name : string) : MM Z :=
  lib ← wtable_lookup k name;
  if lib =? 0 then mret 0 else l ← get_lib lib; mret l.1.

(** An entry of byChar, an array of MAMA_PAYLOAD_MAX pointers. *)
Definition byChar (id : Z) : MM Z :=
  if id <? MAMA_PAYLOAD_MAX then m ← gets (fun w => byIndex (payloads w)); mret (default 0 (m !! id)) else fail InvalidDeref.

(** ** Properties *)

Definition WOMBAT_PATH_ENV : string := "WOMBAT_PATH".
Definition PROPERTY_FILE : string := "mama.properties".

Definition get_props : MM P := p ← gets gProperties; mret (default properties_Create p).

(** gProperties is not NULL after the first command. *)
Definition mamaInternal_loadProperties (path filename : option string) : MM unit :=
  let usingDefaults := bool_decide (path = None /\ filename = None) in
  props ← get_props;
  modify (put_gProperties (Some props)) ;;
  let path := match path with Some p => Some p | None => getenv WOMBAT_PATH_ENV end in
  let filename := default PROPERTY_FILE filename in
  match properties_Load path filename with
  | None => mret tt
  | Some fileProperties => modify (put_gProperties (Some (properties_Merge fileProperties props)))
  end.

Definition mama_loadDefaultProperties : MM unit :=
  p ← gets gProperties;
  match p with None => mamaInternal_loadProperties None None | Some _ => mret tt end.

Definition mama_getProperty (name : string) : MM (option string) :=
  mama_loadDefaultProperties ;;
  p ← get_props;
  mret (properties_Get p name).

Definition mama_setProperty (name value : option string) : MM mama_status :=
  mama_loadDefaultProperties ;;
  match name, value with
  | Some name, Some value =>
      p ← get_props;
      let '(ok, p) := properties_setProperty p name value in
      modify (put_gProperties (Some p)) ;;
      mret (if ok : bool then MAMA_STATUS_OK else MAMA_STATUS_PLATFORM)
  | _, _ => mret MAMA_STATUS_NULL_ARG
  end.

Definition mama_setPropertiesFromFile (path filename : option string) : MM mama_status :=
  match path, filename with
  | Some _, Some _ => mamaInternal_loadProperties path filename ;; mret MAMA_STATUS_OK
  | _, _ => mret MAMA_STATUS_NULL_ARG
  end.

(** [properties_Get] on gProperties, NULL when there are none. *)
Definition prop (name : string) : MM (option string) :=
  p ← gets gProperties; mret (match p with Some p => properties_Get p name | None => None end).

(** *** Meta properties *)

Definition mamaInternal_getMetaProperty (name : string) : MM (option string) :=
  p ← gets internalProperties; mret (match p with Some p => properties_Get p name | None => None end).

Definition mamaInternal_setMetaProperty (name value : string) : MM mama_status :=
  existingValue ← mamaInternal_getMetaProperty name;
  match existingValue with
  | Some _ => mret MAMA_STATUS_INVALID_ARG
  | None =>
      p ← gets internalProperties;
      match p with
      | None => mret MAMA_STATUS_NOMEM
      | Some p =>
          let '(ok, p) := properties_setProperty p name value in
          modify (put_internalProperties (Some p)) ;;
          mret (if ok : bool then MAMA_STATUS_OK else MAMA_STATUS_NOMEM)
      end
  end.

(** mamaBridgeImpl_getNormalizedPropertyName (bridge.c). *)
Definition mamaBridgeImpl_getNormalizedPropertyName (name property : string) : string :=
  let prefix := snprintf MAX_INTERNAL_PROP_LEN ("mama." ++ name ++ ".") in
  let property := if (len prefix <? len property) && String.prefix prefix property
                  then String.substring (String.length prefix) (String.length property) property else property in
  snprintf MAX_INTERNAL_PROP_LEN ("mama." ++ name ++ "." ++ property).

Definition mamaBridgeImpl_getMetaProperty (bridge : Z) (property : string) : MM (option string) :=
  b ← get_bridge bridge;
  l ← call_fn (bridgeFunctions b) "Bridge_getName";
  mamaInternal_getMetaProperty (mamaBridgeImpl_getNormalizedPropertyName (lib_getName l) property).

(** mamaBridgeImpl_populateBridgeMetaData (bridge.c). *)
Definition mamaBridgeImpl_populateBridgeMetaData (bridge : Z) : MM unit :=
  v ← mamaBridgeImpl_getMetaProperty bridge "entitlements.deferred";
  b ← get_bridge bridge;
  store bridge (MiddlewareBridge (mkBridge (bridgeFunctions b) (mLock b) (mDefaultEventQueue b) (mRefCount b) (strtobool v) (mStartBackgroundThread b))).

(** The properties an initialisation function sets. *)
Definition set_meta (l : library) : MM unit :=
  for_each (fun kv => mamaInternal_setMetaProperty kv.1 kv.2 ;; mret tt) (lib_meta l).

(** ** Initialisation *)

Definition mamaInternal_initialiseTable (k : kind) : MM mama_status :=
  t ← gets (fun w => table (registry_of k w));
  match t with
  | Some _ => mret MAMA_STATUS_OK
  | None =>
      mem ← alloc;
      if mem : bool then update k (set_table (Some ∅)) ;; mret MAMA_STATUS_OK else mret MAMA_STATUS_PLATFORM
  end.

(** The tables, up to the first one that cannot be made. *)
Fixpoint initialise_tables (l : list kind) : MM mama_status :=
  match l with
  | [] => mret MAMA_STATUS_OK
  | k :: l' => status ← mamaInternal_initialiseTable k; if status_ok status then initialise_tables l' else mret status
  end.

(** The version after "mama ". *)
Definition mamaRuntimeVersion : string := String.substring 5 (String.length mama_version) mama_version.

Definition init_under_lock : MM mama_status :=
  p ← gets internalProperties;
  status ← (match p with
            | Some _ => mret MAMA_STATUS_OK
            | None =>
                mem ← alloc;
                (if mem : bool then modify (put_internalProperties (Some properties_Create)) else mret tt) ;;
                mamaInternal_setMetaProperty "mama.runtime_version" mamaRuntimeVersion
            end);
  if negb (status_ok status) then mret status
  else
    n ← gets init;
    if negb (n =? 0) then mret status
    else
      status ← initialise_tables [Middlewares; Payloads; Entitlements];
      if negb (status_ok status) then mret status
      else
        v ← lift (strToVersionInfo (Some mamaRuntimeVersion));
        modify (put_init v.2 (n + 1)) ;;
        mret status.

Definition mamaInternal_init : MM mama_status :=
  lock ;;
  status ← init_under_lock;
  unlock ;;
  mret status.

(** ** Payload bridges *)

(** The character of a payload, as an unsigned number: from the properties, or
    what the bridge says. *)
Definition mamaInternal_getPayloadId (payloadName : string) (payload : Z) : MM Z :=
  propertyReturn ← mama_getProperty (snprintf 256 ("mama.payload." ++ payloadName ++ ".payloadId"));
  match propertyReturn with
  | Some s => mret (match s with String c _ => code c | EmptyString => 0 end)
  | None =>
      fns ← payload_functions_of payload;
      l ← call_fn fns "Payload_getType";
      mret (u8 (lib_getType l))
  end.

(** The labels a failure goes to: the result and what *impl is set to. *)
Definition result : Type := mama_status * option Z.
Definition error_handling_impl (handle : Z) (status : mama_status) : MM result :=
  closeSharedLib handle ;; mret (status, Some 0).
Definition error_handling_impl_allocated (handle impl : Z) (status : mama_status) : MM result :=
  free impl ;; error_handling_impl handle status.
Definition error_handling_lib (handle impl lib : Z) (status : mama_status) : MM result :=
  free lib ;; error_handling_impl_allocated handle impl status.

(** Whether the version of a bridge can be read and is compatible. *)
Definition check_version (text : option string) : MM bool :=
  v ← lift (strToVersionInfo text);
  version ← gets version;
  mret (negb (v.1 =? 0) && mama_areVersionsCompatibleInternal version v.2).

(** The last part: the payload is registered. *)
Definition register_payload (payloadName : string) (handle impl payloadChar : Z) : MM result :=
  payloadLib ← calloc (PayloadLib impl handle payloadChar false);
  if payloadLib =? 0 then error_handling_impl_allocated handle impl MAMA_STATUS_NOMEM
  else
    propstring ← prop (snprintf MAX_INTERNAL_PROP_LEN ("mama.payload.keeploaded." ++ payloadName));
    store payloadLib (PayloadLib impl handle payloadChar (strtobool propstring)) ;;
    status ← wtable_insert Payloads payloadName payloadLib;
    fns ← payload_functions_of impl;
    store impl (PayloadBridge fns payloadLib) ;;
    if negb (status =? 1) then error_handling_lib handle impl payloadLib MAMA_STATUS_NO_BRIDGE_IMPL
    else
      other ← byChar payloadChar;
      if negb (other =? 0) then error_handling_lib handle impl payloadLib MAMA_STATUS_SYSTEM_ERROR
      else
        update Payloads (fun r => mkRegistry (table r) (<[payloadChar := payloadLib]> (byIndex r)) (count r + 1)) ;;
        d ← gets gDefaultPayload;
        (if d =? 0 then modify (put_gDefaultPayload impl) else mret tt) ;;
        mret (MAMA_STATUS_OK, Some impl).

(** From the structure of the bridge on. *)
Definition initialise_payload (payloadName : string) (handle : Z) (l : library) (impl : Z) : MM result :=
  let '(status, fns) := mamaInternal_registerPayloadFunctions (lib_exports l) handle payloadName ∅ in
  store impl (PayloadBridge fns 0) ;;
  if negb (status_ok status) then error_handling_impl_allocated handle impl status
  else
    set_meta l ;;
    if negb (status_ok (lib_init l)) then error_handling_impl_allocated handle impl (lib_init l)
    else
      text ← mamaInternal_getMetaProperty (snprintf MAX_INTERNAL_PROP_LEN ("mama." ++ payloadName ++ ".compile_version"));
      compatible ← check_version text;
      if negb compatible then error_handling_impl_allocated handle impl MAMA_STATUS_INVALID_ARG
      else
        payloadChar ← mamaInternal_getPayloadId payloadName impl;
        register_payload payloadName handle impl payloadChar.

Definition load_payload (payloadName : string) : MM result :=
  bridge ← loaded Payloads payloadName;
  if negb (bridge =? 0) then mret (MAMA_STATUS_OK, Some bridge)
  else
    n ← gets (fun w => count (payloads w));
    if MAMA_PAYLOAD_MAX <=? n then mret (MAMA_STATUS_NO_BRIDGE_IMPL, None)
    else
      handle ← open_lib (snprintf 256 ("mama" ++ payloadName ++ "impl")) None;
      if handle =? 0 then
        mama_getProperty "mama.payload.suppress_load_failure_logging" ;;
        mret (MAMA_STATUS_NO_BRIDGE_IMPL, None)
      else
        l ← get_library handle;
        if negb (lib_exports l (snprintf 256 (payloadName ++ "Payload_init"))) then error_handling_impl handle MAMA_STATUS_INVALID_ARG
        else
          impl ← calloc (PayloadBridge ∅ 0);
          if impl =? 0 then error_handling_impl handle MAMA_STATUS_NOMEM
          else initialise_payload payloadName handle l impl.

(** The status and what *impl is set to, [None] when it is left alone. *)
Definition mama_loadPayloadBridgeInternal (impl : bool) (payloadName : option string) : MM result :=
  match impl, payloadName with
  | true, Some payloadName =>
      status ← mamaInternal_init;
      if negb (status_ok status) then mret (status, None)
      else
        lock ;;
        r ← load_payload payloadName;
        unlock ;;
        mret r
  | _, _ => mret (MAMA_STATUS_NULL_ARG, None)
  end.

Definition mama_loadPayloadBridge := mama_loadPayloadBridgeInternal.

Definition mama_setDefaultPayload (id : Z) : MM mama_status :=
  if id =? MAMA_PAYLOAD_NULL then mret MAMA_STATUS_NULL_ARG
  else
    lib ← byChar id;
    if lib =? 0 then mret MAMA_STATUS_NULL_ARG
    else
      l ← get_lib lib;
      modify (put_gDefaultPayload l.1) ;;
      mret MAMA_STATUS_OK.

Definition mamaInternal_findPayload (id : Z) : MM Z :=
  if id =? MAMA_PAYLOAD_NULL then mret 0
  else
    lib ← byChar id;
    if lib =? 0 then mret 0 else l ← get_lib lib; mret l.1.

(** ** Middleware bridges *)

(** The functions of the base library are added to those of the bridge; its handle
    is kept nowhere. *)
Definition load_base (handle impl : Z) (path : option string) (k : MM result) : MM result :=
  baseLibHandle ← open_lib "mamabaseimpl" path;
  if baseLibHandle =? 0 then mret (MAMA_STATUS_NO_BRIDGE_IMPL, Some impl)
  else
    base ← get_library baseLibHandle;
    b ← get_bridge impl;
    let '(status, fns) := mamaInternal_registerMiddlewareFunctions (lib_exports base) baseLibHandle "base" (bridgeFunctions b) in
    store impl (MiddlewareBridge (mkBridge fns (mLock b) (mDefaultEventQueue b) (mRefCount b) (mEntitleDeferred b) (mStartBackgroundThread b))) ;;
    if negb (status_ok status) then error_handling_impl_allocated handle impl status else k.

Definition bridge_close (impl : Z) : MM mama_status :=
  b ← get_bridge impl;
  l ← call_fn (bridgeFunctions b) "Bridge_close";
  invoke (BridgeClose impl) ;;
  mret (lib_close l).

(** [bridgeOpen], which makes the default queue. *)
Definition bridge_open (impl : Z) : MM mama_status :=
  b ← get_bridge impl;
  l ← call_fn (bridgeFunctions b) "Bridge_open";
  invoke (BridgeOpen impl) ;;
  store impl (MiddlewareBridge (mkBridge (bridgeFunctions b) (mLock b) (lib_queue l) (mRefCount b) (mEntitleDeferred b) (mStartBackgroundThread b))) ;;
  mret (lib_open l).

(** From the version check on. *)
Definition open_middleware (middlewareName : string) (handle impl : Z) : MM result :=
  text ← mamaBridgeImpl_getMetaProperty impl "compile_version";
  compatible ← check_version text;
  if negb compatible then error_handling_impl_allocated handle impl MAMA_STATUS_INVALID_ARG
  else
    status ← bridge_open impl;
    if negb (status_ok status) then free impl ;; error_handling_impl handle status
    else
      middlewareLib ← calloc (MiddlewareLib impl handle);
      if middlewareLib =? 0 then bridge_close impl ;; error_handling_impl handle MAMA_STATUS_NOMEM
      else
        inserted ← wtable_insert Middlewares middlewareName middlewareLib;
        if negb (inserted =? 1) then
          status ← bridge_close impl;
          error_handling_lib handle impl middlewareLib status
        else
          update Middlewares (fun r => mkRegistry (table r) (<[count r := middlewareLib]> (byIndex r)) (count r + 1)) ;;
          mret (MAMA_STATUS_OK, Some impl).

(** From the structure of the bridge on. *)
Definition initialise_middleware (middlewareName : string) (path : option string) (handle : Z) (l : library) (impl : Z) : MM result :=
  mem ← alloc;
  mLock ← (if mem : bool then new Lock else mret 0);
  let '(bridgeMethodStatus, fns) := mamaInternal_registerMiddlewareFunctions (lib_exports l) handle middlewareName ∅ in
  store impl (MiddlewareBridge (mkBridge fns mLock 0 0 false false)) ;;
  set_meta l ;;
  if negb (status_ok (lib_init l)) then error_handling_impl_allocated handle impl (lib_init l)
  else
    mamaBridgeImpl_populateBridgeMetaData impl ;;
    extends ← mamaBridgeImpl_getMetaProperty impl "extends_base_bridge";
    if strtobool extends then load_base handle impl path (open_middleware middlewareName handle impl)
    else if negb (status_ok bridgeMethodStatus) then error_handling_impl_allocated handle impl (lib_init l)
    else open_middleware middlewareName handle impl.

Definition load_middleware (middlewareName : string) (path : option string) : MM result :=
  bridge ← loaded Middlewares middlewareName;
  if negb (bridge =? 0) then mret (MAMA_STATUS_OK, Some bridge)
  else
    n ← gets (fun w => count (middlewares w));
    if MAMA_MAX_MIDDLEWARES <=? n then mret (MAMA_STATUS_NO_BRIDGE_IMPL, None)
    else
      handle ← open_lib (snprintf 256 ("mama" ++ middlewareName ++ "impl")) path;
      if handle =? 0 then mret (MAMA_STATUS_NO_BRIDGE_IMPL, None)
      else
        l ← get_library handle;
        if negb (lib_exports l (snprintf 256 (middlewareName ++ "Bridge_init"))) then error_handling_impl handle MAMA_STATUS_INVALID_ARG
        else
          impl ← calloc (MiddlewareBridge (mkBridge ∅ 0 0 0 false false));
          if impl =? 0 then error_handling_impl handle MAMA_STATUS_NOMEM
          else initialise_middleware middlewareName path handle l impl.

Definition mama_loadBridgeWithPathInternal (impl : bool) (middlewareName : option string) (path : option string) : MM result :=
  match impl, middlewareName with
  | true, Some middlewareName =>
      status ← mamaInternal_init;
      if negb (status_ok status) then mret (status, None)
      else
        lock ;;
        r ← load_middleware middlewareName path;
        unlock ;;
        mret r
  | _, _ => mret (MAMA_STATUS_NULL_ARG, None)
  end.

Definition mama_loadBridgeWithPath := mama_loadBridgeWithPathInternal.
Definition mama_loadBridge (impl : bool) (middlewareName : option string) : MM result :=
  mama_loadBridgeWithPath impl middlewareName None.

(** The bridge, NULL when there is none. *)
Definition get_loaded (k : kind) (name : option string) (out : bool) : MM result :=
  match out, name with
  | true, Some name =>
      lock ;;
      bridge ← loaded k name;
      unlock ;;
      mret (if negb (bridge =? 0) then MAMA_STATUS_OK else MAMA_STATUS_NOT_FOUND, Some bridge)
  | _, _ => mret (MAMA_STATUS_NULL_ARG, None)
  end.
Definition mama_getMiddlewareBridge (out : bool) (name : option string) : MM result := get_loaded Middlewares name out.
Definition mama_getPayloadBridge (out : bool) (name : option string) : MM result := get_loaded Payloads name out.

Definition mamaInternal_findBridge : MM Z :=
  m ← gets (fun w => byIndex (middlewares w));
  match m !! 0 with
  | None => mret 0
  | Some lib => l ← get_lib lib; mret l.1
  end.

(** ** Entitlement bridges *)

(** From the structure of the bridge on: [initFunc] gives the structure of the
    implementation.  The status of the last part stays OK. *)
Definition initialise_entitlement (name : string) (handle : Z) (l : library) (entBridge : Z) : MM mama_status :=
  set_meta l ;;
  if negb (status_ok (lib_init l)) then free entBridge ;; closeSharedLib handle ;; mret (lib_init l)
  else
    let '(status, fns) := mamaInternal_registerEntitlementFunctions (lib_exports l) handle name ∅ in
    store entBridge (EntitlementBridge fns (lib_impl l)) ;;
    if negb (status_ok status) then closeSharedLib handle ;; mret status
    else
      entitlementLib ← calloc (EntitlementLib entBridge handle);
      if entitlementLib =? 0 then mret MAMA_STATUS_NOMEM
      else
        insertCheck ← wtable_insert Entitlements name entitlementLib;
        (if negb (insertCheck =? 1) then mret tt
         else update Entitlements (fun r => mkRegistry (table r) (<[count r := entitlementLib]> (byIndex r)) (count r + 1))) ;;
        mret status.

Definition load_entitlement (name : string) : MM mama_status :=
  bridge ← loaded Entitlements name;
  if negb (bridge =? 0) then mret MAMA_STATUS_OK
  else
    n ← gets (fun w => count (entitlements w));
    if MAMA_MAX_ENTITLEMENTS <=? n then mret MAMA_STATUS_NO_BRIDGE_IMPL
    else
      handle ← open_lib (snprintf 256 ("mamaent" ++ name)) None;
      if handle =? 0 then mret MAMA_STATUS_NO_BRIDGE_IMPL
      else
        l ← get_library handle;
        if negb (lib_exports l (snprintf 256 (name ++ "EntitlementBridge_init"))) then closeSharedLib handle ;; mret MAMA_STATUS_NOT_IMPLEMENTED
        else
          entBridge ← calloc (EntitlementBridge ∅ 0);
          if entBridge =? 0 then closeSharedLib handle ;; mret MAMA_STATUS_NOMEM
          else initialise_entitlement name handle l entBridge.

Definition mama_loadEntitlementBridgeInternal (name : option string) : MM mama_status :=
  match name with
  | None => mret MAMA_STATUS_NULL_ARG
  | Some name =>
      status ← mamaInternal_init;
      if negb (status_ok status) then mret status
      else
        lock ;;
        status ← load_entitlement name;
        unlock ;;
        mret status
  end.

(** mamaEntitlementBridge_destroy (entitlement.c). *)
Definition mamaEntitlementBridge_destroy (bridge : Z) : MM unit :=
  if bridge =? 0 then mret tt
  else
    o ← load bridge;
    match o with
    | EntitlementBridge fns mImpl =>
        (if mImpl =? 0 then mret tt else call_fn fns "EntitlementBridge_destroy" ;; invoke (EntitlementDestroy bridge)) ;;
        free bridge
    | _ => fail InvalidDeref
    end.

(** ** Statistics *)

Definition group_name (g : group) : string :=
  match g with Global => "global" | Transport => "transport" | Queue => "queue" | Lbm => "lbm" | User => "user" end.
Definition groups : list group := [Global; Transport; Queue; Lbm; User].

(** A property that is not set leaves the flag. *)
Definition flag_from (v : option string) (old : bool) : bool := match v with Some s => strtobool (Some s) | None => old end.

Definition read_flags (g : group) : MM unit :=
  log ← prop ("mama.statslogging." ++ group_name g ++ ".logging");
  publish ← prop ("mama.statslogging." ++ group_name g ++ ".publishing");
  modify (fun w =>
    let f := flags w g in
    let log := flag_from log (gLog f) in
    let publish := flag_from publish (gPublish f) in
    put_flags (fun g' => if decide (g' = g) then mkFlags log publish (gGenerate f || log || publish) else flags w g') w).

Definition mamaInternal_statsPublishingEnabled : MM bool := gets (fun w => existsb (fun g => gPublish (flags w g)) groups).

(** The bridge is used whatever loading it gave: it is a variable without a value
    when nothing was written to it. *)
Definition mama_setupStatsGenerator : MM unit :=
  mem ← alloc;
  if negb mem then mret tt
  else
    modify (put_gStatsGenerator true) ;;
    publishing ← mamaInternal_statsPublishingEnabled;
    if negb publishing then mret tt
    else
      statsMiddleware ← prop "mama.statslogging.middleware";
      r ← mama_loadBridge true (Some (default "wmw" statsMiddleware));
      match r.2 with
      | None => fail InvalidDeref
      | Some bridge => if bridge =? 0 then mret tt else invoke (GetInternalEventQueue bridge)
      end.

Definition indices (n : Z) : list Z := seqZ 0 n.

(** The loop over the entries of a registry that are not NULL. *)
Definition for_each_lib (k : kind) (f : Z -> Z -> MM unit) : MM unit :=
  n ← gets (fun w => count (registry_of k w));
  for_each (fun i => m ← gets (fun w => byIndex (registry_of k w));
                     match m !! i with Some lib => f i lib | None => mret tt end) (indices n).

Definition mama_statsInit : MM mama_status :=
  statsLogging ← prop "mama.statslogging.enable";
  (if strtobool statsLogging then
     for_each read_flags groups ;;
     mama_setupStatsGenerator ;;
     invoke EnableStatsLogging ;;
     for_each_lib Middlewares (fun _ lib =>
       l ← get_lib lib;
       if l.1 =? 0 then mret tt else b ← get_bridge l.1; invoke (EnableStats (mDefaultEventQueue b)))
   else mret tt) ;;
  mret MAMA_STATUS_OK.

(** ** Closing *)

Definition close_entitlement (i lib : Z) : MM unit :=
  update Entitlements (fun r => set_byIndex (delete i (byIndex r)) r) ;;
  l ← get_lib lib;
  mamaEntitlementBridge_destroy l.1 ;;
  (if l.2 =? 0 then mret tt else closeSharedLib l.2) ;;
  free lib.

(** A payload that is kept loaded only leaves the index. *)
Definition close_payload (id : Z) : MM unit :=
  lib ← byChar id;
  if lib =? 0 then mret tt
  else
    update Payloads (fun r => set_byIndex (delete id (byIndex r)) r) ;;
    o ← load lib;
    match o with
    | PayloadLib bridge library _ keepLoaded =>
        if keepLoaded then mret tt
        else
          free bridge ;;
          (if library =? 0 then mret tt else closeSharedLib library) ;;
          free lib
    | _ => fail InvalidDeref
    end.

Definition close_bridge (bridge : Z) : MM unit :=
  if bridge =? 0 then mret tt
  else
    bridge_close bridge ;;
    b ← get_bridge bridge;
    (if mLock b =? 0 then mret tt else free (mLock b)) ;;
    (if mStartBackgroundThread b then invoke (DestroyThread bridge) else mret tt) ;;
    free bridge.

Definition close_middleware (i lib : Z) : MM unit :=
  l ← get_lib lib;
  close_bridge l.1 ;;
  (if l.2 =? 0 then mret tt else closeSharedLib l.2) ;;
  free lib ;;
  update Middlewares (fun r => set_byIndex (delete i (byIndex r)) r).

Definition stop_queue (i lib : Z) : MM unit :=
  l ← get_lib lib; if l.1 =? 0 then mret tt else invoke (StopInternalEventQueue l.1).

(** What the last [mama_close] does. *)
Definition close_all : MM unit :=
  for_each_lib Entitlements close_entitlement ;;
  update Entitlements (fun r => set_count 0 (set_table None r)) ;;
  modify (fun w => put_keys (keys w - 1) w) ;;
  s ← gets gStatsGenerator;
  (if s : bool then invoke StopReportTimer else mret tt) ;;
  for_each_lib Middlewares stop_queue ;;
  (if s : bool then invoke DestroyStats ;; modify (put_gStatsGenerator false) else mret tt) ;;
  invoke CleanupReservedFields ;;
  for_each close_payload (indices MAMA_PAYLOAD_MAX) ;;
  update Payloads (set_table None) ;;
  invoke ShutdownPlugins ;;
  update Payloads (set_count 0) ;;
  modify (put_gDefaultPayload 0) ;;
  for_each_lib Middlewares close_middleware ;;
  update Middlewares (fun r => set_count 0 (set_table None r)) ;;
  modify (put_internalProperties None) ;;
  modify (put_gProperties None) ;;
  invoke LogDestroy ;;
  invoke TimeZoneCleanUp ;;
  modify (put_appContext (None, None)).

(** [wInterlocked_decrement] of a number that is positive. *)
Definition decrement_init : MM unit := modify (fun w => if 0 <? init w then put_init (version w) (init w - 1) w else w).

(** The status and *count. *)
Definition mama_closeCount : MM (mama_status * Z) :=
  lock ;;
  n ← gets myRefCount;
  if n =? 0 then unlock ;; mret (MAMA_STATUS_OK, 0)
  else
    modify (put_myRefCount (n - 1)) ;;
    (if n - 1 =? 0 then close_all else mret tt) ;;
    decrement_init ;;
    decrement_init ;;
    unlock ;;
    mret (MAMA_STATUS_OK, n - 1).

Definition mama_close : MM mama_status := r ← mama_closeCount; mret r.1.

(** ** Opening *)

Definition mama_setApplicationName (name : option string) : MM mama_status :=
  modify (fun w => put_appContext (name, (appContext w).2) w) ;; mret MAMA_STATUS_OK.
Definition mama_setApplicationClassName (name : option string) : MM mama_status :=
  modify (fun w => put_appContext ((appContext w).1, name) w) ;; mret MAMA_STATUS_OK.

(** The key replaces the one that was there. *)
Definition create_key : MM unit :=
  modify (fun w => if keys w <? PTHREAD_KEYS_MAX then put_keys (keys w + 1) w else w).

Definition default_names : MM unit :=
  c ← gets appContext;
  (if c.1 : option string then mret tt else mama_setApplicationName (Some "MamaApplication") ;; mret tt) ;;
  (if c.2 : option string then mret tt else mama_setApplicationClassName (Some "MamaApplications") ;; mret tt).

Fixpoint load_entitlements (l : list string) : MM mama_status :=
  match l with
  | [] => mret MAMA_STATUS_OK
  | name :: l' =>
      status ← mama_loadEntitlementBridgeInternal (Some name);
      if status_ok status then load_entitlements l' else mret status
  end.

Definition load_default_payload : MM unit :=
  d ← gets gDefaultPayload;
  if negb (d =? 0) then mret tt
  else
    p ← prop "mama.payload.default";
    match p with
    | None => mret tt
    | Some name =>
        mama_loadPayloadBridge true (Some name) ;;
        payloadLib ← wtable_lookup Payloads name;
        if payloadLib =? 0 then mret tt
        else
          o ← load payloadLib;
          match o with PayloadLib _ _ id _ => mama_setDefaultPayload id ;; mret tt | _ => fail InvalidDeref end
    end.

Definition AUTOLOAD : string := "mama.payload.autoload.".

Definition autoloadPayloadPropertiesCb (name value : string) : MM unit :=
  if String.prefix AUTOLOAD name then
    let payloadBridgeName := String.substring (String.length AUTOLOAD) (String.length name) name in
    if negb (len payloadBridgeName =? 0) && strtobool (Some value) then
      mama_loadPayloadBridge true (Some payloadBridgeName) ;; mret tt
    else mret tt
  else mret tt.

Definition mamaInternal_autoloadPayloadBridges : MM mama_status :=
  mama_loadDefaultProperties ;;
  p ← get_props;
  for_each (fun kv => autoloadPayloadPropertiesCb kv.1 kv.2) (properties_ForEach p) ;;
  mret MAMA_STATUS_OK.

(** The payloads a middleware asks for: up to the character that ends the list. *)
Fixpoint load_payloads (l : list (string * Z)) : MM unit :=
  match l with
  | [] => mret tt
  | (payloadName, payloadId) :: l' =>
      if payloadId =? MAMA_PAYLOAD_NULL then mret tt
      else
        lib ← byChar payloadId;
        (if lib =? 0 then mama_loadPayloadBridge true (Some payloadName) ;; mret tt else mret tt) ;;
        load_payloads l'
  end.

Definition load_middleware_payloads (i lib : Z) : MM unit :=
  l ← get_lib lib;
  if l.1 =? 0 then mret tt
  else
    b ← get_bridge l.1;
    lib ← call_fn (bridgeFunctions b) "Bridge_getDefaultPayloadId";
    match lib_payloadIds lib with Some ids => load_payloads ids | None => mret tt end.

(** The version of the bridge is logged. *)
Definition log_version (i lib : Z) : MM unit :=
  l ← get_lib lib;
  b ← get_bridge l.1;
  call_fn (bridgeFunctions b) "Bridge_getVersion" ;; mret tt.

(** The bridges that are not NULL. *)
Definition count_bridges : MM Z :=
  r ← gets middlewares;
  for_each_lib Middlewares log_version ;;
  mret (Z.of_nat (length (filter (fun i => is_Some (byIndex r !! i)) (indices (count r))))).

Definition read_options : MM unit :=
  catch ← prop "mama.catchcallbackexceptions.enable";
  (if strtobool catch then modify (put_gCatchCallbackExceptions true) else mret tt) ;;
  allow ← prop "mama.message.allowmodify";
  match allow with
  | Some v => if strtobool (Some v) then mret tt else modify (put_gAllowMsgModify false)
  | None => mret tt
  end.

(** What the first [mama_open] does after the entitlement bridges: the status. *)
Definition open_rest : MM mama_status :=
  load_default_payload ;;
  result ← mamaInternal_autoloadPayloadBridges;
  for_each_lib Middlewares load_middleware_payloads ;;
  invoke InitPlugins ;;
  read_options ;;
  numBridges ← count_bridges;
  d ← gets gDefaultPayload;
  if (numBridges =? 0) || (d =? 0) then invoke CleanupReservedFields ;; mret MAMA_STATUS_NO_BRIDGE_IMPL
  else mama_statsInit ;; modify (fun w => put_myRefCount (u32 (myRefCount w + 1)) w) ;; mret result.

Definition first_open (path filename : option string) : MM mama_status :=
  mamaInternal_loadProperties path filename ;;
  invoke InitReservedFields ;;
  invoke LogInit ;;
  invoke ThreadProperties ;;
  status ← load_entitlements gEntitlementBridges;
  if negb (status_ok status) then unlock ;; mama_close ;; mret status
  else
    result ← open_rest;
    unlock ;;
    mret result.

(** The status and *count. *)
Definition mama_openWithPropertiesCount (path filename : option string) : MM (mama_status * Z) :=
  lock ;;
  create_key ;;
  default_names ;;
  n ← gets myRefCount;
  status ← (if negb (n =? 0) then modify (put_myRefCount (u32 (n + 1))) ;; unlock ;; mret MAMA_STATUS_OK
            else first_open path filename);
  n ← gets myRefCount;
  mret (status, n).

Definition mama_open : MM mama_status := r ← mama_openWithPropertiesCount None None; mret r.1.

End Mama.
End Mama.
