(* ===== verification/MamaInv.v ===== *)
(** * The registries stay sound

    What every operation of Mama.v leaves intact: the structures the registries
    index are in memory, of the right kind and apart from each other, and nothing
    above the next address is used.  A failure may leak what it allocated or leave
    a dangling entry in a table of names; neither is reached from the indices. *)

From S2P Require Import Prelude MamaStatus Cstdio Text StrUtils MamaRegister Mama.
From Stdlib Require Import Ascii String.
From stdpp Require Import strings.
#[local] Open Scope Z_scope.
Import Cstdio StrUtils MamaRegister Mama.

Module MamaInv.

Section Inv.
Context {P : Type} `{PropertyTable P}.
Context (openSharedLib : string -> option string -> option library).
Context (getenv : string -> option string).
Context (mama_version : string) (gEntitlementBridges : list string).

Abbreviation MM := (M (world P)).
Implicit Types w : world P.

(** ** Commands that only touch properties, tables and versions *)

(** The rest of the world. *)
Record core : Type := mkCore {
  c_heap : gmap Z obj;
  c_brk : Z;
  c_middlewares : gmap Z Z * Z;
  c_payloads : gmap Z Z * Z;
  c_entitlements : gmap Z Z * Z;
  c_refs : Z * Z * Z * Z;
  c_calls : list call;
}.

Definition index_of (r : registry) : gmap Z Z * Z := (byIndex r, count r).

Definition core_of w : core :=
  mkCore (heap w) (brk w) (index_of (middlewares w)) (index_of (payloads w)) (index_of (entitlements w))
    (myRefCount w, myLock w, gDefaultPayload w, keys w) (calls w).

Lemma core_index k w w' : core_of w' = core_of w ->
  byIndex (registry_of k w') = byIndex (registry_of k w) /\ count (registry_of k w') = count (registry_of k w).
Proof. unfold core_of, index_of. intros [=]. by destruct k. Qed.

Lemma core_heap w w' : core_of w' = core_of w -> heap w' = heap w /\ brk w' = brk w.
Proof. by intros [=]. Qed.

Definition quiet {A} (m : MM A) : Prop := forall w, tr m w (fun _ w' => core_of w' = core_of w).

Lemma quiet_ret {A} (a : A) : quiet (mret a).
Proof. done. Qed.

Lemma quiet_fail {A} f : quiet (fail f : MM A).
Proof. done. Qed.

Lemma quiet_gets {A} (f : world P -> A) : quiet (gets f).
Proof. done. Qed.

Lemma quiet_modify f : (forall w, core_of (f w) = core_of w) -> quiet (modify f).
Proof. intros Hf w. apply Hf. Qed.

Lemma quiet_bind {A B} (m : MM A) (k : A -> MM B) : quiet m -> (forall a, quiet (k a)) -> quiet (m ≫= k).
Proof.
  intros Hm Hk w. apply tr_bind. eapply tr_mono; [apply Hm|]. intros a s' E. cbn beta in E.
  eapply tr_mono; [apply Hk|]. intros b s'' E'. cbn beta in E'. by rewrite E'.
Qed.

Lemma quiet_tr {A} (m : MM A) w Q : quiet m -> (forall a w', core_of w' = core_of w -> Q a w') -> tr m w Q.
Proof. intros Hm HQ. eapply tr_mono; [apply Hm|done]. Qed.

Lemma quiet_lift {A} (r : res A) : quiet (lift r).
Proof. intros w. by destruct r. Qed.

Lemma quiet_alloc : quiet (alloc : MM bool).
Proof. intros w. unfold alloc, tr. by destruct (allocs w). Qed.

Lemma quiet_load a : quiet (load a : MM obj).
Proof. intros w. unfold load, tr. by destruct (heap w !! a). Qed.

Lemma quiet_for_each {A} (f : A -> MM unit) l : (forall a, quiet (f a)) -> quiet (for_each f l).
Proof. intros Hf. induction l as [|a l IH]; [apply quiet_ret|]. apply quiet_bind; [apply Hf|done]. Qed.

Lemma core_update_table k t w : core_of (put_registry k (set_table t (registry_of k w)) w) = core_of w.
Proof. by destruct k. Qed.

End Inv.

Create HintDb mama_quiet discriminated.

Ltac quiet_step :=
  cbn beta iota zeta;
  lazymatch goal with
  | |- forall _, _ => intros ?
  | |- quiet (mret _) => apply quiet_ret
  | |- quiet (fail _) => apply quiet_fail
  | |- quiet (mbind _ _) => apply quiet_bind
  | |- quiet (gets _) => apply quiet_gets
  | |- quiet (lift _) => apply quiet_lift
  | |- quiet (for_each _ _) => apply quiet_for_each
  | |- quiet (load _) => apply quiet_load
  | |- quiet alloc => apply quiet_alloc
  | |- quiet (modify _) => apply quiet_modify; first [by intros ?|intros ?; apply core_update_table]
  | |- quiet (if _ then _ else _) => case_match
  | |- quiet (match _ with _ => _ end) => case_match
  | |- quiet (let '(_, _) := _ in _) => case_match
  | |- _ => solve [eauto with mama_quiet]
  end.
Ltac quiet_tac := repeat quiet_step.

Section Quiet.
Context {P : Type} `{PropertyTable P}.
Context (openSharedLib : string -> option string -> option library).
Context (getenv : string -> option string).
Context (mama_version : string).

Lemma quiet_prop name : quiet (prop name : M (world P) _).
Proof. unfold prop. quiet_tac. Qed.

Lemma quiet_get_props : quiet (get_props : M (world P) _).
Proof. unfold get_props. quiet_tac. Qed.

#[local] Hint Resolve quiet_prop quiet_get_props : mama_quiet.

Lemma quiet_loadProperties path file : quiet (mamaInternal_loadProperties getenv path file : M (world P) _).
Proof. unfold mamaInternal_loadProperties. quiet_tac. Qed.
#[local] Hint Resolve quiet_loadProperties : mama_quiet.

Lemma quiet_loadDefault : quiet (mama_loadDefaultProperties getenv : M (world P) _).
Proof. unfold mama_loadDefaultProperties. quiet_tac. Qed.
#[local] Hint Resolve quiet_loadDefault : mama_quiet.

Lemma quiet_getProperty name : quiet (mama_getProperty getenv name : M (world P) _).
Proof. unfold mama_getProperty. quiet_tac. Qed.

Lemma quiet_setProperty name v : quiet (mama_setProperty getenv name v : M (world P) _).
Proof. unfold mama_setProperty. quiet_tac. Qed.

Lemma quiet_getMeta name : quiet (mamaInternal_getMetaProperty name : M (world P) _).
Proof. unfold mamaInternal_getMetaProperty. quiet_tac. Qed.
#[local] Hint Resolve quiet_getMeta : mama_quiet.

Lemma quiet_setMeta name v : quiet (mamaInternal_setMetaProperty name v : M (world P) _).
Proof. unfold mamaInternal_setMetaProperty. quiet_tac. Qed.
#[local] Hint Resolve quiet_setMeta : mama_quiet.

Lemma quiet_set_meta l : quiet (set_meta l : M (world P) _).
Proof. unfold set_meta. quiet_tac. Qed.

Lemma quiet_get_bridge a : quiet (get_bridge a : M (world P) _).
Proof. unfold get_bridge. quiet_tac. Qed.

Lemma quiet_get_lib a : quiet (get_lib a : M (world P) _).
Proof. unfold get_lib. quiet_tac. Qed.

Lemma quiet_get_library a : quiet (get_library a : M (world P) _).
Proof. unfold get_library. quiet_tac. Qed.
#[local] Hint Resolve quiet_get_bridge quiet_get_library quiet_get_lib : mama_quiet.

Lemma quiet_payload_functions a : quiet (payload_functions_of a : M (world P) _).
Proof. unfold payload_functions_of. quiet_tac. Qed.

Lemma quiet_call_fn fns name : quiet (call_fn fns name : M (world P) _).
Proof. unfold call_fn. quiet_tac. Qed.
#[local] Hint Resolve quiet_call_fn quiet_payload_functions quiet_getProperty : mama_quiet.

Lemma quiet_bridgeMeta a p : quiet (mamaBridgeImpl_getMetaProperty a p : M (world P) _).
Proof. unfold mamaBridgeImpl_getMetaProperty. quiet_tac. Qed.

Lemma quiet_payloadId name a : quiet (mamaInternal_getPayloadId getenv name a : M (world P) _).
Proof. unfold mamaInternal_getPayloadId. quiet_tac. Qed.

Lemma quiet_check_version v : quiet (check_version v : M (world P) _).
Proof. unfold check_version. quiet_tac. Qed.

Lemma quiet_lookup k name : quiet (wtable_lookup k name : M (world P) _).
Proof. unfold wtable_lookup. quiet_tac. Qed.

Lemma quiet_insert k name a : quiet (wtable_insert k name a : M (world P) _).
Proof. unfold wtable_insert, update. quiet_tac. Qed.
#[local] Hint Resolve quiet_lookup : mama_quiet.

Lemma quiet_loaded k name : quiet (loaded k name : M (world P) _).
Proof. unfold loaded. quiet_tac. Qed.

Lemma quiet_byChar id : quiet (byChar id : M (world P) _).
Proof. unfold byChar. quiet_tac. Qed.

Lemma quiet_initialiseTable k : quiet (mamaInternal_initialiseTable k : M (world P) _).
Proof. unfold mamaInternal_initialiseTable, update. quiet_tac. Qed.
#[local] Hint Resolve quiet_initialiseTable : mama_quiet.

Lemma quiet_tables l : quiet (initialise_tables l : M (world P) _).
Proof. induction l as [|k l IH]; cbn [initialise_tables]; quiet_tac. Qed.
#[local] Hint Resolve quiet_tables : mama_quiet.

Lemma quiet_init_under_lock : quiet (init_under_lock mama_version : M (world P) _).
Proof. unfold init_under_lock. quiet_tac. Qed.

Lemma quiet_init : quiet (mamaInternal_init mama_version : M (world P) _).
Proof.
  intros w. unfold mamaInternal_init, lock, unlock. tr_pure. eapply quiet_tr; [apply quiet_init_under_lock|].
  intros status w' E. tr_pure. unfold core_of, index_of in *. injection E as E1 E2 E3 E4 E5 E6 E7 E8 E9 E10 E11 E12 E13. cbn in *.
  rewrite E1, E2, E3, E4, E5, E6, E7, E8, E9, E10, E11, E12, E13. do 2 f_equal. f_equal. f_equal. lia.
Qed.

End Quiet.

#[export] Hint Resolve quiet_prop quiet_get_props quiet_loadProperties quiet_loadDefault quiet_getProperty quiet_setProperty quiet_getMeta
  quiet_setMeta quiet_set_meta quiet_get_bridge quiet_get_library quiet_get_lib quiet_payload_functions quiet_call_fn quiet_bridgeMeta
  quiet_payloadId quiet_check_version quiet_lookup quiet_insert quiet_loaded quiet_byChar quiet_initialiseTable quiet_tables quiet_init : mama_quiet.

End MamaInv.
