(* ===== verification/MamaLoads.v ===== *)
(** * What loading a bridge leaves behind

    The outcomes of the loaders of Mama.v: the heap, the indices and the counters
    after a success and after every failure. *)

From S2P Require Import Prelude MamaStatus Cstdio Text StrUtils MamaRegister Mama MamaInv.
From Stdlib Require Import Ascii String.
From stdpp Require Import strings.
#[local] Open Scope Z_scope.
Import Cstdio StrUtils MamaRegister Mama MamaInv.

Module MamaLoads.

Section Loads.
Context {P : Type} `{PropertyTable P}.
Context (openSharedLib : string -> option string -> option library).
Context (getenv : string -> option string).
Context (mama_version : string).

Abbreviation MM := (M (world P)).
Implicit Types w : world P.

(** All that is in memory is between NULL and the next address. *)
Definition fresh (h : gmap Z obj) (b : Z) : Prop := 0 < b /\ forall a, is_Some (h !! a) -> 0 < a < b.

Definition rest w :=
  let c := core_of w in (c_middlewares c, c_payloads c, c_entitlements c, c_refs c, c_calls c).

(** The state while a bridge is loaded: the memory, and what is as in [w0]. *)
Definition at_ w0 (h : gmap Z obj) (b : Z) w : Prop := heap w = h /\ brk w = b /\ rest w = rest w0.

Lemma at_core w0 h b w w' : at_ w0 h b w -> core_of w' = core_of w -> at_ w0 h b w'.
Proof.
  intros (<- & <- & E) E'. destruct (core_heap _ _ E') as [E1 E2]. split_and!; [done..|]. rewrite <- E. unfold rest. by rewrite E'.
Qed.

Lemma at_refl w : at_ w (heap w) (brk w) w.
Proof. done. Qed.

Lemma at_heap w0 h b h' b' w : at_ w0 h b w -> at_ w0 h' b' (put_heap h' b' w).
Proof. by intros (? & ? & E). Qed.

Lemma tr_quiet {A} (m : MM A) w0 h b w Q : at_ w0 h b w -> quiet m -> (forall a w', at_ w0 h b w' -> Q a w') -> tr m w Q.
Proof. intros Hat Hm HQ. apply quiet_tr; [done|]. intros a w' E. apply HQ. by eapply at_core. Qed.

Lemma tr_new o w0 h b w Q : at_ w0 h b w -> (forall w', at_ w0 (<[b := o]> h) (b + 1) w' -> Q b w') -> tr (new o) w Q.
Proof. intros Hat HQ. pose proof Hat as (<- & <- & _). apply HQ. by eapply at_heap. Qed.

Lemma tr_calloc o w0 h b w Q : at_ w0 h b w -> (forall w', at_ w0 h b w' -> Q 0 w') ->
  (forall w', at_ w0 (<[b := o]> h) (b + 1) w' -> Q b w') -> tr (calloc o) w Q.
Proof.
  intros Hat H0 H1. unfold calloc. apply tr_bind. eapply tr_quiet; [done|apply quiet_alloc|]. intros [] w' Hat'.
  - by eapply tr_new.
  - by apply H0.
Qed.

Lemma tr_load a w0 h b w Q : at_ w0 h b w -> (forall o, h !! a = Some o -> Q o w) -> tr (load a) w Q.
Proof. intros (<- & _) HQ. unfold tr, load. destruct (heap w !! a); [by apply HQ|done]. Qed.

Lemma tr_store a o w0 h b w Q : at_ w0 h b w -> (forall o' w', h !! a = Some o' -> at_ w0 (<[a := o]> h) b w' -> Q tt w') -> tr (store a o) w Q.
Proof.
  intros Hat HQ. unfold store. apply tr_bind. eapply tr_load; [done|]. intros o' Ho. apply tr_modify.
  pose proof Hat as (E & E' & _). eapply HQ; [done|]. rewrite E, E'. by eapply at_heap.
Qed.

Lemma tr_free a w0 h b w Q : at_ w0 h b w -> a <> 0 -> (forall o w', h !! a = Some o -> at_ w0 (delete a h) b w' -> Q tt w') -> tr (free a) w Q.
Proof.
  intros Hat Ha HQ. unfold free. rewrite (proj2 (Z.eqb_neq a 0)) by done. apply tr_bind. eapply tr_load; [done|]. intros o Ho. apply tr_modify.
  pose proof Hat as (E & E' & _). eapply HQ; [done|]. rewrite E, E'. by eapply at_heap.
Qed.

Lemma tr_open_lib name path w0 h b w Q : at_ w0 h b w -> Q 0 w ->
  (forall l w', openSharedLib name path = Some l -> at_ w0 (<[b := Handle l]> h) (b + 1) w' -> Q b w') -> tr (open_lib openSharedLib name path) w Q.
Proof.
  intros Hat H0 H1. unfold open_lib. destruct (openSharedLib name path) as [l|] eqn:E; [|done].
  eapply tr_new; [done|]. intros w' Hat'. by eapply H1.
Qed.

Lemma tr_get_library a w0 h b w Q : at_ w0 h b w -> (forall l, h !! a = Some (Handle l) -> Q l w) -> tr (get_library a) w Q.
Proof. intros Hat HQ. unfold get_library. apply tr_bind. eapply tr_load; [done|]. intros [] Ho; try apply tr_fail. apply tr_ret. by apply HQ. Qed.

Lemma tr_get_bridge a w0 h b w Q : at_ w0 h b w -> (forall x, h !! a = Some (MiddlewareBridge x) -> Q x w) -> tr (get_bridge a) w Q.
Proof. intros Hat HQ. unfold get_bridge. apply tr_bind. eapply tr_load; [done|]. intros [] Ho; try apply tr_fail. apply tr_ret. by apply HQ. Qed.

(** The failures that free the bridge and close its library. *)
Lemma tr_error_allocated handle impl status w0 h b w (Q : result -> world P -> Prop) : at_ w0 h b w -> handle <> 0 -> impl <> 0 ->
  (forall w', at_ w0 (delete handle (delete impl h)) b w' -> Q (status, Some 0) w') ->
  tr (error_handling_impl_allocated handle impl status) w Q.
Proof.
  intros Hat H1 H2 HQ. unfold error_handling_impl_allocated, error_handling_impl, closeSharedLib. apply tr_bind. eapply tr_free; [done..|].
  intros o1 w1 _ Hat1. apply tr_bind. eapply tr_free; [done..|]. intros o2 w2 _ Hat2. apply tr_ret. by apply HQ.
Qed.

Lemma tr_error_lib handle impl lib status w0 h b w (Q : result -> world P -> Prop) : at_ w0 h b w -> handle <> 0 -> impl <> 0 -> lib <> 0 ->
  (forall w', at_ w0 (delete handle (delete impl (delete lib h))) b w' -> Q (status, Some 0) w') ->
  tr (error_handling_lib handle impl lib status) w Q.
Proof.
  intros Hat H1 H2 H3 HQ. unfold error_handling_lib. apply tr_bind. eapply tr_free; [done..|].
  intros o1 w1 _ Hat1. by eapply tr_error_allocated.
Qed.

(** ** Payloads *)

(** The memory and the indices are as they were. *)
Definition unchanged w w' : Prop := heap w' = heap w /\ brk w <= brk w' /\ rest w' = rest w.

Lemma at_unchanged w h b w' : at_ w h b w' -> h = heap w -> brk w <= b -> unchanged w w'.
Proof. intros (E1 & E2 & E) -> Hb. unfold unchanged. by rewrite E1, E2. Qed.

(** A payload is registered under a free character. *)
Definition payload_added w w' : Prop := exists l fns id keep,
  let b := brk w in
  heap w' = <[b + 2 := PayloadLib (b + 1) b id keep]> (<[b + 1 := PayloadBridge fns (b + 2)]> (<[b := Handle l]> (heap w))) /\
  brk w' = b + 3 /\
  0 <= id < MAMA_PAYLOAD_MAX /\ byIndex (payloads w) !! id = None /\
  index_of (payloads w') = (<[id := b + 2]> (byIndex (payloads w)), count (payloads w) + 1) /\
  index_of (middlewares w') = index_of (middlewares w) /\ index_of (entitlements w') = index_of (entitlements w) /\
  gDefaultPayload w' = (if gDefaultPayload w =? 0 then b + 1 else gDefaultPayload w) /\
  (myRefCount w', myLock w', keys w', calls w') = (myRefCount w, myLock w, keys w, calls w).

Definition payload_outcome w (r : result) w' : Prop := unchanged w w' \/ (r = (MAMA_STATUS_OK, Some (brk w + 1)) /\ payload_added w w').

Ltac heap_eq :=
  apply map_eq; intros ?a;
  repeat match goal with
  | |- context [delete ?k _ !! ?a] => destruct (decide (k = a)) as [<-|]; [rewrite lookup_delete_eq|rewrite lookup_delete_ne by done]
  | |- context [<[?k := _]> _ !! ?a] => destruct (decide (k = a)) as [<-|]; [rewrite lookup_insert_eq|rewrite lookup_insert_ne by done]
  end.

Lemma fresh_none h b a : fresh h b -> b <= a -> h !! a = None.
Proof. intros [_ Hf] Ha. apply eq_None_not_Some. intros Hs. apply Hf in Hs. lia. Qed.

Lemma delete_new h b o : fresh h b -> delete b (<[b := o]> h) = h.
Proof. intros Hf. apply delete_insert_id. apply (fresh_none h b); [done|lia]. Qed.

Lemma fresh_insert h b o : fresh h b -> fresh (<[b := o]> h) (b + 1).
Proof.
  intros [Hb Hf]. split; [lia|]. intros a. destruct (decide (b = a)) as [<-|]; [lia|]. rewrite lookup_insert_ne by done.
  intros Hs. apply Hf in Hs. lia.
Qed.

Lemma delete_two h b o1 o2 : fresh h b -> delete b (delete (b + 1) (<[b + 1 := o2]> (<[b := o1]> h))) = h.
Proof. intros Hf. rewrite delete_new by by apply fresh_insert. by apply delete_new. Qed.


Lemma tr_byChar id w0 h b w Q : at_ w0 h b w ->
  (id < MAMA_PAYLOAD_MAX -> Q (default 0 (byIndex (payloads w0) !! id)) w) -> tr (byChar id) w Q.
Proof.
  intros (_ & _ & E) HQ. unfold byChar. destruct (Z.ltb_spec id MAMA_PAYLOAD_MAX) as [Hid|]; [|apply tr_fail].
  tr_pure. unfold rest, index_of in E. injection E as E1 E2 E3 E4 E5. cbn in E3. rewrite E3. by apply HQ.
Qed.

(** No entry of the index is NULL. *)
Definition no_null_payload w : Prop := forall id, byIndex (payloads w) !! id <> Some 0.

Lemma register_payload_outcome w w1 name l fns id :
  fresh (heap w) (brk w) -> no_null_payload w -> 0 <= id ->
  at_ w (<[brk w + 1 := PayloadBridge fns 0]> (<[brk w := Handle l]> (heap w))) (brk w + 2) w1 ->
  tr (register_payload name (brk w) (brk w + 1) id) w1 (payload_outcome w).
Proof.
  intros Hf Hnull Hid0 Hat. pose proof Hf as [Hb _]. pose proof (fresh_insert _ _ (Handle l) Hf) as Hf1.
  unfold register_payload. apply tr_bind. eapply tr_calloc; [done|..]; intros w2 Hat2.
  { cbn [Z.eqb]. eapply tr_error_allocated; [done|lia|lia|]. intros w3 Hat3. left.
    eapply at_unchanged; [done|by apply delete_two|lia]. }
  rewrite (proj2 (Z.eqb_neq (brk w + 2) 0)) by lia.
  apply tr_bind. eapply tr_quiet; [done|eauto with mama_quiet|]. intros s w3 Hat3.
  apply tr_bind. eapply tr_store; [done|]. intros o w4 _ Hat4. apply tr_bind. eapply tr_quiet; [done|eauto with mama_quiet|]. intros st w5 Hat5.
  apply tr_bind. unfold payload_functions_of. apply tr_bind. eapply tr_load; [done|]. intros o5 Ho5.
  rewrite insert_insert_eq in Ho5. rewrite lookup_insert_ne, lookup_insert_eq in Ho5 by lia. injection Ho5 as <-. apply tr_ret.
  apply tr_bind. eapply tr_store; [done|]. intros o6 w6 _ Hat6. rewrite insert_insert_eq in Hat6.
  assert (forall status w', at_ w (delete (brk w) (delete (brk w + 1) (delete (brk w + 2)
    (<[brk w + 1 := PayloadBridge fns (brk w + 2)]> (<[brk w + 2 := PayloadLib (brk w + 1) (brk w) id (strtobool s)]>
      (<[brk w + 1 := PayloadBridge fns 0]> (<[brk w := Handle l]> (heap w)))))))) (brk w + 2 + 1) w' ->
    payload_outcome w (status, Some 0) w') as Hbad.
  { intros status w' Hat'. left. eapply at_unchanged; [done| |lia]. apply map_eq. intros a.
    pose proof (fresh_none _ _ a Hf).
    destruct (decide (a = brk w)) as [->|]; [rewrite lookup_delete_eq; symmetry; auto with lia|]. rewrite lookup_delete_ne by done.
    destruct (decide (a = brk w + 1)) as [->|]; [rewrite lookup_delete_eq; symmetry; auto with lia|]. rewrite lookup_delete_ne by done.
    destruct (decide (a = brk w + 2)) as [->|]; [rewrite lookup_delete_eq; symmetry; auto with lia|]. rewrite lookup_delete_ne by done.
    by rewrite !lookup_insert_ne by congruence. }
  destruct (Z.eqb_spec st 1) as [->|]; cbn [negb].
  2: { eapply tr_error_lib; [done|lia|lia|lia|]. intros w7. apply Hbad. }
  apply tr_bind. eapply tr_byChar; [done|]. intros Hid.
  destruct (Z.eqb_spec (default 0 (byIndex (payloads w) !! id)) 0) as [Hz|]; cbn [negb].
  2: { eapply tr_error_lib; [done|lia|lia|lia|]. intros w7. apply Hbad. }
  destruct (byIndex (payloads w) !! id) as [x|] eqn:Hx; [cbn in Hz; subst x; by apply Hnull in Hx|].
  pose proof Hat6 as (Eh & Eb & Er). unfold rest, index_of in Er. injection Er as R1 R2 R3 R4 R5 R6 R7 R8 R9 R10 R11. cbn in *.
  unfold update. tr_pure. case_match; tr_pure; right; (split; [done|]); exists l, fns, id, (strtobool s); cbn zeta;
    unfold index_of; cbn in *; rewrite ?Eh, ?Eb, ?R1, ?R2, ?R3, ?R4, ?R5, ?R6, ?R7, ?R8, ?R9, ?R10, ?R11.
  all: split_and!; try done; try lia; try (repeat case_match; congruence || lia).
  all: rewrite (insert_insert_ne _ (brk w + 1) (brk w + 2)) by lia; by rewrite insert_insert_eq.
Qed.

(** The character of a payload is not negative. *)
Lemma tr_payloadId name a w0 h b w Q : at_ w0 h b w -> (forall id w', 0 <= id -> at_ w0 h b w' -> Q id w') ->
  tr (mamaInternal_getPayloadId getenv name a) w Q.
Proof.
  intros Hat HQ. unfold mamaInternal_getPayloadId. apply tr_bind. eapply tr_quiet; [done|eauto with mama_quiet|]. intros [s|] w1 Hat1.
  - apply tr_ret. apply HQ; [|done]. destruct s; [done|]. unfold code. lia.
  - apply tr_bind. eapply tr_quiet; [done|eauto with mama_quiet|]. intros fns w2 Hat2.
    apply tr_bind. eapply tr_quiet; [done|eauto with mama_quiet|]. intros l w3 Hat3. apply tr_ret. apply HQ; [|done].
    by apply (uwrap_range 8).
Qed.

Lemma load_payload_outcome w w1 name :
  fresh (heap w) (brk w) -> no_null_payload w -> at_ w (heap w) (brk w) w1 ->
  tr (load_payload openSharedLib getenv name) w1 (payload_outcome w).
Proof.
  intros Hf Hnull Hat. pose proof Hf as [Hb _].
  unfold load_payload. apply tr_bind. eapply tr_quiet; [done|eauto with mama_quiet|]. intros bridge w2 Hat2.
  destruct (Z.eqb_spec bridge 0) as [->|]; cbn [negb]; [|apply tr_ret; left; by eapply at_unchanged].
  tr_pure. case_match; [tr_pure; left; by eapply at_unchanged|].
  apply tr_bind. eapply tr_open_lib; [done|cbn [Z.eqb]..|].
  { apply tr_bind. eapply tr_quiet; [done|eauto with mama_quiet|]. intros x w3 Hat3. apply tr_ret. left. by eapply at_unchanged. }
  intros l w3 _ Hat3. rewrite (proj2 (Z.eqb_neq (brk w) 0)) by lia.
  apply tr_bind. eapply tr_get_library; [done|]. intros l' Hl'. rewrite lookup_insert_eq in Hl'. injection Hl' as <-.
  assert (forall status w', at_ w (delete (brk w) (<[brk w := Handle l]> (heap w))) (brk w + 1) w' -> payload_outcome w (status, Some 0) w') as Hbad.
  { intros status w' Hat'. left. eapply at_unchanged; [done|by apply delete_new|lia]. }
  case_match.
  { unfold error_handling_impl, closeSharedLib. apply tr_bind. eapply tr_free; [done|lia|]. intros o w4 _ Hat4. apply tr_ret. by apply Hbad. }
  apply tr_bind. eapply tr_calloc; [done|..]; intros w4 Hat4.
  { cbn [Z.eqb]. unfold error_handling_impl, closeSharedLib. apply tr_bind. eapply tr_free; [done|lia|]. intros o w5 _ Hat5. apply tr_ret. by apply Hbad. }
  rewrite (proj2 (Z.eqb_neq (brk w + 1) 0)) by lia. unfold initialise_payload. destruct (mamaInternal_registerPayloadFunctions _ _ _ _) as [status fns].
  apply tr_bind. eapply tr_store; [done|]. intros o w5 _ Hat5. rewrite insert_insert_eq in Hat5.
  assert (forall status w', at_ w (<[brk w + 1 := PayloadBridge fns 0]> (<[brk w := Handle l]> (heap w))) (brk w + 2) w' ->
    tr (error_handling_impl_allocated (brk w) (brk w + 1) status) w' (payload_outcome w)) as Hbad2.
  { intros status' w' Hat'. eapply tr_error_allocated; [done|lia|lia|]. intros w6 Hat6. left.
    eapply at_unchanged; [done|by apply delete_two|lia]. }
  replace (brk w + 1 + 1) with (brk w + 2) in Hat5 by lia.
  case_match; [by apply Hbad2|].
  apply tr_bind. eapply tr_quiet; [done|eauto with mama_quiet|]. intros [] w6 Hat6. case_match; [by apply Hbad2|].
  apply tr_bind. eapply tr_quiet; [done|eauto with mama_quiet|]. intros text w7 Hat7.
  apply tr_bind. eapply tr_quiet; [done|eauto with mama_quiet|]. intros ok w8 Hat8. case_match; [by apply Hbad2|].
  apply tr_bind. eapply tr_payloadId; [done|]. intros id w9 Hid Hat9.
  by eapply register_payload_outcome.
Qed.

(** ** Middlewares *)

(** Memory in which only addresses from [lo] on differ from [h0]. *)
Definition grown (h0 : gmap Z obj) (lo : Z) (h : gmap Z obj) (b : Z) : Prop :=
  fresh h b /\ lo <= b /\ forall a, a < lo -> h !! a = h0 !! a.

Lemma grown_refl h b : fresh h b -> grown h b h b.
Proof. by intros Hf. Qed.

Lemma grown_new h0 lo h b o : grown h0 lo h b -> grown h0 lo (<[b := o]> h) (b + 1).
Proof.
  intros (Hf & Hle & Ha). split_and!; [by apply fresh_insert|lia|]. intros a Hlt. rewrite lookup_insert_ne by lia. by apply Ha.
Qed.

Lemma grown_delete h0 lo h b a : grown h0 lo h b -> lo <= a -> grown h0 lo (delete a h) b.
Proof.
  intros ([Hb Hf] & Hle & Ha) Hla. split_and!; [split; [done|]|done|].
  - intros a'. destruct (decide (a = a')) as [<-|]; [rewrite lookup_delete_eq; by intros [? ?]|rewrite lookup_delete_ne by done; apply Hf].
  - intros a' Hlt. rewrite lookup_delete_ne by lia. by apply Ha.
Qed.

Lemma grown_store h0 lo h b a o : grown h0 lo h b -> lo <= a -> is_Some (h !! a) -> grown h0 lo (<[a := o]> h) b.
Proof.
  intros ([Hb Hf] & Hle & Ha) Hla Hs. split_and!; [split; [done|]|done|].
  - intros a'. destruct (decide (a = a')) as [<-|]; [by intros _; apply Hf|rewrite lookup_insert_ne by done; apply Hf].
  - intros a' Hlt. rewrite lookup_insert_ne by lia. by apply Ha.
Qed.

(** The state up to the calls of other components. *)
Definition at_calls w0 h b w : Prop := exists c, at_ (put_calls c w0) h b w.

Lemma tr_invoke c w0 h b w (Q : unit -> world P -> Prop) : at_calls w0 h b w -> (forall w', at_calls w0 h b w' -> Q tt w') -> tr (invoke c) w Q.
Proof.
  intros (cs & E1 & E2 & E3) HQ. unfold invoke. apply tr_modify. apply HQ. exists (calls w ++ [c]). split_and!; [done..|].
  unfold rest, core_of, index_of in *. cbn in *. by injection E3 as -> -> -> -> -> -> -> -> -> -> _.
Qed.

(** A bridge that is being loaded: its handle is at [lo], its structure after it. *)
Record loading (h0 : gmap Z obj) (lo : Z) (h : gmap Z obj) (b : Z) (l : library) (br : mamaBridgeImpl) : Prop := mkLoading {
  ld_grown : grown h0 lo h b;
  ld_handle : h !! lo = Some (Handle l);
  ld_impl : h !! (lo + 1) = Some (MiddlewareBridge br);
  ld_lock : mLock br = 0 \/ (lo <= mLock br /\ h !! mLock br = Some Lock);
  ld_functions : forall k x, bridgeFunctions br !! k = Some x -> lo <= x /\ exists l', h !! x = Some (Handle l');
}.

(** What a registered middleware consists of. *)
Record middleware_at (h : gmap Z obj) (lib : Z) (bridge handle : Z) (br : mamaBridgeImpl) (closer : Z) : Prop := mkMiddlewareAt {
  ma_lib : h !! lib = Some (MiddlewareLib bridge handle);
  ma_bridge : h !! bridge = Some (MiddlewareBridge br);
  ma_handle : exists l, h !! handle = Some (Handle l);
  ma_lock : mLock br = 0 \/ h !! mLock br = Some Lock;
  ma_close : bridgeFunctions br !! "Bridge_close"%string = Some closer;
  ma_closer : exists l, h !! closer = Some (Handle l);
}.

Definition refs w := (myRefCount w, myLock w, gDefaultPayload w, keys w).

(** The heap grew, and the indices are as they were or have the new bridge. *)
Definition middleware_outcome w (r : result) w' : Prop :=
  grown (heap w) (brk w) (heap w') (brk w') /\ refs w' = refs w /\
  index_of (payloads w') = index_of (payloads w) /\ index_of (entitlements w') = index_of (entitlements w) /\
  (index_of (middlewares w') = index_of (middlewares w) \/
   exists lib handle br closer, r.1 = MAMA_STATUS_OK /\ count (middlewares w) < MAMA_MAX_MIDDLEWARES /\
     r.2 = Some (brk w + 1) /\
     index_of (middlewares w') = (<[count (middlewares w) := lib]> (byIndex (middlewares w)), count (middlewares w) + 1) /\
     middleware_at (heap w') lib (brk w + 1) handle br closer /\ brk w <= lib /\ brk w <= handle /\ brk w <= closer /\
     (mLock br = 0 \/ brk w <= mLock br)).

Lemma outcome_same w h b w' r : at_calls w h b w' -> grown (heap w) (brk w) h b -> middleware_outcome w r w'.
Proof.
  intros (c & <- & <- & E) Hg. unfold rest, core_of, index_of in E. cbn in E. unfold middleware_outcome, refs, index_of in *.
  injection E as -> -> -> -> -> -> -> -> -> -> _. split_and!; try done. by left.
Qed.

Lemma tr_error_outcome w w1 impl h b status : at_calls w h b w1 -> grown (heap w) (brk w) h b -> 0 < brk w -> brk w <= impl ->
  tr (error_handling_impl_allocated (brk w) impl status) w1 (middleware_outcome w).
Proof.
  intros (c & Hat) Hg Hb Hi. eapply tr_error_allocated; [done|lia|lia|]. intros w2 Hat2.
  eapply outcome_same; [by exists c|]. apply grown_delete; [apply grown_delete; [done|lia]|lia].
Qed.

Lemma tr_close_handle_outcome w w1 h b status : at_calls w h b w1 -> grown (heap w) (brk w) h b -> 0 < brk w ->
  tr (error_handling_impl (brk w) status) w1 (middleware_outcome w).
Proof.
  intros (c & Hat) Hg Hb. unfold error_handling_impl, closeSharedLib. apply tr_bind. eapply tr_free; [done|lia|]. intros o w2 _ Hat2.
  apply tr_ret. eapply outcome_same; [by exists c|]. apply grown_delete; [done|lia].
Qed.

(** Storing the structure of the bridge again, with the same lock. *)
Lemma loading_store h0 lo h b l br br' : loading h0 lo h b l br ->
  mLock br' = mLock br \/ (lo <= mLock br' /\ h !! mLock br' = Some Lock) ->
  (forall k x, bridgeFunctions br' !! k = Some x -> bridgeFunctions br !! k = Some x \/ (lo <= x /\ x <> lo + 1 /\ exists l', h !! x = Some (Handle l'))) ->
  loading h0 lo (<[lo + 1 := MiddlewareBridge br']> h) b l br'.
Proof.
  intros [L1 L2 L3 L4 L5] E Hfn. constructor.
  - apply grown_store; [done|lia|by rewrite L3].
  - by rewrite lookup_insert_ne by lia.
  - by rewrite lookup_insert_eq.
  - assert (mLock br' = 0 \/ (lo <= mLock br' /\ h !! mLock br' = Some Lock)) as [|[L6 L7]]; [|by left|right].
    { destruct E as [->|E]; [done|by right]. }
    split; [done|]. rewrite lookup_insert_ne; [done|]. intros Heq. rewrite <- Heq in L7. congruence.
  - intros k x Hx. assert (exists l', lo <= x /\ x <> lo + 1 /\ h !! x = Some (Handle l')) as (l' & H1 & H2 & H3).
    { destruct (Hfn k x Hx) as [Hx'|(H1 & H2 & l' & H3)]; [|by exists l']. destruct (L5 k x Hx') as (H1 & l' & H3).
      exists l'. split_and!; [done| |done]. intros ->. congruence. }
    split; [done|]. exists l'. by rewrite lookup_insert_ne.
Qed.

Lemma loading_new h0 lo h b l br o : loading h0 lo h b l br -> loading h0 lo (<[b := o]> h) (b + 1) l br.
Proof.
  intros [L1 L2 L3 L4 L5]. pose proof L1 as (Hf & _ & _).
  assert (forall a x, h !! a = Some x -> <[b := o]> h !! a = Some x) as Hk.
  { intros a x Ha. rewrite lookup_insert_ne; [done|]. intros <-. rewrite (fresh_none h b b) in Ha by (done || lia). done. }
  constructor; [by apply grown_new|by apply Hk..| |].
  - destruct L4 as [|[L4 L6]]; [by left|right]. split; [done|]. by apply Hk.
  - intros k x Hx. destruct (L5 k x Hx) as (H1 & l' & H3). split; [done|]. exists l'. by apply Hk.
Qed.


Lemma trc_quiet {A} (m : MM A) w0 h b w Q : at_calls w0 h b w -> quiet m -> (forall a w', at_calls w0 h b w' -> Q a w') -> tr m w Q.
Proof. intros (c & Hat) Hm HQ. eapply tr_quiet; [done..|]. intros a w' Hat'. apply HQ. by exists c. Qed.

Lemma trc_get_bridge a w0 h b w Q : at_calls w0 h b w -> (forall x, h !! a = Some (MiddlewareBridge x) -> Q x w) -> tr (get_bridge a) w Q.
Proof. intros (c & Hat). by eapply tr_get_bridge. Qed.

Lemma trc_store a o w0 h b w Q : at_calls w0 h b w -> (forall w', at_calls w0 (<[a := o]> h) b w' -> Q tt w') -> tr (store a o) w Q.
Proof. intros (c & Hat) HQ. eapply tr_store; [done|]. intros o' w' _ Hat'. apply HQ. by exists c. Qed.

(** [bridgeOpen] and [bridgeClose] of the bridge at [a]. *)
Lemma tr_bridge_close a w0 h b w Q : at_calls w0 h b w -> (forall s w', at_calls w0 h b w' -> Q s w') -> tr (bridge_close a) w Q.
Proof.
  intros Hat HQ. unfold bridge_close. apply tr_bind. eapply trc_get_bridge; [done|]. intros x _. apply tr_bind.
  eapply trc_quiet; [done|eauto with mama_quiet|]. intros l w' Hat'. apply tr_bind. eapply tr_invoke; [done|]. intros w'' Hat''. by apply tr_ret, HQ.
Qed.

Lemma tr_bridge_open a w0 h b w Q : at_calls w0 h b w ->
  (forall br q s w', h !! a = Some (MiddlewareBridge br) ->
     at_calls w0 (<[a := MiddlewareBridge (mkBridge (bridgeFunctions br) (mLock br) q (mRefCount br) (mEntitleDeferred br) (mStartBackgroundThread br))]> h) b w' ->
     Q s w') ->
  tr (bridge_open a) w Q.
Proof.
  intros Hat HQ. unfold bridge_open. apply tr_bind. eapply trc_get_bridge; [done|]. intros x Hx. apply tr_bind.
  eapply trc_quiet; [done|eauto with mama_quiet|]. intros l w' Hat'. apply tr_bind. eapply tr_invoke; [done|]. intros w'' Hat''.
  apply tr_bind. eapply trc_store; [done|]. intros w3 Hat3. apply tr_ret. by eapply HQ.
Qed.

Lemma open_middleware_outcome w w1 name h b l br :
  at_calls w h b w1 -> loading (heap w) (brk w) h b l br -> 0 < brk w -> is_Some (bridgeFunctions br !! "Bridge_close"%string) ->
  count (middlewares w) < MAMA_MAX_MIDDLEWARES ->
  tr (open_middleware name (brk w) (brk w + 1)) w1 (middleware_outcome w).
Proof.
  intros Hat Hld Hb [closer Hclose] Hc. unfold open_middleware.
  apply tr_bind. eapply trc_quiet; [done|eauto with mama_quiet|]. intros text w2 Hat2.
  apply tr_bind. eapply trc_quiet; [done|eauto with mama_quiet|]. intros ok w3 Hat3.
  case_match; [eapply tr_error_outcome; [done|apply Hld|done|lia]|].
  apply tr_bind. eapply tr_bridge_open; [done|]. intros br' q s w4 Hbr Hat4. rewrite (ld_impl _ _ _ _ _ _ Hld) in Hbr. injection Hbr as <-.
  assert (exists br' h', at_calls w h' b w4 /\ loading (heap w) (brk w) h' b l br' /\ bridgeFunctions br' !! "Bridge_close"%string = Some closer)
    as (br' & h' & Hat4' & Hld' & Hclose').
  { eexists _, _. split; [exact Hat4|]. split; [eapply loading_store; [done|by left|by left]|exact Hclose]. }
  clear Hat4 Hld Hclose. rename Hat4' into Hat4, Hld' into Hld, Hclose' into Hclose.
  case_match.
  { apply tr_bind. destruct Hat4 as (c & Hat4). eapply tr_free; [done|lia|]. intros o w5 _ Hat5. eapply tr_close_handle_outcome; [by exists c| |done].
    apply grown_delete; [apply Hld|lia]. }
  apply tr_bind. destruct Hat4 as (c & Hat4). eapply tr_calloc; [done|..]; intros w5 Hat5.
  { cbn [Z.eqb]. apply tr_bind. eapply tr_bridge_close; [by exists c|]. intros s' w6 Hat6. eapply tr_close_handle_outcome; [done|apply Hld|done]. }
  pose proof Hld as [(Hfresh & Hle & Hagree) L2 L3 L4 L5].
  rewrite (proj2 (Z.eqb_neq b 0)) by lia. eapply (loading_new _ _ _ _ _ _ (MiddlewareLib (brk w + 1) (brk w))) in Hld.
  apply tr_bind. eapply (trc_quiet _ w); [by exists c|eauto with mama_quiet|]. intros st w6 Hat6.
  destruct (Z.eqb_spec st 1) as [->|]; cbn [negb].
  2: { apply tr_bind. eapply tr_bridge_close; [done|]. intros s' w7 (c' & Hat7). unfold error_handling_lib. apply tr_bind.
       eapply tr_free; [done|lia|]. intros o w8 _ Hat8. eapply tr_error_outcome; [by exists c'| |done|lia]. apply grown_delete; [apply Hld|lia]. }
  unfold update. tr_pure. destruct Hat6 as (c' & E1 & E2 & E3). unfold rest, core_of, index_of in E3. cbn in E3.
  destruct (L5 _ _ Hclose) as (Hlo & l' & Hl').
  unfold middleware_outcome, refs, index_of. cbn. injection E3 as -> -> -> -> -> -> -> -> -> -> _. rewrite E1, E2.
  split_and!; try done; [apply Hld|]. right. exists b, (brk w), br', closer. destruct Hld as [_ M2 M3 M4 M5].
  assert (forall a x, h' !! a = Some x -> <[b := MiddlewareLib (brk w + 1) (brk w)]> h' !! a = Some x) as Hk.
  { intros a x Ha. rewrite lookup_insert_ne; [done|]. intros <-. rewrite (fresh_none h' b b) in Ha by (done || lia). done. }
  split_and!; try done; try lia.
  constructor; [by rewrite lookup_insert_eq|by apply Hk|exists l; by apply Hk| |done|exists l'; by apply Hk].
  destruct L4 as [|[? ?]]; [by left|right; by apply Hk].
Qed.

(** The required functions are there after a registration without errors. *)
Lemma close_registered exports h name fns fns' :
  mamaInternal_registerMiddlewareFunctions exports h name fns = (MAMA_STATUS_OK, fns') -> is_Some (fns' !! "Bridge_close"%string).
Proof.
  unfold mamaInternal_registerMiddlewareFunctions. intros E.
  assert (mkRequirement true "Bridge_close" ∈ middleware_functions) as Hin by by apply (list_elem_of_lookup_2 _ 3).
  revert E Hin. generalize middleware_functions. intros fs E Hin. by apply (register_functions_ok fs exports h name fns fns' E _ Hin).
Qed.

Lemma registered_from exports h name fns status fns' k x :
  mamaInternal_registerMiddlewareFunctions exports h name fns = (status, fns') -> fns' !! k = Some x -> fns !! k = Some x \/ x = h.
Proof.
  unfold mamaInternal_registerMiddlewareFunctions. generalize middleware_functions. intros fs E Hx.
  apply (register_functions_from fs exports h name). by rewrite E.
Qed.

Lemma load_base_outcome w w1 name h b l br path :
  at_calls w h b w1 -> loading (heap w) (brk w) h b l br -> 0 < brk w -> count (middlewares w) < MAMA_MAX_MIDDLEWARES ->
  tr (load_base openSharedLib (brk w) (brk w + 1) path (open_middleware name (brk w) (brk w + 1))) w1 (middleware_outcome w).
Proof.
  intros Hat Hld Hb Hc. pose proof (ld_grown _ _ _ _ _ _ Hld) as (Hfresh & Hle & _).
  unfold load_base. apply tr_bind. destruct Hat as (c & Hat). eapply tr_open_lib; [done|..].
  { cbn [Z.eqb]. apply tr_ret. eapply outcome_same; [by exists c|apply Hld]. }
  intros base w2 _ Hat2. rewrite (proj2 (Z.eqb_neq b 0)) by lia. eapply (loading_new _ _ _ _ _ _ (Handle base)) in Hld.
  apply tr_bind. eapply tr_get_library; [done|]. intros base' Hbase. rewrite lookup_insert_eq in Hbase. injection Hbase as <-.
  apply tr_bind. eapply trc_get_bridge; [by exists c|]. intros x Hx. rewrite (ld_impl _ _ _ _ _ _ Hld) in Hx. injection Hx as <-.
  destruct (mamaInternal_registerMiddlewareFunctions _ _ _ _) as [status fns] eqn:Er.
  assert (loading (heap w) (brk w) (<[brk w + 1 := MiddlewareBridge (mkBridge fns (mLock br) (mDefaultEventQueue br) (mRefCount br)
    (mEntitleDeferred br) (mStartBackgroundThread br))]> (<[b := Handle base]> h)) (b + 1) l
    (mkBridge fns (mLock br) (mDefaultEventQueue br) (mRefCount br) (mEntitleDeferred br) (mStartBackgroundThread br))) as Hld'.
  { eapply loading_store; [done|by left|]. cbn. intros k y Hy.
    destruct (registered_from _ _ _ _ _ _ _ _ Er Hy) as [|E]; [by left|right].
    subst y. split_and!; [lia| |exists base; by rewrite lookup_insert_eq].
    pose proof (ld_impl _ _ _ _ _ _ Hld) as Hi. intros E. by rewrite <- E, lookup_insert_eq in Hi. }
  apply tr_bind. eapply trc_store; [by exists c|]. intros w3 Hat3. destruct status; cbn [status_ok negb];
    try (eapply tr_error_outcome; [done|apply Hld'|done|lia]).
  eapply open_middleware_outcome; [done..|by eapply close_registered|done].
Qed.


(** The structure of a bridge that was just allocated, without a lock or with one. *)
Lemma loading_start h0 lo l br0 : fresh h0 lo -> br0 = mkBridge ∅ 0 0 0 false false ->
  loading h0 lo (<[lo + 1 := MiddlewareBridge br0]> (<[lo := Handle l]> h0)) (lo + 2) l br0.
Proof.
  intros Hf ->. constructor; [| | |by left|done].
  - replace (lo + 2) with (lo + 1 + 1) by lia. by apply grown_new, grown_new, grown_refl.
  - by rewrite lookup_insert_ne, lookup_insert_eq by lia.
  - by rewrite lookup_insert_eq.
Qed.

Lemma initialise_middleware_outcome w w1 name path l :
  at_ w (<[brk w + 1 := MiddlewareBridge (mkBridge ∅ 0 0 0 false false)]> (<[brk w := Handle l]> (heap w))) (brk w + 2) w1 ->
  fresh (heap w) (brk w) -> count (middlewares w) < MAMA_MAX_MIDDLEWARES ->
  tr (initialise_middleware openSharedLib name path (brk w) l (brk w + 1)) w1 (middleware_outcome w).
Proof.
  intros Hat Hf Hc. pose proof Hf as [Hb _]. pose proof (loading_start _ _ l _ Hf eq_refl) as Hld.
  unfold initialise_middleware. apply tr_bind. eapply tr_quiet; [done|apply quiet_alloc|]. intros mem w2 Hat2.
  destruct (mamaInternal_registerMiddlewareFunctions _ _ _ _) as [status fns] eqn:Er.
  assert (forall k x, fns !! k = Some x -> x = brk w) as Hfns.
  { intros k x Hx. by destruct (registered_from _ _ _ _ _ _ _ _ Er Hx) as [?%lookup_empty_Some|]. }
  assert (forall h b mLock', loading (heap w) (brk w) h b l (mkBridge ∅ 0 0 0 false false) ->
    mLock' = 0 \/ (brk w <= mLock' /\ h !! mLock' = Some Lock) ->
    loading (heap w) (brk w) (<[brk w + 1 := MiddlewareBridge (mkBridge fns mLock' 0 0 false false)]> h) b l (mkBridge fns mLock' 0 0 false false)) as Hst.
  { intros h b mLock' Hl Hm. eapply loading_store; [done|cbn; by destruct Hm; [left|right]|]. cbn. intros k x Hx. right.
    rewrite (Hfns k x Hx). split_and!; [lia|lia|]. exists l. apply Hl. }
  assert (forall w3 h b mLock', at_ w h b w3 -> loading (heap w) (brk w) h b l (mkBridge ∅ 0 0 0 false false) ->
    mLock' = 0 \/ (brk w <= mLock' /\ h !! mLock' = Some Lock) ->
    tr (store (brk w + 1) (MiddlewareBridge (mkBridge fns mLock' 0 0 false false)) ;;
        set_meta l ;;
        if negb (status_ok (lib_init l)) then error_handling_impl_allocated (brk w) (brk w + 1) (lib_init l)
        else
          mamaBridgeImpl_populateBridgeMetaData (brk w + 1) ;;
          extends ← mamaBridgeImpl_getMetaProperty (brk w + 1) "extends_base_bridge";
          if strtobool extends then load_base openSharedLib (brk w) (brk w + 1) path (open_middleware name (brk w) (brk w + 1))
          else if negb (status_ok status) then error_handling_impl_allocated (brk w) (brk w + 1) (lib_init l)
          else open_middleware name (brk w) (brk w + 1)) w3 (middleware_outcome w)) as Hgo.
  { clear w1 w2 Hat Hat2. intros w3 h b mLock' Hat3 Hl Hm. pose proof (Hst h b mLock' Hl Hm) as Hl3.
    apply tr_bind. eapply (trc_store _ _ w); [by exists (calls w)|]. intros w4 Hat4.
    apply tr_bind. eapply trc_quiet; [done|eauto with mama_quiet|]. intros [] w5 Hat5.
    case_match; [eapply tr_error_outcome; [done|apply Hl3|done|lia]|].
    apply tr_bind. unfold mamaBridgeImpl_populateBridgeMetaData. apply tr_bind. eapply trc_quiet; [done|eauto with mama_quiet|]. intros v w6 Hat6.
    apply tr_bind. eapply trc_get_bridge; [done|]. intros x Hx. rewrite lookup_insert_eq in Hx. injection Hx as <-.
    eapply trc_store; [done|]. intros w7 Hat7. cbn in Hat7.
    eapply (loading_store _ _ _ _ _ _ (mkBridge fns mLock' 0 0 (strtobool v) false)) in Hl3; [|by left|by left].
    apply tr_bind. eapply trc_quiet; [done|eauto with mama_quiet|]. intros ext w8 Hat8.
    case_match; [by eapply load_base_outcome|].
    case_match eqn:Es; [eapply tr_error_outcome; [done|apply Hl3|done|lia]|].
    destruct status; try done. eapply open_middleware_outcome; [done..|by eapply close_registered|done]. }
  apply tr_bind. destruct mem.
  - eapply tr_new; [done|]. intros w3 Hat3. eapply Hgo; [done|by apply loading_new|]. right. split; [lia|by rewrite lookup_insert_eq].
  - apply tr_ret. eapply Hgo; [done|done|by left].
Qed.

Lemma load_middleware_outcome w w1 name path :
  fresh (heap w) (brk w) -> at_ w (heap w) (brk w) w1 ->
  tr (load_middleware openSharedLib name path) w1 (middleware_outcome w).
Proof.
  intros Hf Hat. pose proof Hf as [Hb _]. assert (forall r w', at_ w (heap w) (brk w) w' -> middleware_outcome w r w') as Hsame.
  { intros r w' Hat'. eapply outcome_same; [by exists (calls w)|by apply grown_refl]. }
  unfold load_middleware. apply tr_bind. eapply tr_quiet; [done|eauto with mama_quiet|]. intros bridge w2 Hat2.
  case_match; [apply tr_ret; by apply Hsame|]. tr_pure. case_match; [tr_pure; by apply Hsame|].
  assert (count (middlewares w) < MAMA_MAX_MIDDLEWARES) as Hc.
  { destruct Hat2 as (_ & _ & E). unfold rest, core_of, index_of in E. cbn in E. injection E as _ E2 _. rewrite <- E2. lia. }
  apply tr_bind. eapply tr_open_lib; [done|cbn [Z.eqb]; apply tr_ret; by apply Hsame|]. intros l w3 _ Hat3.
  rewrite (proj2 (Z.eqb_neq (brk w) 0)) by lia.
  apply tr_bind. eapply tr_get_library; [done|]. intros l' Hl'. rewrite lookup_insert_eq in Hl'. injection Hl' as <-.
  assert (forall status w', at_ w (<[brk w := Handle l]> (heap w)) (brk w + 1) w' ->
    tr (error_handling_impl (brk w) status) w' (middleware_outcome w)) as Hbad.
  { intros status w' Hat'. eapply tr_close_handle_outcome; [by exists (calls w)|by apply grown_new, grown_refl|done]. }
  case_match; [by apply Hbad|].
  apply tr_bind. eapply tr_calloc; [done|..]; intros w4 Hat4; [cbn [Z.eqb]; by apply Hbad|].
  rewrite (proj2 (Z.eqb_neq (brk w + 1) 0)) by lia. replace (brk w + 1 + 1) with (brk w + 2) in Hat4 by lia.
  by apply initialise_middleware_outcome.
Qed.


(** ** Entitlements *)

Record entitlement_at (h : gmap Z obj) (lib bridge handle : Z) (fns : functions) (mImpl : Z) : Prop := mkEntitlementAt {
  ea_lib : h !! lib = Some (EntitlementLib bridge handle);
  ea_bridge : h !! bridge = Some (EntitlementBridge fns mImpl);
  ea_handle : exists l, h !! handle = Some (Handle l);
  ea_destroy : fns !! "EntitlementBridge_destroy"%string = Some handle;
}.

Definition entitlement_outcome w (status : mama_status) w' : Prop :=
  grown (heap w) (brk w) (heap w') (brk w') /\ refs w' = refs w /\
  index_of (payloads w') = index_of (payloads w) /\ index_of (middlewares w') = index_of (middlewares w) /\
  (index_of (entitlements w') = index_of (entitlements w) \/
   exists lib fns mImpl, status = MAMA_STATUS_OK /\ count (entitlements w) < MAMA_MAX_ENTITLEMENTS /\
     index_of (entitlements w') = (<[count (entitlements w) := lib]> (byIndex (entitlements w)), count (entitlements w) + 1) /\
     entitlement_at (heap w') lib (brk w + 1) (brk w) fns mImpl /\ brk w <= lib).

Lemma entitlement_same w h b w' status : at_ w h b w' -> grown (heap w) (brk w) h b -> entitlement_outcome w status w'.
Proof.
  intros (<- & <- & E) Hg. unfold rest, core_of, index_of in E. cbn in E. unfold entitlement_outcome, refs, index_of in *.
  injection E as -> -> -> -> -> -> -> -> -> -> _. split_and!; try done. by left.
Qed.

Lemma destroy_registered exports h name fns' :
  mamaInternal_registerEntitlementFunctions exports h name ∅ = (MAMA_STATUS_OK, fns') -> fns' !! "EntitlementBridge_destroy"%string = Some h.
Proof.
  unfold mamaInternal_registerEntitlementFunctions. intros E.
  destruct (register_functions_ok entitlement_functions exports h name ∅ fns' E (mkRequirement true "EntitlementBridge_destroy")) as [x Hx];
    [by apply (list_elem_of_lookup_2 _ 0)|done|]. cbn in Hx. rewrite Hx.
  destruct (register_functions_from entitlement_functions exports h name ∅ "EntitlementBridge_destroy" x) as [Hn| ->];
    [by rewrite E|by apply lookup_empty_Some in Hn|done].
Qed.

Lemma initialise_entitlement_outcome w w1 name l :
  at_ w (<[brk w + 1 := EntitlementBridge ∅ 0]> (<[brk w := Handle l]> (heap w))) (brk w + 2) w1 ->
  fresh (heap w) (brk w) -> count (entitlements w) < MAMA_MAX_ENTITLEMENTS ->
  tr (initialise_entitlement name (brk w) l (brk w + 1)) w1 (entitlement_outcome w).
Proof.
  intros Hat Hf Hc. pose proof Hf as [Hb _].
  assert (grown (heap w) (brk w) (<[brk w + 1 := EntitlementBridge ∅ 0]> (<[brk w := Handle l]> (heap w))) (brk w + 2)) as Hg.
  { replace (brk w + 2) with (brk w + 1 + 1) by lia. by apply grown_new, grown_new, grown_refl. }
  unfold initialise_entitlement. apply tr_bind. eapply tr_quiet; [done|eauto with mama_quiet|]. intros [] w2 Hat2.
  case_match.
  { apply tr_bind. eapply tr_free; [done|lia|]. intros o w3 _ Hat3. unfold closeSharedLib. apply tr_bind. eapply tr_free; [done|lia|].
    intros o' w4 _ Hat4. apply tr_ret. eapply entitlement_same; [done|]. apply grown_delete; [apply grown_delete; [done|lia]|lia]. }
  destruct (mamaInternal_registerEntitlementFunctions _ _ _ _) as [status fns] eqn:Er.
  apply tr_bind. eapply tr_store; [done|]. intros o w3 Ho Hat3. rewrite insert_insert_eq in Hat3.
  assert (grown (heap w) (brk w) (<[brk w + 1 := EntitlementBridge fns (lib_impl l)]> (<[brk w := Handle l]> (heap w))) (brk w + 2)) as Hg3.
  { replace (brk w + 2) with (brk w + 1 + 1) by lia. by apply grown_new, grown_new, grown_refl. }
  case_match eqn:Es.
  { unfold closeSharedLib. apply tr_bind. eapply tr_free; [done|lia|]. intros o' w4 _ Hat4. apply tr_ret. eapply entitlement_same; [done|].
    apply grown_delete; [done|lia]. }
  destruct status; try done. apply destroy_registered in Er.
  apply tr_bind. eapply tr_calloc; [done|..]; intros w4 Hat4; [cbn [Z.eqb]; apply tr_ret; by eapply entitlement_same|].
  rewrite (proj2 (Z.eqb_neq (brk w + 2) 0)) by lia.
  pose proof (grown_new _ _ _ _ (EntitlementLib (brk w + 1) (brk w)) Hg3) as Hg4.
  apply tr_bind. eapply tr_quiet; [done|eauto with mama_quiet|]. intros st w5 Hat5. apply tr_bind.
  case_match; [apply tr_ret, tr_ret; by eapply entitlement_same|].
  unfold update. tr_pure. destruct Hat5 as (E1 & E2 & E3). unfold rest, core_of, index_of in E3. cbn in E3.
  unfold entitlement_outcome, refs, index_of. cbn. injection E3 as -> -> -> -> -> -> -> -> -> -> _. rewrite E1, E2.
  split_and!; try done. right. exists (brk w + 2), fns, (lib_impl l). split_and!; try done; [|lia].
  constructor; [by rewrite lookup_insert_eq|by rewrite lookup_insert_ne, lookup_insert_eq by lia|exists l|done].
  by rewrite !lookup_insert_ne, lookup_insert_eq by lia.
Qed.

Lemma load_entitlement_outcome w w1 name :
  fresh (heap w) (brk w) -> at_ w (heap w) (brk w) w1 ->
  tr (load_entitlement openSharedLib name) w1 (entitlement_outcome w).
Proof.
  intros Hf Hat. pose proof Hf as [Hb _]. assert (forall r w', at_ w (heap w) (brk w) w' -> entitlement_outcome w r w') as Hsame.
  { intros r w' Hat'. eapply entitlement_same; [done|by apply grown_refl]. }
  unfold load_entitlement. apply tr_bind. eapply tr_quiet; [done|eauto with mama_quiet|]. intros bridge w2 Hat2.
  case_match; [apply tr_ret; by apply Hsame|]. tr_pure. case_match; [tr_pure; by apply Hsame|].
  assert (count (entitlements w) < MAMA_MAX_ENTITLEMENTS) as Hc.
  { destruct Hat2 as (_ & _ & E). unfold rest, core_of, index_of in E. cbn in E. injection E as _ _ _ _ _ E2 _. rewrite <- E2. lia. }
  apply tr_bind. eapply tr_open_lib; [done|cbn [Z.eqb]; apply tr_ret; by apply Hsame|]. intros l w3 _ Hat3.
  rewrite (proj2 (Z.eqb_neq (brk w) 0)) by lia.
  apply tr_bind. eapply tr_get_library; [done|]. intros l' Hl'. rewrite lookup_insert_eq in Hl'. injection Hl' as <-.
  assert (forall status w', at_ w (<[brk w := Handle l]> (heap w)) (brk w + 1) w' ->
    tr (closeSharedLib (brk w) ;; mret status) w' (entitlement_outcome w)) as Hbad.
  { intros status w' Hat'. unfold closeSharedLib. apply tr_bind. eapply tr_free; [done|lia|]. intros o w4 _ Hat4. apply tr_ret.
    eapply entitlement_same; [done|]. apply grown_delete; [by apply grown_new, grown_refl|lia]. }
  case_match; [by apply Hbad|].
  apply tr_bind. eapply tr_calloc; [done|..]; intros w4 Hat4; [cbn [Z.eqb]; by apply Hbad|].
  rewrite (proj2 (Z.eqb_neq (brk w + 1) 0)) by lia. replace (brk w + 1 + 1) with (brk w + 2) in Hat4 by lia.
  by apply initialise_entitlement_outcome.
Qed.

End Loads.
End MamaLoads.
