(* ===== verification/MamaWf.v ===== *)
(** * Soundness of the registries

    What the indices of the registries reach is in memory, of the right kind and
    apart from what other entries reach.  Every operation of Mama.v keeps this,
    whatever the libraries do. *)

From S2P Require Import Prelude MamaStatus Cstdio Text StrUtils MamaRegister Mama MamaInv MamaLoads.
From Stdlib Require Import Ascii String.
From stdpp Require Import strings.
#[local] Open Scope Z_scope.
Import Cstdio StrUtils MamaRegister Mama MamaInv MamaLoads.

Module MamaWf.

#[export] Instance kind_eq_dec : EqDecision kind.
Proof. solve_decision. Defined.

(** ** What an entry reaches *)

Definition lock_of (br : mamaBridgeImpl) : list Z := if mLock br =? 0 then [] else [mLock br].

(** What is freed with a library structure, kept payloads included. *)
Definition parts (h : gmap Z obj) (lib : Z) : list Z :=
  match h !! lib with
  | Some (PayloadLib b l _ _) | Some (EntitlementLib b l) => [lib; b; l]
  | Some (MiddlewareLib b l) =>
      [lib; b; l] ++ match h !! b with Some (MiddlewareBridge br) => lock_of br | _ => [] end
  | _ => []
  end.

(** The library of the function that closes a middleware, its own or the base. *)
Definition closer_of (h : gmap Z obj) (lib : Z) : list Z :=
  match h !! lib with
  | Some (MiddlewareLib b l) =>
      match h !! b with
      | Some (MiddlewareBridge br) => match bridgeFunctions br !! "Bridge_close"%string with Some c => [c] | None => [] end
      | _ => []
      end
  | _ => []
  end.

Definition foot (h : gmap Z obj) (lib : Z) : list Z := parts h lib ++ closer_of h lib.

(** What closing frees: nothing of a payload that is kept. *)
Definition released (h : gmap Z obj) (lib : Z) : list Z :=
  match h !! lib with Some (PayloadLib _ _ _ true) => [] | _ => parts h lib end.

Definition lib_at (k : kind) (h : gmap Z obj) (lib : Z) : Prop :=
  match k with
  | Payloads => exists b l id keep fns back lb,
      h !! lib = Some (PayloadLib b l id keep) /\ h !! b = Some (PayloadBridge fns back) /\ h !! l = Some (Handle lb)
  | Middlewares => exists b hd br c, middleware_at h lib b hd br c
  | Entitlements => exists b hd fns mImpl, entitlement_at h lib b hd fns mImpl
  end.

Lemma foot_alive k h lib a : lib_at k h lib -> a ∈ foot h lib -> is_Some (h !! a).
Proof.
  destruct k; cbn [lib_at].
  - intros (b & hd & br & c & [M1 M2 [l M3] M4 M5 [l' M6]]). unfold foot, parts, closer_of. rewrite M1, M2, M5. unfold lock_of.
    destruct (Z.eqb_spec (mLock br) 0); destruct M4 as [M4|M4]; try done; cbn [app]; rewrite !elem_of_cons, elem_of_nil; naive_solver.
  - intros (b & l & id & keep & fns & back & lb & M1 & M2 & M3). unfold foot, parts, closer_of. rewrite M1. cbn [app].
    rewrite !elem_of_cons, elem_of_nil. naive_solver.
  - intros (b & hd & fns & mImpl & [M1 M2 [l M3] M4]). unfold foot, parts, closer_of. rewrite M1. cbn [app].
    rewrite !elem_of_cons, elem_of_nil. naive_solver.
Qed.

(** An entry only depends on what it reaches. *)
Lemma foot_agree k h h' lib : lib_at k h lib -> (forall a, a ∈ foot h lib -> h' !! a = h !! a) ->
  lib_at k h' lib /\ foot h' lib = foot h lib /\ parts h' lib = parts h lib /\ released h' lib = released h lib.
Proof.
  destruct k; cbn [lib_at].
  - intros (b & hd & br & c & [M1 M2 [l M3] M4 M5 [l' M6]]). unfold foot, released, parts, closer_of. rewrite M1, M2, M5. intros Ha.
    assert (h' !! lib = Some (MiddlewareLib b hd)) as E1 by (rewrite Ha; [done|set_solver]).
    assert (h' !! b = Some (MiddlewareBridge br)) as E2 by (rewrite Ha; [done|set_solver]).
    assert (h' !! hd = Some (Handle l)) as E3 by (rewrite Ha; [done|set_solver]).
    assert (h' !! c = Some (Handle l')) as E6 by (rewrite Ha; [done|set_solver]).
    rewrite E1, E2, M5. split_and!; try done. exists b, hd, br, c. constructor; eauto.
    destruct (decide (mLock br = 0)) as [|Hm]; [by left|right]. destruct M4 as [|M4]; [done|]. rewrite Ha; [done|].
    unfold lock_of. rewrite (proj2 (Z.eqb_neq (mLock br) 0)) by done. set_solver.
  - intros (b & l & id & keep & fns & back & lb & M1 & M2 & M3). unfold foot, released, parts, closer_of. rewrite M1. intros Ha.
    assert (h' !! lib = Some (PayloadLib b l id keep)) as E1 by (rewrite Ha; [done|set_solver]).
    rewrite E1. split_and!; try done. exists b, l, id, keep, fns, back, lb. split_and!; [done|..]; (rewrite Ha; [done|set_solver]).
  - intros (b & hd & fns & mImpl & [M1 M2 [l M3] M4]). unfold foot, released, parts, closer_of. rewrite M1. intros Ha.
    assert (h' !! lib = Some (EntitlementLib b hd)) as E1 by (rewrite Ha; [done|set_solver]).
    rewrite E1. split_and!; try done. exists b, hd, fns, mImpl. constructor; [done| |exists l|done]; (rewrite Ha; [done|set_solver]).
Qed.

Lemma released_foot h lib a : a ∈ released h lib -> a ∈ foot h lib.
Proof. unfold released, foot. intros Ha. apply elem_of_app. left. repeat case_match; try done; by apply elem_of_nil in Ha. Qed.

Section Wf.
Context {P : Type} `{PropertyTable P}.
Abbreviation MM := (M (world P)).
Implicit Types w : world P.

Definition entry (k : kind) w (i lib : Z) : Prop := byIndex (registry_of k w) !! i = Some lib.
Definition limit (k : kind) w : Z := match k with Payloads => MAMA_PAYLOAD_MAX | _ => count (registry_of k w) end.

Record wf w : Prop := mkWf {
  wf_fresh : fresh (heap w) (brk w);
  wf_count : forall k, 0 <= count (registry_of k w);
  wf_range : forall k i lib, entry k w i lib -> 0 <= i < limit k w;
  wf_lib : forall k i lib, entry k w i lib -> lib_at k (heap w) lib;
  wf_apart : forall k1 i1 lib1 k2 i2 lib2 a, entry k1 w i1 lib1 -> entry k2 w i2 lib2 ->
    a ∈ foot (heap w) lib1 -> a ∈ foot (heap w) lib2 -> k1 = k2 /\ i1 = i2;
}.

Definition same_indices w w' : Prop :=
  index_of (payloads w') = index_of (payloads w) /\ index_of (middlewares w') = index_of (middlewares w) /\
  index_of (entitlements w') = index_of (entitlements w).

Lemma same_registry k w w' : same_indices w w' ->
  byIndex (registry_of k w') = byIndex (registry_of k w) /\ count (registry_of k w') = count (registry_of k w).
Proof. unfold same_indices, index_of. intros (E1 & E2 & E3). simplify_eq. by destruct k. Qed.

Lemma foot_below w k i lib a : wf w -> entry k w i lib -> a ∈ foot (heap w) lib -> 0 < a < brk w.
Proof. intros Hw He Ha. apply (wf_fresh w Hw). eapply foot_alive; [|done]. by eapply wf_lib. Qed.

(** The memory grew and the indices are the same. *)
Lemma wf_grown w w' : wf w -> grown (heap w) (brk w) (heap w') (brk w') -> same_indices w w' -> wf w'.
Proof.
  intros Hw (Hf & Hle & Ha) Hi.
  assert (forall k i lib, entry k w' i lib <-> entry k w i lib) as He.
  { intros k i lib. unfold entry. by destruct (same_registry k w w' Hi) as [-> _]. }
  assert (forall k i lib, entry k w i lib -> lib_at k (heap w') lib /\ foot (heap w') lib = foot (heap w) lib) as Hl.
  { intros k i lib Hk. destruct (foot_agree k (heap w) (heap w') lib) as (? & ? & _); [by eapply wf_lib| |done].
    intros a Hin. apply Ha. by eapply foot_below. }
  constructor; [done|..].
  - intros k. destruct (same_registry k w w' Hi) as [_ ->]. by apply wf_count.
  - intros k i lib Hk%He. apply wf_range in Hk; [|done]. destruct k; cbn [limit] in *; try done;
      [destruct (same_registry Middlewares w w' Hi) as [_ ->]|destruct (same_registry Entitlements w w' Hi) as [_ ->]]; done.
  - intros k i lib Hk%He. by eapply Hl.
  - intros k1 i1 lib1 k2 i2 lib2 a H1%He H2%He. destruct (Hl _ _ _ H1) as [_ ->], (Hl _ _ _ H2) as [_ ->]. by eapply wf_apart.
Qed.

(** The memory grew and an index has one more entry, all new. *)
Lemma wf_added k i lib w w' : wf w -> grown (heap w) (brk w) (heap w') (brk w') ->
  (forall k', k' <> k -> byIndex (registry_of k' w') = byIndex (registry_of k' w) /\ count (registry_of k' w') = count (registry_of k' w)) ->
  byIndex (registry_of k w') = <[i := lib]> (byIndex (registry_of k w)) ->
  byIndex (registry_of k w) !! i = None -> 0 <= i < limit k w' -> count (registry_of k w') = count (registry_of k w) + 1 ->
  lib_at k (heap w') lib -> (forall a, a ∈ foot (heap w') lib -> brk w <= a) -> wf w'.
Proof.
  intros Hw (Hf & Hle & Ha) Ho Hk Hn Hi Hc Hlib Hnew.
  assert (forall k' i' lib', entry k' w' i' lib' -> (k' = k /\ i' = i /\ lib' = lib) \/ (entry k' w i' lib' /\ (k', i') <> (k, i))) as He.
  { intros k' i' lib'. unfold entry. destruct (decide (k' = k)) as [->|Hne].
    - rewrite Hk. destruct (decide (i' = i)) as [->|]; [rewrite lookup_insert_eq; intros [= ->]; by left|].
      rewrite lookup_insert_ne by done. right. split; [done|congruence].
    - destruct (Ho k' Hne) as [-> _]. right. split; [done|congruence]. }
  assert (forall k' i' lib', entry k' w i' lib' -> lib_at k' (heap w') lib' /\ foot (heap w') lib' = foot (heap w) lib') as Hl.
  { intros k' i' lib' Hk'. destruct (foot_agree k' (heap w) (heap w') lib') as (? & ? & _); [by eapply wf_lib| |done].
    intros a Hin. apply Ha. by eapply foot_below. }
  constructor; [done|..].
  - intros k'. destruct (decide (k' = k)) as [->|Hne]; [rewrite Hc; pose proof (wf_count w Hw k); lia|]. destruct (Ho k' Hne) as [_ ->]. by apply wf_count.
  - intros k' i' lib' [(-> & -> & ->)|[Hk' _]]%He; [done|]. apply wf_range in Hk'; [|done].
    destruct (decide (k' = k)) as [->|Hne]; [destruct k; cbn [limit] in *; try done; rewrite Hc; lia|].
    destruct (Ho k' Hne) as [_ Hc']. destruct k'; cbn [limit] in *; by rewrite ?Hc'.
  - intros k' i' lib' [(-> & -> & ->)|[Hk' _]]%He; [done|]. by eapply Hl.
  - intros k1 i1 lib1 k2 i2 lib2 a H1 H2 F1 F2.
    apply He in H1 as [(-> & -> & ->)|[H1 _]], H2 as [(-> & -> & ->)|[H2 _]]; [done|..].
    + destruct (Hl _ _ _ H2) as [_ E]. rewrite E in F2. apply Hnew in F1. pose proof (foot_below _ _ _ _ _ Hw H2 F2). lia.
    + destruct (Hl _ _ _ H1) as [_ E]. rewrite E in F1. apply Hnew in F2. pose proof (foot_below _ _ _ _ _ Hw H1 F1). lia.
    + destruct (Hl _ _ _ H1) as [_ E1], (Hl _ _ _ H2) as [_ E2]. rewrite E1 in F1. rewrite E2 in F2. by eapply wf_apart.
Qed.

End Wf.
End MamaWf.
