(* ===== verification/MamaClose.v ===== *)
(** * Closing

    The last [mama_close] from a sound state: it returns, it frees what the indices
    reach (but the payloads that are kept loaded) and nothing else, and the
    registries are as at the start of the process. *)

From S2P Require Import Prelude MamaStatus Cstdio Text StrUtils MamaRegister Mama MamaInv MamaLoads MamaWf.
From Stdlib Require Import Ascii String.
From stdpp Require Import strings.
#[local] Open Scope Z_scope.
Import Cstdio StrUtils MamaRegister Mama MamaInv MamaLoads MamaWf.

Module MamaClose.

Section Close.
Context {P : Type} `{PropertyTable P}.
Abbreviation MM := (M (world P)).
Implicit Types w : world P.

(** ** One entry *)

(** The world with other memory, calls and index of one registry. *)
Definition with_index (k : kind) (m : gmap Z Z) (h : gmap Z obj) (c : list call) w : world P :=
  put_calls c (put_heap h (brk w) (put_registry k (set_byIndex m (registry_of k w)) w)).

Lemma with_index_refl k w : w = with_index k (byIndex (registry_of k w)) (heap w) (calls w) w.
Proof. destruct w as [? ? [] [] []]. by destruct k. Qed.

Lemma with_index_heap k m h c w : heap (with_index k m h c w) = h /\ brk (with_index k m h c w) = brk w.
Proof. by destruct k. Qed.

Lemma with_index_index k m h c w : registry_of k (with_index k m h c w) = set_byIndex m (registry_of k w).
Proof. by destruct k. Qed.

Lemma with_index_other k k' m h c w : k' <> k -> registry_of k' (with_index k m h c w) = registry_of k' w.
Proof. by destruct k, k'. Qed.

Lemma with_index_twice k m h c m' h' c' w : with_index k m' h' c' (with_index k m h c w) = with_index k m' h' c' w.
Proof. by destruct k. Qed.

Section Commands.
Context (k : kind) (m : gmap Z Z) (h : gmap Z obj) (c : list call) (w : world P).

Lemma wp_load a o Q : h !! a = Some o -> Q o (with_index k m h c w) -> wp (load a) (with_index k m h c w) Q.
Proof. intros E HQ. unfold wp, load. destruct (with_index_heap k m h c w) as [-> _]. by rewrite E. Qed.

Lemma wp_free a o Q : h !! a = Some o -> 0 < a -> Q tt (with_index k m (delete a h) c w) -> wp (free a) (with_index k m h c w) Q.
Proof.
  intros E Ha HQ. unfold free. rewrite (proj2 (Z.eqb_neq a 0)) by lia. apply wp_bind. eapply wp_load; [done|]. apply wp_modify.
  by destruct k.
Qed.

Lemma wp_invoke x Q : Q tt (with_index k m h (c ++ [x]) w) -> wp (invoke x) (with_index k m h c w) Q.
Proof. intros HQ. apply wp_modify. by destruct k. Qed.

Lemma wp_update_index i Q : Q tt (with_index k (delete i m) h c w) ->
  wp (update k (fun r => set_byIndex (delete i (byIndex r)) r)) (with_index k m h c w) Q.
Proof. intros HQ. apply wp_modify. by destruct k. Qed.

Lemma wp_get_library a l Q : h !! a = Some (Handle l) -> Q l (with_index k m h c w) -> wp (get_library a) (with_index k m h c w) Q.
Proof. intros E HQ. unfold get_library. apply wp_bind. eapply wp_load; [done|]. by apply wp_ret. Qed.

Lemma wp_call_fn fns name a l Q : fns !! name = Some a -> h !! a = Some (Handle l) -> Q l (with_index k m h c w) ->
  wp (call_fn fns name) (with_index k m h c w) Q.
Proof. intros Ef E HQ. unfold call_fn. rewrite Ef. by eapply wp_get_library. Qed.

Lemma wp_get_bridge a br Q : h !! a = Some (MiddlewareBridge br) -> Q br (with_index k m h c w) -> wp (get_bridge a) (with_index k m h c w) Q.
Proof. intros E HQ. unfold get_bridge. apply wp_bind. eapply wp_load; [done|]. by apply wp_ret. Qed.

Lemma wp_get_lib lib b l Q : h !! lib = Some (EntitlementLib b l) \/ h !! lib = Some (MiddlewareLib b l) -> Q (b, l) (with_index k m h c w) ->
  wp (get_lib lib) (with_index k m h c w) Q.
Proof. intros E HQ. unfold get_lib. apply wp_bind. destruct E as [E|E]; (eapply wp_load; [done|]; by apply wp_ret). Qed.

End Commands.

Definition frees (l : list Z) (h h' : gmap Z obj) : Prop :=
  (forall a, a ∈ l -> h' !! a = None) /\ (forall a, a ∉ l -> h' !! a = h !! a).

Definition closed_entry (k : kind) (i lib : Z) w w' : Prop :=
  exists h c, w' = with_index k (delete i (byIndex (registry_of k w))) h c w /\ frees (released (heap w) lib) (heap w) h.

Lemma frees_deletes h l : frees l h (foldr delete h l).
Proof.
  split; intros a Ha; induction l as [|b l IH]; cbn; [by apply elem_of_nil in Ha| |done|].
  - destruct (decide (b = a)) as [<-|Hn]; [by rewrite lookup_delete_eq|]. rewrite lookup_delete_ne by done.
    apply IH. apply elem_of_cons in Ha as [|]; [congruence|done].
  - apply not_elem_of_cons in Ha as [Hn Ha]. rewrite lookup_delete_ne by done. by apply IH.
Qed.

Lemma frees_perm l l' h h' : (forall a, a ∈ l <-> a ∈ l') -> frees l h h' -> frees l' h h'.
Proof. intros E [F1 F2]. split; intros a; rewrite <- E; auto. Qed.

Lemma close_entitlement_closed w i lib : wf w -> entry Entitlements w i lib ->
  wp (close_entitlement i lib) w (fun _ w' => closed_entry Entitlements i lib w w').
Proof.
  intros Hw He. pose proof (wf_fresh w Hw) as [Hb Hf]. destruct (wf_lib w Hw _ _ _ He) as (b & hd & fns & mImpl & [M1 M2 [l M3] M4]).
  pose proof (Hf lib (mk_is_Some _ _ M1)). pose proof (Hf b (mk_is_Some _ _ M2)). pose proof (Hf hd (mk_is_Some _ _ M3)).
  rewrite (with_index_refl Entitlements w) at 1.
  unfold close_entitlement. apply wp_bind, wp_update_index. apply wp_bind. eapply wp_get_lib; [by left|].
  apply wp_bind. unfold mamaEntitlementBridge_destroy. cbn [fst snd]. rewrite (proj2 (Z.eqb_neq b 0)), (proj2 (Z.eqb_neq hd 0)) by lia.
  apply wp_bind. eapply wp_load; [exact M2|]. cbn beta iota. apply wp_bind.
  assert (forall (Q : unit -> world P -> Prop) m c, (forall c', Q tt (with_index Entitlements m (heap w) c' w)) ->
    wp (if mImpl =? 0 then mret tt else call_fn fns "EntitlementBridge_destroy" ;; invoke (EntitlementDestroy b)) (with_index Entitlements m (heap w) c w) Q) as Hd.
  { intros Q m c HQ. case_match; [by apply wp_ret|]. apply wp_bind. eapply wp_call_fn; [exact M4|exact M3|]. by apply wp_invoke. }
  apply Hd. intros c'. eapply wp_free; [exact M2|lia|]. apply wp_bind. unfold closeSharedLib.
  eapply wp_free; [rewrite lookup_delete_ne by congruence; exact M3|lia|].
  eapply wp_free; [rewrite !lookup_delete_ne by congruence; exact M1|lia|].
  exists (foldr delete (heap w) [lib; hd; b]), c'. split; [done|].
  unfold released, parts. rewrite M1. eapply frees_perm, frees_deletes. set_solver.
Qed.


Lemma close_payload_closed w id lib : wf w -> entry Payloads w id lib ->
  wp (close_payload id) w (fun _ w' => closed_entry Payloads id lib w w').
Proof.
  intros Hw He. pose proof (wf_fresh w Hw) as [Hb Hf]. pose proof (wf_range w Hw _ _ _ He) as Hid. cbn [limit] in Hid.
  destruct (wf_lib w Hw _ _ _ He) as (b & l & id' & keep & fns & back & lb & M1 & M2 & M3).
  pose proof (Hf lib (mk_is_Some _ _ M1)). pose proof (Hf b (mk_is_Some _ _ M2)). pose proof (Hf l (mk_is_Some _ _ M3)).
  unfold close_payload, byChar. rewrite (proj2 (Z.ltb_lt id MAMA_PAYLOAD_MAX)) by lia. wp_pure. unfold entry in He. cbn [registry_of] in He.
  rewrite He. cbn [from_option]. unfold Datatypes.id. rewrite (proj2 (Z.eqb_neq lib 0)) by lia.
  rewrite (with_index_refl Payloads w) at 1. apply wp_bind, wp_update_index. apply wp_bind. eapply wp_load; [exact M1|]. cbn beta iota.
  unfold closed_entry, released, parts. rewrite M1. destruct keep.
  - apply wp_ret. exists (heap w), (calls w). split; [done|]. split; [intros a Ha; by apply elem_of_nil in Ha|done].
  - apply wp_bind. eapply wp_free; [exact M2|lia|]. apply wp_bind. rewrite (proj2 (Z.eqb_neq l 0)) by lia. unfold closeSharedLib.
    eapply wp_free; [rewrite lookup_delete_ne by congruence; exact M3|lia|].
    eapply wp_free; [rewrite !lookup_delete_ne by congruence; exact M1|lia|].
    exists (foldr delete (heap w) [lib; l; b]), (calls w). split; [done|]. eapply frees_perm, frees_deletes. set_solver.
Qed.

Lemma close_middleware_closed w i lib : wf w -> entry Middlewares w i lib ->
  wp (close_middleware i lib) w (fun _ w' => closed_entry Middlewares i lib w w').
Proof.
  intros Hw He. pose proof (wf_fresh w Hw) as [Hb Hf]. destruct (wf_lib w Hw _ _ _ He) as (b & hd & br & cl & [M1 M2 [l M3] M4 M5 [l' M6]]).
  pose proof (Hf lib (mk_is_Some _ _ M1)). pose proof (Hf b (mk_is_Some _ _ M2)). pose proof (Hf hd (mk_is_Some _ _ M3)).
  rewrite (with_index_refl Middlewares w) at 1. unfold close_middleware. apply wp_bind. eapply wp_get_lib; [by right|]. cbn [fst snd].
  apply wp_bind. unfold close_bridge. rewrite (proj2 (Z.eqb_neq b 0)), (proj2 (Z.eqb_neq hd 0)) by lia.
  apply wp_bind. unfold bridge_close. apply wp_bind. eapply wp_get_bridge; [exact M2|]. apply wp_bind. eapply wp_call_fn; [exact M5|exact M6|].
  apply wp_bind, wp_invoke, wp_ret. apply wp_bind. eapply wp_get_bridge; [exact M2|]. apply wp_bind.
  assert (exists ks, (forall a, a ∈ ks <-> a ∈ lock_of br) /\ (forall a, a ∈ ks -> heap w !! a = Some Lock) /\
    forall Q m c, Q tt (with_index Middlewares m (foldr delete (heap w) ks) c w) ->
      wp (if mLock br =? 0 then mret tt else free (mLock br)) (with_index Middlewares m (heap w) c w) Q) as (ks & K1 & K2 & K3).
  { unfold lock_of. destruct (Z.eqb_spec (mLock br) 0) as [E|E].
    - exists []. split_and!; [done|intros a Ha; by apply elem_of_nil in Ha|]. intros Q m c HQ. by apply wp_ret.
    - exists [mLock br]. destruct M4 as [M4|M4]; [done|]. split_and!; [done|by intros a ->%list_elem_of_singleton|].
      intros Q m c HQ. eapply wp_free; [done|by apply Hf|done]. }
  apply K3. apply wp_bind.
  assert (forall (Q : unit -> world P -> Prop) m h c, (forall c', Q tt (with_index Middlewares m h c' w)) ->
    wp (if mStartBackgroundThread br then invoke (DestroyThread b) else mret tt) (with_index Middlewares m h c w) Q) as Ht.
  { intros Q m h c HQ. destruct (mStartBackgroundThread br); [by apply wp_invoke|by apply wp_ret]. }
  apply Ht. intros c'. clear Ht K3.
  assert (forall a o, heap w !! a = Some o -> o <> Lock -> foldr delete (heap w) ks !! a = Some o) as Hk.
  { intros a o Ha Ho. rewrite (proj2 (frees_deletes (heap w) ks)); [done|]. intros Hin. apply K2 in Hin. congruence. }
  eapply wp_free; [by apply Hk|lia|]. apply wp_bind. unfold closeSharedLib.
  eapply wp_free; [rewrite lookup_delete_ne by congruence; by apply Hk|lia|]. apply wp_bind.
  eapply wp_free; [rewrite !lookup_delete_ne by congruence; by apply Hk|lia|]. apply wp_update_index.
  exists (foldr delete (heap w) ([lib; hd; b] ++ ks)), c'. split; [done|].
  unfold released, parts. rewrite M1, M2. eapply frees_perm, frees_deletes. intros a. rewrite !elem_of_app, K1. set_solver.
Qed.

(** ** Closing many entries *)

Definition released_in w (a : Z) : Prop := exists k i lib, entry k w i lib /\ a ∈ released (heap w) lib.

(** Entries are removed with what they release; nothing else changes in memory. *)
Record closing w w' : Prop := mkClosing {
  cl_heap : forall a, heap w' !! a = heap w !! a \/ (heap w' !! a = None /\ released_in w a);
  cl_entry : forall k i lib, entry k w i lib ->
    (entry k w' i lib /\ forall a, a ∈ foot (heap w) lib -> heap w' !! a = heap w !! a) \/
    (byIndex (registry_of k w') !! i = None /\ forall a, a ∈ released (heap w) lib -> heap w' !! a = None);
  cl_old : forall k i lib, entry k w' i lib -> entry k w i lib;
}.

Lemma closing_same w w' : heap w' = heap w -> (forall k, byIndex (registry_of k w') = byIndex (registry_of k w)) -> closing w w'.
Proof.
  intros Eh Ei. constructor.
  - intros a. left. by rewrite Eh.
  - intros k i lib He. left. split; [unfold entry; by rewrite Ei|]. intros a _. by rewrite Eh.
  - intros k i lib. unfold entry. by rewrite Ei.
Qed.

Lemma closing_trans w1 w2 w3 : wf w1 -> closing w1 w2 -> closing w2 w3 -> closing w1 w3.
Proof.
  intros Hw C1 C2.
  assert (forall k i lib, entry k w1 i lib -> entry k w2 i lib -> foot (heap w2) lib = foot (heap w1) lib /\ released (heap w2) lib = released (heap w1) lib) as Hs.
  { intros k i lib H1 H2. destruct (cl_entry _ _ C1 k i lib H1) as [[_ Ha]|[Hn _]]; [|unfold entry in H2; congruence].
    destruct (foot_agree k (heap w1) (heap w2) lib) as (_ & ? & _ & ?); [by eapply wf_lib|done|done]. }
  constructor.
  - intros a. destruct (cl_heap _ _ C2 a) as [->|[E (k & i & lib & He & Ha)]]; [apply C1|].
    right. split; [done|]. exists k, i, lib. pose proof (cl_old _ _ C1 _ _ _ He) as He1. split; [done|].
    by destruct (Hs _ _ _ He1 He) as [_ <-].
  - intros k i lib He. destruct (cl_entry _ _ C1 k i lib He) as [[He2 Ha]|[Hn Ha]].
    + destruct (Hs _ _ _ He He2) as [Ef Er]. destruct (cl_entry _ _ C2 k i lib He2) as [[He3 Ha3]|[Hn Ha3]].
      * left. split; [done|]. intros a Hin. rewrite Ha3 by by rewrite Ef. by apply Ha.
      * right. split; [done|]. intros a Hin. apply Ha3. by rewrite Er.
    + right. split.
      * apply eq_None_not_Some. intros [lib' He']. apply (cl_old _ _ C2) in He'. unfold entry in He'. congruence.
      * intros a Hin. destruct (cl_heap _ _ C2 a) as [->|[? _]]; [by apply Ha|done].
  - intros k i lib He. by apply (cl_old _ _ C1), (cl_old _ _ C2).
Qed.

Lemma closed_other k k' w h c i w' : w' = with_index k (delete i (byIndex (registry_of k w))) h c w -> forall i' lib',
  entry k' w' i' lib' <-> entry k' w i' lib' /\ (k', i') <> (k, i).
Proof.
  intros -> i' lib'. unfold entry. destruct (decide (k' = k)) as [->|Hne].
  - rewrite with_index_index. cbn. destruct (decide (i = i')) as [<-|].
    + rewrite lookup_delete_eq. naive_solver.
    + rewrite lookup_delete_ne by done. naive_solver congruence.
  - rewrite with_index_other by done. naive_solver congruence.
Qed.

Lemma wf_closed k i lib w w' : wf w -> entry k w i lib -> closed_entry k i lib w w' -> wf w' /\ closing w w'.
Proof.
  intros Hw He (h & c & E & F1 & F2). pose proof (closed_other k) as Ho.
  assert (heap w' = h /\ brk w' = brk w) as [Eh Eb] by (subst w'; apply with_index_heap).
  assert (forall k' i' lib' a, entry k' w i' lib' -> (k', i') <> (k, i) -> a ∈ foot (heap w) lib' -> h !! a = heap w !! a) as Hag.
  { intros k' i' lib' a He' Hne Ha. apply F2. intros Hin%released_foot. destruct (wf_apart w Hw _ _ _ _ _ _ a He' He Ha Hin) as [-> ->]. done. }
  assert (forall a, is_Some (h !! a) -> is_Some (heap w !! a)) as Hsub.
  { intros a Hs. destruct (decide (a ∈ released (heap w) lib)) as [Hin|Hin]; [rewrite F1 in Hs by done; by destruct Hs|by rewrite <- F2]. }
  assert (forall k', count (registry_of k' w') = count (registry_of k' w)) as Hc.
  { intros k'. subst w'. destruct (decide (k' = k)) as [->|]; [by rewrite with_index_index|by rewrite with_index_other]. }
  split; constructor.
  - rewrite Eh, Eb. destruct (wf_fresh w Hw) as [Hb Hf]. split; [done|]. intros a Hs. by apply Hf, Hsub.
  - intros k'. rewrite Hc. by apply wf_count.
  - intros k' i' lib' [He' _]%(closed_other _ _ _ _ _ _ _ E). apply wf_range in He'; [|done]. destruct k'; cbn [limit] in *; by rewrite ?Hc.
  - intros k' i' lib' [He' Hne]%(closed_other _ _ _ _ _ _ _ E). rewrite Eh. eapply foot_agree; [by eapply wf_lib|]. intros a. by apply (Hag k' i').
  - intros k1 i1 l1 k2 i2 l2 a [H1 N1]%(closed_other _ _ _ _ _ _ _ E) [H2 N2]%(closed_other _ _ _ _ _ _ _ E). rewrite Eh.
    destruct (foot_agree k1 (heap w) h l1) as (_ & -> & _); [by eapply wf_lib|intros ?; by apply (Hag k1 i1)|].
    destruct (foot_agree k2 (heap w) h l2) as (_ & -> & _); [by eapply wf_lib|intros ?; by apply (Hag k2 i2)|]. by eapply wf_apart.
  - intros a. rewrite Eh. destruct (decide (a ∈ released (heap w) lib)) as [Hin|Hin]; [right; split; [by apply F1|by exists k, i, lib]|left; by apply F2].
  - intros k' i' lib' He'. destruct (decide ((k', i') = (k, i))) as [[= -> ->]|Hne].
    + right. assert (lib' = lib) as -> by (unfold entry in *; congruence). rewrite Eh. split; [|apply F1].
      subst w'. rewrite with_index_index. cbn. apply lookup_delete_eq.
    + left. split; [by apply (closed_other _ _ _ _ _ _ _ E)|]. rewrite Eh. intros a. by apply (Hag k' i').
  - intros k' i' lib' He'. by apply (closed_other _ _ _ _ _ _ _ E) in He' as [? _].
Qed.

(** The loop over the indices of a registry. *)
Lemma close_loop k f l w : wf w ->
  (forall w i, wf w -> i ∈ l ->
     match byIndex (registry_of k w) !! i with
     | Some lib => wp (f i) w (fun _ w' => closed_entry k i lib w w')
     | None => wp (f i) w (fun _ w' => w' = w)
     end) ->
  wp (for_each f l) w (fun _ w' => wf w' /\ closing w w' /\
    exists m h c, w' = with_index k m h c w /\ forall i, i ∈ l -> m !! i = None).
Proof.
  intros Hw Hf. revert w Hw. induction l as [|i l IH]; intros w Hw; cbn [for_each].
  - apply wp_ret. split_and!; [done|by apply closing_same|]. exists (byIndex (registry_of k w)), (heap w), (calls w).
    split; [apply with_index_refl|]. intros i Hi. by apply elem_of_nil in Hi.
  - apply wp_bind. pose proof (Hf w i Hw (list_elem_of_here _ _)) as Hi.
    assert (forall w1, wf w1 -> closing w w1 -> (exists m h c, w1 = with_index k m h c w /\ m !! i = None) ->
      wp (for_each f l) w1 (fun _ w' => wf w' /\ closing w w' /\ exists m h c, w' = with_index k m h c w /\ forall j, j ∈ i :: l -> m !! j = None)) as Hgo.
    { intros w1 Hw1 C1 (m1 & h1 & c1 & E1 & N1). eapply wp_mono; [apply IH; [|done]|].
      - intros w2 j Hw2 Hj. apply Hf; [done|by apply elem_of_cons; right].
      - intros _ w2 (Hw2 & C2 & m2 & h2 & c2 & E2 & N2). split_and!; [done|by eapply closing_trans|].
        exists m2, h2, c2. split; [rewrite E2, E1; apply with_index_twice|]. intros j [->|Hj]%elem_of_cons; [|by apply N2].
        apply eq_None_not_Some. intros [lib Hl]. assert (entry k w2 i lib) as He by (unfold entry; rewrite E2, with_index_index; done).
        apply (cl_old _ _ C2) in He. unfold entry in He. rewrite E1, with_index_index in He. cbn in He. congruence. }
    destruct (byIndex (registry_of k w) !! i) as [lib|] eqn:El.
    + eapply wp_mono; [exact Hi|]. intros [] w1 Hc1. cbn beta in Hc1. destruct (wf_closed k i lib w w1 Hw El Hc1) as [Hw1 C1]. apply Hgo; [done..|].
      destruct Hc1 as (h & c & E & _). exists (delete i (byIndex (registry_of k w))), h, c. split; [exact E|]. apply lookup_delete_eq.
    + eapply wp_mono; [exact Hi|]. intros [] w1 ->. apply Hgo; [done|by apply closing_same|].
      exists (byIndex (registry_of k w)), (heap w), (calls w). split; [apply with_index_refl|done].
Qed.


(** ** The last close *)

(** The state outside the memory and the indices; a registry that is empty may
    lose its count. *)
Lemma wf_ext w w' : wf w -> heap w' = heap w -> brk w' = brk w ->
  (forall k, byIndex (registry_of k w') = byIndex (registry_of k w) /\
     (count (registry_of k w') = count (registry_of k w) \/ (byIndex (registry_of k w) = ∅ /\ count (registry_of k w') = 0))) -> wf w'.
Proof.
  intros Hw Eh Eb Hk.
  assert (forall k i lib, entry k w' i lib <-> entry k w i lib) as He by (intros k i lib; unfold entry; by destruct (Hk k) as [-> _]).
  constructor.
  - rewrite Eh, Eb. apply Hw.
  - intros k. destruct (Hk k) as [_ [->|[_ ->]]]; [by apply wf_count|done].
  - intros k i lib Hl%He. destruct (Hk k) as [_ [E|[E _]]]; [|unfold entry in Hl; rewrite E in Hl; by apply lookup_empty_Some in Hl].
    apply wf_range in Hl; [|done]. destruct k; cbn [limit] in *; by rewrite ?E.
  - intros k i lib Hl%He. rewrite Eh. by eapply wf_lib.
  - intros k1 i1 l1 k2 i2 l2 a H1%He H2%He. rewrite Eh. by eapply wf_apart.
Qed.

Lemma index_empty k w m h c w' (l : list Z) : wf w' -> w' = with_index k m h c w -> (forall i, i ∈ l -> m !! i = None) ->
  (forall i, 0 <= i < limit k w' -> i ∈ l) -> m = ∅.
Proof.
  intros Hw E Hl Hr. apply map_eq. intros i. rewrite lookup_empty. apply eq_None_not_Some. intros [lib Hi].
  assert (entry k w' i lib) as He by (unfold entry; rewrite E, with_index_index; done).
  apply wf_range in He; [|done]. rewrite Hl in Hi; [done|]. by apply Hr.
Qed.

Lemma elem_of_indices i n : i ∈ indices n <-> 0 <= i < n.
Proof. unfold indices. rewrite elem_of_seqZ. lia. Qed.

(** The loop over the entries, to its end. *)
Lemma close_libs k f w : k <> Payloads -> wf w ->
  (forall w i lib, wf w -> entry k w i lib -> wp (f i lib) w (fun _ w' => closed_entry k i lib w w')) ->
  wp (for_each_lib k f) w (fun _ w' => wf w' /\ closing w w' /\ exists h c, w' = with_index k ∅ h c w).
Proof.
  intros Hk Hw Hf. unfold for_each_lib. wp_pure. eapply wp_mono; [apply (close_loop k); [done|]|].
  - intros w1 i Hw1 Hi. destruct (byIndex (registry_of k w1) !! i) as [lib|] eqn:El; wp_pure; rewrite El; [by apply Hf|by apply wp_ret].
  - intros [] w' (Hw' & C & m & h & c & E & Hn). split_and!; [done..|]. exists h, c.
    assert (m = ∅) as <-; [|done]. eapply (index_empty k w m h c w'); [done..|]. intros i Hi. apply elem_of_indices.
    assert (limit k w' = count (registry_of k w)) as El; [|lia]. destruct k; try done; by rewrite E.
Qed.

Lemma wp_stop_queue i lib b l w (Q : unit -> world P -> Prop) : heap w !! lib = Some (MiddlewareLib b l) -> (forall c, Q tt (put_calls c w)) ->
  wp (stop_queue i lib) w Q.
Proof.
  intros M1 HQ. unfold stop_queue, get_lib. apply wp_bind, wp_bind. unfold wp at 1, load. rewrite M1. apply wp_ret. cbn [fst].
  case_match; [|apply wp_modify, HQ]. apply wp_ret. specialize (HQ (calls w)). by destruct w.
Qed.

Lemma stop_queues w : wf w -> wp (for_each_lib Middlewares stop_queue) w (fun _ w' => exists c, w' = put_calls c w).
Proof.
  intros Hw. unfold for_each_lib. wp_pure.
  assert (forall l c0, wp (for_each (fun i => m ← gets (fun w => byIndex (middlewares w));
    match m !! i with Some lib => stop_queue i lib | None => mret tt end) l) (put_calls c0 w) (fun _ w' => exists c, w' = put_calls c w)) as Hg.
  { induction l as [|i l IH]; intros c0; cbn [for_each]; [apply wp_ret; by exists c0|]. wp_pure. cbn [registry_of].
    change (byIndex (middlewares (put_calls c0 w))) with (byIndex (middlewares w)).
    destruct (byIndex (middlewares w) !! i) as [lib|] eqn:El; [|apply wp_ret, IH].
    destruct (wf_lib w Hw Middlewares i lib El) as (b & hd & br & cl & [M1 _ _ _ _ _]).
    eapply wp_stop_queue; [exact M1|]. intros c. apply (IH c). }
  specialize (Hg (indices (count (middlewares w))) (calls w)). destruct w. exact Hg.
Qed.

Record all_closed w w' : Prop := mkAllClosed {
  ac_closing : closing w w';
  ac_registries : forall k, registry_of k w' = empty_registry;
  ac_reset : (gDefaultPayload w', internalProperties w', gProperties w', appContext w', gStatsGenerator w') = (0, None, None, (None, None), false);
  ac_same : (myRefCount w', myLock w', init w', brk w', version w') = (myRefCount w, myLock w, init w, brk w, version w);
  ac_keys : keys w' = keys w - 1;
}.

Lemma close_all_closes w : wf w -> wp close_all w (fun _ w' => wf w' /\ all_closed w w').
Proof.
  intros Hw. unfold close_all. apply wp_bind. eapply wp_mono; [apply close_libs; [done|done|apply close_entitlement_closed]|].
  intros [] w1 (Hw1 & C1 & h1 & c1 & E1). unfold update. apply wp_bind, wp_modify. apply wp_bind, wp_modify. wp_pure.
  match goal with |- wp _ ?s _ => assert (wf s /\ closing w s) as [Hw2 C2] end.
  { split; [eapply wf_ext; [exact Hw1|done..|]; intros []; cbn; auto; rewrite E1; cbn; auto|].
    eapply closing_trans; [done|exact C1|]. apply closing_same; [done|]. by intros []. }
  match goal with |- wp _ ?s _ => remember s as w2 eqn:E2 end.
  assert (forall Q : unit -> world P -> Prop, (forall c, Q tt (put_calls c w2)) -> wp (if gStatsGenerator w2 then invoke StopReportTimer else mret tt) w2 Q) as Hs.
  { intros Q HQ. destruct (gStatsGenerator w2); [apply wp_modify, HQ|]. apply wp_ret. specialize (HQ (calls w2)). by destruct w2. }
  apply Hs. intros c2. clear Hs. wp_pure.
  eapply wp_mono; [apply stop_queues|]; [eapply wf_ext; [exact Hw2|done..|intros []; auto]|]. intros [] w3 [c3 E3]. wp_pure.
  assert (forall Q : unit -> world P -> Prop, (forall c, Q tt (put_calls c (put_gStatsGenerator false w3))) ->
    wp (if gStatsGenerator w2 then invoke DestroyStats ;; modify (put_gStatsGenerator false) else mret tt) w3 Q) as Hs.
  { intros Q HQ. destruct (gStatsGenerator w2) eqn:Eg; [wp_pure; apply HQ|]. apply wp_ret. specialize (HQ (calls w3)).
    assert (gStatsGenerator w3 = false) as Eg3 by (rewrite E3; done). destruct w3. cbn in Eg3. subst. done. }
  apply Hs. intros c4. clear Hs. unfold invoke. wp_pure.
  match goal with |- wp _ ?s _ => assert (wf s /\ closing w s) as [Hw4 C4] end.
  { split; [eapply wf_ext; [exact Hw2|subst w3; try done..]; by intros []; auto|].
    eapply closing_trans; [done|exact C2|]. apply closing_same; [by subst w3|]. subst w3. by intros []. }
  match goal with |- wp _ ?s _ => remember s as w4 eqn:E4 end.
  eapply wp_mono; [apply (close_loop Payloads); [done|]|].
  { intros w5 id Hw5 Hid%elem_of_indices. destruct (byIndex (registry_of Payloads w5) !! id) as [lib|] eqn:El; [by apply close_payload_closed|].
    unfold close_payload, byChar. rewrite (proj2 (Z.ltb_lt id MAMA_PAYLOAD_MAX)) by lia. wp_pure. cbn [registry_of] in El. rewrite El. cbn. by apply wp_ret. }
  intros [] w5 (Hw5 & C5 & m5 & h5 & c5 & E5 & N5).
  assert (m5 = ∅) as ->.
  { eapply (index_empty Payloads w4 m5 h5 c5 w5); [done..|]. intros i Hi. by apply elem_of_indices. }
  clear N5.
  wp_pure.
  match goal with |- wp _ ?s _ => assert (wf s /\ closing w s) as [Hw6 C6] end.
  { split; [eapply wf_ext; [exact Hw5|done..|]; intros []; cbn; auto; (split; [done|right; by rewrite E5])|].
    eapply closing_trans; [done|exact C4|]. eapply closing_trans; [exact Hw4|exact C5|]. apply closing_same; [done|]. by intros []. }
  match goal with |- wp _ ?s _ => remember s as w6 eqn:E6 end.
  eapply wp_mono; [apply close_libs; [done|done|apply close_middleware_closed]|].
  intros [] w7 (Hw7 & C7 & h7 & c7 & E7). wp_pure.
  assert (forall w8, heap w8 = heap w7 -> (forall k, byIndex (registry_of k w8) = byIndex (registry_of k w7)) -> closing w w8) as C8.
  { intros w8 Eh Ei. eapply closing_trans; [done|exact C6|]. eapply closing_trans; [exact Hw6|exact C7|]. by apply closing_same. }
  split; [eapply wf_ext; [exact Hw7|done..|]; intros []; cbn; auto; (split; [done|right; by rewrite E7])|].
  constructor.
  - apply C8; [done|]. by intros [].
  - intros []; cbn; rewrite ?E7; cbn; rewrite ?E6; cbn; rewrite ?E5; cbn; rewrite ?E4; cbn; rewrite ?E3; cbn; rewrite ?E2; cbn; by rewrite ?E1.
  - cbn. rewrite ?E7; cbn; rewrite ?E6; cbn; rewrite ?E5; cbn; rewrite ?E4; cbn; rewrite ?E3; done.
  - cbn. rewrite ?E7; cbn; rewrite ?E6; cbn; rewrite ?E5; cbn; rewrite ?E4; cbn; rewrite ?E3; cbn; rewrite ?E2; cbn; by rewrite ?E1.
  - cbn. rewrite ?E7; cbn; rewrite ?E6; cbn; rewrite ?E5; cbn; rewrite ?E4; cbn; rewrite ?E3; cbn; rewrite ?E2; cbn; by rewrite ?E1.
Qed.

End Close.
End MamaClose.
