(* ===== verification/MamaProps.v ===== *)
(** * What opening and closing MAMA guarantees *)

From S2P Require Import Prelude MamaStatus Cstdio Text StrUtils MamaRegister Mama MamaInv MamaLoads MamaWf MamaClose.
From Stdlib Require Import Ascii String.
From stdpp Require Import strings.
#[local] Open Scope Z_scope.
Import Cstdio StrUtils MamaRegister Mama MamaInv MamaLoads MamaWf MamaClose.

Module MamaProps.

(** ** Every operation keeps the registries sound *)

Definition keeps {P A} (m : M (world P) A) : Prop := forall w, wf w -> tr m w (fun _ w' => wf w').

Section Keeps.
Context {P : Type} `{PropertyTable P}.
Abbreviation MM := (M (world P)).
Implicit Types w : world P.

Lemma keeps_ret {A} (a : A) : keeps (mret a : MM A).
Proof. by intros w Hw. Qed.

Lemma keeps_fail {A} f : keeps (fail f : MM A).
Proof. done. Qed.

Lemma keeps_gets {A} (f : world P -> A) : keeps (gets f).
Proof. by intros w Hw. Qed.

Lemma keeps_bind {A B} (m : MM A) (k : A -> MM B) : keeps m -> (forall a, keeps (k a)) -> keeps (m ≫= k).
Proof. intros Hm Hk w Hw. apply tr_bind. eapply tr_mono; [by apply Hm|]. intros a w' Hw'. by apply Hk. Qed.

Lemma keeps_for_each {A} (f : A -> MM unit) l : (forall a, keeps (f a)) -> keeps (for_each f l).
Proof. intros Hf. induction l as [|a l IH]; cbn [for_each]; [apply keeps_ret|by apply keeps_bind]. Qed.

(** A change outside the memory and the indices. *)
Lemma keeps_modify f : (forall w, heap (f w) = heap w /\ brk (f w) = brk w /\
    forall k, byIndex (registry_of k (f w)) = byIndex (registry_of k w) /\ count (registry_of k (f w)) = count (registry_of k w)) ->
  keeps (modify f : MM unit).
Proof.
  intros Hf w Hw. apply tr_modify. destruct (Hf w) as (? & ? & Hk). eapply wf_ext; [exact Hw|done..|].
  intros k. destruct (Hk k) as [-> ->]. auto.
Qed.

Lemma keeps_quiet {A} (m : MM A) : quiet m -> keeps m.
Proof.
  intros Hm w Hw. apply quiet_tr; [done|]. intros a w' E. destruct (core_heap _ _ E). eapply wf_ext; [exact Hw|done..|].
  intros k. destruct (core_index k _ _ E) as [-> ->]. auto.
Qed.

Lemma keeps_wp {A} (m : MM A) : (forall w, wf w -> wp m w (fun _ w' => wf w')) -> keeps m.
Proof. intros Hm w Hw. by apply wp_tr, Hm. Qed.

End Keeps.

Ltac keeps_step :=
  cbn beta iota zeta;
  lazymatch goal with
  | |- forall _, _ => intros ?
  | |- keeps (mret _) => apply keeps_ret
  | |- keeps (fail _) => apply keeps_fail
  | |- keeps (mbind _ _) => apply keeps_bind
  | |- keeps (gets _) => apply keeps_gets
  | |- keeps (for_each _ _) => apply keeps_for_each
  | |- keeps (modify _) => apply keeps_modify; intros ?; split_and!; [try done; by case_match|try done; by case_match|intros []; first [done|by case_match]]
  | |- keeps (if _ then _ else _) => case_match
  | |- keeps (match _ with _ => _ end) => case_match
  | |- keeps (let '(_, _) := _ in _) => case_match
  | |- _ => first [solve [eauto with mama_keeps]|solve [apply keeps_quiet; eauto with mama_quiet]]
  end.
Ltac keeps_tac := repeat keeps_step.

Create HintDb mama_keeps discriminated.

Section Operations.
Context {P : Type} `{PropertyTable P}.
Context (openSharedLib : string -> option string -> option library).
Context (getenv : string -> option string).
Context (mama_version : string) (gEntitlementBridges : list string).
Abbreviation MM := (M (world P)).
Implicit Types w : world P.

Lemma wf_no_null w : wf w -> no_null_payload w.
Proof.
  intros Hw id E. destruct (wf_lib w Hw Payloads id 0 E) as (b & l & id' & keep & fns & back & lb & M1 & _).
  apply mk_is_Some, (proj2 (wf_fresh w Hw)) in M1. lia.
Qed.

Lemma payload_wf w r w' : wf w -> payload_outcome w r w' -> wf w'.
Proof.
  intros Hw [(Eh & Hb & E)|(_ & l & fns & id & keep & Eh & Eb & Hid & Hn & Ep & Em & Ee & _)].
  - unfold rest, core_of, index_of in E. cbn in E. injection E as E1 E2 E3 E4 E5 E6 _. destruct (wf_fresh w Hw) as [Hf0 Hf].
    apply (wf_grown w); [done| |by unfold same_indices, index_of; rewrite E1, E2, E3, E4, E5, E6].
    rewrite Eh. split_and!; [|done|done]. split; [lia|]. intros a Ha. apply Hf in Ha. lia.
  - unfold index_of in *. simplify_eq. pose proof (wf_fresh w Hw) as Hf.
    assert (grown (heap w) (brk w) (heap w') (brk w')) as Hg.
    { rewrite Eh, Eb. replace (brk w + 3) with (brk w + 1 + 1 + 1) by lia. replace (brk w + 2) with (brk w + 1 + 1) by lia.
      by apply grown_new, grown_new, grown_new, grown_refl. }
    eapply (wf_added Payloads id (brk w + 2)); [done|done|..|exact Hn|done|done| |].
    + by intros [].
    + done.
    + exists (brk w + 1), (brk w), id, keep, fns, (brk w + 2), l. rewrite Eh. split_and!; [by rewrite lookup_insert_eq| |].
      * by rewrite lookup_insert_ne, lookup_insert_eq by lia.
      * by rewrite !lookup_insert_ne, lookup_insert_eq by lia.
    + rewrite Eh. intros a. unfold foot, parts, closer_of. rewrite lookup_insert_eq. cbn [app]. rewrite !elem_of_cons, elem_of_nil. lia.
Qed.

Lemma middleware_wf w r w' : wf w -> middleware_outcome w r w' -> wf w'.
Proof.
  intros Hw (Hg & _ & Ep & Ee & [Em|(lib & hd & br & cl & _ & _ & _ & Em & Ma & L1 & L2 & L3 & L4)]).
  - apply (wf_grown w); [done|done|]. unfold same_indices. auto.
  - unfold index_of in *. simplify_eq. eapply (wf_added Middlewares (count (middlewares w)) lib); [done|done|..].
    + by intros [].
    + done.
    + apply eq_None_not_Some. intros [x Hx]. apply (wf_range w Hw Middlewares) in Hx. cbn [limit registry_of] in Hx. lia.
    + cbn [limit registry_of]. pose proof (wf_count w Hw Middlewares). cbn [registry_of] in *. lia.
    + done.
    + by exists (brk w + 1), hd, br, cl.
    + destruct Ma as [M1 M2 M3 M4 M5 M6]. intros a. unfold foot, parts, closer_of. rewrite M1, M2, M5. unfold lock_of.
      rewrite elem_of_app. case_match; cbn [app]; rewrite !elem_of_cons, !elem_of_nil; lia.
Qed.

Lemma entitlement_wf w r w' : wf w -> entitlement_outcome w r w' -> wf w'.
Proof.
  intros Hw (Hg & _ & Ep & Em & [Ee|(lib & fns & mImpl & _ & _ & Ee & Ma & L1)]).
  - apply (wf_grown w); [done|done|]. unfold same_indices. auto.
  - unfold index_of in *. simplify_eq. eapply (wf_added Entitlements (count (entitlements w)) lib); [done|done|..].
    + by intros [].
    + done.
    + apply eq_None_not_Some. intros [x Hx]. apply (wf_range w Hw Entitlements) in Hx. cbn [limit registry_of] in Hx. lia.
    + cbn [limit registry_of]. pose proof (wf_count w Hw Entitlements). cbn [registry_of] in *. lia.
    + done.
    + by exists (brk w + 1), (brk w), fns, mImpl.
    + destruct Ma as [M1 M2 M3 M4]. intros a. unfold foot, parts, closer_of. rewrite M1. cbn [app]. rewrite !elem_of_cons, elem_of_nil. lia.
Qed.

Lemma keeps_locked : keeps (lock : MM unit).
Proof. unfold lock. keeps_tac. Qed.

Lemma keeps_unlock : keeps (unlock : MM unit).
Proof. unfold unlock. keeps_tac. Qed.

Lemma keeps_invoke c : keeps (invoke c : MM unit).
Proof. unfold invoke. keeps_tac. Qed.

#[local] Hint Resolve keeps_locked keeps_unlock keeps_invoke : mama_keeps.

Lemma keeps_payload name : keeps (load_payload openSharedLib getenv name : MM result).
Proof.
  intros w Hw. eapply tr_mono; [apply (load_payload_outcome _ _ w); [apply Hw|by apply wf_no_null|done]|]. intros r w'. by apply payload_wf.
Qed.

Lemma keeps_middleware name path : keeps (load_middleware openSharedLib name path : MM result).
Proof. intros w Hw. eapply tr_mono; [apply (load_middleware_outcome _ w); [apply Hw|done]|]. intros r w'. by apply middleware_wf. Qed.

Lemma keeps_entitlement name : keeps (load_entitlement openSharedLib name : MM mama_status).
Proof. intros w Hw. eapply tr_mono; [apply (load_entitlement_outcome _ w); [apply Hw|done]|]. intros r w'. by apply entitlement_wf. Qed.

#[local] Hint Resolve keeps_payload keeps_middleware keeps_entitlement : mama_keeps.

Lemma keeps_loadPayload impl name : keeps (mama_loadPayloadBridge openSharedLib getenv mama_version impl name : MM result).
Proof. unfold mama_loadPayloadBridge, mama_loadPayloadBridgeInternal. keeps_tac. Qed.

Lemma keeps_loadBridge impl name path : keeps (mama_loadBridgeWithPath openSharedLib mama_version impl name path : MM result).
Proof. unfold mama_loadBridgeWithPath, mama_loadBridgeWithPathInternal. keeps_tac. Qed.

Lemma keeps_loadEntitlement name : keeps (mama_loadEntitlementBridgeInternal openSharedLib mama_version name : MM mama_status).
Proof. unfold mama_loadEntitlementBridgeInternal. keeps_tac. Qed.

#[local] Hint Resolve keeps_loadPayload keeps_loadBridge keeps_loadEntitlement : mama_keeps.

Lemma keeps_setDefault id : keeps (mama_setDefaultPayload id : MM mama_status).
Proof. unfold mama_setDefaultPayload. keeps_tac. Qed.
#[local] Hint Resolve keeps_setDefault : mama_keeps.

Lemma keeps_for_each_lib k f : (forall i lib, keeps (f i lib)) -> keeps (for_each_lib k f : MM unit).
Proof. intros Hf. unfold for_each_lib. keeps_tac. Qed.

Lemma keeps_alloc : keeps (alloc : MM bool).
Proof. apply keeps_quiet, quiet_alloc. Qed.

Lemma keeps_read o : keeps (load o : MM obj).
Proof. apply keeps_quiet, quiet_load. Qed.

#[local] Hint Resolve keeps_alloc keeps_read : mama_keeps.

Lemma keeps_statsInit : keeps (mama_statsInit openSharedLib mama_version : MM mama_status).
Proof.
  unfold mama_statsInit, mama_setupStatsGenerator, mama_loadBridge, read_flags, mamaInternal_statsPublishingEnabled. keeps_tac.
  apply keeps_for_each_lib. keeps_tac.
Qed.
#[local] Hint Resolve keeps_statsInit : mama_keeps.

Lemma keeps_load_payloads l : keeps (load_payloads openSharedLib getenv mama_version l : MM unit).
Proof. induction l as [|[name id] l IH]; cbn [load_payloads]; keeps_tac. Qed.
#[local] Hint Resolve keeps_load_payloads : mama_keeps.

Lemma keeps_close_all : keeps (close_all : MM unit).
Proof. apply keeps_wp. intros w Hw. eapply wp_mono; [by apply close_all_closes|]. by intros [] w' [? _]. Qed.
#[local] Hint Resolve keeps_close_all : mama_keeps.

Lemma keeps_close : keeps (mama_closeCount : MM (mama_status * Z)).
Proof. unfold mama_closeCount, decrement_init. keeps_tac. Qed.
#[local] Hint Resolve keeps_close : mama_keeps.

Lemma keeps_load_entitlements l : keeps (load_entitlements openSharedLib mama_version l : MM mama_status).
Proof. induction l as [|name l IH]; cbn [load_entitlements]; keeps_tac. Qed.
#[local] Hint Resolve keeps_load_entitlements : mama_keeps.

Lemma keeps_open_rest : keeps (open_rest openSharedLib getenv mama_version : MM mama_status).
Proof.
  unfold open_rest, load_default_payload, mamaInternal_autoloadPayloadBridges, autoloadPayloadPropertiesCb, read_options, count_bridges, log_version.
  keeps_tac; apply keeps_for_each_lib; unfold load_middleware_payloads; keeps_tac.
Qed.
#[local] Hint Resolve keeps_open_rest : mama_keeps.

Lemma keeps_open path file : keeps (mama_openWithPropertiesCount openSharedLib getenv mama_version gEntitlementBridges path file : MM _).
Proof.
  unfold mama_openWithPropertiesCount, first_open, create_key, default_names, mama_setApplicationName, mama_setApplicationClassName, mama_close. keeps_tac.
Qed.


(** ** Sequences of calls *)

Inductive op : Type :=
| LoadPayload (impl : bool) (name : option string)
| LoadBridge (impl : bool) (name path : option string)
| SetDefaultPayload (id : Z)
| SetProperty (name value : option string)
| SetPropertiesFromFile (path filename : option string)
| SetApplicationName (name : option string)
| Open (path filename : option string)
| Close.

Definition run (o : op) : MM unit :=
  match o with
  | LoadPayload impl name => mama_loadPayloadBridge openSharedLib getenv mama_version impl name ;; mret tt
  | LoadBridge impl name path => mama_loadBridgeWithPath openSharedLib mama_version impl name path ;; mret tt
  | SetDefaultPayload id => mama_setDefaultPayload id ;; mret tt
  | SetProperty name value => mama_setProperty getenv name value ;; mret tt
  | SetPropertiesFromFile path filename => mama_setPropertiesFromFile getenv path filename ;; mret tt
  | SetApplicationName name => mama_setApplicationName name ;; mret tt
  | Open path filename => mama_openWithPropertiesCount openSharedLib getenv mama_version gEntitlementBridges path filename ;; mret tt
  | Close => mama_closeCount ;; mret tt
  end.

(** The static variables when the process starts. *)
Definition start (allocs : list bool) : world P :=
  mkWorld ∅ 1 empty_registry empty_registry empty_registry 0 0 0 None (mkVersion 0 0 0 "") None 0 0 (None, None)
    (fun _ => mkFlags true false false) false false true [] allocs.

Lemma wf_start allocs : wf (start allocs).
Proof.
  constructor; [by split; [|intros a [? ?]]|by intros []|..].
  - intros [] i lib E; unfold entry in E; cbn in E; by rewrite lookup_empty in E.
  - intros [] i lib E; unfold entry in E; cbn in E; by rewrite lookup_empty in E.
  - intros [] i1 lib1 k2 i2 lib2 a E; unfold entry in E; cbn in E; by rewrite lookup_empty in E.
Qed.

Lemma keeps_run o : keeps (run o).
Proof.
  destruct o; cbn [run]; apply keeps_bind; try (intros; apply keeps_ret).
  - apply keeps_loadPayload.
  - apply keeps_loadBridge.
  - apply keeps_setDefault.
  - apply keeps_quiet, quiet_setProperty.
  - apply keeps_quiet. unfold mama_setPropertiesFromFile. quiet_tac.
  - unfold mama_setApplicationName. keeps_tac.
  - apply keeps_open.
  - apply keeps_close.
Qed.

Lemma run_wf ops allocs w : for_each run ops (start allocs) = Ok (tt, w) -> wf w.
Proof.
  intros E. pose proof (keeps_for_each run ops keeps_run (start allocs) (wf_start allocs)) as Hk. unfold tr in Hk. by rewrite E in Hk.
Qed.

(** ** Closing *)

Definition closed_world w w' : Prop :=
  (forall k, registry_of k w' = empty_registry) /\
  (gDefaultPayload w', internalProperties w', gProperties w', appContext w', gStatsGenerator w') = (0, None, None, (None, None), false) /\
  (myRefCount w', myLock w') = (0, myLock w) /\
  (forall a, released_in w a -> heap w' !! a = None) /\ (forall a, ~ released_in w a -> heap w' !! a = heap w !! a).

Lemma last_close w : wf w -> myRefCount w = 1 -> wp mama_closeCount w (fun r w' => r = (MAMA_STATUS_OK, 0) /\ closed_world w w' /\ wf w').
Proof.
  intros Hw Hn. unfold mama_closeCount, lock. wp_pure. cbn [myRefCount put_myLock]. rewrite Hn. cbn [Z.eqb]. wp_pure. cbn [Z.sub Z.add Z.opp Z.eqb Z.pos_sub].
  match goal with |- wp _ ?s _ => remember s as w1 eqn:E1 end.
  assert (wf w1) as Hw1 by (eapply wf_ext; [exact Hw|by subst w1..|subst w1; intros []; auto]).
  eapply wp_mono; [by apply close_all_closes|]. intros [] w2 [Hw2 [C1 C2 C3 C4 C5]]. unfold decrement_init, unlock. wp_pure.
  assert (forall a, released_in w1 a <-> released_in w a) as Hr by (intros a; by subst w1).
  split; [done|].
  assert (forall w3, heap w3 = heap w2 -> brk w3 = brk w2 -> (forall k, registry_of k w3 = registry_of k w2) ->
    (gDefaultPayload w3, internalProperties w3, gProperties w3, appContext w3, gStatsGenerator w3) =
    (gDefaultPayload w2, internalProperties w2, gProperties w2, appContext w2, gStatsGenerator w2) ->
    (myRefCount w3, myLock w3) = (0, myLock w) -> closed_world w w3 /\ wf w3) as Hgo.
  { intros w3 Eh Eb Er Es Et. split.
    - split_and!; [intros k; rewrite Er; apply C2|by rewrite Es|done|..]; intros a Ha; rewrite Eh.
      + apply Hr in Ha as (k & i & lib & He & Hin). destruct (cl_entry _ _ C1 _ _ _ He) as [[He' _]|[_ Hd]]; [|by apply Hd].
        unfold entry in He'. rewrite C2 in He'. cbn in He'. by rewrite lookup_empty in He'.
      + destruct (cl_heap _ _ C1 a) as [->|[_ Ha']]; [by subst w1|by apply Hr in Ha'].
    - eapply wf_ext; [exact Hw2|done|done|]. intros k. rewrite Er. auto. }
  injection C4 as D1 D2 D3 D4 D5.
  apply Hgo; repeat (case_match; try done); try (by intros []); cbn [myRefCount myLock init put_myLock put_init] in *;
    rewrite ?D1, ?D2, ?D3; subst w1; cbn in *; repeat f_equal; lia.
Qed.

(** C34: Whatever was called before, as long as those calls
    returned, [mama_close] returns with MAMA_STATUS_OK: it never follows or frees
    twice a structure that is gone, and the registries stay sound. *)
Theorem close_never_faults ops allocs w :
  for_each run ops (start allocs) = Ok (tt, w) -> wp mama_closeCount w (fun r w' => r.1 = MAMA_STATUS_OK /\ wf w').
Proof.
  intros E. pose proof (run_wf ops allocs w E) as Hw. destruct (decide (myRefCount w = 1)) as [Hn|Hn].
  - eapply wp_mono; [by apply last_close|]. by intros r w' (-> & _ & ?).
  - unfold mama_closeCount, lock. wp_pure. cbn [myRefCount put_myLock]. destruct (Z.eqb_spec (myRefCount w) 0).
    + unfold unlock. wp_pure. split; [done|]. eapply wf_ext; [exact Hw|done..|intros []; auto].
    + wp_pure. destruct (Z.eqb_spec (myRefCount w - 1) 0); [lia|]. unfold decrement_init, unlock. wp_pure. split; [done|].
      eapply wf_ext; [exact Hw|repeat (case_match; try done)..|]. intros []; repeat (case_match; try (cbn; auto)).
Qed.

(** C33: The last [mama_close] empties the registries, forgets the
    properties, the default payload and the names, frees everything that the
    registries reach but the payloads that are kept loaded, and frees nothing else. *)
Theorem last_close_releases ops allocs w :
  for_each run ops (start allocs) = Ok (tt, w) -> myRefCount w = 1 ->
  wp mama_closeCount w (fun r w' => r = (MAMA_STATUS_OK, 0) /\ closed_world w w').
Proof. intros E Hn. eapply wp_mono; [apply last_close; [by eapply run_wf|done]|]. by intros r w' (? & ? & _). Qed.

(** ** Failures *)

(** C36: When a payload bridge cannot be loaded,
    whatever the reason, the memory, the registries' indices and counts, the default
    payload and the lock are as before. *)
Theorem failed_payload_load_leaves_no_trace ops allocs w impl name r w' :
  for_each run ops (start allocs) = Ok (tt, w) ->
  mama_loadPayloadBridge openSharedLib getenv mama_version impl name w = Ok (r, w') -> r.1 <> MAMA_STATUS_OK ->
  heap w' = heap w /\ (forall k, byIndex (registry_of k w') = byIndex (registry_of k w) /\ count (registry_of k w') = count (registry_of k w)) /\
  gDefaultPayload w' = gDefaultPayload w /\ myRefCount w' = myRefCount w /\ myLock w' = myLock w.
Proof.
  intros Eo E Hr. pose proof (run_wf ops allocs w Eo) as Hw. revert E Hr.
  cut (tr (mama_loadPayloadBridge openSharedLib getenv mama_version impl name) w (fun r w' => r.1 <> MAMA_STATUS_OK -> unchanged w w')).
  { intros Ht E Hr. unfold tr in Ht. rewrite E in Ht. destruct (Ht Hr) as (Eh & _ & E'). unfold rest, core_of, index_of in E'. cbn in E'.
    injection E' as E1 E2 E3 E4 E5 E6 E7 E8 E9 E10 _. split_and!; try done. by intros []. }
  unfold mama_loadPayloadBridge, mama_loadPayloadBridgeInternal. destruct impl; [destruct name as [name|]|]; try (apply tr_ret; intros _; split_and!; done || lia).
  apply tr_bind. eapply tr_quiet; [apply at_refl|eauto with mama_quiet|]. intros status w1 Hat1.
  case_match; [apply tr_ret; intros _; by eapply at_unchanged|]. unfold lock, unlock. tr_pure.
  match goal with |- tr _ ?s _ => remember s as w2 eqn:E2 end.
  assert (fresh (heap w2) (brk w2) /\ no_null_payload w2 /\ heap w2 = heap w /\ brk w2 = brk w /\ rest (put_myLock (myLock w2 - 1) w2) = rest w) as (Hf & Hn & Eh & Eb & Er).
  { destruct Hat1 as (E1 & E3 & E4). subst w2. cbn. rewrite E1, E3. split_and!; try done; [apply Hw| |].
    - unfold no_null_payload. cbn. unfold rest, core_of, index_of in E4. cbn in E4. injection E4 as _ _ -> _. by apply wf_no_null.
    - rewrite <- E4. unfold rest, core_of, index_of. cbn. do 2 f_equal. f_equal. f_equal. f_equal. lia. }
  eapply tr_mono; [apply (load_payload_outcome _ _ w2); [done|done|done]|]. intros r3 w3 Ho. tr_pure. intros Hbad.
  destruct Ho as [(F1 & F2 & F3)|[-> _]]; [|done]. unfold unchanged. cbn [heap brk put_myLock]. split_and!; [congruence|lia|].
  rewrite <- Er. unfold rest, core_of, index_of in *. cbn in *. congruence.
Qed.


(** ** Nesting *)

(** Calls that give a status and a count. *)
Fixpoint run_counts (l : list (MM (mama_status * Z))) : MM (list (mama_status * Z)) :=
  match l with
  | [] => mret []
  | m :: l' => r ← m; rs ← run_counts l'; mret (r :: rs)
  end.

Definition named (c : option string * option string) : option string * option string :=
  (Some (default "MamaApplication"%string c.1), Some (default "MamaApplications"%string c.2)).
Definition more_keys (n : nat) (k : Z) : Z := if k <? PTHREAD_KEYS_MAX then Z.min PTHREAD_KEYS_MAX (k + Z.of_nat n) else k.
Definition less_init (n : nat) (i : Z) : Z := if 0 <? i then Z.max 0 (i - 2 * Z.of_nat n) else i.

(** What [n] opens that are not the first one, and [n] closes that are not the last
    one, leave. *)
Definition after_opens (n : nat) (w : world P) : world P :=
  put_myRefCount (myRefCount w + Z.of_nat n) (put_keys (more_keys n (keys w)) (if n is O then w else put_appContext (named (appContext w)) w)).
Definition after_closes (n : nat) (w : world P) : world P :=
  put_myRefCount (myRefCount w - Z.of_nat n) (put_init (version w) (less_init n (init w)) w).

Lemma more_keys_S n k : more_keys n (more_keys 1 k) = more_keys (S n) k.
Proof. unfold more_keys. repeat match goal with |- context [?a <? ?b] => destruct (Z.ltb_spec a b) end; lia. Qed.

Lemma less_init_S n i : less_init n (less_init 1 i) = less_init (S n) i.
Proof. unfold less_init. repeat match goal with |- context [?a <? ?b] => destruct (Z.ltb_spec a b) end; lia. Qed.

Lemma more_keys_0 k : more_keys 0 k = k.
Proof. unfold more_keys. destruct (Z.ltb_spec k PTHREAD_KEYS_MAX); lia. Qed.

Lemma less_init_0 i : less_init 0 i = i.
Proof. unfold less_init. destruct (Z.ltb_spec 0 i); lia. Qed.

Definition opening (pf : option string * option string) : MM (mama_status * Z) :=
  mama_openWithPropertiesCount openSharedLib getenv mama_version gEntitlementBridges pf.1 pf.2.

Lemma world_ext w w' :
  heap w = heap w' -> brk w = brk w' -> middlewares w = middlewares w' -> payloads w = payloads w' ->
  entitlements w = entitlements w' -> myRefCount w = myRefCount w' -> init w = init w' -> myLock w = myLock w' ->
  internalProperties w = internalProperties w' -> version w = version w' -> gProperties w = gProperties w' -> gDefaultPayload w = gDefaultPayload w' ->
  keys w = keys w' -> appContext w = appContext w' -> flags w = flags w' -> gStatsGenerator w = gStatsGenerator w' ->
  gCatchCallbackExceptions w = gCatchCallbackExceptions w' -> gAllowMsgModify w = gAllowMsgModify w' -> calls w = calls w' -> allocs w = allocs w' ->
  w = w'.
Proof. destruct w, w'; cbn; intros; by subst. Qed.

Lemma nested_open w pf : 0 < myRefCount w < 2 ^ 32 - 1 ->
  wp (opening pf) w (fun r w' => r = (MAMA_STATUS_OK, myRefCount w + 1) /\ w' = after_opens 1 w).
Proof.
  intros Hn. unfold opening, mama_openWithPropertiesCount, lock, create_key, default_names, mama_setApplicationName,
    mama_setApplicationClassName, unlock. wp_pure. cbn [keys put_myLock]. pose proof (u32_small (myRefCount w + 1) ltac:(lia)) as U.
  unfold after_opens, more_keys.
  destruct (Z.ltb_spec (keys w) PTHREAD_KEYS_MAX); cbn [appContext put_keys put_myLock]; destruct (appContext w) as [a c] eqn:Ec; cbn [fst]; destruct a;
    wp_pure; cbn [appContext put_appContext put_keys put_myLock fst snd];
    destruct c; wp_pure; cbn [myRefCount put_appContext put_keys put_myLock];
    rewrite (proj2 (Z.eqb_neq (myRefCount w) 0)) by lia; cbn [negb]; wp_pure; rewrite ?U;
    (split; [done|]; apply world_ext; cbn -[Z.of_nat Z.add Z.sub more_keys less_init]; rewrite ?Ec; first [reflexivity|lia]).
Qed.

Lemma nested_close w : 1 < myRefCount w ->
  wp mama_closeCount w (fun r w' => r = (MAMA_STATUS_OK, myRefCount w - 1) /\ w' = after_closes 1 w).
Proof.
  intros Hn. unfold mama_closeCount, lock, unlock, decrement_init. wp_pure. cbn [myRefCount put_myLock].
  rewrite (proj2 (Z.eqb_neq (myRefCount w) 0)) by lia. wp_pure. rewrite (proj2 (Z.eqb_neq (myRefCount w - 1) 0)) by lia. wp_pure.
  cbn [init put_myRefCount put_myLock put_init]. unfold after_closes, less_init. destruct (Z.ltb_spec 0 (init w)); wp_pure; cbn [init put_myRefCount put_myLock put_init];
    [destruct (Z.ltb_spec 0 (init w - 1))|destruct (Z.ltb_spec 0 (init w)); [lia|]]; wp_pure; (split; [done|]; apply world_ext; cbn -[Z.of_nat Z.add Z.sub more_keys less_init]; first [reflexivity|lia]).
Qed.

(** The counts that are reported on the way up and down. *)
Definition counts_up (n : Z) (k : nat) : list (mama_status * Z) := (fun i => (MAMA_STATUS_OK, n + Z.of_nat i)) <$> seq 1 k.
Definition counts_down (n : Z) (k : nat) : list (mama_status * Z) := (fun i => (MAMA_STATUS_OK, n - Z.of_nat i)) <$> seq 1 k.

Lemma counts_S n k :
  counts_up n (S k) = (MAMA_STATUS_OK, n + 1) :: counts_up (n + 1) k /\ counts_down n (S k) = (MAMA_STATUS_OK, n - 1) :: counts_down (n - 1) k.
Proof.
  unfold counts_up, counts_down. cbn [seq fmap list_fmap]. rewrite <- (fmap_S_seq 1 k), <- !list_fmap_compose.
  split; (f_equal; apply list_fmap_ext; intros; cbn; f_equal; lia).
Qed.

Lemma wp_run_counts_app l1 l2 w Q :
  wp (run_counts l1) w (fun r1 w1 => wp (run_counts l2) w1 (fun r2 => Q (r1 ++ r2))) -> wp (run_counts (l1 ++ l2)) w Q.
Proof.
  revert w Q. induction l1 as [|m l1 IH]; intros w Q; cbn [run_counts app].
  - unfold wp at 1, mret, M_ret. done.
  - unfold wp, mbind, M_bind. destruct (m w) as [[r w1]|]; [|done]. specialize (IH w1 (fun rs => Q (r :: rs))). unfold wp in IH.
    destruct (run_counts l1 w1) as [[r1 w2]|]; [|done]. cbn. destruct (run_counts l2 w2) as [[r2 w3]|] eqn:E2; [|done].
    intros HQ. specialize (IH HQ). by destruct (run_counts (l1 ++ l2) w1) as [[? ?]|].
Qed.

Lemma opens_spec l : forall w, 0 < myRefCount w -> myRefCount w + Z.of_nat (length l) < 2 ^ 32 ->
  wp (run_counts (opening <$> l)) w (fun rs w' => rs = counts_up (myRefCount w) (length l) /\ w' = after_opens (length l) w).
Proof.
  induction l as [|pf l IH]; intros w Hn Hlt; cbn [length fmap list_fmap run_counts] in *.
  - apply wp_ret. split; [done|]. apply world_ext; cbn -[Z.of_nat Z.add Z.sub more_keys less_init]; first [reflexivity|lia|by rewrite more_keys_0].
  - apply wp_bind. eapply wp_mono; [apply nested_open; lia|]. intros r w1 [-> ->]. apply wp_bind.
    eapply wp_mono; [apply IH; cbn; lia|]. intros rs w2 [-> ->]. apply wp_ret. split; [by rewrite (proj1 (counts_S _ _))|].
    destruct l; apply world_ext; cbn -[Z.of_nat Z.add Z.sub more_keys less_init]; first [reflexivity|lia|by rewrite more_keys_S].
Qed.

Lemma closes_spec n : forall w, Z.of_nat n < myRefCount w ->
  wp (run_counts (replicate n mama_closeCount)) w (fun rs w' => rs = counts_down (myRefCount w) n /\ w' = after_closes n w).
Proof.
  induction n as [|n IH]; intros w Hn; cbn [replicate run_counts].
  - apply wp_ret. split; [done|]. apply world_ext; cbn -[Z.of_nat Z.add Z.sub more_keys less_init]; first [reflexivity|lia|by rewrite less_init_0].
  - apply wp_bind. eapply wp_mono; [apply nested_close; lia|]. intros r w1 [-> ->]. apply wp_bind.
    eapply wp_mono; [apply IH; cbn; lia|]. intros rs w2 [-> ->]. apply wp_ret. split; [by rewrite (proj2 (counts_S _ _))|].
    apply world_ext; cbn -[Z.of_nat Z.add Z.sub more_keys less_init]; first [reflexivity|lia|by rewrite less_init_S].
Qed.

(** C35: While MAMA is open, further opens (below 2^32) and as many closes all give
    MAMA_STATUS_OK and the count of opens that remain, and in the end change nothing
    but three things.  The thread keys: every open creates one (up to the limit of
    the system), which is never deleted.  The names of the application: those that
    were not set have their defaults.  And the flag that MAMA is initialised: every
    close takes two from it as long as it is positive, so that the first of them
    clears it although MAMA is still open. *)
Theorem opens_and_closes_nest w (opens : list (option string * option string)) :
  let n := length opens in
  0 < myRefCount w -> myRefCount w + Z.of_nat n < 2 ^ 32 ->
  wp (run_counts ((opening <$> opens) ++ replicate n mama_closeCount)) w (fun rs w' =>
    rs = counts_up (myRefCount w) n ++ counts_down (myRefCount w + Z.of_nat n) n /\
    w' = put_init (version w) (less_init n (init w)) (put_keys (more_keys n (keys w))
           (if opens is [] then w else put_appContext (named (appContext w)) w))).
Proof.
  intros n Hn Hlt. apply wp_run_counts_app. eapply wp_mono; [by apply opens_spec|]. intros r1 w1 [-> ->].
  eapply wp_mono; [apply closes_spec; cbn; unfold n; lia|]. intros r2 w2 [-> ->]. split; [done|].
  unfold n. destruct opens; apply world_ext; cbn -[Z.of_nat Z.add Z.sub more_keys less_init]; first [reflexivity|lia].
Qed.

End Operations.

(** ** A process *)

(** Properties as a list of entries. *)
#[export] Instance list_properties : PropertyTable (list (string * string)) := {|
  properties_Create := [];
  properties_Load := fun path filename => if decide (filename = "mama.properties"%string)
    then Some [("mama.payload.autoload.fast", "true"); ("mama.payload.keeploaded.slow", "true")]%string else None;
  properties_Get := fun p name => snd <$> list_find (fun kv => kv.1 = name) p ≫= fun ikv => Some (snd ikv);
  properties_setProperty := fun p name value => (true, (name, value) :: p);
  properties_Merge := fun to_ from => from ++ to_;
  properties_Count := fun p => Z.of_nat (length p);
  properties_ForEach := fun p => p;
|}.


(** Libraries that have every function. *)
Definition demo_library (name : string) (type : Z) (payloads : list (string * Z)) : library :=
  mkLibrary (fun _ => true) MAMA_STATUS_OK [(("mama." ++ name ++ ".compile_version")%string, "6.3.0"%string)] 7 type name
    MAMA_STATUS_OK 9 MAMA_STATUS_OK (Some payloads).

(** "poor" lacks the function that starts a bridge, "rude" the one that tells its character. *)
Definition without (name : string) (l : library) : library :=
  mkLibrary (fun s => negb (bool_decide (s = name))) (lib_init l) (lib_meta l) (lib_impl l) (lib_getType l) (lib_getName l) (lib_open l)
    (lib_queue l) (lib_close l) (lib_payloadIds l).

Definition demo_open (name : string) (path : option string) : option library :=
  match name with
  | "mamabusimpl"%string => Some (demo_library "bus" 0 [("fast"%string, 70)])
  | "mamapoorimpl"%string => Some (without "poorBridge_start" (demo_library "poor" 0 []))
  | "mamafastimpl"%string => Some (demo_library "fast" 70 [])
  | "mamaslowimpl"%string => Some (demo_library "slow" 83 [])
  | "mamaotherimpl"%string => Some (demo_library "other" 70 [])
  | "mamalastimpl"%string => Some (demo_library "last" 255 [])
  | "mamarudeimpl"%string => Some (without "rudePayload_getType" (demo_library "rude" 1 []))
  | "mamaentguard"%string => Some (demo_library "guard" 0 [])
  | _ => None
  end.

Notation demo_run := (run demo_open (fun _ => None) "mama 6.3.1" ["guard"%string]).
Notation demo_start := (start (P := list (string * string)) []).
Notation demo_load name := (mama_loadPayloadBridge demo_open (fun _ => None) "mama 6.3.1" true (Some name)).
Notation demo_bridge name := (mama_loadBridge demo_open "mama 6.3.1" true (Some name)).

Definition demo_ops : list op :=
  [LoadBridge true (Some "bus"%string) None; Open None None; LoadPayload true (Some "slow"%string); Open None None;
   LoadPayload true (Some "none"%string); Close].

(** What is in memory after the last close of these calls: the payload that is kept
    loaded, its library and its structure. *)
Example demo_kept : (size ∘ heap) <$> state_of (for_each demo_run (demo_ops ++ [Close]) demo_start) = Some 3%nat.
Proof. vm_compute. reflexivity. Qed.

(** A payload with the character of another one is refused, and stays in the table
    of names when its structure is freed: asking for it again follows the pointer. *)
Example clash_dangles :
  (fst <$> value_of ((demo_load "fast" ;; demo_load "other") demo_start) = Some MAMA_STATUS_SYSTEM_ERROR) /\
  for_each demo_run [LoadPayload true (Some "fast"); LoadPayload true (Some "other"); LoadPayload true (Some "other")]%string demo_start
    = Fail InvalidDeref.
Proof. split; vm_compute; reflexivity. Qed.

(** A middleware without a required function: MAMA_STATUS_OK and no bridge; the lock
    of the bridge is left in memory. *)
Example poor_bridge_is_ok :
  value_of (demo_bridge "poor" demo_start) = Some (MAMA_STATUS_OK, Some 0) /\
  (map_to_list ∘ heap) <$> state_of (demo_bridge "poor" demo_start) = Some [(3, Lock)].
Proof. split; vm_compute; reflexivity. Qed.

(** The character 255 is past the end of the array; a payload that does not tell its
    character is asked for it all the same. *)
Example payload_crashes : demo_load "last" demo_start = Fail InvalidDeref /\ demo_load "rude" demo_start = Fail InvalidDeref.
Proof. split; vm_compute; reflexivity. Qed.

(** Opening without a middleware fails with the plugins initialised; [mama_close]
    then has nothing to close. *)
Example failed_open_keeps_plugins :
  value_of (mama_open demo_open (fun _ => None) "mama 6.3.1" [] demo_start) = Some MAMA_STATUS_NO_BRIDGE_IMPL /\
  calls <$> state_of (for_each demo_run [Open None None; Close] demo_start) =
    Some [InitReservedFields; LogInit; ThreadProperties; InitPlugins; CleanupReservedFields].
Proof. split; vm_compute; reflexivity. Qed.

Lemma demo_returns : match for_each demo_run demo_ops demo_start with Ok _ => true | Fail _ => false end = true.
Proof. vm_compute. reflexivity. Qed.

Lemma demo_open_once : myRefCount <$> state_of (for_each demo_run demo_ops demo_start) = Some 1.
Proof. vm_compute. reflexivity. Qed.

Lemma demo_clash :
  match for_each demo_run demo_ops demo_start with Ok (_, w) => fst <$> value_of (demo_load "other" w) | Fail _ => None end = Some MAMA_STATUS_SYSTEM_ERROR.
Proof. vm_compute. reflexivity. Qed.

Lemma close_never_faults_witness : exists w,
  for_each demo_run demo_ops demo_start = Ok (tt, w) /\ wp mama_closeCount w (fun r w' => r.1 = MAMA_STATUS_OK /\ wf w').
Proof.
  destruct (for_each demo_run demo_ops demo_start) as [[[] w]|f] eqn:E; [|exfalso; pose proof demo_returns as D; rewrite E in D; discriminate D].
  exists w. split; [reflexivity|exact (close_never_faults demo_open (fun _ => None) "mama 6.3.1" ["guard"%string] demo_ops [] w E)].
Defined.

Lemma last_close_releases_witness : exists w,
  for_each demo_run demo_ops demo_start = Ok (tt, w) /\ myRefCount w = 1 /\
  wp mama_closeCount w (fun r w' => r = (MAMA_STATUS_OK, 0) /\ closed_world w w').
Proof.
  destruct (for_each demo_run demo_ops demo_start) as [[[] w]|f] eqn:E; [|exfalso; pose proof demo_returns as D; rewrite E in D; discriminate D].
  pose proof demo_open_once as Hn.
  rewrite E in Hn. injection Hn as Hn. exists w. split; [reflexivity|]. split; [exact Hn|].
  exact (last_close_releases demo_open (fun _ => None) "mama 6.3.1" ["guard"%string] demo_ops [] w E Hn).
Defined.

Lemma failed_payload_load_leaves_no_trace_witness : exists w r w',
  for_each demo_run demo_ops demo_start = Ok (tt, w) /\ demo_load "other" w = Ok (r, w') /\ r.1 = MAMA_STATUS_SYSTEM_ERROR /\ heap w' = heap w.
Proof.
  destruct (for_each demo_run demo_ops demo_start) as [[[] w]|f] eqn:E; [|exfalso; pose proof demo_returns as D; rewrite E in D; discriminate D].
  pose proof demo_clash as Hn. rewrite E in Hn.
  destruct (demo_load "other" w) as [[r w']|f] eqn:E'; [|discriminate]. injection Hn as Hn. exists w, r, w'.
  split; [reflexivity|]. split; [exact E'|]. split; [exact Hn|].
  exact (proj1 (failed_payload_load_leaves_no_trace demo_open (fun _ => None) "mama 6.3.1" ["guard"%string] demo_ops [] w true (Some "other"%string) r w' E E'
    ltac:(rewrite Hn; discriminate))).
Defined.

Abbreviation demo_opening := (opening demo_open (fun _ => None) "mama 6.3.1" ["guard"%string]).

Lemma opens_and_closes_nest_witness : exists w,
  for_each demo_run demo_ops demo_start = Ok (tt, w) /\
  wp (run_counts [demo_opening (None, None); demo_opening (None, None); mama_closeCount; mama_closeCount]) w (fun rs w' =>
    rs = counts_up (myRefCount w) 2 ++ counts_down (myRefCount w + 2) 2 /\
    w' = put_init (version w) (less_init 2 (init w)) (put_keys (more_keys 2 (keys w)) (put_appContext (named (appContext w)) w))).
Proof.
  destruct (for_each demo_run demo_ops demo_start) as [[[] w]|f] eqn:E; [|exfalso; pose proof demo_returns as D; rewrite E in D; discriminate D].
  pose proof demo_open_once as Hn.
  rewrite E in Hn. injection Hn as Hn. exists w. split; [reflexivity|].
  apply (opens_and_closes_nest demo_open (fun _ => None) "mama 6.3.1" ["guard"%string] w [(None, None); (None, None)]); rewrite Hn; cbn; lia.
Defined.

End MamaProps.
