(* ===== verification/MamaRun.v ===== *)
(** * Starting and stopping a bridge (mama_start, mama_stop in mama.c)

    [mama_start] counts the callers under the lock and runs the bridge outside of
    it, in the thread of the first caller, until [mama_stop] has been called as
    often.  The system is a bridge with the threads that are in [mama_start]: the
    part under the lock, the call of [bridgeStart] and its return are steps of their
    own.  [mama_stop] is one step, since it calls [bridgeStop] with the lock held.
    What the bridge's own functions return is part of the steps. *)

From S2P Require Import Prelude MamaStatus Mama.
#[local] Open Scope Z_scope.
Import Mama.

Module MamaRun.

Definition put_refs (n : Z) (b : mamaBridgeImpl) : mamaBridgeImpl :=
  mkBridge (bridgeFunctions b) (mLock b) (mDefaultEventQueue b) n (mEntitleDeferred b) (mStartBackgroundThread b).

(** ** The parts of the calls *)

(** The part of [mama_start] under the lock: [None] goes on to [bridgeStart]. *)
Definition start_enter (impl : option mamaBridgeImpl) : option mama_status * option mamaBridgeImpl :=
  match impl with
  | None => (Some MAMA_STATUS_NO_BRIDGE_IMPL, None)
  | Some b =>
      if mDefaultEventQueue b =? 0 then (Some MAMA_STATUS_INVALID_QUEUE, Some b)
      else
        let prevRefCnt := mRefCount b in
        (if 0 <? prevRefCnt then Some MAMA_STATUS_OK else None, Some (put_refs (u32 (prevRefCnt + 1)) b))
  end.

(** The rest of it, with what [bridgeStart] returned. *)
Definition start_leave (rval : mama_status) (b : mamaBridgeImpl) : mama_status * mamaBridgeImpl :=
  if negb (status_ok rval) then (rval, put_refs (u32 (mRefCount b - 1)) b) else (rval, b).

(** [mama_stop]: whether [bridgeStop] is called, which returns [rval]. *)
Definition mama_stop (impl : option mamaBridgeImpl) (rval : mama_status) : mama_status * bool * option mamaBridgeImpl :=
  match impl with
  | None => (MAMA_STATUS_NO_BRIDGE_IMPL, false, None)
  | Some b =>
      if mDefaultEventQueue b =? 0 then (MAMA_STATUS_INVALID_QUEUE, false, Some b)
      else if 0 <? mRefCount b then
        let n := mRefCount b - 1 in
        if n =? 0 then (rval, true, Some (put_refs (if negb (status_ok rval) then n + 1 else n) b))
        else (MAMA_STATUS_OK, false, Some (put_refs n b))
      else (MAMA_STATUS_OK, false, Some b)
  end.

(** [mama_stopAll] over the bridges with what their [bridgeStop] returns: the status
    of the last one, and the bridges. *)
Fixpoint mama_stopAll (result : mama_status) (l : list (mamaBridgeImpl * mama_status)) : mama_status * list mamaBridgeImpl :=
  match l with
  | [] => (result, [])
  | (b, rval) :: l' =>
      let '(st, _, b') := mama_stop (Some b) rval in
      let r := mama_stopAll st l' in
      (r.1, default b b' :: r.2)
  end.

(** [mama_startBackgroundHelper]: the status, whether a thread runs [mama_start],
    and how many closures are left behind. *)
Definition mama_startBackgroundHelper (bridgeImpl callback exCallback mem : bool) (threadStatus : option bool) : mama_status * bool * Z :=
  if negb bridgeImpl then (MAMA_STATUS_NO_BRIDGE_IMPL, false, 0)
  else if negb callback && negb exCallback then (MAMA_STATUS_INVALID_ARG, false, 0)
  else if callback && exCallback then (MAMA_STATUS_INVALID_ARG, false, 0)
  else if negb mem then (MAMA_STATUS_NOMEM, false, 0)
  else match threadStatus with
       | Some _ => (MAMA_STATUS_OK, true, 0)
       | None => (MAMA_STATUS_SYSTEM_ERROR, false, 1)
       end.

(** ** The system *)

(** [Starting]: between [start_enter] and the call of [bridgeStart]. *)
Inductive thread : Type := Starting | InBridge | Done (status : mama_status).

(** Calls of [bridgeStart], and of [bridgeStop] that succeed. *)
Inductive event : Type := Entered | Stopped.

Record system : Type := mkSystem { impl : mamaBridgeImpl; threads : gmap Z thread; events : list event }.

Inductive label : Type :=
| Start (t : Z)
| Enter (t : Z)
| Return (t : Z) (rval : mama_status)
| Stop (rval : mama_status).

(** A step: [None] when it is not possible. *)
Definition step (s : system) (l : label) : option system :=
  match l with
  | Start t =>
      match threads s !! t with
      | Some Starting | Some InBridge => None
      | _ =>
          match start_enter (Some (impl s)) with
          | (Some st, b) => Some (mkSystem (default (impl s) b) (<[t := Done st]> (threads s)) (events s))
          | (None, b) => Some (mkSystem (default (impl s) b) (<[t := Starting]> (threads s)) (events s))
          end
      end
  | Enter t =>
      match threads s !! t with
      | Some Starting => Some (mkSystem (impl s) (<[t := InBridge]> (threads s)) (events s ++ [Entered]))
      | _ => None
      end
  | Return t rval =>
      match threads s !! t with
      | Some InBridge =>
          let '(st, b) := start_leave rval (impl s) in Some (mkSystem b (<[t := Done st]> (threads s)) (events s))
      | _ => None
      end
  | Stop rval =>
      let '(_, called, b) := mama_stop (Some (impl s)) rval in
      Some (mkSystem (default (impl s) b) (threads s) (if called && status_ok rval then events s ++ [Stopped] else events s))
  end.

Fixpoint steps (s : system) (l : list label) : option system :=
  match l with [] => Some s | x :: l' => s' ← step s x; steps s' l' end.

(** A bridge that is loaded and was not started. *)
Definition idle (b : mamaBridgeImpl) : system := mkSystem (put_refs 0 b) ∅ [].

(** ** Starts and stops *)

(** Threads that are about to call [bridgeStart]. *)
Definition weight (th : thread) : nat := match th with Starting => 1 | _ => 0 end.
Definition pending (m : gmap Z thread) : nat := map_fold (fun _ th n => (weight th + n)%nat) O m.

Lemma pending_insert t th m : m !! t = None -> pending (<[t := th]> m) = (weight th + pending m)%nat.
Proof. intros Hm. unfold pending. rewrite map_fold_insert_L; [done| |done]. intros. lia. Qed.

Lemma pending_update t th m : (pending (<[t := th]> m) + from_option weight O (m !! t) = weight th + pending m)%nat.
Proof.
  rewrite <- insert_delete_eq, pending_insert by apply lookup_delete_eq. destruct (m !! t) as [th'|] eqn:E; cbn.
  - rewrite <- (insert_delete_id m t th' E) at 2. rewrite (pending_insert t th') by apply lookup_delete_eq. lia.
  - rewrite delete_id by done. lia.
Qed.

(** The events that alternate, a start first, when [on] tells whether the bridge runs. *)
Fixpoint alternate (on : bool) (l : list event) : bool :=
  match l with
  | [] => true
  | Entered :: l' => negb on && alternate true l'
  | Stopped :: l' => on && alternate false l'
  end.

Definition last_on (on : bool) (l : list event) : bool := foldl (fun _ e => match e with Entered => true | Stopped => false end) on l.

Definition count_event (e : event) (l : list event) : nat :=
  length (List.filter (fun x => match e, x with Entered, Entered | Stopped, Stopped => true | _, _ => false end) l).

Definition no_failed_start (l : label) : bool := match l with Return _ rval => status_ok rval | _ => true end.
Definition is_start (l : label) : bool := match l with Start _ => true | _ => false end.
Definition is_stop (l : label) : bool := match l with Stop _ => true | _ => false end.

(** No thread calls [mama_stop] while another one has counted itself in but not
    called [bridgeStart] yet. *)
Fixpoint stops_wait (s : system) (ls : list label) : bool :=
  match ls with
  | [] => true
  | l :: ls' => negb (is_stop l && negb (pending (threads s) =? 0)%nat) && match step s l with Some s' => stops_wait s' ls' | None => true end
  end.

Lemma alternate_app on l e : alternate on (l ++ [e]) = alternate on l && match e with Entered => negb (last_on on l) | Stopped => last_on on l end.
Proof.
  revert on. induction l as [|[] l IH]; intros on; cbn; [by destruct e, on|..]; rewrite IH; by destruct on.
Qed.

Lemma last_on_app on l e : last_on on (l ++ [e]) = match e with Entered => true | Stopped => false end.
Proof. unfold last_on. by rewrite foldl_app. Qed.

Lemma count_event_app e l x : count_event e (l ++ [x]) = (count_event e l + count_event e [x])%nat.
Proof. unfold count_event. by rewrite List.filter_app, length_app. Qed.

(** [n] starts so far at the most: every count of a start is a call of [bridgeStart]
    that was made or is pending. *)
Record sound (n : Z) (s : system) : Prop := mkSound {
  so_queue : mDefaultEventQueue (impl s) <> 0;
  so_refs : 0 <= mRefCount (impl s) <= n;
  so_counts : Z.of_nat (count_event Entered (events s)) + Z.of_nat (pending (threads s)) =
              Z.of_nat (count_event Stopped (events s)) + (if 0 <? mRefCount (impl s) then 1 else 0);
}.

(** When stops wait. *)
Record orderly (s : system) : Prop := mkOrderly {
  od_alternate : alternate false (events s) = true;
  od_on : last_on false (events s) = (0 <? mRefCount (impl s)) && (pending (threads s) =? 0)%nat;
  od_pending : pending (threads s) <> O -> 0 < mRefCount (impl s) /\ pending (threads s) = 1%nat;
}.

Definition preserves (n : Z) (s s' : system) (stop : bool) : Prop :=
  sound n s' /\ (orderly s -> stop = false \/ pending (threads s) = O -> orderly s').

Ltac run_cases := cbn [impl threads events mRefCount mDefaultEventQueue put_refs weight] in *;
  rewrite ?count_event_app, ?alternate_app, ?last_on_app in *.

Lemma start_sound n b ts ev t s' : sound n (mkSystem b ts ev) -> n + 1 < 2 ^ 32 -> step (mkSystem b ts ev) (Start t) = Some s' ->
  preserves (n + 1) (mkSystem b ts ev) s' false.
Proof.
  intros [A B C] Hn E. cbn [impl threads events step] in *.
  assert (from_option weight O (ts !! t) = O) as Ht by (by destruct (ts !! t) as [[]|]).
  pose proof (fun th => pending_update t th ts) as U. rewrite Ht in U.
  assert (u32 (mRefCount b + 1) = mRefCount b + 1) as R by (apply u32_small; lia).
  unfold start_enter in E. rewrite (proj2 (Z.eqb_neq _ _) A), R in E. destruct (Z.ltb_spec 0 (mRefCount b)) as [Hp|Hp].
  - assert (s' = mkSystem (put_refs (mRefCount b + 1) b) (<[t := Done MAMA_STATUS_OK]> ts) ev) as -> by (destruct (ts !! t) as [[]|]; by simplify_eq).
    specialize (U (Done MAMA_STATUS_OK)). cbn [weight] in U. assert (pending (<[t := Done MAMA_STATUS_OK]> ts) = pending ts) as Ep by lia.
    assert ((0 <? mRefCount b + 1) = true) as Hr by (apply Z.ltb_lt; lia).
    split; [constructor; run_cases; rewrite ?Ep, ?Hr; done || lia|]. intros [O1 O2 O3] _. run_cases. rewrite (proj2 (Z.ltb_lt _ _) Hp) in O2.
    constructor; run_cases; rewrite ?Ep, ?Hr; [done|done|]. intros Hq. destruct (O3 Hq). lia.
  - assert (s' = mkSystem (put_refs (mRefCount b + 1) b) (<[t := Starting]> ts) ev) as -> by (destruct (ts !! t) as [[]|]; by simplify_eq).
    specialize (U Starting). cbn [weight] in U. assert (pending (<[t := Starting]> ts) = S (pending ts)) as Ep by lia.
    assert ((0 <? mRefCount b + 1) = true) as Hr by (apply Z.ltb_lt; lia).
    split; [constructor; run_cases; rewrite ?Ep, ?Hr; done || lia|]. intros [O1 O2 O3] _. run_cases. rewrite (proj2 (Z.ltb_ge _ _) Hp) in O2.
    constructor; run_cases; rewrite ?Ep, ?Hr; [done|done|]. intros _. split; [lia|]. destruct (decide (pending ts = O)); [lia|]. destruct O3; [done|lia].
Qed.

Lemma enter_sound n b ts ev t s' : sound n (mkSystem b ts ev) -> step (mkSystem b ts ev) (Enter t) = Some s' ->
  preserves n (mkSystem b ts ev) s' false.
Proof.
  intros [A B C] E. cbn [impl threads events step] in *. pose proof (pending_update t InBridge ts) as U.
  destruct (ts !! t) as [[]|] eqn:Ht; try done. injection E as <-. cbn [weight from_option] in U.
  assert (pending ts = S (pending (<[t := InBridge]> ts))) as Ep by lia. rewrite Ep in *. split.
  - constructor; run_cases; [done|done|]. cbn [count_event List.filter length] in *. change (count_event Entered [Entered]) with 1%nat.
    change (count_event Stopped [Entered]) with 0%nat. lia.
  - intros [O1 O2 O3] _. run_cases. rewrite Ep in *. destruct O3 as [O3 O4]; [done|]. injection O4 as O4. rewrite O4 in *. rewrite andb_false_r in O2.
    constructor; run_cases; rewrite ?O1, ?O2, ?O4, ?(proj2 (Z.ltb_lt _ _) O3); done.
Qed.

Lemma return_sound n b ts ev t rval s' : sound n (mkSystem b ts ev) -> status_ok rval = true -> step (mkSystem b ts ev) (Return t rval) = Some s' ->
  preserves n (mkSystem b ts ev) s' false.
Proof.
  intros [A B C] Hr E. cbn [impl threads events step] in *. unfold start_leave in E. rewrite Hr in E. cbn [negb] in E.
  pose proof (pending_update t (Done rval) ts) as U. destruct (ts !! t) as [[]|] eqn:Ht; try done. injection E as <-. cbn [weight from_option] in U.
  assert (pending (<[t := Done rval]> ts) = pending ts) as Ep by lia.
  split; [constructor; run_cases; by rewrite ?Ep|]. intros [O1 O2 O3] _. run_cases. constructor; run_cases; by rewrite ?Ep.
Qed.

Lemma stop_sound n b ts ev rval s' : sound n (mkSystem b ts ev) -> step (mkSystem b ts ev) (Stop rval) = Some s' ->
  preserves n (mkSystem b ts ev) s' true.
Proof.
  intros [A B C] E. cbn [impl threads events step] in *. unfold mama_stop in E. rewrite (proj2 (Z.eqb_neq _ _) A) in E.
  destruct (Z.ltb_spec 0 (mRefCount b)) as [Hp|Hp].
  2: { injection E as <-. split; [constructor; run_cases; rewrite ?(proj2 (Z.ltb_ge _ _) Hp); done || lia|done]. }
  cbn zeta in E. destruct (Z.eqb_spec (mRefCount b - 1) 0) as [Hz|Hz].
  - replace (mRefCount b - 1 + 1) with (mRefCount b) in E by lia. destruct (status_ok rval); cbn [negb andb default] in E; injection E as <-.
    + rewrite Hz. split.
      * constructor; run_cases; [done|lia|]. change (count_event Entered [Stopped]) with 0%nat. change (count_event Stopped [Stopped]) with 1%nat. cbn [Z.ltb Z.compare]. lia.
      * intros [O1 O2 O3] [|Hq]; [done|]. run_cases. rewrite Hq, (proj2 (Z.ltb_lt _ _) Hp) in O2. constructor; run_cases; rewrite ?O1, ?O2, ?Hq; done.
    + split; [constructor; run_cases; rewrite ?(proj2 (Z.ltb_lt _ _) Hp); done || lia|]. intros [O1 O2 O3] _. by constructor.
  - injection E as <-. assert ((0 <? mRefCount b - 1) = true) as Hr by (apply Z.ltb_lt; lia). split; [constructor; run_cases; rewrite ?Hr; done || lia|].
    intros [O1 O2 O3] [|Hq]; [done|]. run_cases. rewrite (proj2 (Z.ltb_lt _ _) Hp) in O2. constructor; run_cases; rewrite ?Hr; [done|done|lia].
Qed.

Lemma step_sound n s l s' : sound n s -> n + 1 < 2 ^ 32 -> no_failed_start l = true -> step s l = Some s' ->
  preserves (if is_start l then n + 1 else n) s s' (is_stop l).
Proof.
  intros K Hn Hl E. destruct s as [b ts ev], l; cbn [is_start is_stop];
    [by eapply start_sound|by eapply enter_sound|by eapply return_sound|by eapply stop_sound].
Qed.

Lemma steps_sound ls : forall n s s', sound n s -> n + Z.of_nat (length (List.filter is_start ls)) + 1 < 2 ^ 32 ->
  forallb no_failed_start ls = true -> steps s ls = Some s' ->
  sound (n + Z.of_nat (length (List.filter is_start ls))) s' /\ (orderly s -> stops_wait s ls = true -> orderly s').
Proof.
  induction ls as [|l ls IH]; intros n s s' Hs Hn Hl E; cbn [steps] in E; [injection E as <-; by rewrite Z.add_0_r|].
  cbn [forallb] in Hl. apply andb_prop in Hl as [H1 H2]. destruct (step s l) as [s1|] eqn:E1; [|done]. cbn [mbind option_bind] in E.
  destruct (step_sound n s l s1 Hs ltac:(cbn [List.filter] in Hn; destruct (is_start l); cbn [length] in Hn; lia) H1 E1) as [K1 O1].
  assert (n + Z.of_nat (length (List.filter is_start (l :: ls))) = (if is_start l then n + 1 else n) + Z.of_nat (length (List.filter is_start ls))) as En
    by (cbn [List.filter]; destruct (is_start l); cbn [length]; lia).
  rewrite En in *. destruct (IH _ s1 s' K1) as [K2 O2]; [lia|done|done|]. split; [done|].
  intros O. cbn [stops_wait]. rewrite E1, andb_true_iff, negb_true_iff, andb_false_iff, negb_false_iff, Nat.eqb_eq. intros [W1 W2]. auto.
Qed.

(** C37: However starts and stops of any threads interleave, as long as no
    [bridgeStart] fails and there are less than 2^32 starts: the calls of
    [bridgeStart] that were made, and those that a thread has counted itself in for
    and is about to make, are one more than the successful calls of [bridgeStop]
    exactly while the count of starts is not zero.  If moreover no thread calls
    [mama_stop] between another one's counting itself in and its call of
    [bridgeStart], which the lock does not cover, the bridge is started and stopped
    in turn; else the stop reaches the bridge first, and the bridge then runs though
    nobody counts on it ([stop_overtakes_start]). *)
Theorem bridge_runs_while_started b ls s :
  mDefaultEventQueue b <> 0 -> forallb no_failed_start ls = true -> Z.of_nat (length ls) + 1 < 2 ^ 32 ->
  steps (idle b) ls = Some s ->
  Z.of_nat (count_event Entered (events s)) + Z.of_nat (pending (threads s)) =
    Z.of_nat (count_event Stopped (events s)) + (if 0 <? mRefCount (impl s) then 1 else 0) /\
  (stops_wait (idle b) ls = true -> alternate false (events s) = true).
Proof.
  intros Hq Hl Hn E. assert (length (List.filter is_start ls) <= length ls)%nat as Hle by apply List.filter_length_le.
  destruct (steps_sound ls 0 (idle b) s) as [[A B C] O]; [by constructor|lia|done|done|]. split; [done|]. intros W. by apply O.
Qed.

Lemma steps_app l1 l2 s : steps s (l1 ++ l2) = s' ← steps s l1; steps s' l2.
Proof. revert s. induction l1 as [|l l1 IH]; intros s; cbn; [done|]. destruct (step s l); [apply IH|done]. Qed.

Lemma step_first b ts ev t : mDefaultEventQueue b <> 0 -> ts !! t = None -> mRefCount b = 0 ->
  steps (mkSystem b ts ev) [Start t; Enter t] = Some (mkSystem (put_refs 1 b) (<[t := InBridge]> ts) (ev ++ [Entered])).
Proof. intros Hq Ht Hn. cbn [steps step threads impl]. rewrite Ht. unfold start_enter. rewrite (proj2 (Z.eqb_neq _ _) Hq), Hn. cbn.
  by rewrite lookup_insert_eq, insert_insert_eq. Qed.

Lemma step_more b ts ev t : mDefaultEventQueue b <> 0 -> ts !! t = None -> 0 < mRefCount b < 2 ^ 32 - 1 ->
  step (mkSystem b ts ev) (Start t) = Some (mkSystem (put_refs (mRefCount b + 1) b) (<[t := Done MAMA_STATUS_OK]> ts) ev).
Proof.
  intros Hq Ht Hn. cbn [step threads impl]. rewrite Ht. unfold start_enter. rewrite (proj2 (Z.eqb_neq _ _) Hq), (proj2 (Z.ltb_lt _ _)) by lia.
  by rewrite u32_small by lia.
Qed.

Lemma step_failed b ts ev t rval : ts !! t = Some InBridge -> rval <> MAMA_STATUS_OK ->
  step (mkSystem b ts ev) (Return t rval) = Some (mkSystem (put_refs (u32 (mRefCount b - 1)) b) (<[t := Done rval]> ts) ev).
Proof. intros Ht Hr. cbn [step threads impl]. rewrite Ht. unfold start_leave. by destruct rval. Qed.

(** A second caller of [mama_start] gets MAMA_STATUS_OK
    while the first one is in [bridgeStart]; when that then fails, no thread runs
    the bridge, and the callers after it also get MAMA_STATUS_OK without starting it. *)
Theorem failed_start_is_forgotten b t t' t'' rval :
  mDefaultEventQueue b <> 0 -> rval <> MAMA_STATUS_OK -> t <> t' -> t <> t'' -> t' <> t'' ->
  exists s, steps (idle b) [Start t; Enter t; Start t'; Return t rval; Start t''] = Some s /\
    threads s !! t' = Some (Done MAMA_STATUS_OK) /\ threads s !! t'' = Some (Done MAMA_STATUS_OK) /\
    (forall x, threads s !! x <> Some InBridge) /\ events s = [Entered] /\ mRefCount (impl s) = 2.
Proof.
  intros Hq Hr H1 H2 H3. change (steps (idle b) _) with (steps (idle b) ([Start t; Enter t] ++ [Start t'; Return t rval; Start t''])).
  rewrite steps_app. unfold idle. rewrite step_first by (done || apply lookup_empty). cbn [mbind option_bind steps].
  rewrite step_more by (try done; by rewrite lookup_insert_ne, lookup_empty by done). cbn [mbind option_bind].
  rewrite step_failed by (try done; by rewrite lookup_insert_ne, lookup_insert_eq by done). cbn [mbind option_bind].
  rewrite step_more by (try done; by rewrite !lookup_insert_ne, lookup_empty by done). cbn [mbind option_bind].
  eexists. split; [reflexivity|]. cbn [impl threads events]. split_and!; [|by rewrite lookup_insert_eq| |done|done].
  - by rewrite !lookup_insert_ne, lookup_insert_eq by done.
  - intros x. destruct (decide (x = t'')) as [->|]; [by rewrite lookup_insert_eq|]. rewrite lookup_insert_ne by done.
    destruct (decide (x = t)) as [->|]; [by rewrite lookup_insert_eq|]. rewrite lookup_insert_ne by done.
    destruct (decide (x = t')) as [->|]; [by rewrite lookup_insert_eq|]. by rewrite !lookup_insert_ne, lookup_empty by done.
Qed.

Definition demo_bridge : mamaBridgeImpl := mkBridge ∅ 0 9 0 false false.

(** One that fails after it was stopped takes the count below zero; the next start is
    lost. *)
Example late_failure_swallows_start :
  (fun s => (mRefCount (impl s), events s)) <$> steps (idle demo_bridge) [Start 1; Enter 1; Stop MAMA_STATUS_OK; Return 1 MAMA_STATUS_PLATFORM]
    = Some (2 ^ 32 - 1, [Entered; Stopped]) /\
  (fun s => (mRefCount (impl s), threads s !! 2, events s)) <$>
    steps (idle demo_bridge) [Start 1; Enter 1; Stop MAMA_STATUS_OK; Return 1 MAMA_STATUS_PLATFORM; Start 2] = Some (0, Some (Done MAMA_STATUS_OK), [Entered; Stopped]).
Proof. split; vm_compute; reflexivity. Qed.

(** A stop that comes between the two parts of a start reaches the bridge first: then
    the bridge runs with the count 0, and no further stop reaches it. *)
Example stop_overtakes_start :
  (fun s => (mRefCount (impl s), threads s !! 1, events s)) <$>
    steps (idle demo_bridge) [Start 1; Stop MAMA_STATUS_OK; Enter 1; Stop MAMA_STATUS_OK] = Some (0, Some InBridge, [Stopped; Entered]).
Proof. vm_compute. reflexivity. Qed.

(** [mama_stopAll] gives the status of the last bridge only. *)
Lemma stop_all_last b rval l result : mDefaultEventQueue b <> 0 -> mRefCount b = 1 ->
  (mama_stopAll result (l ++ [(b, rval)])).1 = rval.
Proof.
  intros Hq Hn. revert result. induction l as [|[b' r'] l IH]; intros result; cbn [mama_stopAll app].
  - unfold mama_stop. by rewrite (proj2 (Z.eqb_neq _ _) Hq), Hn.
  - destruct (mama_stop (Some b') r') as [[st called] b'']. apply IH.
Qed.

Definition demo_labels : list label :=
  [Start 1; Start 2; Enter 1; Stop MAMA_STATUS_OK; Stop MAMA_STATUS_OK; Return 1 MAMA_STATUS_OK; Start 3].

Lemma bridge_runs_while_started_witness :
  exists s, steps (idle demo_bridge) demo_labels = Some s /\
    Z.of_nat (count_event Entered (events s)) + Z.of_nat (pending (threads s)) =
      Z.of_nat (count_event Stopped (events s)) + (if 0 <? mRefCount (impl s) then 1 else 0) /\ alternate false (events s) = true.
Proof.
  eexists. split; [reflexivity|].
  destruct (bridge_runs_while_started demo_bridge demo_labels _ ltac:(discriminate) ltac:(reflexivity) ltac:(reflexivity) eq_refl) as [C A].
  split; [exact C|]. apply A. vm_compute. reflexivity.
Defined.

Lemma failed_start_is_forgotten_witness :
  exists s, steps (idle demo_bridge) [Start 1; Enter 1; Start 2; Return 1 MAMA_STATUS_PLATFORM; Start 3] = Some s /\ events s = [Entered] /\ mRefCount (impl s) = 2.
Proof.
  destruct (failed_start_is_forgotten demo_bridge 1 2 3 MAMA_STATUS_PLATFORM) as (s & E & _ & _ & _ & Ev & R); [discriminate|discriminate|lia|lia|lia|].
  exists s. split; [exact E|]. split; [exact Ev|exact R].
Defined.

End MamaRun.
