(* ===== verification/MamaConfig.v ===== *)
(** * Configuration values (mama/c_cpp/src/c/mama.c)

    A parameter as a number within bounds, the properties as one string, and the
    transports that the properties configure.  The properties come in the order of
    their table. *)

From S2P Require Import Prelude MamaStatus Cstdio Text StrUtils MamaRegister.
From Stdlib Require Import Ascii String.
From stdpp Require Import strings.
#[local] Open Scope Z_scope.
Import Cstdio StrUtils MamaRegister.

Module MamaConfig.

Definition PROPERTY_NAME_MAX_LENGTH : Z := 1024.
Definition MAX_INTERNAL_PROP_LEN : Z := 1024.
Definition MAMA_MAX_TRANSPORT_LEN : Z := 64.

(** ** Numbers *)

(** [property] is the value that is configured under the name of the parameter; the
    default is printed and read back. *)
Definition mamaImpl_getParameterAsLong (defaultVal minimum maximum : Z) (property : option string) : Z :=
  let paramDefault := snprintf PROPERTY_NAME_MAX_LENGTH (put_d defaultVal EmptyString) in
  let returnLong := strtol (default paramDefault property) in
  if returnLong <? minimum then minimum
  else if maximum <? returnLong then maximum
  else returnLong.

Definition mamaImpl_getParameter (defaultVal : option string) (property : option string) : option string :=
  match property with Some p => Some p | None => defaultVal end.

(** ** All properties as text *)

(** The buffer: its size, the text that was written, mPosition as an offset and
    mBytesRemaining, a size_t. *)
Record getAll : Type := mkGetAll { mBuffer : string; mPosition : Z; mBytesRemaining : Z }.

Definition NEWLINE : ascii := chr 10.
Definition line (kv : string * string) : string := (kv.1 ++ "=" ++ kv.2 ++ String NEWLINE EmptyString)%string.

(** [snprintf] writes at most what remains, with a terminator, and gives the length
    of the whole line. *)
Definition mamaImpl_getAllPropertiesAsStringCb (size : Z) (a : getAll) (kv : string * string) : res getAll :=
  if 0 <? mBytesRemaining a then
    let bytesWritten := len (line kv) in
    let written := snprintf (mBytesRemaining a) (line kv) in
    if mPosition a + len written <? size then
      Ok (mkGetAll (mBuffer a ++ written) (mPosition a + bytesWritten) (u64 (mBytesRemaining a - bytesWritten)))
    else Fail InvalidDeref
  else Ok a.

Fixpoint print_all (size : Z) (a : getAll) (l : list (string * string)) : res getAll :=
  match l with
  | [] => Ok a
  | kv :: l' => match mamaImpl_getAllPropertiesAsStringCb size a kv with Ok a' => print_all size a' l' | Fail f => Fail f end
  end.

(** The character before mPosition becomes the terminator. *)
Definition mama_getPropertiesAsString (properties : list (string * string)) : res string :=
  let bufferSize := Z.of_nat (length properties) * (MAX_INTERNAL_PROP_LEN * 2 + 2) + 1 in
  match print_all bufferSize (mkGetAll EmptyString 0 (bufferSize - 1)) properties with
  | Fail f => Fail f
  | Ok a =>
      if 0 <? mPosition a then
        if mPosition a - 1 <? bufferSize then Ok (take_string (Z.to_nat (mPosition a - 1)) (mBuffer a)) else Fail InvalidDeref
      else Ok (mBuffer a)
  end.

(** ** The names of the transports *)

Definition DOT : ascii := chr 46.

(** [wstrsep] with the separator ".": the token and the rest. *)
Definition wstrsep (s : string) : option (string * string) :=
  match s with
  | EmptyString => None
  | _ => Some (match find_char DOT s with Some (token, rest) => (token, tail rest) | None => (s, EmptyString) end)
  end.

(** At most [n] tokens, and the rest. *)
Fixpoint components (n : nat) (s : string) : list string * string :=
  match n with
  | O => ([], s)
  | S n' => match wstrsep s with
            | Some (token, rest) => let '(l, rest) := components n' rest in (token :: l, rest)
            | None => ([], s)
            end
  end.

(** The name of the transport a property is about: mama.<bridge>.transport.<name>.<more>. *)
Definition transport_of (name : string) : option string :=
  match components 4 name with
  | ([c0; c1; c2; c3], rest) =>
      if bool_decide (c0 = "mama"%string) && bool_decide (c2 = "transport"%string) && negb (len rest =? 0) then Some c3 else None
  | _ => None
  end.

(** The table of the names that were found, the array and its next entry. *)
Record container : Type := mkContainer { mTransports : list string; mMatchCount : Z; mMatches : gset string }.

(** The copy of the name is not terminated when it fills its buffer; nor is that of
    the transport. *)
Definition mamaImpl_findTransportNameByPrefix (mem : bool) (mCapacity : Z) (c : container) (name : string) : res container :=
  if PROPERTY_NAME_MAX_LENGTH <=? len name then Fail InvalidDeref
  else
    match transport_of name with
    | None => Ok c
    | Some transport =>
        let updatedCount := Z.of_nat (size (mMatches c)) in
        if bool_decide (transport ∈ mMatches c) || (updatedCount =? mCapacity) || negb mem then Ok c
        else Ok (mkContainer (<[Z.to_nat (mMatchCount c) := take_string (Z.to_nat MAMA_MAX_TRANSPORT_LEN) transport]> (mTransports c))
                   (updatedCount + 1) ({[transport]} ∪ mMatches c))
    end.

Fixpoint find_transports (mCapacity : Z) (c : container) (names : list string) : res container :=
  match names with
  | [] => Ok c
  | name :: names' =>
      match mamaImpl_findTransportNameByPrefix true mCapacity c name with
      | Ok c' => find_transports mCapacity c' names'
      | Fail f => Fail f
      end
  end.

(** The array (of [maxCount] entries) and *count; [mem]: whether the table can be
    made.  The table is not destroyed. *)
Definition mama_getAvailableTransportNames (mem : bool) (transports : list string) (names : list string) : res (mama_status * list string * option Z) :=
  if negb mem then Ok (MAMA_STATUS_NOMEM, transports, None)
  else
    match find_transports (Z.of_nat (length transports)) (mkContainer transports 0 ∅) names with
    | Ok c => Ok (MAMA_STATUS_OK, mTransports c, Some (Z.of_nat (size (mMatches c))))
    | Fail f => Fail f
    end.

(** ** Properties of the numbers *)

(** The value is within the bounds; the default is used when nothing is configured. *)
Lemma parameter_in_bounds d lo hi p : lo <= hi -> lo <= mamaImpl_getParameterAsLong d lo hi p <= hi.
Proof.
  intros Hle. unfold mamaImpl_getParameterAsLong. cbn zeta. repeat case_match; lia.
Qed.

Lemma snprintf_short size s : len s < size -> snprintf size s = s.
Proof. intros Hs. apply take_string_short. unfold len in Hs. lia. Qed.

Lemma parameter_default d lo hi : in_s 64 d -> lo <= d <= hi -> mamaImpl_getParameterAsLong d lo hi None = d.
Proof.
  intros Hd Hb. unfold mamaImpl_getParameterAsLong. cbn [from_option]. unfold Datatypes.id. rewrite snprintf_short.
  - rewrite strtol_put_d by done. destruct (Z.ltb_spec d lo), (Z.ltb_spec hi d); lia.
  - pose proof (length_put_d d EmptyString). unfold len, PROPERTY_NAME_MAX_LENGTH. cbn in *. lia.
Qed.

(** ** Properties of the text *)

Definition concat_lines (l : list (string * string)) : string := foldr (fun kv s => (line kv ++ s)%string) EmptyString l.

(** A property that fits: its name and value have less than 2048 characters together. *)
Definition fits (kv : string * string) : Prop := len kv.1 + len kv.2 < 2 * MAX_INTERNAL_PROP_LEN.

Lemma len_sapp (s t : string) : len (s ++ t) = len s + len t.
Proof. unfold len. rewrite length_sapp. lia. Qed.

Lemma len_line kv : len (line kv) = len kv.1 + len kv.2 + 2.
Proof. unfold line. rewrite !len_sapp. unfold len. cbn. lia. Qed.

Lemma len_pos s : 0 <= len s.
Proof. unfold len. lia. Qed.

Lemma print_all_fits l : forall size a, Forall fits l -> mPosition a = len (mBuffer a) -> mBytesRemaining a < 2 ^ 64 ->
  mPosition a + mBytesRemaining a + 1 = size -> Z.of_nat (length l) * 2050 <= mBytesRemaining a ->
  exists n, print_all size a l = Ok (mkGetAll (mBuffer a ++ concat_lines l) (mPosition a + len (concat_lines l)) n).
Proof.
  induction l as [|kv l IH]; intros size a Hl Hp Hr Hs Hn; cbn [print_all concat_lines foldr].
  - exists (mBytesRemaining a). rewrite string_app_nil, Z.add_0_r. by destruct a.
  - apply Forall_cons in Hl as [Hkv Hl]. unfold fits, MAX_INTERNAL_PROP_LEN in Hkv. cbn [length] in Hn. pose proof (len_line kv) as Hlen.
    unfold mamaImpl_getAllPropertiesAsStringCb. pose proof (len_pos kv.1). pose proof (len_pos kv.2).
    rewrite (proj2 (Z.ltb_lt 0 _)) by lia. cbn zeta.
    rewrite snprintf_short by lia. rewrite (proj2 (Z.ltb_lt _ _)) by lia. unfold u64. rewrite uwrap_small by (unfold in_u; lia).
    destruct (IH size (mkGetAll (mBuffer a ++ line kv) (mPosition a + len (line kv)) (mBytesRemaining a - len (line kv)))) as [n En]; [done|..];
      cbn [mBuffer mPosition mBytesRemaining] in *; rewrite ?len_sapp; try lia.
    exists n. rewrite En. fold (concat_lines l). rewrite string_app_assoc, ?len_sapp. do 2 f_equal. lia.
Qed.


Lemma concat_lines_last l : l <> [] -> exists t, concat_lines l = (t ++ String NEWLINE EmptyString)%string.
Proof.
  intros Hl. induction l as [|kv l IH]; [done|]. cbn [concat_lines foldr]. fold (concat_lines l). destruct l as [|kv' l].
  - exists (kv.1 ++ "=" ++ kv.2)%string. cbn. rewrite string_app_nil. unfold line. by rewrite !string_app_assoc.
  - destruct IH as [t ->]; [done|]. exists (line kv ++ t)%string. by rewrite string_app_assoc.
Qed.

(** When every property fits and there are less than 2^50,
    the text is the lines <name>=<value>, in the order of the table, without the
    last newline. *)
Theorem properties_as_string l :
  l <> [] -> Forall fits l -> Z.of_nat (length l) < 2 ^ 50 ->
  exists text, mama_getPropertiesAsString l = Ok text /\ concat_lines l = (text ++ String NEWLINE EmptyString)%string.
Proof.
  intros Hne Hl Hn. destruct (concat_lines_last l Hne) as [t Et]. exists t. split; [|done].
  unfold mama_getPropertiesAsString, MAX_INTERNAL_PROP_LEN. cbn zeta.
  destruct (print_all_fits l (Z.of_nat (length l) * (1024 * 2 + 2) + 1) (mkGetAll EmptyString 0 (Z.of_nat (length l) * (1024 * 2 + 2) + 1 - 1))) as [n En];
    cbn [mBuffer mPosition mBytesRemaining]; try done; try lia. rewrite En. cbn [mBuffer mPosition].
  assert (len (concat_lines l) <= Z.of_nat (length l) * 2050) as Hlen.
  { clear -Hl. induction Hl as [|kv l Hkv Hl IH]; [done|]. cbn [concat_lines foldr length]. fold (concat_lines l). rewrite len_sapp, len_line.
    unfold fits, MAX_INTERNAL_PROP_LEN in Hkv. lia. }
  rewrite Et in Hlen |- *. rewrite len_sapp in Hlen |- *. change (len (String NEWLINE EmptyString)) with 1 in *. pose proof (len_pos t).
  rewrite (proj2 (Z.ltb_lt 0 _)), (proj2 (Z.ltb_lt _ _)) by lia.
  replace (Z.to_nat (0 + (len t + 1) - 1)) with (String.length t) by (unfold len; lia). f_equal. change (EmptyString ++ ?x)%string with x. apply take_string_app.
Qed.

(** A property with a long value is counted whole although it was cut: the write of
    the terminator is outside of the buffer. *)
Lemma long_property_overruns kv : 2 * MAX_INTERNAL_PROP_LEN + 1 < len kv.1 + len kv.2 ->
  mama_getPropertiesAsString [kv] = Fail InvalidDeref.
Proof.
  unfold MAX_INTERNAL_PROP_LEN. intros Hl. unfold mama_getPropertiesAsString, MAX_INTERNAL_PROP_LEN. cbn [length print_all]. cbn zeta.
  change (Z.of_nat 1 * (1024 * 2 + 2) + 1) with 2051. unfold mamaImpl_getAllPropertiesAsStringCb. cbn [mBytesRemaining mPosition mBuffer].
  change (0 <? 2051 - 1) with true. cbn iota zeta. pose proof (len_line kv).
  assert (len (snprintf (2051 - 1) (line kv)) <= 2049) as Hs.
  { unfold snprintf, len. pose proof (length_take_string (Z.to_nat (2051 - 1 - 1)) (line kv)). lia. }
  rewrite (proj2 (Z.ltb_lt _ 2051)) by lia. cbn [mPosition]. rewrite (proj2 (Z.ltb_lt 0 _)), (proj2 (Z.ltb_ge _ 2051)) by lia. done.
Qed.

(** ** The names of the transports *)

(** The first occurrences of the names that are not in [seen]. *)
Fixpoint distinct (seen : gset string) (l : list string) : list string :=
  match l with
  | [] => []
  | x :: l' => if decide (x ∈ seen) then distinct seen l' else x :: distinct ({[x]} ∪ seen) l'
  end.

Definition short (s : string) : Prop := len s < PROPERTY_NAME_MAX_LENGTH.
Definition entry_of (transport : string) : string := take_string (Z.to_nat MAMA_MAX_TRANSPORT_LEN) transport.

Lemma find_transports_spec cap names : forall c, Forall short names -> mMatchCount c = Z.of_nat (size (mMatches c)) ->
  length (mTransports c) = cap -> (size (mMatches c) <= cap)%nat ->
  exists c', find_transports (Z.of_nat cap) c names = Ok c' /\
    let new := take (cap - size (mMatches c)) (distinct (mMatches c) (omap transport_of names)) in
    mTransports c' = take (size (mMatches c)) (mTransports c) ++ (entry_of <$> new) ++ drop (size (mMatches c) + length new) (mTransports c) /\
    Z.of_nat (size (mMatches c')) = Z.of_nat (size (mMatches c)) + Z.of_nat (length new).
Proof.
  induction names as [|name names IH]; intros c Hn Hc Hlen Hle; cbn [find_transports omap list_omap distinct].
  - exists c. split; [done|]. cbn zeta. rewrite take_nil. cbn. rewrite Nat.add_0_r, take_drop. split; [done|lia].
  - apply Forall_cons in Hn as [Hs Hn]. unfold short in Hs. unfold mamaImpl_findTransportNameByPrefix.
    rewrite (proj2 (Z.leb_gt _ _)) by done. destruct (transport_of name) as [x|] eqn:Ex; [|by apply IH].
    cbn [distinct]. cbn zeta. destruct (decide (x ∈ mMatches c)) as [Hx|Hx].
    { rewrite bool_decide_eq_true_2 by done. cbn [orb]. by apply IH. }
    rewrite bool_decide_eq_false_2 by done. cbn [orb negb]. rewrite orb_false_r.
    destruct (Z.eqb_spec (Z.of_nat (size (mMatches c))) (Z.of_nat cap)) as [E|E].
    { destruct (IH c Hn Hc Hlen Hle) as (c' & E' & Ht & Hsz). exists c'. split; [done|].
      replace (cap - size (mMatches c))%nat with 0%nat in * by lia. cbn zeta in *. rewrite !take_0 in *. done. }
    set (c1 := mkContainer _ _ _). assert (size (mMatches c1) = S (size (mMatches c))) as Hs1.
    { subst c1. cbn [mMatches]. rewrite size_union by set_solver. rewrite size_singleton. lia. }
    destruct (IH c1) as (c' & E' & Ht & Hsz); [done|subst c1; cbn [mMatchCount mMatches] in *; lia|by subst c1; cbn; rewrite length_insert|lia|].
    exists c'. split; [done|]. replace (cap - size (mMatches c))%nat with (S (cap - size (mMatches c1))) by lia. cbn [take].
    cbn zeta in *. rewrite Hs1 in *. change (mMatches c1) with ({[x]} ∪ mMatches c) in *.
    set (new := take (cap - S (size (mMatches c))) _) in *. rewrite Ht. cbn [length fmap list_fmap]. split; [|cbn [length]; lia].
    assert (mTransports c1 = <[size (mMatches c) := entry_of x]> (mTransports c)) as ->.
    { subst c1. cbn. rewrite Hc, Nat2Z.id. done. }
    assert (size (mMatches c) < length (mTransports c))%nat by lia.
    rewrite (take_S_r _ _ (entry_of x)) by by apply list_lookup_insert_eq. rewrite take_insert_ge by lia. rewrite <- app_assoc. cbn [app].
    do 3 f_equal. rewrite drop_insert_lt by lia. f_equal. lia.
Qed.

(** The array gets the first [maxCount] different names of
    transports in the order of the properties, and *count how many these are; the
    other entries of the array stay. *)
Theorem transport_names transports names :
  Forall short names ->
  let found := take (length transports) (distinct ∅ (omap transport_of names)) in
  mama_getAvailableTransportNames true transports names =
    Ok (MAMA_STATUS_OK, (entry_of <$> found) ++ drop (length found) transports, Some (Z.of_nat (length found))).
Proof.
  intros Hn found. unfold mama_getAvailableTransportNames. cbn [negb].
  destruct (find_transports_spec (length transports) names (mkContainer transports 0 ∅)) as (c & -> & Ht & Hs); [done|done|done|cbn [mMatches]; rewrite size_empty; lia|].
  cbn zeta in *. cbn [mMatches mTransports] in *. rewrite size_empty, Nat.sub_0_r in *. fold found in Ht, Hs. cbn [take app Nat.add] in Ht.
  rewrite Ht, Hs. cbn. done.
Qed.

Example demo_transports :
  mama_getAvailableTransportNames true [""; ""; "old"]%string
    ["mama.qpid.transport.pub.url"; "mama.payload.default"; "mama.qpid.transport.sub.url"; "mama.qpid.transport.pub.type"]%string
  = Ok (MAMA_STATUS_OK, ["pub"; "sub"; "old"]%string, Some 2).
Proof. vm_compute. reflexivity. Qed.

(** A name of 64 characters fills its entry without a terminator. *)
Example unterminated_name : (len ∘ entry_of) (String.concat "" (replicate 64 "x"%string)) = MAMA_MAX_TRANSPORT_LEN.
Proof. vm_compute. reflexivity. Qed.

Lemma properties_as_string_witness : mama_getPropertiesAsString [("a", "1"); ("b.c", "two")]%string = Ok "a=1
b.c=two"%string.
Proof.
  destruct (properties_as_string [("a", "1"); ("b.c", "two")]%string) as (text & E & Et);
    [discriminate|repeat constructor; vm_compute; reflexivity|reflexivity|].
  rewrite E. f_equal. vm_compute in E. congruence.
Defined.

Lemma transport_names_witness :
  mama_getAvailableTransportNames true [""]%string ["mama.qpid.transport.pub.url"; "mama.qpid.transport.sub.url"]%string = Ok (MAMA_STATUS_OK, ["pub"%string], Some 1).
Proof.
  exact (transport_names [""%string] ["mama.qpid.transport.pub.url"; "mama.qpid.transport.sub.url"]%string
    ltac:(repeat constructor; vm_compute; reflexivity)).
Defined.

End MamaConfig.
