(* ===== verification/BaseQueue.v ===== *)
(** * The queue of the base bridge (mama/c_cpp/src/c/bridge/base/queue.c)

    What a bridge without a queue of its own offers as the queue of MAMA: a
    wombatQueue with watermarks, and a loop that dispatches until it is stopped.
    The wombatQueue is used through the interface [EventQueue], which the model of
    common/c_cpp/src/c/queue.c meets (WombatEventQueue.v). *)

From S2P Require Import Prelude MamaStatus Linked WombatQueue.
Import WombatQueue.

(** ** The interface of the underlying queue

    Of the calls of wombatQueue that the bridge makes; [eq_calls] are the events
    whose callback was called, the oldest first.  [eq_holds q l n]: the queue holds
    the events [l], the oldest first, and takes [n] more. *)
Class EventQueue (Q : Type) : Type := {
  eq_allocate : option Q;
  eq_create : Z -> Z -> Z -> M Q wombatQueueStatus;
  eq_enqueue : Z -> Z -> Z -> M Q wombatQueueStatus;
  eq_dispatch : M Q qresult;
  eq_timedDispatch : M Q qresult;
  eq_getSize : M Q (wombatQueueStatus * Z);
  eq_destroy : Q -> res wombatQueueStatus;
  eq_calls : Q -> list (Z * Z * Z);
}.

Definition called (v : Z * Z * Z) : list (Z * Z * Z) := if v.1.1 =? 0 then [] else [v].

Class EventQueueLaws (Q : Type) `{EventQueue Q} : Type := {
  eq_holds : Q -> list (Z * Z * Z) -> Z -> Prop;
  eq_limit : Z;
  eq_limit_small : eq_limit < 2 ^ 64;
  eq_created q : eq_allocate = Some q ->
    wp (eq_create WOMBAT_QUEUE_MAX_SIZE WOMBAT_QUEUE_CHUNK_SIZE WOMBAT_QUEUE_CHUNK_SIZE) q (fun r q' =>
      r = WOMBAT_QUEUE_OK /\ eq_holds q' [] eq_limit /\ eq_calls q' = []);
  eq_enqueued q l n cb d c : eq_holds q l n -> 0 < n ->
    wp (eq_enqueue cb d c) q (fun r q' => r = WOMBAT_QUEUE_OK /\ eq_holds q' (l ++ [(cb, d, c)]) (n - 1) /\ eq_calls q' = eq_calls q);
  eq_dispatched q v l n : eq_holds q (v :: l) n ->
    wp eq_dispatch q (fun r q' => r = (WOMBAT_QUEUE_OK, Some (v.1.2, v.2)) /\ eq_holds q' l n /\ eq_calls q' = eq_calls q ++ called v);
  eq_timedDispatched q v l n : eq_holds q (v :: l) n ->
    wp eq_timedDispatch q (fun r q' => r = (WOMBAT_QUEUE_OK, Some (v.1.2, v.2)) /\ eq_holds q' l n /\ eq_calls q' = eq_calls q ++ called v);
  eq_timedOut q n : eq_holds q [] n -> wp eq_timedDispatch q (fun r q' => r = (WOMBAT_QUEUE_TIMEOUT, None) /\ q' = q);
  eq_size q l n : eq_holds q l n -> wp eq_getSize q (fun r q' => r = (WOMBAT_QUEUE_OK, Z.of_nat (length l)) /\ q' = q);
  eq_destroyed q l n : eq_holds q l n -> eq_destroy q = Ok WOMBAT_QUEUE_OK;
}.

Module BaseQueue.

Definition QPID_QUEUE_MAX_SIZE : Z := WOMBAT_QUEUE_MAX_SIZE.
Definition QPID_QUEUE_CHUNK_SIZE : Z := WOMBAT_QUEUE_CHUNK_SIZE.
Definition QPID_QUEUE_INITIAL_SIZE : Z := WOMBAT_QUEUE_CHUNK_SIZE.

(** Addresses, callbacks and closures are numbers, 0 is NULL.  [mDispatchLock] is
    [None] before the lock is initialised. *)
Record baseQueueBridge (Q : Type) : Type := mkBaseQueue {
  mParent : Z;
  mQueue : option Q;
  mHighWaterFired : bool;
  mHighWatermark : Z;
  mLowWatermark : Z;
  mIsDispatching : bool;
  mEnqueueCallback : Z;
  mEnqueueClosure : Z;
  mDispatchLock : option bool;
  mClosure : Z;
  mClosureCleanupCb : Z;
}.
Arguments mkBaseQueue {Q}. Arguments mParent {Q}. Arguments mQueue {Q}. Arguments mHighWaterFired {Q}.
Arguments mHighWatermark {Q}. Arguments mLowWatermark {Q}. Arguments mIsDispatching {Q}. Arguments mEnqueueCallback {Q}.
Arguments mEnqueueClosure {Q}. Arguments mDispatchLock {Q}. Arguments mClosure {Q}. Arguments mClosureCleanupCb {Q}.

(** What the pointer to the bridge's queue leads to. *)
Inductive queueBridge (Q : Type) : Type :=
| Null
| Freed
| Impl (impl : baseQueueBridge Q).
Arguments Null {Q}. Arguments Freed {Q}. Arguments Impl {Q}.

(** Calls out of the bridge: of MAMA's queue, of the callback for enqueued events,
    of the function that cleans up. *)
Inductive upcall : Type :=
| HighWatermarkExceeded (size : Z)
| LowWatermarkExceeded (size : Z)
| EnqueueCallback (cb queue closure : Z)
| ClosureCleanup (cb closure : Z).

Section BaseQueue.
Context {Q : Type} `{EventQueue Q} {U : Type}.

(** The state: that of the caller, and the bridge's queue. *)
Abbreviation BM := (M (U * queueBridge Q)).

(** What the calls out of the bridge and the events do. *)
Context (notify : upcall -> BM unit) (run_event : Z * Z * Z -> BM unit).

Definition set_mQueue (v : option Q) (b : baseQueueBridge Q) : baseQueueBridge Q :=
  mkBaseQueue (mParent b) v (mHighWaterFired b) (mHighWatermark b) (mLowWatermark b) (mIsDispatching b) (mEnqueueCallback b) (mEnqueueClosure b)
    (mDispatchLock b) (mClosure b) (mClosureCleanupCb b).
Definition set_mHighWaterFired (v : bool) (b : baseQueueBridge Q) : baseQueueBridge Q :=
  mkBaseQueue (mParent b) (mQueue b) v (mHighWatermark b) (mLowWatermark b) (mIsDispatching b) (mEnqueueCallback b) (mEnqueueClosure b)
    (mDispatchLock b) (mClosure b) (mClosureCleanupCb b).
Definition set_mHighWatermark (v : Z) (b : baseQueueBridge Q) : baseQueueBridge Q :=
  mkBaseQueue (mParent b) (mQueue b) (mHighWaterFired b) v (mLowWatermark b) (mIsDispatching b) (mEnqueueCallback b) (mEnqueueClosure b)
    (mDispatchLock b) (mClosure b) (mClosureCleanupCb b).
Definition set_mLowWatermark (v : Z) (b : baseQueueBridge Q) : baseQueueBridge Q :=
  mkBaseQueue (mParent b) (mQueue b) (mHighWaterFired b) (mHighWatermark b) v (mIsDispatching b) (mEnqueueCallback b) (mEnqueueClosure b)
    (mDispatchLock b) (mClosure b) (mClosureCleanupCb b).
Definition set_mIsDispatching (v : bool) (b : baseQueueBridge Q) : baseQueueBridge Q :=
  mkBaseQueue (mParent b) (mQueue b) (mHighWaterFired b) (mHighWatermark b) (mLowWatermark b) v (mEnqueueCallback b) (mEnqueueClosure b)
    (mDispatchLock b) (mClosure b) (mClosureCleanupCb b).
Definition set_mEnqueueCallback (cb closure : Z) (b : baseQueueBridge Q) : baseQueueBridge Q :=
  mkBaseQueue (mParent b) (mQueue b) (mHighWaterFired b) (mHighWatermark b) (mLowWatermark b) (mIsDispatching b) cb closure
    (mDispatchLock b) (mClosure b) (mClosureCleanupCb b).
Definition set_mDispatchLock (v : option bool) (b : baseQueueBridge Q) : baseQueueBridge Q :=
  mkBaseQueue (mParent b) (mQueue b) (mHighWaterFired b) (mHighWatermark b) (mLowWatermark b) (mIsDispatching b) (mEnqueueCallback b)
    (mEnqueueClosure b) v (mClosure b) (mClosureCleanupCb b).
Definition set_mClosure (closure cb : Z) (b : baseQueueBridge Q) : baseQueueBridge Q :=
  mkBaseQueue (mParent b) (mQueue b) (mHighWaterFired b) (mHighWatermark b) (mLowWatermark b) (mIsDispatching b) (mEnqueueCallback b)
    (mEnqueueClosure b) (mDispatchLock b) closure cb.

(** ** Access *)

Definition bridge_gets {A} (f : baseQueueBridge Q -> A) : BM A := fun s =>
  match s.2 with Impl b => Ok (f b, s) | _ => Fail InvalidDeref end.
Definition bridge_modify (f : baseQueueBridge Q -> baseQueueBridge Q) : BM unit := fun s =>
  match s.2 with Impl b => Ok (tt, (s.1, Impl (f b))) | _ => Fail InvalidDeref end.

(** A call of the underlying queue. *)
Definition on_queue {A} (m : M Q A) : BM A := fun s =>
  match s.2 with
  | Impl b => match mQueue b with
              | Some q => match m q with Ok (a, q') => Ok (a, (s.1, Impl (set_mQueue (Some q') b))) | Fail f => Fail f end
              | None => Fail InvalidDeref
              end
  | _ => Fail InvalidDeref
  end.

(** CHECK_QUEUE *)
Definition CHECK_QUEUE (k : BM mama_status) : BM mama_status := fun s =>
  match s.2 with
  | Null => Ok (MAMA_STATUS_NULL_ARG, s)
  | Freed => Fail InvalidDeref
  | Impl b => match mQueue b with None => Ok (MAMA_STATUS_NULL_ARG, s) | Some _ => k s end
  end.

(** A thread that has the lock waits for itself when it takes it again. *)
Definition dispatch_lock : BM unit :=
  l ← bridge_gets mDispatchLock;
  match l with
  | Some false => bridge_modify (set_mDispatchLock (Some true))
  | Some true => fail Blocked
  | None => fail InvalidDeref
  end.
Definition dispatch_unlock : BM unit := bridge_modify (set_mDispatchLock (Some false)).

Fixpoint each {A} (f : A -> BM unit) (l : list A) : BM unit :=
  match l with [] => mret tt | a :: l' => f a ;; each f l' end.

Definition queue_ok (st : wombatQueueStatus) : bool := match st with WOMBAT_QUEUE_OK => true | _ => false end.
Definition ok_or_timeout (st : wombatQueueStatus) : bool := match st with WOMBAT_QUEUE_OK | WOMBAT_QUEUE_TIMEOUT => true | _ => false end.

(** ** Creation and destruction *)

(** [mem]: whether the structure can be allocated; the pointer that [queue]
    is set to replaces the state of the bridge. *)
Definition baseBridgeMamaQueue_create (queue mem : bool) (parent : Z) : BM mama_status :=
  if negb queue || (parent =? 0) then mret MAMA_STATUS_NULL_ARG
  else
    modify (fun s => (s.1, Null)) ;;
    if negb mem then mret MAMA_STATUS_NOMEM
    else
      match eq_allocate with
      | None => mret MAMA_STATUS_NOMEM
      | Some q =>
          match eq_create QPID_QUEUE_MAX_SIZE QPID_QUEUE_INITIAL_SIZE QPID_QUEUE_CHUNK_SIZE q with
          | Fail f => fail f
          | Ok (underlyingStatus, q) =>
              if negb (queue_ok underlyingStatus) then mret MAMA_STATUS_PLATFORM
              else
                modify (fun s => (s.1, Impl (mkBaseQueue parent (Some q) false 0 0 false 0 0 (Some false) 0 0))) ;;
                mret MAMA_STATUS_OK
          end
      end.

(** The lock is not initialised. *)
Definition baseBridgeMamaQueue_create_usingNative (queue mem : bool) (parent : Z) (nativeQueue : option Q) : BM mama_status :=
  match nativeQueue with
  | None => mret MAMA_STATUS_NULL_ARG
  | Some q =>
      if negb queue || (parent =? 0) then mret MAMA_STATUS_NULL_ARG
      else
        modify (fun s => (s.1, Null)) ;;
        if negb mem then mret MAMA_STATUS_NOMEM
        else
          modify (fun s => (s.1, Impl (mkBaseQueue parent (Some q) false 0 0 false 0 0 None 0 0))) ;;
          mret MAMA_STATUS_OK
  end.

Definition baseBridgeMamaQueue_destroy : BM mama_status :=
  CHECK_QUEUE (
    dispatch_lock ;;
    q ← bridge_gets mQueue;
    status ← (match q with
              | Some q => match eq_destroy q with Ok st => mret st | Fail f => fail f end
              | None => fail InvalidDeref
              end);
    dispatch_unlock ;;
    cb ← bridge_gets mClosureCleanupCb;
    closure ← bridge_gets mClosure;
    (if negb (cb =? 0) && negb (closure =? 0) then notify (ClosureCleanup cb closure) else mret tt) ;;
    modify (fun s => (s.1, Freed)) ;;
    mret (if queue_ok status then MAMA_STATUS_OK else MAMA_STATUS_PLATFORM)).

(** ** Dispatching *)

(** The status and *count. *)
Definition baseBridgeMamaQueue_getEventCount : BM (mama_status * Z) := fun s =>
  match CHECK_QUEUE (mret MAMA_STATUS_OK) s with
  | Ok (MAMA_STATUS_OK, _) =>
      match on_queue eq_getSize s with Ok (r, s') => Ok ((MAMA_STATUS_OK, u64 r.2), s') | Fail f => Fail f end
  | Ok (st, _) => Ok ((st, 0), s)
  | Fail f => Fail f
  end.

Definition baseBridgeMamaQueueImpl_checkWatermarks : BM unit :=
  r ← baseBridgeMamaQueue_getEventCount;
  let eventCount := r.2 in
  fired ← bridge_gets mHighWaterFired;
  low ← bridge_gets mLowWatermark;
  high ← bridge_gets mHighWatermark;
  if fired && (eventCount =? low) then
    bridge_modify (set_mHighWaterFired false) ;;
    notify (LowWatermarkExceeded eventCount)
  else if negb fired && (high <=? eventCount) then
    bridge_modify (set_mHighWaterFired true) ;;
    notify (HighWatermarkExceeded eventCount)
  else mret tt.

Definition calls_of (b : baseQueueBridge Q) : list (Z * Z * Z) := match mQueue b with Some q => eq_calls q | None => [] end.

(** A call that dispatches: the callback of the event is the last thing it does. *)
Definition run_queue (m : M Q qresult) : BM wombatQueueStatus :=
  before ← bridge_gets calls_of;
  r ← on_queue m;
  after ← bridge_gets calls_of;
  each run_event (drop (length before) after) ;;
  mret r.1.

Definition dispatch_status (status : wombatQueueStatus) : mama_status :=
  if ok_or_timeout status then MAMA_STATUS_OK else MAMA_STATUS_PLATFORM.

(** The loop.  [others] is what other threads do in each of its rounds, before the
    watermarks are checked and while the queue is waited for; [None]: when [others]
    ends it still dispatches. *)
Fixpoint dispatch_rounds (others : list (BM unit * BM unit)) : BM (option wombatQueueStatus) :=
  match others with
  | [] => mret None
  | (before, waiting) :: others' =>
      before ;;
      baseBridgeMamaQueueImpl_checkWatermarks ;;
      waiting ;;
      status ← run_queue eq_timedDispatch;
      dispatching ← bridge_gets mIsDispatching;
      if ok_or_timeout status && dispatching then dispatch_rounds others' else mret (Some status)
  end.

Definition baseBridgeMamaQueue_dispatch (others : list (BM unit * BM unit)) : BM (option mama_status) := fun s =>
  match CHECK_QUEUE (mret MAMA_STATUS_OK) s with
  | Ok (MAMA_STATUS_OK, _) =>
      (dispatch_lock ;;
       bridge_modify (set_mIsDispatching true) ;;
       status ← dispatch_rounds others;
       match status with
       | None => mret None
       | Some status => dispatch_unlock ;; mret (Some (dispatch_status status))
       end) s
  | Ok (st, _) => Ok (Some st, s)
  | Fail f => Fail f
  end.

Definition baseBridgeMamaQueue_timedDispatch : BM mama_status :=
  CHECK_QUEUE (
    baseBridgeMamaQueueImpl_checkWatermarks ;;
    status ← run_queue eq_timedDispatch;
    mret (dispatch_status status)).

Definition baseBridgeMamaQueue_dispatchEvent : BM mama_status :=
  CHECK_QUEUE (
    baseBridgeMamaQueueImpl_checkWatermarks ;;
    status ← run_queue eq_dispatch;
    mret (dispatch_status status)).

Definition baseBridgeMamaQueue_enqueueEvent (callback closure : Z) : BM mama_status :=
  if callback =? 0 then mret MAMA_STATUS_NULL_ARG
  else
    CHECK_QUEUE (
      parent ← bridge_gets mParent;
      status ← on_queue (eq_enqueue callback parent closure);
      cb ← bridge_gets mEnqueueCallback;
      cl ← bridge_gets mEnqueueClosure;
      (if cb =? 0 then mret tt else notify (EnqueueCallback cb parent cl)) ;;
      mret (if queue_ok status then MAMA_STATUS_OK else MAMA_STATUS_PLATFORM)).

Definition baseBridgeMamaQueue_stopDispatch : BM mama_status :=
  CHECK_QUEUE (bridge_modify (set_mIsDispatching false) ;; mret MAMA_STATUS_OK).

(** ** Options *)

Definition baseBridgeMamaQueue_setEnqueueCallback (callback closure : Z) : BM mama_status :=
  if callback =? 0 then mret MAMA_STATUS_NULL_ARG
  else CHECK_QUEUE (bridge_modify (set_mEnqueueCallback callback closure) ;; mret MAMA_STATUS_OK).

Definition baseBridgeMamaQueue_removeEnqueueCallback : BM mama_status :=
  CHECK_QUEUE (bridge_modify (set_mEnqueueCallback 0 0) ;; mret MAMA_STATUS_OK).

Definition baseBridgeMamaQueue_setHighWatermark (highWatermark : Z) : BM mama_status :=
  if highWatermark =? 0 then mret MAMA_STATUS_NULL_ARG
  else CHECK_QUEUE (bridge_modify (set_mHighWatermark highWatermark) ;; mret MAMA_STATUS_OK).

Definition baseBridgeMamaQueue_setLowWatermark (lowWatermark : Z) : BM mama_status :=
  if lowWatermark =? 0 then mret MAMA_STATUS_NULL_ARG
  else CHECK_QUEUE (bridge_modify (set_mLowWatermark lowWatermark) ;; mret MAMA_STATUS_OK).

Definition baseBridgeMamaQueueImpl_setClosure (closure callback : Z) : BM unit := bridge_modify (set_mClosure closure callback).
Definition baseBridgeMamaQueueImpl_getClosure : BM Z := bridge_gets mClosure.

End BaseQueue.
End BaseQueue.
