(* ===== verification/WombatEventQueue.v ===== *)
(** * The event queue behind the base bridge

    The queue of common/c_cpp/src/c/queue.c, with its items in memory, meets the
    interface the base bridge uses (BaseQueue.v).  Destroying it frees its chunks,
    which needs that the chunks stay linked whatever the queue does. *)

From S2P Require Import Prelude MamaStatus Linked WombatQueue WombatQueueInv WombatQueueOps WombatQueueSpec WombatQueueProps BaseQueue.
Import WombatQueue.

Module WombatEventQueue.

(** ** Chunks *)

Definition chunk_next (m : gmap Z wombatQueueItem) (p : Z) : option Z := mChunkNext <$> m !! p.

(** The chunks [l] are linked from [mChunks] on and were allocated below [brk]. *)
Record chunked (q : wombatQueueImpl) (l : list Z) : Prop := mkChunked {
  ch_chain : chain (chunk_next (qmem q)) (mChunks q) l;
  ch_nodup : NoDup l;
  ch_below : forall p, p ∈ l -> FIRST <= p < brk q;
  ch_brk : FIRST <= brk q;
  ch_null : qmem q !! 0 = None;
  ch_size : 1 <= mChunkSize q;
}.

Definition keeps_chunks {A} (m : QM A) : Prop :=
  forall q, (exists l, chunked q l) -> tr m q (fun _ q' => exists l, chunked q' l).

Lemma chunked_ext q q' l : chunked q l -> (forall p, chunk_next (qmem q') p = chunk_next (qmem q) p) ->
  mChunks q' = mChunks q -> brk q' = brk q -> mChunkSize q' = mChunkSize q -> chunked q' l.
Proof.
  intros [A B C D E F] Hn H1 H2 H3. constructor; rewrite ?H1, ?H2, ?H3; try done.
  - by eapply chain_frame.
  - specialize (Hn 0). unfold chunk_next in Hn. rewrite E in Hn. by destruct (qmem q' !! 0).
Qed.

Lemma keeps_chunks_same {A} (m : QM A) :
  (forall q a q', m q = Ok (a, q') -> (forall p, chunk_next (qmem q') p = chunk_next (qmem q) p) /\
     mChunks q' = mChunks q /\ brk q' = brk q /\ mChunkSize q' = mChunkSize q) -> keeps_chunks m.
Proof.
  intros Hm q [l Hl]. unfold tr. destruct (m q) as [[a q']|f] eqn:E; [|done]. exists l.
  destruct (Hm _ _ _ E) as (H1 & H2 & H3 & H4). by eapply chunked_ext.
Qed.

Lemma keeps_chunks_bind {A B} (m : QM A) (k : A -> QM B) : keeps_chunks m -> (forall a, keeps_chunks (k a)) -> keeps_chunks (m ≫= k).
Proof. intros Hm Hk q Hq. apply tr_bind. eapply tr_mono; [by apply Hm|]. intros a q' Hq'. by apply Hk. Qed.

Lemma keeps_chunks_ret {A} (a : A) : keeps_chunks (mret a).
Proof. intros q Hq. by apply tr_ret. Qed.

Lemma keeps_chunks_gets {A} (f : wombatQueueImpl -> A) : keeps_chunks (gets f).
Proof. intros q Hq. by apply tr_gets. Qed.

Lemma keeps_chunks_modify f :
  (forall q, qmem (f q) = qmem q /\ mChunks (f q) = mChunks q /\ brk (f q) = brk q /\ mChunkSize (f q) = mChunkSize q) -> keeps_chunks (modify f).
Proof. intros Hf. apply keeps_chunks_same. intros q a q' [= <- <-]. destruct (Hf q) as (-> & -> & -> & ->). done. Qed.

Lemma alter_chunk_next f p m x : (forall i, mChunkNext (f i) = mChunkNext i) -> chunk_next (alter f p m) x = chunk_next m x.
Proof. intros Hf. unfold chunk_next. rewrite lookup_alter. case_decide as E; [subst|done]. destruct (m !! x); cbn; [by rewrite Hf|done]. Qed.

Lemma insert_chunk_next (p x : Z) i i' (m : gmap Z wombatQueueItem) : m !! p = Some i -> mChunkNext i' = mChunkNext i ->
  chunk_next (<[p := i']> m) x = chunk_next m x.
Proof.
  intros Hp Hi. unfold chunk_next. destruct (decide (p = x)) as [<-|]; [rewrite lookup_insert_eq, Hp; cbn; by rewrite Hi|].
  by rewrite lookup_insert_ne by done.
Qed.

Lemma keeps_chunks_st_next p v : keeps_chunks (st_next p v).
Proof.
  apply keeps_chunks_same. intros q a q'. unfold st_next. case_match; [|done]. intros [= <- <-].
  split; [|done]. intros x. by apply alter_chunk_next.
Qed.

Lemma keeps_chunks_st_prev p v : keeps_chunks (st_prev p v).
Proof.
  apply keeps_chunks_same. intros q a q'. unfold st_prev. case_match; [|done]. intros [= <- <-].
  split; [|done]. intros x. by apply alter_chunk_next.
Qed.

Lemma keeps_chunks_st_content p cb data closure : keeps_chunks (st_content p cb data closure).
Proof.
  apply keeps_chunks_same. intros q a q'. unfold st_content. case_match eqn:E; [|done]. intros [= <- <-].
  split; [|done]. intros x. by eapply insert_chunk_next.
Qed.

Lemma keeps_chunks_read {A} (m : QM A) : (forall q a q', m q = Ok (a, q') -> q' = q) -> keeps_chunks m.
Proof. intros Hm. apply keeps_chunks_same. intros q a q' E. by rewrite (Hm _ _ _ E). Qed.

Lemma keeps_chunks_ld_next p : keeps_chunks (ld_next p).
Proof. apply keeps_chunks_read. intros q a q'. unfold ld_next. case_match; naive_solver. Qed.
Lemma keeps_chunks_ld_prev p : keeps_chunks (ld_prev p).
Proof. apply keeps_chunks_read. intros q a q'. unfold ld_prev. case_match; naive_solver. Qed.
Lemma keeps_chunks_ld_item p : keeps_chunks (ld_item p).
Proof. apply keeps_chunks_read. intros q a q'. unfold ld_item. case_match; naive_solver. Qed.

Lemma keeps_chunks_trywait : keeps_chunks wsem_trywait.
Proof. apply keeps_chunks_same. intros q a q'. unfold wsem_trywait. case_match; by intros [= <- <-]. Qed.
Lemma keeps_chunks_wait : keeps_chunks wsem_wait.
Proof. apply keeps_chunks_same. intros q a q'. unfold wsem_wait. case_match; [|done]. by intros [= <- <-]. Qed.

Create HintDb chunks discriminated.
#[local] Hint Resolve keeps_chunks_ret keeps_chunks_gets keeps_chunks_st_next keeps_chunks_st_prev keeps_chunks_st_content keeps_chunks_ld_next
  keeps_chunks_ld_prev keeps_chunks_ld_item keeps_chunks_trywait keeps_chunks_wait : chunks.

Ltac chunks :=
  repeat (intros; lazymatch goal with
    | |- keeps_chunks (mbind _ _) => apply keeps_chunks_bind
    | |- keeps_chunks (modify _) => apply keeps_chunks_modify; intros; split_and!; reflexivity
    | |- keeps_chunks (match ?x with _ => _ end) => destruct x
    | |- _ => solve [auto with chunks]
    end).

(** *** A new chunk *)

Lemma zero_items_below k p (h : gmap Z wombatQueueItem) x : x < p -> zero_items k p h !! x = h !! x.
Proof. intros Hx. rewrite zero_items_lookup, decide_False; [done|]. intros Hin. apply addrs_bounds in Hin. unfold sizeof_item in Hin. lia. Qed.

Lemma keeps_chunks_link_loop k : forall p, keeps_chunks (link_loop k p).
Proof. induction k as [|k IH]; intros p; cbn [link_loop]; chunks. Qed.
#[local] Hint Resolve keeps_chunks_link_loop : chunks.

Lemma keeps_chunks_allocChunk items : 1 <= items -> keeps_chunks (wombatQueueImpl_allocChunk items).
Proof.
  intros Hi q [l Hl]. unfold wombatQueueImpl_allocChunk. tr_pure. case_match; [apply tr_ret; by exists l|].
  apply tr_bind. unfold calloc_items, tr at 1. destruct (brk q + items * sizeof_item <=? limit q).
  2: { tr_pure. unfold st_chunk_next, tr at 1. by rewrite (ch_null _ _ Hl). }
  tr_pure. unfold st_chunk_next, tr at 1. destruct (qmem _ !! brk q) as [i|] eqn:Ei; [|done]. tr_pure. apply keeps_chunks_link_loop.
  destruct Hl as [A B C D E F]. exists (brk q :: l). unfold set_brk, set_qmem, set_mChunks, set_mFirstFree in *. cbn in *.
  unfold FIRST, sizeof_item in *.
  constructor; cbn; unfold FIRST in *.
  - split; [done|]. split; [lia|]. eexists. split; [unfold chunk_next; by rewrite lookup_insert_eq|]. cbn.
    eapply chain_frame; [exact A|]. intros a Ha. pose proof (C a Ha). unfold chunk_next.
    rewrite lookup_insert_ne by lia. by rewrite zero_items_below by lia.
  - constructor; [|done]. intros Hin. apply C in Hin. lia.
  - intros p [->|Hp]%elem_of_cons; [lia|]. apply C in Hp. lia.
  - lia.
  - rewrite lookup_insert_ne by lia. by rewrite zero_items_below by lia.
  - done.
Qed.

(** *** The operations *)

Lemma keeps_chunks_take_free cb data closure : keeps_chunks (take_free cb data closure).
Proof.
  unfold take_free. apply keeps_chunks_bind; [chunks|]. intros f. apply keeps_chunks_bind; [|chunks].
  case_match; [|chunks]. intros q Hq. tr_pure. apply keeps_chunks_allocChunk; [|done]. destruct Hq as [l Hl]. apply Hl.
Qed.
#[local] Hint Resolve keeps_chunks_take_free : chunks.

Lemma keeps_chunks_enqueue cb data closure : keeps_chunks (wombatQueue_enqueue cb data closure).
Proof. unfold wombatQueue_enqueue, mutex_lock, mutex_unlock, wsem_post. chunks. Qed.

Lemma keeps_chunks_dispatch_locked : keeps_chunks dispatch_locked.
Proof. unfold dispatch_locked, WQ_REMOVE, invoke, mutex_lock, mutex_unlock. chunks. Qed.
#[local] Hint Resolve keeps_chunks_dispatch_locked : chunks.

Lemma keeps_chunks_dispatch : keeps_chunks (wombatQueue_dispatch []).
Proof. unfold wombatQueue_dispatch, wombatQueue_dispatchInt, wait_loop. chunks. Qed.
Lemma keeps_chunks_timedDispatch : keeps_chunks wombatQueue_timedDispatch.
Proof. unfold wombatQueue_timedDispatch, wombatQueue_dispatchInt. chunks. Qed.

Lemma created_chunks lim q m i g : wombatQueue_allocate lim = Some q -> 0 <= i -> 0 <= g ->
  tr (wombatQueue_create true m i g) q (fun _ q' => exists l, chunked q' l).
Proof.
  unfold wombatQueue_allocate. case_match; [done|]. intros [= <-] Hi Hg. unfold wombatQueue_create.
  apply tr_bind. eapply (tr_mono _ _ (fun _ q' => chunked q' [])).
  { assert (chunked (mkQueue (<[HEAD:=mkItem 0 0 0 TAIL HEAD 0]> (<[TAIL:=mkItem 0 0 0 TAIL HEAD 0]> ∅)) 0 0 0 WOMBAT_QUEUE_MAX_SIZE
      WOMBAT_QUEUE_CHUNK_SIZE HEAD 0 0 FIRST lim []) []) as Hc
      by (constructor; cbn; [done|constructor|by intros p Hp%elem_of_nil|done|done|done]).
    case_match; [by apply tr_ret|apply tr_modify]. by eapply chunked_ext. }
  intros _ q1 H1. apply tr_bind. eapply (tr_mono _ _ (fun _ q' => chunked q' [])).
  { case_match; [by apply tr_ret|apply tr_modify]. destruct H1 as [A B C D E F]. constructor; cbn; try done. apply Z.eqb_neq in H0. lia. }
  intros _ q2 H2. cbn [negb]. apply tr_bind, tr_modify, tr_bind.
  eapply tr_mono; [apply keeps_chunks_allocChunk|].
  - unfold WOMBAT_QUEUE_CHUNK_SIZE. case_match; [lia|]. apply Z.eqb_neq in H0. lia.
  - exists []. by eapply chunked_ext.
  - cbn beta. intros _ q3 Hq3. by tr_pure.
Qed.

(** *** Destruction *)

Lemma chunk_walk_chain q l : forall fuel p, chain (chunk_next (qmem q)) p l -> (length l < fuel)%nat -> chunk_walk fuel p q = Ok l.
Proof.
  induction l as [|x l IH]; intros fuel p Hc Hf; destruct fuel as [|fuel]; cbn in *; try lia.
  - by subst p.
  - destruct Hc as (-> & Hx & n & Hn & Hc). rewrite (proj2 (Z.eqb_neq _ _) Hx). unfold chunk_next in Hn.
    destruct (qmem q !! x) as [i|]; [|done]. injection Hn as <-. by rewrite (IH fuel) by (done || lia).
Qed.

(** A queue with its two ends and all chunks in memory is destroyed, and every
    chunk is freed once. *)
Lemma destroy_chunks q l : chunked q l -> qmem q !! HEAD <> None -> wombatQueue_destroy true q = Ok (WOMBAT_QUEUE_OK, l, true).
Proof.
  intros [A B C _ _ _] Hh. assert (HEAD ∉ l) as Hl by (intros Hin; apply C in Hin; unfold FIRST, HEAD in Hin; lia). unfold wombatQueue_destroy. rewrite (chunk_walk_chain q l); [done|done|].
  assert (HEAD :: l ⊆+ (map_to_list (qmem q)).*1) as Hs.
  { apply NoDup_submseteq; [by constructor|]. intros x [->|Hx]%elem_of_cons.
    - destruct (qmem q !! HEAD) as [i|] eqn:E; [|done]. apply list_elem_of_fmap. exists (HEAD, i). split; [done|]. by apply elem_of_map_to_list.
    - destruct (chain_mem _ _ _ _ A Hx) as [n Hn]. unfold chunk_next in Hn. destruct (qmem q !! x) as [i|] eqn:E; [|done].
      apply list_elem_of_fmap. exists (x, i). split; [done|]. by apply elem_of_map_to_list. }
  apply submseteq_length in Hs. rewrite length_fmap, length_map_to_list in Hs. cbn in Hs. lia.
Qed.

(** ** The instance *)

#[export] Instance wombat_event_queue (lim : Z) : EventQueue wombatQueueImpl := {|
  eq_allocate := wombatQueue_allocate lim;
  eq_create := wombatQueue_create true;
  eq_enqueue := wombatQueue_enqueue;
  eq_dispatch := wombatQueue_dispatch [];
  eq_timedDispatch := wombatQueue_timedDispatch;
  eq_getSize := wombatQueue_getSize;
  eq_destroy q := match wombatQueue_destroy true q with Ok r => Ok r.1.1 | Fail f => Fail f end;
  eq_calls := calls;
|}.

(** As many events as memory holds, each in a chunk of its own. *)
Definition chunk_bytes : Z := WOMBAT_QUEUE_CHUNK_SIZE * sizeof_item.

Record holds (q : wombatQueueImpl) (l : list (Z * Z * Z)) (n : Z) : Prop := mkHolds {
  ho_sim : exists a, qsim q a /\ aitems a = l /\ atokens a = Z.of_nat (length l) /\ aunb a = false /\ amax a = WOMBAT_QUEUE_MAX_SIZE /\ achunk a = WOMBAT_QUEUE_CHUNK_SIZE /\ n * chunk_bytes <= aroom a;
  ho_size : 0 <= n /\ Z.of_nat (length l) + n + WOMBAT_QUEUE_CHUNK_SIZE <= WOMBAT_QUEUE_MAX_SIZE;
  ho_chunks : exists c, chunked q c;
}.

Lemma wp_and_tr {A} (m : QM A) q Q R : wp m q Q -> tr m q R -> wp m q (fun a q' => Q a q' /\ R a q').
Proof. unfold wp, tr. by destruct (m q) as [[a q']|f]. Qed.

Lemma wp_as_status (m : QM wombatQueueStatus) q st (R : wombatQueueImpl -> Prop) :
  wp (as_status m) q (fun r q' => r = RStatus st /\ R q') -> wp m q (fun r q' => r = st /\ R q').
Proof. unfold as_status, wp, mbind, M_bind. destruct (m q) as [[a q']|f]; [|done]. cbn. intros [[= ->] ?]. done. Qed.

Lemma wp_as_item (m : QM qresult) q st v (R : wombatQueueImpl -> Prop) :
  wp (as_item m) q (fun r q' => r = RItem st v /\ R q') -> wp m q (fun r q' => r = (st, v) /\ R q').
Proof. unfold as_item, wp, mbind, M_bind. destruct (m q) as [[[s x] q']|f]; [|done]. cbn. intros [[= -> ->] ?]. done. Qed.

Lemma qsim_calls q a : qsim q a -> calls q = acalls a.
Proof. intros (ls & fl & S). apply S. Qed.

Lemma holds_enqueue q l n cb d c : holds q l n -> 0 < n ->
  wp (wombatQueue_enqueue cb d c) q (fun r q' => r = WOMBAT_QUEUE_OK /\ holds q' (l ++ [(cb, d, c)]) (n - 1) /\ calls q' = calls q).
Proof.
  intros [(a & S & Hl & Ht & Hu & Hm & Hc & Hr) Hs Hch] Hn. unfold chunk_bytes in Hr.
  assert (a_full a = false) as Ef.
  { unfold a_full. destruct (afree a); [|done]. rewrite Hm, Ht, Hc. unfold WOMBAT_QUEUE_CHUNK_SIZE, WOMBAT_QUEUE_MAX_SIZE in *.
    rewrite u32_small by lia. lia. }
  assert (alegal a (QEnqueue cb d c) = true) as Hlegal.
  { unfold alegal, a_has_room. destruct (afree a); [|done]. rewrite Hc, Ef. unfold WOMBAT_QUEUE_CHUNK_SIZE, sizeof_item in *. cbn. lia. }
  pose proof (sim_enqueue q a cb d c S Hlegal) as W. unfold simulates in W. cbn [astep run_qcmd] in W. unfold a_try_insert in W. rewrite Ef in W.
  cbn [fst snd] in W. apply wp_as_status in W.
  eapply wp_mono; [apply (wp_and_tr _ _ _ _ W (keeps_chunks_enqueue cb d c q Hch))|]. cbn beta. intros r q' [[-> S'] Hch'].
  split; [done|]. split; [|by rewrite (qsim_calls _ _ S'), (qsim_calls _ _ S)].
  constructor; [|rewrite length_app; cbn; lia|done]. eexists. split; [exact S'|]. cbn [a_insert aitems atokens aunb amax achunk aroom].
  rewrite take_ge, drop_ge, Hl, length_app by lia. split_and!; try done; [cbn; lia|].
  destruct (afree a); unfold chunk_bytes, WOMBAT_QUEUE_CHUNK_SIZE, sizeof_item in *; lia.
Qed.

Lemma holds_pop q q' a v l n : holds q (v :: l) n -> qsim q a -> (exists c, chunked q' c) -> aitems a = v :: l ->
  atokens a = Z.of_nat (length (v :: l)) -> aunb a = false -> amax a = WOMBAT_QUEUE_MAX_SIZE -> achunk a = WOMBAT_QUEUE_CHUNK_SIZE ->
  n * chunk_bytes <= aroom a ->
  qsim q' (a_pop (a_tokens a (atokens a - 1)) l (called_by v)) -> holds q' l n /\ calls q' = calls q ++ called v.
Proof.
  intros [_ Hs _] S Hch Hl Ht Hu Hm Hc Hr S'. split; [|by rewrite (qsim_calls _ _ S'), (qsim_calls _ _ S)].
  constructor; [|cbn [length] in Hs; lia|done]. eexists. split; [exact S'|]. cbn [a_pop a_tokens aitems atokens aunb amax achunk aroom].
  split_and!; try done. cbn [length] in Ht. lia.
Qed.

Lemma holds_dispatched (m : QM qresult) cmd q v l n : holds q (v :: l) n -> keeps_chunks m ->
  (forall a, qsim q a -> 0 < atokens a -> simulates (as_item m) q (astep a cmd)) ->
  (forall a, 0 < atokens a -> astep a cmd = a_dispatch (a_tokens a (atokens a - 1))) ->
  wp m q (fun r q' => r = (WOMBAT_QUEUE_OK, Some (v.1.2, v.2)) /\ holds q' l n /\ calls q' = calls q ++ called v).
Proof.
  intros Hh Hk Hm Ha. pose proof Hh as [(a & S & Hl & Ht & Hu & Hx & Hc & Hr) Hs Hch]. assert (0 < atokens a) as Hp by (rewrite Ht; cbn; lia).
  pose proof (Hm a S Hp) as W. unfold simulates in W. rewrite (Ha a Hp) in W. unfold a_dispatch in W. cbn [a_tokens aunb aitems] in W. rewrite Hu, Hl in W.
  cbn [fst snd] in W. apply wp_as_item in W. eapply wp_mono; [apply (wp_and_tr _ _ _ _ W (Hk q Hch))|]. cbn beta. intros r q' [[-> S'] Hch'].
  split; [done|]. by eapply holds_pop.
Qed.

#[export] Instance wombat_event_queue_laws (lim : Z) (Hlim : FIRST + chunk_bytes <= lim) : @EventQueueLaws wombatQueueImpl (wombat_event_queue lim).
Proof.
  refine {| eq_holds := holds; eq_limit := Z.min ((lim - FIRST - chunk_bytes) / chunk_bytes) (WOMBAT_QUEUE_MAX_SIZE - WOMBAT_QUEUE_CHUNK_SIZE) |};
    cbn [eq_allocate eq_create eq_enqueue eq_dispatch eq_timedDispatch eq_getSize eq_destroy eq_calls wombat_event_queue].
  - unfold WOMBAT_QUEUE_MAX_SIZE, WOMBAT_QUEUE_CHUNK_SIZE. lia.
  - intros q E. eapply wp_mono; [apply wp_and_tr; [eapply create_sim; [exact E|]|by eapply created_chunks]|].
    { unfold chunk_bytes, good_args, or_default, WOMBAT_QUEUE_MAX_SIZE, WOMBAT_QUEUE_CHUNK_SIZE, FIRST, sizeof_item in *.
      change (64 =? 0) with false. change (2147483647 =? 0) with false. cbn iota. lia. }
    cbn beta. intros r q' [[-> S] Hch]. split; [done|]. split; [|by rewrite (qsim_calls _ _ S)].
    assert (chunk_bytes = 3072) as Hcb by done.
    pose proof (Z.mul_div_le (lim - FIRST - chunk_bytes) chunk_bytes ltac:(lia)). pose proof (Z.div_pos (lim - FIRST - chunk_bytes) chunk_bytes ltac:(lia) ltac:(lia)).
    constructor; [|cbn; unfold WOMBAT_QUEUE_MAX_SIZE, WOMBAT_QUEUE_CHUNK_SIZE in *; lia|done].
    eexists. split; [exact S|]. cbn. split_and!; try done. unfold or_default, WOMBAT_QUEUE_CHUNK_SIZE, sizeof_item in *. cbn. nia.
  - intros q l n cb d c Hh Hn. by apply holds_enqueue.
  - intros q v l n Hh. apply (holds_dispatched _ QDispatch); [done|apply keeps_chunks_dispatch|..].
    + intros a S Ha. apply (sim_dispatch q a S). cbn. lia.
    + done.
  - intros q v l n Hh. apply (holds_dispatched _ QTimedDispatch); [done|apply keeps_chunks_timedDispatch|..].
    + intros a S Ha. apply (sim_timedDispatch q a S).
    + intros a Ha. cbn [astep]. by rewrite (proj2 (Z.leb_gt _ _)) by lia.
  - intros q n [(a & (ls & fl & S) & Hl & Ht & _) _ _]. unfold wombatQueue_timedDispatch, wombatQueue_dispatchInt.
    apply wp_bind. unfold wsem_trywait, wp at 1. rewrite (s_tokens _ _ _ _ S), Ht. cbn [length]. change (0 <? Z.of_nat 0) with false. cbn iota.
    by apply wp_ret.
  - intros q l n [(a & (ls & fl & S) & Hl & Ht & _) _ _]. unfold wombatQueue_getSize. wp_pure. by rewrite (s_tokens _ _ _ _ S), Ht.
  - intros q l n [(a & (ls & fl & S) & _) _ [c Hc]]. rewrite (destroy_chunks q c Hc); [done|].
    pose proof (q_head _ _ _ (s_repr _ _ _ _ S)) as Hh. unfold prv in Hh. by destruct (qmem q !! HEAD).
Defined.

Lemma wombat_event_queue_limit lim Hlim : @eq_limit _ _ (wombat_event_queue_laws lim Hlim) =
  Z.min ((lim - FIRST - chunk_bytes) / chunk_bytes) (WOMBAT_QUEUE_MAX_SIZE - WOMBAT_QUEUE_CHUNK_SIZE).
Proof. reflexivity. Qed.

End WombatEventQueue.
