(* ===== verification/MamaQueue.v ===== *)
(** * The event queue API (mama/c_cpp/src/c/queue.c)

    A queue of MAMA on a bridge that uses the queue of the base bridge
    (BaseQueue.v): its objects, its destruction, the dispatching, the watermarks
    and its dispatcher.  The world is one queue with its dispatcher, the locks it
    gave out and the bridge's queue; NULL is 0 or, for the queue passed to a call,
    [false].  What the callbacks of events do is [app]; the other callbacks are
    recorded.  Messages and statistics are recorded only. *)

From S2P Require Import Prelude MamaStatus Cstdio Text StrUtils WombatQueue BaseQueue.
Import Cstdio StrUtils BaseQueue.

Module MamaQueue.

(** ** State *)

Record mamaQueueImpl : Type := mkMamaQueue {
  mMsg : Z;
  mIsDispatching : bool;
  mDispatcher : bool;
  onQueueHighWatermarkExceeded : Z;
  onQueueLowWatermark : Z;
  mQueueMonitorClosure : Z;
  mQueueName : string;
  mLowWatermark : Z;
  mHighWatermark : Z;
  mIsDefaultQueue : bool;
  mNumberOpenObjects : Z;
  mTrackObjectLocks : bool;
  mClosure : Z;
}.

(** [d_mQueue]: whether the dispatcher's pointer to the queue is not NULL. *)
Record mamaDispatcherImpl : Type := mkDispatcher { d_mQueue : bool; d_mIsDispatching : bool }.

(** The address of the queue. *)
Definition QUEUE : Z := 1.

Inductive event : Type :=
| Ran (v : Z * Z * Z)
| HighWatermark (cb size closure : Z)
| LowWatermark (cb size closure : Z)
| Enqueued (cb queue closure : Z)
| CleanedUp (cb closure : Z)
| MsgCreated | MsgDestroyed | StatsEnabled.

(** [queue] is [None] when the structure was freed; [locks]: the owner of each lock
    structure. *)
Record caller : Type := mkCaller {
  queue : option mamaQueueImpl;
  dispatcher : option mamaDispatcherImpl;
  locks : gmap Z Z;
  nextLock : Z;
  gQueueNumber : Z;
  log : list event;
}.

Definition put_queue (v : option mamaQueueImpl) (u : caller) : caller := mkCaller v (dispatcher u) (locks u) (nextLock u) (gQueueNumber u) (log u).
Definition put_dispatcher (v : option mamaDispatcherImpl) (u : caller) : caller := mkCaller (queue u) v (locks u) (nextLock u) (gQueueNumber u) (log u).
Definition put_locks (v : gmap Z Z) (n : Z) (u : caller) : caller := mkCaller (queue u) (dispatcher u) v n (gQueueNumber u) (log u).
Definition put_gQueueNumber (v : Z) (u : caller) : caller := mkCaller (queue u) (dispatcher u) (locks u) (nextLock u) v (log u).
Definition put_log (v : list event) (u : caller) : caller := mkCaller (queue u) (dispatcher u) (locks u) (nextLock u) (gQueueNumber u) v.

Definition put_mMsg (v : Z) (i : mamaQueueImpl) : mamaQueueImpl :=
  mkMamaQueue v (mIsDispatching i) (mDispatcher i) (onQueueHighWatermarkExceeded i) (onQueueLowWatermark i) (mQueueMonitorClosure i) (mQueueName i)
    (mLowWatermark i) (mHighWatermark i) (mIsDefaultQueue i) (mNumberOpenObjects i) (mTrackObjectLocks i) (mClosure i).
Definition put_mIsDispatching (v : bool) (i : mamaQueueImpl) : mamaQueueImpl :=
  mkMamaQueue (mMsg i) v (mDispatcher i) (onQueueHighWatermarkExceeded i) (onQueueLowWatermark i) (mQueueMonitorClosure i) (mQueueName i)
    (mLowWatermark i) (mHighWatermark i) (mIsDefaultQueue i) (mNumberOpenObjects i) (mTrackObjectLocks i) (mClosure i).
Definition put_mDispatcher (v : bool) (i : mamaQueueImpl) : mamaQueueImpl :=
  mkMamaQueue (mMsg i) (mIsDispatching i) v (onQueueHighWatermarkExceeded i) (onQueueLowWatermark i) (mQueueMonitorClosure i) (mQueueName i)
    (mLowWatermark i) (mHighWatermark i) (mIsDefaultQueue i) (mNumberOpenObjects i) (mTrackObjectLocks i) (mClosure i).
Definition put_callbacks (high low closure : Z) (i : mamaQueueImpl) : mamaQueueImpl :=
  mkMamaQueue (mMsg i) (mIsDispatching i) (mDispatcher i) high low closure (mQueueName i)
    (mLowWatermark i) (mHighWatermark i) (mIsDefaultQueue i) (mNumberOpenObjects i) (mTrackObjectLocks i) (mClosure i).
Definition put_name (v : string) (d : bool) (i : mamaQueueImpl) : mamaQueueImpl :=
  mkMamaQueue (mMsg i) (mIsDispatching i) (mDispatcher i) (onQueueHighWatermarkExceeded i) (onQueueLowWatermark i) (mQueueMonitorClosure i) v
    (mLowWatermark i) (mHighWatermark i) d (mNumberOpenObjects i) (mTrackObjectLocks i) (mClosure i).
Definition put_watermarks (low high : Z) (i : mamaQueueImpl) : mamaQueueImpl :=
  mkMamaQueue (mMsg i) (mIsDispatching i) (mDispatcher i) (onQueueHighWatermarkExceeded i) (onQueueLowWatermark i) (mQueueMonitorClosure i) (mQueueName i)
    low high (mIsDefaultQueue i) (mNumberOpenObjects i) (mTrackObjectLocks i) (mClosure i).
Definition put_open (v : Z) (i : mamaQueueImpl) : mamaQueueImpl :=
  mkMamaQueue (mMsg i) (mIsDispatching i) (mDispatcher i) (onQueueHighWatermarkExceeded i) (onQueueLowWatermark i) (mQueueMonitorClosure i) (mQueueName i)
    (mLowWatermark i) (mHighWatermark i) (mIsDefaultQueue i) v (mTrackObjectLocks i) (mClosure i).
Definition put_track (v : bool) (i : mamaQueueImpl) : mamaQueueImpl :=
  mkMamaQueue (mMsg i) (mIsDispatching i) (mDispatcher i) (onQueueHighWatermarkExceeded i) (onQueueLowWatermark i) (mQueueMonitorClosure i) (mQueueName i)
    (mLowWatermark i) (mHighWatermark i) (mIsDefaultQueue i) (mNumberOpenObjects i) v (mClosure i).
Definition put_closure (v : Z) (i : mamaQueueImpl) : mamaQueueImpl :=
  mkMamaQueue (mMsg i) (mIsDispatching i) (mDispatcher i) (onQueueHighWatermarkExceeded i) (onQueueLowWatermark i) (mQueueMonitorClosure i) (mQueueName i)
    (mLowWatermark i) (mHighWatermark i) (mIsDefaultQueue i) (mNumberOpenObjects i) (mTrackObjectLocks i) v.

Section MamaQueue.
Context {Q : Type} `{EventQueue Q}.

Abbreviation QU := (M (caller * queueBridge Q)).

Definition user_modify (f : caller -> caller) : QU unit := modify (fun s => (f s.1, s.2)).
Definition queue_gets {A} (f : mamaQueueImpl -> A) : QU A := fun s =>
  match queue s.1 with Some i => Ok (f i, s) | None => Fail InvalidDeref end.
Definition queue_modify (f : mamaQueueImpl -> mamaQueueImpl) : QU unit := fun s =>
  match queue s.1 with Some i => Ok (tt, (put_queue (Some (f i)) s.1, s.2)) | None => Fail InvalidDeref end.
Definition dispatcher_modify (f : mamaDispatcherImpl -> mamaDispatcherImpl) : QU unit := fun s =>
  match dispatcher s.1 with Some d => Ok (tt, (put_dispatcher (Some (f d)) s.1, s.2)) | None => Fail InvalidDeref end.
(** [impl->mBridgeImpl]. *)
Definition bridge_of : QU unit := queue_gets mQueueName ;; mret tt.
Definition record (e : event) : QU unit := user_modify (fun u => put_log (log u ++ [e]) u).

(** ** Calls of the bridge *)

Definition mamaQueueImpl_highWatermarkExceeded (queue : bool) (size : Z) : QU mama_status :=
  if negb queue then mret MAMA_STATUS_NULL_ARG
  else
    cb ← queue_gets onQueueHighWatermarkExceeded;
    closure ← queue_gets mQueueMonitorClosure;
    (if cb =? 0 then mret tt else record (HighWatermark cb size closure)) ;;
    mret MAMA_STATUS_OK.

Definition mamaQueueImpl_lowWatermarkExceeded (queue : bool) (size : Z) : QU mama_status :=
  if negb queue then mret MAMA_STATUS_NULL_ARG
  else
    cb ← queue_gets onQueueLowWatermark;
    closure ← queue_gets mQueueMonitorClosure;
    (if cb =? 0 then mret tt else record (LowWatermark cb size closure)) ;;
    mret MAMA_STATUS_OK.

(** The calls of the bridge's queue, whose parent is the queue. *)
Definition notify (c : upcall) : QU unit :=
  match c with
  | HighWatermarkExceeded size => mamaQueueImpl_highWatermarkExceeded true size ;; mret tt
  | LowWatermarkExceeded size => mamaQueueImpl_lowWatermarkExceeded true size ;; mret tt
  | EnqueueCallback cb queue closure => record (Enqueued cb queue closure)
  | ClosureCleanup cb closure => record (CleanedUp cb closure)
  end.

(** ** Objects *)

Definition mamaQueue_setClosure (queue : bool) (closure : Z) : QU mama_status :=
  if negb queue then mret MAMA_STATUS_NULL_ARG else queue_modify (put_closure closure) ;; mret MAMA_STATUS_OK.

Definition mamaQueue_getClosure (queue closure : bool) : QU (mama_status * option Z) :=
  if negb queue then mret (MAMA_STATUS_NULL_ARG, None)
  else if negb closure then mret (MAMA_STATUS_INVALID_ARG, None)
  else c ← queue_gets mClosure; mret (MAMA_STATUS_OK, Some c).

(** The handle, NULL without tracking or memory. *)
Definition mamaQueue_incrementObjectCount (mem : bool) (owner : Z) : QU Z :=
  n ← queue_gets mNumberOpenObjects;
  queue_modify (put_open (i32 (n + 1))) ;;
  track ← queue_gets mTrackObjectLocks;
  if track && mem then
    u ← gets fst;
    user_modify (put_locks (<[nextLock u := owner]> (locks u)) (nextLock u + 1)) ;;
    mret (nextLock u)
  else mret 0.

(** [handle] is what *handle is; the result is what it becomes. *)
Definition mamaQueue_decrementObjectCount (handle : Z) : QU Z :=
  n ← queue_gets mNumberOpenObjects;
  queue_modify (put_open (i32 (n - 1))) ;;
  track ← queue_gets mTrackObjectLocks;
  if (track : bool) then
    if handle =? 0 then mret handle
    else
      u ← gets fst;
      match locks u !! handle with
      | None => fail InvalidDeref
      | Some _ => user_modify (put_locks (delete handle (locks u)) (nextLock u)) ;; mret 0
      end
  else mret handle.

Definition mamaQueue_canDestroy (queue : bool) : QU mama_status :=
  if negb queue then mret MAMA_STATUS_NULL_ARG
  else n ← queue_gets mNumberOpenObjects; mret (if n =? 0 then MAMA_STATUS_OK else MAMA_STATUS_QUEUE_OPEN_OBJECTS).

(** ** Creation and destruction *)

(** Whatever the bridge's queue returns, the structure is freed and the status is
    MAMA_STATUS_OK. *)
Definition mamaQueue_destroy (queue : bool) : QU mama_status :=
  if negb queue then mret MAMA_STATUS_NULL_ARG
  else
    n ← queue_gets mNumberOpenObjects;
    if negb (n =? 0) then mret MAMA_STATUS_QUEUE_OPEN_OBJECTS
    else
      queue_modify (put_mIsDispatching false) ;;
      d ← queue_gets mDispatcher;
      (if d : bool then dispatcher_modify (fun _ => mkDispatcher false false) else mret tt) ;;
      b ← gets snd;
      (match b with Null => mret tt | _ => baseBridgeMamaQueue_destroy notify ;; mret tt end) ;;
      msg ← queue_gets mMsg;
      (if msg =? 0 then mret tt else record MsgDestroyed) ;;
      user_modify (put_queue None) ;;
      mret MAMA_STATUS_OK.

(** [mem], [bridgeMem]: whether the structures can be allocated; [stats]:
    gGenerateQueueStats; [propValue]: mama.queue.object_lock_tracking. *)
Definition mamaQueue_create (queue bridgeImpl mem bridgeMem stats : bool) (propValue : option string) : QU mama_status :=
  if negb bridgeImpl then mret MAMA_STATUS_NO_BRIDGE_IMPL
  else if negb queue then mret MAMA_STATUS_NULL_ARG
  else
    u ← gets fst;
    let number := i32 (gQueueNumber u + 1) in
    user_modify (put_gQueueNumber number) ;;
    if negb mem then mret MAMA_STATUS_NOMEM
    else
      let queueName := ("NO_NAME_" ++ put_d number EmptyString)%string in
      user_modify (put_queue (Some (mkMamaQueue 0 false false 0 0 0 queueName 1 0 false 0 false 0))) ;;
      modify (fun s => (s.1, Null)) ;;
      status ← baseBridgeMamaQueue_create true bridgeMem QUEUE;
      if negb (status_ok status) then mamaQueue_destroy true ;; mret status
      else
        (match propValue with Some _ => queue_modify (put_track (strtobool propValue)) | None => mret tt end) ;;
        (if stats then record StatsEnabled else mret tt) ;;
        mret MAMA_STATUS_OK.

(** ** Dispatching *)

(** What the callback of an event does. *)
Context (app : Z * Z * Z -> QU unit).
Definition run_event (v : Z * Z * Z) : QU unit := record (Ran v) ;; app v.

(** [None]: it still dispatches when [others] ends. *)
Definition mamaQueue_dispatch (queue : bool) (others : list (QU unit * QU unit)) : QU (option mama_status) :=
  if negb queue then mret (Some MAMA_STATUS_NULL_ARG)
  else queue_modify (put_mIsDispatching true) ;; baseBridgeMamaQueue_dispatch notify run_event others.

Definition mamaQueue_timedDispatch (queue : bool) : QU mama_status :=
  if negb queue then mret MAMA_STATUS_NULL_ARG
  else queue_modify (put_mIsDispatching true) ;; baseBridgeMamaQueue_timedDispatch notify run_event.

Definition mamaQueue_dispatchEvent (queue : bool) : QU mama_status :=
  if negb queue then mret MAMA_STATUS_NULL_ARG
  else bridge_of ;; baseBridgeMamaQueue_dispatchEvent notify run_event.

Definition mamaQueue_stopDispatch (queue : bool) : QU mama_status :=
  if negb queue then mret MAMA_STATUS_NULL_ARG
  else queue_modify (put_mIsDispatching false) ;; baseBridgeMamaQueue_stopDispatch.

Definition mamaQueue_enqueueEvent (queue : bool) (callback closure : Z) : QU mama_status :=
  if negb queue then mret MAMA_STATUS_NULL_ARG
  else bridge_of ;; baseBridgeMamaQueue_enqueueEvent notify callback closure.

(** The status and *count. *)
Definition mamaQueue_getEventCount (queue count : bool) : QU (mama_status * Z) :=
  if negb queue then mret (MAMA_STATUS_NULL_ARG, 0)
  else if negb count then mret (MAMA_STATUS_INVALID_ARG, 0)
  else bridge_of ;; baseBridgeMamaQueue_getEventCount.

Definition mamaQueueImpl_isDispatching : QU bool := queue_gets mIsDispatching.

(** The loop of [mamaQueue_destroyWait]. *)
Definition has_open_objects (st : mama_status) : bool := match st with MAMA_STATUS_QUEUE_OPEN_OBJECTS => true | _ => false end.

Fixpoint destroy_wait_loop (fuel : nat) (ret : mama_status) : QU mama_status :=
  if has_open_objects ret then
    match fuel with
    | O => fail OutOfFuel
    | S fuel' =>
        ret ← mamaQueue_timedDispatch true;
        ret ← (if status_ok ret then mamaQueue_destroy true else mret ret);
        destroy_wait_loop fuel' ret
    end
  else mret ret.

Definition mamaQueue_destroyWait (fuel : nat) (queue : bool) : QU mama_status :=
  if negb queue then mret MAMA_STATUS_NULL_ARG
  else ret ← mamaQueue_destroy true; destroy_wait_loop fuel ret.

(** The loop of [mamaQueue_destroyTimedWait]: the status and the time; a round takes
    10 ms. *)
Fixpoint destroy_timed_wait_loop (fuel : nat) (timeout : Z) (ret : mama_status) (currentTime : Z) : QU (mama_status * Z) :=
  if has_open_objects ret && (currentTime <? timeout) then
    match fuel with
    | O => fail OutOfFuel
    | S fuel' =>
        ret ← mamaQueue_timedDispatch true;
        if status_ok ret then
          ret ← mamaQueue_destroy true;
          destroy_timed_wait_loop fuel' timeout ret (i64 (currentTime + 10))
        else destroy_timed_wait_loop fuel' timeout ret currentTime
    end
  else mret (ret, currentTime).

Definition mamaQueue_destroyTimedWait (queue : bool) (timeout : Z) : QU mama_status :=
  if negb queue then mret MAMA_STATUS_NULL_ARG
  else if timeout <=? 0 then mret MAMA_STATUS_NULL_ARG
  else
    ret ← mamaQueue_destroy true;
    r ← destroy_timed_wait_loop (Z.to_nat (timeout / 10 + 1)) timeout ret 0;
    mret (if negb (status_ok r.1) && (timeout <=? r.2) then MAMA_STATUS_OK else r.1).

(** ** Options *)

Definition mamaQueue_setEnqueueCallback (queue : bool) (callback closure : Z) : QU mama_status :=
  if negb queue then mret MAMA_STATUS_NULL_ARG
  else bridge_of ;; baseBridgeMamaQueue_setEnqueueCallback callback closure.

Definition mamaQueue_removeEnqueueCallback (queue : bool) : QU mama_status :=
  if negb queue then mret MAMA_STATUS_NULL_ARG
  else bridge_of ;; baseBridgeMamaQueue_removeEnqueueCallback.

Definition mamaQueue_setQueueMonitorCallbacks (queue : bool) (high low closure : Z) : QU mama_status :=
  if negb queue then mret MAMA_STATUS_NULL_ARG
  else queue_modify (put_callbacks high low closure) ;; mret MAMA_STATUS_OK.

Definition mamaQueue_setHighWatermark (queue : bool) (highWatermark : Z) : QU mama_status :=
  if negb queue then mret MAMA_STATUS_NULL_ARG
  else
    low ← queue_gets mLowWatermark;
    if highWatermark <? low then mret MAMA_STATUS_INVALID_ARG
    else queue_modify (put_watermarks low highWatermark) ;; baseBridgeMamaQueue_setHighWatermark highWatermark.

Definition mamaQueue_setLowWatermark (queue : bool) (lowWatermark : Z) : QU mama_status :=
  if negb queue then mret MAMA_STATUS_NULL_ARG
  else
    let lowWatermark := if lowWatermark =? 0 then 1 else lowWatermark in
    high ← queue_gets mHighWatermark;
    if high <? lowWatermark then mret MAMA_STATUS_INVALID_ARG
    else queue_modify (put_watermarks lowWatermark high) ;; baseBridgeMamaQueue_setLowWatermark lowWatermark.

Definition mamaQueue_getHighWatermark (queue highWatermark : bool) : QU (mama_status * option Z) :=
  if negb queue then mret (MAMA_STATUS_NULL_ARG, None)
  else if negb highWatermark then mret (MAMA_STATUS_INVALID_ARG, None)
  else v ← queue_gets mHighWatermark; mret (MAMA_STATUS_OK, Some v).

Definition mamaQueue_getLowWatermark (queue lowWatermark : bool) : QU (mama_status * option Z) :=
  if negb queue then mret (MAMA_STATUS_NULL_ARG, None)
  else if negb lowWatermark then mret (MAMA_STATUS_INVALID_ARG, None)
  else v ← queue_gets mLowWatermark; mret (MAMA_STATUS_OK, Some v).

(** [mem]: whether the name can be copied; the copy is compared before it is tested. *)
Definition mamaQueue_setQueueName (queue mem : bool) (name : option string) : QU mama_status :=
  if negb queue then mret MAMA_STATUS_NULL_ARG
  else
    match name with
    | None => mret MAMA_STATUS_INVALID_ARG
    | Some name =>
        if negb mem then fail InvalidDeref
        else
          d ← queue_gets mIsDefaultQueue;
          queue_modify (put_name name (d || bool_decide (name = "DEFAULT_MAMA_QUEUE"%string))) ;;
          mret MAMA_STATUS_OK
    end.

Definition mamaQueue_getQueueName (queue name : bool) : QU (mama_status * option string) :=
  if negb queue then mret (MAMA_STATUS_NULL_ARG, None)
  else if negb name then mret (MAMA_STATUS_INVALID_ARG, None)
  else v ← queue_gets mQueueName; mret (MAMA_STATUS_OK, Some v).

(** ** The message *)

(** [msg] is the address of the new message; setting it up does not fail. *)
Definition mamaQueue_createReuseableMsg (msg : Z) : QU mama_status :=
  if msg =? 0 then mamaQueue_destroy true ;; mret MAMA_STATUS_NOMEM
  else queue_modify (put_mMsg msg) ;; record MsgCreated ;; mret MAMA_STATUS_OK.

(** The field is read again after a creation that failed. *)
Definition mamaQueueImpl_getMsg (queue : bool) (msg : Z) : QU Z :=
  if negb queue then mret 0
  else
    m ← queue_gets mMsg;
    (if m =? 0 then mamaQueue_createReuseableMsg msg ;; mret tt else mret tt) ;;
    queue_gets mMsg.

Definition mamaQueueImpl_detachMsg (queue : bool) (msg : Z) : QU mama_status :=
  if negb queue then mret MAMA_STATUS_NULL_ARG
  else
    m ← queue_gets mMsg;
    (if msg =? m then queue_modify (put_mMsg 0) else mret tt) ;;
    mret MAMA_STATUS_OK.

Definition mamaQueue_create_usingNative (queue bridgeImpl mem bridgeMem : bool) (msg : Z) (nativeQueue : option Q) : QU mama_status :=
  if negb bridgeImpl then mret MAMA_STATUS_NO_BRIDGE_IMPL
  else if negb queue then mret MAMA_STATUS_NULL_ARG
  else
    u ← gets fst;
    let number := i32 (gQueueNumber u + 1) in
    user_modify (put_gQueueNumber number) ;;
    if negb mem then mret MAMA_STATUS_NOMEM
    else
      let queueName := ("NO_NAME_" ++ put_d number EmptyString)%string in
      user_modify (put_queue (Some (mkMamaQueue 0 false false 0 0 0 queueName 1 0 false 0 false 0))) ;;
      modify (fun s => (s.1, Null)) ;;
      mamaQueue_createReuseableMsg msg ;;
      bridge_of ;;
      status ← baseBridgeMamaQueue_create_usingNative true bridgeMem QUEUE nativeQueue;
      if negb (status_ok status) then mamaQueue_destroy true ;; mret status else mret MAMA_STATUS_OK.

(** ** Dispatchers *)

(** [threadStatus]: whether the thread was made, and whether its properties could
    be applied. *)
Definition mamaDispatcher_create (result queue mem : bool) (threadStatus : option bool) : QU mama_status :=
  if negb queue then mret MAMA_STATUS_INVALID_ARG
  else if negb result then mret MAMA_STATUS_NULL_ARG
  else
    d ← queue_gets mDispatcher;
    if (d : bool) then mret MAMA_STATUS_TOO_MANY_DISPATCHERS
    else if negb mem then mret MAMA_STATUS_NOMEM
    else match threadStatus with
         | None => mret MAMA_STATUS_SYSTEM_ERROR
         | Some _ =>
             user_modify (put_dispatcher (Some (mkDispatcher true true))) ;;
             queue_modify (put_mDispatcher true) ;;
             mret MAMA_STATUS_OK
         end.

(** [thread] is what the thread of the dispatcher does until it has returned. *)
Definition mamaDispatcher_destroy (result : bool) (thread : QU unit) : QU mama_status :=
  if negb result then mret MAMA_STATUS_NULL_ARG
  else
    dispatcher_modify (fun d => mkDispatcher (d_mQueue d) false) ;;
    u ← gets fst;
    (if from_option d_mQueue false (dispatcher u) then mamaQueue_stopDispatch true ;; mret tt else mret tt) ;;
    thread ;;
    u ← gets fst;
    (if from_option d_mQueue false (dispatcher u) then queue_modify (put_mDispatcher false) else fail InvalidDeref) ;;
    user_modify (put_dispatcher None) ;;
    mret MAMA_STATUS_OK.

End MamaQueue.
End MamaQueue.
