(* ===== verification/MamaQueueSpec.v ===== *)
(** * The event queue API as a queue of events with an alarm

    The abstract queue holds the events that wait, the alarm of the watermarks, the
    objects that are open and the options; [fstep] says what each call replies and
    does.  The calls of MamaQueue.v, over any underlying queue that keeps its laws,
    do the same: every callback that runs, in order, and every status. *)

From S2P Require Import Prelude MamaStatus WombatQueue BaseQueue MamaQueue.
Import BaseQueue MamaQueue.

Module MamaQueueSpec.

Record options : Type := mkOptions {
  o_low : Z; o_high : Z;
  o_bridgeLow : Z; o_bridgeHigh : Z;
  o_onHigh : Z; o_onLow : Z; o_monitor : Z;
  o_enqueueCb : Z; o_enqueueClosure : Z;
}.

(** [submitted]: all events that were taken, in order. *)
Record fifo : Type := mkFifo {
  pending : list (Z * Z * Z);
  submitted : list (Z * Z * Z);
  alarm : bool;
  going : bool;
  objects : Z;
  opts : options;
  trace : list event;
}.

(** What the callback of an event, or another thread, does with the queue. *)
Inductive action : Type := Enqueue (cb closure : Z) | Stop | OpenObject | CloseObject.

Inductive cmd : Type :=
| Act (x : action)
| TimedDispatch
| DispatchEvent
| Dispatch (others : list (list action * list action))
| Monitor (high low closure : Z)
| SetHigh (v : Z)
| SetLow (v : Z)
| OnEnqueue (cb closure : Z)
| CanDestroy
| EventCount.

Inductive reply : Type := Status (st : mama_status) | Count (st : mama_status) (n : Z) | Dispatching.

(** ** The abstract queue *)

Section Spec.
Context (app : Z * Z * Z -> list action).

Definition log_if (cb : Z) (e : event) : list event := if cb =? 0 then [] else [e].

Definition f_act (a : fifo) (x : action) : fifo :=
  match x with
  | Enqueue cb closure =>
      if cb =? 0 then a
      else mkFifo (pending a ++ [(cb, QUEUE, closure)]) (submitted a ++ [(cb, QUEUE, closure)]) (alarm a) (going a) (objects a) (opts a)
             (trace a ++ log_if (o_enqueueCb (opts a)) (Enqueued (o_enqueueCb (opts a)) QUEUE (o_enqueueClosure (opts a))))
  | Stop => mkFifo (pending a) (submitted a) (alarm a) false (objects a) (opts a) (trace a)
  | OpenObject => mkFifo (pending a) (submitted a) (alarm a) (going a) (i32 (objects a + 1)) (opts a) (trace a)
  | CloseObject => mkFifo (pending a) (submitted a) (alarm a) (going a) (i32 (objects a - 1)) (opts a) (trace a)
  end.

Definition f_acts (a : fifo) (l : list action) : fifo := foldl f_act a l.

Definition f_alarm (a : fifo) (v : bool) (e : list event) : fifo :=
  mkFifo (pending a) (submitted a) v (going a) (objects a) (opts a) (trace a ++ e).

Definition size_of (a : fifo) : Z := Z.of_nat (length (pending a)).

Definition f_check (a : fifo) : fifo :=
  let o := opts a in
  if alarm a && (size_of a =? o_bridgeLow o) then f_alarm a false (log_if (o_onLow o) (LowWatermark (o_onLow o) (size_of a) (o_monitor o)))
  else if negb (alarm a) && (o_bridgeHigh o <=? size_of a) then
    f_alarm a true (log_if (o_onHigh o) (HighWatermark (o_onHigh o) (size_of a) (o_monitor o)))
  else a.

Definition f_pop (a : fifo) : fifo :=
  match pending a with
  | [] => a
  | v :: l => f_acts (mkFifo l (submitted a) (alarm a) (going a) (objects a) (opts a) (trace a ++ [Ran v])) (app v)
  end.

Definition f_timed (a : fifo) : fifo := f_pop (f_check a).

Definition f_round (a : fifo) (x : list action * list action) : fifo := f_pop (f_acts (f_check (f_acts a x.1)) x.2).

(** Whether it was stopped. *)
Fixpoint f_loop (a : fifo) (others : list (list action * list action)) : bool * fifo :=
  match others with
  | [] => (false, a)
  | x :: others' => if going (f_round a x) then f_loop (f_round a x) others' else (true, f_round a x)
  end.

Definition f_going (a : fifo) : fifo := mkFifo (pending a) (submitted a) (alarm a) true (objects a) (opts a) (trace a).
Definition f_opts (a : fifo) (o : options) : fifo := mkFifo (pending a) (submitted a) (alarm a) (going a) (objects a) o (trace a).

Definition act_status (x : action) : mama_status :=
  match x with Enqueue cb _ => if cb =? 0 then MAMA_STATUS_NULL_ARG else MAMA_STATUS_OK | _ => MAMA_STATUS_OK end.

(** The watermarks are those the code accepts; queue.h asks for a low one above 1
    and below the high one. *)
Definition fstep (a : fifo) (c : cmd) : reply * fifo :=
  let o := opts a in
  match c with
  | Act x => (Status (act_status x), f_act a x)
  | TimedDispatch | DispatchEvent => (Status MAMA_STATUS_OK, f_timed a)
  | Dispatch others =>
      let r := f_loop (f_going a) others in (if r.1 then Status MAMA_STATUS_OK else Dispatching, r.2)
  | Monitor high low closure =>
      (Status MAMA_STATUS_OK, f_opts a (mkOptions (o_low o) (o_high o) (o_bridgeLow o) (o_bridgeHigh o) high low closure (o_enqueueCb o) (o_enqueueClosure o)))
  | SetHigh v =>
      if v <? o_low o then (Status MAMA_STATUS_INVALID_ARG, a)
      else (Status MAMA_STATUS_OK, f_opts a (mkOptions (o_low o) v (o_bridgeLow o) v (o_onHigh o) (o_onLow o) (o_monitor o) (o_enqueueCb o) (o_enqueueClosure o)))
  | SetLow v =>
      let v := if v =? 0 then 1 else v in
      if o_high o <? v then (Status MAMA_STATUS_INVALID_ARG, a)
      else (Status MAMA_STATUS_OK, f_opts a (mkOptions v (o_high o) v (o_bridgeHigh o) (o_onHigh o) (o_onLow o) (o_monitor o) (o_enqueueCb o) (o_enqueueClosure o)))
  | OnEnqueue cb closure =>
      if cb =? 0 then (Status MAMA_STATUS_NULL_ARG, a)
      else (Status MAMA_STATUS_OK, f_opts a (mkOptions (o_low o) (o_high o) (o_bridgeLow o) (o_bridgeHigh o) (o_onHigh o) (o_onLow o) (o_monitor o) cb closure))
  | CanDestroy => (Status (if objects a =? 0 then MAMA_STATUS_OK else MAMA_STATUS_QUEUE_OPEN_OBJECTS), a)
  | EventCount => (Count MAMA_STATUS_OK (size_of a), a)
  end.

(** A single dispatch of an empty queue waits (queue.h says that it returns); a dispatch that is not stopped does
    not return, so that nothing can follow it. *)
Definition flegal (a : fifo) (c : cmd) : bool :=
  match c with
  | DispatchEvent => match pending a with [] => false | _ => true end
  | SetHigh v | SetLow v => 0 <=? v
  | _ => true
  end.

Fixpoint frun (a : fifo) (l : list cmd) : list reply * fifo :=
  match l with
  | [] => ([], a)
  | c :: l' =>
      match (fstep a c).1 with
      | Dispatching => ([Dispatching], (fstep a c).2)
      | r => (r :: (frun (fstep a c).2 l').1, (frun (fstep a c).2 l').2)
      end
  end.

Fixpoint flegal_run (a : fifo) (l : list cmd) : bool :=
  match l with [] => true | c :: l' => flegal a c && flegal_run (fstep a c).2 l' end.

End Spec.

(** A queue that was just created. *)
Definition new_fifo : fifo := mkFifo [] [] false false 0 (mkOptions 1 0 0 0 0 0 0 0 0) [].

(** ** The calls *)

Section Calls.
Context {Q : Type} `{EventQueue Q}.
Abbreviation QU := (M (caller * queueBridge Q)).

Definition call (x : action) : QU mama_status :=
  match x with
  | Enqueue cb closure => mamaQueue_enqueueEvent true cb closure
  | Stop => mamaQueue_stopDispatch true
  | OpenObject => mamaQueue_incrementObjectCount true 0 ;; mret MAMA_STATUS_OK
  | CloseObject => mamaQueue_decrementObjectCount 0 ;; mret MAMA_STATUS_OK
  end.

Definition calls_all (l : list action) : QU unit := each (fun x => call x ;; mret tt) l.

Context (app : Z * Z * Z -> list action).
Definition app_calls (v : Z * Z * Z) : QU unit := calls_all (app v).
Definition thread_calls (others : list (list action * list action)) : list (QU unit * QU unit) := (fun x => (calls_all x.1, calls_all x.2)) <$> others.

Definition run_cmd (c : cmd) : QU reply :=
  match c with
  | Act x => st ← call x; mret (Status st)
  | TimedDispatch => st ← mamaQueue_timedDispatch app_calls true; mret (Status st)
  | DispatchEvent => st ← mamaQueue_dispatchEvent app_calls true; mret (Status st)
  | Dispatch others =>
      r ← mamaQueue_dispatch app_calls true (thread_calls others);
      mret (match r with Some st => Status st | None => Dispatching end)
  | Monitor high low closure => st ← mamaQueue_setQueueMonitorCallbacks true high low closure; mret (Status st)
  | SetHigh v => st ← mamaQueue_setHighWatermark true v; mret (Status st)
  | SetLow v => st ← mamaQueue_setLowWatermark true v; mret (Status st)
  | OnEnqueue cb closure => st ← mamaQueue_setEnqueueCallback true cb closure; mret (Status st)
  | CanDestroy => st ← mamaQueue_canDestroy true; mret (Status st)
  | EventCount => r ← mamaQueue_getEventCount true true; mret (Count r.1 r.2)
  end.

Fixpoint run_cmds (l : list cmd) : QU (list reply) :=
  match l with
  | [] => mret []
  | c :: l' =>
      r ← run_cmd c;
      match r with
      | Dispatching => mret [Dispatching]
      | _ => rs ← run_cmds l'; mret (r :: rs)
      end
  end.

End Calls.

(** ** The relation *)

Section Sim.
Context {Q : Type} `{EventQueueLaws Q}.
Context (n : Z) (Hn : n < 2 ^ 64).
Abbreviation QU := (M (caller * queueBridge Q)).
Abbreviation state := (caller * queueBridge Q)%type.

Abbreviation num_submitted a := (Z.of_nat (length (submitted a))).

Record sound (a : fifo) : Prop := mkSound {
  so_callbacks : Forall (fun v => v.1.1 <> 0) (pending a);
  so_length : (length (pending a) <= length (submitted a))%nat;
  so_low : 1 <= o_low (opts a);
}.

(** [lk]: whether the lock of the dispatching thread is taken. *)
Inductive rep (lk : bool) (a : fifo) : state -> Prop :=
| Rep disp dr name def track cl d ls next num q lg :
    lg = trace a -> eq_holds q (pending a) (n - num_submitted a) -> sound a -> (dr = true -> is_Some d) ->
    rep lk a (mkCaller (Some (mkMamaQueue 0 disp dr (o_onHigh (opts a)) (o_onLow (opts a)) (o_monitor (opts a)) name (o_low (opts a)) (o_high (opts a))
                                def (objects a) track cl)) d ls next num lg,
              Impl (mkBaseQueue QUEUE (Some q) (alarm a) (o_bridgeHigh (opts a)) (o_bridgeLow (opts a)) (going a) (o_enqueueCb (opts a))
                      (o_enqueueClosure (opts a)) (Some lk) 0 0)).

(** ** What submissions do to the abstract queue *)

Lemma f_act_mono a x : (length (submitted a) <= length (submitted (f_act a x)))%nat.
Proof. destruct x; cbn; [case_match; cbn; rewrite ?length_app; lia|lia..]. Qed.

Lemma f_acts_mono l : forall a, (length (submitted a) <= length (submitted (f_acts a l)))%nat.
Proof. induction l as [|x l IH]; intros a; cbn; [lia|]. pose proof (f_act_mono a x). specialize (IH (f_act a x)). unfold f_acts in IH. lia. Qed.

Lemma f_check_submitted a : submitted (f_check a) = submitted a.
Proof. unfold f_check. repeat case_match; done. Qed.

Lemma f_pop_mono app a : (length (submitted a) <= length (submitted (f_pop app a)))%nat.
Proof. unfold f_pop. case_match; [lia|]. match goal with |- context [f_acts ?a ?l] => pose proof (f_acts_mono l a) as Hm end. cbn in Hm. lia. Qed.

Lemma f_round_mono app a x : (length (submitted a) <= length (submitted (f_round app a x)))%nat.
Proof.
  unfold f_round. pose proof (f_pop_mono app (f_acts (f_check (f_acts a x.1)) x.2)). pose proof (f_acts_mono x.2 (f_check (f_acts a x.1))).
  pose proof (f_acts_mono x.1 a). rewrite f_check_submitted in *. lia.
Qed.

Lemma f_loop_mono app l : forall a, (length (submitted a) <= length (submitted (f_loop app a l).2))%nat.
Proof.
  induction l as [|x l IH]; intros a; cbn; [lia|]. pose proof (f_round_mono app a x). case_match; cbn; [|lia]. specialize (IH (f_round app a x)). lia.
Qed.

Lemma fstep_mono app a c : (length (submitted a) <= length (submitted (fstep app a c).2))%nat.
Proof.
  destruct c; cbn; try (repeat case_match; cbn; lia); try lia.
  - apply f_act_mono.
  - unfold f_timed. pose proof (f_pop_mono app (f_check a)). rewrite f_check_submitted in *. lia.
  - unfold f_timed. pose proof (f_pop_mono app (f_check a)). rewrite f_check_submitted in *. lia.
  - apply (f_loop_mono app others (f_going a)).
Qed.

Lemma frun_mono app l : forall a, (length (submitted a) <= length (submitted (frun app a l).2))%nat.
Proof.
  induction l as [|c l IH]; intros a; cbn; [lia|]. pose proof (fstep_mono app a c). specialize (IH (fstep app a c).2).
  destruct ((fstep app a c).1); cbn; lia.
Qed.

(** ** Each call *)

(** Evaluates a call whose state is known up to the underlying queue. *)
Ltac rep_now := lazymatch goal with |- rep ?lk ?A _ => by apply (Rep lk A) end.
Ltac calls := unfold wp, mbind, M_bind, mret, M_ret, gets, modify; cbn.

Lemma act_rep lk a x s : rep lk a s -> num_submitted (f_act a x) <= n ->
  wp (call x) s (fun st s' => st = act_status x /\ rep lk (f_act a x) s').
Proof.
  intros [disp dr name def track cl d ls next num q lg -> Hq [Hc Hl Hw] Hd] Hm. destruct x as [cb closure| | |]; cbn [call f_act act_status] in *.
  - unfold mamaQueue_enqueueEvent, bridge_of, queue_gets, baseBridgeMamaQueue_enqueueEvent. destruct (Z.eqb_spec cb 0) as [->|Hcb].
    { calls. split; [done|]. by constructor. }
    cbn [submitted] in Hm. rewrite length_app in Hm. cbn [length] in Hm.
    pose proof (eq_enqueued q (pending a) _ cb QUEUE closure Hq ltac:(lia)) as He. unfold CHECK_QUEUE, bridge_gets, on_queue. calls. unfold wp in He.
    destruct (eq_enqueue cb QUEUE closure q) as [[st q']|f]; [|done]. destruct He as (-> & He & _). cbn.
    assert (forall e, rep lk (mkFifo (pending a ++ [(cb, QUEUE, closure)]) (submitted a ++ [(cb, QUEUE, closure)]) (alarm a) (going a) (objects a) (opts a) (trace a ++ e))
      (mkCaller (Some (mkMamaQueue 0 disp dr (o_onHigh (opts a)) (o_onLow (opts a)) (o_monitor (opts a)) name (o_low (opts a)) (o_high (opts a))
         def (objects a) track cl)) d ls next num (trace a ++ e),
       Impl (mkBaseQueue QUEUE (Some q') (alarm a) (o_bridgeHigh (opts a)) (o_bridgeLow (opts a)) (going a) (o_enqueueCb (opts a))
         (o_enqueueClosure (opts a)) (Some lk) 0 0))) as Hrep.
    { intros e. apply (Rep lk (mkFifo (pending a ++ [(cb, QUEUE, closure)]) (submitted a ++ [(cb, QUEUE, closure)]) (alarm a) (going a) (objects a) (opts a) (trace a ++ e)));
        cbn [pending submitted opts]; [done| |constructor; cbn; [|rewrite !length_app; cbn; lia|done]|done].
      - replace (n - _) with (n - num_submitted a - 1) by (rewrite length_app; cbn; lia). done.
      - apply Forall_app. split; [done|]. by constructor. }
    unfold log_if. destruct (o_enqueueCb (opts a) =? 0).
    + split; [done|]. specialize (Hrep []). by rewrite !app_nil_r in *.
    + split; [done|]. apply Hrep.
  - calls. split; [done|]. by constructor.
  - unfold mamaQueue_incrementObjectCount. calls. destruct track; cbn; (split; [done|]); by apply (Rep lk (mkFifo _ _ _ _ _ _ _)).
  - unfold mamaQueue_decrementObjectCount. calls. destruct track; cbn; (split; [done|]); by apply (Rep lk (mkFifo _ _ _ _ _ _ _)).
Qed.

Lemma acts_rep lk l : forall a s, rep lk a s -> num_submitted (f_acts a l) <= n ->
  wp (calls_all l) s (fun _ s' => rep lk (f_acts a l) s').
Proof.
  induction l as [|x l IH]; intros a s Hr Hm; [done|]. cbn [calls_all each] in *. change (f_acts a (x :: l)) with (f_acts (f_act a x) l) in *.
  pose proof (f_acts_mono l (f_act a x)). apply wp_bind, wp_bind. eapply wp_mono; [apply act_rep; [done|lia]|]. cbn beta. intros st s' [_ Hr'].
  wp_pure. by apply IH.
Qed.

Lemma check_rep lk a s : rep lk a s -> num_submitted a <= n -> wp (baseBridgeMamaQueueImpl_checkWatermarks notify) s (fun _ s' => rep lk (f_check a) s').
Proof.
  intros [disp dr name def track cl d ls next num q lg -> Hq [Hc Hl Hw] Hd] Hm.
  pose proof (eq_size q _ _ Hq) as Hs. unfold baseBridgeMamaQueueImpl_checkWatermarks, baseBridgeMamaQueue_getEventCount, CHECK_QUEUE, on_queue, bridge_gets.
  calls. unfold wp in Hs. destruct (eq_getSize q) as [[r q']|f]; [|done]. destruct Hs as [-> ->]. cbn.
  unfold u64. rewrite uwrap_small by (unfold in_u; lia). unfold f_check, size_of, log_if, bridge_modify.
  destruct (alarm a && (Z.of_nat (length (pending a)) =? o_bridgeLow (opts a))) eqn:E1; cbn.
  { unfold mamaQueueImpl_lowWatermarkExceeded, queue_gets. calls.
    destruct (o_onLow (opts a) =? 0); cbn; apply (Rep lk (f_alarm a false _)); cbn; by rewrite ?app_nil_r. }
  destruct (negb (alarm a) && (o_bridgeHigh (opts a) <=? Z.of_nat (length (pending a)))) eqn:E2; cbn.
  { unfold mamaQueueImpl_highWatermarkExceeded, queue_gets. calls.
    destruct (o_onHigh (opts a) =? 0); cbn; apply (Rep lk (f_alarm a true _)); cbn; by rewrite ?app_nil_r. }
  by constructor.
Qed.

Section App.
Context (app : Z * Z * Z -> list action).

Lemma run_queue_rep lk (m : M Q WombatQueue.qresult) a s v l : pending a = v :: l -> rep lk a s -> num_submitted (f_pop app a) <= n ->
  (forall q k, eq_holds q (v :: l) k ->
     wp m q (fun r q' => r = (WombatQueue.WOMBAT_QUEUE_OK, Some (v.1.2, v.2)) /\ eq_holds q' l k /\ eq_calls q' = eq_calls q ++ called v)) ->
  wp (run_queue (run_event (app_calls app)) m) s (fun r s' => r = WombatQueue.WOMBAT_QUEUE_OK /\ rep lk (f_pop app a) s').
Proof.
  intros Ev [disp dr name def track cl d ls next num q lg -> Hq [Hc Hl Hw] Hd] Hm Hlaw. rewrite Ev in *. unfold f_pop in *. rewrite Ev in *.
  specialize (Hlaw q _ Hq). apply Forall_cons in Hc as [Hv Hc]. unfold run_queue. apply wp_bind. unfold bridge_gets, wp at 1. cbn [snd calls_of mQueue].
  apply wp_bind. unfold on_queue, wp at 1. cbn [fst snd mQueue]. unfold wp in Hlaw. destruct (m q) as [[r q']|f]; [|done].
  destruct Hlaw as (-> & Hq' & Hcl). apply wp_bind. unfold wp at 1. cbn [snd calls_of set_mQueue mQueue]. rewrite Hcl, drop_app_length.
  unfold called. rewrite (proj2 (Z.eqb_neq _ _) Hv). cbn [each]. apply wp_bind, wp_bind. unfold run_event at 1. apply wp_bind. unfold record at 1, user_modify. apply wp_modify.
  eapply wp_mono; [apply acts_rep; [|exact Hm]|].
  - apply (Rep lk (mkFifo l (submitted a) (alarm a) (going a) (objects a) (opts a) (trace a ++ [Ran v]))); try done.
    cbn in *. constructor; cbn; [done|lia|done].
  - cbn beta. intros _ s' Hr. wp_pure. by split.
Qed.

Lemma timed_rep lk a s : rep lk a s -> num_submitted (f_pop app a) <= n ->
  wp (run_queue (run_event (app_calls app)) eq_timedDispatch) s (fun r s' => ok_or_timeout r = true /\ rep lk (f_pop app a) s').
Proof.
  intros Hr Hm. destruct (pending a) as [|v l] eqn:Ev.
  - destruct Hr as [disp dr name def track cl d ls next num q lg -> Hq Hs Hd]. unfold f_pop. rewrite Ev in *.
    pose proof (eq_timedOut q _ Hq) as Ht. unfold run_queue, bridge_gets, on_queue. calls. unfold wp in Ht.
    destruct (eq_timedDispatch q) as [[r q']|f]; [|done]. destruct Ht as [-> ->]. cbn. rewrite drop_all. cbn. split; [done|].
    apply (Rep lk a); try done. by rewrite Ev.
  - eapply wp_mono; [eapply run_queue_rep; [exact Ev|done|done|]|].
    + intros q k Hq. by apply eq_timedDispatched.
    + cbn beta. by intros r s' [-> ?].
Qed.

Lemma going_rep lk a s : rep lk a s -> wp (bridge_gets BaseQueue.mIsDispatching) s (fun r s' => r = going a /\ s' = s).
Proof. by intros [disp dr name def track cl d ls next num q lg -> Hq Hs Hd]. Qed.

Lemma loop_rep lk l : forall a s, rep lk a s -> num_submitted (f_loop app a l).2 <= n ->
  wp (dispatch_rounds notify (run_event (app_calls app)) (thread_calls l)) s (fun r s' =>
    (match r with Some st => ok_or_timeout st | None => false end) = (f_loop app a l).1 /\ (r = None <-> (f_loop app a l).1 = false) /\ rep lk (f_loop app a l).2 s').
Proof.
  induction l as [|[b w] l IH]; intros a s Hr Hm; [by split_and!|]. cbn [f_loop thread_calls fmap list_fmap dispatch_rounds fst snd] in *.
  assert (num_submitted (f_round app a (b, w)) <= n) as Hm2.
  { destruct (going (f_round app a (b, w))); [|done]. pose proof (f_loop_mono app l (f_round app a (b, w))). lia. }
  pose proof (f_acts_mono b a) as M1. pose proof (f_acts_mono w (f_check (f_acts a b))) as M2. rewrite f_check_submitted in M2.
  pose proof (f_pop_mono app (f_acts (f_check (f_acts a b)) w)) as M3. unfold f_round in Hm2. cbn [fst snd] in Hm2.
  apply wp_bind. eapply wp_mono; [apply acts_rep; [done|lia]|]. cbn beta. intros _ s1 H1.
  apply wp_bind. eapply wp_mono; [apply check_rep; [done|lia]|]. cbn beta. intros _ s2 H2.
  apply wp_bind. eapply wp_mono; [apply acts_rep; [done|lia]|]. cbn beta. intros _ s3 H3.
  apply wp_bind. eapply wp_mono; [apply timed_rep; [done|lia]|]. cbn beta. intros st s4 [Hst H4]. rewrite Hst.
  apply wp_bind. eapply wp_mono; [by eapply going_rep|]. cbn beta. intros g s5 [-> ->]. cbn [andb].
  change (f_pop app (f_acts (f_check (f_acts a b)) w)) with (f_round app a (b, w)) in *. destruct (going (f_round app a (b, w))).
  - apply IH; [done|]. exact Hm.
  - apply wp_ret. by split_and!.
Qed.

Lemma CHECK_QUEUE_rep lk a s k (R : mama_status -> state -> Prop) : rep lk a s -> wp k s R -> wp (CHECK_QUEUE k) s R.
Proof. by intros [disp dr name def track cl d ls next num q lg -> Hq Hs Hd]. Qed.

Lemma put_mIsDispatching_rep lk a v s : rep lk a s -> wp (queue_modify (put_mIsDispatching v)) s (fun _ s' => rep lk a s').
Proof. intros [disp dr name def track cl d ls next num q lg -> Hq Hs Hd]. by apply (Rep lk a). Qed.

Lemma bridge_of_rep lk a s : rep lk a s -> wp bridge_of s (fun _ s' => rep lk a s').
Proof. intros [disp dr name def track cl d ls next num q lg -> Hq Hs Hd]. by apply (Rep lk a). Qed.

(** [mamaQueue_timedDispatch], and [mamaQueue_dispatchEvent] when an event waits. *)
Lemma timedDispatch_rep a s : rep false a s -> num_submitted (f_timed app a) <= n ->
  wp (mamaQueue_timedDispatch (app_calls app) true) s (fun st s' => st = MAMA_STATUS_OK /\ rep false (f_timed app a) s').
Proof.
  intros Hr Hm. pose proof (f_pop_mono app (f_check a)) as M. rewrite f_check_submitted in M. unfold f_timed in *.
  unfold mamaQueue_timedDispatch. cbn [negb]. apply wp_bind. eapply wp_mono; [by apply put_mIsDispatching_rep|]. cbn beta. intros _ s1 H1.
  eapply CHECK_QUEUE_rep; [done|]. apply wp_bind. eapply wp_mono; [apply check_rep; [done|lia]|]. cbn beta. intros _ s2 H2.
  apply wp_bind. eapply wp_mono; [apply timed_rep; [done|lia]|]. cbn beta. intros st s4 [Hst H4]. apply wp_ret. unfold dispatch_status. by rewrite Hst.
Qed.

Lemma f_check_pending a : pending (f_check a) = pending a.
Proof. unfold f_check. repeat case_match; done. Qed.

Lemma dispatchEvent_rep a s : rep false a s -> pending a <> [] -> num_submitted (f_timed app a) <= n ->
  wp (mamaQueue_dispatchEvent (app_calls app) true) s (fun st s' => st = MAMA_STATUS_OK /\ rep false (f_timed app a) s').
Proof.
  intros Hr Hne Hm. pose proof (f_pop_mono app (f_check a)) as M. rewrite f_check_submitted in M. unfold f_timed in *.
  unfold mamaQueue_dispatchEvent. cbn [negb]. apply wp_bind. eapply wp_mono; [by apply bridge_of_rep|]. cbn beta. intros _ s1 H1.
  eapply CHECK_QUEUE_rep; [done|]. apply wp_bind. eapply wp_mono; [apply check_rep; [done|lia]|]. cbn beta. intros _ s2 H2.
  rewrite <- f_check_pending in Hne. destruct (pending (f_check a)) as [|v l] eqn:Ev; [done|].
  apply wp_bind. eapply wp_mono; [eapply run_queue_rep; [exact Ev|done|lia|]|].
  - intros q k Hq. by apply eq_dispatched.
  - cbn beta. intros st s4 [-> H4]. by apply wp_ret.
Qed.

Lemma dispatch_rep a s l : rep false a s -> num_submitted (f_loop app (f_going a) l).2 <= n ->
  wp (mamaQueue_dispatch (app_calls app) true (thread_calls l)) s (fun r s' =>
    r = (if (f_loop app (f_going a) l).1 then Some MAMA_STATUS_OK else None) /\
    rep (negb (f_loop app (f_going a) l).1) (f_loop app (f_going a) l).2 s').
Proof.
  intros Hr Hm. unfold mamaQueue_dispatch. cbn [negb]. apply wp_bind. eapply wp_mono; [by apply put_mIsDispatching_rep|]. cbn beta. intros _ s1 H1.
  assert (wp (dispatch_lock ;; bridge_modify (set_mIsDispatching true)) s1 (fun _ s' => rep true (f_going a) s')) as H2.
  { destruct H1 as [disp dr name def track cl d ls next num q lg -> Hq [Hc Hlen Hw] Hd]. unfold dispatch_lock, bridge_gets, bridge_modify. calls. by apply (Rep true (f_going a)). }
  assert (CHECK_QUEUE (mret MAMA_STATUS_OK) s1 = Ok (MAMA_STATUS_OK, s1)) as Ec by by destruct H1.
  unfold baseBridgeMamaQueue_dispatch, wp at 1. rewrite Ec.
  unfold wp, mbind, M_bind in H2 |- *. destruct (dispatch_lock s1) as [[[] s2]|f]; [|done]. destruct (bridge_modify _ s2) as [[[] s3]|f]; [|done].
  pose proof (loop_rep true l (f_going a) s3 H2 Hm) as Hl. unfold wp in Hl.
  destruct (dispatch_rounds _ _ _ s3) as [[st s4]|f]; [|done]. destruct Hl as (E1 & E2 & H4). destruct st as [st|].
  - destruct (f_loop app (f_going a) l) as [[] a']; cbn in *; [|by destruct E2 as [_ E2]; specialize (E2 eq_refl)].
    unfold dispatch_status. rewrite E1. destruct H4 as [disp dr name def track cl d ls next num q lg -> Hq Hs Hd].
    split; [done|]. by apply (Rep false a').
  - destruct (f_loop app (f_going a) l) as [[] a']; [by destruct E2 as [E2 _]; specialize (E2 eq_refl)|]. by split.
Qed.

(** ** Runs *)

(** Whether a dispatch did not return. *)
Definition endless (l : list reply) : bool := existsb (fun r => match r with Dispatching => true | _ => false end) l.

Lemma cmd_rep a s c : rep false a s -> flegal a c = true -> num_submitted (fstep app a c).2 <= n ->
  wp (run_cmd app c) s (fun r s' => r = (fstep app a c).1 /\ rep (match r with Dispatching => true | _ => false end) (fstep app a c).2 s').
Proof.
  intros Hr Hl Hm. destruct c as [x| | |others|high low closure|v|v|cb closure| |]; cbn [run_cmd fstep flegal] in *.
  - apply wp_bind. eapply wp_mono; [by apply act_rep|]. cbn beta. intros st s' [-> H']. by apply wp_ret.
  - apply wp_bind. eapply wp_mono; [by apply timedDispatch_rep|]. cbn beta. intros st s' [-> H']. by apply wp_ret.
  - apply wp_bind. eapply wp_mono; [apply dispatchEvent_rep; [done|by destruct (pending a)|done]|]. cbn beta. intros st s' [-> H']. by apply wp_ret.
  - apply wp_bind. eapply wp_mono; [by apply dispatch_rep|]. cbn beta. intros r s' [-> H']. apply wp_ret. by destruct (f_loop app (f_going a) others) as [[] a'].
  - destruct Hr as [disp dr name def track cl d ls next num q lg -> Hq [Hc Hlen Hw] Hd]. split; [done|]. rep_now.
  - destruct Hr as [disp dr name def track cl d ls next num q lg -> Hq [Hc Hlen Hw] Hd]. unfold mamaQueue_setHighWatermark, queue_gets. calls.
    destruct (Z.ltb_spec v (o_low (opts a))); cbn; [split; [done|]; by apply (Rep false a)|].
    unfold baseBridgeMamaQueue_setHighWatermark. rewrite (proj2 (Z.eqb_neq v 0)) by lia. cbn. split; [done|]. rep_now.
  - destruct Hr as [disp dr name def track cl d ls next num q lg -> Hq [Hc Hlen Hw] Hd]. unfold mamaQueue_setLowWatermark, queue_gets. calls.
    set (v' := if v =? 0 then 1 else v). assert (1 <= v') as Hv by (unfold v'; destruct (Z.eqb_spec v 0); lia).
    destruct (Z.ltb_spec (o_high (opts a)) v'); cbn; [split; [done|]; by apply (Rep false a)|].
    unfold baseBridgeMamaQueue_setLowWatermark. rewrite (proj2 (Z.eqb_neq v' 0)) by lia. cbn. split; [done|].
    rep_now.
  - destruct Hr as [disp dr name def track cl d ls next num q lg -> Hq [Hc Hlen Hw] Hd].
    unfold mamaQueue_setEnqueueCallback, bridge_of, queue_gets, baseBridgeMamaQueue_setEnqueueCallback. calls.
    destruct (cb =? 0); cbn; (split; [done|]); [by apply (Rep false a)|rep_now].
  - destruct Hr as [disp dr name def track cl d ls next num q lg -> Hq [Hc Hlen Hw] Hd]. unfold mamaQueue_canDestroy, queue_gets. calls.
    split; [done|]. by apply (Rep false a).
  - destruct Hr as [disp dr name def track cl d ls next num q lg -> Hq [Hc Hlen Hw] Hd].
    pose proof (eq_size q _ _ Hq) as Hs. unfold mamaQueue_getEventCount, bridge_of, queue_gets, baseBridgeMamaQueue_getEventCount, CHECK_QUEUE, on_queue.
    calls. unfold wp in Hs. destruct (eq_getSize q) as [[r q']|f]; [|done]. destruct Hs as [-> ->]. cbn in Hm |- *.
    unfold u64. rewrite uwrap_small by (unfold in_u; lia). split; [done|]. by apply (Rep false a).
Qed.

Lemma run_rep l : forall a s, rep false a s -> flegal_run app a l = true -> num_submitted (frun app a l).2 <= n ->
  wp (run_cmds app l) s (fun rs s' => rs = (frun app a l).1 /\ rep (endless rs) (frun app a l).2 s').
Proof.
  induction l as [|c l IH]; intros a s Hr Hl Hm; cbn [run_cmds frun flegal_run] in *; [by apply wp_ret|].
  apply andb_prop in Hl as [Hl1 Hl2]. pose proof (frun_mono app l (fstep app a c).2) as M.
  assert (num_submitted (fstep app a c).2 <= n) as Hm1 by (destruct ((fstep app a c).1); cbn in Hm; lia).
  apply wp_bind. eapply wp_mono; [by apply cmd_rep|]. cbn beta. intros r s' [-> H'].
  destruct ((fstep app a c).1) as [st|st k|]; cbn in Hm |- *.
  - apply wp_bind. eapply wp_mono; [by apply IH|]. cbn beta. intros rs s2 [-> H2]. by apply wp_ret.
  - apply wp_bind. eapply wp_mono; [by apply IH|]. cbn beta. intros rs s2 [-> H2]. by apply wp_ret.
  - by apply wp_ret.
Qed.

End App.
End Sim.
End MamaQueueSpec.
