(* ===== verification/MamaQueueProps.v ===== *)
(** * The event queue API: order, watermarks, destruction

    A queue on the base bridge, from its creation on, over any underlying queue
    that keeps its laws (WombatEventQueue.v has the one of the common library). *)

From S2P Require Import Prelude MamaStatus WombatQueue BaseQueue MamaQueue MamaQueueSpec WombatEventQueue.
Import BaseQueue MamaQueue MamaQueueSpec.

Module MamaQueueProps.

(** ** Order *)

Definition ran (l : list event) : list (Z * Z * Z) := omap (fun e => match e with Ran v => Some v | _ => None end) l.

Definition in_order (a : fifo) : Prop := submitted a = ran (trace a) ++ pending a.

Lemma ran_app l1 l2 : ran (l1 ++ l2) = ran l1 ++ ran l2.
Proof. apply omap_app. Qed.

Lemma ran_log_if cb e : ran [e] = [] -> ran (log_if cb e) = [].
Proof. unfold log_if. by case_match. Qed.

Lemma f_act_in_order a x : in_order a -> in_order (f_act a x).
Proof.
  unfold in_order. intros Ho. destruct x; try done. cbn. case_match; [done|]. cbn. rewrite ran_app, ran_log_if by done. by rewrite Ho, app_nil_r, app_assoc.
Qed.

Lemma f_acts_in_order l : forall a, in_order a -> in_order (f_acts a l).
Proof. induction l as [|x l IH]; intros a Ho; [done|]. apply IH. by apply f_act_in_order. Qed.

Lemma f_check_in_order a : in_order a -> in_order (f_check a).
Proof.
  unfold in_order, f_check. intros Ho. repeat case_match; cbn; try done; rewrite ran_app, ran_log_if by done; by rewrite app_nil_r.
Qed.

Lemma f_pop_in_order app a : in_order a -> in_order (f_pop app a).
Proof.
  intros Ho. unfold f_pop. destruct (pending a) as [|v l] eqn:E; [done|]. apply f_acts_in_order. unfold in_order in *. cbn.
  rewrite ran_app, Ho, E. by rewrite <- app_assoc.
Qed.

Lemma f_round_in_order app a x : in_order a -> in_order (f_round app a x).
Proof. intros Ho. by apply f_pop_in_order, f_acts_in_order, f_check_in_order, f_acts_in_order. Qed.

Lemma f_loop_in_order app l : forall a, in_order a -> in_order (f_loop app a l).2.
Proof. induction l as [|x l IH]; intros a Ho; cbn; [done|]. pose proof (f_round_in_order app a x Ho). case_match; [by apply IH|done]. Qed.

Lemma fstep_in_order app a c : in_order a -> in_order (fstep app a c).2.
Proof.
  intros Ho. destruct c; cbn; repeat case_match; cbn; try done.
  - by apply f_act_in_order.
  - by apply f_pop_in_order, f_check_in_order.
  - by apply f_pop_in_order, f_check_in_order.
  - by apply f_loop_in_order.
Qed.

Lemma frun_in_order app l : forall a, in_order a -> in_order (frun app a l).2.
Proof.
  induction l as [|c l IH]; intros a Ho; [done|]. cbn. pose proof (fstep_in_order app a c Ho). destruct ((fstep app a c).1); cbn; try done; by apply IH.
Qed.

(** ** Creation *)

Section Props.
Context {Q : Type} `{EventQueueLaws Q}.
Abbreviation QU := (M (caller * queueBridge Q)).
Abbreviation state := (caller * queueBridge Q)%type.

(** No queue yet; [num] of them had been made. *)
Definition before (num : Z) : state := (mkCaller None None ∅ 1 num [], Null).

Definition create : QU mama_status := mamaQueue_create true true true true false None.

Definition limit_submitted (a : fifo) : Prop := Z.of_nat (length (submitted a)) <= eq_limit.

Lemma new_queue_rep num : eq_allocate <> None -> wp create (before num) (fun st s => st = MAMA_STATUS_OK /\ rep eq_limit false new_fifo s).
Proof.
  intros Ha. destruct eq_allocate as [q|] eqn:E; [|done]. pose proof (eq_created q E) as Hc. unfold create, before, mamaQueue_create, user_modify, baseBridgeMamaQueue_create.
  unfold wp, mbind, M_bind, mret, M_ret, gets, modify. cbn. rewrite E. unfold wp in Hc. unfold QPID_QUEUE_MAX_SIZE, QPID_QUEUE_INITIAL_SIZE, QPID_QUEUE_CHUNK_SIZE.
  destruct (eq_create _ _ _ q) as [[st q']|f]; [|done]. destruct Hc as (-> & Hh & _). cbn. split; [done|].
  apply (Rep eq_limit false new_fifo); cbn; try done. by rewrite Z.sub_0_r.
Qed.

Lemma created_run_rep app cmds num :
  eq_allocate <> None -> flegal_run app new_fifo cmds = true -> limit_submitted (frun app new_fifo cmds).2 ->
  wp (create ;; run_cmds app cmds) (before num) (fun rs s =>
    rs = (frun app new_fifo cmds).1 /\ rep eq_limit (endless rs) (frun app new_fifo cmds).2 s).
Proof.
  intros Ha Hl Hs. apply wp_bind. eapply wp_mono; [by apply new_queue_rep|]. cbn beta. intros _ s [_ Hr].
  eapply wp_mono; [apply (run_rep eq_limit eq_limit_small app); done|]. done.
Qed.

Lemma rep_log n lk a s : rep n lk a s -> log s.1 = trace a.
Proof. by intros [disp dr name def track cl d ls next num q lg -> Hq Hs Hd]. Qed.

(** The events that wait. *)
Definition waiting (s : state) (l : list (Z * Z * Z)) : Prop :=
  exists b q n, s.2 = Impl b /\ mQueue b = Some q /\ eq_holds q l n.

Lemma rep_waiting n lk a s : rep n lk a s -> waiting s (pending a).
Proof. intros [disp dr name def track cl d ls next num q lg -> Hq Hs Hd]. by eexists _, q, _. Qed.

(** C38: a queue runs the events it is given, each once and in order. Whatever
    calls are made of a new queue (as many events as the underlying queue holds,
    single, timed and endless dispatches beside which other threads act,
    options), where the callbacks of the events, and the other threads, submit
    events, stop the dispatching and open and close objects: every reply, and
    every callback in its order, is that of the abstract queue, and the events
    that ran, followed by those that wait, are those that were submitted.
    Callbacks do not dispatch (within [mamaQueue_dispatch] they would wait for
    its lock: [dispatch_in_callback_waits]), and [mamaQueue_dispatchEvent] is
    called only while an event waits, since else it waits for one, although
    queue.h says that it returns ([dispatch_event_waits]). Watermarks are
    accepted as the code does it: a low one up to the high one, 0 for 1,
    although queue.h asks for more than 1 and less than the high one
    ([low_watermarks_accepted]). *)
Theorem queue_runs_events_in_order app cmds num :
  eq_allocate <> None -> flegal_run app new_fifo cmds = true -> limit_submitted (frun app new_fifo cmds).2 ->
  wp (create ;; run_cmds app cmds) (before num) (fun rs s =>
    rs = (frun app new_fifo cmds).1 /\ log s.1 = trace (frun app new_fifo cmds).2 /\
    exists rest, waiting s rest /\ ran (log s.1) ++ rest = submitted (frun app new_fifo cmds).2).
Proof.
  intros Ha Hl Hs. eapply wp_mono; [by apply created_run_rep|]. cbn beta. intros rs s [-> Hr]. split; [done|].
  rewrite (rep_log _ _ _ _ Hr). split; [done|]. exists (pending (frun app new_fifo cmds).2). split; [by eapply rep_waiting|].
  symmetry. by apply (frun_in_order app cmds new_fifo).
Qed.

(** ** Watermarks *)

Definition watermark (e : event) : option (bool * Z) :=
  match e with HighWatermark _ size _ => Some (true, size) | LowWatermark _ size _ => Some (false, size) | _ => None end.

(** The two kinds of callbacks come in turn. *)
Fixpoint in_turn (on : bool) (l : list (bool * Z)) : bool :=
  match l with [] => true | (b, _) :: l' => xorb on b && in_turn b l' end.
Definition raised (l : list (bool * Z)) : bool := foldl (fun _ x => x.1) false l.

Definition keeps_options (c : cmd) : bool := match c with Monitor _ _ _ | SetHigh _ | SetLow _ => false | _ => true end.

Definition setup (onHigh onLow closure high low : Z) : list cmd := [Monitor onHigh onLow closure; SetHigh high; SetLow low].

Lemma in_turn_app l : forall on x, in_turn on (l ++ [x]) = in_turn on l && xorb (foldl (fun _ x => x.1) on l) x.1.
Proof. induction l as [|[b z] l IH]; intros on x; cbn; [by destruct x as [[] ?]; destruct on|]. rewrite IH. by destruct on, b. Qed.

Section Watermarks.
Context (high low : Z).

(** [lo]: the least number of events while the alarm is on. *)
Record alarmed (lo : Z) (a : fifo) : Prop := mkAlarmed {
  al_low : o_bridgeLow (opts a) = low;
  al_high : o_bridgeHigh (opts a) = high;
  al_onHigh : o_onHigh (opts a) <> 0;
  al_onLow : o_onLow (opts a) <> 0;
  al_turn : in_turn false (omap watermark (trace a)) = true;
  al_raised : raised (omap watermark (trace a)) = alarm a;
  al_sizes : Forall (fun x => if x.1 : bool then high <= x.2 else x.2 = low) (omap watermark (trace a));
  al_size : alarm a = true -> lo <= size_of a;
}.

Lemma alarmed_ext lo lo' a a' : alarmed lo a -> opts a' = opts a \/ (exists cb cl, opts a' = mkOptions (o_low (opts a)) (o_high (opts a)) (o_bridgeLow (opts a)) (o_bridgeHigh (opts a)) (o_onHigh (opts a)) (o_onLow (opts a)) (o_monitor (opts a)) cb cl) ->
  omap watermark (trace a') = omap watermark (trace a) -> alarm a' = alarm a ->
  (lo <= size_of a -> lo' <= size_of a') -> alarmed lo' a'.
Proof.
  intros [A B C D E F G I] Ho Ht Ha Hs. destruct Ho as [Ho|(cb & cl & Ho)]; constructor; rewrite ?Ho, ?Ht, ?Ha; try done; intros Hx; by apply Hs, I.
Qed.

Lemma watermark_app l e : watermark e = None -> omap watermark (l ++ [e]) = omap watermark l.
Proof. intros He. rewrite omap_app. cbn. rewrite He. apply app_nil_r. Qed.

Lemma f_act_alarmed lo a x : alarmed lo a -> alarmed lo (f_act a x).
Proof.
  intros Ha. destruct x as [cb closure| | |]; cbn; try (eapply alarmed_ext; [exact Ha|by left|done|done|done]).
  case_match; [done|]. eapply alarmed_ext; [exact Ha|by left| |done|].
  - cbn. unfold log_if. case_match; [by rewrite app_nil_r|by apply watermark_app].
  - unfold size_of. cbn. rewrite length_app. lia.
Qed.

Lemma f_acts_alarmed lo l : forall a, alarmed lo a -> alarmed lo (f_acts a l).
Proof. induction l as [|x l IH]; intros a Ha; [done|]. apply IH. by apply f_act_alarmed. Qed.

Lemma f_alarm_alarmed lo a v size e : alarmed low a -> alarm a = negb v -> watermark e = Some (v, size) ->
  (if v : bool then high <= size else size = low) -> (v = true -> lo <= size_of a) -> alarmed lo (f_alarm a v [e]).
Proof.
  intros [A B C D E F G I] Hv He Hs Hlo. assert (omap watermark (trace (f_alarm a v [e])) = omap watermark (trace a) ++ [(v, size)]) as Et.
  { cbn. rewrite omap_app. cbn. by rewrite He. }
  constructor; rewrite ?Et; try done.
  - rewrite in_turn_app, E. unfold raised in F. rewrite F, Hv. by destruct v.
  - unfold raised. by rewrite foldl_app.
  - apply Forall_app. split; [done|]. by constructor.
Qed.

(** After a check more than [low] events wait while the alarm is on. *)
Lemma f_check_alarmed a : low < high -> alarmed low a -> alarmed (low + 1) (f_check a).
Proof.
  intros Hlh Ha. pose proof Ha as [A B C D E F G I]. unfold f_check. rewrite A, B. unfold log_if.
  rewrite (proj2 (Z.eqb_neq _ _) C), (proj2 (Z.eqb_neq _ _) D).
  destruct (alarm a) eqn:Ea; cbn [andb negb].
  - destruct (Z.eqb_spec (size_of a) low) as [Es|Es].
    + by eapply f_alarm_alarmed; [|rewrite Ea|cbn; by rewrite Es| |].
    + eapply alarmed_ext; [exact Ha|by left|done|done|lia].
  - destruct (Z.leb_spec high (size_of a)) as [Es|Es].
    + eapply f_alarm_alarmed; [done|by rewrite Ea|done|done|lia].
    + constructor; rewrite ?Ea; done.
Qed.

Lemma f_pop_alarmed app a : alarmed (low + 1) a -> alarmed low (f_pop app a).
Proof.
  intros Ha. unfold f_pop. destruct (pending a) as [|v l] eqn:E; [eapply alarmed_ext; [exact Ha|by left|done|done|lia]|].
  apply f_acts_alarmed. eapply alarmed_ext; [exact Ha|by left|by apply watermark_app|done|]. unfold size_of. rewrite E. cbn. lia.
Qed.

Lemma f_round_alarmed app a x : low < high -> alarmed low a -> alarmed low (f_round app a x).
Proof. intros Hlh Ha. by apply f_pop_alarmed, f_acts_alarmed, f_check_alarmed, f_acts_alarmed. Qed.

Lemma f_loop_alarmed app l : low < high -> forall a, alarmed low a -> alarmed low (f_loop app a l).2.
Proof. intros Hlh. induction l as [|x l IH]; intros a Ha; cbn; [done|]. pose proof (f_round_alarmed app a x Hlh Ha). case_match; [by apply IH|done]. Qed.

Lemma fstep_alarmed app a c : low < high -> keeps_options c = true -> alarmed low a -> alarmed low (fstep app a c).2.
Proof.
  intros Hlh Hc Ha. destruct c; try done; cbn.
  - by apply f_act_alarmed.
  - by apply f_pop_alarmed, f_check_alarmed.
  - by apply f_pop_alarmed, f_check_alarmed.
  - apply f_loop_alarmed; [done|]. eapply alarmed_ext; [exact Ha|by left|done|done|done].
  - case_match; [done|]. eapply alarmed_ext; [exact Ha|right; by eexists _, _|done|done|done].
Qed.

Lemma frun_alarmed app l : low < high -> forallb keeps_options l = true -> forall a, alarmed low a -> alarmed low (frun app a l).2.
Proof.
  intros Hlh. induction l as [|c l IH]; intros Hl a Ha; [done|]. cbn in Hl. apply andb_prop in Hl as [Hc Hl]. cbn.
  pose proof (fstep_alarmed app a c Hlh Hc Ha). destruct ((fstep app a c).1); cbn; try done; by apply IH.
Qed.

End Watermarks.

(** What the options leave. *)
Definition with_watermarks (onHigh onLow closure high low : Z) : fifo :=
  mkFifo [] [] false false 0 (mkOptions low high low high onHigh onLow closure 0 0) [].

Lemma setup_run app onHigh onLow closure high low cmds : 1 <= low <= high ->
  (frun app new_fifo (setup onHigh onLow closure high low ++ cmds)).2 = (frun app (with_watermarks onHigh onLow closure high low) cmds).2.
Proof.
  intros Hl. cbn. destruct (Z.ltb_spec high 1); [lia|]. cbn. destruct (Z.eqb_spec low 0); [lia|]. destruct (Z.ltb_spec high low); [lia|]. done.
Qed.

(** C39: the watermarks are an alarm.  When both callbacks and watermarks
    1 <= low < high are set on a new queue before anything else and not changed
    later, then whatever else is done with the queue (within the events the
    underlying queue holds), the callbacks come in turn, the one for the high watermark first, with at
    least [high] events waiting, that for the low watermark with exactly [low]; and
    while the last one was for the high watermark at least [low] events wait.  (A
    dispatch before the watermarks are set raises the alarm at once, as they are 0
    until then, and the callback for the low one comes first:
    [dispatch_before_watermarks].  queue.h asks for a low watermark of more than 1;
    1 is the one the code has by default.) *)
Theorem watermarks_alternate app cmds num onHigh onLow closure high low :
  eq_allocate <> None -> 1 <= low < high -> onHigh <> 0 -> onLow <> 0 -> forallb keeps_options cmds = true ->
  flegal_run app new_fifo (setup onHigh onLow closure high low ++ cmds) = true ->
  limit_submitted (frun app new_fifo (setup onHigh onLow closure high low ++ cmds)).2 ->
  wp (create ;; run_cmds app (setup onHigh onLow closure high low ++ cmds)) (before num) (fun _ s =>
    let w := omap watermark (log s.1) in
    in_turn false w = true /\ Forall (fun x => if x.1 : bool then high <= x.2 else x.2 = low) w /\
    exists rest, waiting s rest /\ (raised w = true -> low <= Z.of_nat (length rest))).
Proof.
  intros Ha Hlh H1 H2 Hk Hl Hs. eapply wp_mono; [by apply created_run_rep|]. cbn beta. intros rs s [_ Hr].
  rewrite (rep_log _ _ _ _ Hr). apply rep_waiting in Hr. rewrite setup_run in Hr |- * by lia.
  destruct (frun_alarmed high low app cmds ltac:(lia) Hk (with_watermarks onHigh onLow closure high low)) as [A B C D E F G I]; [by constructor|].
  split; [done|]. split; [done|]. eexists. split; [exact Hr|]. rewrite F. exact I.
Qed.

(** ** Destruction *)

Lemma destroy_open a s : objects a <> 0 -> rep eq_limit false a s -> wp (mamaQueue_destroy true) s (fun st s' => st = MAMA_STATUS_QUEUE_OPEN_OBJECTS /\ s' = s).
Proof.
  intros Ho [disp dr name def track cl d ls next num q lg -> Hq Hs Hd]. unfold mamaQueue_destroy, queue_gets, wp, mbind, M_bind. cbn.
  by rewrite (proj2 (Z.eqb_neq _ _) Ho).
Qed.

(** Nothing is left of the queue. *)
Definition gone (s : state) : Prop := queue s.1 = None /\ s.2 = Freed.

Lemma destroy_closed a s : objects a = 0 -> rep eq_limit false a s ->
  wp (mamaQueue_destroy true) s (fun st s' => st = MAMA_STATUS_OK /\ gone s' /\ log s'.1 = trace a).
Proof.
  intros Ho [disp dr name def track cl d ls next num q lg -> Hq Hs Hd]. pose proof (eq_destroyed q _ _ Hq) as He.
  unfold mamaQueue_destroy, queue_gets, queue_modify, dispatcher_modify, baseBridgeMamaQueue_destroy, dispatch_lock, dispatch_unlock, bridge_gets, bridge_modify,
    CHECK_QUEUE, user_modify, gone.
  rewrite Ho. destruct dr.
  - destruct (Hd eq_refl) as [x ->]. unfold wp, mbind, M_bind, mret, M_ret, gets, modify. cbn. rewrite He. done.
  - unfold wp, mbind, M_bind, mret, M_ret, gets, modify. cbn. rewrite He. done.
Qed.

(** The queue after [k] timed dispatches. *)
Definition rounds (app : Z * Z * Z -> list action) (k : nat) (a : fifo) : fifo := Nat.iter k (f_timed app) a.

Lemma rounds_S app k a : rounds app (S k) a = rounds app k (f_timed app a).
Proof. unfold rounds. apply Nat.iter_succ_r. Qed.

Lemma f_timed_mono app a : (length (submitted a) <= length (submitted (f_timed app a)))%nat.
Proof. pose proof (f_pop_mono app (f_check a)). rewrite f_check_submitted in *. done. Qed.

Lemma rounds_mono app k : forall a, (length (submitted a) <= length (submitted (rounds app k a)))%nat.
Proof. induction k as [|k IH]; intros a; [done|]. rewrite rounds_S. specialize (IH (f_timed app a)). pose proof (f_timed_mono app a). lia. Qed.

Lemma wait_loop_closes app k : forall fuel a s, rep eq_limit false a s -> objects a <> 0 -> (k <= fuel)%nat ->
  objects (rounds app k a) = 0 -> (forall j, (j < k)%nat -> objects (rounds app j a) <> 0) -> limit_submitted (rounds app k a) ->
  wp (destroy_wait_loop (app_calls app) fuel MAMA_STATUS_QUEUE_OPEN_OBJECTS) s (fun st s' => st = MAMA_STATUS_OK /\ gone s' /\ log s'.1 = trace (rounds app k a)).
Proof.
  induction k as [|k IH]; intros fuel a s Hr Ho Hf Hk Hj Hm; [done|]. destruct fuel as [|fuel]; [lia|]. cbn [destroy_wait_loop has_open_objects].
  rewrite rounds_S in *. unfold limit_submitted in Hm. pose proof (rounds_mono app k (f_timed app a)) as Mo.
  apply wp_bind. eapply wp_mono; [apply (timedDispatch_rep eq_limit eq_limit_small app a); [done|lia]|]. cbn beta. intros st s1 [-> H1]. cbn [status_ok].
  apply wp_bind. destruct (decide (objects (f_timed app a) = 0)) as [E|E].
  - destruct k as [|k]; [|exfalso; apply (Hj 1%nat); [lia|exact E]]. eapply wp_mono; [by eapply destroy_closed|]. cbn beta. intros st s2 (-> & H2 & H3).
    destruct fuel; by apply wp_ret.
  - eapply wp_mono; [by eapply destroy_open|]. cbn beta. intros st s2 [-> ->]. apply IH; try done; [lia|].
    intros j Hlt. specialize (Hj (S j) ltac:(lia)). by rewrite rounds_S in Hj.
Qed.

Lemma wait_loop_endless app fuel : forall a s, rep eq_limit false a s -> (forall j, (j <= fuel)%nat -> objects (rounds app j a) <> 0) ->
  limit_submitted (rounds app fuel a) -> destroy_wait_loop (app_calls app) fuel MAMA_STATUS_QUEUE_OPEN_OBJECTS s = Fail OutOfFuel.
Proof.
  induction fuel as [|fuel IH]; intros a s Hr Hj Hm; [done|]. cbn [destroy_wait_loop has_open_objects]. rewrite rounds_S in Hm. unfold limit_submitted in Hm.
  pose proof (rounds_mono app fuel (f_timed app a)) as Mo.
  pose proof (timedDispatch_rep eq_limit eq_limit_small app a s Hr ltac:(lia)) as Ht. unfold mbind, M_bind, wp in *.
  destruct (mamaQueue_timedDispatch _ _ s) as [[st s1]|f]; [|done]. destruct Ht as [-> H1]. cbn [status_ok].
  pose proof (destroy_open (f_timed app a) s1 (Hj 1%nat ltac:(lia)) H1) as Hd. unfold wp in Hd. destruct (mamaQueue_destroy true s1) as [[st s2]|f]; [|done].
  destruct Hd as [-> ->]. apply (IH (f_timed app a)); try done. intros j Hlt. specialize (Hj (S j) ltac:(lia)). by rewrite rounds_S in Hj.
Qed.

(** C40: a wait ends exactly when the events close the objects.  On a queue that any
    calls brought about of which the last dispatch has returned, and that no other
    thread uses: if the callbacks of the events that wait have closed all objects
    after [k] events (and not before), the destruction that waits runs just these
    [k] events, returns MAMA_STATUS_OK and leaves nothing; and it does not return
    for as long as objects stay open.  (While a dispatch that was not stopped holds
    the lock of the queue the destruction waits for it for ever:
    [destroy_beside_dispatcher].) *)
Theorem destroy_wait_ends app cmds num k fuel :
  let a := (frun app new_fifo cmds).2 in
  eq_allocate <> None -> flegal_run app new_fifo cmds = true -> endless (frun app new_fifo cmds).1 = false ->
  (forall j, (j < k)%nat -> objects (rounds app j a) <> 0) -> limit_submitted (rounds app k a) ->
  (objects (rounds app k a) = 0 -> (k <= fuel)%nat ->
     wp (create ;; run_cmds app cmds ;; mamaQueue_destroyWait (app_calls app) fuel true) (before num) (fun st s =>
       st = MAMA_STATUS_OK /\ gone s /\ log s.1 = trace (rounds app k a))) /\
  (objects (rounds app k a) <> 0 ->
     (create ;; run_cmds app cmds ;; mamaQueue_destroyWait (app_calls app) k true) (before num) = Fail OutOfFuel).
Proof.
  intros a Ha Hl He Hj Hm. unfold limit_submitted in Hm. pose proof (rounds_mono app k a) as Mo.
  pose proof (created_run_rep app cmds num Ha Hl ltac:(unfold limit_submitted; fold a; lia)) as Hc. fold a in Hc. split.
  - intros Hk Hf. unfold wp, mbind, M_bind in Hc |- *. destruct (create (before num)) as [[st s1]|f]; [|done].
    destruct (run_cmds app cmds s1) as [[rs s2]|f]; [|done]. destruct Hc as [-> Hr]. rewrite He in Hr.
    unfold mamaQueue_destroyWait. cbn [negb]. match goal with |- match ?m s2 with _ => _ end => change (wp m s2 (fun st s => st = MAMA_STATUS_OK /\ gone s /\ log s.1 = trace (rounds app k a))) end.
    apply wp_bind. destruct k as [|k].
    + eapply wp_mono; [by eapply destroy_closed|]. cbn beta. intros st' s3 (-> & Hg & Hlog). by destruct fuel.
    + pose proof (Hj 0%nat ltac:(lia)) as Ho. eapply wp_mono; [by eapply destroy_open|]. cbn beta. intros st' s3 [-> ->]. by apply wait_loop_closes.
  - intros Hk. unfold wp, mbind, M_bind in Hc |- *. destruct (create (before num)) as [[st s1]|f]; [|done].
    destruct (run_cmds app cmds s1) as [[rs s2]|f]; [|done]. destruct Hc as [-> Hr]. rewrite He in Hr.
    unfold mamaQueue_destroyWait. cbn [negb]. assert (forall j, (j <= k)%nat -> objects (rounds app j a) <> 0) as Hall.
    { intros j Hle. destruct (decide (j = k)) as [->|]; [done|]. apply Hj. lia. }
    pose proof (destroy_open a s2 (Hall 0%nat ltac:(lia)) Hr) as Hd. unfold wp, mbind, M_bind in Hd |- *.
    destruct (mamaQueue_destroy true s2) as [[st' s3]|f]; [|done]. destruct Hd as [-> ->]. by apply (wait_loop_endless app k a).
Qed.

(** The wait with a time: what is open is tested after every 10 ms. *)
Definition tests (timeout : Z) : nat := Z.to_nat ((timeout + 9) / 10).

Lemma gone_not_rep a s : gone s -> rep eq_limit false a s -> False.
Proof. intros [Hg _] Hr. destruct Hr. by cbn in Hg. Qed.

Lemma timed_wait_loop_ends app timeout m : forall fuel a s t, rep eq_limit false a s -> objects a <> 0 -> 0 <= t -> timeout < 2 ^ 62 ->
  (timeout - t + 9) / 10 = Z.of_nat m -> (m <= fuel)%nat -> limit_submitted (rounds app m a) ->
  wp (destroy_timed_wait_loop (app_calls app) fuel timeout MAMA_STATUS_QUEUE_OPEN_OBJECTS t) s (fun r s' =>
    (r.1 = MAMA_STATUS_OK \/ r.1 = MAMA_STATUS_QUEUE_OPEN_OBJECTS /\ timeout <= r.2) /\
    (gone s' <-> exists k, (k <= m)%nat /\ objects (rounds app k a) = 0)).
Proof.
  induction m as [|m IH]; intros fuel a s t Hr Ho Ht Hb Hm Hf Hs.
  - assert (timeout <= t) as Hle by (pose proof (Z.div_mod (timeout - t + 9) 10 ltac:(lia)); pose proof (Z.mod_pos_bound (timeout - t + 9) 10 ltac:(lia)); lia).
    assert (destroy_timed_wait_loop (app_calls app) fuel timeout MAMA_STATUS_QUEUE_OPEN_OBJECTS t = mret (MAMA_STATUS_QUEUE_OPEN_OBJECTS, t)) as ->.
    { destruct fuel; cbn; by rewrite (proj2 (Z.ltb_ge _ _) Hle). }
    apply wp_ret. split; [by right|]. split; [intros Hg; by destruct (gone_not_rep a s)|]. intros (k & Hk & E). by replace k with 0%nat in E by lia.
  - assert (t < timeout) as Hlt by (destruct (Z.lt_ge_cases t timeout); [done|]; assert ((timeout - t + 9) / 10 <= 0) by (pose proof (Z.div_le_upper_bound (timeout - t + 9) 10 0); pose proof (Z.div_lt_upper_bound (timeout - t + 9) 10 1); lia); lia).
    destruct fuel as [|fuel]; [lia|]. cbn [destroy_timed_wait_loop has_open_objects]. rewrite (proj2 (Z.ltb_lt _ _) Hlt). cbn [andb].
    rewrite rounds_S in Hs. unfold limit_submitted in Hs. pose proof (rounds_mono app m (f_timed app a)) as Mo.
    apply wp_bind. eapply wp_mono; [apply (timedDispatch_rep eq_limit eq_limit_small app a); [done|lia]|]. cbn beta. intros st s1 [-> H1]. cbn [status_ok].
    rewrite i64_small by lia. apply wp_bind. destruct (decide (objects (f_timed app a) = 0)) as [E|E].
    + eapply wp_mono; [by eapply destroy_closed|]. cbn beta. intros st s2 (-> & H2 & H3).
      assert (destroy_timed_wait_loop (app_calls app) fuel timeout MAMA_STATUS_OK (t + 10) = mret (MAMA_STATUS_OK, t + 10)) as -> by by destruct fuel.
      apply wp_ret. split; [by left|]. split; [intros _|done]. exists 1%nat. split; [lia|done].
    + eapply wp_mono; [by eapply destroy_open|]. cbn beta. intros st s2 [-> ->].
      eapply wp_mono; [apply (IH fuel (f_timed app a)); try done; [lia| |lia]|].
      * replace (timeout - t + 9) with (timeout - (t + 10) + 9 + 1 * 10) in Hm by lia. rewrite Z.div_add in Hm by lia. lia.
      * cbn beta. intros r s3 [Hst Hg]. split; [done|]. rewrite Hg. split; intros (k & Hk & Ek).
        -- exists (S k). split; [lia|]. by rewrite rounds_S.
        -- destruct k as [|k]; [done|]. exists k. split; [lia|]. by rewrite rounds_S in Ek.
Qed.

(** The wait with a time returns MAMA_STATUS_OK whether the queue was destroyed or
    not, where MAMA_STATUS_TIMEOUT is documented. *)
Theorem timed_wait_tells_nothing app cmds num timeout :
  let a := (frun app new_fifo cmds).2 in
  eq_allocate <> None -> flegal_run app new_fifo cmds = true -> endless (frun app new_fifo cmds).1 = false ->
  0 < timeout < 2 ^ 62 -> limit_submitted (rounds app (tests timeout) a) ->
  wp (create ;; run_cmds app cmds ;; mamaQueue_destroyTimedWait (app_calls app) true timeout) (before num) (fun st s =>
    st = MAMA_STATUS_OK /\ (gone s <-> exists k, (k <= tests timeout)%nat /\ objects (rounds app k a) = 0)).
Proof.
  intros a Ha Hl He Ht Hm. unfold limit_submitted in Hm. pose proof (rounds_mono app (tests timeout) a) as Mo.
  pose proof (created_run_rep app cmds num Ha Hl ltac:(unfold limit_submitted; fold a; lia)) as Hc. fold a in Hc.
  unfold wp, mbind, M_bind in Hc |- *. destruct (create (before num)) as [[st s1]|f]; [|done].
  destruct (run_cmds app cmds s1) as [[rs s2]|f]; [|done]. destruct Hc as [-> Hr]. rewrite He in Hr.
  unfold mamaQueue_destroyTimedWait. cbn [negb]. rewrite (proj2 (Z.leb_gt _ _)) by lia.
  match goal with |- match ?m s2 with _ => _ end => change (wp m s2 (fun st s => st = MAMA_STATUS_OK /\ (gone s <-> exists k, (k <= tests timeout)%nat /\ objects (rounds app k a) = 0))) end.
  apply wp_bind. destruct (decide (objects a = 0)) as [E|E].
  - eapply wp_mono; [by eapply destroy_closed|]. cbn beta. intros st' s3 (-> & Hg & Hlog). apply wp_bind.
    assert (destroy_timed_wait_loop (app_calls app) (Z.to_nat (timeout / 10 + 1)) timeout MAMA_STATUS_OK 0 = mret (MAMA_STATUS_OK, 0)) as -> by by destruct (Z.to_nat (timeout / 10 + 1)).
    apply wp_ret, wp_ret. split; [done|]. split; [intros _|done]. exists 0%nat. split; [lia|done].
  - eapply wp_mono; [by eapply destroy_open|]. cbn beta. intros st' s3 [-> ->]. apply wp_bind.
    eapply wp_mono; [apply (timed_wait_loop_ends app timeout (tests timeout)); try done; [lia| |]|].
    + unfold tests. rewrite Z2Nat.id by (apply Z.div_pos; lia). f_equal. lia.
    + unfold tests. assert ((timeout + 9) / 10 <= timeout / 10 + 1) by (replace (timeout + 9) with (timeout - 1 + 1 * 10) by lia; rewrite Z.div_add by lia; pose proof (Z.div_le_mono (timeout - 1) timeout 10); lia).
      pose proof (Z.div_pos timeout 10). lia.
    + cbn beta. intros r s4 [Hst Hg]. apply wp_ret. split; [|done]. destruct Hst as [->|[-> Hle]]; [done|]. cbn. by rewrite (proj2 (Z.leb_le _ _) Hle).
Qed.

End Props.

(** ** On the queue of the common library *)

Definition LIMIT : Z := 1000000.
Lemma LIMIT_enough : WombatQueue.FIRST + WombatEventQueue.chunk_bytes <= LIMIT.
Proof. by vm_compute. Qed.
Definition demo_queue : EventQueue WombatQueue.wombatQueueImpl := WombatEventQueue.wombat_event_queue LIMIT.
Definition demo_laws : @EventQueueLaws _ demo_queue := WombatEventQueue.wombat_event_queue_laws LIMIT LIMIT_enough.
Lemma demo_limit (a : fifo) : (Z.of_nat (length (submitted a)) <=? 300) = true -> @limit_submitted _ demo_queue demo_laws a.
Proof.
  intros Ha%Z.leb_le. apply (Z.le_trans _ 300); [exact Ha|]. pose proof (WombatEventQueue.wombat_event_queue_limit LIMIT LIMIT_enough) as E.
  change (300 <= @eq_limit _ _ (WombatEventQueue.wombat_event_queue_laws LIMIT LIMIT_enough)). rewrite E. apply Z.leb_le. vm_compute. reflexivity.
Qed.

(** The event with callback 2 submits another one, 3 stops, 4 closes an object. *)
Definition demo_app (v : Z * Z * Z) : list action :=
  match v.1.1 with 2 => [Enqueue 1 7] | 3 => [Stop] | 4 => [CloseObject] | _ => [] end.

Definition demo_cmds : list cmd :=
  [Act (Enqueue 1 10); Act (Enqueue 2 20); DispatchEvent; OnEnqueue 9 90; Act OpenObject;
   Dispatch [([Enqueue 1 11], []); ([], [Enqueue 3 30]); ([], []); ([], []); ([Enqueue 1 1], [])]; EventCount; CanDestroy].

Definition demo_watermarks : list cmd :=
  [Act (Enqueue 1 1); Act (Enqueue 1 2); Act (Enqueue 1 3); TimedDispatch; Act (Enqueue 1 4); Act (Enqueue 1 5); TimedDispatch; TimedDispatch; TimedDispatch;
   Act (Enqueue 1 6); Act (Enqueue 1 7); Act (Enqueue 1 8); TimedDispatch].

Definition demo_open : list cmd := [Act OpenObject; Act (Enqueue 1 1); Act (Enqueue 4 2); Act (Enqueue 1 3)].

Abbreviation demo_run m := (m (@before WombatQueue.wombatQueueImpl 0)).
Abbreviation demo_create := (@create _ demo_queue).

(** With callbacks and no watermarks an empty queue tells that it passed its high
    watermark, and then that it is back at the low one. *)
Example no_watermarks :
  (fun s => log s.1) <$> state_of (demo_run (demo_create ;; @run_cmds _ demo_queue demo_app [Monitor 5 6 0; TimedDispatch; TimedDispatch]))
  = Some [HighWatermark 5 0 0; LowWatermark 6 0 0].
Proof. vm_compute. reflexivity. Qed.

(** A single dispatch of an empty queue waits for an event. *)
Example dispatch_event_waits :
  demo_run (demo_create ;; @mamaQueue_dispatchEvent _ demo_queue (fun _ => mret tt) true) = Fail Blocked.
Proof. vm_compute. reflexivity. Qed.

(** A callback that dispatches waits for the lock its own thread holds. *)
Example dispatch_in_callback_waits :
  demo_run (demo_create ;; @mamaQueue_enqueueEvent _ demo_queue true 1 1 ;;
    @mamaQueue_dispatch _ demo_queue (fun _ => @mamaQueue_dispatch _ demo_queue (fun _ => mret tt) true [] ;; mret tt) true [(mret tt, mret tt)])
  = Fail Blocked.
Proof. vm_compute. reflexivity. Qed.

(** Low watermarks of 1, of 0, which is made 1, and of the high watermark. *)
Example low_watermarks_accepted :
  value_of (demo_run (demo_create ;; @run_cmds _ demo_queue demo_app [SetHigh 3; SetLow 1; SetLow 0; SetLow 3; SetLow 4]))
  = Some [Status MAMA_STATUS_OK; Status MAMA_STATUS_OK; Status MAMA_STATUS_OK; Status MAMA_STATUS_OK; Status MAMA_STATUS_INVALID_ARG].
Proof. vm_compute. reflexivity. Qed.

(** The alarm is on when the watermarks are set. *)
Example dispatch_before_watermarks :
  (fun s => omap watermark (log s.1)) <$> state_of (demo_run (demo_create ;; @run_cmds _ demo_queue demo_app
     ([TimedDispatch] ++ setup 5 6 0 4 2 ++ [Act (Enqueue 1 1); Act (Enqueue 1 2); TimedDispatch])))
  = Some [(false, 2)].
Proof. vm_compute. reflexivity. Qed.

(** The destruction waits for the lock of a dispatch that is not stopped. *)
Example destroy_beside_dispatcher :
  demo_run (demo_create ;; @run_cmds _ demo_queue demo_app [Dispatch [([], [])]] ;;
    @mamaQueue_destroyWait _ demo_queue (@app_calls _ demo_queue demo_app) 5 true) = Fail Blocked.
Proof. vm_compute. reflexivity. Qed.

(** A high watermark of 0, which is documented to disable the callbacks, is refused. *)
Example zero_high_watermark :
  value_of (demo_run (demo_create ;; @mamaQueue_setHighWatermark _ true 0)) = Some MAMA_STATUS_INVALID_ARG.
Proof. vm_compute. reflexivity. Qed.

(** The low watermark is 1 until it is set, but the bridge has 0. *)
Example default_low_watermark :
  (fun s => log s.1) <$> state_of (demo_run (demo_create ;; @run_cmds _ demo_queue demo_app
     [Monitor 5 6 0; SetHigh 2; Act (Enqueue 1 1); Act (Enqueue 1 2); TimedDispatch; TimedDispatch; TimedDispatch]))
  = Some [HighWatermark 5 2 0; Ran (1, QUEUE, 1); Ran (1, QUEUE, 2); LowWatermark 6 0 0].
Proof. vm_compute. reflexivity. Qed.

(** A dispatcher that is destroyed after its queue uses the pointer to the queue,
    which is NULL by then. *)
Example dispatcher_outlives_queue :
  value_of (demo_run (demo_create ;; mamaDispatcher_create true true true (Some true) ;; @mamaQueue_destroy _ demo_queue true ;; mamaDispatcher_destroy true (mret tt))) = None
  /\ value_of (demo_run (demo_create ;; mamaDispatcher_create true true true (Some true) ;; mamaDispatcher_destroy true (mret tt) ;; @mamaQueue_destroy _ demo_queue true))
     = Some MAMA_STATUS_OK.
Proof. split; vm_compute; reflexivity. Qed.

(** Without memory for its message a queue is destroyed while its caller goes on
    with it. *)
Example no_message_uses_freed :
  value_of (demo_run (demo_create ;; @mamaQueueImpl_getMsg _ demo_queue true 0)) = None /\
  value_of (demo_run (@mamaQueue_create_usingNative _ demo_queue true true true true 0 (WombatQueue.wombatQueue_allocate LIMIT))) = None.
Proof. split; vm_compute; reflexivity. Qed.

(** The lock of a queue on a native queue was not initialised. *)
Example native_queue_lock :
  value_of (demo_run (@mamaQueue_create_usingNative _ demo_queue true true true true 5 (WombatQueue.wombatQueue_allocate LIMIT) ;; @mamaQueue_destroy _ demo_queue true)) = None.
Proof. vm_compute. reflexivity. Qed.

Lemma queue_runs_events_in_order_witness :
  exists s rest, state_of (demo_run (demo_create ;; @run_cmds _ demo_queue demo_app demo_cmds)) = Some s /\
    ran (log s.1) = [(1, QUEUE, 10); (2, QUEUE, 20); (1, QUEUE, 11); (1, QUEUE, 7); (3, QUEUE, 30)] /\ rest = [] /\ @waiting _ demo_queue demo_laws s rest.
Proof.
  pose proof (@queue_runs_events_in_order _ demo_queue demo_laws demo_app demo_cmds 0 ltac:(discriminate) ltac:(reflexivity) ltac:(apply demo_limit; reflexivity)) as W.
  destruct (proj1 (wp_elim _ _ _) W) as (rs & s & R & _ & Elog & rest & Hw & E). exists s, rest. split; [exact (f_equal state_of R)|]. rewrite Elog in E |- *.
  split; [reflexivity|]. split; [|exact Hw]. apply (app_inv_head [(1, QUEUE, 10); (2, QUEUE, 20); (1, QUEUE, 11); (1, QUEUE, 7); (3, QUEUE, 30)]).
  rewrite app_nil_r. exact E.
Defined.

Lemma watermarks_alternate_witness :
  exists s rest, state_of (demo_run (demo_create ;; @run_cmds _ demo_queue demo_app (setup 5 6 0 4 2 ++ demo_watermarks))) = Some s /\
    omap watermark (log s.1) = [(true, 4); (false, 2); (true, 4)] /\ @waiting _ demo_queue demo_laws s rest /\ 2 <= Z.of_nat (length rest).
Proof.
  pose proof (@watermarks_alternate _ demo_queue demo_laws demo_app demo_watermarks 0 5 6 0 4 2 ltac:(discriminate) ltac:(lia) ltac:(lia) ltac:(lia)
    ltac:(reflexivity) ltac:(reflexivity) ltac:(apply demo_limit; reflexivity)) as W.
  destruct (proj1 (wp_elim _ _ _) W) as (rs & s & E & _ & _ & rest & Hw & Hr). pose proof E as R.
  assert (omap watermark (log s.1) = [(true, 4); (false, 2); (true, 4)]) as Ew.
  { apply (f_equal (fun r => (fun s => omap watermark (log s.1)) <$> state_of r)) in E. vm_compute in E. by injection E. }
  exists s, rest. split; [exact (f_equal state_of R)|]. split; [exact Ew|]. split; [exact Hw|]. apply Hr. rewrite Ew. reflexivity.
Defined.

Lemma destroy_wait_ends_witness :
  exists s, state_of (demo_run (demo_create ;; @run_cmds _ demo_queue demo_app demo_open ;; @mamaQueue_destroyWait _ demo_queue (@app_calls _ demo_queue demo_app) 5 true)) = Some s /\
    gone s /\ ran (log s.1) = [(1, QUEUE, 1); (4, QUEUE, 2)].
Proof.
  pose proof (@destroy_wait_ends _ demo_queue demo_laws demo_app demo_open 0 2 5) as W. cbv zeta in W.
  destruct W as [W _]; [discriminate|reflexivity|reflexivity| |apply demo_limit; reflexivity|].
  { intros j Hj. destruct j as [|[|j]]; [by vm_compute|by vm_compute|lia]. }
  specialize (W ltac:(reflexivity) ltac:(lia)).
  destruct (proj1 (wp_elim _ _ _) W) as (st & s & R & _ & Hg & Hl). exists s. split; [exact (f_equal state_of R)|]. split; [exact Hg|]. rewrite Hl. reflexivity.
Defined.

Lemma timed_wait_tells_nothing_witness :
  exists s, state_of (demo_run (demo_create ;; @run_cmds _ demo_queue demo_app demo_open ;; @mamaQueue_destroyTimedWait _ demo_queue (@app_calls _ demo_queue demo_app) true 10)) = Some s /\
    ~ gone s.
Proof.
  pose proof (@timed_wait_tells_nothing _ demo_queue demo_laws demo_app demo_open 0 10) as W. cbv zeta in W.
  specialize (W ltac:(discriminate) ltac:(reflexivity) ltac:(reflexivity) ltac:(lia) ltac:(apply demo_limit; reflexivity)).
  destruct (proj1 (wp_elim _ _ _) W) as (st & s & R & _ & Wg). exists s. split; [exact (f_equal state_of R)|]. intros Hg. apply Wg in Hg as (k & Hk & E). destruct k as [|[|k]]; [discriminate E|discriminate E|].
  assert (tests 10 = 1%nat) as Et by reflexivity. lia.
Defined.

End MamaQueueProps.
